(* ===== verification/_CoqProject ===== *)
-Q . S2P
Prelude.v
GoStd.v
Bytes.v
NetIP.v
CliFlags.v
CliArgs.v
CliSpec.v
CliThms.v
Sha256.v
Crypto.v
CryptoThms.v
TSAddr.v
FlowTrack.v
Packet.v
PacketThms.v
Filter.v
FilterThms.v
Headers.v
HeadersThms.v
Headers6Thms.v
Checksum.v
ChecksumThms.v
Serve.v
ServeThms.v
Netstack.v
NetstackThms.v
InboundThms.v
Tunnel.v
UdpThms.v
TunnelThms.v
ControlConn.v
ControlConnThms.v
ControlStreamThms.v
Noise.v
NoiseThms.v
PeerMap.v
PeerMapThms.v
PeerUpdateThms.v
Disco.v
DiscoThms.v
DiscoRx.v
DiscoRxThms.v
Tsmp.v
TsmpThms.v
TunWrap.v
Engine.v
NatThms.v
TunWrapThms.v
TunNatThms.v
EngineThms.v
FilterRules.v
FilterRulesThms.v
TailCfg.v
MapSession.v
NetMap.v
MapThms.v
MapSessionThms.v
NetMapThms.v
Paths.v
PathsThms.v
Relay.v
RelayThms.v
RelayRunThms.v
Tka.v
TkaChain.v
TkaText.v
TkaThms.v
TkaChainThms.v
TkaPickThms.v
TkaCompact.v
TkaRecovery.v
TkaBackend.v
TkaCompactThms.v
TkaPurgeThms.v
TkaOfferThms.v
TkaSyncThms.v
TkaRunsThms.v
TkaBackendThms.v
TkaRecoveryThms.v
TkaBuildThms.v
