(* ===== verification/Prelude.v ===== *)
(** * Verification of tunnneji-tail

    tunnneji-tail is a command line tool ([src/cmd/tunnneji-tail]) that joins a
    tailnet in userspace and tunnels TCP and UDP ports over it.  Below the command line
    it is the Tailscale client: a network stack in the process ([wgengine/netstack]), a
    packet filter and a TUN wrapper around WireGuard ([wgengine/filter], [net/tstun],
    [wgengine]), a packet socket that finds paths to peers ([wgengine/magicsock],
    [disco]), and a control client that learns the peers and the rules from a server
    ([control], [ipn/ipnlocal]).

    ** How code is modelled

    The embedding is shallow.  A Go function is a Rocq function; a method that changes
    its receiver takes and returns the state; an error is [Err], a run-time panic
    (an index or slice out of range) is [Panic] of the type [res] below.  Integers are
    [Z], cut to their width where the code relies on it; bytes are [list Z] with the
    invariant [bytes_ok]; strings are byte strings.  Pointers that are shared (the flow
    states of filters, the infos and endpoints of peers, the receive buffers) live in
    explicit stores.  A mutex makes its critical section one step; where goroutines meet on
    channels ([Relay]), the state has a phase for each of them, and a run is a list of
    steps.  Code that is not part of the repository (ciphers, Curve25519, Ed25519, BLAKE2s, CBOR, the bart trie,
    netipx, gVisor, wireguard-go, the operating system) is a parameter, in most cases a
    class with the laws its documentation states; every theorem under such a law has a
    witness with an instance.

    ** The files

    - [Prelude], [GoStd], [Bytes], [NetIP]: results, tactics and hints; strings and
      numbers of Go; byte slices with their bounds; [net/netip].
    - [CliFlags], [CliArgs], [CliSpec], [CliThms]: [cli/root.go], the flags of tunnels
      and groups, against a declarative reading of the command line.
    - [Sha256], [Crypto], [CryptoThms]: [wgengine/netstack/crypto.go], the password
      encryption of tunnels.
    - [TSAddr]: [net/tsaddr] and [net/ipset].  [FlowTrack]: [net/flowtrack].
    - [Packet], [PacketThms]: [net/packet/packet.go].  [Headers], [HeadersThms],
      [Headers6Thms], [Checksum], [ChecksumThms]: packet generation and the incremental
      checksums.  [Tsmp], [TsmpThms]: [net/packet/tsmp.go].
    - [Filter], [FilterThms]: [wgengine/filter].  [FilterRules], [FilterRulesThms]:
      [wgengine/filter/tailcfg.go], filter rules in text.
    - [Serve], [ServeThms]: [ipn/serve.go] and [ipn/ipnlocal/serve.go].
    - [Netstack], [NetstackThms], [InboundThms]: [wgengine/netstack/netstack.go] and
      [proxymap].
    - [Tunnel], [UdpThms], [TunnelThms]: [cli/tunnel.go] and [cli/engine.go], and the
      end-to-end theorems of tunnels.
    - [ControlConn], [ControlConnThms], [ControlStreamThms], [Noise], [NoiseThms]:
      [control/controlbase], the encrypted connection to the server and its handshake.
    - [PeerMap], [PeerMapThms], [PeerUpdateThms]: [wgengine/magicsock/peermap.go] and
      the updates of peers in [magicsock.go].
    - [Disco], [DiscoThms], [DiscoRx], [DiscoRxThms]: [disco/disco.go], and the
      reception of datagrams in [magicsock.go].  [Paths], [PathsThms]: the paths to a
      peer in [wgengine/magicsock/endpoint.go].  [Relay], [RelayThms],
      [RelayRunThms]: [wgengine/magicsock/relaymanager.go], paths through relay servers.
    - [TunWrap], [NatThms], [TunWrapThms], [TunNatThms]: [net/tstun/wrap.go].
      [Engine], [EngineThms]: [wgengine/userspace.go] and [pendopen.go].
    - [TailCfg], [MapSession], [MapThms], [MapSessionThms]: the messages of the control
      plane and [control/controlclient/map.go], with [types/netmap/nodemut.go].
      [NetMap], [NetMapThms]: the network map in [ipn/ipnlocal] ([node_backend.go],
      [tailnet-lock.go] and the updates in [local.go]) and [wgengine/wgcfg/nmcfg].
    - [Tka], [TkaThms], [TkaChain], [TkaChainThms], [TkaPickThms], [TkaBuildThms],
      [TkaText]: [tka], the key authority of the tailnet lock: signatures over node keys,
      update messages, the chains of them with forks, storage, builder and offers, and
      the text forms of hashes and offers.
    - [TkaCompact], [TkaCompactThms], [TkaPurgeThms]: the compaction of storage in
      [tka/tailchonk.go].  [TkaOfferThms], [TkaSyncThms]: what offers of
      a node name and what two nodes have after an exchange.  [TkaRunsThms]: nodes over
      their whole lives - bootstrap, updates, restarts and compactions.
    - [TkaRecovery], [TkaRecoveryThms]: retroactive revocation of keys in [tka/tka.go].
    - [TkaBackend], [TkaBackendThms]: [ipn/ipnlocal/tailnet-lock.go], the tailnet lock
      in the local backend: synchronization with the control plane, enabling, disabling,
      signing and recovery.

    ** How the parts meet

    The command line gives groups of tunnels ([CliArgs]), which [Tunnel] turns into the
    configuration of the network stack and of serving; an accepted connection goes
    through [Netstack], [Serve] and, with a password, [Crypto].  A datagram enters at
    [DiscoRx], which tells discovery messages from WireGuard packets; decrypted packets
    pass [TunWrap] with the hooks of [Engine], the [Filter] and the inbound hook of
    [Netstack].  Messages of the server come through [ControlConn] to [MapSession],
    whose peers go through [NetMap] into the configurations that [TunWrap], [Engine]
    and [PeerMap] use, and whose rules go through [FilterRules] into the [Filter].
    With a tailnet lock [NetMap] asks the authority of [TkaChain] about every peer, which
    [TkaBackend] bootstraps, brings up to date and compacts as the network map says.
    [Paths] are the endpoints that [PeerMap] indexes: they send what WireGuard
    encrypted, and are told of the pongs and pings that [DiscoRx] received.  [Relay] gets
    the messages about relay servers from [DiscoRx], asks for allocations when an endpoint
    of [Paths] wants a path, and reports the one it found to it.

    ** What the theorems show

    - Tunnels: a command line means what its declarative reading says; TCP connections
      reach the target of their mapping and nothing else; UDP flows on a mapped port
      reach its target, or the loopback interface if the target does not parse; the sessions
      of UDP clients stay apart under every interleaving; both ends of an encrypted
      tunnel read what the other wrote.
    - Packets: decoding is total and stays in the buffer; the filter implements a
      policy stated on the packet, and the rules of the control plane open exactly what
      they name; address rewriting keeps checksums valid; the node hands its stack and
      the host only packets admitted with the flows it tracks, and replies to masqueraded
      UDP, SCTP and TCP packets come back.
    - Control connection: the handshake gives both sides the same keys, transcript and
      identities, and the byte stream survives any fragmentation; reading terminates.
    - Peers: the indexes of peers stay consistent; no datagram on the socket breaks them
      or binds an address to the wrong key; disco and TSMP messages are delivered, as far
      as their format carries them, and answered.
      A packet leaves over DERP or over a UDP path that has answered and is fresh, and
      no event makes an endpoint panic.  The loop of the relay manager and its goroutines
      never wait for each other for ever, can always come to rest, and report only
      relay paths that were challenged and answered.
    - Network map: through a whole poll without a tailnet lock the backend has the map
      that a rebuild would give, up to times last seen, although most responses reach it
      as mutations, if they name only known peers; the tailnet lock holds in every state;
      packets go to the node with their address, else to the peers that may have them;
      the engine is reconfigured when it must be.
    - Key authority: every peer of a locked node that needs a signature is certified by a
      trusted key; trust
      changes only by signed messages, from the bootstrap on; nodes with the same
      messages have the same state, also after a restart; a node with a direct signature
      can rotate its key for ever, and the updates it builds are accepted.  Compaction changes neither the state
      nor what later updates do to it.  Two nodes with the same oldest message that exchange
      offers and missing messages agree afterwards.  All this is for up to the 2000
      messages that the code scans.  A revocation of keys, cosigned by more weight than what
      it competes with, is taken up whatever the revoked keys had signed.
    - Tailnet lock of a node: whatever the control plane answers, the lock stays on
      unless it sends the secret that disables it, while nothing else changes the lock;
      synchronization with a control plane
      that follows the protocol ends in agreement; a lock disabled by force is not taken
      up again; enabling the lock shuts no listed node out.
    - Limits of the code: which packet makes [Write] panic, what a patch of a peer
      loses, what an unknown peer does to a batch of mutations, a cycle in the preference
      of paths, and others.

    ** Recursion and fuel

    Loops are structural where the code walks a list.  Where it does not, the fuel is a
    bound that is proved enough: the loops of [ControlConn.readLoop] have the number of
    buffered and incoming chunks plus two, [plainLoop] the number of incoming bytes
    plus one and [writeLoop] the length of its argument, and [ErrFuel] is never
    returned ([Read_total], [stream_roundtrip]); [Disco.parseAddrPorts] has the length
    of its input; [NetIP.parseIPv6_loop] has the eight groups of an address; and
    [csumFold] folds twice, which leaves no carry.  The limits of iterations in
    [TkaChain] are those of the code; up to 2000 stored messages they are never reached
    ([restart_restores]).  The loops of [TkaCompact] and [TkaRecovery] that
    follow parents have the number of stored messages plus one; running out is [Panic],
    which [compaction_preserves] and [revocation_recovers] exclude.

    ** Not modelled

    - The packet socket beyond its peers, their paths and the reception of disco
      packets: DERP ([derp.go], [derp]), the sockets and their batching; the checks of the
      network ([net/netcheck], [net/stun], [net/portmapper]).  Timers, sockets and goroutines
      dominate this code.
    - The local backend beyond serving, the network map and the tailnet lock: logins, profiles,
      preferences, the router configuration, certificates, the local API and its
      clients; and the HTTP side of the control client.
    - Of the key authority: the storage on disk ([tka/tailchonk.go], [FS]), which no code
      of this program reaches, wrapped auth keys and deep links; the requests to the
      control plane are parameters of [TkaBackend].
    - DNS, the routes and the network monitor of the operating system, logging, metrics,
      health, file sharing, app connectors, hooks of features and the general utilities.
    - Of the modelled parts: log texts, metrics, debug knobs, JSON forms, the generated
      views and clones of [tailcfg], and what each file's own comment names. *)

From Stdlib Require Export ZArith Lia Ascii.
From stdpp Require Export base tactics gmap strings numbers.
From stdpp Require Export list.

#[global] Open Scope Z_scope.

(** ** Results of Go code

    A Go function that may fail returns [Ok] or [Err]; an operation the runtime
    aborts (index or slice bounds out of range) is [Panic]. *)
Inductive res (E A : Type) : Type :=
  | Ok (a : A)
  | Err (e : E)
  | Panic.
Arguments Ok {E A} a.
Arguments Err {E A} e.
Arguments Panic {E A}.

#[export] Instance res_ret {E} : MRet (res E) := λ A a, Ok a.
#[export] Instance res_bind {E} : MBind (res E) := λ A B f m,
  match m with Ok a => f a | Err e => Err e | Panic => Panic end.
#[export] Instance res_fmap {E} : FMap (res E) := λ A B f m,
  match m with Ok a => Ok (f a) | Err e => Err e | Panic => Panic end.

#[export] Instance res_eq_dec {E A} `{EqDecision E, EqDecision A} : EqDecision (res E A).
Proof. solve_decision. Defined.

Definition is_ok {E A} (r : res E A) : bool := match r with Ok _ => true | _ => false end.
Definition is_panic {E A} (r : res E A) : bool := match r with Panic => true | _ => false end.

(** A check that returns an error, and the code that turns an absent value
    into an error. *)
Definition guard_err {E} (b : bool) (e : E) : res E () := if b then Ok () else Err e.
Definition of_option {E A} (e : E) (o : option A) : res E A :=
  match o with Some a => Ok a | None => Err e end.

Lemma bind_ret {E A B} (a : A) (f : A → res E B) : (Ok a ≫= f) = f a.
Proof. done. Qed.

Lemma bind_ok {E A B} (m : res E A) (f : A → res E B) b :
  (m ≫= f) = Ok b ↔ ∃ a, m = Ok a ∧ f a = Ok b.
Proof. destruct m; cbn; naive_solver. Qed.

Lemma bind_panic {E A B} (m : res E A) (f : A → res E B) :
  (m ≫= f) = Panic ↔ m = Panic ∨ ∃ a, m = Ok a ∧ f a = Panic.
Proof. destruct m; cbn; naive_solver. Qed.

(** ** Machine integers

    An unsigned [w]-bit value is a [Z] in [0, 2^w); the wrap-around of the
    conversions and of the arithmetic is written out. *)
Definition uN (w z : Z) : Z := z mod 2 ^ w.
Abbreviation u8 := (uN 8).
Abbreviation u16 := (uN 16).
Abbreviation u32 := (uN 32).
Abbreviation u64 := (uN 64).

Definition in_uN (w z : Z) : Prop := 0 ≤ z < 2 ^ w.
(** Go's [^x] on a [w]-bit unsigned value. *)
Definition notN (w z : Z) : Z := 2 ^ w - 1 - z.

Lemma uN_range w z : 0 ≤ w → 0 ≤ uN w z < 2 ^ w.
Proof. intros. apply Z.mod_pos_bound. by apply Z.pow_pos_nonneg. Qed.

Lemma uN_small w z : 0 ≤ z < 2 ^ w → uN w z = z.
Proof. apply Z.mod_small. Qed.

(** ** Byte buffers *)
Abbreviation bytes := (list Z).

Definition byte_ok (b : Z) : Prop := 0 ≤ b < 256.
Definition bytes_ok (b : bytes) : Prop := Forall byte_ok b.

Definition zlen {A} (l : list A) : Z := Z.of_nat (length l).

(** [b[i]] *)
Definition idx {E A} (b : list A) (i : Z) : res E A :=
  if decide (0 ≤ i) then match b !! Z.to_nat i with Some v => Ok v | None => Panic end
  else Panic.

(** [b[i:j]] and [b[i:]]; [j] past the length is a panic (the capacity of the
    buffers this is used on is their length). *)
Definition slice {E A} (b : list A) (i j : Z) : res E (list A) :=
  if decide (0 ≤ i ≤ j ∧ j ≤ zlen b)
  then Ok (take (Z.to_nat (j - i)) (drop (Z.to_nat i) b)) else Panic.
Definition slice_from {E A} (b : list A) (i : Z) : res E (list A) := slice b i (zlen b).

Lemma zlen_nonneg {A} (l : list A) : 0 ≤ zlen l.
Proof. unfold zlen; lia. Qed.
Lemma zlen_app {A} (k l : list A) : zlen (k ++ l) = zlen k + zlen l.
Proof. unfold zlen. rewrite length_app. lia. Qed.
Lemma zlen_cons {A} (x : A) l : zlen (x :: l) = 1 + zlen l.
Proof. unfold zlen. simpl. lia. Qed.
Lemma zlen_nil {A} : zlen (@nil A) = 0.
Proof. done. Qed.

(** ** Lists *)
Lemma Forall2_elem_l {A B} (P : A → B → Prop) l k x :
  Forall2 P l k → x ∈ l → ∃ y, y ∈ k ∧ P x y.
Proof.
  intros H (i & Hi)%list_elem_of_lookup_1. destruct (Forall2_lookup_l _ _ _ _ _ H Hi) as (y & Hy & ?).
  exists y. split; [|done]. by eapply list_elem_of_lookup_2.
Qed.
Lemma Forall2_elem_r {A B} (P : A → B → Prop) l k y :
  Forall2 P l k → y ∈ k → ∃ x, x ∈ l ∧ P x y.
Proof.
  intros H (i & Hi)%list_elem_of_lookup_1. destruct (Forall2_lookup_r _ _ _ _ _ H Hi) as (x & Hx & ?).
  exists x. split; [|done]. by eapply list_elem_of_lookup_2.
Qed.

(** If [g] determines the injective key [f] on [l], then [g] has no duplicates either. *)
Lemma NoDup_fmap_key {A B C} (f : A → B) (g : A → C) (l : list A) :
  NoDup (f <$> l) → (∀ x y, x ∈ l → y ∈ l → g x = g y → f x = f y) → NoDup (g <$> l).
Proof.
  induction l as [|x l IH]; simpl; intros Hnd Hinj; [constructor|].
  apply NoDup_cons in Hnd as [Hx Hnd]. apply NoDup_cons. split.
  - intros (y & Hg & Hy)%list_elem_of_fmap. destruct Hx.
    rewrite (Hinj x y) by (done || set_solver). by apply list_elem_of_fmap_2.
  - apply IH; [done|]. intros; apply Hinj; set_solver.
Qed.

Lemma NoDup_fmap_inj_on {A B} (f : A → B) (l : list A) x y :
  NoDup (f <$> l) → x ∈ l → y ∈ l → f x = f y → x = y.
Proof.
  induction l as [|z l IH]; simpl; intros Hnd Hx Hy Hf; [set_solver|].
  apply NoDup_cons in Hnd as [Hz Hnd].
  apply elem_of_cons in Hx as [->|Hx], Hy as [->|Hy]; try done.
  - destruct Hz. rewrite Hf. by apply list_elem_of_fmap_2.
  - destruct Hz. rewrite <- Hf. by apply list_elem_of_fmap_2.
  - by apply IH.
Qed.

Lemma filter_all {A} (P : A → Prop) `{∀ x, Decision (P x)} (l : list A) :
  (∀ x, x ∈ l → P x) → filter P l = l.
Proof.
  induction l as [|x l IH]; intros Hl; [done|]. rewrite filter_cons, decide_True by (apply Hl; left).
  f_equal. apply IH. intros; apply Hl; by right.
Qed.

(** ** Automation

    [simplify_res] opens a hypothesis that says a computation in [res] returned
    [Ok]: it names the intermediate results of every bind and splits the tests
    and matches the value depends on. *)
Ltac simplify_res_step :=
  match goal with
  | H : Ok _ = Ok _ |- _ => injection H as H; try subst
  | H : Err _ = Ok _ |- _ => discriminate H
  | H : Panic = Ok _ |- _ => discriminate H
  | H : Ok _ = Err _ |- _ => discriminate H
  | H : Ok _ = Panic |- _ => discriminate H
  | H : Some _ = Some _ |- _ => injection H as H; try subst
  | H : None = Some _ |- _ => discriminate H
  | H : Some _ = None |- _ => discriminate H
  | H : (_ ≫= _) = Ok _ |- _ => apply bind_ok in H as (? & ? & ?)
  | H : mret _ = Ok _ |- _ => unfold mret, res_ret in H
  | H : (match ?x with _ => _ end) = Ok _ |- _ => let E := fresh "E" in destruct x eqn:E
  end.
Ltac simplify_res := repeat (simplify_res_step; simpl in * ).
