(* ===== verification/GoStd.v ===== *)
(** * The parts of Go's standard library the modelled code calls

    Strings are byte strings ([String.string], one [ascii] per byte), as in Go.
    [int] is Go's 64-bit [int].  [strconv.Atoi], [strings.*], [net.SplitHostPort],
    [net.ParseIP] and [net/netip] are written out here; the sources of the program
    call them and rely on exactly which inputs they refuse. *)

From stdpp Require Import pretty.
From S2P Require Import Prelude.

(** ** strings *)
Module Strings.

Fixpoint str_take (n : nat) (s : string) : string :=
  match n, s with
  | S n, String c s => String c (str_take n s)
  | _, _ => EmptyString
  end.

Fixpoint str_drop (n : nat) (s : string) : string :=
  match n, s with
  | S n, String _ s => str_drop n s
  | _, _ => s
  end.

(** [strings.IndexByte]; [None] is -1. *)
Fixpoint index_byte (c : ascii) (s : string) : option nat :=
  match s with
  | EmptyString => None
  | String d s => if decide (d = c) then Some 0%nat else S <$> index_byte c s
  end.

(** [bytealg.LastIndexByteString]; [None] is -1. *)
Fixpoint last_index_byte (c : ascii) (s : string) : option nat :=
  match s with
  | EmptyString => None
  | String d s =>
      match last_index_byte c s with
      | Some i => Some (S i)
      | None => if decide (d = c) then Some 0%nat else None
      end
  end.

Definition contains_byte (c : ascii) (s : string) : bool := bool_decide (is_Some (index_byte c s)).

(** [strings.HasPrefix] and [strings.HasSuffix] for a one-byte pattern. *)
Definition has_prefix (c : ascii) (s : string) : bool :=
  match s with String d _ => bool_decide (d = c) | EmptyString => false end.
Definition has_suffix (c : ascii) (s : string) : bool :=
  match last_index_byte c s with Some i => bool_decide (S i = String.length s) | None => false end.

(** [strings.Split(s, sep)] for a one-byte separator. *)
Fixpoint split_byte (c : ascii) (s : string) : list string :=
  match s with
  | EmptyString => [EmptyString]
  | String d s =>
      if decide (d = c) then EmptyString :: split_byte c s
      else match split_byte c s with
           | h :: t => String d h :: t
           | [] => [String d EmptyString]
           end
  end.

Definition is_digit (c : ascii) : bool := (48 <=? Z.of_N (N_of_ascii c)) && (Z.of_N (N_of_ascii c) <=? 57).
Definition digit_val (c : ascii) : Z := Z.of_N (N_of_ascii c) - 48.

(** The longest prefix of digits and the rest. *)
Fixpoint span_digits (s : string) : string * string :=
  match s with
  | EmptyString => (EmptyString, EmptyString)
  | String c s' =>
      if is_digit c then let '(d, r) := span_digits s' in (String c d, r) else (EmptyString, s)
  end.

(** [[]byte(s)] *)
Fixpoint str_bytes (s : string) : list Z :=
  match s with EmptyString => [] | String c s => Z.of_N (N_of_ascii c) :: str_bytes s end.

End Strings.
Export Strings.

(** ** strconv *)
Module Strconv.

Fixpoint digits_val (acc : Z) (s : string) : option Z :=
  match s with
  | EmptyString => Some acc
  | String c s => if is_digit c then digits_val (acc * 10 + digit_val c) s else None
  end.

(** [strconv.Atoi]: an optional sign, then at least one digit and nothing else,
    with a value in the range of a 64-bit [int]; [None] is a non-nil error. *)
Definition Atoi (s : string) : option Z :=
  let '(neg, ds) :=
    match s with
    | String "-" r => (true, r)
    | String "+" r => (false, r)
    | _ => (false, s)
    end in
  match ds with
  | EmptyString => None
  | _ =>
      match digits_val 0 ds with
      | Some n =>
          let v := if neg : bool then - n else n in
          if decide (- 2 ^ 63 ≤ v < 2 ^ 63) then Some v else None
      | None => None
      end
  end.

(** [%d] of an [int]. *)
Definition Itoa (z : Z) : string := pretty z.

End Strconv.
Export Strconv.

(** ** net.SplitHostPort *)
Definition SplitHostPort (hostport : string) : option (string * string) :=
  match last_index_byte ":" hostport with
  | None => None (* missing port in address *)
  | Some i =>
      let finish (host : string) (j k : nat) :=
        if decide (is_Some (index_byte "[" (str_drop j hostport))) then None
        else if decide (is_Some (index_byte "]" (str_drop k hostport))) then None
        else Some (host, str_drop (S i) hostport) in
      if has_prefix "[" hostport then
        match index_byte "]" hostport with
        | None => None (* missing ']' in address *)
        | Some e =>
            if decide (S e = i) then finish (str_take (e - 1) (str_drop 1 hostport)) 1%nat (S e)
            else None (* missing port, or too many colons *)
        end
      else
        let host := str_take i hostport in
        if contains_byte ":" host then None else finish host 0%nat 0%nat
  end.

(** ** net.JoinHostPort *)
Definition JoinHostPort (host port : string) : string :=
  if contains_byte ":" host then "[" +:+ host +:+ "]:" +:+ port else host +:+ ":" +:+ port.
