(* ===== verification/Bytes.v ===== *)
(** * encoding/binary and byte buffers

    Big- and little-endian unsigned integers as byte strings, with the
    encode/decode round trips, and the reads and writes at an offset the packet
    code uses. *)

From S2P Require Import Prelude.

(** ** Big endian *)

(** Big-endian bytes of an [n]-byte unsigned integer, and back. *)
Fixpoint be_bytes (n : nat) (v : Z) : bytes :=
  match n with
  | O => []
  | S n => Z.land (Z.shiftr v (8 * Z.of_nat n)) 255 :: be_bytes n v
  end.
Fixpoint be_val (acc : Z) (b : bytes) : Z :=
  match b with [] => acc | x :: b => be_val (acc * 256 + x) b end.

Lemma be_bytes_length n v : length (be_bytes n v) = n.
Proof. induction n; simpl; congruence. Qed.

Lemma land_255 v : Z.land v 255 = v `mod` 256.
Proof. change 255 with (Z.ones 8). by rewrite Z.land_ones. Qed.

Lemma be_bytes_ok n v : bytes_ok (be_bytes n v).
Proof.
  induction n; constructor; [|done]. rewrite land_255. unfold byte_ok.
  apply Z.mod_pos_bound. lia.
Qed.

Lemma be_val_app acc a b : be_val acc (a ++ b) = be_val (be_val acc a) b.
Proof. revert acc. induction a as [|x a IH]; intros acc; simpl; [done|]. apply IH. Qed.

Lemma be_val_acc b : ∀ acc, be_val acc b = acc * 256 ^ zlen b + be_val 0 b.
Proof.
  induction b as [|x b IH]; intros acc; cbn [be_val]; [unfold zlen; simpl; lia|].
  rewrite IH, (IH (0 * 256 + x)), zlen_cons, Z.pow_add_r by (pose proof (zlen_nonneg b); lia). lia.
Qed.

Lemma be_val_bound b : bytes_ok b → 0 ≤ be_val 0 b < 256 ^ zlen b.
Proof.
  induction 1 as [|x b Hx Hb IH]; [done|]. simpl.
  rewrite be_val_acc, zlen_cons, Z.pow_add_r by (pose proof (zlen_nonneg b); lia).
  unfold byte_ok in Hx. nia.
Qed.

Lemma be_val_bytes_mod n v : be_val 0 (be_bytes n v) = v `mod` 256 ^ Z.of_nat n.
Proof.
  induction n as [|n IH]; [by rewrite Z.mod_1_r|]. simpl be_bytes. simpl be_val.
  rewrite be_val_acc, IH. unfold zlen. rewrite be_bytes_length, land_255.
  rewrite Z.shiftr_div_pow2 by lia. replace (2 ^ (8 * Z.of_nat n)) with (256 ^ Z.of_nat n)
    by (rewrite (Z.pow_mul_r 2 8) by lia; done).
  rewrite Nat2Z.inj_succ, Z.pow_succ_r by lia.
  rewrite (Z.mul_comm 256), Z.rem_mul_r by lia. lia.
Qed.

Lemma be_val_bytes n v : 0 ≤ v < 256 ^ Z.of_nat n → be_val 0 (be_bytes n v) = v.
Proof. intros. rewrite be_val_bytes_mod. by apply Z.mod_small. Qed.

Lemma be_bytes_app n m v :
  be_bytes (n + m) v = be_bytes n (Z.shiftr v (8 * Z.of_nat m)) ++ be_bytes m v.
Proof.
  induction n as [|n IH]; simpl; [done|]. rewrite IH, Z.shiftr_shiftr by lia.
  by replace (8 * Z.of_nat m + 8 * Z.of_nat n) with (8 * Z.of_nat (n + m)) by lia.
Qed.

Lemma be_bytes_add n k w :
  be_bytes n (k * 256 ^ Z.of_nat n + w) = be_bytes n w.
Proof.
  assert (∀ m, (m ≤ n)%nat → be_bytes m (k * 256 ^ Z.of_nat n + w) = be_bytes m w) as H; [|by apply H].
  induction m as [|m IH]; intros Hm; simpl; [done|]. rewrite IH by lia. f_equal.
  rewrite !land_255, !Z.shiftr_div_pow2 by lia.
  replace (2 ^ (8 * Z.of_nat m)) with (256 ^ Z.of_nat m) by (rewrite (Z.pow_mul_r 2 8) by lia; done).
  replace (Z.of_nat n) with (Z.of_nat m + (1 + (Z.of_nat n - Z.of_nat m - 1))) by lia.
  rewrite !Z.pow_add_r by lia.
  replace (k * (256 ^ Z.of_nat m * (256 ^ 1 * 256 ^ (Z.of_nat n - Z.of_nat m - 1))) + w)
    with (w + (k * 256 ^ (Z.of_nat n - Z.of_nat m - 1) * 256) * 256 ^ Z.of_nat m) by lia.
  rewrite Z.div_add by (apply Z.pow_nonzero; lia). by rewrite Z.mod_add.
Qed.

Lemma be_bytes_val b : bytes_ok b → be_bytes (length b) (be_val 0 b) = b.
Proof.
  induction 1 as [|x b Hx Hb IH]; [done|]. simpl. rewrite be_val_acc. unfold zlen.
  rewrite be_bytes_add, IH. f_equal.
  pose proof (be_val_bound b Hb) as Hbd. unfold zlen in Hbd.
  rewrite land_255, Z.shiftr_div_pow2 by lia.
  replace (2 ^ (8 * Z.of_nat (length b))) with (256 ^ Z.of_nat (length b))
    by (rewrite (Z.pow_mul_r 2 8) by lia; done).
  rewrite Z.div_add_l, Z.div_small, Z.add_0_r by (lia || (apply Z.pow_nonzero; lia)).
  by apply Z.mod_small.
Qed.

(** ** Little endian *)
Fixpoint le_bytes (n : nat) (v : Z) : bytes :=
  match n with O => [] | S n => Z.land v 255 :: le_bytes n (Z.shiftr v 8) end.
Fixpoint le_val (b : bytes) : Z :=
  match b with [] => 0 | x :: b => x + 256 * le_val b end.

Lemma le_bytes_length n v : length (le_bytes n v) = n.
Proof. revert v. induction n; intros v; simpl; congruence. Qed.
Lemma le_val_bytes n : ∀ v, 0 ≤ v < 256 ^ Z.of_nat n → le_val (le_bytes n v) = v.
Proof.
  induction n as [|n IH]; intros v Hv; [simpl in *; lia|].
  rewrite Nat2Z.inj_succ, Z.pow_succ_r in Hv by lia. simpl. rewrite land_255, Z.shiftr_div_pow2 by lia.
  change (2 ^ 8) with 256. rewrite IH by (split; [apply Z.div_pos; lia|apply Z.div_lt_upper_bound; lia]).
  pose proof (Z.div_mod v 256). lia.
Qed.

(** ** Reads and writes at an offset *)

(** [binary.BigEndian.UintN(b[i:i+n])]: panics when the bytes are not there. *)
Definition get_be {E} (n : nat) (b : bytes) (i : Z) : res E Z :=
  s ← slice b i (i + Z.of_nat n); Ok (be_val 0 s).

(** [copy(b[i:], s)] for an [s] that fits, and [binary.BigEndian.PutUintN]. *)
Definition put {E} (b : bytes) (i : Z) (s : bytes) : res E bytes :=
  if decide (0 ≤ i ∧ i + zlen s ≤ zlen b) then
    Ok (take (Z.to_nat i) b ++ s ++ drop (Z.to_nat i + length s) b)
  else Panic.
Definition put_be {E} (n : nat) (b : bytes) (i v : Z) : res E bytes := put b i (be_bytes n v).

Lemma idx_ok {E} (b : bytes) i : 0 ≤ i < zlen b → ∃ v, @idx E Z b i = Ok v ∧ v ∈ b.
Proof.
  intros Hi. unfold idx, zlen in *. rewrite decide_True by lia.
  destruct (lookup_lt_is_Some_2 b (Z.to_nat i)) as [v Hv]; [lia|]. rewrite Hv.
  exists v. split; [done|]. by eapply list_elem_of_lookup_2.
Qed.
Lemma idx_byte {E} (b : bytes) i v : bytes_ok b → @idx E Z b i = Ok v → byte_ok v.
Proof.
  intros Hb H. unfold idx in H. case_decide; [|done]. destruct (b !! Z.to_nat i) eqn:Hi; [|done].
  injection H as <-. by eapply Forall_lookup_1 in Hi.
Qed.
Lemma slice_ok {E A} (b : list A) i j :
  0 ≤ i ≤ j → j ≤ zlen b →
  ∃ s, @slice E A b i j = Ok s ∧ zlen s = j - i ∧ s = take (Z.to_nat (j - i)) (drop (Z.to_nat i) b).
Proof.
  intros Hi Hj. unfold slice. rewrite decide_True by done. eexists. split; [done|]. split; [|done].
  unfold zlen in *. rewrite length_take, length_drop. lia.
Qed.
Lemma slice_bytes {E} (b s : bytes) i j : bytes_ok b → @slice E Z b i j = Ok s → bytes_ok s.
Proof.
  intros Hb H. unfold slice in H. case_decide; [|done]. injection H as <-.
  by apply Forall_take, Forall_drop.
Qed.
Lemma slice_from_ok {E A} (b : list A) i :
  0 ≤ i ≤ zlen b →
  ∃ s, @slice_from E A b i = Ok s ∧ zlen s = zlen b - i ∧ s = drop (Z.to_nat i) b.
Proof.
  intros Hi. unfold slice_from. destruct (slice_ok (E := E) b i (zlen b)) as (s & -> & Hl & ->); [lia..|].
  eexists. split_and!; [done|done|]. apply take_ge. rewrite length_drop. unfold zlen in *. lia.
Qed.
Lemma get_be_ok {E} n (b : bytes) i :
  bytes_ok b → 0 ≤ i → i + Z.of_nat n ≤ zlen b →
  ∃ v, @get_be E n b i = Ok v ∧ 0 ≤ v < 256 ^ Z.of_nat n.
Proof.
  intros Hb Hi Hn. unfold get_be.
  destruct (slice_ok (E := E) b i (i + Z.of_nat n)) as (s & Hs & Hl & _); [lia..|].
  rewrite Hs. simpl. eexists. split; [done|]. pose proof (be_val_bound s (slice_bytes _ _ _ _ Hb Hs)) as Hv.
  by replace (zlen s) with (Z.of_nat n) in Hv by lia.
Qed.

(** ** Automation *)
Create HintDb bytes.
Create Rewrite HintDb bytes.
#[export] Hint Rewrite be_bytes_length le_bytes_length @length_app @length_take @length_drop
  @length_replicate @zlen_app @zlen_cons @zlen_nil : bytes.
#[export] Hint Resolve be_bytes_ok zlen_nonneg : bytes.

(** ** Writing into a buffer, and fields of messages *)
Lemma put_ok {E} (b s : bytes) i :
  0 ≤ i → i + zlen s ≤ zlen b →
  @put E b i s = Ok (take (Z.to_nat i) b ++ s ++ drop (Z.to_nat i + length s) b).
Proof. intros. unfold put. by rewrite decide_True. Qed.

Lemma put_zlen {E} (b s b' : bytes) i : @put E b i s = Ok b' → zlen b' = zlen b.
Proof.
  unfold put. case_decide as H; [|done]. intros [= <-]. unfold zlen in *.
  rewrite !length_app, length_take, length_drop. lia.
Qed.

Lemma put_bytes {E} (b s b' : bytes) i : bytes_ok b → bytes_ok s → @put E b i s = Ok b' → bytes_ok b'.
Proof.
  unfold put. case_decide as H; [|done]. intros Hb Hs [= <-].
  apply Forall_app; split; [by apply Forall_take|]. apply Forall_app; split; [done|by apply Forall_drop].
Qed.

(** What lies behind the bytes written is unchanged. *)
Lemma put_drop {E} (b s b' : bytes) i (n : Z) :
  @put E b i s = Ok b' → i + zlen s ≤ n → drop (Z.to_nat n) b' = drop (Z.to_nat n) b.
Proof.
  unfold put. case_decide as H; [|done]. intros [= <-] Hn. unfold zlen in *.
  rewrite app_assoc, drop_app, drop_drop, length_app, length_take.
  rewrite drop_ge by (rewrite length_app, length_take; lia). cbn [app]. f_equal. lia.
Qed.

Lemma put_take {E} (b s b' : bytes) i :
  @put E b i s = Ok b' → take (Z.to_nat i) b' = take (Z.to_nat i) b.
Proof.
  unfold put. case_decide as H; [|done]. intros [= <-]. unfold zlen in *.
  rewrite take_app_le by (rewrite length_take; lia). rewrite take_take. f_equal. lia.
Qed.

Lemma put_read {E} (b s b' : bytes) i :
  @put E b i s = Ok b' → take (length s) (drop (Z.to_nat i) b') = s.
Proof.
  unfold put. case_decide as H; [|done]. intros [= <-]. unfold zlen in *.
  rewrite drop_app_length' by (rewrite length_take; lia). by rewrite take_app_length.
Qed.

(** The valid part of the buffer grows by the bytes written at its end. *)
Lemma put_append {E} (b s b' : bytes) (n : Z) :
  @put E b n s = Ok b' → 0 ≤ n →
  take (Z.to_nat (n + zlen s)) b' = take (Z.to_nat n) b ++ s.
Proof.
  unfold put. case_decide as H; [|done]. intros [= <-] Hn. unfold zlen in *.
  rewrite app_assoc, take_app_length'; [done|]. rewrite length_app, length_take. lia.
Qed.

(** A message as fields one after another. *)
Lemma put_field {E} (a x c y : bytes) i :
  i = zlen a → length x = length y → @put E (a ++ x ++ c) i y = Ok (a ++ y ++ c).
Proof.
  intros -> Hl. rewrite put_ok; [|apply zlen_nonneg|rewrite !zlen_app; pose proof (zlen_nonneg c); unfold zlen; lia].
  unfold zlen. rewrite Nat2Z.id, take_app_length, drop_app, <- Hl.
  rewrite drop_ge by lia. replace (length a + length x - length a)%nat with (length x) by lia.
  by rewrite drop_app_length.
Qed.
Lemma slice_mid {E} (a x c : bytes) i j :
  i = zlen a → j = zlen a + zlen x → @slice E Z (a ++ x ++ c) i j = Ok x.
Proof.
  intros -> ->. unfold slice. pose proof (zlen_nonneg a). pose proof (zlen_nonneg x). pose proof (zlen_nonneg c).
  rewrite decide_True by (rewrite !zlen_app; lia). rewrite Z.add_simpl_l. unfold zlen.
  by rewrite !Nat2Z.id, drop_app_length, take_app_length.
Qed.
Lemma get_be_mid {E} n (a c : bytes) i v :
  i = zlen a → 0 ≤ v < 256 ^ Z.of_nat n → @get_be E n (a ++ be_bytes n v ++ c) i = Ok v.
Proof.
  intros -> Hv. unfold get_be. rewrite slice_mid; [|done|unfold zlen; rewrite be_bytes_length; lia].
  rewrite bind_ret. by rewrite be_val_bytes.
Qed.
