(* ===== verification/NetIP.v ===== *)
(** * net/netip and net.IP

    [netip.Addr], [netip.Prefix] and [netip.AddrPort] with their parsers and
    predicates, and the [net.IP] operations the command line uses.  An address is
    the unsigned integer of its bytes in network order. *)

From stdpp Require Import pretty.
From S2P Require Import Prelude GoStd Bytes.

(** ** Addresses *)
Inductive Addr : Type :=
  | AddrZ                              (* the zero Addr *)
  | Addr4 (v : Z)
  | Addr6 (v : Z) (zone : string).

#[export] Instance Addr_eq_dec : EqDecision Addr.
Proof. solve_decision. Defined.
#[export] Instance Addr_countable : Countable Addr.
Proof.
  refine (inj_countable'
    (λ a, match a with
          | AddrZ => inl ()
          | Addr4 v => inr (inl v)
          | Addr6 v z => inr (inr (v, z)) end)
    (λ s, match s with
          | inl _ => AddrZ
          | inr (inl v) => Addr4 v
          | inr (inr (v, z)) => Addr6 v z end) _).
  by intros [].
Defined.

Definition addr_ok (a : Addr) : Prop :=
  match a with AddrZ => True | Addr4 v => 0 ≤ v < 2 ^ 32 | Addr6 v _ => 0 ≤ v < 2 ^ 128 end.

Definition IsValid (a : Addr) : bool := match a with AddrZ => false | _ => true end.
Definition Is4 (a : Addr) : bool := match a with Addr4 _ => true | _ => false end.
Definition Is6 (a : Addr) : bool := match a with Addr6 _ _ => true | _ => false end.
Definition Is4In6 (a : Addr) : bool :=
  match a with Addr6 v _ => Z.shiftr v 32 =? 0xffff | _ => false end.
Definition BitLen (a : Addr) : Z :=
  match a with AddrZ => 0 | Addr4 _ => 32 | Addr6 _ _ => 128 end.
Definition hasZone (a : Addr) : bool :=
  match a with Addr6 _ z => negb (bool_decide (z = "")) | _ => false end.
Definition Zone (a : Addr) : string := match a with Addr6 _ z => z | _ => "" end.
Definition withoutZone (a : Addr) : Addr :=
  match a with Addr6 v _ => Addr6 v "" | _ => a end.
(** Whether the address is an IPv4 address or an IPv4-mapped IPv6 address;
    [Unmap] removes the mapping. *)
Definition Unmap (a : Addr) : Addr :=
  match a with
  | Addr6 v _ => if Is4In6 a then Addr4 (Z.land v (Z.ones 32)) else a
  | _ => a
  end.

Definition As16 (a : Addr) : bytes :=
  match a with
  | AddrZ => be_bytes 16 0
  | Addr4 v => be_bytes 16 (Z.lor (Z.shiftl 0xffff 32) v)
  | Addr6 v _ => be_bytes 16 v
  end.
(** [As4] panics on the zero Addr and on an address that is neither IPv4 nor
    IPv4-mapped. *)
Definition As4 {E} (a : Addr) : res E bytes :=
  match Unmap a with Addr4 v => Ok (be_bytes 4 v) | _ => Panic end.
Definition AddrFrom4 (b : bytes) : Addr := Addr4 (be_val 0 b).
Definition AddrFrom16 (b : bytes) : Addr := Addr6 (be_val 0 b) "".
Definition AddrFromSlice (b : bytes) : option Addr :=
  if decide (length b = 4%nat) then Some (AddrFrom4 b)
  else if decide (length b = 16%nat) then Some (AddrFrom16 b)
  else None.
(** [netaddr.IPv4] of the sources, [netip.AddrFrom4] of four bytes. *)
Definition IPv4 (a b c d : Z) : Addr := AddrFrom4 [a; b; c; d].

Definition IsMulticast (a : Addr) : bool :=
  match Unmap a with
  | Addr4 v => Z.land (Z.shiftr v 24) 0xf0 =? 0xe0
  | Addr6 v _ => Z.shiftr v 120 =? 0xff
  | AddrZ => false
  end.
Definition IsLinkLocalUnicast (a : Addr) : bool :=
  match Unmap a with
  | Addr4 v => Z.shiftr v 16 =? 169 * 256 + 254
  | Addr6 v _ => Z.land (Z.shiftr v 112) 0xffc0 =? 0xfe80
  | AddrZ => false
  end.

(** ** Parsing: netip.ParseAddr *)

(** [parseIPv4Fields]: [prev] is the byte before the current one, [fields] the
    octets read so far (last first), [val] and [digLen] the octet being read. *)
Fixpoint parseIPv4Fields (s : string) (prev : option ascii) (fields : list Z)
    (val : Z) (digLen : nat) : option (list Z) :=
  match s with
  | EmptyString =>
      if decide (length fields = 3%nat) then Some (rev (val :: fields)) else None
  | String c s' =>
      if is_digit c then
        if decide (digLen = 1%nat ∧ val = 0) then None (* leading zero *)
        else
          let val := val * 10 + digit_val c in
          if decide (val > 255) then None
          else parseIPv4Fields s' (Some c) fields val (S digLen)
      else if decide (c = "."%char) then
        if decide (prev = None ∨ s' = "" ∨ prev = Some "."%char) then None
        else if decide (length fields = 3%nat) then None (* too long *)
        else parseIPv4Fields s' (Some c) (val :: fields) 0 0%nat
      else None
  end.

Definition parseIPv4 (s : string) : option Addr :=
  AddrFrom4 <$> parseIPv4Fields s None [] 0 0%nat.

Definition hex_val (c : ascii) : option Z :=
  let n := Z.of_N (N_of_ascii c) in
  if (48 <=? n) && (n <=? 57) then Some (n - 48)
  else if (97 <=? n) && (n <=? 102) then Some (n - 97 + 10)
  else if (65 <=? n) && (n <=? 70) then Some (n - 65 + 10)
  else None.

(** The hex number at the front of [s]: its digits' count, its value and what
    follows; [None] when a group is longer than four digits. *)
Fixpoint hex_group (s : string) (off : nat) (acc : Z) : option (nat * Z * string) :=
  match s with
  | EmptyString => Some (off, acc, s)
  | String c s' =>
      match hex_val c with
      | None => Some (off, acc, s)
      | Some d =>
          let acc := u32 (Z.shiftl acc 4) + d in
          if decide (3 < off)%nat then None
          else if decide (acc > 65535) then None
          else hex_group s' (S off) acc
      end
  end.

(** The loop of [parseIPv6].  [groups] are the 16-bit groups stored so far (Go's
    [i] is twice their number), [ell] the position of the ellipsis in groups;
    [fuel] is the number of groups that still fit. *)
Fixpoint parseIPv6_loop (fuel : nat) (s : string) (groups : list Z) (ell : option nat)
    : option (string * list Z * option nat) :=
  match fuel with
  | O => Some (s, groups, ell)
  | S fuel =>
      match hex_group s 0 0 with
      | None => None
      | Some (off, acc, rest) =>
          if decide (off = 0%nat) then None
          else if has_prefix "." rest then
            if decide (ell = None ∧ length groups ≠ 6%nat) then None
            else if decide (6 < length groups)%nat then None
            else match parseIPv4Fields s None [] 0 0%nat with
                 | Some [a; b; c; d] => Some ("", groups ++ [a * 256 + b; c * 256 + d], ell)
                 | _ => None
                 end
          else
            let groups := groups ++ [acc] in
            match rest with
            | EmptyString => Some ("", groups, ell)
            | String c rest =>
                if decide (c ≠ ":"%char) then None
                else match rest with
                     | EmptyString => None
                     | String c' rest' =>
                         if decide (c' = ":"%char) then
                           if decide (ell ≠ None) then None
                           else if decide (rest' = "") then Some ("", groups, Some (length groups))
                           else parseIPv6_loop fuel rest' groups (Some (length groups))
                         else parseIPv6_loop fuel rest groups ell
                     end
            end
      end
  end.

Fixpoint groups_val (acc : Z) (gs : list Z) : Z :=
  match gs with [] => acc | g :: gs => groups_val (acc * 65536 + g) gs end.

Definition parseIPv6 (s : string) : option Addr :=
  match (match index_byte "%" s with
         | Some i =>
             let zone := str_drop (S i) s in
             if decide (zone = "") then None else Some (str_take i s, zone)
         | None => Some (s, "")
         end) with
  | None => None
  | Some (s, zone) =>
      let '(s, ell) :=
        match s with
        | String ":" (String ":" r) => (r, Some 0%nat)
        | _ => (s, None)
        end in
      if decide (ell = Some 0%nat ∧ s = "") then Some (Addr6 0 zone)
      else
        match parseIPv6_loop 8 s [] ell with
        | Some (s, groups, ell) =>
            if decide (s ≠ "") then None
            else if decide (length groups < 8)%nat then
              match ell with
              | None => None
              | Some e =>
                  Some (Addr6 (groups_val 0 (take e groups ++
                                 replicate (8 - length groups) 0 ++ drop e groups)) zone)
              end
            else if decide (ell ≠ None) then None
            else Some (Addr6 (groups_val 0 groups) zone)
        | None => None
        end
  end.

(** The first of ['.'], [':'] and ['%'] decides which parser runs. *)
Fixpoint ParseAddr_scan (t s : string) : option Addr :=
  match t with
  | EmptyString => None
  | String c t' =>
      if decide (c = "."%char) then parseIPv4 s
      else if decide (c = ":"%char) then parseIPv6 s
      else if decide (c = "%"%char) then None
      else ParseAddr_scan t' s
  end.
Definition ParseAddr (s : string) : option Addr := ParseAddr_scan s s.

(** ** Printing: Addr.String *)
Definition hex_digit (d : Z) : ascii :=
  ascii_of_N (Z.to_N (if d <? 10 then 48 + d else 87 + d)).
(** [appendHex] of a 16-bit group: lower case, no leading zeros. *)
Definition hex16 (g : Z) : string :=
  let d3 := String (hex_digit (Z.land (Z.shiftr g 12) 15)) in
  let d2 := String (hex_digit (Z.land (Z.shiftr g 8) 15)) in
  let d1 := String (hex_digit (Z.land (Z.shiftr g 4) 15)) in
  let d0 := String (hex_digit (Z.land g 15)) in
  let low := d0 EmptyString in
  if g >=? 4096 then d3 (d2 (d1 low))
  else if g >=? 256 then d2 (d1 low)
  else if g >=? 16 then d1 low
  else low.

Definition string4 (v : Z) : string :=
  let oct i := pretty (Z.land (Z.shiftr v i) 255) in
  oct 24 +:+ "." +:+ oct 16 +:+ "." +:+ oct 8 +:+ "." +:+ oct 0.

Definition groups_of (v : Z) : list Z :=
  (λ i, Z.land (Z.shiftr v (16 * (7 - Z.of_nat i))) 65535) <$> seq 0 8.

(** The length of the run of zero groups at the front. *)
Fixpoint zero_run (gs : list Z) : nat :=
  match gs with 0 :: gs => S (zero_run gs) | _ => 0%nat end.

(** The first longest run of at least two zero groups, as [zeroStart, zeroEnd)
    ([255, 255) when there is none): the scan of [appendTo6]. *)
Fixpoint zero_span (fuel : nat) (i : nat) (gs : list Z) (zs ze : nat) : nat * nat :=
  match fuel with
  | O => (zs, ze)
  | S fuel =>
      match gs with
      | [] => (zs, ze)
      | _ =>
          let l := zero_run gs in
          let '(zs, ze) :=
            if decide (2 ≤ l ∧ ze - zs < l)%nat then (i, i + l)%nat else (zs, ze) in
          let step := S l in
          zero_span fuel (i + step)%nat (drop step gs) zs ze
      end
  end.

(** The output loop of [appendTo6]. *)
Fixpoint print6 (fuel i : nat) (gs : list Z) (zs ze : nat) : string :=
  match fuel with
  | O => EmptyString
  | S fuel =>
      if decide (i = zs) then
        String ":" (String ":"
          (if decide (8 ≤ ze)%nat then EmptyString
           else hex16 (nth ze gs 0) +:+ print6 fuel (S ze) gs zs ze))
      else if decide (8 ≤ i)%nat then EmptyString
      else (if decide (0 < i)%nat then ":" else "") +:+ hex16 (nth i gs 0) +:+ print6 fuel (S i) gs zs ze
  end.

Definition string6 (v : Z) : string :=
  let gs := groups_of v in
  let '(zs, ze) := zero_span 9 0 gs 255 255 in
  print6 9 0 gs zs ze.

Definition addr_string (a : Addr) : string :=
  match a with
  | AddrZ => "invalid IP"
  | Addr4 v => string4 v
  | Addr6 v z =>
      (if Is4In6 a then "::ffff:" +:+ string4 (Z.land v (Z.ones 32)) else string6 v) +:+
      (if decide (z = "") then "" else "%" +:+ z)
  end.

(** ** net.IP *)

(** [net.ParseIP]: the 16-byte form of an address with no zone. *)
Definition ParseIP (s : string) : option Z :=
  match ParseAddr s with
  | Some (Addr4 v) => Some (Z.lor (Z.shiftl 0xffff 32) v)
  | Some (Addr6 v "") => Some v
  | _ => None
  end.
(** [ip.To4() != nil] and [ip.String()] of a 16-byte [net.IP]. *)
Definition To4 (ip : Z) : option Z :=
  if Z.shiftr ip 32 =? 0xffff then Some (Z.land ip (Z.ones 32)) else None.
Definition IPString (ip : Z) : string :=
  match To4 ip with Some v => string4 v | None => string6 ip end.

(** ** Prefixes *)
Record Prefix := mkPrefix { pfx_ip : Addr; pfx_bitsPlusOne : Z }.
#[export] Instance Prefix_eq_dec : EqDecision Prefix.
Proof. solve_decision. Defined.

#[export] Instance Prefix_countable : Countable Prefix.
Proof.
  refine (inj_countable' (λ p, (pfx_ip p, pfx_bitsPlusOne p)) (λ '(a, n), mkPrefix a n) _).
  by intros [].
Defined.

Definition PrefixFrom (ip : Addr) (bits : Z) : Prefix :=
  mkPrefix (withoutZone ip)
    (if decide (ip ≠ AddrZ ∧ 0 ≤ bits ≤ BitLen ip) then bits + 1 else 0).
Definition Bits (p : Prefix) : Z := pfx_bitsPlusOne p - 1.
Definition PfxValid (p : Prefix) : bool := 0 <? pfx_bitsPlusOne p.
Definition IsSingleIP (p : Prefix) : bool := PfxValid p && (Bits p =? BitLen (pfx_ip p)).
Definition addr_bits (a : Addr) : Z :=
  match a with AddrZ => 0 | Addr4 v => v | Addr6 v _ => v end.
Definition Contains (p : Prefix) (ip : Addr) : bool :=
  PfxValid p && negb (hasZone ip) &&
  negb (BitLen (pfx_ip p) =? 0) && (BitLen (pfx_ip p) =? BitLen ip) &&
  (Z.shiftr (Z.lxor (addr_bits ip) (addr_bits (pfx_ip p))) (BitLen ip - Bits p) =? 0).
(** [Masked]: the host bits cleared. *)
Definition Masked (p : Prefix) : Prefix :=
  if PfxValid p then
    let s := BitLen (pfx_ip p) - Bits p in
    let m v := Z.shiftl (Z.shiftr v s) s in
    PrefixFrom (match pfx_ip p with
                | AddrZ => AddrZ | Addr4 v => Addr4 (m v) | Addr6 v z => Addr6 (m v) z end) (Bits p)
  else mkPrefix AddrZ 0.

Definition ParsePrefix (s : string) : option Prefix :=
  match last_index_byte "/" s with
  | None => None
  | Some i =>
      match ParseAddr (str_take i s) with
      | None => None
      | Some ip =>
          if hasZone ip then None
          else
            let bitsStr := str_drop (S i) s in
            if match bitsStr with
               | String c (String _ _) => negb (is_digit c) || bool_decide (c = "0"%char)
               | _ => false
               end then None
            else match Atoi bitsStr with
                 | None => None
                 | Some bits =>
                     if decide (bits < 0 ∨ bits > (if Is6 ip then 128 else 32)) then None
                     else Some (PrefixFrom ip bits)
                 end
      end
  end.

(** ** Address and port *)
Record AddrPort := mkAddrPort { ap_addr : Addr; ap_port : Z }.
#[export] Instance AddrPort_eq_dec : EqDecision AddrPort.
Proof. solve_decision. Defined.
#[export] Instance AddrPort_countable : Countable AddrPort.
Proof.
  refine (inj_countable' (λ a, (ap_addr a, ap_port a)) (λ '(a, p), mkAddrPort a p) _).
  by intros [].
Defined.
Definition AddrPortZ : AddrPort := mkAddrPort AddrZ 0.

(** ** The 16 bytes of an address *)
Lemma As16_length a : length (As16 a) = 16%nat.
Proof. unfold As16. destruct a; apply be_bytes_length. Qed.
Lemma As16_ok a : bytes_ok (As16 a).
Proof. unfold As16. destruct a; apply be_bytes_ok. Qed.
Lemma As16_zlen a : zlen (As16 a) = 16.
Proof. unfold zlen. by rewrite As16_length. Qed.

Lemma mapped_4 v : 0 ≤ v < 2 ^ 32 → Z.lor (Z.shiftl 0xffff 32) v = 0xffff * 2 ^ 32 + v.
Proof.
  intros Hv. rewrite Z.shiftl_mul_pow2 by lia. rewrite <- Z.lxor_lor, <- Z.add_nocarry_lxor; [done| |].
  all: apply Z.bits_inj'; intros i Hi; rewrite Z.land_spec, Z.bits_0;
    destruct (Z.lt_ge_cases i 32); [by rewrite Z.mul_pow2_bits_low|];
    rewrite (Z.bits_above_log2 v), andb_false_r; try lia; try done;
    (destruct (decide (v = 0)); [subst; simpl; lia|]; apply Z.log2_lt_pow2; [lia|];
     eapply Z.lt_le_trans; [apply Hv|]; apply Z.pow_le_mono_r; lia).
Qed.

Lemma Unmap_As16 a :
  addr_ok a → a ≠ AddrZ → Unmap (AddrFrom16 (As16 a)) = Unmap (withoutZone a).
Proof.
  intros Hok HZ. destruct a as [|v|v z]; [done| |]; simpl in Hok; unfold AddrFrom16, As16.
  - rewrite mapped_4 by done. rewrite be_val_bytes by (change (256 ^ Z.of_nat 16) with (2 ^ 128); lia).
    unfold Unmap, Is4In6. rewrite Z.shiftr_div_pow2, Z.div_add_l, Z.div_small by lia.
    change (0xffff + 0 =? 0xffff) with true. cbv iota. f_equal.
    rewrite Z.land_ones, Z.add_comm, Z.mod_add, Z.mod_small by lia. done.
  - rewrite be_val_bytes by (change (256 ^ Z.of_nat 16) with (2 ^ 128); lia). done.
Qed.
