(* ===== verification/CliFlags.v ===== *)
(** * Command line: flags, port mappings and address lists

    [cmd/tunnneji-tail/cli/root.go]: the scalar parsers used by
    [parseTunnelArgs]. *)

From stdpp Require Import pretty.
From S2P Require Import Prelude GoStd NetIP.

(** ** parseFlag *)
Definition parseNumAndSub (s : string) : Z * string :=
  if decide (s = "") then (-1, "")
  else
    let '(ds, rest) := span_digits s in
    if decide (ds = "") then (-1, s)
    else match Atoi ds with
         | None => (-1, s)
         | Some num => if decide (num < 0) then (-1, s) else (num, rest)
         end.

Record Flag := mkFlag { base : string; groupNum : Z; sub : string; dir : string }.

Definition parseFlag (arg : string) : Flag :=
  match arg with
  | String "-" (String c rest) =>
      let baseChar := String c "" in
      if decide (c = "A"%char ∨ c = "P"%char) then
        match rest with
        | EmptyString => mkFlag baseChar (-1) "" ""
        | String d rest' =>
            let '(dir, rest) :=
              if decide (d = "S"%char ∨ d = "C"%char) then (String d "", rest') else ("", rest) in
            let '(n, sub) := parseNumAndSub rest in
            mkFlag baseChar n sub dir
        end
      else
        let '(n, sub) := parseNumAndSub rest in mkFlag baseChar n sub ""
  | _ => mkFlag arg (-1) "" ""
  end.

(** ** Port mappings *)
Inductive MapErr : Type :=
  | InvalidMapping (s : string)
  | InvalidPort (s : string)
  | MissingAddress (s : string)
  | NeedBrackets (s : string).

Definition isBracketed (host : string) : bool := has_prefix "[" host && has_suffix "]" host.
Definition trimBrackets (host : string) : string :=
  if has_prefix "[" host && has_suffix "]" host
  then str_take (String.length host - 2) (str_drop 1 host) else host.

Record Mapping := mkMapping { listenPort : Z; mapAddr : string; targetPort : Z }.

Definition parsePortMapping (s : string) : res MapErr Mapping :=
  match index_byte ":" s with
  | None => Err (InvalidMapping s)
  | Some first =>
      match Atoi (str_take first s) with
      | None => Err (InvalidPort (str_take first s))
      | Some p1 =>
          let rest := str_drop (S first) s in
          if decide (rest = "") then Err (MissingAddress s)
          else match SplitHostPort rest with
               | None =>
                   if isBracketed rest then Ok (mkMapping p1 (trimBrackets rest) p1)
                   else if contains_byte ":" rest then Err (NeedBrackets s)
                   else Ok (mkMapping p1 rest p1)
               | Some (host, port) =>
                   match Atoi port with
                   | None => Err (InvalidPort port)
                   | Some p2 => Ok (mkMapping p1 (trimBrackets host) p2)
                   end
               end
      end
  end.

(** ** Target addresses *)
Definition formatIP (ip : Z) : string :=
  match To4 ip with
  | Some _ => IPString ip
  | None => "[" +:+ IPString ip +:+ "]"
  end.

Section resolve.
(** [net.LookupHost]; [None] is an error. *)
Context (lookupHost : string → option (list string)).

Definition resolveHost (host : string) : string :=
  let bare := trimBrackets host in
  match ParseIP bare with
  | Some ip => formatIP ip
  | None =>
      match lookupHost bare with
      | None | Some [] => host
      | Some (ip0 :: _) =>
          match ParseIP ip0 with Some ip => formatIP ip | None => ip0 end
      end
  end.
End resolve.

(** ** IP lists *)

(** One element of an IP list; [Err part] is the text quoted in the error. *)
Definition parseIPPart (part : string) : res string Prefix :=
  match ParsePrefix part with
  | Some pfx => Ok pfx
  | None =>
      match ParseAddr part with
      | None => Err part
      | Some addr => Ok (PrefixFrom addr (if Is6 addr then 128 else 32))
      end
  end.

Fixpoint parseIPParts (parts : list string) : res string (list Prefix) :=
  match parts with
  | [] => Ok []
  | part :: parts =>
      if decide (part = "") then parseIPParts parts
      else p ← parseIPPart part; ps ← parseIPParts parts; Ok (p :: ps)
  end.

Definition parseIPList (s : string) : res string (list Prefix) := parseIPParts (split_byte "_" s).
