(* ===== verification/CliArgs.v ===== *)
(** * Command line: parseTunnelArgs

    [cmd/tunnneji-tail/cli/root.go]: from the argument vector to the tunnel
    groups.  [os.Stat] is the parameter [stat] (whether the file exists); the
    order in which Go ranges over [rg.entries] is unspecified and is the
    parameter [order]. *)

From stdpp Require Import pretty sorting.
From S2P Require Import Prelude GoStd NetIP CliFlags.

(** ** Data *)
Record PortEntry := mkPortEntry {
  IsServer : bool;
  ListenPort : Z;
  TargetAddr : string;
  TargetPort : Z;
  Accept : list Prefix;
  Password : string
}.

Record TunnelGroup := mkTunnelGroup {
  AuthKey : string;
  StateFile : string;
  Hostname : string;
  Ports : gmap string PortEntry;
  DropICMP : bool
}.

Record rawEntry := mkRawEntry { direction : string; mapping : string }.

Record rawGroup := mkRawGroup {
  authKey : string;
  authKeySet : bool;
  stateFile : string;
  stateFileSet : bool;
  hostname : string;
  hostnameSet : bool;
  entries : gmap string (list rawEntry);
  accepts : gmap string string;
  passwords : gmap string string
}.

Definition emptyGroup : rawGroup := mkRawGroup "" false "" false "" false ∅ ∅ ∅.

Definition set_auth (k : string) (g : rawGroup) : rawGroup :=
  mkRawGroup k true (stateFile g) (stateFileSet g) (hostname g) (hostnameSet g)
    (entries g) (accepts g) (passwords g).
Definition set_state (f : string) (g : rawGroup) : rawGroup :=
  mkRawGroup (authKey g) (authKeySet g) f true (hostname g) (hostnameSet g)
    (entries g) (accepts g) (passwords g).
Definition set_host (h : string) (g : rawGroup) : rawGroup :=
  mkRawGroup (authKey g) (authKeySet g) (stateFile g) (stateFileSet g) h true
    (entries g) (accepts g) (passwords g).
Definition add_entry (k : string) (e : rawEntry) (g : rawGroup) : rawGroup :=
  mkRawGroup (authKey g) (authKeySet g) (stateFile g) (stateFileSet g) (hostname g) (hostnameSet g)
    (<[k := default [] (entries g !! k) ++ [e]]> (entries g)) (accepts g) (passwords g).
Definition add_accept (k v : string) (g : rawGroup) : rawGroup :=
  mkRawGroup (authKey g) (authKeySet g) (stateFile g) (stateFileSet g) (hostname g) (hostnameSet g)
    (entries g) (<[k := v]> (accepts g)) (passwords g).
Definition add_password (k v : string) (g : rawGroup) : rawGroup :=
  mkRawGroup (authKey g) (authKeySet g) (stateFile g) (stateFileSet g) (hostname g) (hostnameSet g)
    (entries g) (accepts g) (<[k := v]> (passwords g)).

(** The errors, one constructor per [fmt.Errorf]. *)
Inductive CliErr : Type :=
  | UnexpectedArgument (arg : string)
  | UnknownFlag (arg : string)
  | RequiresValue (flag : string)
  | DuplicateK (n : Z)
  | DuplicateT (n : Z)
  | DuplicateTValue
  | DuplicateH (n : Z)
  | ARequiresDirection
  | DuplicateA (dir sub : string) (n : Z)
  | DuplicateP (dir sub : string) (n : Z)
  | NoArguments
  | CannotCoexist
  | NoKOrT (n : Z)
  | StateAlreadyExists (n : Z) (f : string)
  | MissingSOrC (n : Z)
  | StateNotFound (n : Z) (f : string)
  | BadMapping (n : Z) (dir sub : string) (e : MapErr)
  | PortUsed (n port : Z) (dir1 sub1 dir2 sub2 : string)
  | BadAccept (n : Z) (key part : string)
  | NoSOrC.

(** ** The argument loop *)
Record PState := mkPState {
  raw : gmap Z rawGroup;
  lastAuthKey : string;
  lastStateFile : string;
  lastHostname : string;
  inheritedPasswords : gmap string string;
  inheritedAccepts : gmap string string;
  debug : bool
}.
Definition initPState : PState := mkPState ∅ "" "" "" ∅ ∅ false.

(** [getGroup]: the group of that number, made on first use. *)
Definition getGroup (n : Z) (r : gmap Z rawGroup) : rawGroup := default emptyGroup (r !! n).

Definition knownFlags : list string := ["K"; "S"; "C"; "T"; "A"; "P"; "H"].

(** What one flag with its value [v] does to the state. *)
Definition applyFlag (fl : Flag) (v : string) (st : PState) : res CliErr PState :=
  let n := groupNum fl in
  let g := getGroup n (raw st) in
  if decide (base fl = "K") then
    if decide (authKey g ≠ "") then Err (DuplicateK n)
    else Ok (mkPState (<[n := set_auth v g]> (raw st)) v (lastStateFile st) (lastHostname st)
               (inheritedPasswords st) (inheritedAccepts st) (debug st))
  else if decide (base fl = "T") then
    if decide (stateFile g ≠ "") then Err (DuplicateT n)
    else if decide (lastStateFile st ≠ "" ∧ v = lastStateFile st) then Err DuplicateTValue
    else Ok (mkPState (<[n := set_state v g]> (raw st)) (lastAuthKey st) v (lastHostname st)
               (inheritedPasswords st) (inheritedAccepts st) (debug st))
  else if decide (base fl = "H") then
    if hostnameSet g then Err (DuplicateH n)
    else Ok (mkPState (<[n := set_host v g]> (raw st)) (lastAuthKey st) (lastStateFile st)
               (if decide (n = -1) then v else lastHostname st)
               (inheritedPasswords st) (inheritedAccepts st) (debug st))
  else if decide (base fl = "S" ∨ base fl = "C") then
    let key := base fl +:+ sub fl in
    Ok (mkPState (<[n := add_entry key (mkRawEntry (base fl) v) g]> (raw st))
          (lastAuthKey st) (lastStateFile st) (lastHostname st)
          (inheritedPasswords st) (inheritedAccepts st) (debug st))
  else if decide (base fl = "A") then
    let key := dir fl +:+ sub fl in
    match accepts g !! key with
    | Some _ => Err (DuplicateA (dir fl) (sub fl) n)
    | None =>
        Ok (mkPState (<[n := add_accept key v g]> (raw st))
              (lastAuthKey st) (lastStateFile st) (lastHostname st) (inheritedPasswords st)
              (if decide (n = -1) then <[key := v]> (inheritedAccepts st) else inheritedAccepts st)
              (debug st))
    end
  else (* "P" *)
    let key := dir fl +:+ sub fl in
    match passwords g !! key with
    | Some _ => Err (DuplicateP (dir fl) (sub fl) n)
    | None =>
        Ok (mkPState (<[n := add_password key v g]> (raw st))
              (lastAuthKey st) (lastStateFile st) (lastHostname st)
              (if decide (n = -1) then <[key := v]> (inheritedPasswords st) else inheritedPasswords st)
              (inheritedAccepts st) (debug st))
    end.

Definition setDebug (st : PState) : PState :=
  mkPState (raw st) (lastAuthKey st) (lastStateFile st) (lastHostname st)
    (inheritedPasswords st) (inheritedAccepts st) true.

(** [for i := 0; i < len(args); i++]; a flag consumes the next argument. *)
Fixpoint parseArgs (args : list string) (st : PState) : res CliErr PState :=
  match args with
  | [] => Ok st
  | arg :: rest =>
      if decide (arg = "-D") then parseArgs rest (setDebug st)
      else if negb (has_prefix "-" arg) then Err (UnexpectedArgument arg)
      else
        let fl := parseFlag arg in
        if decide (base fl ∉ knownFlags) then Err (UnknownFlag arg)
        else if decide (base fl = "A" ∧ dir fl = "") then Err ARequiresDirection
        else match rest with
             | [] => Err (RequiresValue (base fl))
             | v :: rest => st ← applyFlag fl v st; parseArgs rest st
             end
  end.

(** ** Inheritance *)

(** The sorted group numbers. *)
Definition groupNums (r : gmap Z rawGroup) : list Z := merge_sort Z.le (map_to_list r).*1.

(** Group 0 without -K/-T takes the last -K/-T seen. *)
Definition inheritAuth (st : PState) (n : Z) (g : rawGroup) : rawGroup :=
  if decide (n = 0) then
    mkRawGroup
      (if decide (authKey g = "") then lastAuthKey st else authKey g) (authKeySet g)
      (if decide (stateFile g = "") then lastStateFile st else stateFile g) (stateFileSet g)
      (hostname g) (hostnameSet g) (entries g) (accepts g) (passwords g)
  else g.

(** Every group but -1 takes the -P, -A and -H of group -1 it does not set: the
    two range loops over the inherited maps fill exactly the absent keys. *)
Definition inheritGlobals (st : PState) (n : Z) (g : rawGroup) : rawGroup :=
  if decide (n = -1) then g
  else
    mkRawGroup (authKey g) (authKeySet g) (stateFile g) (stateFileSet g)
      (if decide (lastHostname st ≠ "" ∧ hostnameSet g = false) then lastHostname st else hostname g)
      (hostnameSet g) (entries g)
      (accepts g ∪ inheritedAccepts st) (passwords g ∪ inheritedPasswords st).

Definition inheritAll (st : PState) : gmap Z rawGroup :=
  map_imap (λ n g, Some (inheritGlobals st n (inheritAuth st n g))) (raw st).

(** ** Coexistence *)
Definition active (g : rawGroup) : bool :=
  bool_decide (entries g ≠ ∅) || authKeySet g || stateFileSet g.
Definition coexist (r : gmap Z rawGroup) : bool :=
  match r !! (-1) with Some g => active g | None => false end &&
  existsb (λ n, (0 <=? n) && active (getGroup n r)) (groupNums r).

Definition defaultStateFile : string := "ttstate.json".

Section env.
Context (stat : string → bool).
Context (order : gmap string (list rawEntry) → list (string * list rawEntry)).

(** ** Validation of one group; the group comes back with its state file set. *)
Definition validateGroup (n : Z) (g : rawGroup) : res CliErr rawGroup :=
  if decide (n = -1 ∧ entries g = ∅) then Ok g
  else
    let groupExists :=
      if 0 <? n then authKeySet g || stateFileSet g || bool_decide (authKey g ≠ "")
                     || bool_decide (stateFile g ≠ "")
      else authKeySet g || stateFileSet g || bool_decide (entries g ≠ ∅) in
    if negb groupExists then Err (NoKOrT n)
    else if authKeySet g && stateFileSet g && stat (stateFile g)
         then Err (StateAlreadyExists n (stateFile g))
    else
      let sf := if decide (stateFile g = "") then defaultStateFile else stateFile g in
      let g' := mkRawGroup (authKey g) (authKeySet g) sf (stateFileSet g) (hostname g)
                  (hostnameSet g) (entries g) (accepts g) (passwords g) in
      if decide (entries g = ∅) then Err (MissingSOrC n)
      else if bool_decide (authKey g = "") && negb (stateFileSet g) && negb (stat sf)
           then Err (StateNotFound n sf)
      else if bool_decide (authKey g = "") && stateFileSet g && negb (stat sf)
           then Err (StateNotFound n sf)
      else Ok g'.

Fixpoint validateAll (nums : list Z) (r : gmap Z rawGroup) : res CliErr (gmap Z rawGroup) :=
  match nums with
  | [] => Ok r
  | n :: nums => g ← validateGroup n (getGroup n r); validateAll nums (<[n := g]> r)
  end.

(** ** Building the port entries of one group *)

(** The first key of [keys] that [m] has, with its value. *)
Fixpoint lookupFirst (keys : list string) (m : gmap string string) : option (string * string) :=
  match keys with
  | [] => None
  | k :: keys => match m !! k with Some v => Some (k, v) | None => lookupFirst keys m end
  end.

Record Build := mkBuild {
  usedPorts : gmap string (string * string);   (* direction+port -> (direction, sub) *)
  ports : gmap string PortEntry
}.

Definition portKey (d s : string) (p : Z) : string := d +:+ s +:+ Itoa p.

Definition buildEntry (n : Z) (g : rawGroup) (s : string) (e : rawEntry) (b : Build)
    : res CliErr Build :=
  let d := direction e in
  match parsePortMapping (mapping e) with
  | Err err => Err (BadMapping n d s err)
  | Panic => Panic
  | Ok m =>
      let pk := d +:+ Itoa (listenPort m) in
      match usedPorts b !! pk with
      | Some (d1, s1) => Err (PortUsed n (listenPort m) d1 s1 d s)
      | None =>
          let addr := match ParseIP (trimBrackets (mapAddr m)) with
                      | Some ip => formatIP ip | None => mapAddr m end in
          acc ← match lookupFirst [d +:+ s; d] (accepts g) with
                | None => Ok []
                | Some (k, ips) =>
                    match parseIPList ips with
                    | Ok ps => Ok ps
                    | Err part => Err (BadAccept n k part)
                    | Panic => Panic
                    end
                end;
          let pass := match lookupFirst [d +:+ s; d; s; ""] (passwords g) with
                      | Some (_, p) => p | None => "" end in
          Ok (mkBuild (<[pk := (d, s)]> (usedPorts b))
                (<[portKey d s (listenPort m) :=
                     mkPortEntry (bool_decide (d = "S")) (listenPort m) addr (targetPort m) acc pass]>
                   (ports b)))
      end
  end.

Fixpoint buildEntries (n : Z) (g : rawGroup) (s : string) (es : list rawEntry) (b : Build)
    : res CliErr Build :=
  match es with
  | [] => Ok b
  | e :: es => b ← buildEntry n g s e b; buildEntries n g s es b
  end.

Fixpoint buildKeys (n : Z) (g : rawGroup) (kes : list (string * list rawEntry)) (b : Build)
    : res CliErr Build :=
  match kes with
  | [] => Ok b
  | (k, es) :: kes => b ← buildEntries n g (str_drop 1 k) es b; buildKeys n g kes b
  end.

(** ICMP is dropped unless some server port has no password. *)
Definition dropICMP (ps : gmap string PortEntry) : bool :=
  let srv := filter (λ pe, IsServer pe = true) (map_to_list ps).*2 in
  negb (existsb (λ _, true) srv) || forallb (λ pe, negb (bool_decide (Password pe = ""))) srv.

Definition buildGroup (n : Z) (g : rawGroup) : res CliErr TunnelGroup :=
  b ← buildKeys n g (order (entries g)) (mkBuild ∅ ∅);
  Ok (mkTunnelGroup (authKey g) (stateFile g) (hostname g) (ports b) (dropICMP (ports b))).

Fixpoint buildAll (nums : list Z) (r : gmap Z rawGroup) : res CliErr (list TunnelGroup) :=
  match nums with
  | [] => Ok []
  | n :: nums =>
      let g := getGroup n r in
      if decide (entries g = ∅) then buildAll nums r
      else tg ← buildGroup n g; tgs ← buildAll nums r; Ok (tg :: tgs)
  end.

(** ** parseTunnelArgs *)
Definition parseTunnelArgs (args : list string) : res CliErr (list TunnelGroup) :=
  st ← parseArgs args initPState;
  if decide (raw st = ∅) then Err NoArguments
  else
    let nums := groupNums (raw st) in
    let r := inheritAll st in
    if coexist r then Err CannotCoexist
    else
      r ← validateAll nums r;
      groups ← buildAll nums r;
      if decide (groups = []) then Err NoSOrC else Ok groups.
End env.
