(* ===== verification/CliSpec.v ===== *)
(** * Command line: what the arguments mean

    A declarative reading of the argument vector (which value a flag sets for
    which group and key, and which password and whitelist a mapping gets), and the
    theorems that [parseTunnelArgs] implements it. *)

From stdpp Require Import pretty sorting.
From S2P Require Import Prelude GoStd NetIP CliFlags CliArgs.

(** ** Declarative reading *)

(** The flags with their values, in order. *)
Fixpoint flagPairs (args : list string) : list (Flag * string) :=
  match args with
  | [] => []
  | arg :: rest =>
      if decide (arg = "-D") then flagPairs rest
      else match rest with
           | [] => []
           | v :: rest => (parseFlag arg, v) :: flagPairs rest
           end
  end.

(** The value the flags give to key [k] of the -A or -P map of group [n]. *)
Definition setting (b : string) (n : Z) (k : string) (fs : list (Flag * string)) : option string :=
  snd <$> head (filter (λ p, base p.1 = b ∧ groupNum p.1 = n ∧ dir p.1 +:+ sub p.1 = k) fs).

(** A group's own value, else the value of the numberless flags. *)
Definition effective (b : string) (n : Z) (fs : list (Flag * string)) (k : string) : option string :=
  match setting b n k fs with Some v => Some v | None => setting b (-1) k fs end.

Fixpoint firstOf (f : string → option string) (keys : list string) : option string :=
  match keys with
  | [] => None
  | k :: keys => match f k with Some v => Some v | None => firstOf f keys end
  end.

Definition specPassword (fs : list (Flag * string)) (n : Z) (d s : string) : string :=
  default "" (firstOf (effective "P" n fs) [d +:+ s; d; s; ""]).
Definition specAccept (fs : list (Flag * string)) (n : Z) (d s : string) : option string :=
  firstOf (effective "A" n fs) [d +:+ s; d].

Definition normAddr (a : string) : string :=
  match ParseIP (trimBrackets a) with Some ip => formatIP ip | None => a end.

(** The port entry a mapping [v] of direction [d] and port group [s] denotes. *)
Definition specPort (fs : list (Flag * string)) (n : Z) (d s v : string) : option PortEntry :=
  match parsePortMapping v,
        match specAccept fs n d s with None => Ok [] | Some ips => parseIPList ips end with
  | Ok m, Ok acc =>
      Some (mkPortEntry (bool_decide (d = "S")) (listenPort m) (normAddr (mapAddr m))
              (targetPort m) acc (specPassword fs n d s))
  | _, _ => None
  end.

(** The mapping flags of group [n] with key [k], in order. *)
Definition entriesOf (n : Z) (k : string) (fs : list (Flag * string)) : list rawEntry :=
  (λ p, mkRawEntry (base p.1) p.2) <$>
  filter (λ p, (base p.1 = "S" ∨ base p.1 = "C") ∧ groupNum p.1 = n ∧ base p.1 +:+ sub p.1 = k) fs.

(** ** The argument loop computes it *)
Record ArgsInv (fs : list (Flag * string)) (st : PState) : Prop := mkArgsInv {
  inv_pass : ∀ n k, passwords (getGroup n (raw st)) !! k = setting "P" n k fs;
  inv_acc : ∀ n k, accepts (getGroup n (raw st)) !! k = setting "A" n k fs;
  inv_ent : ∀ n k, entries (getGroup n (raw st)) !! k =
              match entriesOf n k fs with [] => None | es => Some es end;
  inv_ipass : ∀ k, inheritedPasswords st !! k = setting "P" (-1) k fs;
  inv_iacc : ∀ k, inheritedAccepts st !! k = setting "A" (-1) k fs
}.

Lemma setting_snoc b n k fs fl v :
  setting b n k (fs ++ [(fl, v)]) =
  match setting b n k fs with
  | Some w => Some w
  | None => if decide (base fl = b ∧ groupNum fl = n ∧ dir fl +:+ sub fl = k) then Some v else None
  end.
Proof.
  unfold setting. rewrite filter_app, filter_singleton by done.
  destruct (filter _ fs); [|done]. simpl. by repeat case_decide.
Qed.

Lemma setting_snoc_other b n k fs fl v :
  base fl ≠ b → setting b n k (fs ++ [(fl, v)]) = setting b n k fs.
Proof. intros. rewrite setting_snoc. destruct (setting _ _ _ fs); [done|]. case_decide; naive_solver. Qed.

Lemma entriesOf_snoc n k fs fl v :
  entriesOf n k (fs ++ [(fl, v)]) =
  entriesOf n k fs ++
  (if decide ((base fl = "S" ∨ base fl = "C") ∧ groupNum fl = n ∧ base fl +:+ sub fl = k)
   then [mkRawEntry (base fl) v] else []).
Proof.
  unfold entriesOf. rewrite filter_app, fmap_app, filter_singleton by done.
  simpl. by repeat case_decide.
Qed.

Lemma entriesOf_snoc_other n k fs fl v :
  base fl ≠ "S" → base fl ≠ "C" → entriesOf n k (fs ++ [(fl, v)]) = entriesOf n k fs.
Proof. intros. rewrite entriesOf_snoc. case_decide; [naive_solver|]. by rewrite app_nil_r. Qed.

Lemma getGroup_insert n m g r :
  getGroup n (<[m := g]> r) = if decide (m = n) then g else getGroup n r.
Proof. unfold getGroup. rewrite lookup_insert. by case_decide. Qed.

Lemma argsInv_init : ArgsInv [] initPState.
Proof. by split. Qed.

(** A flag that leaves the three maps of its group alone. *)
Lemma argsInv_neutral fs st fl v g' st' :
  ArgsInv fs st → base fl ∉ ["S"; "C"; "A"; "P"] →
  let g := getGroup (groupNum fl) (raw st) in
  entries g' = entries g → accepts g' = accepts g → passwords g' = passwords g →
  raw st' = <[groupNum fl := g']> (raw st) →
  inheritedPasswords st' = inheritedPasswords st →
  inheritedAccepts st' = inheritedAccepts st →
  ArgsInv (fs ++ [(fl, v)]) st'.
Proof.
  intros [HP HA HE HIP HIA] Hb g Eg Ag Pg Hr Hip Hia.
  assert (base fl ≠ "S" ∧ base fl ≠ "C" ∧ base fl ≠ "A" ∧ base fl ≠ "P") as (?&?&?&?)
    by set_solver.
  split; intros; rewrite ?Hip, ?Hia, ?Hr, ?getGroup_insert.
  - rewrite setting_snoc_other by done. case_decide; subst; rewrite ?Pg; apply HP.
  - rewrite setting_snoc_other by done. case_decide; subst; rewrite ?Ag; apply HA.
  - rewrite entriesOf_snoc_other by done. case_decide; subst; rewrite ?Eg; apply HE.
  - by rewrite setting_snoc_other.
  - by rewrite setting_snoc_other.
Qed.

Lemma entriesOf_match_snoc {B} (es : list rawEntry) e (x : B) (f : list rawEntry → B) :
  match es ++ [e] with [] => x | es' => f es' end = f (es ++ [e]).
Proof. by destruct es. Qed.

Lemma argsInv_entry fs st fl v :
  ArgsInv fs st → base fl = "S" ∨ base fl = "C" →
  let g := getGroup (groupNum fl) (raw st) in
  ArgsInv (fs ++ [(fl, v)])
    (mkPState (<[groupNum fl := add_entry (base fl +:+ sub fl) (mkRawEntry (base fl) v) g]> (raw st))
       (lastAuthKey st) (lastStateFile st) (lastHostname st)
       (inheritedPasswords st) (inheritedAccepts st) (debug st)).
Proof.
  intros [HP HA HE HIP HIA] Hb g. assert (base fl ≠ "A" ∧ base fl ≠ "P") as [? ?]
    by (by destruct Hb as [Hb|Hb]; rewrite Hb).
  split; intros; simpl; rewrite ?getGroup_insert.
  - rewrite setting_snoc_other by done. case_decide; subst; apply HP.
  - rewrite setting_snoc_other by done. case_decide; subst; apply HA.
  - rewrite entriesOf_snoc. case_decide as Hn; subst; simpl.
    + rewrite lookup_insert. case_decide as Hk; subst.
      * rewrite decide_True by done. rewrite entriesOf_match_snoc with (f := Some).
        unfold g. rewrite HE. by destruct (entriesOf _ _ fs).
      * rewrite decide_False by naive_solver. rewrite app_nil_r. apply HE.
    + rewrite decide_False by naive_solver. rewrite app_nil_r. apply HE.
  - by rewrite setting_snoc_other.
  - by rewrite setting_snoc_other.
Qed.

(** Recording a -A or -P flag in the map of its group. *)
Lemma setting_insert b n fs fl v (m : gmap string string) :
  base fl = b → (∀ k, m !! k = setting b n k fs) →
  (groupNum fl = n → m !! (dir fl +:+ sub fl) = None) → ∀ k,
  (if decide (groupNum fl = n) then <[dir fl +:+ sub fl := v]> m else m) !! k =
  setting b n k (fs ++ [(fl, v)]).
Proof.
  intros Hb Hm Hnone k. rewrite setting_snoc. case_decide as Hn.
  - rewrite lookup_insert. case_decide as Hk.
    + rewrite <- Hm, <- Hk, Hnone by done. by rewrite decide_True.
    + rewrite Hm. destruct (setting _ _ _ fs); [done|]. by rewrite decide_False by tauto.
  - rewrite Hm. destruct (setting _ _ _ fs); [done|]. by rewrite decide_False by tauto.
Qed.

Lemma argsInv_accept fs st fl v :
  ArgsInv fs st → base fl = "A" →
  let g := getGroup (groupNum fl) (raw st) in
  let k := dir fl +:+ sub fl in
  accepts g !! k = None →
  ArgsInv (fs ++ [(fl, v)])
    (mkPState (<[groupNum fl := add_accept k v g]> (raw st))
       (lastAuthKey st) (lastStateFile st) (lastHostname st) (inheritedPasswords st)
       (if decide (groupNum fl = -1) then <[k := v]> (inheritedAccepts st) else inheritedAccepts st)
       (debug st)).
Proof.
  intros [HP HA HE HIP HIA] Hb g k Hk.
  assert (base fl ≠ "S" ∧ base fl ≠ "C" ∧ base fl ≠ "P") as (?&?&?) by (by rewrite Hb).
  split; simpl; intros.
  - rewrite setting_snoc_other, getGroup_insert by done. case_decide; subst; apply HP.
  - rewrite <- (setting_insert "A" n fs fl v (accepts (getGroup n (raw st)))); [|done|done|by intros <-].
    rewrite getGroup_insert. by case_decide; subst.
  - rewrite entriesOf_snoc_other, getGroup_insert by done. case_decide; subst; apply HE.
  - by rewrite setting_snoc_other.
  - apply setting_insert; [done|done|]. intros Hn. rewrite HIA, <- Hn, <- HA. done.
Qed.

Lemma argsInv_password fs st fl v :
  ArgsInv fs st → base fl = "P" →
  let g := getGroup (groupNum fl) (raw st) in
  let k := dir fl +:+ sub fl in
  passwords g !! k = None →
  ArgsInv (fs ++ [(fl, v)])
    (mkPState (<[groupNum fl := add_password k v g]> (raw st))
       (lastAuthKey st) (lastStateFile st) (lastHostname st)
       (if decide (groupNum fl = -1) then <[k := v]> (inheritedPasswords st) else inheritedPasswords st)
       (inheritedAccepts st) (debug st)).
Proof.
  intros [HP HA HE HIP HIA] Hb g k Hk.
  assert (base fl ≠ "S" ∧ base fl ≠ "C" ∧ base fl ≠ "A") as (?&?&?) by (by rewrite Hb).
  split; simpl; intros.
  - rewrite <- (setting_insert "P" n fs fl v (passwords (getGroup n (raw st)))); [|done|done|by intros <-].
    rewrite getGroup_insert. by case_decide; subst.
  - rewrite setting_snoc_other, getGroup_insert by done. case_decide; subst; apply HA.
  - rewrite entriesOf_snoc_other, getGroup_insert by done. case_decide; subst; apply HE.
  - apply setting_insert; [done|done|]. intros Hn. rewrite HIP, <- Hn, <- HP. done.
  - by rewrite setting_snoc_other.
Qed.

Lemma argsInv_apply fs st fl v st' :
  ArgsInv fs st → base fl ∈ knownFlags → applyFlag fl v st = Ok st' → ArgsInv (fs ++ [(fl, v)]) st'.
Proof.
  intros HI Hk H. unfold applyFlag in H.
  assert (∀ g', entries g' = entries (getGroup (groupNum fl) (raw st)) → accepts g' = _ →
            passwords g' = _ → base fl ∉ ["S"; "C"; "A"; "P"] → raw st' = <[groupNum fl := g']> (raw st) →
            inheritedPasswords st' = inheritedPasswords st →
            inheritedAccepts st' = inheritedAccepts st → ArgsInv (fs ++ [(fl, v)]) st') as Hneutral
    by (intros; by eapply argsInv_neutral).
  case_decide as HK.
  { simplify_res. apply (Hneutral (set_auth v (getGroup (groupNum fl) (raw st)))); try done.
    rewrite HK; set_solver. }
  case_decide as HT.
  { simplify_res. apply (Hneutral (set_state v (getGroup (groupNum fl) (raw st)))); try done.
    rewrite HT; set_solver. }
  case_decide as HH.
  { simplify_res. apply (Hneutral (set_host v (getGroup (groupNum fl) (raw st)))); try done.
    rewrite HH; set_solver. }
  clear Hneutral. case_decide as HS.
  { simplify_res. by apply argsInv_entry. }
  case_decide as HAc.
  { simplify_res. by apply argsInv_accept. }
  simplify_res. apply argsInv_password; [done| |done]. set_solver.
Qed.

Lemma argsInv_parse args : ∀ fs st st',
  ArgsInv fs st → parseArgs args st = Ok st' → ArgsInv (fs ++ flagPairs args) st'.
Proof.
  induction args as [args IH] using (well_founded_induction
    (Wf_nat.well_founded_ltof _ (@length string))). unfold Wf_nat.ltof in IH.
  intros fs st st' HI H. destruct args as [|arg rest]; simpl in H.
  { simplify_res. by rewrite app_nil_r. }
  simpl. case_decide as HD.
  { eapply IH; [simpl; lia| |exact H]. by destruct HI; split. }
  destruct (has_prefix _ _); [|done]. simpl in H.
  case_decide as Hk; [done|].
  case_decide; [done|]. destruct rest as [|v rest]; [done|].
  apply bind_ok in H as (st1 & H1 & H).
  rewrite cons_middle, app_assoc. eapply IH; [simpl; lia| |eassumption].
  by eapply argsInv_apply.
Qed.

Lemma parseArgs_inv args st : parseArgs args initPState = Ok st → ArgsInv (flagPairs args) st.
Proof. intros H. by apply (argsInv_parse args []) in H; [|apply argsInv_init]. Qed.

(** ** Inheritance and validation keep the maps *)
Definition sameMaps (g h : rawGroup) : Prop :=
  entries g = entries h ∧ accepts g = accepts h ∧ passwords g = passwords h.

Lemma validateGroup_maps stat n g g' : validateGroup stat n g = Ok g' → sameMaps g' g.
Proof. intros H. unfold validateGroup in H. simplify_res; done. Qed.

Lemma validateAll_maps stat nums : ∀ r r',
  validateAll stat nums r = Ok r' → ∀ n, sameMaps (getGroup n r') (getGroup n r).
Proof.
  induction nums as [|m nums IH]; intros r r' H n; simpl in H; [by simplify_res|].
  apply bind_ok in H as (g & Hg & H). destruct (IH _ _ H n) as (E&A&P).
  apply validateGroup_maps in Hg as (E'&A'&P'). rewrite getGroup_insert in *.
  case_decide; subst; unfold sameMaps; split_and!; congruence.
Qed.

(** What a group's maps hold before the ports are built. *)
Definition groupReads (fs : list (Flag * string)) (n : Z) (g : rawGroup) : Prop :=
  (∀ k, passwords g !! k = effective "P" n fs k) ∧
  (∀ k, accepts g !! k = effective "A" n fs k) ∧
  (∀ k, entries g !! k = match entriesOf n k fs with [] => None | es => Some es end).

Lemma inherit_reads fs st n :
  ArgsInv fs st → is_Some (raw st !! n) → groupReads fs n (getGroup n (inheritAll st)).
Proof.
  intros [HP HA HE HIP HIA] [g Hg].
  assert (getGroup n (inheritAll st) = inheritGlobals st n (inheritAuth st n g)) as ->.
  { unfold getGroup, inheritAll. rewrite map_lookup_imap, Hg. done. }
  assert (sameMaps (inheritAuth st n g) g) as (E&A&P) by (unfold inheritAuth; by case_decide).
  specialize (HP n); specialize (HA n); specialize (HE n).
  unfold getGroup in HP, HA, HE. rewrite Hg in HP, HA, HE. simpl in *.
  unfold inheritGlobals. case_decide as Hn; subst; split_and!; intros k; simpl;
    rewrite ?E, ?A, ?P, ?lookup_union, ?HP, ?HA, ?HE, ?HIP, ?HIA; try done; unfold effective;
    by repeat destruct (setting _ _ _ _).
Qed.

Lemma groupReads_same fs n g h : sameMaps g h → groupReads fs n h → groupReads fs n g.
Proof. unfold sameMaps, groupReads. intros (->&->&->). done. Qed.

(** ** Building the ports of a group *)

(** The entry a mapping denotes under the maps of its group, with its direction
    and port group. *)
Definition entryPort (g : rawGroup) (s : string) (e : rawEntry) : option PortEntry :=
  match parsePortMapping (mapping e),
        match lookupFirst [direction e +:+ s; direction e] (accepts g) with
        | None => Ok [] | Some (_, ips) => parseIPList ips end with
  | Ok m, Ok acc =>
      Some (mkPortEntry (bool_decide (direction e = "S")) (listenPort m) (normAddr (mapAddr m))
              (targetPort m) acc
              (match lookupFirst [direction e +:+ s; direction e; s; ""] (passwords g) with
               | Some (_, p) => p | None => "" end))
  | _, _ => None
  end.

Abbreviation triple := (string * string * PortEntry)%type.
Definition resolveItem (g : rawGroup) (it : string * rawEntry) : option triple :=
  (λ pe, (direction it.2, it.1, pe)) <$> entryPort g it.1 it.2.
Definition triUsed (t : triple) : string := t.1.1 +:+ Itoa (ListenPort t.2).
Definition triKey (t : triple) : string := portKey t.1.1 t.1.2 (ListenPort t.2).
Definition insTri (b : Build) (t : triple) : Build :=
  mkBuild (<[triUsed t := t.1]> (usedPorts b)) (<[triKey t := t.2]> (ports b)).

Fixpoint buildItems (n : Z) (g : rawGroup) (its : list (string * rawEntry)) (b : Build) : res CliErr Build :=
  match its with
  | [] => Ok b
  | (s, e) :: its => b ← buildEntry n g s e b; buildItems n g its b
  end.

Definition itemsOf (kes : list (string * list rawEntry)) : list (string * rawEntry) :=
  kes ≫= λ ke, (λ e, (str_drop 1 ke.1, e)) <$> ke.2.

Lemma buildItems_app n g its its' : ∀ b,
  buildItems n g (its ++ its') b = (b' ← buildItems n g its b; buildItems n g its' b').
Proof.
  induction its as [|[s e] its IH]; intros b; simpl; [done|].
  destruct (buildEntry n g s e b); simpl; [apply IH|done|done].
Qed.

Lemma buildEntries_items n g s es : ∀ b,
  buildEntries n g s es b = buildItems n g ((λ e, (s, e)) <$> es) b.
Proof.
  induction es as [|e es IH]; intros b; simpl; [done|].
  destruct (buildEntry n g s e b); simpl; [apply IH|done|done].
Qed.

Lemma buildKeys_items n g kes : ∀ b, buildKeys n g kes b = buildItems n g (itemsOf kes) b.
Proof.
  induction kes as [|[k es] kes IH]; intros b; [done|]. simpl.
  rewrite buildItems_app, <- buildEntries_items.
  destruct (buildEntries n g _ es b); simpl; [apply IH|done|done].
Qed.

(** One step succeeds exactly when the mapping, its whitelist and its port are good. *)
Lemma buildEntry_ok n g s e b b' :
  buildEntry n g s e b = Ok b' ↔
  ∃ pe, entryPort g s e = Some pe ∧ usedPorts b !! triUsed (direction e, s, pe) = None ∧
        b' = insTri b (direction e, s, pe).
Proof.
  unfold buildEntry, entryPort, normAddr, triUsed, triKey, insTri. simpl.
  destruct (parsePortMapping (mapping e)) as [m| |]; simpl; [|naive_solver..].
  destruct (usedPorts b !! _) as [[]|] eqn:Hu.
  - split; [done|]. intros (pe & Hpe & Hn & _).
    destruct (match accepts g !! _ with Some _ => _ | None => _ end) as [[]|];
      [destruct (parseIPList _)|]; simplify_eq; simpl in *; congruence.
  - destruct (match accepts g !! _ with Some _ => _ | None => _ end) as [[? ips]|];
      [destruct (parseIPList ips)|]; simpl; split; intros H.
    all: try (destruct H as (?&?&?&?)); simplify_eq; eauto; done.
Qed.

Lemma buildItems_ok n g its : ∀ b b',
  buildItems n g its b = Ok b' ↔
  ∃ tri, mapM (resolveItem g) its = Some tri ∧ NoDup (triUsed <$> tri) ∧
         (∀ t, t ∈ tri → usedPorts b !! triUsed t = None) ∧ b' = foldl insTri b tri.
Proof.
  induction its as [|[s e] its IH]; intros b b'; simpl.
  { split.
    - intros [= ->]. exists []. split_and!; try done; [constructor|set_solver].
    - intros (tri & [= <-] & _ & _ & ->). done. }
  rewrite bind_ok. setoid_rewrite buildEntry_ok. setoid_rewrite IH. clear IH.
  split.
  - intros (b1 & (pe & Hpe & Hu & ->) & tri & Hm & Hnd & Hn & ->).
    assert (resolveItem g (s, e) = Some (direction e, s, pe)) as -> by (unfold resolveItem; simpl; by rewrite Hpe).
    exists ((direction e, s, pe) :: tri). simpl. rewrite Hm. simpl. split_and!; [done| | |done].
    + apply NoDup_cons; split; [|done]. intros Hin.
      apply list_elem_of_fmap in Hin as (t & Ht & Hin). specialize (Hn _ Hin). simpl in Hn.
      rewrite lookup_insert in Hn. by case_decide.
    + intros t [->|Hin]%elem_of_cons; [exact Hu|]. specialize (Hn _ Hin). simpl in Hn.
      rewrite lookup_insert in Hn. by case_decide.
  - intros (tri & Hm & Hnd & Hn & ->). 
    change (resolveItem g (s, e)) with ((λ pe, (direction e, s, pe)) <$> entryPort g s e) in Hm.
    destruct (entryPort g s e) as [pe|]; simpl in Hm; [|done].
    destruct (mapM (resolveItem g) its) as [tri'|]; [|done]. injection Hm as <-.
    apply NoDup_cons in Hnd as [Hnin Hnd].
    eexists. split.
    { exists pe. split_and!; [done| |done]. apply (Hn (direction e, s, pe)). set_solver. }
    exists tri'. split_and!; [done|done| |done]. intros t Hin. simpl. rewrite lookup_insert.
    case_decide as Heq; [|apply Hn; set_solver].
    destruct Hnin. apply list_elem_of_fmap. by exists t.
Qed.

(** Success does not depend on the order, nor does the set of resolved entries. *)
Lemma buildItems_perm n g its its' b :
  its ≡ₚ its' → buildItems n g its (mkBuild ∅ ∅) = Ok b →
  ∃ b' tri tri', buildItems n g its' (mkBuild ∅ ∅) = Ok b' ∧ tri ≡ₚ tri' ∧
    NoDup (triUsed <$> tri) ∧ mapM (resolveItem g) its = Some tri ∧
    b = foldl insTri (mkBuild ∅ ∅) tri ∧ b' = foldl insTri (mkBuild ∅ ∅) tri'.
Proof.
  intros Hp (tri & Hm & Hnd & _ & ->)%buildItems_ok.
  assert (∃ tri', mapM (resolveItem g) its' = Some tri' ∧ tri ≡ₚ tri') as (tri' & Hm' & Hp').
  { clear Hnd. revert tri Hm. induction Hp as [|it l l' Hl IH|it it' l|l l' l'' Hl IH Hl' IH']; intros tri Hm.
    - exists tri. done.
    - simpl in *. destruct (resolveItem g it) as [t|]; [|done]. simpl in *.
      destruct (mapM _ l) as [tl|]; [|done]. injection Hm as <-.
      destruct (IH tl eq_refl) as (tl' & -> & ?). exists (t :: tl'). split; [done|]. by constructor.
    - simpl in *. destruct (resolveItem g it') as [t'|]; [|done].
      destruct (resolveItem g it) as [t|]; [|done]. simpl in *.
      destruct (mapM _ l) as [tl|]; [|done]. injection Hm as <-. eexists. split; [done|]. constructor.
    - destruct (IH _ Hm) as (t1 & H1 & ?). destruct (IH' _ H1) as (t2 & H2 & ?).
      exists t2. split; [done|]. by etrans. }
  exists (foldl insTri (mkBuild ∅ ∅) tri'), tri, tri'. split_and!; try done.
  apply buildItems_ok. exists tri'. split_and!; [done| |done|done]. by rewrite <- Hp'.
Qed.

Lemma foldl_insTri_ports tri : ∀ b k pe,
  ports (foldl insTri b tri) !! k = Some pe →
  ports b !! k = Some pe ∨ ∃ d s, (d, s, pe) ∈ tri ∧ k = triKey (d, s, pe).
Proof.
  induction tri as [|[[d s] pe0] tri IH]; intros b k pe H; simpl in H; [by left|].
  apply IH in H as [H|(d' & s' & Hin & ->)]; [|right; set_solver]. simpl in H.
  rewrite lookup_insert in H. case_decide as Hk; [|by left].
  injection H as ->. right. exists d, s. split; [left|done].
Qed.

(** With distinct keys nothing is overwritten. *)
Lemma foldl_insTri_mem tri : ∀ b t,
  NoDup (triKey <$> tri) → t ∈ tri → ports (foldl insTri b tri) !! triKey t = Some t.2.
Proof.
  assert (∀ tri b k, k ∉ triKey <$> tri → ports (foldl insTri b tri) !! k = ports b !! k) as Hother.
  { clear. induction tri as [|t tri IH]; intros b k Hk; simpl in *; [done|].
    rewrite IH by set_solver. simpl. rewrite lookup_insert_ne; set_solver. }
  induction tri as [|t0 tri IH]; intros b t Hnd Hin; simpl in *; [set_solver|].
  apply NoDup_cons in Hnd as [Hnin Hnd]. apply elem_of_cons in Hin as [->|Hin].
  - rewrite Hother by done. simpl. apply lookup_insert_eq.
  - by apply IH.
Qed.

(** ** The groups of a successful parse *)
Lemma groupNums_spec r n : n ∈ groupNums r ↔ is_Some (r !! n).
Proof.
  unfold groupNums. rewrite merge_sort_Permutation, list_elem_of_fmap. split.
  - intros ([m g] & -> & Hin%elem_of_map_to_list). by exists g.
  - intros [g Hg]. exists (n, g). split; [done|]. by apply elem_of_map_to_list.
Qed.
Lemma groupNums_NoDup r : NoDup (groupNums r).
Proof. unfold groupNums. rewrite merge_sort_Permutation. apply NoDup_fst_map_to_list. Qed.

Lemma validateAll_other stat nums : ∀ r r' n,
  n ∉ nums → validateAll stat nums r = Ok r' → getGroup n r' = getGroup n r.
Proof.
  induction nums as [|m nums IH]; intros r r' n Hn H; simpl in H; [by simplify_res|].
  apply bind_ok in H as (g & _ & H). apply not_elem_of_cons in Hn as [Hm Hn].
  rewrite (IH _ _ _ Hn H), getGroup_insert. by case_decide.
Qed.

Lemma validateAll_each stat nums : ∀ r r' n,
  NoDup nums → validateAll stat nums r = Ok r' → n ∈ nums →
  validateGroup stat n (getGroup n r) = Ok (getGroup n r').
Proof.
  induction nums as [|m nums IH]; intros r r' n Hnd H Hin; simpl in H; [set_solver|].
  apply bind_ok in H as (g & Hg & H). apply NoDup_cons in Hnd as [Hm Hnd].
  apply elem_of_cons in Hin as [->|Hin].
  - rewrite (validateAll_other _ _ _ _ _ Hm H), getGroup_insert. by rewrite decide_True.
  - rewrite <- (IH _ _ _ Hnd H Hin), getGroup_insert. case_decide; set_solver.
Qed.

(** What is known of a tunnel group [tg] built from the raw group [g] numbered [n]. *)
Record GroupFacts (stat : string → bool) (order : gmap string (list rawEntry) → list (string * list rawEntry))
    (fs : list (Flag * string)) (n : Z) (g : rawGroup) (tg : TunnelGroup) : Prop := mkGroupFacts {
  gf_reads : groupReads fs n g;
  gf_entries : entries g ≠ ∅;
  gf_valid : ∃ g0, validateGroup stat n g0 = Ok g;
  gf_auth : AuthKey tg = authKey g;
  gf_state : StateFile tg = stateFile g;
  gf_tri : ∃ tri, mapM (resolveItem g) (itemsOf (order (entries g))) = Some tri ∧
             NoDup (triUsed <$> tri) ∧ Ports tg = ports (foldl insTri (mkBuild ∅ ∅) tri);
  gf_icmp : DropICMP tg = dropICMP (Ports tg)
}.

Lemma buildAll_groups order nums r : ∀ tgs,
  buildAll order nums r = Ok tgs →
  Forall2 (λ n tg, buildGroup order n (getGroup n r) = Ok tg)
    (filter (λ n, entries (getGroup n r) ≠ ∅) nums) tgs.
Proof.
  induction nums as [|n nums IH]; intros tgs H; simpl in H; [by simplify_res|].
  rewrite filter_cons. case_decide as He.
  - rewrite decide_False by tauto. by apply IH.
  - rewrite decide_True by done. simplify_res. constructor; [done|]. by apply IH.
Qed.

(** A mapping flag of group [n]. *)
Definition mapsIn (fs : list (Flag * string)) (n : Z) (fl : Flag) (v : string) : Prop :=
  (fl, v) ∈ fs ∧ (base fl = "S" ∨ base fl = "C") ∧ groupNum fl = n.

Lemma entriesOf_elem fs n k e :
  e ∈ entriesOf n k fs ↔
  ∃ fl v, mapsIn fs n fl v ∧ base fl +:+ sub fl = k ∧ e = mkRawEntry (base fl) v.
Proof.
  unfold entriesOf, mapsIn. rewrite list_elem_of_fmap. setoid_rewrite list_elem_of_filter. split.
  - intros ([fl v] & -> & (? & ? & ?) & ?). naive_solver.
  - intros (fl & v & (?&?&?) & ? & ->). exists (fl, v). naive_solver.
Qed.

Lemma entriesOf_lookup fs n g k e :
  (∀ k, entries g !! k = match entriesOf n k fs with [] => None | es => Some es end) →
  e ∈ default [] (entries g !! k) ↔ e ∈ entriesOf n k fs.
Proof. intros ->. by destruct (entriesOf n k fs). Qed.

Lemma entries_nonempty fs n g :
  (∀ k, entries g !! k = match entriesOf n k fs with [] => None | es => Some es end) →
  entries g ≠ ∅ ↔ ∃ fl v, mapsIn fs n fl v.
Proof.
  intros He. split.
  - intros (k & es & Hk)%map_choose. rewrite He in Hk.
    destruct (entriesOf n k fs) as [|e es'] eqn:Ee; [done|].
    assert (e ∈ entriesOf n k fs) as (fl & v & ? & _)%entriesOf_elem by (rewrite Ee; left). eauto.
  - intros (fl & v & Hm) Hg. pose proof (He (base fl +:+ sub fl)) as Hk. rewrite Hg, lookup_empty in Hk.
    assert (mkRawEntry (base fl) v ∈ entriesOf n (base fl +:+ sub fl) fs) as Hin
      by (apply entriesOf_elem; eauto).
    destruct (entriesOf n _ fs); [by apply elem_of_nil in Hin|done].
Qed.

Lemma inheritAll_entries st n : entries (getGroup n (inheritAll st)) = entries (getGroup n (raw st)).
Proof.
  unfold getGroup, inheritAll. rewrite map_lookup_imap. destruct (raw st !! n); simpl; [|done].
  unfold inheritGlobals, inheritAuth. by repeat case_decide.
Qed.

Lemma parse_groups stat order args tgs :
  parseTunnelArgs stat order args = Ok tgs →
  ∃ nums, NoDup nums ∧ tgs ≠ [] ∧
    (∀ n, n ∈ nums ↔ ∃ fl v, mapsIn (flagPairs args) n fl v) ∧
    Forall2 (λ n tg, ∃ g, GroupFacts stat order (flagPairs args) n g tg) nums tgs.
Proof.
  intros H. unfold parseTunnelArgs in H.
  apply bind_ok in H as (st & Hst & H). case_decide as Hr; [done|]. destruct (coexist _); [done|].
  apply bind_ok in H as (r & Hval & H). apply bind_ok in H as (tgs' & Hb & H).
  case_decide as Ht; [done|]. injection H as <-.
  pose proof (parseArgs_inv _ _ Hst) as HI. pose proof (groupNums_NoDup (raw st)) as Hnd.
  pose proof (validateAll_maps _ _ _ _ Hval) as Hmaps.
  exists (filter (λ n, entries (getGroup n r) ≠ ∅) (groupNums (raw st))).
  split_and!; [by apply NoDup_filter|done| |].
  - intros n. rewrite list_elem_of_filter, (proj1 (Hmaps n)), inheritAll_entries.
    rewrite (entries_nonempty (flagPairs args) n) by apply HI. split; [naive_solver|].
    intros Hm. split; [done|]. apply groupNums_spec.
    apply (entries_nonempty _ _ _ (λ k, inv_ent _ _ HI n k)) in Hm.
    unfold getGroup in Hm. by destruct (raw st !! n).
  - apply buildAll_groups in Hb. apply Forall2_same_length_lookup in Hb as [Hlen Hb].
    apply Forall2_same_length_lookup. split; [done|]. intros i n tg Hn Htg.
    specialize (Hb i n tg Hn Htg). apply list_elem_of_lookup_2, list_elem_of_filter in Hn as [He Hn].
    exists (getGroup n r). unfold buildGroup in Hb. apply bind_ok in Hb as (b & Hb & [= <-]).
    rewrite buildKeys_items in Hb. apply buildItems_ok in Hb as (tri & Hm & Hndt & _ & ->).
    split; simpl; try done.
    + eapply groupReads_same; [done|]. eapply inherit_reads; [done|]. by apply groupNums_spec.
    + eexists. by eapply validateAll_each.
    + by exists tri.
Qed.

(** ** The resolved entries are the specified ones *)
Lemma lookupFirst_firstOf m f keys :
  (∀ k, m !! k = f k) → snd <$> lookupFirst keys m = firstOf f keys.
Proof.
  intros Hm. induction keys as [|k keys IH]; simpl; [done|]. rewrite <- Hm, <- IH.
  by destruct (m !! k).
Qed.

Lemma entryPort_spec fs n g s e :
  groupReads fs n g → entryPort g s e = specPort fs n (direction e) s (mapping e).
Proof.
  intros (HP & HA & _). unfold entryPort, specPort, specAccept, specPassword.
  rewrite <- (lookupFirst_firstOf _ _ _ HA), <- (lookupFirst_firstOf _ _ _ HP).
  destruct (parsePortMapping _); [|done..].
  destruct (lookupFirst _ (accepts g)) as [[? ?]|], (lookupFirst _ (passwords g)) as [[? ?]|]; done.
Qed.

Lemma str_drop_base b s : b = "S" ∨ b = "C" → str_drop 1 (b +:+ s) = s.
Proof. by intros [-> | ->]. Qed.

Lemma itemsOf_spec order fs n g s e :
  (∀ m, order m ≡ₚ map_to_list m) → groupReads fs n g →
  (s, e) ∈ itemsOf (order (entries g)) ↔
  ∃ fl v, mapsIn fs n fl v ∧ s = sub fl ∧ e = mkRawEntry (base fl) v.
Proof.
  intros Ho (_ & _ & HE). unfold itemsOf. rewrite (Ho (entries g)), list_elem_of_bind. split.
  - intros ([k es] & Hin & Hk%elem_of_map_to_list).
    apply list_elem_of_fmap in Hin as (e' & [= -> ->] & Hin).
    assert (e' ∈ entriesOf n k fs) as (fl & v & Hm & <- & ->)%entriesOf_elem
      by (rewrite <- (entriesOf_lookup fs n g) by done; by rewrite Hk).
    exists fl, v. split_and!; [done| |done]. apply str_drop_base, Hm.
  - intros (fl & v & Hm & -> & ->).
    assert (mkRawEntry (base fl) v ∈ entriesOf n (base fl +:+ sub fl) fs) as Hin
      by (apply entriesOf_elem; eauto).
    rewrite <- (entriesOf_lookup fs n g) in Hin by done.
    destruct (entries g !! (base fl +:+ sub fl)) as [es|] eqn:Hk; [|by apply elem_of_nil in Hin].
    exists (base fl +:+ sub fl, es). split; [|by apply elem_of_map_to_list].
    cbn [fst snd]. rewrite str_drop_base by apply Hm. by apply list_elem_of_fmap_2.
Qed.

(** The triples of a group's ports. *)
Lemma tri_spec order fs n g tri d s pe :
  (∀ m, order m ≡ₚ map_to_list m) → groupReads fs n g →
  mapM (resolveItem g) (itemsOf (order (entries g))) = Some tri →
  (d, s, pe) ∈ tri ↔
  ∃ fl v, mapsIn fs n fl v ∧ d = base fl ∧ s = sub fl ∧ specPort fs n d s v = Some pe.
Proof.
  intros Ho Hr Hm. apply mapM_Some in Hm. split.
  - intros (it & Hit & Hres)%(Forall2_elem_r _ _ _ _ Hm).
    destruct it as [s' e]. unfold resolveItem in Hres. simpl in Hres.
    apply fmap_Some in Hres as (pe' & Hpe & [= -> -> ->]).
    apply (itemsOf_spec order fs n g) in Hit as (fl & v & Hfl & -> & ->); [|done..].
    rewrite (entryPort_spec fs n) in Hpe by done. simpl in *. eauto 10.
  - intros (fl & v & Hfl & -> & -> & Hpe).
    assert ((sub fl, mkRawEntry (base fl) v) ∈ itemsOf (order (entries g))) as Hit
      by (apply (itemsOf_spec order fs n g); eauto).
    apply (Forall2_elem_l _ _ _ _ Hm) in Hit as (t & Ht & Hres).
    unfold resolveItem in Hres. simpl in Hres. rewrite (entryPort_spec fs n) in Hres by done.
    simpl in Hres. rewrite Hpe in Hres. simpl in Hres. by injection Hres as <-.
Qed.

(** Every mapping flag of a group resolves. *)
Lemma tri_total order fs n g tri fl v :
  (∀ m, order m ≡ₚ map_to_list m) → groupReads fs n g →
  mapM (resolveItem g) (itemsOf (order (entries g))) = Some tri → mapsIn fs n fl v →
  ∃ pe, specPort fs n (base fl) (sub fl) v = Some pe.
Proof.
  intros Ho Hr Hm Hfl. apply mapM_Some in Hm.
  assert ((sub fl, mkRawEntry (base fl) v) ∈ itemsOf (order (entries g))) as Hit
    by (apply (itemsOf_spec order fs n g); eauto).
  apply (Forall2_elem_l _ _ _ _ Hm) in Hit as (t & Ht & Hres).
  apply fmap_Some in Hres as (pe & Hpe & _). exists pe. by rewrite <- Hpe, (entryPort_spec fs n).
Qed.

(** ** Keys of the ports map *)
Definition is_lower (c : ascii) : bool :=
  (97 <=? Z.of_N (N_of_ascii c)) && (Z.of_N (N_of_ascii c) <=? 122).
Fixpoint lowerSub (s : string) : bool :=
  match s with EmptyString => true | String c s => is_lower c && lowerSub s end.
Definition noLowerHead (s : string) : bool :=
  match s with EmptyString => false | String c _ => negb (is_lower c) end.

Lemma Itoa_head p : noLowerHead (Itoa p) = true.
Proof.
  assert (∀ x s, noLowerHead s = true → noLowerHead (pretty_N_go x s) = true) as Hgo.
  { intros x. induction (N.lt_wf_0 x) as [x _ IH]; intros s Hs.
    assert (x = 0 ∨ 0 < x)%N as [->|?] by lia; [done|].
    rewrite pretty_N_go_step by done. apply IH; [by apply N.div_lt|].
    unfold pretty_N_char. by repeat case_match. }
  destruct p as [|p|p]; [done| |done].
  change (noLowerHead (pretty_N_go (Npos p) "") = true).
  rewrite pretty_N_go_step by done. apply Hgo. unfold pretty_N_char. by repeat case_match.
Qed.

Lemma lower_split s1 s2 r1 r2 :
  lowerSub s1 = true → lowerSub s2 = true → noLowerHead r1 = true → noLowerHead r2 = true →
  s1 +:+ r1 = s2 +:+ r2 → s1 = s2 ∧ r1 = r2.
Proof.
  revert s2. induction s1 as [|c s1 IH]; intros [|c2 s2] H1 H2 N1 N2 Heq; simpl in *.
  - done.
  - destruct r1; simplify_eq/=. by destruct (is_lower _).
  - destruct r2; simplify_eq/=. by destruct (is_lower _).
  - injection Heq as -> Heq. apply andb_true_iff in H1 as [_ ?]. apply andb_true_iff in H2 as [_ ?].
    apply IH in Heq as [-> ->]; done.
Qed.

Lemma portKey_inj d1 s1 p1 d2 s2 p2 :
  d1 = "S" ∨ d1 = "C" → d2 = "S" ∨ d2 = "C" → lowerSub s1 = true → lowerSub s2 = true →
  portKey d1 s1 p1 = portKey d2 s2 p2 → d1 = d2 ∧ s1 = s2 ∧ p1 = p2.
Proof.
  unfold portKey. intros Hd1 Hd2 H1 H2 Heq.
  assert (d1 = d2 ∧ s1 +:+ Itoa p1 = s2 +:+ Itoa p2) as [-> Heq'].
  { destruct Hd1 as [-> | ->], Hd2 as [-> | ->]; injection Heq; done. }
  apply lower_split in Heq' as [-> Hp]; auto using Itoa_head. split_and!; [done|done|].
  by apply (inj pretty) in Hp.
Qed.

