(* ===== verification/CliThms.v ===== *)
(** * Command line: correctness of parseTunnelArgs

    The groups and ports a successful run of [parseTunnelArgs] returns are the
    ones the declarative reading of [CliSpec] gives, whatever the order in which
    Go ranges over the maps; what the validation guarantees; and where the
    parser departs from its documentation. *)

From stdpp Require Import pretty sorting.
From S2P Require Import Prelude GoStd NetIP CliFlags CliArgs CliSpec.

(** Every port group identifier of a mapping flag is made of lowercase letters,
    as the usage text asks. *)
Definition lowerSubs (args : list string) : bool :=
  forallb (λ p : Flag * string,
    negb (bool_decide (base p.1 = "S" ∨ base p.1 = "C")) || lowerSub (sub p.1)) (flagPairs args).

(** The ports of a group are exactly the specified ones. *)
Definition portsAre (fs : list (Flag * string)) (n : Z) (tg : TunnelGroup) : Prop :=
  ∀ k pe, Ports tg !! k = Some pe ↔
    ∃ fl v, mapsIn fs n fl v ∧ specPort fs n (base fl) (sub fl) v = Some pe ∧
            k = portKey (base fl) (sub fl) (ListenPort pe).

(** With any identifiers: each port is the specified one of some flag with its key, and
    the key of each flag has a port. *)
Definition portsFrom (fs : list (Flag * string)) (n : Z) (tg : TunnelGroup) : Prop :=
  (∀ k pe, Ports tg !! k = Some pe → ∃ fl v, mapsIn fs n fl v ∧ specPort fs n (base fl) (sub fl) v = Some pe ∧
     k = portKey (base fl) (sub fl) (ListenPort pe)) ∧
  (∀ fl v, mapsIn fs n fl v → ∃ pe, specPort fs n (base fl) (sub fl) v = Some pe ∧
     is_Some (Ports tg !! portKey (base fl) (sub fl) (ListenPort pe))).

Lemma lowerSubs_maps args n fl v :
  lowerSubs args = true → mapsIn (flagPairs args) n fl v → lowerSub (sub fl) = true.
Proof.
  unfold lowerSubs. intros H (Hin & Hb & _).
  pose proof (proj1 (List.forallb_forall _ _) H (fl, v) (proj1 (list_elem_of_In _ _) Hin)) as HF.
  simpl in HF.
  by rewrite bool_decide_eq_true_2 in HF by done.
Qed.

Lemma specPort_server fs n d s v pe :
  specPort fs n d s v = Some pe → IsServer pe = bool_decide (d = "S").
Proof.
  unfold specPort. destruct (parsePortMapping v); [|done..].
  destruct (specAccept _ _ _ _) as [ips|]; [destruct (parseIPList ips)|]; naive_solver.
Qed.

Lemma specPort_password fs n d s v pe :
  specPort fs n d s v = Some pe → Password pe = specPassword fs n d s.
Proof.
  unfold specPort. destruct (parsePortMapping v); [|done..].
  destruct (specAccept _ _ _ _) as [ips|]; [destruct (parseIPList ips)|]; naive_solver.
Qed.

Lemma dropICMP_false ps :
  dropICMP ps = false ↔ ∃ k pe, ps !! k = Some pe ∧ IsServer pe = true ∧ Password pe = "".
Proof.
  unfold dropICMP.
  assert (∀ l : list PortEntry, negb (existsb (λ _, true) l) ||
            forallb (λ pe, negb (bool_decide (Password pe = ""))) l = false ↔
          ∃ pe, pe ∈ l ∧ Password pe = "") as ->.
  { intros l. rewrite orb_false_iff. split.
    - intros [_ Hn]. induction l as [|pe l IH]; simpl in Hn; [done|].
      destruct (decide (Password pe = "")); [exists pe; split; [left|done]|].
      rewrite bool_decide_eq_false_2 in Hn by done. destruct (IH Hn) as (pe' & ? & ?).
      exists pe'. split; [by right|done].
    - intros (pe & Hin & Hp). split; [by destruct l; [apply elem_of_nil in Hin|]|].
      apply not_true_iff_false. rewrite List.forallb_forall. intros Hall.
      specialize (Hall pe (proj1 (list_elem_of_In _ _) Hin)). by rewrite bool_decide_eq_true_2 in Hall. }
  setoid_rewrite list_elem_of_filter. setoid_rewrite list_elem_of_fmap. split.
  - intros (pe & [Hs ([k pe'] & -> & Hin)] & Hp). apply elem_of_map_to_list in Hin. eauto.
  - intros (k & pe & Hk & Hs & Hp). exists pe. split; [|done]. split; [done|].
    exists (k, pe). split; [done|]. by apply elem_of_map_to_list.
Qed.

Lemma validateGroup_sound stat n g g' :
  validateGroup stat n g = Ok g' → entries g' ≠ ∅ →
  stateFile g' ≠ "" ∧ (authKey g' = "" → stat (stateFile g') = true).
Proof.
  intros H He. unfold validateGroup in H. case_decide as Hn.
  { injection H as <-. tauto. }
  destruct (if 0 <? n then _ else _); [|done]. destruct (_ && stat _); [done|]. simpl in H.
  set (sf := if decide (stateFile g = "") then _ else _) in H.
  assert (sf ≠ "") by (unfold sf; destruct (decide _); [discriminate|done]).
  case_decide; [done|].
  destruct (bool_decide (authKey g = "")) eqn:Ha, (stateFileSet g), (stat sf) eqn:Hs; simpl in H; try done;
    injection H as <-; simpl; (split; [done|]); try done; intros Hk;
    by rewrite bool_decide_eq_true_2 in Ha.
Qed.

Section parse.
Context (stat : string → bool).
Context (order : gmap string (list rawEntry) → list (string * list rawEntry)).
Context (order_perm : ∀ m, order m ≡ₚ map_to_list m).

Lemma facts_ports_sound fs n g tg k pe :
  GroupFacts stat order fs n g tg → Ports tg !! k = Some pe →
  ∃ fl v, mapsIn fs n fl v ∧ specPort fs n (base fl) (sub fl) v = Some pe ∧
          k = portKey (base fl) (sub fl) (ListenPort pe).
Proof using order_perm.
  intros [Hr _ _ _ _ (tri & Hm & Hnd & Hp) _] Hk. rewrite Hp in Hk.
  apply foldl_insTri_ports in Hk as [Hk|(d & s & Hin & ->)]; [done|].
  apply (tri_spec order fs n g) in Hin as (fl & v & ? & -> & -> & ?); eauto.
Qed.

Lemma tri_keys args n g tri :
  lowerSubs args = true → groupReads (flagPairs args) n g →
  mapM (resolveItem g) (itemsOf (order (entries g))) = Some tri →
  NoDup (triUsed <$> tri) → NoDup (triKey <$> tri).
Proof using order_perm.
  intros Hlow Hr Hm Hnd.
  eapply NoDup_fmap_key; [exact Hnd|]. intros [[d1 s1] p1] [[d2 s2] p2] H1 H2 Heq.
  apply (tri_spec order (flagPairs args) n g) in H1 as (f1 & v1 & Hf1 & -> & -> & _); [|done..].
  apply (tri_spec order (flagPairs args) n g) in H2 as (f2 & v2 & Hf2 & -> & -> & _); [|done..].
  apply portKey_inj in Heq as (Hb & _ & Hl); [|by apply Hf1|by apply Hf2|by eapply lowerSubs_maps..].
  unfold triUsed; simpl in *; congruence.
Qed.

Lemma facts_ports args n g tg :
  lowerSubs args = true → GroupFacts stat order (flagPairs args) n g tg →
  portsAre (flagPairs args) n tg.
Proof using order_perm.
  intros Hlow HF k pe. split; [by apply (facts_ports_sound _ _ g)|].
  destruct HF as [Hr _ _ _ _ (tri & Hm & Hnd & Hp) _].
  intros (fl & v & Hfl & Hpe & ->). rewrite Hp.
  apply (foldl_insTri_mem tri (mkBuild ∅ ∅) (base fl, sub fl, pe)).
  - by eapply tri_keys.
  - apply (tri_spec order (flagPairs args) n g); eauto 10.
Qed.

Lemma foldl_insTri_known tri : ∀ b t, t ∈ tri ∨ is_Some (ports b !! triKey t) → is_Some (ports (foldl insTri b tri) !! triKey t).
Proof using.
  clear order order_perm. induction tri as [|t0 tri IH]; intros b t [Hin|Hb]; simpl; [set_solver|done| |].
  - apply elem_of_cons in Hin as [->|Hin]; apply IH; [right|by left]. simpl. rewrite lookup_insert_eq. by eexists.
  - apply IH. right. simpl. rewrite lookup_insert. case_decide; [by eexists|done].
Qed.
Lemma facts_ports_from fs n g tg : GroupFacts stat order fs n g tg → portsFrom fs n tg.
Proof using order_perm.
  intros HF. split; [intros k pe; by apply (facts_ports_sound _ _ g)|].
  destruct HF as [Hr _ _ _ _ (tri & Hm & _ & Hp) _]. intros fl v Hfl.
  destruct (tri_total order fs n g tri fl v order_perm Hr Hm Hfl) as [pe Hpe]. exists pe. split; [done|]. rewrite Hp.
  apply (foldl_insTri_known tri (mkBuild ∅ ∅) (base fl, sub fl, pe)). left. apply (tri_spec order fs n g); eauto 10.
Qed.

Lemma facts_distinct fs n g tg k1 k2 p1 p2 :
  GroupFacts stat order fs n g tg → Ports tg !! k1 = Some p1 → Ports tg !! k2 = Some p2 →
  IsServer p1 = IsServer p2 → ListenPort p1 = ListenPort p2 → k1 = k2.
Proof using order_perm.
  intros [Hr _ _ _ _ (tri & Hm & Hnd & Hp) _] H1 H2 Hs Hl. rewrite Hp in H1, H2.
  apply foldl_insTri_ports in H1 as [H1|(d1 & s1 & H1 & ->)]; [done|].
  apply foldl_insTri_ports in H2 as [H2|(d2 & s2 & H2 & ->)]; [done|].
  assert (d1 = d2) as ->.
  { pose proof H1 as (f1 & v1 & (_ & Hb1 & _) & -> & -> & Hp1)%(tri_spec _ fs n g _ _ _ _ order_perm Hr Hm).
    pose proof H2 as (f2 & v2 & (_ & Hb2 & _) & -> & -> & Hp2)%(tri_spec _ fs n g _ _ _ _ order_perm Hr Hm).
    apply specPort_server in Hp1, Hp2. rewrite Hp1, Hp2 in Hs.
    destruct Hb1 as [Hb1|Hb1], Hb2 as [Hb2|Hb2]; rewrite Hb1, Hb2 in *; done. }
  assert ((d2, s1, p1) = (d2, s2, p2)) as [= -> ->]; [|done].
  eapply (NoDup_fmap_inj_on triUsed); [exact Hnd|exact H1|exact H2|].
  unfold triUsed; simpl; congruence.
Qed.

(** C12: a successful parse returns one group per VPN group number that has a
    mapping flag, and every entry of the [Ports] map of a group is what the
    documentation describes for a mapping flag of that group, under the key
    direction+sub+port, with the parsed ports and target, the whitelist of
    [-A dir+sub] or else [-A dir], and the password of the first of
    dir+sub, dir, sub and the global one, a group's own value hiding an
    inherited one. Every mapping flag is valid and has an entry under its key,
    which is its own if no other flag has that key; when port group identifiers
    are lowercase letters, as the usage asks, no two flags do, and the entries
    are exactly those of the flags. *)
Theorem parse_refines args tgs :
  parseTunnelArgs stat order args = Ok tgs →
  ∃ nums, NoDup nums ∧ (∀ n, n ∈ nums ↔ ∃ fl v, mapsIn (flagPairs args) n fl v) ∧
    Forall2 (portsFrom (flagPairs args)) nums tgs ∧
    (lowerSubs args = true → Forall2 (portsAre (flagPairs args)) nums tgs).
Proof using order_perm.
  intros (nums & Hnd & _ & Hin & HF)%parse_groups. exists nums. split_and!; [done..| |intros Hlow];
    (eapply Forall2_impl; [exact HF|]); intros n tg (g & Hg); [by eapply facts_ports_from|by eapply facts_ports].
Qed.

(** Nothing is exposed that was not asked for: with any identifiers, every
    entry of every returned group comes from a mapping flag of one VPN group of
    the command line and is the entry that flag denotes, with its password and
    whitelist; and no two entries of a group share direction and listen port. *)
Theorem parse_exposes_only args tgs tg :
  parseTunnelArgs stat order args = Ok tgs → tg ∈ tgs →
  ∃ n, (∀ k pe, Ports tg !! k = Some pe → ∃ fl v, mapsIn (flagPairs args) n fl v ∧
          specPort (flagPairs args) n (base fl) (sub fl) v = Some pe ∧
          k = portKey (base fl) (sub fl) (ListenPort pe)) ∧
       (∀ k1 k2 p1 p2, Ports tg !! k1 = Some p1 → Ports tg !! k2 = Some p2 →
          IsServer p1 = IsServer p2 → ListenPort p1 = ListenPort p2 → k1 = k2).
Proof using order_perm.
  intros (nums & _ & _ & _ & HF)%parse_groups Htg.
  apply (Forall2_elem_r _ _ _ _ HF) in Htg as (n & _ & g & Hg). exists n. split.
  { intros k pe. by apply (facts_ports_sound _ _ g). }
  intros k1 k2 p1 p2. by apply (facts_distinct _ _ _ _ _ _ _ _ Hg).
Qed.

(** A group is returned only when it can start: its state file is named, and
    without an auth key (given, or inherited by group 0) that file exists. *)
Theorem parse_validated args tgs tg :
  parseTunnelArgs stat order args = Ok tgs → tg ∈ tgs →
  StateFile tg ≠ "" ∧ (AuthKey tg = "" → stat (StateFile tg) = true).
Proof using.
  intros (nums & _ & _ & _ & HF)%parse_groups Htg.
  apply (Forall2_elem_r _ _ _ _ HF) in Htg as (n & _ & g & Hg).
  destruct Hg as [_ He [g0 Hv] -> -> _ _]. by eapply validateGroup_sound.
Qed.

(** A group answers ICMP echo exactly when one of its -S flags has no
    password, under lowercase identifiers: with every server port protected, or
    with no server port, it drops them. *)
Theorem parse_dropICMP args tgs :
  lowerSubs args = true → parseTunnelArgs stat order args = Ok tgs →
  ∃ nums, Forall2 (λ n tg, DropICMP tg = false ↔
    ∃ fl v, mapsIn (flagPairs args) n fl v ∧ base fl = "S" ∧
            specPassword (flagPairs args) n "S" (sub fl) = "") nums tgs.
Proof using order_perm.
  intros Hlow (nums & _ & _ & _ & HF)%parse_groups. exists nums.
  eapply Forall2_impl; [exact HF|]. intros n tg (g & Hg).
  pose proof (facts_ports _ _ _ _ Hlow Hg) as Hp.
  rewrite (gf_icmp _ _ _ _ _ _ Hg), dropICMP_false. split.
  - intros (k & pe & Hk & Hs & Hpw). apply Hp in Hk as (fl & v & Hfl & Hpe & _).
    exists fl, v. pose proof (specPort_server _ _ _ _ _ _ Hpe) as Hb. rewrite Hs in Hb.
    symmetry in Hb. apply bool_decide_eq_true in Hb. split_and!; [done..|].
    rewrite <- Hb. by rewrite <- (specPort_password _ _ _ _ _ _ Hpe).
  - intros (fl & v & Hfl & Hb & Hpw).
    destruct (gf_tri _ _ _ _ _ _ Hg) as (tri & Hm & _).
    destruct (tri_total order _ n g tri fl v order_perm (gf_reads _ _ _ _ _ _ Hg) Hm Hfl) as [pe Hpe].
    exists (portKey (base fl) (sub fl) (ListenPort pe)), pe. split_and!.
    + apply Hp. eauto 10.
    + rewrite (specPort_server _ _ _ _ _ _ Hpe), Hb. done.
    + by rewrite (specPort_password _ _ _ _ _ _ Hpe), Hb.
Qed.
End parse.

(** ** Independence of the iteration order *)
Lemma foldl_insTri_perm tri tri' :
  tri ≡ₚ tri' → NoDup (triKey <$> tri) →
  ports (foldl insTri (mkBuild ∅ ∅) tri) = ports (foldl insTri (mkBuild ∅ ∅) tri').
Proof.
  assert (∀ l l' k pe, l ≡ₚ l' → NoDup (triKey <$> l') →
    ports (foldl insTri (mkBuild ∅ ∅) l) !! k = Some pe →
    ports (foldl insTri (mkBuild ∅ ∅) l') !! k = Some pe) as Hsub.
  { intros l l' k pe Hp Hnd [Hk|(d & s & Hin & ->)]%foldl_insTri_ports; [done|].
    apply (foldl_insTri_mem l' _ (d, s, pe)); [done|]. by rewrite <- Hp. }
  intros Hp Hnd. apply map_eq. intros k. apply option_eq. intros pe. split.
  - apply Hsub; [done|]. by rewrite <- Hp.
  - by apply Hsub.
Qed.

Section orders.
Context (stat : string → bool).
Context (o1 o2 : gmap string (list rawEntry) → list (string * list rawEntry)).
Context (o1_perm : ∀ m, o1 m ≡ₚ map_to_list m) (o2_perm : ∀ m, o2 m ≡ₚ map_to_list m).

Lemma buildGroup_order args n g tg :
  lowerSubs args = true → groupReads (flagPairs args) n g →
  buildGroup o1 n g = Ok tg → buildGroup o2 n g = Ok tg.
Proof using o1_perm o2_perm.
  intros Hlow Hr H. unfold buildGroup in *. apply bind_ok in H as (b & Hb & [= <-]).
  rewrite buildKeys_items in *.
  assert (itemsOf (o1 (entries g)) ≡ₚ itemsOf (o2 (entries g))) as Hp.
  { unfold itemsOf. by rewrite o1_perm, o2_perm. }
  destruct (buildItems_perm _ _ _ _ _ Hp Hb) as (b' & tri & tri' & -> & Htri & Hnd & Hm & -> & ->).
  assert (NoDup (triKey <$> tri)) as Hk by by eapply (tri_keys o1).
  simpl. by rewrite (foldl_insTri_perm _ _ Htri Hk).
Qed.

Lemma buildAll_order args nums r : ∀ tgs,
  lowerSubs args = true →
  (∀ n, n ∈ nums → groupReads (flagPairs args) n (getGroup n r)) →
  buildAll o1 nums r = Ok tgs → buildAll o2 nums r = Ok tgs.
Proof using o1_perm o2_perm.
  induction nums as [|n nums IH]; intros tgs Hlow Hr H; simpl in *; [done|].
  case_decide; [apply IH; auto; set_solver|].
  apply bind_ok in H as (tg & Htg & H). apply bind_ok in H as (tgs' & Hb & [= <-]).
  rewrite (buildGroup_order args n _ tg) by (done || set_solver). simpl.
  by rewrite (IH tgs') by (done || set_solver).
Qed.

(** With lowercase identifiers, the result does not depend on the order in
    which Go ranges over the maps. *)
Theorem parse_order_independent args tgs :
  lowerSubs args = true →
  parseTunnelArgs stat o1 args = Ok tgs → parseTunnelArgs stat o2 args = Ok tgs.
Proof using o1_perm o2_perm.
  intros Hlow H. unfold parseTunnelArgs in *. apply bind_ok in H as (st & Hst & H). rewrite Hst. simpl.
  case_decide; [done|]. destruct (coexist _); [done|].
  apply bind_ok in H as (r & Hval & H). rewrite Hval. simpl.
  apply bind_ok in H as (tgs' & Hb & H). erewrite buildAll_order; [done|done| |done].
  intros n Hn. eapply groupReads_same; [by eapply validateAll_maps|].
  eapply inherit_reads; [by apply parseArgs_inv|]. by apply groupNums_spec.
Qed.
End orders.

(** ** Numbered and numberless groups *)
Lemma coexist_false r n :
  coexist r = false → entries (getGroup (-1) r) ≠ ∅ → 0 ≤ n → entries (getGroup n r) ≠ ∅ → False.
Proof.
  unfold coexist. intros Hc Hm Hn He.
  assert (∀ m, entries (getGroup m r) ≠ ∅ → active (getGroup m r) = true) as Hact.
  { intros m ?. unfold active. by rewrite bool_decide_eq_true_2. }
  assert (is_Some (r !! n)) as Hr by (unfold getGroup in He; by destruct (r !! n)).
  apply andb_false_iff in Hc as [Hc|Hc].
  - specialize (Hact _ Hm). unfold getGroup in *. destruct (r !! (-1)); simpl in *; congruence.
  - apply not_true_iff_false in Hc. destruct Hc. apply List.existsb_exists. exists n.
    split; [by apply list_elem_of_In, groupNums_spec|]. rewrite Hact by done.
    by rewrite (proj2 (Z.leb_le _ _)).
Qed.

(** A command line that mixes mapping flags with and without a group number
    is refused. *)
Theorem parse_no_mixing stat order args tgs fl v fl' v' :
  parseTunnelArgs stat order args = Ok tgs →
  mapsIn (flagPairs args) (-1) fl v → mapsIn (flagPairs args) (groupNum fl') fl' v' →
  groupNum fl' < 0.
Proof.
  intros H Hm Hm'. unfold parseTunnelArgs in H. apply bind_ok in H as (st & Hst & H).
  case_decide; [done|]. destruct (coexist _) eqn:Hc; [done|].
  pose proof (parseArgs_inv _ _ Hst) as HI. apply Z.nle_gt. intros Hn.
  apply (coexist_false _ (groupNum fl') Hc); [|done|].
  all: rewrite inheritAll_entries; eapply (entries_nonempty (flagPairs args)); [apply HI|eauto].
Qed.

(** The key of the ports map is not injective when an identifier ends in
    digits: "-Sa1 8080" and "-Sa 18080" share the key "Sa18080", so one of the two
    mappings is dropped without an error, and which one depends on the order in
    which Go ranges over the map. *)
Theorem parse_key_collision :
  let args := ["-K"; "k"; "-Sa1"; "8080:10.0.0.1:80"; "-Sa"; "18080:10.0.0.2:80"] in
  ∃ tg1 tg2,
    parseTunnelArgs (λ _, false) map_to_list args = Ok [tg1] ∧
    parseTunnelArgs (λ _, false) (λ m, reverse (map_to_list m)) args = Ok [tg2] ∧
    size (Ports tg1) = 1%nat ∧ size (Ports tg2) = 1%nat ∧ Ports tg1 ≠ Ports tg2.
Proof.
  eexists _, _. split_and!; try (vm_compute; reflexivity).
  intros H%(f_equal (λ m, TargetAddr <$> (m !! "Sa18080"))). vm_compute in H. discriminate.
Qed.

(** A group 0 without -K or -T of its own runs with the auth key and the state
    file of another numbered group. *)
Theorem parse_group0_shares_state :
  let args := ["-K1"; "k"; "-T1"; "a"; "-S1"; "80:h"; "-S0"; "81:h"] in
  ∃ tg0 tg1, parseTunnelArgs (λ _, false) map_to_list args = Ok [tg0; tg1] ∧
    AuthKey tg0 = "k" ∧ AuthKey tg1 = "k" ∧ StateFile tg0 = "a" ∧ StateFile tg1 = "a".
Proof. eexists _, _. split_and!; vm_compute; reflexivity. Qed.

(** ** Witnesses *)
Definition exArgs : list string :=
  ["-K"; "k"; "-S"; "8080:127.0.0.1:80"; "-Ca"; "8081:100.64.0.1:81"; "-PS"; "pw"; "-AC"; "10.0.0.0/8"].
Definition exGroups : list TunnelGroup :=
  Eval vm_compute in
    match parseTunnelArgs (λ _, false) map_to_list exArgs with Ok tgs => tgs | _ => [] end.
Definition exGroup : TunnelGroup := Eval vm_compute in List.hd (mkTunnelGroup "" "" "" ∅ false) exGroups.

Lemma parse_refines_witness :
  ∃ nums, NoDup nums ∧ (∀ n, n ∈ nums ↔ ∃ fl v, mapsIn (flagPairs exArgs) n fl v) ∧
    Forall2 (portsAre (flagPairs exArgs)) nums exGroups.
Proof.
  destruct (parse_refines (λ _, false) map_to_list (λ m, Permutation_refl (map_to_list m)) exArgs exGroups) as (nums & H1 & H2 & _ & H3).
  - vm_compute; reflexivity.
  - exists nums. split; [exact H1|]. split; [exact H2|]. apply H3. vm_compute. reflexivity.
Defined.

Lemma parse_exposes_only_witness :
  ∃ n, (∀ k pe, Ports exGroup !! k = Some pe → ∃ fl v, mapsIn (flagPairs exArgs) n fl v ∧
          specPort (flagPairs exArgs) n (base fl) (sub fl) v = Some pe ∧
          k = portKey (base fl) (sub fl) (ListenPort pe)) ∧
       (∀ k1 k2 p1 p2, Ports exGroup !! k1 = Some p1 → Ports exGroup !! k2 = Some p2 →
          IsServer p1 = IsServer p2 → ListenPort p1 = ListenPort p2 → k1 = k2).
Proof.
  apply (parse_exposes_only (λ _, false) map_to_list (λ m, Permutation_refl (map_to_list m)) exArgs exGroups).
  - vm_compute; reflexivity.
  - left.
Defined.

Lemma parse_order_independent_witness :
  parseTunnelArgs (λ _, false) (λ m, reverse (map_to_list m)) exArgs = Ok exGroups.
Proof.
  apply (parse_order_independent (λ _, false) map_to_list (λ m, reverse (map_to_list m))
           (λ m, Permutation_refl (map_to_list m)) (λ m, reverse_Permutation (map_to_list m)));
    vm_compute; reflexivity.
Defined.

Lemma parse_validated_witness :
  StateFile exGroup ≠ "" ∧ (AuthKey exGroup = "" → (λ _, false) (StateFile exGroup) = true).
Proof.
  apply (parse_validated (λ _, false) map_to_list exArgs exGroups).
  - vm_compute; reflexivity.
  - left.
Defined.

Lemma parse_dropICMP_witness :
  ∃ nums, Forall2 (λ n tg, DropICMP tg = false ↔
    ∃ fl v, mapsIn (flagPairs exArgs) n fl v ∧ base fl = "S" ∧
            specPassword (flagPairs exArgs) n "S" (sub fl) = "") nums exGroups.
Proof.
  apply (parse_dropICMP (λ _, false) map_to_list (λ m, Permutation_refl (map_to_list m)));
    vm_compute; reflexivity.
Defined.

Lemma parse_no_mixing_witness : groupNum (parseFlag "-Ca") < 0.
Proof.
  apply (parse_no_mixing (λ _, false) map_to_list exArgs exGroups
           (parseFlag "-S") "8080:127.0.0.1:80" (parseFlag "-Ca") "8081:100.64.0.1:81").
  - vm_compute; reflexivity.
  - split; [|by split; [left|]]. vm_compute. repeat (apply elem_of_cons; (left; reflexivity) || right).
  - split; [|by split; [right|]]. vm_compute. repeat (apply elem_of_cons; (left; reflexivity) || right).
Defined.
