(* ===== verification/Sha256.v ===== *)
(** * crypto/sha256

    [sha256.Sum256] of Go's standard library, on bytes: padding, the message
    schedule and the compression function of FIPS 180-4 on 32-bit words. *)

From S2P Require Import Prelude.

Definition rotr (x : Z) (n : Z) : Z := Z.lor (Z.shiftr x n) (u32 (Z.shiftl x (32 - n))).
Definition bsig0 (x : Z) : Z := Z.lxor (Z.lxor (rotr x 2) (rotr x 13)) (rotr x 22).
Definition bsig1 (x : Z) : Z := Z.lxor (Z.lxor (rotr x 6) (rotr x 11)) (rotr x 25).
Definition ssig0 (x : Z) : Z := Z.lxor (Z.lxor (rotr x 7) (rotr x 18)) (Z.shiftr x 3).
Definition ssig1 (x : Z) : Z := Z.lxor (Z.lxor (rotr x 17) (rotr x 19)) (Z.shiftr x 10).
Definition ch (x y z : Z) : Z := Z.lxor (Z.land x y) (Z.land (notN 32 x) z).
Definition maj (x y z : Z) : Z := Z.lxor (Z.lxor (Z.land x y) (Z.land x z)) (Z.land y z).

(** The round constants are the first 32 bits of the fractional parts of the cube
    roots of the first 64 primes, the initial state those of the square roots of
    the first 8; both are computed here. *)
Definition is_prime (n : nat) : bool :=
  forallb (λ d, negb (Nat.eqb (Nat.modulo n d) 0)) (seq 2 (n - 2)).
Definition sha_primes : list Z := Eval vm_compute in Z.of_nat <$> List.filter is_prime (seq 2 310).

(** The integer cube root of [x], bit by bit from [2 ^ n]. *)
Fixpoint icbrt (n : nat) (acc x : Z) : Z :=
  match n with
  | O => acc
  | S n => let t := acc + 2 ^ Z.of_nat n in icbrt n (if t ^ 3 <=? x then t else acc) x
  end.
Definition sha_k : list Z := Eval vm_compute in (λ p, u32 (icbrt 36 0 (p * 2 ^ 96))) <$> sha_primes.
Definition sha_h0 : list Z := Eval vm_compute in (λ p, u32 (Z.sqrt (p * 2 ^ 64))) <$> take 8 sha_primes.

(** The message schedule, newest word first. *)
Fixpoint sha_extend (n : nat) (w : list Z) : list Z :=
  match n with
  | O => w
  | S n =>
      let g i := nth i w 0 in
      sha_extend n (u32 (ssig1 (g 1%nat) + g 6%nat + ssig0 (g 14%nat) + g 15%nat) :: w)
  end.

Definition sha_round (s : list Z) (kw : Z * Z) : list Z :=
  match s with
  | [a; b; c; d; e; f; g; h] =>
      let t1 := u32 (h + bsig1 e + ch e f g + kw.1 + kw.2) in
      let t2 := u32 (bsig0 a + maj a b c) in
      [u32 (t1 + t2); a; b; c; u32 (d + t1); e; f; g]
  | _ => s
  end.

Definition sha_block (hs ws : list Z) : list Z :=
  let w := reverse (sha_extend 48 (reverse ws)) in
  zip_with (λ x y, u32 (x + y)) hs (foldl sha_round hs (zip sha_k w)).

(** Big-endian words of a byte string, and back. *)
Fixpoint be_words (b : bytes) : list Z :=
  match b with
  | b0 :: b1 :: b2 :: b3 :: r => (((b0 * 256 + b1) * 256 + b2) * 256 + b3) :: be_words r
  | _ => []
  end.
Definition word_bytes (x : Z) : bytes :=
  [u8 (Z.shiftr x 24); u8 (Z.shiftr x 16); u8 (Z.shiftr x 8); u8 x].

Definition sha_pad (m : bytes) : bytes :=
  let l := zlen m in
  let k := (55 - l) mod 64 in
  m ++ [128] ++ replicate (Z.to_nat k) 0 ++
  word_bytes (u32 (Z.shiftr (l * 8) 32)) ++ word_bytes (u32 (l * 8)).

Fixpoint sha_blocks (n : nat) (ws hs : list Z) : list Z :=
  match n with
  | O => hs
  | S n => sha_blocks n (drop 16 ws) (sha_block hs (take 16 ws))
  end.

Definition Sum256 (m : bytes) : bytes :=
  let ws := be_words (sha_pad m) in
  sha_blocks (length ws / 16)%nat ws sha_h0 ≫= word_bytes.

(** ** The digest is 32 bytes *)
Lemma sha_round_length s kw : length (sha_round s kw) = length s.
Proof. by destruct s as [|? [|? [|? [|? [|? [|? [|? [|? [|]]]]]]]]]. Qed.

Lemma sha_rounds_length kws : ∀ s, length (foldl sha_round s kws) = length s.
Proof. induction kws as [|kw kws IH]; intros s; simpl; [done|]. by rewrite IH, sha_round_length. Qed.

Lemma sha_blocks_length n : ∀ ws hs, length (sha_blocks n ws hs) = length hs.
Proof.
  induction n as [|n IH]; intros ws hs; simpl; [done|]. rewrite IH. unfold sha_block.
  rewrite length_zip_with, sha_rounds_length. lia.
Qed.

Lemma Sum256_length m : length (Sum256 m) = 32%nat.
Proof.
  unfold Sum256. set (hs := sha_blocks _ _ _).
  assert (length hs = 8%nat) as Hl by apply sha_blocks_length. clearbody hs.
  assert (∀ l : list Z, length (l ≫= word_bytes) = (4 * length l)%nat) as Hb.
  { induction l as [|x l IH]; [done|]. rewrite bind_cons, length_app, IH. simpl. lia. }
  rewrite Hb, Hl. done.
Qed.

Lemma Sum256_bytes m : bytes_ok (Sum256 m).
Proof.
  apply Forall_forall. intros x (h & Hx & _)%list_elem_of_bind. unfold word_bytes in Hx.
  repeat (apply elem_of_cons in Hx as [->|Hx]); [apply (uN_range 8); lia..|by apply elem_of_nil in Hx].
Qed.
