(* ===== verification/Crypto.v ===== *)
(** * Port passwords: the ChaCha20 wrappers

    [wgengine/netstack/crypto.go].  [golang.org/x/crypto/chacha20] is not part of
    the sources: its key stream is the parameter [keystream], and [XORKeyStream]
    is its documented behaviour (the bytes are XORed with successive bytes of the
    key stream of key and nonce; it panics when the 32-bit block counter would
    overflow, that is past 2^38 bytes).

    A connection's inbound bytes are the list of chunks in which they arrive,
    after which the peer has closed; the outbound side is the bytes sent. *)

From S2P Require Import Prelude GoStd Sha256.

Class ChaCha20 := keystream : bytes → bytes → nat → Z.

Definition Chacha20NonceLen : nat := 12.

Inductive CryptoErr : Type :=
  | ErrEOF | ErrUnexpectedEOF | ErrWrite | ErrRand
  | ErrKeySize | ErrNonceSize | ErrUDPPacketTooShort.

#[export] Instance CryptoErr_eq_dec : EqDecision CryptoErr.
Proof. solve_decision. Defined.

Definition DeriveKey (password : string) : bytes := Sum256 (str_bytes password).

(** ** The network side: io.Reader, io.ReadFull, io.Writer *)

(** [conn.Read] with a buffer of [n] bytes: part of the first chunk, or EOF. *)
Definition connRead (n : nat) (cs : list bytes) : bytes * option CryptoErr * list bytes :=
  match n with
  | O => ([], None, cs)
  | _ =>
      match cs with
      | [] => ([], Some ErrEOF, [])
      | c :: cs =>
          if decide (length c ≤ n)%nat then (c, None, cs) else (take n c, None, drop n c :: cs)
      end
  end.

(** [io.ReadFull]: read until the [n] bytes are there. *)
Fixpoint readFull_go (fuel n : nat) (got : bytes) (cs : list bytes)
    : option (res CryptoErr (bytes * list bytes)) :=
  if decide (n ≤ length got)%nat then Some (Ok (got, cs))
  else match fuel with
       | O => None
       | S fuel =>
           match connRead (n - length got) cs with
           | (b, None, cs) => readFull_go fuel n (got ++ b) cs
           | (b, Some err, cs) =>
               let got := got ++ b in
               if decide (n ≤ length got)%nat then Some (Ok (got, cs))
               else if decide (err = ErrEOF ∧ (0 < length got)%nat) then Some (Err ErrUnexpectedEOF)
               else Some (Err err)
           end
       end.
Definition ReadFull (n : nat) (cs : list bytes) : res CryptoErr (bytes * list bytes) :=
  default (Err ErrEOF) (readFull_go (S (length cs)) n [] cs).

(** The sending side: what was sent, and whether the connection is up. *)
Record Wire := mkWire { sent : bytes; up : bool }.
Definition wireWrite (b : bytes) (w : Wire) : res CryptoErr Wire :=
  if up w then Ok (mkWire (sent w ++ b) true) else Err ErrWrite.

Section chacha.
Context {cc : ChaCha20}.

(** ** The cipher *)
Record Cipher := mkCipher { ckey : bytes; cnonce : bytes; cpos : nat }.

Definition NewUnauthenticatedCipher (key nonce : bytes) : res CryptoErr Cipher :=
  if decide (length key ≠ 32)%nat then Err ErrKeySize
  else if decide (length nonce = 12 ∨ length nonce = 24)%nat then Ok (mkCipher key nonce 0)
  else Err ErrNonceSize.

Definition maxStream : Z := 2 ^ 38.

(** [src] XORed with the key stream from position [pos]. *)
Definition xorAt (key nonce : bytes) (pos : nat) (src : bytes) : bytes :=
  imap (λ i b, Z.lxor b (keystream key nonce (pos + i))) src.

Definition XORKeyStream (c : Cipher) (src : bytes) : res CryptoErr (bytes * Cipher) :=
  if decide (Z.of_nat (cpos c) + zlen src ≤ maxStream) then
    Ok (xorAt (ckey c) (cnonce c) (cpos c) src,
        mkCipher (ckey c) (cnonce c) (cpos c + length src))
  else Panic.

(** ** Streams (TCP) *)
Record Chacha20Reader := mkReader { rconn : list bytes; rcipher : Cipher }.
Record Chacha20Writer := mkWriter { wconn : Wire; wcipher : Cipher }.

Definition NewChacha20Reader (r : list bytes) (key : bytes) : res CryptoErr Chacha20Reader :=
  nr ← ReadFull Chacha20NonceLen r;
  c ← NewUnauthenticatedCipher key nr.1;
  Ok (mkReader nr.2 c).

(** [Read(p)] with [len(p) = n]: the bytes read, the error, the new state. *)
Definition readerRead (n : nat) (r : Chacha20Reader)
    : res CryptoErr (bytes * option CryptoErr * Chacha20Reader) :=
  let '(b, err, cs) := connRead n (rconn r) in
  if decide (0 < length b)%nat then
    oc ← XORKeyStream (rcipher r) b; Ok (oc.1, err, mkReader cs oc.2)
  else Ok (b, err, mkReader cs (rcipher r)).

(** [rnd] is what [rand.Read(nonce)] yields; [None] is its error. *)
Definition NewChacha20Writer (rnd : option bytes) (w : Wire) (key : bytes) : res CryptoErr Chacha20Writer :=
  nonce ← of_option ErrRand rnd;
  w ← wireWrite nonce w;
  c ← NewUnauthenticatedCipher key nonce;
  Ok (mkWriter w c).

Definition writerWrite (p : bytes) (w : Chacha20Writer) : res CryptoErr Chacha20Writer :=
  oc ← XORKeyStream (wcipher w) p;
  cn ← wireWrite oc.1 (wconn w);
  Ok (mkWriter cn oc.2).

Fixpoint writeAll (ps : list bytes) (w : Chacha20Writer) : res CryptoErr Chacha20Writer :=
  match ps with
  | [] => Ok w
  | p :: ps => w ← writerWrite p w; writeAll ps w
  end.

(** The reading half of [io.Copy] with a buffer of [n] bytes: everything up to
    the end of the stream. *)
Fixpoint copyAll (fuel n : nat) (acc : bytes) (r : Chacha20Reader) : option (res CryptoErr bytes) :=
  match fuel with
  | O => None
  | S fuel =>
      match readerRead n r with
      | Ok (b, None, r) => copyAll fuel n (acc ++ b) r
      | Ok (b, Some err, _) => if decide (err = ErrEOF) then Some (Ok (acc ++ b)) else Some (Err err)
      | Err e => Some (Err e)
      | Panic => Some Panic
      end
  end.

(** ** The two ends of a password-protected TCP port *)
Record encryptedTCPConn := mkEncConn { encWriter : Chacha20Writer; decReader : Chacha20Reader }.

(** The server reads the peer's nonce, then sends its own. *)
Definition newEncryptedTCPConn (inb : list bytes) (rnd : option bytes) (out : Wire) (password : string)
    : res CryptoErr encryptedTCPConn :=
  let key := DeriveKey password in
  r ← NewChacha20Reader inb key;
  w ← NewChacha20Writer rnd out key;
  Ok (mkEncConn w r).

(** The client ([handleConn]) sends its nonce, then reads the peer's. *)
Definition dialEncrypted (inb : list bytes) (rnd : option bytes) (out : Wire) (password : string)
    : res CryptoErr encryptedTCPConn :=
  let key := DeriveKey password in
  w ← NewChacha20Writer rnd out key;
  r ← NewChacha20Reader inb key;
  Ok (mkEncConn w r).

(** ** Datagrams (UDP) *)
Definition EncryptUDPPacket (rnd : option bytes) (plaintext key : bytes) : res CryptoErr bytes :=
  nonce ← of_option ErrRand rnd;
  c ← NewUnauthenticatedCipher key nonce;
  oc ← XORKeyStream c plaintext;
  Ok (nonce ++ oc.1).

Definition DecryptUDPPacket (packet key : bytes) : res CryptoErr bytes :=
  if decide (length packet < Chacha20NonceLen)%nat then Err ErrUDPPacketTooShort
  else
    c ← NewUnauthenticatedCipher key (take Chacha20NonceLen packet);
    oc ← XORKeyStream c (drop Chacha20NonceLen packet);
    Ok oc.1.

(** [encryptedUDPPacketConn]: [WriteTo] gives the datagram sent; [ReadFrom] with a
    buffer of [n] bytes gets the datagram [d], cut to the buffer. *)
Definition encWriteTo (rnd : option bytes) (password : string) (b : bytes) : res CryptoErr bytes :=
  EncryptUDPPacket rnd b (DeriveKey password).
Definition encReadFrom (n : nat) (password : string) (d : bytes) : res CryptoErr bytes :=
  dec ← DecryptUDPPacket (take n d) (DeriveKey password); Ok (take n dec).
End chacha.
