(* ===== verification/CryptoThms.v ===== *)
(** * Port passwords: round trips of the encrypted streams and datagrams

    Whatever the write sizes, the read buffer and the way TCP cuts the byte
    stream, each end of a password-protected port reads exactly what the other
    wrote; datagrams likewise; and the order in which the two ends exchange their
    nonces cannot deadlock. *)

From stdpp Require Import relations.
From S2P Require Import Prelude GoStd Sha256 Crypto.

(** ** Reading in full *)
Lemma connRead_pos n c cs :
  (0 < n)%nat →
  connRead n (c :: cs) =
  if decide (length c ≤ n)%nat then (c, None, cs) else (take n c, None, drop n c :: cs).
Proof. by destruct n; [lia|]. Qed.

Lemma readFull_go_ok cs : ∀ fuel n got,
  (length cs < fuel)%nat → (n ≤ length got + length (concat cs))%nat → (length got ≤ n)%nat →
  ∃ cs', readFull_go fuel n got cs = Some (Ok (take n (got ++ concat cs), cs')) ∧
         concat cs' = drop n (got ++ concat cs) ∧ (length cs' ≤ length cs)%nat.
Proof.
  induction cs as [|c cs IH]; intros fuel n got Hf Hn Hg; destruct fuel as [|fuel]; simpl in *; try lia;
    case_decide as Hd; simpl.
  - exists []. rewrite app_nil_r, take_ge, drop_ge by lia. done.
  - lia.
  - exists (c :: cs). rewrite take_app_le, take_ge, drop_app_ge, (Nat.le_antisymm _ _ Hd Hg), Nat.sub_diag by lia.
    split_and!; simpl; done || lia.
  - rewrite connRead_pos by lia. rewrite length_app in Hn. case_decide as Hc.
    + destruct (IH fuel n (got ++ c)) as (cs' & -> & Hcs' & Hl); rewrite ?length_app; try lia.
      exists cs'. rewrite <- !app_assoc in *. split_and!; done || lia.
    + assert (n ≤ length (got ++ take (n - length got) c))%nat by (rewrite length_app, length_take; lia).
      exists (drop (n - length got) c :: cs).
      destruct fuel; simpl; rewrite decide_True by done.
      all: rewrite !take_app, !drop_app, (take_ge got), (drop_ge got) by lia;
        rewrite (proj2 (Nat.sub_0_le (n - length got) (length c))) by lia; simpl;
        rewrite take_0, app_nil_r, drop_0; done.
Qed.

Lemma ReadFull_ok n cs :
  (n ≤ length (concat cs))%nat →
  ∃ cs', ReadFull n cs = Ok (take n (concat cs), cs') ∧ concat cs' = drop n (concat cs) ∧
         (length cs' ≤ length cs)%nat.
Proof.
  intros Hn. unfold ReadFull.
  destruct (readFull_go_ok cs (S (length cs)) n []) as (cs' & -> & ?); simpl; try lia. by exists cs'.
Qed.

Section chacha.
Context {cc : ChaCha20}.

(** ** The key stream *)
Lemma xorAt_length key nonce pos b : length (xorAt key nonce pos b) = length b.
Proof. apply length_imap. Qed.

Lemma xorAt_app key nonce pos a b :
  xorAt key nonce pos (a ++ b) = xorAt key nonce pos a ++ xorAt key nonce (pos + length a) b.
Proof.
  unfold xorAt. rewrite imap_app. f_equal. apply imap_ext. intros i x _. simpl.
  by rewrite Nat.add_assoc.
Qed.

Lemma xorAt_invol key nonce pos b : xorAt key nonce pos (xorAt key nonce pos b) = b.
Proof.
  apply list_eq. intros i. unfold xorAt. rewrite !list_lookup_imap. destruct (b !! i); simpl; [|done].
  by rewrite Z.lxor_assoc, Z.lxor_nilpotent, Z.lxor_0_r.
Qed.

Lemma XORKeyStream_ok c b :
  Z.of_nat (cpos c) + zlen b ≤ maxStream →
  XORKeyStream c b = Ok (xorAt (ckey c) (cnonce c) (cpos c) b,
                         mkCipher (ckey c) (cnonce c) (cpos c + length b)).
Proof. intros H. unfold XORKeyStream. by rewrite decide_True. Qed.

(** ** Writing *)
Lemma writeAll_ok ps : ∀ s c,
  Z.of_nat (cpos c) + zlen (concat ps) ≤ maxStream →
  writeAll ps (mkWriter (mkWire s true) c) =
  Ok (mkWriter (mkWire (s ++ xorAt (ckey c) (cnonce c) (cpos c) (concat ps)) true)
        (mkCipher (ckey c) (cnonce c) (cpos c + length (concat ps)))).
Proof.
  induction ps as [|p ps IH]; intros s c Hm; simpl in *.
  - rewrite app_nil_r, Nat.add_0_r. by destruct c.
  - rewrite zlen_app in Hm. pose proof (zlen_nonneg (concat ps)).
    unfold writerWrite. simpl. rewrite XORKeyStream_ok by (simpl; lia). simpl.
    rewrite IH by (simpl; unfold zlen in *; lia). simpl.
    by rewrite <- app_assoc, xorAt_app, length_app, Nat.add_assoc.
Qed.

(** ** Reading *)
Lemma readerRead_chunk n c cs ci :
  (0 < n)%nat → Z.of_nat (cpos ci) + zlen (take n c) ≤ maxStream →
  readerRead n (mkReader (c :: cs) ci) =
  Ok (xorAt (ckey ci) (cnonce ci) (cpos ci) (take n c), None,
      mkReader (if decide (length c ≤ n)%nat then cs else drop n c :: cs)
        (mkCipher (ckey ci) (cnonce ci) (cpos ci + length (take n c)))).
Proof.
  intros Hn Hm. unfold readerRead. simpl rconn. rewrite connRead_pos by done.
  assert (∀ b cs', length b = length (take n c) → b = take n c →
    (if decide (0 < length b)%nat then
       oc ← XORKeyStream ci b; Ok (oc.1, @None CryptoErr, mkReader cs' oc.2)
     else Ok (b, None, mkReader cs' ci)) =
    Ok (xorAt (ckey ci) (cnonce ci) (cpos ci) (take n c), None,
        mkReader cs' (mkCipher (ckey ci) (cnonce ci) (cpos ci + length (take n c))))) as Hgo.
  { intros b cs' _ ->. case_decide as Hl; [by rewrite XORKeyStream_ok|].
    destruct (take n c); simpl in *; [|lia]. rewrite Nat.add_0_r. by destruct ci. }
  case_decide; simpl; apply Hgo; try done; by rewrite take_ge.
Qed.

Lemma copyAll_ok n : (0 < n)%nat → ∀ fuel cs ci acc,
  (length (concat cs) + length cs < fuel)%nat →
  Z.of_nat (cpos ci) + zlen (concat cs) ≤ maxStream →
  copyAll fuel n acc (mkReader cs ci) =
  Some (Ok (acc ++ xorAt (ckey ci) (cnonce ci) (cpos ci) (concat cs))).
Proof.
  intros Hn. induction fuel as [|fuel IH]; intros cs ci acc Hf Hm; [lia|]. simpl.
  destruct cs as [|c cs].
  { unfold readerRead. simpl. destruct n; [lia|]. simpl. by rewrite !app_nil_r. }
  simpl in Hf, Hm. rewrite length_app in Hf.
  assert (zlen (take n c) ≤ zlen c ∧ zlen (take n c) + zlen (drop n c) = zlen c ∧ 0 ≤ zlen (concat cs))
    as (Ht & Htd & ?) by (unfold zlen; rewrite length_take, length_drop; lia).
  rewrite zlen_app in Hm. rewrite readerRead_chunk by (done || lia).
  set (cs' := if decide (length c ≤ n)%nat then cs else drop n c :: cs).
  assert (concat cs' = drop n c ++ concat cs ∧ length (concat cs') + length cs' < fuel)%nat as [Hc Hl].
  { unfold cs'. case_decide; simpl; rewrite ?drop_ge, ?length_app, ?length_drop by lia; split; done || lia. }
  rewrite IH; simpl; [|done|rewrite Hc, zlen_app; unfold zlen in *; lia].
  by rewrite Hc, <- app_assoc, <- xorAt_app, app_assoc, take_drop.
Qed.

Lemma newReader_ok key nonce b cs :
  length key = 32%nat → length nonce = 12%nat → concat cs = nonce ++ b →
  ∃ cs', NewChacha20Reader cs key = Ok (mkReader cs' (mkCipher key nonce 0)) ∧ concat cs' = b ∧
         (length cs' ≤ length cs)%nat.
Proof.
  intros Hk Hn Hc. unfold NewChacha20Reader.
  destruct (ReadFull_ok Chacha20NonceLen cs) as (cs' & -> & Hcs' & Hl).
  { rewrite Hc, length_app. unfold Chacha20NonceLen. lia. }
  rewrite Hc, take_app_length' in * by (unfold Chacha20NonceLen; lia).
  rewrite drop_app_length' in Hcs' by (unfold Chacha20NonceLen; lia).
  simpl. unfold NewUnauthenticatedCipher. rewrite decide_False, decide_True by lia.
  simpl. by exists cs'.
Qed.

Lemma newWriter_ok key nonce s :
  length key = 32%nat → length nonce = 12%nat →
  NewChacha20Writer (Some nonce) (mkWire s true) key =
  Ok (mkWriter (mkWire (s ++ nonce) true) (mkCipher key nonce 0)).
Proof.
  intros Hk Hn. unfold NewChacha20Writer. simpl. unfold NewUnauthenticatedCipher.
  by rewrite decide_False, decide_True by lia.
Qed.

(** ** One direction of a session *)
Lemma direction_ok key nonce ps cs n fuel s :
  length key = 32%nat → length nonce = 12%nat → zlen (concat ps) ≤ maxStream → (0 < n)%nat →
  ∃ w0 w, NewChacha20Writer (Some nonce) (mkWire s true) key = Ok w0 ∧ writeAll ps w0 = Ok w ∧
    sent (wconn w) = s ++ nonce ++ xorAt key nonce 0 (concat ps) ∧
    (concat cs = nonce ++ xorAt key nonce 0 (concat ps) →
     (length (concat cs) + length cs < fuel)%nat →
     ∃ r, NewChacha20Reader cs key = Ok r ∧ copyAll fuel n [] r = Some (Ok (concat ps))).
Proof.
  intros Hk Hn Hm Hb. rewrite newWriter_ok by done. eexists _, _. split; [done|].
  split; [by apply writeAll_ok|]. split; [simpl; by rewrite <- app_assoc|]. intros Hc Hf.
  destruct (newReader_ok key nonce _ cs Hk Hn Hc) as (cs' & -> & Hcs' & Hl).
  pose proof (f_equal length Hc) as Hlen. rewrite length_app in Hlen.
  eexists. split; [done|]. rewrite copyAll_ok; simpl; rewrite ?Hcs'; [by rewrite xorAt_invol|done|lia|].
  unfold zlen in *. by rewrite xorAt_length.
Qed.

Lemma DeriveKey_length password : length (DeriveKey password) = 32%nat.
Proof. apply Sum256_length. Qed.

(** C25: a password-protected TCP port is a faithful two-way pipe: with the same
    password on both ends and up to 2^38 bytes each way, the server's
    [newEncryptedTCPConn] and the client's dial both succeed, and each end, reading
    with any non-empty buffer and however TCP cuts the bytes into chunks, reads
    exactly the concatenation of what the other end wrote, and then the end of the
    stream. *)
Theorem session_roundtrip password nc ns ps qs csC csS n fuel :
  length nc = 12%nat → length ns = 12%nat → (0 < n)%nat →
  zlen (concat ps) ≤ maxStream → zlen (concat qs) ≤ maxStream →
  (length (concat csC) + length csC < fuel)%nat → (length (concat csS) + length csS < fuel)%nat →
  let key := DeriveKey password in
  concat csS = nc ++ xorAt key nc 0 (concat ps) →
  concat csC = ns ++ xorAt key ns 0 (concat qs) →
  ∃ cl sv cw sw,
    dialEncrypted csC (Some nc) (mkWire [] true) password = Ok cl ∧
    newEncryptedTCPConn csS (Some ns) (mkWire [] true) password = Ok sv ∧
    writeAll ps (encWriter cl) = Ok cw ∧ sent (wconn cw) = concat csS ∧
    writeAll qs (encWriter sv) = Ok sw ∧ sent (wconn sw) = concat csC ∧
    copyAll fuel n [] (decReader sv) = Some (Ok (concat ps)) ∧
    copyAll fuel n [] (decReader cl) = Some (Ok (concat qs)).
Proof.
  intros Hnc Hns Hn Hp Hq HfC HfS key HS HC. pose proof (DeriveKey_length password) as Hk.
  destruct (direction_ok key nc ps csS n fuel [] Hk Hnc Hp Hn) as (cw0 & cw & Ec0 & Ec & Sc & Rc).
  destruct (direction_ok key ns qs csC n fuel [] Hk Hns Hq Hn) as (sw0 & sw & Es0 & Es & Ss & Rs).
  destruct (Rc HS HfS) as (rS & ErS & CrS). destruct (Rs HC HfC) as (rC & ErC & CrC).
  exists (mkEncConn cw0 rC), (mkEncConn sw0 rS), cw, sw. unfold dialEncrypted, newEncryptedTCPConn.
  fold key. rewrite Ec0, Es0, ErC, ErS. simpl. rewrite HS, HC. done.
Qed.

(** ** Datagrams *)
Lemma EncryptUDPPacket_ok nonce b key :
  length key = 32%nat → length nonce = 12%nat → zlen b ≤ maxStream →
  EncryptUDPPacket (Some nonce) b key = Ok (nonce ++ xorAt key nonce 0 b).
Proof.
  intros Hk Hn Hb. unfold EncryptUDPPacket. simpl. unfold NewUnauthenticatedCipher.
  rewrite decide_False, decide_True by lia. simpl. by rewrite XORKeyStream_ok.
Qed.

Lemma DecryptUDPPacket_ok packet key :
  length key = 32%nat → (12 ≤ length packet)%nat → zlen packet ≤ maxStream →
  DecryptUDPPacket packet key = Ok (xorAt key (take 12 packet) 0 (drop 12 packet)).
Proof.
  intros Hk Hn Hb. unfold DecryptUDPPacket, Chacha20NonceLen. rewrite decide_False by lia.
  unfold NewUnauthenticatedCipher. rewrite length_take, decide_False, decide_True by lia. simpl.
  rewrite XORKeyStream_ok; [done|]. unfold zlen in *. rewrite length_drop. simpl. lia.
Qed.

(** A datagram written to a password-protected UDP port and read with a
    buffer of [n] bytes comes out as the plaintext cut to [n - 12] bytes (the
    prefix the nonce leaves room for); in particular it is whole whenever the
    buffer holds the encrypted datagram. *)
Theorem datagram_roundtrip password nonce b n :
  length nonce = 12%nat → zlen b ≤ maxStream - 12 → (12 ≤ n)%nat →
  ∃ d, encWriteTo (Some nonce) password b = Ok d ∧ length d = (length b + 12)%nat ∧
       encReadFrom n password d = Ok (take (n - 12) b).
Proof.
  intros Hnc Hb Hn. pose proof (DeriveKey_length password) as Hk. set (key := DeriveKey password) in *.
  exists (nonce ++ xorAt key nonce 0 b). unfold encWriteTo, encReadFrom. fold key.
  split; [apply EncryptUDPPacket_ok; try done; lia|].
  split; [rewrite length_app, xorAt_length; lia|].
  rewrite DecryptUDPPacket_ok; [|done| |].
  - simpl. rewrite take_app_ge by lia. rewrite Hnc.
    rewrite take_app_length', drop_app_length' by done.
    assert (∀ k (x : bytes), take k (xorAt key nonce 0 x) = xorAt key nonce 0 (take k x)) as Htk.
    { intros k x. rewrite <- (take_drop k x) at 1. rewrite xorAt_app.
      destruct (decide (k ≤ length x)%nat).
      - rewrite take_app_length'; [done|]. rewrite xorAt_length, length_take. lia.
      - rewrite take_ge by (rewrite length_app, !xorAt_length, length_take, length_drop; lia).
        rewrite (drop_ge x) by lia. simpl. by rewrite app_nil_r. }
    rewrite Htk, take_take, Htk, xorAt_invol. do 2 f_equal. lia.
  - rewrite length_take, length_app, xorAt_length. lia.
  - unfold zlen in *. rewrite length_take, length_app, xorAt_length. lia.
Qed.

(** Decryption of a datagram never panics, refuses exactly the datagrams
    shorter than a nonce, and accepts every other under any password: there is no
    authentication of the sender or of the content. *)
Theorem decrypt_total password packet :
  zlen packet ≤ maxStream →
  match DecryptUDPPacket packet (DeriveKey password) with
  | Ok p => (12 ≤ length packet)%nat ∧ length p = (length packet - 12)%nat
  | Err e => (length packet < 12)%nat ∧ e = ErrUDPPacketTooShort
  | Panic => False
  end.
Proof.
  intros Hb. destruct (decide (length packet < 12)%nat) as [Hl|Hl].
  - unfold DecryptUDPPacket, Chacha20NonceLen. by rewrite decide_True.
  - rewrite DecryptUDPPacket_ok; [|apply DeriveKey_length|lia|done].
    rewrite xorAt_length, length_drop. lia.
Qed.
End chacha.

(** ** The nonce exchange cannot deadlock *)

(** What each end does before data can flow. *)
Inductive hop := SendNonce | RecvNonce.
Definition clientHandshake : list hop := [SendNonce; RecvNonce].
Definition serverHandshake : list hop := [RecvNonce; SendNonce].

(** Pending operations of client and server, and bytes in flight each way;
    [ReadFull] blocks until the nonce is there. *)
Record Hs := mkHs { clientOps : list hop; serverOps : list hop; toServer : nat; toClient : nat }.
Inductive hstep : Hs → Hs → Prop :=
  | h_client_send c s a b :
      hstep (mkHs (SendNonce :: c) s a b) (mkHs c s (a + Chacha20NonceLen) b)
  | h_client_recv c s a b :
      (Chacha20NonceLen ≤ b)%nat →
      hstep (mkHs (RecvNonce :: c) s a b) (mkHs c s a (b - Chacha20NonceLen))
  | h_server_send c s a b :
      hstep (mkHs c (SendNonce :: s) a b) (mkHs c s a (b + Chacha20NonceLen))
  | h_server_recv c s a b :
      (Chacha20NonceLen ≤ a)%nat →
      hstep (mkHs c (RecvNonce :: s) a b) (mkHs c s (a - Chacha20NonceLen) b).

Definition hinit : Hs := mkHs clientHandshake serverHandshake 0 0.
Definition hdone (h : Hs) : Prop := h = mkHs [] [] 0 0.

Definition hreach (h : Hs) : Prop :=
  h = hinit ∨ h = mkHs [RecvNonce] serverHandshake 12 0 ∨ h = mkHs [RecvNonce] [SendNonce] 0 0 ∨
  h = mkHs [RecvNonce] [] 0 12 ∨ hdone h.

Lemma hreach_step h h' : hreach h → hstep h h' → hreach h'.
Proof.
  unfold hreach, hdone, hinit, clientHandshake, serverHandshake.
  intros [-> |[-> |[-> |[-> | ->]]]] Hs; inversion Hs; subst; unfold Chacha20NonceLen in *; simpl in *;
    try lia; naive_solver.
Qed.

(** From the start of the exchange every run reaches, in exactly four steps,
    the state in which both ends have both nonces, and no reachable state before
    it is stuck. *)
Theorem handshake_completes h :
  rtc hstep hinit h →
  (hdone h ∨ ∃ h', hstep h h') ∧ ∃ n, nsteps hstep n h (mkHs [] [] 0 0) ∧ (n ≤ 4)%nat.
Proof.
  intros Hr. assert (hreach h) as Hh.
  { apply (rtc_ind_r (R := hstep) hreach hinit); [by left| |done]. intros x y _ Hxy Hx. by eapply hreach_step. }
  assert (hstep (mkHs [RecvNonce] [] 0 12) (mkHs [] [] 0 0)) as S4 by (apply (h_client_recv [] [] 0 12); done).
  assert (hstep (mkHs [RecvNonce] [SendNonce] 0 0) (mkHs [RecvNonce] [] 0 12)) as S3 by apply h_server_send.
  assert (hstep (mkHs [RecvNonce] serverHandshake 12 0) (mkHs [RecvNonce] [SendNonce] 0 0)) as S2
    by (apply (h_server_recv _ [SendNonce] 12 0); done).
  assert (hstep hinit (mkHs [RecvNonce] serverHandshake 12 0)) as S1 by apply h_client_send.
  destruct Hh as [-> |[-> |[-> |[-> | ->]]]].
  - split; [eauto|]. exists 4%nat. split; [|done]. repeat (eapply nsteps_l; [eassumption|]). constructor.
  - split; [eauto|]. exists 3%nat. split; [|lia]. repeat (eapply nsteps_l; [eassumption|]). constructor.
  - split; [eauto|]. exists 2%nat. split; [|lia]. repeat (eapply nsteps_l; [eassumption|]). constructor.
  - split; [eauto|]. exists 1%nat. split; [|lia]. repeat (eapply nsteps_l; [eassumption|]). constructor.
  - split; [by left|]. exists 0%nat. split; [constructor|lia].
Qed.

(** ** Witnesses, with a concrete key stream *)
Definition toyStream : ChaCha20 := λ _ _ i, Z.of_nat i `mod` 256.
Definition exNonce (b : Z) : bytes := replicate 12 b.

Lemma session_roundtrip_witness :
  let csS := [exNonce 7; xorAt (cc := toyStream) (DeriveKey "pw") (exNonce 7) 0 [1; 2; 3]] in
  let csC := [exNonce 8; xorAt (cc := toyStream) (DeriveKey "pw") (exNonce 8) 0 [9]] in
  ∃ cl sv cw sw,
    dialEncrypted csC (Some (exNonce 7)) (mkWire [] true) "pw" = Ok cl ∧
    newEncryptedTCPConn csS (Some (exNonce 8)) (mkWire [] true) "pw" = Ok sv ∧
    writeAll (cc := toyStream) [[1; 2]; [3]] (encWriter cl) = Ok cw ∧ sent (wconn cw) = concat csS ∧
    writeAll (cc := toyStream) [[9]] (encWriter sv) = Ok sw ∧ sent (wconn sw) = concat csC ∧
    copyAll (cc := toyStream) 100 2 [] (decReader sv) = Some (Ok [1; 2; 3]) ∧
    copyAll (cc := toyStream) 100 2 [] (decReader cl) = Some (Ok [9]).
Proof.
  apply (session_roundtrip (cc := toyStream) "pw" (exNonce 7) (exNonce 8) [[1; 2]; [3]] [[9]]
    [exNonce 8; xorAt (cc := toyStream) (DeriveKey "pw") (exNonce 8) 0 [9]]
    [exNonce 7; xorAt (cc := toyStream) (DeriveKey "pw") (exNonce 7) 0 [1; 2; 3]] 2 100);
    [reflexivity|reflexivity|lia|discriminate|discriminate| | |reflexivity|reflexivity].
  all: cbn [concat length]; rewrite ?length_app, ?xorAt_length; simpl; lia.
Defined.

Lemma datagram_roundtrip_witness :
  ∃ d, encWriteTo (cc := toyStream) (Some (exNonce 7)) "pw" [1; 2; 3] = Ok d ∧ length d = 15%nat ∧
       encReadFrom (cc := toyStream) 14 "pw" d = Ok [1; 2].
Proof.
  apply (datagram_roundtrip (cc := toyStream) "pw" (exNonce 7) [1; 2; 3] 14);
    [reflexivity|discriminate|lia].
Defined.

Lemma decrypt_total_witness :
  match DecryptUDPPacket (cc := toyStream) [1; 2; 3] (DeriveKey "pw") with
  | Ok p => (12 ≤ length [1; 2; 3])%nat ∧ length p = (length [1; 2; 3] - 12)%nat
  | Err e => (length [1; 2; 3] < 12)%nat ∧ e = ErrUDPPacketTooShort
  | Panic => False
  end.
Proof. apply (decrypt_total (cc := toyStream) "pw" [1; 2; 3]). discriminate. Defined.

Lemma handshake_completes_witness :
  (hdone hinit ∨ ∃ h', hstep hinit h') ∧ ∃ n, nsteps hstep n hinit (mkHs [] [] 0 0) ∧ (n ≤ 4)%nat.
Proof. apply (handshake_completes hinit). constructor. Defined.
