(* ===== verification/TSAddr.v ===== *)
(** * Tailscale addresses and IP sets

    [net/tsaddr/tsaddr.go], [net/ipset/ipset.go] and the netstack test of
    [cmd/tunnneji-tail/cli/engine.go].  [bart.Lite] (a routing table outside the
    sources) is a parameter of [NewContainsIPFunc]. *)

From S2P Require Import Prelude GoStd Bytes NetIP.

(** ** Ranges *)

(** [mustPrefix]; its panic on a malformed literal is the invalid prefix. *)
Definition mustPrefix (s : string) : Prefix := default (mkPrefix AddrZ 0) (ParsePrefix s).

Definition ChromeOSVMRange : Prefix := mustPrefix "100.115.92.0/23".
Definition CGNATRange : Prefix := mustPrefix "100.64.0.0/10".
Definition TailscaleULARange : Prefix := mustPrefix "fd7a:115c:a1e0::/48".
Definition TailscaleViaRange : Prefix := mustPrefix "fd7a:115c:a1e0:b1a::/64".
Definition Tailscale4To6Range : Prefix := mustPrefix "fd7a:115c:a1e0:ab12:4843:cd96:6200::/104".
Definition TailscaleEphemeral6Range : Prefix := mustPrefix "fd7a:115c:a1e0:efe3::/64".

Definition TailscaleServiceIP : Addr := IPv4 100 100 100 100.
Definition TailscaleServiceIPv6 : Addr := pfx_ip (mustPrefix "fd7a:115c:a1e0::53/128").
Definition Tailscale4To6Placeholder : Addr := pfx_ip Tailscale4To6Range.

Definition IsTailscaleIPv4 (ip : Addr) : bool :=
  Contains CGNATRange ip && negb (Contains ChromeOSVMRange ip).
Definition IsTailscaleIP (ip : Addr) : bool :=
  if Is4 ip then IsTailscaleIPv4 ip else Contains TailscaleULARange ip.

(** [dialer.UseNetstackForIP] *)
Definition UseNetstackForIP (ip : Addr) : bool :=
  match ip with
  | Addr4 _ =>
      let b4 := be_bytes 4 (addr_bits ip) in
      (nth 0 b4 0 =? 100) && (64 <=? nth 1 b4 0) && (nth 1 b4 0 <=? 127)
  | Addr6 _ _ => let b := As16 ip in (nth 0 b 0 =? 0xfd) && (nth 1 b 0 =? 0x7a)
  | AddrZ => false
  end.

(** ** 4to6 and via addresses *)
Definition Tailscale4To6 (ipv4 : Addr) : Addr :=
  if negb (Is4 ipv4) || negb (IsTailscaleIP ipv4) then AddrZ
  else AddrFrom16 (take 13 (As16 (pfx_ip Tailscale4To6Range)) ++ drop 1 (be_bytes 4 (addr_bits ipv4))).

Definition Tailscale6to4 (ipv6 : Addr) : Addr * bool :=
  if negb (Is6 ipv6) || negb (Contains Tailscale4To6Range ipv6) then (AddrZ, false)
  else (AddrFrom4 (100 :: drop 13 (As16 ipv6)), true).

Definition UnmapVia (ip : Addr) : Addr :=
  if Contains TailscaleViaRange ip then AddrFrom4 (drop 12 (As16 ip)) else ip.
Definition IsViaPrefix (p : Prefix) : bool := Contains TailscaleViaRange (pfx_ip p).

(** [None] is the error "want IPv4 CIDR with a site ID"; [siteID] is a uint32. *)
Definition MapVia (siteID : Z) (v4 : Prefix) : option Prefix :=
  match pfx_ip v4 with
  | Addr4 v =>
      Some (PrefixFrom
              (AddrFrom16 (take 8 (As16 (pfx_ip TailscaleViaRange)) ++ be_bytes 4 siteID ++ be_bytes 4 v))
              (Bits v4 + 64 + 32))
  | _ => None
  end.

(** ** Lists of prefixes *)
Definition PrefixesContainsIP (ipp : list Prefix) (ip : Addr) : bool := existsb (λ r, Contains r ip) ipp.
Definition PrefixIs4 (p : Prefix) : bool := Is4 (pfx_ip p).
Definition PrefixIs6 (p : Prefix) : bool := Is6 (pfx_ip p).
Definition allIPv4 : Prefix := mustPrefix "0.0.0.0/0".
Definition allIPv6 : Prefix := mustPrefix "::/0".
Definition ExitRoutes : list Prefix := [allIPv4; allIPv6].
Definition IsExitRoute (p : Prefix) : bool := bool_decide (p = allIPv4 ∨ p = allIPv6).

Definition ContainsExitRoutes (rr : list Prefix) : bool :=
  let '(v4, v6) := foldl (λ '(v4, v6) r,
    if decide (r = allIPv4) then (true, v6) else if decide (r = allIPv6) then (v4, true) else (v4, v6))
    (false, false) rr in
  v4 && v6.
Definition ContainsExitRoute (rr : list Prefix) : bool := existsb (λ r, Bits r =? 0) rr.
Definition ContainsNonExitSubnetRoutes (rr : list Prefix) : bool := existsb (λ r, negb (Bits r =? 0)) rr.
Definition FilterPrefixesCopy (inp : list Prefix) (f : Prefix → bool) : list Prefix :=
  filter (λ p, f p = true) inp.
Definition WithoutExitRoutes (rr : list Prefix) : list Prefix :=
  if negb (ContainsExitRoutes rr) then rr else filter (λ r, Bits r > 0) rr.
Definition WithoutExitRoute (rr : list Prefix) : list Prefix :=
  if negb (ContainsExitRoute rr) then rr else filter (λ r, Bits r > 0) rr.

(** ** ipset.NewContainsIPFunc *)
Definition emptySet (ip : Addr) : bool := false.
Definition FalseContainsIPFunc : Addr → bool := emptySet.
Definition prefixContainsLoop (addrs : list Prefix) (ip : Addr) : bool := existsb (λ p, Contains p ip) addrs.
Definition oneIP (ip1 ip : Addr) : bool := bool_decide (ip = ip1).
Definition twoIP (ip1 ip2 ip : Addr) : bool := bool_decide (ip = ip1) || bool_decide (ip = ip2).
Definition ipInMap (m : gset Addr) (ip : Addr) : bool := bool_decide (ip ∈ m).

(** [bartContains ps ip] is [t.Contains(ip)] for a [bart.Lite] in which the
    prefixes [ps] were inserted. *)
Definition NewContainsIPFunc (bartContains : list Prefix → Addr → bool) (addrs : list Prefix) : Addr → bool :=
  if decide (length addrs = 0%nat) then emptySet
  else if existsb (λ p, negb (IsSingleIP p)) addrs then
    match addrs with
    | [p] => Contains p
    | _ => if decide (length addrs ≤ 6)%nat then prefixContainsLoop addrs else bartContains addrs
    end
  else
    match addrs with
    | [p] => oneIP (pfx_ip p)
    | [p1; p2] => twoIP (pfx_ip p1) (pfx_ip p2)
    | _ => ipInMap (list_to_set (pfx_ip <$> addrs))
    end.

(** What the code relies on of [bart.Lite]: its documented meaning, a longest
    prefix match that reports whether any inserted prefix contains the address. *)
Class BartLaw (bartContains : list Prefix → Addr → bool) : Prop :=
  bart_contains : ∀ ps ip, hasZone ip = false →
    bartContains ps ip = existsb (λ p, Contains p ip) ps.

(** ** Facts on prefixes *)
Definition prefix_ok (p : Prefix) : Prop :=
  addr_ok (pfx_ip p) ∧ hasZone (pfx_ip p) = false ∧
  (0 < pfx_bitsPlusOne p → pfx_ip p ≠ AddrZ ∧ pfx_bitsPlusOne p - 1 ≤ BitLen (pfx_ip p)).

Lemma lxor_shiftr_0 a b s : 0 ≤ s → (Z.shiftr (Z.lxor a b) s =? 0) = (a / 2 ^ s =? b / 2 ^ s).
Proof.
  intros Hs. rewrite <- !Z.shiftr_div_pow2 by done. rewrite Z.shiftr_lxor.
  destruct (Z.eqb_spec (Z.shiftr a s) (Z.shiftr b s)) as [->|Hne].
  - by rewrite Z.lxor_nilpotent.
  - destruct (Z.eqb_spec (Z.lxor (Z.shiftr a s) (Z.shiftr b s)) 0) as [H|H]; [|done].
    by apply Z.lxor_eq in H.
Qed.

Lemma Contains_4 v n w :
  0 ≤ n ≤ 32 →
  Contains (mkPrefix (Addr4 v) (n + 1)) (Addr4 w) = (w / 2 ^ (32 - n) =? v / 2 ^ (32 - n)).
Proof.
  intros Hn. unfold Contains, PfxValid, Bits. simpl. rewrite (proj2 (Z.ltb_lt _ _)) by lia. simpl.
  replace (32 - (n + 1 - 1)) with (32 - n) by lia. apply lxor_shiftr_0. lia.
Qed.
Lemma Contains_6 v n w :
  0 ≤ n ≤ 128 →
  Contains (mkPrefix (Addr6 v "") (n + 1)) (Addr6 w "") = (w / 2 ^ (128 - n) =? v / 2 ^ (128 - n)).
Proof.
  intros Hn. unfold Contains, PfxValid, Bits. simpl. rewrite (proj2 (Z.ltb_lt _ _)) by lia. simpl.
  replace (128 - (n + 1 - 1)) with (128 - n) by lia. apply lxor_shiftr_0. lia.
Qed.
Lemma Contains_zone p w z : z ≠ "" → Contains p (Addr6 w z) = false.
Proof.
  intros Hz. unfold Contains. simpl. rewrite (bool_decide_eq_false_2 (z = "")) by done.
  by rewrite andb_false_r.
Qed.

Lemma Contains_family p ip : BitLen (pfx_ip p) ≠ BitLen ip → Contains p ip = false.
Proof. intros H. unfold Contains. rewrite (proj2 (Z.eqb_neq _ _) H). by rewrite andb_false_r. Qed.

(** A single-address prefix contains exactly its address. *)
Lemma single_contains p ip :
  prefix_ok p → IsSingleIP p = true → Contains p ip = bool_decide (ip = pfx_ip p).
Proof.
  intros (Ha & Hz & Hv) (Hpv & Hb)%andb_true_iff. unfold PfxValid in Hpv. apply Z.ltb_lt in Hpv.
  destruct (Hv Hpv) as [HnZ _]. apply Z.eqb_eq in Hb. destruct p as [a n]; simpl in *.
  unfold Bits in Hb. simpl in Hb. replace n with (BitLen a + 1) by lia.
  destruct a as [|v|v z]; simpl in *; [done| |].
  - destruct ip as [|w|w z]; [|rewrite Contains_4 by lia|];
      [by rewrite Contains_family|change (2 ^ (32 - 32)) with 1; rewrite !Z.div_1_r|].
    + destruct (Z.eqb_spec w v) as [->|Hne]; [by rewrite bool_decide_eq_true_2|].
      rewrite bool_decide_eq_false_2; congruence.
    + by rewrite Contains_family.
  - apply negb_false_iff, bool_decide_eq_true in Hz. subst z.
    destruct ip as [|w|w z]; [by rewrite Contains_family..|].
    destruct (decide (z = "")) as [->|Hne].
    + rewrite Contains_6 by lia. change (2 ^ (128 - 128)) with 1. rewrite !Z.div_1_r.
      destruct (Z.eqb_spec w v) as [->|Hne]; [by rewrite bool_decide_eq_true_2|].
      rewrite bool_decide_eq_false_2; congruence.
    + rewrite Contains_zone by done. rewrite bool_decide_eq_false_2; congruence.
Qed.

Lemma existsb_bool_decide {A} `{EqDecision A} (x : A) (l : list A) :
  existsb (λ y, bool_decide (x = y)) l = bool_decide (x ∈ l).
Proof.
  induction l as [|y l IH]; [done|]. cbn [existsb]. rewrite IH, <- bool_decide_or. apply bool_decide_ext. by rewrite elem_of_cons.
Qed.

Lemma containsIP_scan bartContains addrs ip :
  BartLaw bartContains → Forall prefix_ok addrs → hasZone ip = false →
  NewContainsIPFunc bartContains addrs ip = existsb (λ p, Contains p ip) addrs.
Proof.
  intros HB Hok Hz. unfold NewContainsIPFunc.
  case_decide as Hl; [by destruct addrs|]. destruct (existsb (λ p, negb _) addrs) eqn:Hs.
  { destruct addrs as [|p [|q l]]; [done|simpl; by rewrite orb_false_r|].
    case_decide; [done|by apply bart_contains]. }
  assert (existsb (λ p, Contains p ip) addrs = bool_decide (ip ∈ pfx_ip <$> addrs)) as ->.
  { rewrite <- existsb_bool_decide. clear Hl. induction Hok as [|p addrs Hp Hok IH]; [done|].
    simpl in *. apply orb_false_iff in Hs as [Hp1 Hs]. apply negb_false_iff in Hp1.
    by rewrite (single_contains p ip Hp Hp1), IH. }
  destruct addrs as [|p [|q [|r l]]]; [done| | |].
  - unfold oneIP. apply bool_decide_ext. set_solver.
  - unfold twoIP. rewrite <- bool_decide_or. apply bool_decide_ext. set_solver.
  - unfold ipInMap. apply bool_decide_ext. by rewrite elem_of_list_to_set.
Qed.

(** Whichever of its six implementations [NewContainsIPFunc] picks for a list
    of prefixes, the function it returns is membership in one of the prefixes, as
    the plain scan computes it (for bart, on addresses without a zone). *)
Theorem NewContainsIPFunc_scan bartContains addrs ip :
  BartLaw bartContains → Forall prefix_ok addrs → hasZone ip = false →
  NewContainsIPFunc bartContains addrs ip = existsb (λ p, Contains p ip) addrs.
Proof. apply containsIP_scan. Qed.

(** ** The ranges, as numbers *)
Lemma CGNATRange_eq : CGNATRange = mkPrefix (Addr4 0x64400000) (10 + 1).
Proof. vm_compute. reflexivity. Qed.
Lemma ChromeOSVMRange_eq : ChromeOSVMRange = mkPrefix (Addr4 0x64735c00) (23 + 1).
Proof. vm_compute. reflexivity. Qed.
Lemma TailscaleULARange_eq :
  TailscaleULARange = mkPrefix (Addr6 0xfd7a115ca1e000000000000000000000 "") (48 + 1).
Proof. vm_compute. reflexivity. Qed.
Lemma TailscaleViaRange_eq :
  TailscaleViaRange = mkPrefix (Addr6 0xfd7a115ca1e00b1a0000000000000000 "") (64 + 1).
Proof. vm_compute. reflexivity. Qed.
Lemma Tailscale4To6Range_eq :
  Tailscale4To6Range = mkPrefix (Addr6 0xfd7a115ca1e0ab124843cd9662000000 "") (104 + 1).
Proof. vm_compute. reflexivity. Qed.

Lemma CGNAT_bounds v :
  Contains CGNATRange (Addr4 v) = true ↔ 0x64400000 ≤ v < 0x64800000.
Proof.
  rewrite CGNATRange_eq, Contains_4 by lia. change (2 ^ (32 - 10)) with 0x400000.
  rewrite Z.eqb_eq. change (0x64400000 / 0x400000) with 401. split; intros.
  - pose proof (Z.div_mod v 0x400000). pose proof (Z.mod_pos_bound v 0x400000). lia.
  - symmetry. apply (Z.div_unique _ _ _ (v - 0x64400000)); lia.
Qed.

Lemma ChromeOS_bounds v :
  Contains ChromeOSVMRange (Addr4 v) = true ↔ 0x64735c00 ≤ v < 0x64735e00.
Proof.
  rewrite ChromeOSVMRange_eq, Contains_4 by lia. change (2 ^ (32 - 23)) with 0x200.
  rewrite Z.eqb_eq. change (0x64735c00 / 0x200) with 3291566. split; intros.
  - pose proof (Z.div_mod v 0x200). pose proof (Z.mod_pos_bound v 0x200). lia.
  - symmetry. apply (Z.div_unique _ _ _ (v - 0x64735c00)); lia.
Qed.

Lemma IsTailscaleIP_bounds v : IsTailscaleIP (Addr4 v) = true → 0x64400000 ≤ v < 0x64800000.
Proof.
  intros H. apply CGNAT_bounds. unfold IsTailscaleIP, IsTailscaleIPv4 in H. cbn [Is4] in H.
  by destruct (Contains CGNATRange (Addr4 v)).
Qed.

(** The range tests agree: the dialer sends every Tailscale address to netstack. *)
Lemma netstack_4 v :
  0 ≤ v < 2 ^ 32 → UseNetstackForIP (Addr4 v) = true ↔ 0x64400000 ≤ v < 0x64800000.
Proof.
  intros Hv. unfold UseNetstackForIP. cbn [be_bytes nth addr_bits].
  rewrite !land_255, !Z.shiftr_div_pow2 by lia.
  change (2 ^ (8 * Z.of_nat 3)) with 0x1000000. change (2 ^ (8 * Z.of_nat 2)) with 0x10000.
  rewrite !andb_true_iff, Z.eqb_eq, !Z.leb_le.
  rewrite (Z.mod_small (v / 0x1000000)) by (split; [apply Z.div_pos; lia|apply Z.div_lt_upper_bound; lia]).
  assert (v / 0x1000000 = v / 0x10000 / 256) as -> by (rewrite Z.div_div by lia; reflexivity).
  pose proof (Z.div_mod v 0x10000). pose proof (Z.mod_pos_bound v 0x10000).
  pose proof (Z.div_mod (v / 0x10000) 256). pose proof (Z.mod_pos_bound (v / 0x10000) 256). lia.
Qed.

Lemma netstack_6 v z :
  0 ≤ v < 2 ^ 128 → UseNetstackForIP (Addr6 v z) = true ↔ v / 2 ^ 112 = 0xfd7a.
Proof.
  intros Hv. unfold UseNetstackForIP. cbn [be_bytes nth As16].
  rewrite !land_255, !Z.shiftr_div_pow2 by lia.
  change (2 ^ (8 * Z.of_nat 15)) with (2 ^ 112 * 256). change (2 ^ (8 * Z.of_nat 14)) with (2 ^ 112).
  rewrite andb_true_iff, !Z.eqb_eq.
  assert (0 ≤ v / 2 ^ 112 < 65536) by (split; [apply Z.div_pos; lia|apply Z.div_lt_upper_bound; lia]).
  rewrite <- Z.div_div by lia. generalize dependent (v / 2 ^ 112). clear. intros w Hw.
  rewrite (Z.mod_small (w / 256)) by (split; [apply Z.div_pos; lia|apply Z.div_lt_upper_bound; lia]).
  pose proof (Z.div_mod w 256). pose proof (Z.mod_pos_bound w 256). lia.
Qed.

(** Every Tailscale address is dialled through netstack; and the converse
    fails: the test looks at the first 16 bits of an IPv6 address only, so an
    address such as fd7a::1, outside fd7a:115c:a1e0::/48, is sent there too. *)
Theorem netstack_covers_tailscale ip :
  addr_ok ip →
  (IsTailscaleIP ip = true → UseNetstackForIP ip = true) ∧
  (UseNetstackForIP (Addr6 (0xfd7a * 2 ^ 112 + 1) "") = true ∧
   IsTailscaleIP (Addr6 (0xfd7a * 2 ^ 112 + 1) "") = false).
Proof.
  intros Hok. split; [|split; vm_compute; reflexivity].
  destruct ip as [|v|v z]; unfold IsTailscaleIP; simpl Is4; cbv iota; intros H.
  - by rewrite Contains_family in H by (rewrite TailscaleULARange_eq; done).
  - apply netstack_4; [done|]. by apply IsTailscaleIP_bounds.
  - destruct (decide (z = "")) as [->|Hz]; [|by rewrite Contains_zone in H].
    apply netstack_6; [done|]. rewrite TailscaleULARange_eq, Contains_6 in H by lia.
    apply Z.eqb_eq in H. change (2 ^ (128 - 48)) with (2 ^ 80) in H.
    change (2 ^ 112) with (2 ^ 80 * 2 ^ 32). rewrite <- Z.div_div, H by lia. done.
Qed.

(** ** 4to6 *)
Lemma be_val_cons x b : be_val 0 (x :: b) = x * 256 ^ zlen b + be_val 0 b.
Proof. simpl. apply be_val_acc. Qed.

Lemma As16_6 v z : As16 (Addr6 v z) = be_bytes 13 (Z.shiftr v 24) ++ be_bytes 3 v.
Proof. apply (be_bytes_app 13 3). Qed.

(** The 13 fixed bytes of the 4to6 range. *)
Definition pre4To6 : Z := 0xfd7a115ca1e0ab124843cd9662.

Lemma Tailscale4To6_eq v :
  IsTailscaleIP (Addr4 v) = true → Tailscale4To6 (Addr4 v) = Addr6 (pre4To6 * 2 ^ 24 + v `mod` 2 ^ 24) "".
Proof.
  intros H. unfold Tailscale4To6. rewrite H. cbn [negb orb Is4]. unfold AddrFrom16. f_equal.
  assert (take 13 (As16 (pfx_ip Tailscale4To6Range)) = be_bytes 13 pre4To6) as -> by (vm_compute; reflexivity).
  change (drop 1 (be_bytes 4 (addr_bits (Addr4 v)))) with (be_bytes 3 v).
  rewrite be_val_app, be_val_acc. rewrite be_val_bytes by (vm_compute; done).
  by rewrite be_val_bytes_mod.
Qed.

Lemma Tailscale6to4_eq v :
  Tailscale6to4 (Addr6 v "") =
  if v / 2 ^ 24 =? pre4To6 then (Addr4 (100 * 2 ^ 24 + v `mod` 2 ^ 24), true) else (AddrZ, false).
Proof.
  unfold Tailscale6to4. rewrite Tailscale4To6Range_eq, Contains_6 by lia.
  change (2 ^ (128 - 104)) with (2 ^ 24).
  change (0xfd7a115ca1e0ab124843cd9662000000 / 2 ^ 24) with pre4To6. cbn [Is6 negb orb].
  destruct (v / 2 ^ 24 =? pre4To6); [|done]. cbn [negb]. f_equal. unfold AddrFrom4. f_equal.
  rewrite As16_6. change (drop 13 (be_bytes 13 (Z.shiftr v 24) ++ be_bytes 3 v)) with (be_bytes 3 v).
  rewrite be_val_cons, be_val_bytes_mod. done.
Qed.

(** The 4to6 mapping is a bijection between the Tailscale IPv4 addresses and
    its image: it lands in the 4to6 range, 6to4 undoes it, and a 4to6-range
    address whose IPv4 side is a Tailscale address is the image of that side. *)
Theorem map4to6_roundtrip v :
  (IsTailscaleIP (Addr4 v) = true →
     Contains Tailscale4To6Range (Tailscale4To6 (Addr4 v)) = true ∧
     Tailscale6to4 (Tailscale4To6 (Addr4 v)) = (Addr4 v, true)) ∧
  (∀ w a, Tailscale6to4 (Addr6 w "") = (a, true) → IsTailscaleIP a = true → Tailscale4To6 a = Addr6 w "").
Proof.
  split.
  - intros H. rewrite Tailscale4To6_eq by done. pose proof (IsTailscaleIP_bounds v H) as Hv.
    assert ((pre4To6 * 2 ^ 24 + v `mod` 2 ^ 24) / 2 ^ 24 = pre4To6) as Hd.
    { rewrite Z.div_add_l by lia. rewrite Z.div_small; [lia|]. apply Z.mod_pos_bound. lia. }
    split.
    + rewrite Tailscale4To6Range_eq, Contains_6 by lia. change (2 ^ (128 - 104)) with (2 ^ 24).
      by rewrite Hd.
    + rewrite Tailscale6to4_eq, Hd, Z.eqb_refl. do 2 f_equal.
      rewrite (Z.add_comm (pre4To6 * 2 ^ 24)), Z.mod_add, Z.mod_mod by lia.
      pose proof (Z.div_mod v (2 ^ 24)).
      assert (v / 2 ^ 24 = 100) by (symmetry; apply (Z.div_unique _ _ _ (v - 100 * 2 ^ 24)); lia). lia.
  - intros w a H Ha. rewrite Tailscale6to4_eq in H. destruct (Z.eqb_spec (w / 2 ^ 24) pre4To6) as [Hw|]; [|done].
    injection H as <-. rewrite Tailscale4To6_eq by done. f_equal.
    rewrite (Z.add_comm (100 * 2 ^ 24)), Z.mod_add, Z.mod_mod, <- Hw by lia.
    pose proof (Z.div_mod w (2 ^ 24)). lia.
Qed.

(** ** Via addresses *)
Definition preVia : Z := 0xfd7a115ca1e00b1a.
Definition viaVal (site v : Z) : Z := (preVia * 2 ^ 32 + site) * 2 ^ 32 + v.

Lemma UnmapVia_6 w :
  UnmapVia (Addr6 w "") = if w / 2 ^ 64 =? preVia then Addr4 (w `mod` 2 ^ 32) else Addr6 w "".
Proof.
  unfold UnmapVia. rewrite TailscaleViaRange_eq, Contains_6 by lia. change (2 ^ (128 - 64)) with (2 ^ 64).
  change (0xfd7a115ca1e00b1a0000000000000000 / 2 ^ 64) with preVia.
  destruct (w / 2 ^ 64 =? preVia); [|done]. unfold AddrFrom4. f_equal.
  change (drop 12 (As16 (Addr6 w ""))) with (be_bytes 4 w). by rewrite be_val_bytes_mod.
Qed.

Lemma MapVia_eq site v bits :
  0 ≤ site < 2 ^ 32 → 0 ≤ v < 2 ^ 32 → 0 ≤ bits ≤ 32 →
  MapVia site (PrefixFrom (Addr4 v) bits) = Some (mkPrefix (Addr6 (viaVal site v) "") (bits + 96 + 1)).
Proof.
  intros Hs Hv Hb. unfold PrefixFrom. simpl. rewrite decide_True by (split; [done|simpl; lia]).
  unfold MapVia. cbn [pfx_ip]. f_equal. unfold AddrFrom16.
  assert (take 8 (As16 (pfx_ip TailscaleViaRange)) = be_bytes 8 preVia) as -> by (vm_compute; reflexivity).
  rewrite !be_val_app, (be_val_acc (be_bytes 4 v)), (be_val_acc (be_bytes 4 site)).
  rewrite (be_val_bytes 8) by (vm_compute; done). rewrite !(be_val_bytes 4) by done.
  unfold zlen. rewrite !be_bytes_length. change (256 ^ Z.of_nat 4) with (2 ^ 32). fold (viaVal site v).
  unfold PrefixFrom, Bits. cbn [withoutZone pfx_bitsPlusOne].
  rewrite decide_True by (split; [done|simpl; lia]). f_equal. lia.
Qed.

Lemma div_pow_split h l k m :
  0 < k → 0 < m → 0 ≤ l < k * m → (h * (k * m) + l) / k = h * m + l / k ∧ 0 ≤ l / k < m.
Proof.
  intros Hk Hm Hl. split.
  - replace (h * (k * m) + l) with ((h * m) * k + l) by lia. by rewrite Z.div_add_l by lia.
  - split; [apply Z.div_pos; lia|apply Z.div_lt_upper_bound; lia].
Qed.

(** Two numbers agree above bit [j] exactly when they agree above bit [n] and
    their low [n] bits agree above bit [j]. *)
Lemma div_pow_eq j n w v :
  0 ≤ j ≤ n →
  w / 2 ^ j = v / 2 ^ j ↔
  w / 2 ^ n = v / 2 ^ n ∧ (w `mod` 2 ^ n) / 2 ^ j = (v `mod` 2 ^ n) / 2 ^ j.
Proof.
  intros Hj. assert (2 ^ n = 2 ^ j * 2 ^ (n - j)) as Hp by (rewrite <- Z.pow_add_r by lia; f_equal; lia).
  assert (0 < 2 ^ j ∧ 0 < 2 ^ (n - j)) as [Hk Hm] by (split; apply Z.pow_pos_nonneg; lia).
  rewrite Hp. set (k := 2 ^ j) in *. set (m := 2 ^ (n - j)) in *.
  assert (∀ x, x / k = x / (k * m) * m + x `mod` (k * m) / k ∧ 0 ≤ x `mod` (k * m) / k < m) as Hsp.
  { intros x. pose proof (Z.mod_pos_bound x (k * m)) as Bx.
    destruct (div_pow_split (x / (k * m)) (x `mod` (k * m)) k m Hk Hm) as [Ex Lx]; [lia|].
    split; [|done]. rewrite <- Ex. f_equal. pose proof (Z.div_mod x (k * m)). lia. }
  destruct (Hsp w) as [Ew Lw], (Hsp v) as [Ev Lv].
  rewrite Ew, Ev. split; [|intros [-> ->]; done]. intros H.
  apply (Z.div_mod_unique m); [by left|by left|]. lia.
Qed.

(** [MapVia] embeds an IPv4 route of a site: the result is a via prefix whose
    address unmaps to the route's, and it contains an IPv6 address exactly when
    that is a via address of the same site whose IPv4 side the route contains. *)
Theorem MapVia_contains site v bits :
  0 ≤ site < 2 ^ 32 → 0 ≤ v < 2 ^ 32 → 0 ≤ bits ≤ 32 →
  ∃ vp, MapVia site (PrefixFrom (Addr4 v) bits) = Some vp ∧ IsViaPrefix vp = true ∧
    UnmapVia (pfx_ip vp) = Addr4 v ∧
    ∀ w, Contains vp (Addr6 w "") = true ↔
      Contains TailscaleViaRange (Addr6 w "") = true ∧ (w / 2 ^ 32) `mod` 2 ^ 32 = site ∧
      Contains (PrefixFrom (Addr4 v) bits) (UnmapVia (Addr6 w "")) = true.
Proof.
  intros Hs Hv Hb. eexists. split; [by apply MapVia_eq|].
  assert (viaVal site v / 2 ^ 32 = preVia * 2 ^ 32 + site) as Hhi.
  { unfold viaVal. rewrite Z.div_add_l, Z.div_small by lia. lia. }
  assert (viaVal site v `mod` 2 ^ 32 = v) as Hlo.
  { unfold viaVal. rewrite Z.add_comm, Z.mod_add, Z.mod_small by lia. done. }
  assert (viaVal site v / 2 ^ 64 = preVia) as Htop.
  { change (2 ^ 64) with (2 ^ 32 * 2 ^ 32). rewrite <- Z.div_div, Hhi by lia.
    rewrite Z.div_add_l, Z.div_small by lia. lia. }
  split_and!.
  - unfold IsViaPrefix. cbn [pfx_ip]. rewrite TailscaleViaRange_eq, Contains_6 by lia.
    change (2 ^ (128 - 64)) with (2 ^ 64). rewrite Htop. done.
  - cbn [pfx_ip]. by rewrite UnmapVia_6, Htop, Hlo.
  - intros w. rewrite UnmapVia_6, TailscaleViaRange_eq, !Contains_6 by lia.
    change (2 ^ (128 - 64)) with (2 ^ 64).
    change (0xfd7a115ca1e00b1a0000000000000000 / 2 ^ 64) with preVia.
    unfold PrefixFrom. cbn [withoutZone]. rewrite decide_True by (split; [done|simpl; lia]).
    replace (128 - (bits + 96)) with (32 - bits) by lia.
    rewrite !Z.eqb_eq, (div_pow_eq (32 - bits) 32) by lia. rewrite Hhi, Hlo.
    assert (w / 2 ^ 32 / 2 ^ 32 = w / 2 ^ 64) as Hww by (rewrite Z.div_div by lia; reflexivity).
    pose proof (Z.div_mod (w / 2 ^ 32) (2 ^ 32)) as Hw. rewrite Hww in Hw.
    pose proof (Z.mod_pos_bound (w / 2 ^ 32) (2 ^ 32)).
    split.
    + intros [Hq Hr]. assert (w / 2 ^ 64 = preVia ∧ (w / 2 ^ 32) `mod` 2 ^ 32 = site) as [Ht Hsite] by lia.
      split_and!; [done|done|]. rewrite Ht, Z.eqb_refl, Contains_4 by lia. by apply Z.eqb_eq.
    + intros (Ht & Hsite & Hc). rewrite Ht, Z.eqb_refl, Contains_4 in Hc by lia.
      apply Z.eqb_eq in Hc. split; [lia|done].
Qed.

(** Exit routes: [WithoutExitRoutes] changes the list exactly when it has both
    default routes, and then removes every default route and nothing else. *)
Theorem WithoutExitRoutes_spec rr :
  Forall (λ r, PfxValid r = true) rr →
  (allIPv4 ∈ rr ∧ allIPv6 ∈ rr →
     ∀ r, r ∈ WithoutExitRoutes rr ↔ r ∈ rr ∧ Bits r ≠ 0) ∧
  (¬ (allIPv4 ∈ rr ∧ allIPv6 ∈ rr) → WithoutExitRoutes rr = rr).
Proof.
  intros Hv.
  assert (ContainsExitRoutes rr = bool_decide (allIPv4 ∈ rr) && bool_decide (allIPv6 ∈ rr)) as Hc.
  { unfold ContainsExitRoutes. match goal with |- context [foldl ?f] => set (g := f) end.
    assert (∀ l a b, foldl g (a, b) l = (a || bool_decide (allIPv4 ∈ l), b || bool_decide (allIPv6 ∈ l))) as Hf.
    { induction l as [|x l IH]; intros a b; cbn [foldl].
      - by rewrite !(bool_decide_eq_false_2 (_ ∈ [])), !orb_false_r by apply not_elem_of_nil.
      - assert (∀ y, bool_decide (y ∈ x :: l) = bool_decide (x = y) || bool_decide (y ∈ l)) as Hx.
        { intros y. rewrite <- bool_decide_or. apply bool_decide_ext. rewrite elem_of_cons. naive_solver. }
        assert (allIPv4 ≠ allIPv6) as H46 by (vm_compute; done).
        rewrite !Hx. unfold g at 2.
        destruct (decide (x = allIPv4)) as [->|H4]; [|destruct (decide (x = allIPv6)) as [->|H6]];
          rewrite IH, ?(bool_decide_eq_true_2 (allIPv4 = allIPv4)), ?(bool_decide_eq_true_2 (allIPv6 = allIPv6)),
            ?(bool_decide_eq_false_2 (allIPv4 = allIPv6)), ?(bool_decide_eq_false_2 (allIPv6 = allIPv4)),
            ?(bool_decide_eq_false_2 (x = _)) by done;
          by rewrite ?orb_true_r. }
    by rewrite Hf. }
  unfold WithoutExitRoutes. rewrite Hc. split.
  - intros [H4 H6] r. rewrite !bool_decide_eq_true_2 by done. simpl. rewrite list_elem_of_filter.
    split; intros [H1 H2]; (split; [|done || lia]); [done|].
    apply (Forall_forall _ _) with (x := r) in Hv; [|done]. unfold PfxValid in Hv. unfold Bits in *.
    apply Z.ltb_lt in Hv. lia.
  - intros Hn. destruct (bool_decide (allIPv4 ∈ rr)) eqn:E4, (bool_decide (allIPv6 ∈ rr)) eqn:E6; try done.
    apply bool_decide_eq_true in E4, E6. tauto.
Qed.

(** ** Witnesses *)
Definition scanBart (ps : list Prefix) (ip : Addr) : bool := existsb (λ p, Contains p ip) ps.

Lemma NewContainsIPFunc_scan_witness :
  NewContainsIPFunc scanBart [mkPrefix (IPv4 10 0 0 1) 33; mkPrefix (IPv4 10 0 0 2) 33] (IPv4 10 0 0 2) = true.
Proof.
  rewrite (NewContainsIPFunc_scan scanBart).
  - vm_compute. reflexivity.
  - intros ps ip _. reflexivity.
  - repeat constructor; try discriminate; simpl; lia.
  - reflexivity.
Defined.

Lemma netstack_covers_tailscale_witness : UseNetstackForIP (IPv4 100 64 0 1) = true.
Proof.
  destruct (netstack_covers_tailscale (IPv4 100 64 0 1)) as [H _].
  - vm_compute. split; discriminate || reflexivity.
  - apply H. vm_compute. reflexivity.
Defined.

Lemma MapVia_contains_witness :
  ∃ vp, MapVia 7 (PrefixFrom (IPv4 10 1 0 0) 16) = Some vp ∧ IsViaPrefix vp = true.
Proof.
  destruct (MapVia_contains 7 0x0a010000 16) as (vp & H1 & H2 & _); [lia..|]. exists vp. split; assumption.
Defined.

Lemma WithoutExitRoutes_spec_witness : CGNATRange ∈ WithoutExitRoutes [allIPv4; CGNATRange; allIPv6].
Proof.
  apply (WithoutExitRoutes_spec [allIPv4; CGNATRange; allIPv6]).
  - repeat constructor; vm_compute; reflexivity.
  - split; [left|right; right; left].
  - split; [right; left|vm_compute; discriminate].
Defined.
