(* ===== verification/FlowTrack.v ===== *)
(** * Flow tracking: the LRU cache of 5-tuples

    [net/flowtrack/flowtrack.go].  A [container/list] element is an identity into
    the store [elems]; the list holds the identities from most to least recently
    used and the map sends a key to its element, as in the Go code.  The cache
    refines an abstract list of key/value pairs, most recent first. *)

From S2P Require Import Prelude GoStd Bytes NetIP.

(** ** Tuples *)
Record Tuple := mkTuple { tsrc : bytes; tdst : bytes; tsrcPort : Z; tdstPort : Z; tproto : Z }.
#[export] Instance Tuple_eq_dec : EqDecision Tuple.
Proof. solve_decision. Defined.
#[export] Instance Tuple_countable : Countable Tuple.
Proof.
  refine (inj_countable' (λ t, (tsrc t, tdst t, tsrcPort t, tdstPort t, tproto t))
            (λ '(s, d, sp, dp, p), mkTuple s d sp dp p) _).
  by intros [].
Defined.

Definition MakeTuple (proto : Z) (src dst : AddrPort) : Tuple :=
  mkTuple (As16 (ap_addr src)) (As16 (ap_addr dst)) (ap_port src) (ap_port dst) proto.
Definition SrcAddr (t : Tuple) : Addr := Unmap (AddrFrom16 (tsrc t)).
Definition DstAddr (t : Tuple) : Addr := Unmap (AddrFrom16 (tdst t)).

(** ** The cache *)
Section cache.
Context {V : Type}.

Record Cache := mkCache {
  MaxEntries : Z;
  ll : list nat;                       (* front first *)
  elems : gmap nat (Tuple * V);        (* *entry of each element *)
  cm : gmap Tuple nat;
  nextElem : nat                       (* allocation of new elements *)
}.
Definition emptyCache (max : Z) : Cache := mkCache max [] ∅ ∅ 0.

Definition MoveToFront (e : nat) (l : list nat) : list nat :=
  if decide (e ∈ l) then e :: filter (λ x, x ≠ e) l else l.

Definition Len (c : Cache) : Z := Z.of_nat (size (cm c)).

Definition removeElement (e : nat) (c : Cache) : Cache :=
  match elems c !! e with
  | Some (k, _) =>
      mkCache (MaxEntries c) (filter (λ x, x ≠ e) (ll c)) (delete e (elems c)) (delete k (cm c)) (nextElem c)
  | None => c
  end.

Definition RemoveOldest (c : Cache) : Cache :=
  match last (ll c) with Some e => removeElement e c | None => c end.

Definition Add (k : Tuple) (v : V) (c : Cache) : Cache :=
  match cm c !! k with
  | Some e =>
      mkCache (MaxEntries c) (MoveToFront e (ll c)) (<[e := (k, v)]> (elems c)) (cm c) (nextElem c)
  | None =>
      let e := nextElem c in
      let c := mkCache (MaxEntries c) (e :: ll c) (<[e := (k, v)]> (elems c)) (<[k := e]> (cm c)) (S e) in
      if decide (MaxEntries c ≠ 0 ∧ Len c > MaxEntries c) then RemoveOldest c else c
  end.

Definition Get (k : Tuple) (c : Cache) : option V * Cache :=
  match cm c !! k with
  | Some e =>
      (snd <$> elems c !! e,
       mkCache (MaxEntries c) (MoveToFront e (ll c)) (elems c) (cm c) (nextElem c))
  | None => (None, c)
  end.

Definition Remove (k : Tuple) (c : Cache) : Cache :=
  match cm c !! k with Some e => removeElement e c | None => c end.

(** ** The abstract cache: pairs, most recently used first *)
Abbreviation alist := (list (Tuple * V)).
Definition aDel (k : Tuple) (l : alist) : alist := filter (λ p, p.1 ≠ k) l.
Definition aFind (k : Tuple) (l : alist) : option V := snd <$> head (filter (λ p, p.1 = k) l).
Definition aRemoveOldest (l : alist) : alist := take (length l - 1) l.
Definition aAdd (max : Z) (k : Tuple) (v : V) (l : alist) : alist :=
  match aFind k l with
  | Some _ => (k, v) :: aDel k l
  | None =>
      let l := (k, v) :: l in
      if decide (max ≠ 0 ∧ Z.of_nat (length l) > max) then aRemoveOldest l else l
  end.
Definition aGet (k : Tuple) (l : alist) : option V * alist :=
  match aFind k l with Some v => (Some v, (k, v) :: aDel k l) | None => (None, l) end.

(** ** Invariant and abstraction *)
Definition absCache (c : Cache) : alist := omap (λ e, elems c !! e) (ll c).

Record CacheInv (c : Cache) : Prop := mkCacheInv {
  ci_nodup : NoDup (ll c);
  ci_elems : ∀ e, e ∈ ll c ↔ is_Some (elems c !! e);
  ci_map : ∀ k e, cm c !! k = Some e ↔ ∃ v, elems c !! e = Some (k, v);
  ci_next : ∀ e, is_Some (elems c !! e) → (e < nextElem c)%nat
}.
End cache.
Arguments Cache : clear implicits.
Arguments CacheInv {V} c.

Section refine.
Context {V : Type}.
Implicit Types (c : Cache V) (k : Tuple) (v : V) (l : list nat).

(** ** The views of the list *)
Definition view (es : gmap nat (Tuple * V)) (l : list nat) : list (Tuple * V) := omap (λ y, es !! y) l.

Lemma view_insert es e x l : e ∉ l → view (<[e := x]> es) l = view es l.
Proof.
  intros He. apply list_omap_ext, Forall_Forall2_diag, Forall_forall. intros y Hy.
  rewrite lookup_insert_ne; [done|]. by intros ->.
Qed.
Lemma view_delete es e l : e ∉ l → view (delete e es) l = view es l.
Proof.
  intros He. apply list_omap_ext, Forall_Forall2_diag, Forall_forall. intros y Hy.
  rewrite lookup_delete_ne; [done|]. by intros ->.
Qed.
Lemma view_cons es e x l : es !! e = Some x → view es (e :: l) = x :: view es l.
Proof. unfold view. cbn. by intros ->. Qed.
Lemma view_length es l : (∀ e, e ∈ l → is_Some (es !! e)) → length (view es l) = length l.
Proof.
  induction l as [|e l IH]; intros H; [done|].
  destruct (H e) as [x Hx]; [left|]. rewrite (view_cons _ _ x) by done. simpl. f_equal.
  apply IH. set_solver.
Qed.

(** Dropping the element of key [k] from the list drops the pair of [k]. *)
Lemma view_filter c k e l :
  CacheInv c → cm c !! k = Some e → (∀ y, y ∈ l → y ∈ ll c) →
  view (elems c) (filter (λ x, x ≠ e) l) = aDel k (view (elems c) l).
Proof.
  intros [_ He Hm _] Hk Hl. unfold aDel. induction l as [|y l IH]; [done|].
  assert (is_Some (elems c !! y)) as [[k' v'] Hy] by (apply He, Hl; left).
  rewrite filter_cons, (view_cons _ y (k', v')), filter_cons by done. simpl.
  destruct (decide (y = e)) as [->|Hne].
  - destruct (proj1 (Hm k e) Hk) as [v Hv]. rewrite Hy in Hv. injection Hv as -> ->.
    rewrite decide_False by tauto. rewrite decide_False by tauto. apply IH. set_solver.
  - rewrite decide_True by done. rewrite decide_True.
    + rewrite (view_cons _ y (k', v')) by done. f_equal. apply IH. set_solver.
    + intros ->. apply Hne. assert (cm c !! k = Some y) as Hky by (apply Hm; eauto). congruence.
Qed.

Lemma abs_find c k :
  CacheInv c → aFind k (absCache c) = e ← cm c !! k; snd <$> elems c !! e.
Proof.
  intros [_ He Hm _]. unfold aFind. change (absCache c) with (view (elems c) (ll c)).
  destruct (cm c !! k) as [e|] eqn:Hk; simpl.
  - destruct (proj1 (Hm k e) Hk) as [v Hv]. rewrite Hv. simpl.
    assert (∀ l, e ∈ l → (∀ y, y ∈ l → y ∈ ll c) →
      head (filter (λ p : Tuple * V, p.1 = k) (view (elems c) l)) = Some (k, v)) as ->;
      [|done|by apply He; eauto|done].
    induction l as [|y l IH]; intros Hl Hall; [set_solver|].
    assert (is_Some (elems c !! y)) as [[k' v'] Hy] by (apply He, Hall; left).
    rewrite (view_cons _ y (k', v')), filter_cons by done. simpl. case_decide as Hd; subst.
    + assert (cm c !! k = Some y) as Hky by (apply Hm; eauto). rewrite Hk in Hky. injection Hky as ->.
      rewrite Hv in Hy. by injection Hy as ->.
    + apply IH; [|set_solver]. apply elem_of_cons in Hl as [->|]; [|done].
      rewrite Hv in Hy. by injection Hy as ->.
  - destruct (filter _ _) as [|[k' v] l] eqn:Hf; [done|exfalso].
    assert ((k', v) ∈ filter (λ p : Tuple * V, p.1 = k) (view (elems c) (ll c))) as Hin by (rewrite Hf; left).
    apply list_elem_of_filter in Hin as [Heq (y & _ & Hy)%list_elem_of_omap]. simpl in Heq. subst k'.
    assert (cm c !! k = Some y) by (apply Hm; eauto). congruence.
Qed.

Lemma cache_len c : CacheInv c → size (cm c) = length (ll c).
Proof.
  intros [Hnd He Hm _]. rewrite <- length_map_to_list, <- (length_fmap snd).
  apply Permutation_length, NoDup_Permutation; [|done|].
  - eapply NoDup_fmap_key; [apply NoDup_fst_map_to_list|].
    intros [k1 e1] [k2 e2] H1%elem_of_map_to_list H2%elem_of_map_to_list; simpl. intros ->.
    apply Hm in H1 as [v1 H1], H2 as [v2 H2]. congruence.
  - intros e. rewrite list_elem_of_fmap, He. split.
    + intros ([k e'] & -> & Hin%elem_of_map_to_list). apply Hm in Hin as [v Hv]. eauto.
    + intros [[k v] Hv]. exists (k, e). split; [done|]. apply elem_of_map_to_list, Hm. eauto.
Qed.

(** ** The operations keep the invariant and refine the abstract ones *)
Lemma moveToFront_inv c e x :
  CacheInv c → elems c !! e = Some x →
  ∀ y, elems c !! e = Some y → ∀ v,
  let c' := mkCache (MaxEntries c) (MoveToFront e (ll c)) (<[e := (x.1, v)]> (elems c)) (cm c) (nextElem c) in
  CacheInv c' ∧ absCache c' = (x.1, v) :: aDel x.1 (absCache c).
Proof.
  intros HI Hx _ _ v. pose proof HI as [Hnd He Hm Hn]. simpl.
  assert (e ∈ ll c) as Hin by (apply He; eauto).
  assert (cm c !! x.1 = Some e) as Hk by (apply Hm; destruct x; eauto).
  unfold MoveToFront. rewrite decide_True by done. split.
  - split; simpl.
    + apply NoDup_cons. split; [rewrite list_elem_of_filter; tauto|by apply NoDup_filter].
    + intros y. rewrite elem_of_cons, list_elem_of_filter, lookup_insert. case_decide as Hd.
      * subst. split; [eauto|by left].
      * rewrite <- He. naive_solver.
    + intros k y. rewrite Hm, lookup_insert. case_decide as Hd; [|done]. subst y. split.
      * intros [w Hw]. rewrite Hx in Hw. injection Hw as ->. eauto.
      * intros [w [= <- <-]]. destruct x; eauto.
    + intros y. rewrite lookup_insert. case_decide as Hd; [subst|]; eauto.
  - change (view (<[e := (x.1, v)]> (elems c)) (e :: filter (λ y, y ≠ e) (ll c)) =
            (x.1, v) :: aDel x.1 (view (elems c) (ll c))).
    rewrite (view_cons _ e (x.1, v)) by apply lookup_insert_eq. f_equal.
    rewrite view_insert by (rewrite list_elem_of_filter; tauto). by apply view_filter.
Qed.

Lemma removeElement_inv c k e :
  CacheInv c → cm c !! k = Some e →
  CacheInv (removeElement e c) ∧ absCache (removeElement e c) = aDel k (absCache c).
Proof.
  intros HI Hk. pose proof HI as [Hnd He Hm Hn]. destruct (proj1 (Hm k e) Hk) as [v Hv].
  unfold removeElement. rewrite Hv. split.
  - split; simpl.
    + by apply NoDup_filter.
    + intros y. rewrite list_elem_of_filter, He, lookup_delete. case_decide; [|naive_solver].
      subst. split; [tauto|by intros []].
    + intros k' y. rewrite !lookup_delete. case_decide as H1; case_decide as H2; subst; try done.
      * split; [done|]. by intros [].
      * split; [done|]. intros [w Hw]. assert (cm c !! k' = Some y) by (apply Hm; eauto). congruence.
      * split; [|by intros []]. intros Hk'. destruct (proj1 (Hm k' y) Hk') as [w Hw]. congruence.
    + intros y. rewrite lookup_delete. case_decide; [by intros []|]. apply Hn.
  - change (view (delete e (elems c)) (filter (λ x, x ≠ e) (ll c)) = aDel k (view (elems c) (ll c))).
    rewrite view_delete by (rewrite list_elem_of_filter; tauto). by apply view_filter.
Qed.

Lemma abs_keys c : CacheInv c → NoDup (absCache c).*1.
Proof.
  intros [Hnd He Hm _]. change (absCache c) with (view (elems c) (ll c)).
  assert (∀ l, NoDup l → (∀ y, y ∈ l → y ∈ ll c) → NoDup (view (elems c) l).*1) as H; [|by apply H].
  induction l as [|y l IH]; intros Hl Hall; [constructor|]. apply NoDup_cons in Hl as [Hy Hl].
  assert (is_Some (elems c !! y)) as [[k v] Hv] by (apply He, Hall; left).
  rewrite (view_cons _ y (k, v)) by done. simpl. apply NoDup_cons. split; [|apply IH; set_solver].
  intros ([k' v'] & Heq & (z & Hz & Hzv)%list_elem_of_omap)%list_elem_of_fmap. simpl in Heq. subst k'.
  assert (cm c !! k = Some y) by (apply Hm; eauto). assert (cm c !! k = Some z) by (apply Hm; eauto).
  by simplify_eq.
Qed.

Lemma RemoveOldest_inv c :
  CacheInv c → CacheInv (RemoveOldest c) ∧ absCache (RemoveOldest c) = aRemoveOldest (absCache c).
Proof.
  intros HI. unfold RemoveOldest, aRemoveOldest. destruct (last (ll c)) as [e|] eqn:Hl.
  - apply last_Some in Hl as [l Hl]. pose proof HI as [_ He Hm _].
    destruct (proj1 (He e)) as [[k v] Hv]; [rewrite Hl; set_solver|].
    assert (cm c !! k = Some e) as Hk by (apply Hm; eauto).
    destruct (removeElement_inv c k e HI Hk) as [HI' ->]. split; [done|].
    pose proof (abs_keys c HI) as Hnd.
    assert (absCache c = view (elems c) l ++ [(k, v)]) as Ha.
    { unfold absCache. rewrite Hl, omap_app. cbn. by rewrite Hv. }
    rewrite Ha in *. rewrite fmap_app in Hnd. apply NoDup_app in Hnd as (_ & Hd & _).
    rewrite length_app, take_app_length' by (simpl; lia). unfold aDel.
    rewrite filter_app, filter_cons_False, app_nil_r by (simpl; tauto). apply filter_all.
    intros [k' v'] Hin Heq. simpl in Heq. subst k'. apply (Hd k); [|set_solver].
    by apply (list_elem_of_fmap_2 fst) in Hin.
  - apply last_None in Hl. split; [done|]. unfold absCache. by rewrite Hl.
Qed.

Lemma Add_inv k v c :
  CacheInv c → CacheInv (Add k v c) ∧ absCache (Add k v c) = aAdd (MaxEntries c) k v (absCache c).
Proof.
  intros HI. pose proof HI as [Hnd He Hm Hn]. unfold Add, aAdd. rewrite abs_find by done.
  destruct (cm c !! k) as [e|] eqn:Hk; simpl.
  - destruct (proj1 (Hm k e) Hk) as [w Hw]. rewrite Hw. simpl.
    by apply (moveToFront_inv c e (k, w) HI Hw _ Hw v).
  - set (e := nextElem c).
    assert (elems c !! e = None) as Hfresh.
    { destruct (elems c !! e) eqn:Hf; [|done]. assert (e < e)%nat by (apply Hn; eauto). lia. }
    assert (e ∉ ll c) as Hnin by (rewrite He, Hfresh; by intros []).
    set (c' := mkCache _ _ _ _ _).
    assert (CacheInv c' ∧ absCache c' = (k, v) :: absCache c) as [HI' Ha].
    { split; [split; simpl|].
      - by apply NoDup_cons.
      - intros y. rewrite elem_of_cons, lookup_insert. case_decide as Hd; subst.
        + split; [eauto|by left].
        + rewrite <- He. naive_solver.
      - intros k' y. rewrite !lookup_insert. case_decide as H1; case_decide as H2; subst; try done.
        + split; [intros _; eauto|done].
        + split; [intros [= <-]; done|]. intros [w Hw]. assert (cm c !! k' = Some y) by (apply Hm; eauto). congruence.
        + split; [|by intros [w [= <-]]]. intros Hk'. destruct (proj1 (Hm k' _) Hk') as [w Hw]. congruence.
      - intros y. rewrite lookup_insert. case_decide; subst; [lia|]. intros Hy%Hn. lia.
      - change (view (<[e := (k, v)]> (elems c)) (e :: ll c) = (k, v) :: view (elems c) (ll c)).
        rewrite (view_cons _ e (k, v)) by apply lookup_insert_eq. by rewrite view_insert. }
    assert (Len c' = Z.of_nat (length ((k, v) :: absCache c))) as Hlen.
    { unfold Len. rewrite (cache_len c' HI'), <- Ha. f_equal. symmetry. apply view_length. apply HI'. }
    destruct (RemoveOldest_inv c' HI') as [HR Hra]. rewrite Ha in Hra.
    destruct (decide (MaxEntries c ≠ 0 ∧ Z.of_nat (length ((k, v) :: absCache c)) > MaxEntries c)) as [Hd|Hd].
    + rewrite decide_True by (rewrite Hlen; exact Hd). by rewrite decide_True.
    + rewrite decide_False by (rewrite Hlen; exact Hd). by rewrite decide_False.
Qed.

Lemma Get_inv k c :
  CacheInv c → CacheInv (Get k c).2 ∧ (Get k c).1 = (aGet k (absCache c)).1 ∧
               absCache (Get k c).2 = (aGet k (absCache c)).2.
Proof.
  intros HI. pose proof HI as [Hnd He Hm Hn]. unfold Get, aGet. rewrite abs_find by done.
  destruct (cm c !! k) as [e|] eqn:Hk; simpl; [|done].
  destruct (proj1 (Hm k e) Hk) as [w Hw]. rewrite Hw. simpl.
  destruct (moveToFront_inv c e (k, w) HI Hw _ Hw w) as [HI' Ha]. simpl in *.
  rewrite insert_id in HI', Ha by done. done.
Qed.

Lemma Remove_inv k c :
  CacheInv c → CacheInv (Remove k c) ∧ absCache (Remove k c) = aDel k (absCache c).
Proof.
  intros HI. unfold Remove. destruct (cm c !! k) as [e|] eqn:Hk; [by apply removeElement_inv|].
  split; [done|]. unfold aDel. symmetry. apply filter_all. intros [k' v] Hin Heq; simpl in *. subst k'.
  pose proof (abs_find c k HI) as Hf. rewrite Hk in Hf. simpl in Hf. unfold aFind in Hf.
  assert ((k, v) ∈ filter (λ p : Tuple * V, p.1 = k) (absCache c)) as Hin' by by apply list_elem_of_filter.
  destruct (filter _ _); [by apply elem_of_nil in Hin'|done].
Qed.

(** ** Sequences of operations *)
Inductive CacheOp := OpAdd (k : Tuple) (v : V) | OpGet (k : Tuple) | OpRemove (k : Tuple) | OpRemoveOldest.

Fixpoint runOps (ops : list CacheOp) (c : Cache V) : list (option V) * Cache V :=
  match ops with
  | [] => ([], c)
  | OpAdd k v :: ops => runOps ops (Add k v c)
  | OpGet k :: ops => let '(r, c) := Get k c in let '(rs, c) := runOps ops c in (r :: rs, c)
  | OpRemove k :: ops => runOps ops (Remove k c)
  | OpRemoveOldest :: ops => runOps ops (RemoveOldest c)
  end.
Fixpoint runAbs (max : Z) (ops : list CacheOp) (l : list (Tuple * V)) : list (option V) * list (Tuple * V) :=
  match ops with
  | [] => ([], l)
  | OpAdd k v :: ops => runAbs max ops (aAdd max k v l)
  | OpGet k :: ops => let '(r, l) := aGet k l in let '(rs, l) := runAbs max ops l in (r :: rs, l)
  | OpRemove k :: ops => runAbs max ops (aDel k l)
  | OpRemoveOldest :: ops => runAbs max ops (aRemoveOldest l)
  end.

Lemma MaxEntries_ops k v c :
  MaxEntries (Add k v c) = MaxEntries c ∧ MaxEntries (Get k c).2 = MaxEntries c ∧
  MaxEntries (Remove k c) = MaxEntries c ∧ MaxEntries (RemoveOldest c) = MaxEntries c.
Proof.
  assert (∀ e c, MaxEntries (removeElement e c) = MaxEntries c) as Hre
    by (intros e c'; unfold removeElement; by destruct (elems c' !! e) as [[]|]).
  assert (∀ c, MaxEntries (RemoveOldest c) = MaxEntries c) as Hro
    by (intros c'; unfold RemoveOldest; destruct (last _); [apply Hre|done]).
  unfold Add, Get, Remove. destruct (cm c !! k) as [e|]; simpl.
  - by rewrite Hre, Hro.
  - case_decide; rewrite ?Hro; done.
Qed.

Lemma run_refines ops : ∀ c, CacheInv c →
  CacheInv (runOps ops c).2 ∧ MaxEntries (runOps ops c).2 = MaxEntries c ∧
  (runOps ops c).1 = (runAbs (MaxEntries c) ops (absCache c)).1 ∧
  absCache (runOps ops c).2 = (runAbs (MaxEntries c) ops (absCache c)).2.
Proof.
  induction ops as [|op ops IH]; intros c HI; [done|].
  destruct op as [k v|k|k|]; cbn [runOps runAbs].
  - destruct (Add_inv k v c HI) as [HI' Ha]. destruct (MaxEntries_ops k v c) as (Hmx & _).
    destruct (IH _ HI') as (? & Hm & ? & ?). rewrite Hmx, Ha in *. done.
  - destruct (Get_inv k c HI) as (HI' & Hr & Ha).
    assert (MaxEntries (Get k c).2 = MaxEntries c) as Hmx by (unfold Get; by destruct (cm c !! k)).
    destruct (Get k c) as [r c1], (aGet k (absCache c)) as [r' l1]. simpl in *. subst.
    destruct (IH _ HI') as (Hi & Hm & Ho & Hl). rewrite Hmx in *.
    destruct (runOps ops c1) as [rs c2], (runAbs _ ops (absCache c1)) as [rs' l2]. simpl in *. by subst.
  - destruct (Remove_inv k c HI) as [HI' Ha].
    assert (MaxEntries (Remove k c) = MaxEntries c) as Hmx
      by (unfold Remove, removeElement; destruct (cm c !! k); [destruct (elems c !! _) as [[]|]|]; done).
    destruct (IH _ HI') as (? & Hm & ? & ?). rewrite Hmx, Ha in *. done.
  - destruct (RemoveOldest_inv c HI) as [HI' Ha].
    assert (MaxEntries (RemoveOldest c) = MaxEntries c) as Hmx.
    { unfold RemoveOldest, removeElement. destruct (last _); [|done]. by destruct (elems c !! _) as [[]|]. }
    destruct (IH _ HI') as (? & Hm & ? & ?). rewrite Hmx, Ha in *. done.
Qed.

Lemma emptyCache_inv max : CacheInv (emptyCache (V := V) max).
Proof.
  split; simpl; [constructor| | |].
  - intros e. rewrite lookup_empty. split; [by intros ?%elem_of_nil|by intros []].
  - intros k e. rewrite !lookup_empty. split; [done|by intros []].
  - intros e. rewrite lookup_empty. by intros [].
Qed.

Lemma runAbs_bound max ops : ∀ l : list (Tuple * V),
  0 < max → Z.of_nat (length l) ≤ max → Z.of_nat (length (runAbs max ops l).2) ≤ max.
Proof.
  assert (∀ k (l : list (Tuple * V)), (length (aDel k l) ≤ length l)%nat) as Hdel
    by (intros; apply length_filter).
  assert (∀ k (l : list (Tuple * V)), is_Some (aFind k l) → (length (aDel k l) < length l)%nat) as Hdel'.
  { intros k l [v Hv]. unfold aFind in Hv. unfold aDel. induction l as [|p l IH]; [done|].
    rewrite filter_cons in Hv. rewrite filter_cons. simpl length. destruct (decide (p.1 = k)).
    - rewrite decide_False by tauto. specialize (Hdel k l). unfold aDel in Hdel. lia.
    - rewrite decide_True by done. simpl. specialize (IH Hv). lia. }
  induction ops as [|op ops IH]; intros l Hm Hl; [done|]. destruct op as [k v|k|k|]; cbn [runAbs].
  - apply IH; [done|]. unfold aAdd. destruct (aFind k l) eqn:Hf; simpl.
    + specialize (Hdel' k l (ex_intro _ _ Hf)). lia.
    + case_decide; [|simpl in *; lia]. unfold aRemoveOldest. rewrite length_take. simpl. lia.
  - unfold aGet. destruct (aFind k l) eqn:Hf.
    + specialize (IH ((k, v) :: aDel k l) Hm). specialize (Hdel' k l (ex_intro _ _ Hf)).
      destruct (runAbs max ops _). simpl in *. lia.
    + specialize (IH l Hm Hl). by destruct (runAbs max ops l).
  - apply IH; [done|]. specialize (Hdel k l). lia.
  - apply IH; [done|]. unfold aRemoveOldest. rewrite length_take. lia.
Qed.

(** C39: the cache is an LRU map: over any sequence of operations from an empty
    cache, every [Get] answers as a list of pairs kept most recently used first
    would, the cache holds exactly that list, and with a positive [MaxEntries] it
    never holds more entries than that. *)
Theorem cache_refines max ops :
  let '(out, c) := runOps ops (emptyCache max) in
  let '(out', l) := runAbs max ops [] in
  out = out' ∧ absCache c = l ∧ Len c = Z.of_nat (length l) ∧ (0 < max → Len c ≤ max).
Proof.
  destruct (run_refines ops (emptyCache max) (emptyCache_inv max)) as (HI & _ & Ho & Ha).
  pose proof (runAbs_bound max ops []) as Hb. simpl in *.
  destruct (runOps ops (emptyCache max)) as [out c]. simpl in *.
  change (absCache (emptyCache max)) with (@nil (Tuple * V)) in *.
  destruct (runAbs max ops []) as [out' l]. simpl in *.
  assert (Len c = Z.of_nat (length l)) as Hl.
  { unfold Len. rewrite (cache_len c HI), <- Ha. f_equal. symmetry. apply view_length. apply HI. }
  split_and!; [done..|]. intros. rewrite Hl. apply Hb; [done|lia].
Qed.
End refine.

(** ** Tuples and addresses *)
(** [Unmap] does not confuse 16-byte addresses. *)
Lemma Unmap_inj x y : Unmap (Addr6 x "") = Unmap (Addr6 y "") → x = y.
Proof.
  assert (∀ w, Is4In6 (Addr6 w "") = true → w = 0xffff * 2 ^ 32 + Z.land w (Z.ones 32)) as Hw.
  { intros w H. unfold Is4In6 in H. apply Z.eqb_eq in H. rewrite Z.shiftr_div_pow2 in H by lia.
    rewrite Z.land_ones by lia. pose proof (Z.div_mod w (2 ^ 32)). lia. }
  unfold Unmap. destruct (Is4In6 (Addr6 x "")) eqn:Hx, (Is4In6 (Addr6 y "")) eqn:Hy; intros H; try done.
  - injection H as H. apply Hw in Hx, Hy. lia.
  - by injection H.
Qed.

Definition val16 (a : Addr) : Z :=
  match a with AddrZ => 0 | Addr4 v => 0xffff * 2 ^ 32 + v | Addr6 v _ => v end.
Lemma As16_val16 a : addr_ok a → As16 a = be_bytes 16 (val16 a) ∧ 0 ≤ val16 a < 2 ^ 128.
Proof.
  destruct a as [|v|v z]; simpl; intros Hok; [done| |done]. rewrite mapped_4 by done. split; [done|lia].
Qed.

(** A tuple identifies a flow up to the IPv4-mapped form and the zone of its
    addresses: two flows between valid addresses have the same tuple exactly when
    protocol and ports agree and the addresses agree once unmapped, and the
    addresses read back from a tuple are the unmapped ones. *)
Theorem MakeTuple_eq p p' src dst src' dst' :
  Forall (λ a, addr_ok (ap_addr a) ∧ ap_addr a ≠ AddrZ) [src; dst; src'; dst'] →
  (MakeTuple p src dst = MakeTuple p' src' dst' ↔
   p = p' ∧ ap_port src = ap_port src' ∧ ap_port dst = ap_port dst' ∧
   Unmap (withoutZone (ap_addr src)) = Unmap (withoutZone (ap_addr src')) ∧
   Unmap (withoutZone (ap_addr dst)) = Unmap (withoutZone (ap_addr dst'))) ∧
  SrcAddr (MakeTuple p src dst) = Unmap (withoutZone (ap_addr src)) ∧
  DstAddr (MakeTuple p src dst) = Unmap (withoutZone (ap_addr dst)).
Proof.
  intros HF. repeat (apply Forall_cons in HF as [[? ?] HF]).
  assert (∀ a b, addr_ok a → a ≠ AddrZ → addr_ok b → b ≠ AddrZ →
    As16 a = As16 b ↔ Unmap (withoutZone a) = Unmap (withoutZone b)) as Hinj.
  { intros a b Ha Ha' Hb Hb'. rewrite <- !Unmap_As16 by done. split; [by intros ->|].
    intros He%Unmap_inj. destruct (As16_val16 a Ha) as [-> La], (As16_val16 b Hb) as [-> Lb].
    destruct (As16_val16 a Ha) as [Ea _], (As16_val16 b Hb) as [Eb _]. rewrite Ea, Eb in He.
    rewrite !be_val_bytes in He by (change (256 ^ Z.of_nat 16) with (2 ^ 128); lia). by rewrite He. }
  split; [|split; by apply Unmap_As16]. unfold MakeTuple. split.
  - intros [= Hs Hd Hsp Hdp ->]. split_and!; [done..| |]; by apply Hinj.
  - intros (-> & -> & -> & Hs & Hd). f_equal; by apply Hinj.
Qed.

Lemma MakeTuple_eq_witness :
  SrcAddr (MakeTuple 6 (mkAddrPort (IPv4 10 0 0 1) 80) (mkAddrPort (IPv4 10 0 0 2) 81)) = IPv4 10 0 0 1.
Proof.
  destruct (MakeTuple_eq 6 6 (mkAddrPort (IPv4 10 0 0 1) 80) (mkAddrPort (IPv4 10 0 0 2) 81)
             (mkAddrPort (IPv4 10 0 0 1) 80) (mkAddrPort (IPv4 10 0 0 2) 81)) as (_ & H & _).
  - repeat constructor; vm_compute; (discriminate || reflexivity).
  - rewrite H. reflexivity.
Defined.
