(* ===== verification/Packet.v ===== *)
(** * Packets: the decoder of the data path

    [net/packet/packet.go] and the constants of [types/ipproto/ipproto.go].
    [Decode] runs on every packet from the network, on a [Parsed] that is reused
    from packet to packet; every index and slice of the code can panic in the
    model. *)

From S2P Require Import Prelude GoStd Bytes NetIP.

(** ** ipproto *)
Definition Unknown : Z := 0x00.
Definition ICMPv4 : Z := 0x01.
Definition IGMP : Z := 0x02.
Definition ICMPv6 : Z := 0x3a.
Definition TCP : Z := 0x06.
Definition UDP : Z := 0x11.
Definition DCCP : Z := 0x21.
Definition GRE : Z := 0x2f.
Definition SCTP : Z := 0x84.
Definition TSMP : Z := 99.
Definition Fragment : Z := 0xFF.

(** ** Constants *)
Definition minFragBlks : Z := (60 + 20) / 8.
Definition ip6FragHeader : Z := 44.
Definition ip6FragHeaderLength : Z := 8.
Definition ip4HeaderLength : Z := 20.
Definition ip6HeaderLength : Z := 40.
Definition icmp4HeaderLength : Z := 4.
Definition icmp6HeaderLength : Z := 4.
Definition igmpHeaderLength : Z := 8.
Definition tcpHeaderLength : Z := 20.
Definition udpHeaderLength : Z := 8.
Definition sctpHeaderLength : Z := 12.
Definition minTSMPSize : Z := 7.

Definition TCPSyn : Z := 0x02.
Definition TCPAck : Z := 0x10.
Definition TCPSynAck : Z := Z.lor TCPSyn TCPAck.

(** ** Parsed *)
Record Parsed := mkParsed {
  pb : bytes;
  subofs : Z;
  dataofs : Z;
  plength : Z;
  IPVersion : Z;
  IPProto : Z;
  Src : AddrPort;
  Dst : AddrPort;
  TCPFlags : Z
}.
Definition zeroParsed : Parsed := mkParsed [] 0 0 0 0 0 AddrPortZ AddrPortZ 0.

Definition setBuf b (q : Parsed) := mkParsed b (subofs q) (dataofs q) (plength q) (IPVersion q) (IPProto q) (Src q) (Dst q) (TCPFlags q).
Definition setSubofs s (q : Parsed) := mkParsed (pb q) s (dataofs q) (plength q) (IPVersion q) (IPProto q) (Src q) (Dst q) (TCPFlags q).
Definition setDataofs d (q : Parsed) := mkParsed (pb q) (subofs q) d (plength q) (IPVersion q) (IPProto q) (Src q) (Dst q) (TCPFlags q).
Definition setLength l (q : Parsed) := mkParsed (pb q) (subofs q) (dataofs q) l (IPVersion q) (IPProto q) (Src q) (Dst q) (TCPFlags q).
Definition setVersion v (q : Parsed) := mkParsed (pb q) (subofs q) (dataofs q) (plength q) v (IPProto q) (Src q) (Dst q) (TCPFlags q).
Definition setProto p (q : Parsed) := mkParsed (pb q) (subofs q) (dataofs q) (plength q) (IPVersion q) p (Src q) (Dst q) (TCPFlags q).
Definition setIPs s d (q : Parsed) :=
  mkParsed (pb q) (subofs q) (dataofs q) (plength q) (IPVersion q) (IPProto q)
    (mkAddrPort s (ap_port (Src q))) (mkAddrPort d (ap_port (Dst q))) (TCPFlags q).
Definition setPorts s d (q : Parsed) :=
  mkParsed (pb q) (subofs q) (dataofs q) (plength q) (IPVersion q) (IPProto q)
    (mkAddrPort (ap_addr (Src q)) s) (mkAddrPort (ap_addr (Dst q)) d) (TCPFlags q).
Definition setFlags f (q : Parsed) := mkParsed (pb q) (subofs q) (dataofs q) (plength q) (IPVersion q) (IPProto q) (Src q) (Dst q) f.

(** ** The transport header: the switches of decode4 and decode6 *)

(** Ports, flags and data offset of a TCP header at the start of [sub]. *)
Definition decodeTCP (sub : bytes) (q : Parsed) : res () Parsed :=
  if zlen sub <? tcpHeaderLength then Ok (setProto Unknown q)
  else
    sp ← get_be 2 sub 0;
    dp ← get_be 2 sub 2;
    fl ← idx sub 13;
    b12 ← idx sub 12;
    let headerLength := Z.shiftr (Z.land b12 0xF0) 2 in
    Ok (setDataofs (subofs q + headerLength) (setFlags fl (setPorts sp dp q))).

Definition decodeUDP (sub : bytes) (q : Parsed) : res () Parsed :=
  if zlen sub <? udpHeaderLength then Ok (setProto Unknown q)
  else
    sp ← get_be 2 sub 0;
    dp ← get_be 2 sub 2;
    Ok (setDataofs (subofs q + udpHeaderLength) (setPorts sp dp q)).

Definition decodeSCTP (sub : bytes) (q : Parsed) : res () Parsed :=
  if zlen sub <? sctpHeaderLength then Ok (setProto Unknown q)
  else
    sp ← get_be 2 sub 0;
    dp ← get_be 2 sub 2;
    Ok (setPorts sp dp q).

(** ** IPv4 *)

(** The switch on the protocol of a first fragment. *)
Definition decode4Sub (sub : bytes) (moreFrags : bool) (q : Parsed) : res () Parsed :=
  if IPProto q =? ICMPv4 then
    if zlen sub <? icmp4HeaderLength then Ok (setProto Unknown q)
    else Ok (setDataofs (subofs q + icmp4HeaderLength) (setPorts 0 0 q))
  else if IPProto q =? IGMP then
    if zlen sub <? igmpHeaderLength then Ok (setProto Unknown q) else Ok q
  else if IPProto q =? TCP then decodeTCP sub q
  else if IPProto q =? UDP then decodeUDP sub q
  else if IPProto q =? SCTP then decodeSCTP sub q
  else if IPProto q =? TSMP then
    if moreFrags then Ok (setProto Unknown q)
    else if zlen sub <? minTSMPSize then Ok (setProto Unknown q)
    else Ok (setDataofs (subofs q) q)
  else if IPProto q =? Fragment then Ok (setProto Unknown q)
  else Ok q.

Definition decode4 (b : bytes) (q : Parsed) : res () Parsed :=
  if zlen b <? ip4HeaderLength then Ok (setProto Unknown (setVersion 0 q))
  else
    proto ← idx b 9;
    len ← get_be 2 b 2;
    let q := setLength len (setProto proto q) in
    if zlen b <? plength q then Ok (setProto Unknown q)
    else
      src ← slice b 12 16;
      dst ← slice b 16 20;
      let q := setIPs (AddrFrom4 src) (AddrFrom4 dst) q in
      b0 ← idx b 0;
      let q := setSubofs (u8 (Z.shiftl (Z.land b0 0x0F) 2)) q in
      if plength q <? subofs q then Ok (setProto Unknown q)
      else
        sub ← slice_from b (subofs q);
        fragFlags ← get_be 2 b 6;
        let moreFrags := negb (Z.land fragFlags 0x2000 =? 0) in
        let fragOfs := Z.land fragFlags 0x1FFF in
        if fragOfs =? 0 then
          decode4Sub sub moreFrags q
        else if fragOfs <? minFragBlks then Ok (setProto Unknown q)
        else Ok (setProto Fragment q).

(** ** IPv6 *)

(** [decode6Fragment]: whether to continue, and the state. *)
Definition decode6Fragment (b : bytes) (q : Parsed) : res () (bool * Parsed) :=
  if zlen b <? subofs q + ip6FragHeaderLength then Ok (false, setProto Unknown q)
  else
    frag ← slice_from b (subofs q);
    nextHdr ← idx frag 0;
    fo ← get_be 2 frag 2;
    let fragOfs := Z.shiftr fo 3 in
    let q := setSubofs (subofs q + ip6FragHeaderLength) q in
    if fragOfs =? 0 then Ok (true, setProto nextHdr q)
    else if fragOfs <? minFragBlks then Ok (false, setProto Unknown q)
    else Ok (false, setProto Fragment q).

Definition decode6Sub (b : bytes) (q : Parsed) : res () Parsed :=
  sub ← slice_from b (subofs q);
  if IPProto q =? ICMPv6 then
    if zlen sub <? icmp6HeaderLength then Ok (setProto Unknown q)
    else Ok (setDataofs (subofs q + icmp6HeaderLength) (setPorts 0 0 q))
  else if IPProto q =? TCP then decodeTCP sub q
  else if IPProto q =? UDP then decodeUDP sub q
  else if IPProto q =? SCTP then decodeSCTP sub q
  else if IPProto q =? TSMP then
    if zlen sub <? minTSMPSize then Ok (setProto Unknown q) else Ok (setDataofs (subofs q) q)
  else if IPProto q =? Fragment then Ok (setProto Unknown q)
  else Ok q.

Definition decode6 (b : bytes) (q : Parsed) : res () Parsed :=
  if zlen b <? ip6HeaderLength then Ok (setProto Unknown (setVersion 0 q))
  else
    proto ← idx b 6;
    len ← get_be 2 b 4;
    let q := setLength (len + ip6HeaderLength) (setProto proto q) in
    if zlen b <? plength q then Ok (setProto Unknown q)
    else
      src ← slice b 8 24;
      dst ← slice b 24 40;
      let q := setSubofs 40 (setIPs (AddrFrom16 src) (AddrFrom16 dst) q) in
      if IPProto q =? ip6FragHeader then
        cq ← decode6Fragment b q;
        if cq.1 : bool then decode6Sub b cq.2 else Ok cq.2
      else decode6Sub b q.

(** ** Decode *)
Definition Decode (b : bytes) (q : Parsed) : res () Parsed :=
  let q := setBuf b q in
  if zlen b <? 1 then Ok (setProto Unknown (setVersion 0 q))
  else
    b0 ← idx b 0;
    let v := Z.shiftr b0 4 in
    let q := setVersion v q in
    if v =? 4 then decode4 b q
    else if v =? 6 then decode6 b q
    else Ok (setProto Unknown (setVersion 0 q)).

(** ** Accessors *)
Definition Payload (q : Parsed) : res () bytes :=
  if (zlen (pb q) <? plength q) || (zlen (pb q) <? dataofs q) then Ok []
  else slice (pb q) (dataofs q) (plength q).
Definition Transport (q : Parsed) : res () bytes := slice_from (pb q) (subofs q).
Definition IsTCPSyn (q : Parsed) : bool := Z.land (TCPFlags q) TCPSynAck =? TCPSyn.

Definition ICMP4EchoReply : Z := 0x00.
Definition ICMP4EchoRequest : Z := 0x08.
Definition ICMP4Unreachable : Z := 0x03.
Definition ICMP4TimeExceeded : Z := 0x0b.
Definition ICMP4ParamProblem : Z := 0x12.
Definition ICMP6Unreachable : Z := 1.
Definition ICMP6PacketTooBig : Z := 2.
Definition ICMP6TimeExceeded : Z := 3.
Definition ICMP6ParamProblem : Z := 4.
Definition ICMP6EchoRequest : Z := 128.
Definition ICMP6EchoReply : Z := 129.

(** Type and code of the ICMP message, once the length is known to be enough. *)
Definition IsError (q : Parsed) : res () bool :=
  if IPProto q =? ICMPv4 then
    if zlen (pb q) <? subofs q + 8 then Ok false
    else t ← idx (pb q) (subofs q);
         Ok ((t =? ICMP4Unreachable) || (t =? ICMP4TimeExceeded) || (t =? ICMP4ParamProblem))
  else if IPProto q =? ICMPv6 then
    if zlen (pb q) <? subofs q + 8 then Ok false
    else t ← idx (pb q) (subofs q);
         Ok ((t =? ICMP6Unreachable) || (t =? ICMP6PacketTooBig) || (t =? ICMP6TimeExceeded)
             || (t =? ICMP6ParamProblem))
  else Ok false.

Definition isEcho (ty4 ty6 : Z) (q : Parsed) : res () bool :=
  if (IPProto q =? ICMPv4) || (IPProto q =? ICMPv6) then
    if zlen (pb q) <? subofs q + 8 then Ok false
    else t ← idx (pb q) (subofs q);
         if t =? (if IPProto q =? ICMPv4 then ty4 else ty6) then
           c ← idx (pb q) (subofs q + 1); Ok (c =? 0)
         else Ok false
  else Ok false.
Definition IsEchoRequest : Parsed → res () bool := isEcho ICMP4EchoRequest ICMP6EchoRequest.
Definition IsEchoResponse : Parsed → res () bool := isEcho ICMP4EchoReply ICMP6EchoReply.

Definition EchoIDSeq (q : Parsed) : res () Z :=
  let go (offset : Z) :=
    if zlen (pb q) <? offset + 4 then Ok 0
    else s ← slice (pb q) offset (offset + 4); Ok (le_val s) in
  if IPProto q =? ICMPv4 then go (ip4HeaderLength + icmp4HeaderLength)
  else if IPProto q =? ICMPv6 then go (ip6HeaderLength + icmp6HeaderLength)
  else Ok 0.
