(* ===== verification/PacketThms.v ===== *)
(** * Packets: properties of the decoder

    [Decode] is total (no input makes it panic), what it reports does not depend
    on the packet decoded before into the same [Parsed], and short or overlapping
    fragments never pass as a transport protocol. *)

From S2P Require Import Prelude GoStd Bytes NetIP Packet.

(** Evaluate the field accesses of [Parsed]. *)
Ltac psimpl :=
  cbn [pb subofs dataofs plength IPVersion IPProto Src Dst TCPFlags
       setBuf setSubofs setDataofs setLength setVersion setProto setIPs setPorts setFlags
       ap_addr ap_port fst snd] in *.

(** ** Totality *)

(** What a decoded packet guarantees. *)
Record Decoded (b : bytes) (q : Parsed) : Prop := mkDecoded {
  d_buf : pb q = b;
  d_version : IPVersion q = 0 ∨ IPVersion q = 4 ∨ IPVersion q = 6;
  d_known : IPVersion q = 0 → IPProto q = Unknown;
  d_offsets : IPProto q ≠ Unknown → 0 ≤ subofs q ≤ zlen b ∧ 0 ≤ plength q ≤ zlen b;
  d_family : IPProto q ≠ Unknown →
    (IPVersion q = 4 → Is4 (ap_addr (Src q)) = true ∧ Is4 (ap_addr (Dst q)) = true) ∧
    (IPVersion q = 6 → (Is6 (ap_addr (Src q)) = true ∧ hasZone (ap_addr (Src q)) = false) ∧
                       (Is6 (ap_addr (Dst q)) = true ∧ hasZone (ap_addr (Dst q)) = false))
}.

(** The transport decoders change nothing but the protocol, ports, flags and data
    offset. *)
Definition transportOnly (q q' : Parsed) : Prop :=
  pb q' = pb q ∧ subofs q' = subofs q ∧ plength q' = plength q ∧ IPVersion q' = IPVersion q ∧
  ap_addr (Src q') = ap_addr (Src q) ∧ ap_addr (Dst q') = ap_addr (Dst q) ∧
  (IPProto q' = Unknown ∨ IPProto q' = IPProto q).

Ltac bounds_ltb :=
  repeat match goal with
  | H : (_ <? _) = true |- _ => apply Z.ltb_lt in H
  | H : (_ <? _) = false |- _ => apply Z.ltb_ge in H
  end.

(** Read the bytes a decoder needs, given enough of them. *)
Ltac read_step :=
  match goal with
  | |- ∃ _, (@get_be ?E ?n ?b ?i ≫= _) = _ ∧ _ =>
      let v := fresh "v" in let Hv := fresh "Hv" in
      destruct (get_be_ok (E := E) n b i) as (v & -> & Hv);
        [done|lia|cbn [Z.of_nat Pos.of_succ_nat] in *; lia|]; cbn [mbind res_bind]
  | |- ∃ _, (@idx ?E Z ?b ?i ≫= _) = _ ∧ _ =>
      let v := fresh "v" in let Hv := fresh "Hv" in
      destruct (idx_ok (E := E) b i) as (v & -> & Hv); [lia|]; cbn [mbind res_bind]
  end.

Lemma decodeTCP_total sub q : bytes_ok sub → ∃ q', decodeTCP sub q = Ok q' ∧ transportOnly q q'.
Proof.
  intros Hb. unfold decodeTCP, tcpHeaderLength.
  destruct (zlen sub <? 20) eqn:Hl; bounds_ltb; [eexists; split; [done|]|repeat read_step; eexists; split; [done|]];
    unfold transportOnly; psimpl; tauto.
Qed.
Lemma decodeUDP_total sub q : bytes_ok sub → ∃ q', decodeUDP sub q = Ok q' ∧ transportOnly q q'.
Proof.
  intros Hb. unfold decodeUDP, udpHeaderLength.
  destruct (zlen sub <? 8) eqn:Hl; bounds_ltb; [eexists; split; [done|]|repeat read_step; eexists; split; [done|]];
    unfold transportOnly; psimpl; tauto.
Qed.
Lemma decodeSCTP_total sub q : bytes_ok sub → ∃ q', decodeSCTP sub q = Ok q' ∧ transportOnly q q'.
Proof.
  intros Hb. unfold decodeSCTP, sctpHeaderLength.
  destruct (zlen sub <? 12) eqn:Hl; bounds_ltb; [eexists; split; [done|]|repeat read_step; eexists; split; [done|]];
    unfold transportOnly; psimpl; tauto.
Qed.

Lemma transportOnly_refl q : transportOnly q q.
Proof. unfold transportOnly. tauto. Qed.
#[local] Hint Resolve decodeTCP_total decodeUDP_total decodeSCTP_total : core.

Ltac transport_done := eexists; split; [reflexivity|]; unfold transportOnly; psimpl; tauto.

Lemma decode4Sub_total sub mf q : bytes_ok sub → ∃ q', decode4Sub sub mf q = Ok q' ∧ transportOnly q q'.
Proof.
  intros Hb. unfold decode4Sub.
  repeat (match goal with |- context [if ?c then _ else _] => destruct c end); auto; transport_done.
Qed.

Lemma decode6Sub_total b q :
  bytes_ok b → 0 ≤ subofs q ≤ zlen b → ∃ q', decode6Sub b q = Ok q' ∧ transportOnly q q'.
Proof.
  intros Hb Hs. unfold decode6Sub. destruct (slice_from_ok (E := ()) b (subofs q) Hs) as (sub & -> & _ & ->).
  cbn [mbind res_bind]. assert (bytes_ok (drop (Z.to_nat (subofs q)) b)) by by apply Forall_drop.
  repeat (match goal with |- context [if ?c then _ else _] => destruct c end); auto; transport_done.
Qed.

Lemma decoded_transport b q q' :
  Decoded b q → transportOnly q q' → Decoded b q'.
Proof.
  intros [Hb Hv Hk Ho Hf] (E1 & E2 & E3 & E4 & E5 & E6 & E7). split; rewrite ?E1, ?E2, ?E3, ?E4, ?E5, ?E6; try done.
  - intros H0. destruct E7 as [|E7]; [done|]. rewrite E7. by apply Hk.
  - intros Hn. destruct E7 as [E7|E7]; [by rewrite E7 in Hn|]. apply Ho. by rewrite <- E7.
  - intros Hn. destruct E7 as [E7|E7]; [by rewrite E7 in Hn|]. apply Hf. by rewrite <- E7.
Qed.

Lemma decode4_total b q :
  bytes_ok b → pb q = b → IPVersion q = 4 → ∃ q', decode4 b q = Ok q' ∧ Decoded b q'.
Proof.
  intros Hb Hp Hv. unfold decode4, ip4HeaderLength.
  destruct (zlen b <? 20) eqn:Hl; bounds_ltb.
  { eexists. split; [done|]. split; psimpl; auto; done. }
  read_step. read_step. psimpl.
  destruct (zlen b <? v0) eqn:Hl2; bounds_ltb.
  { eexists. split; [done|]. split; psimpl; auto; try done; rewrite Hv; auto. }
  destruct (slice_ok (E := ()) b 12 16) as (s & -> & _ & _); [lia..|]. cbn [mbind res_bind].
  destruct (slice_ok (E := ()) b 16 20) as (d & -> & _ & _); [lia..|]. cbn [mbind res_bind].
  read_step. psimpl. set (so := u8 _).
  assert (0 ≤ so < 256) as Hso by (apply (uN_range 8); lia).
  destruct (v0 <? so) eqn:Hl3; bounds_ltb.
  { eexists. split; [done|]. split; psimpl; auto; try done; rewrite Hv; auto. }
  destruct (slice_from_ok (E := ()) b so) as (sub & -> & _ & ->); [lia|]. cbn [mbind res_bind].
  read_step. set (q1 := setSubofs so _).
  assert (Decoded b q1) as HD by (split; unfold q1; psimpl; rewrite ?Hv; auto; lia || done).
  destruct (_ =? 0).
  - destruct (decode4Sub_total (drop (Z.to_nat so) b) (negb (Z.land v2 8192 =? 0)) q1) as (q' & -> & Ht);
      [by apply Forall_drop|]. exists q'. split; [done|]. by eapply decoded_transport.
  - destruct HD as [H1 H2 H3 H4 H5].
    destruct (_ <? minFragBlks); (eexists; split; [done|]); split; unfold q1 in *; psimpl; rewrite ?Hv; auto;
      try done; intros _; (split; lia) || (split; done).
Qed.

Lemma decode6Fragment_total b q :
  bytes_ok b → Decoded b q → subofs q = 40 → IPVersion q = 6 →
  IPProto q ≠ Unknown →
  ∃ cq, decode6Fragment b q = Ok cq ∧ Decoded b cq.2 ∧ (cq.1 = true → 0 ≤ subofs cq.2 ≤ zlen b).
Proof.
  intros Hb [Hp Hv Hk Ho Hf] Hs H6 Hn. unfold decode6Fragment, ip6FragHeaderLength.
  destruct (Ho Hn) as [Ho1 Ho2]. destruct (Hf Hn) as [_ Hf6].
  destruct (zlen b <? subofs q + 8) eqn:Hl; bounds_ltb.
  { eexists. split; [done|]. split; [|done]. split; psimpl; auto; try done. }
  destruct (slice_from_ok (E := ()) b (subofs q) Ho1) as (frag & -> & Hlf & ->). cbn [mbind res_bind].
  assert (bytes_ok (drop (Z.to_nat (subofs q)) b)) by by apply Forall_drop.
  read_step. read_step. psimpl.
  repeat (match goal with |- context [if ?c then _ else _] => destruct c end);
    (eexists; split; [done|]); (split; [split|]); psimpl; auto; try done; intros; try lia;
    rewrite ?H6 in *; (split; lia) || (split; done) || done.
Qed.

Lemma decode6_total b q :
  bytes_ok b → pb q = b → IPVersion q = 6 → ∃ q', decode6 b q = Ok q' ∧ Decoded b q'.
Proof.
  intros Hb Hp Hv. unfold decode6, ip6HeaderLength.
  destruct (zlen b <? 40) eqn:Hl; bounds_ltb.
  { eexists. split; [done|]. split; psimpl; auto; done. }
  read_step. read_step. psimpl.
  destruct (zlen b <? v0 + 40) eqn:Hl2; bounds_ltb.
  { eexists. split; [done|]. split; psimpl; auto; try done; rewrite Hv; auto. }
  destruct (slice_ok (E := ()) b 8 24) as (s & -> & _ & _); [lia..|]. cbn [mbind res_bind].
  destruct (slice_ok (E := ()) b 24 40) as (d & -> & _ & _); [lia..|]. cbn [mbind res_bind].
  set (q1 := setSubofs 40 _).
  assert (Decoded b q1) as HD by (split; unfold q1; psimpl; rewrite ?Hv; auto; lia || done).
  change (IPProto (setSubofs _ _)) with v. destruct (v =? ip6FragHeader) eqn:Hfr.
  - apply Z.eqb_eq in Hfr. destruct (decode6Fragment_total b q1 Hb HD) as ([c q2] & -> & HD2 & Hcont);
      [done|done|unfold q1; psimpl; rewrite Hfr; discriminate|]. cbn [mbind res_bind]. psimpl.
    destruct c; [|exists q2; by split].
    destruct (decode6Sub_total b q2 Hb (Hcont eq_refl)) as (q' & -> & Ht). exists q'. split; [done|].
    by eapply decoded_transport.
  - destruct (decode6Sub_total b q1 Hb) as (q' & -> & Ht); [unfold q1; psimpl; lia|]. exists q'.
    split; [done|]. by eapply decoded_transport.
Qed.

(** The addresses of a packet with a protocol are of their width. *)
Definition addrsOk (q : Parsed) : Prop := IPProto q ≠ Unknown → addr_ok (ap_addr (Src q)) ∧ addr_ok (ap_addr (Dst q)).

Lemma addrsOk_unknown q : IPProto q = Unknown → addrsOk q.
Proof. by intros E Hn. Qed.

Lemma AddrFrom4_ok (b : bytes) : bytes_ok b → zlen b = 4 → addr_ok (AddrFrom4 b).
Proof. intros Hb Hl. pose proof (be_val_bound b Hb) as Hv. by rewrite Hl in Hv. Qed.
Lemma AddrFrom16_ok (b : bytes) : bytes_ok b → zlen b = 16 → addr_ok (AddrFrom16 b).
Proof. intros Hb Hl. pose proof (be_val_bound b Hb) as Hv. by rewrite Hl in Hv. Qed.

Lemma slice_octets {E} (b : bytes) i j :
  bytes_ok b → 0 ≤ i ≤ j → j ≤ zlen b → ∃ s, @slice E _ b i j = Ok s ∧ bytes_ok s ∧ zlen s = j - i.
Proof.
  intros Hb Hi Hj. destruct (slice_ok (E := E) b i j Hi Hj) as (s & Hs & Hl & _). exists s.
  split; [done|]. split; [by eapply slice_bytes|done].
Qed.
Lemma addrsOk_transport q q' : addrsOk q → transportOnly q q' → addrsOk q'.
Proof.
  unfold addrsOk. intros H (_ & _ & _ & _ & -> & -> & [E|E]) Hn; [by rewrite E in Hn|]. apply H. by rewrite <- E.
Qed.

Lemma decode4_addrs b q q' : bytes_ok b → decode4 b q = Ok q' → addrsOk q'.
Proof.
  intros Hb. unfold decode4, ip4HeaderLength. destruct (zlen b <? 20) eqn:Hl; bounds_ltb; [intros [= <-]; by apply addrsOk_unknown|].
  intros (proto & _ & H)%bind_ok. apply bind_ok in H as (len & _ & H).
  destruct (_ <? _); [injection H as <-; by apply addrsOk_unknown|].
  destruct (slice_octets (E := ()) b 12 16 Hb) as (s & Es & Hs & Ls); [lia..|]. rewrite Es, bind_ret in H.
  destruct (slice_octets (E := ()) b 16 20 Hb) as (d & Ed & Hd & Ld); [lia..|]. rewrite Ed, bind_ret in H.
  apply bind_ok in H as (b0 & _ & H). destruct (_ <? _); [injection H as <-; by apply addrsOk_unknown|].
  apply bind_ok in H as (sub & Hsub & H). apply bind_ok in H as (ff & _ & H).
  set (q1 := setSubofs _ _) in *. assert (addrsOk q1) as HA by (intros _; split; [apply AddrFrom4_ok|apply AddrFrom4_ok]; done).
  assert (∀ p, addrsOk (setProto p q1)) as HA' by (intros p _; by apply (conj (AddrFrom4_ok s Hs Ls) (AddrFrom4_ok d Hd Ld))).
  destruct (_ =? 0).
  - assert (bytes_ok sub) as Hbs by exact (slice_bytes _ _ _ _ Hb Hsub).
    destruct (decode4Sub_total sub (negb (Z.land ff 8192 =? 0)) q1 Hbs) as (q2 & E & Ht). rewrite E in H. injection H as <-.
    by eapply addrsOk_transport.
  - destruct (_ <? _); injection H as <-; apply HA'.
Qed.

Lemma decode6Sub_only b q q' : bytes_ok b → decode6Sub b q = Ok q' → transportOnly q q'.
Proof.
  intros Hb. unfold decode6Sub. intros (sub & Hsub & H)%bind_ok. pose proof (slice_bytes _ _ _ _ Hb Hsub) as Hs.
  assert (∀ m : res () Parsed, (∃ q1, m = Ok q1 ∧ transportOnly q q1) → m = Ok q' → transportOnly q q') as Hd
    by (intros m (q1 & -> & Ht); congruence).
  revert H. apply Hd.
  repeat (match goal with |- context [if ?c then _ else _] => destruct c end); auto; transport_done.
Qed.

Lemma decode6_addrs b q q' : bytes_ok b → decode6 b q = Ok q' → addrsOk q'.
Proof.
  intros Hb. unfold decode6, ip6HeaderLength. destruct (zlen b <? 40) eqn:Hl; bounds_ltb; [intros [= <-]; by apply addrsOk_unknown|].
  intros (proto & _ & H)%bind_ok. apply bind_ok in H as (len & _ & H).
  destruct (_ <? _); [injection H as <-; by apply addrsOk_unknown|].
  destruct (slice_octets (E := ()) b 8 24 Hb) as (s & Es & Hs & Ls); [lia..|]. rewrite Es, bind_ret in H.
  destruct (slice_octets (E := ()) b 24 40 Hb) as (d & Ed & Hd & Ld); [lia..|]. rewrite Ed, bind_ret in H.
  set (q1 := setSubofs 40 _) in *.
  assert (∀ q2, ap_addr (Src q2) = ap_addr (Src q1) → ap_addr (Dst q2) = ap_addr (Dst q1) → addrsOk q2) as HA.
  { intros q2 E1 E2 _. rewrite E1, E2. exact (conj (AddrFrom16_ok s Hs Ls) (AddrFrom16_ok d Hd Ld)). }
  destruct (_ =? _).
  - apply bind_ok in H as ([c q2] & Hf & H). assert (ap_addr (Src q2) = ap_addr (Src q1) ∧ ap_addr (Dst q2) = ap_addr (Dst q1)) as [E1 E2].
    { unfold decode6Fragment in Hf. destruct (_ <? _); [by injection Hf as <- <-|].
      apply bind_ok in Hf as (fr & _ & Hf). apply bind_ok in Hf as (nh & _ & Hf). apply bind_ok in Hf as (fo & _ & Hf).
      destruct (_ =? 0); [by injection Hf as <- <-|]. destruct (_ <? _); by injection Hf as <- <-. }
    destruct c; [|injection H as <-; by apply HA]. apply decode6Sub_only in H; [|done].
    eapply addrsOk_transport; [|exact H]. by apply HA.
  - apply decode6Sub_only in H; [|done]. eapply addrsOk_transport; [|exact H]. by apply HA.
Qed.

Lemma Decode_addrs b q q' : bytes_ok b → Decode b q = Ok q' → addrsOk q'.
Proof.
  intros Hb. unfold Decode. destruct (zlen b <? 1) eqn:Hl; bounds_ltb; [intros [= <-]; by apply addrsOk_unknown|].
  intros (v & _ & H)%bind_ok. destruct (_ =? 4); [by eapply decode4_addrs|].
  destruct (_ =? 6); [by eapply decode6_addrs|]. injection H as <-. by apply addrsOk_unknown.
Qed.

Lemma Decode_decoded b q : bytes_ok b → ∃ q', Decode b q = Ok q' ∧ Decoded b q'.
Proof.
  intros Hb. unfold Decode. destruct (zlen b <? 1) eqn:Hl; bounds_ltb.
  { eexists. split; [done|]. split; psimpl; auto; done. }
  read_step. psimpl.
  destruct (Z.eqb_spec (Z.shiftr v 4) 4); [by apply decode4_total|].
  destruct (Z.eqb_spec (Z.shiftr v 4) 6); [by apply decode6_total|].
  eexists. split; [done|]. split; psimpl; auto; done.
Qed.

(** The accessors the data path calls on a decoded packet. *)
Lemma isEcho_total b q t4 t6 : Decoded b q → ∃ r, isEcho t4 t6 q = Ok r.
Proof.
  intros [Hp _ _ Ho _]. unfold isEcho. rewrite Hp.
  destruct (_ || _) eqn:Hi; [|by eexists]. assert (IPProto q ≠ Unknown) as Hn.
  { intros H0. by rewrite H0 in Hi. }
  destruct (Ho Hn) as [Hs _]. destruct (_ <? _) eqn:Hl; bounds_ltb; [by eexists|].
  destruct (idx_ok (E := ()) b (subofs q)) as (t & -> & _); [lia|]. cbn [mbind res_bind].
  destruct (t =? _); [|by eexists].
  destruct (idx_ok (E := ()) b (subofs q + 1)) as (c & -> & _); [lia|]. by eexists.
Qed.

Lemma IsError_total b q : Decoded b q → ∃ r, IsError q = Ok r.
Proof.
  intros [Hp _ _ Ho _]. unfold IsError. rewrite Hp.
  destruct (IPProto q =? ICMPv4) eqn:H4; [|destruct (IPProto q =? ICMPv6) eqn:H6; [|by eexists]].
  all: match goal with H : (IPProto _ =? _) = true |- _ =>
         assert (IPProto q ≠ Unknown) as Hn by (apply Z.eqb_eq in H; rewrite H; discriminate) end.
  all: destruct (Ho Hn) as [Hs _]; destruct (_ <? _) eqn:Hl; bounds_ltb; [by eexists|].
  all: destruct (idx_ok (E := ()) b (subofs q)) as (t & -> & _); [lia|by eexists].
Qed.

Lemma EchoIDSeq_total p : ∃ i, EchoIDSeq p = Ok i.
Proof.
  unfold EchoIDSeq. assert (∀ o, 0 ≤ o → ∃ i, (if zlen (pb p) <? o + 4 then Ok 0 else s ← slice (pb p) o (o + 4); Ok (le_val s)) = @Ok () _ i) as Hgo.
  { intros o Ho. destruct (Z.ltb_spec (zlen (pb p)) (o + 4)); [by eexists|].
    destruct (slice_ok (E := ()) (pb p) o (o + 4)) as (x & -> & _); [lia|lia|]. rewrite bind_ret. by eexists. }
  destruct (_ =? ICMPv4); [by apply Hgo|]. destruct (_ =? ICMPv6); [by apply Hgo|by eexists].
Qed.

(** Decoding is total: whatever the bytes and whatever an earlier packet left
    in the [Parsed], [Decode] does not panic; the result names a version of 0, 4
    or 6, a known protocol only with an address family that matches the version
    and with offset and length inside the buffer; and the ICMP tests, the echo
    identifier and, for a known protocol, the transport view of the result do not
    panic either. *)
Theorem Decode_total b q :
  bytes_ok b →
  ∃ q', Decode b q = Ok q' ∧ Decoded b q' ∧
    (∃ r, IsEchoRequest q' = Ok r) ∧ (∃ r, IsEchoResponse q' = Ok r) ∧ (∃ r, IsError q' = Ok r) ∧
    (∃ r, EchoIDSeq q' = Ok r) ∧ (IPProto q' ≠ Unknown → ∃ r, Transport q' = Ok r).
Proof.
  intros Hb. destruct (Decode_decoded b q Hb) as (q' & He & HD). exists q'. split; [done|]. split; [done|].
  split_and!; eauto using isEcho_total, IsError_total, EchoIDSeq_total.
  intros Hn. destruct HD as [Hp _ _ Ho _]. destruct (Ho Hn) as [Hs _].
  unfold Transport. rewrite Hp.
  destruct (slice_from_ok (E := ()) b (subofs q') Hs) as (s & -> & _). by eexists.
Qed.


(** ** Independence from the previous packet *)
Definition hasPorts (q : Parsed) : Prop :=
  IPProto q = TCP ∨ IPProto q = UDP ∨ IPProto q = SCTP ∨
  (IPVersion q = 4 ∧ IPProto q = ICMPv4) ∨ (IPVersion q = 6 ∧ IPProto q = ICMPv6).
Definition hasPayload (q : Parsed) : Prop :=
  IPProto q = TCP ∨ IPProto q = UDP ∨ IPProto q = TSMP ∨
  (IPVersion q = 4 ∧ IPProto q = ICMPv4) ∨ (IPVersion q = 6 ∧ IPProto q = ICMPv6).

(** Agreement of two results on everything the fields' documentation calls valid. *)
Definition agree (r1 r2 : Parsed) : Prop :=
  pb r1 = pb r2 ∧ IPVersion r1 = IPVersion r2 ∧ IPProto r1 = IPProto r2 ∧
  (IPProto r1 ≠ Unknown → subofs r1 = subofs r2 ∧ plength r1 = plength r2 ∧
     ap_addr (Src r1) = ap_addr (Src r2) ∧ ap_addr (Dst r1) = ap_addr (Dst r2)) ∧
  (hasPorts r1 → Src r1 = Src r2 ∧ Dst r1 = Dst r2) ∧
  (IPProto r1 = TCP → TCPFlags r1 = TCPFlags r2) ∧
  (hasPayload r1 → dataofs r1 = dataofs r2).

(** Agreement before the transport header has been read. *)
Definition agreeNet (q1 q2 : Parsed) : Prop :=
  pb q1 = pb q2 ∧ subofs q1 = subofs q2 ∧ plength q1 = plength q2 ∧ IPVersion q1 = IPVersion q2 ∧
  IPProto q1 = IPProto q2 ∧ ap_addr (Src q1) = ap_addr (Src q2) ∧ ap_addr (Dst q1) = ap_addr (Dst q2).

(** Follow two runs of the same decoder through the same tests and reads. *)
Ltac run_both :=
  repeat (match goal with
  | H : (if ?c then _ else _) = Ok _ |- _ => let E := fresh "E" in destruct c eqn:E
  | H : (?m ≫= _) = Ok _ |- _ =>
      lazymatch m with decode6Fragment _ _ => fail | _ => idtac end;
      let E := fresh "E" in destruct m eqn:E; cbn [mbind res_bind] in *; [|discriminate..]
  | H : Ok _ = Ok _ |- _ => injection H as <-
  end; psimpl).

Ltac eqb_all :=
  repeat match goal with
  | H : (_ =? _) = true |- _ => apply Z.eqb_eq in H
  | H : (_ =? _) = false |- _ => apply Z.eqb_neq in H
  end.

Ltac agree_done :=
  unfold agree, agreeNet, hasPorts, hasPayload in *; psimpl; eqb_all;
  unfold Unknown, ICMPv4, IGMP, ICMPv6, TCP, UDP, SCTP, TSMP, Fragment in *;
  intuition (try congruence; try (f_equal; congruence); try lia).

Lemma agree_unknown q1 q2 : agreeNet q1 q2 → agree (setProto Unknown q1) (setProto Unknown q2).
Proof. intros H. agree_done. Qed.

Lemma decodeTCP_agree sub q1 q2 r1 r2 :
  agreeNet q1 q2 → IPProto q1 = TCP → decodeTCP sub q1 = Ok r1 → decodeTCP sub q2 = Ok r2 → agree r1 r2.
Proof. intros Hn Hp H1 H2. unfold decodeTCP in *. run_both; [by apply agree_unknown|agree_done]. Qed.
Lemma decodeUDP_agree sub q1 q2 r1 r2 :
  agreeNet q1 q2 → IPProto q1 = UDP → decodeUDP sub q1 = Ok r1 → decodeUDP sub q2 = Ok r2 → agree r1 r2.
Proof. intros Hn Hp H1 H2. unfold decodeUDP in *. run_both; [by apply agree_unknown|agree_done]. Qed.
Lemma decodeSCTP_agree sub q1 q2 r1 r2 :
  agreeNet q1 q2 → IPProto q1 = SCTP → decodeSCTP sub q1 = Ok r1 → decodeSCTP sub q2 = Ok r2 → agree r1 r2.
Proof. intros Hn Hp H1 H2. unfold decodeSCTP in *. run_both; [by apply agree_unknown|agree_done]. Qed.

(** The protocol number selects the same branch in both runs. *)
Ltac split_proto :=
  repeat match goal with
  | |- context [IPProto ?q =? ?p] => destruct (Z.eqb_spec (IPProto q) p) as [?|?]
  end.

Lemma decode4Sub_agree sub mf q1 q2 r1 r2 :
  agreeNet q1 q2 → IPVersion q1 = 4 →
  decode4Sub sub mf q1 = Ok r1 → decode4Sub sub mf q2 = Ok r2 → agree r1 r2.
Proof.
  intros Hn Hv. assert (IPProto q1 = IPProto q2 ∧ subofs q1 = subofs q2) as [Hp Hs] by (unfold agreeNet in Hn; tauto).
  unfold decode4Sub. rewrite <- Hp, <- Hs. split_proto; intros H1 H2;
    eauto using decodeTCP_agree, decodeUDP_agree, decodeSCTP_agree;
    run_both; try (by apply agree_unknown); solve [agree_done].
Qed.

Lemma decode6Sub_agree b q1 q2 r1 r2 :
  agreeNet q1 q2 → IPVersion q1 = 6 →
  decode6Sub b q1 = Ok r1 → decode6Sub b q2 = Ok r2 → agree r1 r2.
Proof.
  intros Hn Hv. assert (IPProto q1 = IPProto q2 ∧ subofs q1 = subofs q2) as [Hp Hs] by (unfold agreeNet in Hn; tauto).
  unfold decode6Sub. rewrite <- Hp, <- Hs. destruct (slice_from b (subofs q1)); [|done..]. cbn [mbind res_bind].
  split_proto; intros H1 H2;
    eauto using decodeTCP_agree, decodeUDP_agree, decodeSCTP_agree;
    run_both; try (by apply agree_unknown); solve [agree_done].
Qed.

Lemma decode4_agree b q1 q2 r1 r2 :
  pb q1 = pb q2 → IPVersion q1 = 4 → IPVersion q2 = 4 →
  decode4 b q1 = Ok r1 → decode4 b q2 = Ok r2 → agree r1 r2.
Proof.
  intros Hb Hv1 Hv2. unfold decode4. intros H1 H2. run_both; try solve [agree_done].
  all: eapply decode4Sub_agree; [| |eassumption|eassumption]; [solve [agree_done]|done].
Qed.

Lemma decode6Fragment_agree b q1 q2 c1 c2 r1 r2 :
  decode6Fragment b q1 = Ok (c1, r1) → decode6Fragment b q2 = Ok (c2, r2) → agreeNet q1 q2 →
  c1 = c2 ∧ IPVersion r1 = IPVersion q1 ∧ (c1 = true → agreeNet r1 r2) ∧ (c1 = false → agree r1 r2).
Proof.
  intros H1 H2 Hn. assert (subofs q1 = subofs q2) as Hs by apply Hn.
  unfold decode6Fragment in *. rewrite <- Hs in H2. run_both; simplify_eq; psimpl; (split; [done|split; [done|]]); (split; [done|intros _]) || (split; [intros _|done]);
    agree_done.
Qed.

Lemma decode6_agree b q1 q2 r1 r2 :
  pb q1 = pb q2 → IPVersion q1 = 6 → IPVersion q2 = 6 →
  decode6 b q1 = Ok r1 → decode6 b q2 = Ok r2 → agree r1 r2.
Proof.
  intros Hb Hv1 Hv2. unfold decode6. intros H1 H2. run_both; try solve [agree_done].
  - apply bind_ok in H1 as ([c1 s1] & F1 & H1). apply bind_ok in H2 as ([c2 s2] & F2 & H2). psimpl.
    destruct (decode6Fragment_agree _ _ _ _ _ _ _ F1 F2) as (<- & Hv & Ht & Hf); [solve [agree_done]|].
    psimpl. destruct c1; [|injection H1 as <-; injection H2 as <-; by apply Hf].
    eapply decode6Sub_agree; [by apply Ht|by rewrite Hv|eassumption..].
  - eapply decode6Sub_agree; [| |eassumption|eassumption]; [solve [agree_done]|done].
Qed.

Lemma Decode_agree b q1 q2 r1 r2 :
  Decode b q1 = Ok r1 → Decode b q2 = Ok r2 → agree r1 r2.
Proof.
  unfold Decode. intros H1 H2. run_both; try solve [agree_done].
  - eapply decode4_agree; [| | |eassumption|eassumption]; psimpl; eqb_all; congruence.
  - eapply decode6_agree; [| | |eassumption|eassumption]; psimpl; eqb_all; congruence.
Qed.

(** What [Decode] reports of a packet does not depend on the packets decoded
    before into the same [Parsed]: two runs on the same bytes agree on version and
    protocol, on offsets and addresses of a known protocol, on the ports where the
    protocol has them (and for ICMP), on the TCP flags of TCP, and on the data
    offset of the protocols that have a payload. *)
Theorem Decode_fresh b q1 q2 r1 r2 :
  Decode b q1 = Ok r1 → Decode b q2 = Ok r2 → agree r1 r2.
Proof. apply Decode_agree. Qed.

(** ** Payload *)
Lemma decodeTCP_dataofs sub q r :
  bytes_ok sub → 0 ≤ subofs q → 0 ≤ dataofs q → decodeTCP sub q = Ok r → 0 ≤ dataofs r.
Proof.
  intros Hb Hs Hd H. unfold decodeTCP in H. run_both; [done|].
  match goal with E : idx sub 12 = Ok ?v |- _ => destruct (idx_byte _ _ _ Hb E) as [Hv _];
    assert (0 ≤ Z.shiftr (Z.land v 0xF0) 2) by (apply Z.shiftr_nonneg, Z.land_nonneg; lia) end. lia.
Qed.

Ltac dataofs_step :=
  unfold decodeUDP, decodeSCTP in *; run_both;
  eauto using decodeTCP_dataofs; psimpl; unfold icmp4HeaderLength, icmp6HeaderLength, udpHeaderLength; lia.

Lemma decode4Sub_dataofs sub mf q r :
  bytes_ok sub → 0 ≤ subofs q → 0 ≤ dataofs q → decode4Sub sub mf q = Ok r → 0 ≤ dataofs r.
Proof. intros Hb Hs Hd H. unfold decode4Sub in H. dataofs_step. Qed.
Lemma decode6Sub_dataofs b q r :
  bytes_ok b → 0 ≤ subofs q → 0 ≤ dataofs q → decode6Sub b q = Ok r → 0 ≤ dataofs r.
Proof.
  intros Hb Hs Hd H. unfold decode6Sub in H. apply bind_ok in H as (sub & Hsub & H).
  assert (bytes_ok sub) by by eapply slice_bytes. dataofs_step.
Qed.

Lemma Decode_dataofs b q r :
  bytes_ok b → 0 ≤ subofs q → 0 ≤ dataofs q → Decode b q = Ok r → 0 ≤ dataofs r.
Proof.
  intros Hb Hs Hd H. unfold Decode, decode4, decode6 in H. run_both; try done.
  - eapply decode4Sub_dataofs; [| | |eassumption]; psimpl; [by eapply slice_bytes|apply (uN_range 8); lia|done].
  - apply bind_ok in H as ([c q2] & Hf & H). psimpl.
    assert (0 ≤ subofs q2 ∧ 0 ≤ dataofs q2) as [? ?].
    { unfold decode6Fragment in Hf. run_both; simplify_eq; psimpl; split; done. }
    destruct c; [by eapply decode6Sub_dataofs|by simplify_eq].
  - eapply decode6Sub_dataofs; [| | |eassumption]; psimpl; done.
Qed.

(** [Payload] of a decoded packet with a payload panics exactly when the data
    offset lies past the packet's length but inside the buffer, which needs
    trailing bytes after the packet; on a buffer that ends with the packet it
    returns the bytes from the data offset, or nothing if there are none. *)
Theorem Payload_spec b q r :
  bytes_ok b → Decode b q = Ok r → hasPayload r →
  (Payload r = Panic ↔ plength r < dataofs r ≤ zlen b) ∧
  (plength r = zlen b → Payload r = Ok (drop (Z.to_nat (dataofs r)) b)).
Proof.
  intros Hb HD Hp. destruct (Decode_decoded b q Hb) as (r' & HD' & [Hbuf _ _ Ho _]).
  rewrite HD in HD'. injection HD' as <-.
  assert (IPProto r ≠ Unknown) as Hn by (unfold hasPayload in Hp; intros H0; rewrite H0 in Hp; naive_solver).
  destruct (Ho Hn) as [_ Hl].
  assert (0 ≤ dataofs r) as Hd.
  { destruct (Decode_decoded b zeroParsed Hb) as (r0 & H0 & _).
    destruct (Decode_agree b q zeroParsed r r0 HD H0) as (_ & _ & _ & _ & _ & _ & Hdo).
    rewrite (Hdo Hp). by eapply (Decode_dataofs b zeroParsed). }
  unfold Payload. rewrite Hbuf.
  rewrite (proj2 (Z.ltb_ge (zlen b) (plength r))) by lia. cbn [orb].
  destruct (zlen b <? dataofs r) eqn:Hx; bounds_ltb.
  - split; [split; [done|lia]|]. intros. rewrite drop_ge; [done|]. unfold zlen in *. lia.
  - unfold slice. case_decide as Hs.
    + split; [split; [done|lia]|]. intros ->. f_equal. apply take_ge. rewrite length_drop. unfold zlen in *. lia.
    + split; [split; [lia|done]|]. lia.
Qed.

(** ** Witnesses: a 28-byte UDP packet *)
Definition exUDP : bytes :=
  [0x45; 0; 0; 28; 0; 0; 0; 0; 64; 0x11; 0; 0; 10; 0; 0; 1; 10; 0; 0; 2; 0; 80; 0; 81; 0; 8; 0; 0].
Definition exParsed : Parsed :=
  Eval vm_compute in match Decode exUDP zeroParsed with Ok q => q | _ => zeroParsed end.

Lemma Decode_total_witness : ∃ q', Decode exUDP zeroParsed = Ok q' ∧ Decoded exUDP q'.
Proof.
  destruct (Decode_total exUDP zeroParsed) as (q' & H1 & H2 & _); [|exists q'; split; assumption].
  repeat constructor; vm_compute; discriminate || reflexivity.
Defined.

Lemma Decode_fresh_witness : agree exParsed exParsed.
Proof. apply (Decode_fresh exUDP zeroParsed zeroParsed); vm_compute; reflexivity. Defined.

Lemma Payload_spec_witness : Payload exParsed = Ok [].
Proof.
  apply (Payload_spec exUDP zeroParsed exParsed).
  - repeat constructor; vm_compute; discriminate || reflexivity.
  - vm_compute. reflexivity.
  - right. left. reflexivity.
  - reflexivity.
Defined.
