(* ===== verification/Filter.v ===== *)
(** * The packet filter

    [wgengine/filter/filter.go], [match.go] and [filtertype/filtertype.go].

    A [Filter] points to its connection-tracking state, which [New] may share with
    an earlier filter: the states live in a store and a filter holds a reference.
    Hooks, the capability test and [bart.Lite] are arguments.  Logging is left
    out. *)

From S2P Require Import Prelude GoStd Bytes NetIP TSAddr FlowTrack Packet.

(** ** filtertype *)
Record PortRange := mkPortRange { First : Z; Last : Z }.
#[export] Instance PortRange_eq_dec : EqDecision PortRange.
Proof. solve_decision. Defined.
Definition AllPorts : PortRange := mkPortRange 0 0xffff.
Definition PortContains (pr : PortRange) (port : Z) : bool := (First pr <=? port) && (port <=? Last pr).

Record NetPortRange := mkNetPortRange { Net : Prefix; NPorts : PortRange }.
Record CapMatch := mkCapMatch { CapDst : Prefix; Cap : string; Values : list string }.
Record Match := mkMatch {
  MProto : list Z;
  Srcs : list Prefix;
  SrcsContains : Addr → bool;
  SrcCaps : list string;
  Dsts : list NetPortRange;
  Caps : list CapMatch
}.

(** ** match.go *)
Abbreviation CapTestFunc := (option (Addr → string → bool)).

Definition srcMatches (m : Match) (srcAddr : Addr) (hasCap : CapTestFunc) : bool :=
  SrcsContains m srcAddr ||
  match hasCap with
  | None => false
  | Some hc => existsb (λ c, hc srcAddr c) (SrcCaps m)
  end.

Definition protoIn (m : Match) (q : Parsed) : bool := bool_decide (IPProto q ∈ MProto m).

Definition matchAll (ms : list Match) (q : Parsed) (hasCap : CapTestFunc) : bool :=
  existsb (λ m,
    protoIn m q && srcMatches m (ap_addr (Src q)) hasCap &&
    existsb (λ d, Contains (Net d) (ap_addr (Dst q)) && PortContains (NPorts d) (ap_port (Dst q))) (Dsts m)) ms.

Definition matchIPsOnly (ms : list Match) (q : Parsed) (hasCap : CapTestFunc) : bool :=
  let srcAddr := ap_addr (Src q) in
  existsb (λ m, SrcsContains m srcAddr && existsb (λ d, Contains (Net d) (ap_addr (Dst q))) (Dsts m)) ms ||
  match hasCap with
  | None => false
  | Some hc => existsb (λ m, existsb (λ c, hc srcAddr c) (SrcCaps m)) ms
  end.

Definition matchProtoAndIPsOnlyIfAllPorts (ms : list Match) (q : Parsed) : bool :=
  existsb (λ m,
    protoIn m q && SrcsContains m (ap_addr (Src q)) &&
    existsb (λ d, bool_decide (NPorts d = AllPorts) && Contains (Net d) (ap_addr (Dst q))) (Dsts m)) ms.

(** ** Filter *)
Inductive Response := Drop | DropSilently | Accept | noVerdict.
#[export] Instance Response_eq_dec : EqDecision Response.
Proof. solve_decision. Defined.
Definition IsDrop (r : Response) : bool := match r with Drop | DropSilently => true | _ => false end.

Inductive DropReason := ReasonNone | ReasonTooShort | ReasonUnknownProtocol | ReasonMulticast | ReasonLinkLocalUnicast.

Abbreviation PacketMatch := (Parsed → bool).

Record Filter := mkFilter {
  local4 : Addr → bool;
  local6 : Addr → bool;
  srcIPHasCap : CapTestFunc;
  matches4 : list Match;
  matches6 : list Match;
  cap4 : list Match;
  cap6 : list Match;
  state : nat;                      (* *filterState *)
  shieldsUp : bool;
  IngressAllowHooks : list PacketMatch;
  LinkLocalAllowHooks : list PacketMatch
}.

Definition lruMax : Z := 512.
(** The connection-tracking states by reference. *)
Abbreviation Store := (gmap nat (Cache unit)).
Definition loadState (r : nat) (σ : Store) : Cache unit := default (emptyCache lruMax) (σ !! r).

Section new.
Context (bartContains : list Prefix → Addr → bool).

Definition matchesFamily (ms : list Match) (keep : Addr → bool) : list Match :=
  omap (λ m,
    let srcs := filter (λ p, keep (pfx_ip p) = true) (Srcs m) in
    let dsts := filter (λ d, keep (pfx_ip (Net d)) = true) (Dsts m) in
    if ((0 <? zlen srcs) || (0 <? zlen (SrcCaps m))) && (0 <? zlen dsts) then
      Some (mkMatch (MProto m) srcs (NewContainsIPFunc bartContains srcs) (SrcCaps m) dsts [])
    else None) ms.

Definition capMatchesFunc (ms : list Match) (keep : Addr → bool) : list Match :=
  omap (λ m,
    if decide (length (Caps m) = 0%nat) then None
    else
      let srcs := filter (λ p, keep (pfx_ip p) = true) (Srcs m) in
      if 0 <? zlen srcs then
        Some (mkMatch [] srcs (NewContainsIPFunc bartContains srcs) [] [] (Caps m))
      else None) ms.

(** [New] of the rules, the capability test and the prefixes of [localNets] (nil is
    [None]); the filter shares the state of [shareStateWith] or gets a fresh one. *)
Definition New (ms : list Match) (capTest : CapTestFunc) (localNets : option (list Prefix))
    (shareStateWith : option Filter) (σ : Store) : Filter * Store :=
  let '(st, σ) :=
    match shareStateWith with
    | Some f => (state f, σ)
    | None => let r := fresh (dom σ) in (r, <[r := emptyCache lruMax]> σ)
    end in
  let '(l4, l6) :=
    match localNets with
    | None => (FalseContainsIPFunc, FalseContainsIPFunc)
    | Some p =>
        (NewContainsIPFunc bartContains (filter (λ p, Is4 (pfx_ip p) = true) p),
         NewContainsIPFunc bartContains (filter (λ p, Is4 (pfx_ip p) ≠ true) p))
    end in
  (mkFilter l4 l6 capTest (matchesFamily ms Is4) (matchesFamily ms Is6)
     (capMatchesFunc ms Is4) (capMatchesFunc ms Is6) st false [] [], σ).

Definition NewAllowNone (σ : Store) : Filter * Store := New [] None (Some []) None σ.

Definition NewShieldsUpFilter (localNets : option (list Prefix)) (shareStateWith : option Filter) (σ : Store)
    : Filter * Store :=
  let share := match shareStateWith with
               | Some f => if shieldsUp f then Some f else None
               | None => None end in
  let '(f, σ) := New [] None localNets share σ in
  (mkFilter (local4 f) (local6 f) (srcIPHasCap f) (matches4 f) (matches6 f) (cap4 f) (cap6 f)
     (state f) true (IngressAllowHooks f) (LinkLocalAllowHooks f), σ).
End new.

(** ** Direction-agnostic checks *)
Definition gcpDNSAddr : Addr := IPv4 169 254 169 254.

Definition isAllowedLinkLocal (f : Filter) (q : Parsed) : bool :=
  bool_decide (ap_addr (Dst q) = gcpDNSAddr) || existsb (λ pm, pm q) (LinkLocalAllowHooks f).

Definition pre (f : Filter) (q : Parsed) : Response * DropReason :=
  if zlen (pb q) =? 0 then (Accept, ReasonNone)
  else if zlen (pb q) <? 20 then (Drop, ReasonTooShort)
  else if IPProto q =? Unknown then (Drop, ReasonUnknownProtocol)
  else if IsMulticast (ap_addr (Dst q)) then (Drop, ReasonMulticast)
  else if IsLinkLocalUnicast (ap_addr (Dst q)) && negb (isAllowedLinkLocal f q)
       then (Drop, ReasonLinkLocalUnicast)
  else if IPProto q =? Fragment then (Accept, ReasonNone)
  else (noVerdict, ReasonNone).

(** ** Inbound *)

(** The rules of [runIn4] and [runIn6] after the check of the destination, which
    differ in the ICMP protocol number and the match list. *)
Definition runRules (icmp : Z) (ms : list Match) (f : Filter) (q : Parsed) (σ : Store)
    : res () (Response * Store) :=
  if IPProto q =? icmp then
    er ← IsEchoResponse q;
    if er : bool then Ok (Accept, σ)
    else
      ie ← IsError q;
      if ie : bool then Ok (Accept, σ)
      else if matchIPsOnly ms q (srcIPHasCap f) then Ok (Accept, σ) else Ok (noVerdict, σ)
  else if IPProto q =? TCP then
    if negb (IsTCPSyn q) then Ok (Accept, σ)
    else if matchAll ms q (srcIPHasCap f) then Ok (Accept, σ) else Ok (noVerdict, σ)
  else if (IPProto q =? UDP) || (IPProto q =? SCTP) then
    let t := MakeTuple (IPProto q) (Src q) (Dst q) in
    let '(v, c) := Get t (loadState (state f) σ) in
    let σ := <[state f := c]> σ in
    match v with
    | Some _ => Ok (Accept, σ)
    | None => if matchAll ms q (srcIPHasCap f) then Ok (Accept, σ) else Ok (noVerdict, σ)
    end
  else if IPProto q =? TSMP then Ok (Accept, σ)
  else if matchProtoAndIPsOnlyIfAllPorts ms q then Ok (Accept, σ) else Ok (noVerdict, σ).

Definition runIn4 (f : Filter) (q : Parsed) (σ : Store) : res () (Response * Store) :=
  if negb (local4 f (ap_addr (Dst q))) then Ok (noVerdict, σ)
  else runRules ICMPv4 (matches4 f) f q σ.
Definition runIn6 (f : Filter) (q : Parsed) (σ : Store) : res () (Response * Store) :=
  if negb (local6 f (ap_addr (Dst q))) then Ok (noVerdict, σ)
  else runRules ICMPv6 (matches6 f) f q σ.

Definition RunIn (f : Filter) (q : Parsed) (σ : Store) : res () (Response * Store) :=
  let r := (pre f q).1 in
  if bool_decide (r = Accept) || bool_decide (r = Drop) then Ok (r, σ)
  else
    rσ ← (if IPVersion q =? 4 then runIn4 f q σ
          else if IPVersion q =? 6 then runIn6 f q σ
          else Ok (Drop, σ));
    let '(r, σ) := rσ in
    if decide (r = noVerdict) then
      if existsb (λ pm, pm q) (IngressAllowHooks f) then Ok (Accept, σ) else Ok (Drop, σ)
    else Ok (r, σ).

(** ** Outbound *)
Definition UpdateOutboundFlowState (f : Filter) (q : Parsed) (σ : Store) : Store :=
  if (IPProto q =? UDP) || (IPProto q =? SCTP) then
    <[state f := Add (MakeTuple (IPProto q) (Dst q) (Src q)) () (loadState (state f) σ)]> σ
  else σ.

Definition runOut (f : Filter) (q : Parsed) (σ : Store) : Response * Store :=
  (Accept, UpdateOutboundFlowState f q σ).

Definition RunOut (f : Filter) (q : Parsed) (σ : Store) : Response * DropReason * Store :=
  let '(r, reason) := pre f q in
  if bool_decide (r = Accept) || bool_decide (r = Drop) then (r, reason, σ)
  else let '(r, σ) := runOut f q σ in (r, ReasonNone, σ).

(** ** Check *)
Definition dummyPacket : bytes := replicate 20 0xFF.

Definition Check (f : Filter) (srcIP dstIP : Addr) (dstPort proto : Z) (σ : Store)
    : res () (Response * Store) :=
  pkt ← Decode dummyPacket zeroParsed;
  if (Is4 srcIP && Is6 dstIP) || (Is6 srcIP && Is4 srcIP) then Ok (Drop, σ)
  else
    v ← (if Is4 srcIP then Ok 4 else if Is6 srcIP then Ok 6 else Panic);
    let pkt := setVersion v pkt in
    let pkt := setPorts 0 dstPort (setIPs srcIP dstIP pkt) in
    let pkt := setProto proto pkt in
    let pkt := if proto =? TCP then setFlags TCPSyn pkt else pkt in
    RunIn f pkt σ.

Definition CheckTCP (f : Filter) (srcIP dstIP : Addr) (dstPort : Z) (σ : Store) : res () (Response * Store) :=
  Check f srcIP dstIP dstPort TCP σ.

(** ** Capabilities *)
Definition CapsWithValues (f : Filter) (srcIP dstIP : Addr) : gmap string (list string) :=
  let mm := if Is4 srcIP then cap4 f else if Is6 srcIP then cap6 f else [] in
  foldl (λ out m,
    if SrcsContains m srcIP then
      foldl (λ out cm,
        if bool_decide (Cap cm ≠ "") && Contains (CapDst cm) dstIP then
          <[Cap cm := default [] (out !! Cap cm) ++ Values cm]> out
        else out) out (Caps m)
    else out) ∅ mm.
