(* ===== verification/FilterThms.v ===== *)
(** * The packet filter: policy and connection tracking

    The verdicts of the filter are those of a declarative policy stated on the
    rules it was given, replies to tracked outbound flows are admitted, and a
    shields-up filter admits no new connection. *)

From S2P Require Import Prelude GoStd Bytes NetIP TSAddr FlowTrack Packet PacketThms Filter.

(** ** The policy *)
Definition inNets (nets : list Prefix) (ip : Addr) : bool := existsb (λ p, Contains p ip) nets.
Definition hasAnyCap (hasCap : CapTestFunc) (m : Match) (src : Addr) : bool :=
  match hasCap with Some hc => existsb (λ c, hc src c) (SrcCaps m) | None => false end.

(** Some rule names the protocol, the source and the destination port. *)
Definition policyPorts (ms : list Match) (hasCap : CapTestFunc) (q : Parsed) : bool :=
  existsb (λ m,
    bool_decide (IPProto q ∈ MProto m) &&
    (inNets (Srcs m) (ap_addr (Src q)) || hasAnyCap hasCap m (ap_addr (Src q))) &&
    existsb (λ d, Contains (Net d) (ap_addr (Dst q)) && PortContains (NPorts d) (ap_port (Dst q))) (Dsts m)) ms.

(** Some rule opens any port of the destination to the source; a capability opens
    it when the rule has a destination of the same address family. *)
Definition policyICMP (ms : list Match) (hasCap : CapTestFunc) (q : Parsed) : bool :=
  existsb (λ m, inNets (Srcs m) (ap_addr (Src q)) &&
                existsb (λ d, Contains (Net d) (ap_addr (Dst q))) (Dsts m)) ms ||
  existsb (λ m, hasAnyCap hasCap m (ap_addr (Src q)) &&
                existsb (λ d, Bool.eqb (Is4 (pfx_ip (Net d))) (Is4 (ap_addr (Dst q))) &&
                              IsValid (pfx_ip (Net d))) (Dsts m)) ms.

(** Some rule opens all ports of the destination to the source for the protocol. *)
Definition policyOther (ms : list Match) (q : Parsed) : bool :=
  existsb (λ m,
    bool_decide (IPProto q ∈ MProto m) && inNets (Srcs m) (ap_addr (Src q)) &&
    existsb (λ d, bool_decide (NPorts d = AllPorts) && Contains (Net d) (ap_addr (Dst q))) (Dsts m)) ms.

Definition resTrue (r : res () bool) : bool := match r with Ok b => b | _ => false end.

(** The policy for a packet with a protocol and a local destination. *)
Definition policyRules (ms : list Match) (hasCap : CapTestFunc) (tracked : bool) (q : Parsed) : bool :=
  let icmp := if IPVersion q =? 4 then ICMPv4 else ICMPv6 in
  if IPProto q =? icmp then resTrue (IsEchoResponse q) || resTrue (IsError q) || policyICMP ms hasCap q
  else if IPProto q =? TCP then negb (IsTCPSyn q) || policyPorts ms hasCap q
  else if (IPProto q =? UDP) || (IPProto q =? SCTP) then tracked || policyPorts ms hasCap q
  else (IPProto q =? TSMP) || policyOther ms q.

(** What passes before the rules: a keepalive, or a packet to neither a multicast
    nor a (non-exempt) link-local address. *)
Definition policyPre (f : Filter) (q : Parsed) : bool :=
  (20 <=? zlen (pb q)) && negb (IPProto q =? Unknown) && negb (IsMulticast (ap_addr (Dst q))) &&
  (negb (IsLinkLocalUnicast (ap_addr (Dst q))) || isAllowedLinkLocal f q).

Definition policyIn (ms : list Match) (hasCap : CapTestFunc) (nets : list Prefix) (f : Filter)
    (tracked : bool) (q : Parsed) : bool :=
  (zlen (pb q) =? 0) ||
  (policyPre f q &&
   ((IPProto q =? Fragment) || existsb (λ pm, pm q) (IngressAllowHooks f) ||
    (inNets nets (ap_addr (Dst q)) && policyRules ms hasCap tracked q))).

(** ** Rules split by address family *)
Definition match_ok (m : Match) : Prop :=
  Forall prefix_ok (Srcs m) ∧ Forall (λ d, prefix_ok (Net d)) (Dsts m).

(** [keep] selects the family of [ip]: other prefixes do not contain it. *)
Definition keepsFamily (keep : Addr → bool) (ip : Addr) : Prop :=
  hasZone ip = false ∧ ∀ p, keep (pfx_ip p) = false → Contains p ip = false.

Lemma keep4 v : keepsFamily Is4 (Addr4 v).
Proof.
  split; [done|]. intros p Hp. destruct (decide (BitLen (pfx_ip p) = 32)).
  - destruct p as [[] n]; simpl in *; lia || done.
  - by apply Contains_family.
Qed.
Lemma keep6 v : keepsFamily Is6 (Addr6 v "").
Proof.
  split; [done|]. intros p Hp. destruct (decide (BitLen (pfx_ip p) = 128)).
  - destruct p as [[] n]; simpl in *; lia || done.
  - by apply Contains_family.
Qed.

Lemma and_under (P Q R : Prop) : (P → (Q ↔ R)) → P ∧ Q ↔ P ∧ R.
Proof. tauto. Qed.
Lemma existsb_elem {A} (g : A → bool) (l : list A) : existsb g l = true ↔ ∃ x, x ∈ l ∧ g x = true.
Proof. rewrite List.existsb_exists. by setoid_rewrite list_elem_of_In. Qed.
Lemma existsb_bind {A B} (f : A → list B) (g : B → bool) (l : list A) : existsb g (l ≫= f) = existsb (λ x, existsb g (f x)) l.
Proof. induction l as [|x l IH]; [done|]. cbn [mbind list_bind existsb]. by rewrite List.existsb_app, IH. Qed.
Lemma existsb_fmap {A B} (f : A → B) (g : B → bool) (l : list A) : existsb g (f <$> l) = existsb (λ x, g (f x)) l.
Proof. induction l as [|x l IH]; [done|]. cbn [fmap list_fmap existsb]. by rewrite IH. Qed.
Lemma existsb_filter {A} (P : A → Prop) `{∀ x, Decision (P x)} (g : A → bool) (l : list A) :
  (∀ x, ¬ P x → g x = false) → existsb g (filter P l) = existsb g l.
Proof.
  intros Hn. induction l as [|x l IH]; [done|]. rewrite filter_cons. cbn [existsb].
  case_decide; cbn [existsb]; rewrite IH; [done|]. by rewrite Hn.
Qed.

Lemma Forall_filter_ok {A} (P Q : A → Prop) `{∀ x, Decision (P x)} (l : list A) :
  Forall Q l → Forall Q (filter P l).
Proof. rewrite !Forall_forall. intros H' x [_ Hx]%list_elem_of_filter. by apply H'. Qed.

Lemma existsb_omap {A B} (h : A → option B) (g : B → bool) (l : list A) :
  existsb g (omap h l) = existsb (λ x, match h x with Some y => g y | None => false end) l.
Proof.
  induction l as [|x l IH]; [done|]. cbn [existsb]. rewrite <- IH. cbn. by destruct (h x).
Qed.

Lemma existsb_ext_in {A} (g h : A → bool) (l : list A) :
  Forall (λ x, g x = h x) l → existsb g l = existsb h l.
Proof. induction 1 as [|x l Hx Hl IH]; [done|]. cbn [existsb]. by rewrite Hx, IH. Qed.

Lemma existsb_nil_len {A} (g : A → bool) (l : list A) : (0 <? zlen l) = false → existsb g l = false.
Proof. destruct l; [done|]. unfold zlen. simpl. done. Qed.

Section family.
Context (bartContains : list Prefix → Addr → bool).
Context {HB : BartLaw bartContains}.
Context (keep : Addr → bool) (q : Parsed).
Context (Hsrc : keepsFamily keep (ap_addr (Src q))) (Hdst : keepsFamily keep (ap_addr (Dst q))).

Lemma srcs_contains srcs :
  Forall prefix_ok srcs →
  NewContainsIPFunc bartContains (filter (λ p, keep (pfx_ip p) = true) srcs) (ap_addr (Src q)) =
  inNets srcs (ap_addr (Src q)).
Proof using HB Hsrc.
  intros Hok. rewrite containsIP_scan; [|done|by apply Forall_filter_ok|apply Hsrc].
  apply existsb_filter. intros p Hp. apply Hsrc. by destruct (keep _).
Qed.

Lemma dsts_contains (g : NetPortRange → bool) dsts :
  (∀ d, Contains (Net d) (ap_addr (Dst q)) = false → g d = false) →
  existsb g (filter (λ d, keep (pfx_ip (Net d)) = true) dsts) = existsb g dsts.
Proof using Hdst.
  intros Hg. apply existsb_filter. intros d Hd. apply Hg, Hdst. by destruct (keep _).
Qed.

(** A test on the kept part of each rule is the test on the rule, if it needs a
    source or a capability and a destination. *)
Lemma family_exists (g g' : Match → bool) ms :
  Forall match_ok ms →
  (∀ m, match_ok m →
     let m' := mkMatch (MProto m) (filter (λ p, keep (pfx_ip p) = true) (Srcs m))
                 (NewContainsIPFunc bartContains (filter (λ p, keep (pfx_ip p) = true) (Srcs m)))
                 (SrcCaps m) (filter (λ d, keep (pfx_ip (Net d)) = true) (Dsts m)) [] in
     (existsb (λ _, true) (Dsts m') = true → g m' = g' m) ∧
     (existsb (λ _, true) (Dsts m') = false → g' m = false) ∧
     (existsb (λ _, true) (Srcs m') = false → existsb (λ _, true) (SrcCaps m) = false → g' m = false)) →
  existsb g (matchesFamily bartContains ms keep) = existsb g' ms.
Proof using.
  intros Hok Hg. unfold matchesFamily. rewrite existsb_omap. apply existsb_ext_in.
  eapply Forall_impl; [exact Hok|]. intros m Hm. destruct (Hg m Hm) as (He & Hd & Hs). simpl in *.
  destruct (0 <? zlen (filter _ (Dsts m))) eqn:Ed.
  - assert (existsb (λ _, true) (filter (λ d, keep (pfx_ip (Net d)) = true) (Dsts m)) = true) as Hne
      by (by destruct (filter _ (Dsts m))).
    rewrite andb_true_r. destruct (0 <? zlen (filter _ (Srcs m))) eqn:Es; [by apply He|].
    destruct (0 <? zlen (SrcCaps m)) eqn:Ec; [by apply He|]. symmetry. apply Hs; by apply existsb_nil_len.
  - rewrite andb_false_r. symmetry. apply Hd. by apply existsb_nil_len.
Qed.

Lemma existsb_none {A} (g : A → bool) (l : list A) : existsb (λ _, true) l = false → existsb g l = false.
Proof using. by destruct l. Qed.

(** No source prefix of the family: the source is in none of the rule's. *)
Lemma no_srcs m :
  match_ok m → existsb (λ _, true) (filter (λ p, keep (pfx_ip p) = true) (Srcs m)) = false →
  inNets (Srcs m) (ap_addr (Src q)) = false.
Proof using Hsrc.
  intros Hm He. unfold inNets. rewrite <- (existsb_filter (λ p, keep (pfx_ip p) = true)).
  - by apply existsb_none.
  - intros p Hp. apply Hsrc. by destruct (keep _).
Qed.
Lemma no_dsts (g : NetPortRange → bool) m :
  (∀ d, Contains (Net d) (ap_addr (Dst q)) = false → g d = false) →
  existsb (λ _, true) (filter (λ d, keep (pfx_ip (Net d)) = true) (Dsts m)) = false →
  existsb g (Dsts m) = false.
Proof using Hdst. intros Hg He. rewrite <- dsts_contains by done. by apply existsb_none. Qed.

Lemma no_caps hasCap m src : existsb (λ _, true) (SrcCaps m) = false → hasAnyCap hasCap m src = false.
Proof using. intros H. unfold hasAnyCap. destruct hasCap; [by apply existsb_none|done]. Qed.

Lemma matchAll_policy ms hasCap :
  Forall match_ok ms → matchAll (matchesFamily bartContains ms keep) q hasCap = policyPorts ms hasCap q.
Proof using HB Hsrc Hdst.
  intros Hok. apply family_exists; [done|]. intros m Hm m'.
  assert (∀ d, Contains (Net d) (ap_addr (Dst q)) = false →
    Contains (Net d) (ap_addr (Dst q)) && PortContains (NPorts d) (ap_port (Dst q)) = false) as Hd
    by (by intros d ->).
  split_and!.
  - intros _. unfold protoIn, srcMatches. cbn [m' MProto SrcsContains SrcCaps Dsts].
    rewrite srcs_contains by apply Hm. rewrite dsts_contains by done. done.
  - intros He. rewrite (no_dsts _ m Hd He). by rewrite andb_false_r.
  - intros Hs Hc. rewrite (no_srcs m Hm Hs), no_caps by done. by rewrite andb_false_r.
Qed.

Lemma matchOther_policy ms :
  Forall match_ok ms →
  matchProtoAndIPsOnlyIfAllPorts (matchesFamily bartContains ms keep) q = policyOther ms q.
Proof using HB Hsrc Hdst.
  intros Hok. apply family_exists; [done|]. intros m Hm m'.
  assert (∀ d, Contains (Net d) (ap_addr (Dst q)) = false →
    bool_decide (NPorts d = AllPorts) && Contains (Net d) (ap_addr (Dst q)) = false) as Hd
    by (intros d ->; apply andb_false_r).
  split_and!.
  - intros _. unfold protoIn. cbn [m' MProto SrcsContains Dsts].
    rewrite srcs_contains by apply Hm. rewrite dsts_contains by done. done.
  - intros He. rewrite (no_dsts _ m Hd He). by rewrite andb_false_r.
  - intros Hs Hc. rewrite (no_srcs m Hm Hs). by rewrite andb_false_r.
Qed.

Lemma matchICMP_policy ms hasCap :
  Forall match_ok ms →
  (∀ p, Bool.eqb (Is4 (pfx_ip p)) (Is4 (ap_addr (Dst q))) && IsValid (pfx_ip p) = keep (pfx_ip p)) →
  matchIPsOnly (matchesFamily bartContains ms keep) q hasCap = policyICMP ms hasCap q.
Proof using HB Hsrc Hdst.
  intros Hok Hk. unfold matchIPsOnly, policyICMP. f_equal.
  - apply family_exists; [done|]. intros m Hm m'. split_and!.
    + intros _. cbn [m' SrcsContains Dsts]. rewrite srcs_contains by apply Hm. rewrite dsts_contains by done. done.
    + intros He. rewrite (no_dsts _ m (λ _ H, H) He). by rewrite andb_false_r.
    + intros Hs Hc. by rewrite (no_srcs m Hm Hs).
  - transitivity (existsb (λ m, hasAnyCap hasCap m (ap_addr (Src q))) (matchesFamily bartContains ms keep)).
    { unfold hasAnyCap. destruct hasCap; [done|]. by induction (matchesFamily _ _ _). }
    apply family_exists; [done|]. intros m Hm m'.
    assert (∀ l, existsb (λ d, Bool.eqb (Is4 (pfx_ip (Net d))) (Is4 (ap_addr (Dst q))) && IsValid (pfx_ip (Net d))) l
      = existsb (λ _, true) (filter (λ d, keep (pfx_ip (Net d)) = true) l)) as Hf.
    { induction l as [|d l IH]; [done|]. cbn [existsb]. rewrite filter_cons, Hk, IH.
      by destruct (keep _); case_decide. }
    split_and!.
    + intros Hne. rewrite Hf. cbn [m' Dsts] in Hne. rewrite Hne. by rewrite andb_true_r.
    + intros He. rewrite Hf. cbn [m' Dsts] in He. rewrite He. by rewrite andb_false_r.
    + intros Hs Hc. by rewrite no_caps.
Qed.
End family.

(** ** Filters built from rules *)
Record BuiltFrom (bartContains : list Prefix → Addr → bool) (ms : list Match) (capTest : CapTestFunc)
    (nets : list Prefix) (f : Filter) : Prop := mkBuiltFrom {
  bf_local4 : local4 f = NewContainsIPFunc bartContains (filter (λ p, Is4 (pfx_ip p) = true) nets);
  bf_local6 : local6 f = NewContainsIPFunc bartContains (filter (λ p, Is4 (pfx_ip p) ≠ true) nets);
  bf_caps : srcIPHasCap f = capTest;
  bf_match4 : matches4 f = matchesFamily bartContains ms Is4;
  bf_match6 : matches6 f = matchesFamily bartContains ms Is6
}.

Lemma New_built bartContains ms capTest nets share σ :
  BuiltFrom bartContains ms capTest nets (New bartContains ms capTest (Some nets) share σ).1.
Proof. unfold New. by destruct share. Qed.

(** ** The states *)
Definition StoreOk (σ : Store) : Prop :=
  ∀ r c, σ !! r = Some c → CacheInv c ∧ MaxEntries c = lruMax.

Lemma loadState_ok r σ :
  StoreOk σ → CacheInv (loadState r σ) ∧ MaxEntries (loadState r σ) = lruMax.
Proof.
  intros Hσ. unfold loadState. destruct (σ !! r) as [c|] eqn:Hr; [by eapply Hσ|].
  split; [apply emptyCache_inv|done].
Qed.
Lemma StoreOk_insert r c σ :
  StoreOk σ → CacheInv c → MaxEntries c = lruMax → StoreOk (<[r := c]> σ).
Proof.
  intros Hσ Hc Hm r' c'. rewrite lookup_insert. case_decide; [by intros [= <-]|apply Hσ].
Qed.

(** The tuples tracked in the state of a filter, most recently used first. *)
Definition flows (r : nat) (σ : Store) : list Tuple := (absCache (loadState r σ)).*1.
Definition trackedIn (f : Filter) (q : Parsed) (σ : Store) : bool :=
  bool_decide (MakeTuple (IPProto q) (Src q) (Dst q) ∈ flows (state f) σ).

Lemma aFind_elem {V} (k : Tuple) (l : list (Tuple * V)) : is_Some (aFind k l) ↔ k ∈ l.*1.
Proof.
  unfold aFind. split.
  - intros [v Hv]. destruct (filter _ l) as [|[k' v'] l'] eqn:Hf; [done|].
    assert ((k', v') ∈ filter (λ p : Tuple * V, p.1 = k) l) as [Hk Hin]%list_elem_of_filter
      by (rewrite Hf; left). simpl in Hk. subst. by apply (list_elem_of_fmap_2 fst) in Hin.
  - intros ([k' v] & -> & Hin)%list_elem_of_fmap. simpl.
    assert ((k', v) ∈ filter (λ p : Tuple * V, p.1 = k') l) as Hf by by apply list_elem_of_filter.
    destruct (filter _ l); [by apply elem_of_nil in Hf|by eexists].
Qed.

Lemma Get_tracked t c :
  CacheInv c → ((Get t c).1 = None ↔ t ∉ (@absCache unit c).*1) ∧
               CacheInv (Get t c).2 ∧ MaxEntries (Get t c).2 = MaxEntries c.
Proof.
  intros HI. destruct (Get_inv t c HI) as (HI' & Hr & _). split_and!; [|done|].
  - rewrite Hr. unfold aGet. rewrite <- aFind_elem. destruct (aFind t (absCache c)); simpl.
    + split; [done|]. intros Hn. destruct Hn. by eexists.
    + split; [intros _ [? [=]]|done].
  - by destruct (MaxEntries_ops t () c) as (_ & ? & _).
Qed.

(** ** Inbound verdicts *)
Definition verdict (b : bool) : Response := if b then Accept else noVerdict.

Section policy.
Context (bartContains : list Prefix → Addr → bool) {HB : BartLaw bartContains}.
Context (ms : list Match) (capTest : CapTestFunc) (nets : list Prefix) (f : Filter).
Context (Hms : Forall match_ok ms) (Hnets : Forall prefix_ok nets).
Context (Hf : BuiltFrom bartContains ms capTest nets f).

Lemma local4_nets v : local4 f (Addr4 v) = inNets nets (Addr4 v).
Proof using HB Hnets Hf.
  rewrite (bf_local4 _ _ _ _ _ Hf), containsIP_scan by (done || by apply Forall_filter_ok).
  apply existsb_filter. intros p Hp. apply (keep4 v). by destruct (Is4 _).
Qed.
Lemma local6_nets v : local6 f (Addr6 v "") = inNets nets (Addr6 v "").
Proof using HB Hnets Hf.
  rewrite (bf_local6 _ _ _ _ _ Hf), containsIP_scan by (done || by apply Forall_filter_ok).
  apply existsb_filter. intros p Hp. apply (keep6 v). apply dec_stable in Hp. by destruct (pfx_ip p).
Qed.

(** The rules of one family, given the matching lists. *)
Lemma runRules_policy b q icmp msf σ :
  Decoded b q → StoreOk σ → icmp = (if IPVersion q =? 4 then ICMPv4 else ICMPv6) →
  matchAll msf q capTest = policyPorts ms capTest q →
  matchIPsOnly msf q capTest = policyICMP ms capTest q →
  matchProtoAndIPsOnlyIfAllPorts msf q = policyOther ms q →
  ∃ σ', runRules icmp msf f q σ =
          Ok (verdict (policyRules ms capTest (trackedIn f q σ) q), σ') ∧ StoreOk σ'.
Proof using Hf.
  intros HD Hσ Hi Ha Hm Ho. unfold runRules, policyRules. rewrite <- Hi, (bf_caps _ _ _ _ _ Hf), Ha, Hm, Ho.
  destruct (IPProto q =? icmp).
  { destruct (isEcho_total b q ICMP4EchoReply ICMP6EchoReply HD) as [er He].
    destruct (IsError_total b q HD) as [ie Hie]. unfold IsEchoResponse. rewrite He, Hie. simpl.
    destruct er, ie; simpl; eauto. destruct (policyICMP _ _ _); eauto. }
  destruct (IPProto q =? TCP).
  { destruct (IsTCPSyn q); simpl; eauto. destruct (policyPorts _ _ _); eauto. }
  destruct (_ || _).
  - set (t := MakeTuple _ _ _). destruct (loadState_ok (state f) σ Hσ) as [HI Hmax].
    destruct (Get_tracked t _ HI) as (Hg & HI' & Hm').
    assert (trackedIn f q σ = bool_decide ((Get t (loadState (state f) σ)).1 ≠ None)) as ->.
    { apply bool_decide_ext. rewrite Hg. unfold flows. split; [tauto|apply dec_stable]. }
    destruct (Get t (loadState (state f) σ)) as [[u|] c]; simpl in *;
      [|destruct (policyPorts _ _ _)]; (eexists; split; [done|]); apply StoreOk_insert; congruence || done.
  - destruct (IPProto q =? TSMP); simpl; eauto. destruct (policyOther _ _); eauto.
Qed.

Lemma runIn_policy b q σ :
  Decoded b q → StoreOk σ → IPProto q ≠ Unknown →
  ∃ σ', (if IPVersion q =? 4 then runIn4 f q σ
         else if IPVersion q =? 6 then runIn6 f q σ else Ok (Drop, σ)) =
        Ok (verdict (inNets nets (ap_addr (Dst q)) && policyRules ms capTest (trackedIn f q σ) q), σ') ∧
        StoreOk σ'.
Proof using HB Hms Hnets Hf.
  intros HD Hσ Hn. pose proof HD as [_ Hv Hk _ Hfam]. destruct (Hfam Hn) as [H4 H6].
  destruct Hv as [Hv|[Hv|Hv]]; [by destruct Hn; apply Hk| |]; rewrite Hv; simpl.
  - destruct (H4 Hv) as [Hs Hd].
    destruct (ap_addr (Src q)) as [|s|] eqn:Es; [done| |done].
    destruct (ap_addr (Dst q)) as [|d|] eqn:Ed; [done| |done].
    unfold runIn4. rewrite Ed, local4_nets. destruct (inNets nets (Addr4 d)); simpl; [|by eauto].
    pose proof (keep4 s) as Ks. pose proof (keep4 d) as Kd. rewrite <- Es in Ks. rewrite <- Ed in Kd.
    rewrite (bf_match4 _ _ _ _ _ Hf). apply (runRules_policy b); try done.
    + by rewrite Hv.
    + by apply matchAll_policy.
    + apply matchICMP_policy; [done..|]. intros p. rewrite Ed. by destruct (pfx_ip p).
    + by apply matchOther_policy.
  - destruct (H6 Hv) as [[Hs Hsz] [Hd Hdz]].
    destruct (ap_addr (Src q)) as [| |s z] eqn:Es; [done..|].
    destruct (ap_addr (Dst q)) as [| |d z'] eqn:Ed; [done..|].
    simpl in Hsz, Hdz. apply negb_false_iff, bool_decide_eq_true in Hsz, Hdz. subst z z'.
    unfold runIn6. rewrite Ed, local6_nets. destruct (inNets nets (Addr6 d "")); simpl; [|by eauto].
    pose proof (keep6 s) as Ks. pose proof (keep6 d) as Kd. rewrite <- Es in Ks. rewrite <- Ed in Kd.
    rewrite (bf_match6 _ _ _ _ _ Hf). apply (runRules_policy b); try done.
    + by rewrite Hv.
    + by apply matchAll_policy.
    + apply matchICMP_policy; [done..|]. intros p. rewrite Ed. by destruct (pfx_ip p).
    + by apply matchOther_policy.
Qed.

Lemma RunIn_verdict b q σ :
  Decoded b q → StoreOk σ →
  ∃ σ', RunIn f q σ =
    Ok (if policyIn ms capTest nets f (trackedIn f q σ) q then Accept else Drop, σ') ∧ StoreOk σ'.
Proof using HB Hms Hnets Hf.
  intros HD Hσ. unfold RunIn, policyIn, policyPre, pre. rewrite Z.leb_antisym.
  destruct (zlen (pb q) =? 0); simpl; [by eauto|].
  destruct (zlen (pb q) <? 20); simpl; [by eauto|].
  destruct (Z.eqb_spec (IPProto q) Unknown) as [Hu|Hu]; simpl; [by eauto|].
  destruct (IsMulticast _); simpl; [by eauto|].
  assert (∀ b1 b2 : bool, b1 && negb b2 = negb (negb b1 || b2)) as -> by by intros [] [].
  destruct (negb (IsLinkLocalUnicast _) || _); simpl; [|by eauto].
  destruct (IPProto q =? Fragment); simpl; [by eauto|].
  destruct (runIn_policy b q σ HD Hσ Hu) as (σ' & -> & Hσ'). cbn [mbind res_bind]. exists σ'.
  destruct (_ && policyRules _ _ _ _); simpl; [by rewrite orb_true_r|]. rewrite orb_false_r.
  by destruct (existsb _ (IngressAllowHooks f)).
Qed.
End policy.

(** C13: the inbound filter implements its policy: for every packet that [Decode]
    produced and every filter that [New] built from rules, with any hooks, the
    verdict of [RunIn] is Accept exactly when the declarative policy on the
    original rules admits the packet (a keepalive; or a packet past the basic
    checks that is a later fragment, is let in by a hook, or goes to a local
    address and is an ICMP response, a TCP continuation, TSMP, a reply to a tracked
    flow, or matched by a rule), and Drop otherwise; it never panics. *)
Theorem RunIn_policy bartContains ms capTest nets f σ b q0 q :
  BartLaw bartContains → Forall match_ok ms → Forall prefix_ok nets →
  BuiltFrom bartContains ms capTest nets f → StoreOk σ →
  bytes_ok b → Decode b q0 = Ok q →
  ∃ σ', RunIn f q σ =
    Ok (if policyIn ms capTest nets f (trackedIn f q σ) q then Accept else Drop, σ') ∧ StoreOk σ'.
Proof.
  intros HB Hms Hnets Hf Hσ Hb HD. destruct (Decode_decoded b q0 Hb) as (q' & HD' & Hdec).
  rewrite HD in HD'. injection HD' as <-. by eapply RunIn_verdict.
Qed.

(** ** Connection tracking *)
Inductive FEvent := EvIn (f : Filter) (q : Parsed) | EvOut (f : Filter) (q : Parsed).

Fixpoint runEvents (evs : list FEvent) (σ : Store) : res () Store :=
  match evs with
  | [] => Ok σ
  | EvIn f q :: evs => rσ ← RunIn f q σ; runEvents evs rσ.2
  | EvOut f q :: evs => runEvents evs (RunOut f q σ).2
  end.

Lemma RunIn_store f q σ r σ' :
  RunIn f q σ = Ok (r, σ') →
  σ' = σ ∨ ∃ t, σ' = <[state f := (Get t (loadState (state f) σ)).2]> σ.
Proof.
  assert (∀ icmp ms r σ', runRules icmp ms f q σ = Ok (r, σ') →
    σ' = σ ∨ ∃ t, σ' = <[state f := (Get t (loadState (state f) σ)).2]> σ) as Hrules.
  { intros icmp ms r1 σ1 H. unfold runRules in H.
    destruct (Get (MakeTuple (IPProto q) (Src q) (Dst q)) (loadState (state f) σ)) as [v c] eqn:Hg.
    simplify_res; auto; right; exists (MakeTuple (IPProto q) (Src q) (Dst q)); by rewrite Hg. }
  unfold RunIn, runIn4, runIn6. intros H. destruct (_ || _); [simplify_res; by left|].
  apply bind_ok in H as ([r1 σ1] & H1 & H).
  assert (σ' = σ1) as -> by (destruct (decide _); [destruct (existsb _ _)|]; by simplify_eq).
  destruct (IPVersion q =? 4); [|destruct (IPVersion q =? 6); [|simplify_eq; by left]].
  all: destruct (negb _); [simplify_eq; by left|by eapply Hrules].
Qed.

Lemma RunOut_store f q σ :
  (RunOut f q σ).2 = σ ∨
  ∃ t, (RunOut f q σ).2 = <[state f := Add t () (loadState (state f) σ)]> σ.
Proof.
  unfold RunOut, runOut, UpdateOutboundFlowState. destruct (pre f q) as [r reason].
  destruct (_ || _); [by left|]. destruct (_ || _); [right; by eexists|by left].
Qed.

Lemma take_filter_elem {A} (P : A → Prop) `{∀ x, Decision (P x)} (x : A) l : ∀ n,
  P x → x ∈ take n l → x ∈ take n (filter P l).
Proof.
  induction l as [|y l IH]; intros n Hp Hx; [rewrite take_nil in Hx; by apply elem_of_nil in Hx|].
  destruct n as [|n]; [by apply elem_of_nil in Hx|]. simpl in Hx. rewrite filter_cons.
  apply elem_of_cons in Hx as [->|Hx].
  - rewrite decide_True by done. left.
  - case_decide; [right; by apply IH|].
    assert (∀ (l : list A) z, z ∈ take n l → z ∈ take (S n) l) as Hmono.
    { intros l' z (i & Hi)%list_elem_of_lookup_1. apply lookup_take_Some in Hi as [Hi Hlt].
      apply (list_elem_of_lookup_2 _ i), lookup_take_Some. split; [done|lia]. }
    by apply Hmono, IH.
Qed.

(** An operation on the cache moves a tuple back by at most one place. *)
Lemma aDel_within (t k : Tuple) n (l : list (Tuple * unit)) :
  t ≠ k → t ∈ (take n l).*1 → t ∈ (take n (aDel k l)).*1.
Proof.
  intros Hne ([t' u] & -> & Hin)%list_elem_of_fmap. apply (list_elem_of_fmap_2 fst _ (t', u)).
  by apply take_filter_elem.
Qed.

Lemma aAdd_within (t k : Tuple) n (l : list (Tuple * unit)) :
  t ∈ (take n l).*1 → Z.of_nat (S n) ≤ lruMax → t ∈ (take (S n) (aAdd lruMax k () l)).*1.
Proof.
  intros Ht Hn. unfold aAdd. destruct (aFind k l) eqn:Hf.
  - simpl. destruct (decide (t = k)) as [->|Hne]; [left|right]. by apply aDel_within.
  - assert (t ∈ (take (S n) ((k, ()) :: l)).*1) as Hin by (simpl; by right).
    case_decide as Hd; [|done]. unfold aRemoveOldest. rewrite take_take.
    replace (S n `min` _)%nat with (S n); [done|]. cbn [length] in *. destruct Hd as [_ Hd]. lia.
Qed.

Lemma aGet_within (t k : Tuple) n (l : list (Tuple * unit)) :
  t ∈ (take n l).*1 → t ∈ (take (S n) (aGet k l).2).*1.
Proof.
  intros Ht. unfold aGet. destruct (aFind k l) as [[]|]; simpl.
  - destruct (decide (t = k)) as [->|Hne]; [left|right]. by apply aDel_within.
  - apply list_elem_of_fmap in Ht as (p & -> & (i & Hi)%list_elem_of_lookup_1).
    apply lookup_take_Some in Hi as [Hi Hlt]. apply list_elem_of_fmap_2.
    apply (list_elem_of_lookup_2 _ i), lookup_take_Some. split; [done|lia].
Qed.

Definition withinFlows (n : nat) (t : Tuple) (r : nat) (σ : Store) : Prop :=
  t ∈ (take n (absCache (loadState r σ))).*1.

Lemma withinFlows_upd n t r r' c σ :
  withinFlows n t r σ →
  (r' = r → t ∈ (take (S n) (@absCache unit c)).*1) → withinFlows (S n) t r (<[r' := c]> σ).
Proof.
  intros Hw Hc. unfold withinFlows, loadState in *. rewrite lookup_insert. case_decide; [by apply Hc|].
  apply list_elem_of_fmap in Hw as (p & -> & (i & Hi)%list_elem_of_lookup_1).
  apply lookup_take_Some in Hi as [Hi Hlt]. apply list_elem_of_fmap_2.
  apply (list_elem_of_lookup_2 _ i), lookup_take_Some. split; [done|lia].
Qed.
Lemma withinFlows_S n t r σ : withinFlows n t r σ → withinFlows (S n) t r σ.
Proof.
  unfold withinFlows. intros (p & -> & (i & Hi)%list_elem_of_lookup_1)%list_elem_of_fmap.
  apply lookup_take_Some in Hi as [Hi Hlt]. apply list_elem_of_fmap_2.
  apply (list_elem_of_lookup_2 _ i), lookup_take_Some. split; [done|lia].
Qed.

Lemma Get_step t n r k σ f :
  StoreOk σ → withinFlows n t r σ →
  withinFlows (S n) t r (<[state f := (Get k (loadState (state f) σ)).2]> σ) ∧
  StoreOk (<[state f := (Get k (loadState (state f) σ)).2]> σ).
Proof.
  intros Hσ Hw. destruct (loadState_ok (state f) σ Hσ) as [HI Hm].
  destruct (Get_inv k _ HI) as (HI' & _ & Ha). split.
  - apply withinFlows_upd; [done|]. intros <-. rewrite Ha. by apply aGet_within.
  - apply StoreOk_insert; [done..|]. by rewrite (proj1 (proj2 (MaxEntries_ops k () _))).
Qed.
Lemma Add_step t n r k σ f :
  StoreOk σ → withinFlows n t r σ → Z.of_nat (S n) ≤ lruMax →
  withinFlows (S n) t r (<[state f := Add k () (loadState (state f) σ)]> σ) ∧
  StoreOk (<[state f := Add k () (loadState (state f) σ)]> σ).
Proof.
  intros Hσ Hw Hn. destruct (loadState_ok (state f) σ Hσ) as [HI Hm].
  destruct (Add_inv k () _ HI) as (HI' & Ha). rewrite Hm in Ha. split.
  - apply withinFlows_upd; [done|]. intros <-. rewrite Ha. by apply aAdd_within.
  - apply StoreOk_insert; [done..|]. by rewrite (proj1 (MaxEntries_ops k () _)).
Qed.

(** A filter looks flows up, and this changes no more than their order: the flows that
    are tracked stay the same. *)
Lemma aGet_elem (t k : Tuple) (l : list (Tuple * unit)) : t ∈ (aGet k l).2.*1 ↔ t ∈ l.*1.
Proof.
  unfold aGet. destruct (aFind k l) as [v|] eqn:Hk; [|done]. cbn [snd fmap list_fmap fst]. rewrite elem_of_cons. split.
  - intros [->|([t' u] & -> & [_ Hin]%list_elem_of_filter)%list_elem_of_fmap]; [apply aFind_elem; by eexists|by apply (list_elem_of_fmap_2 fst) in Hin].
  - intros ([t' u] & -> & Hin)%list_elem_of_fmap. cbn [fst]. destruct (decide (t' = k)) as [->|Hne]; [by left|right].
    apply (list_elem_of_fmap_2 fst _ (t', u)). by apply list_elem_of_filter.
Qed.
Lemma RunIn_tracked f q σ r σ' :
  StoreOk σ → RunIn f q σ = Ok (r, σ') → ∀ g p, trackedIn g p σ' = trackedIn g p σ.
Proof.
  intros Hσ [->|[k ->]]%RunIn_store g p; [done|]. apply bool_decide_ext. unfold flows, loadState. rewrite lookup_insert.
  case_decide as Hs; [|done]. cbn [default id]. fold (loadState (state f) σ). rewrite <- Hs. fold (loadState (state f) σ).
  destruct (loadState_ok (state f) σ Hσ) as [HI _]. destruct (Get_inv k _ HI) as (_ & _ & ->). apply aGet_elem.
Qed.

Lemma runEvents_within t r evs : ∀ n σ σ',
  StoreOk σ → withinFlows n t r σ → Z.of_nat (n + length evs) ≤ lruMax →
  runEvents evs σ = Ok σ' → withinFlows (n + length evs) t r σ' ∧ StoreOk σ'.
Proof.
  induction evs as [|ev evs IH]; intros n σ σ' Hσ Hw Hn H; simpl in *.
  { injection H as <-. by rewrite Nat.add_0_r. }
  replace (n + S (length evs))%nat with (S n + length evs)%nat in * by lia.
  destruct ev as [f q|f q].
  - apply bind_ok in H as ([v σ1] & H1 & H). simpl in H.
    destruct (RunIn_store _ _ _ _ _ H1) as [->|[k ->]].
    + eapply IH; [exact Hσ|by apply withinFlows_S|lia|exact H].
    + destruct (Get_step t n r k σ f Hσ Hw). by eapply IH; [| | |exact H].
  - destruct (RunOut_store f q σ) as [He|[k He]]; rewrite He in H.
    + eapply IH; [exact Hσ|by apply withinFlows_S|lia|exact H].
    + destruct (Add_step t n r k σ f Hσ Hw) as [? ?]; [lia|]. by eapply IH; [| | |exact H].
Qed.

Lemma RunOut_ok f q σ : StoreOk σ → StoreOk (RunOut f q σ).2.
Proof.
  intros Hσ. destruct (RunOut_store f q σ) as [->|[k ->]]; [done|]. destruct (loadState_ok (state f) σ Hσ) as [HI Hm].
  destruct (Add_inv k () _ HI) as (HI' & _). apply StoreOk_insert; [done..|]. by rewrite (proj1 (MaxEntries_ops k () _)).
Qed.
Lemma runEvents_ok evs : ∀ σ σ', StoreOk σ → runEvents evs σ = Ok σ' → StoreOk σ'.
Proof.
  induction evs as [|[f q|f q] evs IH]; intros σ σ' Hσ H; cbn [runEvents] in H; [by injection H as <-| |].
  - apply bind_ok in H as ([v σ1] & H1 & H). eapply IH; [|exact H]. cbn. destruct (RunIn_store _ _ _ _ _ H1) as [->|[k ->]]; [done|].
    destruct (loadState_ok (state f) σ Hσ) as [HI Hm]. destruct (Get_inv k _ HI) as (HI' & _).
    apply StoreOk_insert; [done..|]. by rewrite (proj1 (proj2 (MaxEntries_ops k () _))).
  - eapply IH; [|exact H]. by apply RunOut_ok.
Qed.

(** The flow of an outbound packet is the most recent one. *)
Lemma RunOut_tracks f q σ :
  StoreOk σ → IPProto q = UDP ∨ IPProto q = SCTP → (pre f q).1 = noVerdict →
  StoreOk (RunOut f q σ).2 ∧
  withinFlows 1 (MakeTuple (IPProto q) (Dst q) (Src q)) (state f) (RunOut f q σ).2.
Proof.
  intros Hσ Hp Hpre. destruct (loadState_ok (state f) σ Hσ) as [HI Hm].
  unfold RunOut, runOut, UpdateOutboundFlowState. destruct (pre f q) as [r reason]. simpl in Hpre. subst r. simpl.
  assert ((IPProto q =? UDP) || (IPProto q =? SCTP) = true) as ->
    by (apply orb_true_iff; rewrite !Z.eqb_eq; done).
  set (t := MakeTuple _ _ _). destruct (Add_inv t () _ HI) as (HI' & Ha). simpl. split.
  - apply StoreOk_insert; [done..|]. by rewrite (proj1 (MaxEntries_ops t () _)).
  - unfold withinFlows, loadState. rewrite lookup_insert_eq. simpl. fold (loadState (state f) σ). rewrite Ha.
    rewrite Hm. unfold aAdd. destruct (aFind t _); [left|].
    case_decide as Hd; [|left]. unfold aRemoveOldest. rewrite take_take. unfold lruMax in Hd. cbn [length] in *.
    replace (1 `min` (S (length (absCache (loadState (state f) σ))) - 1))%nat with 1%nat by lia. left.
Qed.

(** A tracked flow is admitted to a local address. *)
Lemma withinFlows_tracked n f p σ t :
  withinFlows n t (state f) σ → MakeTuple (IPProto p) (Src p) (Dst p) = t → trackedIn f p σ = true.
Proof.
  intros Hw Ht. apply bool_decide_eq_true. rewrite Ht. unfold withinFlows in Hw. unfold flows.
  apply list_elem_of_fmap in Hw as (x & -> & Hx). apply list_elem_of_fmap_2.
  by apply elem_of_take in Hx as (i & Hi & _); eapply list_elem_of_lookup_2.
Qed.
Lemma policyIn_tracked ms capTest nets f p :
  IPProto p = UDP ∨ IPProto p = SCTP → policyPre f p = true → inNets nets (ap_addr (Dst p)) = true →
  policyIn ms capTest nets f true p = true.
Proof.
  intros Hproto Hpol Hloc. unfold policyIn. rewrite Hpol, Hloc. unfold policyRules.
  assert ((IPProto p =? (if IPVersion p =? 4 then ICMPv4 else ICMPv6)) = false) as ->.
  { apply Z.eqb_neq. destruct (IPVersion p =? 4), Hproto as [-> | ->]; discriminate. }
  assert ((IPProto p =? TCP) = false) as -> by (apply Z.eqb_neq; destruct Hproto as [-> | ->]; discriminate).
  assert ((IPProto p =? UDP) || (IPProto p =? SCTP) = true) as ->
    by (apply orb_true_iff; rewrite !Z.eqb_eq; done).
  simpl. by rewrite !orb_true_r.
Qed.

Lemma policyIn_continuation ms capTest nets f tracked p :
  IPProto p = TCP → IsTCPSyn p = false → policyPre f p = true → inNets nets (ap_addr (Dst p)) = true →
  policyIn ms capTest nets f tracked p = true.
Proof.
  intros Hp Hsyn Hpol Hloc. unfold policyIn. rewrite Hpol, Hloc. unfold policyRules. rewrite Hp, Hsyn.
  by destruct (IPVersion p =? 4); cbn; rewrite !orb_true_r.
Qed.

(** Replies to outbound UDP and SCTP flows are admitted: once a packet has
    left through a filter, its reply is accepted by every filter that shares the
    state (in particular a newer one built with [shareStateWith]) with no rule for
    it, as long as the reply is to a local address and passes the basic checks and
    at most 511 other packets, in or out, through any filters, came in between. *)
Theorem reply_admitted bartContains ms capTest nets f f' q p b p0 evs σ σ2 :
  BartLaw bartContains → Forall match_ok ms → Forall prefix_ok nets →
  BuiltFrom bartContains ms capTest nets f' → state f' = state f → StoreOk σ →
  IPProto q = UDP ∨ IPProto q = SCTP → (pre f q).1 = noVerdict →
  (length evs < 512)%nat → runEvents evs (RunOut f q σ).2 = Ok σ2 →
  bytes_ok b → Decode b p0 = Ok p →
  IPProto p = IPProto q → Src p = Dst q → Dst p = Src q →
  policyPre f' p = true → inNets nets (ap_addr (Dst p)) = true →
  ∃ σ3, RunIn f' p σ2 = Ok (Accept, σ3).
Proof.
  intros HB Hms Hnets Hf' Hst Hσ Hproto Hpre Hlen Hrun Hb HD Hpp Hsrc Hdst Hpol Hloc.
  destruct (RunOut_tracks f q σ Hσ Hproto Hpre) as [Hσ1 Hw].
  assert (Z.of_nat (1 + length evs) ≤ lruMax) as Hmax by (unfold lruMax; lia).
  destruct (runEvents_within _ _ _ _ _ _ Hσ1 Hw Hmax Hrun) as [Hw2 Hσ2].
  destruct (Decode_decoded b p0 Hb) as (p' & HD' & Hdec). rewrite HD in HD'. injection HD' as <-.
  destruct (RunIn_verdict bartContains ms capTest nets f' Hms Hnets Hf' b p σ2 Hdec Hσ2) as (σ3 & -> & _).
  exists σ3. rewrite <- Hst in Hw2. rewrite (withinFlows_tracked _ f' p σ2 _ Hw2) by (by rewrite Hpp, Hsrc, Hdst).
  by rewrite policyIn_tracked by (done || by rewrite Hpp).
Qed.

(** A shields-up filter admits no new connection: it accepts no TCP SYN and no
    UDP or SCTP packet but a reply to a flow in its state, and that state never is
    the one of a filter that was not shields-up itself. *)
Theorem shieldsUp_blocks bartContains nets share σ b q0 q σ' :
  BartLaw bartContains → Forall prefix_ok nets → StoreOk σ →
  bytes_ok b → Decode b q0 = Ok q → zlen b ≠ 0 →
  let f := (NewShieldsUpFilter bartContains (Some nets) share σ).1 in
  let σ1 := (NewShieldsUpFilter bartContains (Some nets) share σ).2 in
  RunIn f q σ1 = Ok (Accept, σ') →
  (IPProto q = TCP → IsTCPSyn q = false) ∧
  (IPProto q = UDP ∨ IPProto q = SCTP → trackedIn f q σ1 = true) ∧
  (∀ g, share = Some g → shieldsUp g = false → σ !! state f = None).
Proof.
  intros HB Hnets Hσ Hb HD Hz f σ1 Hacc.
  destruct (Decode_decoded b q0 Hb) as (q' & HD' & Hdec). rewrite HD in HD'. injection HD' as <-.
  assert (StoreOk σ1 ∧ (∀ g, share = Some g → shieldsUp g = false → σ !! state f = None)) as [Hσ1 Hiso].
  { unfold f, σ1, NewShieldsUpFilter, New.
    destruct share as [g|]; [destruct (shieldsUp g) eqn:Hg|]; simpl; split; try done.
    - intros ? [= <-] ?. congruence.
    - apply StoreOk_insert; [done|apply emptyCache_inv|done].
    - intros _ _ _. apply not_elem_of_dom, is_fresh.
    - apply StoreOk_insert; [done|apply emptyCache_inv|done]. }
  assert (BuiltFrom bartContains [] None nets f ∧ IngressAllowHooks f = []) as [Hf Hh].
  { unfold f, NewShieldsUpFilter.
    set (sh := match share with Some g => _ | None => None end).
    pose proof (New_built bartContains [] None nets sh σ) as HN.
    assert (IngressAllowHooks (New bartContains [] None (Some nets) sh σ).1 = []) as HH
      by (unfold New; by destruct sh).
    destruct (New bartContains [] None (Some nets) sh σ) as [g σg]. simpl in *. destruct HN. by split. }
  destruct (RunIn_verdict bartContains [] None nets f (Forall_nil_2 _) Hnets Hf b q σ1 Hdec Hσ1)
    as (σ2 & He & _). rewrite Hacc in He. injection He as He _.
  destruct (policyIn _ _ _ _ _ _) eqn:Hpol; [|done]. clear He. unfold policyIn in Hpol.
  rewrite (d_buf _ _ Hdec), Hh in Hpol. apply Z.eqb_neq in Hz. rewrite Hz in Hpol. simpl in Hpol.
  apply andb_true_iff in Hpol as [_ Hpol]. rewrite orb_false_r in Hpol.
  split_and!; [| |done].
  - intros Ht. rewrite Ht in Hpol. simpl in Hpol. apply andb_true_iff in Hpol as [_ Hr].
    unfold policyRules in Hr. rewrite Ht in Hr.
    by destruct (IPVersion q =? 4); destruct (IsTCPSyn q).
  - intros Hu. assert ((IPProto q =? Fragment) = false) as Hnf
      by (apply Z.eqb_neq; destruct Hu as [-> | ->]; discriminate).
    rewrite Hnf in Hpol. simpl in Hpol. apply andb_true_iff in Hpol as [_ Hr]. unfold policyRules in Hr.
    destruct Hu as [Hu|Hu]; rewrite Hu in Hr; destruct (IPVersion q =? 4), (trackedIn f q σ1); done.
Qed.

(** A filter with one rule, a UDP packet to it and the reply. *)
Definition exNets : list Prefix := [mkPrefix (IPv4 10 0 0 2) 33].
Definition exRules : list Match :=
  [mkMatch [UDP] [mkPrefix (IPv4 10 0 0 1) 33] (λ _, false) [] [mkNetPortRange (mkPrefix (IPv4 10 0 0 2) 33) AllPorts] []].
Definition exFilter : Filter := (New scanBart exRules None (Some exNets) None ∅).1.
Definition exStore : Store := (New scanBart exRules None (Some exNets) None ∅).2.

#[export] Instance scanBart_law : BartLaw scanBart.
Proof. by intros ps ip. Qed.
Lemma exStoreOk : StoreOk exStore.
Proof. apply StoreOk_insert; [intros r c H; rewrite lookup_empty in H; discriminate|apply emptyCache_inv|done]. Qed.
Lemma exUDP_ok : bytes_ok exUDP.
Proof. repeat constructor; vm_compute; discriminate || reflexivity. Qed.
Lemma exNets_ok : Forall prefix_ok exNets.
Proof. repeat constructor; try discriminate; simpl; lia. Qed.
Lemma exRules_ok : Forall match_ok exRules.
Proof. repeat constructor; try discriminate; simpl; lia. Qed.

Definition exOutUDP : bytes :=
  [0x45; 0; 0; 28; 0; 0; 0; 0; 64; 0x11; 0; 0; 10; 0; 0; 2; 10; 0; 0; 1; 0; 81; 0; 80; 0; 8; 0; 0].
Definition exOut : Parsed :=
  Eval vm_compute in match Decode exOutUDP zeroParsed with Ok q => q | _ => zeroParsed end.

Lemma RunIn_policy_witness : ∃ σ', RunIn exFilter exParsed exStore = Ok (Accept, σ').
Proof.
  destruct (RunIn_policy scanBart exRules None exNets exFilter exStore exUDP zeroParsed exParsed)
    as (σ' & H & _).
  - exact scanBart_law.
  - exact exRules_ok.
  - exact exNets_ok.
  - apply New_built.
  - exact exStoreOk.
  - exact exUDP_ok.
  - vm_compute. reflexivity.
  - exists σ'. rewrite H. vm_compute. reflexivity.
Defined.

Lemma reply_admitted_witness :
  ∃ σ3, RunIn (New scanBart [] None (Some exNets) (Some exFilter) exStore).1 exParsed
          (RunOut exFilter exOut exStore).2 = Ok (Accept, σ3).
Proof.
  apply (reply_admitted scanBart [] None exNets exFilter
           (New scanBart [] None (Some exNets) (Some exFilter) exStore).1
           exOut exParsed exUDP zeroParsed [] exStore).
  - exact scanBart_law.
  - constructor.
  - exact exNets_ok.
  - apply New_built.
  - reflexivity.
  - exact exStoreOk.
  - left. reflexivity.
  - vm_compute. reflexivity.
  - simpl. lia.
  - reflexivity.
  - exact exUDP_ok.
  - vm_compute. reflexivity.
  - reflexivity.
  - reflexivity.
  - reflexivity.
  - vm_compute. reflexivity.
  - vm_compute. reflexivity.
Defined.

(** A reply to a flow out of the shields-up filter itself. *)
Definition exShields : Filter * Store := NewShieldsUpFilter scanBart (Some exNets) (Some exFilter) exStore.
Definition exTracked : Store := (RunOut exShields.1 exOut exShields.2).2.

Lemma exTrackedOk : StoreOk exTracked.
Proof.
  apply RunOut_tracks; [|left; reflexivity|vm_compute; reflexivity].
  apply StoreOk_insert; [apply exStoreOk|apply emptyCache_inv|done].
Qed.

Lemma exShields_accepts :
  let sh := NewShieldsUpFilter scanBart (Some exNets) (Some exShields.1) exTracked in
  ∃ σ', RunIn sh.1 exParsed sh.2 = Ok (Accept, σ').
Proof.
  intros sh. assert ((match RunIn sh.1 exParsed sh.2 with Ok (Accept, _) => true | _ => false end) = true) as H
    by (vm_compute; reflexivity).
  destruct (RunIn sh.1 exParsed sh.2) as [[[] σ']| |]; try discriminate. by exists σ'.
Qed.

Lemma shieldsUp_blocks_witness :
  trackedIn (NewShieldsUpFilter scanBart (Some exNets) (Some exShields.1) exTracked).1 exParsed exTracked = true.
Proof.
  destruct exShields_accepts as [σ' H].
  eapply (shieldsUp_blocks scanBart exNets (Some exShields.1) exTracked exUDP zeroParsed exParsed σ').
  - exact scanBart_law.
  - exact exNets_ok.
  - exact exTrackedOk.
  - exact exUDP_ok.
  - vm_compute. reflexivity.
  - discriminate.
  - exact H.
  - left. reflexivity.
Defined.
