(* ===== verification/Headers.v ===== *)
(** * Packet generation: net/packet headers

    The header types of net/packet (IP4Header, IP6Header, UDP4Header, UDP6Header,
    ICMP4Header, ICMP6Header), their [Marshal], [ToResponse] and [WriteChecksum],
    the Internet checksums, [Generate], and the accessors of [Parsed] that return a
    header. A buffer is a byte list that [Marshal] maps to the written buffer; every
    error is returned before the first write, so an error leaves the buffer as it
    was. *)

From stdpp Require Import base list.
From S2P Require Import Prelude Bytes NetIP Packet.

Inductive HdrErr := errSmallBuffer | errLargePacket | errWrongFamily
  | errBogusSrcIP | errPayloadLength (n : Z).   (* of the TSMP messages *)

Definition maxPacketLength : Z := 65535.

(** The Header interface; [WriteChecksum] is that of HeaderChecksummer, for the
    types that implement it. *)
Class Header (H : Type) := {
  HLen : H → Z;
  Marshal : H → bytes → res HdrErr bytes;
  WriteChecksum : option (H → bytes → res HdrErr bytes)
}.

(** A call whose error is discarded: the buffer keeps its content. *)
Definition ignoreErr (buf : bytes) (r : res HdrErr bytes) : res HdrErr bytes :=
  match r with Err _ => Ok buf | r => r end.

Definition Generate {H} `{Header H} (h : H) (payload : bytes) : res HdrErr bytes :=
  let hlen := HLen h in
  let buf := replicate (Z.to_nat hlen) 0 ++ payload in
  buf ← ignoreErr buf (Marshal h buf);
  match WriteChecksum with Some wc => wc h buf | None => Ok buf end.

(** The packet accessors never return an error. *)
Definition liftPkt {A} (r : res () A) : res HdrErr A :=
  match r with Ok a => Ok a | Err _ => Panic | Panic => Panic end.

(** ** Checksums *)

(** The summing loop of [ip4Checksum] on a 32-bit accumulator. *)
Fixpoint csumLoop (b : bytes) (ac : Z) : Z :=
  match b with
  | x :: y :: b => csumLoop b (u32 (ac + be_val 0 [x; y]))
  | [x] => u32 (ac + Z.shiftl x 8)
  | [] => ac
  end.

(** The folding loop; two rounds are enough for a 32-bit value. *)
Fixpoint csumFold (fuel : nat) (ac : Z) : Z :=
  match fuel with
  | O => ac
  | S fuel => if 0 <? Z.shiftr ac 16 then csumFold fuel (u32 (Z.shiftr ac 16 + Z.land ac 0xffff)) else ac
  end.

Definition ip4Checksum (b : bytes) : Z := u16 (notN 32 (csumFold 2 (csumLoop b 0))).

Definition checksumCombine (a b : Z) : Z :=
  let v := u32 (a + b) in u16 (u32 (v + Z.shiftr v 16)).

(** The loop of [checksumBytes] over pairs. *)
Fixpoint pairSum (b : bytes) (v : Z) : Z :=
  match b with
  | x :: y :: b => pairSum b (u32 (v + (Z.shiftl x 8 + y)))
  | _ => v
  end.

Definition checksumBytes (buf : bytes) (initial : Z) : Z :=
  let v := initial in
  let '(v, buf) :=
    match buf with
    | x :: rest => if Nat.odd (length buf) then (u32 (v + x), rest) else (v, buf)
    | [] => (v, buf)
    end in
  let n := length buf in
  let '(v, n) :=
    if Nat.odd n then (u32 (v + Z.shiftl (nth (n - 1) buf 0) 8), (n - 1)%nat) else (v, n) in
  let v := pairSum (take n buf) v in
  checksumCombine (u16 v) (u16 (Z.shiftr v 16)).

Definition icmp6Checksum (header src dst payload : bytes) : res HdrErr Z :=
  let xsum := checksumBytes src 0 in
  let xsum := checksumBytes dst xsum in
  let xsum := checksumBytes (be_bytes 4 (zlen header + zlen payload)) xsum in
  let xsum := checksumBytes [0; 0; 0; ICMPv6] xsum in
  let xsum := checksumBytes payload xsum in
  hdrz ← put (replicate 4 0) 0 (take 4 header);
  hdrz ← put hdrz 2 [0; 0];
  Ok (notN 16 (checksumBytes hdrz xsum)).

(** ** IPv4 *)
Record IP4Header := mkIP4Header { IP4Proto : Z; IP4ID : Z; IP4Src : Addr; IP4Dst : Addr }.

Definition ip4Marshal (h : IP4Header) (buf : bytes) : res HdrErr bytes :=
  if zlen buf <? ip4HeaderLength then Err errSmallBuffer
  else if maxPacketLength <? zlen buf then Err errLargePacket
  else if negb (Is4 (IP4Src h)) || negb (Is4 (IP4Dst h)) then Err errWrongFamily
  else
    buf ← put buf 0 [Z.lor 0x40 (u8 (Z.shiftr ip4HeaderLength 2)); 0];
    buf ← put_be 2 buf 2 (u16 (zlen buf));
    buf ← put_be 2 buf 4 (IP4ID h);
    buf ← put_be 2 buf 6 0;
    buf ← put buf 8 [64; IP4Proto h];
    buf ← put_be 2 buf 10 0;
    src ← As4 (IP4Src h);
    dst ← As4 (IP4Dst h);
    buf ← put buf 12 src;
    buf ← put buf 16 dst;
    hd ← slice buf 0 20;
    put_be 2 buf 10 (ip4Checksum hd).

Definition ip4ToResponse (h : IP4Header) : IP4Header :=
  mkIP4Header (IP4Proto h) (notN 16 (IP4ID h)) (IP4Dst h) (IP4Src h).

Definition ip4MarshalPseudo (h : IP4Header) (buf : bytes) : res HdrErr bytes :=
  if zlen buf <? ip4HeaderLength then Err errSmallBuffer
  else if maxPacketLength <? zlen buf then Err errLargePacket
  else
    let length := zlen buf - ip4HeaderLength in
    src ← As4 (IP4Src h);
    dst ← As4 (IP4Dst h);
    buf ← put buf 8 src;
    buf ← put buf 12 dst;
    buf ← put buf 16 [0; IP4Proto h];
    put_be 2 buf 18 (u16 length).

#[export] Instance IP4Header_Header : Header IP4Header :=
  {| HLen _ := ip4HeaderLength; Marshal := ip4Marshal; WriteChecksum := None |}.

(** ** IPv6 *)
Record IP6Header := mkIP6Header { IP6Proto : Z; IP6ID : Z; IP6Src : Addr; IP6Dst : Addr }.

Definition ip6Marshal (h : IP6Header) (buf : bytes) : res HdrErr bytes :=
  if zlen buf <? ip6HeaderLength then Err errSmallBuffer
  else if maxPacketLength <? zlen buf then Err errLargePacket
  else
    buf ← put_be 4 buf 0 (Z.land (IP6ID h) 0x000FFFFF);
    buf ← put buf 0 [0x60];
    buf ← put_be 2 buf 4 (u16 (zlen buf - ip6HeaderLength));
    buf ← put buf 6 [IP6Proto h; 64];
    buf ← put buf 8 (As16 (IP6Src h));
    put buf 24 (As16 (IP6Dst h)).

Definition ip6ToResponse (h : IP6Header) : IP6Header :=
  mkIP6Header (IP6Proto h) (Z.land (notN 32 (IP6ID h)) 0x000FFFFF) (IP6Dst h) (IP6Src h).

Definition ip6MarshalPseudo (h : IP6Header) (buf : bytes) (proto : Z) : res HdrErr bytes :=
  if zlen buf <? ip6HeaderLength then Err errSmallBuffer
  else if maxPacketLength <? zlen buf then Err errLargePacket
  else
    buf ← put buf 0 (As16 (IP6Src h));
    buf ← put buf 16 (As16 (IP6Dst h));
    buf ← put_be 4 buf 32 (u32 (zlen buf - ip6HeaderLength));
    put buf 36 [0; 0; 0; proto].

#[export] Instance IP6Header_Header : Header IP6Header :=
  {| HLen _ := ip6HeaderLength; Marshal := ip6Marshal; WriteChecksum := None |}.

(** ** UDP *)
Record UDP4Header := mkUDP4Header { UDP4IP : IP4Header; UDP4SrcPort : Z; UDP4DstPort : Z }.

Definition udp4Len : Z := ip4HeaderLength + udpHeaderLength.
Definition ip4PseudoHeaderOffset : Z := 8.

Definition udp4Marshal (h : UDP4Header) (buf : bytes) : res HdrErr bytes :=
  if zlen buf <? udp4Len then Err errSmallBuffer
  else if maxPacketLength <? zlen buf then Err errLargePacket
  else
    let ip := mkIP4Header UDP (IP4ID (UDP4IP h)) (IP4Src (UDP4IP h)) (IP4Dst (UDP4IP h)) in
    let length := zlen buf - ip4HeaderLength in
    buf ← put_be 2 buf 20 (UDP4SrcPort h);
    buf ← put_be 2 buf 22 (UDP4DstPort h);
    buf ← put_be 2 buf 24 (u16 length);
    buf ← put_be 2 buf 26 0;
    buf ← ignoreErr buf (ip4MarshalPseudo ip buf);
    ps ← slice_from buf ip4PseudoHeaderOffset;
    buf ← put_be 2 buf 26 (ip4Checksum ps);
    ignoreErr buf (ip4Marshal ip buf).

Definition udp4ToResponse (h : UDP4Header) : UDP4Header :=
  mkUDP4Header (ip4ToResponse (UDP4IP h)) (UDP4DstPort h) (UDP4SrcPort h).

#[export] Instance UDP4Header_Header : Header UDP4Header :=
  {| HLen _ := udp4Len; Marshal := udp4Marshal; WriteChecksum := None |}.

Record UDP6Header := mkUDP6Header { UDP6IP : IP6Header; UDP6SrcPort : Z; UDP6DstPort : Z }.

Definition udp6Len : Z := ip6HeaderLength + udpHeaderLength.

Definition udp6Marshal (h : UDP6Header) (buf : bytes) : res HdrErr bytes :=
  if zlen buf <? udp6Len then Err errSmallBuffer
  else if maxPacketLength <? zlen buf then Err errLargePacket
  else
    let ip := mkIP6Header UDP (IP6ID (UDP6IP h)) (IP6Src (UDP6IP h)) (IP6Dst (UDP6IP h)) in
    let length := zlen buf - ip6HeaderLength in
    buf ← put_be 2 buf 40 (UDP6SrcPort h);
    buf ← put_be 2 buf 42 (UDP6DstPort h);
    buf ← put_be 2 buf 44 (u16 length);
    buf ← put_be 2 buf 46 0;
    buf ← ignoreErr buf (ip6MarshalPseudo ip buf UDP);
    buf ← put_be 2 buf 46 (ip4Checksum buf);
    ignoreErr buf (ip6Marshal ip buf).

Definition udp6ToResponse (h : UDP6Header) : UDP6Header :=
  mkUDP6Header (ip6ToResponse (UDP6IP h)) (UDP6DstPort h) (UDP6SrcPort h).

#[export] Instance UDP6Header_Header : Header UDP6Header :=
  {| HLen _ := udp6Len; Marshal := udp6Marshal; WriteChecksum := None |}.

(** ** ICMP *)
Record ICMP4Header := mkICMP4Header { ICMP4IP : IP4Header; ICMP4Type : Z; ICMP4Code : Z }.

Definition icmp4Len : Z := ip4HeaderLength + icmp4HeaderLength.
Definition ICMP4NoCode : Z := 0.

Definition icmp4Marshal (h : ICMP4Header) (buf : bytes) : res HdrErr bytes :=
  if zlen buf <? icmp4Len then Err errSmallBuffer
  else if maxPacketLength <? zlen buf then Err errLargePacket
  else
    let ip := mkIP4Header ICMPv4 (IP4ID (ICMP4IP h)) (IP4Src (ICMP4IP h)) (IP4Dst (ICMP4IP h)) in
    buf ← put buf 20 [ICMP4Type h; ICMP4Code h];
    buf ← ignoreErr buf (ip4Marshal ip buf);
    put_be 2 buf 22 (ip4Checksum buf).

Definition icmp4ToResponse (h : ICMP4Header) : ICMP4Header :=
  mkICMP4Header (ip4ToResponse (ICMP4IP h)) ICMP4EchoReply ICMP4NoCode.

#[export] Instance ICMP4Header_Header : Header ICMP4Header :=
  {| HLen _ := icmp4Len; Marshal := icmp4Marshal; WriteChecksum := None |}.

Record ICMP6Header := mkICMP6Header { ICMP6IP : IP6Header; ICMP6Type : Z; ICMP6Code : Z }.

Definition icmp6Len : Z := ip6HeaderLength + icmp6HeaderLength.
Definition ICMP6NoCode : Z := 0.

Definition icmp6Marshal (h : ICMP6Header) (buf : bytes) : res HdrErr bytes :=
  if zlen buf <? icmp6Len then Err errSmallBuffer
  else if maxPacketLength <? zlen buf then Err errLargePacket
  else
    let ip := mkIP6Header ICMPv6 (IP6ID (ICMP6IP h)) (IP6Src (ICMP6IP h)) (IP6Dst (ICMP6IP h)) in
    buf ← ignoreErr buf (ip6Marshal ip buf);
    put buf 40 [ICMP6Type h; ICMP6Code h; 0; 0].

Definition icmp6ToResponse (h : ICMP6Header) : ICMP6Header :=
  mkICMP6Header (ip6ToResponse (ICMP6IP h)) ICMP6EchoReply ICMP6NoCode.

Definition icmp6WriteChecksum (h : ICMP6Header) (p : bytes) : res HdrErr bytes :=
  hd ← slice p ip6HeaderLength icmp6Len;
  pl ← slice_from p icmp6Len;
  xsum ← icmp6Checksum hd (As16 (IP6Src (ICMP6IP h))) (As16 (IP6Dst (ICMP6IP h))) pl;
  put_be 2 p (ip6HeaderLength + 2) xsum.

#[export] Instance ICMP6Header_Header : Header ICMP6Header :=
  {| HLen _ := icmp6Len; Marshal := icmp6Marshal; WriteChecksum := Some icmp6WriteChecksum |}.

(** ** Headers of a decoded packet *)
Definition pIP4Header (q : Parsed) : res HdrErr IP4Header :=
  if IPVersion q =? 4 then
    ipid ← get_be 2 (pb q) 4;
    Ok (mkIP4Header (IPProto q) ipid (ap_addr (Src q)) (ap_addr (Dst q)))
  else Panic.

Definition pIP6Header (q : Parsed) : res HdrErr IP6Header :=
  if IPVersion q =? 6 then
    w ← get_be 4 (pb q) 0;
    let ipid := Z.shiftr (u32 (Z.shiftl w 12)) 12 in
    Ok (mkIP6Header (IPProto q) ipid (ap_addr (Src q)) (ap_addr (Dst q)))
  else Panic.

Definition pICMP4Header (q : Parsed) : res HdrErr ICMP4Header :=
  ip ← pIP4Header q;
  ty ← idx (pb q) (subofs q);
  code ← idx (pb q) (subofs q + 1);
  Ok (mkICMP4Header ip ty code).

Definition pICMP6Header (q : Parsed) : res HdrErr ICMP6Header :=
  ip ← pIP6Header q;
  ty ← idx (pb q) (subofs q);
  code ← idx (pb q) (subofs q + 1);
  Ok (mkICMP6Header ip ty code).

Definition pUDP4Header (q : Parsed) : res HdrErr UDP4Header :=
  ip ← pIP4Header q;
  Ok (mkUDP4Header ip (ap_port (Src q)) (ap_port (Dst q))).
