(* ===== verification/HeadersThms.v ===== *)
(** * Correctness of packet generation

    The Internet checksum as one's-complement arithmetic, the layout of the packets
    that the headers marshal, and the round trip through [Decode]. *)

From stdpp Require Import base list.
From S2P Require Import Prelude Bytes NetIP Packet PacketThms Headers.

(** ** One's-complement sums *)

(** The sum of the 16-bit big-endian words, a last odd byte in the high half. *)
Fixpoint sum16 (b : bytes) : Z :=
  match b with
  | x :: y :: b => x * 256 + y + sum16 b
  | [x] => x * 256
  | [] => 0
  end.

(** The one's-complement representative of a sum: zero only for zero. *)
Definition ocsum (s : Z) : Z := if s =? 0 then 0 else 1 + (s - 1) `mod` 65535.

Lemma pair_ind {A} (P : list A → Prop) :
  P [] → (∀ x, P [x]) → (∀ x y l, P l → P (x :: y :: l)) → ∀ l, P l.
Proof.
  intros H0 H1 H2 l. assert (P l ∧ ∀ x, P (x :: l)) as [? _]; [|done].
  induction l as [|y l [IH1 IH2]]; [by split|]. split; [done|]. intros x. by apply H2.
Qed.

Lemma sum16_bound b : bytes_ok b → 0 ≤ sum16 b ∧ 2 * sum16 b ≤ 65535 * (zlen b + 1).
Proof.
  induction b as [|x|x y b IH] using pair_ind; intros H; rewrite ?zlen_cons, ?@zlen_nil; cbn [sum16].
  - lia.
  - apply Forall_cons in H as [Hx _]. unfold byte_ok in Hx. lia.
  - apply Forall_cons in H as [Hx [Hy H]%Forall_cons]. unfold byte_ok in *. destruct (IH H). lia.
Qed.

Lemma csumLoop_sum b : ∀ ac,
  bytes_ok b → 0 ≤ ac → ac + sum16 b < 2 ^ 32 → csumLoop b ac = ac + sum16 b.
Proof.
  induction b as [|x|x y b IH] using pair_ind; intros ac H Hac Hs; cbn [csumLoop sum16 be_val] in *.
  - lia.
  - apply Forall_cons in H as [Hx _]. unfold byte_ok in Hx. rewrite Z.shiftl_mul_pow2 by lia.
    rewrite uN_small by lia. lia.
  - apply Forall_cons in H as [Hx [Hy H]%Forall_cons]. unfold byte_ok in *.
    destruct (sum16_bound b H). rewrite uN_small by lia. rewrite IH by (done || lia). lia.
Qed.

Lemma ocsum_range s : 0 ≤ s → 0 ≤ ocsum s ≤ 65535.
Proof. unfold ocsum. intros. destruct (Z.eqb_spec s 0); [lia|]. pose proof (Z.mod_pos_bound (s - 1) 65535). lia. Qed.

Lemma ocsum_small s : 0 ≤ s ≤ 65535 → ocsum s = s.
Proof. unfold ocsum. intros. destruct (Z.eqb_spec s 0); [lia|]. rewrite Z.mod_small by lia. lia. Qed.

Lemma ocsum_fold s : 0 ≤ s → ocsum (s / 65536 + s `mod` 65536) = ocsum s.
Proof.
  intros Hs. unfold ocsum. pose proof (Z.div_mod s 65536 ltac:(lia)). pose proof (Z.mod_pos_bound s 65536 ltac:(lia)).
  assert (0 ≤ s / 65536) by (apply Z.div_pos; lia).
  destruct (Z.eqb_spec s 0) as [->|]; [done|]. rewrite (proj2 (Z.eqb_neq _ 0)) by lia. f_equal.
  rewrite <- (Z_mod_plus_full (s / 65536 + s `mod` 65536 - 1) (s / 65536) 65535). f_equal. lia.
Qed.

Lemma csumFold_ocsum s : 0 ≤ s < 2 ^ 32 → csumFold 2 s = ocsum s.
Proof.
  intros Hs. assert (∀ t, Z.land t 0xffff = t `mod` 65536) as Hl
    by (intros t; change 0xffff with (Z.ones 16); by rewrite Z.land_ones).
  assert (∀ t, Z.shiftr t 16 = t / 65536) as Hr by (intros t; by rewrite Z.shiftr_div_pow2).
  cbn [csumFold]. rewrite !Hr, !Hl. destruct (Z.ltb_spec 0 (s / 65536)) as [H1|H1].
  2:{ symmetry. apply ocsum_small. pose proof (Z.div_mod s 65536 ltac:(lia)).
      pose proof (Z.mod_pos_bound s 65536 ltac:(lia)). lia. }
  rewrite <- (ocsum_fold s) by lia.
  assert (s / 65536 < 65536) by (apply Z.div_lt_upper_bound; lia).
  pose proof (Z.mod_pos_bound s 65536 ltac:(lia)).
  rewrite (uN_small 32 (s / _ + _)) by lia. set (t := s / 65536 + s `mod` 65536) in *.
  destruct (Z.ltb_spec 0 (t / 65536)) as [H2|H2].
  2:{ symmetry. apply ocsum_small. pose proof (Z.div_mod t 65536 ltac:(lia)).
      pose proof (Z.mod_pos_bound t 65536 ltac:(lia)). lia. }
  rewrite <- (ocsum_fold t) by lia. pose proof (Z.div_mod t 65536 ltac:(lia)).
  pose proof (Z.mod_pos_bound t 65536 ltac:(lia)). rewrite uN_small by lia. symmetry. apply ocsum_small. lia.
Qed.

(** [ip4Checksum] is the complement of the one's-complement sum, for every buffer
    whose sum fits 32 bits, in particular all of at most 128 KiB. *)
Lemma ip4Checksum_sum b : bytes_ok b → zlen b ≤ 131072 → ip4Checksum b = 65535 - ocsum (sum16 b).
Proof.
  intros Hb Hl. destruct (sum16_bound b Hb) as [H0 H1]. unfold ip4Checksum.
  rewrite csumLoop_sum by (done || lia). rewrite Z.add_0_l, csumFold_ocsum by lia.
  pose proof (ocsum_range _ H0). unfold uN, notN.
  replace (2 ^ 32 - 1 - ocsum (sum16 b)) with (65535 - ocsum (sum16 b) + 65535 * 2 ^ 16) by lia.
  rewrite Z_mod_plus_full. apply Z.mod_small. lia.
Qed.

Lemma sum16_app a b : Nat.Even (length a) → sum16 (a ++ b) = sum16 a + sum16 b.
Proof.
  induction a as [|x|x y a IH] using pair_ind; intros H; simpl.
  - done.
  - destruct H as [k H]. simpl in H. lia.
  - rewrite IH; [lia|]. destruct H as [k H]. exists (k - 1)%nat. simpl in H. lia.
Qed.

(** Sums that agree up to one's complement. *)
Definition sum_valid (s : Z) : Prop := 0 < s ∧ s `mod` 65535 = 0.

Lemma ocsum_complement s : 0 ≤ s → sum_valid (s + (65535 - ocsum s)).
Proof.
  intros Hs. pose proof (ocsum_range s Hs). unfold ocsum in *. destruct (Z.eqb_spec s 0) as [->|]; [split; done|].
  split; [lia|]. pose proof (Z.div_mod (s - 1) 65535 ltac:(lia)).
  replace (s + _) with ((1 + (s - 1) / 65535) * 65535) by lia. apply Z_mod_mult.
Qed.

Lemma ocsum_valid s : sum_valid s → ocsum s = 65535.
Proof.
  intros [H0 H1]. unfold ocsum. rewrite (proj2 (Z.eqb_neq s 0)) by lia.
  replace (s - 1) with (65534 + (s / 65535 - 1) * 65535) by (pose proof (Z.div_mod s 65535 ltac:(lia)); lia).
  by rewrite Z_mod_plus_full.
Qed.

(** ** Buffers with a written prefix *)
Lemma put_l {E} (pre post s : bytes) i :
  0 ≤ i → i + zlen s ≤ zlen pre →
  @put E (pre ++ post) i s = Ok ((take (Z.to_nat i) pre ++ s ++ drop (Z.to_nat i + length s) pre) ++ post).
Proof.
  intros Hi Hs. unfold put. pose proof (zlen_nonneg post). rewrite decide_True by (rewrite zlen_app; lia).
  unfold zlen in *. rewrite take_app_le, drop_app_le by lia. by rewrite <- !app_assoc.
Qed.
Lemma slice_l {E A} (pre post : list A) i j :
  0 ≤ i ≤ j → j ≤ zlen pre → @slice E A (pre ++ post) i j = slice pre i j.
Proof.
  intros Hi Hj. unfold slice. pose proof (zlen_nonneg post). rewrite !decide_True by (rewrite ?zlen_app; lia).
  unfold zlen in *. rewrite drop_app_le, take_app_le by (rewrite ?length_drop; lia). done.
Qed.
Lemma slice_from_l {E A} (pre post : list A) i :
  0 ≤ i ≤ zlen pre → @slice_from E A (pre ++ post) i = Ok (drop (Z.to_nat i) pre ++ post).
Proof.
  intros Hi. unfold slice_from, slice. pose proof (zlen_nonneg post).
  rewrite decide_True by (rewrite ?zlen_app; lia). f_equal. unfold zlen in *.
  rewrite drop_app_le by lia. apply take_ge. rewrite !length_app, length_drop. lia.
Qed.
Lemma idx_l {E A} (pre post : list A) i : 0 ≤ i < zlen pre → @idx E A (pre ++ post) i = idx pre i.
Proof. intros Hi. unfold idx. rewrite !decide_True by lia. unfold zlen in *. by rewrite lookup_app_l by lia. Qed.
Lemma get_be_l {E} n (pre post : bytes) i :
  0 ≤ i → i + Z.of_nat n ≤ zlen pre → @get_be E n (pre ++ post) i = get_be n pre i.
Proof. intros. unfold get_be. by rewrite slice_l by lia. Qed.

Definition hi8 (v : Z) : Z := (v / 256) `mod` 256.
Definition lo8 (v : Z) : Z := v `mod` 256.

Lemma be_bytes2 v : be_bytes 2 v = [hi8 v; lo8 v].
Proof. cbn. unfold hi8, lo8. by rewrite !land_255, Z.shiftr_div_pow2, Z.shiftr_0_r by lia. Qed.
Lemma hilo v : 0 ≤ v < 65536 → hi8 v * 256 + lo8 v = v.
Proof.
  intros. unfold hi8, lo8. pose proof (Z.div_mod v 256 ltac:(lia)).
  rewrite (Z.mod_small (v / 256)) by (split; [apply Z.div_pos; lia|apply Z.div_lt_upper_bound; lia]). lia.
Qed.
Lemma hi8_ok v : byte_ok (hi8 v).
Proof. unfold byte_ok, hi8. apply Z.mod_pos_bound. lia. Qed.
Lemma lo8_ok v : byte_ok (lo8 v).
Proof. unfold byte_ok, lo8. apply Z.mod_pos_bound. lia. Qed.
#[export] Hint Resolve hi8_ok lo8_ok : bytes.

(** Spell out a list of known length. *)
Ltac spell H l :=
  repeat (destruct l as [|? l]; cbn [length] in H; [discriminate H|injection H as H]);
  destruct l; cbn [length] in H; [clear H|discriminate H].

(** Runs a write to a spelt-out prefix. *)
Ltac to_nat_const :=
  repeat match goal with
  | |- context [Z.to_nat ?z] => let n := eval vm_compute in (Z.to_nat z) in change (Z.to_nat z) with n
  end.
Ltac zlen_norm := rewrite ?zlen_app, ?zlen_cons, ?@zlen_nil.
Ltac norm_prefix :=
  match goal with
  | |- context [(take ?n ?pre ++ ?s ++ drop ?m ?pre) ++ ?post] =>
      let v := eval cbn [take drop app length Nat.add] in (take n pre ++ s ++ drop m pre) in
      change (take n pre ++ s ++ drop m pre) with v
  end.
Ltac put_step :=
  unfold put_be; rewrite ?be_bytes2; rewrite put_l by (zlen_norm; lia);
  to_nat_const; norm_prefix; cbn [mbind res_bind].

(** Runs a read of a spelt-out prefix. *)
Ltac slice_step :=
  rewrite slice_l by (zlen_norm; lia); unfold slice at 1; rewrite decide_True by (zlen_norm; lia);
  to_nat_const; change (20 - 0) with 20; cbn [take drop mbind res_bind].

(** The 20 bytes of an IPv4 header with checksum [c]. *)
Definition ip4Raw (h : IP4Header) (src dst : bytes) (len c : Z) : bytes :=
  [0x45; 0; hi8 len; lo8 len; hi8 (IP4ID h); lo8 (IP4ID h); 0; 0; 64; IP4Proto h; hi8 c; lo8 c] ++ src ++ dst.
Definition ip4Bytes (h : IP4Header) (src dst : bytes) (len : Z) : bytes :=
  ip4Raw h src dst len (ip4Checksum (ip4Raw h src dst len 0)).

Lemma ip4Marshal_bytes h s d hd rest :
  IP4Src h = Addr4 s → IP4Dst h = Addr4 d → length hd = 20%nat → 20 + zlen rest ≤ 65535 →
  ip4Marshal h (hd ++ rest) = Ok (ip4Bytes h (be_bytes 4 s) (be_bytes 4 d) (20 + zlen rest) ++ rest).
Proof.
  intros Hs Hd Hhd Hl. pose proof (zlen_nonneg rest).
  assert (zlen (hd ++ rest) = 20 + zlen rest) as Hz by (rewrite zlen_app; unfold zlen at 1; rewrite Hhd; lia).
  unfold ip4Marshal. rewrite Hz, (proj2 (Z.ltb_ge _ _)) by (unfold ip4HeaderLength; lia).
  rewrite (proj2 (Z.ltb_ge _ _)) by (unfold maxPacketLength; lia). rewrite Hs, Hd. cbn [Is4 negb orb As4].
  change (Z.lor 64 (u8 (ip4HeaderLength ≫ 2))) with 0x45.
  change (@As4 HdrErr (Addr4 s)) with (@Ok HdrErr _ (be_bytes 4 s)).
  change (@As4 HdrErr (Addr4 d)) with (@Ok HdrErr _ (be_bytes 4 d)).
  pose proof (be_bytes_length 4 s) as Ls. pose proof (be_bytes_length 4 d) as Ld.
  unfold ip4Bytes. set (sb := be_bytes 4 s) in *. set (db := be_bytes 4 d) in *. clearbody sb db.
  spell Ls sb. spell Ld db. spell Hhd hd.
  put_step. replace (u16 _) with (20 + zlen rest) by (zlen_norm; rewrite uN_small; lia).
  do 7 put_step. slice_step. by put_step.
Qed.

Lemma ip4Marshal_pre h s d pre post :
  IP4Src h = Addr4 s → IP4Dst h = Addr4 d → 20 ≤ zlen pre → zlen pre + zlen post ≤ 65535 →
  ip4Marshal h (pre ++ post) =
  Ok (ip4Bytes h (be_bytes 4 s) (be_bytes 4 d) (zlen pre + zlen post) ++ drop 20 pre ++ post).
Proof.
  intros Hs Hd Hp Hl. unfold zlen in Hp.
  assert (zlen (drop 20 pre ++ post) = zlen pre - 20 + zlen post) as Hz
    by (unfold zlen; rewrite length_app, length_drop; lia).
  rewrite <- (take_drop 20 pre) at 1. rewrite <- app_assoc.
  rewrite (ip4Marshal_bytes h s d) by (rewrite ?length_take; done || lia). do 3 f_equal. lia.
Qed.

Lemma ip4Raw_sum h src dst len c :
  0 ≤ c < 65536 → sum16 (ip4Raw h src dst len c) = sum16 (ip4Raw h src dst len 0) + c.
Proof. intros Hc. unfold ip4Raw. cbn [app sum16]. pose proof (hilo c Hc). change (hi8 0) with 0. change (lo8 0) with 0. lia. Qed.

Lemma ip4Raw_ok h src dst len c :
  byte_ok (IP4Proto h) → bytes_ok src → bytes_ok dst → bytes_ok (ip4Raw h src dst len c).
Proof.
  intros. unfold ip4Raw. apply Forall_app. split; [|by apply Forall_app].
  repeat (apply Forall_cons; split; [solve [eauto with bytes | unfold byte_ok; lia]|]). by constructor.
Qed.

Lemma checksum_range b : bytes_ok b → zlen b ≤ 131072 → 0 ≤ ip4Checksum b < 65536.
Proof.
  intros Hb Hl. rewrite ip4Checksum_sum by done. destruct (sum16_bound b Hb) as [H0 _].
  pose proof (ocsum_range _ H0). lia.
Qed.

(** The header checksum verifies. *)
Lemma ip4Bytes_valid h src dst len :
  byte_ok (IP4Proto h) → bytes_ok src → bytes_ok dst → length src = 4%nat → length dst = 4%nat →
  sum_valid (sum16 (ip4Bytes h src dst len)).
Proof.
  intros Hp Hs Hd Ls Ld. pose proof (ip4Raw_ok h src dst len 0 Hp Hs Hd) as Hok.
  assert (zlen (ip4Raw h src dst len 0) ≤ 131072) as Hl
    by (unfold ip4Raw, zlen; rewrite !length_app, Ls, Ld; simpl; lia).
  pose proof (checksum_range _ Hok Hl). unfold ip4Bytes. rewrite ip4Raw_sum by done.
  rewrite ip4Checksum_sum by done. apply ocsum_complement. by apply sum16_bound.
Qed.

(** ** UDP over IPv4 *)
Definition udpRaw (sp dp len c : Z) : bytes :=
  [hi8 sp; lo8 sp; hi8 dp; lo8 dp; hi8 len; lo8 len; hi8 c; lo8 c].
Definition pseudo4 (src dst : bytes) (proto len : Z) : bytes := src ++ dst ++ [0; proto; hi8 len; lo8 len].
Definition udp4Sum (src dst : bytes) (sp dp : Z) (payload : bytes) : Z :=
  let len := 8 + zlen payload in ip4Checksum (pseudo4 src dst UDP len ++ udpRaw sp dp len 0 ++ payload).

Lemma udp4_layout h s d payload :
  IP4Src (UDP4IP h) = Addr4 s → IP4Dst (UDP4IP h) = Addr4 d → 28 + zlen payload ≤ 65535 →
  let ip := mkIP4Header UDP (IP4ID (UDP4IP h)) (Addr4 s) (Addr4 d) in
  let sb := be_bytes 4 s in let db := be_bytes 4 d in
  Generate h payload =
  Ok (ip4Bytes ip sb db (28 + zlen payload) ++
      udpRaw (UDP4SrcPort h) (UDP4DstPort h) (8 + zlen payload)
        (udp4Sum sb db (UDP4SrcPort h) (UDP4DstPort h) payload) ++ payload).
Proof.
  intros Hs Hd Hl ip sb db. pose proof (zlen_nonneg payload).
  unfold Generate, Marshal, WriteChecksum, HLen, UDP4Header_Header, udp4Marshal. 
  rewrite Hs, Hd. fold ip.
  change (replicate (Z.to_nat udp4Len) 0) with (replicate 28 0). cbn [replicate].
  rewrite (proj2 (Z.ltb_ge _ _)) by (zlen_norm; unfold udp4Len, ip4HeaderLength, udpHeaderLength; lia).
  rewrite (proj2 (Z.ltb_ge _ _)) by (zlen_norm; unfold maxPacketLength; lia).
  replace (u16 (zlen _ - _)) with (8 + zlen payload)
    by (zlen_norm; unfold ip4HeaderLength; rewrite uN_small; lia).
  do 4 put_step. unfold ip4MarshalPseudo.
  rewrite (proj2 (Z.ltb_ge _ _)) by (zlen_norm; unfold ip4HeaderLength; lia).
  rewrite (proj2 (Z.ltb_ge _ _)) by (zlen_norm; unfold maxPacketLength; lia).
  replace (u16 (zlen _ - _)) with (8 + zlen payload)
    by (zlen_norm; unfold ip4HeaderLength; rewrite uN_small; lia).
  subst sb db. change (@As4 HdrErr (IP4Src ip)) with (@Ok HdrErr _ (be_bytes 4 s)).
  change (@As4 HdrErr (IP4Dst ip)) with (@Ok HdrErr _ (be_bytes 4 d)). cbn [mbind res_bind].
  pose proof (be_bytes_length 4 s) as Ls. pose proof (be_bytes_length 4 d) as Ld.
  remember (be_bytes 4 s) as sb eqn:Es. remember (be_bytes 4 d) as db eqn:Ed. spell Ls sb. spell Ld db.
  do 4 put_step. cbn [ignoreErr mbind res_bind]. rewrite slice_from_l by (zlen_norm; unfold ip4PseudoHeaderOffset; lia).
  change (Z.to_nat ip4PseudoHeaderOffset) with 8%nat. cbn [drop mbind res_bind].
  put_step. rewrite (ip4Marshal_pre ip s d) by (zlen_norm; done || lia). cbn [ignoreErr mbind res_bind drop].
  rewrite <- Es, <- Ed. by zlen_norm.
Qed.

(** ** Decoding what was generated *)
Lemma idx_const {E A} (l : list A) (i : Z) (x : A) : 0 ≤ i → l !! Z.to_nat i = Some x → @idx E A l i = Ok x.
Proof. intros Hi Hx. unfold idx. by rewrite decide_True, Hx by lia. Qed.
Lemma be_val_hilo v : 0 ≤ v < 65536 → be_val 0 [hi8 v; lo8 v] = v.
Proof. intros. cbn [be_val]. rewrite <- (hilo v) at 3 by done. lia. Qed.
Lemma get_be2_const {E} (l : bytes) i v :
  0 ≤ i → i + 2 ≤ zlen l → 0 ≤ v < 65536 → take 2 (drop (Z.to_nat i) l) = [hi8 v; lo8 v] → @get_be E 2 l i = Ok v.
Proof.
  intros Hi Hl Hv Ht. unfold get_be, slice. change (Z.of_nat 2) with 2.
  rewrite decide_True by lia. replace (i + 2 - i) with 2 by lia. change (Z.to_nat 2) with 2%nat.
  rewrite Ht. cbn [mbind res_bind]. by rewrite be_val_hilo.
Qed.
Lemma slice_const {E A} (l s : list A) i j :
  0 ≤ i ≤ j → j ≤ zlen l → take (Z.to_nat (j - i)) (drop (Z.to_nat i) l) = s → @slice E A l i j = Ok s.
Proof. intros. unfold slice. rewrite decide_True by lia. congruence. Qed.

Definition v4parsed (proto len : Z) (src dst : Addr) (b : bytes) (q : Parsed) : Parsed :=
  setSubofs 20 (setIPs src dst (setLength len (setProto proto (setVersion 4 (setBuf b q))))).

Lemma decode_ip4Raw ip s d c rest q0 :
  0 ≤ s < 2 ^ 32 → 0 ≤ d < 2 ^ 32 → 20 + zlen rest ≤ 65535 →
  let b := ip4Raw ip (be_bytes 4 s) (be_bytes 4 d) (20 + zlen rest) c ++ rest in
  Decode b q0 = decode4Sub rest false (v4parsed (IP4Proto ip) (20 + zlen rest) (Addr4 s) (Addr4 d) b q0).
Proof.
  intros Hs Hd Hl b. pose proof (zlen_nonneg rest).
  pose proof (be_bytes_length 4 s) as Ls. pose proof (be_bytes_length 4 d) as Ld.
  pose proof (be_val_bytes 4 s Hs) as Vs. pose proof (be_val_bytes 4 d Hd) as Vd.
  remember (be_bytes 4 s) as sb. remember (be_bytes 4 d) as db. spell Ls sb. spell Ld db.
  assert (zlen b = 20 + zlen rest) as Hz by (unfold b, ip4Raw; zlen_norm; lia).
  assert (@idx () Z b 0 = Ok 0x45) as R0 by (by apply idx_const).
  assert (@idx () Z b 9 = Ok (IP4Proto ip)) as R9 by (by apply idx_const).
  assert (@get_be () 2 b 2 = Ok (20 + zlen rest)) as R2 by (apply get_be2_const; done || lia).
  assert (@get_be () 2 b 6 = Ok 0) as R6 by (apply get_be2_const; done || lia).
  assert (@slice () Z b 12 16 = Ok [z; z0; z1; z2]) as R12 by (apply slice_const; done || lia).
  assert (@slice () Z b 16 20 = Ok [z3; z4; z5; z6]) as R16 by (apply slice_const; done || lia).
  assert (@slice_from () Z b 20 = Ok rest) as R20
    by (unfold slice_from; apply slice_const; [lia..|]; apply take_ge; change (drop _ b) with rest; unfold zlen in *; lia).
  clearbody b. unfold Decode. rewrite (proj2 (Z.ltb_ge _ 1)) by lia. rewrite R0. cbn [mbind res_bind].
  change (69 ≫ 4 =? 4) with true. change (69 ≫ 4) with 4. cbn match. unfold decode4.
  rewrite (proj2 (Z.ltb_ge _ ip4HeaderLength)) by (unfold ip4HeaderLength; lia).
  rewrite R9, R2. cbn [mbind res_bind]. cbn [plength setLength]. rewrite (proj2 (Z.ltb_ge _ (20 + _))) by lia.
  rewrite R12, R16, R0. cbn [mbind res_bind]. change (u8 (Z.land 69 15 ≪ 2)) with 20.
  cbn [plength subofs setSubofs setIPs setLength]. rewrite (proj2 (Z.ltb_ge _ 20)) by lia.
  rewrite R20, R6. cbn [mbind res_bind]. change (Z.land 0 8191 =? 0) with true. cbn match.
  change (negb (Z.land 0 8192 =? 0)) with false. unfold AddrFrom4. by rewrite Vs, Vd.
Qed.

Lemma verify_ok b : bytes_ok b → zlen b ≤ 131072 → sum_valid (sum16 b) → ip4Checksum b = 0.
Proof. intros Hb Hl Hv. rewrite ip4Checksum_sum by done. rewrite ocsum_valid by done. lia. Qed.

Lemma udpRaw_ok sp dp len c : bytes_ok (udpRaw sp dp len c).
Proof. unfold udpRaw. repeat (apply Forall_cons; split; [solve [eauto with bytes]|]). by constructor. Qed.
Lemma pseudo4_ok src dst proto len :
  bytes_ok src → bytes_ok dst → byte_ok proto → bytes_ok (pseudo4 src dst proto len).
Proof.
  intros. apply Forall_app. split; [done|]. apply Forall_app. split; [done|].
  repeat (apply Forall_cons; split; [solve [eauto with bytes | unfold byte_ok; lia]|]). by constructor.
Qed.
Lemma udpRaw_sum sp dp len c post :
  0 ≤ c < 65536 → sum16 (udpRaw sp dp len c ++ post) = sum16 (udpRaw sp dp len 0 ++ post) + c.
Proof. intros Hc. unfold udpRaw. cbn [app sum16]. pose proof (hilo c Hc). change (hi8 0) with 0. change (lo8 0) with 0. lia. Qed.

(** A checksum computed with a zero field and written to it verifies, for a buffer
    [pre ++ f c ++ post] whose sum is that of a zero field plus [c]. *)
Lemma written_valid (f : Z → bytes) :
  bytes_ok (f 0) → zlen (f 0) ≤ 131072 → (∀ c, 0 ≤ c < 65536 → sum16 (f c) = sum16 (f 0) + c) →
  sum_valid (sum16 (f (ip4Checksum (f 0)))).
Proof.
  intros Hok Hl Hf. rewrite Hf by (by apply checksum_range). rewrite ip4Checksum_sum by done.
  apply ocsum_complement. by apply sum16_bound.
Qed.

Lemma decodeUDP_raw sp dp len c payload q :
  0 ≤ sp < 65536 → 0 ≤ dp < 65536 →
  decodeUDP (udpRaw sp dp len c ++ payload) q = Ok (setDataofs (subofs q + 8) (setPorts sp dp q)).
Proof.
  intros Hs Hd. pose proof (zlen_nonneg payload). unfold decodeUDP.
  rewrite (proj2 (Z.ltb_ge _ _)) by (unfold udpRaw, udpHeaderLength; zlen_norm; lia).
  rewrite (get_be2_const _ 0 sp), (get_be2_const _ 2 dp) by (unfold udpRaw; zlen_norm; done || lia). done.
Qed.

Lemma ip4Bytes_length ip src dst len :
  length src = 4%nat → length dst = 4%nat → length (ip4Bytes ip src dst len) = 20%nat.
Proof. intros Ls Ld. unfold ip4Bytes, ip4Raw. by rewrite !length_app, Ls, Ld. Qed.

Lemma ip4Bytes_check ip src dst len :
  byte_ok (IP4Proto ip) → bytes_ok src → bytes_ok dst → length src = 4%nat → length dst = 4%nat →
  ip4Checksum (ip4Bytes ip src dst len) = 0.
Proof.
  intros. apply verify_ok; [by apply ip4Raw_ok| |by apply ip4Bytes_valid].
  unfold zlen. rewrite ip4Bytes_length by done. lia.
Qed.

Lemma Payload_drop q n payload :
  dataofs q = Z.of_nat n → plength q = zlen (pb q) → (n ≤ length (pb q))%nat → drop n (pb q) = payload →
  Payload q = Ok payload.
Proof.
  intros Hd Hl Hn Hp. unfold Payload. rewrite Hl, Hd, !(proj2 (Z.ltb_ge _ _)) by (unfold zlen; lia). cbn [orb].
  apply slice_const; [unfold zlen; lia..|]. rewrite Nat2Z.id, Hp. apply take_ge. subst payload.
  rewrite length_drop. unfold zlen. lia.
Qed.

Lemma udp4_sum_valid src dst sp dp payload :
  bytes_ok src → bytes_ok dst → length src = 4%nat → length dst = 4%nat → bytes_ok payload →
  28 + zlen payload ≤ 65535 →
  ip4Checksum (pseudo4 src dst UDP (8 + zlen payload) ++
    udpRaw sp dp (8 + zlen payload) (udp4Sum src dst sp dp payload) ++ payload) = 0.
Proof.
  intros Os Od Ls Ld Hp Hl. assert (byte_ok UDP) by (unfold byte_ok, UDP; lia).
  set (f := λ c, pseudo4 src dst UDP (8 + zlen payload) ++ udpRaw sp dp (8 + zlen payload) c ++ payload).
  assert (∀ c, bytes_ok (f c)) as Hf
    by (intros; apply Forall_app; split; [by apply pseudo4_ok|]; apply Forall_app; split; [apply udpRaw_ok|done]).
  assert (∀ c, zlen (f c) ≤ 131072) as Hfl
    by (intros; unfold f, pseudo4, udpRaw; zlen_norm; unfold zlen at 1 2; rewrite Ls, Ld; lia).
  apply (verify_ok (f _)); [done..|]. apply (written_valid f); [done..|].
  intros c' Hc'. assert (Nat.Even (length (pseudo4 src dst UDP (8 + zlen payload))))
    by (unfold pseudo4; rewrite !length_app, Ls, Ld; by exists 6%nat).
  unfold f. rewrite !(sum16_app (pseudo4 _ _ _ _)) by done. rewrite (udpRaw_sum _ _ _ c') by done. lia.
Qed.

(** A generated UDP packet over IPv4 is well-formed: both the IPv4 header
    checksum and the UDP checksum over the pseudo-header verify, and [Decode] gives
    back the addresses, the ports and the payload, whatever was decoded before. *)
Theorem udp4_generate h s d payload q0 :
  IP4Src (UDP4IP h) = Addr4 s → IP4Dst (UDP4IP h) = Addr4 d → 0 ≤ s < 2 ^ 32 → 0 ≤ d < 2 ^ 32 →
  0 ≤ UDP4SrcPort h < 65536 → 0 ≤ UDP4DstPort h < 65536 → bytes_ok payload → 28 + zlen payload ≤ 65535 →
  ∃ b q, Generate h payload = Ok b ∧ zlen b = 28 + zlen payload ∧
    ip4Checksum (take 20 b) = 0 ∧
    ip4Checksum (pseudo4 (be_bytes 4 s) (be_bytes 4 d) UDP (zlen b - 20) ++ drop 20 b) = 0 ∧
    Decode b q0 = Ok q ∧ IPVersion q = 4 ∧ IPProto q = UDP ∧
    Src q = mkAddrPort (Addr4 s) (UDP4SrcPort h) ∧ Dst q = mkAddrPort (Addr4 d) (UDP4DstPort h) ∧
    Payload q = Ok payload.
Proof.
  intros Hs Hd Rs Rd Rsp Rdp Hp Hl. pose proof (zlen_nonneg payload).
  pose proof (be_bytes_ok 4 s) as Os. pose proof (be_bytes_ok 4 d) as Od.
  pose proof (be_bytes_length 4 s) as Ls. pose proof (be_bytes_length 4 d) as Ld.
  rewrite (udp4_layout h s d) by done. set (ip := mkIP4Header _ _ _ _).
  set (c := udp4Sum _ _ _ _ _). set (sp := UDP4SrcPort h) in *. set (dp := UDP4DstPort h) in *.
  set (rest := udpRaw sp dp (8 + zlen payload) c ++ payload).
  assert (zlen rest = 8 + zlen payload) as Hr by (unfold rest, udpRaw; zlen_norm; lia).
  replace (28 + zlen payload) with (20 + zlen rest) in * by lia.
  set (b := ip4Bytes _ _ _ _ ++ rest).
  pose proof (ip4Bytes_length ip _ _ (20 + zlen rest) Ls Ld) as L20.
  exists b, (setDataofs 28 (setPorts sp dp (v4parsed UDP (20 + zlen rest) (Addr4 s) (Addr4 d) b q0))).
  assert (zlen b = 20 + zlen rest) as Hb by (unfold b; rewrite zlen_app; unfold zlen at 1; rewrite L20; lia).
  assert (byte_ok UDP) by (unfold byte_ok, UDP; lia). split_and!; try done.
  - unfold b. rewrite take_app_le, take_ge by lia. by apply ip4Bytes_check.
  - unfold b at 2. rewrite drop_app_ge, L20, Hb, Hr by lia.
    replace (20 + (8 + zlen payload) - 20) with (8 + zlen payload) by lia. apply udp4_sum_valid; done || lia.
  - unfold b, ip4Bytes. rewrite decode_ip4Raw by (done || lia).
    unfold decode4Sub. cbn [IPProto v4parsed setSubofs setIPs setLength setProto ip IP4Proto].
    change (UDP =? ICMPv4) with false. change (UDP =? IGMP) with false. change (UDP =? TCP) with false.
    change (UDP =? UDP) with true. cbn match. unfold rest at 1. by rewrite decodeUDP_raw.
  - apply (Payload_drop _ 28); [done| |unfold zlen in *; cbn in *; lia|]; cbn -[b]; [done|].
    unfold b. by rewrite drop_app_ge, L20 by lia.
Qed.

(** ** ICMP over IPv4 *)
Definition icmpRaw (ty code c : Z) : bytes := [ty; code; hi8 c; lo8 c].

Lemma icmpRaw_ok ty code c : byte_ok ty → byte_ok code → bytes_ok (icmpRaw ty code c).
Proof. intros. unfold icmpRaw. repeat (apply Forall_cons; split; [solve [eauto with bytes]|]). by constructor. Qed.
Lemma icmpRaw_sum ty code c post :
  0 ≤ c < 65536 → sum16 (icmpRaw ty code c ++ post) = sum16 (icmpRaw ty code 0 ++ post) + c.
Proof. intros Hc. unfold icmpRaw. cbn [app sum16]. pose proof (hilo c Hc). change (hi8 0) with 0. change (lo8 0) with 0. lia. Qed.

Lemma icmp4_layout h s d payload :
  IP4Src (ICMP4IP h) = Addr4 s → IP4Dst (ICMP4IP h) = Addr4 d → 24 + zlen payload ≤ 65535 →
  let ip := mkIP4Header ICMPv4 (IP4ID (ICMP4IP h)) (Addr4 s) (Addr4 d) in
  let hd := ip4Bytes ip (be_bytes 4 s) (be_bytes 4 d) (24 + zlen payload) in
  let raw := icmpRaw (ICMP4Type h) (ICMP4Code h) in
  Generate h payload = Ok (hd ++ raw (ip4Checksum (hd ++ raw 0 ++ payload)) ++ payload).
Proof.
  intros Hs Hd Hl ip hd raw. pose proof (zlen_nonneg payload).
  unfold Generate, Marshal, WriteChecksum, HLen, ICMP4Header_Header, icmp4Marshal. rewrite Hs, Hd. fold ip.
  change (replicate (Z.to_nat icmp4Len) 0) with (replicate 24 0). cbn [replicate].
  rewrite (proj2 (Z.ltb_ge _ _)) by (zlen_norm; unfold icmp4Len, ip4HeaderLength, icmp4HeaderLength; lia).
  rewrite (proj2 (Z.ltb_ge _ _)) by (zlen_norm; unfold maxPacketLength; lia).
  put_step. rewrite (ip4Marshal_pre ip s d) by (zlen_norm; done || lia). cbn [ignoreErr mbind res_bind drop].
  zlen_norm. change (ip4Bytes _ _ _ _) with hd.
  assert (length hd = 20%nat) as Lh by (apply ip4Bytes_length; apply be_bytes_length). clearbody hd.
  unfold put_be. rewrite app_assoc, put_l by (rewrite ?zlen_app; unfold zlen; rewrite ?Lh, ?be_bytes_length; simpl; lia).
  cbn [ignoreErr mbind res_bind]. rewrite be_bytes2. change (hi8 0) with 0. change (lo8 0) with 0.
  spell Lh hd. done.
Qed.

(** Sums of a valid header and a message: the checksum over both is that of the
    message, but for an all-zero message. *)
Lemma covering_checksum hd m :
  bytes_ok hd → bytes_ok m → zlen hd + zlen m ≤ 131072 → Nat.Even (length hd) → sum_valid (sum16 hd) →
  let c := ip4Checksum (hd ++ m) in
  0 ≤ c < 65536 ∧ ((sum16 m = 0 ∧ c = 0) ∨ (0 < sum16 m ∧ sum_valid (sum16 m + c))).
Proof.
  intros Hh Hm Hl He [V0 V1] c. pose proof (zlen_nonneg hd).
  assert (bytes_ok (hd ++ m)) as Hok by (by apply Forall_app).
  assert (zlen (hd ++ m) ≤ 131072) by (rewrite zlen_app; lia).
  split; [by apply checksum_range|]. unfold c. rewrite ip4Checksum_sum by done. rewrite sum16_app by done.
  destruct (sum16_bound m Hm) as [M0 _]. pose proof (ocsum_complement (sum16 hd + sum16 m) ltac:(lia)) as [P0 P1].
  destruct (Z.eq_dec (sum16 m) 0) as [E|E]; [left|right].
  - split; [done|]. rewrite E, Z.add_0_r. rewrite ocsum_valid by done. lia.
  - split; [lia|]. pose proof (ocsum_range (sum16 hd + sum16 m) ltac:(lia)). split; [lia|].
    rewrite <- P1, <- (Z_mod_plus_full (sum16 m + _) (sum16 hd / 65535) 65535). f_equal.
    pose proof (Z.div_mod (sum16 hd) 65535 ltac:(lia)). lia.
Qed.

Lemma ip4Checksum_zero b : bytes_ok b → zlen b ≤ 131072 → sum16 b = 0 → ip4Checksum b = 65535.
Proof. intros. rewrite ip4Checksum_sum by done. by replace (sum16 b) with 0. Qed.

(** The ICMP checksum, taken over the whole packet, against a receiver's check of the
    message alone. *)
Lemma icmp4_sum hd ty code payload :
  bytes_ok hd → length hd = 20%nat → sum_valid (sum16 hd) → byte_ok ty → byte_ok code → bytes_ok payload →
  24 + zlen payload ≤ 65535 →
  let c := ip4Checksum (hd ++ icmpRaw ty code 0 ++ payload) in
  ip4Checksum (icmpRaw ty code c ++ payload) =
  if sum16 (icmpRaw ty code 0 ++ payload) =? 0 then 65535 else 0.
Proof.
  intros Hh Lh Hv Ht Hc Hp Hl c.
  assert (∀ c, bytes_ok (icmpRaw ty code c ++ payload)) as Hok
    by (intros; apply Forall_app; split; [by apply icmpRaw_ok|done]).
  assert (∀ c, zlen (icmpRaw ty code c ++ payload) = 4 + zlen payload) as Hz
    by (intros; unfold icmpRaw; zlen_norm; lia).
  pose proof (zlen_nonneg payload).
  assert (Nat.Even (length hd)) by (rewrite Lh; by exists 10%nat).
  destruct (covering_checksum hd (icmpRaw ty code 0 ++ payload)) as [Rc [[E Ec]|[E Ev]]]; try done.
  { rewrite Hz. unfold zlen. rewrite Lh. unfold zlen in Hl. lia. }
  - fold c in Ec. rewrite Ec, E. apply ip4Checksum_zero; [done|rewrite Hz; lia|done].
  - rewrite (proj2 (Z.eqb_neq _ 0)) by lia. apply verify_ok; [done|rewrite Hz; lia|].
    by rewrite (icmpRaw_sum _ _ c).
Qed.

Lemma v4_icmp_decoded ty code c payload b q0 ip len s d :
  let q := v4parsed ICMPv4 len s d b q0 in
  decode4Sub (icmpRaw ty code c ++ payload) false q = Ok (setDataofs 24 (setPorts 0 0 q)) ∧
  (b = ip ++ icmpRaw ty code c ++ payload → length ip = 20%nat →
   IsEchoResponse (setDataofs 24 (setPorts 0 0 q)) =
     Ok ((ty =? ICMP4EchoReply) && (code =? 0) && (4 <=? zlen payload)) ∧
   (4 ≤ zlen payload → EchoIDSeq (setDataofs 24 (setPorts 0 0 q)) = Ok (le_val (take 4 payload)))).
Proof.
  intros q. pose proof (zlen_nonneg payload). split.
  { unfold decode4Sub. cbn [IPProto q v4parsed setSubofs setIPs setLength setProto].
    change (ICMPv4 =? ICMPv4) with true. cbn match.
    rewrite (proj2 (Z.ltb_ge _ _)) by (unfold icmpRaw, icmp4HeaderLength; zlen_norm; lia). done. }
  intros Hb Lip. assert (zlen b = 24 + zlen payload) as Hz
    by (rewrite Hb, !zlen_app; unfold zlen at 1; rewrite Lip; unfold icmpRaw; zlen_norm; lia).
  assert (drop 20 b = icmpRaw ty code c ++ payload) as Hd by (rewrite Hb, drop_app_ge, Lip by lia; done).
  assert (∀ i x, drop 20 b !! i = Some x → @idx () Z b (Z.of_nat (20 + i)) = Ok x) as Hi.
  { intros i x Hx. apply idx_const; [lia|]. by rewrite Nat2Z.id, <- lookup_drop. }
  split.
  - unfold IsEchoResponse, isEcho. cbn [IPProto pb subofs setDataofs setPorts q v4parsed setSubofs setIPs setLength setProto setVersion setBuf].
    change (ICMPv4 =? ICMPv4) with true. cbn [orb]. rewrite Hz. destruct (Z.leb_spec 4 (zlen payload)).
    + rewrite (proj2 (Z.ltb_ge _ _)) by lia.
      assert (@idx () Z b 20 = Ok ty) as -> by (apply (Hi 0%nat); by rewrite Hd).
      assert (@idx () Z b (20 + 1) = Ok code) as -> by (apply (Hi 1%nat); by rewrite Hd).
      cbn [mbind res_bind]. by destruct (ty =? ICMP4EchoReply), (code =? 0).
    + rewrite (proj2 (Z.ltb_lt _ _)) by lia. by rewrite andb_false_r.
  - intros H4. unfold EchoIDSeq. cbn [IPProto pb setDataofs setPorts q v4parsed setSubofs setIPs setLength setProto setVersion setBuf].
    change (ICMPv4 =? ICMPv4) with true. cbn match. change (ip4HeaderLength + icmp4HeaderLength) with 24.
    rewrite (proj2 (Z.ltb_ge _ _)) by lia. change (24 + 4) with 28.
    rewrite (slice_const _ (take 4 payload)); [done|lia|lia|].
    change (Z.to_nat 24) with (20 + 4)%nat. rewrite <- drop_drop, Hd. done.
Qed.

(** A generated ICMP packet over IPv4: the IPv4 header checksum verifies;
    [Decode] gives back the addresses and the payload, and an echo reply is
    recognised with its identifier and sequence number. [Marshal] sums the whole
    packet, header included, for the ICMP checksum: since the header sums to zero in
    one's complement, a receiver's check of the message succeeds, except for the
    all-zero echo reply, whose checksum is written as 0 and not 0xffff. *)
Theorem icmp4_generate h s d payload q0 :
  IP4Src (ICMP4IP h) = Addr4 s → IP4Dst (ICMP4IP h) = Addr4 d → 0 ≤ s < 2 ^ 32 → 0 ≤ d < 2 ^ 32 →
  byte_ok (ICMP4Type h) → byte_ok (ICMP4Code h) → bytes_ok payload → 24 + zlen payload ≤ 65535 →
  ∃ b q, Generate h payload = Ok b ∧ ip4Checksum (take 20 b) = 0 ∧
    ip4Checksum (drop 20 b) =
      (if sum16 (ICMP4Type h :: ICMP4Code h :: 0 :: 0 :: payload) =? 0 then 65535 else 0) ∧
    Decode b q0 = Ok q ∧ IPVersion q = 4 ∧ IPProto q = ICMPv4 ∧
    Src q = mkAddrPort (Addr4 s) 0 ∧ Dst q = mkAddrPort (Addr4 d) 0 ∧ Payload q = Ok payload ∧
    IsEchoResponse q = Ok ((ICMP4Type h =? ICMP4EchoReply) && (ICMP4Code h =? 0) && (4 <=? zlen payload)) ∧
    (4 ≤ zlen payload → EchoIDSeq q = Ok (le_val (take 4 payload))).
Proof.
  intros Hs Hd Rs Rd Ht Hc Hp Hl. pose proof (zlen_nonneg payload).
  pose proof (be_bytes_ok 4 s) as Os. pose proof (be_bytes_ok 4 d) as Od.
  pose proof (be_bytes_length 4 s) as Ls. pose proof (be_bytes_length 4 d) as Ld.
  rewrite (icmp4_layout h s d) by done. set (ip := mkIP4Header _ _ _ _).
  set (hd := ip4Bytes _ _ _ _). set (c := ip4Checksum (hd ++ _)).
  set (rest := icmpRaw (ICMP4Type h) (ICMP4Code h) c ++ payload). set (b := hd ++ rest).
  assert (zlen rest = 4 + zlen payload) as Hr by (unfold rest, icmpRaw; zlen_norm; lia).
  assert (length hd = 20%nat) as L20 by (by apply ip4Bytes_length).
  assert (byte_ok ICMPv4) by (unfold byte_ok, ICMPv4; lia).
  destruct (v4_icmp_decoded (ICMP4Type h) (ICMP4Code h) c payload b q0 hd (20 + zlen rest) (Addr4 s) (Addr4 d))
    as [Hdec Hecho]. destruct (Hecho eq_refl L20) as [Hresp Hid].
  set (q := v4parsed _ _ _ _ _ _) in *. exists b, (setDataofs 24 (setPorts 0 0 q)).
  split_and!; try done.
  - unfold b. rewrite take_app_le, take_ge by lia. by apply ip4Bytes_check.
  - unfold b. rewrite drop_app_ge, L20 by lia. cbn [drop Nat.sub]. unfold rest, c.
    apply icmp4_sum; try done; [by apply ip4Raw_ok|by apply ip4Bytes_valid].
  - unfold b, hd, ip4Bytes. replace (24 + zlen payload) with (20 + zlen rest) by lia.
    rewrite decode_ip4Raw by (done || lia). rewrite <- Hdec. unfold q, b, hd, ip4Bytes.
    by replace (24 + zlen payload) with (20 + zlen rest) by lia.
  - apply (Payload_drop _ 24); [done|..]; change (pb _) with b; change (plength _) with (20 + zlen rest).
    + unfold b. rewrite zlen_app. unfold zlen at 2. rewrite L20. lia.
    + unfold b. rewrite length_app, L20. unfold zlen in Hr, Hl. lia.
    + unfold b. by rewrite drop_app_ge, L20 by lia.
Qed.

(** ** Witnesses *)
Definition exIP4 : IP4Header := mkIP4Header 0 7 (IPv4 10 0 0 1) (IPv4 10 0 0 2).

Lemma udp4_generate_witness : ∃ b, Generate (mkUDP4Header exIP4 53 54) [1; 2; 3] = Ok b ∧ ip4Checksum (take 20 b) = 0.
Proof.
  destruct (udp4_generate (mkUDP4Header exIP4 53 54) 167772161 167772162 [1; 2; 3] zeroParsed) as (b & q & H & _ & H' & _).
  - reflexivity.
  - reflexivity.
  - lia.
  - lia.
  - simpl. lia.
  - simpl. lia.
  - repeat constructor; vm_compute; discriminate || reflexivity.
  - vm_compute. discriminate.
  - exists b. split; assumption.
Defined.
Lemma icmp4_generate_witness : ∃ b, Generate (mkICMP4Header exIP4 0 0) [0; 0; 0; 0] = Ok b ∧ ip4Checksum (drop 20 b) = 65535.
Proof.
  destruct (icmp4_generate (mkICMP4Header exIP4 0 0) 167772161 167772162 [0; 0; 0; 0] zeroParsed)
    as (b & q & H & _ & H' & _).
  - reflexivity.
  - reflexivity.
  - lia.
  - lia.
  - split; vm_compute; discriminate || reflexivity.
  - split; vm_compute; discriminate || reflexivity.
  - repeat constructor; vm_compute; discriminate || reflexivity.
  - vm_compute. discriminate.
  - exists b. split; [exact H|]. exact H'.
Defined.
