(* ===== verification/Headers6Thms.v ===== *)
(** * Correctness of packet generation over IPv6

    The layout, the checksums and the round trip of UDP and ICMPv6 packets. *)

From stdpp Require Import base list.
From S2P Require Import Prelude Bytes NetIP Packet PacketThms Headers HeadersThms.

(** ** The header *)
Definition ip6Raw (h : IP6Header) (src dst : bytes) (plen : Z) : bytes :=
  [0x60] ++ drop 1 (be_bytes 4 (Z.land (IP6ID h) 0x000FFFFF)) ++
  [hi8 plen; lo8 plen; IP6Proto h; 64] ++ src ++ dst.

Lemma ip6Raw_length h src dst plen :
  length src = 16%nat → length dst = 16%nat → length (ip6Raw h src dst plen) = 40%nat.
Proof. intros Ls Ld. unfold ip6Raw. by rewrite !length_app, Ls, Ld, length_drop, be_bytes_length. Qed.

Lemma ip6Marshal_bytes h hd rest :
  length hd = 40%nat → 40 + zlen rest ≤ 65535 →
  ip6Marshal h (hd ++ rest) = Ok (ip6Raw h (As16 (IP6Src h)) (As16 (IP6Dst h)) (zlen rest) ++ rest).
Proof.
  intros Hhd Hl. pose proof (zlen_nonneg rest).
  assert (zlen (hd ++ rest) = 40 + zlen rest) as Hz by (rewrite zlen_app; unfold zlen at 1; rewrite Hhd; lia).
  unfold ip6Marshal. rewrite Hz, (proj2 (Z.ltb_ge _ _)) by (unfold ip6HeaderLength; lia).
  rewrite (proj2 (Z.ltb_ge _ _)) by (unfold maxPacketLength; lia). unfold ip6Raw.
  pose proof (As16_length (IP6Src h)) as Ls. pose proof (As16_length (IP6Dst h)) as Ld.
  pose proof (be_bytes_length 4 (Z.land (IP6ID h) 0x000FFFFF)) as Li.
  unfold put_be. set (sb := As16 _) in *. set (db := As16 (IP6Dst h)) in *. set (ib := be_bytes 4 (Z.land _ _)) in *.
  clearbody sb db ib. spell Ls sb. spell Ld db. spell Li ib. spell Hhd hd.
  do 2 put_step. replace (u16 _) with (zlen rest) by (zlen_norm; unfold ip6HeaderLength; rewrite uN_small; lia).
  do 3 put_step. by put_step.
Qed.

Lemma ip6Marshal_pre h pre post :
  40 ≤ zlen pre → zlen pre + zlen post ≤ 65535 →
  ip6Marshal h (pre ++ post) =
  Ok (ip6Raw h (As16 (IP6Src h)) (As16 (IP6Dst h)) (zlen pre - 40 + zlen post) ++ drop 40 pre ++ post).
Proof.
  intros Hp Hl. unfold zlen in Hp.
  assert (zlen (drop 40 pre ++ post) = zlen pre - 40 + zlen post) as Hz
    by (unfold zlen; rewrite length_app, length_drop; lia).
  rewrite <- (take_drop 40 pre) at 1. rewrite <- app_assoc.
  rewrite ip6Marshal_bytes by (rewrite ?length_take; lia). by rewrite Hz.
Qed.

Definition v6parsed (proto len : Z) (src dst : Addr) (b : bytes) (q : Parsed) : Parsed :=
  setSubofs 40 (setIPs src dst (setLength len (setProto proto (setVersion 6 (setBuf b q))))).

Lemma decode_ip6Raw ip src dst rest q0 :
  length src = 16%nat → length dst = 16%nat → zlen rest < 65536 → IP6Proto ip ≠ ip6FragHeader →
  let b := ip6Raw ip src dst (zlen rest) ++ rest in
  Decode b q0 = decode6Sub b (v6parsed (IP6Proto ip) (40 + zlen rest) (AddrFrom16 src) (AddrFrom16 dst) b q0) ∧
  @slice_from () Z b 40 = Ok rest.
Proof.
  intros Ls Ld Hl Hf b. pose proof (zlen_nonneg rest).
  pose proof (ip6Raw_length ip src dst (zlen rest) Ls Ld) as L40.
  assert (zlen b = 40 + zlen rest) as Hz by (unfold b; rewrite zlen_app; unfold zlen at 1; rewrite L40; lia).
  unfold b, ip6Raw in *. clear L40. pose proof (be_bytes_length 4 (Z.land (IP6ID ip) 0x000FFFFF)) as Li.
  set (ib := be_bytes 4 _) in *. clearbody ib. fold b in Hz |- *. spell Li ib.
  assert (@slice () Z b 8 24 = Ok src) as R8.
  { apply slice_const; [lia..|]. unfold b. rewrite <- !app_assoc.
    change (Z.to_nat (24 - 8)) with 16%nat. change (Z.to_nat 8) with 8%nat. cbn [app drop].
    by rewrite drop_0, take_app_le, take_ge by lia. }
  assert (@slice () Z b 24 40 = Ok dst) as R24.
  { apply slice_const; [lia..|]. unfold b. rewrite <- !app_assoc. 
    change (Z.to_nat (40 - 24)) with 16%nat. change (Z.to_nat 24) with (8 + 16)%nat. rewrite <- drop_drop. cbn [app drop]. rewrite drop_0.
    rewrite drop_app_ge, Ls by lia. cbn [Nat.sub]. by rewrite drop_0, take_app_le, take_ge by lia. }
  assert (@slice_from () Z b 40 = Ok rest) as R40.
  { unfold slice_from. apply slice_const; [lia..|]. unfold b at 2. rewrite <- !app_assoc.
    change (Z.to_nat 40) with (8 + (16 + 16))%nat. rewrite <- !drop_drop. cbn [app drop]. rewrite drop_0.
    rewrite (drop_app_ge src), Ls by lia. cbn [Nat.sub]. rewrite drop_0, drop_app_ge, Ld by lia. cbn [Nat.sub]. rewrite drop_0. apply take_ge. unfold zlen in *. lia. }
  split; [|done].
  assert (@idx () Z b 0 = Ok 0x60) as R0 by (by apply idx_const).
  assert (@idx () Z b 6 = Ok (IP6Proto ip)) as R6 by (by apply idx_const).
  assert (@get_be () 2 b 4 = Ok (zlen rest)) as R4 by (apply get_be2_const; done || lia).
  clearbody b. unfold Decode. rewrite (proj2 (Z.ltb_ge _ 1)) by lia. rewrite R0. cbn [mbind res_bind].
  change (96 ≫ 4 =? 4) with false. change (96 ≫ 4 =? 6) with true. change (96 ≫ 4) with 6. cbn match. unfold decode6.
  rewrite (proj2 (Z.ltb_ge _ ip6HeaderLength)) by (unfold ip6HeaderLength; lia).
  rewrite R6, R4. cbn [mbind res_bind]. cbn [plength setLength].
  rewrite (proj2 (Z.ltb_ge _ (zlen rest + _))) by (unfold ip6HeaderLength; lia).
  rewrite R8, R24. cbn [mbind res_bind]. cbn [IPProto setSubofs setIPs setLength setProto].
  rewrite (proj2 (Z.eqb_neq _ _)) by done. unfold v6parsed, ip6HeaderLength. by rewrite (Z.add_comm 40).
Qed.

(** ** UDP over IPv6 *)
Definition pseudo6 (src dst : bytes) (len proto : Z) : bytes := src ++ dst ++ be_bytes 4 len ++ [0; 0; 0; proto].
Definition udp6Sum (src dst : bytes) (sp dp : Z) (payload : bytes) : Z :=
  let len := 8 + zlen payload in ip4Checksum (pseudo6 src dst len UDP ++ udpRaw sp dp len 0 ++ payload).

Lemma udp6_layout h payload :
  48 + zlen payload ≤ 65535 →
  let ip := mkIP6Header UDP (IP6ID (UDP6IP h)) (IP6Src (UDP6IP h)) (IP6Dst (UDP6IP h)) in
  let sb := As16 (IP6Src (UDP6IP h)) in let db := As16 (IP6Dst (UDP6IP h)) in
  Generate h payload =
  Ok (ip6Raw ip sb db (8 + zlen payload) ++
      udpRaw (UDP6SrcPort h) (UDP6DstPort h) (8 + zlen payload)
        (udp6Sum sb db (UDP6SrcPort h) (UDP6DstPort h) payload) ++ payload).
Proof.
  intros Hl ip sb db. pose proof (zlen_nonneg payload).
  unfold Generate, Marshal, WriteChecksum, HLen, UDP6Header_Header, udp6Marshal. fold ip.
  change (replicate (Z.to_nat udp6Len) 0) with (replicate 48 0). cbn [replicate].
  rewrite (proj2 (Z.ltb_ge _ _)) by (zlen_norm; unfold udp6Len, ip6HeaderLength, udpHeaderLength; lia).
  rewrite (proj2 (Z.ltb_ge _ _)) by (zlen_norm; unfold maxPacketLength; lia).
  replace (u16 (zlen _ - _)) with (8 + zlen payload)
    by (zlen_norm; unfold ip6HeaderLength; rewrite uN_small; lia).
  do 4 put_step. unfold ip6MarshalPseudo.
  rewrite (proj2 (Z.ltb_ge _ _)) by (zlen_norm; unfold ip6HeaderLength; lia).
  rewrite (proj2 (Z.ltb_ge _ _)) by (zlen_norm; unfold maxPacketLength; lia).
  change (IP6Src ip) with (IP6Src (UDP6IP h)). change (IP6Dst ip) with (IP6Dst (UDP6IP h)). fold sb db.
  assert (length sb = 16%nat) as Ls by apply As16_length. assert (length db = 16%nat) as Ld by apply As16_length.
  assert (∀ pre post, 40 ≤ zlen pre → zlen pre + zlen post ≤ 65535 →
    ip6Marshal ip (pre ++ post) = Ok (ip6Raw ip sb db (zlen pre - 40 + zlen post) ++ drop 40 pre ++ post)) as Hip
    by (intros; by apply ip6Marshal_pre).
  clearbody sb db. spell Ls sb. spell Ld db.
  do 2 put_step. replace (u32 (zlen _ - _)) with (8 + zlen payload)
    by (zlen_norm; unfold ip6HeaderLength; rewrite uN_small; lia).
  unfold udp6Sum, pseudo6. pose proof (be_bytes_length 4 (8 + zlen payload)) as Li.
  set (ib := be_bytes 4 _) in *. clearbody ib. spell Li ib.
  do 2 put_step. cbn [ignoreErr mbind res_bind]. put_step.
  rewrite Hip by (zlen_norm; lia). cbn [ignoreErr mbind res_bind drop]. by zlen_norm.
Qed.

Lemma pseudo6_ok src dst len proto :
  bytes_ok src → bytes_ok dst → byte_ok proto → bytes_ok (pseudo6 src dst len proto).
Proof.
  intros. apply Forall_app. split; [done|]. apply Forall_app. split; [done|]. apply Forall_app. split; [apply be_bytes_ok|].
  repeat (apply Forall_cons; split; [solve [eauto with bytes | unfold byte_ok; lia]|]). by constructor.
Qed.
Lemma pseudo6_length src dst len proto :
  length src = 16%nat → length dst = 16%nat → length (pseudo6 src dst len proto) = 40%nat.
Proof. intros Ls Ld. unfold pseudo6. by rewrite !length_app, Ls, Ld, be_bytes_length. Qed.

Lemma udp6_sum_valid src dst sp dp payload :
  bytes_ok src → bytes_ok dst → length src = 16%nat → length dst = 16%nat → bytes_ok payload →
  48 + zlen payload ≤ 65535 →
  ip4Checksum (pseudo6 src dst (8 + zlen payload) UDP ++
    udpRaw sp dp (8 + zlen payload) (udp6Sum src dst sp dp payload) ++ payload) = 0.
Proof.
  intros Os Od Ls Ld Hp Hl. assert (byte_ok UDP) by (unfold byte_ok, UDP; lia).
  set (f := λ c, pseudo6 src dst (8 + zlen payload) UDP ++ udpRaw sp dp (8 + zlen payload) c ++ payload).
  pose proof (pseudo6_length src dst (8 + zlen payload) UDP Ls Ld) as Lp.
  assert (∀ c, bytes_ok (f c)) as Hf
    by (intros; apply Forall_app; split; [by apply pseudo6_ok|]; apply Forall_app; split; [apply udpRaw_ok|done]).
  assert (∀ c, zlen (f c) ≤ 131072) as Hfl
    by (intros; unfold f; rewrite zlen_app; unfold zlen at 1; rewrite Lp; unfold udpRaw; zlen_norm; lia).
  apply (verify_ok (f _)); [done..|]. apply (written_valid f); [done..|].
  intros c' Hc'. unfold f. rewrite !(sum16_app (pseudo6 _ _ _ _)) by (rewrite Lp; by exists 20%nat).
  rewrite (udpRaw_sum _ _ _ c') by done. lia.
Qed.

(** A generated UDP packet over IPv6 is well-formed: the UDP checksum over the
    pseudo-header verifies, and [Decode] gives back the addresses (in 16-byte form),
    the ports and the payload. *)
Theorem udp6_generate h payload q0 :
  0 ≤ UDP6SrcPort h < 65536 → 0 ≤ UDP6DstPort h < 65536 → bytes_ok payload → 48 + zlen payload ≤ 65535 →
  let sb := As16 (IP6Src (UDP6IP h)) in let db := As16 (IP6Dst (UDP6IP h)) in
  ∃ b q, Generate h payload = Ok b ∧ zlen b = 48 + zlen payload ∧
    ip4Checksum (pseudo6 sb db (zlen b - 40) UDP ++ drop 40 b) = 0 ∧
    Decode b q0 = Ok q ∧ IPVersion q = 6 ∧ IPProto q = UDP ∧
    Src q = mkAddrPort (AddrFrom16 sb) (UDP6SrcPort h) ∧ Dst q = mkAddrPort (AddrFrom16 db) (UDP6DstPort h) ∧
    Payload q = Ok payload.
Proof.
  intros Rsp Rdp Hp Hl sb db. pose proof (zlen_nonneg payload).
  assert (length sb = 16%nat) as Ls by apply As16_length. assert (length db = 16%nat) as Ld by apply As16_length.
  assert (bytes_ok sb) as Os by apply As16_ok. assert (bytes_ok db) as Od by apply As16_ok.
  rewrite (udp6_layout h) by done. fold sb db. set (ip := mkIP6Header _ _ _ _).
  set (c := udp6Sum _ _ _ _ _). set (sp := UDP6SrcPort h) in *. set (dp := UDP6DstPort h) in *.
  set (rest := udpRaw sp dp (8 + zlen payload) c ++ payload).
  assert (zlen rest = 8 + zlen payload) as Hr by (unfold rest, udpRaw; zlen_norm; lia).
  assert (ip6Raw ip sb db (8 + zlen payload) = ip6Raw ip sb db (zlen rest)) as -> by (by rewrite Hr).
  destruct (decode_ip6Raw ip sb db rest q0) as [Hdec Hsl]; [done..|lia|done|].
  set (b := ip6Raw _ _ _ _ ++ rest) in *. pose proof (ip6Raw_length ip sb db (zlen rest) Ls Ld) as L40.
  exists b, (setDataofs 48 (setPorts sp dp (v6parsed UDP (40 + zlen rest) (AddrFrom16 sb) (AddrFrom16 db) b q0))).
  assert (zlen b = 40 + zlen rest) as Hb by (unfold b; rewrite zlen_app; unfold zlen at 1; rewrite L40; lia).
  split_and!; try done.
  - lia.
  - unfold b at 2. rewrite drop_app_ge, L40, Hb, Hr by lia.
    replace (40 + (8 + zlen payload) - 40) with (8 + zlen payload) by lia. apply udp6_sum_valid; done || lia.
  - rewrite Hdec. unfold decode6Sub. cbn [subofs IPProto v6parsed setSubofs setIPs setLength setProto ip IP6Proto].
    rewrite Hsl. cbn [mbind res_bind]. change (UDP =? ICMPv6) with false. change (UDP =? TCP) with false.
    change (UDP =? UDP) with true. cbn match. unfold rest at 1. by rewrite decodeUDP_raw.
  - apply (Payload_drop _ 48); [done|..]; change (pb _) with b; change (plength _) with (40 + zlen rest).
    + done.
    + unfold zlen in Hb, Hr. lia.
    + unfold b. by rewrite drop_app_ge, L40 by lia.
Qed.

(** ** ICMPv6 *)
Lemma ocsum_add a b : 0 ≤ a → 0 ≤ b → ocsum (ocsum a + b) = ocsum (a + b).
Proof.
  intros Ha Hb. unfold ocsum at 2. destruct (Z.eqb_spec a 0) as [->|Hn]; [done|].
  unfold ocsum. pose proof (Z.mod_pos_bound (a - 1) 65535 ltac:(lia)).
  rewrite !(proj2 (Z.eqb_neq _ 0)) by lia. f_equal.
  replace (1 + (a - 1) `mod` 65535 + b - 1) with ((a - 1) `mod` 65535 + b) by lia.
  rewrite Zplus_mod_idemp_l. f_equal. lia.
Qed.

Lemma pairSum_sum b : ∀ v,
  bytes_ok b → Nat.Even (length b) → 0 ≤ v → v + sum16 b < 2 ^ 32 → pairSum b v = v + sum16 b.
Proof.
  induction b as [|x|x y b IH] using pair_ind; intros v H He Hv Hs; cbn [pairSum sum16] in *.
  - lia.
  - destruct He as [k He]. simpl in He. lia.
  - apply Forall_cons in H as [Hx [Hy H]%Forall_cons]. unfold byte_ok in *. rewrite Z.shiftl_mul_pow2 by lia.
    change (2 ^ 8) with 256. destruct (sum16_bound b H). rewrite uN_small by lia.
    rewrite IH; [lia|done|destruct He as [k He]; exists (k - 1)%nat; simpl in He; lia|lia|lia].
Qed.

Lemma checksumCombine_ocsum v : 0 ≤ v < 2 ^ 32 → checksumCombine (u16 v) (u16 (Z.shiftr v 16)) = ocsum v.
Proof.
  intros Hv. unfold checksumCombine. rewrite !Z.shiftr_div_pow2 by lia. change (2 ^ 16) with 65536.
  assert (0 ≤ v / 65536 < 65536) by (split; [apply Z.div_pos; lia|apply Z.div_lt_upper_bound; lia]).
  rewrite (uN_small 16 (v / 65536)) by lia. unfold uN at 4. change (2 ^ 16) with 65536.
  pose proof (Z.mod_pos_bound v 65536 ltac:(lia)). rewrite <- (ocsum_fold v) by lia.
  rewrite (uN_small 32 (v `mod` 65536 + _)) by lia. rewrite !(Z.add_comm (v `mod` 65536)). set (t := v / 65536 + v `mod` 65536) in *.
  assert (0 ≤ t ≤ 131070) by (unfold t; lia).
  assert (0 ≤ t / 65536 ≤ 1) by (split; [apply Z.div_pos; lia|apply Z.lt_succ_r, Z.div_lt_upper_bound; lia]).
  rewrite ?(uN_small 32 t) by lia. rewrite (uN_small 32 (t + _)) by lia. rewrite <- (ocsum_fold t) by lia.
  pose proof (Z.div_mod t 65536 ltac:(lia)) as E. pose proof (Z.mod_pos_bound t 65536 ltac:(lia)).
  rewrite ocsum_small by lia. unfold uN. change (2 ^ 16) with 65536. rewrite E at 1.
  replace (65536 * (t / 65536) + t `mod` 65536 + t / 65536) with (t / 65536 + t `mod` 65536 + t / 65536 * 65536) by lia.
  rewrite Z_mod_plus_full. apply Z.mod_small. lia.
Qed.

Lemma checksumBytes_even buf init :
  bytes_ok buf → Nat.Even (length buf) → zlen buf ≤ 65536 → 0 ≤ init < 65536 →
  checksumBytes buf init = ocsum (init + sum16 buf).
Proof.
  intros Hb He Hl Hi. destruct (sum16_bound buf Hb) as [S0 S1].
  assert (Nat.odd (length buf) = false) as Ho by (rewrite <- Nat.negb_even; by apply Nat.even_spec in He as ->).
  unfold checksumBytes. destruct buf as [|x buf].
  { change (checksumCombine (u16 init) (u16 (init ≫ 16)) = ocsum (init + 0)). rewrite Z.add_0_r.
    apply checksumCombine_ocsum. lia. }
  rewrite Ho. cbn match. rewrite Ho. cbn match. rewrite firstn_all, pairSum_sum by (done || lia).
  apply checksumCombine_ocsum. lia.
Qed.

(** The sum that the ICMPv6 checksum complements. *)
Definition icmp6Total (header src dst payload : bytes) : Z :=
  sum16 src + sum16 dst + sum16 (be_bytes 4 (4 + zlen payload)) + ICMPv6 + sum16 payload + sum16 header.

Lemma sum16_nonneg b : bytes_ok b → 0 ≤ sum16 b.
Proof. apply sum16_bound. Qed.

Lemma checksumBytes_ocsum buf a :
  bytes_ok buf → Nat.Even (length buf) → zlen buf ≤ 65536 → 0 ≤ a →
  checksumBytes buf (ocsum a) = ocsum (a + sum16 buf).
Proof.
  intros Hb He Hl Ha. pose proof (ocsum_range a Ha). rewrite checksumBytes_even by (done || lia).
  apply ocsum_add; [done|]. by apply sum16_nonneg.
Qed.

Lemma icmp6Checksum_even src dst payload ty code :
  bytes_ok src → bytes_ok dst → length src = 16%nat → length dst = 16%nat → bytes_ok payload →
  byte_ok ty → byte_ok code → Nat.Even (length payload) → zlen payload ≤ 65535 →
  icmp6Checksum [ty; code; 0; 0] src dst payload =
  Ok (65535 - ocsum (icmp6Total [ty; code; 0; 0] src dst payload)).
Proof.
  intros Os Od Ls Ld Hp Ht Hc He Hl. unfold icmp6Checksum, icmp6Total.
  change (zlen [ty; code; 0; 0]) with 4. set (lb := be_bytes 4 (4 + zlen payload)).
  assert (length lb = 4%nat) as Ll by apply be_bytes_length. assert (bytes_ok lb) as Ol by apply be_bytes_ok.
  assert (bytes_ok [0; 0; 0; ICMPv6]) as Oi by (repeat constructor; unfold byte_ok, ICMPv6; lia).
  assert (bytes_ok [ty; code; 0; 0]) as Oh
    by (repeat (apply Forall_cons; split; [done || (unfold byte_ok; lia)|]); by constructor).
  pose proof (sum16_nonneg src Os). pose proof (sum16_nonneg dst Od). pose proof (sum16_nonneg lb Ol).
  pose proof (sum16_nonneg payload Hp).
  change (checksumBytes src 0) with (checksumBytes src (ocsum 0)).
  rewrite (checksumBytes_ocsum src), (checksumBytes_ocsum dst), (checksumBytes_ocsum lb),
    (checksumBytes_ocsum [0; 0; 0; ICMPv6]), (checksumBytes_ocsum payload);
    try done; try lia; try (unfold zlen; rewrite ?Ls, ?Ld, ?Ll; simpl; lia);
    try (rewrite ?Ls, ?Ld, ?Ll; first [by exists 8%nat | by exists 2%nat]).
  2:{ change (sum16 [0; 0; 0; ICMPv6]) with ICMPv6. unfold ICMPv6. lia. }
  change (sum16 [0; 0; 0; ICMPv6]) with ICMPv6.
  change (put (replicate 4 0) 0 (take 4 [ty; code; 0; 0])) with (@Ok HdrErr _ [ty; code; 0; 0]).
  cbn [mbind res_bind]. change (put [ty; code; 0; 0] 2 [0; 0]) with (@Ok HdrErr _ [ty; code; 0; 0]).
  cbn [mbind res_bind]. rewrite checksumBytes_ocsum; [unfold notN; f_equal; lia|done|by exists 2%nat|done|unfold ICMPv6; lia].
Qed.

(** A write into the second of three segments. *)
Lemma put_mid {E} (a m post s : bytes) i :
  zlen a ≤ i → i + zlen s ≤ zlen a + zlen m →
  @put E (a ++ m ++ post) i s =
  Ok (a ++ (take (Z.to_nat i - length a) m ++ s ++ drop (Z.to_nat i - length a + length s) m) ++ post).
Proof.
  intros Hi Hs. pose proof (zlen_nonneg a). pose proof (zlen_nonneg s).
  rewrite app_assoc, put_l by (rewrite ?zlen_app; lia). unfold zlen in *.
  rewrite take_app_ge, drop_app_ge by lia. rewrite <- !app_assoc. do 5 f_equal.
  replace (Z.to_nat i + length s - length a)%nat with (Z.to_nat i - length a + length s)%nat by lia. done.
Qed.

Lemma icmp6Marshal_layout h payload :
  44 + zlen payload ≤ 65535 →
  let ip := mkIP6Header ICMPv6 (IP6ID (ICMP6IP h)) (IP6Src (ICMP6IP h)) (IP6Dst (ICMP6IP h)) in
  icmp6Marshal h (replicate 44 0 ++ payload) =
  Ok (ip6Raw ip (As16 (IP6Src ip)) (As16 (IP6Dst ip)) (4 + zlen payload) ++
      [ICMP6Type h; ICMP6Code h; 0; 0] ++ payload).
Proof.
  intros Hl ip. pose proof (zlen_nonneg payload). unfold icmp6Marshal. fold ip.
  assert (zlen (replicate 44 0 ++ payload) = 44 + zlen payload) as Hz by (by rewrite zlen_app).
  rewrite Hz, (proj2 (Z.ltb_ge _ icmp6Len)) by (unfold icmp6Len, ip6HeaderLength, icmp6HeaderLength; lia).
  rewrite (proj2 (Z.ltb_ge maxPacketLength _)) by (unfold maxPacketLength; lia).
  rewrite ip6Marshal_pre by (change (zlen (replicate 44 0)) with 44; lia).
  change (zlen (replicate 44 0) - 40) with 4. change (drop 40 (replicate 44 0)) with [0; 0; 0; 0].
  cbn [ignoreErr mbind res_bind].
  set (hd := ip6Raw _ _ _ _). assert (length hd = 40%nat) as L40 by (apply ip6Raw_length; apply As16_length).
  rewrite put_mid by (unfold zlen; rewrite L40; simpl; lia). by rewrite L40.
Qed.

Lemma icmp6WriteChecksum_layout h hd ty code payload c :
  length hd = 40%nat →
  icmp6Checksum [ty; code; 0; 0] (As16 (IP6Src (ICMP6IP h))) (As16 (IP6Dst (ICMP6IP h))) payload = Ok c →
  icmp6WriteChecksum h (hd ++ [ty; code; 0; 0] ++ payload) = Ok (hd ++ icmpRaw ty code c ++ payload).
Proof.
  intros L40 Hc. pose proof (zlen_nonneg payload).
  assert (zlen (hd ++ [ty; code; 0; 0] ++ payload) = 44 + zlen payload) as Hz
    by (zlen_norm; unfold zlen at 1; rewrite L40; lia).
  unfold icmp6WriteChecksum, slice_from. change icmp6Len with 44. unfold ip6HeaderLength. rewrite Hz.
  rewrite (slice_const _ [ty; code; 0; 0] 40 44); [|lia..|].
  2:{ to_nat_const. rewrite drop_app_ge, L40 by lia. done. }
  rewrite bind_ret. rewrite (slice_const _ payload); [|lia..|].
  2:{ change (Z.to_nat 44) with 44%nat. rewrite drop_app_ge, L40 by lia. change (44 - 40)%nat with 4%nat. cbn [app drop].
      rewrite drop_0. apply take_ge. unfold zlen. lia. }
  rewrite bind_ret. rewrite Hc. rewrite bind_ret. unfold put_be. rewrite be_bytes2.
  change (40 + 2) with 42. rewrite put_mid by (unfold zlen; rewrite L40; simpl; lia).
  rewrite L40. change (Z.to_nat 42 - 40)%nat with 2%nat. reflexivity.
Qed.

Lemma icmp6_layout h payload c :
  44 + zlen payload ≤ 65535 →
  let ip := mkIP6Header ICMPv6 (IP6ID (ICMP6IP h)) (IP6Src (ICMP6IP h)) (IP6Dst (ICMP6IP h)) in
  let sb := As16 (IP6Src (ICMP6IP h)) in let db := As16 (IP6Dst (ICMP6IP h)) in
  icmp6Checksum [ICMP6Type h; ICMP6Code h; 0; 0] sb db payload = Ok c →
  Generate h payload =
  Ok (ip6Raw ip sb db (4 + zlen payload) ++ icmpRaw (ICMP6Type h) (ICMP6Code h) c ++ payload).
Proof.
  intros Hl ip sb db Hc. unfold Generate, Marshal, WriteChecksum, HLen, ICMP6Header_Header.
  change (Z.to_nat icmp6Len) with 44%nat. rewrite icmp6Marshal_layout by done. cbn [ignoreErr mbind res_bind].
  apply icmp6WriteChecksum_layout; [|done]. apply ip6Raw_length; apply As16_length.
Qed.

Lemma v6_icmp_decoded ty code c payload b q0 ip len s d :
  b = ip ++ icmpRaw ty code c ++ payload → length ip = 40%nat →
  let q := v6parsed ICMPv6 len s d b q0 in
  decode6Sub b q = Ok (setDataofs 44 (setPorts 0 0 q)) ∧
  IsEchoResponse (setDataofs 44 (setPorts 0 0 q)) =
    Ok ((ty =? ICMP6EchoReply) && (code =? 0) && (4 <=? zlen payload)) ∧
  (4 ≤ zlen payload → EchoIDSeq (setDataofs 44 (setPorts 0 0 q)) = Ok (le_val (take 4 payload))).
Proof.
  intros Hb Lip q. pose proof (zlen_nonneg payload). assert (zlen b = 44 + zlen payload) as Hz
    by (rewrite Hb, !zlen_app; unfold zlen at 1; rewrite Lip; unfold icmpRaw; zlen_norm; lia).
  assert (drop 40 b = icmpRaw ty code c ++ payload) as Hd by (rewrite Hb, drop_app_ge, Lip by lia; done).
  assert (∀ i x, drop 40 b !! i = Some x → @idx () Z b (Z.of_nat (40 + i)) = Ok x) as Hi.
  { intros i x Hx. apply idx_const; [lia|]. by rewrite Nat2Z.id, <- lookup_drop. }
  split_and!.
  - unfold decode6Sub. cbn [IPProto subofs q v6parsed setSubofs setIPs setLength setProto].
    unfold slice_from. rewrite (slice_const _ (drop 40 b)); [|lia..|apply take_ge; rewrite length_drop; unfold zlen; lia].
    cbn [mbind res_bind]. change (ICMPv6 =? ICMPv6) with true. cbn match. rewrite Hd.
    rewrite (proj2 (Z.ltb_ge _ _)) by (unfold icmpRaw, icmp6HeaderLength; zlen_norm; lia). done.
  - unfold IsEchoResponse, isEcho. cbn [IPProto pb subofs setDataofs setPorts q v6parsed setSubofs setIPs setLength setProto setVersion setBuf].
    change (ICMPv6 =? ICMPv4) with false. change (ICMPv6 =? ICMPv6) with true. cbn [orb]. rewrite Hz.
    destruct (Z.leb_spec 4 (zlen payload)).
    + rewrite (proj2 (Z.ltb_ge _ _)) by lia.
      assert (@idx () Z b 40 = Ok ty) as -> by (apply (Hi 0%nat); by rewrite Hd).
      assert (@idx () Z b (40 + 1) = Ok code) as -> by (apply (Hi 1%nat); by rewrite Hd).
      cbn [mbind res_bind]. by destruct (ty =? ICMP6EchoReply), (code =? 0).
    + rewrite (proj2 (Z.ltb_lt _ _)) by lia. by rewrite andb_false_r.
  - intros H4. unfold EchoIDSeq. cbn [IPProto pb setDataofs setPorts q v6parsed setSubofs setIPs setLength setProto setVersion setBuf].
    change (ICMPv6 =? ICMPv4) with false. change (ICMPv6 =? ICMPv6) with true. cbn match.
    change (ip6HeaderLength + icmp6HeaderLength) with 44.
    rewrite (proj2 (Z.ltb_ge _ _)) by lia. change (44 + 4) with 48.
    rewrite (slice_const _ (take 4 payload)); [done|lia|lia|].
    change (Z.to_nat 44) with (40 + 4)%nat. rewrite <- drop_drop, Hd. done.
Qed.

Lemma icmp6_sum_valid src dst ty code payload :
  bytes_ok src → bytes_ok dst → length src = 16%nat → length dst = 16%nat → bytes_ok payload →
  byte_ok ty → byte_ok code → 44 + zlen payload ≤ 65535 →
  let c := 65535 - ocsum (icmp6Total [ty; code; 0; 0] src dst payload) in
  ip4Checksum (pseudo6 src dst (4 + zlen payload) ICMPv6 ++ icmpRaw ty code c ++ payload) = 0.
Proof.
  intros Os Od Ls Ld Hp Ht Hc Hl c. assert (byte_ok ICMPv6) by (unfold byte_ok, ICMPv6; lia).
  pose proof (zlen_nonneg payload). pose proof (pseudo6_length src dst (4 + zlen payload) ICMPv6 Ls Ld) as Lp.
  assert (Nat.Even (length (be_bytes 4 (4 + zlen payload)))) by (by exists 2%nat).
  assert (0 ≤ icmp6Total [ty; code; 0; 0] src dst payload) as Ht0.
  { unfold icmp6Total, ICMPv6. pose proof (sum16_nonneg src Os). pose proof (sum16_nonneg dst Od).
    pose proof (sum16_nonneg _ (be_bytes_ok 4 (4 + zlen payload))). pose proof (sum16_nonneg payload Hp).
    cbn [sum16]. unfold byte_ok in *. lia. }
  pose proof (ocsum_range _ Ht0). apply verify_ok.
  - apply Forall_app; split; [by apply pseudo6_ok|]. apply Forall_app; split; [by apply icmpRaw_ok|done].
  - rewrite zlen_app. unfold zlen at 1. rewrite Lp. unfold icmpRaw. zlen_norm. lia.
  - rewrite sum16_app by (rewrite Lp; by exists 20%nat). rewrite icmpRaw_sum by lia.
    replace (_ + _) with (icmp6Total [ty; code; 0; 0] src dst payload + c); [by apply ocsum_complement|].
    unfold icmp6Total, pseudo6. rewrite !sum16_app by (rewrite ?Ls, ?Ld; done || by exists 8%nat).
    change (icmpRaw ty code 0) with [ty; code; 0; 0]. 
    change (sum16 [0; 0; 0; ICMPv6]) with ICMPv6. lia.
Qed.

(** A generated ICMPv6 packet with a payload of even length is well-formed: the
    checksum over the pseudo-header verifies, [Decode] gives back the addresses and
    the payload, and an echo reply is recognised with its identifier and sequence
    number. *)
Theorem icmp6_generate h payload q0 :
  byte_ok (ICMP6Type h) → byte_ok (ICMP6Code h) → bytes_ok payload → Nat.Even (length payload) →
  44 + zlen payload ≤ 65535 →
  let sb := As16 (IP6Src (ICMP6IP h)) in let db := As16 (IP6Dst (ICMP6IP h)) in
  ∃ b q, Generate h payload = Ok b ∧
    ip4Checksum (pseudo6 sb db (4 + zlen payload) ICMPv6 ++ drop 40 b) = 0 ∧
    Decode b q0 = Ok q ∧ IPVersion q = 6 ∧ IPProto q = ICMPv6 ∧
    Src q = mkAddrPort (AddrFrom16 sb) 0 ∧ Dst q = mkAddrPort (AddrFrom16 db) 0 ∧ Payload q = Ok payload ∧
    IsEchoResponse q = Ok ((ICMP6Type h =? ICMP6EchoReply) && (ICMP6Code h =? 0) && (4 <=? zlen payload)) ∧
    (4 ≤ zlen payload → EchoIDSeq q = Ok (le_val (take 4 payload))).
Proof.
  intros Ht Hc Hp He Hl sb db. pose proof (zlen_nonneg payload).
  assert (length sb = 16%nat) as Ls by apply As16_length. assert (length db = 16%nat) as Ld by apply As16_length.
  assert (bytes_ok sb) as Os by apply As16_ok. assert (bytes_ok db) as Od by apply As16_ok.
  pose proof (icmp6Checksum_even sb db payload (ICMP6Type h) (ICMP6Code h)) as Hcs.
  rewrite (icmp6_layout h payload _ Hl (Hcs Os Od Ls Ld Hp Ht Hc He ltac:(lia))). fold sb db.
  set (ip := mkIP6Header _ _ _ _). set (c := 65535 - _).
  set (rest := icmpRaw (ICMP6Type h) (ICMP6Code h) c ++ payload).
  assert (zlen rest = 4 + zlen payload) as Hr by (unfold rest, icmpRaw; zlen_norm; lia).
  assert (ip6Raw ip sb db (4 + zlen payload) = ip6Raw ip sb db (zlen rest)) as -> by (by rewrite Hr).
  destruct (decode_ip6Raw ip sb db rest q0) as [Hdec _]; [done..|lia|done|].
  pose proof (ip6Raw_length ip sb db (zlen rest) Ls Ld) as L40.
  set (b := ip6Raw _ _ _ _ ++ rest) in *.
  assert (zlen b = 40 + zlen rest) as Hb by (unfold b; rewrite zlen_app; unfold zlen at 1; rewrite L40; lia).
  destruct (v6_icmp_decoded (ICMP6Type h) (ICMP6Code h) c payload b q0 _ (40 + zlen rest) (AddrFrom16 sb)
    (AddrFrom16 db) eq_refl L40) as (Hsub & Hresp & Hid).
  set (q := v6parsed _ _ _ _ _ _) in *. exists b, (setDataofs 44 (setPorts 0 0 q)). split_and!; try done.
  - unfold b. rewrite drop_app_ge, L40 by lia. cbn [Nat.sub]. rewrite drop_0. by apply icmp6_sum_valid.
  - by rewrite Hdec.
  - apply (Payload_drop _ 44); [done|..]; change (pb _) with b; change (plength _) with (40 + zlen rest).
    + done.
    + unfold zlen in Hb, Hr. lia.
    + unfold b. by rewrite drop_app_ge, L40 by lia.
Qed.

Definition exICMP6 : ICMP6Header := mkICMP6Header (mkIP6Header ICMPv6 0 (Addr6 1 "") (Addr6 2 "")) ICMP6EchoReply 0.

(** With a payload of odd length the ICMPv6 checksum is wrong: [checksumBytes]
    adds the first byte of an odd buffer as a low byte, and so shifts all others; the
    five-byte echo reply below does not verify. *)
Theorem icmp6_odd_checksum :
  ∃ b, Generate exICMP6 [1; 2; 3; 4; 5] = Ok b ∧
    ip4Checksum (pseudo6 (As16 (Addr6 1 "")) (As16 (Addr6 2 "")) 9 ICMPv6 ++ drop 40 b) ≠ 0.
Proof. eexists. split; [vm_compute; reflexivity|]. vm_compute. discriminate. Qed.

(** ** Witnesses *)
Lemma udp6_generate_witness :
  ∃ b, Generate (mkUDP6Header (mkIP6Header UDP 0 (Addr6 1 "") (Addr6 2 "")) 53 54) [1; 2; 3] = Ok b.
Proof.
  destruct (udp6_generate (mkUDP6Header (mkIP6Header UDP 0 (Addr6 1 "") (Addr6 2 "")) 53 54) [1; 2; 3] zeroParsed)
    as (b & q & H & _).
  - simpl. lia.
  - simpl. lia.
  - repeat constructor; vm_compute; discriminate || reflexivity.
  - vm_compute. discriminate.
  - exists b. exact H.
Defined.
Lemma icmp6_generate_witness : ∃ b, Generate exICMP6 [1; 2; 3; 4] = Ok b.
Proof.
  destruct (icmp6_generate exICMP6 [1; 2; 3; 4] zeroParsed) as (b & q & H & _).
  - split; vm_compute; discriminate || reflexivity.
  - split; vm_compute; discriminate || reflexivity.
  - repeat constructor; vm_compute; discriminate || reflexivity.
  - exists 2%nat. reflexivity.
  - vm_compute. discriminate.
  - exists b. exact H.
Defined.
