(* ===== verification/Checksum.v ===== *)
(** * Checksum updates: net/packet/checksum

    [UpdateSrcAddr] and [UpdateDstAddr] rewrite an address of a decoded packet in
    place and update its checksums incrementally. The sub-slices of the packet that
    the code writes to share its buffer, and are offsets into it here. The capture
    metadata, which only logging reads, is not part of [Parsed]. *)

From stdpp Require Import base list.
From S2P Require Import Prelude Bytes NetIP Packet PacketThms Headers HeadersThms.

Definition minUDPSize : Z := 8.
Definition minTCPSize : Z := 20.
Definition minICMPv6Size : Z := 8.
Definition minIPv6Header : Z := 40.
Definition offsetICMPv6Checksum : Z := 2.
Definition offsetUDPChecksum : Z := 6.
Definition offsetTCPChecksum : Z := 16.

(** The loop of [updateV4Checksum] over the 16-bit fields. *)
Fixpoint updLoop (old new : bytes) (cPrime : Z) : Z :=
  match old, new with
  | o1 :: o2 :: old, n1 :: n2 :: new =>
      let mNot := notN 16 (be_val 0 [o1; o2]) in
      let mPrime := be_val 0 [n1; n2] in
      updLoop old new (u32 (cPrime + u32 (mPrime + mNot)))
  | _, _ => cPrime
  end.

(** [updateV4Checksum(b[off:off+2], old, new)] *)
Definition updateV4Checksum (b : bytes) (off : Z) (old new : bytes) : res () bytes :=
  if decide (length old ≠ length new) then Panic
  else if Nat.odd (length old) then Panic
  else
    s ← get_be 2 b off;
    let cPrime := updLoop old new (notN 16 s) in
    let cPrime := csumFold 2 cPrime in
    put_be 2 b off (notN 16 (u16 cPrime)).

Definition checksumUpdate2ByteAlignedUint16 (xsum old new : Z) : Z :=
  if old =? new then xsum else checksumCombine xsum (checksumCombine new (notN 16 old)).

Fixpoint checksumUpdate2ByteAlignedAddress (xsum : Z) (old new : bytes) : Z :=
  match old, new with
  | o1 :: o2 :: old, n1 :: n2 :: new =>
      checksumUpdate2ByteAlignedAddress
        (checksumUpdate2ByteAlignedUint16 xsum (u16 (Z.shiftl o1 8 + o2)) (u16 (Z.shiftl n1 8 + n2))) old new
  | _, _ => xsum
  end.

Definition updateV4PacketChecksums (q : Parsed) (old new : Addr) : res () Parsed :=
  if zlen (pb q) <? 12 then Ok q
  else
    o4 ← As4 old;
    n4 ← As4 new;
    b ← updateV4Checksum (pb q) 10 o4 n4;
    let q := setBuf b q in
    tr ← Transport q;
    let at_ (off : Z) := b ← updateV4Checksum (pb q) (subofs q + off) o4 n4; Ok (setBuf b q) in
    if (IPProto q =? UDP) || (IPProto q =? DCCP) then
      if zlen tr <? minUDPSize then Ok q else at_ 6
    else if IPProto q =? TCP then
      if zlen tr <? minTCPSize then Ok q else at_ 16
    else if IPProto q =? GRE then
      if zlen tr <? 6 then Ok q
      else t0 ← idx tr 0; if t0 =? 1 then at_ 4 else Ok q
    else Ok q.

Definition updateV6PacketChecksums (q : Parsed) (old new : Addr) : res () Parsed :=
  if zlen (pb q) <? minIPv6Header then Ok q
  else
    let o6 := As16 old in
    let n6 := As16 new in
    tr ← Transport q;
    let at_ (off : Z) :=
      xsum ← get_be 2 (pb q) (subofs q + off);
      b ← put_be 2 (pb q) (subofs q + off)
            (notN 16 (checksumUpdate2ByteAlignedAddress (notN 16 xsum) o6 n6));
      Ok (setBuf b q) in
    if IPProto q =? ICMPv6 then
      if zlen tr <? minICMPv6Size then Ok q else at_ offsetICMPv6Checksum
    else if (IPProto q =? UDP) || (IPProto q =? DCCP) then
      if zlen tr <? minUDPSize then Ok q else at_ offsetUDPChecksum
    else if IPProto q =? TCP then
      if zlen tr <? minTCPSize then Ok q else at_ offsetTCPChecksum
    else Ok q.

Definition setSrc (src : AddrPort) (q : Parsed) : Parsed :=
  mkParsed (pb q) (subofs q) (dataofs q) (plength q) (IPVersion q) (IPProto q) src (Dst q) (TCPFlags q).
Definition setDst (dst : AddrPort) (q : Parsed) : Parsed :=
  mkParsed (pb q) (subofs q) (dataofs q) (plength q) (IPVersion q) (IPProto q) (Src q) dst (TCPFlags q).

Definition UpdateSrcAddr (q : Parsed) (src : Addr) : res () Parsed :=
  if Is6 src && negb (IPVersion q =? 6) then Panic
  else if Is4 src && negb (IPVersion q =? 4) then Panic
  else
    let old := ap_addr (Src q) in
    let q := setSrc (mkAddrPort src (ap_port (Src q))) q in
    if Is6 src then
      b ← put (pb q) 8 (As16 src);
      updateV6PacketChecksums (setBuf b q) old src
    else
      v4 ← As4 src;
      b ← put (pb q) 12 v4;
      updateV4PacketChecksums (setBuf b q) old src.

Definition UpdateDstAddr (q : Parsed) (dst : Addr) : res () Parsed :=
  if Is6 dst && negb (IPVersion q =? 6) then Panic
  else if Is4 dst && negb (IPVersion q =? 4) then Panic
  else
    let old := ap_addr (Dst q) in
    let q := setDst (mkAddrPort dst (ap_port (Dst q))) q in
    if Is6 dst then
      b ← put (pb q) 24 (As16 dst);
      updateV6PacketChecksums (setBuf b q) old dst
    else
      v4 ← As4 dst;
      b ← put (pb q) 16 v4;
      updateV4PacketChecksums (setBuf b q) old dst.
