(* ===== verification/ChecksumThms.v ===== *)
(** * Correctness of the incremental checksum updates

    The update of RFC 1624 keeps a packet valid: a receiver's check of the header
    and of the transport segment with its pseudo-header succeeds after the address
    was rewritten if it did before. *)

From stdpp Require Import base list.
From S2P Require Import Prelude Bytes NetIP Packet PacketThms Headers HeadersThms Headers6Thms Checksum.

(** Congruence of sums in one's complement. *)
Definition oceq (a b : Z) : Prop := (a - b) `mod` 65535 = 0.
Infix "≡o" := oceq (at level 70).

Lemma oceq_iff a b : a ≡o b ↔ ∃ k, a = b + k * 65535.
Proof.
  unfold oceq. split.
  - intros H. exists ((a - b) / 65535). pose proof (Z.div_mod (a - b) 65535 ltac:(lia)). lia.
  - intros [k ->]. replace (b + k * 65535 - b) with (k * 65535) by lia. apply Z_mod_mult.
Qed.
#[export] Instance oceq_equiv : Equivalence oceq.
Proof.
  split.
  - intros a. apply oceq_iff. exists 0. lia.
  - intros a b [k H]%oceq_iff. apply oceq_iff. exists (- k). lia.
  - intros a b c [k H]%oceq_iff [k' H']%oceq_iff. apply oceq_iff. exists (k + k'). lia.
Qed.
#[export] Instance oceq_add : Proper (oceq ==> oceq ==> oceq) Z.add.
Proof. intros a a' [k H]%oceq_iff b b' [k' H']%oceq_iff. apply oceq_iff. exists (k + k'). lia. Qed.
#[export] Instance oceq_sub : Proper (oceq ==> oceq ==> oceq) Z.sub.
Proof. intros a a' [k H]%oceq_iff b b' [k' H']%oceq_iff. apply oceq_iff. exists (k - k'). lia. Qed.

Lemma ocsum_oceq s : 0 ≤ s → ocsum s ≡o s.
Proof.
  intros Hs. unfold ocsum. destruct (Z.eqb_spec s 0) as [->|]; [reflexivity|]. apply oceq_iff.
  exists (- ((s - 1) / 65535)). pose proof (Z.div_mod (s - 1) 65535 ltac:(lia)). lia.
Qed.

Lemma check_valid b : bytes_ok b → zlen b ≤ 131072 → ip4Checksum b = 0 ↔ 0 < sum16 b ∧ sum16 b ≡o 0.
Proof.
  intros Hb Hl. destruct (sum16_bound b Hb) as [S0 _]. unfold oceq. rewrite Z.sub_0_r. split.
  - intros H. rewrite ip4Checksum_sum in H by done. unfold ocsum in H. destruct (Z.eqb_spec (sum16 b) 0); [lia|].
    split; [lia|]. pose proof (Z.div_mod (sum16 b - 1) 65535 ltac:(lia)).
    replace (sum16 b) with ((1 + (sum16 b - 1) / 65535) * 65535) by lia. apply Z_mod_mult.
  - intros [H1 H2]. by apply verify_ok.
Qed.

(** Replacing an aligned, even segment. *)
Definition splice (off : nat) (s b : bytes) : bytes := take off b ++ s ++ drop (off + length s) b.

Lemma put_splice {E} b off s : (off + length s ≤ length b)%nat → @put E b (Z.of_nat off) s = Ok (splice off s b).
Proof. intros H. unfold put. rewrite decide_True by (unfold zlen; lia). by rewrite Nat2Z.id. Qed.
Lemma splice_length off s b : (off + length s ≤ length b)%nat → length (splice off s b) = length b.
Proof. intros H. unfold splice. rewrite !length_app, length_take, length_drop. lia. Qed.
Lemma splice_ok off s b : bytes_ok s → bytes_ok b → bytes_ok (splice off s b).
Proof. intros Hs Hb. unfold splice. repeat (apply Forall_app; split); [by apply Forall_take|done|by apply Forall_drop]. Qed.
Lemma splice_at off s b : (off + length s ≤ length b)%nat → take (length s) (drop off (splice off s b)) = s.
Proof.
  intros H. unfold splice. rewrite drop_app_ge by (rewrite length_take; lia).
  rewrite length_take, Nat.min_l, Nat.sub_diag, drop_0 by lia. by rewrite take_app_le, take_ge by lia.
Qed.

Lemma sum16_splice off s b :
  Nat.Even off → Nat.Even (length s) → (off + length s ≤ length b)%nat →
  sum16 (splice off s b) = sum16 b - sum16 (take (length s) (drop off b)) + sum16 s.
Proof.
  intros Ho Hs Hl. unfold splice. rewrite <- (take_drop off b) at 3. rewrite <- (take_drop (length s) (drop off b)) at 1.
  rewrite !sum16_app by (rewrite ?length_take, ?length_drop, ?Nat.min_l by lia; done). rewrite drop_drop. lia.
Qed.

(** A splice before or after a cut. *)
Lemma take_splice off s b n :
  (off + length s ≤ n)%nat → (n ≤ length b)%nat → take n (splice off s b) = splice off s (take n b).
Proof.
  intros Hn Hl. unfold splice. rewrite take_app_ge by (rewrite length_take; lia). rewrite length_take, Nat.min_l by lia.
  rewrite take_app_ge by lia. rewrite take_take, Nat.min_l by lia. f_equal. f_equal.
  rewrite take_drop_commute. f_equal. f_equal. lia.
Qed.
Lemma take_splice_before off s b n : (n ≤ off)%nat → (off ≤ length b)%nat → take n (splice off s b) = take n b.
Proof. intros Hn Hl. unfold splice. rewrite take_app_le by (rewrite length_take; lia). by rewrite take_take, Nat.min_l by lia. Qed.
Lemma drop_splice off s b n :
  (n ≤ off)%nat → (off ≤ length b)%nat → drop n (splice off s b) = splice (off - n) s (drop n b).
Proof.
  intros Hn Hl. unfold splice. rewrite drop_app_le by (rewrite length_take; lia). rewrite drop_drop.
  replace (n + (off - n + length s))%nat with (off + length s)%nat by lia. f_equal.
  rewrite take_drop_commute. f_equal. f_equal. lia.
Qed.
Lemma drop_splice_after off s b n :
  (off + length s ≤ n)%nat → (off + length s ≤ length b)%nat → drop n (splice off s b) = drop n b.
Proof.
  intros Hn Hl. unfold splice. rewrite drop_app_ge by (rewrite length_take; lia). rewrite length_take, Nat.min_l by lia.
  rewrite drop_app_ge by lia. rewrite drop_drop. f_equal. lia.
Qed.

(** ** The IPv4 update *)
Lemma updLoop_sum old : ∀ new c,
  bytes_ok old → bytes_ok new → length old = length new → Nat.Even (length old) → 0 ≤ c →
  c + 65535 * zlen old < 2 ^ 32 →
  0 ≤ updLoop old new c < 2 ^ 32 ∧ updLoop old new c ≡o c + sum16 new - sum16 old.
Proof.
  induction old as [|x|x y old IH] using pair_ind; intros new c Ho Hn Hl He Hc Hb.
  - rewrite @zlen_nil in Hb. destruct new; [|done]. simpl. split; [lia|]. apply oceq_iff. exists 0. lia.
  - destruct He as [k He]. simpl in He. lia.
  - destruct new as [|n1 [|n2 new]]; [done..|]. injection Hl as Hl.
    apply Forall_cons in Ho as [Ox [Oy Ho]%Forall_cons]. apply Forall_cons in Hn as [N1 [N2 Hn]%Forall_cons].
    rewrite !zlen_cons in Hb. pose proof (zlen_nonneg old). cbn [updLoop be_val sum16]. unfold byte_ok, notN in *.
    change (2 ^ 16 - 1) with 65535. rewrite (uN_small 32 (_ + (65535 - _))) by lia. rewrite (uN_small 32 (c + _)) by lia.
    destruct (IH new (c + ((0 * 256 + n1) * 256 + n2 + (65535 - ((0 * 256 + x) * 256 + y))))) as [IH1 IH2];
      [done..|destruct He as [k He]; exists (k - 1)%nat; simpl in He; lia|lia|lia|].
    split; [done|]. rewrite IH2. apply oceq_iff. exists 1. lia.
Qed.

(** The word at an offset of a buffer. *)
Definition word (b : bytes) (off : nat) : Z := sum16 (take 2 (drop off b)).

Lemma get_be_word {E} b off : bytes_ok b → (off + 2 ≤ length b)%nat →
  @get_be E 2 b (Z.of_nat off) = Ok (word b off) ∧ 0 ≤ word b off < 65536.
Proof.
  intros Hb Hl. unfold get_be, slice, word. rewrite decide_True by (unfold zlen; lia).
  replace (Z.of_nat off + Z.of_nat 2 - Z.of_nat off) with 2 by lia. rewrite Nat2Z.id. change (Z.to_nat 2) with 2%nat.
  assert (bytes_ok (take 2 (drop off b))) as Ht by (by apply Forall_take, Forall_drop).
  assert (length (take 2 (drop off b)) = 2%nat) as Lt by (rewrite length_take, length_drop; lia).
  destruct (take 2 (drop off b)) as [|x [|y [|]]]; try done.
  apply Forall_cons in Ht as [Hx [Hy _]%Forall_cons]. unfold byte_ok in *. cbn [mbind res_bind be_val sum16].
  split; [f_equal|]; lia.
Qed.

Lemma updateV4Checksum_spec b off old new :
  bytes_ok b → bytes_ok old → bytes_ok new → length old = length new → Nat.Even (length old) → zlen old ≤ 16 →
  (off + 2 ≤ length b)%nat →
  ∃ w, updateV4Checksum b (Z.of_nat off) old new = Ok (splice off [hi8 w; lo8 w] b) ∧ 0 ≤ w < 65536 ∧
       w + sum16 new ≡o word b off + sum16 old.
Proof.
  intros Hb Ho Hn Hl He Hs Hlen. destruct (get_be_word (E := ()) b off Hb Hlen) as [Hw Rw].
  unfold updateV4Checksum. rewrite decide_False by (by intros []).
  assert (Nat.odd (length old) = false) as -> by (rewrite <- Nat.negb_even; by apply Nat.even_spec in He as ->).
  rewrite Hw, bind_ret. destruct (updLoop_sum old new (notN 16 (word b off))) as [[R1 R2] HR];
    [done..|unfold notN; lia|unfold notN; lia|]. rewrite csumFold_ocsum by lia.
  pose proof (ocsum_range _ R1). exists (65535 - ocsum (updLoop old new (notN 16 (word b off)))).
  rewrite uN_small by lia. unfold notN at 1. split_and!; [|lia..|].
  - unfold put_be. rewrite be_bytes2. by rewrite put_splice.
  - apply oceq_iff in HR as [k HR]. pose proof (ocsum_oceq _ R1) as [k' Hk']%oceq_iff. apply oceq_iff.
    unfold notN in *. exists (- k - k'). lia.
Qed.

Lemma sum16_pos b x : bytes_ok b → b !! 0%nat = Some x → 0 < x → 0 < sum16 b.
Proof.
  intros Hb Hx Hp. destruct b as [|y [|z b]]; [done|..]; injection Hx as ->.
  - simpl. lia.
  - apply Forall_cons in Hb as [_ [Hz Hb]%Forall_cons]. pose proof (sum16_nonneg b Hb). unfold byte_ok in Hz.
    cbn [sum16]. lia.
Qed.
Lemma lookup_splice_before off s b n : (n < off)%nat → (off ≤ length b)%nat → splice off s b !! n = b !! n.
Proof.
  intros Hn Hl. unfold splice. rewrite lookup_app_l by (rewrite length_take; lia). by rewrite lookup_take_lt by lia.
Qed.
Lemma word_take b n off : (off + 2 ≤ n)%nat → word (take n b) off = word b off.
Proof. intros H. unfold word. rewrite !take_drop_commute, take_take, Nat.min_l by lia. done. Qed.
Lemma word_drop b n off : word (drop n b) off = word b (n + off).
Proof. unfold word. by rewrite drop_drop. Qed.
Lemma word_bytes_ok w : bytes_ok [hi8 w; lo8 w].
Proof. repeat (apply Forall_cons; split; [solve [eauto with bytes]|]). by constructor. Qed.
Lemma sum16_word w : 0 ≤ w < 65536 → sum16 [hi8 w; lo8 w] = w.
Proof. intros. cbn [sum16]. pose proof (hilo w). lia. Qed.

Lemma sum16_splice_word off w b :
  Nat.Even off → (off + 2 ≤ length b)%nat → 0 ≤ w < 65536 →
  sum16 (splice off [hi8 w; lo8 w] b) = sum16 b - word b off + w.
Proof. intros. rewrite sum16_splice by (done || by exists 1%nat). rewrite sum16_word by done. done. Qed.

(** The three writes to the buffer: the address, the header checksum, the transport
    checksum. *)
Section v4update.
Context (b old new ps ps' : bytes) (aoff sub toff : nat).
Context (Hb : bytes_ok b) (Hold : bytes_ok old) (Hnew : bytes_ok new).
Context (Lold : length old = 4%nat) (Lnew : length new = 4%nat).
Context (Haoff : aoff = 12%nat ∨ aoff = 16%nat) (Hsub : (20 ≤ sub)%nat) (Esub : Nat.Even sub) (Etoff : Nat.Even toff).
Context (Hlen : (sub + toff + 2 ≤ length b)%nat) (Hmax : zlen b ≤ 65535).
Context (Haddr : take 4 (drop aoff b) = old).
Context (x : Z) (Hx : b !! 0%nat = Some x) (Px : 0 < x).
Context (Hps : bytes_ok ps) (Hps' : bytes_ok ps') (Lps : length ps = length ps') (Eps : Nat.Even (length ps)) (Sps : zlen ps ≤ 65535).
Context (Pps : 0 < sum16 ps') (Dps : sum16 ps' = sum16 ps - sum16 old + sum16 new).
Context (Vhd : ip4Checksum (take sub b) = 0) (Vtr : ip4Checksum (ps ++ drop sub b) = 0).

Local Abbreviation b1 := (splice aoff new b).

Lemma v4_b1 : bytes_ok b1 ∧ length b1 = length b ∧ take sub b1 = splice aoff new (take sub b) ∧ drop sub b1 = drop sub b.
Proof.
  split_and!; [by apply splice_ok|apply splice_length; lia|apply take_splice; lia|apply drop_splice_after; lia].
Qed.

Lemma v4_update_valid :
  ∃ b2 b3, updateV4Checksum b1 10 old new = Ok b2 ∧
    updateV4Checksum b2 (Z.of_nat (sub + toff)) old new = Ok b3 ∧ length b2 = length b ∧ length b3 = length b ∧
    take 4 (drop aoff b3) = new ∧
    (∀ o, (12 ≤ o ≤ 16)%nat → (o + 4 ≤ aoff ∨ aoff + 4 ≤ o)%nat → take 4 (drop o b3) = take 4 (drop o b)) ∧
    ip4Checksum (take sub b3) = 0 ∧ ip4Checksum (ps' ++ drop sub b3) = 0.
Proof using All.
  destruct v4_b1 as (B1 & L1 & T1 & D1). assert (Nat.Even aoff) as Ea by (destruct Haoff as [-> | ->]; [by exists 6%nat|by exists 8%nat]).
  assert (Nat.Even (length old)) as E4 by (rewrite Lold; by exists 2%nat).
  destruct (updateV4Checksum_spec b1 10 old new) as (w & U1 & Rw & Ew); try done; [lia|unfold zlen; lia|lia|].
  set (b2 := splice 10 [hi8 w; lo8 w] b1).
  assert (length b2 = length b) as L2 by (unfold b2; rewrite splice_length; simpl; lia).
  assert (bytes_ok b2) as B2 by (apply splice_ok; [apply word_bytes_ok|done]).
  destruct (updateV4Checksum_spec b2 (sub + toff) old new) as (w' & U2 & Rw' & Ew'); try done; [lia|unfold zlen; lia|lia|].
  set (b3 := splice (sub + toff) [hi8 w'; lo8 w'] b2).
  assert (length b3 = length b) as L3 by (unfold b3; rewrite splice_length; simpl; lia).
  assert (bytes_ok b3) as B3 by (apply splice_ok; [apply word_bytes_ok|done]).
  exists b2, b3. split_and!; try done.
  - unfold b3. rewrite drop_splice, take_splice_before by (rewrite ?length_drop; lia).
    unfold b2. rewrite drop_splice_after by (simpl; lia). rewrite <- Lnew. apply splice_at. lia.
  - intros o Ho Hd. unfold b3. rewrite drop_splice, take_splice_before by (rewrite ?length_drop; lia).
    unfold b2. rewrite drop_splice_after by (simpl; lia). destruct Hd as [Hd|Hd].
    + by rewrite drop_splice, take_splice_before by (rewrite ?length_drop; lia).
    + by rewrite drop_splice_after by lia.
  - assert (take sub b3 = splice 10 [hi8 w; lo8 w] (take sub b1)) as ->
      by (unfold b3; rewrite take_splice_before by lia; apply take_splice; simpl; lia).
    rewrite check_valid in Vhd |- * by (try apply splice_ok; try apply word_bytes_ok; try (by apply Forall_take);
      unfold zlen in *; rewrite ?splice_length, ?length_take; simpl; rewrite ?length_take; lia).
    split; [apply (sum16_pos _ x); [apply splice_ok; [apply word_bytes_ok|by apply Forall_take]| |done]|].
    { rewrite lookup_splice_before, lookup_take_lt, lookup_splice_before by (rewrite ?length_take; lia). done. }
    rewrite sum16_splice_word by (rewrite ?length_take; done || lia || by exists 5%nat). rewrite word_take by lia.
    rewrite T1, sum16_splice by (rewrite ?length_take, ?Lnew; done || lia || by exists 2%nat).
    rewrite Lnew, take_drop_commute, take_take, Nat.min_l, <- take_drop_commute, Haddr by lia.
    destruct Vhd as [_ [k Hk]%oceq_iff]. apply oceq_iff in Ew as [k' Hk']. apply oceq_iff. exists (k + k'). lia.
  - assert (drop sub b3 = splice toff [hi8 w'; lo8 w'] (drop sub b)) as ->.
    { unfold b3. rewrite drop_splice by lia. replace (sub + toff - sub)%nat with toff by lia. f_equal.
      unfold b2. by rewrite drop_splice_after by (simpl; lia). }
    assert (word b2 (sub + toff) = word (drop sub b) toff) as Hw
      by (rewrite <- word_drop; unfold b2; rewrite drop_splice_after by (simpl; lia); by rewrite D1).
    assert (bytes_ok (drop sub b)) by (by apply Forall_drop).
    rewrite check_valid in Vtr |- * by (first [apply Forall_app; split; [done|try apply splice_ok; try apply word_bytes_ok; done]
      | unfold zlen in *; rewrite length_app, ?splice_length, length_drop by (rewrite length_drop; simpl; lia); lia]).
    rewrite sum16_app in Vtr by done. rewrite sum16_app by (by rewrite <- Lps).
    rewrite sum16_splice_word by (rewrite ?length_drop; done || lia).
    pose proof (sum16_nonneg (splice toff [hi8 w'; lo8 w'] (drop sub b)) ltac:(apply splice_ok; [apply word_bytes_ok|done])) as Hnn.
    rewrite sum16_splice_word in Hnn by (rewrite ?length_drop; done || lia).
    split; [lia|]. destruct Vtr as [_ [k Hk]%oceq_iff]. apply oceq_iff in Ew' as [k' Hk']. apply oceq_iff. exists (k + k'). lia.
Qed.
End v4update.

(** ** What [Decode] says of an IPv4 packet *)
Ltac inv_bind H :=
  let x := fresh "r" in let Hx := fresh "Hr" in
  apply bind_ok in H as (x & Hx & H).

Lemma decode4Sub_udp_tcp sub mf q q' :
  decode4Sub sub mf q = Ok q' → IPProto q' = UDP ∨ IPProto q' = TCP →
  pb q' = pb q ∧ subofs q' = subofs q ∧ ap_addr (Src q') = ap_addr (Src q) ∧ ap_addr (Dst q') = ap_addr (Dst q) ∧
  (if IPProto q' =? TCP then 20 else 8) ≤ zlen sub.
Proof.
  unfold decode4Sub, decodeTCP, decodeUDP, decodeSCTP. intros H Hp.
  assert (∀ p, setProto Unknown p = q' → False) as HU by (intros p <-; destruct Hp; discriminate).
  repeat match type of H with
  | (if ?c then _ else _) = _ => destruct c eqn:?
  | (_ ≫= _) = _ => inv_bind H
  | Ok (setProto Unknown _) = Ok _ => injection H as H; by apply HU in H
  | Ok _ = Ok _ => injection H as <-
  end; psimpl; bounds_ltb; destruct Hp as [Hp|Hp]; rewrite Hp in *; try discriminate; split_and!; try done.
Qed.

(** Opens a hypothesis that a decoder returned. *)
Ltac open_decode H :=
  repeat match type of H with
  | (if ?c then _ else _) = _ => destruct c eqn:?
  | (_ ≫= _) = _ => inv_bind H
  | Ok _ = Ok _ => injection H; clear H; intros; subst
  end.

Lemma decode6_version b q q' : decode6 b q = Ok q' → IPVersion q = 6 → IPVersion q' ≠ 4.
Proof.
  intros H Hv.
  assert (∀ q r, decode6Sub b q = Ok r → IPVersion r = IPVersion q) as Hsub.
  { clear. intros q r H. unfold decode6Sub, decodeTCP, decodeUDP, decodeSCTP in H. open_decode H; done. }
  assert (∀ q c r, decode6Fragment b q = Ok (c, r) → IPVersion r = IPVersion q) as Hfr.
  { clear. intros q c r H. unfold decode6Fragment in H. by open_decode H. }
  unfold decode6 in H. open_decode H;
    repeat match goal with
    | Hf : decode6Fragment _ _ = Ok ?cq |- _ => destruct cq; apply Hfr in Hf
    | Hs : decode6Sub _ _ = Ok _ |- _ => apply Hsub in Hs
    end; psimpl; congruence.
Qed.

Lemma slice_take {E A} (b s : list A) i j :
  @slice E A b i j = Ok s → s = take (Z.to_nat (j - i)) (drop (Z.to_nat i) b) ∧ 0 ≤ i ≤ j ∧ j ≤ zlen b.
Proof. unfold slice. intros H. case_decide as Hd; [|done]. injection H as <-. by destruct Hd. Qed.

Lemma subofs_even x : Nat.Even (Z.to_nat (u8 (Z.shiftl (Z.land x 0x0F) 2))).
Proof.
  rewrite Z.shiftl_mul_pow2 by lia. change (2 ^ 2) with 4. change 0x0F with (Z.ones 4). rewrite Z.land_ones by lia.
  pose proof (Z.mod_pos_bound x (2 ^ 4) ltac:(lia)). rewrite uN_small by lia.
  exists (Z.to_nat (x `mod` 2 ^ 4 * 2)). lia.
Qed.

Lemma Decode_v4 b q0 q :
  bytes_ok b → Decode b q0 = Ok q → IPVersion q = 4 → IPProto q = UDP ∨ IPProto q = TCP →
  ∃ b0, pb q = b ∧ b !! 0%nat = Some b0 ∧ 0 < b0 ∧
    ap_addr (Src q) = AddrFrom4 (take 4 (drop 12 b)) ∧ ap_addr (Dst q) = AddrFrom4 (take 4 (drop 16 b)) ∧
    Nat.Even (Z.to_nat (subofs q)) ∧ 0 ≤ subofs q ∧ 20 ≤ zlen b ∧
    subofs q + (if IPProto q =? TCP then 20 else 8) ≤ zlen b.
Proof.
  intros Hb HD Hv Hp. unfold Decode in HD. psimpl.
  assert (∀ p, setProto Unknown p = q → False) as HU by (intros p <-; destruct Hp; discriminate).
  destruct (zlen b <? 1); [injection HD as HD; by apply HU in HD|]. inv_bind HD.
  assert (b !! 0%nat = Some r) as H0.
  { unfold idx in Hr. rewrite decide_True in Hr by done. change (Z.to_nat 0) with 0%nat in Hr. destruct (b !! 0%nat); congruence. }
  destruct (r ≫ 4 =? 4) eqn:E4.
  2:{ destruct (r ≫ 4 =? 6) eqn:E6; [|injection HD as HD; by apply HU in HD].
      apply Z.eqb_eq in E6. by apply decode6_version in HD. }
  apply Z.eqb_eq in E4. assert (0 < r) as Pr.
  { apply (Forall_lookup_1 _ _ _ _ Hb) in H0. unfold byte_ok in H0. destruct (Z.eq_dec r 0) as [->|]; [done|lia]. }
  exists r. unfold decode4 in HD. destruct (zlen b <? ip4HeaderLength) eqn:El; [injection HD as HD; by apply HU in HD|].
  apply Z.ltb_ge in El. unfold ip4HeaderLength in El. inv_bind HD. inv_bind HD. cbn zeta in HD.
  destruct (zlen b <? _); [injection HD as HD; by apply HU in HD|]. inv_bind HD. inv_bind HD. inv_bind HD. cbn zeta in HD.
  destruct (_ <? subofs _); [injection HD as HD; by apply HU in HD|]. inv_bind HD. inv_bind HD.
  destruct (_ =? 0); [|destruct (_ <? minFragBlks); injection HD as HD; [by apply HU in HD|];
    subst q; psimpl; destruct Hp; discriminate].
  apply decode4Sub_udp_tcp in HD as (P1 & P2 & P3 & P4 & P5); [|done]. psimpl.
  apply slice_take in Hr3 as (-> & _ & _), Hr2 as (-> & _ & _).
  unfold slice_from in Hr5. apply slice_take in Hr5 as (-> & Hs & _).
  split_and!; try done; rewrite ?P2; try lia; [apply subofs_even|].
  unfold zlen in P5 at 1. rewrite length_take, length_drop in P5. unfold zlen in *. lia.
Qed.

(** A receiver's view of an IPv4 packet: both checksums verify. *)
Definition v4Valid (b : bytes) (sub : nat) (proto tlen : Z) : Prop :=
  ip4Checksum (take sub b) = 0 ∧
  ip4Checksum (pseudo4 (take 4 (drop 12 b)) (take 4 (drop 16 b)) proto tlen ++ drop sub b) = 0.

Lemma pseudo4_sum src dst proto len :
  length src = 4%nat → length dst = 4%nat →
  sum16 (pseudo4 src dst proto len) = sum16 src + sum16 dst + sum16 [0; proto; hi8 len; lo8 len].
Proof.
  intros Ls Ld. unfold pseudo4. rewrite !sum16_app by (rewrite ?Ls, ?Ld; by exists 2%nat). lia.
Qed.

(** The two checksum writes of [updateV4PacketChecksums] for UDP and TCP. *)
Lemma updateV4PacketChecksums_run q old new sub toff b2 b3 :
  12 ≤ zlen (pb q) → IPProto q = UDP ∨ IPProto q = TCP → toff = (if IPProto q =? TCP then 16%nat else 6%nat) →
  subofs q = Z.of_nat sub → subofs q + (if IPProto q =? TCP then 20 else 8) ≤ zlen b2 →
  updateV4Checksum (pb q) 10 (be_bytes 4 old) (be_bytes 4 new) = Ok b2 →
  updateV4Checksum b2 (Z.of_nat (sub + toff)) (be_bytes 4 old) (be_bytes 4 new) = Ok b3 →
  updateV4PacketChecksums q (Addr4 old) (Addr4 new) = Ok (setBuf b3 (setBuf b2 q)).
Proof.
  intros Hl Hp Ht Hs Hl2 U1 U2. unfold updateV4PacketChecksums. rewrite (proj2 (Z.ltb_ge _ _)) by lia.
  change (@As4 () (Addr4 old)) with (@Ok () _ (be_bytes 4 old)). change (@As4 () (Addr4 new)) with (@Ok () _ (be_bytes 4 new)).
  rewrite !bind_ret, U1, bind_ret. unfold Transport. psimpl.
  destruct (slice_from_ok (E := ()) b2 (subofs q)) as (tr & -> & Htr & _); [destruct (_ =? TCP); lia|]. rewrite bind_ret.
  assert (∀ off, Z.of_nat (sub + toff) = subofs q + off →
    updateV4Checksum b2 (subofs q + off) (be_bytes 4 old) (be_bytes 4 new) = Ok b3) as HU by (intros off <-; done).
  destruct Hp as [Hp|Hp]; rewrite Hp in *; subst toff; cbn -[Z.add] in *.
  - rewrite (proj2 (Z.ltb_ge _ _)) by (unfold minUDPSize; lia). by rewrite (HU 6) by lia.
  - rewrite (proj2 (Z.ltb_ge _ _)) by (unfold minTCPSize; lia). by rewrite (HU 16) by lia.
Qed.

Lemma take4_props b o : bytes_ok b → (o + 4 ≤ length b)%nat →
  bytes_ok (take 4 (drop o b)) ∧ length (take 4 (drop o b)) = 4%nat.
Proof. intros Hb Hl. split; [by apply Forall_take, Forall_drop|]. rewrite length_take, length_drop. lia. Qed.

Lemma update_core b sub toff proto tlen aoff new x :
  bytes_ok b → zlen b ≤ 65535 → b !! 0%nat = Some x → 0 < x → (20 ≤ sub)%nat → Nat.Even sub → Nat.Even toff →
  (sub + toff + 2 ≤ length b)%nat → proto = UDP ∨ proto = TCP → aoff = 12%nat ∨ aoff = 16%nat →
  bytes_ok new → length new = 4%nat → v4Valid b sub proto tlen →
  ∃ b2 b3, updateV4Checksum (splice aoff new b) 10 (take 4 (drop aoff b)) new = Ok b2 ∧
    updateV4Checksum b2 (Z.of_nat (sub + toff)) (take 4 (drop aoff b)) new = Ok b3 ∧
    length b2 = length b ∧ length b3 = length b ∧ take 4 (drop aoff b3) = new ∧ v4Valid b3 sub proto tlen.
Proof.
  intros Hb Hm Hx Px Hs Es Et Hl Hp Ha On Ln [V1 V2].
  destruct (take4_props b 12) as [O12 L12]; [done|lia|]. destruct (take4_props b 16) as [O16 L16]; [done|lia|].
  destruct (take4_props b aoff) as [Oa La]; [done|lia|].
  assert (byte_ok proto) as Op by (destruct Hp as [-> | ->]; split; done).
  set (s' := if decide (aoff = 12%nat) then new else take 4 (drop 12 b)).
  set (d' := if decide (aoff = 12%nat) then take 4 (drop 16 b) else new).
  assert (bytes_ok s' ∧ length s' = 4%nat ∧ bytes_ok d' ∧ length d' = 4%nat) as (Os & Ls & Od & Ld)
    by (unfold s', d'; case_decide; done).
  assert (0 < sum16 [0; proto; hi8 tlen; lo8 tlen]) as Hpos.
  { cbn [sum16]. pose proof (hi8_ok tlen). pose proof (lo8_ok tlen). unfold byte_ok in *. destruct Hp as [-> | ->]; unfold UDP, TCP; lia. }
  destruct (v4_update_valid b (take 4 (drop aoff b)) new (pseudo4 (take 4 (drop 12 b)) (take 4 (drop 16 b)) proto tlen)
    (pseudo4 s' d' proto tlen) aoff sub toff) with (x := x) as (b2 & b3 & U1 & U2 & L2 & L3 & A3 & K3 & C1 & C2); try done.
  - by apply pseudo4_ok.
  - by apply pseudo4_ok.
  - unfold pseudo4. rewrite !length_app, L12, L16, Ls, Ld. done.
  - unfold pseudo4. rewrite !length_app, L12, L16. by exists 6%nat.
  - unfold pseudo4, zlen. rewrite !length_app, L12, L16. simpl. lia.
  - rewrite pseudo4_sum by done. pose proof (sum16_nonneg s' Os). pose proof (sum16_nonneg d' Od). lia.
  - rewrite !pseudo4_sum by done. unfold s', d'. destruct Ha as [-> | ->]; [rewrite !decide_True by done|rewrite !decide_False by done]; lia.
  - exists b2, b3. split_and!; try done. split; [done|].
    replace (take 4 (drop 12 b3)) with s'; [replace (take 4 (drop 16 b3)) with d'; [done|]|]; unfold s', d';
      destruct Ha as [-> | ->]; [rewrite decide_True by done|rewrite decide_False by done| |];
      rewrite ?decide_True, ?decide_False by done; try done; symmetry; apply K3; lia.
Qed.

(** The update of a packet whose address bytes at [aoff] were just overwritten. *)
Lemma update_run b q0 q a tlen aoff q1 :
  bytes_ok b → zlen b ≤ 65535 → Decode b q0 = Ok q → IPVersion q = 4 → IPProto q = UDP ∨ IPProto q = TCP →
  20 ≤ subofs q → v4Valid b (Z.to_nat (subofs q)) (IPProto q) tlen → aoff = 12%nat ∨ aoff = 16%nat →
  pb q1 = splice aoff (be_bytes 4 a) b → IPProto q1 = IPProto q → subofs q1 = subofs q →
  ∃ b2 b3, updateV4PacketChecksums q1 (AddrFrom4 (take 4 (drop aoff b))) (Addr4 a) = Ok (setBuf b3 (setBuf b2 q1)) ∧
    take 4 (drop aoff b3) = be_bytes 4 a ∧ v4Valid b3 (Z.to_nat (subofs q)) (IPProto q) tlen.
Proof.
  intros Hb Hm HD Hv Hp Hs HV Hao Hq1 Hp1 Hs1.
  destruct (Decode_v4 b q0 q Hb HD Hv Hp) as (x & Pb & Hx & Px & As & Ad & Es & S0 & L20 & Lt).
  pose proof (be_bytes_length 4 a) as La. pose proof (be_bytes_ok 4 a) as Oa.
  set (sub := Z.to_nat (subofs q)) in *. assert (subofs q = Z.of_nat sub) as Hsub by (unfold sub; lia).
  set (toff := if IPProto q =? TCP then 16%nat else 6%nat).
  assert (Nat.Even toff) by (unfold toff; destruct (_ =? TCP); [by exists 8%nat|by exists 3%nat]).
  assert (sub + toff + 2 ≤ length b)%nat by (unfold toff; unfold zlen in Lt; destruct (_ =? TCP); lia).
  destruct (update_core b sub toff (IPProto q) tlen aoff (be_bytes 4 a) x) as (b2 & b3 & U1 & U2 & L2 & L3 & A3 & V3);
    try done; [lia|].
  exists b2, b3. split; [|done]. destruct (take4_props b aoff) as [Ot Lt4]; [done|unfold zlen in L20; lia|].
  assert (be_bytes 4 (be_val 0 (take 4 (drop aoff b))) = take 4 (drop aoff b)) as Eo
    by (rewrite <- Lt4 at 1; by apply be_bytes_val).
  unfold AddrFrom4. apply (updateV4PacketChecksums_run q1 _ _ sub toff); rewrite ?Hq1, ?Hp1, ?Hs1, ?Eo; try done.
  - unfold zlen. rewrite splice_length by (unfold zlen in L20; lia). unfold zlen in L20. lia.
  - unfold zlen. rewrite L2. unfold zlen in Lt. lia.
Qed.

(** Rewriting the source or the destination of a decoded UDP or TCP packet over
    IPv4 keeps it valid: if the header checksum and the transport checksum verified
    before, [UpdateSrcAddr] and [UpdateDstAddr] return, the packet carries the new
    address, in its fields and in its bytes, and both checksums verify. *)
Theorem UpdateAddr_valid b q0 q a tlen :
  bytes_ok b → zlen b ≤ 65535 → Decode b q0 = Ok q → IPVersion q = 4 → IPProto q = UDP ∨ IPProto q = TCP →
  20 ≤ subofs q → 0 ≤ a < 2 ^ 32 → v4Valid b (Z.to_nat (subofs q)) (IPProto q) tlen →
  (∃ q', UpdateSrcAddr q (Addr4 a) = Ok q' ∧ Src q' = mkAddrPort (Addr4 a) (ap_port (Src q)) ∧ Dst q' = Dst q ∧
    take 4 (drop 12 (pb q')) = be_bytes 4 a ∧ v4Valid (pb q') (Z.to_nat (subofs q)) (IPProto q) tlen) ∧
  (∃ q', UpdateDstAddr q (Addr4 a) = Ok q' ∧ Dst q' = mkAddrPort (Addr4 a) (ap_port (Dst q)) ∧ Src q' = Src q ∧
    take 4 (drop 16 (pb q')) = be_bytes 4 a ∧ v4Valid (pb q') (Z.to_nat (subofs q)) (IPProto q) tlen).
Proof.
  intros Hb Hm HD Hv Hp Hs Ha HV. destruct (Decode_v4 b q0 q Hb HD Hv Hp) as (x & Pb & Hx & Px & As & Ad & Es & S0 & L20 & Lt).
  pose proof (be_bytes_length 4 a) as La.
  assert (∀ aoff, aoff = 12%nat ∨ aoff = 16%nat →
    @put () b (Z.of_nat aoff) (be_bytes 4 a) = Ok (splice aoff (be_bytes 4 a) b)) as Hput
    by (intros aoff Hao; apply put_splice; unfold zlen in L20; lia).
  unfold UpdateSrcAddr, UpdateDstAddr. rewrite Hv, As, Ad. cbn [Is6 Is4 andb]. change (negb (4 =? 4)) with false. cbn match.
  change (@As4 () (Addr4 a)) with (@Ok () _ (be_bytes 4 a)). rewrite !bind_ret.
  change (pb (setSrc _ q)) with (pb q). change (pb (setDst _ q)) with (pb q). rewrite Pb.
  pose proof (Hput 12%nat (or_introl eq_refl)) as P12. pose proof (Hput 16%nat (or_intror eq_refl)) as P16.
  change (Z.of_nat 12) with 12 in P12. change (Z.of_nat 16) with 16 in P16. rewrite P12, P16, !bind_ret. split.
  - destruct (update_run b q0 q a tlen 12 (setBuf (splice 12 (be_bytes 4 a) b)
      (setSrc (mkAddrPort (Addr4 a) (ap_port (Src q))) q))) as (b2 & b3 & -> & H1 & H2); auto.
    eexists. split; [done|]. done.
  - destruct (update_run b q0 q a tlen 16 (setBuf (splice 16 (be_bytes 4 a) b)
      (setDst (mkAddrPort (Addr4 a) (ap_port (Dst q))) q))) as (b2 & b3 & -> & H1 & H2); auto.
    eexists. split; [done|]. done.
Qed.

(** ** Witness: a generated UDP packet *)
Definition exNatPacket : bytes :=
  Eval vm_compute in match Generate (mkUDP4Header exIP4 53 54) [1; 2; 3] with Ok b => b | _ => [] end.
Definition exNatParsed : Parsed :=
  Eval vm_compute in match Decode exNatPacket zeroParsed with Ok q => q | _ => zeroParsed end.

Lemma UpdateAddr_valid_witness :
  ∃ q', UpdateSrcAddr exNatParsed (Addr4 0x0b000001) = Ok q' ∧ v4Valid (pb q') 20 UDP 11.
Proof.
  destruct (UpdateAddr_valid exNatPacket zeroParsed exNatParsed 0x0b000001 11) as [(q' & H & _ & _ & _ & V) _].
  - repeat constructor; vm_compute; discriminate || reflexivity.
  - vm_compute. discriminate.
  - vm_compute. reflexivity.
  - reflexivity.
  - left. reflexivity.
  - vm_compute. discriminate.
  - split; [discriminate|reflexivity].
  - split; vm_compute; reflexivity.
  - exists q'. split; [exact H|exact V].
Defined.
