(* ===== verification/Serve.v ===== *)
(** * Serving: ipn.ServeConfig and the TCP side of the local backend

    The serve configuration (src/ipn/serve.go), its installation and the ports that
    follow from it (src/ipn/ipnlocal/serve.go, src/ipn/ipnlocal/local.go), the choice
    of the handler of a connection (src/ipn/ipnlocal/netstack.go), and the pinned
    dial targets [serveTarget].

    A foreground config holds no further foreground configs, as its documentation
    asks. The iteration order of a Go map is the argument [ord]. The state store
    keeps, for every key, the configuration that the JSON text encodes. *)

From stdpp Require Import base gmap sets list strings sorting.
From S2P Require Import Prelude GoStd NetIP TSAddr.

(** ** The configuration *)
Record TCPPortHandler := mkTCPPortHandler {
  HTTPS : bool; HTTP : bool; TCPForward : string; TerminateTLS : string; ProxyProtocol : Z
}.
#[export] Instance TCPPortHandler_eq_dec : EqDecision TCPPortHandler.
Proof. solve_decision. Defined.

Record HTTPHandler := mkHTTPHandler {
  HPath : string; HProxy : string; HText : string; AcceptAppCaps : list string; Redirect : string
}.
#[export] Instance HTTPHandler_eq_dec : EqDecision HTTPHandler.
Proof. solve_decision. Defined.

(** WebServerConfig is its handlers by mount point. *)
Definition WebServerConfig : Type := gmap string HTTPHandler.

Record ServiceConfig := mkServiceConfig {
  svcTCP : gmap Z TCPPortHandler; svcWeb : gmap string WebServerConfig; svcTun : bool
}.
#[export] Instance ServiceConfig_eq_dec : EqDecision ServiceConfig.
Proof. solve_decision. Defined.

Record BaseConfig := mkBaseConfig {
  bcTCP : gmap Z TCPPortHandler;
  bcWeb : gmap string WebServerConfig;
  bcServices : gmap string ServiceConfig;
  bcAllowFunnel : gmap string bool
}.
#[export] Instance BaseConfig_eq_dec : EqDecision BaseConfig.
Proof. solve_decision. Defined.

Record ServeConfig := mkServeConfig { scBase : BaseConfig; scForeground : gmap string BaseConfig }.
#[export] Instance ServeConfig_eq_dec : EqDecision ServeConfig.
Proof. solve_decision. Defined.

Definition emptyBase : BaseConfig := mkBaseConfig ∅ ∅ ∅ ∅.
Definition emptyServeConfig : ServeConfig := mkServeConfig emptyBase ∅.
Definition scTCP (sc : ServeConfig) : gmap Z TCPPortHandler := bcTCP (scBase sc).
Definition setTCP (m : gmap Z TCPPortHandler) (sc : ServeConfig) : ServeConfig :=
  mkServeConfig (mkBaseConfig m (bcWeb (scBase sc)) (bcServices (scBase sc)) (bcAllowFunnel (scBase sc)))
    (scForeground sc).
Definition setServices (m : gmap string ServiceConfig) (sc : ServeConfig) : ServeConfig :=
  mkServeConfig (mkBaseConfig (bcTCP (scBase sc)) (bcWeb (scBase sc)) m (bcAllowFunnel (scBase sc)))
    (scForeground sc).

(** ** Queries; [None] is the nil config *)
Definition GetTCPPortHandler (sc : option ServeConfig) (port : Z) (svcName : string) : option TCPPortHandler :=
  sc ← sc;
  if decide (svcName = "") then scTCP sc !! port
  else svc ← bcServices (scBase sc) !! svcName; svcTCP svc !! port.

Definition IsTCPForwardingAny (sc : option ServeConfig) : bool :=
  match sc with
  | None => false
  | Some sc => existsb (λ kv, negb (bool_decide (TCPForward kv.2 = ""))) (map_to_list (scTCP sc))
  end.

Definition handlersOf (sc : ServeConfig) (svcName : string) : gmap Z TCPPortHandler :=
  if decide (svcName = "") then scTCP sc
  else match bcServices (scBase sc) !! svcName with Some svc => svcTCP svc | None => ∅ end.

Definition IsServingHTTPS (sc : option ServeConfig) (port : Z) (svcName : string) : bool :=
  match sc with
  | None => false
  | Some sc => match handlersOf sc svcName !! port with Some th => HTTPS th | None => false end
  end.
Definition IsServingHTTP (sc : option ServeConfig) (port : Z) (svcName : string) : bool :=
  match sc with
  | None => false
  | Some sc => match handlersOf sc svcName !! port with Some th => HTTP th | None => false end
  end.
Definition IsServingWeb (sc : option ServeConfig) (port : Z) (svcName : string) : bool :=
  IsServingHTTP sc port svcName || IsServingHTTPS sc port svcName.
Definition IsTCPForwardingOnPort (sc : option ServeConfig) (port : Z) (svcName : string) : bool :=
  match sc with
  | None => false
  | Some c =>
      match handlersOf c svcName !! port with
      | None => false
      | Some _ => negb (IsServingWeb sc port svcName)
      end
  end.

Definition baseFunnelOn (c : BaseConfig) : bool := existsb snd (map_to_list (bcAllowFunnel c)).
Definition IsFunnelOn (sc : option ServeConfig) : bool :=
  match sc with
  | None => false
  | Some sc => baseFunnelOn (scBase sc) || existsb (λ kv, baseFunnelOn kv.2) (map_to_list (scForeground sc))
  end.

(** ** Updates *)
Definition SetTCPForwarding (port : Z) (fwdAddr : string) (terminateTLS : bool) (proxyProtocol : Z) (host : string)
    (sc : ServeConfig) : ServeConfig :=
  setTCP (<[port := mkTCPPortHandler false false fwdAddr (if terminateTLS then host else "") proxyProtocol]> (scTCP sc)) sc.

Definition RemoveTCPForwarding (svcName : string) (port : Z) (sc : ServeConfig) : ServeConfig :=
  if decide (svcName = "") then setTCP (delete port (scTCP sc)) sc
  else
    match bcServices (scBase sc) !! svcName with
    | None => sc
    | Some svc =>
        let svc := mkServiceConfig (delete port (svcTCP svc)) (svcWeb svc) (svcTun svc) in
        let m := <[svcName := svc]> (bcServices (scBase sc)) in
        setServices
          (if decide (size (svcWeb svc) = 0%nat ∧ size (svcTCP svc) = 0%nat) then delete svcName m else m) sc
    end.

(** ** Lookups; [ord] lists the foreground configs in iteration order *)
Section lookups.
Context (ord : gmap string BaseConfig → list (string * BaseConfig)).

Definition FindForegroundTCP (sc : ServeConfig) (port : Z) : option TCPPortHandler :=
  head (omap (λ kv, bcTCP kv.2 !! port) (ord (scForeground sc))).
Definition FindTCP (sc : ServeConfig) (port : Z) : option TCPPortHandler :=
  match FindForegroundTCP sc port with Some h => Some h | None => scTCP sc !! port end.
Definition FindServiceTCP (sc : ServeConfig) (svcName : string) (port : Z) : option TCPPortHandler :=
  svc ← bcServices (scBase sc) !! svcName; svcTCP svc !! port.
(** The ports of the iterator [TCPs]. *)
Definition TCPs (sc : ServeConfig) : list Z :=
  (map_to_list (scTCP sc)).*1 ++ (ord (scForeground sc) ≫= λ kv, (map_to_list (bcTCP kv.2)).*1).
End lookups.

(** ** Port ranges of a service *)
Record ProtoPortRange := mkProtoPortRange { pprProto : Z; pprFirst : Z; pprLast : Z }.
#[export] Instance ProtoPortRange_eq_dec : EqDecision ProtoPortRange.
Proof. solve_decision. Defined.

(** One round of the loop over the sorted ports; the ranges are kept newest first. *)
Definition addPort (tcp : Z) (ranges : list ProtoPortRange) (p : Z) : list ProtoPortRange :=
  match ranges with
  | r :: rs =>
      if p =? u16 (pprLast r + 1) then mkProtoPortRange (pprProto r) (pprFirst r) p :: rs
      else mkProtoPortRange tcp p p :: ranges
  | [] => [mkProtoPortRange tcp p p]
  end.

Definition ServicePortRange (v : ServiceConfig) : list ProtoPortRange :=
  if svcTun v then [mkProtoPortRange 0 0 65535]
  else
    let tcp := 6 in
    let servePorts := filter (λ p, 0 < p) (map_to_list (svcTCP v)).*1 in
    reverse (foldl (addPort tcp) [] (merge_sort (≤) servePorts)).

(** ** Validation of an update *)
Inductive serveType := serveTypeHTTPS | serveTypeHTTP | serveTypeTCP | serveTypeTLSTerminatedTCP | serveTypeNone.
#[export] Instance serveType_eq_dec : EqDecision serveType.
Proof. solve_decision. Defined.

Definition serveTypeFromPortHandler (ph : TCPPortHandler) : serveType :=
  if HTTP ph then serveTypeHTTP
  else if HTTPS ph then serveTypeHTTPS
  else if bool_decide (TerminateTLS ph ≠ "") then serveTypeTLSTerminatedTCP
  else if bool_decide (TCPForward ph ≠ "") then serveTypeTCP
  else serveTypeNone.

Inductive ServeErr :=
  | ErrFunnelShieldsUp | ErrConfigLocked | ErrNetMapNil | ErrSelfNodeNil | ErrETagMismatch
  | ErrTunHandlers | ErrListenerExists (port : Z) | ErrForegroundExists (port : Z)
  | ErrServeType (port : Z) | ErrTunWithHandlers | ErrHandlersWithTun | ErrWriteState.

(** A check of every element; the first error wins. *)
Fixpoint checkAll {A} (f : A → res ServeErr ()) (l : list A) : res ServeErr () :=
  match l with [] => Ok () | x :: l => _ ← f x; checkAll f l end.

Section validate.
Context (ord : gmap string BaseConfig → list (string * BaseConfig)).

Definition hasHandlers (c : ServiceConfig) : bool :=
  bool_decide (0 < Z.of_nat (size (svcTCP c))) || bool_decide (0 < Z.of_nat (size (svcWeb c))).

Definition sameType (port : Z) (existing incoming : option TCPPortHandler) : res ServeErr () :=
  match existing, incoming with
  | Some e, Some i =>
      guard_err (bool_decide (serveTypeFromPortHandler i = serveTypeFromPortHandler e)) (ErrServeType port)
  | _, _ => Ok ()
  end.

Definition validateService (existing : ServeConfig) (kv : string * ServiceConfig) : res ServeErr () :=
  let '(svcName, incoming) := kv in
  match bcServices (scBase existing) !! svcName with
  | None => Ok ()
  | Some ex =>
      _ ← checkAll (λ ph, sameType ph.1 (svcTCP ex !! ph.1) (Some ph.2)) (map_to_list (svcTCP incoming));
      _ ← guard_err (negb (svcTun incoming && hasHandlers ex)) ErrTunWithHandlers;
      guard_err (negb (hasHandlers incoming && svcTun ex)) ErrHandlersWithTun
  end.

Definition validateServeConfigUpdate (existing : option ServeConfig) (incoming : ServeConfig) : res ServeErr () :=
  _ ← checkAll (λ kv, guard_err (negb (svcTun kv.2 && hasHandlers kv.2)) ErrTunHandlers)
        (map_to_list (bcServices (scBase incoming)));
  match existing with
  | None => Ok ()
  | Some existing =>
      _ ← checkAll (λ kv : string * BaseConfig,
            if decide (is_Some (scForeground existing !! kv.1)) then Ok ()
            else checkAll (λ ph : Z * TCPPortHandler,
                   guard_err (bool_decide (FindTCP ord existing ph.1 = None)) (ErrListenerExists ph.1))
                   (map_to_list (bcTCP kv.2)))
            (ord (scForeground incoming));
      _ ← checkAll (λ ph : Z * TCPPortHandler,
            guard_err (bool_decide (FindForegroundTCP ord existing ph.1 = None)) (ErrForegroundExists ph.1))
            (map_to_list (scTCP incoming));
      _ ← checkAll (λ ph : Z * TCPPortHandler, sameType ph.1 (FindTCP ord existing ph.1) (Some ph.2))
            (map_to_list (scTCP incoming));
      checkAll (validateService existing) (map_to_list (bcServices (scBase incoming)))
  end.
End validate.

(** ** Intercepted ports *)
Fixpoint Compact (l : list Z) : list Z :=
  match l with
  | x :: ((y :: _) as t) => if x =? y then Compact t else x :: Compact t
  | l => l
  end.

Definition generateInterceptTCPPortFunc (ports : list Z) : Z → bool :=
  let ports := Compact (merge_sort (≤) ports) in
  match ports with
  | [] => λ _, false
  | [a] => λ p, a =? p
  | [a; b] => λ p, (a =? p) || (b =? p)
  | [a; b; c] => λ p, (a =? p) || (b =? p) || (c =? p)
  | _ =>
      if 16 <? zlen ports then
        let m : gmap Z bool := foldl (λ m p, <[p := true]> m) ∅ ports in
        λ p, default false (m !! p)
      else λ p, bool_decide (p ∈ ports)
  end.

(** ** The local backend *)
Record LocalBackend := mkLocalBackend {
  lbPrefsValid : bool;
  lbShieldsUp : bool;
  lbRunSSH : bool;
  lbConfigLocked : bool;
  lbNetMap : option (option (list Prefix)); (* nil; no valid self node; its addresses *)
  lbProfileID : string;
  lbStore : gmap string ServeConfig;
  lbServeConfig : option ServeConfig;
  lbLastServeConf : option ServeConfig;
  lbWatchers : gset string;
  lbIntercept : Z → bool;
  lbRunWebClient : bool;
  lbExposeWebClient : bool;
  lbVIPServices : gmap Addr string;
  lbPeerAPIPorts : gmap Addr Z;
  lbVIPServiceIPs : gmap string (list Addr); (* GetVIPServiceIPMap of the network map *)
  lbInterceptVIP : AddrPort → bool
}.

Definition setServe (sc last : option ServeConfig) (b : LocalBackend) : LocalBackend :=
  mkLocalBackend (lbPrefsValid b) (lbShieldsUp b) (lbRunSSH b) (lbConfigLocked b) (lbNetMap b) (lbProfileID b)
    (lbStore b) sc last (lbWatchers b) (lbIntercept b) (lbRunWebClient b) (lbExposeWebClient b)
    (lbVIPServices b) (lbPeerAPIPorts b) (lbVIPServiceIPs b) (lbInterceptVIP b).
Definition setIntercept (f : Z → bool) (b : LocalBackend) : LocalBackend :=
  mkLocalBackend (lbPrefsValid b) (lbShieldsUp b) (lbRunSSH b) (lbConfigLocked b) (lbNetMap b) (lbProfileID b)
    (lbStore b) (lbServeConfig b) (lbLastServeConf b) (lbWatchers b) f (lbRunWebClient b) (lbExposeWebClient b)
    (lbVIPServices b) (lbPeerAPIPorts b) (lbVIPServiceIPs b) (lbInterceptVIP b).
Definition setStore (m : gmap string ServeConfig) (b : LocalBackend) : LocalBackend :=
  mkLocalBackend (lbPrefsValid b) (lbShieldsUp b) (lbRunSSH b) (lbConfigLocked b) (lbNetMap b) (lbProfileID b)
    m (lbServeConfig b) (lbLastServeConf b) (lbWatchers b) (lbIntercept b) (lbRunWebClient b) (lbExposeWebClient b)
    (lbVIPServices b) (lbPeerAPIPorts b) (lbVIPServiceIPs b) (lbInterceptVIP b).

Definition setInterceptVIP (f : AddrPort → bool) (b : LocalBackend) : LocalBackend :=
  mkLocalBackend (lbPrefsValid b) (lbShieldsUp b) (lbRunSSH b) (lbConfigLocked b) (lbNetMap b) (lbProfileID b)
    (lbStore b) (lbServeConfig b) (lbLastServeConf b) (lbWatchers b) (lbIntercept b) (lbRunWebClient b)
    (lbExposeWebClient b) (lbVIPServices b) (lbPeerAPIPorts b) (lbVIPServiceIPs b) f.

Definition ServeConfigKey (profileID : string) : string := "_serve/" +:+ profileID.
Definition selfValid (b : LocalBackend) : bool := match lbNetMap b with Some (Some _) => true | _ => false end.

(** Foreground sessions whose watcher is gone are dropped. *)
Definition activeOnly (w : gset string) (c : ServeConfig) : ServeConfig :=
  mkServeConfig (scBase c) (filter (λ kv, kv.1 ∈ w) (scForeground c)).

Definition reloadServeConfigLocked (b : LocalBackend) : LocalBackend :=
  if negb (selfValid b) || negb (lbPrefsValid b) || bool_decide (lbProfileID b = "") then setServe None None b
  else
    match lbStore b !! ServeConfigKey (lbProfileID b) with
    | None => setServe None None b
    | Some c =>
        if decide (lbLastServeConf b = Some c) then b
        else setServe (Some (activeOnly (lbWatchers b) c)) (Some c) b
    end.

Definition webClientPort : Z := 5252.
Definition DriveLocalPort : Z := 8080.

Definition generateInterceptVIPServicesTCPPortFunc (svcAddrPorts : gmap Addr (Z → bool)) : AddrPort → bool :=
  λ ap, match svcAddrPorts !! ap_addr ap with Some f => f (ap_port ap) | None => false end.

Section backend.
Context (ord : gmap string BaseConfig → list (string * BaseConfig)).
Context (sord : gmap string (list Z) → list (string * list Z)).

(** The round of one service: its function is set at each of its addresses. *)
Definition addServiceAddrs (b : LocalBackend) (m : gmap Addr (Z → bool)) (kv : string * list Z) : gmap Addr (Z → bool) :=
  match lbVIPServiceIPs b !! kv.1 with
  | None => m
  | Some addrs => foldl (λ m addr, <[addr := generateInterceptTCPPortFunc kv.2]> m) m addrs
  end.

Definition setVIPServicesTCPPortsInterceptedLocked (svcPorts : gmap string (list Z)) (b : LocalBackend) : LocalBackend :=
  if decide (svcPorts = ∅) then setInterceptVIP (λ _, false) b
  else
    match lbNetMap b with
    | None => b
    | Some _ =>
        if decide (lbVIPServiceIPs b = ∅) then b
        else setInterceptVIP (generateInterceptVIPServicesTCPPortFunc
               (foldl (addServiceAddrs b) ∅ (sord svcPorts))) b
    end.

Definition positivePorts (l : list Z) : list Z := filter (λ p, 0 < p) l.

Definition serveSetTCPPortsIntercepted (b : LocalBackend) : list Z * LocalBackend :=
  let b := reloadServeConfigLocked b in
  let '(handlePorts, vipServicesPorts) :=
    match lbServeConfig b with
    | Some sc => (positivePorts (TCPs ord sc),
                  (λ cfg, positivePorts (map_to_list (svcTCP cfg)).*1) <$> bcServices (scBase sc))
    | None => ([], ∅)
    end in
  (handlePorts, setVIPServicesTCPPortsInterceptedLocked vipServicesPorts b).

Definition setTCPPortsInterceptedFromNetmapAndPrefsLocked (b : LocalBackend) : LocalBackend :=
  let ssh := if lbPrefsValid b && lbRunSSH b then [22] else [] in
  let web := if lbExposeWebClient b then [webClientPort] else [] in
  let '(ports, b) := serveSetTCPPortsIntercepted b in
  setIntercept (generateInterceptTCPPortFunc (ssh ++ web ++ ports)) b.

(** [SetServeConfig] of a non-nil config; [etagOf] is generateServeConfigETag and
    [writeOk] whether the state store accepts the write. The result lists the watch
    sessions that are cancelled. *)
Definition setServeConfigLocked (etagOf : option ServeConfig → string) (writeOk : bool)
    (config : ServeConfig) (etag : string) (b : LocalBackend) : res ServeErr (LocalBackend * list string) :=
  if IsFunnelOn (Some config) && lbShieldsUp b then Err ErrFunnelShieldsUp
  else if lbConfigLocked b then Err ErrConfigLocked
  else
    match lbNetMap b with
    | None => Err ErrNetMapNil
    | Some None => Err ErrSelfNodeNil
    | Some (Some _) =>
        let prevConfig := lbServeConfig b in
        _ ← guard_err (bool_decide (etag = "") || bool_decide (etag = etagOf prevConfig)) ErrETagMismatch;
        _ ← validateServeConfigUpdate ord prevConfig config;
        _ ← guard_err writeOk ErrWriteState;
        let b := setStore (<[ServeConfigKey (lbProfileID b) := config]> (lbStore b)) b in
        let b := setTCPPortsInterceptedFromNetmapAndPrefsLocked b in
        let cancelled :=
          match prevConfig with
          | None => []
          | Some prev =>
              let has k := match lbServeConfig b with
                           | Some sc => bool_decide (is_Some (scForeground sc !! k)) | None => false end in
              filter (λ k, has k = false ∧ k ∈ lbWatchers b) (ord (scForeground prev)).*1
          end in
        Ok (b, cancelled)
    end.

Definition ShouldInterceptTCPPort (b : LocalBackend) (port : Z) : bool := lbIntercept b port.
Definition ShouldInterceptVIPServiceTCPPort (b : LocalBackend) (ap : AddrPort) : bool := lbInterceptVIP b ap.

(** ** Handlers *)
Inductive Handler :=
  | HWebClient | HQuad100 | HDrive | HPeerAPI
  | HServeWeb (https : bool)
  | HForward (backDst terminateTLS : string) (proxyProtocol : Z).

Definition tcpHandlerForServeTCP (tcph : TCPPortHandler) : option Handler :=
  if HTTPS tcph || HTTP tcph then Some (HServeWeb (HTTPS tcph))
  else if bool_decide (TCPForward tcph ≠ "") then
    Some (HForward (TCPForward tcph) (TerminateTLS tcph) (ProxyProtocol tcph))
  else None.

Definition tcpHandlerForServe (b : LocalBackend) (dport : Z) : option Handler :=
  sc ← lbServeConfig b;
  tcph ← FindTCP ord sc dport;
  tcpHandlerForServeTCP tcph.

Definition tcpHandlerForVIPService (b : LocalBackend) (dst : AddrPort) : option Handler :=
  sc ← lbServeConfig b;
  dstSvc ← lbVIPServices b !! ap_addr dst;
  tcph ← FindServiceTCP sc dstSvc (ap_port dst);
  tcpHandlerForServeTCP tcph.

(** [isLocalIP] of the local backend: the full-length prefix of [ip] is an address of
    the self node. *)
Definition lbIsLocalIP (b : LocalBackend) (ip : Addr) : bool :=
  match lbNetMap b with
  | Some (Some addrs) => bool_decide (PrefixFrom ip (BitLen ip) ∈ addrs)
  | _ => false
  end.

Definition TCPHandlerForDst (b : LocalBackend) (src dst : AddrPort) : option Handler :=
  let hittingServiceIP :=
    bool_decide (ap_addr dst = TailscaleServiceIP) || bool_decide (ap_addr dst = TailscaleServiceIPv6) in
  if hittingServiceIP && (ap_port dst =? 80) then
    Some (if lbRunWebClient b then HWebClient else HQuad100)
  else if hittingServiceIP && (ap_port dst =? DriveLocalPort) then Some HDrive
  else
    match tcpHandlerForVIPService b dst with
    | Some h => Some h
    | None =>
        if negb (lbIsLocalIP b (ap_addr dst)) then None
        else if (ap_port dst =? webClientPort) && lbExposeWebClient b then Some HWebClient
        else if bool_decide (lbPeerAPIPorts b !! ap_addr dst = Some (ap_port dst)) then Some HPeerAPI
        else tcpHandlerForServe b (ap_port dst)
    end.
End backend.

(** ** Pinned dial targets

    [lookup] and [probe] are the resolver and the probe at the time of the call, and
    [systemDial] tells which addresses accept a connection then. *)
Record serveTarget := mkServeTarget { stHost : string; stPort : string; stCur : string }.
Definition setCur (c : string) (st : serveTarget) : serveTarget := mkServeTarget (stHost st) (stPort st) c.

Definition newServeTarget (hostport : string) : serveTarget :=
  match SplitHostPort hostport with
  | None => mkServeTarget hostport "" ""
  | Some (host, port) => mkServeTarget host port ""
  end.

Section serveTarget.
Context (lookup : string → option (list string)) (probe : string → bool) (systemDial : string → bool).

Definition stAddr (st : serveTarget) : string * serveTarget :=
  if decide (stCur st ≠ "") then (stCur st, st)
  else if decide (stPort st = "") then (stHost st, st)
  else if bool_decide (is_Some (ParseIP (stHost st))) then
    let cur := JoinHostPort (stHost st) (stPort st) in (cur, setCur cur st)
  else
    match lookup (stHost st) with
    | None | Some [] => (JoinHostPort (stHost st) (stPort st), st)
    | Some ((ip0 :: _) as ips) =>
        let cand ip := JoinHostPort ip (stPort st) in
        match List.find (λ ip, probe (cand ip)) ips with
        | Some ip => (cand ip, setCur (cand ip) st)
        | None => (cand ip0, setCur (cand ip0) st)
        end
    end.

Definition stInvalidate (st : serveTarget) : serveTarget := setCur "" st.
End serveTarget.

(** The environment may change between the first attempt and the second. *)
Section dial.
Context (lookup1 lookup2 : string → option (list string)) (probe1 probe2 systemDial : string → bool).

(** The address connected to, if any, and the address reported. *)
Definition stDial (st : serveTarget) : option string * string * serveTarget :=
  let '(target, st) := stAddr lookup1 probe1 st in
  if systemDial target then (Some target, target, st)
  else
    let st := stInvalidate st in
    let '(t2, st) := stAddr lookup2 probe2 st in
    if bool_decide (t2 ≠ target) && systemDial t2 then (Some t2, t2, st)
    else (None, target, st).
End dial.
