(* ===== verification/ServeThms.v ===== *)
(** * Correctness of serving

    The intercepted ports, the port ranges of a service, the effect of installing a
    serve configuration, and the dial targets. *)

From stdpp Require Import base gmap sets list strings sorting.
From S2P Require Import Prelude GoStd NetIP TSAddr Serve.

(** ** Intercepted ports *)
Lemma elem_of_Compact x l : x ∈ Compact l ↔ x ∈ l.
Proof.
  induction l as [|a l IH]; [done|]. destruct l as [|b l]; [done|].
  change (Compact (a :: b :: l)) with (if a =? b then Compact (b :: l) else a :: Compact (b :: l)).
  destruct (Z.eqb_spec a b) as [->|]; rewrite ?elem_of_cons, IH, ?elem_of_cons; naive_solver.
Qed.

Lemma foldl_insert_true (l : list Z) (m : gmap Z bool) p :
  default false (foldl (λ m p, <[p := true]> m) m l !! p) = bool_decide (p ∈ l) || default false (m !! p).
Proof.
  revert m. induction l as [|a l IH]; intros m; cbn [foldl].
  { rewrite bool_decide_eq_false_2; [done|]. apply not_elem_of_nil. }
  rewrite IH. destruct (decide (p = a)) as [->|Hn].
  - rewrite lookup_insert_eq, (bool_decide_eq_true_2 (a ∈ a :: l)) by left. simpl. by rewrite orb_true_r.
  - rewrite lookup_insert_ne by done. f_equal. apply bool_decide_ext. rewrite elem_of_cons. naive_solver.
Qed.

(** The function that [generateInterceptTCPPortFunc] specialises by the number of
    ports is membership in the list, whatever its order and duplicates. *)
Lemma generateIntercept_elem ports p :
  generateInterceptTCPPortFunc ports p = bool_decide (p ∈ ports).
Proof.
  unfold generateInterceptTCPPortFunc.
  assert (bool_decide (p ∈ ports) = bool_decide (p ∈ Compact (merge_sort (≤) ports))) as ->.
  { apply bool_decide_ext. by rewrite elem_of_Compact, (merge_sort_Permutation (≤) ports). }
  generalize (Compact (merge_sort (≤) ports)) as l. clear ports. intros l.
  assert (∀ a q, (a =? q) = bool_decide (q = a)) as Heq
    by (intros a q; destruct (Z.eqb_spec a q); case_bool_decide; congruence).
  destruct l as [|a [|b [|c [|d l]]]]; rewrite ?Heq; try (symmetry;
    rewrite <- ?bool_decide_or; apply bool_decide_ext; rewrite ?elem_of_cons, ?elem_of_nil; naive_solver).
  - symmetry. apply bool_decide_eq_false_2, not_elem_of_nil.
  - destruct (16 <? _); [|done]. rewrite foldl_insert_true, lookup_empty. simpl. by rewrite orb_false_r.
Qed.

(** ** Port ranges *)
Definition covers (rs : list ProtoPortRange) (p : Z) : Prop := ∃ r, r ∈ rs ∧ pprFirst r ≤ p ≤ pprLast r.
(** Ranges with a gap between them, newest first. *)
Definition gap (r2 r1 : ProtoPortRange) : Prop := pprLast r1 + 1 < pprFirst r2.
Definition wfRange (r : ProtoPortRange) : Prop := pprProto r = 6 ∧ pprFirst r ≤ pprLast r.
Definition below (rs : list ProtoPortRange) (p : Z) : Prop :=
  match rs with r :: _ => 0 < pprLast r < p | [] => True end.

Lemma covers_cons r rs p : covers (r :: rs) p ↔ pprFirst r ≤ p ≤ pprLast r ∨ covers rs p.
Proof. unfold covers. setoid_rewrite elem_of_cons. naive_solver. Qed.

Lemma addPort_spec rs p :
  Forall wfRange rs → Sorted gap rs → below rs p → 0 < p < 65536 →
  Forall wfRange (addPort 6 rs p) ∧ Sorted gap (addPort 6 rs p) ∧
  (∃ r rs', addPort 6 rs p = r :: rs' ∧ pprLast r = p) ∧
  ∀ p', covers (addPort 6 rs p) p' ↔ p' = p ∨ covers rs p'.
Proof.
  intros Hwf Hs Hb Hp. destruct rs as [|r rs]; simpl.
  - split_and!; [by repeat constructor|by repeat constructor|eauto|].
    intros p'. rewrite covers_cons. simpl. assert (pprFirst (mkProtoPortRange 6 p p) = p) by done. naive_solver lia.
  - apply Forall_cons in Hwf as [[Hp6 Hr] Hwf]. apply Sorted_inv in Hs as [Hs Hd]. simpl in Hb.
    rewrite uN_small by lia. destruct (Z.eqb_spec p (pprLast r + 1)) as [->|Hne].
    + split_and!; [constructor; [|done]; split; simpl; lia| |eauto|].
      * constructor; [done|]. destruct Hd; constructor. done.
      * intros p'. rewrite !covers_cons. simpl. naive_solver lia.
    + split_and!; [constructor; [split; simpl; lia|by constructor]| |eauto|].
      * constructor; [by constructor|]. constructor. unfold gap. simpl. lia.
      * intros p'. rewrite !covers_cons. simpl. naive_solver lia.
Qed.

Lemma foldl_addPort l : ∀ rs,
  Forall wfRange rs → Sorted gap rs → (∀ p, p ∈ l → below rs p ∧ 0 < p < 65536) → StronglySorted Z.lt l →
  Forall wfRange (foldl (addPort 6) rs l) ∧ Sorted gap (foldl (addPort 6) rs l) ∧
  ∀ p', covers (foldl (addPort 6) rs l) p' ↔ p' ∈ l ∨ covers rs p'.
Proof.
  induction l as [|p l IH]; intros rs Hwf Hs Hb Hl; cbn [foldl].
  { split_and!; [done..|]. intros p'. rewrite elem_of_nil. tauto. }
  apply StronglySorted_inv in Hl as [Hl Hlt]. destruct (Hb p) as [B R]; [left|].
  destruct (addPort_spec rs p Hwf Hs B R) as (W & S' & (r & rs' & E & El) & C).
  destruct (IH (addPort 6 rs p) W S') as (W2 & S2 & C2); [|done|].
  - intros p' Hp'. destruct (Hb p') as [_ R']; [by right|]. split; [|done]. rewrite E. simpl. rewrite El.
    rewrite Forall_forall in Hlt. specialize (Hlt p' Hp'). lia.
  - split_and!; [done..|]. intros p'. rewrite C2, C, elem_of_cons. tauto.
Qed.

Lemma NoDup_sorted_lt (l : list Z) : NoDup l → StronglySorted (≤) l → StronglySorted Z.lt l.
Proof.
  induction l as [|x l IH]; intros Hn Hs; [constructor|]. apply NoDup_cons in Hn as [Hx Hn].
  apply StronglySorted_inv in Hs as [Hs Hle]. constructor; [by apply IH|]. rewrite Forall_forall in Hle |- *.
  intros y Hy. specialize (Hle y Hy). assert (x ≠ y) by (intros ->; done). lia.
Qed.

(** The port ranges of a service are exact and minimal: a port is in one of the
    ranges exactly when the service has a handler for it (port 0 excepted); every
    range is of TCP and not empty; and two ranges are never adjacent. *)
Theorem ServicePortRange_spec v :
  svcTun v = false → (∀ p, is_Some (svcTCP v !! p) → 0 ≤ p < 65536) →
  (∀ p, covers (ServicePortRange v) p ↔ 0 < p ∧ is_Some (svcTCP v !! p)) ∧
  Forall wfRange (ServicePortRange v) ∧ Sorted gap (reverse (ServicePortRange v)).
Proof.
  intros Ht Hr. unfold ServicePortRange. rewrite Ht. set (ports := filter _ _).
  assert (∀ p, p ∈ ports ↔ 0 < p ∧ is_Some (svcTCP v !! p)) as Hports.
  { intros p. unfold ports. rewrite list_elem_of_filter, list_elem_of_fmap. unfold is_Some.
    setoid_rewrite <- elem_of_map_to_list. split.
    - intros [Hp ([k h] & -> & Hk)]. eauto.
    - intros [Hp [h Hh]]. split; [done|]. by exists (p, h). }
  assert (NoDup (merge_sort (≤) ports)) as Hnd.
  { rewrite (merge_sort_Permutation (≤) ports). apply NoDup_filter, NoDup_fst_map_to_list. }
  destruct (foldl_addPort (merge_sort (≤) ports) []) as (W & S & C).
  - constructor.
  - constructor.
  - intros p. rewrite (merge_sort_Permutation (≤) ports), Hports. intros [Hp Hh]. specialize (Hr p Hh). simpl. split; [done|lia].
  - apply NoDup_sorted_lt; [done|]. apply Sorted_StronglySorted; [intros ???; lia|]. apply Sorted_merge_sort. intros x y. lia.
  - rewrite reverse_involutive. split_and!; [|by apply Forall_reverse|done]. intros p. unfold covers.
    setoid_rewrite elem_of_reverse. unfold covers in C. rewrite C, (merge_sort_Permutation (≤) ports), Hports.
    setoid_rewrite elem_of_nil. naive_solver.
Qed.

Definition exService : ServiceConfig :=
  mkServiceConfig {[80 := mkTCPPortHandler false false "a" "" 0; 81 := mkTCPPortHandler false false "b" "" 0]} ∅ false.

Lemma ServicePortRange_spec_witness :
  ServicePortRange exService = [mkProtoPortRange 6 80 81] ∧ Forall wfRange (ServicePortRange exService).
Proof.
  split; [vm_compute; reflexivity|]. apply (ServicePortRange_spec exService); [reflexivity|].
  simpl. intros p [h H]. apply lookup_insert_Some in H as [[<- _]|[_ H]]; [lia|].
  apply lookup_singleton_Some in H as [<- _]. lia.
Defined.

(** ** Installing a configuration *)

(** The remembered store text and the configuration in force agree. *)
Definition lbInv (b : LocalBackend) : Prop :=
  match lbLastServeConf b with
  | Some c => ∃ fg, lbServeConfig b = Some (mkServeConfig (scBase c) fg) ∧ fg ⊆ scForeground c
  | None => lbServeConfig b = None
  end.

Lemma reload_inv b : lbInv b → lbInv (reloadServeConfigLocked b).
Proof.
  intros HI. unfold reloadServeConfigLocked. destruct (_ || _ || _); [done|].
  destruct (_ !! _) as [c|]; [|done]. case_decide; [done|]. unfold lbInv. simpl.
  exists (filter (λ kv, kv.1 ∈ lbWatchers b) (scForeground c)). split; [done|]. apply map_filter_subseteq.
Qed.

(** Background configurations that only forward TCP, as the command line builds. *)
Definition plainTCP (h : TCPPortHandler) : Prop :=
  HTTP h = false ∧ HTTPS h = false ∧ TerminateTLS h = "" ∧ TCPForward h ≠ "".
Record plainConfig (c : ServeConfig) : Prop := mkPlain {
  pc_fg : scForeground c = ∅;
  pc_services : bcServices (scBase c) = ∅;
  pc_funnel : bcAllowFunnel (scBase c) = ∅;
  pc_tcp : ∀ p h, scTCP c !! p = Some h → plainTCP h
}.

Lemma checkAll_ok {A} (f : A → res ServeErr ()) l : (∀ x, x ∈ l → f x = Ok ()) → checkAll f l = Ok ().
Proof.
  induction l as [|x l IH]; intros H; [done|]. simpl. rewrite H by left. simpl. apply IH. intros; apply H; by right.
Qed.

Section install.
Context (ord : gmap string BaseConfig → list (string * BaseConfig)) (Hord : ord ∅ = []).

Lemma plain_foreground c p : plainConfig c → FindForegroundTCP ord c p = None ∧ FindTCP ord c p = scTCP c !! p.
Proof using Hord. intros [Hf _ _ _]. unfold FindTCP, FindForegroundTCP. by rewrite Hf, Hord. Qed.

Lemma plain_type h : plainTCP h → serveTypeFromPortHandler h = serveTypeTCP.
Proof.
  intros (H1 & H2 & H3 & H4). unfold serveTypeFromPortHandler. rewrite H1, H2, H3. simpl.
  by rewrite bool_decide_eq_true_2.
Qed.

Lemma plain_validates prev c :
  plainConfig c → (∀ p, prev = Some p → plainConfig p) → validateServeConfigUpdate ord prev c = Ok ().
Proof using Hord.
  intros Hc Hprev. unfold validateServeConfigUpdate. rewrite (pc_services _ Hc), map_to_list_empty. simpl.
  destruct prev as [e|]; [|done]. specialize (Hprev e eq_refl).
  rewrite (pc_fg _ Hc), Hord. simpl. rewrite !checkAll_ok; [done| |].
  - intros [p h] _. simpl. rewrite (proj1 (plain_foreground e p Hprev)). by rewrite bool_decide_eq_true_2.
  - intros [p h] Hh%elem_of_map_to_list. simpl. rewrite (proj2 (plain_foreground e p Hprev)).
    destruct (scTCP e !! p) as [h'|] eqn:He; [|done]. simpl.
    rewrite (plain_type h), (plain_type h') by eauto using pc_tcp. by rewrite bool_decide_eq_true_2.
Qed.
End install.

(** The state after a successful installation. *)
Definition installed (b : LocalBackend) (c : ServeConfig) (b' : LocalBackend) : Prop :=
  lbServeConfig b' = Some c ∧ lbStore b' = <[ServeConfigKey (lbProfileID b) := c]> (lbStore b) ∧
  (∀ ap, lbInterceptVIP b' ap = false) ∧
  (∀ p, lbIntercept b' p = true ↔
    (0 < p ∧ is_Some (scTCP c !! p)) ∨ (lbPrefsValid b = true ∧ lbRunSSH b = true ∧ p = 22) ∨
    (lbExposeWebClient b = true ∧ p = webClientPort)).

Lemma reload_installed b c :
  lbInv b → selfValid b = true → lbPrefsValid b = true → lbProfileID b ≠ "" → scForeground c = ∅ →
  lbStore b !! ServeConfigKey (lbProfileID b) = Some c →
  lbServeConfig (reloadServeConfigLocked b) = Some c.
Proof.
  intros HI Hs Hp Hid Hf Hst. unfold reloadServeConfigLocked. rewrite Hs, Hp, bool_decide_eq_false_2 by done. simpl.
  rewrite Hst. case_decide as Hd.
  - unfold lbInv in HI. rewrite Hd in HI. destruct HI as (fg & -> & Hfg). destruct c as [bc fgc]. simpl in *.
    subst fgc. do 2 f_equal. apply (anti_symm (⊆)); [done|apply map_empty_subseteq].
  - simpl. unfold activeOnly. destruct c as [bc fgc]. simpl in *. subst fgc. by rewrite map_filter_empty.
Qed.

Lemma reload_frame b :
  let b' := reloadServeConfigLocked b in
  lbStore b' = lbStore b ∧ lbPrefsValid b' = lbPrefsValid b ∧ lbRunSSH b' = lbRunSSH b ∧
  lbExposeWebClient b' = lbExposeWebClient b ∧ lbNetMap b' = lbNetMap b ∧ lbProfileID b' = lbProfileID b ∧
  lbVIPServices b' = lbVIPServices b ∧ lbPeerAPIPorts b' = lbPeerAPIPorts b.
Proof.
  simpl. unfold reloadServeConfigLocked. destruct (_ || _ || _); [done|].
  destruct (_ !! _); [|done]. by case_decide.
Qed.

Lemma TCPs_plain ord c p : ord ∅ = [] → plainConfig c → p ∈ TCPs ord c ↔ is_Some (scTCP c !! p).
Proof.
  intros Hord [Hf _ _ _]. unfold TCPs. rewrite Hf, Hord. simpl. rewrite ?app_nil_r, list_elem_of_fmap. split.
  - intros ([q h] & -> & Hin%elem_of_map_to_list). eauto.
  - intros [h Hh]. exists (p, h). split; [done|]. by apply elem_of_map_to_list.
Qed.

Lemma setVIP_frame sord m b :
  let b' := setVIPServicesTCPPortsInterceptedLocked sord m b in
  b' = setInterceptVIP (lbInterceptVIP b') b ∧ (m = ∅ → lbInterceptVIP b' = λ _, false).
Proof.
  unfold setVIPServicesTCPPortsInterceptedLocked. simpl. case_decide; [done|].
  destruct (lbNetMap b) eqn:E; [case_decide|]; split; try done; by destruct b.
Qed.

Lemma setPorts_frame ord sord b :
  let b' := setTCPPortsInterceptedFromNetmapAndPrefsLocked ord sord b in let r := reloadServeConfigLocked b in
  lbServeConfig b' = lbServeConfig r ∧ lbLastServeConf b' = lbLastServeConf r ∧ lbStore b' = lbStore r ∧
  lbNetMap b' = lbNetMap b ∧ lbVIPServices b' = lbVIPServices b ∧ lbPeerAPIPorts b' = lbPeerAPIPorts b ∧
  lbExposeWebClient b' = lbExposeWebClient b.
Proof.
  destruct (reload_frame b) as (_ & _ & _ & H4 & H5 & _ & H7 & H8).
  unfold setTCPPortsInterceptedFromNetmapAndPrefsLocked, serveSetTCPPortsIntercepted. simpl.
  destruct (match lbServeConfig _ with Some _ => _ | None => _ end) as [ps vips].
  rewrite (proj1 (setVIP_frame sord vips _)). simpl. by rewrite H4, H5, H7, H8.
Qed.

Lemma ports_installed ord sord b c :
  ord ∅ = [] → plainConfig c → lbServeConfig (reloadServeConfigLocked b) = Some c →
  let b' := setTCPPortsInterceptedFromNetmapAndPrefsLocked ord sord b in
  (∀ ap, lbInterceptVIP b' ap = false) ∧
  ∀ p, lbIntercept b' p = true ↔
    (0 < p ∧ is_Some (scTCP c !! p)) ∨ (lbPrefsValid b = true ∧ lbRunSSH b = true ∧ p = 22) ∨
    (lbExposeWebClient b = true ∧ p = webClientPort).
Proof.
  intros Hord Hc Hb. unfold setTCPPortsInterceptedFromNetmapAndPrefsLocked, serveSetTCPPortsIntercepted.
  rewrite Hb, (pc_services _ Hc), fmap_empty. simpl. split; [done|]. intros p. unfold positivePorts.
  rewrite generateIntercept_elem, bool_decide_eq_true, !elem_of_app, list_elem_of_filter, TCPs_plain by done.
  destruct (lbPrefsValid b), (lbRunSSH b), (lbExposeWebClient b); simpl; set_solver.
Qed.

(** The handler of a connection to an address of this node that neither the web client
    nor the peer API claims, under a plain configuration. *)
Lemma handler_plain ord b c src dst :
  ord ∅ = [] → plainConfig c → lbServeConfig b = Some c → lbIsLocalIP b (ap_addr dst) = true →
  ap_addr dst ≠ TailscaleServiceIP → ap_addr dst ≠ TailscaleServiceIPv6 →
  (ap_port dst = webClientPort → lbExposeWebClient b = false) →
  lbPeerAPIPorts b !! ap_addr dst ≠ Some (ap_port dst) →
  TCPHandlerForDst ord b src dst =
    (λ h, HForward (TCPForward h) "" (ProxyProtocol h)) <$> scTCP c !! ap_port dst.
Proof.
  intros Hord Hc Hb Hl H1 H2 Hw Hp. unfold TCPHandlerForDst. rewrite !bool_decide_eq_false_2 by done. simpl.
  assert (tcpHandlerForVIPService b dst = None) as ->.
  { unfold tcpHandlerForVIPService. rewrite Hb. simpl. destruct (lbVIPServices b !! _) as [svc|]; [|done]. simpl.
    unfold FindServiceTCP. by rewrite (pc_services _ Hc), lookup_empty. }
  rewrite Hl. simpl.
  assert ((ap_port dst =? webClientPort) && lbExposeWebClient b = false) as ->.
  { destruct (Z.eqb_spec (ap_port dst) webClientPort) as [He|]; [by rewrite (Hw He)|done]. }
  unfold tcpHandlerForServe. rewrite Hb. simpl. rewrite (proj2 (plain_foreground ord Hord c _ Hc)).
  destruct (scTCP c !! ap_port dst) as [h|] eqn:Hh; [|done]. simpl.
  destruct (pc_tcp _ Hc _ _ Hh) as (E1 & E2 & E3 & E4). unfold tcpHandlerForServeTCP.
  rewrite E1, E2, E3, bool_decide_eq_true_2 by done. done.
Qed.

(** The effect of installing a plain configuration. *)
Lemma install_plain ord sord etagOf c b :
  ord ∅ = [] → lbInv b → selfValid b = true → lbPrefsValid b = true → lbProfileID b ≠ "" →
  lbConfigLocked b = false → plainConfig c → (∀ prev, lbServeConfig b = Some prev → plainConfig prev) →
  ∃ b', setServeConfigLocked ord sord etagOf true c "" b = Ok (b', []) ∧ installed b c b' ∧ lbInv b' ∧
    ∀ src dst, lbIsLocalIP b (ap_addr dst) = true →
      ap_addr dst ≠ TailscaleServiceIP → ap_addr dst ≠ TailscaleServiceIPv6 →
      (ap_port dst = webClientPort → lbExposeWebClient b = false) →
      lbPeerAPIPorts b !! ap_addr dst ≠ Some (ap_port dst) →
      TCPHandlerForDst ord b' src dst =
        (λ h, HForward (TCPForward h) "" (ProxyProtocol h)) <$> scTCP c !! ap_port dst.
Proof.
  intros Hord HI Hs Hp Hid Hlk Hc Hprev.
  set (b1 := setStore (<[ServeConfigKey (lbProfileID b) := c]> (lbStore b)) b).
  set (b' := setTCPPortsInterceptedFromNetmapAndPrefsLocked ord sord b1).
  destruct (setPorts_frame ord sord b1) as (F1 & F2 & F3 & F4 & F5 & F6 & F7). fold b' in F1, F2, F3, F4, F5, F6, F7.
  assert (lbServeConfig (reloadServeConfigLocked b1) = Some c) as Hr.
  { apply reload_installed; try done; [apply (pc_fg _ Hc)|]. apply lookup_insert_eq. }
  exists b'. repeat split.
  - unfold setServeConfigLocked. rewrite Hlk.
    assert (IsFunnelOn (Some c) = false) as ->.
    { unfold IsFunnelOn, baseFunnelOn. by rewrite (pc_funnel _ Hc), (pc_fg _ Hc), map_to_list_empty. }
    unfold selfValid in Hs. destruct (lbNetMap b) as [[nm|]|] eqn:Hnm; [|done..]. simpl.
    rewrite (plain_validates ord Hord _ _ Hc Hprev). simpl. fold b1 b'. do 2 f_equal.
    destruct (lbServeConfig b) as [prev|] eqn:Hb; [|done]. by rewrite (pc_fg _ (Hprev _ eq_refl)), Hord.
  - by rewrite F1.
  - rewrite F3. by rewrite (proj1 (reload_frame b1)).
  - apply (ports_installed ord sord b1 c Hord Hc Hr).
  - apply (ports_installed ord sord b1 c Hord Hc Hr).
  - apply (ports_installed ord sord b1 c Hord Hc Hr).
  - unfold lbInv. rewrite F1, F2. apply (reload_inv b1), HI.
  - intros src dst Hl H1 H2 Hw Hpa. apply handler_plain; try done.
    + by rewrite F1.
    + unfold lbIsLocalIP. by rewrite F4.
    + by rewrite F7.
    + by rewrite F6.
Qed.

(** Setting a background configuration of plain TCP forwards over none or over another
    such configuration succeeds and cancels no session; it is then in force and in the
    store, the intercepted ports are exactly its ports with those of SSH and of the web
    client, and every connection to an address of this node is handled by its forward. *)
Theorem SetServeConfig_plain ord sord etagOf c b :
  ord ∅ = [] → lbInv b → selfValid b = true → lbPrefsValid b = true → lbProfileID b ≠ "" →
  lbConfigLocked b = false → plainConfig c → (∀ prev, lbServeConfig b = Some prev → plainConfig prev) →
  ∃ b', setServeConfigLocked ord sord etagOf true c "" b = Ok (b', []) ∧ installed b c b' ∧ lbInv b' ∧
    ∀ src dst, lbIsLocalIP b (ap_addr dst) = true →
      ap_addr dst ≠ TailscaleServiceIP → ap_addr dst ≠ TailscaleServiceIPv6 →
      (ap_port dst = webClientPort → lbExposeWebClient b = false) →
      lbPeerAPIPorts b !! ap_addr dst ≠ Some (ap_port dst) →
      TCPHandlerForDst ord b' src dst =
        (λ h, HForward (TCPForward h) "" (ProxyProtocol h)) <$> scTCP c !! ap_port dst.
Proof. apply install_plain. Qed.

(** A node with one address that maps port 80 and later 80 and 443. *)
Definition exSelf : Addr := AddrFrom4 [100; 64; 0; 9].
Definition exForward (a : string) : TCPPortHandler := mkTCPPortHandler false false a "" 0.
Definition exConfig (m : gmap Z TCPPortHandler) : ServeConfig := mkServeConfig (mkBaseConfig m ∅ ∅ ∅) ∅.
Definition exCfg1 : ServeConfig := exConfig {[80 := exForward "127.0.0.1:8080"]}.
Definition exCfg2 : ServeConfig := exConfig {[80 := exForward "127.0.0.1:8081"; 443 := exForward "10.0.0.7:443"]}.
Definition exBackend : LocalBackend :=
  mkLocalBackend true false false false (Some (Some [PrefixFrom exSelf 32])) "p1" {["_serve/p1" := exCfg1]}
    (Some exCfg1) (Some exCfg1) ∅ (λ _, false) false false ∅ ∅ ∅ (λ _, false).

Lemma exConfig_plain m : map_Forall (λ _ h, plainTCP h) m → plainConfig (exConfig m).
Proof. intros Hm. by split. Qed.

Lemma exForward_plain a : a ≠ "" → plainTCP (exForward a).
Proof. done. Qed.

Lemma exCfg1_plain : plainConfig exCfg1.
Proof. apply exConfig_plain. intros p h [<- <-]%lookup_singleton_Some. by apply exForward_plain. Qed.

Lemma exCfg2_plain : plainConfig exCfg2.
Proof.
  apply exConfig_plain. intros p h [[<- <-]|[_ [<- <-]%lookup_singleton_Some]]%lookup_insert_Some;
    by apply exForward_plain.
Qed.

Lemma SetServeConfig_plain_witness :
  ∃ b', setServeConfigLocked map_to_list map_to_list (λ _, "") true exCfg2 "" exBackend = Ok (b', []) ∧
    lbIntercept b' 443 = true ∧ lbIntercept b' 8080 = false ∧
    TCPHandlerForDst map_to_list b' (mkAddrPort (AddrFrom4 [100; 64; 0; 2]) 40000) (mkAddrPort exSelf 443) =
      Some (HForward "10.0.0.7:443" "" 0).
Proof.
  destruct (SetServeConfig_plain map_to_list map_to_list (λ _, "") exCfg2 exBackend) as (b' & Hset & (Hc & _ & _ & Hi) & _ & Hh).
  - apply map_to_list_empty.
  - exists ∅. split; [reflexivity|apply map_empty_subseteq].
  - reflexivity.
  - reflexivity.
  - discriminate.
  - reflexivity.
  - apply exCfg2_plain.
  - intros prev [= <-]. apply exCfg1_plain.
  - exists b'. split; [exact Hset|]. split; [apply Hi; left; split; [lia|eexists; reflexivity]|]. split.
    + apply not_true_is_false. intros [[_ [h [=]]]|[(_ & [=] & _)|([=] & _)]]%Hi.
    + apply Hh; [reflexivity|discriminate|discriminate|done|discriminate].
Defined.

(** ** Dial targets *)

(** The addresses a target stands for under a resolver. *)
Definition targets (lookup : string → option (list string)) (st : serveTarget) : list string :=
  if decide (stPort st = "") then [stHost st]
  else if bool_decide (is_Some (ParseIP (stHost st))) then [JoinHostPort (stHost st) (stPort st)]
  else
    match lookup (stHost st) with
    | None | Some [] => [JoinHostPort (stHost st) (stPort st)]
    | Some ips => (λ ip, JoinHostPort ip (stPort st)) <$> ips
    end.

Lemma stAddr_spec lookup probe st a st' :
  stAddr lookup probe st = (a, st') →
  stHost st' = stHost st ∧ stPort st' = stPort st ∧
  (stCur st ≠ "" → a = stCur st ∧ st' = st) ∧
  (stCur st = "" → a ∈ targets lookup st ∧ (stCur st' = a ∨ stCur st' = "") ∧
    ∀ c, c ∈ targets lookup st → probe c = true → probe a = true).
Proof.
  unfold stAddr, targets. case_decide as Hc; [intros [= <- <-]; done|].
  assert (∀ (a' : string) (l : list string) (s : serveTarget), stHost s = stHost st → stPort s = stPort st →
    a' ∈ l → (stCur s = a' ∨ stCur s = "") → (∀ c, c ∈ l → probe c = true → probe a' = true) →
    stHost s = stHost st ∧ stPort s = stPort st ∧ (stCur st ≠ "" → a' = stCur st ∧ s = st) ∧
    (stCur st = "" → a' ∈ l ∧ (stCur s = a' ∨ stCur s = "") ∧ ∀ c, c ∈ l → probe c = true → probe a' = true))
    as Hk by (intros; naive_solver).
  assert (∀ a' c : string, c ∈ [a'] → probe c = true → probe a' = true) as H1
    by (by intros a' c ->%list_elem_of_singleton).
  case_decide; [intros [= <- <-]; apply Hk; eauto; left|].
  case_bool_decide; [intros [= <- <-]; apply Hk; eauto; left|].
  destruct (lookup (stHost st)) as [[|ip0 ips]|].
  1,3: intros [= <- <-]; apply Hk; eauto; left.
  destruct (List.find _ _) as [ip|] eqn:Hf; intros [= <- <-]; apply Hk; eauto.
  - apply List.find_some in Hf as [Hin%list_elem_of_In _]. by apply (list_elem_of_fmap_2 (λ ip, JoinHostPort ip _)).
  - apply List.find_some in Hf as [_ Hpr]. done.
  - left.
  - intros c [ip [-> Hin]]%list_elem_of_fmap Hpr. exfalso.
    apply list_elem_of_In, (List.find_none _ _ Hf ip) in Hin. congruence.
Qed.

(** A dial connects only to the pinned address or to one the target stands for, and
    what it then remembers is the address it connected to; a pinned address that accepts
    is reused without any lookup; and whenever some address the target stands for accepts
    at the second attempt, whose probe tells which do, the dial connects. *)
Theorem stDial_spec lookup1 lookup2 probe1 probe2 sys st :
  let '(conn, addr, st') := stDial lookup1 lookup2 probe1 probe2 sys st in
  (stHost st' = stHost st ∧ stPort st' = stPort st) ∧
  (∀ a, conn = Some a → sys a = true ∧ addr = a ∧ (stCur st' = a ∨ stCur st' = "") ∧
    (a = stCur st ∨ a ∈ targets lookup1 st ∨ a ∈ targets lookup2 st)) ∧
  (stCur st ≠ "" → sys (stCur st) = true → conn = Some (stCur st) ∧ st' = st) ∧
  ((∀ c, c ∈ targets lookup2 st → probe2 c = sys c) → (∃ c, c ∈ targets lookup2 st ∧ sys c = true) →
    is_Some conn).
Proof.
  unfold stDial. destruct (stAddr lookup1 probe1 st) as [t1 st1] eqn:E1.
  destruct (stAddr_spec _ _ _ _ _ E1) as (Hh1 & Hp1 & Hc1 & Hn1).
  assert (t1 = stCur st ∨ t1 ∈ targets lookup1 st) as Ht1 by (destruct (decide (stCur st = "")); naive_solver).
  destruct (sys t1) eqn:Hs1.
  { split; [done|]. split; [|split; [|eauto]].
    - intros a [= <-]. destruct (decide (stCur st = "")) as [He|He]; [|destruct (Hc1 He) as [-> ->]]; naive_solver.
    - intros Hne _. by destruct (Hc1 Hne) as [-> ->]. }
  destruct (stAddr lookup2 probe2 (stInvalidate st1)) as [t2 st2] eqn:E2.
  destruct (stAddr_spec _ _ _ _ _ E2) as (Hh2 & Hp2 & _ & Hn2). specialize (Hn2 eq_refl) as (Hin & Hcur & Hbest).
  assert (targets lookup2 (stInvalidate st1) = targets lookup2 st) as Ht
    by (unfold targets; simpl; by rewrite Hh1, Hp1).
  rewrite Ht in Hin, Hbest. simpl in Hh2, Hp2.
  assert (stCur st ≠ "" → sys (stCur st) = true → False) as Hno by (intros [<- _]%Hc1; congruence).
  destruct (bool_decide (t2 ≠ t1) && sys t2) eqn:Hs2.
  - apply andb_true_iff in Hs2 as [_ Hs2]. split; [split; congruence|]. split; [|split; [tauto|eauto]].
    intros a [= <-]. tauto.
  - split; [split; congruence|]. split; [done|]. split; [tauto|]. intros Hpr (c & Hc & Hsc). exfalso.
    assert (sys t2 = true) as Hst by (rewrite <- Hpr by done; apply (Hbest c); [done|]; by rewrite Hpr).
    rewrite Hst, andb_true_r in Hs2. apply bool_decide_eq_false in Hs2. apply Hs2. congruence.
Qed.
