(* ===== verification/Netstack.v ===== *)
(** * The userspace network stack adapter

    [netstack.Impl] of src/wgengine/netstack/netstack.go: its configuration, the
    reference counts of subnet addresses, the addresses registered on the virtual
    interface, the decision for an inbound packet, and the acceptance of TCP and UDP
    flows; and the identity table of src/proxymap/proxymap.go.

    gVisor is a parameter: its interface is the class [NIC], its TCP forwarder the
    class [Forwarder], with the documented behaviour in [NICLaws] and [ForwarderLaws].
    What a socket call returns is part of the environment of the handler. *)

From stdpp Require Import base gmap sets list strings.
From S2P Require Import Prelude GoStd Bytes NetIP TSAddr Packet Headers Filter Serve.

(** ** gVisor *)
Class NIC (N : Type) := mkNIC {
  AllAddresses : N → list (bytes * Z);
  AddProtocolAddress : bytes → Z → N → N;
  RemoveAddress : bytes → N → N
}.

(** An address is registered at most once: a second registration is refused. *)
Class NICLaws (N : Type) `{NIC N} : Prop := {
  all_add (n : N) a len x : x ∈ AllAddresses (AddProtocolAddress a len n) ↔
    x ∈ AllAddresses n ∨ (x = (a, len) ∧ ∀ l, (a, l) ∉ AllAddresses n);
  all_remove (n : N) a x : x ∈ AllAddresses (RemoveAddress a n) ↔ x ∈ AllAddresses n ∧ x.1 ≠ a
}.

Record TransportEndpointID := mkTEI {
  LocalPort : Z; LocalAddress : bytes; RemotePort : Z; RemoteAddress : bytes
}.
#[export] Instance TransportEndpointID_eq_dec : EqDecision TransportEndpointID.
Proof. solve_decision. Defined.
#[export] Instance TransportEndpointID_countable : Countable TransportEndpointID.
Proof.
  refine (inj_countable' (λ t, (LocalPort t, LocalAddress t, RemotePort t, RemoteAddress t))
    (λ '(a, b, c, d), mkTEI a b c d) _).
  by intros [].
Defined.

(** The forwarder hands a SYN to the handler unless a request for the same flow is
    in flight or too many requests are; a request is in flight until it is completed. *)
Class Forwarder (F : Type) := mkForwarder {
  inFlight : F → gset TransportEndpointID;
  HandlePacket : TransportEndpointID → F → option F;
  CompleteRequest : TransportEndpointID → F → F
}.
Class ForwarderLaws (F : Type) `{Forwarder F} (maxInFlight : Z) : Prop := {
  handle_some (f : F) id f' : HandlePacket id f = Some f' →
    (id ∉ inFlight f) ∧ Z.of_nat (size (inFlight f)) < maxInFlight ∧ inFlight f' = {[id]} ∪ inFlight f;
  handle_none (f : F) id : HandlePacket id f = None →
    id ∈ inFlight f ∨ maxInFlight ≤ Z.of_nat (size (inFlight f));
  complete_inFlight (f : F) id : inFlight (CompleteRequest id f) = inFlight f ∖ {[id]}
}.

(** ** The identity table (proxymap.Mapper) *)
Definition Mapper : Type := gmap (string * AddrPort) Addr.

Definition RegisterIPPortIdentity (proto : string) (ipport : AddrPort) (tsIP : Addr) (m : Mapper) : option Mapper :=
  match m !! (proto, ipport) with
  | Some _ => None
  | None => Some (<[(proto, ipport) := tsIP]> m)
  end.
Definition UnregisterIPPortIdentity (proto : string) (ipport : AddrPort) (m : Mapper) : Mapper :=
  delete (proto, ipport) m.
(** The lookup retries at the five times of [whoIsSleeps]; [at_time] is the table then. *)
Definition whoIsTries : nat := 5.
Definition WhoIsIPPort (at_time : nat → Mapper) (proto : string) (ipport : AddrPort) : option Addr :=
  foldr (λ i acc, match at_time i !! (proto, ipport) with Some a => Some a | None => acc end) None (seq 0 whoIsTries).

(** ** The state *)
Record Impl (N : Type) := mkImpl {
  ProcessLocalIPs : bool;
  ProcessSubnets : bool;
  AllowedIPsForPort : option (gmap Z (list Prefix));
  PasswordForPort : option (gmap Z string);
  ServeTargets : option (gmap Z AddrPort);
  DropICMP : bool;
  StealthDrop : bool;
  ready : bool;
  ctxDone : bool;
  isLocalIPFunc : Addr → bool;
  nsLB : option LocalBackend;
  connsOpenBySubnetIP : gmap Addr Z;
  nsPM : Mapper;
  ipstack : N
}.
Arguments mkImpl {N}.
Arguments ProcessLocalIPs {N}. Arguments ProcessSubnets {N}. Arguments AllowedIPsForPort {N}.
Arguments PasswordForPort {N}. Arguments ServeTargets {N}. Arguments DropICMP {N}. Arguments StealthDrop {N}.
Arguments ready {N}. Arguments ctxDone {N}. Arguments isLocalIPFunc {N}. Arguments nsLB {N}.
Arguments connsOpenBySubnetIP {N}. Arguments nsPM {N}. Arguments ipstack {N}.

(** A lookup in a Go map that may be nil. *)
Definition mapGet {A} (m : option (gmap Z A)) (k : Z) : option A := m ≫= (.!! k).

Section state.
Context {N : Type}.
Implicit Types ns : Impl N.

Definition setConns (c : gmap Addr Z) (n : N) ns : Impl N :=
  mkImpl (ProcessLocalIPs ns) (ProcessSubnets ns) (AllowedIPsForPort ns) (PasswordForPort ns) (ServeTargets ns)
    (DropICMP ns) (StealthDrop ns) (ready ns) (ctxDone ns) (isLocalIPFunc ns) (nsLB ns) c (nsPM ns) n.
Definition setLocalIPs (f : Addr → bool) ns : Impl N :=
  mkImpl (ProcessLocalIPs ns) (ProcessSubnets ns) (AllowedIPsForPort ns) (PasswordForPort ns) (ServeTargets ns)
    (DropICMP ns) (StealthDrop ns) (ready ns) (ctxDone ns) f (nsLB ns) (connsOpenBySubnetIP ns) (nsPM ns) (ipstack ns).
Definition setPM (m : Mapper) ns : Impl N :=
  mkImpl (ProcessLocalIPs ns) (ProcessSubnets ns) (AllowedIPsForPort ns) (PasswordForPort ns) (ServeTargets ns)
    (DropICMP ns) (StealthDrop ns) (ready ns) (ctxDone ns) (isLocalIPFunc ns) (nsLB ns) (connsOpenBySubnetIP ns) m
    (ipstack ns).
Definition setReady (lb : option LocalBackend) ns : Impl N :=
  mkImpl (ProcessLocalIPs ns) (ProcessSubnets ns) (AllowedIPsForPort ns) (PasswordForPort ns) (ServeTargets ns)
    (DropICMP ns) (StealthDrop ns) true (ctxDone ns) (isLocalIPFunc ns) lb (connsOpenBySubnetIP ns) (nsPM ns)
    (ipstack ns).

(** [Start] with a backend, or with none; a second start panics. *)
Definition Start (b : option LocalBackend) ns : res () (Impl N) :=
  let lb := match b with Some b => Some b | None => nsLB ns end in
  if ready ns then Panic else Ok (setReady lb ns).

Definition isLocalIP ns (ip : Addr) : bool := isLocalIPFunc ns ip.
End state.

(** ** Addresses *)
Definition netaddrIPFromNetstackIP (s : bytes) : Addr :=
  if decide (length s = 4%nat) then AddrFrom4 s
  else if decide (length s = 16%nat) then Unmap (AddrFrom16 s)
  else AddrZ.
Definition ipPortOfNetstackAddr (a : bytes) (port : Z) : option AddrPort :=
  (λ addr, mkAddrPort addr port) <$> AddrFromSlice a.
Definition AsSlice (a : Addr) : bytes :=
  match a with AddrZ => [] | Addr4 v => be_bytes 4 v | Addr6 v _ => be_bytes 16 v end.
Definition serviceIP : Addr := TailscaleServiceIP.
Definition serviceIPv6 : Addr := TailscaleServiceIPv6.
Definition viaRange : Prefix := TailscaleViaRange.
Definition v4broadcast : Addr := IPv4 255 255 255 255.
Definition ipv4Loopback : Addr := IPv4 127 0 0 1.
Definition ipv6Loopback : Addr := Addr6 1 "".
Definition hitsService (ip : Addr) : bool := bool_decide (ip = serviceIP) || bool_decide (ip = serviceIPv6).

(** ** Subnet addresses *)
Section addresses.
Context {N : Type} `{NIC N}.
Implicit Types ns : Impl N.

Definition connsOpen ns (ip : Addr) : Z := default 0 (connsOpenBySubnetIP ns !! ip).

Definition addSubnetAddress (ip : Addr) ns : Impl N :=
  let c := connsOpen ns ip + 1 in
  let conns := <[ip := c]> (connsOpenBySubnetIP ns) in
  let needAdd := c =? 1 in
  setConns conns (if needAdd then AddProtocolAddress (AsSlice ip) (BitLen ip) (ipstack ns) else ipstack ns) ns.

Definition removeSubnetAddress (ip : Addr) ns : Impl N :=
  let c := connsOpen ns ip - 1 in
  let conns := <[ip := c]> (connsOpenBySubnetIP ns) in
  if c =? 0 then setConns (delete ip conns) (RemoveAddress (AsSlice ip) (ipstack ns)) ns
  else setConns conns (ipstack ns) ns.

(** The wrappers around gVisor's protocol handlers: [None] when the local address does
    not parse, and else the state with which the handler is called. *)
Definition wrapUDPProtocolHandler (tei : TransportEndpointID) ns : option (Impl N) :=
  ip ← AddrFromSlice (LocalAddress tei);
  let ip := Unmap ip in
  Some (if isLocalIP ns ip then ns else addSubnetAddress ip ns).
Definition wrapTCPProtocolHandler (tei : TransportEndpointID) ns : option (Impl N) :=
  localIP ← AddrFromSlice (LocalAddress tei);
  let localIP := Unmap localIP in
  Some (if isLocalIP ns localIP then ns else addSubnetAddress localIP ns).

(** ** Local addresses of the interface *)

(** A network map is nil, has no valid self node, or gives the addresses and the
    allowed IPs of the self node. *)
Definition NetMapSelf : Type := option (option (list Prefix * list Prefix)).

Definition oldPrefixes (n : N) : gset Prefix :=
  list_to_set (omap (λ al : bytes * Z,
    let ip := netaddrIPFromNetstackIP al.1 in
    if bool_decide (ip = v4broadcast) && (al.2 =? 32) then None else Some (PrefixFrom ip al.2)) (AllAddresses n)).

Definition newPrefixes ns (nm : NetMapSelf) : gset Prefix :=
  match nm with
  | Some (Some (addrs, allowed)) =>
      list_to_set addrs ∪ (if ProcessSubnets ns then list_to_set allowed else ∅)
  | _ => ∅
  end.

Definition removePrefix (n : N) (p : Prefix) : N := RemoveAddress (AsSlice (pfx_ip p)) n.
Definition addPrefix (n : N) (p : Prefix) : N :=
  if PfxValid p then AddProtocolAddress (AsSlice (pfx_ip p)) (Bits p) n else n.

(** [bartContains] is the lookup of the bart table; [pord] is the iteration order. *)
Definition UpdateNetstackIPs (bartContains : list Prefix → Addr → bool) (pord : gset Prefix → list Prefix)
    (nm : NetMapSelf) ns : Impl N :=
  let f :=
    match nm with
    | None => FalseContainsIPFunc
    | Some None => NewContainsIPFunc bartContains []
    | Some (Some (addrs, _)) => NewContainsIPFunc bartContains addrs
    end in
  let oldPfx := oldPrefixes (ipstack ns) in
  let newPfx := newPrefixes ns nm in
  let pfxToAdd := newPfx ∖ oldPfx in
  let held : gset Prefix := set_map (λ ip, PrefixFrom ip (BitLen ip)) (dom (connsOpenBySubnetIP ns)) in
  let pfxToRemove := (oldPfx ∖ newPfx) ∖ held in
  let n := foldl removePrefix (ipstack ns) (pord pfxToRemove) in
  let n := foldl addPrefix n (pord pfxToAdd) in
  setConns (connsOpenBySubnetIP ns) n (setLocalIPs f ns).
End addresses.

(** ** Packets *)
Section packets.
Context {N : Type}.
Implicit Types ns : Impl N.

(** Packets from the host: the verdict, and whether netstack takes the packet. *)
Definition handleLocalPackets (p : Parsed) ns : Response * bool :=
  if negb (ready ns) || ctxDone ns then (DropSilently, false)
  else if hitsService (ap_addr (Dst p)) then (DropSilently, true)
  else (Accept, false).

(** Packets that netstack sends: to the host, back into netstack, or to a peer. *)
Inductive NetworkHeader := HdrIPv4 (src dst : bytes) | HdrIPv6 (src dst : bytes) | HdrOther.
Inductive InjectTarget := ToHost | Loopback | Outbound.

Definition shouldSendToHost (h : NetworkHeader) : bool :=
  match h with
  | HdrIPv4 src _ => bool_decide (AddrFrom4 src = serviceIP)
  | HdrIPv6 src _ => bool_decide (AddrFrom16 src = serviceIPv6)
  | HdrOther => false
  end.
Definition isSelfDst ns (h : NetworkHeader) : bool :=
  match h with
  | HdrIPv4 _ dst => isLocalIP ns (AddrFrom4 dst)
  | HdrIPv6 _ dst => isLocalIP ns (AddrFrom16 dst)
  | HdrOther => false
  end.
Definition injectTarget ns (h : NetworkHeader) : InjectTarget :=
  if shouldSendToHost h then ToHost else if isSelfDst ns h then Loopback else Outbound.

Definition shouldProcessInbound ns (p : Parsed) : bool :=
  let isLocal := isLocalIP ns (ap_addr (Dst p)) in
  if match nsLB ns with
     | Some lb => (IPProto p =? TCP) && isLocal && ShouldInterceptTCPPort lb (ap_port (Dst p))
     | None => false
     end then true
  else if ProcessLocalIPs ns && isLocal then true
  else ProcessSubnets ns && negb isLocal.

Definition shouldHandlePing ns (p : Parsed) : res HdrErr (option Addr) :=
  echo ← liftPkt (IsEchoRequest p);
  let destIP := ap_addr (Dst p) in
  Ok (if negb echo then None
      else if Contains viaRange destIP then Some (UnmapVia destIP)
      else if negb (ProcessSubnets ns) then None
      else if IsTailscaleIP destIP then None
      else Some destIP).

(** What happens to an inbound packet besides the verdict. *)
Inductive InboundAction :=
  | InNothing | InToStack
  | InPing (ip : Addr) (pong : bytes). (* ping [ip] and send [pong] if it answers *)

Definition pongOf (p : Parsed) : res HdrErr bytes :=
  let destIP := ap_addr (Dst p) in
  if Is4 destIP then
    h ← pICMP4Header p; payload ← liftPkt (Payload p); Generate (icmp4ToResponse h) payload
  else if Is6 destIP then
    h ← pICMP6Header p; payload ← liftPkt (Payload p); Generate (icmp6ToResponse h) payload
  else Ok [].

Definition injectInbound (p : Parsed) ns : res HdrErr (Response * InboundAction) :=
  if negb (ready ns) || ctxDone ns then Ok (DropSilently, InNothing)
  else if negb (shouldProcessInbound ns p) then Ok (Accept, InNothing)
  else
    drop ← (if DropICMP ns then liftPkt (IsEchoRequest p) else Ok false);
    if (drop : bool) then Ok (DropSilently, InNothing)
    else
      ping ← shouldHandlePing ns p;
      match ping with
      | Some pingIP => pong ← pongOf p; Ok (DropSilently, InPing pingIP pong)
      | None => Ok (DropSilently, InToStack)
      end.
End packets.

(** ** Source filter of a port *)

(** No entry for the port lets every source in. *)
Definition srcAllowed (m : option (gmap Z (list Prefix))) (port : Z) (srcIP : Addr) : bool :=
  match mapGet m port with
  | Some allowed => existsb (λ pfx, Contains pfx srcIP) allowed
  | None => true
  end.

(** ** TCP *)
Section tcp.
Context {N : Type} `{NIC N}.
Context (ord : gmap string BaseConfig → list (string * BaseConfig)).
Implicit Types ns : Impl N.

(** What the socket calls of one request give: whether the endpoint can be created,
    whether the nonce exchange succeeds, and the local address of the backend
    connection if the dial succeeds. *)
Record TCPEnv := mkTCPEnv { createsEndpoint : bool; encrypts : bool; dials : AddrPort → option AddrPort }.

Inductive TCPEvent :=
  | Complete (sendReset : bool)
  | ServeConn (h : Handler) (password : option string)
  | CloseConn
  | Splice (backend : AddrPort).

(** The events of completing the handshake, and whether there is a connection. *)
Definition getConnOrReset (env : TCPEnv) : list TCPEvent * bool :=
  if createsEndpoint env then ([Complete false], true) else ([Complete true], false).

(** [forwardTCP]: its events, whether it handled the request, and the state after. The
    identity is registered for the time of the copies. *)
Definition forwardTCP (env : TCPEnv) (clientRemoteIP : Addr) (dialAddr : AddrPort) (isLocal : bool) ns
    : list TCPEvent * bool * Impl N :=
  match dials env dialAddr with
  | None => ([], false, ns)
  | Some backendLocal =>
      let backendLocalIPPort := mkAddrPort (Unmap (ap_addr backendLocal)) (ap_port backendLocal) in
      let client := let '(evs, ok) := getConnOrReset env in if (ok : bool) then evs ++ [Splice dialAddr; CloseConn] else evs in
      if isLocal then
        match RegisterIPPortIdentity "tcp" backendLocalIPPort clientRemoteIP (nsPM ns) with
        | None => ([], false, ns)
        | Some pm => (client, true, setPM (UnregisterIPPortIdentity "tcp" backendLocalIPPort pm) ns)
        end
      else (client, true, ns)
  end.

Definition acceptTCP (env : TCPEnv) (r : TransportEndpointID) ns : list TCPEvent * Impl N :=
  let clientRemoteIP := netaddrIPFromNetstackIP (RemoteAddress r) in
  if negb (IsValid clientRemoteIP) then ([Complete true], ns)
  else
    let clientRemoteAddrPort := mkAddrPort clientRemoteIP (RemotePort r) in
    let localIP := netaddrIPFromNetstackIP (LocalAddress r) in
    let isLocal := isLocalIP ns localIP in
    let dstAddrPort := mkAddrPort localIP (LocalPort r) in
    let via := Contains viaRange localIP in
    let isTailscaleIP := if via then false else IsTailscaleIP localIP in
    let dialIP := if via then UnmapVia localIP else localIP in
    let finish evs ns := (evs, if isTailscaleIP then ns else removeSubnetAddress dialIP ns) in
    let reject := if StealthDrop ns then [] else [Complete true] in
    if hitsService dialIP && (LocalPort r =? 53) then finish [] ns
    else if match nsLB ns with
            | Some _ => negb (srcAllowed (AllowedIPsForPort ns) (LocalPort r) clientRemoteIP)
            | None => false
            end then finish [] ns
    else
      match nsLB ns ≫= λ lb, TCPHandlerForDst ord lb clientRemoteAddrPort dstAddrPort with
      | Some handler =>
          let '(evs, ok) := getConnOrReset env in
          if negb ok then finish evs ns
          else
            match mapGet (PasswordForPort ns) (LocalPort r) with
            | Some password =>
                if encrypts env then finish (evs ++ [ServeConn handler (Some password)]) ns
                else finish (evs ++ [CloseConn]) ns
            | None => finish (evs ++ [ServeConn handler None]) ns
            end
      | None =>
          if hitsService dialIP then finish reject ns
          else if isTailscaleIP then finish reject ns
          else
            let '(evs, handled, ns) := forwardTCP env clientRemoteIP (mkAddrPort dialIP (LocalPort r)) isLocal ns in
            finish (if handled then evs else evs ++ [Complete true]) ns
      end.
End tcp.

(** ** UDP *)
Section udp.
Context {N : Type} `{NIC N}.
Implicit Types ns : Impl N.

(** The endpoints of a session: where the backend socket listens and sends, and
    whether the flow counts as local. *)
Record UDPRoute := mkUDPRoute { backendListen : AddrPort; backendRemote : AddrPort; routeLocal : bool; routeDst : AddrPort }.

Definition udpRoute (clientAddr dstAddr : AddrPort) ns : UDPRoute :=
  let port := ap_port dstAddr in
  let srcPort := ap_port clientAddr in
  match mapGet (ServeTargets ns) (u16 port) with
  | Some tgt => mkUDPRoute (mkAddrPort ipv4Loopback srcPort) tgt true dstAddr
  | None =>
      if isLocalIP ns (ap_addr dstAddr) then
        mkUDPRoute (mkAddrPort ipv4Loopback srcPort) (mkAddrPort ipv4Loopback port) true dstAddr
      else if bool_decide (ap_addr dstAddr = ipv4Loopback) || bool_decide (ap_addr dstAddr = ipv6Loopback) then
        let ip := if bool_decide (ap_addr dstAddr = ipv6Loopback) then ipv6Loopback else ipv4Loopback in
        mkUDPRoute (mkAddrPort ip srcPort) (mkAddrPort ip port) false dstAddr
      else
        let dstAddr := if Contains viaRange (ap_addr dstAddr)
                       then mkAddrPort (UnmapVia (ap_addr dstAddr)) port else dstAddr in
        let any := if Is4 (ap_addr dstAddr) then IPv4 0 0 0 0 else Addr6 0 "" in
        mkUDPRoute (mkAddrPort any srcPort) dstAddr false dstAddr
  end.

(** A session that copies packets: its route, the address of its backend socket and
    the password of the client side. *)
Record UDPFlow := mkUDPFlow {
  flowClient : AddrPort; flowRoute : UDPRoute; flowBackend : AddrPort; flowPassword : option string; idleTimeout : Z
}.

(** [ListenUDP]: the local port of a socket bound at an address, if it can be bound. *)
Definition forwardUDP (ListenUDP : AddrPort → option Z) (clientAddr dstAddr : AddrPort) ns
    : option UDPFlow * Impl N :=
  let port := ap_port dstAddr in
  if negb (srcAllowed (AllowedIPsForPort ns) port (ap_addr clientAddr)) then (None, ns)
  else
    let route := udpRoute clientAddr dstAddr ns in
    let listen := backendListen route in
    match (match ListenUDP listen with
           | Some p => Some p
           | None => ListenUDP (mkAddrPort (ap_addr listen) 0)
           end) with
    | None => (None, ns)
    | Some p =>
        let backendLocalIPPort := mkAddrPort (Unmap (ap_addr listen)) p in
        let flow := mkUDPFlow clientAddr route backendLocalIPPort (mapGet (PasswordForPort ns) port)
                      (if port =? 53 then 30 else 120) in
        if routeLocal route then
          match RegisterIPPortIdentity "udp" backendLocalIPPort (ap_addr clientAddr) (nsPM ns) with
          | None => (None, ns)
          | Some pm => (Some flow, setPM pm ns)
          end
        else (Some flow, ns)
    end.

Definition acceptUDP (createsEndpoint : bool) (ListenUDP : AddrPort → option Z) (sess : TransportEndpointID) ns
    : option UDPFlow * Impl N :=
  if negb createsEndpoint then (None, ns)
  else
    match ipPortOfNetstackAddr (LocalAddress sess) (LocalPort sess),
          ipPortOfNetstackAddr (RemoteAddress sess) (RemotePort sess) with
    | Some dstAddr, Some srcAddr =>
        if hitsService (ap_addr dstAddr) then (None, ns)
        else forwardUDP ListenUDP srcAddr dstAddr ns
    | _, _ => (None, ns)
    end.

(** The idle timer of a flow: the identity is dropped and the sockets are closed. *)
Definition flowTimeout (f : UDPFlow) ns : Impl N :=
  if routeLocal (flowRoute f) then setPM (UnregisterIPPortIdentity "udp" (flowBackend f) (nsPM ns)) ns else ns.
(** The end of [forwardUDP], once both copies are done. *)
Definition flowDone (f : UDPFlow) ns : Impl N :=
  if routeLocal (flowRoute f) then removeSubnetAddress (ap_addr (routeDst (flowRoute f))) ns else ns.
End udp.

(** ** The TCP path as [Start] sets it up

    A SYN goes through [wrapTCPProtocolHandler] to the forwarder and, when the forwarder
    lets it, to [acceptTCP]; the request is in flight until it is completed. The result
    is the events of the request, or nothing when the handler is not called. *)
Section tcpPath.
Context {N : Type} `{NIC N} {F : Type} `{Forwarder F}.
Context (ord : gmap string BaseConfig → list (string * BaseConfig)).

Definition completeAll (id : TransportEndpointID) (evs : list TCPEvent) (f : F) : F :=
  foldl (λ f e, match e with Complete _ => CompleteRequest id f | _ => f end) f evs.

Definition offerSYN (env : TCPEnv) (id : TransportEndpointID) (st : F * Impl N)
    : option (list TCPEvent) * (F * Impl N) :=
  match wrapTCPProtocolHandler id st.2 with
  | None => (None, st)
  | Some ns =>
      match HandlePacket id st.1 with
      | None => (None, (st.1, ns))
      | Some f =>
          let '(evs, ns) := acceptTCP ord env id ns in
          (Some evs, (completeAll id evs f, ns))
      end
  end.
End tcpPath.
