(* ===== verification/NetstackThms.v ===== *)
(** * Correctness of the userspace network stack adapter

    When a TCP request is completed and when it is dropped silently, what that does to
    gVisor's forwarder, the safety of the inbound hook, the addresses on the interface,
    and the accounting of subnet addresses. *)

From stdpp Require Import base gmap sets list strings.
From S2P Require Import Prelude GoStd Bytes NetIP TSAddr Packet PacketThms Headers Filter Serve Netstack.

(** ** Completion of TCP requests *)
Definition isComplete (e : TCPEvent) : bool := match e with Complete _ => true | _ => false end.
Definition completions (evs : list TCPEvent) : nat := length (List.filter isComplete evs).

Lemma completions_app e1 e2 : completions (e1 ++ e2) = (completions e1 + completions e2)%nat.
Proof. unfold completions. by rewrite List.filter_app, length_app. Qed.

Section tcp.
Context {N : Type} `{NIC N}.
Context (ord : gmap string BaseConfig → list (string * BaseConfig)).
Implicit Types ns : Impl N.

(** The address a request is for, after the translation of via addresses. *)
Definition dialIPOf (r : TransportEndpointID) : Addr :=
  let ip := netaddrIPFromNetstackIP (LocalAddress r) in
  if Contains viaRange ip then UnmapVia ip else ip.
Definition toTailscaleIP (r : TransportEndpointID) : bool :=
  let ip := netaddrIPFromNetstackIP (LocalAddress r) in
  if Contains viaRange ip then false else IsTailscaleIP ip.
Definition handlerOf ns (r : TransportEndpointID) : option Handler :=
  nsLB ns ≫= λ lb, TCPHandlerForDst ord lb (mkAddrPort (netaddrIPFromNetstackIP (RemoteAddress r)) (RemotePort r))
    (mkAddrPort (netaddrIPFromNetstackIP (LocalAddress r)) (LocalPort r)).
Definition srcRefused ns (r : TransportEndpointID) : bool :=
  match nsLB ns with
  | Some _ => negb (srcAllowed (AllowedIPsForPort ns) (LocalPort r) (netaddrIPFromNetstackIP (RemoteAddress r)))
  | None => false
  end.

(** The requests that are dropped without an answer. *)
Definition silentDrop ns (r : TransportEndpointID) : bool :=
  IsValid (netaddrIPFromNetstackIP (RemoteAddress r)) &&
  ((hitsService (dialIPOf r) && (LocalPort r =? 53)) || srcRefused ns r ||
   (bool_decide (handlerOf ns r = None) && StealthDrop ns && (hitsService (dialIPOf r) || toTailscaleIP r))).

Lemma getConnOrReset_once env : completions (getConnOrReset env).1 = 1%nat.
Proof. unfold getConnOrReset. by destruct (createsEndpoint env). Qed.

Lemma forwardTCP_once env src dst isLocal ns :
  completions (forwardTCP env src dst isLocal ns).1.1 =
    (if (forwardTCP env src dst isLocal ns).1.2 then 1 else 0)%nat.
Proof.
  unfold forwardTCP. destruct (dials env dst) as [b|]; [|done].
  pose proof (getConnOrReset_once env) as Hg. destruct (getConnOrReset env) as [evs ok]. simpl in Hg.
  assert (completions (if ok then evs ++ [Splice dst; CloseConn] else evs) = 1%nat) as Hc
    by (destruct ok; [|done]; by rewrite completions_app, Hg).
  destruct isLocal; [|done]. by destruct (RegisterIPPortIdentity _ _ _ _).
Qed.

(** [acceptTCP] by the names above. *)
Lemma acceptTCP_eq env r ns :
  acceptTCP ord env r ns =
    if negb (IsValid (netaddrIPFromNetstackIP (RemoteAddress r))) then ([Complete true], ns)
    else
      let finish evs ns := (evs, if toTailscaleIP r then ns else removeSubnetAddress (dialIPOf r) ns) in
      let reject := if StealthDrop ns then [] else [Complete true] in
      if hitsService (dialIPOf r) && (LocalPort r =? 53) then finish [] ns
      else if srcRefused ns r then finish [] ns
      else
        match handlerOf ns r with
        | Some handler =>
            let '(evs, ok) := getConnOrReset env in
            if negb ok then finish evs ns
            else
              match mapGet (PasswordForPort ns) (LocalPort r) with
              | Some password =>
                  if encrypts env then finish (evs ++ [ServeConn handler (Some password)]) ns
                  else finish (evs ++ [CloseConn]) ns
              | None => finish (evs ++ [ServeConn handler None]) ns
              end
        | None =>
            if hitsService (dialIPOf r) then finish reject ns
            else if toTailscaleIP r then finish reject ns
            else
              let '(evs, handled, ns) := forwardTCP env (netaddrIPFromNetstackIP (RemoteAddress r))
                (mkAddrPort (dialIPOf r) (LocalPort r)) (isLocalIP ns (netaddrIPFromNetstackIP (LocalAddress r))) ns in
              finish (if handled then evs else evs ++ [Complete true]) ns
        end.
Proof. reflexivity. Qed.

#[local] Opaque hitsService dialIPOf toTailscaleIP srcRefused handlerOf removeSubnetAddress.

(** [acceptTCP] completes every request exactly once, so gVisor's panic on a second
    completion is unreachable, except for the requests it drops silently (DNS on the
    service address, a source outside the port's whitelist, and in stealth mode an
    unserved port of a Tailscale address), which it never completes. *)
Theorem acceptTCP_completes env r ns :
  completions (acceptTCP ord env r ns).1 = (if silentDrop ns r then 0 else 1)%nat.
Proof.
  unfold silentDrop. rewrite acceptTCP_eq.
  destruct (IsValid _); [|done]. cbn [negb andb].
  destruct (hitsService (dialIPOf r) && (LocalPort r =? 53)); [done|]. cbn [orb].
  destruct (srcRefused ns r); [done|]. cbn [orb].
  destruct (handlerOf ns r) as [h|].
  - rewrite bool_decide_eq_false_2 by done. cbn [andb].
    pose proof (getConnOrReset_once env) as Hg. destruct (getConnOrReset env) as [evs ok]. cbn [fst] in Hg.
    destruct ok; [|done]. cbn [negb].
    destruct (mapGet _ _); [destruct (encrypts env)|]; cbn [fst]; by rewrite completions_app, Hg.
  - rewrite bool_decide_eq_true_2 by done. cbn [andb].
    destruct (hitsService (dialIPOf r)); [by destruct (StealthDrop ns)|].
    destruct (toTailscaleIP r); [by destruct (StealthDrop ns)|]. rewrite andb_false_r.
    pose proof (forwardTCP_once env (netaddrIPFromNetstackIP (RemoteAddress r))
      (mkAddrPort (dialIPOf r) (LocalPort r)) (isLocalIP ns (netaddrIPFromNetstackIP (LocalAddress r))) ns) as Hf.
    destruct (forwardTCP _ _ _ _ _) as [[evs ok] ns']; cbn [fst snd] in *; destruct ok; [done|].
    by rewrite completions_app, Hf.
Qed.
End tcp.

(** ** The forwarder under a scan *)
Section scan.
Context {N : Type} `{NIC N} {F : Type} `{Forwarder F} {maxInFlight : Z} `{!ForwarderLaws F maxInFlight}.
Context (ord : gmap string BaseConfig → list (string * BaseConfig)).
Implicit Types (ns : Impl N) (f : F).

(** A request to a Tailscale address of this node that is dropped silently. *)
Definition quietProbe ns (id : TransportEndpointID) : Prop :=
  (∃ ip, AddrFromSlice (LocalAddress id) = Some ip ∧ isLocalIP ns (Unmap ip) = true) ∧
  toTailscaleIP id = true ∧ silentDrop ord ns id = true.

Lemma quiet_accept env ns id : quietProbe ns id → acceptTCP ord env id ns = ([], ns).
Proof.
  intros (_ & Ht & Hs). unfold silentDrop in Hs. rewrite acceptTCP_eq, Ht. apply andb_true_iff in Hs as [-> Hs].
  cbn [negb]. apply orb_true_iff in Hs as [[->| ->]%orb_true_iff|Hs]; [done|by destruct (_ && _)|].
  apply andb_true_iff in Hs as [[Hh%bool_decide_eq_true ->]%andb_true_iff Hs].
  destruct (_ && (LocalPort id =? 53)); [done|]. destruct (srcRefused ns id); [done|]. rewrite Hh.
  destruct (hitsService _); done.
Qed.

Lemma quiet_offer env ns f id :
  quietProbe ns id →
  ∃ f' r, offerSYN ord env id (f, ns) = (r, (f', ns)) ∧
    inFlight f ⊆ inFlight f' ∧ (id ∈ inFlight f' ∨ maxInFlight ≤ Z.of_nat (size (inFlight f'))).
Proof using All.
  intros Hq. pose proof (quiet_accept env ns id Hq) as Ha. destruct Hq as ((ip & Hip & Hl) & _).
  unfold offerSYN, wrapTCPProtocolHandler. cbn [fst snd]. rewrite Hip. cbn. rewrite Hl.
  destruct (HandlePacket id f) as [f'|] eqn:Hf.
  - rewrite Ha. exists f', (Some []). split; [done|].
    destruct (handle_some _ _ _ Hf) as (_ & _ & ->). split; [set_solver|left; set_solver].
  - exists f, None. split; [done|]. split; [done|]. by apply handle_none.
Qed.

Definition scan (env : TCPEnv) (ids : list TransportEndpointID) (st : F * Impl N) : F * Impl N :=
  foldl (λ st id, (offerSYN ord env id st).2) st ids.

Lemma quiet_scan env ns ids f :
  Forall (quietProbe ns) ids →
  ∃ f', scan env ids (f, ns) = (f', ns) ∧ inFlight f ⊆ inFlight f' ∧
    (maxInFlight ≤ Z.of_nat (size (inFlight f')) ∨ ∀ id, id ∈ ids → id ∈ inFlight f').
Proof using All.
  intros Hq. revert f. induction Hq as [|id ids Hid _ IH]; intros f.
  { exists f. split; [done|]. split; [done|]. right. intros id []%not_elem_of_nil. }
  destruct (quiet_offer env ns f id Hid) as (f1 & r & Ho & Hsub & Hin).
  destruct (IH f1) as (f' & Hs & Hsub' & Hc). exists f'. unfold scan in *. cbn [foldl]. rewrite Ho. cbn [snd].
  split; [done|]. split; [set_solver|].
  destruct Hc as [Hc|Hc]; [by left|]. destruct Hin as [Hin|Hin]; [right; set_solver|].
  left. apply subseteq_size in Hsub'. lia.
Qed.

(** The silent drops of [acceptTCP] keep their slot in gVisor's forwarder for ever:
    after as many different SYNs to ports that this node drops silently as requests may
    be in flight, no further SYN reaches [acceptTCP], those to served ports included. *)
Theorem scan_exhausts_forwarder env ns ids f :
  NoDup ids → maxInFlight ≤ Z.of_nat (length ids) → Forall (quietProbe ns) ids →
  ∀ env' id, (offerSYN ord env' id (scan env ids (f, ns))).1 = None.
Proof using All.
  intros Hnd Hlen Hq env' id. destruct (quiet_scan env ns ids f Hq) as (f' & -> & _ & Hc).
  assert (maxInFlight ≤ Z.of_nat (size (inFlight f'))) as Hfull.
  { destruct Hc as [|Hin]; [done|].
    assert (list_to_set ids ⊆ inFlight f') as Hs%subseteq_size by set_solver.
    rewrite size_list_to_set in Hs by done. lia. }
  unfold offerSYN. cbn [fst snd]. destruct (wrapTCPProtocolHandler id ns) as [ns'|]; [|done].
  destruct (HandlePacket id f') as [f2|] eqn:Hh; [|done].
  destruct (handle_some _ _ _ Hh) as (_ & Hlt & _). lia.
Qed.
End scan.

(** ** A concrete interface and forwarder *)
#[export] Instance listNIC : NIC (list (bytes * Z)) := {|
  AllAddresses n := n;
  AddProtocolAddress a len n := if decide (a ∈ n.*1) then n else (a, len) :: n;
  RemoveAddress a n := filter (λ x, x.1 ≠ a) n
|}.
#[export] Instance listNIC_laws : NICLaws (list (bytes * Z)).
Proof.
  split.
  - intros n a len x. simpl. case_decide as Hd.
    + apply list_elem_of_fmap in Hd as ([a' l] & -> & Hd). naive_solver.
    + rewrite elem_of_cons. assert (∀ l, (a, l) ∉ n) as Hn
        by (intros l Hl; apply Hd, list_elem_of_fmap; by exists (a, l)).
      naive_solver.
  - intros n a x. simpl. rewrite list_elem_of_filter. naive_solver.
Qed.

Definition setForwarder (m : Z) : Forwarder (gset TransportEndpointID) := {|
  inFlight f := f;
  HandlePacket id f := if decide (id ∈ f ∨ m ≤ Z.of_nat (size f)) then None else Some ({[id]} ∪ f);
  CompleteRequest id f := f ∖ {[id]}
|}.
Lemma setForwarder_laws m : @ForwarderLaws _ (setForwarder m) m.
Proof.
  split; simpl.
  - intros f id f'. case_decide as Hd; [done|]. intros [= <-]. split; [tauto|]. split; [lia|done].
  - intros f id. by case_decide.
  - done.
Qed.

(** A stealthy node at 100.64.0.9 that is scanned from 100.64.0.2. *)
Definition exNS : Impl (list (bytes * Z)) :=
  mkImpl true true None None None true true true false (λ ip, bool_decide (ip = IPv4 100 64 0 9)) None ∅ ∅ [].
Definition exTEI (port : Z) : TransportEndpointID := mkTEI port [100; 64; 0; 9] 40000 [100; 64; 0; 2].
Definition exEnv : TCPEnv := mkTCPEnv true true (λ _, None).

Lemma scan_exhausts_forwarder_witness :
  (@offerSYN _ _ _ (setForwarder 2) map_to_list exEnv (exTEI 80)
    (@scan _ _ _ (setForwarder 2) map_to_list exEnv [exTEI 1; exTEI 2] (∅, exNS))).1 = None.
Proof.
  apply (@scan_exhausts_forwarder _ _ _ (setForwarder 2) 2 (setForwarder_laws 2)).
  - apply (bool_decide_unpack _). reflexivity.
  - reflexivity.
  - repeat constructor; try (eexists; split; reflexivity); reflexivity.
Defined.

(** ** The addresses of the interface *)
Section nic.
Context {N : Type} `{NIC N} `{!NICLaws N}.
Implicit Types (ns : Impl N) (n : N).

(** An address is registered, under some prefix length. *)
Definition registered n (a : bytes) : Prop := a ∈ (AllAddresses n).*1.

Lemma registered_alt n a : registered n a ↔ ∃ l, (a, l) ∈ AllAddresses n.
Proof.
  unfold registered. rewrite list_elem_of_fmap. split.
  - intros ([a' l] & -> & Hin). eauto.
  - intros [l Hl]. by exists (a, l).
Qed.

Lemma registered_add n a len x : registered (AddProtocolAddress a len n) x ↔ registered n x ∨ x = a.
Proof using Type*.
  rewrite !registered_alt. setoid_rewrite all_add. split; [naive_solver|].
  intros [[l Hl]| ->]; [eauto|]. destruct (decide (a ∈ (AllAddresses n).*1)) as [Hin|Hin].
  - apply registered_alt in Hin as [l Hl]. eauto.
  - exists len. right. split; [done|]. intros l Hl. apply Hin, registered_alt. eauto.
Qed.

Lemma registered_remove n a x : registered (RemoveAddress a n) x ↔ registered n x ∧ x ≠ a.
Proof using Type*. rewrite !registered_alt. setoid_rewrite all_remove. naive_solver. Qed.

Lemma registered_removes ps n x :
  registered (foldl removePrefix n ps) x ↔ registered n x ∧ ∀ p, p ∈ ps → x ≠ AsSlice (pfx_ip p).
Proof using Type*.
  revert n. induction ps as [|p ps IH]; intros n; cbn [foldl].
  { split; [|tauto]. intros Hx. split; [done|]. intros p []%not_elem_of_nil. }
  rewrite IH. unfold removePrefix. rewrite registered_remove. setoid_rewrite elem_of_cons. naive_solver.
Qed.

Lemma registered_adds ps n x :
  registered (foldl addPrefix n ps) x ↔
    registered n x ∨ ∃ p, p ∈ ps ∧ PfxValid p = true ∧ x = AsSlice (pfx_ip p).
Proof using Type*.
  revert n. induction ps as [|p ps IH]; intros n; cbn [foldl].
  { split; [tauto|]. intros [|(p & []%not_elem_of_nil & _)]; done. }
  rewrite IH. unfold addPrefix. setoid_rewrite elem_of_cons.
  destruct (PfxValid p) eqn:Hv; [rewrite registered_add|]; split.
  - intros [[?| ->]|(p' & ? & ?)]; eauto 6.
  - intros [?|(p' & [->|?] & ? & ->)]; eauto 6.
  - intros [?|(p' & ? & ?)]; eauto 6.
  - intros [?|(p' & [->|?] & ? & ->)]; [eauto 6|congruence|eauto 6].
Qed.

(** The interface as gVisor keeps it: addresses of four or sixteen bytes, each registered
    once, and no IPv4-mapped ones. *)
Record nicOK n : Prop := mkNicOK {
  nic_once a l1 l2 : (a, l1) ∈ AllAddresses n → (a, l2) ∈ AllAddresses n → l1 = l2;
  nic_canon a : registered n a → AsSlice (netaddrIPFromNetstackIP a) = a
}.

(** A registration that an update leaves alone whatever the network map says: the
    broadcast address, and the addresses with an entry in the reference counts. *)
Definition heldPrefixes ns : gset Prefix :=
  set_map (λ ip, PrefixFrom ip (BitLen ip)) (dom (connsOpenBySubnetIP ns)).
Definition keptEntry ns (x : bytes * Z) : Prop :=
  (netaddrIPFromNetstackIP x.1 = v4broadcast ∧ x.2 = 32) ∨ PrefixFrom (netaddrIPFromNetstackIP x.1) x.2 ∈ heldPrefixes ns.

Lemma netaddr_zone a : withoutZone (netaddrIPFromNetstackIP a) = netaddrIPFromNetstackIP a.
Proof.
  unfold netaddrIPFromNetstackIP, AddrFrom4, AddrFrom16. repeat case_decide; try done.
  unfold Unmap. by destruct (Is4In6 _).
Qed.

Lemma elem_of_oldPrefixes n p :
  p ∈ oldPrefixes n ↔ ∃ a l, (a, l) ∈ AllAddresses n ∧ p = PrefixFrom (netaddrIPFromNetstackIP a) l ∧
    ¬ (netaddrIPFromNetstackIP a = v4broadcast ∧ l = 32).
Proof.
  unfold oldPrefixes. rewrite elem_of_list_to_set, list_elem_of_omap. split.
  - intros ([a l] & Hin & Hp). exists a, l. cbn [fst snd] in Hp.
    destruct (Z.eqb_spec l 32); case_bool_decide; cbn [andb] in Hp; naive_solver.
  - intros (a & l & Hin & -> & Hn). exists (a, l). split; [done|]. cbn [fst snd].
    destruct (Z.eqb_spec l 32); case_bool_decide; cbn [andb]; naive_solver.
Qed.

(** The prefix of an entry stands for its address. *)
Lemma entry_prefix n a l :
  nicOK n → (a, l) ∈ AllAddresses n → AsSlice (pfx_ip (PrefixFrom (netaddrIPFromNetstackIP a) l)) = a.
Proof.
  intros [_ Hc] Hin. cbn [PrefixFrom pfx_ip]. rewrite netaddr_zone. apply Hc, registered_alt. eauto.
Qed.

Section update.
Context (bart : list Prefix → Addr → bool) (pord : gset Prefix → list Prefix).
Context (Hpord : ∀ X p, p ∈ pord X ↔ p ∈ X).

(** An entry survives the removals if it is kept or wanted. *)
Lemma entry_survives ns nm a l :
  nicOK (ipstack ns) → (a, l) ∈ AllAddresses (ipstack ns) →
  keptEntry ns (a, l) ∨ PrefixFrom (netaddrIPFromNetstackIP a) l ∈ newPrefixes ns nm →
  registered (ipstack (UpdateNetstackIPs bart pord nm ns)) a.
Proof using Type*.
  intros Hok Hin Hk. unfold UpdateNetstackIPs. cbn [ipstack setConns]. fold (heldPrefixes ns).
  apply registered_adds. left. apply registered_removes. split; [apply registered_alt; eauto|].
  intros p Hp%Hpord Ha. apply elem_of_difference in Hp as [[Hold Hnew]%elem_of_difference Hheld].
  apply elem_of_oldPrefixes in Hold as (a' & l' & Hin' & -> & Hb).
  rewrite (entry_prefix _ _ _ Hok Hin') in Ha. subst a'. rewrite <- (nic_once _ Hok _ _ _ Hin Hin') in *.
  destruct Hk as [[?|?]|?]; naive_solver.
Qed.

(** After an update exactly the addresses of the self node (and its allowed IPs, for a
    subnet router) are registered, besides the broadcast address and the addresses with an
    entry in the reference counts that were registered before. *)
Theorem UpdateNetstackIPs_spec ns nm x :
  nicOK (ipstack ns) → (∀ p, p ∈ newPrefixes ns nm → PfxValid p = true) →
  registered (ipstack (UpdateNetstackIPs bart pord nm ns)) x ↔
    (∃ p, p ∈ newPrefixes ns nm ∧ x = AsSlice (pfx_ip p)) ∨
    (∃ l, (x, l) ∈ AllAddresses (ipstack ns) ∧ keptEntry ns (x, l)).
Proof using Type*.
  intros Hok Hval. split.
  - unfold UpdateNetstackIPs. cbn [ipstack setConns]. fold (heldPrefixes ns).
    intros [[[l Hl]%registered_alt Hrem]%registered_removes|(p & Hp%Hpord & _ & ->)]%registered_adds.
    2: { apply elem_of_difference in Hp as [Hp _]. eauto. }
    set (p := PrefixFrom (netaddrIPFromNetstackIP x) l).
    destruct (decide (netaddrIPFromNetstackIP x = v4broadcast ∧ l = 32)) as [Hb|Hb].
    { right. exists l. split; [done|]. by left. }
    destruct (decide (p ∈ heldPrefixes ns)) as [Hh|Hh]; [right; exists l; split; [done|by right]|].
    destruct (decide (p ∈ newPrefixes ns nm)) as [Hn|Hn].
    { left. exists p. split; [done|]. symmetry. by apply (entry_prefix (ipstack ns)). }
    destruct (Hrem p); [|symmetry; by apply (entry_prefix (ipstack ns))].
    apply Hpord, elem_of_difference. split; [|done]. apply elem_of_difference. split; [|done].
    apply elem_of_oldPrefixes. eauto.
  - intros [(p & Hp & ->)|(l & Hl & Hk)]; [|by eapply entry_survives; eauto].
    destruct (decide (p ∈ oldPrefixes (ipstack ns))) as [Ho|Ho].
    + apply elem_of_oldPrefixes in Ho as (a & l & Hin & -> & _). rewrite (entry_prefix _ _ _ Hok Hin).
      eapply entry_survives; eauto.
    + unfold UpdateNetstackIPs. cbn [ipstack setConns]. apply registered_adds. right. exists p.
      split; [apply Hpord; set_solver|]. auto.
Qed.

(** A UDP session to an address of this node ends with a release of an address that
    was never acquired: its reference count becomes -1, and from then on the address stays
    registered on the interface whatever network map arrives, even one that has given the
    node other addresses. *)
Theorem udp_session_pins_address ListenUDP client dst ns f ns1 nm :
  nicOK (ipstack ns) → isLocalIP ns (ap_addr dst) = true → connsOpen ns (ap_addr dst) = 0 →
  netaddrIPFromNetstackIP (AsSlice (ap_addr dst)) = ap_addr dst →
  (AsSlice (ap_addr dst), BitLen (ap_addr dst)) ∈ AllAddresses (ipstack ns) →
  forwardUDP ListenUDP client dst ns = (Some f, ns1) →
  let ns2 := flowDone f (flowTimeout f ns1) in
  connsOpen ns2 (ap_addr dst) = -1 ∧
  registered (ipstack (UpdateNetstackIPs bart pord nm ns2)) (AsSlice (ap_addr dst)).
Proof using Type*.
  intros Hok Hl H0 Hcan Hin Hf. cbn zeta.
  assert (routeLocal (flowRoute f) = true ∧ routeDst (flowRoute f) = dst ∧
    connsOpenBySubnetIP ns1 = connsOpenBySubnetIP ns ∧ ipstack ns1 = ipstack ns) as (Hr & Hd & Hc & Hs).
  { unfold forwardUDP, udpRoute in Hf. rewrite Hl in Hf. destruct (srcAllowed _ _ _); [|done]. cbn [negb] in Hf.
    destruct (mapGet (ServeTargets ns) _); cbn [routeLocal backendListen] in Hf.
    all: destruct (match ListenUDP _ with Some _ => _ | None => _ end); [|done].
    all: destruct (RegisterIPPortIdentity _ _ _ _); [|done]; injection Hf as <- <-; done. }
  unfold flowDone, flowTimeout. rewrite Hr, Hd.
  set (ns1' := setPM _ ns1). set (ip := ap_addr dst) in *.
  assert (removeSubnetAddress ip ns1' = setConns (<[ip := -1]> (connsOpenBySubnetIP ns)) (ipstack ns) ns1') as ->.
  { unfold removeSubnetAddress. change (connsOpen ns1' ip) with (connsOpen ns1 ip).
    change (connsOpenBySubnetIP ns1') with (connsOpenBySubnetIP ns1). unfold connsOpen in *.
    rewrite Hc, H0. cbn [Z.eqb Z.sub Z.add Z.opp Pos.eqb]. by rewrite <- Hs. }
  split. { unfold connsOpen. cbn [connsOpenBySubnetIP setConns]. by rewrite lookup_insert_eq. }
  apply entry_survives with (l := BitLen ip); [done|done|]. left. right. cbn [fst snd]. rewrite Hcan.
  unfold heldPrefixes. cbn [connsOpenBySubnetIP setConns]. set_solver.
Qed.
End update.
End nic.

(** The node at 100.64.0.9, and a network map that moves it to 100.64.0.10. *)
Definition exLocal : Impl (list (bytes * Z)) :=
  mkImpl true true None None None true true true false (λ ip, bool_decide (ip = IPv4 100 64 0 9)) None ∅ ∅
    [([100; 64; 0; 9], 32)].
Definition exMoved : NetMapSelf := Some (Some ([PrefixFrom (IPv4 100 64 0 10) 32], [])).

Lemma exLocal_ok : nicOK (ipstack exLocal).
Proof.
  split.
  - intros a l1 l2 H1%list_elem_of_singleton H2%list_elem_of_singleton. congruence.
  - intros a Ha%list_elem_of_singleton. subst a. reflexivity.
Qed.

Lemma exMoved_prefix p : p ∈ newPrefixes exLocal exMoved ↔ p = PrefixFrom (IPv4 100 64 0 10) 32.
Proof. unfold newPrefixes. cbn. set_solver. Qed.

Lemma UpdateNetstackIPs_spec_witness :
  ¬ registered (ipstack (UpdateNetstackIPs (λ _ _, false) elements exMoved exLocal)) [100; 64; 0; 9].
Proof.
  intros Hr. apply (UpdateNetstackIPs_spec (λ _ _, false) elements) in Hr.
  - destruct Hr as [(p & Hp & Hx)|(l & Hl & [[Hb _]|Hk])].
    + apply exMoved_prefix in Hp. rewrite Hp in Hx. discriminate Hx.
    + discriminate Hb.
    + unfold heldPrefixes in Hk. apply elem_of_map in Hk as (ip & _ & Hip). exact (not_elem_of_empty _ Hip).
  - intros X p. apply elem_of_elements.
  - apply exLocal_ok.
  - intros p ->%exMoved_prefix. reflexivity.
Defined.

Definition exClient : AddrPort := mkAddrPort (IPv4 100 64 0 2) 40000.
Definition exDst : AddrPort := mkAddrPort (IPv4 100 64 0 9) 5353.

Lemma udp_session_pins_address_witness :
  ∃ f ns1, forwardUDP (λ a, Some (ap_port a)) exClient exDst exLocal = (Some f, ns1) ∧
    registered (ipstack (UpdateNetstackIPs (λ _ _, false) elements exMoved (flowDone f (flowTimeout f ns1))))
      [100; 64; 0; 9].
Proof.
  eexists _, _. split; [reflexivity|].
  refine (proj2 (udp_session_pins_address (λ _ _, false) elements _ (λ a, Some (ap_port a)) exClient exDst exLocal
    _ _ exMoved _ _ _ _ _ _)).
  - intros X p. apply elem_of_elements.
  - apply exLocal_ok.
  - reflexivity.
  - reflexivity.
  - reflexivity.
  - apply list_elem_of_singleton. reflexivity.
  - reflexivity.
Defined.
