(* ===== verification/InboundThms.v ===== *)
(** * Safety of the inbound hook

    [injectInbound] on any packet that the tunnel delivers: it never panics, it answers
    no ping in stealth mode, and it hands to the stack exactly the packets for it. *)

From stdpp Require Import base gmap sets list strings.
From S2P Require Import Prelude GoStd Bytes NetIP TSAddr Packet PacketThms Headers Filter Serve Netstack.

(** ** Marshalling never panics *)

(** A result that is an error or a buffer of length [n]. *)
Definition keeps (n : Z) (r : res HdrErr bytes) : Prop :=
  match r with Ok b => zlen b = n | Err _ => True | Panic => False end.

Lemma put_keeps (b : bytes) i s : 0 ≤ i → i + zlen s ≤ zlen b → keeps (zlen b) (put b i s).
Proof.
  intros Hi Hs. unfold put. rewrite decide_True by done. simpl. unfold zlen in *.
  rewrite !length_app, length_take, length_drop. lia.
Qed.
Lemma put_be_keeps n (b : bytes) i v : 0 ≤ i → i + Z.of_nat n ≤ zlen b → keeps (zlen b) (put_be n b i v).
Proof. intros Hi Hn. apply put_keeps; [done|]. unfold zlen. by rewrite be_bytes_length. Qed.

Lemma bind_keeps n m (r : res HdrErr bytes) f :
  keeps n r → (∀ b, zlen b = n → keeps m (f b)) → keeps m (r ≫= f).
Proof. destruct r; simpl; auto. Qed.

Lemma ignoreErr_keeps (b : bytes) r : keeps (zlen b) r → keeps (zlen b) (ignoreErr b r).
Proof. by destruct r. Qed.

Lemma ignoreErr_ok (b : bytes) r n : zlen b = n → keeps n r → ∃ b', ignoreErr b r = Ok b' ∧ zlen b' = n.
Proof. destruct r; simpl; naive_solver. Qed.

Create HintDb keeps.
#[export] Hint Resolve put_keeps put_be_keeps ignoreErr_keeps : keeps.

(** One write of a marshalling function into a buffer of known length. *)
Ltac keeps_step :=
  match goal with
  | |- keeps ?m (?r ≫= _) =>
      apply (bind_keeps m); [|let b := fresh "b" in let Hb := fresh "Hb" in intros b Hb]
  end.
Ltac keeps_put :=
  match goal with
  | H : zlen ?b = ?n |- keeps ?n (put ?b _ _) => rewrite <- H; apply put_keeps; rewrite ?H, ?zlen_cons, ?@zlen_nil; lia
  | H : zlen ?b = ?n |- keeps ?n (put_be _ ?b _ _) => rewrite <- H; apply put_be_keeps; rewrite ?H; lia
  end.

Lemma ip4Marshal_keeps h (buf : bytes) n : zlen buf = n → keeps n (ip4Marshal h buf).
Proof.
  intros Hn. unfold ip4Marshal. destruct (zlen buf <? ip4HeaderLength) eqn:H1; [done|].
  apply Z.ltb_ge in H1. unfold ip4HeaderLength in H1. rewrite Hn in H1.
  destruct (maxPacketLength <? zlen buf); [done|].
  destruct (IP4Src h) as [|s|]; [done| |done]. destruct (IP4Dst h) as [|d|]; [done| |done]. cbn [negb orb Is4].
  do 6 (keeps_step; [keeps_put|]). unfold As4. cbn [Unmap]. rewrite !bind_ret.
  assert (∀ v, zlen (be_bytes 4 v) = 4) as H4 by (intros; unfold zlen; by rewrite be_bytes_length).
  do 2 (keeps_step; [match goal with H : zlen ?b = n |- keeps n (put ?b _ _) =>
    rewrite <- H; apply put_keeps; rewrite ?H4, ?H; lia end|]).
  match goal with |- keeps _ (slice ?b _ _ ≫= _) =>
    destruct (slice_ok (E := HdrErr) b 0 20) as (x & -> & _); [lia|lia|] end.
  rewrite bind_ret. keeps_put.
Qed.

Lemma ip6Marshal_keeps h (buf : bytes) n : zlen buf = n → keeps n (ip6Marshal h buf).
Proof.
  intros Hn. unfold ip6Marshal. destruct (zlen buf <? ip6HeaderLength) eqn:H1; [done|].
  apply Z.ltb_ge in H1. unfold ip6HeaderLength in *. rewrite Hn in H1.
  destruct (maxPacketLength <? zlen buf); [done|].
  do 4 (keeps_step; [keeps_put|]).
  keeps_step; match goal with H : zlen ?b = n |- keeps n (put ?b _ _) =>
    rewrite <- H; apply put_keeps; rewrite ?As16_zlen, ?H; lia end.
Qed.

Lemma icmp4_generates h payload : ∃ pong, Generate (icmp4ToResponse h) payload = Ok pong.
Proof.
  unfold Generate. cbn [HLen Marshal WriteChecksum ICMP4Header_Header].
  set (buf := replicate _ 0 ++ payload).
  destruct (ignoreErr_ok buf (icmp4Marshal (icmp4ToResponse h) buf) (zlen buf)) as (b & -> & _); [done| |by eexists].
  unfold icmp4Marshal. destruct (zlen buf <? icmp4Len) eqn:H1; [done|]. apply Z.ltb_ge in H1.
  change icmp4Len with 24 in H1. destruct (maxPacketLength <? zlen buf); [done|].
  remember (zlen buf) as n eqn:Hn. symmetry in Hn.
  keeps_step; [keeps_put|]. keeps_step.
  { rewrite <- Hb at 1. apply ignoreErr_keeps. rewrite Hb. by apply ip4Marshal_keeps. }
  keeps_put.
Qed.

Lemma icmp6Checksum_total hd s d pl : zlen hd = 4 → ∃ x, icmp6Checksum hd s d pl = Ok x.
Proof.
  intros Hh. unfold icmp6Checksum. destruct hd as [|a [|b [|c [|e [|]]]]]; unfold zlen in Hh; cbn [length] in Hh; try lia. cbn [take].
  change (@put HdrErr (replicate 4 0) 0 [a; b; c; e]) with (@Ok HdrErr bytes [a; b; c; e]). rewrite bind_ret.
  change (@put HdrErr [a; b; c; e] 2 [0; 0]) with (@Ok HdrErr bytes [a; b; 0; 0]). rewrite bind_ret. by eexists.
Qed.

Lemma icmp6_generates h payload : ∃ pong, Generate (icmp6ToResponse h) payload = Ok pong.
Proof.
  unfold Generate. cbn [HLen Marshal WriteChecksum ICMP6Header_Header].
  set (buf := replicate _ 0 ++ payload).
  assert (44 ≤ zlen buf) as Hlen.
  { unfold buf. rewrite zlen_app. pose proof (zlen_nonneg payload). unfold zlen at 1. rewrite length_replicate.
    change (Z.of_nat (Z.to_nat icmp6Len)) with 44. lia. }
  destruct (ignoreErr_ok buf (icmp6Marshal (icmp6ToResponse h) buf) (zlen buf)) as (b & -> & Hb); [done| |].
  - unfold icmp6Marshal. destruct (zlen buf <? icmp6Len); [done|]. destruct (maxPacketLength <? zlen buf); [done|].
    remember (zlen buf) as n eqn:Hn. symmetry in Hn. keeps_step.
    { rewrite <- Hn at 1. apply ignoreErr_keeps. rewrite Hn. by apply ip6Marshal_keeps. }
    keeps_put.
  - rewrite bind_ret. unfold icmp6WriteChecksum. change icmp6Len with 44. change ip6HeaderLength with 40.
    destruct (slice_ok (E := HdrErr) b 40 44) as (hd & -> & Hhd & _); [lia|lia|]. rewrite bind_ret.
    destruct (slice_from_ok (E := HdrErr) b 44) as (pl & -> & _); [lia|]. rewrite bind_ret.
    destruct (icmp6Checksum_total hd (As16 (IP6Src (ICMP6IP (icmp6ToResponse h))))
      (As16 (IP6Dst (ICMP6IP (icmp6ToResponse h)))) pl Hhd) as (x & ->). rewrite bind_ret.
    pose proof (put_be_keeps 2 b (40 + 2) x ltac:(lia) ltac:(lia)) as Hk.
    destruct (put_be 2 b (40 + 2) x) as [b'|e|] eqn:E; [by eexists| |done].
    unfold put_be, put in E. by case_decide.
Qed.

(** ** Packets of the tunnel *)

(** What the tunnel hands to the hook: a decoded buffer that ends with its packet. *)
Record Delivered (b : bytes) (p : Parsed) : Prop := mkDelivered {
  dl_bytes : bytes_ok b;
  dl_decoded : Decoded b p;
  dl_dataofs : 0 ≤ dataofs p;
  dl_whole : IPProto p ≠ Unknown → plength p = zlen b
}.

Lemma Payload_whole b p : Delivered b p → IPProto p ≠ Unknown → ∃ s, Payload p = Ok s.
Proof.
  intros [_ [Hbuf _ _ _ _] Hd Hw] Hn. unfold Payload. rewrite Hbuf, (Hw Hn), Z.ltb_irrefl. cbn [orb].
  destruct (Z.ltb_spec (zlen b) (dataofs p)); [by eexists|].
  destruct (slice_ok (E := unit) b (dataofs p) (zlen b)) as (s & -> & _); [lia|lia|by eexists].
Qed.

Lemma echo_facts b p : Decoded b p → IsEchoRequest p = Ok true → IPProto p ≠ Unknown ∧ subofs p + 8 ≤ zlen b.
Proof.
  intros Hd H. unfold IsEchoRequest, isEcho in H. rewrite (d_buf _ _ Hd) in H.
  destruct ((IPProto p =? ICMPv4) || (IPProto p =? ICMPv6)) eqn:Hp; [|done].
  destruct (Z.ltb_spec (zlen b) (subofs p + 8)); [done|]. split; [|lia].
  intros Hu. by rewrite Hu in Hp.
Qed.

Lemma pong_total b p : Delivered b p → IsEchoRequest p = Ok true → ∃ pong, pongOf p = Ok pong.
Proof.
  intros HD He. pose proof (dl_decoded _ _ HD) as Hd. destruct (echo_facts b p Hd He) as [Hn Hlen].
  destruct (Payload_whole b p HD Hn) as [s Hs]. destruct (d_offsets _ _ Hd Hn) as [Hso _].
  destruct (idx_ok (E := HdrErr) b (subofs p)) as (ty & Hty & _); [lia|].
  destruct (idx_ok (E := HdrErr) b (subofs p + 1)) as (co & Hco & _); [lia|].
  destruct (d_family _ _ Hd Hn) as [H4 H6].
  assert (IPVersion p = 4 ∨ IPVersion p = 6) as Hv.
  { destruct (d_version _ _ Hd) as [H0|]; [|done]. by destruct Hn; apply (d_known _ _ Hd). }
  unfold pongOf. destruct Hv as [Hv|Hv].
  - destruct (H4 Hv) as [_ ->]. unfold pICMP4Header, pIP4Header. rewrite Hv, (d_buf _ _ Hd). cbn [Z.eqb Pos.eqb].
    destruct (get_be_ok (E := HdrErr) 2 b 4) as (id & -> & _); [apply HD|lia|lia|].
    rewrite !bind_ret, Hty, !bind_ret, Hco, !bind_ret, Hs. cbn [liftPkt]. rewrite bind_ret. apply icmp4_generates.
  - destruct (H6 Hv) as [_ [H6' _]]. assert (Is4 (ap_addr (Dst p)) = false) as -> by (by destruct (ap_addr (Dst p))).
    rewrite H6'. unfold pICMP6Header, pIP6Header. rewrite Hv, (d_buf _ _ Hd). cbn [Z.eqb Pos.eqb].
    destruct (get_be_ok (E := HdrErr) 4 b 0) as (id & -> & _); [apply HD|lia|lia|].
    rewrite !bind_ret, Hty, !bind_ret, Hco, !bind_ret, Hs. cbn [liftPkt]. rewrite bind_ret. apply icmp6_generates.
Qed.

#[local] Opaque Contains IsTailscaleIP UnmapVia viaRange isEcho.

(** The inbound hook never panics on a packet of the tunnel. It lets the host have
    exactly the packets that netstack does not process; in stealth mode an echo request
    is dropped without an effect; a ping is relayed only for an echo request, to the IPv4
    address behind a via address or, for a subnet router, to an address outside
    Tailscale's ranges. *)
Theorem injectInbound_safe {N} (ns : Impl N) b q p :
  bytes_ok b → 0 ≤ subofs q → 0 ≤ dataofs q → Decode b q = Ok p → (IPProto p ≠ Unknown → plength p = zlen b) →
  ∃ v a, injectInbound p ns = Ok (v, a) ∧ (v = Accept ∨ v = DropSilently) ∧
    (v = Accept ↔ ready ns = true ∧ ctxDone ns = false ∧ shouldProcessInbound ns p = false) ∧
    (v = Accept → a = InNothing) ∧
    (DropICMP ns = true → IsEchoRequest p = Ok true → a = InNothing) ∧
    (∀ ip pong, a = InPing ip pong → IsEchoRequest p = Ok true ∧ DropICMP ns = false ∧
      (if Contains viaRange (ap_addr (Dst p)) then ip = UnmapVia (ap_addr (Dst p))
       else ip = ap_addr (Dst p) ∧ ProcessSubnets ns = true ∧ IsTailscaleIP ip = false)).
Proof.
  intros Hb Hs Hd HD Hw. destruct (Decode_decoded b q Hb) as (p' & HD' & Hdec). rewrite HD in HD'. injection HD' as <-.
  assert (Delivered b p) as HDel by (split; [done..|by eapply (Decode_dataofs b q)|done]).
  unfold injectInbound. destruct (ready ns); cbn [negb orb]; [|by do 2 eexists; split_and!; try naive_solver].
  destruct (ctxDone ns); cbn [negb orb]; [by do 2 eexists; split_and!; try naive_solver|].
  destruct (shouldProcessInbound ns p); cbn [negb]; [|by do 2 eexists; split_and!; try naive_solver].
  destruct (isEcho_total b p ICMP4EchoRequest ICMP6EchoRequest Hdec) as [e He]. fold IsEchoRequest in He.
  unfold shouldHandlePing. rewrite He. cbn [liftPkt]. rewrite !bind_ret.
  destruct e; cbn [negb].
  2: { destruct (DropICMP ns); rewrite !bind_ret; by do 2 eexists; split_and!; try naive_solver. }
  destruct (DropICMP ns); rewrite !bind_ret; [by do 2 eexists; split_and!; try naive_solver|].
  destruct (pong_total b p HDel He) as [pong Hpong].
  destruct (Contains viaRange _) eqn:Hv; rewrite ?Hpong, ?bind_ret; [by do 2 eexists; split_and!; try naive_solver|].
  destruct (ProcessSubnets ns) eqn:Hps; cbn [negb]; [|by do 2 eexists; split_and!; try naive_solver].
  destruct (IsTailscaleIP _) eqn:Ht; rewrite ?Hpong, ?bind_ret; by do 2 eexists; split_and!; try naive_solver.
Qed.

(** An echo request from 100.64.0.2 to 10.0.0.7, behind this subnet router. *)
Definition exEcho : bytes :=
  [0x45; 0; 0; 28; 0; 1; 0; 0; 64; 1; 0; 0; 100; 64; 0; 2; 10; 0; 0; 7; 8; 0; 0; 0; 0; 1; 0; 1].
Definition exEchoParsed : Parsed :=
  Eval vm_compute in match Decode exEcho zeroParsed with Ok q => q | _ => zeroParsed end.
Definition exRouter (stealth : bool) : Impl () :=
  mkImpl true true None None None stealth stealth true false (λ _, false) None ∅ ∅ tt.

Lemma injectInbound_safe_witness :
  ∃ v, injectInbound exEchoParsed (exRouter true) = Ok (v, InNothing) ∧ v ≠ Accept.
Proof.
  destruct (injectInbound_safe (exRouter true) exEcho zeroParsed exEchoParsed) as (v & a & H1 & _ & H2 & _ & H3 & _).
  - apply (bool_decide_unpack _). reflexivity.
  - reflexivity.
  - reflexivity.
  - reflexivity.
  - reflexivity.
  - rewrite (H3 eq_refl eq_refl) in H1. exists v. split; [exact H1|].
    intros Hv. apply H2 in Hv as (_ & _ & Hv). discriminate Hv.
Defined.
