(* ===== verification/Tunnel.v ===== *)
(** * Running a tunnel group

    src/cmd/tunnneji-tail/cli/tunnel.go and engine.go: how [runTunnel] configures
    netstack and the serve configuration from a group, the retries of SetServeConfig, the
    client side TCP connections ([handleConn]), and the UDP sessions of a client port
    ([handleUDP] with [udpRemoteToLocal]) as a step relation on the shared session table.

    net.LookupHost is the argument [lookupHost]; the iteration order over the ports of a
    group is the argument [porder]. *)

From stdpp Require Import base gmap sets list strings.
From S2P Require Import Prelude GoStd NetIP TSAddr CliFlags CliArgs Crypto Serve Netstack.

(** ** Server side configuration *)
Section run.
Context (lookupHost : string → option (list string)).
Context (porder : gmap string PortEntry → list (string * PortEntry)).

Section netstack.
Context {N : Type}.
Implicit Types ns : Impl N.

(** [netstack.Create] followed by the two assignments of [createUserspaceEngine]. *)
Definition createNetstack (nic : N) : Impl N :=
  mkImpl true true None None None false false false false FalseContainsIPFunc None ∅ ∅ nic.

Definition setPortMaps (a : gmap Z (list Prefix)) (p : gmap Z string) (t : gmap Z AddrPort) ns : Impl N :=
  mkImpl (ProcessLocalIPs ns) (ProcessSubnets ns) (Some a) (Some p) (Some t) (Netstack.DropICMP ns) (StealthDrop ns)
    (ready ns) (ctxDone ns) (isLocalIPFunc ns) (nsLB ns) (connsOpenBySubnetIP ns) (nsPM ns) (ipstack ns).
Definition setStealth (b : bool) ns : Impl N :=
  mkImpl (ProcessLocalIPs ns) (ProcessSubnets ns) (AllowedIPsForPort ns) (PasswordForPort ns) (ServeTargets ns) b b
    (ready ns) (ctxDone ns) (isLocalIPFunc ns) (nsLB ns) (connsOpenBySubnetIP ns) (nsPM ns) (ipstack ns).

(** The body of the loop over the ports. *)
Definition configurePort (ns : Impl N) (pe : PortEntry) : Impl N :=
  if negb (IsServer pe) then ns
  else
    let port := u16 (ListenPort pe) in
    let allowed := default ∅ (AllowedIPsForPort ns) in
    let allowed := if decide (0 < zlen (CliArgs.Accept pe)) then <[port := CliArgs.Accept pe]> allowed else allowed in
    let passwords := default ∅ (PasswordForPort ns) in
    let passwords := if decide (Password pe ≠ "") then <[port := Password pe]> passwords else passwords in
    let targets := default ∅ (ServeTargets ns) in
    let targets :=
      match ParseAddr (resolveHost lookupHost (TargetAddr pe)) with
      | Some hostIP => <[port := mkAddrPort hostIP (u16 (TargetPort pe))]> targets
      | None => targets
      end in
    setPortMaps allowed passwords targets ns.

Definition configureNetstack (group : TunnelGroup) (lb : LocalBackend) ns : res () (Impl N) :=
  let ns := foldl configurePort ns (porder (Ports group)).*2 in
  Start (Some lb) (setStealth (CliArgs.DropICMP group) ns).
End netstack.

(** ** The serve configuration *)
Definition forwardOf (pe : PortEntry) : TCPPortHandler :=
  mkTCPPortHandler false false (TargetAddr pe +:+ ":" +:+ Itoa (TargetPort pe)) "" 0.
Definition addServe (m : gmap Z TCPPortHandler) (pe : PortEntry) : gmap Z TCPPortHandler :=
  if negb (IsServer pe) then m else <[u16 (ListenPort pe) := forwardOf pe]> m.
Definition serveConfigOf (group : TunnelGroup) : ServeConfig :=
  mkServeConfig (mkBaseConfig (foldl addServe ∅ (porder (Ports group)).*2) ∅ ∅ ∅) ∅.

(** The goroutine that installs it: up to sixty attempts, [lbAt i] being the backend at the
    time of attempt [i], whose store can be written. The result is the attempt that
    succeeded and the backend then. *)
Definition serveAttempts : nat := 60.
Section attempts.
Context (ord : gmap string BaseConfig → list (string * BaseConfig)).
Context (sord : gmap string (list Z) → list (string * list Z)).
Context (etagOf : option ServeConfig → string).

Fixpoint installLoop (config : ServeConfig) (lbAt : nat → LocalBackend) (n i : nat) : option (nat * LocalBackend) :=
  match n with
  | O => None
  | S n =>
      match setServeConfigLocked ord sord etagOf true config "" (lbAt i) with
      | Ok (b, _) => Some (i, b)
      | _ => installLoop config lbAt n (S i)
      end
  end.
(** Nothing is installed for a group without server ports. *)
Definition installServe (group : TunnelGroup) (lbAt : nat → LocalBackend) : option (nat * LocalBackend) :=
  if decide (scTCP (serveConfigOf group) = ∅) then None
  else installLoop (serveConfigOf group) lbAt serveAttempts 0.
End attempts.
End run.

(** ** Names in the log *)
Definition label (sub : string) : string := if decide (sub = "") then "-" else sub.
Fixpoint digitsFrom (pre s : string) : string :=
  match s with
  | EmptyString => ""
  | String c s => if is_digit c then pre else digitsFrom (pre +:+ String c "") s
  end.
Definition portSub (portKey : string) : string :=
  match portKey with
  | EmptyString => ""
  | String _ s => digitsFrom "" s
  end.

(** ** Client side TCP

    What one local connection leads to. [RemoteAddr] is the address of the local peer when
    it is a TCP address; [dials] whether the dialer reaches the target. *)
Inductive ConnOutcome :=
  | Refused              (* closed at once: the source is not in the whitelist *)
  | DialFailed (target : string)
  | HandshakeFailed (target : string)
  | Spliced (target : string) (encrypted : option string).

Definition acceptsSource (accept : list Prefix) (srcIP : Addr) : bool :=
  bool_decide (zlen accept ≤ 0) || existsb (λ pfx, Contains pfx srcIP) accept.

Definition targetOf (lookupHost : string → option (list string)) (pe : PortEntry) : string :=
  resolveHost lookupHost (TargetAddr pe) +:+ ":" +:+ Itoa (TargetPort pe).

Definition handleConn (lookupHost : string → option (list string)) (UserDial : string → bool) (handshake : bool)
    (RemoteAddr : option Addr) (pe : PortEntry) : ConnOutcome :=
  if match RemoteAddr with Some srcIP => negb (acceptsSource (CliArgs.Accept pe) srcIP) | None => false end
  then Refused
  else
    let target := targetOf lookupHost pe in
    if negb (UserDial target) then DialFailed target
    else if decide (Password pe ≠ "") then
      if handshake then Spliced target (Some (Password pe)) else HandshakeFailed target
    else Spliced target None.

(** ** Client side UDP

    One client port: the goroutine of [handleUDP] reads local datagrams, and one goroutine
    of [udpRemoteToLocal] per session reads the answers; they share the table of sessions
    by the text of the local source address, under a lock. A step is what happens between
    two points at which another goroutine may run. *)
Inductive ReaderPhase := Reading | Leaving | ReaderUnlinked | ReaderGone.
#[export] Instance ReaderPhase_eq_dec : EqDecision ReaderPhase.
Proof. solve_decision. Defined.

Record udpSession := mkUdpSession { usLocal : string; usOpen : bool; usReader : ReaderPhase }.

(** Where the goroutine of [handleUDP] is: waiting for a datagram, about to write one to a
    session, after a failed write, after it removed the session, or ended. *)
Inductive MainPhase :=
  | MIdle
  | MWriting (keyStr : string) (sess : nat) (payload : bytes)
  | MFailed (keyStr : string) (sess : nat)
  | MUnlinked (sess : nat)
  | MStopped.

Record UDPState := mkUDPState {
  sessions : gmap string nat;
  uheap : gmap nat udpSession;
  umain : MainPhase;
  usent : list (string * nat * bytes);       (* written to the VPN: source, session, wire bytes *)
  udelivered : list (nat * string * bytes)   (* written to a local source: session, source, bytes *)
}.
Definition initUDP : UDPState := mkUDPState ∅ ∅ MIdle [] [].

Definition setReader (ph : ReaderPhase) (s : udpSession) : udpSession := mkUdpSession (usLocal s) (usOpen s) ph.
Definition closeSession (s : udpSession) : udpSession := mkUdpSession (usLocal s) false (usReader s).

Section udpPort.
Context `{ChaCha20} (pe : PortEntry).

(** The bytes on the VPN side of a datagram, and back. *)
Definition udpWire (rnd : option bytes) (payload : bytes) : res CryptoErr bytes :=
  if decide (Password pe ≠ "") then EncryptUDPPacket rnd payload (DeriveKey (Password pe)) else Ok payload.
Definition udpUnwire (packet : bytes) : res CryptoErr bytes :=
  if decide (Password pe ≠ "") then DecryptUDPPacket packet (DeriveKey (Password pe)) else Ok packet.

Inductive udpStep : UDPState → UDPState → Prop :=
  | RecvKnown σ keyStr srcIP payload sess :
      umain σ = MIdle → acceptsSource (CliArgs.Accept pe) srcIP = true → sessions σ !! keyStr = Some sess →
      udpStep σ (mkUDPState (sessions σ) (uheap σ) (MWriting keyStr sess payload) (usent σ) (udelivered σ))
  | RecvDial σ keyStr srcIP payload sess :
      umain σ = MIdle → acceptsSource (CliArgs.Accept pe) srcIP = true → sessions σ !! keyStr = None →
      uheap σ !! sess = None →
      udpStep σ (mkUDPState (<[keyStr := sess]> (sessions σ)) (<[sess := mkUdpSession keyStr true Reading]> (uheap σ))
                  (MWriting keyStr sess payload) (usent σ) (udelivered σ))
  | EncryptFails σ keyStr sess payload :
      umain σ = MWriting keyStr sess payload → (∃ rnd e, udpWire rnd payload = Err e) →
      udpStep σ (mkUDPState (sessions σ) (uheap σ) MIdle (usent σ) (udelivered σ))
  | WriteOk σ keyStr sess s payload rnd wire :
      umain σ = MWriting keyStr sess payload → uheap σ !! sess = Some s → usOpen s = true →
      udpWire rnd payload = Ok wire →
      udpStep σ (mkUDPState (sessions σ) (uheap σ) MIdle (usent σ ++ [(keyStr, sess, wire)]) (udelivered σ))
  | WriteFails σ keyStr sess payload :
      umain σ = MWriting keyStr sess payload →
      udpStep σ (mkUDPState (sessions σ) (uheap σ) (MFailed keyStr sess) (usent σ) (udelivered σ))
  | MainUnlinks σ keyStr sess :
      umain σ = MFailed keyStr sess →
      udpStep σ (mkUDPState (delete keyStr (sessions σ)) (uheap σ) (MUnlinked sess) (usent σ) (udelivered σ))
  | MainCloses σ sess :
      umain σ = MUnlinked sess →
      udpStep σ (mkUDPState (sessions σ) (alter closeSession sess (uheap σ)) MIdle (usent σ) (udelivered σ))
  | MainStops σ :
      umain σ = MIdle →
      udpStep σ (mkUDPState (sessions σ) (uheap σ) MStopped (usent σ) (udelivered σ))
  | ReaderPacket σ sess s packet dec :
      uheap σ !! sess = Some s → usReader s = Reading → udpUnwire packet = Ok dec →
      udpStep σ (mkUDPState (sessions σ) (uheap σ) (umain σ) (usent σ) (udelivered σ ++ [(sess, usLocal s, dec)]))
  | ReaderFails σ sess s :
      uheap σ !! sess = Some s → usReader s = Reading →
      udpStep σ (mkUDPState (sessions σ) (<[sess := setReader Leaving s]> (uheap σ)) (umain σ) (usent σ) (udelivered σ))
  | ReaderUnlinks σ sess s :
      uheap σ !! sess = Some s → usReader s = Leaving →
      udpStep σ (mkUDPState (if decide (sessions σ !! usLocal s = Some sess) then delete (usLocal s) (sessions σ)
                             else sessions σ)
                  (<[sess := setReader ReaderUnlinked s]> (uheap σ)) (umain σ) (usent σ) (udelivered σ))
  | ReaderCloses σ sess s :
      uheap σ !! sess = Some s → usReader s = ReaderUnlinked →
      udpStep σ (mkUDPState (sessions σ) (<[sess := closeSession (setReader ReaderGone s)]> (uheap σ)) (umain σ)
                  (usent σ) (udelivered σ)).
End udpPort.
