(* ===== verification/UdpThms.v ===== *)
(** * The UDP sessions of a client port

    The invariant of the session table under every interleaving of the goroutine of
    [handleUDP] with the readers: answers go back to the source that asked, no goroutine
    removes a session of another, and no open session is stranded. *)

From stdpp Require Import base gmap sets list strings relations.
From S2P Require Import Prelude GoStd NetIP CliFlags CliArgs Crypto Serve Netstack Tunnel.

(** The session the goroutine of [handleUDP] works on, with its source. *)
Definition mainSession (ph : MainPhase) : option (string * nat) :=
  match ph with MWriting k s _ | MFailed k s => Some (k, s) | _ => None end.

Record udpInv (σ : UDPState) : Prop := mkUdpInv {
  (* an entry of the table is an open session of that source, not yet given up by its reader *)
  ui_table k sess : sessions σ !! k = Some sess →
    ∃ s, uheap σ !! sess = Some s ∧ usLocal s = k ∧ usOpen s = true ∧ (usReader s = Reading ∨ usReader s = Leaving);
  (* the goroutine of handleUDP works on a session of the source, which no other replaced *)
  ui_main k sess : mainSession (umain σ) = Some (k, sess) →
    (∃ s, uheap σ !! sess = Some s ∧ usLocal s = k) ∧ (sessions σ !! k = None ∨ sessions σ !! k = Some sess);
  ui_unlinked sess : umain σ = MUnlinked sess →
    ∃ s, uheap σ !! sess = Some s ∧ sessions σ !! usLocal s ≠ Some sess;
  (* an open session is in the table or about to be closed *)
  ui_open sess s : uheap σ !! sess = Some s → usOpen s = true →
    sessions σ !! usLocal s = Some sess ∨ usReader s = Leaving ∨ usReader s = ReaderUnlinked ∨ umain σ = MUnlinked sess;
  ui_gone sess s : uheap σ !! sess = Some s → usReader s = ReaderUnlinked ∨ usReader s = ReaderGone →
    sessions σ !! usLocal s ≠ Some sess;
  (* the logs *)
  ui_sent k sess w : (k, sess, w) ∈ usent σ → ∃ s, uheap σ !! sess = Some s ∧ usLocal s = k;
  ui_delivered k sess b : (sess, k, b) ∈ udelivered σ → ∃ s, uheap σ !! sess = Some s ∧ usLocal s = k
}.

Lemma udpInv_init : udpInv initUDP.
Proof. split; simpl; try done; intros *; try (intros []%not_elem_of_nil); by rewrite lookup_empty. Qed.

(** Sessions of the heap keep their source. *)
Definition heapLe (h h' : gmap nat udpSession) : Prop :=
  ∀ i s, h !! i = Some s → ∃ s', h' !! i = Some s' ∧ usLocal s' = usLocal s.

Lemma heapLe_refl h : heapLe h h.
Proof. intros i s; eauto. Qed.
Lemma heapLe_insert h i s s' : h !! i = Some s → usLocal s' = usLocal s → heapLe h (<[i := s']> h).
Proof.
  intros Hi Hl j x Hj. destruct (decide (j = i)) as [->|Hn]; [|rewrite lookup_insert_ne by done; eauto].
  rewrite lookup_insert_eq. exists s'. split; [done|]. congruence.
Qed.
Lemma heapLe_fresh h i s' : h !! i = None → heapLe h (<[i := s']> h).
Proof.
  intros Hi j x Hj. destruct (decide (j = i)) as [->|Hn]; [congruence|]. rewrite lookup_insert_ne by done. eauto.
Qed.
Lemma heapLe_some h h' i k :
  heapLe h h' → (∃ s, h !! i = Some s ∧ usLocal s = k) → ∃ s, h' !! i = Some s ∧ usLocal s = k.
Proof. intros Hle (s & Hs & <-). destruct (Hle i s Hs) as (s' & ? & ?). eauto. Qed.

Section steps.
Context `{ChaCha20} (pe : PortEntry).

Lemma udpStep_heap σ σ' : udpStep pe σ σ' → heapLe (uheap σ) (uheap σ').
Proof.
  destruct 1; simpl; try apply heapLe_refl; try (by eapply heapLe_insert); [by apply heapLe_fresh|].
  intros i s Hi. destruct (decide (i = sess)) as [->|].
  - rewrite lookup_alter_eq, Hi. simpl. eauto.
  - rewrite lookup_alter_ne by done. eauto.
Qed.

(** The logs follow from the heap order: an entry names a session of its source. *)
Lemma udpStep_logs σ σ' :
  udpInv σ → udpStep pe σ σ' →
  (∀ k sess w, (k, sess, w) ∈ usent σ' → ∃ s, uheap σ' !! sess = Some s ∧ usLocal s = k) ∧
  (∀ k sess b, (sess, k, b) ∈ udelivered σ' → ∃ s, uheap σ' !! sess = Some s ∧ usLocal s = k).
Proof.
  intros [_ Hm _ _ _ Hs Hd] Hstep. pose proof (udpStep_heap _ _ Hstep) as Hle.
  assert (∀ k sess w, (k, sess, w) ∈ usent σ → ∃ s, uheap σ' !! sess = Some s ∧ usLocal s = k)
    by (intros; eapply heapLe_some; eauto).
  assert (∀ k sess b, (sess, k, b) ∈ udelivered σ → ∃ s, uheap σ' !! sess = Some s ∧ usLocal s = k)
    by (intros; eapply heapLe_some; eauto).
  destruct Hstep; split; simpl in *; try done; intros k' sess' b' [?|[= -> -> ->]%list_elem_of_singleton]%elem_of_app;
    eauto.
  eapply Hm. match goal with H : umain _ = _ |- _ => by rewrite H end.
Qed.

(** The invariant without the logs. *)
Record udpCore (tbl : gmap string nat) (h : gmap nat udpSession) (ph : MainPhase) : Prop := mkUdpCore {
  uc_table k sess : tbl !! k = Some sess →
    ∃ s, h !! sess = Some s ∧ usLocal s = k ∧ usOpen s = true ∧ (usReader s = Reading ∨ usReader s = Leaving);
  uc_main k sess : mainSession ph = Some (k, sess) →
    (∃ s, h !! sess = Some s ∧ usLocal s = k) ∧ (tbl !! k = None ∨ tbl !! k = Some sess);
  uc_unlinked sess : ph = MUnlinked sess → ∃ s, h !! sess = Some s ∧ tbl !! usLocal s ≠ Some sess;
  uc_open sess s : h !! sess = Some s → usOpen s = true →
    tbl !! usLocal s = Some sess ∨ usReader s = Leaving ∨ usReader s = ReaderUnlinked ∨ ph = MUnlinked sess;
  uc_gone sess s : h !! sess = Some s → usReader s = ReaderUnlinked ∨ usReader s = ReaderGone →
    tbl !! usLocal s ≠ Some sess
}.

Lemma udpInv_core σ : udpInv σ → udpCore (sessions σ) (uheap σ) (umain σ).
Proof. intros [???????]. by split. Qed.

(** Steps that change only where the goroutine of [handleUDP] is. *)
Lemma core_phase tbl h ph ph' :
  udpCore tbl h ph → (∀ sess, ph ≠ MUnlinked sess) → (∀ sess, ph' ≠ MUnlinked sess) →
  (∀ k sess, mainSession ph' = Some (k, sess) → mainSession ph = Some (k, sess) ∨ tbl !! k = Some sess) →
  udpCore tbl h ph'.
Proof.
  intros [Ht Hm Hu Ho Hg] H1 H2 H3. split; try done.
  - intros k sess [Hk|Hk]%H3; [by apply Hm|]. destruct (Ht _ _ Hk) as (s & ? & ? & _). eauto.
  - intros sess ->. by destruct (H2 sess).
  - intros sess s Hs Hopen. destruct (Ho _ _ Hs Hopen) as [?|[?|[?| ->]]]; auto. by destruct (H1 sess).
Qed.

Lemma core_dial tbl h k sess payload :
  udpCore tbl h MIdle → tbl !! k = None → h !! sess = None →
  udpCore (<[k := sess]> tbl) (<[sess := mkUdpSession k true Reading]> h) (MWriting k sess payload).
Proof.
  intros [Ht _ _ Ho Hg] Hk Hs. split.
  - intros k' s' [[<- <-]|[Hn Hk']]%lookup_insert_Some; [rewrite lookup_insert_eq; eauto 7|].
    destruct (Ht _ _ Hk') as (s & Hh & ?). exists s. rewrite lookup_insert_ne by congruence. done.
  - intros k' s' [= <- <-]. rewrite !lookup_insert_eq. eauto.
  - done.
  - intros s' s [[<- <-]|[Hn Hh]]%lookup_insert_Some Hopen; simpl; [rewrite lookup_insert_eq; auto|].
    destruct (Ho _ _ Hh Hopen) as [Hk'|[?|[?|?]]]; auto; [|done].
    left. rewrite lookup_insert_ne by congruence. done.
  - intros s' s [[<- <-]|[Hn Hh]]%lookup_insert_Some Hr; simpl in *; [naive_solver|].
    intros [[? ?]|[? ?]]%lookup_insert_Some; [congruence|]. by eapply Hg.
Qed.

Lemma core_unlink tbl h k sess :
  udpCore tbl h (MFailed k sess) → udpCore (delete k tbl) h (MUnlinked sess).
Proof.
  intros [Ht Hm _ Ho Hg]. destruct (Hm k sess eq_refl) as ((s0 & Hs0 & Hl0) & Htk). split.
  - intros k' s' [_ Hk]%lookup_delete_Some. eauto.
  - done.
  - intros ? [= <-]. exists s0. split; [done|]. rewrite Hl0, lookup_delete_eq. done.
  - intros s' s Hs Hopen. destruct (Ho _ _ Hs Hopen) as [Hk|[?|[?|?]]]; auto; [|done].
    destruct (decide (usLocal s = k)) as [<-|Hn]; [|left; by rewrite lookup_delete_ne].
    right; right; right. destruct Htk; congruence.
  - intros s' s Hs Hr [_ Hk]%lookup_delete_Some. by eapply Hg.
Qed.

Lemma core_close tbl h sess :
  udpCore tbl h (MUnlinked sess) → udpCore tbl (alter closeSession sess h) MIdle.
Proof.
  intros [Ht _ Hu Ho Hg]. destruct (Hu sess eq_refl) as (s0 & Hs0 & Hn0).
  assert (∀ i s, alter closeSession sess h !! i = Some s →
    (i = sess ∧ s = closeSession s0) ∨ (i ≠ sess ∧ h !! i = Some s)) as Hal.
  { intros i s. destruct (decide (i = sess)) as [->|]; [rewrite lookup_alter_eq, Hs0|rewrite lookup_alter_ne by done];
      naive_solver. }
  split; try done.
  - intros k s' Hk. destruct (Ht _ _ Hk) as (s & Hs & Hl & ?). exists s.
    destruct (decide (s' = sess)) as [->|]; [congruence|]. by rewrite lookup_alter_ne.
  - intros s' s [[-> ->]|[Hn Hs]]%Hal Hopen; [done|]. destruct (Ho _ _ Hs Hopen) as [?|[?|[?|[= Heq]]]]; auto; congruence.
  - intros s' s [[-> ->]|[Hn Hs]]%Hal Hr; [done|]. by eapply Hg.
Qed.

(** Steps of a reader, which change its own session. *)
Lemma core_leave tbl h ph sess s :
  udpCore tbl h ph → h !! sess = Some s → usReader s = Reading →
  udpCore tbl (<[sess := setReader Leaving s]> h) ph.
Proof.
  intros [Ht Hm Hu Ho Hg] Hs Hr. pose proof (heapLe_insert h sess s (setReader Leaving s) Hs eq_refl) as Hle. split.
  - intros k s' Hk. destruct (Ht _ _ Hk) as (x & Hx & Hl & Hop & _).
    destruct (decide (s' = sess)) as [->|]; [rewrite lookup_insert_eq|rewrite lookup_insert_ne by done; eauto].
    replace x with s in * by congruence. eauto 8.
  - intros k s' Hk. destruct (Hm _ _ Hk) as [Hx ?]. split; [|done]. by eapply heapLe_some.
  - intros s' ->. destruct (Hu _ eq_refl) as (x & Hx & Hn). destruct (Hle _ _ Hx) as (y & Hy & Hl). exists y. by rewrite Hl.
  - intros s' x [[<- <-]|[Hn Hx]]%lookup_insert_Some Hop; [auto|eauto].
  - intros s' x [[<- <-]|[Hn Hx]]%lookup_insert_Some Hp; [simpl in Hp; naive_solver|eauto].
Qed.

Lemma core_reader_unlink tbl h ph sess s :
  udpCore tbl h ph → h !! sess = Some s → usReader s = Leaving →
  udpCore (if decide (tbl !! usLocal s = Some sess) then delete (usLocal s) tbl else tbl)
    (<[sess := setReader ReaderUnlinked s]> h) ph.
Proof.
  intros [Ht Hm Hu Ho Hg] Hs Hr. set (tbl' := if decide _ then _ else _).
  pose proof (heapLe_insert h sess s (setReader ReaderUnlinked s) Hs eq_refl) as Hle.
  assert (∀ k i, tbl' !! k = Some i ↔ tbl !! k = Some i ∧ i ≠ sess) as Htbl.
  { intros k i. unfold tbl'. case_decide as Hd.
    - rewrite lookup_delete_Some. split; [|intros [Hk Hn]; split; [congruence|done]].
      intros [Hn Hk]. split; [done|]. intros ->. destruct (Ht _ _ Hk) as (x & Hx & <- & _). congruence.
    - split; [|tauto]. intros Hk. split; [done|]. intros ->. destruct (Ht _ _ Hk) as (x & Hx & <- & _). congruence. }
  split.
  - intros k i [Hk Hn]%Htbl. destruct (Ht _ _ Hk) as (x & Hx & ?). exists x. by rewrite lookup_insert_ne.
  - intros k i Hk. destruct (Hm _ _ Hk) as [Hx Hc]. split; [by eapply heapLe_some|].
    destruct (tbl' !! k) as [j|] eqn:Hj; [|auto]. right. apply Htbl in Hj as [Hj _]. destruct Hc; congruence.
  - intros i ->. destruct (Hu _ eq_refl) as (x & Hx & Hn). destruct (Hle _ _ Hx) as (y & Hy & Hl). exists y.
    split; [done|]. rewrite Hl. by intros [? _]%Htbl.
  - intros i x [[<- <-]|[Hn Hx]]%lookup_insert_Some Hop; [auto|].
    destruct (Ho _ _ Hx Hop) as [?|?]; [left; by apply Htbl|auto].
  - intros i x [[<- <-]|[Hn Hx]]%lookup_insert_Some Hp [Hk Hni]%Htbl; [done|]. by eapply Hg.
Qed.

Lemma core_reader_close tbl h ph sess s :
  udpCore tbl h ph → h !! sess = Some s → usReader s = ReaderUnlinked →
  udpCore tbl (<[sess := closeSession (setReader ReaderGone s)]> h) ph.
Proof.
  intros [Ht Hm Hu Ho Hg] Hs Hr.
  pose proof (heapLe_insert h sess s (closeSession (setReader ReaderGone s)) Hs eq_refl) as Hle.
  assert (∀ k, tbl !! k ≠ Some sess) as Hnt.
  { intros k Hk. destruct (Ht _ _ Hk) as (x & Hx & Hl & _ & Hor). naive_solver. }
  split.
  - intros k i Hk. destruct (Ht _ _ Hk) as (x & Hx & ?). exists x. rewrite lookup_insert_ne; [done|].
    intros ->. by eapply Hnt.
  - intros k i Hk. destruct (Hm _ _ Hk) as [Hx ?]. split; [|done]. by eapply heapLe_some.
  - intros i ->. destruct (Hu _ eq_refl) as (x & Hx & Hn). destruct (Hle _ _ Hx) as (y & Hy & Hl). exists y. by rewrite Hl.
  - intros i x [[<- <-]|[Hn Hx]]%lookup_insert_Some Hop; [done|eauto].
  - intros i x [[<- <-]|[Hn Hx]]%lookup_insert_Some Hp; [apply Hnt|eauto].
Qed.

Lemma udpCore_step σ σ' : udpInv σ → udpStep pe σ σ' → udpCore (sessions σ') (uheap σ') (umain σ').
Proof.
  intros Hc%udpInv_core Hstep. destruct Hstep as [? k ? ? sess Hph _ Hk|? ? ? ? ? Hph ? Hk Hs|? ? ? ? Hph _|
    ? ? ? ? ? ? ? Hph _ _ _|? ? ? ? Hph|? ? ? Hph|? ? Hph|? Hph| | | |]; simpl; try rewrite Hph in Hc.
  - apply (core_phase _ _ _ _ Hc); [done..|]. intros ?? [= <- <-]. auto.
  - by apply core_dial.
  - by apply (core_phase _ _ _ _ Hc).
  - by apply (core_phase _ _ _ _ Hc).
  - apply (core_phase _ _ _ _ Hc); [done..|]. intros ?? [= <- <-]. auto.
  - by apply core_unlink.
  - by apply core_close.
  - by apply (core_phase _ _ _ _ Hc).
  - done.
  - by apply core_leave.
  - by apply core_reader_unlink.
  - by apply core_reader_close.
Qed.

Lemma udpInv_step σ σ' : udpInv σ → udpStep pe σ σ' → udpInv σ'.
Proof.
  intros HI Hstep. destruct (udpStep_logs _ _ HI Hstep). destruct (udpCore_step _ _ HI Hstep). by split.
Qed.

Lemma udpInv_reach σ : rtc (udpStep pe) initUDP σ → udpInv σ.
Proof.
  intros Hr. assert (∀ σ1 σ2, rtc (udpStep pe) σ1 σ2 → udpInv σ1 → udpInv σ2) as Hind.
  { induction 1; eauto using udpInv_step. }
  by eapply Hind; [|apply udpInv_init].
Qed.

(** C34: in every reachable state of a client port, whatever the interleaving of its
    goroutines: a session answers to the one source whose datagrams were written to it;
    an entry of the table is an open session of its source; a removal by [handleUDP]
    after a failed write removes no other session; and an open session is in the table
    unless a goroutine is about to close it. *)
Theorem udp_sessions_safe σ :
  rtc (udpStep pe) initUDP σ →
  (∀ k k' sess w b, (k, sess, w) ∈ usent σ → (sess, k', b) ∈ udelivered σ → k' = k) ∧
  (∀ k sess, sessions σ !! k = Some sess → ∃ s, uheap σ !! sess = Some s ∧ usLocal s = k ∧ usOpen s = true) ∧
  (∀ k sess k' sess', umain σ = MFailed k sess → sessions σ !! k' = Some sess' →
    delete k (sessions σ) !! k' = None → sess' = sess) ∧
  (∀ sess s, uheap σ !! sess = Some s → usOpen s = true → sessions σ !! usLocal s ≠ Some sess →
    usReader s = Leaving ∨ usReader s = ReaderUnlinked ∨ umain σ = MUnlinked sess).
Proof.
  intros [Ht Hm Hu Ho Hg Hs Hd]%udpInv_reach. split; [|split; [|split]].
  - intros k k' sess w b (s & H1 & <-)%Hs (s' & H2 & <-)%Hd. congruence.
  - intros k sess (s & ? & ? & ? & _)%Ht. eauto.
  - intros k sess k' sess' Hph Hk Hdel. destruct (Hm k sess) as [_ Hor]; [by rewrite Hph|].
    destruct (decide (k' = k)) as [->|]; [destruct Hor; congruence|]. rewrite lookup_delete_ne in Hdel by done. congruence.
  - intros sess s H1 H2 H3. destruct (Ho _ _ H1 H2); [done|tauto].
Qed.
End steps.

(** A client port without password: one datagram goes out, one comes back. *)
Definition exClientPort : PortEntry := mkPortEntry false 5353 "100.64.0.9" 53 [] "".
Definition exUDPState : UDPState :=
  mkUDPState {["127.0.0.1:4000" := 0%nat]} {[0%nat := mkUdpSession "127.0.0.1:4000" true Reading]} MIdle
    [("127.0.0.1:4000", 0%nat, [1; 2])] [(0%nat, "127.0.0.1:4000", [3])].

Lemma exUDPState_reach `{ChaCha20} : rtc (udpStep exClientPort) initUDP exUDPState.
Proof.
  eapply rtc_l; [apply (RecvDial exClientPort initUDP "127.0.0.1:4000" (IPv4 127 0 0 1) [1; 2] 0); reflexivity|].
  eapply rtc_l; [eapply (WriteOk exClientPort _ "127.0.0.1:4000" 0 _ [1; 2] None); reflexivity|].
  eapply rtc_l; [eapply (ReaderPacket exClientPort _ 0 _ [3]); reflexivity|]. apply rtc_refl.
Qed.

Lemma udp_sessions_safe_witness :
  ∃ s, uheap exUDPState !! 0%nat = Some s ∧ usLocal s = "127.0.0.1:4000" ∧ usOpen s = true.
Proof.
  set (I := (λ _ _ _, 0) : ChaCha20).
  apply (proj1 (proj2 (udp_sessions_safe exClientPort exUDPState exUDPState_reach))). reflexivity.
Defined.
