(* ===== verification/TunnelThms.v ===== *)
(** * What a running tunnel group exposes

    From the command line to the outcome of a connection: the configuration that
    [runTunnel] derives from a group, its installation, and what a TCP or UDP flow from
    the VPN to a port of this node leads to. *)

From stdpp Require Import base gmap sets list strings.
From S2P Require Import Prelude GoStd NetIP TSAddr CliFlags CliArgs CliSpec CliThms Crypto Serve ServeThms.
From S2P Require Import Netstack NetstackThms Tunnel.

(** ** Folding ports into a map *)

(** Server ports are inserted under their 16-bit number with the value [g] gives. *)
Definition insPort {V} (g : PortEntry → option V) (m : gmap Z V) (pe : PortEntry) : gmap Z V :=
  if negb (IsServer pe) then m
  else match g pe with Some v => <[u16 (ListenPort pe) := v]> m | None => m end.

Definition samePort (p : Z) (pe : PortEntry) : Prop := IsServer pe = true ∧ u16 (ListenPort pe) = p.

Lemma insPort_other {V} (g : PortEntry → option V) m pe p : ¬ samePort p pe → insPort g m pe !! p = m !! p.
Proof.
  intros Hn. unfold insPort, samePort in *. destruct (IsServer pe); [|done]. cbn [negb].
  destruct (g pe); [|done]. rewrite lookup_insert_ne by naive_solver. done.
Qed.

Lemma foldl_insPort_none {V} (g : PortEntry → option V) l p : ∀ m,
  (∀ pe, pe ∈ l → ¬ samePort p pe) → foldl (insPort g) m l !! p = m !! p.
Proof.
  induction l as [|pe l IH]; intros m Hl; [done|]. cbn [foldl].
  rewrite IH by set_solver. apply insPort_other. set_solver.
Qed.

Lemma foldl_insPort {V} (g : PortEntry → option V) l p pe : ∀ m,
  (∀ q, q ∈ l → samePort p q → q = pe) → samePort p pe → m !! p = g pe ∨ (m !! p = None ∧ pe ∈ l) →
  foldl (insPort g) m l !! p = g pe.
Proof.
  induction l as [|q l IH]; intros m Hu Hp Hm.
  { destruct Hm as [Hm|[_ []%not_elem_of_nil]]. done. }
  cbn [foldl]. apply IH; [set_solver|done|].
  destruct (decide (IsServer q = true ∧ u16 (ListenPort q) = p)) as [Hq|Hq].
  - left. rewrite (Hu q (list_elem_of_here _ _) Hq). destruct Hp as [Hs Hpe]. unfold insPort. rewrite Hs. cbn [negb].
    destruct (g pe) eqn:Hg; [rewrite <- Hpe; apply lookup_insert_eq|]. by destruct Hm as [|[]].
  - rewrite insPort_other by done. destruct Hm as [|[Hm [->|?]%elem_of_cons]]; [auto|done|auto].
Qed.

(** ** The configuration of a group *)
Section group.
Context (lookupHost : string → option (list string)).
Context (porder : gmap string PortEntry → list (string * PortEntry)) (porder_perm : ∀ m, porder m ≡ₚ map_to_list m).

(** The ports of a group as the command line gives them: 16-bit numbers, and one entry per
    direction and number. *)
Record groupOK (tg : TunnelGroup) : Prop := mkGroupOK {
  go_range k pe : Ports tg !! k = Some pe → IsServer pe = true → 0 ≤ ListenPort pe < 65536;
  go_distinct k1 k2 p1 p2 : Ports tg !! k1 = Some p1 → Ports tg !! k2 = Some p2 →
    IsServer p1 = IsServer p2 → ListenPort p1 = ListenPort p2 → k1 = k2
}.

(** The server entry of a port. *)
Definition serverEntry (tg : TunnelGroup) (p : Z) (pe : PortEntry) : Prop :=
  ∃ k, Ports tg !! k = Some pe ∧ IsServer pe = true ∧ ListenPort pe = p.

Lemma elem_of_ports tg pe : pe ∈ (porder (Ports tg)).*2 ↔ ∃ k, Ports tg !! k = Some pe.
Proof using porder_perm.
  rewrite (porder_perm (Ports tg)), list_elem_of_fmap. split.
  - intros ([k q] & -> & Hin%elem_of_map_to_list). eauto.
  - intros [k Hk]. exists (k, pe). split; [done|]. by apply elem_of_map_to_list.
Qed.

Lemma samePort_entry tg p pe :
  groupOK tg → (∃ k, Ports tg !! k = Some pe) → samePort p pe → serverEntry tg p pe.
Proof.
  intros [Hr _] [k Hk] [Hs <-]. exists k. split; [done|]. split; [done|]. unfold uN.
  rewrite Z.mod_small; [done|]. apply (Hr k); done.
Qed.
Lemma entry_samePort tg p pe : groupOK tg → serverEntry tg p pe → samePort p pe.
Proof.
  intros [Hr _] (k & Hk & Hs & <-). split; [done|]. unfold uN. apply Z.mod_small. apply (Hr k); done.
Qed.
Lemma entry_unique tg p pe q : groupOK tg → serverEntry tg p pe → serverEntry tg p q → q = pe.
Proof.
  intros [_ Hd] (k & Hk & Hs & Hp) (k' & Hk' & Hs' & Hp').
  assert (k = k') as <- by (eapply Hd; eauto; congruence). congruence.
Qed.

Lemma ports_lookup {V} (g : PortEntry → option V) tg p pe :
  groupOK tg → serverEntry tg p pe → foldl (insPort g) ∅ (porder (Ports tg)).*2 !! p = g pe.
Proof using porder_perm.
  intros Hok He. apply foldl_insPort.
  - intros q Hq%elem_of_ports Hp. eapply entry_unique; [done|done|]. by apply samePort_entry.
  - by apply (entry_samePort tg).
  - right. split; [apply lookup_empty|]. apply elem_of_ports. destruct He as (k & Hk & _). eauto.
Qed.
Lemma ports_lookup_none {V} (g : PortEntry → option V) tg p :
  groupOK tg → (∀ pe, ¬ serverEntry tg p pe) → foldl (insPort g) ∅ (porder (Ports tg)).*2 !! p = None.
Proof using porder_perm.
  intros Hok Hn. rewrite foldl_insPort_none; [apply lookup_empty|].
  intros pe Hpe%elem_of_ports Hp. eapply Hn. by apply samePort_entry.
Qed.

Definition acceptOf (pe : PortEntry) : option (list Prefix) :=
  if decide (0 < zlen (CliArgs.Accept pe)) then Some (CliArgs.Accept pe) else None.
Definition passwordOf (pe : PortEntry) : option string :=
  if decide (Password pe ≠ "") then Some (Password pe) else None.
Definition udpTargetOf (pe : PortEntry) : option AddrPort :=
  (λ ip, mkAddrPort ip (u16 (TargetPort pe))) <$> ParseAddr (resolveHost lookupHost (TargetAddr pe)).

Lemma configure_maps {N} l : ∀ ns : Impl N,
  let ns' := foldl (configurePort lookupHost) ns l in
  (∀ p, mapGet (AllowedIPsForPort ns') p = foldl (insPort acceptOf) (default ∅ (AllowedIPsForPort ns)) l !! p) ∧
  (∀ p, mapGet (PasswordForPort ns') p = foldl (insPort passwordOf) (default ∅ (PasswordForPort ns)) l !! p) ∧
  (∀ p, mapGet (ServeTargets ns') p = foldl (insPort udpTargetOf) (default ∅ (ServeTargets ns)) l !! p).
Proof.
  induction l as [|pe l IH]; intros ns; cbn zeta.
  { cbn [foldl]. by destruct (AllowedIPsForPort ns), (PasswordForPort ns), (ServeTargets ns). }
  cbn [foldl]. destruct (IH (configurePort lookupHost ns pe)) as (H1 & H2 & H3).
  split; [|split]; intros p; [rewrite H1|rewrite H2|rewrite H3]; do 2 f_equal; unfold configurePort, insPort;
    destruct (IsServer pe); cbn [negb AllowedIPsForPort PasswordForPort ServeTargets setPortMaps]; try done.
  - unfold acceptOf. by case_decide.
  - unfold passwordOf. by case_decide.
  - unfold udpTargetOf. by destruct (ParseAddr _).
Qed.

(** The configuration of a group in netstack, port by port. *)
Record runsGroup {N} (tg : TunnelGroup) (ns : Impl N) : Prop := mkRunsGroup {
  rg_entry p pe : serverEntry tg p pe →
    mapGet (AllowedIPsForPort ns) p = acceptOf pe ∧ mapGet (PasswordForPort ns) p = passwordOf pe ∧
    mapGet (ServeTargets ns) p = udpTargetOf pe;
  rg_none p : (∀ pe, ¬ serverEntry tg p pe) →
    mapGet (AllowedIPsForPort ns) p = None ∧ mapGet (PasswordForPort ns) p = None ∧ mapGet (ServeTargets ns) p = None;
  rg_stealth : StealthDrop ns = CliArgs.DropICMP tg;
  rg_icmp : Netstack.DropICMP ns = CliArgs.DropICMP tg
}.

(** Two states with the same configuration; the handlers of netstack change no other field. *)
Definition sameConfig {N} (ns ns' : Impl N) : Prop :=
  AllowedIPsForPort ns' = AllowedIPsForPort ns ∧ PasswordForPort ns' = PasswordForPort ns ∧
  ServeTargets ns' = ServeTargets ns ∧ StealthDrop ns' = StealthDrop ns ∧ Netstack.DropICMP ns' = Netstack.DropICMP ns.

Lemma runsGroup_same {N} tg (ns ns' : Impl N) : sameConfig ns ns' → runsGroup tg ns → runsGroup tg ns'.
Proof. intros (H1 & H2 & H3 & H4 & H5) [Ha Hb Hc Hd]. split; rewrite ?H1, ?H2, ?H3, ?H4, ?H5; done. Qed.

Lemma configure_ready {N} l : ∀ ns : Impl N, ready (foldl (configurePort lookupHost) ns l) = ready ns.
Proof.
  induction l as [|pe l IH]; intros ns; [done|]. cbn [foldl]. rewrite IH. unfold configurePort. by destruct (IsServer pe).
Qed.

Lemma configure_runs {N} tg lb (nic : N) :
  groupOK tg → ∃ ns, configureNetstack lookupHost porder tg lb (createNetstack nic) = Ok ns ∧
    nsLB ns = Some lb ∧ ready ns = true ∧ runsGroup tg ns.
Proof using porder_perm.
  intros Hok. unfold configureNetstack, Start. cbn [ready setStealth]. rewrite configure_ready. cbn [ready createNetstack].
  eexists. split; [done|]. split; [done|]. split; [done|].
  destruct (configure_maps (porder (Ports tg)).*2 (createNetstack nic)) as (H1 & H2 & H3).
  split; [..|done|done]; cbn [AllowedIPsForPort PasswordForPort ServeTargets setReady setStealth].
  - intros p pe He. rewrite H1, H2, H3. cbn. by rewrite !(ports_lookup _ tg p pe).
  - intros p Hn. rewrite H1, H2, H3. cbn. by rewrite !(ports_lookup_none _ tg p).
Qed.

(** ** The serve configuration of a group *)
Lemma addServe_insPort : addServe = insPort (λ pe, Some (forwardOf pe)).
Proof. done. Qed.




Lemma serveConfig_none tg p :
  groupOK tg → (∀ pe, ¬ serverEntry tg p pe) → scTCP (serveConfigOf porder tg) !! p = None.
Proof using porder_perm. intros Hok Hn. unfold scTCP, serveConfigOf. cbn [scBase bcTCP]. rewrite addServe_insPort. by apply ports_lookup_none. Qed.
End group.

(** ** Installation *)
Section install.
Context (ord : gmap string BaseConfig → list (string * BaseConfig)) (Hord : ord ∅ = []).
Context (sord : gmap string (list Z) → list (string * list Z)) (etagOf : option ServeConfig → string).

(** A backend that is logged in and whose configuration, if any, is of earlier runs. *)
Record backendReady (b : LocalBackend) : Prop := mkBackendReady {
  br_inv : lbInv b;
  br_self : selfValid b = true;
  br_prefs : lbPrefsValid b = true;
  br_profile : lbProfileID b ≠ "";
  br_unlocked : lbConfigLocked b = false;
  br_plain prev : lbServeConfig b = Some prev → plainConfig prev
}.


End install.

(** ** The outcome of a flow *)

(** The groups of a command line whose server ports are 16-bit numbers. *)
Lemma parsed_ok stat order args tgs tg :
  (∀ m, order m ≡ₚ map_to_list m) → parseTunnelArgs stat order args = Ok tgs → tg ∈ tgs →
  (∀ k pe, Ports tg !! k = Some pe → IsServer pe = true → 0 ≤ ListenPort pe < 65536) → groupOK tg.
Proof.
  intros Hperm (nums & _ & _ & _ & HF)%parse_groups Htg Hr.
  apply (Forall2_elem_r _ _ _ _ HF) in Htg as (n & _ & g & Hg). split; [done|].
  intros k1 k2 p1 p2. by apply (facts_distinct stat order Hperm _ _ _ _ _ _ _ _ Hg).
Qed.


(** A request of a VPN peer to an address of this node that is neither a service nor a via
    address. *)
Record peerRequest (b : LocalBackend) (r : TransportEndpointID) : Prop := mkPeerRequest {
  pr_src : IsValid (netaddrIPFromNetstackIP (RemoteAddress r)) = true;
  pr_local : lbIsLocalIP b (netaddrIPFromNetstackIP (LocalAddress r)) = true;
  pr_tailscale : IsTailscaleIP (netaddrIPFromNetstackIP (LocalAddress r)) = true;
  pr_via : Contains viaRange (netaddrIPFromNetstackIP (LocalAddress r)) = false;
  pr_service : netaddrIPFromNetstackIP (LocalAddress r) ≠ serviceIP ∧ netaddrIPFromNetstackIP (LocalAddress r) ≠ serviceIPv6;
  pr_web : LocalPort r = webClientPort → lbExposeWebClient b = false;
  pr_peerapi : lbPeerAPIPorts b !! netaddrIPFromNetstackIP (LocalAddress r) ≠ Some (LocalPort r)
}.

Lemma srcAllowed_accept m p pe src :
  mapGet m p = acceptOf pe → srcAllowed m p src = acceptsSource (CliArgs.Accept pe) src.
Proof.
  unfold srcAllowed, acceptOf, acceptsSource. intros ->. case_decide as Hd.
  - by rewrite bool_decide_eq_false_2 by lia.
  - by rewrite bool_decide_eq_true_2 by lia.
Qed.

Section accept.
Context {N : Type} `{NIC N} (ord : gmap string BaseConfig → list (string * BaseConfig)).

(** What [acceptTCP] does with a request of a peer, given the handler of its port. *)
Lemma peer_accept env r b0 b (ns : Impl N) h :
  peerRequest b0 r → nsLB ns = Some b →
  TCPHandlerForDst ord b (mkAddrPort (netaddrIPFromNetstackIP (RemoteAddress r)) (RemotePort r))
    (mkAddrPort (netaddrIPFromNetstackIP (LocalAddress r)) (LocalPort r)) = h →
  acceptTCP ord env r ns =
    (if srcAllowed (AllowedIPsForPort ns) (LocalPort r) (netaddrIPFromNetstackIP (RemoteAddress r)) then
       match h with
       | Some h =>
           if createsEndpoint env then
             Complete false ::
               match mapGet (PasswordForPort ns) (LocalPort r) with
               | Some password => if encrypts env then [ServeConn h (Some password)] else [CloseConn]
               | None => [ServeConn h None]
               end
           else [Complete true]
       | None => if StealthDrop ns then [] else [Complete true]
       end
     else [], ns).
Proof.
  intros [Hsrc _ Hts Hvia [Hs4 Hs6] _ _] Hlb Hh. rewrite acceptTCP_eq, Hsrc. cbn [negb].
  assert (toTailscaleIP r = true) as -> by (unfold toTailscaleIP; by rewrite Hvia).
  assert (hitsService (dialIPOf r) = false) as ->
    by (unfold dialIPOf, hitsService; rewrite Hvia; by rewrite !bool_decide_eq_false_2).
  cbn [andb]. unfold srcRefused, handlerOf. rewrite Hlb. cbn [mbind option_bind]. rewrite Hh.
  destruct (srcAllowed _ _ _); [|done]. cbn [negb]. unfold getConnOrReset.
  destruct h as [h|]; [|done]. destruct (createsEndpoint env); [|done]. cbn [negb].
  destruct (mapGet _ _); [|done]. by destruct (encrypts env).
Qed.
End accept.

Section exposure.
Context {N : Type} `{NIC N}.
Context (stat : string → bool) (order : gmap string (list rawEntry) → list (string * list rawEntry)).
Context (order_perm : ∀ m, order m ≡ₚ map_to_list m).
Context (lookupHost : string → option (list string)).
Context (porder : gmap string PortEntry → list (string * PortEntry)) (porder_perm : ∀ m, porder m ≡ₚ map_to_list m).
Context (ord : gmap string BaseConfig → list (string * BaseConfig)) (Hord : ord ∅ = []).
Context (sord : gmap string (list Z) → list (string * list Z)) (etagOf : option ServeConfig → string).


(** The socket towards the target: at the port of the client, else at any port. *)
Definition localSocket (ListenUDP : AddrPort → option Z) (client : AddrPort) : option Z :=
  match ListenUDP (mkAddrPort ipv4Loopback (ap_port client)) with
  | Some p => Some p
  | None => ListenUDP (mkAddrPort ipv4Loopback 0)
  end.
(** It can be bound, and its address is not registered. *)
Definition freeSocket (ListenUDP : AddrPort → option Z) (client : AddrPort) (pm : Mapper) : bool :=
  match localSocket ListenUDP client with
  | Some p => bool_decide (pm !! ("udp", mkAddrPort ipv4Loopback p) = None)
  | None => false
  end.

(** C40: end to end for UDP on a mapped port.  A flow of a peer that the whitelist refuses is
    dropped.  Any other flow starts a session exactly when a local socket can be bound whose
    address no other session has registered, and the session has the password of the -S
    mapping.  It goes to the target of the mapping if the resolved target is an address that
    netip parses; an IPv6 target, which resolveHost writes in brackets, is not, and the
    session then goes to the VPN port of the loopback interface. *)
Theorem tunnel_forwards_udp args tgs tg pe lb0 (nic : N) ListenUDP client dst :
  parseTunnelArgs stat order args = Ok tgs → tg ∈ tgs → serverEntry tg (ap_port dst) pe →
  (∀ k pe, Ports tg !! k = Some pe → IsServer pe = true → 0 ≤ ListenPort pe < 65536) →
  ∃ ns0, configureNetstack lookupHost porder tg lb0 (createNetstack nic) = Ok ns0 ∧
    ∀ ns, sameConfig ns0 ns → isLocalIP ns (ap_addr dst) = true →
      if acceptsSource (CliArgs.Accept pe) (ap_addr client) && freeSocket ListenUDP client (nsPM ns)
      then ∃ f ns', forwardUDP ListenUDP client dst ns = (Some f, ns') ∧ flowPassword f = passwordOf pe ∧
        backendRemote (flowRoute f) =
          match ParseAddr (resolveHost lookupHost (TargetAddr pe)) with
          | Some ip => mkAddrPort ip (u16 (TargetPort pe))
          | None => mkAddrPort ipv4Loopback (ap_port dst)
          end
      else forwardUDP ListenUDP client dst ns = (None, ns).
Proof using order_perm porder_perm.
  intros Hparse Htg He Hrange. pose proof (parsed_ok stat order args tgs tg order_perm Hparse Htg Hrange) as Hok.
  destruct (configure_runs lookupHost porder porder_perm tg lb0 nic Hok) as (ns0 & Hcfg & _ & _ & Hruns).
  exists ns0. split; [done|]. intros ns Hsame Hl.
  pose proof (runsGroup_same _ _ _ _ Hsame Hruns) as [Hentry _ _ _]. destruct (Hentry _ _ He) as (Ha & Hp & Ht).
  assert (u16 (ap_port dst) = ap_port dst) as Hu.
  { destruct He as (k & Hk & Hs & <-). unfold uN. apply Z.mod_small. by apply (Hrange k). }
  unfold forwardUDP, udpRoute. rewrite (srcAllowed_accept _ _ pe _ Ha), Hu, Ht, Hp.
  destruct (acceptsSource _ _); cbn [negb andb]; [|done].
  unfold udpTargetOf. destruct (ParseAddr _) as [a|]; cbn [fmap option_fmap option_map]; rewrite ?Hl;
    cbn [backendListen routeLocal ap_addr]; fold (localSocket ListenUDP client).
  all: unfold freeSocket; destruct (localSocket ListenUDP client) as [p|]; [|done].
  all: change (Unmap ipv4Loopback) with ipv4Loopback; unfold RegisterIPPortIdentity.
  all: destruct (nsPM ns !! _) eqn:Epm; rewrite ?bool_decide_eq_false_2, ?bool_decide_eq_true_2 by congruence; [done|].
  all: by eexists _, _.
Qed.

(** A UDP port that no -S flag maps is exposed: a datagram of any VPN peer to it, at an
    address of this node, starts a session to the same port of the loopback interface, in
    the clear, in stealth mode too. *)
Theorem udp_unmapped_exposed args tgs tg lb0 (nic : N) ListenUDP client dst p :
  parseTunnelArgs stat order args = Ok tgs → tg ∈ tgs →
  (∀ k pe, Ports tg !! k = Some pe → IsServer pe = true → 0 ≤ ListenPort pe < 65536) →
  (∀ pe, ¬ serverEntry tg (ap_port dst) pe) → 0 ≤ ap_port dst < 65536 →
  ListenUDP (mkAddrPort ipv4Loopback (ap_port client)) = Some p →
  ∃ ns0, configureNetstack lookupHost porder tg lb0 (createNetstack nic) = Ok ns0 ∧
    ∀ ns, sameConfig ns0 ns → isLocalIP ns (ap_addr dst) = true →
      nsPM ns !! ("udp", mkAddrPort ipv4Loopback p) = None →
      ∃ f ns', forwardUDP ListenUDP client dst ns = (Some f, ns') ∧
        backendRemote (flowRoute f) = mkAddrPort ipv4Loopback (ap_port dst) ∧ flowPassword f = None.
Proof using order_perm porder_perm.
  intros Hparse Htg Hrange Hno Hport Hlis. pose proof (parsed_ok stat order args tgs tg order_perm Hparse Htg Hrange) as Hok.
  destruct (configure_runs lookupHost porder porder_perm tg lb0 nic Hok) as (ns0 & Hcfg & _ & _ & Hruns).
  exists ns0. split; [done|]. intros ns Hsame Hl Hpm.
  pose proof (runsGroup_same _ _ _ _ Hsame Hruns) as [_ Hnone _ _]. destruct (Hnone _ Hno) as (Ha & Hp & Ht).
  assert (u16 (ap_port dst) = ap_port dst) as Hu by (by apply Z.mod_small).
  unfold forwardUDP, udpRoute, srcAllowed. rewrite Ha, Hu, Ht, Hl. cbn [negb backendListen routeLocal]. rewrite Hlis.
  change (Unmap (ap_addr (mkAddrPort ipv4Loopback (ap_port client)))) with ipv4Loopback.
  unfold RegisterIPPortIdentity. rewrite Hpm. eexists _, _. split; [done|]. by cbn.
Qed.

(** The forwards of an earlier run come back. A group without server ports installs no
    serve configuration, so a configuration that an earlier run left in the state file is
    loaded with the network map, and its ports are served: in the clear and to every source,
    whatever password and whitelist the earlier run had, in stealth mode too. *)
Theorem stale_serve_config args tgs tg lb0 (nic : N) lbAt b c :
  parseTunnelArgs stat order args = Ok tgs → tg ∈ tgs → (∀ p pe, ¬ serverEntry tg p pe) →
  lbInv b → selfValid b = true → lbPrefsValid b = true → lbProfileID b ≠ "" →
  lbStore b !! ServeConfigKey (lbProfileID b) = Some c → plainConfig c →
  installServe porder ord sord etagOf tg lbAt = None ∧
  ∃ ns0, configureNetstack lookupHost porder tg lb0 (createNetstack nic) = Ok ns0 ∧
    ∀ ns env r h, sameConfig ns0 ns →
      nsLB ns = Some (setTCPPortsInterceptedFromNetmapAndPrefsLocked ord sord b) → peerRequest b r →
      createsEndpoint env = true → scTCP c !! LocalPort r = Some h →
      acceptTCP ord env r ns = ([Complete false; ServeConn (HForward (TCPForward h) "" (ProxyProtocol h)) None], ns).
Proof using order_perm porder_perm Hord.
  intros Hparse Htg Hno HI Hs Hp Hid Hst Hc.
  assert (groupOK tg) as Hok.
  { apply (parsed_ok stat order args tgs tg order_perm Hparse Htg).
    intros k pe Hk Hsrv. destruct (Hno (ListenPort pe) pe). by exists k. }
  split.
  { unfold installServe. rewrite decide_True; [done|]. apply map_eq. intros p.
    by rewrite (serveConfig_none porder porder_perm tg p Hok (Hno p)), lookup_empty. }
  destruct (configure_runs lookupHost porder porder_perm tg lb0 nic Hok) as (ns0 & Hcfg & _ & _ & Hruns).
  exists ns0. split; [done|]. intros ns env r h Hsame Hlb Hr Hce Hh.
  pose proof (runsGroup_same _ _ _ _ Hsame Hruns) as [_ Hnone _ _].
  destruct (Hnone (LocalPort r) (Hno _)) as (Ha & Hpw & _).
  destruct (setPorts_frame ord sord b) as (F1 & _ & _ & F4 & _ & F6 & F7). destruct (pr_service _ _ Hr) as [Hs4 Hs6].
  set (b' := setTCPPortsInterceptedFromNetmapAndPrefsLocked ord sord b) in *.
  assert (lbServeConfig b' = Some c) as Hb'
    by (rewrite F1; apply (reload_installed b c HI Hs Hp Hid (pc_fg _ Hc) Hst)).
  assert (lbIsLocalIP b' (netaddrIPFromNetstackIP (LocalAddress r)) = true) as Hloc
    by (unfold lbIsLocalIP; rewrite F4; apply (pr_local _ _ Hr)).
  pose proof (handler_plain ord b' c (mkAddrPort (netaddrIPFromNetstackIP (RemoteAddress r)) (RemotePort r))
    (mkAddrPort (netaddrIPFromNetstackIP (LocalAddress r)) (LocalPort r)) Hord Hc Hb' Hloc Hs4 Hs6
    ltac:(rewrite F7; apply (pr_web _ _ Hr)) ltac:(rewrite F6; apply (pr_peerapi _ _ Hr))) as Hd.
  rewrite (peer_accept ord env r _ _ ns _ Hr Hlb Hd). unfold srcAllowed. cbn [ap_port]. by rewrite Ha, Hpw, Hce, Hh.
Qed.
End exposure.

(** ** Witnesses *)
Lemma exGroup_range : map_Forall (λ _ pe, IsServer pe = true → 0 ≤ ListenPort pe < 65536) (Ports exGroup).
Proof. apply (bool_decide_unpack _). vm_compute. reflexivity. Qed.

Definition exEntry : PortEntry := mkPortEntry true 8080 "127.0.0.1" 80 [] "pw".
Lemma exEntry_server : serverEntry exGroup 8080 exEntry.
Proof. exists "S8080". by vm_compute. Qed.

Lemma exBackend_ready : backendReady exBackend.
Proof.
  split; try done.
  - exists ∅. split; [done|apply map_empty_subseteq].
  - intros prev [= <-]. apply exCfg1_plain.
Qed.

Definition noHosts (host : string) : option (list string) := None.


Lemma tunnel_forwards_udp_witness :
  ∃ ns0, configureNetstack noHosts map_to_list exGroup exBackend (createNetstack ([] : list (bytes * Z))) = Ok ns0 ∧
    ∀ ns, sameConfig ns0 ns → isLocalIP ns (IPv4 100 64 0 9) = true → nsPM ns = ∅ →
      ∃ f ns', forwardUDP (λ a, Some (ap_port a)) exClient (mkAddrPort (IPv4 100 64 0 9) 8080) ns = (Some f, ns') ∧
        flowPassword f = Some "pw" ∧ backendRemote (flowRoute f) = mkAddrPort (IPv4 127 0 0 1) 80.
Proof.
  destruct (tunnel_forwards_udp (N := list (bytes * Z)) (λ _, false) map_to_list (λ m, Permutation_refl (map_to_list m))
    noHosts map_to_list (λ m, Permutation_refl (map_to_list m))
    exArgs exGroups exGroup exEntry exBackend [] (λ a, Some (ap_port a)) exClient (mkAddrPort (IPv4 100 64 0 9) 8080))
    as (ns0 & H1 & H2).
  - vm_compute; reflexivity.
  - left.
  - apply exEntry_server.
  - exact exGroup_range.
  - exists ns0. split; [exact H1|]. intros ns Hs Hl Hpm. specialize (H2 ns Hs Hl). rewrite Hpm in H2. exact H2.
Defined.

Lemma no_entry_9999 pe : ¬ serverEntry exGroup 9999 pe.
Proof.
  intros (k & Hk & _ & Hp). assert (map_Forall (λ _ pe, ListenPort pe ≠ 9999) (Ports exGroup)) as Hn
    by (apply (bool_decide_unpack _); vm_compute; reflexivity).
  by apply (Hn k pe).
Qed.

Lemma udp_unmapped_exposed_witness :
  ∃ ns0, configureNetstack noHosts map_to_list exGroup exBackend (createNetstack ([] : list (bytes * Z))) = Ok ns0 ∧
    ∀ ns, sameConfig ns0 ns → isLocalIP ns (IPv4 100 64 0 9) = true → nsPM ns = ∅ →
      ∃ f ns', forwardUDP (λ a, Some (ap_port a)) exClient (mkAddrPort (IPv4 100 64 0 9) 9999) ns = (Some f, ns') ∧
        backendRemote (flowRoute f) = mkAddrPort (IPv4 127 0 0 1) 9999.
Proof.
  destruct (udp_unmapped_exposed (N := list (bytes * Z)) (λ _, false) map_to_list (λ m, Permutation_refl (map_to_list m))
    noHosts map_to_list (λ m, Permutation_refl (map_to_list m))
    exArgs exGroups exGroup exBackend [] (λ a, Some (ap_port a)) exClient (mkAddrPort (IPv4 100 64 0 9) 9999) 40000)
    as (ns0 & H1 & H2).
  - vm_compute; reflexivity.
  - left.
  - exact exGroup_range.
  - apply no_entry_9999.
  - simpl. lia.
  - reflexivity.
  - exists ns0. split; [exact H1|]. intros ns Hs Hl Hpm.
    destruct (H2 ns Hs Hl) as (f & ns' & Hf & Hr & _); [rewrite Hpm; apply lookup_empty|].
    exists f, ns'. split; [exact Hf|exact Hr].
Defined.

Definition exClientArgs : list string := ["-K"; "k"; "-C"; "8081:100.64.0.1:81"].
Definition exClientGroups : list TunnelGroup :=
  Eval vm_compute in
    match parseTunnelArgs (λ _, false) map_to_list exClientArgs with Ok tgs => tgs | _ => [] end.
Definition exClientGroup : TunnelGroup := Eval vm_compute in List.hd (mkTunnelGroup "" "" "" ∅ false) exClientGroups.

Lemma no_client_entry p pe : ¬ serverEntry exClientGroup p pe.
Proof.
  intros (k & Hk & Hs & _). assert (map_Forall (λ _ pe, IsServer pe = false) (Ports exClientGroup)) as Hn
    by (apply (bool_decide_unpack _); vm_compute; reflexivity).
  specialize (Hn k pe Hk). simpl in Hn. congruence.
Qed.

Lemma stale_serve_config_witness :
  installServe map_to_list map_to_list map_to_list (λ _, "") exClientGroup (λ _, exBackend) = None.
Proof.
  apply (stale_serve_config (N := list (bytes * Z)) (λ _, false) map_to_list (λ m, Permutation_refl (map_to_list m))
    noHosts map_to_list (λ m, Permutation_refl (map_to_list m)) map_to_list (map_to_list_empty) map_to_list (λ _, "")
    exClientArgs exClientGroups exClientGroup exBackend [] (λ _, exBackend) exBackend exCfg1).
  - vm_compute; reflexivity.
  - left.
  - apply no_client_entry.
  - apply exBackend_ready.
  - reflexivity.
  - reflexivity.
  - discriminate.
  - reflexivity.
  - apply exCfg1_plain.
Defined.
