(* ===== verification/ControlConn.v ===== *)
(** * The transport of the control protocol

    [control/controlbase/conn.go]: the record layer that carries the traffic
    between a node and its control server.  A [Write] is cut into frames of at
    most 4096 bytes, each sealed under the next nonce; a [Read] collects frames
    from the network in a 4096-byte buffer, decrypts them in place and hands out
    the plaintext.

    [golang.org/x/crypto/chacha20poly1305] is not part of the sources: it is the
    class [AEAD], and [AEADLaws] is what its documentation promises.  The inbound
    side of the network connection is the list of the results its [Read] will
    give; after them the peer has closed.  The outbound side is the bytes sent and
    the outcomes of the writes to come. *)

From S2P Require Import Prelude Bytes.

(** ** ChaCha20-Poly1305 *)
Definition NonceSize : nat := 12.
Definition Overhead : Z := 16.

(** [Seal key nonce plaintext ad] and [Open key nonce ciphertext ad]. *)
Class AEAD := {
  Seal : bytes → bytes → bytes → bytes → bytes;
  Open : bytes → bytes → bytes → bytes → option bytes
}.
Class AEADLaws (ae : AEAD) := {
  Open_Seal k n p ad : bytes_ok p → Open k n (Seal k n p ad) ad = Some p;
  Seal_length k n p ad : zlen (Seal k n p ad) = zlen p + Overhead;
  Seal_bytes k n p ad : bytes_ok p → bytes_ok (Seal k n p ad);
  Open_length k n c ad p : Open k n c ad = Some p → zlen c = zlen p + Overhead;
  Open_bytes k n c ad p : bytes_ok c → Open k n c ad = Some p → bytes_ok p
}.

(** ** Constants and errors *)
Definition maxMessageSize : Z := 4096.
Definition headerLen : Z := 3.
Definition maxCiphertextSize : Z := maxMessageSize - 3.
Definition maxPlaintextSize : Z := maxCiphertextSize - Overhead.
Definition msgTypeInitiation : Z := 1.
Definition msgTypeResponse : Z := 2.
Definition msgTypeError : Z := 3.
Definition msgTypeRecord : Z := 4.
Definition invalidNonce : Z := 2 ^ 64 - 1.

Inductive NetErr : Type := NetEOF | NetTimeout | NetReset.

Inductive ConnErr : Type :=
  | ErrClosed                     (* net.ErrClosed *)
  | ErrNet (e : NetErr)           (* the error of the network connection *)
  | ErrReadTooBig (requested : Z)
  | ErrMsgType (t : Z)            (* received message with unexpected type *)
  | ErrCipherExhausted
  | ErrOpen                       (* the ciphertext does not authenticate *)
  | ErrPartialWrite (e : NetErr)
  | ErrFuel.                      (* a loop ran out of the model's bound *)

#[export] Instance NetErr_eq_dec : EqDecision NetErr.
Proof. solve_decision. Defined.
#[export] Instance ConnErr_eq_dec : EqDecision ConnErr.
Proof. solve_decision. Defined.

(** ** Nonces: 12 bytes, of which the last 8 count *)
Definition nonceValid (n : bytes) : bool :=
  (be_val 0 (take 4 n) =? 0) && negb (be_val 0 (drop 4 n) =? invalidNonce).
Definition nonceIncrement (n : bytes) : res ConnErr bytes :=
  if negb (nonceValid n) then Panic
  else Ok (take 4 n ++ be_bytes 8 (u64 (1 + be_val 0 (drop 4 n)))).

(** ** The state of the two directions *)

(** [plaintext] is a slice of [buf]: its offset and its length.  [buf] is [None]
    for a nil pointer.  The three bytes of [hdrBuf] are copied to [buf] as soon as
    they are read and so are not part of the state. *)
Record rxState := mkRx {
  rxCipher : option bytes;
  rxNonce : bytes;
  rxBuf : option bytes;
  rxN : Z;
  rxNext : Z;
  rxPlain : Z * Z
}.
Record txState := mkTx { txCipher : option bytes; txNonce : bytes; txErr : option ConnErr }.

(** One result of the network's [Read]: data, with an error or without. *)
Record RdEvent := mkRd { rdData : bytes; rdErr : option NetErr }.

(** What the reading code uses: its state, the network and the pool of buffers
    ([bufPool]: other connections put their buffers there, so what a buffer holds
    is arbitrary). *)
Record Rd := mkRdSt { rx : rxState; inb : list RdEvent; pool : list bytes }.

Record NetWriter := mkNW { nwSent : bytes; nwOutcomes : list (option (nat * NetErr)) }.

(** ** A state and error monad: the state survives an error, as Go's does *)
Definition CM (A : Type) : Type := Rd → res ConnErr A * Rd.
#[export] Instance CM_ret : MRet CM := λ A a s, (Ok a, s).
#[export] Instance CM_bind : MBind CM := λ A B f m s,
  match m s with
  | (Ok a, s) => f a s
  | (Err e, s) => (Err e, s)
  | (Panic, s) => (Panic, s)
  end.
Definition throw {A} (e : ConnErr) : CM A := λ s, (Err e, s).
Definition panic {A} : CM A := λ s, (Panic, s).
Definition getRx : CM rxState := λ s, (Ok (rx s), s).
Definition setRx (r : rxState) : CM () := λ s, (Ok (), mkRdSt r (inb s) (pool s)).
Definition lift {A} (r : res ConnErr A) : CM A := λ s, (r, s).
(** [c.rx.buf[...]] of a nil pointer panics. *)
Definition deref {A} (o : option A) : CM A := λ s, (match o with Some a => Ok a | None => Panic end, s).

(** [getMaxMsgBuffer] and [bufPool.Put]. *)
Definition getMaxMsgBuffer : CM bytes := λ s,
  match pool s with
  | b :: p => (Ok b, mkRdSt (rx s) (inb s) p)
  | [] => (Ok (replicate (Z.to_nat maxMessageSize) 0), s)
  end.
Definition poolPut (b : bytes) : CM () := λ s, (Ok (), mkRdSt (rx s) (inb s) (b :: pool s)).

(** The network's [Read] into a buffer of [n] bytes. *)
Definition netRead (n : Z) : CM (bytes * option NetErr) := λ s,
  match inb s with
  | [] => (Ok ([], Some NetEOF), s)
  | e :: es =>
      if decide (zlen (rdData e) ≤ n) then (Ok (rdData e, rdErr e), mkRdSt (rx s) es (pool s))
      else (Ok (take (Z.to_nat n) (rdData e), None),
            mkRdSt (rx s) (mkRd (drop (Z.to_nat n) (rdData e)) (rdErr e) :: es) (pool s))
  end.

(** ** Reading *)
Section conn.
Context {ae : AEAD}.

(** [c.rx.n], [c.rx.next], ... assigned. *)
Definition withBuf (b : option bytes) (r : rxState) : rxState :=
  mkRx (rxCipher r) (rxNonce r) b (rxN r) (rxNext r) (rxPlain r).
Definition withN (n : Z) (r : rxState) : rxState :=
  mkRx (rxCipher r) (rxNonce r) (rxBuf r) n (rxNext r) (rxPlain r).
Definition withNext (n : Z) (r : rxState) : rxState :=
  mkRx (rxCipher r) (rxNonce r) (rxBuf r) (rxN r) n (rxPlain r).
Definition withPlain (p : Z * Z) (r : rxState) : rxState :=
  mkRx (rxCipher r) (rxNonce r) (rxBuf r) (rxN r) (rxNext r) p.
Definition withCipher (c : option bytes) (r : rxState) : rxState :=
  mkRx c (rxNonce r) (rxBuf r) (rxN r) (rxNext r) (rxPlain r).
Definition withNonce (n : bytes) (r : rxState) : rxState :=
  mkRx (rxCipher r) n (rxBuf r) (rxN r) (rxNext r) (rxPlain r).
Definition modifyRx (f : rxState → rxState) : CM () := r ← getRx; setRx (f r).

(** One round of the loop of [readNLocked]: the bytes read and the error. *)
Definition readSome (total : Z) : CM (Z * option NetErr) :=
  r ← getRx;
  match rxBuf r with
  | None =>
      if decide (rxN r ≠ 0 ∨ total ≠ headerLen) then panic
      else
        be ← netRead headerLen;
        if decide (0 < zlen be.1) then
          buf ← getMaxMsgBuffer;
          buf ← lift (put buf 0 be.1);
          modifyRx (withBuf (Some buf));;
          mret (zlen be.1, be.2)
        else mret (0, be.2)
  | Some buf =>
      be ← netRead (zlen buf - rxN r);
      buf ← lift (put buf (rxN r) be.1);
      modifyRx (withBuf (Some buf));;
      mret (zlen be.1, be.2)
  end.

Fixpoint readLoop (fuel : nat) (total : Z) : CM (Z * Z) :=
  r ← getRx;
  if decide (total ≤ rxN r) then deref (rxBuf r);; mret (0, total)
  else
    match fuel with
    | O => throw ErrFuel
    | S fuel =>
        ne ← readSome total;
        modifyRx (withN (rxN r + ne.1));;
        match ne.2 with
        | Some e => throw (ErrNet e)
        | None => readLoop fuel total
        end
    end.

(** Every round but the last takes a whole result from the network, or fills the
    buffer; the end of the list is an error. *)
Definition readNLocked (total : Z) : CM (Z * Z) :=
  if decide (total > maxMessageSize) then throw (ErrReadTooBig total)
  else λ s, readLoop (length (inb s) + 2) total s.

(** A message is the slice [buf[off:off+total]]. *)
Definition decryptLocked (msg : Z * Z) : CM () :=
  r ← getRx;
  buf ← deref (rxBuf r);
  msgType ← lift (idx buf msg.1);
  if decide (msgType ≠ msgTypeRecord) then throw (ErrMsgType msgType)
  else
    ciphertext ← lift (slice buf (msg.1 + headerLen) (msg.1 + msg.2));
    if negb (nonceValid (rxNonce r)) then throw ErrCipherExhausted
    else
      key ← deref (rxCipher r);
      let pt := Open key (rxNonce r) ciphertext [] in
      nonce ← lift (nonceIncrement (rxNonce r));
      modifyRx (withNonce nonce);;
      match pt with
      | Some p =>
          buf ← lift (put buf (msg.1 + headerLen) p);
          modifyRx (λ r, withPlain (msg.1 + headerLen, zlen p) (withBuf (Some buf) r))
      | None =>
          modifyRx (λ r, withCipher None (withPlain (0, 0) r));;
          throw ErrOpen
      end.

Definition wholeMessageLocked : CM (option (Z * Z)) :=
  r ← getRx;
  let available := rxN r - rxNext r in
  if decide (available < headerLen) then mret None
  else
    buf ← deref (rxBuf r);
    bs ← lift (slice buf (rxNext r) (rxN r));
    len ← lift (get_be 2 bs 1);
    let totalSize := headerLen + len in
    if decide (zlen bs < totalSize) then mret None
    else
      modifyRx (withNext (rxNext r + totalSize));;
      mret (Some (rxNext r, totalSize)).

(** The rest of the buffered bytes moved to the head of the buffer. *)
Definition compactLocked : CM () :=
  r ← getRx;
  if decide (rxNext r ≠ 0) then
    buf ← deref (rxBuf r);
    tail ← lift (slice buf (rxNext r) (rxN r));
    buf ← lift (put buf 0 tail);
    setRx (withNext 0 (withN (zlen tail) (withBuf (Some buf) r)))
  else mret ().

(** An empty buffer goes back to the pool. *)
Definition releaseLocked : CM () :=
  r ← getRx;
  match rxBuf r with
  | Some buf =>
      if decide (rxN r = 0 ∧ rxNext r = 0) then poolPut buf;; setRx (withBuf None r) else mret ()
  | None => mret ()
  end.

(** The header, then the whole message, read from the network. *)
Definition fetchLocked : CM (Z * Z) :=
  bs ← readNLocked headerLen;
  r ← getRx;
  buf ← deref (rxBuf r);
  len ← lift (get_be 2 buf (bs.1 + 1));
  bs ← readNLocked (headerLen + len);
  modifyRx (withNext bs.2);;
  mret bs.

Definition decryptOneLocked : CM () :=
  modifyRx (withPlain (0, 0));;
  w ← wholeMessageLocked;
  match w with
  | Some bs => decryptLocked bs
  | None =>
      compactLocked;;
      releaseLocked;;
      bs ← fetchLocked;
      decryptLocked bs
  end.

Fixpoint plainLoop (fuel : nat) : CM () :=
  r ← getRx;
  if decide ((rxPlain r).2 = 0) then
    match fuel with
    | O => throw ErrFuel
    | S fuel => decryptOneLocked;; plainLoop fuel
    end
  else mret ().

(** The bytes that are buffered or still to come: every round of the loop takes
    at least a header from them. *)
Definition inbBytes (s : Rd) : Z := rxN (rx s) - rxNext (rx s) + zlen (concat (rdData <$> inb s)).

(** [Read(bs)] with [len(bs) = n]: the bytes copied to [bs]. *)
Definition Read (n : Z) : CM bytes :=
  r ← getRx;
  match rxCipher r with
  | None => throw ErrClosed
  | Some _ =>
      (λ s, plainLoop (S (Z.to_nat (inbBytes s))) s);;
      r ← getRx;
      buf ← deref (rxBuf r);
      let '(off, len) := rxPlain r in
      let k := Z.min n len in
      d ← lift (slice buf off (off + k));
      let plain := (off + k, len - k) in
      modifyRx (withPlain (if decide (plain.2 = 0) then (0, 0) else plain));;
      mret d
  end.

(** ** Writing *)

(** The network's [Write]: all of [b], or an error after some of it. *)
Definition netWrite (b : bytes) (w : NetWriter) : option NetErr * NetWriter :=
  match nwOutcomes w with
  | Some (k, e) :: os => (Some e, mkNW (nwSent w ++ take k b) os)
  | None :: os => (None, mkNW (nwSent w ++ b) os)
  | [] => (None, mkNW (nwSent w ++ b) [])
  end.

(** The frame is built in a buffer of [maxMessageSize] bytes, where it fits. *)
Definition encryptLocked (plaintext : bytes) (t : txState) : res ConnErr (bytes * txState) :=
  if negb (nonceValid (txNonce t)) then Err ErrCipherExhausted
  else
    let hdr := msgTypeRecord :: be_bytes 2 (u16 (zlen plaintext + Overhead)) in
    match txCipher t with
    | None => Panic
    | Some key =>
        let ret := hdr ++ Seal key (txNonce t) plaintext [] in
        nonce ← nonceIncrement (txNonce t);
        Ok (ret, mkTx (txCipher t) nonce (txErr t))
    end.

(** The loop of [Write]: [sent] so far, and its result. *)
Fixpoint writeLoop (fuel : nat) (bs : bytes) (sent : Z) (t : txState) (w : NetWriter)
    : Z * res ConnErr () * txState * NetWriter :=
  match bs with
  | [] => (sent, Ok (), t, w)
  | _ =>
      match fuel with
      | O => (sent, Err ErrFuel, t, w)
      | S fuel =>
          let toSend := if decide (zlen bs > maxPlaintextSize)
                        then take (Z.to_nat maxPlaintextSize) bs else bs in
          let bs := drop (length toSend) bs in
          match encryptLocked toSend t with
          | Ok (ciphertext, t) =>
              match netWrite ciphertext w with
              | (Some e, w) =>
                  (sent, Err (ErrNet e), mkTx (txCipher t) (txNonce t) (Some (ErrPartialWrite e)), w)
              | (None, w) => writeLoop fuel bs (sent + zlen toSend) t w
              end
          | Err e => (sent, Err e, t, w)
          | Panic => (sent, Panic, t, w)
          end
      end
  end.

(** [Write] with its deferred function. *)
Definition Write (bs : bytes) (t : txState) (w : NetWriter) : Z * res ConnErr () * txState * NetWriter :=
  match txErr t with
  | Some e => (0, Err e, t, w)
  | None =>
      let '(sent, r, t, w) :=
        match txCipher t with
        | None => (0, Err ErrClosed, t, w)
        | Some _ => writeLoop (length bs) bs 0 t w
        end in
      match r with
      | Err e => (sent, r, mkTx None (txNonce t) (match txErr t with None => Some e | Some e' => Some e' end), w)
      | _ => (sent, r, t, w)
      end
  end.
End conn.

(** ** Connections *)
Record Conn := mkConn {
  cVersion : Z;
  cPeer : bytes;
  cHandshakeHash : bytes;
  cRx : rxState;
  cTx : txState
}.

Definition ProtocolVersion (c : Conn) : Z := cVersion c.
Definition HandshakeHash (c : Conn) : bytes := cHandshakeHash c.
Definition Peer (c : Conn) : bytes := cPeer c.
(** [Close], after the network connection has been closed. *)
Definition Close (c : Conn) : Conn :=
  mkConn (cVersion c) (cPeer c) (cHandshakeHash c) (withCipher None (cRx c))
    (mkTx None (txNonce (cTx c)) (txErr (cTx c))).

(** The zero values of a new connection with its cipher. *)
Definition zeroNonce : bytes := replicate NonceSize 0.
Definition newRx (key : bytes) : rxState := mkRx (Some key) zeroNonce None 0 0 (0, 0).
Definition newTx (key : bytes) : txState := mkTx (Some key) zeroNonce None.
