(* ===== verification/ControlConnThms.v ===== *)
(** * The transport of the control protocol: theorems

    For every peer, however it cuts or corrupts its bytes, [Read] terminates and
    never panics; for an honest peer it refines reading from a byte stream.
    [Write] puts the frames of its argument on the wire under consecutive
    nonces, and nothing after a failed write. *)

From S2P Require Import Prelude Bytes ControlConn.

(** ** Nonces *)
Definition nonceOf (k : Z) : bytes := replicate 4 0 ++ be_bytes 8 k.

Lemma nonceOf_val k : 0 ≤ k < 2 ^ 64 → be_val 0 (drop 4 (nonceOf k)) = k.
Proof. intros Hk. unfold nonceOf. rewrite drop_app_length' by done. by rewrite be_val_bytes. Qed.
Lemma nonceOf_valid k : 0 ≤ k < 2 ^ 64 → nonceValid (nonceOf k) = bool_decide (k < invalidNonce).
Proof.
  intros Hk. unfold nonceValid. rewrite nonceOf_val by done. unfold nonceOf.
  rewrite take_app_length' by done. change (be_val 0 (replicate 4 0)) with 0. cbn [Z.eqb andb].
  unfold invalidNonce in *. case_bool_decide; destruct (Z.eqb_spec k (2 ^ 64 - 1)); simpl; done || lia.
Qed.
Lemma nonceOf_incr k : 0 ≤ k < invalidNonce → nonceIncrement (nonceOf k) = Ok (nonceOf (k + 1)).
Proof.
  intros Hk. unfold invalidNonce in *. unfold nonceIncrement. rewrite nonceOf_valid by lia.
  rewrite bool_decide_eq_true_2 by (unfold invalidNonce; lia). simpl negb. cbv iota.
  rewrite nonceOf_val by lia. rewrite uN_small by lia. unfold nonceOf at 1.
  rewrite take_app_length' by done. by rewrite (Z.add_comm 1).
Qed.
Lemma zeroNonce_eq : zeroNonce = nonceOf 0.
Proof. done. Qed.
Lemma nonceOf_inj j k : 0 ≤ j < 2 ^ 64 → 0 ≤ k < 2 ^ 64 → nonceOf j = nonceOf k → j = k.
Proof. intros Hj Hk H. rewrite <- (nonceOf_val j), <- (nonceOf_val k) by done. by rewrite H. Qed.

(** ** The reading state *)

(** What the buffer holds beyond the messages decrypted, and the bytes the
    network still has: the peer's bytes that are to be decrypted. *)
Definition pending (r : rxState) : bytes :=
  match rxBuf r with
  | Some b => drop (Z.to_nat (rxNext r)) (take (Z.to_nat (rxN r)) b)
  | None => []
  end.
Definition plain (r : rxState) : bytes :=
  match rxBuf r with
  | Some b => take (Z.to_nat (rxPlain r).2) (drop (Z.to_nat (rxPlain r).1) b)
  | None => []
  end.
Definition data (s : Rd) : bytes := concat (rdData <$> inb s).
Definition stream (s : Rd) : bytes := pending (rx s) ++ data s.
(** The errors the network will report, in order. *)
Definition errs (s : Rd) : list NetErr := omap rdErr (inb s).

Definition bufOK (b : bytes) : Prop := zlen b = maxMessageSize ∧ bytes_ok b.

Record rxOK (r : rxState) : Prop := {
  ok_buf : match rxBuf r with
           | Some b => bufOK b
           | None => rxN r = 0 ∧ (rxPlain r).2 = 0
           end;
  ok_bounds : 0 ≤ rxNext r ≤ rxN r ∧ rxN r ≤ maxMessageSize;
  ok_plain : 0 ≤ (rxPlain r).1 ∧ 0 ≤ (rxPlain r).2 ∧ (rxPlain r).1 + (rxPlain r).2 ≤ rxNext r;
  ok_nonce : ∃ k, 0 ≤ k < 2 ^ 64 ∧ rxNonce r = nonceOf k
}.
Record rdOK (s : Rd) : Prop := {
  ok_rx : rxOK (rx s);
  ok_inb : Forall (λ e, bytes_ok (rdData e)) (inb s);
  ok_pool : Forall bufOK (pool s)
}.

(** ** Reading from the network *)
Ltac cm := unfold mbind, CM_bind, mret, CM_ret, lift, deref, throw, panic, getRx, setRx, modifyRx; cbn.

Lemma netRead_spec n s :
  rdOK s → 0 < n →
  ∃ b e s', netRead n s = (Ok (b, e), s') ∧ rx s' = rx s ∧ rdOK s' ∧ data s = b ++ data s' ∧
    zlen b ≤ n ∧ bytes_ok b ∧
    match e with
    | None => errs s = errs s' ∧ ((length (inb s') < length (inb s))%nat ∨ zlen b = n)
    | Some e => errs s = e :: errs s' ∨ e = NetEOF ∧ inb s = [] ∧ s' = s ∧ b = []
    end.
Proof.
  intros [Hrx Hin Hpool] Hn. unfold netRead, data, errs. destruct s as [r [|[d e] es] p]; simpl in *.
  - exists [], (Some NetEOF). eexists. split; [done|]. split_and!; try done; [rewrite zlen_nil; lia|constructor|auto].
  - apply Forall_cons in Hin as [Hd Hin]. simpl in Hd. case_decide as Hl.
    + exists d, e. eexists. split; [done|]. split_and!; try done; simpl.
      destruct e; simpl; [by left|]. split; [done|left; lia].
    + exists (take (Z.to_nat n) d), None. eexists. split; [done|]. simpl.
      assert (zlen (take (Z.to_nat n) d) = n) as Ht by (unfold zlen in *; rewrite length_take; lia).
      split_and!; try done; simpl.
      * split; simpl; try done. constructor; [by apply Forall_drop|done].
      * by rewrite app_assoc, take_drop.
      * lia.
      * by apply Forall_take.
      * by right.
Qed.

Lemma pending_ext r r' :
  rxBuf r = rxBuf r' → rxN r = rxN r' → rxNext r = rxNext r' → pending r = pending r'.
Proof. unfold pending. by intros -> -> ->. Qed.

(** The buffer with the bytes read appended. *)
Lemma pending_grow r b b' buf :
  rxOK r → rxBuf r = Some buf → @put ConnErr buf (rxN r) b = Ok b' →
  pending (withN (rxN r + zlen b) (withBuf (Some b') r)) = pending r ++ b.
Proof.
  intros [Hb (? & ?) _ _] Hbuf Hput. unfold pending. simpl. rewrite Hbuf in *. destruct Hb as [Hb _].
  rewrite (put_append _ _ _ _ Hput) by lia. rewrite drop_app_le; [done|].
  rewrite length_take. unfold zlen in *. lia.
Qed.

(** One round: the stream is unchanged and grows into the buffer by [k] bytes.
    [s''] is the state once [c.rx.n] has been advanced. *)
Definition advance (k : Z) (s s' : Rd) : Rd :=
  mkRdSt (withN (rxN (rx s) + k) (rx s')) (inb s') (pool s').
Definition roundOK (total : Z) (s : Rd) (k : Z) (e : option NetErr) (s' : Rd) : Prop :=
  let s'' := advance k s s' in
  rdOK s'' ∧ stream s'' = stream s ∧
  rx s'' = withN (rxN (rx s) + k) (withBuf (rxBuf (rx s')) (rx s)) ∧
  (rxBuf (rx s') = None → rxBuf (rx s) = None ∧ k = 0) ∧
  match e with
  | None => errs s = errs s'' ∧ ((length (inb s'') < length (inb s))%nat ∨ total ≤ rxN (rx s''))
  | Some e => errs s = e :: errs s'' ∨ e = NetEOF ∧ inb s'' = [] ∧ errs s = [] ∧ k = 0
  end.

(** An outcome of [netRead] as the outcome of the round. *)
Lemma round_errs total n (b : bytes) s s' n' e :
  match e with
  | None => errs s = errs s' ∧ ((length (inb s') < length (inb s))%nat ∨ zlen b = n)
  | Some e => errs s = e :: errs s' ∨ e = NetEOF ∧ inb s = [] ∧ s' = s ∧ b = []
  end →
  (zlen b = n → total ≤ n') →
  match e with
  | None => errs s = omap rdErr (inb s') ∧ ((length (inb s') < length (inb s))%nat ∨ total ≤ n')
  | Some e => errs s = e :: omap rdErr (inb s') ∨ e = NetEOF ∧ inb s' = [] ∧ errs s = [] ∧ zlen b = 0
  end.
Proof.
  intros He Hn. unfold errs in *. destruct e as [e|].
  - destruct He as [He|(-> & Hin & -> & ->)]; [by left|right]. by rewrite Hin.
  - destruct He as [? [?|?]]; auto.
Qed.

Lemma readSome_buf total s buf :
  rdOK s → rxBuf (rx s) = Some buf → rxN (rx s) < total ≤ maxMessageSize →
  ∃ k e s', readSome total s = (Ok (k, e), s') ∧ roundOK total s k e s'.
Proof.
  intros Hok Hbuf Hn. pose proof (ok_rx _ Hok) as [Hb (Hb1 & Hb2) Hpl Hnon]. rewrite Hbuf in Hb.
  destruct Hb as [Hbl Hbb]. unfold readSome. cm. rewrite Hbuf.
  destruct (netRead_spec (zlen buf - rxN (rx s)) s) as (b & e & s' & -> & Hrx & Hok' & Hd & Hbn & Hbo & He);
    [done|lia|]. cbn. pose proof (zlen_nonneg b).
  rewrite put_ok by lia. set (b' := take _ buf ++ _). cbn.
  assert (@put ConnErr buf (rxN (rx s)) b = Ok b') as Hput by (rewrite put_ok by lia; done).
  eexists (zlen b), e, _. split; [done|]. unfold roundOK, advance. cbn. rewrite Hrx. split_and!; try done.
  - split; cbn; [|apply Hok'|apply Hok'].
    split; cbn; [split; [by rewrite (put_zlen _ _ _ _ Hput)|exact (put_bytes _ _ _ _ Hbb Hbo Hput)]|lia|done|done].
  - unfold stream. cbn.
    pose proof (pending_grow (rx s) b b' buf (ok_rx _ Hok) Hbuf Hput) as Hg. cbn in Hg. rewrite Hg.
    rewrite <- app_assoc. f_equal. by rewrite Hd.
  - eapply round_errs; [exact He|lia].
Qed.

Lemma getMaxMsgBuffer_spec s :
  rdOK s → ∃ buf s', getMaxMsgBuffer s = (Ok buf, s') ∧ bufOK buf ∧ rx s' = rx s ∧ inb s' = inb s ∧
    Forall bufOK (pool s').
Proof.
  intros Hok. pose proof (ok_pool _ Hok) as Hp. unfold getMaxMsgBuffer. destruct (pool s) as [|b p] eqn:Hpp.
  - eexists _, s. split; [done|]. rewrite Hpp. split_and!; try done. split; [done|].
    apply Forall_replicate. unfold byte_ok. lia.
  - apply Forall_cons in Hp as [? ?]. eexists _, _. split; [done|]. done.
Qed.

Lemma readSome_nil s :
  rdOK s → rxBuf (rx s) = None →
  ∃ k e s', readSome headerLen s = (Ok (k, e), s') ∧ roundOK headerLen s k e s'.
Proof.
  intros Hok Hbuf. pose proof (ok_rx _ Hok) as [Hb (Hb1 & Hb2) Hpl Hnon]. rewrite Hbuf in Hb.
  destruct Hb as [Hb0 Hp0]. assert (rxNext (rx s) = 0) as Hnx by lia.
  unfold readSome. cm. rewrite Hbuf, decide_False by naive_solver.
  destruct (netRead_spec headerLen s) as (b & e & s' & -> & Hrx & Hok' & Hd & Hbn & Hbo & He); [done|done|].
  cbn. assert (pending (rx s) = []) as Hpe by (unfold pending; by rewrite Hbuf).
  case_decide as Hl; cbn.
  - destruct (getMaxMsgBuffer_spec s' Hok') as (buf & s1 & -> & [Hbl Hbb] & Hr1 & Hi1 & Hp1). cbn.
    assert (zlen b ≤ zlen buf) by (unfold headerLen, maxMessageSize in *; lia).
    rewrite put_ok by lia. set (b' := take _ buf ++ _). cbn.
    assert (@put ConnErr buf 0 b = Ok b') as Hput by (rewrite put_ok by lia; done).
    eexists (zlen b), e, _. split; [done|]. unfold roundOK, advance. cbn. rewrite Hr1, Hrx, Hi1, Hb0. cbn.
    split_and!; try done.
    + split; cbn; [|apply Hok'|done].
      split; cbn; [split; [by rewrite (put_zlen _ _ _ _ Hput)|exact (put_bytes _ _ _ _ Hbb Hbo Hput)]| |done|done].
      unfold headerLen, maxMessageSize in *. lia.
    + unfold stream. rewrite Hpe, Hd. unfold data, pending. cbn. rewrite Hnx. f_equal.
      exact (put_append _ _ _ _ Hput (Z.le_refl 0)).
    + eapply round_errs; [exact He|lia].
  - assert (b = []) as -> by (destruct b; [done|rewrite zlen_cons in Hl; pose proof (zlen_nonneg b); lia]).
    eexists 0, e, _. split; [done|]. unfold roundOK, advance. cbn. rewrite Hrx, Hb0.
    assert (withN (0 + 0) (rx s) = rx s) as -> by (destruct (rx s); cbn in *; by subst).
    split_and!; try done.
    + split; cbn; [apply Hok|apply Hok'..].
    + unfold stream. rewrite Hpe. unfold data in *. cbn. by rewrite Hpe, Hd.
    + destruct (rx s); cbn in *. by subst.
    + exact (round_errs headerLen headerLen [] s s' (0 + 0) e He (λ H, ltac:(done))).
Qed.

Lemma readSome_spec total s :
  rdOK s → rxN (rx s) < total ≤ maxMessageSize → (rxBuf (rx s) = None → total = headerLen) →
  ∃ k e s', readSome total s = (Ok (k, e), s') ∧ roundOK total s k e s'.
Proof.
  intros Hok Hn Hnone. destruct (rxBuf (rx s)) as [buf|] eqn:Hbuf; [by eapply readSome_buf|].
  rewrite Hnone by done. by apply readSome_nil.
Qed.

(** ** Reading until enough bytes are buffered *)

(** The fields [readNLocked] leaves alone. *)
Definition sameRx (r r' : rxState) : Prop :=
  rxCipher r' = rxCipher r ∧ rxNonce r' = rxNonce r ∧ rxNext r' = rxNext r ∧ rxPlain r' = rxPlain r.

(** The network failed: it reported its next error, or the peer has closed and
    fewer than [total] bytes are buffered. *)
Definition netFault (total : Z) (s s' : Rd) (e : NetErr) : Prop :=
  errs s = e :: errs s' ∨ e = NetEOF ∧ inb s' = [] ∧ errs s = [] ∧ rxN (rx s') < total.

Definition readNOK (total : Z) (s : Rd) (r : res ConnErr (Z * Z)) (s' : Rd) : Prop :=
  rdOK s' ∧ stream s' = stream s ∧ sameRx (rx s) (rx s') ∧
  (r = Ok (0, total) ∧ total ≤ rxN (rx s') ∧ is_Some (rxBuf (rx s')) ∧ errs s' = errs s ∨
   ∃ e, r = Err (ErrNet e) ∧ netFault total s s' e).

Lemma readLoop_spec fuel total : ∀ s,
  rdOK s → 0 < total ≤ maxMessageSize → (rxBuf (rx s) = None → total = headerLen) →
  total ≤ rxN (rx s) ∨ (length (inb s) + 1 ≤ fuel)%nat →
  ∃ r s', readLoop fuel total s = (r, s') ∧ readNOK total s r s'.
Proof.
  induction fuel as [|fuel IH]; intros s Hok Ht Hnone Hf; simpl readLoop; cm; case_decide as Hd.
  1,3: destruct (rxBuf (rx s)) as [buf|] eqn:Hbuf;
    [eexists _, _; split; [done|]; split_and!; try done; left; by rewrite Hbuf
    |pose proof (ok_buf _ (ok_rx _ Hok)) as Hb; rewrite Hbuf in Hb; lia].
  { lia. }
  destruct (readSome_spec total s) as (k & e & s' & -> & Hok' & Hst & Hrx & Hbn & He); [done|lia|done|]. cbn.
  destruct e as [e|]; cbn.
  - eexists _, _. split; [done|]. change (mkRdSt _ _ _) with (advance k s s').
    split_and!; [done|done|by rewrite Hrx|]. right. exists e. split; [done|].
    destruct He as [He|(-> & Hin & He & ->)]; [by left|right]. split_and!; try done. cbn. lia.
  - destruct He as [He Hl].
    destruct (IH (advance k s s')) as (r & s2 & Hgo & Hok2 & Hst2 & Hsame & Hr);
      [done|done| |destruct Hl; [right; lia|by left]|].
    { intros Hb. apply Hnone, Hbn. exact Hb. }
    exists r, s2. split; [exact Hgo|]. split_and!; [done|congruence| |].
    + unfold sameRx in *. rewrite Hrx in Hsame. exact Hsame.
    + rewrite He. destruct Hr as [Hr|(e & -> & Hfe)]; [by left|right]. exists e. split; [done|].
      unfold netFault in *. rewrite He. done.
Qed.

Lemma readNLocked_spec total s :
  rdOK s → 0 < total ≤ maxMessageSize → (rxBuf (rx s) = None → total = headerLen) →
  ∃ r s', readNLocked total s = (r, s') ∧ readNOK total s r s'.
Proof.
  intros Hok Ht Hnone. unfold readNLocked. rewrite decide_False by lia.
  apply readLoop_spec; try done. right. lia.
Qed.

(** ** Messages in the stream *)

(** The length of the message at the front of [l], from its header, and whether
    all of it is there. *)
Definition msgLen (l : bytes) : Z := headerLen + be_val 0 (take 2 (drop 1 l)).
Definition complete (l : bytes) : Prop := headerLen ≤ zlen l ∧ msgLen l ≤ zlen l.

Lemma msgLen_app l k : headerLen ≤ zlen l → msgLen (l ++ k) = msgLen l.
Proof.
  intros H. unfold msgLen, headerLen, zlen in *. rewrite drop_app_le, take_app_le by (rewrite ?length_drop; lia).
  done.
Qed.
Lemma msgLen_take n l : headerLen ≤ n → msgLen (take (Z.to_nat n) l) = msgLen l.
Proof.
  intros H. unfold msgLen, headerLen in *. rewrite skipn_firstn_comm, take_take. do 3 f_equal. lia.
Qed.
Lemma msgLen_bounds l : bytes_ok l → headerLen ≤ msgLen l < headerLen + 2 ^ 16.
Proof.
  intros H. unfold msgLen. assert (bytes_ok (take 2 (drop 1 l))) as Hb by by apply Forall_take, Forall_drop.
  pose proof (be_val_bound _ Hb) as Hv.
  assert (256 ^ zlen (take 2 (drop 1 l)) ≤ 256 ^ 2).
  { apply Z.pow_le_mono_r; [lia|]. unfold zlen. rewrite length_take. lia. }
  change (256 ^ 2) with (2 ^ 16) in *. lia.
Qed.

Lemma get_be_msgLen (b : bytes) (n : Z) :
  headerLen ≤ n ≤ zlen b → @get_be ConnErr 2 b 1 = Ok (msgLen b - headerLen).
Proof.
  intros H. unfold get_be, headerLen in *. change (1 + Z.of_nat 2) with 3.
  destruct (slice_ok (E := ConnErr) b 1 3) as (s & -> & _ & ->); [lia..|]. rewrite bind_ret.
  change (Z.to_nat (3 - 1)) with 2%nat. change (Z.to_nat 1) with 1%nat.
  unfold msgLen, headerLen. f_equal. lia.
Qed.

Lemma rdOK_set s r : rdOK s → rxOK r → rdOK (mkRdSt r (inb s) (pool s)).
Proof. intros [? ? ?] ?. by split. Qed.

Lemma rdOK_stream_bytes s : rdOK s → bytes_ok (stream s).
Proof.
  intros [[Hb _ _ _] Hin _]. apply Forall_app. split.
  - unfold pending. destruct (rxBuf (rx s)); [|constructor]. destruct Hb. by apply Forall_drop, Forall_take.
  - unfold data. induction Hin; simpl; [constructor|]. by apply Forall_app.
Qed.

Lemma pending_zlen r : rxOK r → zlen (pending r) = rxN r - rxNext r.
Proof.
  intros [Hb (? & ?) _ _]. unfold pending. destruct (rxBuf r) as [b|].
  - destruct Hb as [Hb _]. unfold zlen in *. rewrite length_drop, length_take. lia.
  - rewrite zlen_nil. lia.
Qed.

Lemma slice_pending {E} r b :
  rxOK r → rxBuf r = Some b → @slice E Z b (rxNext r) (rxN r) = Ok (pending r).
Proof.
  intros [Hb (? & ?) _ _] Hbuf. unfold pending. rewrite Hbuf in *. destruct Hb as [Hb _].
  destruct (slice_ok (E := E) b (rxNext r) (rxN r)) as (s & -> & _ & ->); [lia..|].
  rewrite skipn_firstn_comm. do 2 f_equal. lia.
Qed.

Lemma wholeMessageLocked_spec s :
  rdOK s →
  wholeMessageLocked s = (Ok None, s) ∧ ¬ complete (pending (rx s)) ∨
  wholeMessageLocked s =
    (Ok (Some (rxNext (rx s), msgLen (pending (rx s)))),
     mkRdSt (withNext (rxNext (rx s) + msgLen (pending (rx s))) (rx s)) (inb s) (pool s)) ∧
  complete (pending (rx s)) ∧ is_Some (rxBuf (rx s)).
Proof.
  intros Hok. pose proof (pending_zlen _ (ok_rx _ Hok)) as Hz. unfold complete.
  unfold wholeMessageLocked. cm. case_decide as Ha; cbn; [left; split; [done|lia]|].
  destruct (rxBuf (rx s)) as [b|] eqn:Hbuf.
  - rewrite (slice_pending _ _ (ok_rx _ Hok) Hbuf). cbn.
    rewrite (get_be_msgLen _ (zlen (pending (rx s)))) by lia. cbn.
    rewrite (Zplus_minus headerLen (msgLen (pending (rx s)))).
    case_decide; cbn; [left; split; [done|lia]|right; split; [done|]]. split; [lia|by eauto].
  - pose proof (ok_buf _ (ok_rx _ Hok)) as Hb. rewrite Hbuf in Hb.
    pose proof (ok_bounds _ (ok_rx _ Hok)). unfold headerLen in *. lia.
Qed.

(** The state with nothing decrypted, its buffered bytes at the head. *)
Definition sameKeys (s s' : Rd) : Prop :=
  rxCipher (rx s') = rxCipher (rx s) ∧ rxNonce (rx s') = rxNonce (rx s).

Lemma compactLocked_spec s :
  rdOK s → rxPlain (rx s) = (0, 0) →
  ∃ s', compactLocked s = (Ok (), s') ∧ rdOK s' ∧ stream s' = stream s ∧ inb s' = inb s ∧
    rxNext (rx s') = 0 ∧ rxPlain (rx s') = (0, 0) ∧ sameKeys s s'.
Proof.
  intros Hok Hp. pose proof (ok_rx _ Hok) as Hr. pose proof Hr as [Hb (Hb1 & Hb2) Hpl Hnon].
  unfold compactLocked. cm. case_decide as Hd; cbn.
  2: { exists s. split_and!; done || lia. }
  destruct (rxBuf (rx s)) as [b|] eqn:Hbuf; [|lia]. destruct Hb as [Hbl Hbb].
  rewrite (slice_pending _ _ Hr Hbuf). cbn.
  pose proof (pending_zlen _ Hr) as Hz. pose proof (zlen_nonneg (pending (rx s))).
  rewrite put_ok by lia. set (b' := take _ b ++ _). cbn.
  assert (@put ConnErr b 0 (pending (rx s)) = Ok b') as Hput by (rewrite put_ok by lia; done).
  assert (bytes_ok (pending (rx s))) as Hpb
    by (pose proof (rdOK_stream_bytes _ Hok) as Hs; by apply Forall_app in Hs as [? _]).
  eexists. split; [done|]. split_and!; try done.
  - apply rdOK_set; [done|]. split; cbn; [|lia|rewrite Hp; cbn; lia|done].
    split; [by rewrite (put_zlen _ _ _ _ Hput)|exact (put_bytes _ _ _ _ Hbb Hpb Hput)].
  - unfold stream, data. cbn. f_equal. unfold pending at 1. cbn.
    exact (put_append _ _ _ _ Hput (Z.le_refl 0)).
Qed.

Lemma releaseLocked_spec s :
  rdOK s → rxPlain (rx s) = (0, 0) → rxNext (rx s) = 0 →
  ∃ s', releaseLocked s = (Ok (), s') ∧ rdOK s' ∧ stream s' = stream s ∧ inb s' = inb s ∧
    rxNext (rx s') = 0 ∧ rxPlain (rx s') = (0, 0) ∧ sameKeys s s'.
Proof.
  intros Hok Hp Hn. pose proof (ok_rx _ Hok) as Hr. pose proof Hr as [Hb Hbd Hpl Hnon].
  unfold releaseLocked. cm. destruct (rxBuf (rx s)) as [b|] eqn:Hbuf; [|by exists s].
  case_decide as Hd; [|by exists s]. destruct Hd as [Hd0 _]. cbn.
  eexists. split; [done|]. split_and!; try done.
  - destruct Hok as [_ Hi Hpo]. split; cbn; [|done|by constructor].
    split; cbn; try done. by rewrite Hd0, Hp.
  - unfold stream, data. cbn. f_equal. unfold pending. cbn. by rewrite Hbuf, Hd0, Hn.
Qed.

(** A message was fetched: it is [buf[off:next]], and what follows it is the rest
    of the stream. *)
Definition fetched (s s1 : Rd) (off : Z) : Prop :=
  let m := take (Z.to_nat (msgLen (stream s))) (stream s) in
  rdOK s1 ∧ sameKeys s s1 ∧ errs s1 = errs s ∧ rxPlain (rx s1) = (0, 0) ∧
  0 ≤ off ∧ off + msgLen (stream s) = rxNext (rx s1) ∧ complete (stream s) ∧
  (∃ b, rxBuf (rx s1) = Some b ∧ slice (E := ConnErr) b off (rxNext (rx s1)) = Ok m) ∧
  stream s = m ++ stream s1.

(** The network failed before a whole message was there. *)
Definition starved (s s' : Rd) (e : NetErr) : Prop :=
  rdOK s' ∧ stream s' = stream s ∧ sameKeys s s' ∧ rxPlain (rx s') = (0, 0) ∧
  (errs s = e :: errs s' ∨ e = NetEOF ∧ inb s' = [] ∧ errs s = [] ∧ ¬ complete (stream s)).

(** [next] moved past a message that is buffered. *)
Lemma fetched_next s s0 :
  rdOK s0 → stream s0 = stream s → sameKeys s s0 → errs s0 = errs s → rxPlain (rx s0) = (0, 0) →
  headerLen ≤ rxN (rx s0) - rxNext (rx s0) → msgLen (stream s) ≤ rxN (rx s0) - rxNext (rx s0) →
  fetched s (mkRdSt (withNext (rxNext (rx s0) + msgLen (stream s)) (rx s0)) (inb s0) (pool s0))
    (rxNext (rx s0)).
Proof.
  intros Hok Hst Hk He Hp H3 Hm. pose proof (ok_rx _ Hok) as Hr. pose proof Hr as [Hb (Hb1 & Hb2) Hpl Hnon].
  pose proof (pending_zlen _ Hr) as Hz.
  pose proof (msgLen_bounds _ (rdOK_stream_bytes _ Hok)) as Hml. rewrite Hst in Hml. unfold headerLen in Hml, H3.
  destruct (rxBuf (rx s0)) as [b|] eqn:Hbuf; [|lia]. destruct Hb as [Hbl Hbb].
  set (t := msgLen (stream s)) in *.
  assert (take (Z.to_nat t) (stream s) = take (Z.to_nat t) (pending (rx s0))) as Htk.
  { rewrite <- Hst. unfold stream. apply take_app_le. unfold zlen in *. lia. }
  assert (zlen (pending (rx s0)) ≤ zlen (stream s)).
  { rewrite <- Hst. unfold stream. rewrite zlen_app. pose proof (zlen_nonneg (data s0)). lia. }
  unfold fetched. fold t. split_and!; try done; cbn; try lia.
  - apply rdOK_set; [done|]. split; cbn; [by rewrite Hbuf|lia|rewrite Hp; cbn; lia|done].
  - split; fold t; unfold headerLen; lia.
  - exists b. split; [done|]. fold t. rewrite Htk.
    destruct (slice_ok (E := ConnErr) b (rxNext (rx s0)) (rxNext (rx s0) + t)) as (sl & -> & _ & ->); [lia..|].
    f_equal. unfold pending. rewrite Hbuf, skipn_firstn_comm, take_take. f_equal. lia.
  - fold t. rewrite Htk, <- Hst. unfold stream. cbn. rewrite app_assoc. f_equal.
    rewrite <- (take_drop (Z.to_nat t) (pending (rx s0))) at 1. f_equal.
    unfold pending. cbn. rewrite Hbuf, drop_drop. f_equal. lia.
Qed.

(** ** Running the monad *)
Lemma run_ok {A B} (m : CM A) (f : A → CM B) s a s' : m s = (Ok a, s') → (m ≫= f) s = f a s'.
Proof. intros H. unfold mbind, CM_bind. by rewrite H. Qed.
Lemma run_err {A B} (m : CM A) (f : A → CM B) s e s' : m s = (Err e, s') → (m ≫= f) s = (Err e, s').
Proof. intros H. unfold mbind, CM_bind. by rewrite H. Qed.
Lemma run_get {B} (f : rxState → CM B) s : (getRx ≫= f) s = f (rx s) s.
Proof. done. Qed.
Lemma run_modify {B} g (f : () → CM B) s :
  (modifyRx g ≫= f) s = f () (mkRdSt (g (rx s)) (inb s) (pool s)).
Proof. done. Qed.
Lemma run_lift {A B} (a : A) (f : A → CM B) s : (lift (Ok a) ≫= f) s = f a s.
Proof. done. Qed.
Lemma run_deref {A B} (a : A) (f : A → CM B) s : (deref (Some a) ≫= f) s = f a s.
Proof. done. Qed.

Section aead.
Context {ae : AEAD}.

(** Nothing was lost: the buffered bytes and those to come are the stream. *)
Definition kept (s s' : Rd) : Prop :=
  rdOK s' ∧ stream s' = stream s ∧ sameKeys s s' ∧ rxPlain (rx s') = (0, 0).

Lemma readN_starved total s s0 s' e :
  kept s s0 → errs s0 = errs s → rxNext (rx s0) = 0 →
  total ≤ headerLen ∨ headerLen ≤ rxN (rx s0) ∧ total = msgLen (stream s) →
  readNOK total s0 (Err (ErrNet e)) s' → starved s s' e.
Proof.
  intros (Hok0 & Hst0 & [Hk1 Hk2] & Hp0) He0 Hn0 Ht (Hok & Hst & (Hc & Hnon & Hnx & Hp) & Hr).
  destruct Hr as [[Hr _]|(e' & [= <-] & Hf)]; [done|].
  unfold starved, sameKeys. rewrite <- He0. split_and!; try congruence.
  destruct Hf as [Hf|(-> & Hi & He & Hlt)]; [by left|right]. split_and!; try done.
  assert (stream s = pending (rx s')) as Hs.
  { rewrite <- Hst0, <- Hst. unfold stream, data. rewrite Hi. simpl. by rewrite app_nil_r. }
  pose proof (pending_zlen _ (ok_rx _ Hok)) as Hz. rewrite <- Hs in Hz.
  unfold complete, headerLen in *. intros [Hc1 Hc2]. destruct Ht as [Ht|[Ht1 Ht2]]; lia.
Qed.

Lemma fetchLocked_cases s s0 :
  kept s s0 → errs s0 = errs s → rxNext (rx s0) = 0 →
  (∃ e s', fetchLocked s0 = (Err (ErrNet e), s') ∧ starved s s' e) ∨
  (∃ s', fetchLocked s0 = (Err (ErrReadTooBig (msgLen (stream s))), s') ∧ kept s s' ∧
         msgLen (stream s) > maxMessageSize) ∨
  (∃ s1, fetchLocked s0 = (Ok (0, msgLen (stream s)), s1) ∧ fetched s s1 0).
Proof.
  intros Hk0 He0 Hn0. pose proof Hk0 as (Hok0 & Hst0 & [Hc0 Hno0] & Hp0). unfold fetchLocked.
  destruct (readNLocked_spec headerLen s0) as (r1 & s1 & H1 & HN1); [done|done|done|].
  pose proof HN1 as (Hok1 & Hst1 & (Hc1 & Hno1 & Hnx1 & Hp1) & [(-> & Hn1 & [b Hb] & He1)|(e & -> & _)]).
  2: { left. rewrite (run_err _ _ _ _ _ H1). do 2 eexists. split; [done|].
       eapply (readN_starved headerLen); [exact Hk0|done|done|by left|done]. }
  rewrite (run_ok _ _ _ _ _ H1), run_get, Hb, run_deref. cbn [fst]. change (0 + 1) with 1.
  pose proof (ok_buf _ (ok_rx _ Hok1)) as Hbb. rewrite Hb in Hbb. destruct Hbb as [Hbl Hbb].
  pose proof (ok_bounds _ (ok_rx _ Hok1)) as [_ Hmx].
  assert (kept s s1) as Hk1 by (split_and!; [done|congruence|split; congruence|congruence]).
  assert (msgLen b = msgLen (stream s)) as Hm.
  { rewrite <- Hst0, <- Hst1. unfold stream.
    rewrite msgLen_app by (rewrite pending_zlen by apply (ok_rx _ Hok1); lia).
    unfold pending. rewrite Hb, Hnx1, Hn0. change (Z.to_nat 0) with 0%nat. rewrite drop_0.
    by rewrite msgLen_take. }
  rewrite (get_be_msgLen b (rxN (rx s1))), run_lift by lia. rewrite Hm, Zplus_minus.
  pose proof (msgLen_bounds _ (rdOK_stream_bytes _ Hok0)) as Hml. rewrite Hst0 in Hml.
  destruct (decide (msgLen (stream s) ≤ maxMessageSize)) as [Hle|Hgt].
  2: { right. left. exists s1. unfold readNLocked at 1. rewrite decide_True by lia.
       rewrite (run_err _ _ _ (ErrReadTooBig (msgLen (stream s))) s1) by done.
       split_and!; [done|done|lia]. }
  destruct (readNLocked_spec (msgLen (stream s)) s1) as (r2 & s2 & H2 & HN2);
    [done|unfold headerLen in *; lia|by rewrite Hb|].
  pose proof HN2 as (Hok2 & Hst2 & (Hc2 & Hno2 & Hnx2 & Hp2) & [(-> & Hn2 & _ & He2)|(e & -> & _)]).
  2: { left. rewrite (run_err _ _ _ _ _ H2). do 2 eexists. split; [done|].
       eapply (readN_starved (msgLen (stream s))); [exact Hk1|congruence|congruence|right; lia|done]. }
  right. right. rewrite (run_ok _ _ _ _ _ H2), run_modify. eexists. split; [done|].
  assert (rxNext (rx s2) = 0) as Hz by congruence. cbn [snd].
  pose proof (fetched_next s s2) as Hf. rewrite Hz in Hf. apply Hf; try congruence; [split; congruence|lia..].
Qed.

(** [decryptOneLocked]: the network fails, the message is too big, or a whole
    message is decrypted. *)
Lemma decryptOneLocked_cases s :
  rdOK s →
  (∃ e s', decryptOneLocked s = (Err (ErrNet e), s') ∧ starved s s' e) ∨
  (∃ s', decryptOneLocked s = (Err (ErrReadTooBig (msgLen (stream s))), s') ∧ kept s s' ∧
         msgLen (stream s) > maxMessageSize) ∨
  (∃ s1 off, decryptOneLocked s = decryptLocked (off, msgLen (stream s)) s1 ∧ fetched s s1 off).
Proof.
  intros Hok. pose proof (ok_rx _ Hok) as Hr.
  set (s0 := mkRdSt (withPlain (0, 0) (rx s)) (inb s) (pool s)).
  assert (kept s s0) as (Hok0 & Hst0 & Hk0 & Hp0).
  { split_and!; try done. apply rdOK_set; [done|]. destruct Hr as [Hb ? ? ?].
    split; cbn; [|done|lia|done]. destruct (rxBuf (rx s)); [done|]. by destruct Hb. }
  unfold decryptOneLocked. rewrite run_modify. fold s0.
  destruct (wholeMessageLocked_spec s0 Hok0) as [[Hw _]|(Hw & [Hc1 Hc2] & _)]; rewrite (run_ok _ _ _ _ _ Hw).
  - destruct (compactLocked_spec s0) as (s1 & H1 & Hok1 & Hst1 & Hi1 & Hn1 & Hp1 & [? ?]); [done..|].
    rewrite (run_ok _ _ _ _ _ H1).
    destruct (releaseLocked_spec s1) as (s2 & H2 & Hok2 & Hst2 & Hi2 & Hn2 & Hp2 & [? ?]); [done..|].
    rewrite (run_ok _ _ _ _ _ H2). destruct Hk0 as [? ?].
    assert (inb s0 = inb s) by done.
    destruct (fetchLocked_cases s s2) as [(e & s' & Hfe & Hs)|[(s' & Hfe & Hk & Hm)|(s3 & Hfe & Hf)]];
      [split_and!; [done|congruence|split; congruence|done]|unfold errs; congruence|done|..].
    + left. rewrite (run_err _ _ _ _ _ Hfe). by eauto.
    + right. left. rewrite (run_err _ _ _ _ _ Hfe). by eauto.
    + right. right. rewrite (run_ok _ _ _ _ _ Hfe). by eauto.
  - right. right. pose proof (pending_zlen _ (ok_rx _ Hok0)) as Hz.
    assert (msgLen (pending (rx s0)) = msgLen (stream s)) as Hm.
    { rewrite <- Hst0. unfold stream. by rewrite msgLen_app. }
    rewrite Hm in *. do 2 eexists. split; [done|]. apply fetched_next; done || lia.
Qed.

(** ** Decrypting a message *)
Context {laws : AEADLaws ae}.

Definition msgAt (s : Rd) : bytes := take (Z.to_nat (msgLen (stream s))) (stream s).

(** What [decryptLocked] makes of the message at the front of the stream of [s]. *)
Inductive decrypted (s s2 : Rd) (key : bytes) (k : Z) : res ConnErr () → Prop :=
  | dec_type t : msgAt s !! 0%nat = Some t → t ≠ msgTypeRecord → sameKeys s s2 →
      decrypted s s2 key k (Err (ErrMsgType t))
  | dec_exhausted : k = invalidNonce → sameKeys s s2 → decrypted s s2 key k (Err ErrCipherExhausted)
  | dec_open : msgAt s !! 0%nat = Some msgTypeRecord →
      Open key (nonceOf k) (drop 3 (msgAt s)) [] = None → rxCipher (rx s2) = None →
      decrypted s s2 key k (Err ErrOpen)
  | dec_ok p : msgAt s !! 0%nat = Some msgTypeRecord → k < invalidNonce →
      Open key (nonceOf k) (drop 3 (msgAt s)) [] = Some p → plain (rx s2) = p →
      (rxPlain (rx s2)).2 = zlen p → rxCipher (rx s2) = Some key → rxNonce (rx s2) = nonceOf (k + 1) →
      decrypted s s2 key k (Ok ()).

(** The message's bytes in the buffer. *)
Lemma fetched_msg s s1 off b :
  fetched s s1 off → rxBuf (rx s1) = Some b →
  ∃ t, @idx ConnErr Z b off = Ok t ∧ msgAt s !! 0%nat = Some t ∧
    slice (E := ConnErr) b (off + headerLen) (off + msgLen (stream s)) = Ok (drop 3 (msgAt s)) ∧
    bytes_ok (drop 3 (msgAt s)) ∧ zlen (drop 3 (msgAt s)) = msgLen (stream s) - headerLen.
Proof.
  intros (Hok & _ & _ & _ & Ho & Hn & [Hc1 Hc2] & (b' & Hb' & Hsl) & Hst) Hb.
  rewrite Hb' in Hb. injection Hb as ->. rewrite <- Hn in Hsl. fold (msgAt s) in Hsl, Hst.
  pose proof (rdOK_stream_bytes _ Hok) as Hsb.
  pose proof (ok_rx _ Hok) as [Hbuf (_ & Hmx) _ _]. rewrite Hb' in Hbuf. destruct Hbuf as [Hbl Hbb].
  unfold slice in Hsl. case_decide as Hd; [|done]. injection Hsl as Hsl.
  set (t := msgLen (stream s)) in *.
  assert (zlen (msgAt s) = t) as Hz by (rewrite <- Hsl; unfold zlen in *; rewrite length_take, length_drop; lia).
  assert (headerLen ≤ t) as Ht.
  { destruct (decide (headerLen ≤ t)); [done|]. unfold t, msgLen in *.
    assert (bytes_ok (take 2 (drop 1 (msgAt s ++ stream s1)))) as Hx.
    { apply Forall_take, Forall_drop, Forall_app. split; [|done]. rewrite <- Hsl. by apply Forall_take, Forall_drop. }
    rewrite <- Hst in Hx. pose proof (be_val_bound _ Hx). lia. }
  unfold headerLen in *.
  destruct (idx_ok (E := ConnErr) b off) as (v & Hv & _); [lia|]. exists v. split_and!; [done|..].
  - unfold idx in Hv. rewrite decide_True in Hv by lia.
    rewrite <- Hsl, lookup_take_lt, lookup_drop by lia. rewrite Nat.add_0_r.
    destruct (b !! Z.to_nat off); by simplify_eq.
  - destruct (slice_ok (E := ConnErr) b (off + 3) (off + t)) as (x & -> & _ & ->); [lia..|].
    rewrite <- Hsl, skipn_firstn_comm, drop_drop. f_equal. f_equal; [lia|f_equal; lia].
  - rewrite <- Hsl. by apply Forall_drop, Forall_take, Forall_drop.
  - unfold zlen in *. rewrite length_drop. lia.
Qed.

Lemma decryptLocked_spec s s1 off key k :
  fetched s s1 off → rxCipher (rx s) = Some key → rxNonce (rx s) = nonceOf k → 0 ≤ k < 2 ^ 64 →
  ∃ r s2, decryptLocked (off, msgLen (stream s)) s1 = (r, s2) ∧ rdOK s2 ∧ stream s2 = stream s1 ∧
    errs s2 = errs s ∧ decrypted s s2 key k r.
Proof.
  intros Hf Hkey Hno Hk. pose proof Hf as (Hok & [Hc1 Hn1] & He & Hp & Ho & Hnx & Hcm & (b & Hb & _) & Hst).
  destruct (fetched_msg _ _ _ _ Hf Hb) as (t & Hidx & Ht & Hsl & Hctb & Hctl).
  pose proof (ok_rx _ Hok) as [Hbuf (Hb1 & Hb2) _ _]. rewrite Hb in Hbuf. destruct Hbuf as [Hbl Hbb].
  unfold decryptLocked. rewrite run_get, Hb, run_deref. cbn [fst snd]. rewrite Hidx, run_lift.
  case_decide as Hty.
  { do 2 eexists. split; [done|]. split_and!; try done. by econstructor. }
  assert (t = msgTypeRecord) as -> by (by destruct (decide (t = msgTypeRecord))).
  rewrite Hsl, run_lift, Hn1, Hno, nonceOf_valid by done. case_bool_decide as Hv; cbn [negb].
  2: { do 2 eexists. split; [done|]. split_and!; try done. constructor; [unfold invalidNonce in *; lia|done]. }
  rewrite Hc1, Hkey, run_deref, nonceOf_incr, run_lift, run_modify by lia.
  unfold invalidNonce in Hv.
  destruct (Open key (nonceOf k) (drop 3 (msgAt s)) []) as [p|] eqn:HO.
  - pose proof (Open_length _ _ _ _ _ HO) as Hpl. pose proof (Open_bytes _ _ _ _ _ Hctb HO) as Hpb.
    unfold Overhead in Hpl. pose proof (zlen_nonneg p). unfold headerLen in *.
    assert (put (E := ConnErr) b (off + 3) p =
            Ok (take (Z.to_nat (off + 3)) b ++ p ++ drop (Z.to_nat (off + 3) + length p) b)) as Hput
      by (apply put_ok; lia).
    set (b' := take _ b ++ _) in Hput. rewrite Hput, run_lift. do 2 eexists. split; [done|].
    split_and!; try done.
    + apply (rdOK_set s1); [done|]. split; cbn; [|done|lia|exists (k + 1); split; [lia|done]].
      split; [by rewrite (put_zlen _ _ _ _ Hput)|exact (put_bytes _ _ _ _ Hbb Hpb Hput)].
    + unfold stream, data. cbn. f_equal. unfold pending. cbn. rewrite Hb, !skipn_firstn_comm.
      by rewrite (put_drop _ _ _ _ _ Hput) by lia.
    + eapply (dec_ok _ _ _ _ p); try done; cbn; try congruence.
      unfold plain. cbn. rewrite <- (put_read _ _ _ _ Hput) at 2. f_equal. unfold zlen. lia.
  - do 2 eexists. split; [done|]. split_and!; try done.
    + apply (rdOK_set s1); [done|]. split; cbn; [|done|lia|exists (k + 1); split; [lia|done]]. by rewrite Hb.
    + by apply dec_open.
Qed.

(** ** Any peer: termination and no panics *)
Definition fine {A} (r : res ConnErr A) : Prop := r ≠ Panic ∧ r ≠ Err ErrFuel.

Lemma decryptOneLocked_total s key :
  rdOK s → rxCipher (rx s) = Some key →
  ∃ r s', decryptOneLocked s = (r, s') ∧ rdOK s' ∧ fine r ∧
    (r = Ok () → rxCipher (rx s') = Some key ∧ zlen (stream s') < zlen (stream s)).
Proof.
  intros Hok Hkey. destruct (ok_nonce _ (ok_rx _ Hok)) as (k & Hk & Hno).
  destruct (decryptOneLocked_cases s Hok) as [(e & s' & -> & Hs)|[(s' & -> & Hs & _)|(s1 & off & -> & Hf)]].
  1,2: eexists _, s'; split; [done|]; split_and!; [apply Hs|done|done].
  destruct (decryptLocked_spec s s1 off key k) as (r & s2 & -> & Hok2 & Hst2 & _ & Hd); [done..|].
  exists r, s2. split; [done|]. split_and!; [done|by destruct Hd|].
  intros ->. inversion Hd; subst. split; [done|].
  destruct Hf as (_ & _ & _ & _ & _ & _ & [Hc1 Hc2] & _ & Hst). rewrite Hst2, Hst, zlen_app.
  pose proof (msgLen_bounds _ (rdOK_stream_bytes _ Hok)) as [Hm _]. unfold headerLen, zlen in *.
  rewrite length_take. lia.
Qed.

Lemma plainLoop_total fuel key : ∀ s,
  rdOK s → rxCipher (rx s) = Some key → zlen (stream s) < Z.of_nat fuel →
  ∃ r s', plainLoop fuel s = (r, s') ∧ rdOK s' ∧ fine r ∧ (r = Ok () → (rxPlain (rx s')).2 ≠ 0).
Proof.
  induction fuel as [|fuel IH]; intros s Hok Hkey Hf; [pose proof (zlen_nonneg (stream s)); lia|].
  cbn [plainLoop]. rewrite run_get. case_decide as Hd; [|by eexists _, s].
  destruct (decryptOneLocked_total s key) as (r & s' & H & Hok' & Hfine & Hr); [done..|].
  destruct r as [[]|e|]; [|rewrite (run_err _ _ _ _ _ H); by eexists _, s'|by destruct Hfine].
  destruct Hr as [Hc Hl]; [done|]. rewrite (run_ok _ _ _ _ _ H). apply IH; done || lia.
Qed.

Lemma inbBytes_stream s : rdOK s → inbBytes s = zlen (stream s).
Proof. intros Hok. unfold inbBytes, stream. rewrite zlen_app, pending_zlen by apply (ok_rx _ Hok). done. Qed.

(** The end of [Read]: some of the plaintext is handed out. *)
Lemma Read_hand_out n s s' key :
  rxCipher (rx s) = Some key → plainLoop (S (Z.to_nat (inbBytes s))) s = (Ok (), s') →
  rdOK s' → (rxPlain (rx s')).2 ≠ 0 → 0 ≤ n →
  ∃ d s2, Read n s = (Ok d, s2) ∧ rdOK s2 ∧ plain (rx s') = d ++ plain (rx s2) ∧
    zlen d = Z.min n (zlen (plain (rx s'))) ∧ 0 < zlen (plain (rx s')) ∧
    stream s2 = stream s' ∧ inb s2 = inb s' ∧ sameKeys s' s2.
Proof.
  intros Hkey Hrun Hok Hp Hn. pose proof (ok_rx _ Hok) as [Hb (Hb1 & Hb2) (Hp1 & Hp2 & Hp3) Hnon].
  destruct (rxBuf (rx s')) as [b|] eqn:Hbuf; [|by destruct Hb]. destruct Hb as [Hbl Hbb].
  unfold Read. rewrite run_get, Hkey.
  rewrite (run_ok (λ s, plainLoop (S (Z.to_nat (inbBytes s))) s) _ s () s' Hrun).
  rewrite run_get, Hbuf, run_deref. destruct (rxPlain (rx s')) as [off len] eqn:Hpl. cbn [fst snd] in *.
  destruct (slice_ok (E := ConnErr) b off (off + Z.min n len)) as (d & Hsl & Hdl & Hd); [lia..|].
  rewrite Hsl, run_lift, run_modify.
  assert (plain (rx s') = take (Z.to_nat len) (drop (Z.to_nat off) b)) as Hpp
    by (unfold plain; by rewrite Hbuf, Hpl).
  assert (zlen (plain (rx s')) = len) as Hlen
    by (rewrite Hpp; unfold zlen in *; rewrite length_take, length_drop; lia).
  do 2 eexists. split; [done|]. rewrite Hlen. split_and!; try done; try lia.
  - apply rdOK_set; [done|]. split; cbn; [by rewrite Hbuf|done| |done]. case_decide; cbn; lia.
  - rewrite Hpp. unfold plain. cbn. rewrite Hbuf, Hd. case_decide as Hz; cbn.
    + rewrite app_nil_r. f_equal. lia.
    + rewrite <- (take_drop (Z.to_nat (off + Z.min n len - off)) (take (Z.to_nat len) _)).
      rewrite take_take, skipn_firstn_comm, drop_drop. f_equal; [f_equal; lia|]. f_equal; [lia|f_equal; lia].
Qed.

Lemma Read_step_total n s :
  rdOK s → 0 ≤ n →
  ∃ r s', Read n s = (r, s') ∧ rdOK s' ∧ fine r ∧ (∀ d, r = Ok d → zlen d ≤ n ∧ (0 < n → d ≠ [])).
Proof.
  intros Hok Hn. destruct (rxCipher (rx s)) as [key|] eqn:Hkey.
  2: { unfold Read. rewrite run_get, Hkey. by eexists _, s. }
  destruct (plainLoop_total (S (Z.to_nat (inbBytes s))) key s) as (r & s' & Hrun & Hok' & Hfine & Hp); [done|done| |].
  { rewrite inbBytes_stream by done. pose proof (zlen_nonneg (stream s)). lia. }
  destruct r as [[]|e|]; [|exists (Err e), s'|by destruct Hfine].
  - destruct (Read_hand_out n s s' key) as (d & s2 & -> & Hok2 & _ & Hl & Hpos & _); [by auto..|].
    exists (Ok d), s2. split_and!; try done. intros d' [= <-]. split; [lia|].
    intros Hn0 ->. rewrite zlen_nil in Hl. lia.
  - unfold Read. rewrite run_get, Hkey.
    rewrite (run_err (λ s, plainLoop (S (Z.to_nat (inbBytes s))) s) _ s e s' Hrun).
    split_and!; try done. split; [done|]. intros [= ->]. by destruct Hfine as [_ []].
Qed.
End aead.
