(* ===== verification/ControlStreamThms.v ===== *)
(** * The control connection as a byte stream

    What one end writes, the other reads: the frames [Write] puts on the wire are
    decrypted by [Read] to the bytes written, in order, however the network cuts
    them and whatever temporary errors it reports.  [Write] uses each nonce once
    and stops before the last. *)

From S2P Require Import Prelude Bytes ControlConn ControlConnThms.

Section aead.
Context {ae : AEAD} {laws : AEADLaws ae}.

(** ** Frames *)
Definition frame (key : bytes) (k : Z) (p : bytes) : bytes :=
  (msgTypeRecord :: be_bytes 2 (u16 (zlen p + Overhead))) ++ Seal key (nonceOf k) p [].
Fixpoint frames (key : bytes) (k : Z) (ps : list bytes) : bytes :=
  match ps with [] => [] | p :: ps => frame key k p ++ frames key (k + 1) ps end.

(** What a frame may carry. *)
Definition piece (p : bytes) : Prop := bytes_ok p ∧ zlen p ≤ maxPlaintextSize.

Lemma frames_app key ps qs : ∀ k, frames key k (ps ++ qs) = frames key k ps ++ frames key (k + zlen ps) qs.
Proof.
  induction ps as [|p ps IH]; intros k; cbn [frames app]; [by rewrite zlen_nil, Z.add_0_r|].
  rewrite IH, <- app_assoc, zlen_cons. do 3 f_equal. lia.
Qed.

Lemma frame_zlen key k p : zlen (frame key k p) = headerLen + zlen p + Overhead.
Proof. unfold frame, headerLen. rewrite zlen_app, Seal_length. rewrite zlen_cons. unfold zlen. simpl. lia. Qed.

Lemma frame_msgLen key k p l : piece p → msgLen (frame key k p ++ l) = zlen (frame key k p).
Proof.
  intros [_ Hp]. pose proof (zlen_nonneg p). rewrite frame_zlen. unfold msgLen, frame.
  change (drop 1 (((?x :: ?b) ++ ?c) ++ ?d)) with ((b ++ c) ++ d).
  rewrite <- app_assoc, take_app_length' by (by rewrite be_bytes_length).
  unfold maxPlaintextSize, maxCiphertextSize, maxMessageSize, Overhead in *.
  rewrite uN_small, be_val_bytes by lia. lia.
Qed.

Lemma frame_front key k p l :
  piece p → let m := take (Z.to_nat (zlen (frame key k p))) (frame key k p ++ l) in
  m !! 0%nat = Some msgTypeRecord ∧ drop 3 m = Seal key (nonceOf k) p [].
Proof.
  intros Hp. cbv zeta. rewrite take_app_length' by (unfold zlen; lia). split; [done|].
  unfold frame. by apply drop_app_length'.
Qed.

(** ** Reading frames *)

(** The connection will deliver [rest]: it has the key and the nonce of the frames
    to come. *)
Definition delivers (key : bytes) (s : Rd) (rest : bytes) : Prop :=
  rdOK s ∧ rxCipher (rx s) = Some key ∧
  ∃ k ps, 0 ≤ k ∧ k + zlen ps ≤ invalidNonce ∧ rxNonce (rx s) = nonceOf k ∧ Forall piece ps ∧
    stream s = frames key k ps ∧ rest = plain (rx s) ++ concat ps.

(** An error of the network: its next one, or the end of the stream. *)
Definition netError (s s' : Rd) (rest : bytes) (e : NetErr) : Prop :=
  errs s = e :: errs s' ∨ e = NetEOF ∧ inb s' = [] ∧ errs s = [] ∧ rest = [].

Lemma plain_nil r : (rxPlain r).2 = 0 → plain r = [].
Proof. intros H. unfold plain. destruct (rxBuf r); [by rewrite H|done]. Qed.

Lemma decryptOneLocked_delivers key s rest :
  delivers key s rest → (rxPlain (rx s)).2 = 0 →
  (∃ e s', decryptOneLocked s = (Err (ErrNet e), s') ∧ delivers key s' rest ∧ netError s s' rest e) ∨
  (∃ s', decryptOneLocked s = (Ok (), s') ∧ delivers key s' rest ∧ errs s' = errs s ∧
         zlen (stream s') < zlen (stream s)).
Proof.
  intros (Hok & Hkey & k & ps & Hk & Hkn & Hno & Hps & Hst & ->) Hp0. rewrite (plain_nil _ Hp0).
  destruct (decryptOneLocked_cases s Hok) as [(e & s' & Hd & Hs)|[(s' & _ & _ & Hbig)|(s1 & off & Hd & Hf)]].
  - left. exists e, s'. destruct Hs as (Hok' & Hst' & [Hc Hn] & Hp & He). split_and!; [done| |].
    + split_and!; [done|congruence|]. exists k, ps. rewrite (plain_nil (rx s')) by by rewrite Hp.
      split_and!; congruence || done.
    + destruct He as [He|(-> & Hi & He & Hcm)]; [by left|right]. split_and!; try done.
      destruct ps as [|p ps]; [done|]. destruct Hcm. rewrite Hst. cbn [frames].
      apply Forall_cons in Hps as [Hpp _]. unfold complete. rewrite frame_msgLen, zlen_app, frame_zlen by done.
      pose proof (zlen_nonneg p). pose proof (zlen_nonneg (frames key (k + 1) ps)). unfold Overhead. lia.
  - exfalso. rewrite Hst in Hbig. destruct ps as [|p ps]; [done|]. apply Forall_cons in Hps as [Hpp _].
    cbn [frames] in Hbig. rewrite frame_msgLen, frame_zlen in Hbig by done. destruct Hpp as [_ Hpp].
    unfold maxPlaintextSize, maxCiphertextSize, headerLen in *. lia.
  - right. pose proof Hf as (_ & _ & _ & _ & _ & _ & [Hcm _] & _ & Hst1).
    destruct ps as [|p ps]; [by rewrite Hst in Hcm|]. apply Forall_cons in Hps as [Hpp Hps].
    cbn [frames] in Hst. rewrite zlen_cons in Hkn. pose proof (zlen_nonneg ps).
    pose proof (frame_msgLen key k p (frames key (k + 1) ps) Hpp) as Hml. rewrite <- Hst in Hml.
    destruct (frame_front key k p (frames key (k + 1) ps) Hpp) as [Hm0 Hm3].
    rewrite <- Hst, <- Hml in Hm0, Hm3. fold (msgAt s) in Hm0, Hm3, Hst1.
    destruct (decryptLocked_spec s s1 off key k) as (r & s2 & Hrun & Hok2 & Hst2 & He2 & Hdec); [try done..|].
    { unfold invalidNonce in *. lia. }
    assert (stream s1 = frames key (k + 1) ps) as Hs1.
    { apply (app_inv_head (msgAt s)). rewrite <- Hst1, Hst. f_equal. unfold msgAt.
      rewrite Hml, Hst. symmetry. apply take_app_length'. unfold zlen. lia. }
    pose proof (Open_Seal key (nonceOf k) p []) as HO. rewrite <- Hm3 in HO.
    destruct Hdec as [t Ht Hne _|Hex _|_ Hno' _|q _ _ HO' Hpl Hpl2 Hc Hn'].
    + congruence.
    + lia.
    + rewrite HO in Hno' by apply Hpp. done.
    + rewrite HO in HO' by apply Hpp. injection HO' as <-.
      exists s2. split_and!; [by rewrite Hd| |done|].
      * split_and!; [done|done|]. exists (k + 1), ps. split_and!; try done; try lia; [congruence|].
        simpl. by rewrite Hpl.
      * rewrite Hst2, Hs1, Hst, zlen_app, frame_zlen. pose proof (zlen_nonneg p). unfold headerLen, Overhead. lia.
Qed.

Lemma plainLoop_delivers key rest fuel : ∀ s,
  delivers key s rest → zlen (stream s) < Z.of_nat fuel →
  (∃ e s', plainLoop fuel s = (Err (ErrNet e), s') ∧ delivers key s' rest ∧ netError s s' rest e) ∨
  (∃ s', plainLoop fuel s = (Ok (), s') ∧ delivers key s' rest ∧ errs s' = errs s ∧ (rxPlain (rx s')).2 ≠ 0).
Proof.
  induction fuel as [|fuel IH]; intros s Hd Hf; [pose proof (zlen_nonneg (stream s)); lia|].
  cbn [plainLoop]. rewrite run_get. case_decide as Hp; [|right; by exists s].
  destruct (decryptOneLocked_delivers key s rest Hd Hp) as [(e & s' & H & ? & ?)|(s' & H & Hd' & He & Hl)].
  - left. rewrite (run_err _ _ _ _ _ H). by eauto.
  - rewrite (run_ok _ _ _ _ _ H). destruct (IH s' Hd') as [(e & s2 & -> & ? & Hne)|(s2 & -> & ? & ? & ?)]; [lia|..].
    + left. exists e, s2. split_and!; try done. unfold netError in *. by rewrite <- He.
    + right. exists s2. split_and!; congruence || done.
Qed.

(** One [Read] of the stream. *)
Lemma Read_delivers key n s rest :
  delivers key s rest → 0 < n →
  (∃ e s', Read n s = (Err (ErrNet e), s') ∧ delivers key s' rest ∧ netError s s' rest e) ∨
  (∃ d rest' s', Read n s = (Ok d, s') ∧ rest = d ++ rest' ∧ d ≠ [] ∧ zlen d ≤ n ∧
     delivers key s' rest' ∧ errs s' = errs s).
Proof.
  intros Hd Hn. pose proof Hd as (Hok & Hkey & _).
  destruct (plainLoop_delivers key rest (S (Z.to_nat (inbBytes s))) s Hd)
    as [(e & s' & H & Hd' & He)|(s' & H & Hd' & He & Hp)].
  { rewrite inbBytes_stream by done. pose proof (zlen_nonneg (stream s)). lia. }
  - left. exists e, s'. split_and!; try done. unfold Read. rewrite run_get, Hkey.
    by rewrite (run_err (λ s, plainLoop (S (Z.to_nat (inbBytes s))) s) _ s (ErrNet e) s' H).
  - right. pose proof Hd' as (Hok' & Hkey' & k & ps & Hk & Hkn & Hno & Hps & Hst & ->).
    destruct (Read_hand_out n s s' key) as (d & s2 & Hr & Hok2 & Hpl & Hdl & Hpos & Hst2 & Hi2 & [Hc Hn2]);
      [done|done|done|done|lia|].
    exists d, (plain (rx s2) ++ concat ps), s2. split_and!; [done|by rewrite Hpl, app_assoc| |lia| |].
    + intros ->. rewrite zlen_nil in Hdl. lia.
    + split_and!; [done|congruence|]. exists k, ps. split_and!; congruence || done.
    + unfold errs in *. by rewrite Hi2.
Qed.

(** ** Many reads *)

(** Calls of [Read] with buffers of the sizes [ns]: what they delivered and the
    errors they returned. *)
Fixpoint reads (ns : list Z) (s : Rd) : bytes * list (res ConnErr bytes) * Rd :=
  match ns with
  | [] => ([], [], s)
  | n :: ns =>
      let '(r, s) := Read n s in
      let '(d, rs, s) := reads ns s in
      (match r with Ok b => b | _ => [] end ++ d, r :: rs, s)
  end.

Lemma reads_delivers key ns : ∀ s rest,
  delivers key s rest → Forall (Z.lt 0) ns →
  ∃ d rs s' rest', reads ns s = (d, rs, s') ∧ rest = d ++ rest' ∧ delivers key s' rest' ∧
    Forall (λ r, (∃ b, r = Ok b) ∨ ∃ e, r = Err (ErrNet e)) rs ∧
    (zlen rest + zlen (errs s) ≤ zlen ns → rest' = []).
Proof.
  induction ns as [|n ns IH]; intros s rest Hd Hns; cbn [reads].
  { exists [], [], s, rest. split_and!; try done. pose proof (zlen_nonneg (errs s)).
    destruct rest; [done|]. rewrite zlen_cons, zlen_nil. pose proof (zlen_nonneg rest). lia. }
  apply Forall_cons in Hns as [Hn Hns].
  destruct (Read_delivers key n s rest Hd Hn)
    as [(e & s' & -> & Hd' & He)|(b & rest1 & s' & -> & -> & Hb & _ & Hd' & He)].
  - destruct (IH s' rest Hd' Hns) as (d & rs & s2 & rest' & -> & Hr & Hd2 & Hrs & Hl).
    exists d, (Err (ErrNet e) :: rs), s2, rest'. split_and!; try done; [constructor; eauto|].
    rewrite zlen_cons. intros Hz. destruct He as [He|(_ & _ & _ & ->)].
    + apply Hl. rewrite He, zlen_cons in Hz. lia.
    + symmetry in Hr. by apply app_eq_nil in Hr as [_ ?].
  - destruct (IH s' rest1 Hd' Hns) as (d & rs & s2 & rest' & -> & Hr & Hd2 & Hrs & Hl).
    exists (b ++ d), (Ok b :: rs), s2, rest'. split_and!; try done; [by rewrite Hr, app_assoc|constructor; eauto|].
    rewrite zlen_cons, zlen_app, <- He. intros Hz. apply Hl.
    destruct b as [|x b]; [done|]. rewrite zlen_cons in Hz. pose proof (zlen_nonneg b). lia.
Qed.

(** ** Writing *)

(** The pieces of [bs]: none is empty, all but the last are full. *)
Record cut (ps : list bytes) (bs : bytes) : Prop := {
  cut_concat : concat ps = bs;
  cut_sizes : Forall (λ p, 0 < zlen p ≤ maxPlaintextSize) ps;
  cut_full i p : ps !! i = Some p → (S i < length ps)%nat → zlen p = maxPlaintextSize
}.

Lemma cut_one bs : bs ≠ [] → zlen bs ≤ maxPlaintextSize → cut [bs] bs.
Proof.
  intros Hne Hl. split; [by rewrite concat_cons, concat_nil, app_nil_r| |].
  - constructor; [|done]. split; [|done]. destruct bs as [|x bs]; [done|].
    rewrite zlen_cons. pose proof (zlen_nonneg bs). lia.
  - intros i p _ Hi. simpl in Hi. lia.
Qed.
Lemma cut_cons bs ps :
  maxPlaintextSize < zlen bs → cut ps (drop (Z.to_nat maxPlaintextSize) bs) →
  cut (take (Z.to_nat maxPlaintextSize) bs :: ps) bs.
Proof.
  intros Hl [Hc Hs Hf].
  assert (zlen (take (Z.to_nat maxPlaintextSize) bs) = maxPlaintextSize) as Hz.
  { unfold zlen in *. rewrite length_take. unfold maxPlaintextSize, maxCiphertextSize, maxMessageSize, Overhead in *. lia. }
  split.
  - rewrite concat_cons, Hc. apply take_drop.
  - constructor; [|done]. rewrite Hz. done.
  - intros [|i] p Hi Hlt; simpl in *; [by injection Hi as <-|]. apply (Hf i); [done|lia].
Qed.

Lemma encryptLocked_spec key k p err :
  0 ≤ k < 2 ^ 64 →
  encryptLocked p (mkTx (Some key) (nonceOf k) err) =
  if decide (k < invalidNonce) then Ok (frame key k p, mkTx (Some key) (nonceOf (k + 1)) err)
  else Err ErrCipherExhausted.
Proof.
  intros Hk. unfold encryptLocked. cbn [txNonce txCipher txErr]. rewrite nonceOf_valid by done.
  case_bool_decide; case_decide; try done. cbn [negb]. by rewrite nonceOf_incr by lia.
Qed.

(** The outcome of writing the pieces [ps] from nonce [k]: all of them are on the
    wire, or the first [m] and part of the next. *)
Inductive written (key : bytes) (k : Z) (ps : list bytes) (w w' : NetWriter)
    : Z → res ConnErr () → bytes → option ConnErr → Prop :=
  | wr_all :
      nwSent w' = nwSent w ++ frames key k ps → k + zlen ps ≤ invalidNonce →
      written key k ps w w' (zlen (concat ps)) (Ok ()) (nonceOf (k + zlen ps)) None
  | wr_exhausted m :
      (m < length ps)%nat → k + Z.of_nat m = invalidNonce →
      nwSent w' = nwSent w ++ frames key k (take m ps) →
      written key k ps w w' (zlen (concat (take m ps))) (Err ErrCipherExhausted)
        (nonceOf (k + Z.of_nat m)) None
  | wr_failed m p j e :
      ps !! m = Some p → k + Z.of_nat m < invalidNonce →
      nwSent w' = nwSent w ++ frames key k (take m ps) ++ take j (frame key (k + Z.of_nat m) p) →
      written key k ps w w' (zlen (concat (take m ps))) (Err (ErrNet e))
        (nonceOf (k + Z.of_nat m + 1)) (Some (ErrPartialWrite e)).

Lemma netWrite_cases b w :
  (∃ w', netWrite b w = (None, w') ∧ nwSent w' = nwSent w ++ b) ∨
  (∃ e j w', netWrite b w = (Some e, w') ∧ nwSent w' = nwSent w ++ take j b).
Proof. unfold netWrite. destruct (nwOutcomes w) as [|[[j e]|] os]; eauto 10. Qed.

(** One more piece before the others. *)
Lemma written_cons key k p ps w w1 w' sent r n e :
  nwSent w1 = nwSent w ++ frame key k p → k < invalidNonce →
  written key (k + 1) ps w1 w' sent r n e → written key k (p :: ps) w w' (zlen p + sent) r n e.
Proof.
  intros Hw Hk [Hs Hn|m Hm Hn Hs|m q j e' Hm Hn Hs].
  - rewrite <- zlen_app, <- concat_cons. replace (k + 1 + zlen ps) with (k + zlen (p :: ps)) by (rewrite zlen_cons; lia).
    constructor; [cbn [frames]; by rewrite Hs, Hw, app_assoc|rewrite zlen_cons; lia].
  - rewrite <- zlen_app. change (p ++ concat (take m ps)) with (concat (take (S m) (p :: ps))).
    replace (k + 1 + Z.of_nat m) with (k + Z.of_nat (S m)) in * by lia.
    constructor; [simpl; lia|done|]. cbn [take frames]. by rewrite Hs, Hw, app_assoc.
  - rewrite <- zlen_app. change (p ++ concat (take m ps)) with (concat (take (S m) (p :: ps))).
    replace (k + 1 + Z.of_nat m) with (k + Z.of_nat (S m)) in * by lia.
    apply (wr_failed _ _ _ _ _ (S m) q j); [done|done|]. cbn [take frames]. by rewrite Hs, Hw, <- !app_assoc.
Qed.

Lemma cut_nil_inv ps : cut ps [] → ps = [].
Proof.
  intros [Hc Hs _]. destruct ps as [|p ps]; [done|]. rewrite concat_cons in Hc.
  apply app_eq_nil in Hc as [-> _]. apply Forall_cons in Hs as [[Hs _] _]. done.
Qed.

Definition toSend (bs : bytes) : bytes :=
  if decide (zlen bs > maxPlaintextSize) then take (Z.to_nat maxPlaintextSize) bs else bs.

Lemma cut_step bs ps :
  bs ≠ [] → cut ps (drop (length (toSend bs)) bs) → cut (toSend bs :: ps) bs.
Proof.
  unfold toSend. intros Hne. case_decide as Hl; intros Hc.
  - apply cut_cons; [lia|]. rewrite length_take in Hc.
    replace (Z.to_nat maxPlaintextSize) with (Z.to_nat maxPlaintextSize `min` length bs)%nat; [done|].
    unfold zlen in *. lia.
  - rewrite drop_all in Hc. apply cut_nil_inv in Hc as ->. apply cut_one; [done|lia].
Qed.

Lemma toSend_pos bs : bs ≠ [] → (0 < length (toSend bs))%nat.
Proof.
  intros Hne. unfold toSend. case_decide; [|destruct bs; simpl; done || lia].
  rewrite length_take. unfold zlen, maxPlaintextSize, maxCiphertextSize, maxMessageSize, Overhead in *. lia.
Qed.

Lemma cut_exists bs : ∃ ps, cut ps bs.
Proof.
  remember (length bs) as n eqn:Hn. revert bs Hn. induction (lt_wf n) as [n _ IH]. intros bs ->.
  destruct (decide (bs = [])) as [->|Hne]; [exists []; split; [done|constructor|done]|].
  pose proof (toSend_pos bs Hne).
  destruct (IH (length (drop (length (toSend bs)) bs))) with (bs := drop (length (toSend bs)) bs) as [ps Hps];
    [rewrite length_drop; destruct bs; simpl in *; done || lia|done|].
  exists (toSend bs :: ps). by apply cut_step.
Qed.

Lemma writeLoop_step fuel bs sent t w :
  bs ≠ [] →
  writeLoop (S fuel) bs sent t w =
  match encryptLocked (toSend bs) t with
  | Ok (ciphertext, t) =>
      match netWrite ciphertext w with
      | (Some e, w) => (sent, Err (ErrNet e), mkTx (txCipher t) (txNonce t) (Some (ErrPartialWrite e)), w)
      | (None, w) => writeLoop fuel (drop (length (toSend bs)) bs) (sent + zlen (toSend bs)) t w
      end
  | Err e => (sent, Err e, t, w)
  | Panic => (sent, Panic, t, w)
  end.
Proof. by destruct bs. Qed.

Lemma writeLoop_spec key fuel : ∀ bs k sent w,
  (length bs ≤ fuel)%nat → 0 ≤ k < 2 ^ 64 →
  ∃ ps m r n e w', cut ps bs ∧ written key k ps w w' m r n e ∧
    writeLoop fuel bs sent (mkTx (Some key) (nonceOf k) None) w = (sent + m, r, mkTx (Some key) n e, w').
Proof.
  induction fuel as [|fuel IH]; intros bs k sent w Hf Hk; destruct (decide (bs = [])) as [->|Hne].
  1,3: exists [], 0, (Ok ()), (nonceOf k), None, w;
    split_and!; [split; done || constructor| |by rewrite Z.add_0_r];
    pose proof (wr_all key k [] w w) as H; rewrite zlen_nil, Z.add_0_r in H;
    apply H; [by rewrite app_nil_r|unfold invalidNonce; lia].
  { destruct bs; [done|simpl in Hf; lia]. }
  rewrite writeLoop_step, encryptLocked_spec by done. pose proof (toSend_pos bs Hne).
  case_decide as Hv.
  - destruct (netWrite_cases (frame key k (toSend bs)) w) as [(w1 & -> & Hw)|(e & j & w1 & -> & Hw)].
    + destruct (IH (drop (length (toSend bs)) bs) (k + 1) (sent + zlen (toSend bs)) w1)
        as (ps & m & r & n & e & w' & Hcut & Hwr & ->);
        [rewrite length_drop; lia|unfold invalidNonce in Hv; lia|].
      exists (toSend bs :: ps), (zlen (toSend bs) + m), r, n, e, w'.
      split_and!; [by apply cut_step|by eapply written_cons|by rewrite Z.add_assoc].
    + destruct (cut_exists (drop (length (toSend bs)) bs)) as [ps Hcut].
      exists (toSend bs :: ps), 0, (Err (ErrNet e)), (nonceOf (k + 1)), (Some (ErrPartialWrite e)), w1.
      split_and!; [by apply cut_step| |by rewrite Z.add_0_r].
      pose proof (wr_failed key k (toSend bs :: ps) w w1 0 (toSend bs) j e) as Hx.
      rewrite Z.add_0_r in Hx. by apply Hx.
  - destruct (cut_exists bs) as [ps Hcut].
    exists ps, 0, (Err ErrCipherExhausted), (nonceOf k), None, w.
    split_and!; [done| |by rewrite Z.add_0_r].
    pose proof (wr_exhausted key k ps w w 0) as Hx. rewrite Z.add_0_r in Hx.
    apply Hx; [|unfold invalidNonce in *; lia|by rewrite app_nil_r].
    destruct ps; [|simpl; lia]. by destruct Hcut as [<- _ _].
Qed.

(** A write in good state cuts its argument into pieces of at most 4077 bytes
    and puts their frames on the wire under consecutive nonces, all of them, or up
    to the first failure; the last nonce, 2^64 - 1, is never used and none is used
    twice.  A failure is final: every later write returns an error and sends
    nothing. *)
Theorem Write_frames key k bs w :
  0 ≤ k ≤ invalidNonce →
  ∃ ps sent r n e w' t', cut ps bs ∧ written key k ps w w' sent r n e ∧
    Write bs (mkTx (Some key) (nonceOf k) None) w = (sent, r, t', w') ∧ txNonce t' = n ∧
    (r = Ok () → sent = zlen bs ∧ t' = mkTx (Some key) (nonceOf (k + zlen ps)) None) ∧
    (r ≠ Ok () → txCipher t' = None ∧
       ∀ bs' w2, ∃ err, Write bs' t' w2 = (0, Err err, t', w2)).
Proof.
  intros Hk. unfold Write at 1. cbn [txErr txCipher].
  destruct (writeLoop_spec key (length bs) bs k 0 w) as (ps & m & r & n & e & w' & Hcut & Hwr & ->);
    [done|unfold invalidNonce in Hk; lia|].
  exists ps, m, r, n, e, w'. cbn [txErr txNonce txCipher].
  pose proof Hwr as Hwr'.
  destruct Hwr as [Hs Hn|i Hi Hn Hs|i p j e' Hi Hn Hs]; eexists; (split; [done|]); (split; [exact Hwr'|]);
    (split; [done|]); split_and!; try done; intros _; (split; [done || by rewrite (cut_concat _ _ Hcut)|]);
    [done|intros bs' w2; eauto..].
Qed.

(** ** A network that does not fail *)
Lemma cut_zlen ps bs : cut ps bs → zlen ps ≤ zlen bs.
Proof.
  intros [<- Hs _]. induction Hs as [|p ps Hp Hs IH]; [done|].
  rewrite concat_cons, zlen_app, zlen_cons. lia.
Qed.
Lemma cut_pieces ps bs : bytes_ok bs → cut ps bs → Forall piece ps.
Proof.
  intros Hb [<- Hs _]. induction Hs as [|p ps Hp Hs IH]; [constructor|].
  rewrite concat_cons in Hb. apply Forall_app in Hb as [? ?]. constructor; [|by apply IH]. split; [done|lia].
Qed.

Lemma writeLoop_ok key fuel : ∀ bs k sent w,
  (length bs ≤ fuel)%nat → 0 ≤ k → k + zlen bs ≤ invalidNonce →
  ∃ ps, cut ps bs ∧
    writeLoop fuel bs sent (mkTx (Some key) (nonceOf k) None) (mkNW w []) =
    (sent + zlen bs, Ok (), mkTx (Some key) (nonceOf (k + zlen ps)) None, mkNW (w ++ frames key k ps) []).
Proof.
  induction fuel as [|fuel IH]; intros bs k sent w Hf Hk Hn; destruct (decide (bs = [])) as [->|Hne].
  1,3: exists []; split; [split; done || constructor|]; cbn; by rewrite !Z.add_0_r, app_nil_r.
  { destruct bs; [done|simpl in Hf; lia]. }
  pose proof (toSend_pos bs Hne) as Hpos.
  assert (0 < zlen bs) by (unfold zlen; destruct bs; simpl; done || lia).
  assert (length (drop (length (toSend bs)) bs) < length bs)%nat
    by (rewrite length_drop; destruct bs; simpl in *; done || lia).
  rewrite writeLoop_step, encryptLocked_spec by (done || unfold invalidNonce in *; lia).
  rewrite decide_True by lia. cbn [netWrite nwOutcomes nwSent].
  destruct (IH (drop (length (toSend bs)) bs) (k + 1) (sent + zlen (toSend bs)) (w ++ frame key k (toSend bs)))
    as (ps & Hcut & ->); [lia|lia|unfold zlen in *; lia|].
  exists (toSend bs :: ps). split; [by apply cut_step|]. cbn [frames]. rewrite zlen_cons, <- app_assoc.
  assert (toSend bs ++ drop (length (toSend bs)) bs = bs) as Hsp.
  { unfold toSend. case_decide; [|by rewrite drop_all, app_nil_r]. rewrite length_take.
    replace (Z.to_nat maxPlaintextSize `min` length bs)%nat with (Z.to_nat maxPlaintextSize);
      [apply take_drop|unfold zlen in *; lia]. }
  assert (zlen bs = zlen (toSend bs) + zlen (drop (length (toSend bs)) bs)) as -> by by rewrite <- zlen_app, Hsp.
  by rewrite !Z.add_assoc.
Qed.

(** Calls of [Write], one after the other. *)
Fixpoint writes (bss : list bytes) (t : txState) (w : NetWriter) : list (res ConnErr ()) * txState * NetWriter :=
  match bss with
  | [] => ([], t, w)
  | bs :: bss =>
      let '(_, r, t, w) := Write bs t w in
      let '(rs, t, w) := writes bss t w in
      (r :: rs, t, w)
  end.

Lemma writes_ok key bss : ∀ k w,
  0 ≤ k → k + zlen (concat bss) ≤ invalidNonce → Forall bytes_ok bss →
  ∃ ps t', concat ps = concat bss ∧ Forall piece ps ∧ k + zlen ps ≤ invalidNonce ∧
    writes bss (mkTx (Some key) (nonceOf k) None) (mkNW w []) =
    (replicate (length bss) (Ok ()), t', mkNW (w ++ frames key k ps) []).
Proof.
  induction bss as [|bs bss IH]; intros k w Hk Hn Hb; cbn [writes].
  - exists [], (mkTx (Some key) (nonceOf k) None). cbn. rewrite app_nil_r. done.
  - apply Forall_cons in Hb as [Hb Hbs]. rewrite concat_cons, zlen_app in Hn.
    pose proof (zlen_nonneg (concat bss)). unfold Write. cbn [txErr txCipher].
    destruct (writeLoop_ok key (length bs) bs k 0 w) as (ps & Hcut & ->); [done|done|lia|].
    pose proof (cut_zlen _ _ Hcut). pose proof (zlen_nonneg ps).
    destruct (IH (k + zlen ps) (w ++ frames key k ps)) as (qs & t' & Hq & Hqp & Hqn & ->); [lia|lia|done|].
    exists (ps ++ qs), t'. rewrite concat_app, Hq, (cut_concat _ _ Hcut), frames_app, <- app_assoc, zlen_app.
    split_and!; try done; [|lia]. apply Forall_app. split; [by eapply cut_pieces|done].
Qed.

(** The receiving end of such a stream. *)
Lemma delivers_new key ps evs pl :
  Forall piece ps → zlen ps ≤ invalidNonce → concat (rdData <$> evs) = frames key 0 ps →
  Forall bufOK pl → delivers key (mkRdSt (newRx key) evs pl) (concat ps).
Proof.
  intros Hps Hn He Hpl.
  assert (bytes_ok (concat (rdData <$> evs))) as Hb.
  { rewrite He. clear -Hps laws. generalize 0. induction Hps as [|p ps Hp Hps IH]; intros k; [constructor|].
    cbn [frames]. apply Forall_app. split; [|apply IH]. unfold frame. apply Forall_app.
    split; [|apply Seal_bytes, Hp]. constructor; [done|apply be_bytes_ok]. }
  split_and!; [|done|].
  - split; cbn; [|by apply Forall_fmap, Forall_concat|done].
    split; cbn; [done|done|lia|]. by exists 0.
  - exists 0, ps. split_and!; try done; lia.
Qed.

(** Whatever a peer sends, in whatever pieces and with whatever network errors
    between them, every [Read] of a connection terminates, returns at most the
    bytes asked for and never panics; the buffer stays within its 4096 bytes. *)
Theorem Read_total key evs pl ns :
  Forall (λ e, bytes_ok (rdData e)) evs → Forall bufOK pl → Forall (Z.le 0) ns →
  let '(_, rs, s) := reads ns (mkRdSt (newRx key) evs pl) in
  Forall2 (λ n r, fine r ∧ ∀ b, r = Ok b → zlen b ≤ n ∧ (0 < n → b ≠ [])) ns rs ∧ rdOK s.
Proof.
  intros He Hp. assert (rdOK (mkRdSt (newRx key) evs pl)) as Hok.
  { split; cbn; [|done..]. split; cbn; [done|done|lia|by exists 0]. }
  revert Hok. generalize (mkRdSt (newRx key) evs pl). clear He Hp.
  induction ns as [|n ns IH]; intros s Hok Hns; cbn [reads]; [by split|].
  apply Forall_cons in Hns as [Hn Hns].
  destruct (Read_step_total n s Hok Hn) as (r & s' & -> & Hok' & Hf & Hr).
  specialize (IH s' Hok' Hns). destruct (reads ns s') as [[d rs] s2]. destruct IH as [IH ?].
  split; [constructor; [by split|done]|done].
Qed.

(** C16: over a network that delivers its bytes, a connection is a byte stream.
    The writes of one end succeed; at the other end, however the network cuts the
    bytes and whatever errors it reports in between, successive reads deliver a
    prefix of what was written and report only errors of the network, and enough
    reads deliver all of it. *)
Theorem stream_roundtrip key bss evs pl ns :
  Forall bytes_ok bss → zlen (concat bss) ≤ invalidNonce →
  Forall bufOK pl → Forall (Z.lt 0) ns →
  ∃ t wire, writes bss (newTx key) (mkNW [] []) = (replicate (length bss) (Ok ()), t, mkNW wire []) ∧
    (concat (rdData <$> evs) = wire →
     ∃ d rs s' rest, reads ns (mkRdSt (newRx key) evs pl) = (d, rs, s') ∧ concat bss = d ++ rest ∧
       Forall (λ r, (∃ b, r = Ok b) ∨ ∃ e, r = Err (ErrNet e)) rs ∧
       (zlen (concat bss) + zlen (omap rdErr evs) ≤ zlen ns → rest = [])).
Proof.
  intros Hb Hn Hp Hns. unfold newTx. rewrite zeroNonce_eq.
  destruct (writes_ok key bss 0 []) as (ps & t & Hc & Hps & Hpn & ->); [lia|lia|done|].
  exists t, (frames key 0 ps). split; [done|]. intros He.
  destruct (reads_delivers key ns (mkRdSt (newRx key) evs pl) (concat ps)) as (d & rs & s' & rest & -> & Hr & _ & Hrs & Hl);
    [by apply delivers_new|done|].
  exists d, rs, s', rest. rewrite <- Hc. split_and!; done.
Qed.
End aead.

(** ** An instance of the cipher

    A tag of 16 bytes that depends on key, nonce and additional data. *)
Definition toyTag (k n ad : bytes) : bytes := replicate 16 ((be_val 0 k + be_val 0 n + zlen ad) `mod` 256).
#[export] Instance toyAEAD : AEAD := {
  Seal k n p ad := p ++ toyTag k n ad;
  Open k n c ad :=
    if decide (16 ≤ length c ∧ drop (length c - 16) c = toyTag k n ad)%nat
    then Some (take (length c - 16) c) else None
}.
#[export] Instance toyLaws : AEADLaws toyAEAD.
Proof.
  split; cbn [Seal Open toyAEAD].
  - intros k n p ad _. assert (length (toyTag k n ad) = 16%nat) as Ht by done.
    rewrite length_app, Ht, Nat.add_sub. rewrite drop_app_length, decide_True by (split; [lia|done]).
    by rewrite take_app_length.
  - intros. rewrite zlen_app. done.
  - intros k n p ad Hp. apply Forall_app. split; [done|]. apply Forall_replicate.
    unfold byte_ok. apply Z.mod_pos_bound. lia.
  - intros k n c ad p. case_decide as H; [|done]. intros [= <-]. unfold zlen, Overhead. rewrite length_take. lia.
  - intros k n c ad p Hc. case_decide as H; [|done]. intros [= <-]. by apply Forall_take.
Qed.

Lemma Write_frames_witness : ∃ w', nwSent w' ≠ [] ∧
  ∃ ps sent r n e t', cut ps [1; 2] ∧ written (ae := toyAEAD) [7] 5 ps (mkNW [] []) w' sent r n e ∧
    Write [1; 2] (mkTx (Some [7]) (nonceOf 5) None) (mkNW [] []) = (sent, r, t', w').
Proof.
  destruct (Write_frames (ae := toyAEAD) [7] 5 [1; 2] (mkNW [] [])) as (ps & sent & r & n & e & w' & t' & ? & ? & H & _);
    [by vm_compute|].
  exists w'. split; [|by eauto 10]. intros Hw. vm_compute in H. by simplify_eq.
Defined.

Lemma Read_total_witness :
  let '(_, rs, s) := reads (ae := toyAEAD) [10; 10] (mkRdSt (newRx [7]) [mkRd [4; 0; 20; 9; 9] None] []) in
  Forall2 (λ n r, fine r ∧ ∀ b, r = Ok b → zlen b ≤ n ∧ (0 < n → b ≠ [])) [10; 10] rs ∧ rdOK s.
Proof.
  apply (Read_total (ae := toyAEAD) [7] [mkRd [4; 0; 20; 9; 9] None] [] [10; 10]).
  - repeat constructor; done.
  - constructor.
  - repeat constructor; done.
Defined.

Lemma stream_roundtrip_witness :
  ∃ d rs s' rest, reads (ae := toyAEAD) [1; 9; 9; 9]
      (mkRdSt (newRx [7]) [mkRd [4; 0] (Some NetTimeout);
         mkRd ([18; 104; 105] ++ toyTag [7] (nonceOf 0) []) None] []) = (d, rs, s') ∧
    [104; 105] = d ++ rest ∧ rest = [].
Proof.
  destruct (stream_roundtrip (ae := toyAEAD) [7] [[104; 105]]
    [mkRd [4; 0] (Some NetTimeout); mkRd ([18; 104; 105] ++ toyTag [7] (nonceOf 0) []) None] [] [1; 9; 9; 9])
    as (t & wire & Hw & H); [repeat constructor; done|by vm_compute|constructor|repeat constructor; done|].
  vm_compute in Hw. injection Hw as _ <-.
  destruct H as (d & rs & s' & rest & -> & Hd & _ & Hr); [by vm_compute|].
  exists d, rs, s', rest. split_and!; [done|done|]. by apply Hr.
Defined.
