(* ===== verification/Noise.v ===== *)
(** * The handshake of the control protocol

    [control/controlbase/handshake.go] and [messages.go]: Noise IK between a node
    and its control server, ending in a [Conn] on either side, with the machine
    keys of [types/key/machine.go].

    Curve25519, BLAKE2s and HKDF are not part of the sources: they are the class
    [NoisePrims], next to the cipher of [ControlConn].  A fresh key is an argument
    (the random bytes it is made from).  The deadlines are left out. *)

From S2P Require Import Prelude GoStd Bytes ControlConn.

(** ** The primitives *)
Class NoisePrims := {
  (** [curve25519.X25519(priv, pub)]; [None] is its error. *)
  X25519 : bytes → bytes → option bytes;
  (** [curve25519.ScalarBaseMult]. *)
  ScalarBaseMult : bytes → bytes;
  (** [blake2s.Sum256]. *)
  blake2s : bytes → bytes;
  (** The first two 32-byte blocks of [hkdf.New(newBLAKE2s, secret, salt, nil)]. *)
  hkdf2 : bytes → bytes → bytes * bytes
}.
Class NoiseLaws (np : NoisePrims) := {
  (** Diffie-Hellman, and no error between two keys that were generated. *)
  X25519_comm a b : X25519 a (ScalarBaseMult b) = X25519 b (ScalarBaseMult a);
  X25519_ok a b : is_Some (X25519 a (ScalarBaseMult b));
  ScalarBaseMult_length a : length (ScalarBaseMult a) = 32%nat;
  ScalarBaseMult_bytes a : bytes_ok (ScalarBaseMult a)
}.

(** ** Machine keys *)
Definition zeroKey : bytes := replicate 32 0.

(** [clamp25519Private] *)
Definition clamp25519Private {E} (b : bytes) : res E bytes :=
  b0 ← idx b 0;
  b ← put b 0 [Z.land b0 248];
  b31 ← idx b 31;
  put b 31 [Z.lor (Z.land b31 127) 64].

(** [NewMachine], from the 32 bytes [rnd] of the random source. *)
Definition NewMachine {E} (rnd : bytes) : res E bytes := clamp25519Private rnd.

Section noise.
Context {ae : AEAD} {np : NoisePrims}.

Definition Public {E} (k : bytes) : res E bytes :=
  if decide (k = zeroKey) then Panic else Ok (ScalarBaseMult k).

Definition MachinePublicFromRaw32 {E} (raw : bytes) : res E bytes :=
  if decide (length raw ≠ 32%nat) then Panic else Ok raw.

(** ** Errors *)
Inductive HsErr : Type :=
  | HsDH (step : string)            (* computing es, ss, ee, se *)
  | HsNet (e : NetErr)              (* reading or writing *)
  | HsUnexpectedEOF
  | HsType (t : Z)                  (* unexpected response message type *)
  | HsServerError (msg : bytes)
  | HsLength (n : Z)                (* wrong length received for handshake response *)
  | HsSize                          (* plaintext is wrong size for given ciphertext *)
  | HsDecrypt (what : string)
  | HsRefused (msg : string).       (* refused client handshake *)

(** ** Messages: [messages.go] *)
Definition initiationHeaderLen : Z := 5.
Definition initiationLen : Z := 101.
Definition responseLen : Z := 51.

Definition mkInitiationMessage (protocolVersion : Z) : res HsErr bytes :=
  let ret := replicate (Z.to_nat initiationLen) 0 in
  ret ← put_be 2 ret 0 (u16 protocolVersion);
  ret ← put ret 2 [msgTypeInitiation];
  put_be 2 ret 3 (u16 (initiationLen - initiationHeaderLen)).
Definition initVersion (m : bytes) : res HsErr Z := get_be 2 m 0.
Definition initType (m : bytes) : res HsErr Z := idx m 2.
Definition initLength (m : bytes) : res HsErr Z := get_be 2 m 3.
(** The slices of a message: their offset and their end. *)
Definition initEphemeralPub : Z * Z := (initiationHeaderLen, initiationHeaderLen + 32).
Definition initMachinePub : Z * Z := (initiationHeaderLen + 32, initiationHeaderLen + 32 + 48).
Definition initTag : Z * Z := (initiationHeaderLen + 32 + 48, initiationLen).

Definition mkResponseMessage : res HsErr bytes :=
  let ret := replicate (Z.to_nat responseLen) 0 in
  ret ← put ret 0 [msgTypeResponse];
  put_be 2 ret 1 (u16 (responseLen - headerLen)).
Definition respType (m : bytes) : res HsErr Z := idx m 0.
Definition respLength (m : bytes) : res HsErr Z := get_be 2 m 1.
Definition respEphemeralPub : Z * Z := (headerLen, headerLen + 32).
Definition respTag : Z * Z := (headerLen + 32, responseLen).

Definition field (m : bytes) (f : Z * Z) : res HsErr bytes := slice m f.1 f.2.

(** ** The symmetric state *)
Record symmetricState := mkSym { finished : bool; sh : bytes; sck : bytes }.

Definition protocolName : string := "Noise_IK_25519_ChaChaPoly_BLAKE2s".
Definition protocolVersionPrefix : string := "Tailscale Control Protocol v".
Definition protocolVersionPrologue (version : Z) : bytes :=
  str_bytes (protocolVersionPrefix +:+ Itoa version).

Definition checkFinished (s : symmetricState) : res HsErr () :=
  if finished s then Panic else Ok ().

Definition zeroSym : symmetricState := mkSym false zeroKey zeroKey.
Definition Initialize (s : symmetricState) : res HsErr symmetricState :=
  checkFinished s;;
  let h := blake2s (str_bytes protocolName) in
  Ok (mkSym (finished s) h h).

Definition MixHash (data : bytes) (s : symmetricState) : res HsErr symmetricState :=
  checkFinished s;;
  Ok (mkSym (finished s) (blake2s (sh s ++ data)) (sck s)).

(** A [singleUseCHP] is its key until it has been used. *)
Definition singleUseCHP : Type := option bytes.

(** [step] names the computation in the error its callers wrap. *)
Definition MixDH (step : string) (priv pub : bytes) (s : symmetricState)
    : res HsErr (singleUseCHP * symmetricState) :=
  checkFinished s;;
  keyData ← of_option (HsDH step) (X25519 priv pub);
  let r := hkdf2 keyData (sck s) in
  Ok (Some r.2, mkSym (finished s) (sh s) r.1).

Definition chpSeal (c : singleUseCHP) (plaintext ad : bytes) : res HsErr bytes :=
  match c with
  | None => Panic
  | Some key => Ok (Seal key (replicate NonceSize 0) plaintext ad)
  end.
Definition chpOpen (what : string) (c : singleUseCHP) (ciphertext ad : bytes) : res HsErr bytes :=
  match c with
  | None => Panic
  | Some key => of_option (HsDecrypt what) (Open key (replicate NonceSize 0) ciphertext ad)
  end.

(** [EncryptAndHash(cipher, ciphertext, plaintext)], where [ciphertext] is the
    field [f] of the message [m]: the message with the field filled in. *)
Definition EncryptAndHash (c : singleUseCHP) (m : bytes) (f : Z * Z) (plaintext : bytes) (s : symmetricState)
    : res HsErr (bytes * symmetricState) :=
  checkFinished s;;
  if decide (f.2 - f.1 ≠ zlen plaintext + Overhead) then Panic
  else
    ret ← chpSeal c plaintext (sh s);
    m ← put m f.1 ret;
    s ← MixHash ret s;
    Ok (m, s).

(** [DecryptAndHash(cipher, plaintext, ciphertext)] with [len(plaintext) = n]. *)
Definition DecryptAndHash (what : string) (c : singleUseCHP) (n : Z) (ciphertext : bytes) (s : symmetricState)
    : res HsErr (bytes * symmetricState) :=
  checkFinished s;;
  if decide (zlen ciphertext ≠ n + Overhead) then Err HsSize
  else
    p ← chpOpen what c ciphertext (sh s);
    s ← MixHash ciphertext s;
    Ok (p, s).

Definition Split (s : symmetricState) : bytes * bytes * symmetricState :=
  let r := hkdf2 [] (sck s) in
  (r.1, r.2, mkSym true (sh s) (sck s)).

(** ** io.ReadFull on the network *)
Fixpoint readFull (n : nat) (got : bytes) (evs : list RdEvent) : res HsErr (bytes * list RdEvent) :=
  if decide (n ≤ length got)%nat then Ok (got, evs)
  else
    let short (e : NetErr) :=
      if decide (e = NetEOF ∧ got ≠ []) then HsUnexpectedEOF else HsNet e in
    match evs with
    | [] => Err (short NetEOF)
    | e :: es =>
        let need := (n - length got)%nat in
        if decide (length (rdData e) ≤ need)%nat then
          let got' := got ++ rdData e in
          if decide (n ≤ length got')%nat then Ok (got', es)
          else
            match rdErr e with
            | Some err => Err (if decide (err = NetEOF ∧ got' ≠ []) then HsUnexpectedEOF else HsNet err)
            | None => readFull n got' es
            end
        else Ok (got ++ take need (rdData e), mkRd (drop need (rdData e)) (rdErr e) :: es)
    end.

Definition hsWrite (b : bytes) (w : NetWriter) : res HsErr () * NetWriter :=
  match netWrite b w with
  | (Some e, w) => (Err (HsNet e), w)
  | (None, w) => (Ok (), w)
  end.

(** ** The client *)
Definition ClientDeferred (machineKey controlKey : bytes) (protocolVersion : Z) (rnd : bytes)
    : res HsErr (bytes * symmetricState * bytes) :=
  s ← Initialize zeroSym;
  s ← MixHash (protocolVersionPrologue protocolVersion) s;
  s ← MixHash controlKey s;
  init ← mkInitiationMessage protocolVersion;
  machineEphemeral ← NewMachine rnd;
  machineEphemeralPub ← Public machineEphemeral;
  init ← put init initEphemeralPub.1 machineEphemeralPub;
  s ← MixHash machineEphemeralPub s;
  '(cipher, s) ← MixDH "es" machineEphemeral controlKey s;
  machineKeyPub ← Public machineKey;
  '(init, s) ← EncryptAndHash cipher init initMachinePub machineKeyPub s;
  '(cipher, s) ← MixDH "ss" machineKey controlKey s;
  '(init, s) ← EncryptAndHash cipher init initTag [] s;
  Ok (init, s, machineEphemeral).

(** The header of the response, its errors, and its payload. *)
Definition readResponse (inb : list RdEvent) : res HsErr (bytes * list RdEvent) :=
  '(hdr, inb) ← readFull (Z.to_nat headerLen) [] inb;
  t ← respType hdr;
  len ← respLength hdr;
  if decide (t ≠ msgTypeResponse) then
    if decide (t ≠ msgTypeError) then Err (HsType t)
    else
      '(msg, _) ← readFull (Z.to_nat len) [] inb;
      Err (HsServerError msg)
  else if decide (len ≠ responseLen - headerLen) then Err (HsLength len)
  else
    '(payload, inb) ← readFull (Z.to_nat (responseLen - headerLen)) [] inb;
    Ok (hdr ++ payload, inb).

Definition continueClientHandshake (s : symmetricState) (machineKey machineEphemeral controlKey : bytes)
    (protocolVersion : Z) (inb : list RdEvent) : res HsErr (Conn * list RdEvent) :=
  '(resp, inb) ← readResponse inb;
  raw ← field resp respEphemeralPub;
  controlEphemeralPub ← MachinePublicFromRaw32 raw;
  s ← MixHash controlEphemeralPub s;
  '(_, s) ← MixDH "ee" machineEphemeral controlEphemeralPub s;
  '(cipher, s) ← MixDH "se" machineKey controlEphemeralPub s;
  tag ← field resp respTag;
  '(_, s) ← DecryptAndHash "payload" cipher 0 tag s;
  let '(c1, c2, s) := Split s in
  Ok (mkConn protocolVersion controlKey (sh s) (newRx c2) (newTx c1), inb).

(** The continuation [ClientDeferred] returns: it shares [s], which it leaves
    finished whatever the outcome, so that every later use panics. *)
Definition HandshakeContinuation (s : symmetricState) (machineKey machineEphemeral controlKey : bytes)
    (protocolVersion : Z) (inb : list RdEvent) : res HsErr (Conn * list RdEvent) * symmetricState :=
  (continueClientHandshake s machineKey machineEphemeral controlKey protocolVersion inb,
   mkSym true (sh s) (sck s)).

(** [Client]: the initiation is sent, then the handshake continued. *)
Definition Client (machineKey controlKey : bytes) (protocolVersion : Z) (rnd : bytes)
    (inb : list RdEvent) (w : NetWriter) : res HsErr (Conn * list RdEvent) * NetWriter :=
  match ClientDeferred machineKey controlKey protocolVersion rnd with
  | Ok (init, s, eph) =>
      match hsWrite init w with
      | (Ok _, w) => (continueClientHandshake s machineKey eph controlKey protocolVersion inb, w)
      | (Err e, w) => (Err e, w)
      | (Panic, w) => (Panic, w)
      end
  | Err e => (Err e, w)
  | Panic => (Panic, w)
  end.

(** ** The server *)

(** [sendErr]: the error frame, and the error the caller returns. *)
Definition sendErr (msg : string) (w : NetWriter) : HsErr * NetWriter :=
  let b := str_bytes msg in
  let b := if decide (2 ^ 16 ≤ zlen b) then take (Z.to_nat (2 ^ 16)) b else b in
  let hdr := msgTypeError :: be_bytes 2 (u16 (zlen b)) in
  match netWrite hdr w with
  | (Some e, w) => (HsNet e, w)
  | (None, w) =>
      match netWrite b w with
      | (Some e, w) => (HsNet e, w)
      | (None, w) => (HsRefused msg, w)
      end
  end.

(** The initiation, given or read, checked as far as its header goes; an error
    message to the client is [inr]. *)
Definition readInit (optionalInit : option bytes) (inb : list RdEvent)
    : res HsErr (bytes * Z * list RdEvent + string) :=
  let check (m : bytes) (k : Z → res HsErr (bytes * Z * list RdEvent + string)) :=
    clientVersion ← initVersion m;
    t ← initType m;
    if decide (t ≠ msgTypeInitiation) then Ok (inr "unexpected handshake message type")
    else
      len ← initLength m;
      if decide (len ≠ initiationLen - initiationHeaderLen) then Ok (inr "wrong handshake initiation length")
      else k clientVersion in
  match optionalInit with
  | Some m =>
      if decide (zlen m ≠ initiationLen) then Ok (inr "wrong handshake initiation size")
      else check m (λ v, Ok (inl (m, v, inb)))
  | None =>
      '(hdr, inb) ← readFull (Z.to_nat initiationHeaderLen) [] inb;
      check hdr (λ v,
        '(payload, inb) ← readFull (Z.to_nat (initiationLen - initiationHeaderLen)) [] inb;
        Ok (inl (hdr ++ payload, v, inb)))
  end.

(** The rest of the handshake: the response and the connection. *)
Definition serverHandshake (controlKey rnd init : bytes) (clientVersion : Z)
    : res HsErr (bytes * Conn) :=
  s ← Initialize zeroSym;
  s ← MixHash (protocolVersionPrologue clientVersion) s;
  controlKeyPub ← Public controlKey;
  s ← MixHash controlKeyPub s;
  raw ← field init initEphemeralPub;
  machineEphemeralPub ← MachinePublicFromRaw32 raw;
  s ← MixHash machineEphemeralPub s;
  '(cipher, s) ← MixDH "es" controlKey machineEphemeralPub s;
  ct ← field init initMachinePub;
  '(machineKeyBytes, s) ← DecryptAndHash "machine key" cipher 32 ct s;
  machineKey ← MachinePublicFromRaw32 machineKeyBytes;
  '(cipher, s) ← MixDH "ss" controlKey machineKey s;
  tag ← field init initTag;
  '(_, s) ← DecryptAndHash "initiation tag" cipher 0 tag s;
  resp ← mkResponseMessage;
  controlEphemeral ← NewMachine rnd;
  controlEphemeralPub ← Public controlEphemeral;
  resp ← put resp respEphemeralPub.1 controlEphemeralPub;
  s ← MixHash controlEphemeralPub s;
  '(_, s) ← MixDH "ee" controlEphemeral machineEphemeralPub s;
  '(cipher, s) ← MixDH "se" controlEphemeral machineKey s;
  '(resp, s) ← EncryptAndHash cipher resp respTag [] s;
  let '(c1, c2, s) := Split s in
  Ok (resp, mkConn clientVersion machineKey (sh s) (newRx c1) (newTx c2)).

Definition Server (controlKey rnd : bytes) (optionalInit : option bytes) (inb : list RdEvent) (w : NetWriter)
    : res HsErr (Conn * list RdEvent) * NetWriter :=
  match readInit optionalInit inb with
  | Ok (inr msg) => let '(e, w) := sendErr msg w in (Err e, w)
  | Ok (inl (init, clientVersion, inb)) =>
      match serverHandshake controlKey rnd init clientVersion with
      | Ok (resp, c) =>
          match hsWrite resp w with
          | (Ok _, w) => (Ok (c, inb), w)
          | (Err e, w) => (Err e, w)
          | (Panic, w) => (Panic, w)
          end
      | Err e => (Err e, w)
      | Panic => (Panic, w)
      end
  | Err e => (Err e, w)
  | Panic => (Panic, w)
  end.
End noise.
