(* ===== verification/NoiseThms.v ===== *)
(** * The handshake of the control protocol: theorems

    A client and a server that run the handshake end with connections that agree
    on keys, transcript, version and identities, and what the client then writes
    the server reads. *)

From S2P Require Import Prelude GoStd Bytes ControlConn ControlConnThms ControlStreamThms Noise.

(** ** Keys *)
Lemma le_val_app a b : le_val (a ++ b) = le_val a + 256 ^ zlen a * le_val b.
Proof.
  induction a as [|x a IH]; cbn [le_val app]; [unfold zlen; simpl; lia|].
  rewrite IH, zlen_cons, Z.pow_add_r by (pose proof (zlen_nonneg a); lia). lia.
Qed.
Lemma le_val_bound b : bytes_ok b → 0 ≤ le_val b < 256 ^ zlen b.
Proof.
  induction 1 as [|x b Hx Hb IH]; [done|]. cbn [le_val].
  rewrite zlen_cons, Z.pow_add_r by (pose proof (zlen_nonneg b); lia). unfold byte_ok in Hx. lia.
Qed.

(** A property of bytes, checked on all of them. *)
Lemma byte_check (P : Z → bool) :
  forallb (λ n, P (Z.of_nat n)) (seq 0 256) = true → ∀ x, byte_ok x → P x = true.
Proof.
  intros H x Hx. unfold byte_ok in Hx. rewrite forallb_forall in H.
  rewrite <- (Z2Nat.id x) by lia. apply H, in_seq. lia.
Qed.

Lemma clamp_low x : byte_ok x → byte_ok (Z.land x 248) ∧ (8 | Z.land x 248).
Proof.
  intros Hx. pose proof (byte_check (λ x, (0 <=? Z.land x 248) && (Z.land x 248 <? 256) &&
    (Z.land x 248 `mod` 8 =? 0)) eq_refl x Hx) as H. cbv beta in H.
  apply andb_prop in H as [[? ?]%andb_prop ?]. unfold byte_ok.
  split; [lia|]. apply Z.mod_divide; lia.
Qed.
Lemma clamp_high x : byte_ok x → 64 ≤ Z.lor (Z.land x 127) 64 < 128.
Proof.
  intros Hx. pose proof (byte_check (λ x, (64 <=? Z.lor (Z.land x 127) 64) && (Z.lor (Z.land x 127) 64 <? 128))
    eq_refl x Hx) as H. cbv beta in H. lia.
Qed.

(** A generated key is a multiple of 8 between 2^254 and 2^255, as Curve25519
    wants it; in particular it is not the zero key. *)
Lemma NewMachine_clamped {E} rnd :
  length rnd = 32%nat → bytes_ok rnd →
  ∃ k, @NewMachine E rnd = Ok k ∧ length k = 32%nat ∧ bytes_ok k ∧
    (8 | le_val k) ∧ 2 ^ 254 ≤ le_val k < 2 ^ 255.
Proof.
  intros Hl Hb. destruct rnd as [|x0 rnd]; [done|].
  destruct rnd as [|x31 mid _] using rev_ind; [done|]. simpl in Hl. rewrite length_app in Hl. simpl in Hl.
  apply Forall_cons in Hb as [H0 [Hm H31]%Forall_app]. rewrite Forall_singleton in H31.
  destruct (clamp_low x0 H0) as [Hy [q Hq]]. pose proof (clamp_high x31 H31) as Hz.
  set (y := Z.land x0 248) in *. set (z := Z.lor (Z.land x31 127) 64) in *.
  exists (y :: mid ++ [z]).
  assert (bytes_ok (y :: mid)) as Hym by by constructor.
  assert (length (y :: mid) = 31%nat) as Hlen by (simpl; lia).
  assert (zlen (y :: mid) = 31) as Hzl by (unfold zlen; lia).
  unfold NewMachine, clamp25519Private.
  replace (idx (x0 :: mid ++ [x31]) 0) with (@Ok E Z x0) by done. rewrite bind_ret.
  change (x0 :: mid ++ [x31]) with ([] ++ [x0] ++ (mid ++ [x31])). rewrite put_field, bind_ret by done. fold y.
  change ([] ++ [y] ++ mid ++ [x31]) with ((y :: mid) ++ [x31] ++ []).
  replace (idx ((y :: mid) ++ [x31] ++ []) 31) with (@Ok E Z x31).
  2: { unfold idx. rewrite decide_True by lia. change (Z.to_nat 31) with 31%nat.
       by rewrite lookup_app_r, Hlen by lia. }
  rewrite bind_ret, put_field by done. fold z.
  pose proof (le_val_bound (y :: mid) Hym) as Hlow. rewrite Hzl in Hlow.
  assert (le_val (y :: mid ++ [z]) = le_val (y :: mid) + 256 ^ 31 * z) as Hv.
  { change (y :: mid ++ [z]) with ((y :: mid) ++ [z]). rewrite le_val_app, Hzl. simpl. lia. }
  rewrite Hv. split_and!; try done; try lia.
  - simpl. rewrite length_app. simpl. lia.
  - change (y :: mid ++ [z]) with ((y :: mid) ++ [z]). apply Forall_app. split; [done|].
    constructor; [unfold byte_ok; lia|done].
  - exists (q + 32 * le_val mid + 256 ^ 30 * 32 * z). cbn [le_val]. rewrite Hq. lia.
Qed.

Lemma le_val_zero n : le_val (replicate n 0) = 0.
Proof. induction n; simpl; lia. Qed.

Section noise.
Context {ae : AEAD} {np : NoisePrims} {al : AEADLaws ae} {nl : NoiseLaws np}.

Lemma NewMachine_Public rnd :
  length rnd = 32%nat → bytes_ok rnd →
  ∃ k, @NewMachine HsErr rnd = Ok k ∧ @Public np HsErr k = Ok (ScalarBaseMult k).
Proof.
  intros Hl Hb. destruct (NewMachine_clamped (E := HsErr) rnd Hl Hb) as (k & Hk & _ & _ & _ & Hr).
  exists k. split; [done|]. unfold Public. rewrite decide_False; [done|]. intros ->.
  unfold zeroKey in Hr. rewrite le_val_zero in Hr. lia.
Qed.

(** ** The transcript

    Both sides compute these values; [es], [ss], [ee] and [se] are the shared
    secrets, [mk] and [sk] the machine keys, [me] and [ce] the ephemeral keys. *)
Section transcript.
Context (v : Z) (mk sk me ce es ss ee se : bytes).
Let pub := ScalarBaseMult.
Let z12 := replicate NonceSize 0.

Definition trH0 : bytes := blake2s (str_bytes protocolName).
Definition trH3 : bytes :=
  blake2s (blake2s (blake2s (trH0 ++ protocolVersionPrologue v) ++ pub sk) ++ pub me).
Definition trCK1 : bytes := (hkdf2 es trH0).1.
Definition trKey : bytes := Seal (hkdf2 es trH0).2 z12 (pub mk) trH3.
Definition trH4 : bytes := blake2s (trH3 ++ trKey).
Definition trCK2 : bytes := (hkdf2 ss trCK1).1.
Definition trTag1 : bytes := Seal (hkdf2 ss trCK1).2 z12 [] trH4.
Definition trH5 : bytes := blake2s (trH4 ++ trTag1).
Definition trH6 : bytes := blake2s (trH5 ++ pub ce).
Definition trCK3 : bytes := (hkdf2 ee trCK2).1.
Definition trCK4 : bytes := (hkdf2 se trCK3).1.
Definition trTag2 : bytes := Seal (hkdf2 se trCK3).2 z12 [] trH6.
Definition trH7 : bytes := blake2s (trH6 ++ trTag2).

Definition initHeader : bytes := be_bytes 2 v ++ [msgTypeInitiation] ++ be_bytes 2 96.
Definition initMsg : bytes := initHeader ++ pub me ++ trKey ++ trTag1.
Definition respHeader : bytes := [msgTypeResponse] ++ be_bytes 2 48.
Definition respMsg : bytes := respHeader ++ pub ce ++ trTag2.
Definition clientConn : Conn :=
  mkConn v (pub sk) trH7 (newRx (hkdf2 [] trCK4).2) (newTx (hkdf2 [] trCK4).1).
Definition serverConn : Conn :=
  mkConn v (pub mk) trH7 (newRx (hkdf2 [] trCK4).1) (newTx (hkdf2 [] trCK4).2).

Hypothesis Hv : 0 ≤ v < 2 ^ 16.
Hypothesis Hes : X25519 me (pub sk) = Some es.
Hypothesis Hss : X25519 mk (pub sk) = Some ss.
Hypothesis Hee : X25519 me (pub ce) = Some ee.
Hypothesis Hse : X25519 mk (pub ce) = Some se.
Hypothesis Hmk : mk ≠ zeroKey.
Hypothesis Hsk : sk ≠ zeroKey.

Lemma trKey_length : zlen trKey = 48.
Proof. unfold trKey. rewrite Seal_length. unfold zlen, pub. by rewrite ScalarBaseMult_length. Qed.
Lemma trTag1_length : zlen trTag1 = 16.
Proof. unfold trTag1. by rewrite Seal_length. Qed.
Lemma trTag2_length : zlen trTag2 = 16.
Proof. unfold trTag2. by rewrite Seal_length. Qed.
Lemma zlen_length {A} (l : list A) n : zlen l = Z.of_nat n → length l = n.
Proof. unfold zlen. lia. Qed.

Lemma Public_ok k : k ≠ zeroKey → @Public np HsErr k = Ok (pub k).
Proof. intros Hk. unfold Public. by rewrite decide_False. Qed.

Lemma mkInitiationMessage_eq :
  mkInitiationMessage v = Ok (initHeader ++ replicate 32 0 ++ replicate 48 0 ++ replicate 16 0).
Proof.
  unfold mkInitiationMessage, put_be. rewrite (uN_small 16 v) by lia.
  change (replicate (Z.to_nat initiationLen) 0) with ([] ++ replicate 2 0 ++ replicate 99 0).
  rewrite put_field, bind_ret by done.
  change ([] ++ be_bytes 2 v ++ replicate 99 0) with (be_bytes 2 v ++ [0] ++ replicate 98 0).
  rewrite put_field, bind_ret by done.
  change (be_bytes 2 v ++ [msgTypeInitiation] ++ replicate 98 0)
    with ((be_bytes 2 v ++ [msgTypeInitiation]) ++ replicate 2 0 ++ replicate 96 0).
  rewrite put_field by done. done.
Qed.

Lemma EncryptAndHash_eq key (a x c p h ck : bytes) :
  zlen x = zlen p + Overhead →
  EncryptAndHash (Some key) (a ++ x ++ c) (zlen a, zlen a + zlen x) p (mkSym false h ck) =
  Ok (a ++ Seal key z12 p h ++ c, mkSym false (blake2s (h ++ Seal key z12 p h)) ck).
Proof.
  intros Hx. unfold EncryptAndHash, checkFinished. cbn [finished sh]. rewrite bind_ret.
  rewrite decide_False by (cbn [fst snd]; lia). unfold chpSeal. rewrite bind_ret. cbn [fst].
  rewrite put_field; [|done|apply zlen_length; rewrite Hx; pose proof (Seal_length key z12 p h); unfold zlen, z12 in *; lia].
  done.
Qed.

Lemma DecryptAndHash_eq what key p h ck n :
  n = zlen p → bytes_ok p →
  DecryptAndHash what (Some key) n (Seal key z12 p h) (mkSym false h ck) =
  Ok (p, mkSym false (blake2s (h ++ Seal key z12 p h)) ck).
Proof.
  intros -> Hp. unfold DecryptAndHash, checkFinished. cbn [finished sh]. rewrite bind_ret.
  rewrite decide_False by (rewrite Seal_length; lia). unfold chpOpen, z12. by rewrite Open_Seal.
Qed.

Lemma MixDH_eq step priv pk dh h ck :
  X25519 priv pk = Some dh →
  MixDH step priv pk (mkSym false h ck) =
  Ok (Some (hkdf2 dh ck).2, mkSym false h (hkdf2 dh ck).1).
Proof. intros H. unfold MixDH, checkFinished. cbn [finished sh sck]. rewrite bind_ret, H. done. Qed.

Lemma MixHash_eq data h ck : MixHash data (mkSym false h ck) = Ok (mkSym false (blake2s (h ++ data)) ck).
Proof. done. Qed.

(** Run the steps that need no facts. *)
Ltac hs := repeat (first [rewrite bind_ret | rewrite MixHash_eq]; cbv beta iota).

Lemma ClientDeferred_eq rnd :
  NewMachine rnd = @Ok HsErr _ me → Public me = @Ok HsErr _ (pub me) →
  ClientDeferred mk (pub sk) v rnd = Ok (initMsg, mkSym false trH5 trCK2, me).
Proof.
  intros Hme Hpme. unfold ClientDeferred.
  change (Initialize zeroSym) with (@Ok HsErr _ (mkSym false trH0 trH0)). hs.
  rewrite mkInitiationMessage_eq. hs. rewrite Hme. hs. rewrite Hpme. hs.
  rewrite put_field by (done || by rewrite length_replicate; symmetry; apply ScalarBaseMult_length). hs.
  fold trH3. rewrite (MixDH_eq _ _ _ es) by done. hs. rewrite Public_ok by done. hs. fold trCK1.
  pose proof trKey_length as Hk. pose proof trTag1_length as Ht.
  assert (zlen (pub me) = 32) as Hme32 by (unfold zlen, pub; by rewrite ScalarBaseMult_length).
  rewrite (app_assoc initHeader). change initMachinePub with (37, 85).
  pose proof (EncryptAndHash_eq (hkdf2 es trH0).2 (initHeader ++ pub me) (replicate 48 0) (replicate 16 0)
    (pub mk) trH3 trCK1) as H1.
  rewrite zlen_app, Hme32 in H1. change (zlen initHeader + 32) with 37 in H1.
  change (37 + zlen (replicate 48 0)) with 85 in H1. rewrite H1
    by (unfold zlen, pub; rewrite ScalarBaseMult_length; done). hs. fold trKey. fold trH4.
  rewrite (MixDH_eq _ _ _ ss) by done. hs. fold trCK2.
  rewrite (app_assoc _ trKey), <- (app_nil_r (replicate 16 0)). change initTag with (85, 101).
  pose proof (EncryptAndHash_eq (hkdf2 ss trCK1).2 ((initHeader ++ pub me) ++ trKey) (replicate 16 0) []
    [] trH4 trCK2) as H2.
  rewrite !zlen_app, Hme32, Hk in H2. change (zlen initHeader + 32 + 48) with 85 in H2.
  change (85 + zlen (replicate 16 0)) with 101 in H2. rewrite H2 by done. hs. fold trTag1. fold trH5.
  unfold initMsg. by rewrite app_nil_r, <- !app_assoc.
Qed.

Lemma pub_zlen k : zlen (pub k) = 32.
Proof. unfold zlen, pub. by rewrite ScalarBaseMult_length. Qed.
Lemma FromRaw32_pub k : @MachinePublicFromRaw32 HsErr (pub k) = Ok (pub k).
Proof. unfold MachinePublicFromRaw32, pub. by rewrite ScalarBaseMult_length, decide_False by auto. Qed.

Lemma initMsg_fields :
  field initMsg initEphemeralPub = Ok (pub me) ∧ field initMsg initMachinePub = Ok trKey ∧
  field initMsg initTag = Ok trTag1.
Proof.
  pose proof trKey_length as Hk. pose proof trTag1_length as Ht. pose proof (pub_zlen me) as Hp.
  unfold field, initMsg. split_and!; cbn [fst snd initEphemeralPub initMachinePub initTag].
  - apply slice_mid; [done|]. rewrite Hp. done.
  - rewrite (app_assoc initHeader). apply slice_mid; rewrite zlen_app, Hp; [done|rewrite Hk; done].
  - rewrite (app_assoc initHeader), (app_assoc _ trKey). rewrite <- (app_nil_r trTag1) at 1.
    apply slice_mid; rewrite !zlen_app, Hp, Hk; [done|rewrite Ht; done].
Qed.
Lemma respMsg_fields :
  field respMsg respEphemeralPub = Ok (pub ce) ∧ field respMsg respTag = Ok trTag2.
Proof.
  pose proof trTag2_length as Ht. pose proof (pub_zlen ce) as Hp. unfold field, respMsg.
  split; cbn [fst snd respEphemeralPub respTag].
  - apply slice_mid; [done|]. rewrite Hp. done.
  - rewrite (app_assoc respHeader). rewrite <- (app_nil_r trTag2) at 1. apply slice_mid; rewrite zlen_app, Hp; [done|rewrite Ht; done].
Qed.

Lemma mkResponseMessage_eq : mkResponseMessage = Ok (respHeader ++ replicate 32 0 ++ replicate 16 0).
Proof.
  unfold mkResponseMessage, put_be.
  change (replicate (Z.to_nat responseLen) 0) with ([] ++ [0] ++ replicate 50 0).
  rewrite put_field, bind_ret by done.
  change ([] ++ [msgTypeResponse] ++ replicate 50 0)
    with ([msgTypeResponse] ++ replicate 2 0 ++ replicate 48 0).
  rewrite put_field by done. done.
Qed.

Lemma serverHandshake_eq rnd :
  NewMachine rnd = @Ok HsErr _ ce → Public ce = @Ok HsErr _ (pub ce) →
  serverHandshake sk rnd initMsg v = Ok (respMsg, serverConn).
Proof.
  intros Hce Hpce. destruct initMsg_fields as (Hf1 & Hf2 & Hf3). unfold serverHandshake.
  pose proof Hes as Hes'. pose proof Hss as Hss'. pose proof Hee as Hee'. pose proof Hse as Hse'.
  unfold pub in Hes', Hss', Hee', Hse'. rewrite X25519_comm in Hes', Hss', Hee', Hse'.
  change (Initialize zeroSym) with (@Ok HsErr _ (mkSym false trH0 trH0)). hs.
  rewrite Public_ok by done. hs. rewrite Hf1. hs. rewrite FromRaw32_pub. hs. fold trH3.
  rewrite (MixDH_eq _ _ _ es) by done. hs. fold trCK1. rewrite Hf2. hs.
  unfold trKey. rewrite DecryptAndHash_eq by (by rewrite ?pub_zlen || apply ScalarBaseMult_bytes). hs.
  fold trKey. fold trH4. rewrite FromRaw32_pub. hs. rewrite (MixDH_eq _ _ _ ss) by done. hs. fold trCK2.
  rewrite Hf3. hs. unfold trTag1. rewrite DecryptAndHash_eq by (done || constructor). hs. fold trTag1. fold trH5.
  rewrite mkResponseMessage_eq. hs. rewrite Hce. hs. rewrite Hpce. hs.
  rewrite put_field by (done || by rewrite length_replicate; symmetry; apply ScalarBaseMult_length). hs. fold trH6.
  rewrite (MixDH_eq _ _ _ ee) by done. hs. fold trCK3. rewrite (MixDH_eq _ _ _ se) by done. hs. fold trCK4.
  rewrite (app_assoc respHeader), <- (app_nil_r (replicate 16 0)). change respTag with (35, 51).
  pose proof (EncryptAndHash_eq (hkdf2 se trCK3).2 (respHeader ++ pub ce) (replicate 16 0) [] [] trH6 trCK4) as H2.
  rewrite zlen_app, pub_zlen in H2. change (zlen respHeader + 32) with 35 in H2.
  change (35 + zlen (replicate 16 0)) with 51 in H2. rewrite H2 by done. hs. fold trTag2. fold trH7.
  unfold respMsg, serverConn. by rewrite app_nil_r, <- app_assoc.
Qed.

(** ** Reading the messages from the network *)
Lemma readFull_ok n evs : ∀ got,
  omap rdErr evs = [] → (length got ≤ n)%nat → (n ≤ length got + length (concat (rdData <$> evs)))%nat →
  ∃ evs', readFull n got evs = @Ok HsErr _ (take n (got ++ concat (rdData <$> evs)), evs') ∧
    concat (rdData <$> evs') = drop n (got ++ concat (rdData <$> evs)) ∧ omap rdErr evs' = [].
Proof.
  induction evs as [|[d e] evs IH]; intros got He Hg Hn; cbn [readFull]; (case_decide as Hd;
    [eexists; split; [by rewrite take_app_le, take_ge by lia|];
     split; [by rewrite drop_app_le, drop_ge by lia|done]|]); cbn in He, Hn |- *.
  { lia. }
  destruct e as [e|]; [done|]. cbn in He. rewrite length_app in Hn.
  case_decide as Hl; [case_decide as Hl2|].
  - exists evs. rewrite app_assoc, take_app_le, take_ge by (rewrite length_app in *; lia).
    split; [done|]. split; [|done]. rewrite drop_app_le, drop_ge by (rewrite length_app in *; lia). done.
  - rewrite length_app in Hl2. destruct (IH (got ++ d)) as (evs' & -> & Hc & He');
      [done|rewrite length_app; lia|rewrite length_app; lia|].
    exists evs'. by rewrite <- app_assoc in *.
  - eexists. split; [rewrite app_assoc, take_app_le by (rewrite length_app; lia); by rewrite take_app, (take_ge got) by lia|].
    cbn. split; [|done]. rewrite (app_assoc got), drop_app_le by (rewrite length_app; lia).
    by rewrite drop_app, (drop_ge got) by lia.
Qed.

(** The same with the bytes given in two parts. *)
Lemma readFull_split n evs (a b : bytes) :
  omap rdErr evs = [] → length a = n → concat (rdData <$> evs) = a ++ b →
  ∃ evs', readFull n [] evs = @Ok HsErr _ (a, evs') ∧ concat (rdData <$> evs') = b ∧ omap rdErr evs' = [].
Proof.
  intros He Hn Hc. destruct (readFull_ok n evs [] He) as (evs' & H & Hc' & He');
    [simpl; lia|rewrite Hc, length_app; simpl; lia|].
  cbn [app] in H, Hc'. rewrite Hc in H, Hc'. exists evs'.
  rewrite take_app_length' in H by done. by rewrite drop_app_length' in Hc' by done.
Qed.

Lemma initHeader_reads c :
  initVersion (initHeader ++ c) = Ok v ∧ initType (initHeader ++ c) = Ok msgTypeInitiation ∧
  initLength (initHeader ++ c) = Ok 96.
Proof.
  unfold initVersion, initType, initLength, initHeader. rewrite <- !app_assoc. split_and!.
  - apply (get_be_mid 2 [] ([msgTypeInitiation] ++ be_bytes 2 96 ++ c)); [done|]. change (256 ^ Z.of_nat 2) with (2 ^ 16). done.
  - done.
  - rewrite (app_assoc (be_bytes 2 v)). by apply get_be_mid.
Qed.

Lemma initMsg_zlen : zlen initMsg = initiationLen.
Proof.
  unfold initMsg. rewrite !zlen_app, pub_zlen, trKey_length, trTag1_length. done.
Qed.

Lemma readInit_given inb : readInit (Some initMsg) inb = Ok (inl (initMsg, v, inb)).
Proof.
  unfold readInit. rewrite decide_False by (rewrite initMsg_zlen; auto).
  destruct (initHeader_reads (pub me ++ trKey ++ trTag1)) as (H1 & H2 & H3). fold initMsg in H1, H2, H3.
  rewrite H1. hs. rewrite H2. hs. rewrite decide_False by auto. rewrite H3. hs. by rewrite decide_False by auto.
Qed.

Lemma readInit_read evs more :
  omap rdErr evs = [] → concat (rdData <$> evs) = initMsg ++ more →
  ∃ evs', readInit None evs = Ok (inl (initMsg, v, evs')) ∧ concat (rdData <$> evs') = more ∧ omap rdErr evs' = [].
Proof.
  intros He Hc. unfold readInit. unfold initMsg in Hc. rewrite <- app_assoc in Hc.
  destruct (readFull_split 5 evs initHeader _ He eq_refl Hc) as (evs1 & H1 & Hc1 & He1).
  change (Z.to_nat initiationHeaderLen) with 5%nat. rewrite H1. hs.
  destruct (initHeader_reads []) as (R1 & R2 & R3). rewrite app_nil_r in R1, R2, R3.
  rewrite R1. hs. rewrite R2. hs. rewrite decide_False by auto. rewrite R3. hs. rewrite decide_False by auto.
  destruct (readFull_split 96 evs1 (pub me ++ trKey ++ trTag1) more He1) as (evs2 & H2 & Hc2 & He2); [|done|].
  { apply zlen_length. by rewrite !zlen_app, pub_zlen, trKey_length, trTag1_length. }
  change (Z.to_nat (initiationLen - initiationHeaderLen)) with 96%nat. rewrite H2. hs.
  exists evs2. by unfold initMsg.
Qed.

Lemma readResponse_read evs more :
  omap rdErr evs = [] → concat (rdData <$> evs) = respMsg ++ more →
  ∃ evs', readResponse evs = Ok (respMsg, evs') ∧ concat (rdData <$> evs') = more ∧ omap rdErr evs' = [].
Proof.
  intros He Hc. unfold readResponse. unfold respMsg in Hc. rewrite <- app_assoc in Hc.
  destruct (readFull_split 3 evs respHeader _ He eq_refl Hc) as (evs1 & H1 & Hc1 & He1).
  change (Z.to_nat headerLen) with 3%nat. rewrite H1. hs.
  change (respType respHeader) with (@Ok HsErr Z msgTypeResponse). hs.
  change (respLength respHeader) with (@Ok HsErr Z 48). hs. rewrite !decide_False by auto.
  destruct (readFull_split 48 evs1 (pub ce ++ trTag2) more He1) as (evs2 & H2 & Hc2 & He2); [|done|].
  { apply zlen_length. by rewrite zlen_app, pub_zlen, trTag2_length. }
  change (Z.to_nat (responseLen - 3)) with 48%nat.
  change (Z.to_nat (responseLen - headerLen)) with 48%nat. rewrite H2. hs. exists evs2. by unfold respMsg.
Qed.

Lemma continueClientHandshake_eq evs more :
  omap rdErr evs = [] → concat (rdData <$> evs) = respMsg ++ more →
  ∃ evs', continueClientHandshake (mkSym false trH5 trCK2) mk me (pub sk) v evs = Ok (clientConn, evs') ∧
    concat (rdData <$> evs') = more ∧ omap rdErr evs' = [].
Proof.
  intros He Hc. destruct (readResponse_read evs more He Hc) as (evs' & Hr & Hc' & He').
  destruct respMsg_fields as [Hf1 Hf2]. exists evs'. split_and!; [|done|done].
  unfold continueClientHandshake. rewrite Hr. hs. rewrite Hf1. hs. rewrite FromRaw32_pub. hs. fold trH6.
  rewrite (MixDH_eq _ _ _ ee) by done. hs. fold trCK3. rewrite (MixDH_eq _ _ _ se) by done. hs. fold trCK4.
  rewrite Hf2. hs. unfold trTag2. rewrite DecryptAndHash_eq by (done || constructor). hs. done.
Qed.
End transcript.

(** ** The handshake *)

(** Two connections that belong together. *)
Record agree (client server : Conn) (v : Z) (clientKey serverKey : bytes) : Prop := {
  agree_up : ∃ k, cTx client = newTx k ∧ cRx server = newRx k;
  agree_down : ∃ k, cTx server = newTx k ∧ cRx client = newRx k;
  agree_hash : HandshakeHash client = HandshakeHash server;
  agree_version : ProtocolVersion client = v ∧ ProtocolVersion server = v;
  agree_peers : Peer client = serverKey ∧ Peer server = clientKey
}.

(** The run of both sides: the initiation the client makes, the connection the
    server has when it got it (given, or read from the network), the response it
    sends, and the connection the client has when it got that. *)
Lemma handshake_run v mk sk rndC rndS :
  0 ≤ v < 2 ^ 16 → mk ≠ zeroKey → sk ≠ zeroKey →
  length rndC = 32%nat → bytes_ok rndC → length rndS = 32%nat → bytes_ok rndS →
  ∃ init s eph resp cc sc,
    ClientDeferred mk (ScalarBaseMult sk) v rndC = Ok (init, s, eph) ∧ zlen init = initiationLen ∧
    agree cc sc v (ScalarBaseMult mk) (ScalarBaseMult sk) ∧
    (∀ inb out, Server sk rndS (Some init) inb (mkNW out []) = (Ok (sc, inb), mkNW (out ++ resp) [])) ∧
    (∀ evs more out, omap rdErr evs = [] → concat (rdData <$> evs) = init ++ more →
       ∃ inb, Server sk rndS None evs (mkNW out []) = (Ok (sc, inb), mkNW (out ++ resp) []) ∧
              concat (rdData <$> inb) = more ∧ omap rdErr inb = []) ∧
    (∀ evs more, omap rdErr evs = [] → concat (rdData <$> evs) = resp ++ more →
       ∃ inb, continueClientHandshake s mk eph (ScalarBaseMult sk) v evs = Ok (cc, inb) ∧
              concat (rdData <$> inb) = more ∧ omap rdErr inb = []).
Proof.
  intros Hv Hmk Hsk HlC HbC HlS HbS.
  destruct (NewMachine_Public rndC HlC HbC) as (me & Hme & Hpme).
  destruct (NewMachine_Public rndS HlS HbS) as (ce & Hce & Hpce).
  destruct (X25519_ok me sk) as [es Hes]. destruct (X25519_ok mk sk) as [ss Hss].
  destruct (X25519_ok me ce) as [ee Hee]. destruct (X25519_ok mk ce) as [se Hse].
  exists (initMsg v mk sk me es ss), (mkSym false (trH5 v mk sk me es ss) (trCK2 es ss)), me,
    (respMsg v mk sk me ce es ss ee se), (clientConn v mk sk me ce es ss ee se), (serverConn v mk sk me ce es ss ee se).
  split_and!.
  - by apply ClientDeferred_eq.
  - by apply initMsg_zlen.
  - split; cbn; eauto.
  - intros inb out. unfold Server. rewrite readInit_given by done. rewrite (serverHandshake_eq v mk sk me ce es ss ee se) by done. done.
  - intros evs more out He Hc. destruct (readInit_read v mk sk me es ss Hv evs more He Hc) as (inb & Hi & ? & ?).
    exists inb. split; [|done]. unfold Server. rewrite Hi. by rewrite (serverHandshake_eq v mk sk me ce es ss ee se) by done.
  - intros evs more He Hc. by apply (continueClientHandshake_eq v mk sk me ce es ss ee se).
Qed.

(** One direction of the channel: what is written under a key is read under it. *)
Lemma direction key bss :
  Forall bytes_ok bss → zlen (concat bss) ≤ invalidNonce →
  ∃ t wire, writes bss (newTx key) (mkNW [] []) = (replicate (length bss) (Ok ()), t, mkNW wire []) ∧
    ∀ inb pl ns, Forall bufOK pl → Forall (Z.lt 0) ns →
      concat (rdData <$> inb) = wire → omap rdErr inb = [] →
      ∃ d rs s' rest, reads ns (mkRdSt (newRx key) inb pl) = (d, rs, s') ∧ concat bss = d ++ rest ∧
        (zlen (concat bss) ≤ zlen ns → rest = []).
Proof.
  intros Hb Hn. unfold newTx. rewrite zeroNonce_eq.
  destruct (writes_ok key bss 0 []) as (ps & t & Hc & Hps & Hpn & ->); [lia|lia|done|].
  exists t, (frames key 0 ps). split; [done|]. intros inb pl ns Hpl Hns Hi He.
  destruct (reads_delivers key ns (mkRdSt (newRx key) inb pl) (concat ps)) as (d & rs & s' & rest & -> & Hr & _ & _ & Hl);
    [by apply delivers_new|done|].
  exists d, rs, s', rest. rewrite <- Hc. split_and!; [done|done|]. intros Hz. apply Hl.
  unfold errs. cbn. rewrite He, zlen_nil. lia.
Qed.

(** C15: the control channel, from the handshake on.  The two sides agree on the
    keys of both directions, the transcript, the version and each other's identity;
    and when the network delivers the bytes, cut in any way, the server reads what
    the client wrote and the client what the server wrote. *)
Theorem control_channel v mk sk rndC rndS up down :
  0 ≤ v < 2 ^ 16 → mk ≠ zeroKey → sk ≠ zeroKey →
  length rndC = 32%nat → bytes_ok rndC → length rndS = 32%nat → bytes_ok rndS →
  Forall bytes_ok up → zlen (concat up) ≤ invalidNonce →
  Forall bytes_ok down → zlen (concat down) ≤ invalidNonce →
  ∃ init s eph resp cc sc tC tS wireUp wireDown,
    ClientDeferred mk (ScalarBaseMult sk) v rndC = Ok (init, s, eph) ∧
    agree cc sc v (ScalarBaseMult mk) (ScalarBaseMult sk) ∧
    writes up (cTx cc) (mkNW [] []) = (replicate (length up) (Ok ()), tC, mkNW wireUp []) ∧
    writes down (cTx sc) (mkNW [] []) = (replicate (length down) (Ok ()), tS, mkNW wireDown []) ∧
    (∀ evs out pl ns, omap rdErr evs = [] → concat (rdData <$> evs) = init ++ wireUp →
       Forall bufOK pl → Forall (Z.lt 0) ns →
       ∃ inb d rs s' rest, Server sk rndS None evs (mkNW out []) = (Ok (sc, inb), mkNW (out ++ resp) []) ∧
         reads ns (mkRdSt (cRx sc) inb pl) = (d, rs, s') ∧ concat up = d ++ rest ∧
         (zlen (concat up) ≤ zlen ns → rest = [])) ∧
    (∀ evs pl ns, omap rdErr evs = [] → concat (rdData <$> evs) = resp ++ wireDown →
       Forall bufOK pl → Forall (Z.lt 0) ns →
       ∃ inb d rs s' rest, continueClientHandshake s mk eph (ScalarBaseMult sk) v evs = Ok (cc, inb) ∧
         reads ns (mkRdSt (cRx cc) inb pl) = (d, rs, s') ∧ concat down = d ++ rest ∧
         (zlen (concat down) ≤ zlen ns → rest = [])).
Proof.
  intros Hv Hmk Hsk HlC HbC HlS HbS Hub Hun Hdb Hdn.
  destruct (handshake_run v mk sk rndC rndS) as (init & s & eph & resp & cc & sc & Hcd & _ & Hag & _ & Hsrv & Hcl);
    [done..|].
  pose proof Hag as [(k1 & Ht1 & Hr1) (k2 & Ht2 & Hr2) _ _ _].
  destruct (direction k1 up Hub Hun) as (tC & wUp & Hw1 & Hread1).
  destruct (direction k2 down Hdb Hdn) as (tS & wDown & Hw2 & Hread2).
  exists init, s, eph, resp, cc, sc, tC, tS, wUp, wDown. rewrite Ht1, Ht2, Hr1, Hr2. split_and!; [done..| |].
  - intros evs out pl ns He Hc Hpl Hns. destruct (Hsrv evs wUp out He Hc) as (inb & Hi & Hci & Hei).
    destruct (Hread1 inb pl ns Hpl Hns Hci Hei) as (d & rs & s' & rest & ?). by exists inb, d, rs, s', rest.
  - intros evs pl ns He Hc Hpl Hns. destruct (Hcl evs wDown He Hc) as (inb & Hi & Hci & Hei).
    destruct (Hread2 inb pl ns Hpl Hns Hci Hei) as (d & rs & s' & rest & ?). by exists inb, d, rs, s', rest.
Qed.
End noise.

(** ** An instance of the primitives

    The group of the integers modulo 251 under addition. *)
#[export] Instance toyPrims : NoisePrims := {
  X25519 a p := Some [(be_val 0 a * be_val 0 p) `mod` 251];
  ScalarBaseMult a := replicate 31 0 ++ [be_val 0 a `mod` 251];
  blake2s b := be_bytes 32 (be_val 0 b * 31 + 7);
  hkdf2 k s := (be_bytes 32 (be_val 0 k + be_val 0 s), be_bytes 32 (be_val 0 k * 3 + be_val 0 s + 1))
}.
#[export] Instance toyNoiseLaws : NoiseLaws toyPrims.
Proof.
  assert (∀ a, be_val 0 (replicate 31 0 ++ [be_val 0 a `mod` 251]) = be_val 0 a `mod` 251) as H.
  { intros a. rewrite be_val_app. change (be_val 0 (replicate 31 0)) with 0. cbn [be_val]. lia. }
  split; cbn [X25519 ScalarBaseMult toyPrims].
  - intros a b. do 2 f_equal. rewrite !H, !Z.mul_mod_idemp_r by lia. by rewrite Z.mul_comm.
  - intros. by eexists.
  - done.
  - intros a. apply Forall_app. split; [by repeat constructor|]. constructor; [|done].
    unfold byte_ok. pose proof (Z.mod_pos_bound (be_val 0 a) 251). lia.
Qed.

Lemma control_channel_witness :
  ∃ init s eph, ClientDeferred (ae := toyAEAD) (np := toyPrims) (replicate 32 5) (ScalarBaseMult (replicate 32 9)) 113
    (replicate 32 77) = Ok (init, s, eph) ∧ zlen init = 101.
Proof.
  destruct (control_channel (ae := toyAEAD) (np := toyPrims) 113 (replicate 32 5) (replicate 32 9)
    (replicate 32 77) (replicate 32 200) [[1; 2]; [3]] [[4]])
    as (init & s & eph & resp & cc & sc & tC & tS & wUp & wDown & Hc & _);
    try done; try (by repeat constructor).
  exists init, s, eph. split; [exact Hc|]. vm_compute in Hc. by injection Hc as <- _ _.
Defined.
