(* ===== verification/PeerMap.v ===== *)
(** * The index of peers

    [wgengine/magicsock/peermap.go] and the parts of [magicsock.go] that drive it:
    the endpoints of the peers, indexed by node key, node ID, disco key and network
    address, as network maps and single updates arrive.

    [*endpoint] and [*peerInfo] are pointers that several indexes share, so they are
    locations of a store.  Of an endpoint the store keeps what the index reads; its
    paths and timers are left out, and with them the logging, the metrics and the
    relay manager.  Keys are the integers of their 32 bytes, the zero key is 0.
    [devPanicf] panics in tests and unstable builds only and is a no-op here.
    [Panic] is a run-time panic. *)

From S2P Require Import Prelude NetIP.

(** ** Addresses: [epAddr] and [packet.VirtualNetworkID] *)
Definition vniSetMask : Z := 0xFF000000.
Definition vniGetMask : Z := notN 32 vniSetMask.
Definition vniIsSet (vni : Z) : bool := negb (Z.land vni vniSetMask =? 0).
Definition vniSet (vni : Z) : Z := Z.lor vni vniSetMask.
Definition vniGet (vni : Z) : Z := Z.land vni vniGetMask.

Record epAddr := mkEpAddr { eaAP : AddrPort; eaVNI : Z }.
#[export] Instance epAddr_eq_dec : EqDecision epAddr.
Proof. solve_decision. Defined.
#[export] Instance epAddr_countable : Countable epAddr.
Proof.
  refine (inj_countable' (λ a, (eaAP a, eaVNI a)) (λ '(a, v), mkEpAddr a v) _). by intros [].
Defined.

(** A relay address: it goes through a Geneve header. *)
Definition isRelay (a : epAddr) : bool := vniIsSet (eaVNI a).

(** ** Endpoints and peer infos *)
Record endpoint := mkEndpoint {
  epNodeID : Z;
  epKey : Z;                (* publicKey *)
  epWGOnly : bool;          (* isWireguardOnly *)
  epDisco : option Z        (* disco.Load().key, or nil *)
}.
Record peerInfo := mkPeerInfo { piEp : positive; epAddrs : gset epAddr }.

Record peerMap := mkPeerMap {
  byNodeKey : gmap Z positive;
  byEpAddr : gmap epAddr positive;
  byNodeID : gmap Z positive;
  relayEpAddrByNodeKey : gmap Z epAddr;
  nodesOfDisco : gmap Z (gset Z)
}.

(** The store and the index. *)
Record Peers := mkPeers {
  eps : gmap positive endpoint;
  infos : gmap positive peerInfo;
  pm : peerMap
}.

Definition newPeerMap : peerMap := mkPeerMap ∅ ∅ ∅ ∅ ∅.
Definition newPeers : Peers := mkPeers ∅ ∅ newPeerMap.

(** ** Lookups *)
Definition nodeCount (σ : Peers) : nat := size (byNodeKey (pm σ)).
Definition knownPeerDiscoKey (dk : Z) (σ : Peers) : bool :=
  bool_decide (is_Some (nodesOfDisco (pm σ) !! dk)).
Definition epOf (σ : Peers) (l : positive) : option positive := piEp <$> infos σ !! l.
Definition endpointForNodeKey (nk : Z) (σ : Peers) : option positive :=
  if decide (nk = 0) then None else byNodeKey (pm σ) !! nk ≫= epOf σ.
Definition endpointForNodeID (id : Z) (σ : Peers) : option positive :=
  byNodeID (pm σ) !! id ≫= epOf σ.
Definition endpointForEpAddr (a : epAddr) (σ : Peers) : option positive :=
  byEpAddr (pm σ) !! a ≫= epOf σ.

(** ** Updates of the fields *)
Definition withKeys (m : gmap Z positive) (p : peerMap) : peerMap :=
  mkPeerMap m (byEpAddr p) (byNodeID p) (relayEpAddrByNodeKey p) (nodesOfDisco p).
Definition withAddrs (m : gmap epAddr positive) (p : peerMap) : peerMap :=
  mkPeerMap (byNodeKey p) m (byNodeID p) (relayEpAddrByNodeKey p) (nodesOfDisco p).
Definition withIDs (m : gmap Z positive) (p : peerMap) : peerMap :=
  mkPeerMap (byNodeKey p) (byEpAddr p) m (relayEpAddrByNodeKey p) (nodesOfDisco p).
Definition withRelays (m : gmap Z epAddr) (p : peerMap) : peerMap :=
  mkPeerMap (byNodeKey p) (byEpAddr p) (byNodeID p) m (nodesOfDisco p).
Definition withDisco (m : gmap Z (gset Z)) (p : peerMap) : peerMap :=
  mkPeerMap (byNodeKey p) (byEpAddr p) (byNodeID p) (relayEpAddrByNodeKey p) m.
Definition withPM (f : peerMap → peerMap) (σ : Peers) : Peers := mkPeers (eps σ) (infos σ) (f (pm σ)).
(** [delete(pi.epAddrs, a)] and [pi.epAddrs.Add(a)]. *)
Definition dropAddr (l : positive) (a : epAddr) (σ : Peers) : Peers :=
  mkPeers (eps σ) (alter (λ i, mkPeerInfo (piEp i) (epAddrs i ∖ {[a]})) l (infos σ)) (pm σ).
Definition addAddr (l : positive) (a : epAddr) (σ : Peers) : Peers :=
  mkPeers (eps σ) (alter (λ i, mkPeerInfo (piEp i) (epAddrs i ∪ {[a]})) l (infos σ)) (pm σ).
(** [pi.ep.publicKey] *)
Definition keyOfInfo (σ : Peers) (l : positive) : option Z :=
  i ← infos σ !! l; epKey <$> eps σ !! piEp i.

(** ** setNodeKeyForEpAddr *)

(** The address is taken from the peer that has it. *)
Definition clearEpAddr (a : epAddr) (σ : Peers) : Peers :=
  match byEpAddr (pm σ) !! a with
  | None => σ
  | Some l =>
      let σ := withPM (λ p, withAddrs (delete a (byEpAddr p)) p) (dropAddr l a σ) in
      if isRelay a then
        match keyOfInfo σ l with
        | Some nk => withPM (λ p, withRelays (delete nk (relayEpAddrByNodeKey p)) p) σ
        | None => σ
        end
      else σ
  end.

(** The relay address a peer had makes room for its new one. *)
Definition replaceRelay (a : epAddr) (nk : Z) (l : positive) (σ : Peers) : Peers :=
  let σ :=
    match relayEpAddrByNodeKey (pm σ) !! nk with
    | Some r => withPM (λ p, withAddrs (delete r (byEpAddr p)) p) (dropAddr l r σ)
    | None => σ
    end in
  withPM (λ p, withRelays (<[nk := a]> (relayEpAddrByNodeKey p)) p) σ.

Definition setNodeKeyForEpAddr (a : epAddr) (nk : Z) (σ : Peers) : Peers :=
  let σ := clearEpAddr a σ in
  match byNodeKey (pm σ) !! nk with
  | None => σ
  | Some l =>
      let σ := if isRelay a then replaceRelay a nk l σ else σ in
      withPM (λ p, withAddrs (<[a := l]> (byEpAddr p)) p) (addAddr l a σ)
  end.

(** ** upsertEndpoint *)

(** [delete(m.nodesOfDisco[dk], nk)]: a nil set stays nil. *)
Definition dropDisco (dk nk : Z) (p : peerMap) : peerMap :=
  withDisco (alter (λ s, s ∖ {[nk]}) dk (nodesOfDisco p)) p.
Definition addDisco (dk nk : Z) (p : peerMap) : peerMap :=
  withDisco (<[dk := default ∅ (nodesOfDisco p !! dk) ∪ {[nk]}]> (nodesOfDisco p)) p.

(** The peer info of the endpoint [q], created when its key is new. *)
Definition infoFor (q : positive) (nk : Z) (σ : Peers) : positive * Peers :=
  match byNodeKey (pm σ) !! nk with
  | Some l => (l, σ)
  | None =>
      let l := fresh (dom (infos σ)) in
      (l, withPM (λ p, withKeys (<[nk := l]> (byNodeKey p)) p)
            (mkPeers (eps σ) (<[l := mkPeerInfo q ∅]> (infos σ)) (pm σ)))
  end.

(** [q] is the endpoint; [states] are the keys of its [endpointState], in the order
    in which they are ranged over. *)
Definition upsertEndpoint (q : positive) (oldDiscoKey : Z) (states : list AddrPort) (σ : Peers)
    : res () Peers :=
  match eps σ !! q with
  | None => Panic
  | Some ep =>
      if decide (epNodeID ep = 0) then Panic
      else
        let '(l, σ) := infoFor q (epKey ep) σ in
        let σ := withPM (λ p, withIDs (<[epNodeID ep := l]> (byNodeID p)) p) σ in
        let σ := if decide (epDisco ep = Some oldDiscoKey) then σ
                 else withPM (dropDisco oldDiscoKey (epKey ep)) σ in
        if epWGOnly ep then
          Ok (foldl (λ σ ipp, setNodeKeyForEpAddr (mkEpAddr ipp 0) (epKey ep) σ) σ states)
        else
          match epDisco ep with
          | None => Panic
          | Some dk => Ok (withPM (addDisco dk (epKey ep)) σ)
          end
  end.

(** ** deleteEndpoint *)

(** [m.byNodeID] loses the node if it is still this endpoint's. *)
Definition dropID (q : positive) (id : Z) (σ : Peers) : Peers :=
  if decide (endpointForNodeID id σ = Some q)
  then withPM (λ p, withIDs (delete id (byNodeID p)) p) σ else σ.

(** [stopAndReset] stops the endpoint's timers and forgets its paths, which are not
    part of the store. *)
Definition deleteEndpoint (q : positive) (σ : Peers) : Peers :=
  match eps σ !! q with
  | None => σ
  | Some ep =>
      let nk := epKey ep in
      let pi := byNodeKey (pm σ) !! nk in
      let σ := match epDisco ep with
               | Some dk => withPM (dropDisco dk nk) σ
               | None => σ
               end in
      let σ := withPM (λ p, withKeys (delete nk (byNodeKey p)) p) σ in
      let σ := dropID q (epNodeID ep) σ in
      match pi ≫= (λ l, infos σ !! l) with
      | None => σ
      | Some i =>
          withPM (λ p, withRelays (delete nk (relayEpAddrByNodeKey p))
            (withAddrs (filter (λ kv, kv.1 ∉ epAddrs i) (byEpAddr p)) p)) σ
      end
  end.

(** The endpoints [forEachEndpoint] visits when it ranges over [byNodeKey] in the
    order [ord]. *)
Definition forEachEndpoint (ord : list Z) (σ : Peers) : list positive :=
  omap (λ nk, byNodeKey (pm σ) !! nk ≫= epOf σ) ord.

(** The endpoints [forEachEndpointWithDiscoKey] calls [f] on, when it ranges over the
    nodes of the disco key in the order [ord]. *)
Fixpoint forEachEndpointWithDiscoKey (ord : list Z) (f : positive → bool) (σ : Peers) : list positive :=
  match ord with
  | [] => []
  | nk :: ord =>
      match byNodeKey (pm σ) !! nk ≫= epOf σ with
      | None => forEachEndpointWithDiscoKey ord f σ
      | Some q => if f q then q :: forEachEndpointWithDiscoKey ord f σ else [q]
      end
  end.

(** ** The connection's view of the network map *)

(** What the code reads of a [tailcfg.NodeView]; [nRest] stands for the other fields,
    which only [Equal] looks at. *)
Record NodeView := mkNode { nID : Z; nKey : Z; nDisco : Z; nWGOnly : bool; nRest : Z }.
#[export] Instance NodeView_eq_dec : EqDecision NodeView.
Proof. solve_decision. Defined.

(** [updateDiscoKey], also for [updateFromNode]. *)
Definition updateDiscoKey (q : positive) (dk : Z) (σ : Peers) : Peers :=
  mkPeers (alter (λ e, mkEndpoint (epNodeID e) (epKey e) (epWGOnly e)
                         (if decide (dk = 0) then None else Some dk)) q (eps σ)) (infos σ) (pm σ).
Definition discoOf (q : positive) (σ : Peers) : Z :=
  default 0 (eps σ !! q ≫= epDisco).

(** [upsertPeerLocked]; [states] is what [updateFromNode] leaves in the endpoint's
    [endpointState]. *)
Definition upsertPeerLocked (n : NodeView) (states : list AddrPort) (σ : Peers) : res () Peers :=
  if decide (nID n = 0) then Ok σ
  else if decide (nKey n = 0) then Ok σ
  else
    let create (σ : Peers) : res () Peers :=
      if decide (is_Some (endpointForNodeKey (nKey n) σ)) then Ok σ
      else if decide (nDisco n = 0 ∧ nWGOnly n = false) then Ok σ
      else
        let q := fresh (dom (eps σ)) in
        let ep := mkEndpoint (nID n) (nKey n) (nWGOnly n) None in
        let σ := updateDiscoKey q (nDisco n) (mkPeers (<[q := ep]> (eps σ)) (infos σ) (pm σ)) in
        upsertEndpoint q 0 states σ in
    match endpointForNodeID (nID n) σ with
    | None => create σ
    | Some q =>
        if decide (epKey <$> eps σ !! q = Some (nKey n)) then
          if decide (nDisco n = 0 ∧ nWGOnly n = false) then Ok (deleteEndpoint q σ)
          else
            let oldDiscoKey := discoOf q σ in
            upsertEndpoint q oldDiscoKey states (updateDiscoKey q (nDisco n) σ)
        else create (deleteEndpoint q σ)
    end.

(** [Conn], as far as it keeps track of peers. *)
Record MConn := mkMConn {
  peers : Peers;
  peersByID : gmap Z NodeView;
  discoInfo : gset Z;
  derpRoute : gset Z;
  peerLastDerp : gset Z;
  mclosed : bool;
  lastFlags : Z             (* debugFlags, as one value *)
}.

Definition newMConn : MConn := mkMConn newPeers ∅ ∅ ∅ ∅ false 0.
Definition withPeers (σ : Peers) (c : MConn) : MConn :=
  mkMConn σ (peersByID c) (discoInfo c) (derpRoute c) (peerLastDerp c) (mclosed c) (lastFlags c).
Definition withDiscoInfo (d : gset Z) (c : MConn) : MConn :=
  mkMConn (peers c) (peersByID c) d (derpRoute c) (peerLastDerp c) (mclosed c) (lastFlags c).

Definition UpsertPeer (n : NodeView) (states : list AddrPort) (c : MConn) : res () MConn :=
  if mclosed c then Ok c
  else if decide (nID n = 0) then Ok c
  else
    let '(dr, pl) :=
      match peersByID c !! nID n with
      | Some prev => if decide (nKey prev = nKey n) then (derpRoute c, peerLastDerp c)
                     else (derpRoute c ∖ {[nKey prev]}, peerLastDerp c ∖ {[nKey prev]})
      | None => (derpRoute c, peerLastDerp c)
      end in
    σ ← upsertPeerLocked n states (peers c);
    Ok (mkMConn σ (<[nID n := n]> (peersByID c)) (discoInfo c) dr pl false (lastFlags c)).

Definition RemovePeer (nid : Z) (c : MConn) : MConn :=
  if mclosed c then c
  else
    match peersByID c !! nid with
    | None => c
    | Some prev =>
        let σ := match endpointForNodeID nid (peers c) with
                 | Some q => deleteEndpoint q (peers c)
                 | None => peers c
                 end in
        let dk := nDisco prev in
        mkMConn σ (delete nid (peersByID c))
          (if decide (dk ≠ 0 ∧ knownPeerDiscoKey dk σ = false) then discoInfo c ∖ {[dk]} else discoInfo c)
          (derpRoute c ∖ {[nKey prev]}) (peerLastDerp c ∖ {[nKey prev]}) false (lastFlags c)
    end.

Fixpoint upsertAll (ns : list (NodeView * list AddrPort)) (σ : Peers) : res () Peers :=
  match ns with
  | [] => Ok σ
  | (n, states) :: ns => σ ← upsertPeerLocked n states σ; upsertAll ns σ
  end.

(** The endpoints whose key is not in the map are deleted; [ord] is the order in
    which [byNodeKey] is ranged over. *)
Definition deleteStale (keep : gset Z) (ord : list Z) (σ : Peers) : Peers :=
  foldl (λ σ nk,
    match byNodeKey (pm σ) !! nk ≫= epOf σ with
    | Some q =>
        match eps σ !! q with
        | Some e => if decide (epKey e ∈ keep) then σ else deleteEndpoint q σ
        | None => σ
        end
    | None => σ
    end) σ ord.

(** The fast path of [updateNodes]: nothing has changed. *)
Definition unchanged (flags : Z) (ns : list (NodeView * list AddrPort)) (c : MConn) : bool :=
  bool_decide (lastFlags c = flags) && bool_decide (length ns = size (peersByID c)) &&
  forallb (λ n, bool_decide (peersByID c !! nID n.1 = Some n.1)) ns.

(** [updateNodes], without [self]; the result says whether the peers changed. *)
Definition updateNodes (flags : Z) (ns : list (NodeView * list AddrPort)) (ord : list Z) (c : MConn)
  : res () (bool * MConn) :=
  if mclosed c then Ok (false, c)
  else if unchanged flags ns c then Ok (false, c)
  else
    let newPeers : gmap Z NodeView := foldl (λ m n, <[nID n.1 := n.1]> m) ∅ ns in
    σ ← upsertAll ns (peers c);
    let gone : gset Z :=
      list_to_set (omap (λ '(id, prev),
        match newPeers !! id with
        | Some n => if decide (nKey n = nKey prev) then None else Some (nKey prev)
        | None => Some (nKey prev)
        end) (map_to_list (peersByID c))) in
    let σ := if decide (nodeCount σ = size newPeers) then σ
             else deleteStale (list_to_set ((λ kv, nKey kv.2) <$> map_to_list newPeers)) ord σ in
    Ok (true, mkMConn σ newPeers (filter (λ dk, knownPeerDiscoKey dk σ = true) (discoInfo c))
          (derpRoute c ∖ gone) (peerLastDerp c ∖ gone) false flags).

(** [discoInfoForKnownPeerLocked]: [Shared] panics on a zero key. *)
Definition discoInfoForKnownPeerLocked (dk : Z) (c : MConn) : res () MConn :=
  if decide (dk ∈ discoInfo c) then Ok c
  else if decide (dk = 0) then Panic
  else Ok (withDiscoInfo (discoInfo c ∪ {[dk]}) c).

(** [HandleDiscoKeyAdvertisement] for the node key [nk]. *)
Definition HandleDiscoKeyAdvertisement (nk dk : Z) (states : list AddrPort) (c : MConn) : res () MConn :=
  match endpointForNodeKey nk (peers c) with
  | None => Ok c
  | Some q =>
      let oldDiscoKey := discoOf q (peers c) in
      if decide (oldDiscoKey = dk) then Ok c
      else
        c ← discoInfoForKnownPeerLocked dk c;
        σ ← upsertEndpoint q oldDiscoKey states (updateDiscoKey q dk (peers c));
        Ok (withPeers σ c)
  end.

(** The head of [handleDiscoMessage]: whether a message is decrypted at all.
    [hasKey] says that a private key is set; [relay] is what the relay manager
    answers for the sender of a relay handshake message, [None] for other messages. *)
Definition acceptsDisco (hasKey : bool) (relay : option bool) (sender : Z) (c : MConn) : res () (bool * MConn) :=
  if mclosed c then Ok (false, c)
  else if negb hasKey then Ok (false, c)
  else
    match relay with
    | Some known => Ok (known, c)
    | None =>
        if knownPeerDiscoKey sender (peers c) then
          c ← discoInfoForKnownPeerLocked sender c; Ok (true, c)
        else Ok (false, c)
    end.
