(* ===== verification/PeerMapThms.v ===== *)
(** * The index of peers: theorems

    The five indexes of [peerMap] stay consistent with each other under every
    sequence of network maps, updates and discovered addresses; after a network map
    they hold exactly its peers. *)

From S2P Require Import Prelude NetIP PeerMap.

(** ** What the indexes say about a peer info *)
Definition epAt (σ : Peers) (l : positive) : option endpoint := epOf σ l ≫= λ q, eps σ !! q.
Definition addrsAt (σ : Peers) (l : positive) : option (gset epAddr) := epAddrs <$> infos σ !! l.
Definition live (σ : Peers) (l : positive) : Prop := ∃ nk, byNodeKey (pm σ) !! nk = Some l.

(** The node [nk] is listed under the disco key [dk]. *)
Definition usesDisco (m : gmap Z (gset Z)) (dk nk : Z) : Prop := ∃ s, m !! dk = Some s ∧ nk ∈ s.

Lemma usesDisco_drop m dk nk dk' nk' :
  usesDisco (alter (λ s, s ∖ {[nk]}) dk m) dk' nk' ↔ usesDisco m dk' nk' ∧ ¬ (dk' = dk ∧ nk' = nk).
Proof.
  unfold usesDisco. destruct (decide (dk' = dk)) as [->|Hne].
  - rewrite lookup_alter_eq. destruct (m !! dk) as [s|]; simpl; [|naive_solver]. split.
    + intros (s' & [= <-] & [? ?]%elem_of_difference). split; [by exists s|set_solver].
    + intros ((s' & [= <-] & ?) & ?). eexists. split; [done|set_solver].
  - rewrite lookup_alter_ne by done. naive_solver.
Qed.
Lemma usesDisco_add m dk nk dk' nk' :
  usesDisco (<[dk := default ∅ (m !! dk) ∪ {[nk]}]> m) dk' nk' ↔ usesDisco m dk' nk' ∨ dk' = dk ∧ nk' = nk.
Proof.
  unfold usesDisco. destruct (decide (dk' = dk)) as [->|Hne].
  - rewrite lookup_insert_eq. split.
    + intros (s' & [= <-] & [Hin| ->%elem_of_singleton]%elem_of_union); [left|by right].
      destruct (m !! dk) as [s|]; [by exists s|set_solver].
    + intros [(s & -> & ?)|[_ ->]]; eexists; (split; [done|]); simpl; set_solver.
  - rewrite lookup_insert_ne by done. naive_solver.
Qed.

(** Keys, IDs and disco keys. *)
Record wfCore (σ : Peers) : Prop := {
  wf_key nk l : byNodeKey (pm σ) !! nk = Some l →
    ∃ e, epAt σ l = Some e ∧ epKey e = nk ∧ nk ≠ 0 ∧ epNodeID e ≠ 0 ∧ epDisco e ≠ Some 0 ∧
         byNodeID (pm σ) !! epNodeID e = Some l;
  wf_id id l : byNodeID (pm σ) !! id = Some l → live σ l ∧ epNodeID <$> epAt σ l = Some id;
  wf_disco dk nk : usesDisco (nodesOfDisco (pm σ)) dk nk →
    ∃ l e, byNodeKey (pm σ) !! nk = Some l ∧ epAt σ l = Some e ∧ epDisco e = Some dk ∧ epWGOnly e = false;
  wf_member l e : live σ l → epAt σ l = Some e → epWGOnly e = false →
    ∃ dk, epDisco e = Some dk ∧ usesDisco (nodesOfDisco (pm σ)) dk (epKey e)
}.

(** Addresses, of which at most one per peer is a relay's. *)
Record wfAddr (σ : Peers) : Prop := {
  wf_addr a l : byEpAddr (pm σ) !! a = Some l → live σ l ∧ ∃ s, addrsAt σ l = Some s ∧ a ∈ s;
  wf_owned l s a : live σ l → addrsAt σ l = Some s → a ∈ s → byEpAddr (pm σ) !! a = Some l;
  wf_relay nk r : relayEpAddrByNodeKey (pm σ) !! nk = Some r →
    isRelay r = true ∧ ∃ l s, byNodeKey (pm σ) !! nk = Some l ∧ addrsAt σ l = Some s ∧ r ∈ s;
  wf_single nk l s r : byNodeKey (pm σ) !! nk = Some l → addrsAt σ l = Some s → r ∈ s → isRelay r = true →
    relayEpAddrByNodeKey (pm σ) !! nk = Some r
}.

Record wf (σ : Peers) : Prop := { wf_core : wfCore σ; wf_addrs : wfAddr σ }.

Lemma live_inj σ nk nk' l :
  wfCore σ → byNodeKey (pm σ) !! nk = Some l → byNodeKey (pm σ) !! nk' = Some l → nk = nk'.
Proof.
  intros Hc H H'. destruct (wf_key _ Hc _ _ H) as (e & He & Hk & _).
  destruct (wf_key _ Hc _ _ H') as (e' & He' & Hk' & _). congruence.
Qed.

(** ** The store under the updates of addresses *)

(** Only addresses differ. *)
Record sameCore (σ σ' : Peers) : Prop := {
  same_keys : byNodeKey (pm σ') = byNodeKey (pm σ);
  same_ids : byNodeID (pm σ') = byNodeID (pm σ);
  same_disco : nodesOfDisco (pm σ') = nodesOfDisco (pm σ);
  same_eps : eps σ' = eps σ;
  same_ep l : epOf σ' l = epOf σ l
}.
#[export] Instance sameCore_preorder : PreOrder sameCore.
Proof.
  split; [by split|]. intros σ1 σ2 σ3 [] []. split; congruence.
Qed.

Lemma sameCore_epAt σ σ' l : sameCore σ σ' → epAt σ' l = epAt σ l.
Proof. intros [_ _ _ He Hp]. unfold epAt. by rewrite He, Hp. Qed.
Lemma sameCore_live σ σ' l : sameCore σ σ' → live σ' l ↔ live σ l.
Proof. intros [Hk _ _ _ _]. unfold live. by rewrite Hk. Qed.

Lemma wfCore_same σ σ' : sameCore σ σ' → wfCore σ → wfCore σ'.
Proof.
  intros Hs [H1 H2 H3 H4]. pose proof Hs as [Hk Hi Hd He Hp].
  split; intros *; rewrite ?Hk, ?Hi, ?Hd, ?(sameCore_live _ _ _ Hs), ?(sameCore_epAt _ _ _ Hs); eauto.
  intros H. destruct (H3 _ _ H) as (l & e & ?). exists l, e. by rewrite ?(sameCore_epAt _ _ _ Hs).
Qed.

Lemma epOf_alter σ f l l' :
  (∀ i, piEp (f i) = piEp i) → epOf (mkPeers (eps σ) (alter f l (infos σ)) (pm σ)) l' = epOf σ l'.
Proof.
  intros Hf. unfold epOf. cbn. destruct (decide (l = l')) as [->|Hne].
  - rewrite lookup_alter_eq. destruct (infos σ !! l'); simpl; [by rewrite Hf|done].
  - by rewrite lookup_alter_ne.
Qed.
Lemma dropAddr_core l a σ : sameCore σ (dropAddr l a σ).
Proof. split; try done. intros l'. by apply epOf_alter. Qed.
Lemma addAddr_core l a σ : sameCore σ (addAddr l a σ).
Proof. split; try done. intros l'. by apply epOf_alter. Qed.
Lemma withAddrs_core m σ : sameCore σ (withPM (λ p, withAddrs (m p) p) σ).
Proof. by split. Qed.
Lemma withRelays_core m σ : sameCore σ (withPM (λ p, withRelays (m p) p) σ).
Proof. by split. Qed.

Lemma addrsAt_drop l a σ l' :
  addrsAt (dropAddr l a σ) l' = if decide (l = l') then (λ s, s ∖ {[a]}) <$> addrsAt σ l' else addrsAt σ l'.
Proof.
  unfold addrsAt, dropAddr. cbn. case_decide as H; [subst|by rewrite lookup_alter_ne].
  rewrite lookup_alter_eq. by destruct (infos σ !! l').
Qed.
Lemma addrsAt_add l a σ l' :
  addrsAt (addAddr l a σ) l' = if decide (l = l') then (λ s, s ∪ {[a]}) <$> addrsAt σ l' else addrsAt σ l'.
Proof.
  unfold addrsAt, addAddr. cbn. case_decide as H; [subst|by rewrite lookup_alter_ne].
  rewrite lookup_alter_eq. by destruct (infos σ !! l').
Qed.

Create HintDb peers.
#[export] Hint Resolve dropAddr_core addAddr_core withAddrs_core withRelays_core : peers.

Lemma clearEpAddr_core a σ : sameCore σ (clearEpAddr a σ).
Proof.
  unfold clearEpAddr. destruct (byEpAddr (pm σ) !! a) as [l|]; [|done].
  assert (sameCore σ (withPM (λ p, withAddrs (delete a (byEpAddr p)) p) (dropAddr l a σ)))
    by (etrans; [apply dropAddr_core|apply withAddrs_core]).
  destruct (isRelay a); [|done]. destruct (keyOfInfo _ l); [|done]. etrans; [done|apply withRelays_core].
Qed.
Lemma setNodeKeyForEpAddr_core a nk σ : sameCore σ (setNodeKeyForEpAddr a nk σ).
Proof.
  unfold setNodeKeyForEpAddr. etrans; [apply (clearEpAddr_core a)|]. generalize (clearEpAddr a σ). clear σ. intros σ.
  destruct (byNodeKey (pm σ) !! nk) as [l|]; [|done].
  trans (if isRelay a then replaceRelay a nk l σ else σ).
  - destruct (isRelay a); [|done]. unfold replaceRelay.
    destruct (relayEpAddrByNodeKey (pm σ) !! nk) as [r|]; [|apply withRelays_core].
    etrans; [apply (dropAddr_core l r)|]. etrans; [|apply withRelays_core]. apply withAddrs_core.
  - etrans; [apply (addAddr_core l a)|apply withAddrs_core].
Qed.

(** ** setNodeKeyForEpAddr keeps the addresses consistent *)
Lemma keyOfInfo_epAt σ l : keyOfInfo σ l = epKey <$> epAt σ l.
Proof. unfold keyOfInfo, epAt, epOf. by destruct (infos σ !! l). Qed.

Lemma clearEpAddr_eq a l σ :
  wf σ → byEpAddr (pm σ) !! a = Some l →
  ∃ nk, byNodeKey (pm σ) !! nk = Some l ∧
    byEpAddr (pm (clearEpAddr a σ)) = delete a (byEpAddr (pm σ)) ∧
    (∀ l', addrsAt (clearEpAddr a σ) l' =
       if decide (l = l') then (λ s, s ∖ {[a]}) <$> addrsAt σ l' else addrsAt σ l') ∧
    relayEpAddrByNodeKey (pm (clearEpAddr a σ)) =
      if isRelay a then delete nk (relayEpAddrByNodeKey (pm σ)) else relayEpAddrByNodeKey (pm σ).
Proof.
  intros [Hc Ha] Hl. destruct (wf_addr _ Ha _ _ Hl) as [[nk Hnk] _]. exists nk. split; [done|].
  destruct (wf_key _ Hc _ _ Hnk) as (e & He & Hk & _).
  unfold clearEpAddr. rewrite Hl. cbv zeta.
  assert (keyOfInfo (withPM (λ p, withAddrs (delete a (byEpAddr p)) p) (dropAddr l a σ)) l = Some nk) as ->.
  { rewrite keyOfInfo_epAt. rewrite (sameCore_epAt σ).
    - rewrite He. simpl. by rewrite Hk.
    - etrans; [apply (dropAddr_core l a)|apply withAddrs_core]. }
  destruct (isRelay a); (split; [done|]); (split; [intros l'; apply (addrsAt_drop l a σ l')|done]).
Qed.

Lemma clearEpAddr_wf a σ :
  wf σ → wfAddr (clearEpAddr a σ) ∧ byEpAddr (pm (clearEpAddr a σ)) !! a = None.
Proof.
  intros Hw. pose proof Hw as [Hc Ha]. destruct (byEpAddr (pm σ) !! a) as [l|] eqn:Hl.
  2: { unfold clearEpAddr. rewrite Hl. done. }
  destruct (clearEpAddr_eq a l σ Hw Hl) as (nk & Hnk & Hb & Hs & Hr).
  pose proof (clearEpAddr_core a σ) as Hcore. pose proof (same_keys _ _ Hcore) as Hkeys.
  destruct Ha as [A1 A2 R1 R2]. split; [|by rewrite Hb, lookup_delete_eq].
  split; intros *; rewrite ?Hb, ?Hs, ?Hr, ?Hkeys, ?(sameCore_live _ _ _ Hcore).
  - intros [Hne Hl']%lookup_delete_Some. destruct (A1 _ _ Hl') as (Hlv & s & Hs' & Hin). split; [done|].
    rewrite Hs'. case_decide; simpl; eexists; (split; [done|]); set_solver.
  - intros Hlv. case_decide as Hd.
    + subst l0. intros (s' & Hs' & ->)%fmap_Some Hin. rewrite lookup_delete_ne by set_solver.
      apply (A2 l s'); [done..|set_solver].
    + intros Hs' Hin. rewrite lookup_delete_ne; [by eapply A2|]. intros <-.
      specialize (A2 _ _ _ Hlv Hs' Hin). congruence.
  - intros Hrel. assert (relayEpAddrByNodeKey (pm σ) !! nk0 = Some r ∧ (isRelay a = true → nk ≠ nk0)) as [Hr0 Hne].
    { destruct (isRelay a); [by apply lookup_delete_Some in Hrel as [? ?]|done]. }
    destruct (R1 _ _ Hr0) as (Hir & l0 & s & Hk0 & Hs0 & Hin). split; [done|]. exists l0.
    rewrite ?Hkeys, Hs, Hs0. case_decide as Hd; [|by eexists]. subst l0. simpl. eexists. split_and!; [done|done|].
    rewrite (live_inj σ nk nk0 l) in Hne by done.
    assert (r ≠ a); [|set_solver]. intros ->. by destruct Hne.
  - intros Hk0 Hs0 Hin Hir.
    assert (∃ s', addrsAt σ l0 = Some s' ∧ r ∈ s' ∧ (l = l0 → r ≠ a)) as (s' & Hs' & Hin' & Hra).
    { case_decide as Hd; [|by exists s; split_and!]. apply fmap_Some in Hs0 as (s' & ? & ->).
      exists s'. split_and!; [done|set_solver|set_solver]. }
    pose proof (R2 _ _ _ _ Hk0 Hs' Hin' Hir) as Hrel. destruct (isRelay a) eqn:Hia; [|done].
    rewrite lookup_delete_ne; [done|]. intros <-. assert (l = l0) by congruence. subst l0.
    destruct (A1 _ _ Hl) as (_ & sa & Hsa & Hina).
    pose proof (R2 _ _ _ _ Hnk Hsa Hina Hia) as Hrel'. rewrite Hrel in Hrel'. injection Hrel' as ->. by apply Hra.
Qed.

(** The relay address that makes room. *)
Definition displaced (a : epAddr) (nk : Z) (σ : Peers) : gset epAddr :=
  if isRelay a then match relayEpAddrByNodeKey (pm σ) !! nk with Some r => {[r]} | None => ∅ end else ∅.

(** The second half of [setNodeKeyForEpAddr], for a key that is known. *)
Definition giveEpAddr (a : epAddr) (nk : Z) (l : positive) (σ : Peers) : Peers :=
  withPM (λ p, withAddrs (<[a := l]> (byEpAddr p)) p)
    (addAddr l a (if isRelay a then replaceRelay a nk l σ else σ)).

Lemma giveEpAddr_eq a nk l σ :
  (∀ x, byEpAddr (pm (giveEpAddr a nk l σ)) !! x =
     if decide (x = a) then Some l else if decide (x ∈ displaced a nk σ) then None else byEpAddr (pm σ) !! x) ∧
  (∀ l', addrsAt (giveEpAddr a nk l σ) l' =
     if decide (l = l') then (λ s, s ∖ displaced a nk σ ∪ {[a]}) <$> addrsAt σ l' else addrsAt σ l') ∧
  relayEpAddrByNodeKey (pm (giveEpAddr a nk l σ)) =
    if isRelay a then <[nk := a]> (relayEpAddrByNodeKey (pm σ)) else relayEpAddrByNodeKey (pm σ).
Proof.
  assert (∀ s : gset epAddr, s ∖ ∅ = s) as H0 by (intros; set_solver).
  assert (∀ l', (λ s : gset epAddr, s ∖ ∅ ∪ {[a]}) <$> addrsAt σ l' = (λ s, s ∪ {[a]}) <$> addrsAt σ l') as Hf.
  { intros l'. destruct (addrsAt σ l'); simpl; [by rewrite H0|done]. }
  unfold giveEpAddr, displaced, replaceRelay. destruct (isRelay a).
  - destruct (relayEpAddrByNodeKey (pm σ) !! nk) as [r|].
    + split_and!; [| |done].
      * intros x. cbn. destruct (decide (x = a)) as [->|Hx]; [by rewrite lookup_insert_eq|].
        rewrite lookup_insert_ne by done. case_decide as Hd.
        -- assert (x = r) as -> by set_solver. by rewrite lookup_delete_eq.
        -- rewrite lookup_delete_ne by set_solver. done.
      * intros l'. change (addrsAt (withPM _ (addAddr l a ?s)) l') with (addrsAt (addAddr l a s) l').
        rewrite addrsAt_add. change (addrsAt (withPM _ (withPM _ ?s)) l') with (addrsAt s l').
        rewrite addrsAt_drop. case_decide; [|done]. by destruct (addrsAt σ l').
    + split_and!; [| |done].
      * intros x. cbn. destruct (decide (x = a)) as [->|Hx]; [by rewrite lookup_insert_eq|].
        rewrite lookup_insert_ne by done. case_decide; [set_solver|done].
      * intros l'. change (addrsAt (withPM _ (addAddr l a ?s)) l') with (addrsAt (addAddr l a s) l').
        rewrite addrsAt_add, Hf. done.
  - split_and!; [| |done].
    + intros x. cbn. destruct (decide (x = a)) as [->|Hx]; [by rewrite lookup_insert_eq|].
      rewrite lookup_insert_ne by done. case_decide; [set_solver|done].
    + intros l'. change (addrsAt (withPM _ (addAddr l a ?s)) l') with (addrsAt (addAddr l a s) l').
      rewrite addrsAt_add, Hf. done.
Qed.

(** A displaced address is the peer's own. *)
Lemma displaced_own a nk l σ x :
  wfAddr σ → byNodeKey (pm σ) !! nk = Some l → x ∈ displaced a nk σ →
  isRelay a = true ∧ isRelay x = true ∧ relayEpAddrByNodeKey (pm σ) !! nk = Some x ∧
  byEpAddr (pm σ) !! x = Some l.
Proof.
  intros Ha Hnk. unfold displaced. destruct (isRelay a); [|set_solver].
  destruct (relayEpAddrByNodeKey (pm σ) !! nk) as [r|] eqn:Hr; [|set_solver].
  intros ->%elem_of_singleton. destruct (wf_relay _ Ha _ _ Hr) as (Hir & l' & s & Hk & Hs & Hin).
  assert (l' = l) as -> by congruence. split_and!; try done. eapply wf_owned; [done|by exists nk|done|done].
Qed.

Lemma giveEpAddr_wf a nk l σ :
  wfCore σ → wfAddr σ → byEpAddr (pm σ) !! a = None → byNodeKey (pm σ) !! nk = Some l →
  sameCore σ (giveEpAddr a nk l σ) → wfAddr (giveEpAddr a nk l σ).
Proof.
  intros Hc Ha Hfree Hnk Hcore. destruct (giveEpAddr_eq a nk l σ) as (Hb & Hs & Hr).
  pose proof (same_keys _ _ Hcore) as Hkeys. pose proof (displaced_own a nk l σ) as Hdis.
  pose proof Ha as [A1 A2 R1 R2]. assert (live σ l) as Hll by by exists nk.
  assert (∃ s, addrsAt σ l = Some s) as [sl Hsl].
  { destruct (wf_key _ Hc _ _ Hnk) as (e & He & _). unfold epAt, epOf, addrsAt in *.
    destruct (infos σ !! l); [by eexists|done]. }
  split; intros *; rewrite ?Hb, ?Hs, ?Hr, ?Hkeys, ?(sameCore_live _ _ _ Hcore).
  - case_decide as Ha0; [intros [= <-]; subst; split; [done|]|].
    { rewrite decide_True, Hsl by done. simpl. eexists. split; [done|set_solver]. }
    case_decide as Hd; [done|]. intros Hl0. destruct (A1 _ _ Hl0) as (Hlv & s & Hs' & Hin). split; [done|].
    rewrite Hs'. case_decide; simpl; eexists; (split; [done|]); set_solver.
  - intros Hlv Hs0 Hin. case_decide as Hd.
    + subst l0. apply fmap_Some in Hs0 as (s' & Hs' & ->). case_decide; [done|].
      rewrite decide_False by set_solver. apply (A2 l s'); [done..|set_solver].
    + pose proof (A2 _ _ _ Hlv Hs0 Hin) as Hold. rewrite decide_False by (intros ->; congruence).
      rewrite decide_False; [done|]. intros Hx. apply Hdis in Hx as (_ & _ & _ & Hx); [congruence|done|done].
  - intros Hrel. destruct (decide (nk0 = nk ∧ isRelay a = true)) as [[-> Hia]|Hne].
    + rewrite Hia, lookup_insert_eq in Hrel. injection Hrel as <-. split; [done|]. exists l.
      rewrite ?Hkeys, Hs, decide_True, Hsl by done. eexists. split_and!; [done|done|set_solver].
    + assert (relayEpAddrByNodeKey (pm σ) !! nk0 = Some r) as Hr0.
      { destruct (isRelay a); [|done]. rewrite lookup_insert_ne in Hrel by naive_solver. done. }
      destruct (R1 _ _ Hr0) as (Hir & l0 & s & Hk0 & Hs0 & Hin). split; [done|]. exists l0.
      rewrite ?Hkeys, Hs, Hs0. case_decide as Hd; [subst l0|by eexists].
      eexists. split_and!; [done|done|].
      assert (nk = nk0) by by eapply live_inj. subst nk0.
      assert (r ∉ displaced a nk σ); [|set_solver].
      intros Hx. apply Hdis in Hx as (? & _); [naive_solver|done|done].
  - intros Hk0 Hs0 Hin Hir. case_decide as Hd.
    + subst l0. assert (nk0 = nk) by by eapply live_inj. subst nk0.
      apply fmap_Some in Hs0 as (s' & Hs' & ->).
      destruct (decide (r = a)) as [->|Hra]; [by rewrite Hir, lookup_insert_eq|].
      pose proof (R2 nk l s' r Hk0 Hs' ltac:(set_solver) Hir) as Hrel.
      destruct (isRelay a) eqn:Hia; [|done]. exfalso.
      assert (r ∈ displaced a nk σ); [|set_solver]. unfold displaced. rewrite Hia, Hrel. set_solver.
    + pose proof (R2 _ _ _ _ Hk0 Hs0 Hin Hir) as Hrel. destruct (isRelay a); [|done].
      rewrite lookup_insert_ne by congruence. done.
Qed.

Lemma setNodeKeyForEpAddr_wf a nk σ : wf σ → wf (setNodeKeyForEpAddr a nk σ).
Proof.
  intros Hw. pose proof (setNodeKeyForEpAddr_core a nk σ) as Hall.
  split; [eapply wfCore_same; [exact Hall|apply Hw]|].
  destruct (clearEpAddr_wf a σ Hw) as [Ha Hfree]. pose proof (clearEpAddr_core a σ) as Hcl.
  assert (wfCore (clearEpAddr a σ)) as Hc by (eapply wfCore_same; [done|apply Hw]).
  unfold setNodeKeyForEpAddr in *. destruct (byNodeKey (pm (clearEpAddr a σ)) !! nk) as [l|] eqn:Hnk; [|done].
  apply (giveEpAddr_wf a nk l); try done.
  pose proof Hcl as [K1 I1 D1 E1 P1]. pose proof Hall as [K2 I2 D2 E2 P2].
  split; [by rewrite K1|by rewrite I1|by rewrite D1|by rewrite E1|intros l'; by rewrite P1].
Qed.

(** ** deleteEndpoint *)

(** [q] is the endpoint of the peer with key [nk]. *)
Definition peerAt (σ : Peers) (nk : Z) (l q : positive) (e : endpoint) : Prop :=
  byNodeKey (pm σ) !! nk = Some l ∧ epOf σ l = Some q ∧ eps σ !! q = Some e.

Lemma peerAt_epAt σ nk l q e : peerAt σ nk l q e → epAt σ l = Some e.
Proof. intros (_ & Hq & He). unfold epAt. by rewrite Hq. Qed.

Lemma deleteEndpoint_eq σ nk l q e :
  wf σ → peerAt σ nk l q e →
  let σ' := deleteEndpoint q σ in
  eps σ' = eps σ ∧ infos σ' = infos σ ∧
  byNodeKey (pm σ') = delete nk (byNodeKey (pm σ)) ∧
  byNodeID (pm σ') = delete (epNodeID e) (byNodeID (pm σ)) ∧
  relayEpAddrByNodeKey (pm σ') = delete nk (relayEpAddrByNodeKey (pm σ)) ∧
  nodesOfDisco (pm σ') = match epDisco e with
                         | Some dk => alter (λ s, s ∖ {[nk]}) dk (nodesOfDisco (pm σ))
                         | None => nodesOfDisco (pm σ) end ∧
  (∀ a, byEpAddr (pm σ') !! a = if decide (byEpAddr (pm σ) !! a = Some l) then None else byEpAddr (pm σ) !! a).
Proof.
  intros [Hc Ha] Hp. pose proof Hp as (Hnk & Hq & He). cbv zeta.
  destruct (wf_key _ Hc _ _ Hnk) as (e' & He' & Hk & Hk0 & Hid0 & _ & Hid).
  rewrite (peerAt_epAt _ _ _ _ _ Hp) in He'. injection He' as <-.
  unfold deleteEndpoint. rewrite He, Hk, Hnk. cbv zeta.
  assert (∃ i, infos σ !! l = Some i ∧ piEp i = q) as (i & Hi & Hiq).
  { unfold epOf in Hq. destruct (infos σ !! l) as [i|]; [|done]. injection Hq as <-. by exists i. }
  set (σ1 := match epDisco e with Some dk => withPM (dropDisco dk nk) σ | None => σ end).
  set (σ2 := withPM (λ p, withKeys (delete nk (byNodeKey p)) p) σ1).
  assert (infos σ2 = infos σ ∧ eps σ2 = eps σ ∧ byNodeID (pm σ2) = byNodeID (pm σ) ∧
          byNodeKey (pm σ2) = delete nk (byNodeKey (pm σ)) ∧
          relayEpAddrByNodeKey (pm σ2) = relayEpAddrByNodeKey (pm σ) ∧ byEpAddr (pm σ2) = byEpAddr (pm σ) ∧
          nodesOfDisco (pm σ2) = nodesOfDisco (pm σ1)) as (S1 & S2 & S3 & S4 & S5 & S6 & S7)
    by (unfold σ2, σ1; by destruct (epDisco e)).
  clearbody σ2. assert (dropID q (epNodeID e) σ2 = withPM (λ p, withIDs (delete (epNodeID e) (byNodeID p)) p) σ2) as ->.
  { unfold dropID. rewrite decide_True; [done|]. unfold endpointForNodeID, epOf. rewrite S3, Hid.
    cbn [mbind option_bind]. rewrite S1, Hi, <- Hiq. done. }
  cbn [mbind option_bind infos withPM]. rewrite S1, Hi. cbn. rewrite S4, S5. split_and!; try done.
  - by rewrite S3.
  - unfold σ1. by destruct (epDisco e).
  - intros a. rewrite S6. case_decide as Hd.
    + apply map_lookup_filter_None. right. intros x Hx Hnin. cbn in Hnin. destruct Hnin.
      destruct (wf_addr _ Ha _ _ Hd) as (_ & s & Hs & Hin). unfold addrsAt in Hs. rewrite Hi in Hs.
      by injection Hs as <-.
    + destruct (byEpAddr (pm σ) !! a) as [l'|] eqn:Hl'; [|by apply map_lookup_filter_None; left].
      apply map_lookup_filter_Some. split; [done|]. cbn. intros Hin. destruct Hd. rewrite <- Hl'.
      apply (wf_owned _ Ha l (epAddrs i)); [by exists nk|unfold addrsAt; by rewrite Hi|done].
Qed.

(** What is left after a deletion. *)
Lemma deleteEndpoint_live σ nk l q e :
  wf σ → peerAt σ nk l q e →
  let σ' := deleteEndpoint q σ in
  (∀ l', epAt σ' l' = epAt σ l') ∧ (∀ l', addrsAt σ' l' = addrsAt σ l') ∧ (∀ l', live σ' l' ↔ live σ l' ∧ l' ≠ l).
Proof.
  intros Hw Hp. destruct (deleteEndpoint_eq _ _ _ _ _ Hw Hp) as (E1 & E2 & E3 & _). cbv zeta in *.
  pose proof Hp as (Hnk & _). split_and!.
  - intros; unfold epAt, epOf; by rewrite E1, E2.
  - intros; unfold addrsAt; by rewrite E2.
  - intros l'. unfold live. rewrite E3. split.
    + intros (nk' & [Hne Hk']%lookup_delete_Some). split; [by exists nk'|]. intros ->.
      destruct Hne. eapply live_inj; [apply Hw|done..].
    + intros ((nk' & Hk') & Hne). exists nk'. rewrite lookup_delete_ne; [done|]. congruence.
Qed.

Lemma deleteEndpoint_wfCore σ nk l q e : wf σ → peerAt σ nk l q e → wfCore (deleteEndpoint q σ).
Proof.
  intros Hw Hp. destruct (deleteEndpoint_eq _ _ _ _ _ Hw Hp) as (_ & _ & E3 & E4 & _ & E6 & _).
  destruct (deleteEndpoint_live _ _ _ _ _ Hw Hp) as (Hep & _ & Hlive).
  pose proof Hp as (Hnk & _). pose proof (peerAt_epAt _ _ _ _ _ Hp) as Hel. cbv zeta in *.
  destruct (wf_core _ Hw) as [C1 C2 C3 C4].
  destruct (C1 _ _ Hnk) as (e' & He' & Hk & _ & _ & _ & Hid). assert (e' = e) as -> by congruence. clear He'.
  assert (∀ dk nk', usesDisco (nodesOfDisco (pm (deleteEndpoint q σ))) dk nk' ↔
    usesDisco (nodesOfDisco (pm σ)) dk nk' ∧ ¬ (epDisco e = Some dk ∧ nk' = nk)) as Hmem.
  { intros dk nk'. rewrite E6. destruct (epDisco e); [rewrite usesDisco_drop|]; naive_solver. }
  split; intros *; rewrite ?E3, ?E4, ?Hep, ?Hlive, ?Hmem.
  - intros [Hne Hk']%lookup_delete_Some. destruct (C1 _ _ Hk') as (e1 & He1 & Hk1 & ? & ? & ? & Hid1).
    exists e1. rewrite ?Hep, ?E4. split_and!; try done. rewrite lookup_delete_ne; [done|].
    intros Heq. rewrite <- Heq, Hid in Hid1. injection Hid1 as <-. congruence.
  - intros [Hne Hi]%lookup_delete_Some. destruct (C2 _ _ Hi) as [Hl He1]. split; [|done].
    split; [done|]. intros ->. rewrite Hel in He1. by injection He1 as <-.
  - intros [Hu Hn]. destruct (C3 _ _ Hu) as (l0 & e0 & Hk0 & He0 & Hd0 & Hw0). exists l0, e0.
    rewrite ?E3, ?Hep. split_and!; try done. rewrite lookup_delete_ne; [done|]. intros <-.
    assert (l0 = l) as -> by congruence. assert (e0 = e) as -> by congruence. by apply Hn.
  - intros [(nk' & Hk') Hne] He0 Hw0. destruct (C4 _ _ ltac:(by exists nk') He0 Hw0) as (dk & Hd & Hu).
    exists dk. rewrite Hmem. split_and!; [done|done|]. intros [_ Hke].
    destruct (C1 _ _ Hk') as (e1 & He1 & Hk1 & _). assert (e1 = e0) as -> by congruence. congruence.
Qed.

Lemma deleteEndpoint_wf σ nk l q e : wf σ → peerAt σ nk l q e → wf (deleteEndpoint q σ).
Proof.
  intros Hw Hp. split; [by eapply deleteEndpoint_wfCore|].
  destruct (deleteEndpoint_eq _ _ _ _ _ Hw Hp) as (_ & _ & E3 & _ & E5 & _ & E7).
  destruct (deleteEndpoint_live _ _ _ _ _ Hw Hp) as (_ & Had & Hlive). cbv zeta in *.
  pose proof Hw as [Hc [A1 A2 R1 R2]]. pose proof Hp as (Hnk & _).
  split; intros *; rewrite ?E3, ?E5, ?E7, ?Had, ?Hlive.
  - case_decide as Hd; [done|]. intros Hl. destruct (A1 _ _ Hl) as (? & s & ?).
    split; [split; [done|congruence]|]. exists s. by rewrite ?Had.
  - intros [Hl Hne] Hs Hin. rewrite (A2 _ _ _ Hl Hs Hin). rewrite decide_False; [done|congruence].
  - intros [Hne Hr]%lookup_delete_Some. destruct (R1 _ _ Hr) as (? & l0 & s & Hk0 & ?). split; [done|].
    exists l0, s. rewrite ?E3, ?Had. by rewrite lookup_delete_ne.
  - intros [Hne Hk0]%lookup_delete_Some Hs Hin Hir. rewrite lookup_delete_ne by done. by eapply R2.
Qed.

(** ** upsertEndpoint *)

(** The peer info [l] of [ep] entered under its ID and its disco key. *)
Definition settle (l : positive) (ep : endpoint) (old : Z) (σ : Peers) : Peers :=
  let σ := withPM (λ p, withIDs (<[epNodeID ep := l]> (byNodeID p)) p) σ in
  let σ := if decide (epDisco ep = Some old) then σ else withPM (dropDisco old (epKey ep)) σ in
  if epWGOnly ep then σ
  else match epDisco ep with Some dk => withPM (addDisco dk (epKey ep)) σ | None => σ end.

Definition setAll (nk : Z) (states : list AddrPort) (σ : Peers) : Peers :=
  foldl (λ σ ipp, setNodeKeyForEpAddr (mkEpAddr ipp 0) nk σ) σ states.

Lemma upsertEndpoint_shape q old states σ ep l σ1 :
  eps σ !! q = Some ep → epNodeID ep ≠ 0 → infoFor q (epKey ep) σ = (l, σ1) →
  upsertEndpoint q old states σ =
  if epWGOnly ep then Ok (setAll (epKey ep) states (settle l ep old σ1))
  else match epDisco ep with None => Panic | Some _ => Ok (settle l ep old σ1) end.
Proof.
  intros He Hid Hi. unfold upsertEndpoint, settle. rewrite He, decide_False, Hi by done.
  destruct (epWGOnly ep); [done|]. by destruct (epDisco ep).
Qed.

Lemma setAll_core nk states : ∀ σ, sameCore σ (setAll nk states σ).
Proof.
  induction states as [|s states IH]; intros σ; [done|]. etrans; [|apply IH]. apply setNodeKeyForEpAddr_core.
Qed.
Lemma setAll_wf nk states : ∀ σ, wf σ → wf (setAll nk states σ).
Proof. induction states as [|s states IH]; intros σ Hw; [done|]. apply IH. by apply setNodeKeyForEpAddr_wf. Qed.

Lemma settle_eq l ep old σ :
  let σ' := settle l ep old σ in
  eps σ' = eps σ ∧ infos σ' = infos σ ∧ byNodeKey (pm σ') = byNodeKey (pm σ) ∧
  byEpAddr (pm σ') = byEpAddr (pm σ) ∧ relayEpAddrByNodeKey (pm σ') = relayEpAddrByNodeKey (pm σ) ∧
  byNodeID (pm σ') = <[epNodeID ep := l]> (byNodeID (pm σ)) ∧
  ∀ dk nk, usesDisco (nodesOfDisco (pm σ')) dk nk ↔
    usesDisco (nodesOfDisco (pm σ)) dk nk ∧ ¬ (epDisco ep ≠ Some old ∧ dk = old ∧ nk = epKey ep) ∨
    epWGOnly ep = false ∧ epDisco ep = Some dk ∧ nk = epKey ep.
Proof.
  cbv zeta. unfold settle. destruct (decide (epDisco ep = Some old)) as [Hd|Hd].
  - destruct (epWGOnly ep); [split_and!; try done; naive_solver|]. rewrite Hd. split_and!; try done.
    intros dk nk. cbn. rewrite usesDisco_add. naive_solver.
  - destruct (epWGOnly ep); [split_and!; try done; intros dk nk; cbn; rewrite usesDisco_drop; naive_solver|].
    destruct (epDisco ep) as [d|]; split_and!; try done; intros dk nk; cbn;
      rewrite ?usesDisco_add, usesDisco_drop; naive_solver.
Qed.

(** The address part does not see the change. *)
Lemma wfAddr_same σ σ' :
  byNodeKey (pm σ') = byNodeKey (pm σ) → byEpAddr (pm σ') = byEpAddr (pm σ) →
  relayEpAddrByNodeKey (pm σ') = relayEpAddrByNodeKey (pm σ) → infos σ' = infos σ → wfAddr σ → wfAddr σ'.
Proof.
  intros H1 H2 H3 H4 [A1 A2 R1 R2].
  split; unfold live, addrsAt in *; rewrite ?H1, ?H2, ?H3, ?H4; done.
Qed.

Definition withEpDisco (e : endpoint) (dk : Z) : endpoint :=
  mkEndpoint (epNodeID e) (epKey e) (epWGOnly e) (if decide (dk = 0) then None else Some dk).

(** The indexes of keys, IDs and disco keys after one peer [l] has been entered with
    the endpoint [ep], new or not: nothing else may be listed under its key and ID. *)
Lemma entered_wfCore σ σ' l ep old :
  wfCore σ →
  byNodeKey (pm σ') = <[epKey ep := l]> (byNodeKey (pm σ)) →
  byNodeID (pm σ') = <[epNodeID ep := l]> (byNodeID (pm σ)) →
  (∀ dk nk, usesDisco (nodesOfDisco (pm σ')) dk nk ↔
    usesDisco (nodesOfDisco (pm σ)) dk nk ∧ ¬ (epDisco ep ≠ Some old ∧ dk = old ∧ nk = epKey ep) ∨
    epWGOnly ep = false ∧ epDisco ep = Some dk ∧ nk = epKey ep) →
  epAt σ' l = Some ep → (∀ l', live σ l' → l' ≠ l → epAt σ' l' = epAt σ l') →
  epKey ep ≠ 0 → epNodeID ep ≠ 0 → epDisco ep ≠ Some 0 → (epWGOnly ep = false → epDisco ep ≠ None) →
  (∀ nk l', byNodeKey (pm σ) !! nk = Some l' → nk = epKey ep ↔ l' = l) →
  (∀ id l', byNodeID (pm σ) !! id = Some l' → id = epNodeID ep ↔ l' = l) →
  (∀ dk, usesDisco (nodesOfDisco (pm σ)) dk (epKey ep) → dk = old ∧ epWGOnly ep = false) →
  wfCore σ'.
Proof.
  intros Hc EK EI ED Hel Hoth Hk0 Hi0 Hd0 Hwg HK HI HU. destruct Hc as [C1 C2 C3 C4].
  assert (∀ nk' l', byNodeKey (pm σ') !! nk' = Some l' ↔
            nk' = epKey ep ∧ l' = l ∨ byNodeKey (pm σ) !! nk' = Some l' ∧ nk' ≠ epKey ep ∧ l' ≠ l) as HK'.
  { intros nk' l'. rewrite EK, lookup_insert_Some. split; [|naive_solver].
    intros [[<- <-]|[Hne Hl]]; [by left|right]. split_and!; [done..|]. intros Heq. by apply (HK _ _ Hl) in Heq. }
  assert (∀ l', live σ' l' ↔ l' = l ∨ live σ l' ∧ l' ≠ l) as HL.
  { intros l'. unfold live. setoid_rewrite HK'. split; [naive_solver|].
    intros [->|[[nk' Hk'] Hne]]; [by eauto|]. exists nk'. right. split_and!; [done| |done].
    intros Heq. by apply (HK _ _ Hk') in Heq. }
  split; intros *; rewrite ?HL.
  - intros [[-> ->]|(Hk & Hne & Hl)]%HK'.
    + exists ep. rewrite EI, lookup_insert_eq. done.
    + destruct (C1 _ _ Hk) as (e1 & He1 & ? & ? & ? & ? & Hid). exists e1.
      rewrite Hoth, EI, lookup_insert_ne by (done || by exists nk || (intros Heq; symmetry in Heq; by apply (HI _ _ Hid) in Heq)).
      done.
  - rewrite EI, lookup_insert_Some. intros [[<- <-]|[Hne Hl]]; [by rewrite Hel; auto|].
    assert (l0 ≠ l) by (intros Heq; apply (HI _ _ Hl) in Heq; congruence).
    destruct (C2 _ _ Hl) as [Hlv He1]. rewrite Hoth by done. auto.
  - rewrite ED. intros [[Hu Hn]|(Hw0 & Hd1 & ->)]; [|exists l, ep; rewrite HK'; auto].
    destruct (C3 _ _ Hu) as (l0 & e0 & Hk1 & He0 & Hd1 & Hw1).
    destruct (decide (nk = epKey ep)) as [->|Hne].
    + destruct (HU _ Hu) as [-> ?]. exists l, ep. rewrite HK'. split_and!; auto.
      destruct (decide (epDisco ep = Some old)); [done|]. by destruct Hn.
    + assert (l0 ≠ l) by (intros Heq; by apply (HK _ _ Hk1) in Heq).
      exists l0, e0. rewrite HK', Hoth by (done || by exists nk). auto 10.
  - intros [->|[[nk1 Hk1] Hne]] He0 Hw0.
    + rewrite Hel in He0. injection He0 as <-. destruct (epDisco ep) as [dk|] eqn:Hd; [|by destruct Hwg].
      exists dk. rewrite ED. auto.
    + rewrite Hoth in He0 by (done || by exists nk1).
      destruct (C4 _ _ ltac:(by exists nk1) He0 Hw0) as (d & Hd1 & Hu). exists d. rewrite ED. split; [done|]. left.
      split; [done|]. intros (_ & _ & Hke). destruct (C1 _ _ Hk1) as (e1 & He1 & Hk2 & _).
      assert (e1 = e) as -> by congruence. rewrite Hke in Hk2. symmetry in Hk2. by apply (HK _ _ Hk1) in Hk2.
Qed.

(** Two live peer infos have different endpoints. *)
Lemma live_ep_inj σ l l' q : wfCore σ → live σ l → live σ l' → epOf σ l = Some q → epOf σ l' = Some q → l = l'.
Proof.
  intros Hc [nk Hk] [nk' Hk'] Hq Hq'. destruct (wf_key _ Hc _ _ Hk) as (e & He & Hke & _).
  destruct (wf_key _ Hc _ _ Hk') as (e' & He' & Hke' & _). unfold epAt in *. rewrite Hq in He. rewrite Hq' in He'.
  cbn in *. congruence.
Qed.

Lemma live_epAt σ l : wfCore σ → live σ l → ∃ q e, epOf σ l = Some q ∧ eps σ !! q = Some e ∧ epAt σ l = Some e.
Proof.
  intros Hc [nk Hk]. destruct (wf_key _ Hc _ _ Hk) as (e & He & _). pose proof He as He'. unfold epAt in He.
  destruct (epOf σ l) as [q|] eqn:Hq; [|done]. by exists q, e.
Qed.

(** A peer that is there gets its new disco key. *)
Lemma settle_existing σ nk l q e dk :
  wf σ → peerAt σ nk l q e → (epWGOnly e = false → dk ≠ 0) →
  wf (settle l (withEpDisco e dk) (discoOf q σ) (updateDiscoKey q dk σ)).
Proof.
  intros Hw Hp Hdk. pose proof Hp as (Hnk & Hq & He). pose proof (peerAt_epAt _ _ _ _ _ Hp) as Hel.
  set (ep := withEpDisco e dk). set (old := discoOf q σ).
  destruct (settle_eq l ep old (updateDiscoKey q dk σ)) as (S1 & S2 & S3 & S4 & S5 & S6 & S7).
  set (σ' := settle l ep old (updateDiscoKey q dk σ)) in *. cbn in S3, S4, S5, S6, S7.
  split; [|by eapply wfAddr_same; [..|apply Hw]]. pose proof (wf_core _ Hw) as Hc.
  destruct (wf_key _ Hc _ _ Hnk) as (e' & He' & Hk & Hk0 & Hid0 & Hd0 & Hid).
  assert (e' = e) as -> by congruence. clear He'. assert (live σ l) as Hll by by exists nk.
  assert (∀ l', epOf σ' l' = epOf σ l') as Heo by (intros; unfold epOf; by rewrite S2).
  apply (entered_wfCore σ σ' l ep old); try done.
  - by rewrite S3, insert_id by (cbn; by rewrite Hk).
  - unfold epAt. rewrite Heo, Hq, S1. cbn. by rewrite lookup_alter_eq, He.
  - intros l' Hlv Hne. destruct (live_epAt σ l' Hc Hlv) as (q' & e1 & Hq' & _ & _).
    unfold epAt. rewrite Heo, Hq', S1. cbn. rewrite lookup_alter_ne; [done|]. intros <-.
    destruct Hne. by eapply live_ep_inj.
  - cbn. by rewrite Hk.
  - cbn. case_decide; congruence.
  - intros Hwg. cbn. rewrite decide_False by auto. done.
  - intros nk1 l1 Hk1. cbn. rewrite Hk. split; [intros ->; congruence|intros ->; by eapply live_inj].
  - intros id l1 Hi. cbn. split; [intros ->; congruence|]. intros ->.
    destruct (wf_id _ Hc _ _ Hi) as [_ Hx]. rewrite Hel in Hx. by injection Hx as <-.
  - cbn. rewrite Hk. intros d Hu. destruct (wf_disco _ Hc _ _ Hu) as (l0 & e0 & Hk1 & He0 & Hd1 & Hw1).
    assert (e0 = e) as -> by congruence. split; [|done]. unfold old, discoOf. rewrite He. cbn. by rewrite Hd1.
Qed.

(** ** New peers *)

(** A peer info without addresses entered under a new key. *)
Lemma wfAddr_new σ σ' l nk :
  wfCore σ → wfAddr σ → infos σ !! l = None → byNodeKey (pm σ) !! nk = None →
  byNodeKey (pm σ') = <[nk := l]> (byNodeKey (pm σ)) → byEpAddr (pm σ') = byEpAddr (pm σ) →
  relayEpAddrByNodeKey (pm σ') = relayEpAddrByNodeKey (pm σ) →
  (∀ l', addrsAt σ' l' = if decide (l' = l) then Some ∅ else addrsAt σ l') → wfAddr σ'.
Proof.
  intros Hc [A1 A2 R1 R2] Hfl Hfk EK EB ER EA.
  assert (∀ l', live σ l' → l' ≠ l) as Hnl.
  { intros l' Hlv ->. destruct (live_epAt _ _ Hc Hlv) as (q & e & Hq & _). unfold epOf in Hq. by rewrite Hfl in Hq. }
  assert (∀ l', live σ l' → live σ' l') as Hup.
  { intros l' [nk' Hk']. exists nk'. rewrite EK, lookup_insert_ne; [done|congruence]. }
  assert (∀ l', live σ' l' → l' = l ∨ live σ l') as Hdn.
  { intros l' [nk' Hk']. rewrite EK in Hk'. apply lookup_insert_Some in Hk' as [[_ <-]|[_ ?]]; [by left|right; by exists nk']. }
  split; intros *; rewrite ?EB, ?ER, ?EA.
  - intros Hl. destruct (A1 _ _ Hl) as (Hlv & s & Hs & Hin). split; [by apply Hup|].
    rewrite ?EA, decide_False by by apply Hnl. by exists s.
  - intros Hlv. case_decide; [intros [= <-]; set_solver|]. apply A2. by destruct (Hdn _ Hlv).
  - intros Hr. destruct (R1 _ _ Hr) as (? & l0 & s & Hk0 & Hs & ?). split; [done|]. exists l0, s.
    rewrite EK, EA, lookup_insert_ne, decide_False by (congruence || by apply Hnl; exists nk0). done.
  - rewrite EK, lookup_insert_Some. intros [[<- <-]|[Hne Hk0]].
    + rewrite decide_True by done. intros [= <-]. set_solver.
    + rewrite decide_False by (apply Hnl; by exists nk0). by apply R2.
Qed.

(** The first registration of an endpoint. *)
Definition newEndpoint (n : NodeView) : endpoint :=
  withEpDisco (mkEndpoint (nID n) (nKey n) (nWGOnly n) None) (nDisco n).
Definition withNewEp (n : NodeView) (σ : Peers) : Peers :=
  updateDiscoKey (fresh (dom (eps σ))) (nDisco n)
    (mkPeers (<[fresh (dom (eps σ)) := mkEndpoint (nID n) (nKey n) (nWGOnly n) None]> (eps σ)) (infos σ) (pm σ)).

Lemma withNewEp_eps n σ q :
  eps (withNewEp n σ) !! q = if decide (q = fresh (dom (eps σ))) then Some (newEndpoint n) else eps σ !! q.
Proof.
  unfold withNewEp, updateDiscoKey, newEndpoint, withEpDisco. cbn [eps]. destruct (decide (q = fresh (dom (eps σ)))) as [->|Hq].
  - by rewrite lookup_alter_eq, lookup_insert_eq.
  - by rewrite lookup_alter_ne, lookup_insert_ne.
Qed.

Lemma settle_new σ n :
  wf σ → nID n ≠ 0 → nKey n ≠ 0 → (nWGOnly n = false → nDisco n ≠ 0) →
  byNodeKey (pm σ) !! nKey n = None → byNodeID (pm σ) !! nID n = None →
  ∃ l σ1, infoFor (fresh (dom (eps σ))) (nKey n) (withNewEp n σ) = (l, σ1) ∧
    let σ' := settle l (newEndpoint n) 0 σ1 in
    wf σ' ∧ epAt σ' l = Some (newEndpoint n) ∧ byNodeID (pm σ') = <[nID n := l]> (byNodeID (pm σ)) ∧
    byNodeKey (pm σ') = <[nKey n := l]> (byNodeKey (pm σ)) ∧
    (∀ l', live σ l' → l' ≠ l ∧ epAt σ' l' = epAt σ l').
Proof.
  intros Hw Hid Hk Hd Hfk Hfi. set (q := fresh (dom (eps σ))). set (l := fresh (dom (infos σ))).
  assert (infos σ !! l = None) as Hfl by (apply not_elem_of_dom, is_fresh).
  unfold infoFor. change (byNodeKey (pm (withNewEp n σ))) with (byNodeKey (pm σ)). rewrite Hfk.
  change (infos (withNewEp n σ)) with (infos σ). fold l. do 2 eexists. split; [done|]. cbv zeta.
  match goal with |- context [settle l _ 0 ?s] => set (σ1 := s) end.
  destruct (settle_eq l (newEndpoint n) 0 σ1) as (S1 & S2 & S3 & S4 & S5 & S6 & S7).
  set (σ' := settle l (newEndpoint n) 0 σ1) in *. cbn in S3, S4, S5, S6, S7.
  pose proof Hw as [Hc Ha].
  assert (∀ l', live σ l' → l' ≠ l ∧ epAt σ' l' = epAt σ l') as Hoth.
  { intros l' Hlv. destruct (live_epAt _ _ Hc Hlv) as (q' & e & Hq & He & Hea).
    assert (l' ≠ l) by (intros ->; unfold epOf in Hq; by rewrite Hfl in Hq). split; [done|].
    rewrite Hea. unfold epAt, epOf in *. rewrite S1, S2. cbn. rewrite lookup_insert_ne, Hq by done. cbn.
    change (eps (withNewEp n σ) !! q' = Some e). rewrite withNewEp_eps, decide_False; [done|].
    intros ->. apply (is_fresh (dom (eps σ))). by apply elem_of_dom_2 in He. }
  assert (epAt σ' l = Some (newEndpoint n)) as Hel.
  { unfold epAt, epOf. rewrite S1, S2. cbn. rewrite lookup_insert_eq. cbn.
    change (eps (withNewEp n σ) !! q = Some (newEndpoint n)). by rewrite withNewEp_eps, decide_True. }
  split_and!; try done. split.
  - apply (entered_wfCore σ σ' l (newEndpoint n) 0); try done.
    + intros l' Hlv _. by apply Hoth.
    + cbn. case_decide; congruence.
    + intros Hwg. cbn. rewrite decide_False by auto. done.
    + intros nk l' Hk'. destruct (Hoth l') as [Hne _]; [by exists nk|]. cbn. split; [congruence|done].
    + intros id l' Hi. destruct (wf_id _ Hc _ _ Hi) as [Hlv _]. destruct (Hoth l' Hlv) as [Hne _]. cbn. split; [congruence|done].
    + cbn. intros dk Hu. destruct (wf_disco _ Hc _ _ Hu) as (l0 & e0 & Hk0 & _). congruence.
  - apply (wfAddr_new σ σ' l (nKey n)); try done. intros l'. unfold addrsAt. rewrite S2.
    unfold σ1. cbn [infos withPM]. destruct (decide (l' = l)) as [->|Hl].
    + by rewrite lookup_insert_eq.
    + by rewrite lookup_insert_ne.
Qed.

(** ** upsertPeerLocked *)

(** The endpoint listed under a node ID. *)
Definition idEp (σ : Peers) (id : Z) : option endpoint := byNodeID (pm σ) !! id ≫= epAt σ.

Lemma idEp_same σ σ' id : sameCore σ σ' → idEp σ' id = idEp σ id.
Proof.
  intros Hs. unfold idEp. rewrite (same_ids _ _ Hs). destruct (byNodeID (pm σ) !! id); [|done]. cbn.
  by apply sameCore_epAt.
Qed.

Lemma idEp_peerAt σ id l :
  wf σ → byNodeID (pm σ) !! id = Some l → ∃ q e, peerAt σ (epKey e) l q e ∧ epNodeID e = id ∧ idEp σ id = Some e.
Proof.
  intros [Hc _] Hi. destruct (wf_id _ Hc _ _ Hi) as [Hlv He]. destruct (live_epAt _ _ Hc Hlv) as (q & e & Hq & He' & Hea).
  rewrite Hea in He. injection He as He. destruct Hlv as [nk Hk].
  destruct (wf_key _ Hc _ _ Hk) as (e1 & He1 & Hk1 & _). assert (e1 = e) as -> by congruence.
  exists q, e. unfold peerAt, idEp. rewrite Hi. cbn. by rewrite Hk1.
Qed.

Lemma endpointForNodeID_spec σ id :
  wf σ →
  match endpointForNodeID id σ with
  | Some q => ∃ l e, peerAt σ (epKey e) l q e ∧ epNodeID e = id ∧ idEp σ id = Some e
  | None => byNodeID (pm σ) !! id = None
  end.
Proof.
  intros Hw. unfold endpointForNodeID. destruct (byNodeID (pm σ) !! id) as [l|] eqn:Hi; [|done].
  destruct (idEp_peerAt σ id l Hw Hi) as (q & e & Hp & He & Hid). pose proof Hp as (_ & Hq & _).
  cbn. rewrite Hq. by exists l, e.
Qed.

Lemma endpointForNodeKey_spec σ nk :
  wf σ → nk ≠ 0 →
  match endpointForNodeKey nk σ with
  | Some q => ∃ l e, peerAt σ nk l q e ∧ epKey e = nk ∧ idEp σ (epNodeID e) = Some e
  | None => byNodeKey (pm σ) !! nk = None
  end.
Proof.
  intros [Hc _] Hnk. unfold endpointForNodeKey. rewrite decide_False by done.
  destruct (byNodeKey (pm σ) !! nk) as [l|] eqn:Hk; [|done]. cbn.
  destruct (wf_key _ Hc _ _ Hk) as (e & He & Hke & _ & _ & _ & Hid).
  destruct (live_epAt _ l Hc ltac:(by exists nk)) as (q & e' & Hq & He' & Hea). assert (e' = e) as -> by congruence.
  rewrite Hq. exists l, e. unfold peerAt, idEp. by rewrite Hid.
Qed.

Lemma deleteEndpoint_idEp σ nk l q e id :
  wf σ → peerAt σ nk l q e →
  idEp (deleteEndpoint q σ) id = if decide (id = epNodeID e) then None else idEp σ id.
Proof.
  intros Hw Hp. destruct (deleteEndpoint_eq _ _ _ _ _ Hw Hp) as (_ & _ & _ & E4 & _).
  destruct (deleteEndpoint_live _ _ _ _ _ Hw Hp) as (Hep & _). cbv zeta in *. unfold idEp. rewrite E4.
  case_decide as Hd; [by rewrite Hd, lookup_delete_eq|]. rewrite lookup_delete_ne by done.
  destruct (byNodeID (pm σ) !! id); [|done]. cbn. apply Hep.
Qed.

Definition createPeer (n : NodeView) (states : list AddrPort) (σ : Peers) : res () Peers :=
  if decide (is_Some (endpointForNodeKey (nKey n) σ)) then Ok σ
  else if decide (nDisco n = 0 ∧ nWGOnly n = false) then Ok σ
  else upsertEndpoint (fresh (dom (eps σ))) 0 states (withNewEp n σ).

Lemma createPeer_spec n states σ :
  wf σ → nID n ≠ 0 → nKey n ≠ 0 → byNodeID (pm σ) !! nID n = None →
  (createPeer n states σ = Ok σ ∧ (is_Some (byNodeKey (pm σ) !! nKey n) ∨ nDisco n = 0 ∧ nWGOnly n = false)) ∨
  ∃ σ', createPeer n states σ = Ok σ' ∧ wf σ' ∧ (nDisco n ≠ 0 ∨ nWGOnly n = true) ∧
    ∀ id, idEp σ' id = if decide (id = nID n) then Some (newEndpoint n) else idEp σ id.
Proof.
  intros Hw Hid Hk Hfi. unfold createPeer.
  pose proof (endpointForNodeKey_spec σ (nKey n) Hw Hk) as Hkey.
  case_decide as H1.
  { left. split; [done|]. left. destruct H1 as [q Hq]. rewrite Hq in Hkey.
    destruct Hkey as (l & e & (Hl & _) & _). by exists l. }
  rewrite <- eq_None_not_Some in H1. rewrite H1 in Hkey.
  destruct (decide (nDisco n = 0 ∧ nWGOnly n = false)) as [H2|H2]; [left; auto|]. right.
  assert (nDisco n ≠ 0 ∨ nWGOnly n = true) as Hgood
    by (destruct (nWGOnly n); [by right|left]; intros ?; by apply H2).
  destruct (settle_new σ n) as (l & σ1 & Hi & Hw' & Hel & Hids & Hkeys & Hoth); try done.
  { intros Hwg Hd. by destruct H2. }
  assert (∀ σ', sameCore (settle l (newEndpoint n) 0 σ1) σ' →
    ∀ id, idEp σ' id = if decide (id = nID n) then Some (newEndpoint n) else idEp σ id) as Hids'.
  { intros σ' Hs id. rewrite (idEp_same _ _ _ Hs). unfold idEp. rewrite Hids.
    destruct (decide (id = nID n)) as [->|Hne]; [by rewrite lookup_insert_eq|]. rewrite lookup_insert_ne by done.
    destruct (byNodeID (pm σ) !! id) as [l'|] eqn:Hl'; [|done]. cbn. apply Hoth.
    by destruct (wf_id _ (wf_core _ Hw) _ _ Hl'). }
  rewrite (upsertEndpoint_shape _ _ _ _ (newEndpoint n) l σ1); [|by rewrite withNewEp_eps, decide_True|done|done].
  destruct (epWGOnly (newEndpoint n)) eqn:Hwg.
  - eexists. split_and!; [done|by apply setAll_wf|done|]. apply Hids', setAll_core.
  - destruct (epDisco (newEndpoint n)) eqn:Hd.
    + eexists. split_and!; [done..|]. by apply Hids'.
    + cbn in Hwg, Hd. case_decide; [|done]. by destruct H2.
Qed.

(** The only run-time panic: a peer turns from a Tailscale node into a WireGuard-only
    one, so that its endpoint has no disco key but is not WireGuard-only. *)
Definition turnsWGOnly (n : NodeView) (σ : Peers) : Prop :=
  ∃ e, idEp σ (nID n) = Some e ∧ epKey e = nKey n ∧ epWGOnly e = false ∧ nDisco n = 0 ∧ nWGOnly n = true.

(** What an update does to the table of endpoints by ID. *)
Inductive upserted (n : NodeView) (σ σ' : Peers) : Prop :=
  | ups_set e : nID n ≠ 0 → (nDisco n ≠ 0 ∨ nWGOnly n = true) → epKey e = nKey n → epNodeID e = nID n →
      (∀ id, idEp σ' id = if decide (id = nID n) then Some e else idEp σ id) → upserted n σ σ'
  | ups_del : nID n ≠ 0 → (nDisco n = 0 ∧ nWGOnly n = false) ∨ (∃ id e, id ≠ nID n ∧ idEp σ id = Some e ∧ epKey e = nKey n) →
      (∀ id, idEp σ' id = if decide (id = nID n) then None else idEp σ id) → upserted n σ σ'
  | ups_skip : nID n = 0 ∨ nKey n = 0 → σ' = σ → upserted n σ σ'.

Lemma upsertEndpoint_existing σ nk l q e dk states :
  wf σ → peerAt σ nk l q e → (epWGOnly e = false → dk ≠ 0) →
  ∃ σ', upsertEndpoint q (discoOf q σ) states (updateDiscoKey q dk σ) = Ok σ' ∧ wf σ' ∧
    ∀ id, idEp σ' id = if decide (id = epNodeID e) then Some (withEpDisco e dk) else idEp σ id.
Proof.
  intros Hw Hp Hdk. pose proof (settle_existing σ nk l q e dk Hw Hp Hdk) as Hset. pose proof Hw as [Hc _].
  pose proof Hp as (Hk & Hq & He). destruct (wf_key _ Hc _ _ Hk) as (e1 & He1 & Hke & _ & Hi0 & _ & Hid).
  rewrite (peerAt_epAt _ _ _ _ _ Hp) in He1. injection He1 as <-.
  destruct (settle_eq l (withEpDisco e dk) (discoOf q σ) (updateDiscoKey q dk σ)) as (S1 & S2 & S3 & _ & _ & S6 & _).
  set (σ1 := settle l (withEpDisco e dk) (discoOf q σ) (updateDiscoKey q dk σ)) in *.
  assert (∀ σ', sameCore σ1 σ' → ∀ id, idEp σ' id =
    if decide (id = epNodeID e) then Some (withEpDisco e dk) else idEp σ id) as Hids.
  { intros σ' Hs id. rewrite (idEp_same _ _ _ Hs). unfold idEp. rewrite S6. cbn [epNodeID withEpDisco].
    change (byNodeID (pm (updateDiscoKey q dk σ))) with (byNodeID (pm σ)).
    assert (∀ l', epOf σ1 l' = epOf σ l') as Heo by (intros; unfold epOf; by rewrite S2).
    destruct (decide (id = epNodeID e)) as [->|Hne].
    - rewrite lookup_insert_eq. cbn. unfold epAt. rewrite Heo, Hq, S1. cbn. by rewrite lookup_alter_eq, He.
    - rewrite lookup_insert_ne by done. destruct (byNodeID (pm σ) !! id) as [l'|] eqn:Hl'; [|done]. cbn.
      destruct (wf_id _ Hc _ _ Hl') as [Hlv Hil]. destruct (live_epAt _ _ Hc Hlv) as (q' & e' & Hq' & _ & Hea).
      unfold epAt. rewrite Heo, Hq', S1. cbn. rewrite lookup_alter_ne; [done|]. intros <-.
      assert (l' = l) as -> by (eapply live_ep_inj; [done|done|by exists nk|done|done]).
      rewrite (peerAt_epAt _ _ _ _ _ Hp) in Hil. by injection Hil as <-. }
  rewrite (upsertEndpoint_shape _ _ _ _ (withEpDisco e dk) l (updateDiscoKey q dk σ)); [..|done|].
  2: { unfold updateDiscoKey. cbn [eps]. by rewrite lookup_alter_eq, He. }
  2: { unfold infoFor. cbn [epKey withEpDisco]. change (byNodeKey (pm (updateDiscoKey q dk σ))) with (byNodeKey (pm σ)).
       by rewrite Hke, Hk. }
  fold σ1. cbn [epWGOnly withEpDisco epDisco]. destruct (epWGOnly e) eqn:Hwg.
  - eexists. split; [done|]. split; [by apply setAll_wf|]. apply Hids, setAll_core.
  - rewrite decide_False by auto. eexists. split; [done|]. split; [done|]. by apply Hids.
Qed.
