(* ===== verification/PeerUpdateThms.v ===== *)
(** * Updates of the network map: theorems

    The invariant of the index of peers over every sequence of updates; the table
    after a network map; and what a removed peer, an advertisement of the zero key
    and a map with an unusable peer leave behind. *)

From stdpp Require Import relations.
From S2P Require Import Prelude NetIP PeerMap PeerMapThms.

(** ** One peer *)

(** A peer that is not listed under its ID, in the state [σ0] that [σ] has become. *)
Lemma createPeer_upserted n states σ σ0 :
  wf σ0 → nID n ≠ 0 → nKey n ≠ 0 → byNodeID (pm σ0) !! nID n = None →
  (∀ id, idEp σ0 id = if decide (id = nID n) then None else idEp σ id) →
  ∃ σ', createPeer n states σ0 = Ok σ' ∧ wf σ' ∧ upserted n σ σ'.
Proof.
  intros Hw0 H0 H1 Hf Hids.
  destruct (createPeer_spec n states σ0) as [[-> Hno]|(σ' & -> & Hw' & Hg & Hids')]; [done..| |].
  - exists σ0. split_and!; [done|done|]. apply ups_del; [done| |done]. destruct Hno as [[l Hl]|Hno]; [right|by left].
    destruct (wf_key _ (wf_core _ Hw0) _ _ Hl) as (e & He & Hke & _ & _ & _ & Hid).
    exists (epNodeID e), e. assert (epNodeID e ≠ nID n) as Hne by congruence. split_and!; try done.
    specialize (Hids (epNodeID e)). rewrite decide_False in Hids by done. rewrite <- Hids.
    unfold idEp. by rewrite Hid.
  - exists σ'. split_and!; [done|done|]. apply (ups_set _ _ _ (newEndpoint n)); try done.
    intros id. rewrite Hids', Hids. by case_decide.
Qed.

Lemma upsertPeerLocked_spec n states σ :
  wf σ →
  (∃ σ', upsertPeerLocked n states σ = Ok σ' ∧ wf σ' ∧ upserted n σ σ') ∨
  upsertPeerLocked n states σ = Panic ∧ turnsWGOnly n σ.
Proof.
  intros Hw. unfold upsertPeerLocked.
  case_decide as H0; [left; exists σ; split_and!; [done|done|by apply ups_skip; [left|]]|].
  case_decide as H1; [left; exists σ; split_and!; [done|done|by apply ups_skip; [right|]]|].
  change (λ σ0, if decide (is_Some (endpointForNodeKey (nKey n) σ0)) then _ else _) with (createPeer n states).
  pose proof (endpointForNodeID_spec σ (nID n) Hw) as Hlk.
  destruct (endpointForNodeID (nID n) σ) as [q|] eqn:Hq.
  2: { left. apply createPeer_upserted; try done. intros id. case_decide as Hd; [|done].
       unfold idEp. by rewrite Hd, Hlk. }
  destruct Hlk as (l & e & Hp & Hid & Hie). pose proof Hp as (_ & _ & He). rewrite He. cbn [fmap option_fmap option_map].
  pose proof (λ id, deleteEndpoint_idEp σ (epKey e) l q e id Hw Hp) as Hdel.
  case_decide as Hk.
  - injection Hk as Hk. case_decide as Hd.
    + left. eexists. split_and!; [done|by eapply deleteEndpoint_wf|]. apply ups_del; [done|by left|].
      intros id. by rewrite Hdel, Hid.
    + destruct (decide (epWGOnly e = false ∧ nDisco n = 0)) as [[Hwg Hz]|Hok].
      * right. split; [|exists e; split_and!; try done; destruct (nWGOnly n); [done|by destruct Hd]].
        unfold upsertEndpoint. assert (eps (updateDiscoKey q (nDisco n) σ) !! q = Some (withEpDisco e (nDisco n))) as ->
          by (unfold updateDiscoKey; cbn [eps]; by rewrite lookup_alter_eq, He).
        rewrite decide_False by (cbn; congruence). destruct (infoFor _ _ _) as [l1 σ1].
        cbn [epWGOnly withEpDisco epDisco]. by rewrite Hwg, (decide_True _ _ Hz).
      * left. destruct (upsertEndpoint_existing σ (epKey e) l q e (nDisco n) states) as (σ' & -> & Hw' & Hids);
          [done|done|by intros ? ?; apply Hok|].
        exists σ'. split_and!; [done|done|]. apply (ups_set _ _ _ (withEpDisco e (nDisco n))); try done.
        -- destruct (decide (nDisco n = 0)); [|by left]. right. destruct (nWGOnly n); [done|]. by destruct Hd.
        -- intros id. by rewrite Hids, Hid.
  - left. apply createPeer_upserted; [by eapply deleteEndpoint_wf|done|done| |].
    + destruct (deleteEndpoint_eq _ _ _ _ _ Hw Hp) as (_ & _ & _ & -> & _). by rewrite Hid, lookup_delete_eq.
    + intros id. by rewrite Hdel, Hid.
Qed.

Lemma upsertAll_spec ns : ∀ σ,
  wf σ → match upsertAll ns σ with Ok σ' => wf σ' | Err _ => False | Panic => True end.
Proof.
  induction ns as [|[n states] ns IH]; intros σ Hw; cbn [upsertAll]; [done|].
  destruct (upsertPeerLocked_spec n states σ Hw) as [(σ' & -> & Hw' & _)|[-> _]]; [|done].
  rewrite bind_ret. by apply IH.
Qed.

Lemma deleteStale_wf keep ord : ∀ σ, wf σ → wf (deleteStale keep ord σ).
Proof.
  induction ord as [|nk ord IH]; intros σ Hw; [done|]. cbn. apply IH.
  destruct (byNodeKey (pm σ) !! nk) as [l|] eqn:Hk; [|done]. cbn.
  destruct (live_epAt σ l (wf_core _ Hw) ltac:(by exists nk)) as (q & e & Hq & He & _). rewrite Hq, He.
  case_decide; [done|]. by apply (deleteEndpoint_wf σ nk l q e).
Qed.

(** ** Every sequence of updates *)
Inductive mstep : MConn → MConn → Prop :=
  | st_upsert n states c c' : UpsertPeer n states c = Ok c' → mstep c c'
  | st_remove nid c : mstep c (RemovePeer nid c)
  | st_map flags ns ord c b c' : updateNodes flags ns ord c = Ok (b, c') → mstep c c'
  | st_advert nk dk states c c' : HandleDiscoKeyAdvertisement nk dk states c = Ok c' → mstep c c'
  | st_addr a nk c : mstep c (withPeers (setNodeKeyForEpAddr a nk (peers c)) c)
  | st_disco hasKey relay sender c b c' : acceptsDisco hasKey relay sender c = Ok (b, c') → mstep c c'.

Record cwf (c : MConn) : Prop := { cwf_peers : wf (peers c); cwf_zero : 0 ∉ discoInfo c }.

Lemma discoInfoForKnownPeerLocked_ok dk c c' :
  discoInfoForKnownPeerLocked dk c = Ok c' →
  peers c' = peers c ∧ (0 ∉ discoInfo c → 0 ∉ discoInfo c') ∧ (0 ∉ discoInfo c → dk ≠ 0).
Proof.
  unfold discoInfoForKnownPeerLocked. case_decide; [intros [= <-]; set_solver|].
  case_decide; [done|]. intros [= <-]. cbn. set_solver.
Qed.

Lemma RemovePeer_peers nid c :
  peers (RemovePeer nid c) = peers c ∨
  ∃ q, endpointForNodeID nid (peers c) = Some q ∧ peers (RemovePeer nid c) = deleteEndpoint q (peers c).
Proof.
  unfold RemovePeer. destruct (mclosed c); [by left|]. destruct (peersByID c !! nid); [|by left]. cbn.
  destruct (endpointForNodeID nid (peers c)) as [q|]; [right; by exists q|by left].
Qed.
Lemma RemovePeer_discoInfo nid c : discoInfo (RemovePeer nid c) ⊆ discoInfo c.
Proof.
  unfold RemovePeer. destruct (mclosed c); [done|]. destruct (peersByID c !! nid); [|done]. cbn.
  case_decide; set_solver.
Qed.

Lemma HandleDiscoKeyAdvertisement_cwf nk dk states c c' :
  cwf c → HandleDiscoKeyAdvertisement nk dk states c = Ok c' → cwf c'.
Proof.
  intros [Hw Hz]. unfold HandleDiscoKeyAdvertisement.
  destruct (decide (nk = 0)) as [->|Hnk]; [by intros [= <-]|].
  pose proof (endpointForNodeKey_spec (peers c) nk Hw Hnk) as Hlk.
  destruct (endpointForNodeKey nk (peers c)) as [q|]; [|by intros [= <-]].
  destruct Hlk as (l & e & Hp & _). case_decide as Hd; [by intros [= <-]|].
  intros (c1 & H1 & (σ' & H2 & [= <-])%bind_ok)%bind_ok.
  destruct (discoInfoForKnownPeerLocked_ok _ _ _ H1) as (Hpe & Hz1 & Hdk). rewrite Hpe in H2.
  destruct (upsertEndpoint_existing (peers c) nk l q e dk states Hw Hp) as (σ2 & H3 & Hw2 & _); [by auto|].
  rewrite H3 in H2. injection H2 as <-. split; cbn; [done|by apply Hz1].
Qed.

Lemma UpsertPeer_peers n states c c' :
  UpsertPeer n states c = Ok c' →
  c' = c ∨ upsertPeerLocked n states (peers c) = Ok (peers c') ∧ discoInfo c' = discoInfo c.
Proof.
  unfold UpsertPeer. destruct (mclosed c); [intros [= <-]; by left|]. case_decide; [intros [= <-]; by left|].
  destruct (peersByID c !! nID n) as [prev|]; [destruct (decide (nKey prev = nKey n))|];
    intros (σ' & H' & [= <-])%bind_ok; by right.
Qed.

Lemma mstep_cwf c c' : cwf c → mstep c c' → cwf c'.
Proof.
  intros Hc. pose proof Hc as [Hw Hz]. destruct 1 as [n states c c' H|nid c|flags ns ord c b c' H|nk dk states c c' H|a nk c|hasKey relay sender c b c' H].
  - apply UpsertPeer_peers in H as [->|[H Hd]]; [done|].
    destruct (upsertPeerLocked_spec n states _ Hw) as [(σ2 & H2 & Hw2 & _)|[H2 _]]; [|congruence].
    rewrite H2 in H. injection H as H. split; [by rewrite <- H|by rewrite Hd].
  - split; [|pose proof (RemovePeer_discoInfo nid c); set_solver].
    destruct (RemovePeer_peers nid c) as [->|(q & Hq & ->)]; [done|].
    pose proof (endpointForNodeID_spec (peers c) nid Hw) as Hlk. rewrite Hq in Hlk.
    destruct Hlk as (l & e & Hp & _). by eapply deleteEndpoint_wf.
  - unfold updateNodes in H. destruct (mclosed c); [by injection H as _ <-|].
    destruct (unchanged flags ns c); [by injection H as _ <-|].
    apply bind_ok in H as (σ' & H & [= _ <-]). pose proof (upsertAll_spec ns (peers c) Hw) as Hw'. rewrite H in Hw'.
    split; cbn; [|set_solver]. case_decide; [done|]. by apply deleteStale_wf.
  - by eapply HandleDiscoKeyAdvertisement_cwf.
  - split; cbn; [|done]. by apply setNodeKeyForEpAddr_wf.
  - unfold acceptsDisco in H. destruct (mclosed c); [by injection H as _ <-|]. destruct hasKey; [|by injection H as _ <-].
    destruct relay; [by injection H as _ <-|]. destruct (knownPeerDiscoKey sender (peers c)); [|by injection H as _ <-].
    apply bind_ok in H as (c1 & H & [= _ <-]). destruct (discoInfoForKnownPeerLocked_ok _ _ _ H) as (Hpe & Hz1 & _).
    split; [by rewrite Hpe|by apply Hz1].
Qed.

Lemma newMConn_cwf : cwf newMConn.
Proof.
  split; [|cbn; set_solver]. split; split; cbn; try done. by intros dk nk (s & Hs & _).
Qed.

Lemma reachable_cwf c : rtc mstep newMConn c → cwf c.
Proof.
  intros H. assert (∀ c0, rtc mstep c0 c → cwf c0 → cwf c) as Hind.
  { clear H. induction 1; [done|]. intros. eauto using mstep_cwf. }
  by apply (Hind newMConn H), newMConn_cwf.
Qed.

(** ** The sizes of the indexes *)
Lemma map_snd_NoDup {K} `{Countable K} {A} (m : gmap K A) :
  (∀ k k' a, m !! k = Some a → m !! k' = Some a → k = k') → NoDup (map_to_list m).*2.
Proof.
  intros Hinj. apply (NoDup_fmap_key fst snd); [apply NoDup_fst_map_to_list|].
  intros [k a] [k' a'] H1%elem_of_map_to_list H2%elem_of_map_to_list. cbn. intros <-. by eapply Hinj.
Qed.

Lemma nodeCount_ids σ : wfCore σ → nodeCount σ = size (byNodeID (pm σ)).
Proof.
  intros Hc. unfold nodeCount. rewrite <- !length_map_to_list, <- !(length_fmap snd).
  apply Permutation_length, NoDup_Permutation.
  - apply map_snd_NoDup. intros k k' l. by apply live_inj.
  - apply map_snd_NoDup. intros k k' l H1 H2. destruct (wf_id _ Hc _ _ H1) as [_ Hx].
    destruct (wf_id _ Hc _ _ H2) as [_ Hy]. congruence.
  - intros l. rewrite !list_elem_of_fmap. split.
    + intros ([nk l'] & -> & Hk%elem_of_map_to_list). cbn.
      destruct (wf_key _ Hc _ _ Hk) as (e & _ & _ & _ & _ & _ & Hid). exists (epNodeID e, l').
      split; [done|]. by apply elem_of_map_to_list.
    + intros ([id l'] & -> & Hi%elem_of_map_to_list). cbn. destruct (wf_id _ Hc _ _ Hi) as [[nk Hk] _].
      exists (nk, l'). split; [done|]. by apply elem_of_map_to_list.
Qed.

Lemma relay_bound σ :
  wf σ → (size (filter (λ kv, isRelay kv.1 = true) (byEpAddr (pm σ))) ≤ nodeCount σ)%nat.
Proof.
  intros [Hc Ha]. trans (size (relayEpAddrByNodeKey (pm σ))).
  - rewrite <- !length_map_to_list, <- (length_fmap fst), <- (length_fmap snd (map_to_list (relayEpAddrByNodeKey _))).
    apply submseteq_length, NoDup_submseteq; [apply NoDup_fst_map_to_list|].
    intros a ([a' l] & -> & [Hl Hr]%elem_of_map_to_list%map_lookup_filter_Some)%list_elem_of_fmap. cbn in *.
    destruct (wf_addr _ Ha _ _ Hl) as ([nk Hk] & s & Hs & Hin).
    apply list_elem_of_fmap. exists (nk, a'). split; [done|]. apply elem_of_map_to_list. by eapply wf_single.
  - unfold nodeCount. rewrite <- !size_dom. apply subseteq_size. intros nk [r Hr]%elem_of_dom.
    destruct (wf_relay _ Ha _ _ Hr) as (_ & l & s & Hk & _). by apply elem_of_dom_2 in Hk.
Qed.

Lemma forEach_all ord σ :
  forEachEndpointWithDiscoKey ord (λ _, true) σ = forEachEndpoint ord σ.
Proof.
  induction ord as [|nk ord IH]; [done|]. cbn. rewrite IH. by destruct (byNodeKey (pm σ) !! nk ≫= epOf σ).
Qed.

(** Iterating over a disco key visits the endpoints that have it. *)
Lemma forEachEndpointWithDiscoKey_spec σ dk s ord q :
  wfCore σ → nodesOfDisco (pm σ) !! dk = Some s → (∀ nk, nk ∈ ord ↔ nk ∈ s) →
  q ∈ forEachEndpointWithDiscoKey ord (λ _, true) σ ↔
  ∃ e, eps σ !! q = Some e ∧ endpointForNodeKey (epKey e) σ = Some q ∧ epDisco e = Some dk ∧ epWGOnly e = false.
Proof.
  intros Hc Hs Hord. rewrite forEach_all. unfold forEachEndpoint. rewrite list_elem_of_omap. split.
  - intros (nk & Hin%Hord & Hq). destruct (wf_disco _ Hc dk nk) as (l & e & Hl & He & Hd & Hwg); [by exists s|].
    rewrite Hl in Hq. cbn in Hq. destruct (wf_key _ Hc _ _ Hl) as (e' & He' & Hk & Hnz & _).
    assert (e' = e) as -> by congruence. exists e. unfold epAt in He. rewrite Hq in He. split_and!; [done| |done|done].
    unfold endpointForNodeKey. by rewrite Hk, decide_False, Hl.
  - intros (e & He & Hq & Hd & Hwg). unfold endpointForNodeKey in Hq. case_decide as Hnz; [done|].
    destruct (byNodeKey (pm σ) !! epKey e) as [l|] eqn:Hl; [|done]. cbn in Hq.
    assert (epAt σ l = Some e) as Ha by (unfold epAt; by rewrite Hq).
    destruct (wf_member _ Hc l e) as (dk' & Hd' & s' & Hs' & Hin); [by exists (epKey e)|done|done|].
    assert (dk' = dk) as -> by congruence. exists (epKey e). split; [|by rewrite Hl].
    apply Hord. congruence.
Qed.

(** C22: in every state the updates reach, the indexes agree: a lookup by address
    yields an endpoint that is also found under its node key and its node ID, so a
    removed endpoint is found nowhere; iterating over a disco key visits exactly the
    endpoints that have it; and [byNodeKey] and [byNodeID] have the same size, which
    is what [nodeCount] checks. *)
Theorem peer_index_consistent c :
  rtc mstep newMConn c →
  let σ := peers c in
  wf σ ∧ nodeCount σ = size (byNodeID (pm σ)) ∧
  (∀ a q, endpointForEpAddr a σ = Some q →
     ∃ e, eps σ !! q = Some e ∧ endpointForNodeKey (epKey e) σ = Some q ∧ endpointForNodeID (epNodeID e) σ = Some q) ∧
  (∀ dk s ord q, nodesOfDisco (pm σ) !! dk = Some s → (∀ nk, nk ∈ ord ↔ nk ∈ s) →
     q ∈ forEachEndpointWithDiscoKey ord (λ _, true) σ ↔
     ∃ e, eps σ !! q = Some e ∧ endpointForNodeKey (epKey e) σ = Some q ∧ epDisco e = Some dk ∧ epWGOnly e = false).
Proof.
  intros Hr. pose proof (reachable_cwf c Hr) as [Hw _]. cbv zeta. pose proof Hw as [Hc Ha].
  split_and!; [done|by apply nodeCount_ids| |by intros; eapply forEachEndpointWithDiscoKey_spec].
  intros a q. unfold endpointForEpAddr. destruct (byEpAddr (pm (peers c)) !! a) as [l|] eqn:Hl; [|done].
  cbn. intros Hq. destruct (wf_addr _ Ha _ _ Hl) as ([nk Hk] & _).
  destruct (wf_key _ Hc _ _ Hk) as (e & He & Hke & Hk0 & _ & _ & Hid). exists e.
  unfold epAt in He. rewrite Hq in He. cbn in He. unfold endpointForNodeKey, endpointForNodeID.
  rewrite Hke, decide_False, Hk, Hid by done. done.
Qed.

(** Whatever paths are discovered, there are never more relay addresses in the
    index than peers. *)
Theorem relay_addrs_bounded c :
  rtc mstep newMConn c →
  (size (filter (λ kv, isRelay kv.1 = true) (byEpAddr (pm (peers c)))) ≤ nodeCount (peers c))%nat.
Proof. intros Hr. by apply relay_bound, reachable_cwf. Qed.

(** ** The table after a network map *)

(** An endpoint in the table is listed under its key, and under one ID only. *)
Lemma idEp_key σ id e :
  wf σ → idEp σ id = Some e →
  ∃ l, byNodeID (pm σ) !! id = Some l ∧ byNodeKey (pm σ) !! epKey e = Some l ∧ epAt σ l = Some e ∧ epNodeID e = id.
Proof.
  intros Hw He. unfold idEp in He. destruct (byNodeID (pm σ) !! id) as [l|] eqn:Hl; [|done].
  destruct (idEp_peerAt σ id l Hw Hl) as (q & e' & (Hk & _) & Hi & Hie). unfold idEp in Hie. rewrite Hl in Hie.
  assert (e' = e) as -> by congruence. by exists l.
Qed.
Lemma idEp_inj σ id id' e e' :
  wf σ → idEp σ id = Some e → idEp σ id' = Some e' → epKey e = epKey e' → id = id'.
Proof.
  intros Hw He He' Hk. destruct (idEp_key _ _ _ Hw He) as (l & _ & Hl & Ha & <-).
  destruct (idEp_key _ _ _ Hw He') as (l' & _ & Hl' & Ha' & <-). congruence.
Qed.
Definition usable (n : NodeView) : Prop := nID n ≠ 0 ∧ nKey n ≠ 0 ∧ (nDisco n ≠ 0 ∨ nWGOnly n = true).

(** A map that fits the state [σ]: usable peers, each ID and key once, no key under
    another ID than before, and no Tailscale node turned WireGuard-only. *)
Record fits (ns : list NodeView) (σ : Peers) : Prop := {
  fits_usable : Forall usable ns;
  fits_ids : NoDup (nID <$> ns);
  fits_keys : NoDup (nKey <$> ns);
  fits_moved n id e : n ∈ ns → idEp σ id = Some e → epKey e = nKey n → id = nID n;
  fits_wg n : n ∈ ns → ¬ turnsWGOnly n σ
}.

Lemma upsertAll_exact ns : ∀ σ,
  wf σ → fits (fst <$> ns) σ →
  ∃ σ', upsertAll ns σ = Ok σ' ∧ wf σ' ∧
    (∀ n, n ∈ (fst <$> ns : list NodeView) → ∃ e, idEp σ' (nID n) = Some e ∧ epKey e = nKey n) ∧
    (∀ id, id ∉ (nID <$> (fst <$> ns) : list Z) → idEp σ' id = idEp σ id).
Proof.
  induction ns as [|[n states] ns IH]; intros σ Hw Hf; cbn [upsertAll].
  { exists σ. split_and!; [done|done| |done]. cbn. set_solver. }
  destruct Hf as [[Hu Hus]%Forall_cons [Hi His]%NoDup_cons [Hk Hks]%NoDup_cons Hmv Hwg]. cbn in Hu, Hus, Hi, His, Hk, Hks, Hmv, Hwg.
  destruct (upsertPeerLocked_spec n states σ Hw) as [(σ1 & -> & Hw1 & Hup)|[_ Ht]];
    [|by destruct (Hwg n); [left|]]. rewrite bind_ret.
  assert (∃ e, epKey e = nKey n ∧ ∀ id, idEp σ1 id = if decide (id = nID n) then Some e else idEp σ id) as (e & Hke & Hids).
  { destruct Hu as (Hu1 & Hu2 & Hu3).
    destruct Hup as [e _ _ Hke _ Hids|_ [[? ?]|(id & e & Hne & He & Hke)] _|[?|?] _].
    - by exists e.
    - destruct Hu3; congruence.
    - destruct Hne. eapply Hmv; [left|done|done].
    - done.
    - done. }
  assert (∀ n', n' ∈ (fst <$> ns : list NodeView) → nID n' ≠ nID n ∧ nKey n' ≠ nKey n) as Hdiff.
  { intros n' Hn'. split; intros Heq; [apply Hi|apply Hk]; rewrite <- Heq; by apply list_elem_of_fmap_2. }
  destruct (IH σ1 Hw1) as (σ' & -> & Hw' & Hin & Hout).
  { split; [done|done|done| |].
    - intros n' id e' Hn' He' Hke'. rewrite Hids in He'. case_decide as Hd; [|eapply Hmv; [right; exact Hn'|done|done]].
      injection He' as <-. destruct (Hdiff n' Hn'). congruence.
    - intros n' Hn' (e' & He' & Hrest). apply (Hwg n'); [by right|]. exists e'. rewrite Hids in He'.
      rewrite decide_False in He' by (by apply Hdiff). done. }
  exists σ'. split_and!; [done|done| |].
  - intros n' [->|Hn']%elem_of_cons; [|by apply Hin]. exists e. split; [|done].
    rewrite Hout, Hids, decide_True by done. done.
  - intros id [Hid1 Hid2]%not_elem_of_cons. rewrite Hout, Hids, decide_False by done. done.
Qed.

Lemma deleteStale_exact keep ord : ∀ σ id,
  wf σ →
  idEp (deleteStale keep ord σ) id =
  match idEp σ id with
  | Some e => if decide (epKey e ∈ keep ∨ epKey e ∉ ord) then Some e else None
  | None => None
  end.
Proof.
  induction ord as [|nk ord IH]; intros σ id Hw.
  { cbn. destruct (idEp σ id); [|done]. rewrite decide_True; [done|]. right. set_solver. }
  change (deleteStale keep (nk :: ord) σ) with (deleteStale keep ord
    (match byNodeKey (pm σ) !! nk ≫= epOf σ with
     | Some q => match eps σ !! q with
                 | Some e => if decide (epKey e ∈ keep) then σ else deleteEndpoint q σ | None => σ end
     | None => σ end)).
  destruct (byNodeKey (pm σ) !! nk) as [l|] eqn:Hk; cbn [mbind option_bind].
  - destruct (live_epAt σ l (wf_core _ Hw) ltac:(by exists nk)) as (q & e0 & Hq & He0 & Hea). rewrite Hq, He0.
    destruct (wf_key _ (wf_core _ Hw) _ _ Hk) as (e1 & He1 & Hke1 & _ & _ & _ & Hid1).
    assert (e1 = e0) as -> by congruence. rewrite Hke1. case_decide as Hkeep.
    + rewrite IH by done. destruct (idEp σ id) as [e|]; [|done].
      destruct (decide (epKey e = nk)) as [<-|]; [by rewrite !decide_True by auto|].
      apply decide_ext. set_solver.
    + assert (peerAt σ nk l q e0) as Hp by done.
      rewrite IH, (deleteEndpoint_idEp σ nk l q e0) by (done || by eapply deleteEndpoint_wf).
      case_decide as Hd.
      * subst id. unfold idEp. rewrite Hid1. cbn. rewrite Hea, decide_False; [done|]. rewrite Hke1. set_solver.
      * destruct (idEp σ id) as [e|] eqn:He; [|done]. destruct (idEp_key σ id e Hw He) as (l' & _ & Hl' & Ha & Hie).
        apply decide_ext. assert (epKey e ≠ nk); [|set_solver]. congruence.
  - rewrite IH by done. destruct (idEp σ id) as [e|] eqn:He; [|done]. destruct (idEp_key σ id e Hw He) as (l & _ & Hl & _).
    apply decide_ext. assert (epKey e ≠ nk); [|set_solver]. congruence.
Qed.

Definition peersTable (ns : list (NodeView * list AddrPort)) : gmap Z NodeView :=
  foldl (λ m n, <[nID n.1 := n.1]> m) ∅ ns.

Lemma peersTable_lookup ns id n :
  NoDup (nID <$> (fst <$> ns : list NodeView)) →
  peersTable ns !! id = Some n ↔ n ∈ (fst <$> ns : list NodeView) ∧ nID n = id.
Proof.
  unfold peersTable. induction ns as [|[n0 st] ns IH] using rev_ind; cbn; [set_solver|].
  rewrite !fmap_app, foldl_app. cbn. intros (Hnd & Hdis & _)%NoDup_app.
  rewrite lookup_insert_Some, IH by done. rewrite elem_of_app, list_elem_of_singleton. split.
  - intros [[<- <-]|(Hne & ? & ?)]; [auto|]. auto.
  - intros [[Hin| ->] <-]; [|by left]. right. split_and!; [|done|done].
    intros Heq. apply (Hdis (nID n)); [by apply list_elem_of_fmap_2|]. rewrite Heq. by left.
Qed.

Lemma peersTable_size ns :
  NoDup (nID <$> (fst <$> ns : list NodeView)) →
  dom (peersTable ns) = (list_to_set (nID <$> (fst <$> ns : list NodeView)) : gset Z).
Proof.
  intros Hnd. apply set_eq. intros id. rewrite elem_of_dom, elem_of_list_to_set, list_elem_of_fmap. split.
  - intros [n Hn]. apply peersTable_lookup in Hn as [? <-]; [|done]. by exists n.
  - intros (n & -> & Hn). exists n. by apply peersTable_lookup.
Qed.

(** When the counts agree, the table holds no other ID. *)
Lemma count_exact (ns : list (NodeView * list AddrPort)) σ id e :
  wf σ → NoDup (nID <$> (fst <$> ns : list NodeView)) →
  (∀ n, n ∈ (fst <$> ns : list NodeView) → ∃ e, idEp σ (nID n) = Some e ∧ epKey e = nKey n) →
  nodeCount σ = size (peersTable ns) → idEp σ id = Some e → id ∈ (nID <$> (fst <$> ns) : list Z).
Proof.
  intros Hw Hnd Hin Hcount He. rewrite nodeCount_ids in Hcount by apply Hw.
  assert (dom (peersTable ns) = dom (byNodeID (pm σ))) as Hdom.
  { apply set_subseteq_size_eq; [|by rewrite !size_dom, Hcount]. rewrite peersTable_size by done.
    intros x. rewrite elem_of_list_to_set, list_elem_of_fmap. intros (n & -> & Hn).
    destruct (Hin n Hn) as (e' & He' & _). unfold idEp in He'. apply elem_of_dom.
    destruct (byNodeID (pm σ) !! nID n); [by eexists|done]. }
  rewrite <- (elem_of_list_to_set (C := gset Z)), <- peersTable_size, Hdom by done. apply elem_of_dom.
  unfold idEp in He. destruct (byNodeID (pm σ) !! id); [by eexists|done].
Qed.

(** A map taken by the fast path is the one installed already. *)
Lemma unchanged_table flags ns c :
  NoDup (nID <$> (fst <$> ns : list NodeView)) → unchanged flags ns c = true → peersByID c = peersTable ns.
Proof.
  intros Hnd [[_ Hlen%bool_decide_eq_true]%andb_prop Hall]%andb_prop. symmetry.
  assert (peersTable ns ⊆ peersByID c) as Hsub.
  { apply map_subseteq_spec. intros id n [Hn <-]%peersTable_lookup; [|done].
    apply list_elem_of_fmap in Hn as (n' & -> & Hn). rewrite forallb_forall in Hall.
    specialize (Hall n'). rewrite bool_decide_eq_true in Hall. apply Hall. by apply list_elem_of_In. }
  destruct (map_subseteq_inv _ _ Hsub) as [Hlt|Heq]; [|exact Heq].
  apply map_subset_size in Hlt. exfalso. rewrite <- Hlen, <- (size_dom (peersTable ns)), peersTable_size, size_list_to_set in Hlt by done.
  rewrite !length_fmap in Hlt. lia.
Qed.

(** The index after the stale endpoints are gone. *)
Lemma exact_keys ns ord σ id k :
  wf σ → NoDup (nID <$> (fst <$> ns : list NodeView)) →
  (∀ n, n ∈ (fst <$> ns : list NodeView) → ∃ e, idEp σ (nID n) = Some e ∧ epKey e = nKey n) →
  (∀ nk, is_Some (byNodeKey (pm σ) !! nk) → nk ∈ ord) →
  (∃ e, idEp (if decide (nodeCount σ = size (peersTable ns)) then σ
              else deleteStale (list_to_set ((λ kv, nKey kv.2) <$> map_to_list (peersTable ns))) ord σ) id = Some e ∧
        epKey e = k) ↔
  ∃ n, n ∈ (fst <$> ns : list NodeView) ∧ nID n = id ∧ nKey n = k.
Proof.
  intros Hw Hnd Hin Hord.
  assert (∀ n e, n ∈ (fst <$> ns : list NodeView) → idEp σ (nID n) = Some e → epKey e = nKey n) as Hkey.
  { intros n e Hn He. destruct (Hin n Hn) as (e' & He' & Hk). congruence. }
  case_decide as Hcount.
  - split.
    + intros (e & He & <-). pose proof (count_exact ns σ id e Hw Hnd Hin Hcount He) as Hmem.
      apply list_elem_of_fmap in Hmem as (n & -> & Hn). exists n. split_and!; [done|done|]. symmetry. by eapply Hkey.
    + intros (n & Hn & <- & <-). by apply Hin.
  - set (keep := list_to_set _). assert (∀ x, x ∈ keep ↔ ∃ n, n ∈ (fst <$> ns : list NodeView) ∧ nKey n = x) as Hkeep.
    { intros x. unfold keep. rewrite elem_of_list_to_set, list_elem_of_fmap. split.
      - intros ([i n] & -> & Hn%elem_of_map_to_list). apply peersTable_lookup in Hn as [Hn _]; [|done]. by exists n.
      - intros (n & Hn & <-). exists (nID n, n). split; [done|]. apply elem_of_map_to_list. by apply peersTable_lookup. }
    setoid_rewrite deleteStale_exact; [|done]. split.
    + intros (e & He & <-). destruct (idEp σ id) as [e'|] eqn:Hid; [|done]. case_decide as Hd; [|done].
      injection He as ->. destruct Hd as [Hd|Hd].
      * apply Hkeep in Hd as (n & Hn & Hk). exists n. split_and!; [done| |done].
        destruct (Hin n Hn) as (e2 & He2 & Hk2). symmetry. eapply idEp_inj; [exact Hw|done|done|congruence].
      * destruct Hd. apply Hord. destruct (idEp_key σ id e Hw Hid) as (l & _ & Hl & _). by exists l.
    + intros (n & Hn & <- & <-). destruct (Hin n Hn) as (e & He & Hk). exists e. rewrite He. split; [|done].
      rewrite decide_True; [done|]. left. apply Hkeep. by exists n.
Qed.

(** A network map that fits what is known is installed, and the index then holds
    exactly the peers of the map: each under its ID with its key, and no other
    endpoint.  Only a map that is installed already is skipped. *)
Theorem updateNodes_exact flags ns ord c :
  rtc mstep newMConn c → mclosed c = false → fits (fst <$> ns) (peers c) →
  (∀ σ nk, upsertAll ns (peers c) = Ok σ → is_Some (byNodeKey (pm σ) !! nk) → nk ∈ ord) →
  ∃ changed c', updateNodes flags ns ord c = Ok (changed, c') ∧ peersByID c' = peersTable ns ∧
    lastFlags c' = flags ∧
    if changed : bool then
      ∀ id k, (∃ e, idEp (peers c') id = Some e ∧ epKey e = k) ↔
              ∃ n, n ∈ (fst <$> ns : list NodeView) ∧ nID n = id ∧ nKey n = k
    else c' = c.
Proof.
  intros Hr Hcl Hf Hord. pose proof (reachable_cwf c Hr) as [Hw _].
  assert (NoDup (nID <$> (fst <$> ns : list NodeView))) as Hnd by apply Hf.
  destruct (upsertAll_exact ns (peers c) Hw Hf) as (σ & Hup & Hw' & Hin & Hout).
  unfold updateNodes. rewrite Hcl. destruct (unchanged flags ns c) eqn:Hun.
  { exists false, c. split_and!; [done|by eapply unchanged_table| |done].
    unfold unchanged in Hun. apply andb_prop in Hun as [[Hfl _]%andb_prop _]. by apply bool_decide_eq_true in Hfl. }
  rewrite Hup, bind_ret. fold (peersTable ns). eexists true, _. split; [done|]. split_and!; [done|done|].
  cbn [peers]. intros id k. apply exact_keys; [done|done|done|]. intros nk. by apply Hord.
Qed.

(** ** What updates leave behind *)
Lemma known_delete dk q σ : knownPeerDiscoKey dk σ = true → knownPeerDiscoKey dk (deleteEndpoint q σ) = true.
Proof.
  unfold knownPeerDiscoKey. rewrite !bool_decide_eq_true. intros Hk. unfold deleteEndpoint.
  destruct (eps σ !! q) as [e|]; [|done].
  match goal with |- is_Some (nodesOfDisco (pm ?s) !! dk) => assert (nodesOfDisco (pm s) =
    match epDisco e with Some d => alter (λ x, x ∖ {[epKey e]}) d (nodesOfDisco (pm σ)) | None => nodesOfDisco (pm σ) end) as -> end.
  { unfold dropID. destruct (epDisco e); case_decide; case_match; done. }
  destruct (epDisco e) as [d|]; [|done]. destruct (decide (d = dk)) as [->|Hne].
  - rewrite lookup_alter_eq. destruct Hk as [s ->]. by eexists.
  - by rewrite lookup_alter_ne.
Qed.

(** [RemovePeer] never forgets the disco key of the peer it removes.  The set of
    nodes under the key stays in the index even when it becomes empty, so the key
    counts as known, its shared secret is kept and messages under it are accepted
    as if from a peer. *)
Theorem removed_peer_known nid prev c :
  mclosed c = false → peersByID c !! nid = Some prev →
  knownPeerDiscoKey (nDisco prev) (peers c) = true → nDisco prev ∈ discoInfo c →
  let c' := RemovePeer nid c in
  peersByID c' !! nid = None ∧ nDisco prev ∈ discoInfo c' ∧
  acceptsDisco true None (nDisco prev) c' = Ok (true, c').
Proof.
  intros Hcl Hp Hk Hd. cbv zeta. assert (knownPeerDiscoKey (nDisco prev) (peers (RemovePeer nid c)) = true) as Hk'.
  { destruct (RemovePeer_peers nid c) as [->|(q & _ & ->)]; [done|by apply known_delete]. }
  assert (nDisco prev ∈ discoInfo (RemovePeer nid c)) as Hd'.
  { unfold RemovePeer in *. rewrite Hcl, Hp in *. cbn in *. rewrite decide_False; [done|]. rewrite Hk'. naive_solver. }
  split_and!; [|done|].
  - unfold RemovePeer. rewrite Hcl, Hp. cbn. by rewrite lookup_delete_eq.
  - unfold acceptsDisco, discoInfoForKnownPeerLocked. rewrite Hk', decide_True by done.
    assert (mclosed (RemovePeer nid c) = false) as -> by (unfold RemovePeer; by rewrite Hcl, Hp). done.
Qed.

Lemma turnsWGOnly_panics n states σ : wf σ → turnsWGOnly n σ → upsertPeerLocked n states σ = Panic.
Proof.
  intros Hw (e & He & Hke & Hwg & Hd & Hn). destruct (idEp_key _ _ _ Hw He) as (l & Hil & Hl & Ha & Hi).
  destruct (wf_key _ (wf_core _ Hw) _ _ Hl) as (e' & He' & Hk' & Hk0 & Hi0 & _). assert (e' = e) as -> by congruence.
  unfold upsertPeerLocked. rewrite !(decide_False (P := _ = 0)) by congruence.
  pose proof (endpointForNodeID_spec σ (nID n) Hw) as Hlk.
  destruct (endpointForNodeID (nID n) σ) as [q|]; [|congruence].
  destruct Hlk as (l2 & e2 & (_ & _ & He2) & _ & Hie2). assert (e2 = e) as -> by congruence.
  rewrite He2. cbn [fmap option_fmap option_map]. rewrite decide_True, decide_False by (congruence || (intros [_ ?]; congruence)).
  unfold upsertEndpoint. assert (eps (updateDiscoKey q (nDisco n) σ) !! q = Some (withEpDisco e (nDisco n))) as ->
    by (unfold updateDiscoKey; cbn [eps]; by rewrite lookup_alter_eq, He2).
  rewrite decide_False by (cbn; congruence). destruct (infoFor _ _ _) as [l3 σ3].
  cbn [epWGOnly withEpDisco epDisco]. by rewrite Hwg, (decide_True _ _ Hd).
Qed.

(** Two updates panic.  An advertisement of the zero disco key by a peer that
    has a disco key (the packet of any peer can carry one), and a network map in which
    a peer with the same ID and key becomes WireGuard-only and loses its disco key. *)
Theorem disco_update_panics c :
  rtc mstep newMConn c →
  (∀ nk q states, endpointForNodeKey nk (peers c) = Some q → discoOf q (peers c) ≠ 0 →
     HandleDiscoKeyAdvertisement nk 0 states c = Panic) ∧
  (∀ n states, mclosed c = false → turnsWGOnly n (peers c) → UpsertPeer n states c = Panic).
Proof.
  intros Hr. pose proof (reachable_cwf c Hr) as [Hw Hz]. split.
  - intros nk q states Hq Hd. unfold HandleDiscoKeyAdvertisement. rewrite Hq, decide_False by done.
    unfold discoInfoForKnownPeerLocked. rewrite (decide_False (P := 0 ∈ discoInfo c)), decide_True by done. done.
  - intros n states Hcl Ht. pose proof (turnsWGOnly_panics n states _ Hw Ht) as Hp.
    assert (nID n ≠ 0) by (intros H0; unfold upsertPeerLocked in Hp; by rewrite decide_True in Hp).
    unfold UpsertPeer. rewrite Hcl, decide_False by done.
    destruct (peersByID c !! nID n) as [prev|]; [destruct (decide (nKey prev = nKey n))|]; by rewrite Hp.
Qed.

(** A peer that left the network map can keep its endpoint.  Stale endpoints are
    looked for only when the number of endpoints differs from the number of peers;
    a peer without a disco key counts as a peer but gets no endpoint, so one such
    peer in the new map hides one that is gone. *)
Theorem unusable_peer_hides_stale flags b ord c id e :
  rtc mstep newMConn c → mclosed c = false → nodeCount (peers c) = 1%nat →
  nID b ≠ 0 → nKey b ≠ 0 → nDisco b = 0 → nWGOnly b = false →
  idEp (peers c) id = Some e → id ≠ nID b → peersByID c !! nID b ≠ Some b →
  ∃ c', updateNodes flags [(b, [])] ord c = Ok (true, c') ∧ peersByID c' = {[nID b := b]} ∧ idEp (peers c') id = Some e.
Proof.
  intros Hr Hcl Hn H0 Hk0 Hd Hwg He Hne Hnew. pose proof (reachable_cwf c Hr) as [Hw _].
  assert (∀ x e', idEp (peers c) x = Some e' → x = id) as Honly.
  { intros x e' Hx. destruct (idEp_key _ _ _ Hw Hx) as (l & Hl & _). destruct (idEp_key _ _ _ Hw He) as (l' & Hl' & _).
    rewrite nodeCount_ids in Hn by apply Hw. rewrite <- size_dom in Hn. apply size_1_elem_of in Hn as [y Hy].
    apply elem_of_dom_2 in Hl. apply elem_of_dom_2 in Hl'.
    rewrite Hy in Hl, Hl'. apply elem_of_singleton in Hl, Hl'. congruence. }
  unfold updateNodes. rewrite Hcl. assert (unchanged flags [(b, [])] c = false) as ->.
  { unfold unchanged. apply andb_false_intro2. cbn. by rewrite bool_decide_eq_false_2. }
  cbn [upsertAll].
  destruct (upsertPeerLocked_spec b [] (peers c) Hw) as [(σ & -> & Hw' & Hu)|[_ (e' & _ & _ & _ & _ & ?)]]; [|congruence].
  rewrite !bind_ret. assert (∀ x, idEp σ x = idEp (peers c) x) as Hsame.
  { intros x. destruct Hu as [e' _ [?|?]|_ _ Hids|[?|?] ?]; try congruence. rewrite Hids. case_decide as Hx; [|done].
    subst x. destruct (idEp (peers c) (nID b)) as [e'|] eqn:Hb; [|done]. apply Honly in Hb. congruence. }
  assert (nodeCount σ = 1%nat) as Hc1.
  { rewrite nodeCount_ids in * by (apply Hw || apply Hw'). rewrite <- Hn, <- !size_dom. f_equal. apply set_eq. intros x.
    rewrite !elem_of_dom. specialize (Hsame x). split; intros [l Hl].
    - destruct (idEp_peerAt σ x l Hw' Hl) as (q & e' & _ & _ & Hx). rewrite Hsame in Hx.
      destruct (idEp_key _ _ _ Hw Hx) as (l' & Hl' & _). by exists l'.
    - destruct (idEp_peerAt _ x l Hw Hl) as (q & e' & _ & _ & Hx). rewrite <- Hsame in Hx.
      destruct (idEp_key _ _ _ Hw' Hx) as (l' & Hl' & _). by exists l'. }
  eexists. split; [done|]. cbn [foldl fst peersByID peers]. split; [done|].
  change (<[nID b := b]> ∅) with ({[nID b := b]} : gmap Z NodeView). rewrite map_size_singleton, decide_True by done.
  by rewrite Hsame.
Qed.

(** ** Concrete runs *)
Definition exPeer : NodeView := mkNode 1 101 201 false 0.
Definition exPeer2 : NodeView := mkNode 2 102 202 false 0.
Definition exRelay : epAddr := mkEpAddr (mkAddrPort (Addr4 5) 7) (vniSet 9).

(** A connection with one peer, whose relay path and disco key are known. *)
Definition exConn : MConn :=
  match (c ← UpsertPeer exPeer [] newMConn; acceptsDisco true None 201 c) with
  | Ok (_, c) => withPeers (setNodeKeyForEpAddr exRelay 101 (peers c)) c
  | _ => newMConn
  end.
Lemma exConn_reachable : rtc mstep newMConn exConn.
Proof.
  destruct (UpsertPeer exPeer [] newMConn) as [c| |] eqn:H1; [|by vm_compute in H1..].
  destruct (acceptsDisco true None 201 c) as [[b c2]| |] eqn:H2.
  2,3: vm_compute in H1; injection H1 as <-; by vm_compute in H2.
  unfold exConn. rewrite H1, bind_ret, H2.
  eapply rtc_l; [by eapply st_upsert|]. eapply rtc_l; [by eapply st_disco|]. eapply rtc_l; [apply st_addr|]. apply rtc_refl.
Qed.

Lemma peer_index_consistent_witness :
  rtc mstep newMConn exConn ∧ nodeCount (peers exConn) = size (byNodeID (pm (peers exConn))) ∧
  is_Some (endpointForEpAddr exRelay (peers exConn)).
Proof.
  split; [apply exConn_reachable|]. split.
  - by destruct (peer_index_consistent exConn exConn_reachable) as (_ & ? & _ & _).
  - vm_compute. by eexists.
Defined.

Lemma relay_addrs_bounded_witness :
  (size (filter (λ kv, isRelay kv.1 = true) (byEpAddr (pm (peers exConn)))) ≤ nodeCount (peers exConn))%nat.
Proof. apply relay_addrs_bounded, exConn_reachable. Defined.

Lemma updateNodes_exact_witness :
  ∃ c', updateNodes 0 [(exPeer2, [])] [101; 102] exConn = Ok (true, c') ∧
    ∃ e, idEp (peers c') 2 = Some e ∧ epKey e = 102.
Proof.
  destruct (updateNodes_exact 0 [(exPeer2, [])] [101; 102] exConn) as (b & c' & Hc & Hp & _ & Hx).
  - apply exConn_reachable.
  - by vm_compute.
  - split.
    + repeat constructor; cbn; try done.
    + apply NoDup_singleton.
    + apply NoDup_singleton.
    + intros n id e ->%list_elem_of_singleton He Hk. unfold idEp in He.
      assert (byNodeID (pm (peers exConn)) = {[1 := 1%positive]}) as Hm by by vm_compute.
      rewrite Hm in He. destruct (decide (id = 1)) as [->|Hne]; [|by rewrite lookup_singleton_ne in He].
      vm_compute in He. by injection He as <-.
    + intros n ->%list_elem_of_singleton (e & He & _). by vm_compute in He.
  - intros σ nk Hs [l Hl].
    assert (match upsertAll [(exPeer2, [])] (peers exConn) with Ok s => byNodeKey (pm s) | _ => ∅ end =
            {[101 := 1%positive; 102 := 2%positive]}) as Hm by by vm_compute.
    rewrite Hs in Hm. rewrite Hm in Hl.
    apply lookup_insert_Some in Hl as [[<- _]|[_ [<- _]%lookup_singleton_Some]]; [left|right; left].
  - destruct b; [|subst c'; by vm_compute in Hp]. exists c'. split; [done|]. apply Hx. exists exPeer2. split_and!; [|done|done]. by left.
Defined.

Lemma removed_peer_known_witness :
  201 ∈ discoInfo (RemovePeer 1 exConn) ∧ acceptsDisco true None 201 (RemovePeer 1 exConn) = Ok (true, RemovePeer 1 exConn) ∧
  nodesOfDisco (pm (peers (RemovePeer 1 exConn))) !! 201 = Some ∅.
Proof.
  destruct (removed_peer_known 1 exPeer exConn) as (_ & H1 & H2); [by vm_compute..|].
  split_and!; [exact H1|exact H2|by vm_compute].
Defined.

Lemma disco_update_panics_witness :
  HandleDiscoKeyAdvertisement 101 0 [] exConn = Panic ∧
  UpsertPeer (mkNode 1 101 0 true 0) [] exConn = Panic.
Proof.
  destruct (disco_update_panics exConn exConn_reachable) as [H1 H2]. split.
  - by apply (H1 101 1%positive []); vm_compute.
  - apply H2; [by vm_compute|]. exists (mkEndpoint 1 101 false (Some 201)). by vm_compute.
Defined.

Lemma unusable_peer_hides_stale_witness :
  ∃ c' e, updateNodes 0 [(mkNode 2 102 0 false 0, [])] [101] exConn = Ok (true, c') ∧ peersByID c' !! 1 = None ∧
    idEp (peers c') 1 = Some e.
Proof.
  destruct (unusable_peer_hides_stale 0 (mkNode 2 102 0 false 0) [101] exConn 1 (mkEndpoint 1 101 false (Some 201)))
    as (c' & Hc & Hp & He); [apply exConn_reachable|by vm_compute..|].
  exists c'. eexists. split_and!; [exact Hc|by rewrite Hp|exact He].
Defined.
