(* ===== verification/Disco.v ===== *)
(** * Discovery messages

    [disco/disco.go]: the messages peers exchange to find paths to each other, as
    they are marshalled into and parsed from the payload of a NaCl box.  A buffer is
    a byte list and a slice of it an offset; [copy] truncates, indexing and
    [PutUintN] panic out of range, and appending to a slice of the buffer writes into
    the buffer when its capacity, [spare] bytes beyond its length, allows it. *)

From S2P Require Import Prelude GoStd Bytes NetIP.

(** ** Constants *)
Definition Magic : bytes := [0x54; 0x53; 0xf0; 0x9f; 0x92; 0xac].
Definition keyLen : Z := 32.
Definition NonceLen : Z := 24.
Definition TypePing : Z := 0x01.
Definition TypePong : Z := 0x02.
Definition TypeCallMeMaybe : Z := 0x03.
Definition TypeBindUDPRelayEndpoint : Z := 0x04.
Definition TypeBindUDPRelayEndpointChallenge : Z := 0x05.
Definition TypeBindUDPRelayEndpointAnswer : Z := 0x06.
Definition TypeCallMeMaybeVia : Z := 0x07.
Definition TypeAllocateUDPRelayEndpointRequest : Z := 0x08.
Definition TypeAllocateUDPRelayEndpointResponse : Z := 0x09.
Definition v0 : Z := 0.
Definition epLength : Z := 16 + 2.
Definition pongLen : Z := 12 + 16 + 2.
Definition bindUDPRelayEndpointCommonLen : Z := 72.
Definition BindUDPRelayChallengeLen : Z := 32.
Definition allocateUDPRelayEndpointRequestLen : Z := keyLen * 2 + 4.
Definition udpRelayEndpointLenMinusAddrPorts : Z := keyLen + keyLen * 2 + 8 + 4 + 8 + 8.

Definition LooksLikeDiscoWrapper (p : bytes) : bool :=
  if decide (zlen p < zlen Magic + keyLen + NonceLen) then false
  else bool_decide (take (length Magic) p = Magic).

Definition Source (p : bytes) : option bytes :=
  if LooksLikeDiscoWrapper p then Some (take 32 (drop (length Magic) p)) else None.

(** ** Messages *)
Record BindUDPRelayEndpointCommon := mkCommon {
  bcVNI : Z; bcGeneration : Z; bcRemoteKey : bytes; bcChallenge : bytes
}.
Record UDPRelayEndpoint := mkRelayEp {
  reServerDisco : bytes; reClientDisco : bytes * bytes; reLamportID : Z; reVNI : Z;
  reBindLifetime : Z; reSteadyStateLifetime : Z;   (* int64 durations *)
  reAddrPorts : list AddrPort
}.
Inductive Message : Type :=
  | Ping (TxID NodeKey : bytes) (Padding : Z)
  | Pong (TxID : bytes) (Src : AddrPort)
  | CallMeMaybe (MyNumber : list AddrPort)
  | BindUDPRelayEndpoint (c : BindUDPRelayEndpointCommon)
  | BindUDPRelayEndpointChallenge (c : BindUDPRelayEndpointCommon)
  | BindUDPRelayEndpointAnswer (c : BindUDPRelayEndpointCommon)
  | CallMeMaybeVia (e : UDPRelayEndpoint)
  | AllocateUDPRelayEndpointRequest (ClientDisco : bytes * bytes) (Generation : Z)
  | AllocateUDPRelayEndpointResponse (Generation : Z) (e : UDPRelayEndpoint).

Inductive DiscoErr : Type := errShort | errUnknownType (t : Z).

Definition zero32 : bytes := replicate 32 0.
(** The value of an int64 whose bits are those of [z]. *)
Definition int64 (z : Z) : Z := uN 64 (z + 2 ^ 63) - 2 ^ 63.

(** ** Marshalling *)

(** [copy(b[i:], s)]. *)
Definition copyTo {E} (b : bytes) (i : Z) (s : bytes) : res E bytes :=
  if decide (0 ≤ i ≤ zlen b) then put b i (take (Z.to_nat (zlen b - i)) s) else Panic.
(** [append(b[..:i], s...)] into the array of [b]. *)
Definition appendAt {E} (spare : Z) (b : bytes) (i : Z) (s : bytes) : res E bytes :=
  if decide (i + zlen s ≤ zlen b + spare) then copyTo b i s else Ok b.

(** The buffer, and the offset of the data in it. *)
Definition appendMsgHeader {E} (b : bytes) (t ver dataLen : Z) : res E (bytes * Z) :=
  if decide (dataLen + 2 < 0) then Panic
  else
    let all := b ++ replicate (Z.to_nat (dataLen + 2)) 0 in
    all ← put all (zlen b) [t];
    all ← put all (zlen b + 1) [ver];
    Ok (all, zlen b + 2).

(** [p = p[n:]] at the offset [i] of the buffer. *)
Definition advanceBy {E} (all : bytes) (i n : Z) : res E Z :=
  if decide (i + n ≤ zlen all) then Ok (i + n) else Panic.

Fixpoint putAddrPorts {E} (all : bytes) (p : Z) (eps : list AddrPort) : res E bytes :=
  match eps with
  | [] => Ok all
  | ipp :: eps =>
      all ← copyTo all p (As16 (ap_addr ipp));
      all ← put_be 2 all (p + 16) (ap_port ipp);
      p ← advanceBy all p epLength;
      putAddrPorts all p eps
  end.

Definition encodeCommon {E} (spare : Z) (m : BindUDPRelayEndpointCommon) (all : bytes) (b : Z) : res E bytes :=
  all ← put_be 4 all b (bcVNI m);
  b ← advanceBy all b 4;
  all ← put_be 4 all b (bcGeneration m);
  b ← advanceBy all b 4;
  all ← appendAt spare all b (bcRemoteKey m);
  b ← advanceBy all b keyLen;
  copyTo all b (bcChallenge m).

Definition encodeRelayEp {E} (m : UDPRelayEndpoint) (all : bytes) (b : Z) : res E bytes :=
  all ← copyTo all b (reServerDisco m);
  b ← advanceBy all b keyLen;
  all ← copyTo all b (reClientDisco m).1;
  b ← advanceBy all b keyLen;
  all ← copyTo all b (reClientDisco m).2;
  b ← advanceBy all b keyLen;
  all ← put_be 8 all b (reLamportID m);
  b ← advanceBy all b 8;
  all ← put_be 4 all b (reVNI m);
  b ← advanceBy all b 4;
  all ← put_be 8 all b (uN 64 (reBindLifetime m));
  b ← advanceBy all b 8;
  all ← put_be 8 all b (uN 64 (reSteadyStateLifetime m));
  b ← advanceBy all b 8;
  putAddrPorts all b (reAddrPorts m).

(** [AppendMarshal] of each type of message. *)
Definition pingMarshal {E} (spare : Z) (TxID NodeKey : bytes) (Padding : Z) (b : bytes) : res E bytes :=
  let hasKey := bool_decide (NodeKey ≠ zero32) in
  let dataLen := if hasKey then 12 + keyLen else 12 in
  '(ret, d) ← appendMsgHeader b TypePing v0 (dataLen + Padding);
  let n := Z.min (zlen ret - d) 12 in
  ret ← copyTo ret d TxID;
  if hasKey then appendAt spare ret (d + n) NodeKey else Ok ret.

Definition callMeMaybeMarshal {E} (MyNumber : list AddrPort) (b : bytes) : res E bytes :=
  '(ret, p) ← appendMsgHeader b TypeCallMeMaybe v0 (epLength * zlen MyNumber);
  putAddrPorts ret p MyNumber.

Definition pongMarshal {E} (TxID : bytes) (Src : AddrPort) (b : bytes) : res E bytes :=
  '(ret, d) ← appendMsgHeader b TypePong v0 pongLen;
  ret ← copyTo ret d TxID;
  let d := d + Z.min (zlen ret - d) 12 in
  ret ← copyTo ret d (As16 (ap_addr Src));
  let d := d + Z.min (zlen ret - d) 16 in
  put_be 2 ret d (ap_port Src).

Definition bindMarshal {E} (t spare : Z) (c : BindUDPRelayEndpointCommon) (b : bytes) : res E bytes :=
  '(ret, d) ← appendMsgHeader b t v0 bindUDPRelayEndpointCommonLen;
  encodeCommon spare c ret d.

Definition allocRequestMarshal {E} (ClientDisco : bytes * bytes) (Generation : Z) (b : bytes) : res E bytes :=
  '(ret, p) ← appendMsgHeader b TypeAllocateUDPRelayEndpointRequest v0 allocateUDPRelayEndpointRequestLen;
  ret ← copyTo ret p ClientDisco.1;
  p ← advanceBy ret p keyLen;
  ret ← copyTo ret p ClientDisco.2;
  p ← advanceBy ret p keyLen;
  put_be 4 ret p Generation.

Definition allocResponseMarshal {E} (Generation : Z) (e : UDPRelayEndpoint) (b : bytes) : res E bytes :=
  '(ret, d) ← appendMsgHeader b TypeAllocateUDPRelayEndpointResponse v0
                (4 + udpRelayEndpointLenMinusAddrPorts + epLength * zlen (reAddrPorts e));
  ret ← put_be 4 ret d Generation;
  d ← advanceBy ret d 4;
  encodeRelayEp e ret d.

Definition callMeMaybeViaMarshal {E} (e : UDPRelayEndpoint) (b : bytes) : res E bytes :=
  '(ret, p) ← appendMsgHeader b TypeCallMeMaybeVia v0
                (udpRelayEndpointLenMinusAddrPorts + epLength * zlen (reAddrPorts e));
  encodeRelayEp e ret p.

Definition AppendMarshal {E} (spare : Z) (m : Message) (b : bytes) : res E bytes :=
  match m with
  | Ping TxID NodeKey Padding => pingMarshal spare TxID NodeKey Padding b
  | Pong TxID Src => pongMarshal TxID Src b
  | CallMeMaybe MyNumber => callMeMaybeMarshal MyNumber b
  | BindUDPRelayEndpoint c => bindMarshal TypeBindUDPRelayEndpoint spare c b
  | BindUDPRelayEndpointChallenge c => bindMarshal TypeBindUDPRelayEndpointChallenge spare c b
  | BindUDPRelayEndpointAnswer c => bindMarshal TypeBindUDPRelayEndpointAnswer spare c b
  | CallMeMaybeVia e => callMeMaybeViaMarshal e b
  | AllocateUDPRelayEndpointRequest ClientDisco Generation => allocRequestMarshal ClientDisco Generation b
  | AllocateUDPRelayEndpointResponse Generation e => allocResponseMarshal Generation e b
  end.

(** ** Parsing *)

(** An [n]-byte array after [copy(a[:], p)]. *)
Definition copyFixed (n : nat) (p : bytes) : bytes := take n p ++ replicate (n - length p) 0.

Definition parsePing (ver : Z) (p : bytes) : res DiscoErr Message :=
  if decide (zlen p < 12) then Err errShort
  else
    let padding := zlen p in
    let TxID := copyFixed 12 p in
    p ← slice_from p 12;
    let padding := padding - 12 in
    if decide (keyLen ≤ zlen p) then
      NodeKey ← slice p 0 keyLen;
      Ok (Ping TxID NodeKey (padding - keyLen))
    else Ok (Ping TxID zero32 padding).

(** The loops over addresses; every round takes [epLength] bytes, so a fuel of the
    length is enough. *)
Fixpoint parseAddrPorts (fuel : nat) (p : bytes) (acc : list AddrPort) : res DiscoErr (list AddrPort) :=
  if decide (zlen p ≤ 0) then Ok acc
  else
    match fuel with
    | O => Panic
    | S fuel =>
        let a := copyFixed 16 p in
        b ← slice p 16 18;
        let acc := acc ++ [mkAddrPort (Unmap (AddrFrom16 a)) (be_val 0 b)] in
        p ← slice_from p epLength;
        parseAddrPorts fuel p acc
    end.

Definition parseCallMeMaybe (ver : Z) (p : bytes) : res DiscoErr Message :=
  if decide (zlen p `mod` epLength ≠ 0 ∨ ver ≠ 0 ∨ zlen p = 0) then Ok (CallMeMaybe [])
  else l ← parseAddrPorts (length p) p []; Ok (CallMeMaybe l).

Definition parsePong (ver : Z) (p : bytes) : res DiscoErr Message :=
  if decide (zlen p < pongLen) then Err errShort
  else
    let TxID := copyFixed 12 p in
    p ← slice_from p 12;
    ip ← slice p 0 16;
    let srcIP := default AddrZ (AddrFromSlice ip) in
    p ← slice_from p 16;
    port ← get_be 2 p 0;
    Ok (Pong TxID (mkAddrPort (Unmap srcIP) port)).

Definition decodeCommon (b : bytes) : res DiscoErr BindUDPRelayEndpointCommon :=
  if decide (zlen b < bindUDPRelayEndpointCommonLen) then Err errShort
  else
    vni ← get_be 4 b 0;
    b ← slice_from b 4;
    gen ← get_be 4 b 0;
    b ← slice_from b 4;
    key ← slice b 0 keyLen;
    b ← slice_from b keyLen;
    ch ← slice b 0 BindUDPRelayChallengeLen;
    Ok (mkCommon vni gen key (copyFixed 32 ch)).

Definition zeroRelayEp : UDPRelayEndpoint := mkRelayEp zero32 (zero32, zero32) 0 0 0 0 [].

Definition decodeRelayEp (b : bytes) : res DiscoErr UDPRelayEndpoint :=
  if decide (zlen b < udpRelayEndpointLenMinusAddrPorts + epLength ∨
             Z.rem (zlen b - udpRelayEndpointLenMinusAddrPorts) epLength ≠ 0) then Err errShort
  else
    server ← slice b 0 keyLen;
    b ← slice_from b keyLen;
    c1 ← slice b 0 keyLen;
    b ← slice_from b keyLen;
    c2 ← slice b 0 keyLen;
    b ← slice_from b keyLen;
    lamport ← get_be 8 b 0;
    b ← slice_from b 8;
    vni ← get_be 4 b 0;
    b ← slice_from b 4;
    bind ← get_be 8 b 0;
    b ← slice_from b 8;
    steady ← get_be 8 b 0;
    b ← slice_from b 8;
    if decide (zlen b - udpRelayEndpointLenMinusAddrPorts / epLength < 0) then Panic
    else
      l ← parseAddrPorts (length b) b [];
      Ok (mkRelayEp server (c1, c2) lamport vni (int64 bind) (int64 steady) l).

Definition parseAllocateUDPRelayEndpointRequest (ver : Z) (p : bytes) : res DiscoErr Message :=
  if decide (ver ≠ 0) then Ok (AllocateUDPRelayEndpointRequest (zero32, zero32) 0)
  else if decide (zlen p < allocateUDPRelayEndpointRequestLen) then Err errShort
  else
    c1 ← slice p 0 keyLen;
    p ← slice_from p keyLen;
    c2 ← slice p 0 keyLen;
    p ← slice_from p keyLen;
    gen ← get_be 4 p 0;
    Ok (AllocateUDPRelayEndpointRequest (c1, c2) gen).

Definition parseAllocateUDPRelayEndpointResponse (ver : Z) (p : bytes) : res DiscoErr Message :=
  if decide (ver ≠ 0) then Ok (AllocateUDPRelayEndpointResponse 0 zeroRelayEp)
  else if decide (zlen p < 4) then Err errShort
  else
    gen ← get_be 4 p 0;
    p ← slice_from p 4;
    e ← decodeRelayEp p;
    Ok (AllocateUDPRelayEndpointResponse gen e).

Definition parseCallMeMaybeVia (ver : Z) (p : bytes) : res DiscoErr Message :=
  if decide (ver ≠ 0) then Ok (CallMeMaybeVia zeroRelayEp)
  else e ← decodeRelayEp p; Ok (CallMeMaybeVia e).

Definition Parse (p : bytes) : res DiscoErr Message :=
  if decide (zlen p < 2) then Err errShort
  else
    t ← idx p 0;
    ver ← idx p 1;
    p ← slice_from p 2;
    if t =? TypePing then parsePing ver p
    else if t =? TypePong then parsePong ver p
    else if t =? TypeCallMeMaybe then parseCallMeMaybe ver p
    else if t =? TypeBindUDPRelayEndpoint then c ← decodeCommon p; Ok (BindUDPRelayEndpoint c)
    else if t =? TypeBindUDPRelayEndpointChallenge then c ← decodeCommon p; Ok (BindUDPRelayEndpointChallenge c)
    else if t =? TypeBindUDPRelayEndpointAnswer then c ← decodeCommon p; Ok (BindUDPRelayEndpointAnswer c)
    else if t =? TypeCallMeMaybeVia then parseCallMeMaybeVia ver p
    else if t =? TypeAllocateUDPRelayEndpointRequest then parseAllocateUDPRelayEndpointRequest ver p
    else if t =? TypeAllocateUDPRelayEndpointResponse then parseAllocateUDPRelayEndpointResponse ver p
    else Err (errUnknownType t).
