(* ===== verification/DiscoThms.v ===== *)
(** * Discovery messages: theorems

    What is marshalled, byte by byte, and what the other side parses: the round
    trip with its exceptions, and that parsing any bytes ends in an error or in a
    well-formed message. *)

From S2P Require Import Prelude GoStd Bytes NetIP Disco.

(** ** Well-formed messages *)
Definition array (n : nat) (b : bytes) : Prop := length b = n ∧ bytes_ok b.
Definition ap_ok (a : AddrPort) : Prop := addr_ok (ap_addr a) ∧ 0 ≤ ap_port a < 2 ^ 16.
Record common_ok (c : BindUDPRelayEndpointCommon) : Prop := {
  co_vni : 0 ≤ bcVNI c < 2 ^ 32;
  co_gen : 0 ≤ bcGeneration c < 2 ^ 32;
  co_key : array 32 (bcRemoteKey c);
  co_ch : array 32 (bcChallenge c)
}.
Record relayEp_ok (e : UDPRelayEndpoint) : Prop := {
  ro_server : array 32 (reServerDisco e);
  ro_c1 : array 32 (reClientDisco e).1;
  ro_c2 : array 32 (reClientDisco e).2;
  ro_lamport : 0 ≤ reLamportID e < 2 ^ 64;
  ro_vni : 0 ≤ reVNI e < 2 ^ 32;
  ro_bind : - 2 ^ 63 ≤ reBindLifetime e < 2 ^ 63;
  ro_steady : - 2 ^ 63 ≤ reSteadyStateLifetime e < 2 ^ 63;
  ro_aps : Forall ap_ok (reAddrPorts e)
}.
Definition msg_ok (m : Message) : Prop :=
  match m with
  | Ping tx nk pad => array 12 tx ∧ array 32 nk ∧ 0 ≤ pad
  | Pong tx s => array 12 tx ∧ ap_ok s
  | CallMeMaybe l => Forall ap_ok l
  | BindUDPRelayEndpoint c | BindUDPRelayEndpointChallenge c | BindUDPRelayEndpointAnswer c => common_ok c
  | CallMeMaybeVia e => relayEp_ok e
  | AllocateUDPRelayEndpointRequest cd gen => array 32 cd.1 ∧ array 32 cd.2 ∧ 0 ≤ gen < 2 ^ 32
  | AllocateUDPRelayEndpointResponse gen e => 0 ≤ gen < 2 ^ 32 ∧ relayEp_ok e
  end.

(** ** The bytes on the wire *)
Definition apWire (a : AddrPort) : bytes := As16 (ap_addr a) ++ be_bytes 2 (ap_port a).
Definition apsWire (l : list AddrPort) : bytes := concat (apWire <$> l).
Definition commonWire (c : BindUDPRelayEndpointCommon) : bytes :=
  be_bytes 4 (bcVNI c) ++ be_bytes 4 (bcGeneration c) ++ bcRemoteKey c ++ bcChallenge c.
Definition relayEpWire (e : UDPRelayEndpoint) : bytes :=
  reServerDisco e ++ (reClientDisco e).1 ++ (reClientDisco e).2 ++ be_bytes 8 (reLamportID e) ++
  be_bytes 4 (reVNI e) ++ be_bytes 8 (uN 64 (reBindLifetime e)) ++ be_bytes 8 (uN 64 (reSteadyStateLifetime e)) ++
  apsWire (reAddrPorts e).
Definition wire (m : Message) : bytes :=
  match m with
  | Ping tx nk pad => [TypePing; v0] ++ tx ++ (if decide (nk = zero32) then [] else nk) ++ replicate (Z.to_nat pad) 0
  | Pong tx s => [TypePong; v0] ++ tx ++ apWire s
  | CallMeMaybe l => [TypeCallMeMaybe; v0] ++ apsWire l
  | BindUDPRelayEndpoint c => [TypeBindUDPRelayEndpoint; v0] ++ commonWire c
  | BindUDPRelayEndpointChallenge c => [TypeBindUDPRelayEndpointChallenge; v0] ++ commonWire c
  | BindUDPRelayEndpointAnswer c => [TypeBindUDPRelayEndpointAnswer; v0] ++ commonWire c
  | CallMeMaybeVia e => [TypeCallMeMaybeVia; v0] ++ relayEpWire e
  | AllocateUDPRelayEndpointRequest cd gen =>
      [TypeAllocateUDPRelayEndpointRequest; v0] ++ cd.1 ++ cd.2 ++ be_bytes 4 gen
  | AllocateUDPRelayEndpointResponse gen e =>
      [TypeAllocateUDPRelayEndpointResponse; v0] ++ be_bytes 4 gen ++ relayEpWire e
  end.

(** ** Writing at a cursor

    The buffer is what has been written, then bytes still to be written. *)
Lemma copyTo_cursor {E} (pre rest s : bytes) p :
  p = zlen pre → (length s ≤ length rest)%nat →
  @copyTo E (pre ++ rest) p s = Ok ((pre ++ s) ++ drop (length s) rest).
Proof.
  intros -> Hl. unfold copyTo. pose proof (zlen_nonneg pre).
  rewrite decide_True by (rewrite zlen_app; pose proof (zlen_nonneg rest); lia).
  rewrite zlen_app, Z.add_simpl_l, take_ge by (unfold zlen; lia).
  rewrite <- (take_drop (length s) rest) at 1. rewrite put_field; [by rewrite app_assoc|done|].
  rewrite length_take. lia.
Qed.
Lemma put_be_cursor {E} n (pre rest : bytes) p v :
  p = zlen pre → (n ≤ length rest)%nat →
  @put_be E n (pre ++ rest) p v = Ok ((pre ++ be_bytes n v) ++ drop n rest).
Proof.
  intros -> Hl. unfold put_be. rewrite <- (take_drop n rest) at 1.
  rewrite put_field; [by rewrite app_assoc|done|]. rewrite length_take, be_bytes_length. lia.
Qed.
Lemma appendAt_cursor {E} spare (pre rest s : bytes) p :
  0 ≤ spare → p = zlen pre → (length s ≤ length rest)%nat →
  @appendAt E spare (pre ++ rest) p s = Ok ((pre ++ s) ++ drop (length s) rest).
Proof.
  intros Hsp -> Hl. unfold appendAt. rewrite decide_True by (rewrite zlen_app; unfold zlen in *; lia).
  by apply copyTo_cursor.
Qed.
Lemma advanceBy_ok {E} (all : bytes) p n q :
  q = p + n → q ≤ zlen all → @advanceBy E all p n = Ok q.
Proof. intros -> Hq. unfold advanceBy. by rewrite decide_True. Qed.

Lemma appendMsgHeader_ok {E} (b : bytes) t ver n :
  0 ≤ n → @appendMsgHeader E b t ver n = Ok ((b ++ [t; ver]) ++ replicate (Z.to_nat n) 0, zlen b + 2).
Proof.
  intros Hn. unfold appendMsgHeader. rewrite decide_False by lia.
  rewrite Z2Nat.inj_add by lia. change (Z.to_nat 2) with 2%nat. rewrite Nat.add_comm. cbn [Nat.add replicate].
  change (0 :: 0 :: replicate (Z.to_nat n) 0) with ([0] ++ [0] ++ replicate (Z.to_nat n) 0).
  rewrite put_field, bind_ret by done. rewrite (app_assoc b), put_field, bind_ret by (rewrite ?zlen_app; done).
  by rewrite <- !app_assoc.
Qed.

(** Lengths of what is written. *)
Ltac lens :=
  unfold udpRelayEndpointLenMinusAddrPorts, allocateUDPRelayEndpointRequestLen, bindUDPRelayEndpointCommonLen,
    zlen, keyLen, epLength, pongLen in *;
  repeat rewrite ?length_app, ?length_drop, ?length_replicate, ?be_bytes_length, ?As16_length, ?length_nil, ?length_cons;
  lia.
(** One write, then one step of the cursor. *)
Ltac wr :=
  first [rewrite copyTo_cursor, bind_ret by lens | rewrite put_be_cursor, bind_ret by lens
        | rewrite appendAt_cursor, bind_ret by (lia || lens)].
Ltac adv pre := erewrite advanceBy_ok; [rewrite bind_ret|reflexivity|lens].

Lemma apWire_length a : length (apWire a) = 18%nat.
Proof. unfold apWire. by rewrite length_app, As16_length, be_bytes_length. Qed.
Lemma apsWire_length l : length (apsWire l) = (18 * length l)%nat.
Proof. induction l as [|a l IH]; [done|]. unfold apsWire in *. cbn. rewrite length_app, apWire_length, IH. lia. Qed.

Lemma putAddrPorts_ok {E} l : ∀ (pre rest : bytes) p,
  p = zlen pre → (18 * length l ≤ length rest)%nat →
  @putAddrPorts E (pre ++ rest) p l = Ok ((pre ++ apsWire l) ++ drop (18 * length l) rest).
Proof.
  induction l as [|a l IH]; intros pre rest p -> Hl; cbn [putAddrPorts length] in *.
  { rewrite Nat.mul_0_r. cbn. by rewrite app_nil_r. }
  wr. wr. adv pre. rewrite IH by lens. rewrite As16_length, !drop_drop. unfold apsWire. cbn [fmap list_fmap concat].
  unfold apWire at 2. rewrite <- !app_assoc. do 5 f_equal. f_equal. lia.
Qed.

Lemma encodeCommon_ok {E} spare c (pre rest : bytes) p :
  0 ≤ spare → common_ok c → p = zlen pre → (72 ≤ length rest)%nat →
  @encodeCommon E spare c (pre ++ rest) p = Ok ((pre ++ commonWire c) ++ drop 72 rest).
Proof.
  intros Hsp [_ _ [Hk _] [Hc _]] -> Hl. unfold encodeCommon. wr. adv pre. wr. adv pre. wr. adv pre.
  rewrite copyTo_cursor by lens. rewrite !drop_drop, Hk, Hc. unfold commonWire. by rewrite <- !app_assoc.
Qed.

Lemma encodeRelayEp_ok {E} e (pre rest : bytes) p :
  relayEp_ok e → p = zlen pre → (length rest = 124 + 18 * length (reAddrPorts e))%nat →
  @encodeRelayEp E e (pre ++ rest) p = Ok (pre ++ relayEpWire e).
Proof.
  intros [[Hs _] [H1 _] [H2 _] _ _ _ _ _] -> Hl. unfold encodeRelayEp.
  wr. adv pre. wr. adv pre. wr. adv pre. wr. adv pre. wr. adv pre. wr. adv pre. wr. adv pre.
  rewrite putAddrPorts_ok by lens. rewrite !drop_drop, Hs, H1, H2, drop_ge by lens. rewrite app_nil_r.
  unfold relayEpWire. by rewrite <- !app_assoc.
Qed.

Lemma bindMarshal_ok {E} t spare c (b : bytes) :
  0 ≤ spare → common_ok c → @bindMarshal E t spare c b = Ok (b ++ t :: v0 :: commonWire c).
Proof.
  intros Hsp Hc. unfold bindMarshal. rewrite appendMsgHeader_ok, bind_ret by lens.
  rewrite encodeCommon_ok by (done || lens). rewrite drop_ge by lens. by rewrite app_nil_r, <- !app_assoc.
Qed.

Lemma AppendMarshal_wire {E} spare m (b : bytes) :
  0 ≤ spare → msg_ok m → @AppendMarshal E spare m b = Ok (b ++ wire m).
Proof.
  intros Hsp Hm. destruct m as [tx nk pad|tx s|l|c|c|c|e|cd gen|gen e]; cbn [AppendMarshal];
    unfold pingMarshal, pongMarshal, callMeMaybeMarshal, callMeMaybeViaMarshal, allocRequestMarshal, allocResponseMarshal.
  - destruct Hm as ([Htx _] & [Hnk _] & Hpad). cbn [wire].
    cbv zeta. destruct (decide (nk = zero32)) as [Hz|Hz].
    + rewrite bool_decide_eq_false_2 by (intros H; by apply H).
      rewrite appendMsgHeader_ok, bind_ret by lens. wr. cbn [app].
      rewrite Htx, drop_replicate. rewrite <- !app_assoc. cbn [app]. do 6 f_equal. lia.
    + rewrite bool_decide_eq_true_2 by done.
      rewrite appendMsgHeader_ok, bind_ret by lens. wr. rewrite appendAt_cursor by (lia || lens).
      rewrite Htx, Hnk, drop_drop, drop_replicate. rewrite <- !app_assoc. cbn [app]. unfold keyLen. do 7 f_equal. lia.
  - destruct Hm as [[Htx _] _]. rewrite appendMsgHeader_ok, bind_ret by lens. wr. wr.
    rewrite put_be_cursor by lens. rewrite Htx, As16_length, !drop_drop, drop_ge by lens.
    cbn [wire]. unfold apWire. by rewrite app_nil_r, <- !app_assoc.
  - rewrite appendMsgHeader_ok, bind_ret by lens. rewrite putAddrPorts_ok by lens.
    rewrite drop_ge by lens. by rewrite app_nil_r, <- !app_assoc.
  - by apply bindMarshal_ok.
  - by apply bindMarshal_ok.
  - by apply bindMarshal_ok.
  - rewrite appendMsgHeader_ok, bind_ret by lens. rewrite encodeRelayEp_ok by (done || lens). by rewrite <- !app_assoc.
  - destruct Hm as ([H1 _] & [H2 _] & _). rewrite appendMsgHeader_ok, bind_ret by lens. wr. adv b. wr. adv b.
    rewrite put_be_cursor by lens. rewrite H1, H2, !drop_drop, drop_ge by lens. by rewrite app_nil_r, <- !app_assoc.
  - destruct Hm as [_ He]. rewrite appendMsgHeader_ok, bind_ret by lens. wr. adv b.
    rewrite encodeRelayEp_ok by (done || lens). by rewrite <- !app_assoc.
Qed.

(** ** What is parsed *)
Lemma slice_from_app {E} (s rest : bytes) n : n = zlen s → @slice_from E Z (s ++ rest) n = Ok rest.
Proof.
  intros ->. unfold slice_from. rewrite <- (app_nil_r rest) at 1. apply slice_mid; [done|]. by rewrite zlen_app.
Qed.
Lemma slice_0_app {E} (s rest : bytes) n : n = zlen s → @slice E Z (s ++ rest) 0 n = Ok s.
Proof. intros ->. by apply (slice_mid []). Qed.
Lemma get_be_0_app {E} n (rest : bytes) v :
  0 ≤ v < 256 ^ Z.of_nat n → @get_be E n (be_bytes n v ++ rest) 0 = Ok v.
Proof. intros. by apply (get_be_mid n []). Qed.
Lemma copyFixed_app n (s rest : bytes) : length s = n → copyFixed n (s ++ rest) = s.
Proof.
  intros <-. unfold copyFixed. rewrite take_app_length, length_app.
  by replace (length s - _)%nat with 0%nat by lia; rewrite app_nil_r.
Qed.
Lemma copyFixed_id n (s : bytes) : length s = n → copyFixed n s = s.
Proof. intros. rewrite <- (app_nil_r s) at 1. by apply copyFixed_app. Qed.

(** An address as the receiver sees it: IPv4 addresses unmapped, no zone, the zero
    address as [::]. *)
Definition received_ap (a : AddrPort) : AddrPort := mkAddrPort (Unmap (AddrFrom16 (As16 (ap_addr a)))) (ap_port a).
Definition received_ep (e : UDPRelayEndpoint) : UDPRelayEndpoint :=
  mkRelayEp (reServerDisco e) (reClientDisco e) (reLamportID e) (reVNI e) (reBindLifetime e)
    (reSteadyStateLifetime e) (received_ap <$> reAddrPorts e).
(** The message the receiver parses, or its error. *)
Definition received (m : Message) : res DiscoErr Message :=
  match m with
  | Ping tx nk pad => Ok (Ping tx nk (if decide (nk = zero32 ∧ 32 ≤ pad) then pad - 32 else pad))
  | Pong tx s => Ok (Pong tx (received_ap s))
  | CallMeMaybe l => Ok (CallMeMaybe (received_ap <$> l))
  | CallMeMaybeVia e =>
      if decide (reAddrPorts e = []) then Err errShort else Ok (CallMeMaybeVia (received_ep e))
  | AllocateUDPRelayEndpointResponse gen e =>
      if decide (reAddrPorts e = []) then Err errShort
      else Ok (AllocateUDPRelayEndpointResponse gen (received_ep e))
  | m => Ok m
  end.

Ltac rd :=
  first [rewrite slice_from_app, bind_ret by lens | rewrite slice_0_app, bind_ret by lens
        | rewrite get_be_0_app, bind_ret by (cbn; lia)].

Lemma parseAddrPorts_ok l : ∀ fuel acc,
  Forall ap_ok l → (length l ≤ fuel)%nat →
  parseAddrPorts fuel (apsWire l) acc = Ok (acc ++ (received_ap <$> l)).
Proof.
  induction l as [|a l IH]; intros fuel acc Hok Hf.
  { cbn. destruct fuel; cbn; by rewrite app_nil_r. }
  apply Forall_cons in Hok as [[_ Hp] Hok]. destruct fuel as [|fuel]; [cbn in Hf; lia|]. cbn [parseAddrPorts].
  rewrite decide_False by (unfold zlen; rewrite apsWire_length; cbn; lia).
  unfold apsWire. cbn [fmap list_fmap concat]. fold (apsWire l). unfold apWire. rewrite <- app_assoc.
  rewrite copyFixed_app by apply As16_length.
  rewrite (slice_mid (As16 (ap_addr a)) (be_bytes 2 (ap_port a)) (apsWire l)), bind_ret by lens.
  rewrite be_val_bytes by (cbn; lia). rewrite app_assoc, slice_from_app, bind_ret by lens.
  rewrite IH by (done || cbn in Hf; lia). by rewrite <- app_assoc.
Qed.

Lemma decodeCommon_ok c : common_ok c → decodeCommon (commonWire c) = Ok c.
Proof.
  intros [Hv Hg [Hk _] [Hc _]]. unfold decodeCommon, commonWire. rewrite decide_False by lens.
  rd. rd. rd. rd. rd. rd.
  rewrite <- (app_nil_r (bcChallenge c)). rewrite slice_0_app, bind_ret by (unfold BindUDPRelayChallengeLen; lens).
  rewrite copyFixed_id by done. by destruct c.
Qed.

Lemma int64_uN z : - 2 ^ 63 ≤ z < 2 ^ 63 → int64 (uN 64 z) = z.
Proof.
  intros Hz. unfold int64, uN. rewrite Zplus_mod_idemp_l, Z.mod_small by lia. lia.
Qed.

Lemma decodeRelayEp_ok e :
  relayEp_ok e →
  decodeRelayEp (relayEpWire e) = if decide (reAddrPorts e = []) then Err errShort else Ok (received_ep e).
Proof.
  intros [[Hs _] [H1 _] [H2 _] Hl Hv Hb Hst Ha]. unfold decodeRelayEp.
  assert (zlen (relayEpWire e) = 124 + 18 * zlen (reAddrPorts e)) as Hlen.
  { unfold relayEpWire, zlen. rewrite !length_app, !be_bytes_length, apsWire_length, Hs, H1, H2. lia. }
  rewrite Hlen. unfold udpRelayEndpointLenMinusAddrPorts, keyLen, epLength.
  destruct (decide (reAddrPorts e = [])) as [Hn|Hn].
  { rewrite Hn. by rewrite decide_True by (left; done). }
  assert (0 < zlen (reAddrPorts e)) by (unfold zlen; destruct (reAddrPorts e); [done|cbn; lia]).
  rewrite decide_False.
  2: { intros [?|Hr]; [lia|]. apply Hr. replace (_ - _) with (18 * zlen (reAddrPorts e)) by lia.
       rewrite Z.mul_comm. by apply Z.rem_mul. }
  unfold relayEpWire. rd. rd. rd. rd. rd. rd. rd. rd. rd. rd.
  pose proof (uN_range 64 (reBindLifetime e)). pose proof (uN_range 64 (reSteadyStateLifetime e)).
  rd. rd. rd. rd. rewrite decide_False.
  2: { unfold zlen. rewrite apsWire_length. unfold zlen in *. change ((32 + 32 * 2 + 8 + 4 + 8 + 8) / (16 + 2)) with 6. lia. }
  rewrite parseAddrPorts_ok, bind_ret by (done || rewrite apsWire_length; lia).
  rewrite !int64_uN by done. unfold received_ep. by destruct (reClientDisco e).
Qed.

(** The branch of [Parse] for a known type. *)
Ltac pick :=
  unfold TypePing, TypePong, TypeCallMeMaybe, TypeBindUDPRelayEndpoint, TypeBindUDPRelayEndpointChallenge,
    TypeBindUDPRelayEndpointAnswer, TypeCallMeMaybeVia, TypeAllocateUDPRelayEndpointRequest,
    TypeAllocateUDPRelayEndpointResponse; cbn [Z.eqb Pos.eqb].

Lemma Parse_wire m : msg_ok m → Parse (wire m) = received m.
Proof.
  intros Hm. unfold Parse.
  destruct m as [tx nk pad|tx s|l|c|c|c|e|cd gen|gen e]; cbn [wire app received];
    (rewrite decide_False by (rewrite !zlen_cons; match goal with |- context [zlen ?x] => pose proof (zlen_nonneg x) end; lia));
    match goal with |- context [idx (?t :: ?v :: ?r) 0] =>
      change (@idx DiscoErr Z (t :: v :: r) 0) with (@Ok DiscoErr Z t);
      change (@idx DiscoErr Z (t :: v :: r) 1) with (@Ok DiscoErr Z v);
      change (t :: v :: r) with ([t; v] ++ r)
    end; rewrite !bind_ret, slice_from_app, bind_ret by done; pick.
  all: try (by rewrite decodeCommon_ok by done; rewrite bind_ret).
  - destruct Hm as ([Htx _] & [Hnk _] & Hpad). unfold parsePing. rewrite decide_False by lens.
    rewrite copyFixed_app by done. rd. rewrite zlen_app. destruct (decide (nk = zero32)) as [->|Hz]; cbn [app].
    + destruct (decide (32 ≤ pad)) as [Hp|Hp].
      * rewrite (decide_True (P := keyLen ≤ _)), (decide_True (P := _ ∧ _)) by (done || lens).
        replace (Z.to_nat pad) with (32 + Z.to_nat (pad - 32))%nat at 1 by lia. rewrite replicate_add.
        rewrite slice_0_app, bind_ret by lens. unfold zero32. do 2 f_equal. lens.
      * rewrite (decide_False (P := keyLen ≤ _)), (decide_False (P := _ ∧ _)) by (naive_solver || lens).
        do 2 f_equal. lens.
    + rewrite (decide_True (P := keyLen ≤ _)), (decide_False (P := _ ∧ _)) by (naive_solver || lens).
      rewrite slice_0_app, bind_ret by lens. do 2 f_equal. lens.
  - destruct Hm as ([Htx _] & [_ Hp]). unfold parsePong, apWire. rewrite decide_False by lens.
    rewrite copyFixed_app by done. rd. rd. rd.
    rewrite <- (app_nil_r (be_bytes 2 (ap_port s))). rewrite get_be_0_app, bind_ret by (cbn; lia).
    unfold AddrFromSlice. by rewrite As16_length.
  - unfold parseCallMeMaybe. destruct l as [|a l]; [done|].
    assert (zlen (apsWire (a :: l)) = 18 * zlen (a :: l)) as Hlen by (unfold zlen; rewrite apsWire_length; lia).
    rewrite decide_False.
    + rewrite parseAddrPorts_ok, bind_ret by (done || rewrite apsWire_length; lia). done.
    + rewrite Hlen. unfold epLength. rewrite Z.mul_comm, Z.mod_mul by lia.
      pose proof (zlen_nonneg l). rewrite zlen_cons in *. intros [?|[?|?]]; [done|done|lia].
  - unfold parseCallMeMaybeVia. rewrite decide_False by (intros H; by apply H).
    rewrite decodeRelayEp_ok by done. case_decide; [done|by rewrite bind_ret].
  - destruct Hm as ([H1 _] & [H2 _] & Hg). unfold parseAllocateUDPRelayEndpointRequest.
    rewrite decide_False by (intros H; by apply H). rewrite decide_False by lens. rd. rd. rd. rd.
    rewrite <- (app_nil_r (be_bytes 4 gen)). rewrite get_be_0_app, bind_ret by (cbn; lia). by destruct cd.
  - destruct Hm as [Hg He]. unfold parseAllocateUDPRelayEndpointResponse.
    rewrite decide_False by (intros H; by apply H). rewrite decide_False by lens. rd. rd.
    rewrite decodeRelayEp_ok by done. case_decide; [done|by rewrite bind_ret].
Qed.

(** ** The round trip *)

(** An address that survives: valid, without a zone, and not a mapped IPv4 address. *)
Definition canonical (a : Addr) : Prop :=
  match a with AddrZ => False | Addr4 _ => True | Addr6 _ z => z = "" ∧ Is4In6 a = false end.
Definition canonical_ap (a : AddrPort) : Prop := canonical (ap_addr a).

Lemma received_ap_id a : ap_ok a → received_ap a = a ↔ canonical_ap a.
Proof.
  destruct a as [a p]. intros [Ha _]. unfold received_ap, canonical_ap. cbn [ap_addr ap_port] in *.
  destruct (decide (a = AddrZ)) as [->|Hz]; [by split|]. rewrite Unmap_As16 by done. split.
  - intros [= Heq]. destruct a as [|v|v z]; [done|done|]. cbn [canonical withoutZone] in *.
    unfold Unmap in Heq. change (Is4In6 (Addr6 v "")) with (Is4In6 (Addr6 v z)) in Heq.
    destruct (Is4In6 (Addr6 v z)); [done|]. by injection Heq as <-.
  - intros Hc. f_equal. destruct a as [|v|v z]; [done|done|]. destruct Hc as [-> Hc]. cbn [withoutZone]. unfold Unmap. by rewrite Hc.
Qed.

Lemma received_aps_id l : Forall ap_ok l → received_ap <$> l = l ↔ Forall canonical_ap l.
Proof.
  induction 1 as [|a l Ha Hl IH]; [done|]. cbn. rewrite Forall_cons, <- IH, <- (received_ap_id a) by done.
  split; [by intros [= -> ->]|by intros [-> ->]].
Qed.

Definition faithful (m : Message) : Prop :=
  match m with
  | Ping _ nk pad => ¬ (nk = zero32 ∧ 32 ≤ pad)
  | Pong _ s => canonical_ap s
  | CallMeMaybe l => Forall canonical_ap l
  | CallMeMaybeVia e | AllocateUDPRelayEndpointResponse _ e =>
      reAddrPorts e ≠ [] ∧ Forall canonical_ap (reAddrPorts e)
  | _ => True
  end.

Lemma received_ep_id e : relayEp_ok e → received_ep e = e ↔ Forall canonical_ap (reAddrPorts e).
Proof.
  intros He. rewrite <- received_aps_id by apply He. destruct e. unfold received_ep. cbn.
  split; [by intros [= ->]|by intros ->].
Qed.

Lemma received_faithful m : msg_ok m → faithful m ↔ received m = Ok m.
Proof.
  destruct m as [tx nk pad|tx s|l|c|c|c|e|cd gen|gen e]; cbn [faithful received]; intros Hm; try done.
  - case_decide as Hd; split; intros H; try done. injection H as H. lia.
  - rewrite <- received_ap_id by apply Hm. split; [by intros ->|by intros [= ->]].
  - rewrite <- received_aps_id by done. split; [by intros ->|by intros [= ->]].
  - rewrite <- received_ep_id by done. case_decide as Hd; [naive_solver|]. split; [by intros [_ ->]|by intros [= ->]].
  - rewrite <- received_ep_id by apply Hm. case_decide as Hd; [naive_solver|]. split; [by intros [_ ->]|by intros [= ->]].
Qed.

(** C38: a message that is appended to a buffer and parsed by the receiver comes back,
    except for what the format cannot carry.  Addresses lose zones and the mapped
    form of IPv4; a ping without a node key whose padding is 32 bytes or more is
    taken for one with a zero key and less padding; a message with the endpoint of a
    relay but no address is refused. *)
Theorem disco_roundtrip {E} spare m (b : bytes) :
  0 ≤ spare → msg_ok m →
  ∃ w, @AppendMarshal E spare m b = Ok (b ++ w) ∧ Parse w = received m ∧ (faithful m ↔ Parse w = Ok m).
Proof.
  intros Hsp Hm. exists (wire m). rewrite AppendMarshal_wire, Parse_wire by done.
  split_and!; [done|done|by apply received_faithful].
Qed.

(** ** Parsing any bytes *)
Lemma slice_array {E} (b : bytes) i n j :
  bytes_ok b → 0 ≤ i → j = i + Z.of_nat n → j ≤ zlen b → ∃ s, @slice E Z b i j = Ok s ∧ array n s.
Proof.
  intros Hb Hi -> Hl. destruct (slice_ok (E := E) b i (i + Z.of_nat n)) as (s & Hs & Hz & _); [lia|lia|].
  exists s. split; [done|]. split; [unfold zlen in Hz; lia|by eapply slice_bytes].
Qed.
Lemma slice_from_bytes {E} (b : bytes) i :
  bytes_ok b → 0 ≤ i ≤ zlen b → ∃ s, @slice_from E Z b i = Ok s ∧ zlen s = zlen b - i ∧ bytes_ok s.
Proof.
  intros Hb Hi. destruct (slice_from_ok (E := E) b i Hi) as (s & Hs & Hz & ->). eexists. split_and!; [done|done|by apply Forall_drop].
Qed.
Lemma copyFixed_array n p : bytes_ok p → array n (copyFixed n p).
Proof.
  intros Hp. unfold copyFixed. split.
  - rewrite length_app, length_take, length_replicate. lia.
  - apply Forall_app. split; [by apply Forall_take|]. apply Forall_replicate. unfold byte_ok. lia.
Qed.
Lemma zero32_array : array 32 zero32.
Proof. split; [done|]. apply Forall_replicate. unfold byte_ok. lia. Qed.
#[export] Hint Resolve zero32_array copyFixed_array : bytes.

(** The result of a parser: an error, or a value with [P]; never a panic. *)
Definition typed {A} (P : A → Prop) (r : res DiscoErr A) : Prop :=
  match r with Ok a => P a | Err _ => True | Panic => False end.
Lemma typed_bind {A B} (P : A → Prop) (Q : B → Prop) (m : res DiscoErr A) (f : A → res DiscoErr B) :
  typed P m → (∀ a, P a → typed Q (f a)) → typed Q (m ≫= f).
Proof. destruct m; cbn; auto. Qed.

(** Read one field of the bytes [b]. *)
Ltac rdT :=
  match goal with
  | |- typed _ (slice ?b _ _ ≫= _) =>
      let x := fresh "x" in let H := fresh in let A := fresh "A" in
      destruct (slice_array (E := DiscoErr) b 0 32 keyLen) as (x & H & A);
        [done|lia|done|unfold keyLen; lia|]; rewrite H, bind_ret; clear H
  | |- typed _ (slice_from ?b ?n ≫= _) =>
      let x := fresh "p" in let H := fresh in let L := fresh "L" in let B := fresh "B" in
      destruct (slice_from_bytes (E := DiscoErr) b n) as (x & H & L & B);
        [done|unfold keyLen, epLength; lia|]; rewrite H, bind_ret; clear H; unfold keyLen, epLength in L
  | |- typed _ (get_be ?k ?b 0 ≫= _) =>
      let x := fresh "v" in let H := fresh in let R := fresh "R" in
      destruct (get_be_ok (E := DiscoErr) k b 0) as (x & H & R); [done|lia|lia|]; rewrite H, bind_ret; clear H; cbn in R
  end.

Lemma Unmap_ok a : addr_ok a → addr_ok (Unmap a).
Proof.
  destruct a as [|v|v z]; [done|done|]. intros Ha. unfold Unmap. destruct (Is4In6 _); [|done]. cbn.
  rewrite Z.land_ones by lia. apply Z.mod_pos_bound. lia.
Qed.
Lemma AddrFrom16_array a : array 16 a → addr_ok (AddrFrom16 a).
Proof.
  intros [Hl Hb]. cbn. pose proof (be_val_bound a Hb) as H. unfold zlen in H. rewrite Hl in H. exact H.
Qed.

Lemma parseAddrPorts_typed fuel : ∀ p acc,
  bytes_ok p → zlen p `mod` 18 = 0 → zlen p ≤ 18 * Z.of_nat fuel → Forall ap_ok acc →
  typed (Forall ap_ok) (parseAddrPorts fuel p acc).
Proof.
  induction fuel as [|fuel IH]; intros p acc Hb Hm Hf Ha; cbn [parseAddrPorts]; case_decide as Hz; try (done || lia).
  assert (18 ≤ zlen p) by (destruct (Z.le_gt_cases 18 (zlen p)); [done|rewrite Z.mod_small in Hm by lia; lia]).
  destruct (slice_array (E := DiscoErr) p 16 2 18) as (s & -> & [Hl Hs]); [done|lia|done|lia|]. rewrite bind_ret.
  rdT. apply IH; [done| |lia|].
  - rewrite L. rewrite <- Zminus_mod_idemp_l, Hm. done.
  - apply Forall_app. split; [done|]. constructor; [|done]. split; cbn [ap_addr ap_port].
    + apply Unmap_ok, AddrFrom16_array, copyFixed_array. done.
    + pose proof (be_val_bound s Hs) as H1. unfold zlen in H1. by rewrite Hl in H1.
Qed.

Lemma decodeCommon_typed p : bytes_ok p → typed common_ok (decodeCommon p).
Proof.
  intros Hb. unfold decodeCommon. case_decide as Hl; [done|]. unfold bindUDPRelayEndpointCommonLen in Hl.
  rdT. rdT. rdT. rdT. rdT. rdT. destruct (slice_array (E := DiscoErr) p2 0 32 BindUDPRelayChallengeLen) as (s & -> & [_ Hs]);
    [done|lia|done|unfold BindUDPRelayChallengeLen; lia|]. rewrite bind_ret.
  split; cbn; [done|done|done|by apply copyFixed_array].
Qed.

Lemma zeroRelayEp_ok : relayEp_ok zeroRelayEp.
Proof. split; cbn; try lia; auto with bytes. Qed.

Lemma int64_range z : - 2 ^ 63 ≤ int64 z < 2 ^ 63.
Proof. unfold int64. pose proof (uN_range 64 (z + 2 ^ 63)). lia. Qed.

Lemma decodeRelayEp_typed p : bytes_ok p → typed relayEp_ok (decodeRelayEp p).
Proof.
  intros Hb. unfold decodeRelayEp. case_decide as Hl; [done|].
  unfold udpRelayEndpointLenMinusAddrPorts, keyLen, epLength in Hl.
  apply Decidable.not_or in Hl as [Hlen Hrem%dec_stable].
  change (Z.rem (zlen p - 124) 18 = 0) in Hrem.
  rewrite Z.rem_mod_nonneg in Hrem by lia.
  rdT. rdT. rdT. rdT. rdT. rdT. rdT. rdT. rdT. rdT. rdT. rdT. rdT. rdT.
  rewrite decide_False by (change (_ / _) with 6; lia).
  eapply (typed_bind (Forall ap_ok)).
  - apply parseAddrPorts_typed; [done| |unfold zlen; lia|done].
    by replace (zlen _) with (zlen p - 124) by lia.
  - intros l Hl. split; cbn; (done || apply int64_range).
Qed.

Lemma Parse_total p : bytes_ok p → typed msg_ok (Parse p).
Proof.
  intros Hb. unfold Parse. case_decide as Hl; [done|].
  destruct (idx_ok (E := DiscoErr) p 0) as (t & -> & _); [lia|]. rewrite bind_ret.
  destruct (idx_ok (E := DiscoErr) p 1) as (ver & -> & _); [lia|]. rewrite bind_ret. rdT. clear Hl Hb L.
  rename p0 into q. repeat case_match; try done.
  - unfold parsePing. case_decide as Hl; [done|]. rdT. case_decide as Hk; unfold keyLen in Hk.
    + rdT. cbn. split_and!; auto with bytes. unfold keyLen. lia.
    + cbn. split_and!; auto with bytes. lia.
  - unfold parsePong, pongLen. case_decide as Hl; [done|]. rdT.
    destruct (slice_array (E := DiscoErr) p0 0 16 16) as (ip & -> & Hip); [done|lia|done|lia|]. rewrite bind_ret.
    rdT. rdT. split; [by auto with bytes|]. split; [|done]. cbn [ap_addr].
    unfold AddrFromSlice. destruct Hip as [Hi1 Hi2]. rewrite Hi1. cbn [decide]. by apply Unmap_ok, AddrFrom16_array.
  - unfold parseCallMeMaybe, epLength. case_decide as Hd; [cbn; done|].
    eapply (typed_bind (Forall ap_ok)); [|done]. apply parseAddrPorts_typed; [done| |unfold zlen; lia|done].
    change (16 + 2) with 18 in Hd. apply dec_stable. intros ?. apply Hd. by left.
  - eapply typed_bind; [by apply decodeCommon_typed|done].
  - eapply typed_bind; [by apply decodeCommon_typed|done].
  - eapply typed_bind; [by apply decodeCommon_typed|done].
  - unfold parseCallMeMaybeVia. case_decide; [apply zeroRelayEp_ok|]. eapply typed_bind; [by apply decodeRelayEp_typed|done].
  - unfold parseAllocateUDPRelayEndpointRequest. case_decide; [split_and!; cbn; (lia || by auto with bytes)|]. case_decide as Hl; [done|].
    unfold allocateUDPRelayEndpointRequestLen, keyLen in Hl. rdT. rdT. rdT. rdT. rdT. done.
  - unfold parseAllocateUDPRelayEndpointResponse. case_decide; [split; [done|apply zeroRelayEp_ok]|].
    case_decide as Hl; [done|]. rdT. rdT. eapply typed_bind; [by apply decodeRelayEp_typed|done].
Qed.

(** Any bytes that come out of a box parse to an error or to a well-formed
    message: arrays of their size, ports, counters and durations in range, addresses
    of their family.  No input makes a parser read out of bounds. *)
Theorem disco_parse_typed p :
  bytes_ok p → match Parse p with Ok m => msg_ok m | Err _ => True | Panic => False end.
Proof. exact (Parse_total p). Qed.

(** ** Concrete runs *)
Definition exRelayMsg : Message :=
  CallMeMaybeVia (mkRelayEp zero32 (zero32, zero32) 3 4 (-5) 6 [mkAddrPort (Addr4 7) 8]).

Lemma disco_roundtrip_witness :
  msg_ok exRelayMsg ∧ ∃ w, @AppendMarshal () 0 exRelayMsg [1; 2] = Ok ([1; 2] ++ w) ∧ Parse w = Ok exRelayMsg.
Proof.
  assert (msg_ok exRelayMsg) as Hm.
  { split; cbn; try lia; try apply zero32_array. constructor; [|done]. split; cbn; lia. }
  split; [exact Hm|]. destruct (@disco_roundtrip () 0 exRelayMsg [1; 2] ltac:(lia) Hm) as (w & H1 & _ & H2).
  exists w. split; [exact H1|]. apply H2. split; [done|]. by repeat constructor.
Defined.

Lemma disco_parse_typed_witness : ∃ m, Parse ([2; 0] ++ replicate 30 9) = Ok m ∧ msg_ok m.
Proof.
  pose proof (disco_parse_typed ([2; 0] ++ replicate 30 9)) as H.
  assert (bytes_ok ([2; 0] ++ replicate 30 9)) as Hb by (repeat constructor; by vm_compute).
  specialize (H Hb). destruct (Parse ([2; 0] ++ replicate 30 9)) as [m| |] eqn:Hp; [by exists m|by vm_compute in Hp..].
Defined.
