(* ===== verification/DiscoRx.v ===== *)
(** * Disco packets in the packet socket

    The receiving and sending side of discovery in [wgengine/magicsock]: how a packet
    is told apart ([packetLooksLike], [stun.Is]), the Geneve header of relayed
    packets ([net/packet/geneve.go]), [receiveIP], [handleDiscoMessage] with the
    handlers of pings and pongs, and the packet [sendDiscoMessage] builds.

    The state is the connection of PeerMap.v.  What an endpoint or the relay manager
    knows besides (pings in flight, candidate addresses, relays) is asked of an
    environment; what the handlers start elsewhere is a list of actions.  NaCl boxes
    are a class with laws.  Logging, metrics and the times of activity are left out. *)

From S2P Require Import Prelude GoStd Bytes NetIP Disco PeerMap.

(** ** Geneve *)
Definition GeneveFixedHeaderLength : Z := 8.
Definition GeneveProtocolDisco : Z := 0x7A11.
Definition GeneveProtocolWireGuard : Z := 0x7A12.

Record GeneveHeader := mkGeneve { gVersion : Z; gProtocol : Z; gVNI : Z; gControl : bool }.
Inductive GeneveErr : Type := ErrShortBuffer | ErrGeneveVNIUnset | ErrVersion.

Definition geneveEncode (h : GeneveHeader) (b : bytes) : res GeneveErr bytes :=
  if decide (zlen b < GeneveFixedHeaderLength) then Err ErrShortBuffer
  else if negb (vniIsSet (gVNI h)) then Err ErrGeneveVNIUnset
  else if decide (gVersion h > 3) then Err ErrVersion
  else
    b ← put b 0 [0];
    b ← put b 1 [0];
    b0 ← idx b 0;
    b ← put b 0 [Z.lor b0 (u8 (Z.shiftl (gVersion h) 6))];
    b1 ← idx b 1;
    b ← (if gControl h then put b 1 [Z.lor b1 0x80] else Ok b);
    b ← put_be 2 b 2 (gProtocol h);
    put_be 4 b 4 (u32 (Z.shiftl (vniGet (gVNI h)) 8)).

(** [Decode] into the header [h]: the control bit is only ever set. *)
Definition geneveDecode (h : GeneveHeader) (b : bytes) : res GeneveErr GeneveHeader :=
  if decide (zlen b < GeneveFixedHeaderLength) then Err ErrShortBuffer
  else
    b0 ← idx b 0;
    b1 ← idx b 1;
    proto ← get_be 2 b 2;
    vni ← get_be 4 b 4;
    Ok (mkGeneve (Z.shiftr b0 6) proto (vniSet (Z.shiftr vni 8))
          (if Z.land b1 0x80 =? 0 then gControl h else true)).

(** ** Telling packets apart *)

(** A byte of a packet that is long enough. *)
Definition byteAt (b : bytes) (i : nat) : Z := default 0 (b !! i).

Definition magicCookie : bytes := [0x21; 0x12; 0xa4; 0x42].
Definition stunHeaderLen : Z := 20.
Definition stunIs (b : bytes) : bool :=
  bool_decide (stunHeaderLen ≤ zlen b) && (Z.land (byteAt b 0) 0xC0 =? 0) &&
  bool_decide (take 4 (drop 4 b) = magicCookie).

Definition discoHeaderLen : Z := zlen Magic + keyLen.

Inductive packetLooksLikeType : Type :=
  packetLooksLikeWireGuard | packetLooksLikeSTUNBinding | packetLooksLikeDisco.
#[export] Instance packetLooksLikeType_eq_dec : EqDecision packetLooksLikeType.
Proof. solve_decision. Defined.

Definition looksLikeDisco (msg : bytes) : bool :=
  bool_decide (discoHeaderLen ≤ zlen msg) && bool_decide (take (length Magic) msg = Magic).

Definition packetLooksLike (msg : bytes) : packetLooksLikeType * bool :=
  if stunIs msg && (byteAt msg 1 =? 0x01) then (packetLooksLikeSTUNBinding, false)
  else
    let rest := if looksLikeDisco msg then (packetLooksLikeDisco, false) else (packetLooksLikeWireGuard, false) in
    if bool_decide (GeneveFixedHeaderLength ≤ zlen msg) && (Z.land (byteAt msg 0) 0xC0 =? 0) &&
       (Z.land (byteAt msg 1) 0x3F =? 0) && (byteAt msg 7 =? 0) then
      let proto := be_val 0 (take 2 (drop 2 msg)) in
      if proto =? GeneveProtocolDisco then
        if looksLikeDisco (drop 8 msg) then (packetLooksLikeDisco, true) else (packetLooksLikeWireGuard, false)
      else if proto =? GeneveProtocolWireGuard then (packetLooksLikeWireGuard, true)
      else rest
    else rest.

(** ** NaCl boxes *)
Class NaCl := {
  discoPublic : bytes → bytes;              (* curve25519.ScalarBaseMult *)
  Precompute : bytes → bytes → bytes;       (* the shared key of a public and a private key *)
  BoxSeal : bytes → bytes → bytes → bytes;  (* nonce, message, shared key *)
  BoxOpen : bytes → bytes → bytes → option bytes
}.
Class NaClLaws (nc : NaCl) := {
  discoPublic_array k : length (discoPublic k) = 32%nat ∧ bytes_ok (discoPublic k);
  Precompute_sym a b : Precompute (discoPublic a) b = Precompute (discoPublic b) a;
  BoxOpen_Seal n m k : BoxOpen n (BoxSeal n m k) k = Some m;
  BoxOpen_bytes n b k m : bytes_ok b → BoxOpen n b k = Some m → bytes_ok m
}.

Section disco_rx.
Context `{nc : NaCl}.

(** A 32-byte key as PeerMap.v indexes it. *)
Definition keyZ (k : bytes) : Z := be_val 0 k.

(** [DiscoShared.Seal] with its random nonce, and [Open]. *)
Definition discoSeal (shared nonce cleartext : bytes) : res () bytes :=
  if decide (shared = zero32) then Panic else Ok (nonce ++ BoxSeal nonce cleartext shared).
Definition discoOpen (shared ciphertext : bytes) : res () (option bytes) :=
  if decide (shared = zero32) then Panic
  else if decide (zlen ciphertext < 24) then Ok None
  else Ok (BoxOpen (take 24 ciphertext) (drop 24 ciphertext) shared).

(** ** What the handlers ask, and what they start *)
Inductive PongVerdict : Type :=
  | PongUnknown      (* no ping with this transaction is in flight *)
  | PongStale        (* its address is no longer an endpoint *)
  | PongGood.
Record DiscoEnv := mkDiscoEnv {
  envPrivate : bytes;                (* discoAtomic.Private() *)
  envHasKey : bool;                  (* privateKey is set *)
  envRelayInfo : Z → bool;           (* relayManager.discoInfo *)
  envRelayClient : bool;             (* relayClientEnabled *)
  envOrder : Z → list Z;             (* the range over nodesOfDisco[dk] *)
  envDup : positive → bool;          (* addCandidateEndpoint: a duplicate ping *)
  envPong : positive → PongVerdict;  (* sentPing and endpointState *)
  envRelayCapable : positive → bool;
  envRelayCap : Z → bool             (* filt and nodeHasCap, by node ID *)
}.

Inductive DiscoAction : Type :=
  | ToRelayManager (m : Message) (nk dk : Z) (src : epAddr)
  | SendPong (dst : epAddr) (dstKey dstDisco : Z) (TxID : bytes) (Src : AddrPort)
  | TryCallMeMaybe (q : positive) (eps : list AddrPort)
  | TryCallMeMaybeVia (q : positive) (e : UDPRelayEndpoint)
  | AllocRelay (dk nk : Z) (m : Message).

Definition DerpMagicIPAddr : Addr := IPv4 127 3 3 40.
Definition isDERP (src : epAddr) : bool := bool_decide (ap_addr (eaAP src) = DerpMagicIPAddr).

(** The disco key of an endpoint, [nil] as 0. *)
Definition hasDisco (q : positive) (dk : Z) (σ : Peers) : bool := bool_decide (eps σ !! q ≫= epDisco = Some dk).

(** [unambiguousNodeKeyOfPingLocked]; [pingKey] is the node key in the ping. *)
Definition unambiguousNodeKeyOfPingLocked (pingKey dk derpNodeSrc : Z) (σ : Peers) : option Z :=
  let byKey (nk : Z) : bool :=
    negb (nk =? 0) && match endpointForNodeKey nk σ with Some q => hasDisco q dk σ | None => false end in
  if byKey derpNodeSrc then Some derpNodeSrc
  else if byKey pingKey then Some pingKey
  else match nodesOfDisco (pm σ) !! dk with
       | Some s => if decide (size s = 1%nat) then head (elements s) else None
       | None => None
       end.

(** The loop over the nodes of a ping's disco key: their number and the key to
    answer to; [None] on a duplicate. *)
Fixpoint pingLoop (env : DiscoEnv) (ord : list Z) (numNodes : nat) (dstKey : Z) (σ : Peers) : option (nat * Z) :=
  match ord with
  | [] => Some (numNodes, dstKey)
  | nk :: ord =>
      match byNodeKey (pm σ) !! nk ≫= epOf σ with
      | None => pingLoop env ord numNodes dstKey σ
      | Some q =>
          if envDup env q then None
          else
            let numNodes := S numNodes in
            let dstKey := if decide (numNodes = 1%nat ∧ dstKey = 0)
                          then default 0 (epKey <$> eps σ !! q) else dstKey in
            pingLoop env ord numNodes dstKey σ
      end
  end.

Definition handlePingLocked (env : DiscoEnv) (TxID pingKey : bytes) (Padding : Z) (src : epAddr) (dk derpNodeSrc : Z)
    (c : MConn) : MConn * list DiscoAction :=
  if isRelay src then
    if isDERP src then (c, [])
    else (c, [ToRelayManager (Ping TxID pingKey Padding) 0 dk src])
  else
    let c := match unambiguousNodeKeyOfPingLocked (keyZ pingKey) dk derpNodeSrc (peers c) with
             | Some nk => if isDERP src then c else withPeers (setNodeKeyForEpAddr src nk (peers c)) c
             | None => c
             end in
    let found :=
      if isDERP src then
        Some (match endpointForNodeKey derpNodeSrc (peers c) with Some _ => 1%nat | None => 0%nat end, derpNodeSrc)
      else
        match pingLoop env (envOrder env dk) 0 derpNodeSrc (peers c) with
        | Some (n, k) => Some (n, if decide (1 < n)%nat then 0 else k)
        | None => None
        end in
    match found with
    | None => (c, [])
    | Some (n, dstKey) =>
        if decide (n = 0%nat) then (c, []) else (c, [SendPong src dstKey dk TxID (eaAP src)])
    end.

(** [handlePongConnLocked] for the endpoint [q]: whether the transaction is known. *)
Definition handlePongConnLocked (env : DiscoEnv) (q : positive) (src : epAddr) (c : MConn) : bool * MConn :=
  match envPong env q with
  | PongUnknown => (false, c)
  | v =>
      if negb (isDERP src) && negb (isRelay src) then
        match v with
        | PongStale => (true, c)
        | _ => (true, withPeers (setNodeKeyForEpAddr src (default 0 (epKey <$> eps (peers c) !! q)) (peers c)) c)
        end
      else (true, c)
  end.

Fixpoint pongLoop (env : DiscoEnv) (ord : list Z) (src : epAddr) (c : MConn) : bool * MConn :=
  match ord with
  | [] => (false, c)
  | nk :: ord =>
      match byNodeKey (pm (peers c)) !! nk ≫= epOf (peers c) with
      | None => pongLoop env ord src c
      | Some q =>
          let '(known, c) := handlePongConnLocked env q src c in
          if known then (true, c) else pongLoop env ord src c
      end
  end.

(** A message that only DERP may bring, from the node [derpNodeSrc]: the endpoint
    it is for. *)
Definition derpSender (derpNodeSrc dk : Z) (c : MConn) : option positive :=
  match endpointForNodeKey derpNodeSrc (peers c) with
  | Some q => if hasDisco q dk (peers c) then Some q else None
  | None => None
  end.

(** The message, once it is opened and parsed. *)
Definition dispatchDisco (env : DiscoEnv) (dm : Message) (src : epAddr) (relayHandshake : bool) (dk derpNodeSrc : Z)
    (c : MConn) : MConn * list DiscoAction :=
  if relayHandshake then
    match dm with
    | BindUDPRelayEndpointChallenge _ => (c, [ToRelayManager dm 0 dk src])
    | _ => (c, [])
    end
  else
    match dm with
    | Ping tx nk pad => handlePingLocked env tx nk pad src dk derpNodeSrc c
    | Pong _ _ =>
        let '(known, c) := pongLoop env (envOrder env dk) src c in
        (c, if negb known && isRelay src then [ToRelayManager dm 0 dk src] else [])
    | CallMeMaybe l =>
        if negb (isDERP src) || (derpNodeSrc =? 0) then (c, [])
        else match derpSender derpNodeSrc dk c with
             | Some q => (c, [TryCallMeMaybe q l])
             | None => (c, [])
             end
    | CallMeMaybeVia e =>
        if negb (isDERP src) || (derpNodeSrc =? 0) then (c, [])
        else match endpointForNodeKey derpNodeSrc (peers c) with
             | None => (c, [])
             | Some q =>
                 if negb (envRelayClient env) then (c, [])
                 else if negb (envRelayCapable env q) then (c, [])
                 else if hasDisco q dk (peers c) then (c, [TryCallMeMaybeVia q e]) else (c, [])
             end
    | AllocateUDPRelayEndpointResponse _ _ =>
        if negb (isDERP src) then (c, [])
        else match derpSender derpNodeSrc dk c with
             | Some _ => (c, [ToRelayManager dm derpNodeSrc dk src])
             | None => (c, [])
             end
    | AllocateUDPRelayEndpointRequest cd _ =>
        if negb (isDERP src) then (c, [])
        else match derpSender derpNodeSrc dk c with
             | None => (c, [])
             | Some q =>
                 if negb (dk =? keyZ cd.1) && negb (dk =? keyZ cd.2) then (c, [])
                 else match eps (peers c) !! q with
                      | None => (c, [])
                      | Some e =>
                          if decide (is_Some (peersByID c !! epNodeID e)) then
                            if envRelayCap env (epNodeID e) then (c, [AllocRelay dk derpNodeSrc dm]) else (c, [])
                          else (c, [])
                      end
             end
    | _ => (c, [])
    end.

(** [handleDiscoMessage]; [msg] is without its Geneve header.  The shared key kept in
    a [discoInfo] is the one of our private key and the sender's key. *)
Definition handleDiscoMessage (env : DiscoEnv) (msg : bytes) (src : epAddr) (relayHandshake : bool) (derpNodeSrc : Z)
    (c : MConn) : res () (MConn * list DiscoAction) :=
  sender ← slice msg (zlen Magic) discoHeaderLen;
  '(ok, c) ← acceptsDisco (envHasKey env) (if relayHandshake then Some (envRelayInfo env (keyZ sender)) else None)
               (keyZ sender) c;
  if negb ok then Ok (c, [])
  else
    sealedBox ← slice_from msg discoHeaderLen;
    payload ← discoOpen (Precompute sender (envPrivate env)) sealedBox;
    match payload with
    | None => Ok (c, [])
    | Some payload =>
        match Parse payload with
        | Ok dm => Ok (dispatchDisco env dm src relayHandshake (keyZ sender) derpNodeSrc c)
        | Err _ => Ok (c, [])
        | Panic => Panic
        end
    end.

(** ** Receiving *)
Variable looksLikeInitiationMsg : bytes → bool.   (* by the sizes of wireguard-go *)

(** The endpoint of the last packet, with the count of its resets. *)
Record epAddrEndpointCache := mkCache { caAddr : epAddr; caGen : Z; caDe : option positive }.

(** What [receiveIP] hands to WireGuard: an endpoint, or one to be determined once
    the packet is decrypted, with the packet and whether it was encapsulated. *)
Inductive RxResult : Type :=
  | RxHandled                                   (* disco, STUN, or not for us *)
  | RxEndpoint (q : positive) (b : bytes) (encap : bool)
  | RxLazy (maybeEP : option positive) (src : epAddr) (b : bytes) (encap : bool).

(** [gens] are the counts of resets, [noted] is what [noteRecvActivity] returns. *)
Definition receiveIP (env : DiscoEnv) (gens : positive → Z) (noted : positive → bool) (b : bytes) (ipp : AddrPort)
    (cache : epAddrEndpointCache) (c : MConn)
  : res () (RxResult * list DiscoAction * epAddrEndpointCache * MConn) :=
  let '(pt, isGeneveEncap) := packetLooksLike b in
  let geneve :=
    if isGeneveEncap then geneveDecode (mkGeneve 0 0 0 false) b else Ok (mkGeneve 0 0 0 false) in
  match geneve with
  | Ok g =>
      let src := mkEpAddr ipp (gVNI g) in
      match pt with
      | packetLooksLikeDisco =>
          b ← (if isGeneveEncap then slice_from b GeneveFixedHeaderLength else Ok b);
          '(c, acts) ← handleDiscoMessage env b src (gControl g) 0 c;
          Ok (RxHandled, acts, cache, c)
      | packetLooksLikeSTUNBinding => Ok (RxHandled, [], cache, c)
      | packetLooksLikeWireGuard =>
          if negb (envHasKey env) then Ok (RxHandled, [], cache, c)
          else
            b ← (if isRelay src then slice_from b GeneveFixedHeaderLength else Ok b);
            let '(found, cache) :=
              match caDe cache with
              | Some de =>
                  if decide (caAddr cache = src ∧ caGen cache = gens de) then (Some de, cache)
                  else match endpointForEpAddr src (peers c) with
                       | Some q => (Some q, mkCache src (gens q) (Some q))
                       | None => (None, cache)
                       end
              | None =>
                  match endpointForEpAddr src (peers c) with
                  | Some q => (Some q, mkCache src (gens q) (Some q))
                  | None => (None, cache)
                  end
              end in
            match found with
            | None => Ok (RxLazy None src b isGeneveEncap, [], cache, c)
            | Some q =>
                if isRelay src && (noted q || looksLikeInitiationMsg b)
                then Ok (RxLazy (Some q) src b isGeneveEncap, [], cache, c)
                else Ok (RxEndpoint q b isGeneveEncap, [], cache, c)
            end
      end
  | Err _ => Ok (RxHandled, [], cache, c)
  | Panic => Panic
  end.

(** [lazyEndpoint.FromPeer]: a packet from [src] was decrypted with the key of [pubKey]. *)
Definition FromPeer (maybeEP : option positive) (src : epAddr) (pubKey : Z) (c : MConn) : MConn :=
  if decide (is_Some maybeEP ∧ maybeEP ≫= (λ q, epKey <$> eps (peers c) !! q) = Some pubKey) then c
  else match endpointForNodeKey pubKey (peers c) with
       | None => c
       | Some _ => withPeers (setNodeKeyForEpAddr src pubKey (peers c)) c
       end.

(** ** Sending *)
Inductive SendErr : Type := errConnClosed | errUnknownRelay | errUnknownPeer | errGeneve.

Definition isRelayHandshakeMsg (m : Message) : bool :=
  match m with BindUDPRelayEndpoint _ | BindUDPRelayEndpointAnswer _ => true | _ => false end.

(** [sendDiscoMessage] up to the call of [sendAddr]: the packet. *)
Definition sendDiscoMessage (env : DiscoEnv) (nonce : bytes) (spare : Z) (dst : epAddr) (dstDisco : bytes) (m : Message)
    (c : MConn) : res SendErr (bytes * MConn) :=
  if mclosed c then Err errConnClosed
  else
    c ← (if isRelayHandshakeMsg m then
           if envRelayInfo env (keyZ dstDisco) then Ok c else Err errUnknownRelay
         else if knownPeerDiscoKey (keyZ dstDisco) (peers c) then
           match discoInfoForKnownPeerLocked (keyZ dstDisco) c with Ok c => Ok c | _ => Panic end
         else Err errUnknownPeer);
    pkt ← (if isRelay dst then
             match geneveEncode (mkGeneve 0 GeneveProtocolDisco (eaVNI dst) (isRelayHandshakeMsg m))
                     (replicate (Z.to_nat GeneveFixedHeaderLength) 0) with
             | Ok b => Ok b
             | Err _ => Err errGeneve
             | Panic => Panic
             end
           else Ok []);
    let pkt := pkt ++ Magic ++ discoPublic (envPrivate env) in
    plain ← AppendMarshal spare m [];
    match discoSeal (Precompute dstDisco (envPrivate env)) nonce plain with
    | Ok box => Ok (pkt ++ box, c)
    | _ => Panic
    end.
End disco_rx.
