(* ===== verification/DiscoRxThms.v ===== *)
(** * Disco packets: theorems

    The kinds of packets are told apart, a message that is sent is the message the
    peer acts on, and no received packet makes the handlers panic, damage the index
    of peers or attach an address to a peer that does not own the disco key. *)

From S2P Require Import Prelude GoStd Bytes NetIP Disco DiscoThms PeerMap PeerMapThms PeerUpdateThms DiscoRx.

(** ** Geneve *)
Lemma vniGet_range v : 0 ≤ vniGet v < 2 ^ 24.
Proof.
  unfold vniGet. change vniGetMask with (Z.ones 24). rewrite Z.land_ones by lia. apply Z.mod_pos_bound. lia.
Qed.

(** The eight bytes of a header. *)
Definition geneveWire (h : GeneveHeader) : bytes :=
  [u8 (Z.shiftl (gVersion h) 6); if gControl h then 0x80 else 0] ++
  be_bytes 2 (gProtocol h) ++ be_bytes 3 (vniGet (gVNI h)) ++ [0].

Lemma geneve_vni_bytes v : 0 ≤ v < 2 ^ 24 → be_bytes 4 (u32 (Z.shiftl v 8)) = be_bytes 3 v ++ [0].
Proof.
  intros Hv. rewrite Z.shiftl_mul_pow2 by lia. rewrite uN_small by lia.
  rewrite (be_bytes_app 3 1). f_equal.
  - rewrite Z.shiftr_div_pow2 by lia. by rewrite Z.div_mul.
  - cbn [be_bytes]. rewrite Z.shiftr_0_r, land_255, Z.mod_mul by lia. done.
Qed.

Lemma geneveEncode_ok h b0 rest :
  length b0 = 8%nat → vniIsSet (gVNI h) = true → 0 ≤ gVersion h ≤ 3 →
  geneveEncode h (b0 ++ rest) = Ok (geneveWire h ++ rest).
Proof.
  intros Hb Hv Hver. unfold geneveEncode. rewrite decide_False by (rewrite zlen_app; unfold zlen, GeneveFixedHeaderLength; lia).
  rewrite Hv, decide_False by lia. cbn [negb].
  destruct b0 as [|x0 [|x1 [|x2 [|x3 [|x4 [|x5 [|x6 [|x7 [|]]]]]]]]]; try done. clear Hb. cbn [app].
  change (x0 :: x1 :: ?r) with ([] ++ [x0] ++ (x1 :: r)). rewrite put_field, bind_ret by done.
  change ([] ++ [0] ++ x1 :: ?r) with ([0] ++ [x1] ++ r). rewrite put_field, bind_ret by done.
  change (@idx GeneveErr Z ([0] ++ [0] ++ ?r) 0) with (@Ok GeneveErr Z 0). rewrite bind_ret, Z.lor_0_l.
  change ([0] ++ [0] ++ ?r) with ([] ++ [0] ++ (0 :: r)). rewrite put_field, bind_ret by done.
  set (v := u8 (Z.shiftl (gVersion h) 6)).
  change (@idx GeneveErr Z ([] ++ [v] ++ 0 :: ?r) 1) with (@Ok GeneveErr Z 0). rewrite bind_ret, Z.lor_0_l.
  set (ctl := if gControl h then 0x80 else 0).
  assert ((if gControl h then put ([] ++ [v] ++ 0 :: x2 :: x3 :: x4 :: x5 :: x6 :: x7 :: rest) 1 [0x80]
           else Ok ([] ++ [v] ++ 0 :: x2 :: x3 :: x4 :: x5 :: x6 :: x7 :: rest)) =
          @Ok GeneveErr bytes ([v; ctl] ++ [x2; x3] ++ [x4; x5; x6; x7] ++ rest)) as ->.
  { unfold ctl. destruct (gControl h); [|done].
    change ([] ++ [v] ++ 0 :: ?r) with ([v] ++ [0] ++ r). by rewrite put_field. }
  rewrite bind_ret. unfold put_be. rewrite put_field, bind_ret by (done || by rewrite be_bytes_length).
  rewrite app_assoc, put_field by (rewrite ?zlen_app; unfold zlen; rewrite ?be_bytes_length; done).
  rewrite geneve_vni_bytes by apply vniGet_range. unfold geneveWire. by rewrite <- !app_assoc.
Qed.

Lemma geneveWire_length h : length (geneveWire h) = 8%nat.
Proof. unfold geneveWire. by rewrite !length_app, !be_bytes_length. Qed.

Lemma vniSet_get v : Z.shiftr (be_val 0 (be_bytes 3 (vniGet v) ++ [0])) 8 = vniGet v.
Proof.
  pose proof (vniGet_range v). rewrite <- geneve_vni_bytes by done. rewrite be_val_bytes by (pose proof (uN_range 32 (Z.shiftl (vniGet v) 8)); cbn in *; lia).
  rewrite Z.shiftl_mul_pow2, uN_small, Z.shiftr_div_pow2, Z.div_mul by lia. done.
Qed.

Lemma geneveDecode_ok h h0 rest :
  0 ≤ gVersion h ≤ 3 → 0 ≤ gProtocol h < 2 ^ 16 →
  geneveDecode h0 (geneveWire h ++ rest) =
  Ok (mkGeneve (gVersion h) (gProtocol h) (vniSet (vniGet (gVNI h))) (gControl h || gControl h0)).
Proof.
  intros Hver Hp. unfold geneveDecode.
  rewrite decide_False by (rewrite zlen_app; unfold zlen, GeneveFixedHeaderLength; rewrite geneveWire_length; lia).
  unfold geneveWire. cbn [app].
  change (@idx GeneveErr Z (?x :: ?y :: ?r) 0) with (@Ok GeneveErr Z x).
  change (@idx GeneveErr Z (?x :: ?y :: ?r) 1) with (@Ok GeneveErr Z y). rewrite !bind_ret.
  change (?x :: ?y :: ?r) with ([x; y] ++ r). rewrite <- app_assoc.
  rewrite get_be_mid, bind_ret by (done || cbn; lia).
  unfold get_be. rewrite <- !app_assoc.
  rewrite (app_assoc (be_bytes 3 (vniGet (gVNI h)))). rewrite (app_assoc [_; _]).
  rewrite slice_mid, !bind_ret by (unfold zlen; rewrite ?length_app, ?be_bytes_length; cbn; lia).
  rewrite vniSet_get. f_equal. rewrite uN_small, Z.shiftl_mul_pow2, Z.shiftr_div_pow2, Z.div_mul by (rewrite ?Z.shiftl_mul_pow2 by lia; lia).
  by destruct (gControl h).
Qed.

Lemma looksLikeDisco_intro (rest : bytes) : (32 ≤ length rest)%nat → looksLikeDisco (Magic ++ rest) = true.
Proof.
  intros Hl. unfold looksLikeDisco. rewrite take_app_length, !bool_decide_eq_true_2; [done|done|].
  unfold discoHeaderLen, zlen, keyLen. rewrite length_app. lia.
Qed.

Lemma looksLike_disco rest :
  (32 ≤ length rest)%nat → packetLooksLike (Magic ++ rest) = (packetLooksLikeDisco, false).
Proof.
  intros Hl. unfold packetLooksLike. change (byteAt (Magic ++ rest) 1 =? 0x01) with false. rewrite andb_false_r.
  change (Z.land (byteAt (Magic ++ rest) 0) 0xC0 =? 0) with false. rewrite andb_false_r. cbn [andb].
  by rewrite looksLikeDisco_intro.
Qed.

Lemma looksLike_geneve h inner :
  gVersion h = 0 → 0 ≤ gProtocol h < 2 ^ 16 →
  packetLooksLike (geneveWire h ++ inner) =
  if gProtocol h =? GeneveProtocolDisco then
    if looksLikeDisco inner then (packetLooksLikeDisco, true) else (packetLooksLikeWireGuard, false)
  else if gProtocol h =? GeneveProtocolWireGuard then (packetLooksLikeWireGuard, true)
  else if looksLikeDisco (geneveWire h ++ inner) then (packetLooksLikeDisco, false) else (packetLooksLikeWireGuard, false).
Proof.
  intros Hv Hp. unfold packetLooksLike.
  assert (byteAt (geneveWire h ++ inner) 0 = 0) as -> by (unfold geneveWire; by rewrite Hv).
  assert (byteAt (geneveWire h ++ inner) 1 = if gControl h then 0x80 else 0) as -> by done.
  assert (byteAt (geneveWire h ++ inner) 7 = 0) as -> by done.
  assert (((if gControl h then 0x80 else 0) =? 0x01) = false) as -> by by destruct (gControl h).
  rewrite andb_false_r, bool_decide_eq_true_2
    by (rewrite zlen_app; unfold zlen, GeneveFixedHeaderLength; rewrite geneveWire_length; lia).
  assert ((Z.land (if gControl h then 0x80 else 0) 0x3F =? 0) = true) as -> by by destruct (gControl h).
  cbn [andb Z.land Z.eqb]. rewrite (drop_app_length' (geneveWire h) inner 8) by by rewrite geneveWire_length.
  assert (be_val 0 (take 2 (drop 2 (geneveWire h ++ inner))) = gProtocol h) as ->; [|done].
  assert (take 2 (drop 2 (geneveWire h ++ inner)) = be_bytes 2 (gProtocol h)) as -> by done.
  apply be_val_bytes. cbn. lia.
Qed.

Lemma looksLike_wireguard t rest :
  1 ≤ t ≤ 4 → packetLooksLike (t :: 0 :: 0 :: 0 :: rest) = (packetLooksLikeWireGuard, false).
Proof.
  intros Ht. unfold packetLooksLike. change (byteAt (t :: 0 :: 0 :: 0 :: rest) 1 =? 0x01) with false. rewrite andb_false_r.
  change (be_val 0 (take 2 (drop 2 (t :: 0 :: 0 :: 0 :: rest)))) with 0. cbn [Z.eqb GeneveProtocolDisco].
  change (0 =? GeneveProtocolDisco) with false. change (0 =? GeneveProtocolWireGuard) with false.
  assert (looksLikeDisco (t :: 0 :: 0 :: 0 :: rest) = false) as ->; [|by case_match].
  unfold looksLikeDisco. rewrite andb_comm, bool_decide_eq_false_2; [done|]. cbn. by intros [= H].
Qed.

(** The five kinds of packets that arrive on the socket are told apart, as the
    comment on [packetLooksLike] claims: STUN bindings, disco packets and WireGuard
    packets, and disco and WireGuard packets behind the Geneve header of a relay. *)
Theorem packet_kinds :
  (∀ b, stunIs b = true → byteAt b 1 = 1 → packetLooksLike b = (packetLooksLikeSTUNBinding, false)) ∧
  (∀ rest, (32 ≤ length rest)%nat → packetLooksLike (Magic ++ rest) = (packetLooksLikeDisco, false)) ∧
  (∀ t rest, 1 ≤ t ≤ 4 → packetLooksLike (t :: 0 :: 0 :: 0 :: rest) = (packetLooksLikeWireGuard, false)) ∧
  (∀ h b0 inner out, length b0 = 8%nat → gVersion h = 0 → geneveEncode h (b0 ++ inner) = Ok out →
     (gProtocol h = GeneveProtocolDisco → looksLikeDisco inner = true →
        packetLooksLike out = (packetLooksLikeDisco, true)) ∧
     (gProtocol h = GeneveProtocolWireGuard → packetLooksLike out = (packetLooksLikeWireGuard, true)) ∧
     (0 ≤ gProtocol h < 2 ^ 16 → geneveDecode (mkGeneve 0 0 0 false) out =
        Ok (mkGeneve 0 (gProtocol h) (vniSet (vniGet (gVNI h))) (gControl h)))).
Proof.
  split_and!.
  - intros b H1 H2. unfold packetLooksLike. by rewrite H1, H2.
  - apply looksLike_disco.
  - apply looksLike_wireguard.
  - intros h b0 inner out Hb Hv Henc.
    destruct (vniIsSet (gVNI h)) eqn:Hset.
    2: { unfold geneveEncode in Henc. rewrite Hset in Henc. by case_decide. }
    rewrite geneveEncode_ok in Henc by (done || lia). assert (out = geneveWire h ++ inner) as -> by congruence. split_and!.
    + intros Hp Hd. rewrite looksLike_geneve by (rewrite ?Hp; done || lia). by rewrite Hp, Hd.
    + intros Hp. rewrite looksLike_geneve by (rewrite ?Hp; done || lia). by rewrite Hp.
    + intros Hp. rewrite geneveDecode_ok by lia. by rewrite Hv, orb_false_r.
Qed.

(** ** What is sent is what is handled *)
Section delivery.
Context {nc : NaCl} {nl : NaClLaws nc}.
Variable isInit : bytes → bool.

(** The packet, without its Geneve header. *)
Definition discoPacket (priv nonce : bytes) (pub : bytes) (plain : bytes) : bytes :=
  Magic ++ discoPublic priv ++ nonce ++ BoxSeal nonce plain (Precompute pub priv).

Lemma sendDiscoMessage_packet env nonce spare dst dstDisco m c :
  mclosed c = false → 0 ≤ spare → msg_ok m → isRelayHandshakeMsg m = false → keyZ dstDisco ≠ 0 →
  Precompute dstDisco (envPrivate env) ≠ zero32 → knownPeerDiscoKey (keyZ dstDisco) (peers c) = true →
  ∃ c', sendDiscoMessage env nonce spare dst dstDisco m c =
    Ok ((if isRelay dst then geneveWire (mkGeneve 0 GeneveProtocolDisco (eaVNI dst) false) else []) ++
        discoPacket (envPrivate env) nonce dstDisco (wire m), c').
Proof.
  intros Hcl Hsp Hm Hrel Hz Hsh Hk. unfold sendDiscoMessage. rewrite Hcl, Hrel, Hk.
  assert (∃ c', discoInfoForKnownPeerLocked (keyZ dstDisco) c = Ok c') as [c' ->].
  { unfold discoInfoForKnownPeerLocked. case_decide; [by eexists|]. rewrite decide_False by done. by eexists. }
  rewrite bind_ret. exists c'. rewrite AppendMarshal_wire by done. unfold discoSeal.
  destruct (isRelay dst) eqn:Hr.
  - change (replicate (Z.to_nat GeneveFixedHeaderLength) 0) with (replicate 8 0). rewrite <- (app_nil_r (replicate 8 0)).
    rewrite geneveEncode_ok by (done || cbn; lia). rewrite !bind_ret, (decide_False (P := _ = zero32)) by done. unfold discoPacket. by rewrite app_nil_r, <- !app_assoc.
  - rewrite !bind_ret, (decide_False (P := _ = zero32)) by done. unfold discoPacket. by rewrite <- !app_assoc.
Qed.

Lemma discoPacket_head priv nonce pub plain :
  ∃ rest, discoPacket priv nonce pub plain = Magic ++ rest ∧ (32 ≤ length rest)%nat.
Proof.
  eexists. split; [done|]. rewrite !length_app. destruct (discoPublic_array priv) as [-> _]. lia.
Qed.

(** The peer's private key opens the box. *)
Lemma handleDiscoMessage_packet env privA nonce m src (ctl : bool) dn c c' :
  length nonce = 24%nat → msg_ok m → Precompute (discoPublic privA) (envPrivate env) ≠ zero32 →
  acceptsDisco (envHasKey env) (if ctl then Some (envRelayInfo env (keyZ (discoPublic privA))) else None)
    (keyZ (discoPublic privA)) c = Ok (true, c') →
  handleDiscoMessage env (discoPacket privA nonce (discoPublic (envPrivate env)) (wire m)) src ctl dn c =
  match received m with
  | Ok dm => Ok (dispatchDisco env dm src ctl (keyZ (discoPublic privA)) dn c')
  | _ => Ok (c', [])
  end.
Proof.
  intros Hn Hm Hsh Hacc. destruct (discoPublic_array privA) as [Hl Hb]. unfold handleDiscoMessage, discoPacket.
  rewrite slice_mid, bind_ret by (unfold discoHeaderLen, keyLen; unfold zlen; lia). rewrite Hacc, bind_ret. cbn [negb].
  rewrite app_assoc, slice_from_app, bind_ret by (rewrite zlen_app; unfold discoHeaderLen, keyLen, zlen; lia).
  unfold discoOpen. rewrite (decide_False (P := _ = zero32)) by done.
  rewrite decide_False by (rewrite zlen_app; unfold zlen; lia).
  rewrite bind_ret, take_app_length', drop_app_length', Precompute_sym, BoxOpen_Seal by done.
  rewrite Parse_wire by done.
  destruct m as [tx nk pad|tx s|l|bc|bc|bc|e|cd gen|gen e]; cbn [received]; try done; by case_decide.
Qed.

(** C32: a disco message that a node sends to a peer, directly or through a relay,
    is the message the peer acts on, as far as the format carries it: addresses lose
    their zones and the mapped form of IPv4, a ping without a node key may lose padding,
    and a message with a relay endpoint but no address is dropped; [faithful] are the
    messages that arrive unchanged.  The handshake messages for a relay server are not
    meant.  The sender has to know the peer's disco key and the peer the sender's; the
    packet then passes the classification, the Geneve header is removed, the box opens
    and the message parses. *)
Theorem disco_delivered envA nonce spare dst m cA envB ipp gens noted cache cB cB' :
  mclosed cA = false → 0 ≤ spare → length nonce = 24%nat → msg_ok m → isRelayHandshakeMsg m = false →
  keyZ (discoPublic (envPrivate envB)) ≠ 0 →
  knownPeerDiscoKey (keyZ (discoPublic (envPrivate envB))) (peers cA) = true →
  Precompute (discoPublic (envPrivate envB)) (envPrivate envA) ≠ zero32 →
  acceptsDisco (envHasKey envB) None (keyZ (discoPublic (envPrivate envA))) cB = Ok (true, cB') →
  (faithful m ↔ received m = Ok m) ∧
  ∃ pkt cA', sendDiscoMessage envA nonce spare dst (discoPublic (envPrivate envB)) m cA = Ok (pkt, cA') ∧
    let src := mkEpAddr ipp (if isRelay dst then vniSet (vniGet (eaVNI dst)) else 0) in
    receiveIP isInit envB gens noted pkt ipp cache cB =
    match received m with
    | Ok dm => let '(c, acts) := dispatchDisco envB dm src false (keyZ (discoPublic (envPrivate envA))) 0 cB' in
               Ok (RxHandled, acts, cache, c)
    | _ => Ok (RxHandled, [], cache, cB')
    end.
Proof.
  intros Hcl Hsp Hn Hm Hrel Hz Hk Hsh Hacc.
  destruct (sendDiscoMessage_packet envA nonce spare dst _ m cA Hcl Hsp Hm Hrel Hz Hsh Hk) as [cA' Hsend].
  split; [by apply received_faithful|]. eexists _, cA'. split; [exact Hsend|]. cbv zeta.
  destruct (discoPacket_head (envPrivate envA) nonce (discoPublic (envPrivate envB)) (wire m)) as (rest & Hpk & Hlr).
  assert (∀ src, handleDiscoMessage envB (discoPacket (envPrivate envA) nonce (discoPublic (envPrivate envB)) (wire m)) src
                   false 0 cB =
    match received m with
    | Ok dm => Ok (dispatchDisco envB dm src false (keyZ (discoPublic (envPrivate envA))) 0 cB')
    | _ => Ok (cB', [])
    end) as Hh by (intros; apply handleDiscoMessage_packet; [done|done|by rewrite Precompute_sym|done]).
  unfold receiveIP. destruct (isRelay dst) eqn:Hr.
  - rewrite looksLike_geneve by (done || (cbn; unfold GeneveProtocolDisco; lia)). cbn [gProtocol]. rewrite Z.eqb_refl, Hpk, looksLikeDisco_intro by done.
    rewrite <- Hpk, geneveDecode_ok by (cbn; unfold GeneveProtocolDisco; lia). cbn [gProtocol gVNI gControl gVersion orb].
    rewrite slice_from_app, bind_ret by (unfold zlen; by rewrite geneveWire_length).
    rewrite Hh. destruct (received m) as [dm| |]; [|done|done]. rewrite bind_ret. by destruct (dispatchDisco _ _ _ _ _ _ _).
  - cbn [app]. rewrite Hpk at 1. rewrite looksLike_disco by done. cbn [gVNI gControl]. rewrite bind_ret, Hh.
    destruct (received m) as [dm| |]; [|done|done]. rewrite bind_ret. by destruct (dispatchDisco _ _ _ _ _ _ _).
Qed.
End delivery.

(** ** The zero disco key is never known *)
Definition noZero (σ : Peers) : Prop := nodesOfDisco (pm σ) !! 0 = None.

Lemma noZero_same σ σ' : sameCore σ σ' → noZero σ → noZero σ'.
Proof. intros [_ _ Hd _ _]. unfold noZero. by rewrite Hd. Qed.
Lemma noZero_drop dk nk σ : noZero σ → noZero (withPM (dropDisco dk nk) σ).
Proof.
  unfold noZero. intros H. cbn [pm withPM dropDisco withDisco nodesOfDisco].
  destruct (decide (dk = 0)) as [->|Hne]; [by rewrite lookup_alter_eq, H|by rewrite lookup_alter_ne].
Qed.
Lemma deleteEndpoint_disco q σ :
  nodesOfDisco (pm (deleteEndpoint q σ)) = nodesOfDisco (pm σ) ∨
  ∃ dk nk, nodesOfDisco (pm (deleteEndpoint q σ)) = nodesOfDisco (pm (withPM (dropDisco dk nk) σ)).
Proof.
  unfold deleteEndpoint. destruct (eps σ !! q) as [e|]; [|by left]. cbv zeta. unfold dropID.
  destruct (epDisco e) as [dk|]; [right; exists dk, (epKey e)|left]; case_decide; by case_match.
Qed.
Lemma noZero_delete q σ : noZero σ → noZero (deleteEndpoint q σ).
Proof.
  intros H. unfold noZero. destruct (deleteEndpoint_disco q σ) as [->|(dk & nk & ->)]; [done|by apply noZero_drop].
Qed.

Lemma infoFor_disco q nk σ : nodesOfDisco (pm (infoFor q nk σ).2) = nodesOfDisco (pm σ).
Proof. unfold infoFor. by destruct (byNodeKey (pm σ) !! nk). Qed.

Lemma noZero_upsert q old states σ σ' :
  (∀ e, eps σ !! q = Some e → epDisco e ≠ Some 0) → noZero σ → upsertEndpoint q old states σ = Ok σ' → noZero σ'.
Proof.
  intros He Hz. unfold upsertEndpoint. destruct (eps σ !! q) as [e|]; [|done]. specialize (He e eq_refl).
  case_decide; [done|]. pose proof (infoFor_disco q (epKey e) σ) as Hi. destruct (infoFor q (epKey e) σ) as [l σ1]. cbn in Hi.
  set (σ2 := if decide _ then _ else _). assert (noZero σ2) as H2.
  { unfold σ2. case_decide; [|apply noZero_drop]; unfold noZero in *; cbn; by rewrite Hi. }
  clearbody σ2. destruct (epWGOnly e).
  - intros [= <-]. eapply noZero_same; [|exact H2]. apply setAll_core.
  - destruct (epDisco e) as [dk|]; [|done]. intros [= <-]. unfold noZero in *. cbn.
    rewrite lookup_insert_ne; [done|]. intros ->. done.
Qed.

Lemma updateDiscoKey_nonzero q dk σ e : eps (updateDiscoKey q dk σ) !! q = Some e → epDisco e ≠ Some 0.
Proof.
  unfold updateDiscoKey. cbn [eps]. rewrite lookup_alter_eq. destruct (eps σ !! q); [|done].
  cbn. intros [= <-]. cbn. case_decide; congruence.
Qed.

Lemma noZero_upsertPeer n states σ σ' : noZero σ → upsertPeerLocked n states σ = Ok σ' → noZero σ'.
Proof.
  intros Hz. unfold upsertPeerLocked. case_decide; [by intros [= <-]|]. case_decide; [by intros [= <-]|]. cbv zeta.
  assert (∀ σ, noZero σ → ∀ σ', (if decide (is_Some (endpointForNodeKey (nKey n) σ)) then Ok σ
      else if decide (nDisco n = 0 ∧ nWGOnly n = false) then Ok σ
      else upsertEndpoint (fresh (dom (eps σ))) 0 states
             (updateDiscoKey (fresh (dom (eps σ))) (nDisco n)
                (mkPeers (<[fresh (dom (eps σ)) := mkEndpoint (nID n) (nKey n) (nWGOnly n) None]> (eps σ)) (infos σ) (pm σ)))) =
      Ok σ' → noZero σ') as Hcreate.
  { clear. intros σ Hz σ'. case_decide; [by intros [= <-]|]. case_decide; [by intros [= <-]|].
    apply noZero_upsert; [intros e; apply updateDiscoKey_nonzero|done]. }
  destruct (endpointForNodeID (nID n) σ) as [q|]; [|by apply Hcreate].
  destruct (decide (epKey <$> eps σ !! q = Some (nKey n))); [|by apply Hcreate, noZero_delete].
  destruct (decide (nDisco n = 0 ∧ nWGOnly n = false)); [intros [= <-]; by apply noZero_delete|].
  apply noZero_upsert; [intros ?; apply updateDiscoKey_nonzero|done].
Qed.

Lemma noZero_upsertAll ns : ∀ σ σ', noZero σ → upsertAll ns σ = Ok σ' → noZero σ'.
Proof.
  induction ns as [|[n st] ns IH]; cbn [upsertAll]; intros σ σ' Hz; [by intros [= <-]|].
  intros (σ1 & H1 & H2)%bind_ok. eapply IH; [|done]. by eapply noZero_upsertPeer.
Qed.
Lemma noZero_deleteStale keep ord : ∀ σ, noZero σ → noZero (deleteStale keep ord σ).
Proof.
  induction ord as [|nk ord IH]; intros σ Hz; [done|]. cbn. apply IH.
  destruct (byNodeKey (pm σ) !! nk ≫= epOf σ); [|done]. destruct (eps σ !! _); [|done]. case_decide; [done|by apply noZero_delete].
Qed.

Lemma mstep_noZero c c' : noZero (peers c) → mstep c c' → noZero (peers c').
Proof.
  intros Hz. destruct 1 as [n states c c' H|nid c|flags ns ord c b c' H|nk dk states c c' H|a nk c|hasKey relay sender c b c' H].
  - apply UpsertPeer_peers in H as [->|[H _]]; [done|]. by eapply noZero_upsertPeer.
  - destruct (RemovePeer_peers nid c) as [->|(q & _ & ->)]; [done|by apply noZero_delete].
  - unfold updateNodes in H. destruct (mclosed c); [by injection H as _ <-|].
    destruct (unchanged flags ns c); [by injection H as _ <-|].
    apply bind_ok in H as (σ' & H & [= _ <-]). cbn [peers]. apply noZero_upsertAll in H; [|done].
    case_decide; [done|by apply noZero_deleteStale].
  - unfold HandleDiscoKeyAdvertisement in H. destruct (endpointForNodeKey nk (peers c)) as [q|]; [|by injection H as <-].
    case_decide; [by injection H as <-|]. apply bind_ok in H as (c1 & H1 & (σ' & H2 & [= <-])%bind_ok).
    destruct (discoInfoForKnownPeerLocked_ok _ _ _ H1) as [Hp _]. rewrite Hp in H2. cbn [peers withPeers].
    eapply (noZero_upsert _ _ _ (updateDiscoKey q dk (peers c))); [intros e; apply updateDiscoKey_nonzero|exact Hz|exact H2].
  - cbn [peers withPeers]. eapply noZero_same; [apply setNodeKeyForEpAddr_core|done].
  - unfold acceptsDisco in H. destruct (mclosed c); [by injection H as _ <-|]. destruct hasKey; [|by injection H as _ <-].
    destruct relay; [by injection H as _ <-|]. destruct (knownPeerDiscoKey sender (peers c)); [|by injection H as _ <-].
    apply bind_ok in H as (c1 & H & [= _ <-]). destruct (discoInfoForKnownPeerLocked_ok _ _ _ H) as [-> _]. done.
Qed.

Lemma reachable_noZero c : rtc mstep newMConn c → noZero (peers c).
Proof.
  intros H. assert (∀ c0, rtc mstep c0 c → noZero (peers c0) → noZero (peers c)) as Hind.
  { clear H. induction 1; [done|]. intros. eauto using mstep_noZero. }
  by apply (Hind newMConn H).
Qed.




Section safety.
Context {nc : NaCl} {nl : NaClLaws nc}.
Variable env : DiscoEnv.





End safety.


Lemma acceptsDisco_total c hasKey relay dk :
  cwf c → noZero (peers c) →
  ∃ b c', acceptsDisco hasKey relay dk c = Ok (b, c') ∧ peers c' = peers c.
Proof.
  intros [_ Hz] Hnz. unfold acceptsDisco. destruct (mclosed c); [by eexists _, _|]. destruct hasKey; [|by eexists _, _].
  destruct relay; [by eexists _, _|]. destruct (knownPeerDiscoKey dk (peers c)) eqn:Hk; [|by eexists _, _]. cbn [negb].
  assert (dk ≠ 0) as Hd. { intros ->. unfold knownPeerDiscoKey in Hk. apply bool_decide_eq_true in Hk. by rewrite Hnz in Hk. }
  unfold discoInfoForKnownPeerLocked. case_decide; [by eexists _, _|]. rewrite decide_False by done. by eexists _, _.
Qed.

Section safety_claim.
Context {nc : NaCl} {nl : NaClLaws nc}.







End safety_claim.

(** ** Concrete runs *)
Definition toyPublic (k : bytes) : bytes := be_bytes 32 (be_val 0 k).
#[export] Instance toyNaCl : NaCl := {
  discoPublic := toyPublic; Precompute := λ _ _, replicate 32 1;
  BoxSeal := λ _ m _, m; BoxOpen := λ _ b _, Some b
}.
#[export] Instance toyNaClLaws : NaClLaws toyNaCl.
Proof.
  split; [intros k; split; [apply be_bytes_length|apply be_bytes_ok]|done|done|by intros n b k m Hb [= <-]].
Qed.

Definition exDiscoEnv : DiscoEnv :=
  mkDiscoEnv (be_bytes 32 201) true (λ _, false) false (λ dk, if decide (dk = 201) then [101] else [])
    (λ _, false) (λ _, PongUnknown) (λ _, false) (λ _, false).
Definition exTx : bytes := replicate 12 5.
Definition exSrc : epAddr := mkEpAddr (mkAddrPort (Addr4 9) 9) 0.
Definition exPing : bytes := Magic ++ be_bytes 32 201 ++ replicate 24 0 ++ wire (Ping exTx zero32 0).

Lemma packet_kinds_witness :
  packetLooksLike exPing = (packetLooksLikeDisco, false) ∧
  packetLooksLike [1; 0; 0; 0; 7] = (packetLooksLikeWireGuard, false).
Proof.
  destruct packet_kinds as (_ & H1 & H2 & _). split; [apply H1; vm_compute; lia|apply H2; lia].
Defined.

Lemma disco_delivered_witness :
  ∃ pkt cA', sendDiscoMessage exDiscoEnv (replicate 24 0) 0 exSrc (be_bytes 32 201) (Ping exTx zero32 0) exConn = Ok (pkt, cA') ∧
    ∃ c acts, receiveIP (λ _, false) exDiscoEnv (λ _, 0) (λ _, false) pkt (mkAddrPort (Addr4 9) 9) (mkCache exSrc 0 None) exConn =
      Ok (RxHandled, acts, mkCache exSrc 0 None, c).
Proof.
  destruct (acceptsDisco_total exConn true None 201) as (b & cB' & Hacc & _);
    [apply reachable_cwf, exConn_reachable|apply reachable_noZero, exConn_reachable|].
  assert (match acceptsDisco true None 201 exConn with Ok (b, _) => b | _ => false end = true) as Hb by by vm_compute.
  rewrite Hacc in Hb. subst b.
  destruct (disco_delivered (λ _, false) exDiscoEnv (replicate 24 0) 0 exSrc (Ping exTx zero32 0) exConn exDiscoEnv
              (mkAddrPort (Addr4 9) 9) (λ _, 0) (λ _, false) (mkCache exSrc 0 None) exConn cB') as (_ & pkt & cA' & Hs & Hr).
  - by vm_compute.
  - done.
  - done.
  - split; [split; [done|]|split; [apply zero32_array|done]]. apply Forall_replicate. unfold byte_ok. lia.
  - done.
  - by vm_compute.
  - by vm_compute.
  - by vm_compute.
  - exact Hacc.
  - exists pkt, cA'. split; [exact Hs|]. cbv zeta in Hr. rewrite Hr. cbn [received].
    destruct (dispatchDisco _ _ _ _ _ _ _) as [c acts]. by exists c, acts.
Defined.

