(* ===== verification/Tsmp.v ===== *)
(** * TSMP messages

    [net/packet/tsmp.go]: the messages Tailscale nodes send each other inside the
    tunnel as packets of IP protocol 99: rejected connections, pings and pongs, and
    advertisements of disco keys. *)

From S2P Require Import Prelude GoStd Bytes NetIP Packet Headers Disco.

Definition TSMPTypeRejectedConn : Z := 33.       (* '!' *)
Definition TSMPTypePing : Z := 112.              (* 'p' *)
Definition TSMPTypePong : Z := 111.              (* 'o' *)
Definition TSMPTypeDiscoAdvertisement : Z := 97. (* 'a' *)

Definition TailscaleRejectReasonNone : Z := 0.
Definition RejectedDueToACLs : Z := 65.                          (* 'A' *)
Definition RejectedDueToShieldsUp : Z := 83.                     (* 'S' *)
Definition RejectedDueToIPForwarding : Z := 70.                  (* 'F' *)
Definition RejectedDueToHostFirewall : Z := 87.                  (* 'W' *)
Definition RejectedDueToUnknownAppConnectorTransitIP : Z := 84.  (* 'T' *)

(** ** Rejected connections *)
Record TailscaleRejectedHeader := mkRejected {
  rjIPSrc : Addr; rjIPDst : Addr;
  rjSrc : AddrPort; rjDst : AddrPort;
  rjProto : Z; rjReason : Z;
  MaybeBroken : bool
}.
Definition rejectFlagBitMaybeBroken : Z := 0x1.
Definition hasFlags (h : TailscaleRejectedHeader) : bool := MaybeBroken h.

Definition rejectedLen (h : TailscaleRejectedHeader) : Z :=
  let v := 1 + 1 + 1 + 2 * 2 in
  let v := if Is4 (rjIPSrc h) then v + ip4HeaderLength
           else if Is6 (rjIPSrc h) then v + ip6HeaderLength else v in
  if hasFlags h then v + 1 else v.

(** The IP header [iph], whose error is not looked at, and the offset behind it. *)
Definition rejectedIP {H} `{Header H} (iph : H) (buf : bytes) : res HdrErr (bytes * Z) :=
  buf ← ignoreErr buf (Marshal iph buf);
  o ← advanceBy buf 0 (HLen iph);
  Ok (buf, o).

Definition rejectedMarshal (h : TailscaleRejectedHeader) (buf : bytes) : res HdrErr bytes :=
  if zlen buf <? rejectedLen h then Err errSmallBuffer
  else if maxPacketLength <? zlen buf then Err errLargePacket
  else
    '(buf, o) ← (if Is4 (ap_addr (rjSrc h)) then rejectedIP (mkIP4Header TSMP 0 (rjIPSrc h) (rjIPDst h)) buf
                 else if Is6 (ap_addr (rjSrc h)) then rejectedIP (mkIP6Header TSMP 0 (rjIPSrc h) (rjIPDst h)) buf
                 else Err errBogusSrcIP);
    buf ← put buf o [TSMPTypeRejectedConn];
    buf ← put buf (o + 1) [u8 (rjProto h)];
    buf ← put buf (o + 2) [rjReason h];
    buf ← put_be 2 buf (o + 3) (ap_port (rjSrc h));
    buf ← put_be 2 buf (o + 5) (ap_port (rjDst h));
    if hasFlags h then
      let flags := if MaybeBroken h then Z.lor 0 rejectFlagBitMaybeBroken else 0 in
      put buf (o + 7) [flags]
    else Ok buf.

#[export] Instance Rejected_Header : Header TailscaleRejectedHeader :=
  {| HLen := rejectedLen; Marshal := rejectedMarshal; WriteChecksum := None |}.

Definition AsTailscaleRejectedHeader (pp : Parsed) : res () (option TailscaleRejectedHeader) :=
  p ← Payload pp;
  if zlen p <? 7 then Ok None
  else
    t ← idx p 0;
    if negb (t =? TSMPTypeRejectedConn) then Ok None
    else
      proto ← idx p 1;
      reason ← idx p 2;
      sp ← get_be 2 p 3;
      dp ← get_be 2 p 5;
      broken ← (if 7 <? zlen p then flags ← idx p 7; Ok (negb (Z.land flags rejectFlagBitMaybeBroken =? 0))
                else Ok false);
      Ok (Some (mkRejected (ap_addr (Src pp)) (ap_addr (Dst pp)) (mkAddrPort (ap_addr (Dst pp)) sp)
                  (mkAddrPort (ap_addr (Src pp)) dp) proto reason broken)).

(** ** Pings *)
Definition AsTSMPPing (pp : Parsed) : res () (option bytes) :=
  if negb (IPProto pp =? TSMP) then Ok None
  else
    p ← Payload pp;
    if zlen p <? 9 then Ok None
    else
      t ← idx p 0;
      if negb (t =? TSMPTypePing) then Ok None
      else d ← slice_from p 1; Ok (Some (copyFixed 8 d)).

(** A [Header] that is an IPv4 or an IPv6 header. *)
Definition IPHeader : Type := IP4Header + IP6Header.
#[export] Instance IPHeader_Header : Header IPHeader :=
  {| HLen h := match h with inl h => HLen h | inr h => HLen h end;
     Marshal h := match h with inl h => Marshal h | inr h => Marshal h end;
     WriteChecksum := None |}.

Record TSMPPongReply := mkPong { pgIPHeader : option IPHeader; pgData : bytes; PeerAPIPort : Z }.

Definition AsTSMPPong (pp : Parsed) : res () (option TSMPPongReply) :=
  if negb (IPProto pp =? TSMP) then Ok None
  else
    p ← Payload pp;
    if zlen p <? 9 then Ok None
    else
      t ← idx p 0;
      if negb (t =? TSMPTypePong) then Ok None
      else
        d ← slice_from p 1;
        port ← (if 11 <=? zlen p then get_be 2 p 9 else Ok 0);
        Ok (Some (mkPong None (copyFixed 8 d) port)).

(** The pong with its IP header; a nil header would panic. *)
Definition pongReplyMarshal (ip : IPHeader) (data : bytes) (port : Z) (buf : bytes) : res HdrErr bytes :=
  if zlen buf <? HLen ip + 11 then Err errSmallBuffer
  else
    buf ← Marshal ip buf;
    o ← advanceBy buf 0 (HLen ip);
    buf ← put buf o [TSMPTypePong];
    buf ← copyTo buf (o + 1) data;
    put_be 2 buf (o + 9) port.

#[export] Instance Pong_Header : Header TSMPPongReply :=
  {| HLen h := match pgIPHeader h with Some ip => HLen ip + 11 | None => 0 end;
     Marshal h buf := match pgIPHeader h with
                      | Some ip => pongReplyMarshal ip (pgData h) (PeerAPIPort h) buf
                      | None => Panic
                      end;
     WriteChecksum := None |}.

(** ** Disco key advertisements *)
Record TSMPDiscoKeyAdvertisement := mkAdvert { adSrc : Addr; adDst : Addr; adKey : bytes }.

Definition advertMarshal (ka : TSMPDiscoKeyAdvertisement) : res HdrErr bytes :=
  let iph : IPHeader :=
    if Is4 (adSrc ka) then inl (mkIP4Header TSMP 0 (adSrc ka) (adDst ka))
    else inr (mkIP6Header TSMP 0 (adSrc ka) (adDst ka)) in
  let payload := [TSMPTypeDiscoAdvertisement] ++ adKey ka in
  if negb (zlen payload =? 33) then Err (errPayloadLength (zlen payload))
  else Generate iph payload.

Definition AsTSMPDiscoAdvertisement (pp : Parsed) : res () (option TSMPDiscoKeyAdvertisement) :=
  if negb (IPProto pp =? TSMP) then Ok None
  else
    p ← Payload pp;
    if zlen p <? 33 then Ok None
    else
      t ← idx p 0;
      if negb (t =? TSMPTypeDiscoAdvertisement) then Ok None
      else k ← slice p 1 33; Ok (Some (mkAdvert (ap_addr (Src pp)) (ap_addr (Dst pp)) k)).
