(* ===== verification/TsmpThms.v ===== *)
(** * Correctness of TSMP messages

    What one node marshals as a TSMP message the other decodes from the packet, over
    IPv4 and IPv6; the accessors never panic on what the tunnel delivers. *)

From S2P Require Import Prelude GoStd Bytes NetIP Packet PacketThms Headers HeadersThms Headers6Thms InboundThms Disco DiscoThms Tsmp.

(** ** IP headers of TSMP packets *)

(** Two addresses of the same family, as packets carry them. *)
Inductive ip_pair : Addr → Addr → Prop :=
  | pair4 s d : 0 ≤ s < 2 ^ 32 → 0 ≤ d < 2 ^ 32 → ip_pair (Addr4 s) (Addr4 d)
  | pair6 s d : 0 ≤ s < 2 ^ 128 → 0 ≤ d < 2 ^ 128 → ip_pair (Addr6 s "") (Addr6 d "").

Lemma ip_pair_sym a b : ip_pair a b → ip_pair b a.
Proof. intros []; by constructor. Qed.

Inductive hdr_for (src dst : Addr) : IPHeader → Prop :=
  | for4 id : Is4 src = true → hdr_for src dst (inl (mkIP4Header TSMP id src dst))
  | for6 id : Is6 src = true → hdr_for src dst (inr (mkIP6Header TSMP id src dst)).

(** A packet that was decoded as a TSMP message. *)
Record tsmp_parsed (b : bytes) (src dst : Addr) (payload : bytes) (q : Parsed) : Prop := mkTsmpParsed {
  tp_buf : pb q = b;
  tp_version : IPVersion q = if Is4 src then 4 else 6;
  tp_room : (if Is4 src then 20 else 40) ≤ zlen b;
  tp_proto : IPProto q = TSMP;
  tp_src : ap_addr (Src q) = src;
  tp_dst : ap_addr (Dst q) = dst;
  tp_whole : plength q = zlen b;
  tp_payload : Payload q = Ok payload
}.

Lemma AddrFrom16_As16 v : 0 ≤ v < 2 ^ 128 → AddrFrom16 (As16 (Addr6 v "")) = Addr6 v "".
Proof. intros Hv. unfold AddrFrom16. cbn [As16]. by rewrite be_val_bytes. Qed.

Lemma tsmp4_decode s d id len c payload q0 :
  0 ≤ s < 2 ^ 32 → 0 ≤ d < 2 ^ 32 → len = 20 + zlen payload → 7 ≤ zlen payload → len ≤ 65535 →
  let b := ip4Raw (mkIP4Header TSMP id (Addr4 s) (Addr4 d)) (be_bytes 4 s) (be_bytes 4 d) len c ++ payload in
  ∃ q, Decode b q0 = Ok q ∧ tsmp_parsed b (Addr4 s) (Addr4 d) payload q.
Proof.
  intros Hs Hd -> H7 Hl b.
  assert (length (ip4Raw (mkIP4Header TSMP id (Addr4 s) (Addr4 d)) (be_bytes 4 s) (be_bytes 4 d) (20 + zlen payload) c)
    = 20%nat) as L20 by (unfold ip4Raw; by rewrite !length_app, !be_bytes_length).
  assert (zlen b = 20 + zlen payload) as Hb by (unfold b; rewrite zlen_app; unfold zlen at 1; rewrite L20; lia).
  unfold b at 1. rewrite decode_ip4Raw by done. fold b. cbn [IP4Proto].
  unfold decode4Sub. cbn [IPProto v4parsed setSubofs setIPs setLength setProto].
  do 5 (change (TSMP =? _) with false at 1; cbn match). change (TSMP =? TSMP) with true. cbn match.
  rewrite (proj2 (Z.ltb_ge _ _)) by (unfold minTSMPSize; lia). eexists. split; [done|]. split; try done; [cbn [Is4]; lia|].
  apply (Payload_drop _ 20); [done| |unfold zlen in *; cbn in *; lia|]; cbn -[b]; [done|].
  unfold b. by rewrite drop_app_ge, L20 by lia.
Qed.

Lemma tsmp6_decode s d id payload q0 :
  0 ≤ s < 2 ^ 128 → 0 ≤ d < 2 ^ 128 → 7 ≤ zlen payload → 40 + zlen payload ≤ 65535 →
  let ip := mkIP6Header TSMP id (Addr6 s "") (Addr6 d "") in
  let b := ip6Raw ip (As16 (Addr6 s "")) (As16 (Addr6 d "")) (zlen payload) ++ payload in
  ∃ q, Decode b q0 = Ok q ∧ tsmp_parsed b (Addr6 s "") (Addr6 d "") payload q.
Proof.
  intros Hs Hd H7 Hl ip b.
  pose proof (ip6Raw_length ip (As16 (Addr6 s "")) (As16 (Addr6 d "")) (zlen payload) (As16_length _) (As16_length _)) as L40.
  assert (zlen b = 40 + zlen payload) as Hb by (unfold b; rewrite zlen_app; unfold zlen at 1; rewrite L40; lia).
  destruct (decode_ip6Raw ip (As16 (Addr6 s "")) (As16 (Addr6 d "")) payload q0) as [HD Hsl];
    [apply As16_length..|lia|done|]. fold b in HD, Hsl. rewrite HD, !AddrFrom16_As16 by done.
  unfold decode6Sub. change (subofs (v6parsed _ _ _ _ _ _)) with 40. rewrite Hsl, bind_ret.
  change (IPProto (v6parsed _ _ _ _ _ _)) with TSMP.
  do 4 (change (TSMP =? _) with false at 1; cbn match). change (TSMP =? TSMP) with true. cbn match.
  rewrite (proj2 (Z.ltb_ge _ _)) by (unfold minTSMPSize; lia). eexists. split; [done|]. split; try done; [cbn [Is4]; lia|].
  apply (Payload_drop _ 40); [done| |unfold zlen in *; cbn -[b] in *; lia|]; cbn -[b]; [done|].
  unfold b. by rewrite drop_app_ge, L40 by lia.
Qed.

(** The header a marshaller writes makes a TSMP packet of any payload of the length
    it was written for. *)
Lemma tsmp_marshal src dst (h : IPHeader) (hd rest : bytes) :
  ip_pair src dst → hdr_for src dst h → zlen hd = HLen h → 7 ≤ zlen rest → HLen h + zlen rest ≤ 65535 →
  ∃ hdr, zlen hdr = HLen h ∧ Marshal h (hd ++ rest) = Ok (hdr ++ rest) ∧
    ∀ payload q0, zlen payload = zlen rest →
      ∃ q, Decode (hdr ++ payload) q0 = Ok q ∧ tsmp_parsed (hdr ++ payload) src dst payload q.
Proof.
  intros Hp Hh Hhd H7 Hl. destruct Hp as [s d Hs Hd|s d Hs Hd], Hh as [id Hf|id Hf]; try done.
  - change (HLen _) with 20 in *.
    change (Marshal _ (hd ++ rest)) with (ip4Marshal (mkIP4Header TSMP id (Addr4 s) (Addr4 d)) (hd ++ rest)).
    eexists. split; [|split; [eapply ip4Marshal_bytes; [done..|unfold zlen in *; lia|lia]|]].
    + unfold zlen. by rewrite ip4Bytes_length by apply be_bytes_length.
    + intros payload q0 Hz. unfold ip4Bytes. apply tsmp4_decode; done || lia.
  - change (HLen _) with 40 in *.
    change (Marshal _ (hd ++ rest)) with (ip6Marshal (mkIP6Header TSMP id (Addr6 s "") (Addr6 d "")) (hd ++ rest)).
    eexists. split; [|split; [eapply ip6Marshal_bytes; [unfold zlen in *; lia|lia]|]].
    + unfold zlen. by rewrite ip6Raw_length by apply As16_length.
    + intros payload q0 Hz. rewrite <- Hz. apply tsmp6_decode; done || lia.
Qed.

Lemma put_cursor {E} (pre rest s : bytes) p :
  p = zlen pre → (length s ≤ length rest)%nat →
  @put E (pre ++ rest) p s = Ok ((pre ++ s) ++ drop (length s) rest).
Proof.
  intros -> Hl. rewrite <- (take_drop (length s) rest) at 1.
  rewrite put_field; [by rewrite app_assoc|done|]. rewrite length_take. lia.
Qed.

Lemma hdr_len src dst h : hdr_for src dst h → HLen h = 20 ∨ HLen h = 40.
Proof. intros []; auto. Qed.

(** ** Reading a payload *)
Lemma idx_head {E} x (c : bytes) : @idx E Z (x :: c) 0 = Ok x.
Proof. by apply idx_const. Qed.
Lemma slice_from_tail {E} x (c : bytes) : @slice_from E Z (x :: c) 1 = Ok c.
Proof. rewrite (slice_from_l [x] c) by (unfold zlen; cbn [length]; lia). done. Qed.
Lemma copyFixed_exact n (d c : bytes) : length d = n → copyFixed n (d ++ c) = d.
Proof.
  intros <-. unfold copyFixed. rewrite take_app_length, length_app.
  replace (length d - (length d + length c))%nat with 0%nat by lia. apply app_nil_r.
Qed.

Ltac tlen :=
  unfold zlen in *;
  repeat rewrite ?length_app, ?length_drop, ?length_replicate, ?be_bytes_length, ?length_cons; cbn [length]; lia.

(** ** Pongs *)
Definition pongPayload (data : bytes) (port : Z) : bytes := [TSMPTypePong] ++ data ++ be_bytes 2 port.

Lemma pong_generate src dst h data port :
  ip_pair src dst → hdr_for src dst h → length data = 8%nat → 0 ≤ port < 65536 →
  ∃ b, Generate (mkPong (Some h) data port) [] = Ok b ∧ zlen b = HLen h + 11 ∧
    ∀ q0, ∃ q, Decode b q0 = Ok q ∧ tsmp_parsed b src dst (pongPayload data port) q.
Proof.
  intros Hp Hh Hd Hport. pose proof (hdr_len _ _ _ Hh) as Hlen.
  destruct (tsmp_marshal src dst h (replicate (Z.to_nat (HLen h)) 0) (replicate 11 0)) as (hdr & Hhdr & HM & HD);
    [done|done|tlen|tlen|tlen|].
  unfold Generate. change (HLen (mkPong (Some h) data port)) with (HLen h + 11).
  change (Marshal (mkPong (Some h) data port)) with (pongReplyMarshal h data port).
  rewrite app_nil_r, Z2Nat.inj_add, replicate_add by lia. change (Z.to_nat 11) with 11%nat.
  unfold pongReplyMarshal. rewrite (proj2 (Z.ltb_ge _ _)) by tlen.
  rewrite HM, bind_ret. erewrite advanceBy_ok; [rewrite bind_ret|reflexivity|tlen].
  rewrite put_cursor, bind_ret by tlen. rewrite copyTo_cursor, bind_ret by tlen. rewrite put_be_cursor by tlen.
  rewrite !drop_drop, Hd, drop_ge by tlen. rewrite app_nil_r, <- !app_assoc.
  cbn [ignoreErr]. rewrite bind_ret. change WriteChecksum with (@None (TSMPPongReply → bytes → res HdrErr bytes)).
  exists (hdr ++ pongPayload data port). split; [done|].
  assert (zlen (pongPayload data port) = 11) as Hz
    by (unfold pongPayload, zlen; rewrite !length_app, Hd, be_bytes_length; done).
  split; [rewrite zlen_app, Hz; lia|]. intros q0. by apply HD.
Qed.

Lemma AsTSMPPong_pong b src dst data port q :
  tsmp_parsed b src dst (pongPayload data port) q → length data = 8%nat → 0 ≤ port < 65536 →
  AsTSMPPing q = Ok None ∧ AsTSMPDiscoAdvertisement q = Ok None ∧ AsTSMPPong q = Ok (Some (mkPong None data port)).
Proof.
  intros [_ _ _ Hp _ _ _ HP] Hd Hport. unfold AsTSMPPing, AsTSMPDiscoAdvertisement, AsTSMPPong.
  rewrite Hp, HP, !bind_ret. change (negb (TSMP =? TSMP)) with false. cbn match.
  assert (zlen (pongPayload data port) = 11) as Hz
    by (unfold pongPayload, zlen; rewrite !length_app, Hd, be_bytes_length; done).
  rewrite Hz. change (11 <? 9) with false. change (11 <? 33) with true. change (11 <=? 11) with true. cbn match.
  unfold pongPayload. cbn [app]. rewrite idx_head, slice_from_tail, !bind_ret. change (TSMPTypePong =? TSMPTypePing) with false.
  change (TSMPTypePong =? TSMPTypePong) with true. cbn [negb]. split_and!; [done..|].
  rewrite copyFixed_exact by done.
  change (TSMPTypePong :: data ++ be_bytes 2 port) with ((TSMPTypePong :: data) ++ be_bytes 2 port).
  rewrite <- (app_nil_r (be_bytes 2 port)), get_be_mid by (done || unfold zlen; rewrite ?length_cons; lia). done.
Qed.

(** ** Pings *)
Definition pingPayload (data : bytes) : bytes := [TSMPTypePing] ++ data.

Lemma AsTSMPPing_ping b src dst data q :
  tsmp_parsed b src dst (pingPayload data) q → length data = 8%nat → AsTSMPPing q = Ok (Some data).
Proof.
  intros [_ _ _ Hp _ _ _ HP] Hd. unfold AsTSMPPing. rewrite Hp, HP, !bind_ret.
  change (negb (TSMP =? TSMP)) with false. cbn match. unfold pingPayload, zlen. cbn [app length]. rewrite Hd.
  change (Z.of_nat 9 <? 9) with false. cbn match. rewrite idx_head, slice_from_tail, !bind_ret.
  change (negb (TSMPTypePing =? TSMPTypePing)) with false. cbn match.
  rewrite <- (app_nil_r data) at 1. by rewrite copyFixed_exact.
Qed.

(** A header with a payload behind it, as [Generate] of an IP header makes it. *)
Lemma tsmp_generate src dst h payload :
  ip_pair src dst → hdr_for src dst h → 7 ≤ zlen payload → HLen h + zlen payload ≤ 65535 →
  ∃ b, Generate h payload = Ok b ∧ zlen b = HLen h + zlen payload ∧
    ∀ q0, ∃ q, Decode b q0 = Ok q ∧ tsmp_parsed b src dst payload q.
Proof.
  intros Hp Hh H7 Hl. pose proof (hdr_len _ _ _ Hh) as Hlen.
  destruct (tsmp_marshal src dst h (replicate (Z.to_nat (HLen h)) 0) payload) as (hdr & Hhdr & HM & HD);
    [done|done|tlen|done|done|].
  unfold Generate. rewrite HM. cbn [ignoreErr]. rewrite bind_ret. exists (hdr ++ payload).
  split; [done|]. split; [rewrite zlen_app; lia|]. intros q0. by apply HD.
Qed.

(** ** Disco key advertisements *)
Definition advertPayload (k : bytes) : bytes := [TSMPTypeDiscoAdvertisement] ++ k.

Lemma advert_generate src dst k :
  ip_pair src dst → length k = 32%nat →
  ∃ b, advertMarshal (mkAdvert src dst k) = Ok b ∧ zlen b ≤ 73 ∧
    ∀ q0, ∃ q, Decode b q0 = Ok q ∧ tsmp_parsed b src dst (advertPayload k) q.
Proof.
  intros Hp Hk. unfold advertMarshal. cbn [adSrc adDst adKey].
  set (h := if Is4 src then _ else _ : IPHeader).
  assert (hdr_for src dst h) as Hh by (by destruct Hp; constructor).
  assert (zlen ([TSMPTypeDiscoAdvertisement] ++ k) = 33) as Hz by (unfold zlen; rewrite length_app, Hk; done).
  rewrite Hz. change (negb (33 =? 33)) with false. cbn match. pose proof (hdr_len _ _ _ Hh) as Hlen.
  destruct (tsmp_generate src dst h (advertPayload k)) as (b & HG & Hb & HD); [done|done|unfold advertPayload; lia..|].
  unfold advertPayload in Hb. exists b. split; [done|]. split; [lia|]. done.
Qed.

Lemma AsTSMPDiscoAdvertisement_advert b src dst k q :
  tsmp_parsed b src dst (advertPayload k) q → length k = 32%nat →
  AsTSMPPing q = Ok None ∧ AsTSMPDiscoAdvertisement q = Ok (Some (mkAdvert src dst k)).
Proof.
  intros [_ _ _ Hp Hs Hd _ HP] Hk. unfold AsTSMPPing, AsTSMPDiscoAdvertisement.
  rewrite Hp, HP, !bind_ret. change (negb (TSMP =? TSMP)) with false. cbn match.
  assert (zlen (advertPayload k) = 33) as Hz by (unfold advertPayload, zlen; rewrite length_app, Hk; done).
  rewrite Hz. change (33 <? 9) with false. change (33 <? 33) with false. cbn match.
  unfold advertPayload in *. cbn [app] in *. rewrite idx_head, !bind_ret.
  change (TSMPTypeDiscoAdvertisement =? TSMPTypePing) with false.
  change (TSMPTypeDiscoAdvertisement =? TSMPTypeDiscoAdvertisement) with true. cbn [negb]. split; [done|].
  rewrite (slice_const _ k), bind_ret by (lia || (cbn [drop Z.to_nat Pos.to_nat]; apply take_ge; rewrite Hk; done)).
  by rewrite Hs, Hd.
Qed.

(** ** Rejected connections *)
Definition rejectedPayload (h : TailscaleRejectedHeader) : bytes :=
  [TSMPTypeRejectedConn; rjProto h; rjReason h] ++ be_bytes 2 (ap_port (rjSrc h)) ++ be_bytes 2 (ap_port (rjDst h)) ++
  (if MaybeBroken h then [rejectFlagBitMaybeBroken] else []).

(** A rejection that a node tells the other end of the flow. *)
Record rejected_ok (h : TailscaleRejectedHeader) : Prop := mkRejectedOk {
  ro_ips : ip_pair (rjIPSrc h) (rjIPDst h);
  ro_src : ap_addr (rjSrc h) = rjIPDst h;
  ro_dst : ap_addr (rjDst h) = rjIPSrc h;
  ro_sport : 0 ≤ ap_port (rjSrc h) < 65536;
  ro_dport : 0 ≤ ap_port (rjDst h) < 65536;
  ro_proto : byte_ok (rjProto h);
  ro_reason : byte_ok (rjReason h)
}.

Definition rejectedIPHeader (h : TailscaleRejectedHeader) : IPHeader :=
  if Is4 (rjIPSrc h) then inl (mkIP4Header TSMP 0 (rjIPSrc h) (rjIPDst h))
  else inr (mkIP6Header TSMP 0 (rjIPSrc h) (rjIPDst h)).

Lemma rejectedPayload_zlen h : zlen (rejectedPayload h) = if MaybeBroken h then 8 else 7.
Proof. unfold rejectedPayload, zlen. rewrite !length_app, !be_bytes_length. by destruct (MaybeBroken h). Qed.

Lemma rejected_generate h :
  rejected_ok h →
  ∃ b, Generate h [] = Ok b ∧ zlen b ≤ 48 ∧
    ∀ q0, ∃ q, Decode b q0 = Ok q ∧ tsmp_parsed b (rjIPSrc h) (rjIPDst h) (rejectedPayload h) q.
Proof.
  intros [Hp Hs Hd Hsp Hdp Hpr Hre]. set (ip := rejectedIPHeader h).
  assert (hdr_for (rjIPSrc h) (rjIPDst h) ip) as Hh by (unfold ip, rejectedIPHeader; destruct Hp; by constructor).
  set (n := if MaybeBroken h then 8%nat else 7%nat).
  assert (rejectedLen h = HLen ip + Z.of_nat n) as Hlen
    by (unfold rejectedLen, ip, rejectedIPHeader, hasFlags, n; destruct Hp, (MaybeBroken h); done).
  pose proof (hdr_len _ _ _ Hh) as H2. assert (7 ≤ Z.of_nat n ≤ 8) as Hn by (unfold n; destruct (MaybeBroken h); lia).
  destruct (tsmp_marshal (rjIPSrc h) (rjIPDst h) ip (replicate (Z.to_nat (HLen ip)) 0) (replicate n 0))
    as (hdr & Hhdr & HM & HD); [done|done|tlen|tlen|tlen|].
  unfold Generate. change (HLen h) with (rejectedLen h). change (Marshal h) with (rejectedMarshal h).
  rewrite app_nil_r, Hlen, Z2Nat.inj_add, replicate_add, Nat2Z.id by lia. unfold rejectedMarshal.
  rewrite !(proj2 (Z.ltb_ge _ _)) by (unfold maxPacketLength; rewrite ?Hlen; tlen).
  assert (∀ buf, (if Is4 (ap_addr (rjSrc h)) then rejectedIP (mkIP4Header TSMP 0 (rjIPSrc h) (rjIPDst h)) buf
     else if Is6 (ap_addr (rjSrc h)) then rejectedIP (mkIP6Header TSMP 0 (rjIPSrc h) (rjIPDst h)) buf
     else Err errBogusSrcIP) = rejectedIP ip buf) as ->
    by (intros buf; unfold ip, rejectedIPHeader; rewrite Hs; by destruct Hp).
  unfold rejectedIP. rewrite HM. cbn [ignoreErr]. rewrite bind_ret.
  erewrite advanceBy_ok; [rewrite bind_ret|reflexivity|tlen]. cbn [mbind res_bind].
  do 3 (rewrite put_cursor, bind_ret by tlen). do 2 (rewrite put_be_cursor, bind_ret by tlen).
  exists (hdr ++ rejectedPayload h). pose proof (rejectedPayload_zlen h) as Hz. rewrite zlen_app.
  split; [|split; [unfold n in *; destruct (MaybeBroken h); lia|intros q0; apply HD;
    rewrite Hz; unfold n, zlen; rewrite length_replicate; by destruct (MaybeBroken h)]].
  rewrite (uN_small 8) by (unfold byte_ok in Hpr; lia). unfold rejectedPayload, hasFlags, n.
  destruct (MaybeBroken h) eqn:Hm; cbn match.
  - rewrite put_cursor by tlen. rewrite !drop_drop, drop_ge, app_nil_r, <- !app_assoc by tlen. done.
  - rewrite !drop_drop, drop_ge, !app_nil_r, <- !app_assoc by tlen. done.
Qed.

Lemma AsTailscaleRejectedHeader_rejected b h q :
  rejected_ok h → tsmp_parsed b (rjIPSrc h) (rjIPDst h) (rejectedPayload h) q →
  AsTSMPPing q = Ok None ∧ AsTSMPDiscoAdvertisement q = Ok None ∧ AsTSMPPong q = Ok None ∧
  AsTailscaleRejectedHeader q = Ok (Some h).
Proof.
  intros [_ Hs Hd Hsp Hdp _ _] [_ _ _ Hp Hqs Hqd _ HP].
  unfold AsTSMPPing, AsTSMPDiscoAdvertisement, AsTSMPPong, AsTailscaleRejectedHeader.
  rewrite Hp, HP, !bind_ret, rejectedPayload_zlen. change (negb (TSMP =? TSMP)) with false. cbn match.
  assert (((if MaybeBroken h then 8 else 7) <? 9) = true ∧ ((if MaybeBroken h then 8 else 7) <? 33) = true ∧
    ((if MaybeBroken h then 8 else 7) <? 7) = false) as (-> & -> & ->) by (by destruct (MaybeBroken h)).
  split_and!; [done..|].
  assert (@get_be () 2 (rejectedPayload h) 3 = Ok (ap_port (rjSrc h))) as -> by (by apply (get_be_mid 2 [_; _; _])).
  assert (@get_be () 2 (rejectedPayload h) 5 = Ok (ap_port (rjDst h))) as ->
    by (unfold rejectedPayload; rewrite (app_assoc [_; _; _]); apply (get_be_mid 2); [tlen|done]).
  rewrite (idx_const _ 0 TSMPTypeRejectedConn), (idx_const _ 1 (rjProto h)), (idx_const _ 2 (rjReason h)), !bind_ret
    by (lia || done).
  change (negb (TSMPTypeRejectedConn =? TSMPTypeRejectedConn)) with false. cbn match. rewrite Hqs, Hqd.
  destruct h as [ips ipd [sa sp] [da dp] pr re br]. cbn in Hs, Hd. subst sa da. cbn [MaybeBroken rjSrc rjDst rjIPSrc rjIPDst rjProto rjReason].
  destruct br; [|done]. change (7 <? 8) with true. cbn match.
  rewrite (idx_const _ 7 rejectFlagBitMaybeBroken), !bind_ret; [done|lia|].
  unfold rejectedPayload. rewrite !app_assoc, lookup_app_r by tlen. rewrite !length_app, !be_bytes_length. done.
Qed.

(** ** Whatever arrives *)
Definition total {E A} (r : res E A) : Prop := match r with Ok _ => True | _ => False end.
Lemma total_ok {E A} (r : res E A) : total r → ∃ a, r = Ok a.
Proof. destruct r; [eauto|done..]. Qed.

Ltac rdT :=
  match goal with
  | |- context [@idx ?E Z ?p ?i ≫= _] =>
      let v := fresh in let H := fresh in destruct (idx_ok (E := E) p i) as (v & H & _); [lia|rewrite H, bind_ret; clear H]
  | |- context [@get_be ?E ?n ?p ?i ≫= _] =>
      let v := fresh in let H := fresh in
      destruct (get_be_ok (E := E) n p i) as (v & H & _); [done|lia|lia|rewrite H, bind_ret; clear H]
  | |- context [@get_be ?E ?n ?p ?i] =>
      let v := fresh in let H := fresh in
      destruct (get_be_ok (E := E) n p i) as (v & H & _); [done|lia|lia|rewrite H, ?bind_ret; clear H]
  | |- context [@slice_from ?E Z ?p ?i ≫= _] =>
      let v := fresh in let H := fresh in
      destruct (slice_from_ok (E := E) p i) as (v & H & _); [lia|rewrite H, bind_ret; clear H]
  | |- context [@slice ?E Z ?p ?i ?j ≫= _] =>
      let v := fresh in let H := fresh in
      destruct (slice_ok (E := E) p i j) as (v & H & _); [lia|lia|rewrite H, bind_ret; clear H]
  end.

(** The accessors return on every packet of the tunnel. *)
Lemma TSMP_total b p :
  Delivered b p → IPProto p = TSMP →
  total (AsTSMPPing p) ∧ total (AsTSMPDiscoAdvertisement p) ∧ total (AsTSMPPong p) ∧ total (AsTailscaleRejectedHeader p).
Proof.
  intros HD Hp. destruct (Payload_whole b p HD) as [s Hs]; [by rewrite Hp|].
  assert (bytes_ok s) as Hb.
  { unfold Payload in Hs. destruct (_ || _); [injection Hs as <-; constructor|]. eapply slice_bytes; [|done].
    rewrite (d_buf _ _ (dl_decoded _ _ HD)). apply HD. }
  unfold AsTSMPPing, AsTSMPDiscoAdvertisement, AsTSMPPong, AsTailscaleRejectedHeader.
  rewrite Hp, Hs, !bind_ret. change (negb (TSMP =? TSMP)) with false. cbn match. split_and!.
  - destruct (Z.ltb_spec (zlen s) 9); [done|]. rdT. destruct (negb _); [done|]. by rdT.
  - destruct (Z.ltb_spec (zlen s) 33); [done|]. rdT. destruct (negb _); [done|]. by rdT.
  - destruct (Z.ltb_spec (zlen s) 9); [done|]. rdT. destruct (negb _); [done|]. rdT.
    destruct (Z.leb_spec 11 (zlen s)); [by rdT|done].
  - destruct (Z.ltb_spec (zlen s) 7); [done|]. rdT. destruct (negb _); [done|]. rdT. rdT. rdT. rdT.
    destruct (Z.ltb_spec 7 (zlen s)); [by rdT|done].
Qed.

(** What a node sends as a TSMP message the receiver reads from the packet, over
    IPv4 and IPv6: a pong gives its data and port, an advertisement its key and the
    addresses of the packet, and a rejection the rejected flow as the sender of the
    flow knows it. None of them is taken for a message of another type that is tried
    before it. *)
Theorem tsmp_roundtrip src dst :
  ip_pair src dst →
  (∀ h data port q0, hdr_for src dst h → length data = 8%nat → 0 ≤ port < 65536 →
     ∃ b q, Generate (mkPong (Some h) data port) [] = Ok b ∧ Decode b q0 = Ok q ∧ IPProto q = TSMP ∧
       AsTSMPPing q = Ok None ∧ AsTSMPDiscoAdvertisement q = Ok None ∧ AsTSMPPong q = Ok (Some (mkPong None data port))) ∧
  (∀ k q0, length k = 32%nat →
     ∃ b q, advertMarshal (mkAdvert src dst k) = Ok b ∧ Decode b q0 = Ok q ∧ IPProto q = TSMP ∧
       AsTSMPPing q = Ok None ∧ AsTSMPDiscoAdvertisement q = Ok (Some (mkAdvert src dst k))) ∧
  (∀ sp dp proto reason broken q0,
     0 ≤ sp < 65536 → 0 ≤ dp < 65536 → byte_ok proto → byte_ok reason →
     let h := mkRejected src dst (mkAddrPort dst sp) (mkAddrPort src dp) proto reason broken in
     ∃ b q, Generate h [] = Ok b ∧ Decode b q0 = Ok q ∧ IPProto q = TSMP ∧
       AsTSMPPing q = Ok None ∧ AsTSMPDiscoAdvertisement q = Ok None ∧ AsTSMPPong q = Ok None ∧
       AsTailscaleRejectedHeader q = Ok (Some h)).
Proof.
  intros Hp. split_and!.
  - intros h data port q0 Hh Hd Hport. destruct (pong_generate src dst h data port) as (b & HG & _ & HD); [done..|].
    destruct (HD q0) as (q & Hq & Ht). exists b, q. destruct (AsTSMPPong_pong b src dst data port q) as (? & ? & ?); [done..|].
    pose proof (tp_proto _ _ _ _ _ Ht). done.
  - intros k q0 Hk. destruct (advert_generate src dst k) as (b & HG & _ & HD); [done..|].
    destruct (HD q0) as (q & Hq & Ht). exists b, q. destruct (AsTSMPDiscoAdvertisement_advert b src dst k q) as (? & ?); [done..|].
    pose proof (tp_proto _ _ _ _ _ Ht). done.
  - intros sp dp proto reason broken q0 Hsp Hdp Hpr Hre h.
    assert (rejected_ok h) as Hok by by constructor.
    destruct (rejected_generate h Hok) as (b & HG & _ & HD). destruct (HD q0) as (q & Hq & Ht). exists b, q.
    destruct (AsTailscaleRejectedHeader_rejected b h q Hok Ht) as (? & ? & ? & ?). pose proof (tp_proto _ _ _ _ _ Ht). done.
Qed.

Lemma tsmp_roundtrip_witness :
  ∃ b q, Generate (mkPong (Some (inl (mkIP4Header TSMP 7 (IPv4 100 64 0 1) (IPv4 100 64 0 2)))) [1; 2; 3; 4; 5; 6; 7; 8] 443) []
    = Ok b ∧ Decode b zeroParsed = Ok q ∧ AsTSMPPong q = Ok (Some (mkPong None [1; 2; 3; 4; 5; 6; 7; 8] 443)).
Proof.
  destruct (tsmp_roundtrip (IPv4 100 64 0 1) (IPv4 100 64 0 2)) as (H & _ & _); [constructor; vm_compute; split; congruence|].
  destruct (H (inl (mkIP4Header TSMP 7 (IPv4 100 64 0 1) (IPv4 100 64 0 2))) [1; 2; 3; 4; 5; 6; 7; 8] 443 zeroParsed)
    as (b & q & H1 & H2 & _ & _ & _ & H3); [by constructor|done|lia|]. eauto.
Defined.
