(* ===== verification/TunWrap.v ===== *)
(** * The wrapper around the TUN device

    [net/tstun/wrap.go]: the table of peers that need masquerading or are jailed, the
    rewriting of addresses, the handling of packets from WireGuard ([Write]) and to
    WireGuard ([Read], [injectedRead]) with their filters and hooks, and injection.

    The routing table of [github.com/gaissmai/bart] is a class with its law. A hook
    of the wrapper is a function on a state that holds what the hooks own, the
    connection tracking of the filters and the list of what the wrapper has injected
    or published. Metrics, logs and captures are left out, and so are the goroutines
    that poll the device. *)

From stdpp Require Import base gmap sets list strings.
From S2P Require Import Prelude GoStd Bytes NetIP TSAddr FlowTrack Packet Headers Checksum Filter Disco Tsmp.

(** ** Routing tables *)
Class BartTable := {
  bt : Type → Type;
  btEmpty : ∀ {V}, bt V;
  btInsert : ∀ {V}, Prefix → V → bt V → bt V;
  btLookup : ∀ {V}, bt V → Addr → option V
}.

(** The value of the longest prefix that contains [ip], the last one inserted if
    it was inserted more than once. *)
Definition lpmStep {V} (ip : Addr) (best : option (Z * V)) (e : Prefix * V) : option (Z * V) :=
  if Contains e.1 ip && match best with Some (n, _) => n <=? Bits e.1 | None => true end
  then Some (Bits e.1, e.2) else best.
Definition lpm {V} (l : list (Prefix * V)) (ip : Addr) : option V := snd <$> foldl (lpmStep ip) None l.

Class BartTableLaw (b : BartTable) : Prop :=
  btLookup_lpm : ∀ V (l : list (Prefix * V)) ip,
    btLookup (foldl (λ t e, btInsert e.1 e.2 t) btEmpty l) ip = lpm l ip.

(** ** The WireGuard configuration *)
Record WGPeer := mkWGPeer {
  wpKey : Z; wpDisco : Z; wpAllowedIPs : list Prefix;
  V4MasqAddr : option Addr; V6MasqAddr : option Addr; IsJailed : bool; PersistentKeepalive : Z
}.
Record WGConfig := mkWGConfig { wcPrivateKey : Z; wcAddresses : list Prefix; wcPeers : list WGPeer }.
#[export] Instance WGPeer_eq_dec : EqDecision WGPeer.
Proof. solve_decision. Defined.
#[export] Instance WGConfig_eq_dec : EqDecision WGConfig.
Proof. solve_decision. Defined.
(** [Equal], for peers and for configurations, compares every field. *)
Definition WGEqual (c o : WGConfig) : bool := bool_decide (c = o).

Section peer_config.
Context `{BartTable}.

Record peerConfig := mkPeerConfig { dstMasqAddr4 : Addr; dstMasqAddr6 : Addr; jailed : bool }.
Record peerConfigTable := mkPeerConfigTable {
  nativeAddr4 : Addr; nativeAddr6 : Addr;
  byIP : bt peerConfig;
  masqAddrCounts : gmap Addr Z
}.

(** The nil table is [None]. *)
Definition mapDstIP (pc : option peerConfigTable) (src oldDst : Addr) : Addr :=
  match pc with
  | None => oldDst
  | Some pc =>
      match btLookup (byIP pc) src with
      | None => oldDst
      | Some c =>
          if Is4 oldDst && IsValid (nativeAddr4 pc) && bool_decide (dstMasqAddr4 c = oldDst) then nativeAddr4 pc
          else if Is6 oldDst && IsValid (nativeAddr6 pc) && bool_decide (dstMasqAddr6 c = oldDst) then nativeAddr6 pc
          else oldDst
      end
  end.

Definition selectSrcIP (pc : option peerConfigTable) (oldSrc dst : Addr) : Addr :=
  match pc with
  | None => oldSrc
  | Some pc =>
      if Is4 oldSrc && bool_decide (oldSrc ≠ nativeAddr4 pc) then oldSrc
      else if Is6 oldSrc && bool_decide (oldSrc ≠ nativeAddr6 pc) then oldSrc
      else
        match btLookup (byIP pc) dst with
        | None => oldSrc
        | Some c =>
            if Is4 oldSrc && IsValid (dstMasqAddr4 c) then dstMasqAddr4 c
            else if Is6 oldSrc && IsValid (dstMasqAddr6 c) then dstMasqAddr6 c
            else oldSrc
        end
  end.

Definition snat (pc : option peerConfigTable) (p : Parsed) : res () Parsed :=
  let oldSrc := ap_addr (Src p) in
  let newSrc := selectSrcIP pc oldSrc (ap_addr (Dst p)) in
  if bool_decide (oldSrc ≠ newSrc) then UpdateSrcAddr p newSrc else Ok p.

Definition dnat (pc : option peerConfigTable) (p : Parsed) : res () Parsed :=
  let oldDst := ap_addr (Dst p) in
  let newDst := mapDstIP pc (ap_addr (Src p)) oldDst in
  if bool_decide (newDst ≠ oldDst) then UpdateDstAddr p newDst else Ok p.

Fixpoint findV4 (addrs : list Prefix) : Addr :=
  match addrs with
  | [] => AddrZ
  | ap :: addrs => if Is4 (pfx_ip ap) && IsTailscaleIP (pfx_ip ap) then pfx_ip ap else findV4 addrs
  end.
Fixpoint findV6 (addrs : list Prefix) : Addr :=
  match addrs with
  | [] => AddrZ
  | ap :: addrs => if Is6 (pfx_ip ap) && IsTailscaleIP (pfx_ip ap) then pfx_ip ap else findV6 addrs
  end.

(** ** The table of a configuration *)
Definition AllIPv4 : Prefix := PrefixFrom (IPv4 0 0 0 0) 0.
Definition AllIPv6 : Prefix := PrefixFrom (Addr6 0 "") 0.

Definition validMasq (a : option Addr) : Addr := match a with Some a => a | None => AddrZ end.

(** The loop that looks at the first exit node. *)
Fixpoint exitRequiresMasq (ps : list WGPeer) : bool :=
  match ps with
  | [] => false
  | p :: ps =>
      if bool_decide (AllIPv4 ∈ wpAllowedIPs p) || bool_decide (AllIPv6 ∈ wpAllowedIPs p)
      then IsValid (validMasq (V4MasqAddr p)) || IsValid (validMasq (V6MasqAddr p))
      else exitRequiresMasq ps
  end.

Definition countMasq (a : Addr) (m : gmap Addr Z) : gmap Addr Z :=
  if IsValid a then <[a := default 0 (m !! a) + 1]> m else m.

(** The configuration of a peer, if it needs one. *)
Definition peerConfigOf (exitMasq : bool) (native4 native6 : Addr) (p : WGPeer) : option peerConfig :=
  let addrToUse4 := validMasq (V4MasqAddr p) in
  let addrToUse6 := validMasq (V6MasqAddr p) in
  let addrToUse4 := if exitMasq && negb (IsValid addrToUse4) && IsValid native4 then native4 else addrToUse4 in
  let addrToUse6 := if exitMasq && negb (IsValid addrToUse6) && IsValid native6 then native6 else addrToUse6 in
  if negb (IsValid addrToUse4) && negb (IsValid addrToUse6) && negb (IsJailed p) then None
  else Some (mkPeerConfig addrToUse4 addrToUse6 (IsJailed p)).

(** One round of the loop over the peers: the table, the counts and [byIPSize]. *)
Definition addPeer (exitMasq : bool) (native4 native6 : Addr) (st : bt peerConfig * gmap Addr Z * Z) (p : WGPeer)
    : bt peerConfig * gmap Addr Z * Z :=
  let '(t, counts, size) := st in
  let counts := countMasq (validMasq (V6MasqAddr p)) (countMasq (validMasq (V4MasqAddr p)) counts) in
  match peerConfigOf exitMasq native4 native6 p with
  | None => (t, counts, size)
  | Some c => (foldl (λ t ip, btInsert ip c t) t (wpAllowedIPs p), counts, size + zlen (wpAllowedIPs p))
  end.

Definition peerConfigTableFromWGConfig (wcfg : option WGConfig) : option peerConfigTable :=
  match wcfg with
  | None => None
  | Some wcfg =>
      let native4 := findV4 (wcAddresses wcfg) in
      let native6 := findV6 (wcAddresses wcfg) in
      if negb (IsValid native4) && negb (IsValid native6) then None
      else
        let exitMasq := exitRequiresMasq (wcPeers wcfg) in
        let '(t, counts, size) := foldl (addPeer exitMasq native4 native6) (btEmpty, ∅, 0) (wcPeers wcfg) in
        if (size =? 0) && bool_decide (base.size counts = 0%nat) then None
        else Some (mkPeerConfigTable native4 native6 t counts)
  end.

Definition isJailed (pc : option peerConfigTable) (ip : Addr) : bool :=
  match pc with
  | None => false
  | Some pc => match btLookup (byIP pc) ip with None => false | Some c => jailed c end
  end.
Definition inboundPacketIsJailed (pc : option peerConfigTable) (p : Parsed) : bool := isJailed pc (ap_addr (Src p)).
Definition outboundPacketIsJailed (pc : option peerConfigTable) (p : Parsed) : bool := isJailed pc (ap_addr (Dst p)).

(** ** The wrapper *)
Context {HS : Type}.                 (* the state of the hooks *)

Inductive TunAction : Type :=
  | OutboundQueued (pkt : bytes)                      (* a packet for WireGuard *)
  | WrittenToDevice (pkt : bytes)                     (* a packet for the host *)
  | DiscoKeyAdvertised (src : Addr) (key : bytes).    (* an event on the bus *)

Record TState := mkTState { flowsOf : Store; hookState : HS; actions : list TunAction }.
Definition withFlows (σ : Store) (s : TState) : TState := mkTState σ (hookState s) (actions s).
Definition withHook (h : HS) (s : TState) : TState := mkTState (flowsOf s) h (actions s).
Definition act (a : TunAction) (s : TState) : TState := mkTState (flowsOf s) (hookState s) (actions s ++ [a]).

(** A hook may rewrite the packet. *)
Definition FilterFunc : Type := Parsed → TState → res HdrErr (Response * Parsed * TState).

Record Wrapper := mkWrapper {
  discoKey : bytes;
  peerConfigOfW : option peerConfigTable;
  wfilter : option Filter;
  jailedFilter : option Filter;
  PreFilterPacketInboundFromWireGuard : option FilterFunc;
  PostFilterPacketInboundFromWireGuardAppConnector : option FilterFunc;
  PostFilterPacketInboundFromWireGuard : option FilterFunc;
  PreFilterPacketOutboundToWireGuardNetstackIntercept : option FilterFunc;
  PreFilterPacketOutboundToWireGuardEngineIntercept : option FilterFunc;
  PreFilterPacketOutboundToWireGuardAppConnectorIntercept : option FilterFunc;
  PostFilterPacketOutboundToWireGuard : option FilterFunc;
  OnTSMPPongReceived : option (TSMPPongReply → HS → HS);
  OnICMPEchoResponseReceived : option (Parsed → HS → res HdrErr (bool * HS));
  OnUnmappedTransitIPMessage : option (TailscaleRejectedHeader → HS → HS);
  wPeerAPIPort : option (Addr → Z * bool);
  disableFilter : bool;
  disableTSMPRejected : bool
}.

Variable MaxPacketSize : Z.          (* device.MaxContentSize of wireguard-go *)

Definition SetWGConfig (wcfg : option WGConfig) (w : Wrapper) : Wrapper :=
  mkWrapper (discoKey w) (peerConfigTableFromWGConfig wcfg) (wfilter w) (jailedFilter w)
    (PreFilterPacketInboundFromWireGuard w) (PostFilterPacketInboundFromWireGuardAppConnector w)
    (PostFilterPacketInboundFromWireGuard w) (PreFilterPacketOutboundToWireGuardNetstackIntercept w)
    (PreFilterPacketOutboundToWireGuardEngineIntercept w) (PreFilterPacketOutboundToWireGuardAppConnectorIntercept w)
    (PostFilterPacketOutboundToWireGuard w) (OnTSMPPongReceived w) (OnICMPEchoResponseReceived w)
    (OnUnmappedTransitIPMessage w) (wPeerAPIPort w) (disableFilter w) (disableTSMPRejected w).

(** ** Injection *)
Definition InjectOutbound (pkt : bytes) (s : TState) : TState :=
  if MaxPacketSize <? zlen pkt then s
  else if zlen pkt =? 0 then s
  else act (OutboundQueued pkt) s.

Definition InjectInboundCopy (pkt : bytes) (s : TState) : TState :=
  if MaxPacketSize <? zlen pkt then s
  else if zlen pkt =? 0 then s
  else act (WrittenToDevice pkt) s.

Definition injectOutboundPong (w : Wrapper) (pp : Parsed) (data : bytes) (s : TState) : res HdrErr TState :=
  let port := match wPeerAPIPort w with Some f => (f (ap_addr (Dst pp))).1 | None => 0 end in
  let send (ip : IPHeader) := b ← Generate (mkPong (Some ip) data port) []; Ok (InjectOutbound b s) in
  if IPVersion pp =? 4 then h4 ← pIP4Header pp; send (inl (ip4ToResponse h4))
  else if IPVersion pp =? 6 then h6 ← pIP6Header pp; send (inr (ip6ToResponse h6))
  else Ok s.

Definition isSelfDisco (w : Wrapper) (p : Parsed) : res () bool :=
  if negb (IPProto p =? UDP) then Ok false
  else
    pkt ← Payload p;
    match Source pkt with
    | None => Ok false
    | Some discobs => Ok (bool_decide (discoKey w = discobs))
    end.

(** Run a hook that is set; a verdict that drops ends the packet. *)
Definition runHook (h : option FilterFunc) (p : Parsed) (s : TState)
    (k : Parsed → TState → res HdrErr (Response * Parsed * TState)) : res HdrErr (Response * Parsed * TState) :=
  match h with
  | None => k p s
  | Some f => '(r, p, s) ← f p s; if IsDrop r then Ok (r, p, s) else k p s
  end.

(** ** From WireGuard *)
Definition HasCacheNetMap : bool := true.

(** The messages of the tunnel itself: whether the packet ends here. *)
Definition handleTSMP (w : Wrapper) (p : Parsed) (s : TState) : res HdrErr (bool * TState) :=
  ping ← liftPkt (AsTSMPPing p);
  match ping with
  | Some pingReq => s ← injectOutboundPong w p pingReq s; Ok (true, s)
  | None =>
      ad ← liftPkt (AsTSMPDiscoAdvertisement p);
      match ad with
      | Some ka => Ok (true, if HasCacheNetMap then act (DiscoKeyAdvertised (adSrc ka) (adKey ka)) s else s)
      | None =>
          pong ← liftPkt (AsTSMPPong p);
          match pong with
          | Some data =>
              Ok (false, match OnTSMPPongReceived w with Some f => withHook (f data (hookState s)) s | None => s end)
          | None =>
              rj ← liftPkt (AsTailscaleRejectedHeader p);
              match rj with
              | Some data =>
                  Ok (false,
                      if rjReason data =? RejectedDueToUnknownAppConnectorTransitIP then
                        match OnUnmappedTransitIPMessage w with
                        | Some f => withHook (f data (hookState s)) s
                        | None => s
                        end
                      else s)
              | None => Ok (false, s)
              end
          end
      end
  end.

Definition isTCPSynBit (p : Parsed) : bool := negb (Z.land (TCPFlags p) TCPSyn =? 0).

(** The verdict of a filter, with the exception for the peer API. *)
Definition inboundOutcome (w : Wrapper) (filt : Filter) (p : Parsed) (s : TState) : res HdrErr (Response * TState) :=
  '(outcome, σ) ← liftPkt (RunIn filt p (flowsOf s));
  let outcome :=
    if bool_decide (outcome ≠ Accept) && (IPProto p =? TCP) && isTCPSynBit p then
      match wPeerAPIPort w with
      | Some f => let '(port, ok) := f (ap_addr (Dst p)) in
                  if ok && (port =? ap_port (Dst p)) then Accept else outcome
      | None => outcome
      end
    else outcome in
  Ok (outcome, withFlows σ s).

(** The message to the sender of a connection that was not admitted. *)
Definition rejectInbound (w : Wrapper) (filt : Filter) (p : Parsed) (s : TState) : res HdrErr TState :=
  if (IPVersion p =? 4) && (IPProto p =? TCP) && isTCPSynBit p && negb (disableTSMPRejected w) then
    let rj := mkRejected (ap_addr (Dst p)) (ap_addr (Src p)) (Src p) (Dst p) (IPProto p)
                (if shieldsUp filt then RejectedDueToShieldsUp else RejectedDueToACLs) false in
    pkt ← Generate rj [];
    Ok (InjectOutbound pkt s)
  else Ok s.

Definition filterPacketInboundFromWireGuard (w : Wrapper) (pc : option peerConfigTable) (p : Parsed) (s : TState)
    : res HdrErr (Response * Parsed * TState) :=
  '(done, s) ← (if IPProto p =? TSMP then handleTSMP w p s else Ok (false, s));
  if (done : bool) then Ok (DropSilently, p, s)
  else
    er ← liftPkt (IsEchoResponse p);
    '(handled, s) ←
      (match OnICMPEchoResponseReceived w with
       | Some f => if er : bool then '(b, h) ← f p (hookState s); Ok (b, withHook h s) else Ok (false, s)
       | None => Ok (false, s)
       end);
    if (handled : bool) then Ok (DropSilently, p, s)
    else
      self ← (if IPProto p =? UDP then liftPkt (isSelfDisco w p) else Ok false);
      if (self : bool) then Ok (DropSilently, p, s)
      else
        runHook (PreFilterPacketInboundFromWireGuard w) p s (λ p s,
          match (if inboundPacketIsJailed pc p then jailedFilter w else wfilter w) with
          | None => Ok (Drop, p, s)
          | Some filt =>
              '(outcome, s) ← inboundOutcome w filt p s;
              if decide (outcome ≠ Accept) then s ← rejectInbound w filt p s; Ok (Drop, p, s)
              else
                runHook (PostFilterPacketInboundFromWireGuardAppConnector w) p s (λ p s,
                  runHook (PostFilterPacketInboundFromWireGuard w) p s (λ p s, Ok (Accept, p, s)))
          end).

(** The loop of [Write] over the buffers: the buffers to be written, with the bytes
    before [offset]. The packet is decoded into the [Parsed] of the round before. *)
Fixpoint tunWriteLoop (w : Wrapper) (buffs : list bytes) (offset : Z) (p : Parsed) (s : TState)
    : res HdrErr (list bytes * TState) :=
  match buffs with
  | [] => Ok ([], s)
  | buff :: buffs =>
      b ← slice_from buff offset;
      p ← liftPkt (Decode b p);
      p ← liftPkt (dnat (peerConfigOfW w) p);
      if disableFilter w then
        '(out, s) ← tunWriteLoop w buffs offset p s;
        Ok ((take (Z.to_nat offset) buff ++ pb p) :: out, s)
      else
        '(r, p, s) ← filterPacketInboundFromWireGuard w (peerConfigOfW w) p s;
        '(out, s) ← tunWriteLoop w buffs offset p s;
        Ok (if decide (r = Accept) then (take (Z.to_nat offset) buff ++ pb p) :: out else out, s)
  end.

(** [Write]: what goes to the device. *)
Definition tunWrite (w : Wrapper) (buffs : list bytes) (offset : Z) (p : Parsed) (s : TState)
    : res HdrErr (list bytes * TState) :=
  tunWriteLoop w buffs offset p s.
(** ** To WireGuard *)
Definition magicDNSIPPort : AddrPort := mkAddrPort TailscaleServiceIP 0.
Definition magicDNSIPPortv6 : AddrPort := mkAddrPort TailscaleServiceIPv6 0.

(** The answer to a ping of the DNS service. *)
Definition fakeEcho (p : Parsed) (s : TState) : res HdrErr (bool * TState) :=
  echo ← liftPkt (IsEchoRequest p);
  if negb echo then Ok (false, s)
  else if bool_decide (Dst p = magicDNSIPPort) then
    header ← pICMP4Header p;
    payload ← liftPkt (Payload p);
    outp ← Generate (icmp4ToResponse header) payload;
    Ok (true, InjectInboundCopy outp s)
  else if bool_decide (Dst p = magicDNSIPPortv6) then
    header ← pICMP6Header p;
    payload ← liftPkt (Payload p);
    outp ← Generate (icmp6ToResponse header) payload;
    Ok (true, InjectInboundCopy outp s)
  else Ok (false, s).

Definition filterPacketOutboundToWireGuard (w : Wrapper) (pc : option peerConfigTable) (p : Parsed) (s : TState)
    : res HdrErr (Response * Parsed * TState) :=
  '(done, s) ← fakeEcho p s;
  if (done : bool) then Ok (DropSilently, p, s)
  else
    self ← (if IPProto p =? UDP then liftPkt (isSelfDisco w p) else Ok false);
    if (self : bool) then Ok (DropSilently, p, s)
    else
      runHook (PreFilterPacketOutboundToWireGuardNetstackIntercept w) p s (λ p s,
        runHook (PreFilterPacketOutboundToWireGuardEngineIntercept w) p s (λ p s,
          runHook (PreFilterPacketOutboundToWireGuardAppConnectorIntercept w) p s (λ p s,
            match (if outboundPacketIsJailed pc p then jailedFilter w else wfilter w) with
            | None => Ok (Drop, p, s)
            | Some filt =>
                let '(resp, _, σ) := RunOut filt p (flowsOf s) in
                let s := withFlows σ s in
                if decide (resp ≠ Accept) then Ok (Drop, p, s)
                else runHook (PostFilterPacketOutboundToWireGuard w) p s (λ p s, Ok (Accept, p, s))
            end))).

(** The loop of [Read] over what the device returned; [rooms] are the sizes of the
    buffers to fill. *)
Fixpoint tunReadLoop (w : Wrapper) (data : list bytes) (dataOffset : Z) (rooms : list Z) (p : Parsed) (s : TState)
    : res HdrErr (list bytes * TState) :=
  match data with
  | [] => Ok ([], s)
  | d :: data =>
      b ← slice_from d dataOffset;
      p ← liftPkt (Decode b p);
      '(resp, p, s) ← (if disableFilter w then Ok (Accept, p, s)
                       else filterPacketOutboundToWireGuard w (peerConfigOfW w) p s);
      if decide (resp ≠ Accept) then tunReadLoop w data dataOffset rooms p s
      else
        p ← liftPkt (snat (peerConfigOfW w) p);
        match rooms with
        | [] => Panic
        | room :: rooms =>
            if negb (Z.min room (zlen (pb p)) =? zlen d - dataOffset) then Panic
            else
              '(out, s) ← tunReadLoop w data dataOffset rooms p s;
              Ok (pb p :: out, s)
        end
  end.

(** ** Injected packets *)
Inductive GSOType : Type := GSONone | GSOTCPv4 | GSOTCPv6 | GSOOther (t : Z).
Record netstack_GSO := mkGSO { gsoType : GSOType; NeedsCsum : bool; CsumOffset : Z; MSS : Z; L3HdrLen : Z }.
Record GSOOptions := mkGSOOptions {
  goType : GSOType; goHdrLen : Z; goCsumStart : Z; goCsumOffset : Z; goGSOSize : Z; goNeedsCsum : bool
}.
Definition minTCPHeaderSize : Z := 20.
Inductive GSOErr : Type := errUnsupportedGSO | errGSOTooShort | ErrTooManySegments | errSplit.

Definition stackGSOToTunGSO (pkt : bytes) (gso : netstack_GSO) : res GSOErr GSOOptions :=
  let options t hdrLen := mkGSOOptions t hdrLen (L3HdrLen gso) (CsumOffset gso) (MSS gso) (NeedsCsum gso) in
  match gsoType gso with
  | GSONone => Ok (options GSONone 0)
  | GSOOther _ => Err errUnsupportedGSO
  | t =>
      if zlen pkt <? L3HdrLen gso + minTCPHeaderSize then Err errGSOTooShort
      else
        x ← idx pkt (L3HdrLen gso + 12);
        let tcphLen := u8 (Z.shiftr x 4 * 4) in
        Ok (options t (u16 (L3HdrLen gso + tcphLen)))
  end.

Definition invertGSOChecksum (pkt : bytes) (gso : netstack_GSO) : res () bytes :=
  if negb (NeedsCsum gso) then Ok pkt
  else
    let at_ := u16 (L3HdrLen gso + CsumOffset gso) in
    if zlen pkt - 1 <? at_ + 1 then Ok pkt
    else
      x ← idx pkt at_;
      pkt ← put pkt at_ [notN 8 x];
      y ← idx pkt (at_ + 1);
      put pkt (at_ + 1) [notN 8 y].

Definition zeroGSO : netstack_GSO := mkGSO GSONone false 0 0 0.

(** Bytes, or a packet of the network stack: its headers, its data and its options. *)
Inductive tunInjectedRead : Type :=
  | InjectedData (data : bytes)
  | InjectedPacket (networkHeader transportHeader data : bytes) (gso : netstack_GSO).

Variable GSOSplit : bytes → GSOOptions → list bytes * option GSOErr.   (* of wireguard-go *)

(** The flow of an injected packet. *)
Definition recordFlow (w : Wrapper) (p : Parsed) (s : TState) : TState :=
  if disableFilter w then s
  else
    match (if outboundPacketIsJailed (peerConfigOfW w) p then jailedFilter w else wfilter w) with
    | Some filt => withFlows (UpdateOutboundFlowState filt p (flowsOf s)) s
    | None => s
    end.

(** [injectedRead] into buffers whose first has room for [room] bytes: the packets for
    WireGuard. The buffer of [p] is [pkt] throughout. *)
Definition injectedRead (w : Wrapper) (inj : tunInjectedRead) (room : Z) (p : Parsed) (s : TState)
    : res HdrErr (option GSOErr * list bytes * TState) :=
  let '(pkt, gso) :=
    match inj with
    | InjectedData data => (take (Z.to_nat room) data, zeroGSO)
    | InjectedPacket nh th data gso => (take (Z.to_nat room) (nh ++ th ++ data), gso)
    end in
  p ← liftPkt (Decode pkt p);
  let s := recordFlow w p s in
  pkt ← liftPkt (invertGSOChecksum pkt gso);
  let p := setBuf pkt p in
  '(r, p, s) ← (match PreFilterPacketOutboundToWireGuardAppConnectorIntercept w with
                | Some f => f p s
                | None => Ok (Accept, p, s)
                end);
  if IsDrop r then Ok (None, [], s)
  else
    p ← liftPkt (snat (peerConfigOfW w) p);
    pkt ← liftPkt (invertGSOChecksum (pb p) gso);
    match inj with
    | InjectedData _ => Ok (None, [pkt], s)
    | InjectedPacket _ _ _ _ =>
        match stackGSOToTunGSO pkt gso with
        | Ok o => let '(l, err) := GSOSplit pkt o in Ok (err, l, s)
        | Err e => Ok (Some e, [], s)
        | Panic => Panic
        end
    end.

(** [InjectInboundPacketBuffer]: a packet of the network stack for the host. *)
Definition InjectInboundPacketBuffer (w : Wrapper) (nh th data : bytes) (gso : netstack_GSO) (room : Z) (p : Parsed)
    (s : TState) : res HdrErr (option GSOErr * TState) :=
  let buf := take (Z.to_nat room) (nh ++ th ++ data) in
  if negb (zlen buf =? zlen (nh ++ th ++ data)) then Panic
  else
    p ← liftPkt (Decode buf p);
    buf ← liftPkt (invertGSOChecksum buf gso);
    p ← liftPkt (dnat (peerConfigOfW w) (setBuf buf p));
    buf ← liftPkt (invertGSOChecksum (pb p) gso);
    match stackGSOToTunGSO buf gso with
    | Ok o =>
        let '(l, err) := GSOSplit buf o in
        let write := Ok (None, foldl (λ s b, act (WrittenToDevice b) s) s l) in
        match err with
        | None | Some ErrTooManySegments => write
        | Some e => Ok (Some e, s)
        end
    | Err e => Ok (Some e, s)
    | Panic => Panic
    end.
End peer_config.
