(* ===== verification/Engine.v ===== *)
(** * The engine's hooks on the tunnel

    [wgengine/userspace.go] and [wgengine/pendopen.go]: what the engine does with
    packets of the tunnel (pongs and echo responses for pings it sent, packets for
    itself, connections being opened), the pings it sends, and the part of [Reconfig]
    that decides which peers have restarted. *)

From stdpp Require Import base gmap sets list strings.
From S2P Require Import Prelude GoStd Bytes NetIP TSAddr FlowTrack Packet Headers Filter Disco Tsmp TunWrap.

(** The operating systems the engine tells apart. *)
Inductive GOOS : Type := darwin | ios | plan9 | linux | otherOS.

Section engine.
Context `{BartTable}.

(** A callback is a number; those that were called are kept with their argument. *)
Record userspaceEngine := mkEngine {
  selfNode : option (list Prefix);          (* its addresses *)
  pongCallback : gmap bytes nat;
  icmpEchoResponseCallback : gmap Z nat;
  pendOpen : gmap Tuple Z;                  (* the problem reported, 0 for none *)
  isLocalAddr : option (Addr → bool);
  tsmpLearnedDisco : gmap Z Z;
  peerByIPRoute : option (bt Z);
  pongsCalled : list (nat * TSMPPongReply);
  echosCalled : list nat
}.
Implicit Type e : userspaceEngine.

Definition withPongs (m : gmap bytes nat) e :=
  mkEngine (selfNode e) m (icmpEchoResponseCallback e) (pendOpen e) (isLocalAddr e) (tsmpLearnedDisco e)
    (peerByIPRoute e) (pongsCalled e) (echosCalled e).
Definition withEchos (m : gmap Z nat) e :=
  mkEngine (selfNode e) (pongCallback e) m (pendOpen e) (isLocalAddr e) (tsmpLearnedDisco e)
    (peerByIPRoute e) (pongsCalled e) (echosCalled e).
Definition withPendOpen (m : gmap Tuple Z) e :=
  mkEngine (selfNode e) (pongCallback e) (icmpEchoResponseCallback e) m (isLocalAddr e) (tsmpLearnedDisco e)
    (peerByIPRoute e) (pongsCalled e) (echosCalled e).
Definition callPong (cb : nat) (pong : TSMPPongReply) e :=
  mkEngine (selfNode e) (pongCallback e) (icmpEchoResponseCallback e) (pendOpen e) (isLocalAddr e) (tsmpLearnedDisco e)
    (peerByIPRoute e) (pongsCalled e ++ [(cb, pong)]) (echosCalled e).
Definition callEcho (cb : nat) e :=
  mkEngine (selfNode e) (pongCallback e) (icmpEchoResponseCallback e) (pendOpen e) (isLocalAddr e) (tsmpLearnedDisco e)
    (peerByIPRoute e) (pongsCalled e) (echosCalled e ++ [cb]).

(** ** Responses to pings *)
Definition onTSMPPongReceived (pong : TSMPPongReply) e : userspaceEngine :=
  match pongCallback e !! pgData pong with
  | Some cb => callPong cb pong (withPongs (delete (pgData pong) (pongCallback e)) e)
  | None => e
  end.

Definition onICMPEchoResponseReceived (p : Parsed) e : res HdrErr (bool * userspaceEngine) :=
  idSeq ← liftPkt (EchoIDSeq p);
  match icmpEchoResponseCallback e !! idSeq with
  | None => Ok (false, e)
  | Some cb => Ok (true, callEcho cb (withEchos (delete idSeq (icmpEchoResponseCallback e)) e))
  end.

Definition setTSMPPongCallback (data : bytes) (cb : option nat) e : userspaceEngine :=
  match cb with
  | None => withPongs (delete data (pongCallback e)) e
  | Some cb => withPongs (<[data := cb]> (pongCallback e)) e
  end.
Definition setICMPEchoResponseCallback (idSeq : Z) (cb : option nat) e : userspaceEngine :=
  match cb with
  | None => withEchos (delete idSeq (icmpEchoResponseCallback e)) e
  | Some cb => withEchos (<[idSeq := cb]> (icmpEchoResponseCallback e)) e
  end.

(** ** Connections being opened *)
Definition removeFlow (f : Tuple) e : bool * userspaceEngine :=
  match pendOpen e !! f with
  | None => (false, e)
  | Some _ => (true, withPendOpen (delete f (pendOpen e)) e)
  end.

Definition noteFlowProblemFromPeer (f : Tuple) (problem : Z) e : userspaceEngine :=
  match pendOpen e !! f with
  | None => e
  | Some _ => withPendOpen (<[f := problem]> (pendOpen e)) e
  end.

Definition tsRejectFlow (rh : TailscaleRejectedHeader) : Tuple := MakeTuple (rjProto rh) (rjSrc rh) (rjDst rh).

Definition TCPRst : Z := 0x04.

Definition trackOpenPreFilterIn (pp : Parsed) e : res HdrErr (Response * userspaceEngine) :=
  if IPProto pp =? TSMP then
    rh ← liftPkt (AsTailscaleRejectedHeader pp);
    match rh with
    | None => Ok (Accept, e)
    | Some rh =>
        let e := if MaybeBroken rh then noteFlowProblemFromPeer (tsRejectFlow rh) (rjReason rh) e
                 else (removeFlow (tsRejectFlow rh) e).2 in
        Ok (if rjReason rh =? RejectedDueToUnknownAppConnectorTransitIP then Accept else DropSilently, e)
    end
  else if (IPVersion pp =? 0) || negb (IPProto pp =? TCP) || (Z.land (TCPFlags pp) (Z.lor TCPSyn TCPRst) =? 0)
  then Ok (Accept, e)
  else Ok (Accept, (removeFlow (MakeTuple (IPProto pp) (Dst pp) (Src pp)) e).2).

Variable isOSNetworkProbe : AddrPort → bool.   (* depends on the system and the peers *)

Definition trackOpenPostFilterOut (pp : Parsed) e : Response * userspaceEngine :=
  if (IPVersion pp =? 0) || negb (IPProto pp =? TCP) || negb (Z.land (TCPFlags pp) TCPAck =? 0) ||
     (Z.land (TCPFlags pp) TCPSyn =? 0) then (Accept, e)
  else if isOSNetworkProbe (Dst pp) then (Accept, e)
  else
    let flow := MakeTuple (IPProto pp) (Src pp) (Dst pp) in
    if decide (is_Some (pendOpen e !! flow)) then (Accept, e)
    else (Accept, withPendOpen (<[flow := TailscaleRejectReasonNone]> (pendOpen e)) e).

(** The timer of a flow, up to the diagnosis in the log: the problem it reports. *)
Definition onOpenTimeout (flow : Tuple) e : option Z * userspaceEngine :=
  match pendOpen e !! flow with
  | None => (None, e)
  | Some problem => (Some problem, withPendOpen (delete flow (pendOpen e)) e)
  end.

(** ** Packets of the host *)
Variable MaxPacketSize : Z.

Definition engineLocalPackets (os : GOOS) (p : Parsed) (s : @TState userspaceEngine) : Response * @TState userspaceEngine :=
  let reflect :=
    match isLocalAddr (hookState s) with
    | Some f => f (ap_addr (Dst p))
    | None => false
    end in
  match os with
  | darwin | ios | plan9 => if reflect then (Drop, InjectInboundCopy MaxPacketSize (pb p) s) else (Accept, s)
  | _ => (Accept, s)
  end.

(** The engine's hooks, as [NewUserspaceEngine] installs them. *)
Definition hookIn (p : Parsed) (s : @TState userspaceEngine) : res HdrErr (Response * Parsed * @TState userspaceEngine) :=
  '(r, e) ← trackOpenPreFilterIn p (hookState s); Ok (r, p, withHook e s).
Definition hookLocal (os : GOOS) (p : Parsed) (s : @TState userspaceEngine)
    : res HdrErr (Response * Parsed * @TState userspaceEngine) :=
  let '(r, s) := engineLocalPackets os p s in Ok (r, p, s).
Definition hookOut (p : Parsed) (s : @TState userspaceEngine) : res HdrErr (Response * Parsed * @TState userspaceEngine) :=
  let '(r, e) := trackOpenPostFilterOut p (hookState s) in Ok (r, p, withHook e s).

Definition engineWrapper (os : GOOS) (key : bytes) (pc : option peerConfigTable) (filt jailed : option Filter)
    (post netstackOut : option (@FilterFunc userspaceEngine)) (peerAPI : option (Addr → Z * bool)) : @Wrapper _ userspaceEngine :=
  mkWrapper key pc filt jailed (Some hookIn) None post netstackOut (Some (hookLocal os)) None (Some hookOut)
    (Some onTSMPPongReceived) (Some onICMPEchoResponseReceived) None peerAPI false false.

(** ** Pings *)
Inductive PingErr : Type := errNoSelfNode | errNoSelfAddr | errNoFamily | errGenerate (e : HdrErr).

Fixpoint selfMatching (addrs : list Prefix) (dst : Addr) : option Addr :=
  match addrs with
  | [] => None
  | p :: addrs => if IsSingleIP p && (BitLen (pfx_ip p) =? BitLen dst) then Some (pfx_ip p) else selfMatching addrs dst
  end.
Definition mySelfIPMatchingFamily (dst : Addr) e : res PingErr Addr :=
  match selfNode e with
  | None => Err errNoSelfNode
  | Some addrs =>
      if decide (length addrs = 0%nat) then Err errNoSelfAddr
      else match selfMatching addrs dst with Some a => Ok a | None => Err errNoFamily end
  end.

Definition liftHdr {A} (r : res HdrErr A) : res PingErr A :=
  match r with Ok a => Ok a | Err e => Err (errGenerate e) | Panic => Panic end.

(** [sendTSMPPing] with its random data: the callback is installed, the packet queued. *)
Definition sendTSMPPing (ip : Addr) (data : bytes) (cb : nat) (s : @TState userspaceEngine)
    : res PingErr (@TState userspaceEngine) :=
  srcIP ← mySelfIPMatchingFamily ip (hookState s);
  let iph : IPHeader := if Is4 srcIP then inl (mkIP4Header TSMP 0 srcIP ip) else inr (mkIP6Header TSMP 0 srcIP ip) in
  let s := withHook (setTSMPPongCallback data (Some cb) (hookState s)) s in
  tsmpPing ← liftHdr (Generate iph ([TSMPTypePing] ++ data));
  Ok (InjectOutbound MaxPacketSize tsmpPing s).

(** [ICMPEchoPayload(nil)] with its random bytes: the id and sequence number, and the
    payload. *)
Definition ICMPEchoPayload (random payload : bytes) : Z * bytes := (le_val random, random ++ payload).

Definition sendICMPEchoRequest (destIP : Addr) (random : bytes) (cb : nat) (s : @TState userspaceEngine)
    : res PingErr (@TState userspaceEngine) :=
  srcIP ← mySelfIPMatchingFamily destIP (hookState s);
  let '(idSeq, payload) := ICMPEchoPayload random [] in
  let s := withHook (setICMPEchoResponseCallback idSeq (Some cb) (hookState s)) s in
  icmpPing ← liftHdr (if Is4 srcIP then
                        Generate (mkICMP4Header (mkIP4Header ICMPv4 0 srcIP destIP) ICMP4EchoRequest ICMP4NoCode) payload
                      else Generate (mkICMP6Header (mkIP6Header ICMPv6 0 srcIP destIP) ICMP6EchoRequest ICMP6NoCode) payload);
  Ok (InjectOutbound MaxPacketSize icmpPing s).

Definition sendTSMPDiscoAdvertisement (ip : Addr) (discoPub : bytes) (s : @TState userspaceEngine)
    : res PingErr (@TState userspaceEngine) :=
  srcIP ← mySelfIPMatchingFamily ip (hookState s);
  payload ← liftHdr (advertMarshal (mkAdvert srcIP ip discoPub));
  Ok (InjectOutbound MaxPacketSize payload s).
(** ** Reconfiguration *)
Definition withLearned (m : gmap Z Z) e :=
  mkEngine (selfNode e) (pongCallback e) (icmpEchoResponseCallback e) (pendOpen e) (isLocalAddr e) m
    (peerByIPRoute e) (pongsCalled e) (echosCalled e).
Definition withRoutes (t : bt Z) e :=
  mkEngine (selfNode e) (pongCallback e) (icmpEchoResponseCallback e) (pendOpen e) (isLocalAddr e) (tsmpLearnedDisco e)
    (Some t) (pongsCalled e) (echosCalled e).

Definition PatchDiscoKey (pub disco : Z) e : userspaceEngine := withLearned (<[pub := disco]> (tsmpLearnedDisco e)) e.

(** The disco keys of the peers of a configuration. *)
Definition prevEP (ps : list WGPeer) : gmap Z Z :=
  foldl (λ m p, if wpDisco p =? 0 then m else <[wpKey p := wpDisco p]> m) ∅ ps.

(** The loop over the peers: those that have restarted, and the keys learned by TSMP
    that are left. *)
Fixpoint discoChanges (prev : gmap Z Z) (ps : list WGPeer) (learned : gmap Z Z) (changed : gset Z) : gset Z * gmap Z Z :=
  match ps with
  | [] => (changed, learned)
  | p :: ps =>
      let pub := wpKey p in
      if wpDisco p =? 0 then discoChanges prev ps learned changed
      else
        match prev !! pub with
        | Some old =>
            if old =? wpDisco p then discoChanges prev ps learned changed
            else
              match learned !! pub with
              | Some discoTSMP =>
                  discoChanges prev ps (delete pub learned) (if discoTSMP =? wpDisco p then changed else {[pub]} ∪ changed)
              | None => discoChanges prev ps learned ({[pub]} ∪ changed)
              end
        | None => discoChanges prev ps learned changed
        end
  end.

(** [maybeReconfigWireguardLocked]: the table of routes. *)
Definition routeTable (ps : list WGPeer) : bt Z :=
  foldl (λ rt p, foldl (λ rt pfx, btInsert pfx (wpKey p) rt) rt (wpAllowedIPs p)) btEmpty ps.

(** [Reconfig] of the peers, past the check that something has changed: the peers
    whose sessions are flushed, when wireguard-go takes the configuration. *)
Definition reconfigPeers (last cfg : WGConfig) e : gset Z * userspaceEngine :=
  let engineChanged := negb (WGEqual last cfg) in
  let '(changed, learned) :=
    if engineChanged then discoChanges (prevEP (wcPeers last)) (wcPeers cfg) (tsmpLearnedDisco e) ∅
    else (∅, tsmpLearnedDisco e) in
  let e := if engineChanged then withRoutes (routeTable (wcPeers cfg)) e else e in
  (changed, withLearned (filter (λ kv, kv.1 ∈ wpKey <$> wcPeers cfg) learned) e).

(** The peer of an outbound packet, with an optional fast path. *)
Definition peerByIPPacket (fn : option (Addr → option Z)) (dst : Addr) e : option Z :=
  let slow := peerByIPRoute e ≫= λ rt, btLookup rt dst in
  match fn with
  | Some f => match f dst with Some pk => Some pk | None => slow end
  | None => slow
  end.
End engine.
