(* ===== verification/NatThms.v ===== *)
(** * Masquerading and jailed peers

    The rewriting of addresses keeps a packet what it is, undoes itself on the
    reply, and panics on one kind of packet; which peers the table of a configuration
    jails. *)

From stdpp Require Import base gmap sets list strings.
From S2P Require Import Prelude GoStd Bytes NetIP TSAddr Packet PacketThms Headers Checksum Filter InboundThms Tsmp TunWrap.

(** ** Rewriting an address *)
Lemma updateV4Checksum_keeps (b : bytes) off old new :
  0 ≤ off → off + 2 ≤ zlen b → length old = 4%nat → length new = 4%nat →
  ∃ b', updateV4Checksum b off old new = Ok b' ∧ zlen b' = zlen b ∧ (bytes_ok b → bytes_ok b').
Proof.
  intros H0 H1 Ho Hn. unfold updateV4Checksum. rewrite decide_False by (rewrite Ho, Hn; auto). rewrite Ho. cbn match.
  unfold get_be. change (Z.of_nat 2) with 2.
  destruct (slice_ok (E := ()) b off (off + 2)) as (s & Hs & Hs2 & _); [lia|lia|]. rewrite Hs, !bind_ret. unfold put_be.
  set (x := notN 16 _). destruct (put b off (be_bytes 2 x)) as [b'| |] eqn:HP.
  - exists b'. split; [done|]. split; [by eapply put_zlen|]. intros. eapply put_bytes; [done|apply be_bytes_ok|done].
  - unfold put in HP. by case_decide.
  - unfold put in HP. case_decide as Hd; [done|]. unfold zlen in *. rewrite be_bytes_length in Hd. lia.
Qed.

Lemma As4_ok {E} a : Is4 a = true → ∃ b, @As4 E a = Ok b ∧ length b = 4%nat ∧ bytes_ok b.
Proof. destruct a as [|v|]; [done| |done]. intros _. exists (be_bytes 4 v). split_and!; [done|apply be_bytes_length|apply be_bytes_ok]. Qed.

Lemma put_total {E} (b s : bytes) i :
  0 ≤ i → i + zlen s ≤ zlen b → bytes_ok s →
  ∃ b', @put E b i s = Ok b' ∧ zlen b' = zlen b ∧ (bytes_ok b → bytes_ok b').
Proof.
  intros H0 H1 Hs. destruct (@put E b i s) as [b'| |] eqn:HP.
  - exists b'. split_and!; [done|by eapply put_zlen|]. intros. by apply (put_bytes (E := E) b s b' i).
  - unfold put in HP. by case_decide.
  - unfold put in HP. case_decide; [done|lia].
Qed.

Lemma updateV4_keeps q old new :
  12 ≤ zlen (pb q) → Is4 old = true → Is4 new = true → 0 ≤ subofs q ≤ zlen (pb q) →
  ∃ b', updateV4PacketChecksums q old new = Ok (setBuf b' q) ∧ zlen b' = zlen (pb q) ∧ (bytes_ok (pb q) → bytes_ok b').
Proof.
  intros Hl Ho Hn Hs. destruct (As4_ok (E := ()) old Ho) as (o4 & Eo & Lo & _), (As4_ok (E := ()) new Hn) as (n4 & En & Ln & _).
  unfold updateV4PacketChecksums. rewrite (proj2 (Z.ltb_ge _ 12)) by lia. rewrite Eo, En, !bind_ret.
  destruct (updateV4Checksum_keeps (pb q) 10 o4 n4) as (b1 & E1 & L1 & O1); [lia|lia|done|done|]. rewrite E1, bind_ret.
  unfold Transport. cbn [pb subofs setBuf IPProto].
  destruct (slice_from_ok (E := ()) b1 (subofs q)) as (tr & Etr & Ltr & _); [lia|]. rewrite Etr, bind_ret.
  assert (∀ off, 0 ≤ off → subofs q + off + 2 ≤ zlen b1 → ∃ b',
    (b ← updateV4Checksum b1 (subofs q + off) o4 n4; Ok (setBuf b (setBuf b1 q))) = Ok (setBuf b' q) ∧
    zlen b' = zlen (pb q) ∧ (bytes_ok (pb q) → bytes_ok b')) as Hat.
  { intros off Ho1 Ho2. destruct (updateV4Checksum_keeps b1 (subofs q + off) o4 n4) as (b2 & E2 & L2 & O2); [lia|lia|done|done|].
    rewrite E2, bind_ret. exists b2. split_and!; [done|lia|auto]. }
  assert (∃ b', Ok (setBuf b1 q) = @Ok () _ (setBuf b' q) ∧ zlen b' = zlen (pb q) ∧ (bytes_ok (pb q) → bytes_ok b')) as Hid by by exists b1.
  destruct (_ || _).
  { destruct (Z.ltb_spec (zlen tr) minUDPSize) as [|Hm]; [done|]. unfold minUDPSize in Hm. apply Hat; lia. }
  destruct (_ =? TCP).
  { destruct (Z.ltb_spec (zlen tr) minTCPSize) as [|Hm]; [done|]. unfold minTCPSize in Hm. apply Hat; lia. }
  destruct (_ =? GRE); [|done]. destruct (Z.ltb_spec (zlen tr) 6); [done|].
  destruct (idx_ok (E := ()) tr 0) as (t0 & -> & _); [lia|]. rewrite bind_ret. destruct (t0 =? 1); [apply Hat; lia|done].
Qed.

Lemma updateV6_keeps q old new :
  40 ≤ zlen (pb q) → 0 ≤ subofs q ≤ zlen (pb q) →
  ∃ b', updateV6PacketChecksums q old new = Ok (setBuf b' q) ∧ zlen b' = zlen (pb q) ∧ (bytes_ok (pb q) → bytes_ok b').
Proof.
  intros Hl Hs. unfold updateV6PacketChecksums. rewrite (proj2 (Z.ltb_ge _ minIPv6Header)) by (unfold minIPv6Header; lia).
  unfold Transport. destruct (slice_from_ok (E := ()) (pb q) (subofs q)) as (tr & Etr & Ltr & _); [lia|]. rewrite Etr, bind_ret.
  assert (∀ off, 0 ≤ off → subofs q + off + 2 ≤ zlen (pb q) → ∃ b',
    (xsum ← get_be 2 (pb q) (subofs q + off);
     b ← put_be 2 (pb q) (subofs q + off)
           (notN 16 (checksumUpdate2ByteAlignedAddress (notN 16 xsum) (As16 old) (As16 new)));
     Ok (setBuf b q)) = @Ok () _ (setBuf b' q) ∧
    zlen b' = zlen (pb q) ∧ (bytes_ok (pb q) → bytes_ok b')) as Hat.
  { intros off Ho1 Ho2. unfold get_be. change (Z.of_nat 2) with 2.
    destruct (slice_ok (E := ()) (pb q) (subofs q + off) (subofs q + off + 2)) as (x & Ex & _); [lia|lia|]. rewrite Ex, !bind_ret.
    unfold put_be. destruct (put_total (E := ()) (pb q) (be_bytes 2 (notN 16 (checksumUpdate2ByteAlignedAddress (notN 16 (be_val 0 x)) (As16 old) (As16 new)))) (subofs q + off)) as (b' & -> & L & O);
      [lia|unfold zlen at 1; rewrite be_bytes_length; lia|apply be_bytes_ok|]. rewrite bind_ret. by exists b'. }
  assert (∃ b', Ok q = @Ok () _ (setBuf b' q) ∧ zlen b' = zlen (pb q) ∧ (bytes_ok (pb q) → bytes_ok b')) as Hid
    by (exists (pb q); by destruct q).
  destruct (_ =? ICMPv6).
  { destruct (Z.ltb_spec (zlen tr) minICMPv6Size) as [|Hm]; [done|]. unfold minICMPv6Size, offsetICMPv6Checksum in *. apply Hat; lia. }
  destruct (_ || _).
  { destruct (Z.ltb_spec (zlen tr) minUDPSize) as [|Hm]; [done|]. unfold minUDPSize, offsetUDPChecksum in *. apply Hat; lia. }
  destruct (_ =? TCP); [|done].
  destruct (Z.ltb_spec (zlen tr) minTCPSize) as [|Hm]; [done|]. unfold minTCPSize, offsetTCPChecksum in *. apply Hat; lia.
Qed.

(** Room for the IP header, and addresses of the family of the packet. *)
Inductive ipRoom (b : bytes) (p : Parsed) : Prop :=
  | room4 : IPVersion p = 4 → 20 ≤ zlen b → Is4 (ap_addr (Src p)) = true → Is4 (ap_addr (Dst p)) = true → ipRoom b p
  | room6 : IPVersion p = 6 → 40 ≤ zlen b →
      Is6 (ap_addr (Src p)) = true ∧ hasZone (ap_addr (Src p)) = false →
      Is6 (ap_addr (Dst p)) = true ∧ hasZone (ap_addr (Dst p)) = false → ipRoom b p.

(** A new address of the family of [a], without a zone. *)
Definition sameFamily (a new : Addr) : Prop :=
  IsValid new = true ∧ Is4 new = Is4 a ∧ (Is4 a = false → Is6 new = true ∧ hasZone new = false).

Lemma As16_put {E} b a i :
  0 ≤ i → i + 16 ≤ zlen b → ∃ b', @put E b i (As16 a) = Ok b' ∧ zlen b' = zlen b ∧ (bytes_ok b → bytes_ok b').
Proof. intros. apply put_total; [done|by rewrite As16_zlen|apply As16_ok]. Qed.

(** Both updates, at the offsets [o4] and [o6] of the address in the two headers. *)
Lemma update_total o4 o6 (set : AddrPort → Parsed → Parsed) b p old new port :
  pb p = b → ipRoom b p → 0 ≤ subofs p ≤ zlen b → sameFamily old new → (Is4 old = true ↔ IPVersion p = 4) →
  0 ≤ o4 ≤ 16 → 0 ≤ o6 ≤ 24 →
  (∀ ap, pb (set ap p) = pb p ∧ subofs (set ap p) = subofs p ∧ IPProto (set ap p) = IPProto p) →
  ∃ b', (if Is6 new && negb (IPVersion p =? 6) then Panic
         else if Is4 new && negb (IPVersion p =? 4) then Panic
         else let q := set (mkAddrPort new port) p in
              if Is6 new then b ← put (pb q) o6 (As16 new); updateV6PacketChecksums (setBuf b q) old new
              else v4 ← As4 new; b ← put (pb q) o4 v4; updateV4PacketChecksums (setBuf b q) old new)
        = @Ok () _ (setBuf b' (set (mkAddrPort new port) p)) ∧
    zlen b' = zlen b ∧ (bytes_ok b → bytes_ok b').
Proof.
  intros Hpb HR Hs (Hv & H4 & H6) Hf Ho4 Ho6 Hset. destruct (Hset (mkAddrPort new port)) as (Q1 & Q2 & Q3).
  set (q := set (mkAddrPort new port) p) in *. destruct HR as [V L A B|V L A B].
  - assert (Is4 old = true) as O4 by (by apply Hf). rewrite O4 in H4.
    assert (Is6 new = false) as -> by (by destruct new). rewrite H4, V. cbn [andb negb Z.eqb Pos.eqb].
    destruct (As4_ok (E := ()) new H4) as (v4 & -> & Lv & Ov). rewrite bind_ret.
    destruct (put_total (E := ()) (pb q) v4 o4) as (b1 & -> & L1 & O1); [lia|rewrite Q1, Hpb; unfold zlen at 1; lia|done|].
    rewrite bind_ret. destruct (updateV4_keeps (setBuf b1 q) old new) as (b2 & -> & L2 & O2);
      cbn [pb subofs setBuf]; rewrite ?L1, ?Q1, ?Hpb, ?Q2; [lia|done..|].
    exists b2. cbn [pb setBuf] in *. split; [done|]. rewrite Q1, Hpb in *. split; [lia|auto].
  - assert (Is4 old = false) as O4 by (destruct (Is4 old); [by rewrite (proj1 Hf eq_refl) in V|done]). rewrite O4 in H4.
    destruct (H6 O4) as [-> _]. rewrite H4, V. cbn [andb negb Z.eqb Pos.eqb].
    destruct (As16_put (E := ()) (pb q) new o6) as (b1 & -> & L1 & O1); [lia|rewrite Q1, Hpb; lia|]. rewrite bind_ret.
    destruct (updateV6_keeps (setBuf b1 q) old new) as (b2 & -> & L2 & O2);
      cbn [pb subofs setBuf]; rewrite ?L1, ?Q1, ?Hpb, ?Q2; [lia|done|].
    exists b2. cbn [pb setBuf] in *. split; [done|]. rewrite Q1, Hpb in *. split; [lia|auto].
Qed.

Lemma ipRoom_fam b p :
  ipRoom b p → (Is4 (ap_addr (Src p)) = true ↔ IPVersion p = 4) ∧ (Is4 (ap_addr (Dst p)) = true ↔ IPVersion p = 4).
Proof.
  intros [V L A B|V L [A _] [B _]]; rewrite V, ?A, ?B; [done|].
  split; (split; [|done]); [destruct (ap_addr (Src p))|destruct (ap_addr (Dst p))]; done.
Qed.

Lemma UpdateDstAddr_total b p new :
  pb p = b → ipRoom b p → 0 ≤ subofs p ≤ zlen b → sameFamily (ap_addr (Dst p)) new →
  ∃ b', UpdateDstAddr p new = Ok (setBuf b' (setDst (mkAddrPort new (ap_port (Dst p))) p)) ∧
    zlen b' = zlen b ∧ (bytes_ok b → bytes_ok b').
Proof. intros. by apply (update_total 16 24 setDst b); [..|apply (ipRoom_fam b)|lia|lia|]. Qed.
Lemma UpdateSrcAddr_total b p new :
  pb p = b → ipRoom b p → 0 ≤ subofs p ≤ zlen b → sameFamily (ap_addr (Src p)) new →
  ∃ b', UpdateSrcAddr p new = Ok (setBuf b' (setSrc (mkAddrPort new (ap_port (Src p))) p)) ∧
    zlen b' = zlen b ∧ (bytes_ok b → bytes_ok b').
Proof. intros. by apply (update_total 12 8 setSrc b); [..|apply (ipRoom_fam b)|lia|lia|]. Qed.

(** The one packet that cannot be rewritten: an IPv4 header that claims to be longer
    than the packet. *)
Lemma UpdateDstAddr_panics b p new :
  pb p = b → ipRoom b p → IPVersion p = 4 → zlen b < subofs p → sameFamily (ap_addr (Dst p)) new →
  UpdateDstAddr p new = Panic.
Proof.
  intros Hpb HR V Hs (Hv & H4 & _). destruct (ipRoom_fam _ _ HR) as [_ Hf]. destruct HR as [_ L A B|V6 _ _ _]; [|by rewrite V in V6].
  rewrite B in H4. unfold UpdateDstAddr. assert (Is6 new = false) as -> by (by destruct new). rewrite H4, V.
  cbn [andb negb Z.eqb Pos.eqb]. destruct (As4_ok (E := ()) new H4) as (n4 & En & Ln & On). rewrite En, bind_ret.
  destruct (put_total (E := ()) (pb p) n4 16) as (b1 & E1 & L1 & _); [lia|rewrite Hpb; unfold zlen at 1; lia|done|].
  change (pb (setDst _ p)) with (pb p). rewrite E1, bind_ret. unfold updateV4PacketChecksums. cbn [pb setBuf].
  rewrite (proj2 (Z.ltb_ge _ 12)) by (rewrite L1, Hpb; lia). destruct (As4_ok (E := ()) _ B) as (o4 & Eo & Lo & _).
  rewrite Eo, En, !bind_ret. destruct (updateV4Checksum_keeps b1 10 o4 n4) as (b2 & E2 & L2 & _); [lia|rewrite L1, Hpb; lia|done|done|].
  rewrite E2, bind_ret. unfold Transport. cbn [pb subofs setBuf setDst]. unfold slice_from, slice.
  rewrite decide_False; [done|]. rewrite L2, L1, Hpb. lia.
Qed.

(** ** What WireGuard delivers

    wireguard-go checks the length in the IP header and cuts the packet to it before
    it calls [Write]; it does not look at the length of the IPv4 header. *)
Definition wgTrimmed (b : bytes) : Prop :=
  ∃ b0, b !! 0%nat = Some b0 ∧
    ((Z.shiftr b0 4 = 4 ∧ 20 ≤ zlen b ∧ @get_be () 2 b 2 = Ok (zlen b)) ∨
     (Z.shiftr b0 4 = 6 ∧ 40 ≤ zlen b ∧ @get_be () 2 b 4 = Ok (zlen b - 40))).

(** The length of the header that the first byte of an IPv4 packet claims. *)
Definition ihl (b : bytes) : Z := u8 (Z.shiftl (Z.land (default 0 (b !! 0%nat)) 0x0F) 2).

(** The header fields of a trimmed packet are those of the packet. *)
Definition netFresh (b : bytes) (p : Parsed) : Prop :=
  ipRoom b p ∧ plength p = zlen b ∧ 0 ≤ subofs p ∧
  (subofs p ≤ zlen b ∨ IPVersion p = 4) ∧ (IPVersion p = 4 → subofs p = ihl b).

Lemma netFresh_transport b q q' : netFresh b q → subofs q ≤ zlen b → transportOnly q q' → netFresh b q'.
Proof.
  intros (HR & Hl & H0 & _ & HI) Hs (E1 & E2 & E3 & E4 & E5 & E6 & _). split_and!; rewrite ?E2, ?E3, ?E4; auto.
  destruct HR as [V L A B|V L A B]; [apply room4|apply room6]; by rewrite ?E4, ?E5, ?E6.
Qed.

Lemma decode4_fresh b q p :
  bytes_ok b → pb q = b → IPVersion q = 4 → 20 ≤ zlen b → @get_be () 2 b 2 = Ok (zlen b) → decode4 b q = Ok p → netFresh b p.
Proof.
  intros Hb Hp Hv H20 Hlen. unfold decode4, ip4HeaderLength. rewrite (proj2 (Z.ltb_ge _ _)) by lia.
  destruct (idx_ok (E := ()) b 9) as (proto & -> & _); [lia|]. rewrite Hlen, !bind_ret. psimpl.
  rewrite (proj2 (Z.ltb_ge _ _)) by lia.
  destruct (slice_ok (E := ()) b 12 16) as (s & -> & _ & _); [lia..|]. rewrite bind_ret.
  destruct (slice_ok (E := ()) b 16 20) as (d & -> & _ & _); [lia..|]. rewrite bind_ret.
  assert (∃ b0, b !! 0%nat = Some b0 ∧ @idx () Z b 0 = Ok b0) as (b0 & H0 & ->).
  { destruct b as [|x b]; [done|]. by exists x. }
  rewrite bind_ret. psimpl. set (so := u8 _). assert (so = ihl b) as Hihl by (unfold ihl; by rewrite H0).
  assert (0 ≤ so < 256) as Hso by (apply (uN_range 8); lia). set (q1 := setSubofs so _).
  assert (ipRoom b q1) as HR by (by apply room4).
  destruct (Z.ltb_spec (zlen b) so) as [Hlt|Hge].
  { intros [= <-]. split_and!; [apply room4; done|done|unfold q1; psimpl; lia|right; done|done]. }
  destruct (slice_from_ok (E := ()) b so) as (sub & -> & _ & ->); [lia|]. rewrite bind_ret.
  destruct (get_be_ok (E := ()) 2 b 6) as (fl & -> & _); [done|lia|cbn; lia|]. rewrite bind_ret.
  assert (netFresh b q1) as HF by (split_and!; [done|done|unfold q1; psimpl; lia|left; unfold q1; psimpl; lia|done]).
  destruct (_ =? 0).
  - intros HD. destruct (decode4Sub_total (drop (Z.to_nat so) b) (negb (Z.land fl 8192 =? 0)) q1) as (q' & HD' & Ht);
      [by apply Forall_drop|]. rewrite HD in HD'. injection HD' as <-. eapply netFresh_transport; [done| |done]. unfold q1. psimpl. lia.
  - assert (∀ x, netFresh b (setProto x q1)) as Hx.
    { intros x. destruct HF as (_ & ? & ? & _). split_and!; [by apply room4|done|done|left; unfold q1; psimpl; lia|done]. }
    destruct (_ <? minFragBlks); intros [= <-]; apply Hx.
Qed.

Lemma decode6_fresh b q p :
  bytes_ok b → pb q = b → IPVersion q = 6 → 40 ≤ zlen b → @get_be () 2 b 4 = Ok (zlen b - 40) → decode6 b q = Ok p → netFresh b p.
Proof.
  intros Hb Hp Hv H40 Hlen. unfold decode6, ip6HeaderLength. rewrite (proj2 (Z.ltb_ge _ _)) by lia.
  destruct (idx_ok (E := ()) b 6) as (proto & -> & _); [lia|]. rewrite Hlen, !bind_ret. psimpl.
  rewrite (proj2 (Z.ltb_ge _ _)) by lia.
  destruct (slice_ok (E := ()) b 8 24) as (s & -> & _ & _); [lia..|]. rewrite bind_ret.
  destruct (slice_ok (E := ()) b 24 40) as (d & -> & _ & _); [lia..|]. rewrite bind_ret. set (q1 := setSubofs 40 _).
  assert (∀ x so, 0 ≤ so ≤ zlen b → netFresh b (setProto x (setSubofs so q1))) as HF.
  { intros x so Hso. split_and!; [by apply room6|unfold q1; psimpl; lia|psimpl; lia|left; psimpl; lia|]. unfold q1. psimpl. by rewrite Hv. }
  assert (∀ q2, netFresh b q2 → subofs q2 ≤ zlen b → decode6Sub b q2 = Ok p → netFresh b p) as Hsub.
  { intros q2 H2 Hs HD. pose proof H2 as (_ & _ & H0 & _). destruct (decode6Sub_total b q2 Hb) as (q' & HD' & Ht); [lia|].
    rewrite HD in HD'. injection HD' as <-. by eapply netFresh_transport. }
  assert (q1 = setProto (IPProto q1) (setSubofs 40 q1)) as Hq1 by done.
  destruct (_ =? ip6FragHeader).
  - unfold decode6Fragment, ip6FragHeaderLength. change (subofs q1) with 40.
    destruct (Z.ltb_spec (zlen b) (40 + 8)); [intros [= <-]; rewrite Hq1; apply (HF Unknown 40); lia|].
    destruct (slice_from_ok (E := ()) b 40) as (frag & -> & Hlf & ->); [lia|]. rewrite bind_ret.
    assert (bytes_ok (drop (Z.to_nat 40) b)) by by apply Forall_drop.
    destruct (idx_ok (E := ()) (drop (Z.to_nat 40) b) 0) as (nh & -> & _); [lia|]. rewrite bind_ret.
    destruct (get_be_ok (E := ()) 2 (drop (Z.to_nat 40) b) 2) as (fo & -> & _); [done|lia|cbn [Z.of_nat Pos.of_succ_nat]; lia|]. rewrite bind_ret.
    destruct (_ =? 0); [|destruct (_ <? minFragBlks)]; cbn [mbind res_bind fst snd].
    + apply Hsub; [apply (HF nh 48); lia|psimpl; lia].
    + intros [= <-]. apply (HF Unknown 48). lia.
    + intros [= <-]. apply (HF Fragment 48). lia.
  - apply Hsub; [rewrite Hq1; apply HF; lia|unfold q1; psimpl; lia].
Qed.

Lemma Decode_trimmed b q0 p :
  bytes_ok b → wgTrimmed b → 0 ≤ subofs q0 → 0 ≤ dataofs q0 → Decode b q0 = Ok p → Delivered b p ∧ netFresh b p.
Proof.
  intros Hb (b0 & H0 & HT) Hs Hd HD. assert (netFresh b p) as HF.
  { assert (1 ≤ zlen b) as H1 by (destruct HT as [(_ & ? & _)|(_ & ? & _)]; lia).
    unfold Decode in HD. rewrite (proj2 (Z.ltb_ge _ 1)) in HD by lia.
    assert (@idx () Z b 0 = Ok b0) as E0 by (unfold idx; rewrite decide_True by lia; change (Z.to_nat 0) with 0%nat; by rewrite H0).
    rewrite E0, bind_ret in HD. destruct HT as [(V & H20 & Hl)|(V & H40 & Hl)]; rewrite V in HD; cbn [Z.eqb Pos.eqb] in HD.
    - by apply (decode4_fresh b (setVersion 4 (setBuf b q0))).
    - by apply (decode6_fresh b (setVersion 6 (setBuf b q0))). }
  split; [|done]. destruct (Decode_decoded b q0 Hb) as (p' & HD' & Hdec). rewrite HD in HD'. injection HD' as <-.
  split; [done|done|by eapply Decode_dataofs|intros _; apply HF].
Qed.

(** ** Tables *)
Definition noneOr (P : Addr → Prop) (a : Addr) : Prop := a = AddrZ ∨ P a.
Definition v4 (a : Addr) : Prop := Is4 a = true.
Definition v6 (a : Addr) : Prop := Is6 a = true ∧ hasZone a = false.

(** The configuration gives addresses of the right family. *)
Record wg_ok (c : WGConfig) : Prop := mkWgOk {
  wo_addrs : Forall (λ p, hasZone (pfx_ip p) = false) (wcAddresses c);
  wo_masq : Forall (λ p, noneOr v4 (validMasq (V4MasqAddr p)) ∧ noneOr v6 (validMasq (V6MasqAddr p))) (wcPeers c)
}.

Lemma findV4_ok l : noneOr v4 (findV4 l).
Proof.
  induction l as [|p l IH]; [by left|]. cbn [findV4]. destruct (Is4 _ && _) eqn:HE; [|done].
  right. by apply andb_true_iff in HE as [HE _].
Qed.
Lemma findV6_ok l : Forall (λ p, hasZone (pfx_ip p) = false) l → noneOr v6 (findV6 l).
Proof.
  induction 1 as [|p l Hp _ IH]; [by left|]. cbn [findV6]. destruct (Is6 _ && _) eqn:HE; [|done].
  right. apply andb_true_iff in HE as [HE _]. by split.
Qed.

(** The longest prefix of the entries that are kept is the one of all entries, if that
    one is kept. *)
Definition kept {V W} (f : V → option W) (l : list (Prefix * V)) : list (Prefix * W) :=
  omap (λ e, pair e.1 <$> f e.2) l.

(** [best'] follows [best]: the same entry if it is kept, else one that is not longer. *)
Definition follows {V W} (f : V → option W) (best : option (Z * V)) (best' : option (Z * W)) : Prop :=
  (∀ n v w, best = Some (n, v) → f v = Some w → best' = Some (n, w)) ∧
  (∀ n' w', best' = Some (n', w') → ∃ n v, best = Some (n, v) ∧ n' ≤ n).

Lemma follows_dropped {V W} (f : V → option W) ip p x best best' :
  f x = None → follows f best best' → follows f (lpmStep ip best (p, x)) best'.
Proof.
  intros Hx [H1 H2]. unfold lpmStep. cbn [fst snd]. split.
  - intros m u z. destruct (Contains p ip && _); [intros [= <- <-]; by rewrite Hx|apply H1].
  - intros n' w' Hb. destruct (H2 _ _ Hb) as (n0 & v0 & -> & Hle). destruct (Contains p ip); cbn [andb]; [|by do 2 eexists].
    destruct (Z.leb_spec n0 (Bits p)); do 2 eexists; (split; [done|lia]).
Qed.

Lemma follows_kept {V W} (f : V → option W) ip p x y best best' :
  f x = Some y → follows f best best' → follows f (lpmStep ip best (p, x)) (lpmStep ip best' (p, y)).
Proof.
  intros Hx [H1 H2]. unfold lpmStep. cbn [fst snd]. destruct (Contains p ip); cbn [andb]; [|done].
  destruct best as [[bn bv]|], best' as [[bn' bw']|].
  - destruct (H2 _ _ eq_refl) as (? & ? & [= <- <-] & Hle).
    destruct (Z.leb_spec bn (Bits p)), (Z.leb_spec bn' (Bits p)); try lia; (split; [|naive_solver lia]).
    + intros m u z [= <- <-] Hu. naive_solver.
    + intros m u z [= <- <-] Hu. destruct (H1 _ _ _ eq_refl Hu). exfalso. injection (H1 _ _ _ eq_refl Hu). lia.
    + intros m u z [= <- <-] Hu. by rewrite (H1 _ _ _ eq_refl Hu).
  - destruct (Z.leb_spec bn (Bits p)); (split; [|intros n' w' [= <- <-]; do 2 eexists; split; [done|lia]]).
    + intros m u z [= <- <-] Hu. naive_solver.
    + intros m u z [= <- <-] Hu. by specialize (H1 _ _ _ eq_refl Hu).
  - by destruct (H2 _ _ eq_refl) as (? & ? & ? & _).
  - split; [naive_solver|]. intros n' w' [= <- <-]. by do 2 eexists.
Qed.

Lemma lpm_kept {V W} (f : V → option W) (l : list (Prefix * V)) ip v w :
  lpm l ip = Some v → f v = Some w → lpm (kept f l) ip = Some w.
Proof.
  assert (∀ best best', follows f best best' → follows f (foldl (lpmStep ip) best l) (foldl (lpmStep ip) best' (kept f l))) as HI.
  { induction l as [|[p x] l IH]; intros best best' HF; [done|]. unfold kept. cbn [foldl omap list_omap fst snd].
    destruct (f x) as [y|] eqn:Hx; cbn [fmap option_fmap option_map]; apply IH; [by apply follows_kept|by apply follows_dropped]. }
  unfold lpm. intros Hl Hf. destruct (HI None None) as [H1 _]; [done|].
  destruct (foldl (lpmStep ip) None l) as [[n v']|]; [|done]. injection Hl as ->. by rewrite (H1 n v w).
Qed.

(** ** The table of a configuration *)
Section table.
Context `{HB : BartTable} {HL : BartTableLaw HB}.
Implicit Types pc : option (peerConfigTable (H := HB)).

(** The allowed addresses of the peers, in order. *)
Definition peerRoutes (ps : list WGPeer) : list (Prefix * WGPeer) := ps ≫= λ p, (λ ip, (ip, p)) <$> wpAllowedIPs p.
Definition tableEntries (ex : bool) (n4 n6 : Addr) (ps : list WGPeer) : list (Prefix * peerConfig) :=
  kept (peerConfigOf ex n4 n6) (peerRoutes ps).

Lemma kept_app {V W} (f : V → option W) l k : kept f (l ++ k) = kept f l ++ kept f k.
Proof. unfold kept. by rewrite omap_app. Qed.
Lemma kept_const {W} (f : WGPeer → option W) p (ips : list Prefix) :
  kept f ((λ ip, (ip, p)) <$> ips) = match f p with Some c => (λ ip, (ip, c)) <$> ips | None => [] end.
Proof.
  induction ips as [|ip ips IH]; [by destruct (f p)|]. cbn. fold (kept f ((λ ip, (ip, p)) <$> ips)). rewrite IH.
  by destruct (f p).
Qed.

Lemma insert_all {V} (c : V) ips t0 (l : list (Prefix * V)) :
  t0 = foldl (λ t e, btInsert e.1 e.2 t) btEmpty l →
  foldl (λ t ip, btInsert ip c t) t0 ips = foldl (λ t e, btInsert e.1 e.2 t) btEmpty (l ++ ((λ ip, (ip, c)) <$> ips)).
Proof.
  revert t0 l. induction ips as [|ip ips IH]; intros t0 l ->; [by rewrite app_nil_r|]. cbn [foldl fmap list_fmap].
  rewrite (IH _ (l ++ [(ip, c)])); [by rewrite <- app_assoc|by rewrite foldl_app].
Qed.

Lemma addPeers_table ex n4 n6 ps : ∀ l c0,
  ∃ counts, foldl (addPeer ex n4 n6) (foldl (λ t e, btInsert e.1 e.2 t) btEmpty l, c0, zlen l) ps =
    (foldl (λ t e, btInsert e.1 e.2 t) btEmpty (l ++ tableEntries ex n4 n6 ps), counts, zlen (l ++ tableEntries ex n4 n6 ps)).
Proof.
  induction ps as [|p ps IH]; intros l c0; [exists c0; by rewrite app_nil_r|]. cbn [foldl addPeer].
  unfold tableEntries, peerRoutes. cbn [mbind list_bind]. rewrite kept_app, kept_const. fold (peerRoutes ps).
  fold (tableEntries ex n4 n6 ps). destruct (peerConfigOf ex n4 n6 p) as [c|]; [|apply IH].
  rewrite (insert_all c _ _ l) by done. replace (zlen l + _) with (zlen (l ++ ((λ ip, (ip, c)) <$> wpAllowedIPs p))).
  - rewrite app_assoc. apply IH.
  - rewrite zlen_app. unfold zlen at 2. by rewrite length_fmap.
Qed.

(** A table, or no entries at all. *)
Lemma fromWGConfig_spec c :
  let n4 := findV4 (wcAddresses c) in let n6 := findV6 (wcAddresses c) in
  let es := tableEntries (exitRequiresMasq (wcPeers c)) n4 n6 (wcPeers c) in
  IsValid n4 || IsValid n6 = true →
  (peerConfigTableFromWGConfig (Some c) = None ∧ es = []) ∨
  ∃ t, peerConfigTableFromWGConfig (Some c) = Some t ∧ nativeAddr4 t = n4 ∧ nativeAddr6 t = n6 ∧
    ∀ ip, btLookup (byIP t) ip = lpm es ip.
Proof.
  intros n4 n6 es Hv. unfold peerConfigTableFromWGConfig. fold n4 n6.
  destruct (addPeers_table (exitRequiresMasq (wcPeers c)) n4 n6 (wcPeers c) [] ∅) as (counts & E).
  change (foldl _ btEmpty []) with (@btEmpty HB peerConfig) in E. change (zlen []) with 0 in E. cbn [app] in E. fold es in E.
  rewrite E. replace (negb (IsValid n4) && negb (IsValid n6)) with false by (by destruct (IsValid n4), (IsValid n6)).
  destruct (Z.eqb_spec (zlen es) 0) as [Hz|Hz]; cbn [andb].
  - assert (es = []) as He by (destruct es; [done|unfold zlen in Hz; cbn in Hz; lia]).
    case_bool_decide; [by left|]. right. eexists. split_and!; [done..|]. intros ip. apply HL.
  - right. eexists. split_and!; [done..|]. intros ip. apply HL.
Qed.

Definition table_ok pc : Prop :=
  ∀ t, pc = Some t → noneOr v4 (nativeAddr4 t) ∧ noneOr v6 (nativeAddr6 t) ∧
    ∀ ip c, btLookup (byIP t) ip = Some c → noneOr v4 (dstMasqAddr4 c) ∧ noneOr v6 (dstMasqAddr6 c).

Lemma lpm_elem {V} (l : list (Prefix * V)) ip v : lpm l ip = Some v → ∃ p, (p, v) ∈ l ∧ Contains p ip = true.
Proof.
  unfold lpm. induction l as [|[p x] l IH] using rev_ind; [done|]. rewrite foldl_app. cbn [foldl]. unfold lpmStep at 1. cbn [fst snd].
  destruct (Contains p ip && _) eqn:HE.
  - intros [= <-]. exists p. apply andb_true_iff in HE as [HE _]. split; [apply elem_of_app; right; by left|done].
  - intros Hv. destruct (IH Hv) as (p' & Hp & Hc). exists p'. split; [apply elem_of_app; by left|done].
Qed.

Lemma fromWGConfig_ok c : wg_ok c → table_ok (peerConfigTableFromWGConfig (Some c)).
Proof.
  intros [Ha Hm] t Ht. destruct (IsValid (findV4 (wcAddresses c)) || IsValid (findV6 (wcAddresses c))) eqn:Hv.
  2:{ unfold peerConfigTableFromWGConfig in Ht. apply orb_false_iff in Hv as [V4 V6]. by rewrite V4, V6 in Ht. }
  destruct (fromWGConfig_spec c Hv) as [[E _]|(t' & E & N4 & N6 & HLk)]; rewrite E in Ht; [done|]. injection Ht as <-.
  rewrite N4, N6. pose proof (findV4_ok (wcAddresses c)) as O4. pose proof (findV6_ok _ Ha) as O6. split_and!; [done..|].
  intros ip cf. rewrite HLk. intros Hc. destruct (lpm_elem _ _ _ Hc) as (p & Hp & _). unfold tableEntries, kept in Hp.
  apply list_elem_of_omap in Hp as ([p' w] & Hw & Hf). cbn [fst snd] in Hf. unfold peerRoutes in Hw.
  apply list_elem_of_bind in Hw as (w' & Hw & Hin). apply list_elem_of_fmap in Hw as (ip' & [= -> ->] & _).
  rewrite Forall_forall in Hm. destruct (Hm _ Hin) as [M4 M6]. destruct (peerConfigOf _ _ _ w') as [c'|] eqn:HP; [|done].
  injection Hf as <- <-. unfold peerConfigOf in HP. destruct (_ && _ && negb (IsJailed w')); [done|]. injection HP as <-.
  cbn [dstMasqAddr4 dstMasqAddr6]. split; [destruct (_ && _ && IsValid (findV4 _))|destruct (_ && _ && IsValid (findV6 _))]; done.
Qed.

(** The peer whose allowed addresses match [ip] best is jailed by the table, if it is to
    be jailed. *)
Lemma jailed_lookup c ip p :
  IsValid (findV4 (wcAddresses c)) || IsValid (findV6 (wcAddresses c)) = true →
  lpm (peerRoutes (wcPeers c)) ip = Some p → IsJailed p = true →
  isJailed (peerConfigTableFromWGConfig (Some c)) ip = true.
Proof.
  intros Hv Hp Hj. set (ex := exitRequiresMasq (wcPeers c)). set (n4 := findV4 (wcAddresses c)) in *. set (n6 := findV6 (wcAddresses c)) in *.
  assert (∃ cf, peerConfigOf ex n4 n6 p = Some cf ∧ jailed cf = true) as (cf & Hcf & Hjc).
  { unfold peerConfigOf. rewrite Hj, andb_false_r. by eexists. }
  pose proof (lpm_kept _ _ _ _ _ Hp Hcf) as Hk. fold (tableEntries ex n4 n6 (wcPeers c)) in Hk.
  destruct (fromWGConfig_spec c Hv) as [[_ E]|(t & -> & _ & _ & HLk)]; [fold n4 n6 ex in E; by rewrite E in Hk|].
  cbn [isJailed]. fold n4 n6 ex in HLk. by rewrite HLk, Hk.
Qed.

(** A reply to a masqueraded address is for the address that was masqueraded. *)
Lemma mapDst_selectSrc pc src dst :
  table_ok pc → selectSrcIP pc src dst ≠ src → mapDstIP pc dst (selectSrcIP pc src dst) = src.
Proof.
  intros Hok. destruct pc as [t|]; [|done]. destruct (Hok t eq_refl) as (_ & _ & Hc). unfold selectSrcIP, mapDstIP.
  destruct src as [|a|a z]; cbn [Is4 Is6 andb].
  - destruct (btLookup (byIP t) dst); done.
  - case_bool_decide as Hn; [done|]. destruct (btLookup (byIP t) dst) as [c|] eqn:HLk; [|done].
    destruct (Hc _ _ HLk) as [[M|M] _]; [by rewrite M|]. destruct (dstMasqAddr4 c) as [|m|] eqn:Em; try done.
    cbn [IsValid Is4 andb]. intros _. rewrite <- Hn. cbn [IsValid andb]. by rewrite bool_decide_eq_true_2 by done.
  - case_bool_decide as Hn; [done|]. destruct (btLookup (byIP t) dst) as [c|] eqn:HLk; [|done].
    destruct (Hc _ _ HLk) as [_ [M|M]]; [by rewrite M|]. destruct (dstMasqAddr6 c) as [| |m z'] eqn:Em; try done; [by destruct M|].
    cbn [IsValid Is4 Is6 andb]. intros _. rewrite <- Hn. cbn [IsValid andb]. by rewrite bool_decide_eq_true_2 by done.
Qed.

Lemma mapDst_family pc src dst :
  table_ok pc → mapDstIP pc src dst ≠ dst → sameFamily dst (mapDstIP pc src dst).
Proof.
  intros Hok. destruct pc as [t|]; [|done]. destruct (Hok t eq_refl) as (N4 & N6 & _). unfold mapDstIP.
  destruct (btLookup (byIP t) src) as [c|]; [|done].
  destruct (Is4 dst && IsValid (nativeAddr4 t) && _) eqn:E4.
  - intros _. rewrite !andb_true_iff in E4. destruct E4 as [[D4 V4] _].
    destruct N4 as [N4|N4]; [by rewrite N4 in V4|]. unfold v4 in N4. unfold sameFamily. rewrite D4. done.
  - destruct (Is6 dst && IsValid (nativeAddr6 t) && _) eqn:E6; [|done]. intros _. rewrite !andb_true_iff in E6.
    destruct E6 as [[D6 V6] _]. destruct N6 as [N6|[N6 Nz]]; [by rewrite N6 in V6|].
    assert (Is4 dst = false) as D4 by (by destruct dst). unfold sameFamily. rewrite D4. split_and!; [done|by destruct (nativeAddr6 t)|done].
Qed.

Lemma selectSrc_family pc src dst :
  table_ok pc → selectSrcIP pc src dst ≠ src → sameFamily src (selectSrcIP pc src dst).
Proof.
  intros Hok. destruct pc as [t|]; [|done]. destruct (Hok t eq_refl) as (_ & _ & Hc). unfold selectSrcIP.
  destruct (Is4 src && _); [done|]. destruct (Is6 src && bool_decide _); [done|].
  destruct (btLookup (byIP t) dst) as [c|] eqn:HLk; [|done]. destruct (Hc _ _ HLk) as [M4 M6].
  destruct (Is4 src && IsValid (dstMasqAddr4 c)) eqn:E4.
  - intros _. apply andb_true_iff in E4 as [S4 V4]. destruct M4 as [M4|M4]; [by rewrite M4 in V4|].
    unfold v4 in M4. unfold sameFamily. rewrite S4. done.
  - destruct (Is6 src && IsValid (dstMasqAddr6 c)) eqn:E6; [|done]. intros _. apply andb_true_iff in E6 as [S6 V6].
    destruct M6 as [M6|[M6 Mz]]; [by rewrite M6 in V6|]. assert (Is4 src = false) as S4 by (by destruct src). unfold sameFamily. rewrite S4.
    split_and!; [done|by destruct (dstMasqAddr6 c)|done].
Qed.

(** ** Rewriting packets *)

(** The packet with its destination replaced, in fields and bytes. *)
Record redirected (b : bytes) (p : Parsed) (dst : Addr) (p' : Parsed) : Prop := mkRedirected {
  rd_eq : p' = setBuf (pb p') (setDst (mkAddrPort dst (ap_port (Dst p))) p);
  rd_len : zlen (pb p') = zlen b;
  rd_deliv : Delivered (pb p') p';
  rd_room : ipRoom (pb p') p'
}.

Lemma ipRoom_redirect b p b' new :
  ipRoom b p → zlen b' = zlen b → sameFamily (ap_addr (Dst p)) new →
  ipRoom b' (setBuf b' (setDst (mkAddrPort new (ap_port (Dst p))) p)).
Proof.
  intros HR Hl (Hv & H4 & H6). destruct HR as [V L A B|V L A [B Bz]].
  - apply room4; [done|lia|done|]. cbn [Dst setBuf setDst ap_addr]. by rewrite H4.
  - apply room6; [done|lia|done|]. cbn [Dst setBuf setDst ap_addr]. apply H6. by destruct (ap_addr (Dst p)).
Qed.

Lemma Delivered_redirect b p b' new :
  Delivered b p → ipRoom b p → zlen b' = zlen b → bytes_ok b' → sameFamily (ap_addr (Dst p)) new →
  Delivered b' (setBuf b' (setDst (mkAddrPort new (ap_port (Dst p))) p)).
Proof.
  intros [Hb [D1 D2 D3 D4 D5] Hd Hw] HR Hl Hb' (Hv & H4 & H6). split; [done| |done|].
  - split; cbn [pb setBuf setDst IPVersion IPProto subofs plength Src Dst ap_addr]; [done|done|done| |].
    + intros Hn. rewrite Hl. auto.
    + intros Hn. destruct (D5 Hn) as [F4 F6]. split.
      * intros V. destruct (F4 V) as [A B]. split; [done|]. by rewrite H4.
      * intros V. destruct (F6 V) as [A [B _]]. split; [done|]. apply H6. by destruct (ap_addr (Dst p)).
  - cbn [IPProto setBuf setDst plength]. rewrite Hl. done.
Qed.

Lemma dnat_redirects pc b p :
  table_ok pc → Delivered b p → netFresh b p →
  let new := mapDstIP pc (ap_addr (Src p)) (ap_addr (Dst p)) in
  (new ≠ ap_addr (Dst p) ∧ zlen b < subofs p → dnat pc p = Panic) ∧
  (new = ap_addr (Dst p) ∨ subofs p ≤ zlen b → ∃ p', dnat pc p = Ok p' ∧ redirected b p new p').
Proof.
  intros Hok HD (HR & Hl & H0 & Hs & _) new. pose proof (d_buf _ _ (dl_decoded _ _ HD)) as Hpb.
  unfold dnat. fold new. case_bool_decide as Hn.
  - pose proof (mapDst_family pc _ _ Hok Hn) as HF. fold new in HF. split.
    + intros [_ Hlt]. destruct Hs as [Hs|V]; [lia|]. by apply (UpdateDstAddr_panics b).
    + intros Hor. destruct (UpdateDstAddr_total b p new Hpb HR) as (b' & -> & Lb & Ob); [destruct Hor; [done|lia]|done|].
      eexists. split; [done|]. split; [done|done|..]; cbn [pb setBuf];
        [apply (Delivered_redirect b); try done; apply Ob, HD|by apply (ipRoom_redirect b)].
  - split; [intros [? _]; done|]. intros _. exists p. split; [done|]. rewrite Hn. split.
    + by destruct p as [? ? ? ? ? ? ? [? ?] ?].
    + by rewrite Hpb.
    + by rewrite Hpb.
    + by rewrite Hpb.
Qed.
End table.

(** The table of a configuration jails every peer that is to be jailed: an address
    whose longest allowed prefix belongs to a jailed peer is a jailed one. It can jail
    others: a jailed exit node that needs no masquerading is the only entry of its
    table, and its default route matches every other peer. *)
Theorem jailed_peers (HB : BartTable) (HL : BartTableLaw HB) :
  (∀ c ip p, IsValid (findV4 (wcAddresses c)) || IsValid (findV6 (wcAddresses c)) = true →
     lpm (peerRoutes (wcPeers c)) ip = Some p → IsJailed p = true →
     isJailed (peerConfigTableFromWGConfig (Some c)) ip = true) ∧
  (let plain := mkWGPeer 1 1 [PrefixFrom (IPv4 100 64 0 2) 32] None None false 0 in
   let exit := mkWGPeer 2 2 [AllIPv4; AllIPv6] None None true 0 in
   let c := mkWGConfig 7 [PrefixFrom (IPv4 100 64 0 1) 32] [plain; exit] in
   lpm (peerRoutes (wcPeers c)) (IPv4 100 64 0 2) = Some plain ∧
   isJailed (peerConfigTableFromWGConfig (Some c)) (IPv4 100 64 0 2) = true).
Proof.
  split; [intros c ip p; apply jailed_lookup|]. intros plain exit c. split; [done|].
  destruct (fromWGConfig_spec c) as [[_ E]|(t & -> & _ & _ & HLk)]; [done|done|]. cbn [isJailed]. rewrite HLk. done.
Qed.

(** A table that scans its entries. *)
#[export] Instance scanTable : BartTable :=
  {| bt V := list (Prefix * V); btEmpty V := []; btInsert V p v t := t ++ [(p, v)]; btLookup V t ip := lpm t ip |}.
#[export] Instance scanTable_law : BartTableLaw scanTable.
Proof.
  intros V l ip. cbn [btLookup scanTable]. f_equal. induction l as [|[p v] l IH] using rev_ind; [done|].
  rewrite foldl_app. cbn [foldl]. by rewrite IH.
Qed.

Lemma jailed_peers_witness :
  isJailed (peerConfigTableFromWGConfig (Some (mkWGConfig 7 [PrefixFrom (IPv4 100 64 0 1) 32]
    [mkWGPeer 2 2 [PrefixFrom (IPv4 100 64 0 3) 32] None None true 0]))) (IPv4 100 64 0 3) = true.
Proof.
  destruct (jailed_peers scanTable scanTable_law) as [H _]. eapply H; [done|vm_compute; reflexivity|done].
Defined.
