(* ===== verification/TunWrapThms.v ===== *)
(** * Correctness of the wrapper around the TUN device

    The path of packets from WireGuard: it never panics on well-formed packets, and
    only packets that the policy of the filter in charge admits go on to the host and
    to the hooks behind the filter. *)

From stdpp Require Import base gmap sets list strings.
From S2P Require Import Prelude GoStd Bytes NetIP TSAddr FlowTrack Packet PacketThms Headers HeadersThms Checksum ChecksumThms Filter FilterThms Netstack InboundThms Disco DiscoThms Tsmp TsmpThms TunWrap NatThms.

(** ** Messages the wrapper sends *)
Lemma pongReply_total ip data port : length data = 8%nat → ∃ b, Generate (mkPong (Some ip) data port) [] = Ok b.
Proof.
  intros Hd. assert (HLen ip = 20 ∨ HLen ip = 40) as Hlen by (destruct ip; auto).
  unfold Generate. change (HLen (mkPong (Some ip) data port)) with (HLen ip + 11).
  change (Marshal (mkPong (Some ip) data port)) with (pongReplyMarshal ip data port). rewrite app_nil_r.
  set (buf := replicate _ 0). assert (zlen buf = HLen ip + 11) as Hz by (unfold buf, zlen; rewrite length_replicate; lia).
  change WriteChecksum with (@None (TSMPPongReply → bytes → res HdrErr bytes)). unfold pongReplyMarshal.
  rewrite (proj2 (Z.ltb_ge _ _)) by lia.
  assert (keeps (zlen buf) (Marshal ip buf)) as HK
    by (destruct ip; [by apply ip4Marshal_keeps|by apply ip6Marshal_keeps]).
  destruct (Marshal ip buf) as [b1| |]; [|by eexists|done]. cbn [keeps] in HK. rewrite bind_ret.
  erewrite advanceBy_ok; [rewrite bind_ret|reflexivity|lia].
  destruct (put_total (E := HdrErr) b1 [TSMPTypePong] (0 + HLen ip)) as (b2 & -> & L2 & _); [lia|tlen|by repeat constructor|].
  rewrite bind_ret. unfold copyTo. rewrite decide_True by lia. rewrite take_ge by tlen.
  rewrite put_ok, bind_ret; [|lia|tlen]. unfold put_be. rewrite put_ok; [by eexists|lia|].
  rewrite !zlen_app. unfold zlen in *. rewrite be_bytes_length, length_take, length_drop, Hd. lia.
Qed.

Lemma rejected4_total h :
  Is4 (rjIPSrc h) = true → Is4 (rjIPDst h) = true → Is4 (ap_addr (rjSrc h)) = true → MaybeBroken h = false →
  ∃ b, Generate h [] = Ok b.
Proof.
  intros Hs Hd Hr Hm. destruct (rjIPSrc h) as [|s|] eqn:Es, (rjIPDst h) as [|d|] eqn:Ed; try done.
  assert (rejectedLen h = 27) as Hl by (unfold rejectedLen, hasFlags; by rewrite Es, Hm).
  unfold Generate. change (HLen h) with (rejectedLen h). change (Marshal h) with (rejectedMarshal h). rewrite app_nil_r, Hl.
  change WriteChecksum with (@None (TailscaleRejectedHeader → bytes → res HdrErr bytes)).
  unfold rejectedMarshal, rejectedIP, hasFlags. rewrite Hl, Hr, Es, Ed, Hm. change (_ <? _) with false. change (_ <? _) with false. cbn match.
  change (replicate (Z.to_nat 27) 0) with (replicate 20 0 ++ replicate 7 0).
  change (Marshal (mkIP4Header TSMP 0 (Addr4 s) (Addr4 d))) with (ip4Marshal (mkIP4Header TSMP 0 (Addr4 s) (Addr4 d))).
  rewrite (ip4Marshal_bytes _ s d) by done. cbn [ignoreErr]. rewrite bind_ret.
  set (hd := ip4Bytes _ _ _ _). assert (zlen hd = 20) as H20 by (unfold zlen, hd; by rewrite ip4Bytes_length by apply be_bytes_length).
  erewrite advanceBy_ok; [rewrite bind_ret|reflexivity|change (HLen _) with 20; tlen]. cbn [mbind res_bind]. change (HLen _) with 20.
  do 3 (rewrite put_cursor, bind_ret by tlen). rewrite put_be_cursor, bind_ret by tlen. rewrite put_be_cursor by tlen. by eexists.
Qed.

(** ** The policy of the filter in charge *)
Definition Policed (f : Filter) (P : Store → Parsed → bool) : Prop :=
  ∃ bartContains ms capTest nets, BartLaw bartContains ∧ Forall match_ok ms ∧ Forall prefix_ok nets ∧
    BuiltFrom bartContains ms capTest nets f ∧ ∀ σ p, P σ p = policyIn ms capTest nets f (trackedIn f p σ) p.

Lemma Policed_run f P b p σ :
  Policed f P → Decoded b p → StoreOk σ →
  ∃ σ', RunIn f p σ = Ok (if P σ p then Accept else Drop, σ') ∧ StoreOk σ'.
Proof.
  intros (bc & ms & ct & nets & HBL & Hms & Hn & Hf & HP) HD Hσ. rewrite HP. by eapply (RunIn_verdict bc).
Qed.

(** A flow table in which the flows of [σ0] are tracked, whatever their order. *)
Definition tracks (σ0 σ : Store) : Prop := StoreOk σ ∧ ∀ g p, trackedIn g p σ = trackedIn g p σ0.
Lemma tracks_refl σ : StoreOk σ → tracks σ σ.
Proof. by split. Qed.
Lemma Policed_tracks f P σ0 σ p : Policed f P → tracks σ0 σ → P σ p = P σ0 p.
Proof. intros (bc & ms & ct & nets & _ & _ & _ & _ & HP) [_ Ht]. by rewrite !HP, Ht. Qed.
Lemma RunIn_tracks f p σ0 σ r σ' : tracks σ0 σ → RunIn f p σ = Ok (r, σ') → StoreOk σ' → tracks σ0 σ'.
Proof. intros [Hσ Ht] E Hσ'. split; [done|]. intros g q. rewrite <- Ht. by eapply RunIn_tracked. Qed.

Section inbound.
Context `{HB : BartTable} {HS : Type} (MaxPacketSize : Z).
Implicit Types (w : Wrapper (H := HB) (HS := HS)) (s : TState (HS := HS)).
Context (Pn Pj : Store → Parsed → bool) (I : HS → Prop) (σ0 : Store).

(** The packet is admitted by the filter of its sender with the flows of [σ], or it opens
    a connection to the peer API. *)
Definition admittedAt w (σ : Store) (p : Parsed) : Prop :=
  (if inboundPacketIsJailed (peerConfigOfW w) p then is_Some (jailedFilter w) else is_Some (wfilter w)) ∧
  ((if inboundPacketIsJailed (peerConfigOfW w) p then Pj σ p else Pn σ p) = true ∨
   (IPProto p = TCP ∧ isTCPSynBit p = true ∧
    ∃ f, wPeerAPIPort w = Some f ∧ f (ap_addr (Dst p)) = (ap_port (Dst p), true))).

(** A hook that leaves the packet and the flows alone and keeps [I], on packets with [Q]. *)
Definition hookKeeps (h : option (FilterFunc (HS := HS))) (Q : Parsed → Prop) : Prop :=
  ∀ f, h = Some f → ∀ b p s, Delivered b p → Q p → I (hookState s) →
    ∃ r s', f p s = Ok (r, p, s') ∧ flowsOf s' = flowsOf s ∧ I (hookState s').

Record wrapper_ok w : Prop := mkWrapperOk {
  wk_table : table_ok (peerConfigOfW w);
  wk_filter : ∀ f, wfilter w = Some f → Policed f Pn;
  wk_jailed : ∀ f, jailedFilter w = Some f → Policed f Pj;
  wk_pre : hookKeeps (PreFilterPacketInboundFromWireGuard w) (λ _, True);
  wk_app : hookKeeps (PostFilterPacketInboundFromWireGuardAppConnector w) (admittedAt w σ0);
  wk_post : hookKeeps (PostFilterPacketInboundFromWireGuard w) (admittedAt w σ0);
  wk_pong : ∀ f, OnTSMPPongReceived w = Some f → ∀ d h, I h → I (f d h);
  wk_echo : ∀ f, OnICMPEchoResponseReceived w = Some f → ∀ b p h, Delivered b p → I h → ∃ r h', f p h = Ok (r, h') ∧ I h';
  wk_transit : ∀ f, OnUnmappedTransitIPMessage w = Some f → ∀ d h, I h → I (f d h);
  wk_on : disableFilter w = false
}.

(** A state that differs from [s] in what the wrapper has done, and in the hooks. *)
Definition sameFlows s s' : Prop := flowsOf s' = flowsOf s ∧ I (hookState s').

Lemma InjectOutbound_flows pkt s : I (hookState s) → sameFlows s (InjectOutbound MaxPacketSize pkt s).
Proof. intros. unfold InjectOutbound. by repeat case_match. Qed.

Lemma injectOutboundPong_total w b p data s :
  pb p = b → ipRoom b p → length data = 8%nat → I (hookState s) →
  ∃ s', injectOutboundPong MaxPacketSize w p data s = Ok s' ∧ sameFlows s s'.
Proof.
  intros Hpb HR Hd HI. unfold injectOutboundPong. destruct HR as [V L _ _|V L _ _]; rewrite V; cbn [Z.eqb Pos.eqb].
  - unfold pIP4Header. rewrite V, Hpb. cbn [Z.eqb Pos.eqb]. unfold get_be.
    destruct (slice_ok (E := HdrErr) b 4 (4 + Z.of_nat 2)) as (x & -> & _); [lia|lia|]. rewrite !bind_ret.
    destruct (pongReply_total (inl (ip4ToResponse (mkIP4Header (IPProto p) (be_val 0 x) (ap_addr (Src p)) (ap_addr (Dst p))))) data
      match wPeerAPIPort w with Some f => (f (ap_addr (Dst p))).1 | None => 0 end Hd) as [pkt ->].
    rewrite bind_ret. eexists. split; [done|by apply InjectOutbound_flows].
  - unfold pIP6Header. rewrite V, Hpb. cbn [Z.eqb Pos.eqb]. unfold get_be.
    destruct (slice_ok (E := HdrErr) b 0 (0 + Z.of_nat 4)) as (x & -> & _); [lia|lia|]. rewrite !bind_ret.
    destruct (pongReply_total (inr (ip6ToResponse (mkIP6Header (IPProto p) (Z.shiftr (u32 (Z.shiftl (be_val 0 x) 12)) 12)
      (ap_addr (Src p)) (ap_addr (Dst p))))) data
      match wPeerAPIPort w with Some f => (f (ap_addr (Dst p))).1 | None => 0 end Hd) as [pkt ->].
    rewrite bind_ret. eexists. split; [done|by apply InjectOutbound_flows].
Qed.

Lemma AsTSMPPing_length p d : AsTSMPPing p = Ok (Some d) → length d = 8%nat.
Proof.
  unfold AsTSMPPing. destruct (negb _); [done|]. destruct (Payload p) as [s| |]; [|done..]. rewrite bind_ret.
  destruct (Z.ltb_spec (zlen s) 9); [done|]. destruct (idx s 0) as [t| |]; [|done..]. rewrite bind_ret. destruct (negb _); [done|].
  destruct (slice_from_ok (E := ()) s 1) as (x & -> & Lx & _); [lia|]. rewrite bind_ret. intros [= <-].
  unfold copyFixed. rewrite length_app, length_take, length_replicate. unfold zlen in *. lia.
Qed.

Lemma handleTSMP_total w b p s :
  wrapper_ok w → Delivered b p → ipRoom b p → IPProto p = TSMP → I (hookState s) →
  ∃ e s', handleTSMP MaxPacketSize w p s = Ok (e, s') ∧ sameFlows s s'.
Proof.
  intros HW HD HR Hp HI. destruct (TSMP_total b p HD Hp) as (T1 & T2 & T3 & T4).
  destruct (total_ok _ T1) as [ping E1], (total_ok _ T2) as [ad E2], (total_ok _ T3) as [pong E3], (total_ok _ T4) as [rj E4].
  unfold handleTSMP. rewrite E1, E2, E3, E4. cbn [liftPkt]. rewrite !bind_ret.
  destruct ping as [d|].
  { destruct (injectOutboundPong_total w b p d s) as (s' & -> & Hs); [apply HD|done|by eapply AsTSMPPing_length|done|].
    rewrite bind_ret. by do 2 eexists. }
  destruct ad as [ka|]; [by do 2 eexists|]. destruct pong as [d|].
  { do 2 eexists. split; [done|]. destruct (OnTSMPPongReceived w) eqn:E; [split; [done|]; by eapply wk_pong|done]. }
  destruct rj as [d|]; [|by do 2 eexists]. do 2 eexists. split; [done|]. destruct (_ =? _); [|done].
  destruct (OnUnmappedTransitIPMessage w) eqn:E; [split; [done|]; by eapply wk_transit|done].
Qed.

Lemma isSelfDisco_total w b p : Delivered b p → IPProto p = UDP → ∃ r, isSelfDisco w p = Ok r.
Proof.
  intros HD Hp. unfold isSelfDisco. rewrite Hp. cbn [negb Z.eqb UDP Pos.eqb]. destruct (Payload_whole b p HD) as [x ->]; [by rewrite Hp|].
  rewrite bind_ret. destruct (Source x); by eexists.
Qed.

(** The verdict: whatever the filter says is what [admittedAt] says. *)
Lemma inboundOutcome_spec w f P b p s :
  Policed f P → Delivered b p → tracks σ0 (flowsOf s) →
  ∃ r s', inboundOutcome w f p s = Ok (r, s') ∧ tracks σ0 (flowsOf s') ∧ hookState s' = hookState s ∧
    (r = Accept ↔ P σ0 p = true ∨
       (IPProto p = TCP ∧ isTCPSynBit p = true ∧
        ∃ f, wPeerAPIPort w = Some f ∧ f (ap_addr (Dst p)) = (ap_port (Dst p), true))).
Proof.
  intros HP HD Hσ. destruct (Policed_run f P b p (flowsOf s) HP (dl_decoded _ _ HD) (proj1 Hσ)) as (σ' & E & Hσ').
  unfold inboundOutcome. rewrite E. cbn [liftPkt mbind res_bind]. do 2 eexists. split; [done|].
  split; [by eapply RunIn_tracks|]. split; [done|]. rewrite (Policed_tracks f P σ0 (flowsOf s) p HP Hσ).
  destruct (P σ0 p); [rewrite bool_decide_eq_false_2 by auto; cbn [andb]; naive_solver|].
  rewrite bool_decide_eq_true_2 by done. cbn [andb]. destruct (Z.eqb_spec (IPProto p) TCP) as [Ht|Ht]; cbn [andb]; [|naive_solver].
  destruct (isTCPSynBit p) eqn:Hsyn; [|naive_solver]. destruct (wPeerAPIPort w) as [g|]; [|naive_solver].
  destruct (g (ap_addr (Dst p))) as [port ok] eqn:Hg. destruct ok; cbn [andb].
  - destruct (Z.eqb_spec port (ap_port (Dst p))) as [->|Hne]; [naive_solver|]. split; [done|].
    intros [|(_ & _ & g' & [= <-] & Hg')]; [done|]. rewrite Hg in Hg'. by injection Hg'.
  - split; [done|]. intros [|(_ & _ & g' & [= <-] & Hg')]; [done|]. rewrite Hg in Hg'. by injection Hg'.
Qed.

Lemma rejectInbound_total w f b p s :
  Delivered b p → I (hookState s) → ∃ s', rejectInbound MaxPacketSize w f p s = Ok s' ∧ sameFlows s s'.
Proof.
  intros HD HI. unfold rejectInbound. destruct (_ && _ && _ && _) eqn:HE; [|by eexists].
  rewrite !andb_true_iff, !Z.eqb_eq in HE. destruct HE as [[[V T] _] _].
  destruct (d_family _ _ (dl_decoded _ _ HD)) as [F _]; [by rewrite T|]. destruct (F V) as [A B].
  destruct (rejected4_total (mkRejected (ap_addr (Dst p)) (ap_addr (Src p)) (Src p) (Dst p) (IPProto p)
    (if shieldsUp f then RejectedDueToShieldsUp else RejectedDueToACLs) false)) as [pkt ->]; [done..|].
  rewrite bind_ret. eexists. split; [done|by apply InjectOutbound_flows].
Qed.

Lemma runHook_keeps h Q b p s k (R : Response → TState → Prop) :
  hookKeeps h Q → Delivered b p → Q p → I (hookState s) →
  (∀ r s', IsDrop r = true → sameFlows s s' → R r s') →
  (∀ s', sameFlows s s' → ∃ r s'', k p s' = Ok (r, p, s'') ∧ R r s'') →
  ∃ r s'', runHook h p s k = Ok (r, p, s'') ∧ R r s''.
Proof.
  intros Hh HD HQ HI Hdrop Hk. unfold runHook. destruct h as [f|]; [|by apply Hk].
  destruct (Hh f eq_refl b p s HD HQ HI) as (r & s' & -> & Hf & HI'). rewrite bind_ret.
  destruct (IsDrop r) eqn:Hr; [do 2 eexists; split; [done|by apply Hdrop]|]. by apply Hk.
Qed.

(** What the rest of the path makes of a packet. *)
Definition verdictOk w p (r : Response) (s' : TState (HS := HS)) : Prop :=
  tracks σ0 (flowsOf s') ∧ I (hookState s') ∧ (r = Accept → admittedAt w σ0 p).

Lemma filterPart_ok w b p s :
  wrapper_ok w → Delivered b p → tracks σ0 (flowsOf s) → I (hookState s) →
  ∃ r s',
    match (if inboundPacketIsJailed (peerConfigOfW w) p then jailedFilter w else wfilter w) with
    | None => Ok (Drop, p, s)
    | Some filt =>
        '(outcome, s) ← inboundOutcome w filt p s;
        if decide (outcome ≠ Accept) then s ← rejectInbound MaxPacketSize w filt p s; Ok (Drop, p, s)
        else
          runHook (PostFilterPacketInboundFromWireGuardAppConnector w) p s (λ p s,
            runHook (PostFilterPacketInboundFromWireGuard w) p s (λ p s, Ok (Accept, p, s)))
    end = Ok (r, p, s') ∧ verdictOk w p r s'.
Proof.
  intros HW HD Hσ HI.
  set (fo := if inboundPacketIsJailed (peerConfigOfW w) p then jailedFilter w else wfilter w).
  set (P := if inboundPacketIsJailed (peerConfigOfW w) p then Pj else Pn).
  assert (∀ f, fo = Some f → Policed f P) as HP
    by (unfold fo, P; destruct (inboundPacketIsJailed _ _); [apply wk_jailed|apply wk_filter]; done).
  destruct fo as [filt|] eqn:Hfo; [|by do 2 eexists].
  destruct (inboundOutcome_spec w filt P b p s) as (r & s1 & -> & Hσ1 & Hh1 & Hr); [by apply HP|done..|].
  rewrite bind_ret. rewrite <- Hh1 in HI. case_decide as Hd.
  { destruct (rejectInbound_total w filt b p s1 HD HI) as (s2 & -> & Hf2 & HI2). rewrite bind_ret.
    do 2 eexists. split; [done|]. split; [by rewrite Hf2|done]. }
  assert (admittedAt w σ0 p) as Hadm.
  { apply Hr in Hd. unfold admittedAt, fo, P in *. by destruct (inboundPacketIsJailed _ _); rewrite Hfo. }
  eapply (runHook_keeps _ _ b); [by apply HW|done|done|done|..].
  { intros r' s' Hdr [Hf HI']. split; [by rewrite Hf|]. split; [done|]. by intros ->. }
  intros s2 [Hf2 HI2]. eapply (runHook_keeps _ _ b); [by apply HW|done|done|done|..].
  - intros r' s' Hdr [Hf HI']. split; [by rewrite Hf, Hf2|]. split; [done|]. by intros ->.
  - intros s3 [Hf3 HI3]. do 2 eexists. split; [done|]. split; [by rewrite Hf3, Hf2|]. done.
Qed.

Lemma inbound_verdict w b p s :
  wrapper_ok w → Delivered b p → ipRoom b p → tracks σ0 (flowsOf s) → I (hookState s) →
  ∃ r s', filterPacketInboundFromWireGuard MaxPacketSize w (peerConfigOfW w) p s = Ok (r, p, s') ∧ verdictOk w p r s'.
Proof.
  intros HW HD HR Hσ HI. unfold filterPacketInboundFromWireGuard.
  assert (∃ e s1, (if IPProto p =? TSMP then handleTSMP MaxPacketSize w p s else Ok (false, s)) = Ok (e, s1) ∧ sameFlows s s1)
    as (e & s1 & -> & F1 & HI1).
  { destruct (Z.eqb_spec (IPProto p) TSMP); [by apply (handleTSMP_total w b)|by do 2 eexists]. }
  rewrite bind_ret. destruct e; [do 2 eexists; split; [done|]; by split; [rewrite F1|]|].
  destruct (isEcho_total b p ICMP4EchoReply ICMP6EchoReply (dl_decoded _ _ HD)) as [er Her]. fold IsEchoResponse in Her.
  rewrite Her. cbn [liftPkt]. rewrite bind_ret.
  assert (∃ h s2, (match OnICMPEchoResponseReceived w with
       | Some f => if er : bool then '(b, h) ← f p (hookState s1); Ok (b, withHook h s1) else Ok (false, s1)
       | None => Ok (false, s1)
       end) = Ok (h, s2) ∧ sameFlows s1 s2) as (h & s2 & -> & F2 & HI2).
  { destruct (OnICMPEchoResponseReceived w) as [f|] eqn:E; [|by do 2 eexists]. destruct er; [|by do 2 eexists].
    destruct (wk_echo w HW f E b p (hookState s1) HD HI1) as (r & h' & -> & HI'). rewrite bind_ret. by do 2 eexists. }
  rewrite bind_ret. destruct h; [do 2 eexists; split; [done|]; by split; [rewrite F2, F1|]|].
  assert (∃ self, (if IPProto p =? UDP then liftPkt (isSelfDisco w p) else Ok false) = Ok self) as [self ->].
  { destruct (Z.eqb_spec (IPProto p) UDP) as [Hu|]; [|by eexists]. destruct (isSelfDisco_total w b p HD Hu) as [r ->]. by eexists. }
  rewrite bind_ret. destruct self; [do 2 eexists; split; [done|]; by split; [rewrite F2, F1|]|].
  eapply (runHook_keeps _ (λ _, True) b); [by apply HW|done|done|done|..].
  - intros r' s' Hdr [Hf HI']. split; [by rewrite Hf, F2, F1|]. split; [done|]. by intros ->.
  - intros s3 [F3 HI3]. assert (flowsOf s3 = flowsOf s) as Hfl by (by rewrite F3, F2, F1).
    destruct (filterPart_ok w b p s3 HW HD) as (r & s4 & HE & V1 & V2 & V3); [by rewrite Hfl|done|].
    do 2 eexists. split; [exact HE|]. done.
Qed.

(** ** Write *)

(** The header fits the packet, which WireGuard does not check. *)
Definition headerFits (b : bytes) : Prop := Z.shiftr (default 0 (b !! 0%nat)) 4 = 4 → ihl b ≤ zlen b.

(** What was written for the buffers: of each either nothing or, with its destination
    mapped, a packet that is admitted with the flows of [σ0]. *)
Inductive written w (offset : Z) : list bytes → list bytes → Prop :=
  | written_nil : written w offset [] []
  | written_drop buff buffs out : written w offset buffs out → written w offset (buff :: buffs) out
  | written_keep buff buffs out q0 p p' :
      Decode (drop (Z.to_nat offset) buff) q0 = Ok p →
      redirected (drop (Z.to_nat offset) buff) p (mapDstIP (peerConfigOfW w) (ap_addr (Src p)) (ap_addr (Dst p))) p' →
      admittedAt w σ0 p' → written w offset buffs out →
      written w offset (buff :: buffs) ((take (Z.to_nat offset) buff ++ pb p') :: out).

Definition deliverable (offset : Z) (buff : bytes) : Prop :=
  bytes_ok buff ∧ 0 ≤ offset ≤ zlen buff ∧ wgTrimmed (drop (Z.to_nat offset) buff) ∧ headerFits (drop (Z.to_nat offset) buff).

Lemma trimmed_version b q0 p : wgTrimmed b → Decode b q0 = Ok p → IPVersion p = 4 → Z.shiftr (default 0 (b !! 0%nat)) 4 = 4.
Proof.
  intros (b0 & H0 & [(V & _)|(V & H40 & Hl)]) HD HV; rewrite H0; cbn [default id]; [done|].
  unfold Decode in HD. rewrite (proj2 (Z.ltb_ge _ 1)) in HD by lia.
  assert (@idx () Z b 0 = Ok b0) as E0 by (unfold idx; rewrite decide_True by lia; change (Z.to_nat 0) with 0%nat; by rewrite H0).
  rewrite E0, bind_ret, V in HD. cbn [Z.eqb Pos.eqb] in HD. by apply decode6_version in HD.
Qed.

Lemma tunWriteLoop_ok w offset buffs : ∀ q0 s,
  wrapper_ok w → Forall (deliverable offset) buffs → 0 ≤ subofs q0 → 0 ≤ dataofs q0 →
  tracks σ0 (flowsOf s) → I (hookState s) →
  ∃ out s', tunWriteLoop MaxPacketSize w buffs offset q0 s = Ok (out, s') ∧ written w offset buffs out ∧
    tracks σ0 (flowsOf s') ∧ I (hookState s').
Proof.
  induction buffs as [|buff buffs IH]; intros q0 s HW Hbs Hs0 Hd0 Hσ HI.
  { do 2 eexists. split; [done|]. split; [constructor|done]. }
  apply Forall_cons in Hbs as [(Hb & Ho & HT & Hfit) Hbs]. cbn [tunWriteLoop].
  destruct (slice_from_ok (E := HdrErr) buff offset) as (b & -> & Lb & Eb); [lia|]. rewrite bind_ret. subst b.
  set (b := drop (Z.to_nat offset) buff) in *. assert (bytes_ok b) as Hb' by by apply Forall_drop.
  destruct (Decode_decoded b q0 Hb') as (p & HD & _). rewrite HD. cbn [liftPkt]. rewrite bind_ret.
  destruct (Decode_trimmed b q0 p Hb' HT Hs0 Hd0 HD) as [HDel HF].
  destruct (dnat_redirects (peerConfigOfW w) b p (wk_table _ HW) HDel HF) as [_ Hred].
  assert (subofs p ≤ zlen b) as Hsub.
  { destruct HF as (_ & _ & _ & [?|V] & Hi); [done|]. rewrite (Hi V). apply Hfit. by eapply trimmed_version. }
  destruct Hred as (p' & -> & HR'); [by right|]. cbn [liftPkt]. rewrite bind_ret, (wk_on _ HW).
  destruct (inbound_verdict w (pb p') p' s HW (rd_deliv _ _ _ _ HR') (rd_room _ _ _ _ HR') Hσ HI)
    as (r & s1 & -> & Hσ1 & HI1 & Hacc). rewrite bind_ret.
  assert (subofs p' = subofs p ∧ dataofs p' = dataofs p) as [E1 E2] by (rewrite (rd_eq _ _ _ _ HR'); done).
  destruct (IH p' s1 HW Hbs) as (out & s2 & -> & Hw & Hσ2 & HI2);
    [rewrite E1; apply HF|rewrite E2; apply HDel|done|done|]. rewrite bind_ret.
  case_decide as Ha; [|do 2 eexists; split; [done|]; split; [by constructor|done]].
  do 2 eexists. split; [done|]. split; [|done]. eapply written_keep; [exact HD|exact HR'|by apply Hacc|done].
Qed.
End inbound.

(** C24: whatever well-formed packets WireGuard delivers, [Write] does not panic, and only
    packets that are admitted are written to the host or seen by the hooks behind the
    filter: by the policy of the jailed filter if the sender is jailed, else by that of
    the filter, or because they open a connection to the peer API. What the policy takes
    for a reply is decided by the flow table that the node has when [Write] is called;
    [Write] tracks no new flow and forgets none. The rest of a written packet is what was
    received, with a masqueraded destination mapped back. [I] is any property of the
    hooks' state that those hooks keep on admitted packets. *)
Theorem tun_write_policed {HB : BartTable} {HS : Type} maxSize Pn Pj (I : HS → Prop) w offset buffs q0 s :
  wrapper_ok Pn Pj I (flowsOf s) w → Forall (deliverable offset) buffs → 0 ≤ subofs q0 → 0 ≤ dataofs q0 →
  StoreOk (flowsOf s) → I (hookState s) →
  ∃ out s', tunWrite maxSize w buffs offset q0 s = Ok (out, s') ∧ written Pn Pj (flowsOf s) w offset buffs out ∧
    StoreOk (flowsOf s') ∧ (∀ f p, trackedIn f p (flowsOf s') = trackedIn f p (flowsOf s)) ∧ I (hookState s').
Proof.
  intros HW Hb Hs Hd Hσ HI.
  destruct (tunWriteLoop_ok maxSize Pn Pj I _ w offset buffs q0 s HW Hb Hs Hd (tracks_refl _ Hσ) HI) as (out & s' & E & Hw & [Hσ' Ht] & HI').
  by exists out, s'.
Qed.

(** The one packet that WireGuard delivers and that makes [Write] panic: an IPv4
    packet whose header claims to be longer than the packet, from a peer to the address
    that this node is masqueraded as for it. *)
Theorem write_panics_iff {HB : BartTable} {HS : Type} maxSize Pn Pj (I : HS → Prop) w b q0 p s :
  wrapper_ok Pn Pj I (flowsOf s) w → bytes_ok b → wgTrimmed b → 0 ≤ subofs q0 → 0 ≤ dataofs q0 →
  StoreOk (flowsOf s) → I (hookState s) → Decode b q0 = Ok p →
  tunWrite maxSize w [b] 0 q0 s = Panic ↔
  mapDstIP (peerConfigOfW w) (ap_addr (Src p)) (ap_addr (Dst p)) ≠ ap_addr (Dst p) ∧ IPVersion p = 4 ∧ zlen b < ihl b.
Proof.
  intros HW Hb HT Hs Hd Hσ HI HD. destruct (Decode_trimmed b q0 p Hb HT Hs Hd HD) as [HDel HF].
  destruct (dnat_redirects (peerConfigOfW w) b p (wk_table _ _ _ _ _ HW) HDel HF) as [Hpan Hred].
  destruct HF as (HR & _ & _ & Hor & Hihl). unfold tunWrite. cbn [tunWriteLoop].
  assert (@slice_from HdrErr Z b 0 = Ok b) as ->.
  { destruct (slice_from_ok (E := HdrErr) b 0) as (x & -> & _ & ->); [pose proof (zlen_nonneg b); lia|done]. }
  rewrite bind_ret, HD. cbn [liftPkt]. rewrite bind_ret. split.
  - intros HP. destruct (decide (mapDstIP (peerConfigOfW w) (ap_addr (Src p)) (ap_addr (Dst p)) = ap_addr (Dst p) ∨ subofs p ≤ zlen b)) as [Hc|Hc].
    2:{ apply Decidable.not_or in Hc as [Hne Hgt]. destruct Hor as [?|V]; [lia|]. rewrite <- (Hihl V). split_and!; [done|done|lia]. }
    exfalso. destruct (Hred Hc) as (p' & E & HR'). rewrite E in HP. cbn [liftPkt] in HP. rewrite bind_ret, (wk_on _ _ _ _ _ HW) in HP.
    destruct (inbound_verdict maxSize Pn Pj I (flowsOf s) w (pb p') p' s HW (rd_deliv _ _ _ _ HR') (rd_room _ _ _ _ HR') (tracks_refl _ Hσ) HI)
      as (r & s1 & E' & _). rewrite E' in HP. done.
  - intros (Hne & V & Hlt). rewrite Hpan; [done|]. split; [done|]. by rewrite (Hihl V).
Qed.

(** ** Witnesses *)
Definition exPolicy (σ : Store) (p : Parsed) : bool := policyIn exRules None exNets exFilter (trackedIn exFilter p σ) p.
Definition exWrapper (pc : option peerConfigTable) : Wrapper (HS := ()) :=
  mkWrapper [] pc (Some exFilter) None None None None None None None None None None None None false false.
Definition exState : TState (HS := ()) := mkTState exStore tt [].

Lemma exPoliced : Policed exFilter exPolicy.
Proof.
  exists scanBart, exRules, None, exNets. split_and!; [exact scanBart_law|exact exRules_ok|exact exNets_ok|apply New_built|done].
Qed.
Lemma exWrapper_ok pc σ : table_ok pc → wrapper_ok exPolicy (λ _ _, false) (λ _, True) σ (exWrapper pc).
Proof.
  intros Hpc. split; try done. intros f [= <-]. apply exPoliced.
Qed.

Lemma exUDP_deliverable : Forall (deliverable 0) [exUDP].
Proof.
  apply Forall_singleton. split; [exact exUDP_ok|]. split; [split; vm_compute; discriminate|]. split.
  - exists 0x45. split; [done|]. left. split; [done|]. split; [vm_compute; discriminate|vm_compute; reflexivity].
  - intros _. vm_compute. discriminate.
Qed.

Lemma tun_write_policed_witness :
  ∃ out s', tunWrite 65503 (exWrapper None) [exUDP] 0 zeroParsed exState = Ok (out, s') ∧
    written exPolicy (λ _ _, false) exStore (exWrapper None) 0 [exUDP] out.
Proof.
  destruct (tun_write_policed 65503 exPolicy (λ _ _, false) (λ _, True) (exWrapper None) 0 [exUDP] zeroParsed exState)
    as (out & s' & H1 & H2 & _).
  - by apply exWrapper_ok.
  - exact exUDP_deliverable.
  - done.
  - done.
  - exact exStoreOk.
  - done.
  - eauto.
Defined.

(** A peer 100.64.0.2 for which this node, 100.64.0.1, is 100.64.9.9. *)
Definition exMasq : WGConfig :=
  mkWGConfig 7 [PrefixFrom (IPv4 100 64 0 1) 32]
    [mkWGPeer 2 2 [PrefixFrom (IPv4 100 64 0 2) 32] (Some (IPv4 100 64 9 9)) None false 0].
Definition exShort : bytes := [0x4f; 0; 0; 20; 0; 0; 0; 0; 64; 17; 0; 0; 100; 64; 0; 2; 100; 64; 9; 9].
Definition exShortParsed : Parsed :=
  Eval vm_compute in match Decode exShort zeroParsed with Ok q => q | _ => zeroParsed end.

Lemma exMasq_wg_ok : wg_ok exMasq.
Proof. split; apply Forall_singleton; [done|]. split; [by right|by left]. Qed.
Lemma exMasq_ok : table_ok (peerConfigTableFromWGConfig (Some exMasq)).
Proof. exact (fromWGConfig_ok (HL := scanTable_law) _ exMasq_wg_ok). Qed.

Lemma write_panics_iff_witness :
  tunWrite 65503 (exWrapper (peerConfigTableFromWGConfig (Some exMasq))) [exShort] 0 zeroParsed exState = Panic.
Proof.
  apply (write_panics_iff 65503 exPolicy (λ _ _, false) (λ _, True) _ exShort zeroParsed exShortParsed exState).
  - apply exWrapper_ok, exMasq_ok.
  - apply (bool_decide_unpack _). reflexivity.
  - exists 0x4f. split; [done|]. left. split; [done|]. split; [vm_compute; discriminate|vm_compute; reflexivity].
  - done.
  - done.
  - exact exStoreOk.
  - done.
  - vm_compute. reflexivity.
  - split; [vm_compute; discriminate|]. split; [reflexivity|vm_compute; reflexivity].
Defined.
