(* ===== verification/TunNatThms.v ===== *)
(** * Replies through masquerading

    The two directions of the wrapper together: the reply to a packet that left with
    a masqueraded source comes back to the sender and passes the filter. *)

From stdpp Require Import base gmap sets list strings.
From S2P Require Import Prelude GoStd Bytes NetIP TSAddr FlowTrack Packet PacketThms Headers Checksum ChecksumThms Filter FilterThms InboundThms Tsmp TunWrap NatThms TunWrapThms.

Lemma updateV4_buf q old new q' : updateV4PacketChecksums q old new = Ok q' → ∃ b, q' = setBuf b q.
Proof.
  unfold updateV4PacketChecksums. destruct (_ <? 12); [intros [= <-]; exists (pb q); by destruct q|].
  destruct (As4 old) as [o4| |]; [|done..]. destruct (As4 new) as [n4| |]; [|done..]. rewrite !bind_ret.
  destruct (updateV4Checksum (pb q) 10 o4 n4) as [b1| |]; [|done..]. rewrite bind_ret.
  destruct (Transport _) as [tr| |]; [|done..]. rewrite bind_ret. cbn [pb setBuf subofs IPProto].
  assert (∀ off q'', (b ← updateV4Checksum b1 (subofs q + off) o4 n4; Ok (setBuf b (setBuf b1 q))) = Ok q'' → ∃ b, q'' = setBuf b q) as Hat.
  { intros off q''. destruct (updateV4Checksum b1 _ o4 n4); [|done..]. rewrite bind_ret. intros [= <-]. by eexists. }
  destruct (_ || _); [destruct (_ <? _); [intros [= <-]; by eexists|apply Hat]|].
  destruct (_ =? TCP); [destruct (_ <? _); [intros [= <-]; by eexists|apply Hat]|].
  destruct (_ =? GRE); [|intros [= <-]; by eexists]. destruct (_ <? 6); [intros [= <-]; by eexists|].
  destruct (idx tr 0) as [t0| |]; [|done..]. rewrite bind_ret. destruct (t0 =? 1); [apply Hat|intros [= <-]; by eexists].
Qed.

Lemma updateV6_buf q old new q' : updateV6PacketChecksums q old new = Ok q' → ∃ b, q' = setBuf b q.
Proof.
  assert (∃ b, q = setBuf b q) as Hid by (exists (pb q); by destruct q).
  unfold updateV6PacketChecksums. destruct (_ <? minIPv6Header); [by intros [= <-]|].
  destruct (Transport q) as [tr| |]; [|done..]. rewrite bind_ret.
  assert (∀ off q'', (xsum ← get_be 2 (pb q) (subofs q + off);
      b ← put_be 2 (pb q) (subofs q + off) (notN 16 (checksumUpdate2ByteAlignedAddress (notN 16 xsum) (As16 old) (As16 new)));
      Ok (setBuf b q)) = @Ok () _ q'' → ∃ b, q'' = setBuf b q) as Hat.
  { intros off q''. destruct (get_be 2 _ _); [|done..]. rewrite bind_ret. destruct (put_be 2 _ _ _); [|done..]. rewrite bind_ret.
    intros [= <-]. by eexists. }
  destruct (_ =? ICMPv6); [destruct (_ <? _); [by intros [= <-]|apply Hat]|].
  destruct (_ || _); [destruct (_ <? _); [by intros [= <-]|apply Hat]|].
  destruct (_ =? TCP); [destruct (_ <? _); [by intros [= <-]|apply Hat]|by intros [= <-]].
Qed.

Lemma UpdateSrcAddr_fields q a q' :
  UpdateSrcAddr q a = Ok q' → Src q' = mkAddrPort a (ap_port (Src q)) ∧ Dst q' = Dst q ∧ IPProto q' = IPProto q.
Proof.
  unfold UpdateSrcAddr. destruct (_ && _); [done|]. destruct (_ && _); [done|]. destruct (Is6 a).
  - destruct (put _ _ _) as [b| |]; [|done..]. rewrite bind_ret. intros HU. by apply updateV6_buf in HU as (b' & ->).
  - destruct (As4 a) as [v| |]; [|done..]. rewrite bind_ret. destruct (put _ _ _) as [b| |]; [|done..]. rewrite bind_ret.
    intros HU. by apply updateV4_buf in HU as (b' & ->).
Qed.

Section nat.
Context `{HB : BartTable}.
Implicit Types pc : option (peerConfigTable (H := HB)).

Lemma snat_fields pc q q' :
  snat pc q = Ok q' →
  Src q' = mkAddrPort (selectSrcIP pc (ap_addr (Src q)) (ap_addr (Dst q))) (ap_port (Src q)) ∧ Dst q' = Dst q.
Proof.
  unfold snat. case_bool_decide as Hn.
  - intros HU. by apply UpdateSrcAddr_fields in HU as (-> & -> & _).
  - intros [= <-]. rewrite <- Hn. by destruct (Src q).
Qed.

(** The destination that the reply is mapped to. *)
Lemma reply_mapped pc src dst :
  table_ok pc → (selectSrcIP pc src dst = src → mapDstIP pc dst src = src) → mapDstIP pc dst (selectSrcIP pc src dst) = src.
Proof.
  intros Hok Hid. destruct (decide (selectSrcIP pc src dst = src)) as [E|E]; [rewrite E; auto|by apply mapDst_selectSrc].
Qed.

(** A node's own address is not masqueraded as another one of its addresses. *)
Lemma unmasqueraded pc src dst :
  table_ok pc → selectSrcIP pc src dst = src → (∀ t, pc = Some t → src = nativeAddr4 t ∨ src = nativeAddr6 t) →
  mapDstIP pc dst src = src.
Proof.
  intros Hok Hs Hn. destruct pc as [t|]; [|done]. destruct (Hok t eq_refl) as (N4 & N6 & _). specialize (Hn t eq_refl).
  unfold mapDstIP. destruct (btLookup (byIP t) dst) as [c|]; [|done].
  destruct (Is4 src && IsValid (nativeAddr4 t) && _) eqn:E4.
  { rewrite !andb_true_iff in E4. destruct E4 as [[S4 _] _]. destruct Hn as [->| ->]; [done|].
    destruct N6 as [N6|[N6 _]]; [by rewrite N6 in S4|]. by destruct (nativeAddr6 t). }
  destruct (Is6 src && IsValid (nativeAddr6 t) && _) eqn:E6; [|done].
  rewrite !andb_true_iff in E6. destruct E6 as [[S6 _] _]. destruct Hn as [->| ->]; [|done].
  destruct N4 as [N4|N4]; [by rewrite N4 in S6|]. unfold v4 in N4. by destruct (nativeAddr4 t).
Qed.
End nat.

(** C33: masquerading is transparent for UDP, SCTP and TCP.  A packet of this node, from one
    of its own addresses that is local to the filter in charge of a peer, goes out and its
    source is replaced.  Then the reply of the peer to the replaced source is mapped back to
    the node's own address, goes to the same filter, and is admitted: with UDP and SCTP if
    the filter let the packet go and fewer than 512 packets come in between, with TCP unless
    the reply opens a connection. *)
Theorem nat_reply_admitted {HB : BartTable} (pc : option peerConfigTable) (filt jf : option Filter)
    bartContains ms capTest nets f q q' evs σ σ1 σ2 b q0 p :
  table_ok pc → BartLaw bartContains → Forall match_ok ms → Forall prefix_ok nets → BuiltFrom bartContains ms capTest nets f →
  StoreOk σ → (∀ t, pc = Some t → ap_addr (Src q) = nativeAddr4 t ∨ ap_addr (Src q) = nativeAddr6 t) →
  (if outboundPacketIsJailed pc q then jf else filt) = Some f →
  (RunOut f q σ).2 = σ1 → snat pc q = Ok q' → runEvents evs σ1 = Ok σ2 →
  (IPProto q = UDP ∨ IPProto q = SCTP) ∧ (pre f q).1 = noVerdict ∧ (length evs < 512)%nat ∨ IPProto q = TCP ∧ IsTCPSyn p = false →
  bytes_ok b → wgTrimmed b → headerFits b → 0 ≤ subofs q0 → 0 ≤ dataofs q0 → Decode b q0 = Ok p →
  IPProto p = IPProto q → Src p = Dst q' → Dst p = Src q' →
  IsMulticast (ap_addr (Src q)) = false → IsLinkLocalUnicast (ap_addr (Src q)) = false → inNets nets (ap_addr (Src q)) = true →
  ∃ p' σ3, dnat pc p = Ok p' ∧ Src p' = Dst q ∧ Dst p' = Src q ∧
    (if inboundPacketIsJailed pc p' then jf else filt) = Some f ∧ RunIn f p' σ2 = Ok (Accept, σ3).
Proof.
  intros Hok HBL Hms Hn Hf Hσ Hnat Hfo <- Hsn Hrun Hkind Hb HT Hfit Hs0 Hd0 HD Hpp Hsrc Hdst Hmc Hll Hloc.
  destruct (snat_fields pc q q' Hsn) as [Es Ed]. rewrite Ed in Hsrc. rewrite Es in Hdst.
  destruct (Decode_trimmed b q0 p Hb HT Hs0 Hd0 HD) as [HDel HF].
  assert (mapDstIP pc (ap_addr (Src p)) (ap_addr (Dst p)) = ap_addr (Src q)) as Hmap.
  { rewrite Hsrc, Hdst. cbn [ap_addr]. apply reply_mapped; [done|]. intros E. by apply unmasqueraded. }
  destruct (dnat_redirects pc b p Hok HDel HF) as [_ Hred].
  assert (subofs p ≤ zlen b) as Hsub.
  { destruct HF as (_ & _ & _ & [?|V] & Hi); [done|]. rewrite (Hi V). apply Hfit. by eapply trimmed_version. }
  destruct Hred as (p' & HE & HR'); [by right|]. rewrite Hmap in HR'.
  pose proof (rd_eq _ _ _ _ HR') as Hp'. assert (Src p' = Dst q) as S' by (by rewrite Hp').
  assert (Dst p' = Src q) as D' by (rewrite Hp'; cbn [Dst setBuf setDst]; rewrite Hdst; cbn [ap_port]; by destruct (Src q)).
  assert (IPProto p' = IPProto q) as P' by (by rewrite Hp').
  assert (StoreOk σ2) as Hσ2 by (eapply runEvents_ok; [by apply RunOut_ok|exact Hrun]).
  destruct (RunIn_verdict bartContains ms capTest nets f Hms Hn Hf (pb p') p' σ2 (dl_decoded _ _ (rd_deliv _ _ _ _ HR')) Hσ2)
    as (σ3 & Hrun' & _).
  exists p', σ3. split; [done|]. split; [done|]. split; [done|].
  split; [unfold inboundPacketIsJailed, outboundPacketIsJailed in *; by rewrite S'|]. rewrite Hrun'.
  assert (policyPre f p' = true) as Hpol.
  { unfold policyPre. rewrite D', Hmc, Hll, (rd_len _ _ _ _ HR'), P'. cbn [negb orb]. rewrite !andb_true_r.
    rewrite (proj2 (Z.leb_le _ _)) by (destruct HF as ([]&_); lia). by destruct Hkind as [([-> | ->] & _)|[-> _]]. }
  destruct Hkind as [(Hproto & Hpre & Hlen)|[Ht Hsyn]].
  - destruct (RunOut_tracks f q σ Hσ Hproto Hpre) as [Hσ1 Hw].
    assert (Z.of_nat (1 + length evs) ≤ lruMax) as Hmax by (unfold lruMax; lia).
    destruct (runEvents_within _ _ _ _ _ _ Hσ1 Hw Hmax Hrun) as [Hw2 _].
    rewrite (withinFlows_tracked _ f p' σ2 _ Hw2), policyIn_tracked; [done|by rewrite P'|done|by rewrite D'|by rewrite P', S', D'].
  - rewrite policyIn_continuation; [done|by rewrite P'| |done|by rewrite D'].
    rewrite Hp'. exact Hsyn.
Qed.

(** ** Witness: a datagram to the peer of [exMasq] and its reply *)
Definition exNatNets : list Prefix := [mkPrefix (IPv4 100 64 0 1) 33].
Definition exNatFilter : Filter := (New scanBart [] None (Some exNatNets) None ∅).1.
Definition exNatStore : Store := (New scanBart [] None (Some exNatNets) None ∅).2.
Definition exNatOut : bytes :=
  [0x45; 0; 0; 28; 0; 0; 0; 0; 64; 0x11; 0; 0; 100; 64; 0; 1; 100; 64; 0; 2; 0; 81; 0; 80; 0; 8; 0; 0].
Definition exNatReply : bytes :=
  [0x45; 0; 0; 28; 0; 0; 0; 0; 64; 0x11; 0; 0; 100; 64; 0; 2; 100; 64; 9; 9; 0; 80; 0; 81; 0; 8; 0; 0].
Definition exNatQ : Parsed := Eval vm_compute in match Decode exNatOut zeroParsed with Ok q => q | _ => zeroParsed end.
Definition exNatQ' : Parsed :=
  Eval vm_compute in match snat (peerConfigTableFromWGConfig (Some exMasq)) exNatQ with Ok q => q | _ => zeroParsed end.
Definition exNatP : Parsed := Eval vm_compute in match Decode exNatReply zeroParsed with Ok q => q | _ => zeroParsed end.

Lemma exNatStore_ok : StoreOk exNatStore.
Proof. apply StoreOk_insert; [intros r c H; rewrite lookup_empty in H; discriminate|apply emptyCache_inv|done]. Qed.

Lemma nat_reply_admitted_witness :
  ∃ p' σ3, dnat (peerConfigTableFromWGConfig (Some exMasq)) exNatP = Ok p' ∧ Dst p' = mkAddrPort (IPv4 100 64 0 1) 81 ∧
    RunIn exNatFilter p' (RunOut exNatFilter exNatQ exNatStore).2 = Ok (Accept, σ3).
Proof.
  destruct (nat_reply_admitted (peerConfigTableFromWGConfig (Some exMasq)) (Some exNatFilter) None scanBart [] None exNatNets
    exNatFilter exNatQ exNatQ' [] exNatStore (RunOut exNatFilter exNatQ exNatStore).2
    (RunOut exNatFilter exNatQ exNatStore).2 exNatReply zeroParsed exNatP) as (p' & σ3 & H1 & _ & H2 & _ & H3).
  - exact exMasq_ok.
  - exact scanBart_law.
  - constructor.
  - repeat constructor; try discriminate; simpl; lia.
  - apply New_built.
  - exact exNatStore_ok.
  - intros t Ht. left. assert (nativeAddr4 <$> peerConfigTableFromWGConfig (Some exMasq) = Some (IPv4 100 64 0 1)) as Hn by by vm_compute.
    rewrite Ht in Hn. by injection Hn as ->.
  - reflexivity.
  - reflexivity.
  - vm_compute. reflexivity.
  - reflexivity.
  - left. split; [by left|]. split; [reflexivity|]. cbn. lia.
  - apply (bool_decide_unpack _). reflexivity.
  - exists 0x45. split; [done|]. left. split; [done|]. split; [vm_compute; discriminate|vm_compute; reflexivity].
  - intros _. vm_compute. discriminate.
  - done.
  - done.
  - vm_compute. reflexivity.
  - reflexivity.
  - reflexivity.
  - reflexivity.
  - reflexivity.
  - reflexivity.
  - reflexivity.
  - exists p', σ3. split; [exact H1|]. split; [rewrite H2; reflexivity|exact H3].
Defined.
