(* ===== verification/EngineThms.v ===== *)
(** * Correctness of the engine's hooks

    Two nodes together: a ping is answered and its callback is run once, and a refused
    connection is forgotten by the node that opened it.  A node as a whole: only
    admitted packets reach its network stack.  Which peers [Reconfig] takes for
    restarted. *)

From stdpp Require Import base gmap sets list strings.
From S2P Require Import Prelude GoStd Bytes NetIP TSAddr FlowTrack Packet PacketThms Headers HeadersThms Filter FilterThms Serve Netstack InboundThms Disco Tsmp TsmpThms TunWrap Engine NatThms TunWrapThms.

(** ** Pings *)
Section ping.
Context `{HB : BartTable} (MaxPacketSize : Z).

Lemma InjectOutbound_acts {HS} (pkt : bytes) (s : TState (HS := HS)) :
  0 < zlen pkt ≤ MaxPacketSize → InjectOutbound MaxPacketSize pkt s = act (OutboundQueued pkt) s.
Proof.
  intros Hl. unfold InjectOutbound. rewrite (proj2 (Z.ltb_ge _ _)), (proj2 (Z.eqb_neq _ _)) by lia. done.
Qed.

Lemma sendTSMPPing_sends ip srcIP data cb (s : TState (HS := userspaceEngine (H := HB))) :
  60 ≤ MaxPacketSize → mySelfIPMatchingFamily ip (hookState s) = Ok srcIP → ip_pair srcIP ip → length data = 8%nat →
  ∃ b, sendTSMPPing MaxPacketSize ip data cb s =
      Ok (act (OutboundQueued b) (withHook (setTSMPPongCallback data (Some cb) (hookState s)) s)) ∧
    ∀ q0, ∃ p, Decode b q0 = Ok p ∧ tsmp_parsed b srcIP ip (pingPayload data) p.
Proof.
  intros Hmax Hself Hp Hd. unfold sendTSMPPing. rewrite Hself, bind_ret. set (h := if Is4 srcIP then _ else _ : IPHeader).
  assert (hdr_for srcIP ip h) as Hh by (by destruct Hp; constructor). pose proof (hdr_len _ _ _ Hh) as Hlen.
  assert (zlen (pingPayload data) = 9) as Hz by (unfold pingPayload, zlen; rewrite length_app, Hd; done).
  destruct (tsmp_generate srcIP ip h (pingPayload data) Hp Hh) as (b & HG & Hb & HD); [lia|lia|]. unfold pingPayload in HG. rewrite HG.
  cbn [liftHdr]. rewrite bind_ret. exists b. rewrite InjectOutbound_acts by lia. done.
Qed.

Lemma pong_sent {HS} (w : Wrapper (H := HB) (HS := HS)) b src dst payload p data s :
  let port := match wPeerAPIPort w with Some f => (f (ap_addr (Dst p))).1 | None => 0 end in
  60 ≤ MaxPacketSize → tsmp_parsed b src dst payload p → ip_pair src dst → length data = 8%nat → 0 ≤ port < 65536 →
  ∃ b2, injectOutboundPong MaxPacketSize w p data s = Ok (act (OutboundQueued b2) s) ∧
    ∀ q0, ∃ p2, Decode b2 q0 = Ok p2 ∧ tsmp_parsed b2 dst src (pongPayload data port) p2.
Proof.
  intros port Hmax [Tb Tv Tr Tp Ts Td _ _] Hpr Hd Hport. unfold injectOutboundPong. fold port.
  assert (∀ h, hdr_for dst src h → ∃ b2, (b ← Generate (mkPong (Some h) data port) []; Ok (InjectOutbound MaxPacketSize b s)) =
    Ok (act (OutboundQueued b2) s) ∧ ∀ q0, ∃ p2, Decode b2 q0 = Ok p2 ∧ tsmp_parsed b2 dst src (pongPayload data port) p2) as Hsend.
  { intros h Hh. destruct (pong_generate dst src h data port) as (b2 & -> & Hz & HD); [by apply ip_pair_sym|done..|].
    pose proof (hdr_len _ _ _ Hh). exists b2. rewrite bind_ret, InjectOutbound_acts by lia. done. }
  destruct Hpr as [x y Hx Hy|x y Hx Hy]; cbn [Is4] in *; rewrite Tv; cbn [Z.eqb Pos.eqb].
  - unfold pIP4Header. rewrite Tv, Tb, Tp, Ts, Td. cbn [Z.eqb Pos.eqb]. unfold get_be.
    destruct (slice_ok (E := HdrErr) b 4 (4 + Z.of_nat 2)) as (i & -> & _); [lia|lia|]. rewrite !bind_ret. apply Hsend. by constructor.
  - unfold pIP6Header. rewrite Tv, Tb, Tp, Ts, Td. cbn [Z.eqb Pos.eqb]. unfold get_be.
    destruct (slice_ok (E := HdrErr) b 0 (0 + Z.of_nat 4)) as (i & -> & _); [lia|lia|]. rewrite !bind_ret. apply Hsend. by constructor.
Qed.

Lemma ping_answered {HS} (w : Wrapper (H := HB) (HS := HS)) pc b src dst data p s :
  let port := match wPeerAPIPort w with Some f => (f (ap_addr (Dst p))).1 | None => 0 end in
  60 ≤ MaxPacketSize → tsmp_parsed b src dst (pingPayload data) p → ip_pair src dst → length data = 8%nat → 0 ≤ port < 65536 →
  ∃ b2, filterPacketInboundFromWireGuard MaxPacketSize w pc p s = Ok (DropSilently, p, act (OutboundQueued b2) s) ∧
    ∀ q0, ∃ p2, Decode b2 q0 = Ok p2 ∧ tsmp_parsed b2 dst src (pongPayload data port) p2.
Proof.
  intros port Hmax HT Hpr Hd Hport. destruct (pong_sent w b src dst (pingPayload data) p data s) as (b2 & E & HD); [done..|].
  exists b2. split; [|done]. unfold filterPacketInboundFromWireGuard, handleTSMP. rewrite (tp_proto _ _ _ _ _ HT).
  change (TSMP =? TSMP) with true. cbn match. rewrite (AsTSMPPing_ping _ _ _ _ _ HT Hd). cbn [liftPkt].
  by rewrite bind_ret, E, !bind_ret.
Qed.
End ping.

(** C31: a TSMP ping that a node sends is answered: the other node drops the ping after it
    has queued a pong with the same data and its peer API port, and the pong makes the
    first node run the callback of the ping, with that port, and forget it. *)
Theorem tsmp_ping_answered {HB : BartTable} {HS : Type} maxSize (wA : Wrapper (HS := userspaceEngine)) (wB : Wrapper (HS := HS))
    pcB ip srcIP data cb sA sB portB qA qB :
  60 ≤ maxSize → mySelfIPMatchingFamily ip (hookState sA) = Ok srcIP → ip_pair srcIP ip → length data = 8%nat →
  OnTSMPPongReceived wA = Some onTSMPPongReceived →
  (match wPeerAPIPort wB with Some f => (f ip).1 | None => 0 end) = portB → 0 ≤ portB < 65536 →
  ∃ ping pB pong pA sA1 sB1 sA2,
    sendTSMPPing maxSize ip data cb sA = Ok sA1 ∧ actions sA1 = actions sA ++ [OutboundQueued ping] ∧
    Decode ping qB = Ok pB ∧ filterPacketInboundFromWireGuard maxSize wB pcB pB sB = Ok (DropSilently, pB, sB1) ∧
    actions sB1 = actions sB ++ [OutboundQueued pong] ∧
    Decode pong qA = Ok pA ∧ handleTSMP maxSize wA pA sA1 = Ok (false, sA2) ∧
    pongsCalled (hookState sA2) = pongsCalled (hookState sA) ++ [(cb, mkPong None data portB)] ∧
    pongCallback (hookState sA2) !! data = None.
Proof.
  intros Hmax Hself Hp Hd HwA Hport Hr.
  destruct (sendTSMPPing_sends maxSize ip srcIP data cb sA Hmax Hself Hp Hd) as (ping & Es & HDp).
  destruct (HDp qB) as (pB & EB & HTB). pose proof (tp_dst _ _ _ _ _ HTB) as Hdst.
  destruct (ping_answered maxSize wB pcB ping srcIP ip data pB sB) as (pong & Eb & HDq); [done|done|done|done|rewrite Hdst, Hport; done|].
  destruct (HDq qA) as (pA & EA & HTA). rewrite Hdst, Hport in HTA.
  destruct (AsTSMPPong_pong _ _ _ _ _ _ HTA Hd Hr) as (A1 & A2 & A3).
  exists ping, pB, pong, pA. do 3 eexists. split_and!; [exact Es|done|exact EB|exact Eb|done|exact EA|..].
  - unfold handleTSMP. rewrite A1, A2, A3. cbn [liftPkt]. rewrite !bind_ret, HwA. done.
  - cbn [hookState withHook act]. unfold onTSMPPongReceived, setTSMPPongCallback. cbn [pgData pongCallback withPongs].
    rewrite lookup_insert_eq. done.
  - cbn [hookState withHook act]. unfold onTSMPPongReceived, setTSMPPongCallback. cbn [pgData pongCallback withPongs].
    rewrite lookup_insert_eq. cbn [pongCallback callPong withPongs]. apply lookup_delete_eq.
Qed.

(** ** Refused connections *)
Lemma handshake_refused {HB : BartTable} maxSize (w : Wrapper (H := HB) (HS := userspaceEngine)) f p s σ' sa da :
  60 ≤ maxSize → PreFilterPacketInboundFromWireGuard w = Some hookIn → wfilter w = Some f → wPeerAPIPort w = None →
  disableTSMPRejected w = false → IPVersion p = 4 → IPProto p = TCP → isTCPSynBit p = true →
  ap_addr (Src p) = Addr4 sa → ap_addr (Dst p) = Addr4 da → 0 ≤ sa < 2 ^ 32 → 0 ≤ da < 2 ^ 32 →
  0 ≤ ap_port (Src p) < 65536 → 0 ≤ ap_port (Dst p) < 65536 →
  RunIn f p (flowsOf s) = Ok (Drop, σ') →
  let rj := mkRejected (ap_addr (Dst p)) (ap_addr (Src p)) (Src p) (Dst p) TCP
              (if shieldsUp f then RejectedDueToShieldsUp else RejectedDueToACLs) false in
  rejected_ok rj ∧ ∃ pkt s', Generate rj [] = Ok pkt ∧
    filterPacketInboundFromWireGuard maxSize w None p s = Ok (Drop, p, s') ∧ actions s' = actions s ++ [OutboundQueued pkt].
Proof.
  intros Hmax Hpre Hf Hapi Hrj V T Hsyn Hs Hd Rs Rd Rsp Rdp Hrun rj.
  assert (rejected_ok rj) as Hok.
  { split; unfold rj; cbn [rjIPSrc rjIPDst rjSrc rjDst rjProto rjReason]; try done; [rewrite Hs, Hd; by constructor|].
    by destruct (shieldsUp f). }
  split; [done|]. destruct (rejected_generate rj Hok) as (pkt & HG & Hz & HD). exists pkt. destruct (HD zeroParsed) as (q & _ & HT).
  pose proof (tp_room _ _ _ _ _ HT) as Hroom. assert (0 < zlen pkt) as Hpos by (destruct (Is4 (rjIPSrc rj)); lia).
  unfold filterPacketInboundFromWireGuard. rewrite T. change (TCP =? TSMP) with false. change (TCP =? UDP) with false. cbn match.
  assert (IsEchoResponse p = Ok false) as -> by (unfold IsEchoResponse, isEcho; by rewrite T).
  cbn [liftPkt]. rewrite !bind_ret.
  set (m := match OnICMPEchoResponseReceived w with Some _ => _ | None => _ end).
  assert (m = Ok (false, s)) as -> by (unfold m; by destruct (OnICMPEchoResponseReceived w)).
  rewrite !bind_ret, Hpre. unfold runHook at 1, hookIn.
  assert (∃ e1, trackOpenPreFilterIn p (hookState s) = Ok (Accept, e1)) as [e1 ->].
  { unfold trackOpenPreFilterIn. rewrite T, V. change (TCP =? TSMP) with false. cbn match. destruct (_ || _ || _); by eexists. }
  rewrite !bind_ret. cbn [IsDrop]. cbn [inboundPacketIsJailed isJailed]. rewrite Hf.
  unfold inboundOutcome. cbn [flowsOf withHook]. rewrite Hrun. cbn [liftPkt]. rewrite !bind_ret, Hapi.
  assert (∀ c : bool, (if c then Drop else Drop) = Drop) as -> by (by intros []). rewrite decide_True by done.
  unfold rejectInbound. rewrite V, T, Hsyn, Hrj. change (4 =? 4) with true. change (TCP =? TCP) with true. cbn [andb negb]. fold rj.
  rewrite HG, !bind_ret. eexists. split; [done|]. split; [done|]. by rewrite InjectOutbound_acts by lia.
Qed.

(** A connection that the other node refuses is forgotten: the SYN makes this node wait
    for the flow, the filter of the other node drops it and queues a rejection, and the
    rejection makes this node stop waiting for that flow and no other, without passing
    it on. *)
Theorem refused_flow_forgotten {HB : BartTable} maxSize probe (w : Wrapper (HS := userspaceEngine)) f q p sB σ' eA qA sa da :
  60 ≤ maxSize → PreFilterPacketInboundFromWireGuard w = Some hookIn → wfilter w = Some f → wPeerAPIPort w = None →
  disableTSMPRejected w = false →
  IPVersion q = 4 → IPProto q = TCP → TCPFlags q = TCPSyn → probe (Dst q) = false →
  IPVersion p = 4 → IPProto p = TCP → TCPFlags p = TCPSyn → Src p = Src q → Dst p = Dst q →
  ap_addr (Src q) = Addr4 sa → ap_addr (Dst q) = Addr4 da → 0 ≤ sa < 2 ^ 32 → 0 ≤ da < 2 ^ 32 →
  0 ≤ ap_port (Src q) < 65536 → 0 ≤ ap_port (Dst q) < 65536 →
  RunIn f p (flowsOf sB) = Ok (Drop, σ') →
  let flow := MakeTuple TCP (Src q) (Dst q) in
  ∃ eA1 sB1 pkt pA eA2,
    trackOpenPostFilterOut probe q eA = (Accept, eA1) ∧ is_Some (pendOpen eA1 !! flow) ∧
    filterPacketInboundFromWireGuard maxSize w None p sB = Ok (Drop, p, sB1) ∧ actions sB1 = actions sB ++ [OutboundQueued pkt] ∧
    Decode pkt qA = Ok pA ∧ trackOpenPreFilterIn pA eA1 = Ok (DropSilently, eA2) ∧ pendOpen eA2 = delete flow (pendOpen eA).
Proof.
  intros Hmax Hpre Hf Hapi Hrj Vq Tq Fq Hpr Vp Tp Fp Es Ed Hs Hd Rs Rd Rsp Rdp Hrun flow.
  assert (∃ eA1, trackOpenPostFilterOut probe q eA = (Accept, eA1) ∧ is_Some (pendOpen eA1 !! flow) ∧
    delete flow (pendOpen eA1) = delete flow (pendOpen eA)) as (eA1 & E1 & Hin & Hdel).
  { unfold trackOpenPostFilterOut. rewrite Vq, Tq, Fq, Hpr. change (4 =? 0) with false. change (TCP =? TCP) with true.
    change (Z.land TCPSyn TCPAck =? 0) with true. change (Z.land TCPSyn TCPSyn =? 0) with false. cbn [negb orb]. fold flow.
    case_decide as Hi; eexists; split_and!; [done|done|done|done|..]; cbn [pendOpen withPendOpen].
    - rewrite lookup_insert_eq. by eexists.
    - apply delete_insert_eq. }
  destruct (handshake_refused maxSize w f p sB σ' sa da) as (Hok & pkt & sB1 & HG & EB & HA); rewrite ?Es, ?Ed; try done.
  { unfold isTCPSynBit. by rewrite Fp. }
  set (rj := mkRejected _ _ _ _ _ _ _) in *. destruct (rejected_generate rj Hok) as (pkt' & HG' & _ & HD). rewrite HG in HG'. injection HG' as <-.
  destruct (HD qA) as (pA & EA & HT). destruct (AsTailscaleRejectedHeader_rejected _ _ _ Hok HT) as (_ & _ & _ & Hrd).
  exists eA1, sB1, pkt, pA. eexists. split_and!; [done|done|done|done|done|..].
  - unfold trackOpenPreFilterIn. rewrite (tp_proto _ _ _ _ _ HT). change (TSMP =? TSMP) with true. cbn match.
    rewrite Hrd. cbn [liftPkt]. rewrite bind_ret. unfold rj. cbn [MaybeBroken rjReason].
    assert (((if shieldsUp f then RejectedDueToShieldsUp else RejectedDueToACLs) =? RejectedDueToUnknownAppConnectorTransitIP) = false) as ->
      by (by destruct (shieldsUp f)). done.
  - unfold removeFlow, tsRejectFlow. cbn [rjProto rjSrc rjDst]. rewrite Es, Ed. fold flow. destruct Hin as [x Hx]. by rewrite Hx.
Qed.

(** ** A node with its network stack *)
Section node.
Context `{HB : BartTable} {N : Type} (MaxPacketSize : Z) (probe : AddrPort → bool) (os : GOOS) (ns : Impl N).

(** The state of the hooks: the engine, and what the network stack was given. *)
Definition NodeState : Type := userspaceEngine (H := HB) * list (Parsed * InboundAction).

Definition liftEngine (f : FilterFunc (HS := userspaceEngine (H := HB))) : FilterFunc (HS := NodeState) :=
  λ p s, '(r, p, s1) ← f p (mkTState (flowsOf s) (hookState s).1 (actions s));
         Ok (r, p, mkTState (flowsOf s1) (hookState s1, (hookState s).2) (actions s1)).
Definition netstackHook : FilterFunc (HS := NodeState) :=
  λ p s, '(v, a) ← injectInbound p ns; Ok (v, p, withHook ((hookState s).1, (hookState s).2 ++ [(p, a)]) s).

(** The wrapper of a node in userspace mode. *)
Definition nodeWrapper (key : bytes) (pc : option peerConfigTable) (filt jf : option Filter)
    (peerAPI : option (Addr → Z * bool)) : Wrapper (HS := NodeState) :=
  mkWrapper key pc filt jf (Some (liftEngine hookIn)) None (Some netstackHook) None
    (Some (liftEngine (hookLocal MaxPacketSize os))) None (Some (liftEngine (hookOut probe)))
    (Some (λ d h, (onTSMPPongReceived d h.1, h.2)))
    (Some (λ p h, '(r, e) ← onICMPEchoResponseReceived p h.1; Ok (r, (e, h.2)))) None peerAPI false false.

Definition stackAdmitted Pn Pj (w : Wrapper (HS := NodeState)) (σ : Store) (h : NodeState) : Prop :=
  ∀ p a, (p, a) ∈ h.2 → admittedAt Pn Pj w σ p.

Lemma injectInbound_total b p : Delivered b p → ∃ v a, injectInbound p ns = Ok (v, a).
Proof.
  intros HD. pose proof (dl_decoded _ _ HD) as Hd. unfold injectInbound. destruct (negb (ready ns) || ctxDone ns); [by do 2 eexists|].
  destruct (negb (shouldProcessInbound ns p)); [by do 2 eexists|].
  destruct (isEcho_total b p ICMP4EchoRequest ICMP6EchoRequest Hd) as [e He]. fold IsEchoRequest in He.
  unfold shouldHandlePing. rewrite He. cbn [liftPkt]. rewrite !bind_ret.
  assert (∃ dr, (if DropICMP ns then Ok e else Ok false) = @Ok HdrErr _ dr) as [dr ->] by (destruct (DropICMP ns); by eexists).
  rewrite bind_ret. destruct dr; [by do 2 eexists|]. destruct e; cbn [negb]; [|by do 2 eexists].
  destruct (pong_total b p HD He) as [pong Hpong].
  repeat (match goal with |- context [if ?c then _ else _] => destruct c end); rewrite ?Hpong, ?bind_ret; by do 2 eexists.
Qed.

Lemma trackOpenPreFilterIn_total b p (e : userspaceEngine (H := HB)) :
  Delivered b p → ∃ r e', trackOpenPreFilterIn p e = Ok (r, e').
Proof.
  intros HD. unfold trackOpenPreFilterIn. destruct (Z.eqb_spec (IPProto p) TSMP) as [Ht|].
  - destruct (TSMP_total b p HD Ht) as (_ & _ & _ & T). destruct (total_ok _ T) as [rh ->]. cbn [liftPkt]. rewrite bind_ret.
    destruct rh; by do 2 eexists.
  - destruct (_ || _ || _); by do 2 eexists.
Qed.

Lemma nodeWrapper_ok Pn Pj key pc filt jf api σ :
  table_ok pc → (∀ f, filt = Some f → Policed f Pn) → (∀ f, jf = Some f → Policed f Pj) →
  wrapper_ok Pn Pj (stackAdmitted Pn Pj (nodeWrapper key pc filt jf api) σ) σ (nodeWrapper key pc filt jf api).
Proof.
  intros Hpc Hn Hj. set (w := nodeWrapper key pc filt jf api). split; try done.
  - intros f [= <-] b p s HD _ HI. unfold liftEngine, hookIn.
    destruct (trackOpenPreFilterIn_total b p (hookState s).1 HD) as (r & e' & E). cbn [hookState]. rewrite E, !bind_ret.
    by do 2 eexists.
  - intros f [= <-] b p s HD HQ HI. unfold netstackHook. destruct (injectInbound_total b p HD) as (v & a & ->). rewrite bind_ret.
    do 2 eexists. split; [done|]. split; [done|]. intros p' a'. cbn [hookState withHook snd]. rewrite elem_of_app, list_elem_of_singleton.
    intros [Hin|[= -> ->]]; [by eapply HI|done].
  - intros f [= <-] d h HI. exact HI.
  - intros f [= <-] b p h HD HI. unfold onICMPEchoResponseReceived. destruct (EchoIDSeq_total p) as [i ->]. cbn [liftPkt]. rewrite bind_ret.
    destruct (icmpEchoResponseCallback _ !! i); rewrite bind_ret; by do 2 eexists.
Qed.
End node.

(** C1: a node in userspace mode, with the engine's hooks and the network stack behind the
    filter, never panics on well-formed packets of WireGuard, and its network stack is
    given, and the host is written, only packets that are admitted: by the policy of the
    filter in charge of the sender with the flows that the node tracks when the packets
    come in, or as the opening of a connection to the peer API. *)
Theorem node_inbound_policed {HB : BartTable} {HL : BartTableLaw HB} {N : Type} maxSize probe os (ns : Impl N) key cfg filt jf api
    Pn Pj offset buffs q0 s :
  wg_ok cfg → (∀ f, filt = Some f → Policed f Pn) → (∀ f, jf = Some f → Policed f Pj) →
  Forall (deliverable offset) buffs → 0 ≤ subofs q0 → 0 ≤ dataofs q0 → StoreOk (flowsOf s) → (hookState s).2 = [] →
  let w := nodeWrapper maxSize probe os ns key (peerConfigTableFromWGConfig (Some cfg)) filt jf api in
  ∃ out s', tunWrite maxSize w buffs offset q0 s = Ok (out, s') ∧ written Pn Pj (flowsOf s) w offset buffs out ∧
    ∀ p a, (p, a) ∈ (hookState s').2 → admittedAt Pn Pj w (flowsOf s) p.
Proof.
  intros Hcfg Hn Hj Hb Hs Hd Hσ H0 w.
  assert (wrapper_ok Pn Pj (stackAdmitted Pn Pj w (flowsOf s)) (flowsOf s) w) as HW by (apply nodeWrapper_ok; [by apply fromWGConfig_ok|done|done]).
  destruct (tunWriteLoop_ok maxSize Pn Pj _ _ w offset buffs q0 s HW Hb Hs Hd (tracks_refl _ Hσ)) as (out & s' & E & Hw & _ & HI).
  { intros p a Hin. change ((p, a) ∈ (hookState s).2) in Hin. rewrite H0 in Hin. by apply elem_of_nil in Hin. }
  exists out, s'. split; [exact E|]. done.
Qed.

(** ** Restarted peers *)

(** The configuration gives a peer another disco key than the last one did. *)
Definition discoDiffers (prev : gmap Z Z) (p : WGPeer) : Prop :=
  wpDisco p ≠ 0 ∧ ∃ old, prev !! wpKey p = Some old ∧ old ≠ wpDisco p.

(** What comparing the disco keys of the peers [ps] gives. *)
Definition comparedTo (prev : gmap Z Z) (ps : list WGPeer) (learned : gmap Z Z) (changed : gset Z) (r : gset Z * gmap Z Z) : Prop :=
  (∀ k, k ∈ r.1 ↔ k ∈ changed ∨ ∃ p, p ∈ ps ∧ wpKey p = k ∧ discoDiffers prev p ∧ learned !! k ≠ Some (wpDisco p)) ∧
  (∀ k, r.2 !! k = None ↔ learned !! k = None ∨ ∃ p, p ∈ ps ∧ wpKey p = k ∧ discoDiffers prev p) ∧
  (∀ k d, r.2 !! k = Some d → learned !! k = Some d).

Lemma comparedTo_cons prev p ps (learned : gmap Z Z) changed l' c' r :
  wpKey p ∉ wpKey <$> ps → comparedTo prev ps l' c' r →
  (∀ k, k ≠ wpKey p → l' !! k = learned !! k) →
  (∀ k, k ∈ c' ↔ k ∈ changed ∨ (k = wpKey p ∧ discoDiffers prev p ∧ learned !! k ≠ Some (wpDisco p))) →
  (l' !! wpKey p = None ↔ learned !! wpKey p = None ∨ discoDiffers prev p) →
  (∀ d, l' !! wpKey p = Some d → learned !! wpKey p = Some d) →
  comparedTo prev (p :: ps) learned changed r.
Proof.
  intros Hp (I1 & I2 & I3) Hl Hc Hn Hs.
  assert (∀ p', p' ∈ ps → wpKey p' ≠ wpKey p) as Hne.
  { intros p' Hin E. apply Hp. rewrite <- E. by apply list_elem_of_fmap_2. }
  split_and!.
  - intros k. rewrite I1, Hc. setoid_rewrite elem_of_cons. split.
    + intros [[?|(-> & ? & ?)]|(p' & Hin & <- & ? & Hle)]; [by left|right; exists p; auto|right; exists p'].
      rewrite Hl in Hle by auto. auto.
    + intros [?|(p' & [->|Hin] & <- & ? & Hle)]; [auto|left; right; auto|right; exists p']. rewrite Hl by auto. auto.
  - intros k. rewrite I2. setoid_rewrite elem_of_cons. destruct (decide (k = wpKey p)) as [->|Hk].
    + rewrite Hn. split; [intros [[?|?]|(p' & ? & ? & ?)]; eauto 8|]. intros [?|(p' & [->|?] & ? & ?)]; eauto 8.
    + rewrite Hl by done. split; [intros [?|(p' & ? & ? & ?)]; eauto 8|]. intros [?|(p' & [->|?] & ? & ?)]; [eauto|congruence|eauto 8].
  - intros k d Hd. apply I3 in Hd. destruct (decide (k = wpKey p)) as [->|Hk]; [by apply Hs|by rewrite Hl in Hd].
Qed.

Lemma comparedTo_same prev p ps learned changed r :
  wpKey p ∉ wpKey <$> ps → ¬ discoDiffers prev p → comparedTo prev ps learned changed r → comparedTo prev (p :: ps) learned changed r.
Proof. intros Hp Hd HC. apply (comparedTo_cons _ _ _ _ _ _ _ _ Hp HC); tauto. Qed.

Lemma discoChanges_spec prev ps : ∀ learned changed,
  NoDup (wpKey <$> ps) → comparedTo prev ps learned changed (discoChanges prev ps learned changed).
Proof.
  induction ps as [|p ps IH]; intros learned changed HN.
  { cbn [discoChanges]. unfold comparedTo. cbn [fst snd]. split_and!; [|intros k|done]; set_solver. }
  cbn [fmap list_fmap] in HN. apply NoDup_cons in HN as [Hp HN]. cbn [discoChanges].
  destruct (Z.eqb_spec (wpDisco p) 0) as [Hz|Hz]; [apply comparedTo_same; [done|by intros [? _]|auto]|].
  destruct (prev !! wpKey p) as [old|] eqn:Hprev; [|apply comparedTo_same; [done| |by auto]; intros (_ & ? & ? & _); congruence].
  destruct (Z.eqb_spec old (wpDisco p)) as [Ho|Ho]; [apply comparedTo_same; [done| |by auto]; intros (_ & ? & ? & ?); congruence|].
  assert (discoDiffers prev p) as HDf by (split; [done|by exists old]).
  destruct (learned !! wpKey p) as [d|] eqn:HLr; (eapply comparedTo_cons; [done|by apply IH|..]).
  - intros k Hk. by apply lookup_delete_ne.
  - intros k. destruct (Z.eqb_spec d (wpDisco p)) as [->|Hd].
    + split; [by left|]. intros [?|(-> & _ & Hne)]; [done|by rewrite HLr in Hne].
    + rewrite elem_of_union, elem_of_singleton. split; [intros [->|?]; [right|by left]|tauto]. rewrite HLr. split_and!; congruence.
  - rewrite lookup_delete_eq. tauto.
  - intros d'. by rewrite lookup_delete_eq.
  - done.
  - intros k. rewrite elem_of_union, elem_of_singleton. split; [intros [->|?]; [right|by left]|tauto]. rewrite HLr. split_and!; congruence.
  - rewrite HLr. tauto.
  - done.
Qed.

Lemma routeTable_lookup {HB : BartTable} {HL : BartTableLaw HB} ps dst :
  btLookup (routeTable ps) dst = lpm (ps ≫= λ p, (λ pfx, (pfx, wpKey p)) <$> wpAllowedIPs p) dst.
Proof.
  rewrite <- HL. unfold routeTable. f_equal.
  assert (∀ t l, t = foldl (λ t e, btInsert e.1 e.2 t) btEmpty l →
    foldl (λ rt p, foldl (λ rt pfx, btInsert pfx (wpKey p) rt) rt (wpAllowedIPs p)) t ps =
    foldl (λ t e, btInsert e.1 e.2 t) btEmpty (l ++ (ps ≫= λ p, (λ pfx, (pfx, wpKey p)) <$> wpAllowedIPs p))) as HI.
  { induction ps as [|p ps IH]; intros t l ->; [by rewrite app_nil_r|]. cbn [foldl mbind list_bind].
    rewrite app_assoc. apply IH. by apply insert_all. }
  by apply (HI _ []).
Qed.

(** When the peers are reconfigured, the sessions that are flushed are those of the
    peers whose disco key differs from the one of the last configuration, unless the
    peer had announced the new key through the tunnel; an announced key is forgotten
    when it has been compared or its peer is gone, and kept otherwise; and packets are
    then routed to the peer with the longest matching prefix. *)
Theorem restarted_peers {HB : BartTable} {HL : BartTableLaw HB} last cfg e changed e' :
  NoDup (wpKey <$> wcPeers cfg) → last ≠ cfg → reconfigPeers last cfg e = (changed, e') →
  let prev := prevEP (wcPeers last) in
  (∀ k, k ∈ changed ↔ ∃ p, p ∈ wcPeers cfg ∧ wpKey p = k ∧ discoDiffers prev p ∧ tsmpLearnedDisco e !! k ≠ Some (wpDisco p)) ∧
  (∀ k d, tsmpLearnedDisco e' !! k = Some d ↔
     tsmpLearnedDisco e !! k = Some d ∧ ∃ p, p ∈ wcPeers cfg ∧ wpKey p = k ∧ ¬ discoDiffers prev p) ∧
  (∀ dst, peerByIPPacket None dst e' = lpm (wcPeers cfg ≫= λ p, (λ pfx, (pfx, wpKey p)) <$> wpAllowedIPs p) dst).
Proof.
  intros HN Hne. unfold reconfigPeers, WGEqual. rewrite bool_decide_eq_false_2 by done. cbn [negb].
  set (prev := prevEP _). destruct (discoChanges_spec prev (wcPeers cfg) (tsmpLearnedDisco e) ∅ HN) as (D1 & D2 & D3).
  destruct (discoChanges prev _ _ ∅) as [ch le]. cbn [fst snd] in *. intros [= <- <-]. split_and!.
  - intros k. rewrite D1. set_solver.
  - intros k d. cbn [tsmpLearnedDisco withLearned]. rewrite map_lookup_filter_Some, list_elem_of_fmap. cbn [fst].
    assert (∀ p p', p ∈ wcPeers cfg → p' ∈ wcPeers cfg → wpKey p = wpKey p' → p = p') as Hinj.
    { intros p p' [i Hi]%list_elem_of_lookup [j Hj]%list_elem_of_lookup E.
      assert (i = j) as ->; [|congruence]. apply (NoDup_lookup (wpKey <$> wcPeers cfg) i j (wpKey p) HN);
        [by rewrite list_lookup_fmap, Hi|rewrite list_lookup_fmap, Hj; cbn; by rewrite E]. }
    split.
    + intros [Hle (p & -> & Hin)]. split; [by apply D3|]. exists p. split_and!; [done..|]. intros Hdf.
      assert (le !! wpKey p = None) as Hno by (apply D2; right; by exists p). congruence.
    + intros [Hl (p & Hin & <- & Hdf)]. split; [|by exists p]. destruct (le !! wpKey p) as [d'|] eqn:E.
      * apply D3 in E. congruence.
      * apply D2 in E as [E|(p' & Hin' & E & Hd')]; [congruence|]. by rewrite (Hinj p' p Hin' Hin E) in Hd'.
  - intros dst. cbn [peerByIPPacket peerByIPRoute withLearned withRoutes mbind option_bind]. apply routeTable_lookup.
Qed.

(** ** Witnesses *)
Definition exEngine : userspaceEngine := mkEngine (Some [PrefixFrom (IPv4 10 0 0 1) 32]) ∅ ∅ ∅ None ∅ None [] [].
Definition exEngineWrapper (filt : option Filter) (api : option (Addr → Z * bool)) : Wrapper :=
  engineWrapper (λ _, false) 65503 linux [] None filt None None None api.
Definition exEngineState (e : userspaceEngine) : TState := mkTState exStore e [].
Definition exData : bytes := [1; 2; 3; 4; 5; 6; 7; 8].
Definition exAPI : option (Addr → Z * bool) := Some (λ _, (8080, true)).

Lemma tsmp_ping_answered_witness :
  ∃ sA1 sA2 pA, sendTSMPPing 65503 (IPv4 10 0 0 2) exData 3 (exEngineState exEngine) = Ok sA1 ∧
    handleTSMP 65503 (exEngineWrapper None None) pA sA1 = Ok (false, sA2) ∧
    pongsCalled (hookState sA2) = [(3%nat, mkPong None exData 8080)].
Proof.
  destruct (tsmp_ping_answered 65503 (exEngineWrapper None None) (exEngineWrapper None exAPI) None (IPv4 10 0 0 2) (IPv4 10 0 0 1)
    exData 3 (exEngineState exEngine) (exEngineState exEngine) 8080 zeroParsed zeroParsed)
    as (ping & pB & pong & pA & sA1 & sB1 & sA2 & H1 & _ & _ & _ & _ & _ & H2 & H3 & _);
    [lia|reflexivity|constructor; vm_compute; split; discriminate || reflexivity|reflexivity|reflexivity|reflexivity|lia|].
  exists sA1, sA2, pA. done.
Defined.

(** A SYN that [exFilter] does not let in. *)
Definition exSynBytes : bytes :=
  [0x45; 0; 0; 40; 0; 0; 0; 0; 64; 6; 0; 0; 10; 0; 0; 1; 10; 0; 0; 2; 0; 80; 0; 81; 0; 0; 0; 0; 0; 0; 0; 0; 0x50; 2; 0; 0; 0; 0; 0; 0].
Definition exSyn : Parsed :=
  Eval vm_compute in match Decode exSynBytes zeroParsed with Ok q => q | _ => zeroParsed end.

Lemma refused_flow_forgotten_witness :
  ∃ eA1 pA eA2, trackOpenPostFilterOut (λ _, false) exSyn exEngine = (Accept, eA1) ∧
    is_Some (pendOpen eA1 !! MakeTuple TCP (Src exSyn) (Dst exSyn)) ∧
    trackOpenPreFilterIn pA eA1 = Ok (DropSilently, eA2) ∧ pendOpen eA2 = ∅.
Proof.
  destruct (refused_flow_forgotten 65503 (λ _, false) (exEngineWrapper (Some exFilter) None) exFilter exSyn exSyn (exEngineState exEngine)
    exStore exEngine zeroParsed 0x0a000001 0x0a000002) as (eA1 & sB1 & pkt & pA & eA2 & H1 & H2 & _ & _ & _ & H3 & H4);
    [lia|try reflexivity; try (vm_compute; split; discriminate || reflexivity)..|].
  exists eA1, pA, eA2. split_and!; [done|done|done|]. rewrite H4. apply delete_empty.
Defined.

Lemma node_inbound_policed_witness :
  let w := nodeWrapper 65503 (λ _, false) linux (exRouter true) [] (peerConfigTableFromWGConfig (Some exMasq)) (Some exFilter) None None in
  ∃ out s', tunWrite 65503 w [exUDP] 0 zeroParsed (mkTState exStore (exEngine, []) []) = Ok (out, s') ∧
    ∀ p a, (p, a) ∈ (hookState s').2 → admittedAt exPolicy (λ _ _, false) w exStore p.
Proof.
  intros w. destruct (node_inbound_policed 65503 (λ _, false) linux (exRouter true) [] exMasq (Some exFilter) None None
    exPolicy (λ _ _, false) 0 [exUDP] zeroParsed (mkTState exStore (exEngine, []) [])) as (out & s' & H1 & _ & H2).
  - exact exMasq_wg_ok.
  - intros f [= <-]. exact exPoliced.
  - done.
  - exact exUDP_deliverable.
  - done.
  - done.
  - exact exStoreOk.
  - done.
  - eauto.
Defined.

(** The peer 2 comes back with another disco key. *)
Definition exPeer (disco : Z) : WGPeer := mkWGPeer 2 disco [PrefixFrom (IPv4 100 64 0 2) 32] None None false 0.
Definition exPeers (disco : Z) : WGConfig := mkWGConfig 7 [] [exPeer disco].

Lemma restarted_peers_witness : 2 ∈ (reconfigPeers (exPeers 5) (exPeers 6) exEngine).1.
Proof.
  destruct (reconfigPeers (exPeers 5) (exPeers 6) exEngine) as [ch e'] eqn:E.
  destruct (restarted_peers (exPeers 5) (exPeers 6) exEngine ch e') as [H _]; [apply NoDup_singleton|discriminate|exact E|].
  apply H. exists (exPeer 6). split_and!; [by apply list_elem_of_singleton|done|split; [done|by exists 5]|done].
Defined.
