(* ===== verification/FilterRules.v ===== *)
(** * Filter rules of the control plane

    [wgengine/filter/tailcfg.go]: the rules of a network map, whose addresses are
    text, become the matches of the packet filter.  The arithmetic of address
    ranges ([go4.org/netipx]) is a class with its documented contract. *)

From stdpp Require Import base gmap sets list strings.
From S2P Require Import Prelude GoStd Bytes NetIP TSAddr Packet Filter.

(** ** Rules *)
Record RuleNetPortRange := mkRuleDst { rdIP : string; rdBits : option Z; rdPorts : PortRange }.
(** [CapMap] as the list of entries in the order of the iteration. *)
Record CapGrant := mkCapGrant { cgDsts : list Prefix; cgCaps : list string; cgCapMap : list (string * list string) }.
Record FilterRule := mkFilterRule {
  frSrcIPs : list string;
  frSrcBits : list Z;
  frDstPorts : list RuleNetPortRange;
  frIPProto : list Z;
  frCapGrant : list CapGrant
}.

Definition FilterAllowAll : list FilterRule := [mkFilterRule ["*"] [] [mkRuleDst "*" None AllPorts] [] []].

(** ** Address ranges *)

(** [IPRangeFrom(a, b)]: whether it is valid, and its [Prefixes]. *)
Class IPRanges := { rangeValid : Addr → Addr → bool; rangePrefixes : Addr → Addr → list Prefix }.

(** What the code relies on: a valid range has bounds of one family in order, and its
    prefixes are proper and hold exactly the addresses between the bounds. *)
Class IPRangesLaw (r : IPRanges) : Prop := {
  range_valid : ∀ a b, rangeValid a b = true → BitLen a = BitLen b ∧ IsValid a = true ∧ addr_bits a ≤ addr_bits b;
  range_prefix_ok : ∀ a b, addr_ok a → addr_ok b → hasZone a = false → hasZone b = false → rangeValid a b = true →
    Forall prefix_ok (rangePrefixes a b);
  range_contains : ∀ a b ip, addr_ok a → addr_ok b → hasZone a = false → hasZone b = false → rangeValid a b = true → hasZone ip = false →
    existsb (λ p, Contains p ip) (rangePrefixes a b) =
    (BitLen ip =? BitLen a) && (addr_bits a <=? addr_bits ip) && (addr_bits ip <=? addr_bits b)
}.

(** [strings.CutPrefix]. *)
Fixpoint CutPrefix (s pre : string) : option string :=
  match pre, s with
  | EmptyString, _ => Some s
  | String c pre, String d s => if decide (c = d) then CutPrefix s pre else None
  | String _ _, EmptyString => None
  end.

Inductive RuleErr : Type :=
  | errSrcBits | errDstBits
  | errParsePrefix (s : string) | errNonNetworkBits (s : string)
  | errParseAddr (s : string) | errInvalidRange (s : string)
  | errDstCap (c : string).

Definition zeroIP4 : Addr := IPv4 0 0 0 0.
Definition zeroIP6 : Addr := AddrFrom16 (replicate 16 0).

Definition defaultProtos : list Z := [TCP; UDP; ICMPv4; ICMPv6].

Section rules.
Context `{IPRanges} (bartContains : list Prefix → Addr → bool).

(** The prefixes of [arg], or the capability it names (no capability is the empty
    string). *)
Definition parseIPSet (arg : string) : res RuleErr (list Prefix * string) :=
  if decide (arg = "*") then Ok ([PrefixFrom zeroIP4 0; PrefixFrom zeroIP6 0], "")
  else
    match CutPrefix arg "cap:" with
    | Some cap => Ok ([], cap)
    | None =>
        if contains_byte "/" arg then
          match ParsePrefix arg with
          | None => Err (errParsePrefix arg)
          | Some pfx => if decide (pfx ≠ Masked pfx) then Err (errNonNetworkBits arg) else Ok ([pfx], "")
          end
        else
          match split_byte "-" arg with
          | [ip1s; ip2s] =>
              match ParseAddr ip1s with
              | None => Err (errParseAddr ip1s)
              | Some ip1 =>
                  match ParseAddr ip2s with
                  | None => Err (errParseAddr ip2s)
                  | Some ip2 =>
                      if rangeValid ip1 ip2 then Ok (rangePrefixes ip1 ip2, "") else Err (errInvalidRange arg)
                  end
              end
          | _ =>
              match ParseAddr arg with
              | None => Err (errParseAddr arg)
              | Some ip => Ok ([PrefixFrom ip (BitLen ip)], "")
              end
          end
    end.

(** The results of [parseIPSet] as the loops use them: with the first error kept,
    a later one still reads the (nil) results. *)
Definition parsedSet (arg : string) : list Prefix * string * option RuleErr :=
  match parseIPSet arg with
  | Ok (nets, cap) => (nets, cap, None)
  | Err e => ([], "", Some e)
  | Panic => ([], "", None)
  end.

(** The loop over [SrcIPs]. *)
Fixpoint ruleSrcs (ss : list string) (srcs : list Prefix) (caps : list string) (erracc : option RuleErr)
    : list Prefix * list string * option RuleErr :=
  match ss with
  | [] => (srcs, caps, erracc)
  | s :: ss =>
      let '(nets, cap, err) := parsedSet s in
      match err, erracc with
      | Some e, None => ruleSrcs ss srcs caps (Some e)
      | _, _ => ruleSrcs ss (srcs ++ nets) (if decide (cap = "") then caps else caps ++ [cap]) erracc
      end
  end.

(** The loop over [DstPorts]; it returns from the whole function on [Bits]. *)
Fixpoint ruleDsts (ds : list RuleNetPortRange) (dsts : list NetPortRange) (erracc : option RuleErr)
    : res RuleErr (list NetPortRange * option RuleErr) :=
  match ds with
  | [] => Ok (dsts, erracc)
  | d :: ds =>
      if decide (rdBits d ≠ None) then Err errDstBits
      else
        let '(nets, cap, err) := parsedSet (rdIP d) in
        match err, erracc with
        | Some e, None => ruleDsts ds dsts (Some e)
        | _, _ =>
            if decide (cap = "") then ruleDsts ds (dsts ++ ((λ n, mkNetPortRange n (rdPorts d)) <$> nets)) erracc
            else ruleDsts ds dsts (Some (errDstCap cap))
        end
  end.

Definition ruleProtos (ps : list Z) : list Z :=
  if decide (length ps = 0%nat) then defaultProtos else filter (λ n, 0 ≤ n ∧ n ≤ 0xff) ps.

Definition ruleCaps (cs : list CapGrant) : list CapMatch :=
  cs ≫= λ cm, cgDsts cm ≫= λ dstNet,
    ((λ cap, mkCapMatch dstNet cap []) <$> cgCaps cm) ++ ((λ kv, mkCapMatch dstNet kv.1 kv.2) <$> cgCapMap cm).

Fixpoint matchesLoop (pf : list FilterRule) (mm : list Match) (erracc : option RuleErr)
    : list Match * option RuleErr :=
  match pf with
  | [] => (mm, erracc)
  | r :: pf =>
      if decide (frSrcBits r ≠ []) then ([], Some errSrcBits)
      else
        let '(srcs, caps, erracc) := ruleSrcs (frSrcIPs r) [] [] erracc in
        match ruleDsts (frDstPorts r) [] erracc with
        | Ok (dsts, erracc) =>
            let m := mkMatch (ruleProtos (frIPProto r)) srcs (NewContainsIPFunc bartContains srcs) caps dsts (ruleCaps (frCapGrant r)) in
            matchesLoop pf (mm ++ [m]) erracc
        | Err e => ([], Some e)
        | Panic => ([], None)
        end
  end.

Definition MatchesFromFilterRules (pf : list FilterRule) : list Match * option RuleErr := matchesLoop pf [] None.
End rules.
