(* ===== verification/FilterRulesThms.v ===== *)
(** * Correctness of the translation of filter rules

    Parsed addresses are of their width, the forms of an address set mean what they
    say, and a filter built from the rules of the control plane opens a connection
    exactly when one of the rules does. *)

From stdpp Require Import base gmap sets list strings.
From S2P Require Import Prelude GoStd Bytes NetIP TSAddr FlowTrack Packet PacketThms Filter FilterThms FilterRules.










Lemma PrefixFrom_ok ip n : addr_ok ip → prefix_ok (PrefixFrom ip n).
Proof.
  intros Ha. unfold PrefixFrom, prefix_ok. cbn [pfx_ip pfx_bitsPlusOne]. split_and!; [by destruct ip|by destruct ip|].
  case_decide as Hd; [|lia]. destruct Hd as [Hne Hn]. intros _. destruct ip; [done| |]; (split; [done|cbn in *; lia]).
Qed.

(** ** Address sets *)
Section sets.
Context {IR : IPRanges} {IRL : IPRangesLaw IR}.






Lemma Contains_one a ip : addr_ok a → a ≠ AddrZ → hasZone a = false →
  Contains (PrefixFrom a (BitLen a)) ip = bool_decide (ip = a).
Proof.
  intros Ha Hne Hz. assert (pfx_ip (PrefixFrom a (BitLen a)) = a) as Hp.
  { destruct a as [|v|v z]; try done. cbn in *. by apply negb_false_iff, bool_decide_eq_true in Hz as ->. }
  rewrite single_contains; [by rewrite Hp|by apply PrefixFrom_ok|].
  unfold IsSingleIP, PfxValid, Bits. rewrite Hp. unfold PrefixFrom. cbn [pfx_bitsPlusOne].
  rewrite decide_True by (destruct a; try done; cbn; lia). rewrite (proj2 (Z.ltb_lt _ _)) by (destruct a; cbn; lia).
  apply Z.eqb_eq. lia.
Qed.




















End sets.


(** A range instance that only takes ranges of one address. *)
#[local] Instance exRanges : IPRanges :=
  {| rangeValid a b := bool_decide (a = b) && IsValid a; rangePrefixes a b := [PrefixFrom a (BitLen a)] |}.
#[local] Instance exRanges_law : IPRangesLaw exRanges.
Proof.
  split.
  - intros a b [->%bool_decide_eq_true ?]%andb_true_iff. done.
  - intros a b Ha _ _ _ _. by apply Forall_singleton, PrefixFrom_ok.
  - intros a b ip Ha _ Hz _ [->%bool_decide_eq_true Hv]%andb_true_iff Hi. cbn [existsb rangePrefixes exRanges]. rewrite orb_false_r.
    rewrite Contains_one by (done || by destruct b). destruct b as [|v|v z], ip as [|w|w y]; cbn in *; try done.
    + case_bool_decide as E; [injection E as ->; lia|]. symmetry. apply not_true_iff_false.
      rewrite andb_true_iff, !Z.leb_le. intros ?. apply E. f_equal. lia.
    + apply negb_false_iff, bool_decide_eq_true in Hz as ->. apply negb_false_iff, bool_decide_eq_true in Hi as ->.
      case_bool_decide as E; [injection E as ->; lia|]. symmetry. apply not_true_iff_false.
      rewrite andb_true_iff, !Z.leb_le. intros ?. apply E. f_equal. lia.
Qed.


