(* ===== verification/TailCfg.v ===== *)
(** * Data of the control plane

    [tailcfg/tailcfg.go]: nodes, changes of nodes and map responses, as far as the
    session and the backend read them.  A node is split in two: what a [PeerChange]
    can say of it, and the rest.  The display names, which are computed from other
    fields, are left out; so are the parts of a response that only the caller of the
    session reads. *)

From stdpp Require Import base gmap sets list strings.
From S2P Require Import Prelude GoStd Bytes NetIP Filter FilterRules.

(** Types that the modelled code stores and compares but does not look into. *)
Class TailTypes := {
  Hostinfo : Type;
  Hostinfo_eq_dec :: EqDecision Hostinfo;
  Resolver : Type;
  Resolver_eq_dec :: EqDecision Resolver;
  UserProfile : Type;
  DNSConfig : Type;
  zeroDNSConfig : DNSConfig;
  SSHPolicy : Type;
  DisplayMessage : Type;
  DERPRegion : Type;
  RegionScore : Type
}.

Section tailcfg.
Context `{TailTypes}.

(** The fields of a [Node] that no [PeerChange] carries. *)
Record NodeFixed := mkFixed {
  nfStableID : string;
  nfName : string;
  nfUser : Z;
  nfSharer : Z;
  nfMachine : Z;
  nfAddresses : list Prefix;
  nfAllowedIPs : option (list Prefix);
  nfLegacyDERPString : string;
  nfHostinfo : option Hostinfo;
  nfCreated : Z;
  nfTags : list string;
  nfPrimaryRoutes : list Prefix;
  nfMachineAuthorized : bool;
  nfCapabilities : list string;
  nfUnsignedPeerAPIOnly : bool;
  nfDataPlaneAuditLogID : string;
  nfExpired : bool;
  nfV4MasqAddr : option Addr;
  nfV6MasqAddr : option Addr;
  nfIsWireGuardOnly : bool;
  nfIsJailed : bool;
  nfExitNodeDNSResolvers : list Resolver
}.

(** A nil slice or map is [None]. *)
Record Node := mkNd {
  ndID : Z;
  ndFixed : NodeFixed;
  ndKey : Z;
  ndKeyExpiry : Z;
  ndKeySignature : option bytes;
  ndDiscoKey : Z;
  ndEndpoints : option (list AddrPort);
  ndHomeDERP : Z;
  ndCap : Z;
  ndCapMap : option (gmap string (list string));
  ndOnline : option bool;
  ndLastSeen : option Z
}.

Record PeerChange := mkPeerChange {
  pcNodeID : Z;
  pcDERPRegion : Z;
  pcCap : Z;
  pcCapMap : option (gmap string (list string));
  pcEndpoints : option (list AddrPort);
  pcKey : option Z;
  pcKeySignature : option bytes;
  pcDiscoKey : option Z;
  pcOnline : option bool;
  pcLastSeen : option Z;
  pcKeyExpiry : option Z
}.

Record TKAInfo := mkTKAInfo { tkHead : string; tkDisabled : bool }.
Record HomeParams := mkHomeParams { hpRegionScore : option RegionScore }.
(** A region may be nil. *)
Record DERPMap := mkDERPMap {
  dmHomeParams : option HomeParams;
  dmRegions : option (gmap Z (option DERPRegion));
  dmOmitDefaultRegions : bool
}.

Record MapResponse := mkResp {
  rNode : option Node;
  rDERPMap : option DERPMap;
  rPeers : option (list Node);
  rPeersChanged : list Node;
  rPeersRemoved : list Z;
  rPeersChangedPatch : list PeerChange;
  rPeerSeenChange : gmap Z bool;
  rOnlineChange : gmap Z bool;
  rDNSConfig : option DNSConfig;
  rDomain : string;
  rCollectServices : string;               (* an [opt.Bool] *)
  rPacketFilter : option (list FilterRule);
  rPacketFilters : option (gmap string (option (list FilterRule)));
  rUserProfiles : list (Z * UserProfile);
  rHealth : option (list string);
  rDisplayMessages : option (gmap string (option DisplayMessage));
  rSSHPolicy : option SSHPolicy;
  rTKAInfo : option TKAInfo;
  rDomainDataPlaneAuditLogID : string;
  rDebug : bool;                           (* whether [Debug] is set, and the like *)
  rControlDialPlan : bool;
  rClientVersion : bool;
  rDeprecatedDefaultAutoUpdate : string
}.

(** [opt.Bool.Get]. *)
Definition optGet (b : string) : option bool :=
  if decide (b = "true") then Some true else if decide (b = "false") then Some false else None.

(** [views.SliceEqual] and the like: nil and empty are equal. *)
Definition sliceEqual {A} `{EqDecision A} (a b : option (list A)) : bool := bool_decide (default [] a = default [] b).

(** The response with other lists of peers, or other nodes. *)
Definition withPeerChanges (changed : list Node) (patch : list PeerChange) (r : MapResponse) : MapResponse :=
  mkResp (rNode r) (rDERPMap r) (rPeers r) changed (rPeersRemoved r) patch (rPeerSeenChange r) (rOnlineChange r)
    (rDNSConfig r) (rDomain r) (rCollectServices r) (rPacketFilter r) (rPacketFilters r) (rUserProfiles r) (rHealth r)
    (rDisplayMessages r) (rSSHPolicy r) (rTKAInfo r) (rDomainDataPlaneAuditLogID r) (rDebug r) (rControlDialPlan r)
    (rClientVersion r) (rDeprecatedDefaultAutoUpdate r).
Definition withNodes (node : option Node) (ps : option (list Node)) (changed : list Node) (r : MapResponse) : MapResponse :=
  mkResp node (rDERPMap r) ps changed (rPeersRemoved r) (rPeersChangedPatch r) (rPeerSeenChange r) (rOnlineChange r)
    (rDNSConfig r) (rDomain r) (rCollectServices r) (rPacketFilter r) (rPacketFilters r) (rUserProfiles r) (rHealth r)
    (rDisplayMessages r) (rSSHPolicy r) (rTKAInfo r) (rDomainDataPlaneAuditLogID r) (rDebug r) (rControlDialPlan r)
    (rClientVersion r) (rDeprecatedDefaultAutoUpdate r).

(** The empty response. *)
Definition zeroResp : MapResponse :=
  mkResp None None None [] [] [] ∅ ∅ None "" "" None None [] None None None None "" false false false "".
End tailcfg.
