(* ===== verification/MapSession.v ===== *)
(** * The session with the control plane

    [control/controlclient/map.go], [types/netmap/nodemut.go] and the updater of
    [control/controlclient/auto.go]: the responses of a map poll are folded into the
    state of the session, and the backend hears of the change either as a list of
    mutations of single nodes or as a whole network map.

    The debug knobs are unset, and the adjustment of the DERP map in a VM86 is left
    out.  So are, of the network map, the health messages and the head of the tailnet
    lock, and, of the calls to the backend, their limit of two seconds.  The control
    knobs are present, and only the one that disables mutations is kept. *)

From stdpp Require Import base gmap sets list strings.
From S2P Require Import Prelude GoStd Bytes NetIP Filter FilterRules TailCfg.

(** ** Mutations of nodes *)
Section mutations.
Context `{TailTypes}.

Inductive NodeMutation : Type :=
  | NodeMutationDERPHome (id region : Z)
  | NodeMutationEndpoints (id : Z) (eps : option (list AddrPort))
  | NodeMutationOnline (id : Z) (online : bool)
  | NodeMutationLastSeen (id : Z) (lastSeen : Z)
  | NodeMutationUpsert (n : Node)
  | NodeMutationRemove (id : Z).

Definition NodeIDBeingMutated (m : NodeMutation) : Z :=
  match m with
  | NodeMutationDERPHome id _ | NodeMutationEndpoints id _ | NodeMutationOnline id _ | NodeMutationLastSeen id _
  | NodeMutationRemove id => id
  | NodeMutationUpsert n => ndID n
  end.

(** The node with other values of the fields that a change may carry. *)
Definition withHomeDERP (v : Z) (n : Node) : Node :=
  mkNd (ndID n) (ndFixed n) (ndKey n) (ndKeyExpiry n) (ndKeySignature n) (ndDiscoKey n) (ndEndpoints n) v (ndCap n)
    (ndCapMap n) (ndOnline n) (ndLastSeen n).
Definition withEndpoints (v : option (list AddrPort)) (n : Node) : Node :=
  mkNd (ndID n) (ndFixed n) (ndKey n) (ndKeyExpiry n) (ndKeySignature n) (ndDiscoKey n) v (ndHomeDERP n) (ndCap n)
    (ndCapMap n) (ndOnline n) (ndLastSeen n).
Definition withOnline (v : option bool) (n : Node) : Node :=
  mkNd (ndID n) (ndFixed n) (ndKey n) (ndKeyExpiry n) (ndKeySignature n) (ndDiscoKey n) (ndEndpoints n) (ndHomeDERP n)
    (ndCap n) (ndCapMap n) v (ndLastSeen n).
Definition withLastSeen (v : option Z) (n : Node) : Node :=
  mkNd (ndID n) (ndFixed n) (ndKey n) (ndKeyExpiry n) (ndKeySignature n) (ndDiscoKey n) (ndEndpoints n) (ndHomeDERP n)
    (ndCap n) (ndCapMap n) (ndOnline n) v.
Definition withDiscoKey (v : Z) (n : Node) : Node :=
  mkNd (ndID n) (ndFixed n) (ndKey n) (ndKeyExpiry n) (ndKeySignature n) v (ndEndpoints n) (ndHomeDERP n)
    (ndCap n) (ndCapMap n) (ndOnline n) (ndLastSeen n).

Definition Apply (m : NodeMutation) (n : Node) : Node :=
  match m with
  | NodeMutationDERPHome _ r => withHomeDERP r n
  | NodeMutationEndpoints _ eps => withEndpoints eps n
  | NodeMutationOnline _ o => withOnline (Some o) n
  | NodeMutationLastSeen _ t => withLastSeen (Some t) n
  | NodeMutationUpsert _ | NodeMutationRemove _ => n
  end.

(** The fields of a change in the order of the structure; [None] when one is set for
    which there is no mutation. *)
Definition NodeMutationsFromPatch (p : PeerChange) : option (list NodeMutation) :=
  if decide (pcNodeID p = 0) then None
  else if bool_decide (pcCap p ≠ 0) || bool_decide (is_Some (pcCapMap p)) || bool_decide (is_Some (pcKey p))
          || bool_decide (is_Some (pcKeySignature p)) || bool_decide (is_Some (pcDiscoKey p))
          || bool_decide (is_Some (pcKeyExpiry p)) then None
  else Some ((if decide (pcDERPRegion p = 0) then [] else [NodeMutationDERPHome (pcNodeID p) (pcDERPRegion p)]) ++
             (if pcEndpoints p is Some e then [NodeMutationEndpoints (pcNodeID p) (Some e)] else []) ++
             (if pcOnline p is Some o then [NodeMutationOnline (pcNodeID p) o] else []) ++
             (if pcLastSeen p is Some t then [NodeMutationLastSeen (pcNodeID p) t] else [])).

Fixpoint patchMutations (ps : list PeerChange) : option (list NodeMutation) :=
  match ps with
  | [] => Some []
  | p :: ps => d ← NodeMutationsFromPatch p; ds ← patchMutations ps; Some (d ++ ds)
  end.

Definition mapResponseContainsNonPatchFields (res : MapResponse) : bool :=
  bool_decide (is_Some (rNode res)) || bool_decide (is_Some (rDERPMap res)) || bool_decide (is_Some (rDNSConfig res)) ||
  bool_decide (rDomain res ≠ "") || bool_decide (rCollectServices res ≠ "") || bool_decide (is_Some (rHealth res)) ||
  bool_decide (is_Some (rDisplayMessages res)) || bool_decide (is_Some (rSSHPolicy res)) ||
  bool_decide (is_Some (rTKAInfo res)) || bool_decide (rDomainDataPlaneAuditLogID res ≠ "") ||
  rDebug res || rControlDialPlan res || rClientVersion res || bool_decide (is_Some (rPeers res)) ||
  bool_decide (rDeprecatedDefaultAutoUpdate res ≠ "").

(** [slices.SortStableFunc] by a key: insertion before the first greater or equal
    element, from the right. *)
Fixpoint insertBy {A} (key : A → Z) (x : A) (l : list A) : list A :=
  match l with
  | [] => [x]
  | y :: l' => if decide (key x ≤ key y)%Z then x :: l else y :: insertBy key x l'
  end.
Definition sortBy {A} (key : A → Z) (l : list A) : list A := foldr (insertBy key) [] l.

(** The iteration over a Go map visits its entries in some order; their identifiers
    differ, and the sort that follows makes the order immaterial. *)
Definition onlineMutations (m : gmap Z bool) : list NodeMutation :=
  (λ '(id, v), NodeMutationOnline id v) <$> map_to_list m.
Definition seenMutations (now : Z) (m : gmap Z bool) : list NodeMutation :=
  '(id, v) ← map_to_list m; if (v : bool) then [NodeMutationLastSeen id now] else [].

Definition MutationsFromMapResponse (res : MapResponse) (now : Z) : option (list NodeMutation) :=
  if mapResponseContainsNonPatchFields res then None
  else patches ← patchMutations (rPeersChangedPatch res);
       Some (sortBy NodeIDBeingMutated
         ((NodeMutationRemove <$> rPeersRemoved res) ++ (NodeMutationUpsert <$> rPeersChanged res) ++ patches ++
          onlineMutations (rOnlineChange res) ++ seenMutations now (rPeerSeenChange res))).
End mutations.

(** ** Nodes *)
Section nodes.
Context `{TailTypes}.

Definition DerpMagicIP : string := "127.3.3.40".

(** [upgradeNode]. *)
Definition withFixed (f : NodeFixed) (n : Node) : Node :=
  mkNd (ndID n) f (ndKey n) (ndKeyExpiry n) (ndKeySignature n) (ndDiscoKey n) (ndEndpoints n) (ndHomeDERP n)
    (ndCap n) (ndCapMap n) (ndOnline n) (ndLastSeen n).
Definition upgradedFixed (f : NodeFixed) : NodeFixed :=
  mkFixed (nfStableID f) (nfName f) (nfUser f) (nfSharer f) (nfMachine f) (nfAddresses f)
    (Some (default (nfAddresses f) (nfAllowedIPs f))) "" (nfHostinfo f) (nfCreated f) (nfTags f) (nfPrimaryRoutes f)
    (nfMachineAuthorized f) (nfCapabilities f) (nfUnsignedPeerAPIOnly f) (nfDataPlaneAuditLogID f) (nfExpired f)
    (nfV4MasqAddr f) (nfV6MasqAddr f) (nfIsWireGuardOnly f) (nfIsJailed f) (nfExitNodeDNSResolvers f).
Definition legacyDERP (s : string) : Z :=
  match SplitHostPort s with
  | Some (ip, portStr) => if decide (ip = DerpMagicIP) then default 0 (Atoi portStr) else 0
  | None => 0
  end.
Definition upgradeNode (n : Node) : Node :=
  let s := nfLegacyDERPString (ndFixed n) in
  let derp := if bool_decide (s ≠ "") && (ndHomeDERP n =? 0)%Z then legacyDERP s else ndHomeDERP n in
  withHomeDERP derp (withFixed (upgradedFixed (ndFixed n)) n).

(** The fields whose change no patch can express: those compared before
    [LegacyDERPString], and those compared after it. *)
Definition sameBefore (w n : Node) : bool :=
  let f := ndFixed w in let g := ndFixed n in
  bool_decide (ndID w = ndID n) && bool_decide (nfStableID f = nfStableID g) && bool_decide (nfName f = nfName g) &&
  bool_decide (nfUser f = nfUser g) && bool_decide (nfSharer f = nfSharer g) && bool_decide (nfMachine f = nfMachine g) &&
  bool_decide (nfAddresses f = nfAddresses g) && sliceEqual (nfAllowedIPs f) (nfAllowedIPs g).
Definition sameAfter (w n : Node) : bool :=
  let f := ndFixed w in let g := ndFixed n in
  bool_decide (nfHostinfo f = nfHostinfo g) && bool_decide (nfCreated f = nfCreated g) && bool_decide (nfTags f = nfTags g) &&
  bool_decide (nfPrimaryRoutes f = nfPrimaryRoutes g) && bool_decide (nfMachineAuthorized f = nfMachineAuthorized g) &&
  bool_decide (nfUnsignedPeerAPIOnly f = nfUnsignedPeerAPIOnly g) && bool_decide (nfIsWireGuardOnly f = nfIsWireGuardOnly g) &&
  bool_decide (nfIsJailed f = nfIsJailed g) && bool_decide (nfExpired f = nfExpired g) &&
  bool_decide (nfV4MasqAddr f = nfV4MasqAddr g) && bool_decide (nfV6MasqAddr f = nfV6MasqAddr g) &&
  bool_decide (nfExitNodeDNSResolvers f = nfExitNodeDNSResolvers g).

(** The two capability maps differ: in length, or at a key of the old one. *)
Definition capMapDiffers (w n : option (gmap string (list string))) : bool :=
  let w := default ∅ w in let n := default ∅ n in
  negb (size n =? size w)%nat || existsb (λ '(k, v), bool_decide (n !! k ≠ Some v)) (map_to_list w).

(** An optional field that both nodes have, with different values. *)
Definition bothDiffer {A} `{EqDecision A} (w n : option A) : option A :=
  match w, n with Some a, Some b => if decide (a = b) then None else Some b | _, _ => None end.

(** [ret != nil] at the end: some field was found to differ. *)
Definition patched (w n : Node) : bool :=
  bool_decide (ndKey w ≠ ndKey n) || bool_decide (ndKeyExpiry w ≠ ndKeyExpiry n) ||
  negb (sliceEqual (ndKeySignature w) (ndKeySignature n)) || bool_decide (ndDiscoKey w ≠ ndDiscoKey n) ||
  negb (sliceEqual (ndEndpoints w) (ndEndpoints n)) || bool_decide (ndHomeDERP w ≠ ndHomeDERP n) ||
  bool_decide (ndCap w ≠ ndCap n) || capMapDiffers (ndCapMap w) (ndCapMap n) ||
  bool_decide (is_Some (bothDiffer (ndOnline w) (ndOnline n))) ||
  bool_decide (is_Some (bothDiffer (ndLastSeen w) (ndLastSeen n))).

Definition diffPatch (w n : Node) : PeerChange :=
  mkPeerChange (ndID n)
    (if decide (ndHomeDERP w = ndHomeDERP n) then 0 else ndHomeDERP n)
    (if decide (ndCap w = ndCap n) then 0 else ndCap n)
    (if capMapDiffers (ndCapMap w) (ndCapMap n) then Some (default ∅ (ndCapMap n)) else None)
    (if sliceEqual (ndEndpoints w) (ndEndpoints n) then None else ndEndpoints n)
    (if decide (ndKey w = ndKey n) then None else Some (ndKey n))
    (if sliceEqual (ndKeySignature w) (ndKeySignature n) then None else ndKeySignature n)
    (if decide (ndDiscoKey w = ndDiscoKey n) then None else Some (ndDiscoKey n))
    (bothDiffer (ndOnline w) (ndOnline n))
    (bothDiffer (ndLastSeen w) (ndLastSeen n))
    (if decide (ndKeyExpiry w = ndKeyExpiry n) then None else Some (ndKeyExpiry n)).

(** [peerChangeDiff]: [None] is no patch possible, [Some None] no change. *)
Definition peerChangeDiff (w n : Node) : res () (option (option PeerChange)) :=
  if negb (sameBefore w n) then Ok None
  else if bool_decide (nfLegacyDERPString (ndFixed w) ≠ "") || bool_decide (nfLegacyDERPString (ndFixed n) ≠ "") then Panic
  else if negb (sameAfter w n) then Ok None
  else Ok (Some (if patched w n then Some (diffPatch w n) else None)).

(** The application of a change to a node, in [updatePeersStateFromResponse]. *)
Definition applyChange (pc : PeerChange) (n : Node) : Node :=
  mkNd (ndID n) (ndFixed n)
    (default (ndKey n) (pcKey pc))
    (default (ndKeyExpiry n) (pcKeyExpiry pc))
    (if pcKeySignature pc is Some s then Some s else ndKeySignature n)
    (default (ndDiscoKey n) (pcDiscoKey pc))
    (if pcEndpoints pc is Some e then Some e else ndEndpoints n)
    (if decide (pcDERPRegion pc = 0) then ndHomeDERP n else pcDERPRegion pc)
    (if decide (pcCap pc = 0) then ndCap n else pcCap pc)
    (if pcCapMap pc is Some m then Some m else ndCapMap n)
    (if pcOnline pc is Some o then Some o else ndOnline n)
    (if pcLastSeen pc is Some t then Some t else ndLastSeen n).
End nodes.

(** ** The state of the session *)
Section session.
Context `{TailTypes} `{IPRanges} (bartContains : list Prefix → Addr → bool).

Record mapSession := mkMS {
  msPeers : gmap Z Node;
  lastNode : option Node;
  lastCapSet : gset string;
  lastDNSConfig : DNSConfig;
  lastDERPMap : option DERPMap;
  lastUserProfile : gmap Z UserProfile;
  lastPacketFilterRules : list FilterRule;
  namedPacketFilters : gmap string (list FilterRule);
  lastParsedPacketFilter : list Match;
  lastSSHPolicy : option SSHPolicy;
  collectServices : bool;
  lastDomain : string;
  lastDomainAuditLogID : string;
  lastHealth : list string;
  lastDisplayMessages : gmap string DisplayMessage;
  lastTKAInfo : option TKAInfo;
  disableDelta : bool                      (* the control knob *)
}.
Definition newMapSession : mapSession :=
  mkMS ∅ None ∅ zeroDNSConfig None ∅ [] ∅ [] None false "" "" [] ∅ None false.

Definition withMSPeers (ps : gmap Z Node) (ms : mapSession) : mapSession :=
  mkMS ps (lastNode ms) (lastCapSet ms) (lastDNSConfig ms) (lastDERPMap ms) (lastUserProfile ms)
    (lastPacketFilterRules ms) (namedPacketFilters ms) (lastParsedPacketFilter ms) (lastSSHPolicy ms) (collectServices ms)
    (lastDomain ms) (lastDomainAuditLogID ms) (lastHealth ms) (lastDisplayMessages ms) (lastTKAInfo ms) (disableDelta ms).
Definition withKnob (b : bool) (ms : mapSession) : mapSession :=
  mkMS (msPeers ms) (lastNode ms) (lastCapSet ms) (lastDNSConfig ms) (lastDERPMap ms) (lastUserProfile ms)
    (lastPacketFilterRules ms) (namedPacketFilters ms) (lastParsedPacketFilter ms) (lastSSHPolicy ms) (collectServices ms)
    (lastDomain ms) (lastDomainAuditLogID ms) (lastHealth ms) (lastDisplayMessages ms) (lastTKAInfo ms) b.

(** *** Changed peers become patches *)
Definition patchifyPeer (ms : mapSession) (n : Node) : res () (option (option PeerChange)) :=
  match msPeers ms !! ndID n with
  | None => Ok None
  | Some was => peerChangeDiff was n
  end.

Fixpoint patchifyLoop (ms : mapSession) (ns : list Node) (filtered : list Node) (patch : list PeerChange)
    : res () (list Node * list PeerChange) :=
  match ns with
  | [] => Ok (filtered, patch)
  | n :: ns =>
      d ← patchifyPeer ms n;
      match d with
      | Some (Some p) => patchifyLoop ms ns filtered (patch ++ [p])
      | Some None => patchifyLoop ms ns filtered patch
      | None => patchifyLoop ms ns (filtered ++ [n]) patch
      end
  end.
Definition patchifyPeersChanged (ms : mapSession) (resp : MapResponse) : res () MapResponse :=
  '(filtered, patch) ← patchifyLoop ms (rPeersChanged resp) [] (rPeersChangedPatch resp);
  Ok (withPeerChanges filtered patch resp).

(** *** Stale disco keys *)

(** The change is kept. *)
Definition acceptChange (ms : mapSession) (viaTSMP : bool) (change : PeerChange) : bool :=
  match pcDiscoKey change, pcOnline change, pcLastSeen change with
  | Some dk, Some online, Some seen =>
      match msPeers ms !! pcNodeID change with
      | None => true
      | Some ex =>
          if viaTSMP && default false (ndOnline ex) && (dk =? ndDiscoKey ex)%Z then false
          else online || match ndLastSeen ex with None => true | Some t => (t <? seen)%Z end
      end
  | _, _, _ => true
  end.
Definition removeUnwantedDiscoUpdates (ms : mapSession) (viaTSMP : bool) (resp : MapResponse) : MapResponse :=
  withPeerChanges (rPeersChanged resp) (filter (acceptChange ms viaTSMP) (rPeersChangedPatch resp)) resp.

(** The peer of a full map, with the key of the session if that is newer. *)
Definition keepLearned (ms : mapSession) (peer : Node) : Node :=
  if decide (ndDiscoKey peer = 0) then peer
  else match msPeers ms !! ndID peer with
  | None => peer
  | Some ex =>
      if decide (ndDiscoKey ex = ndDiscoKey peer) then peer
      else if default false (ndOnline peer) then peer
      else match ndLastSeen ex with
      | None => peer
      | Some t =>
          if default false ((λ s, (t <? s)%Z) <$> ndLastSeen peer) then peer
          else withLastSeen (Some t) (withDiscoKey (ndDiscoKey ex) peer)
      end
  end.
Definition removeUnwantedDiscoUpdatesFromFullNetmapUpdate (ms : mapSession) (resp : MapResponse) : MapResponse :=
  withNodes (rNode resp) (map (keepLearned ms) <$> rPeers resp) (rPeersChanged resp) resp.

(** *** The peers *)

(** The loops over [PeerSeenChange] and [OnlineChange] visit each identifier once. *)
Definition applySeen (now : Z) (m : gmap Z bool) (ps : gmap Z Node) : gmap Z Node :=
  map_imap (λ id (n : Node), Some (match (m !! id : option bool) with
    | Some seen => withLastSeen (if seen then Some now else None) n
    | None => n end)) ps.
Definition applyOnline (m : gmap Z bool) (ps : gmap Z Node) : gmap Z Node :=
  map_imap (λ id (n : Node), Some (match (m !! id : option bool) with Some o => withOnline (Some o) n | None => n end)) ps.
Definition applyPatches (pcs : list PeerChange) (ps : gmap Z Node) : gmap Z Node :=
  foldl (λ ps pc, alter (applyChange pc) (pcNodeID pc) ps) ps pcs.
Definition upsertPeers (ns : list Node) (ps : gmap Z Node) : gmap Z Node := foldl (λ ps n, <[ndID n := n]> ps) ps ns.
Definition removePeers (ids : list Z) (ps : gmap Z Node) : gmap Z Node := foldl (λ ps id, delete id ps) ps ids.

Definition updatePeersStateFromResponse (now : Z) (resp : MapResponse) (ps : gmap Z Node) : gmap Z Node :=
  match default [] (rPeers resp) with
  | [] =>
      applyPatches (rPeersChangedPatch resp)
        (applyOnline (rOnlineChange resp)
          (applySeen now (rPeerSeenChange resp)
            (upsertPeers (rPeersChanged resp) (removePeers (rPeersRemoved resp) ps))))
  | full =>
      let keep : gset Z := list_to_set (ndID <$> full) in
      filter (λ '(id, _), id ∈ keep) (upsertPeers full ps)
  end.

(** *** The rest of the state *)
Definition mergeDERPMap (ldm : option DERPMap) (dm : DERPMap) : DERPMap :=
  let regions := (λ m, filter (λ '(_, r), is_Some r) m) <$> dmRegions dm in
  match ldm with
  | None => mkDERPMap (dmHomeParams dm) regions (dmOmitDefaultRegions dm)
  | Some l =>
      mkDERPMap
        (match dmHomeParams dm, dmHomeParams l with
         | None, old => old
         | Some hh, Some old => Some (mkHomeParams (if hpRegionScore hh is Some s then Some s else hpRegionScore old))
         | Some hh, None => Some hh
         end)
        (if regions is Some _ then regions else dmRegions l)
        (if regions is Some _ then dmOmitDefaultRegions dm else dmOmitDefaultRegions l)
  end.

(** A map of named values, where a nil value deletes, and nil under the name [*]
    deletes all that is not in the map itself. *)
Definition mergeNamed {V} (m : gmap string (option V)) (old : gmap string V) : gmap string V :=
  let base := if m !! "*" is Some None then ∅ else old in
  map_fold (λ k v acc, if decide (k = "*") then acc
    else match v with Some v => <[k := v]> acc | None => delete k acc end) base m.

(** [slices.Sorted] of names: by bytes. *)
Fixpoint insertName (x : string) (l : list string) : list string :=
  match l with
  | [] => [x]
  | y :: l' => if String.leb x y then x :: l else y :: insertName x l'
  end.
Definition sortedNames {V} (m : gmap string V) : list string := foldr insertName [] (map_to_list m).*1.
Definition concatFilters (m : gmap string (list FilterRule)) : list FilterRule :=
  mjoin ((λ k, default [] (m !! k)) <$> sortedNames m).

Definition nextNamedFilters (resp : MapResponse) (old : gmap string (list FilterRule)) : gmap string (list FilterRule) :=
  let m := if rPacketFilter resp is Some pf then <["base" := pf]> old else old in
  if rPacketFilters resp is Some fs then mergeNamed fs m else m.
Definition packetFilterChanged (resp : MapResponse) : bool :=
  bool_decide (is_Some (rPacketFilter resp)) || bool_decide (is_Some (rPacketFilters resp)).

Definition capSetOf (n : Node) : gset string :=
  list_to_set (nfCapabilities (ndFixed n)) ∪ dom (default ∅ (ndCapMap n)).

Definition updateStateFromResponse (now : Z) (resp : MapResponse) (ms : mapSession) : mapSession :=
  let named := nextNamedFilters resp (namedPacketFilters ms) in
  let concat := concatFilters named in
  mkMS (updatePeersStateFromResponse now resp (msPeers ms))
    (if rNode resp is Some n then Some n else lastNode ms)
    (if rNode resp is Some n then capSetOf n else lastCapSet ms)
    (default (lastDNSConfig ms) (rDNSConfig resp))
    (if rDERPMap resp is Some dm then Some (mergeDERPMap (lastDERPMap ms) dm) else lastDERPMap ms)
    (foldl (λ m '(id, up), <[id := up]> m) (lastUserProfile ms) (rUserProfiles resp))
    (if packetFilterChanged resp then concat else lastPacketFilterRules ms)
    named
    (if packetFilterChanged resp then (MatchesFromFilterRules bartContains concat).1 else lastParsedPacketFilter ms)
    (if rSSHPolicy resp is Some p then Some p else lastSSHPolicy ms)
    (default (collectServices ms) (optGet (rCollectServices resp)))
    (if decide (rDomain resp = "") then lastDomain ms else rDomain resp)
    (if decide (rDomainDataPlaneAuditLogID resp = "") then lastDomainAuditLogID ms else rDomainDataPlaneAuditLogID resp)
    (default (lastHealth ms) (rHealth resp))
    (if rDisplayMessages resp is Some m then mergeNamed m (lastDisplayMessages ms) else lastDisplayMessages ms)
    (if rTKAInfo resp is Some t then Some t else lastTKAInfo ms)
    (disableDelta ms).

(** *** The network map *)
Record NetworkMap := mkNetMap {
  nmSelfNode : option Node;
  nmAllCaps : gset string;
  nmPeers : list Node;
  nmDNS : DNSConfig;
  nmPacketFilter : list Match;
  nmPacketFilterRules : list FilterRule;
  nmSSHPolicy : option SSHPolicy;
  nmCollectServices : bool;
  nmDERPMap : option DERPMap;
  nmDomain : string;
  nmDomainAuditLogID : string;
  nmUserProfiles : gmap Z UserProfile
}.

Definition sortedPeers (ps : gmap Z Node) : list Node := sortBy ndID (map_to_list ps).*2.

Definition addUserProfile (profiles : gmap Z UserProfile) (nm : gmap Z UserProfile) (id : Z) : gmap Z UserProfile :=
  if decide (id = 0) then nm
  else match nm !! id with
  | Some _ => nm
  | None => if profiles !! id is Some up then <[id := up]> nm else nm
  end.
Definition nmUser (self : option Node) : Z := from_option (λ n, nfUser (ndFixed n)) 0 self.

Definition netmap (ms : mapSession) : NetworkMap :=
  let peers := sortedPeers (msPeers ms) in
  let users := nmUser (lastNode ms) :: (p ← peers; [nfSharer (ndFixed p); nfUser (ndFixed p)]) in
  mkNetMap (lastNode ms) (if lastNode ms is Some _ then lastCapSet ms else ∅) peers (lastDNSConfig ms)
    (lastParsedPacketFilter ms) (lastPacketFilterRules ms) (lastSSHPolicy ms) (collectServices ms) (lastDERPMap ms)
    (lastDomain ms) (lastDomainAuditLogID ms) (foldl (addUserProfile (lastUserProfile ms)) ∅ users).

(** *** The updater *)

(** What the session asks of its [NetmapUpdater]; all but the first are the optional
    interfaces, absent when the type assertion fails. *)
Record Updater (B : Type) := mkUpdater {
  UpdateFullNetmap : NetworkMap → B → B;
  UpdateNetmapDelta : option (list NodeMutation → B → bool * B);
  UpdatePacketFilter : option (list FilterRule → list Match → B → bool * B);
  UpdateUserProfiles : option (gmap Z UserProfile → B → bool * B);
  PatchDisco : option (Z → Z → B → B)
}.
Arguments UpdateFullNetmap {_}.
Arguments UpdateNetmapDelta {_}.
Arguments UpdatePacketFilter {_}.
Arguments UpdateUserProfiles {_}.
Arguments PatchDisco {_}.

Context {B : Type} (u : Updater B).

Definition pushFilter (ms : mapSession) (res : MapResponse) (b : B) : bool * B :=
  if packetFilterChanged res
  then match UpdatePacketFilter u with
       | None => (false, b)
       | Some f => f (lastPacketFilterRules ms) (lastParsedPacketFilter ms) b
       end
  else (true, b).
Definition profilesOf (ms : mapSession) (ups : list (Z * UserProfile)) : gmap Z UserProfile :=
  foldl (λ m '(id, _), if lastUserProfile ms !! id is Some up then <[id := up]> m else m) ∅ ups.
Definition pushProfiles (ms : mapSession) (res : MapResponse) (b : B) : bool * B :=
  match rUserProfiles res with
  | [] => (true, b)
  | ups => match UpdateUserProfiles u with None => (false, b) | Some f => f (profilesOf ms ups) b end
  end.

Definition tryHandleIncrementally (ms : mapSession) (now : Z) (res : MapResponse) (b : B) : bool * B :=
  if disableDelta ms then (false, b)
  else match UpdateNetmapDelta u with
  | None => (false, b)
  | Some nud =>
      let '(ok, b) := pushFilter ms res b in
      if negb ok then (false, b)
      else let '(ok, b) := pushProfiles ms res b in
      if negb ok then (false, b)
      else match MutationsFromMapResponse res now with
      | None => (false, b)
      | Some [] => (true, b)
      | Some muts => nud muts b
      end
  end.

Definition tryMarkDiscoAsLearnedFromTSMP (res : MapResponse) (b : B) : B :=
  match PatchDisco u with
  | None => b
  | Some f => foldl (λ b c, match pcDiscoKey c, pcKey c with Some dk, Some k => f k dk b | _, _ => b end) b
                (rPeersChangedPatch res)
  end.

(** The capabilities of an old server become entries of the map. *)
Definition upgradeSelf (n : Node) : Node :=
  let n := upgradeNode n in
  let caps := foldl (λ m c, if m !! c is Some _ then m else <[c := []]> m) (default ∅ (ndCapMap n)) (nfCapabilities (ndFixed n)) in
  mkNd (ndID n) (ndFixed n) (ndKey n) (ndKeyExpiry n) (ndKeySignature n) (ndDiscoKey n) (ndEndpoints n) (ndHomeDERP n)
    (ndCap n) (match nfCapabilities (ndFixed n) with [] => ndCapMap n | _ => Some caps end) (ndOnline n) (ndLastSeen n).
Definition NodeAttrDisableDeltaUpdates : string := "disable-delta-updates".

Definition upgradeResponse (resp : MapResponse) : MapResponse :=
  withNodes (upgradeSelf <$> rNode resp) (map upgradeNode <$> rPeers resp) (upgradeNode <$> rPeersChanged resp) resp.
Definition updateKnobs (resp : MapResponse) (ms : mapSession) : mapSession :=
  match rNode resp with
  | Some n => withKnob (bool_decide (is_Some (default ∅ (ndCapMap n) !! NodeAttrDisableDeltaUpdates))) ms
  | None => ms
  end.

(** The response after the steps that only rewrite it. *)
Definition preparedResponse (ms : mapSession) (viaTSMP : bool) (resp : MapResponse) : res () MapResponse :=
  resp ← patchifyPeersChanged ms (upgradeResponse resp);
  Ok (removeUnwantedDiscoUpdates ms viaTSMP resp).

(** [handleNonKeepAliveMapResponse], with the times of the two calls of [Now]. *)
Definition handleNonKeepAliveMapResponse (now now' : Z) (viaTSMP : bool) (resp : MapResponse) (ms : mapSession) (b : B)
    : res () (mapSession * B) :=
  let ms := updateKnobs (upgradeResponse resp) ms in
  resp ← preparedResponse ms viaTSMP resp;
  if viaTSMP && bool_decide (rPeersChangedPatch resp = []) then Ok (ms, b)
  else
    let resp := removeUnwantedDiscoUpdatesFromFullNetmapUpdate ms resp in
    let ms := updateStateFromResponse now resp ms in
    let b := if viaTSMP then tryMarkDiscoAsLearnedFromTSMP resp b else b in
    let '(handled, b) := tryHandleIncrementally ms now' resp b in
    if handled : bool then Ok (ms, b) else Ok (ms, UpdateFullNetmap u (netmap ms) b).

(** What [updateDiscoForNode] puts into the queue. *)
Definition discoResponse (id key disco lastSeen : Z) (online : bool) : MapResponse :=
  withPeerChanges [] [mkPeerChange id 0 0 None None (Some key) None (Some disco) (Some online) (Some lastSeen) None] zeroResp.
End session.
Arguments UpdateFullNetmap {_ _}.
Arguments UpdateNetmapDelta {_ _}.
Arguments UpdatePacketFilter {_ _}.
Arguments UpdateUserProfiles {_ _}.
Arguments PatchDisco {_ _}.
