(* ===== verification/NetMap.v ===== *)
(** * The network map in the backend

    [ipn/ipnlocal/node_backend.go] (the peers of the current node and their indexes),
    the lookup by address of [ipn/ipnlocal/resolve.go], the tailnet lock's filters of [ipn/ipnlocal/tailnet-lock.go], the narrow updates of
    [ipn/ipnlocal/local.go], and [wgengine/wgcfg/nmcfg/nmcfg.go], which makes the
    WireGuard configuration of a network map.

    The index by name is left out, and the map by WireGuard's own form of a key, which
    has the entries of the index by key.  The authority that checks signatures is a
    function.  What the backend does besides changing its own state is a list of
    actions. *)

From stdpp Require Import base gmap sets list strings.
From S2P Require Import Prelude GoStd Bytes NetIP TSAddr Filter FilterRules TunWrap TailCfg MapSession.

(** ** The WireGuard configuration *)
Section nmcfg.
Context `{TailTypes}.

Definition AllowSubnetRoutes : Z := 2.

Definition cidrIsSubnet (node : Node) (cidr : Prefix) : bool :=
  if decide (Bits cidr = 0) then false
  else if negb (IsSingleIP cidr) then true
  else if IsTailscaleIP (pfx_ip cidr) then false
  else negb (bool_decide (cidr ∈ nfAddresses (ndFixed node))).

(** The body of the loop over [AllowedIPs]: the prefix is given to the peer. *)
Definition givenTo (flags : Z) (exitNode : string) (peer : Node) (allowedIP : Prefix) : bool :=
  if decide (Bits allowedIP = 0 ∧ nfStableID (ndFixed peer) ≠ exitNode) then false
  else if cidrIsSubnet peer allowedIP then negb (Z.land flags AllowSubnetRoutes =? 0)%Z
  else true.

Definition allowedOf (n : Node) : list Prefix := default [] (nfAllowedIPs (ndFixed n)).

Fixpoint wgPeers (flags : Z) (exitNode : string) (ps : list Node) : list WGPeer :=
  match ps with
  | [] => []
  | p :: ps =>
      if (ndDiscoKey p =? 0)%Z && (ndHomeDERP p =? 0)%Z && negb (nfIsWireGuardOnly (ndFixed p)) then wgPeers flags exitNode ps
      else if nfExpired (ndFixed p) then wgPeers flags exitNode ps
      else mkWGPeer (ndKey p) (ndDiscoKey p) (filter (givenTo flags exitNode p) (allowedOf p))
             (nfV4MasqAddr (ndFixed p)) (nfV6MasqAddr (ndFixed p)) (nfIsJailed (ndFixed p)) 0
           :: wgPeers flags exitNode ps
  end.

Definition WGCfg (pk : Z) (nm : NetworkMap) (flags : Z) (exitNode : string) : WGConfig :=
  mkWGConfig pk (from_option (λ n, nfAddresses (ndFixed n)) [] (nmSelfNode nm)) (wgPeers flags exitNode (nmPeers nm)).
End nmcfg.

(** ** The current node *)
Section node_backend.
Context `{TailTypes}.

Record nodeBackend := mkNB {
  nbNetMap : option NetworkMap;
  nbPeers : gmap Z Node;
  nodeByAddr : gmap Addr Z;
  nodeByKey : gmap Z Z;
  nbUserProfiles : gmap Z UserProfile;
  nbPacketFilterRules : list FilterRule;
  nbPacketFilter : list Match
}.
Definition newNodeBackend : nodeBackend := mkNB None ∅ ∅ ∅ ∅ [] [].

Definition NodeByID (id : Z) (nb : nodeBackend) : option Node :=
  match nbNetMap nb ≫= nmSelfNode with
  | Some self => if decide (ndID self = id) then Some self else nbPeers nb !! id
  | None => nbPeers nb !! id
  end.

Definition NodeByAddr (ip : Addr) (nb : nodeBackend) : option Z := nodeByAddr nb !! ip.

(** The fast path of outbound packets: the key of the node that has the address. *)
Definition lookupPeerByIP (nb : nodeBackend) (ip : Addr) : option Z :=
  nid ← NodeByAddr ip nb; peer ← NodeByID nid nb; Some (ndKey peer).

(** The single addresses of a node. *)
Definition addrsOf (n : Node) : list Addr := pfx_ip <$> filter IsSingleIP (nfAddresses (ndFixed n)).
Definition addNodeAddr (m : gmap Addr Z) (n : Node) : gmap Addr Z := foldl (λ m a, <[a := ndID n]> m) m (addrsOf n).
Definition addNodeKey (m : gmap Z Z) (n : Node) : gmap Z Z := <[ndKey n := ndID n]> m.
Definition allNodes (nm : NetworkMap) : list Node := option_list (nmSelfNode nm) ++ nmPeers nm.

Definition SetNetMap (nm : option NetworkMap) (nb : nodeBackend) : nodeBackend :=
  match nm with
  | Some m =>
      mkNB nm (foldl (λ ps p, <[ndID p := p]> ps) ∅ (nmPeers m)) (foldl addNodeAddr ∅ (allNodes m))
        (foldl addNodeKey ∅ (allNodes m)) (nmUserProfiles m) (nmPacketFilterRules m) (nmPacketFilter m)
  | None => mkNB None ∅ ∅ ∅ ∅ [] []
  end.

Definition netMapWithPeers (nb : nodeBackend) : option NetworkMap :=
  nm ← nbNetMap nb;
  Some (mkNetMap (nmSelfNode nm) (nmAllCaps nm) (sortedPeers (nbPeers nb)) (nmDNS nm) (nbPacketFilter nb)
    (nbPacketFilterRules nb) (nmSSHPolicy nm) (nmCollectServices nm) (nmDERPMap nm) (nmDomain nm) (nmDomainAuditLogID nm)
    (nbUserProfiles nb)).

Definition setPacketFilter (rules : list FilterRule) (parsed : list Match) (nb : nodeBackend) : nodeBackend :=
  mkNB (nbNetMap nb) (nbPeers nb) (nodeByAddr nb) (nodeByKey nb) (nbUserProfiles nb) rules parsed.
Definition mergeUserProfiles (profiles : gmap Z UserProfile) (nb : nodeBackend) : nodeBackend :=
  mkNB (nbNetMap nb) (nbPeers nb) (nodeByAddr nb) (nodeByKey nb) (profiles ∪ nbUserProfiles nb) (nbPacketFilterRules nb)
    (nbPacketFilter nb).

Definition withIndex (ps : gmap Z Node) (ba : gmap Addr Z) (bk : gmap Z Z) (nb : nodeBackend) : nodeBackend :=
  mkNB (nbNetMap nb) ps ba bk (nbUserProfiles nb) (nbPacketFilterRules nb) (nbPacketFilter nb).
Definition nbUpsert (n : Node) (nb : nodeBackend) : nodeBackend :=
  withIndex (<[ndID n := n]> (nbPeers nb)) (addNodeAddr (nodeByAddr nb) n) (addNodeKey (nodeByKey nb) n) nb.
Definition nbRemove (id : Z) (nb : nodeBackend) : nodeBackend :=
  match nbPeers nb !! id with
  | Some old =>
      withIndex (delete id (nbPeers nb)) (foldl (λ m a, delete a m) (nodeByAddr nb) (addrsOf old))
        (delete (ndKey old) (nodeByKey nb)) nb
  | None => nb
  end.

(** The loop over the mutations.  [mut] is [mutableNodes]; [false] is the early return. *)
Fixpoint deltaLoop (muts : list NodeMutation) (mut : gmap Z Node) (nb : nodeBackend) : bool * gmap Z Node * nodeBackend :=
  match muts with
  | [] => (true, mut, nb)
  | NodeMutationUpsert n :: muts => deltaLoop muts mut (nbUpsert n nb)
  | NodeMutationRemove id :: muts => deltaLoop muts mut (nbRemove id nb)
  | m :: muts =>
      let nid := NodeIDBeingMutated m in
      match mut !! nid with
      | Some n => deltaLoop muts (<[nid := Apply m n]> mut) nb
      | None =>
          match nbPeers nb !! nid with
          | None => (false, mut, nb)
          | Some nv => deltaLoop muts (<[nid := Apply m nv]> mut) nb
          end
      end
  end.
Definition nbUpdateNetmapDelta (muts : list NodeMutation) (nb : nodeBackend) : bool * nodeBackend :=
  match nbNetMap nb with
  | None => (false, nb)
  | Some _ =>
      match deltaLoop muts ∅ nb with
      | (true, mut, nb) => (true, withIndex (mut ∪ nbPeers nb) (nodeByAddr nb) (nodeByKey nb) nb)
      | (false, _, nb) => (false, nb)
      end
  end.
End node_backend.

(** ** The tailnet lock *)
Section tailnet_lock.
Context `{TailTypes}.

Record RotationDetails := mkRotation { PrevNodeKeys : list Z; initialDirect : bool; WrappingPubkey : bytes }.
(** [NodeKeyAuthorizedWithDetails]: [None] is an error. *)
Definition Authority : Type := Z → bytes → option (option RotationDetails).
Variable authority : Authority.

Record sigRotationDetails := mkSigRotation { srNP : Z; srNumPrev : Z }.
(** [byWrappingKey] lists the keys in the order of their first appearance. *)
Record rotationTracker := mkTracker { obsolete : gset Z; byWrappingKey : list (bytes * list sigRotationDetails) }.

Fixpoint appendTo (wp : bytes) (rd : sigRotationDetails) (l : list (bytes * list sigRotationDetails))
    : list (bytes * list sigRotationDetails) :=
  match l with
  | [] => [(wp, [rd])]
  | (w, v) :: l => if decide (w = wp) then (w, v ++ [rd]) :: l else (w, v) :: appendTo wp rd l
  end.
Definition addRotationDetails (np : Z) (d : RotationDetails) (r : rotationTracker) : rotationTracker :=
  let obs := obsolete r ∪ list_to_set (PrevNodeKeys d) in
  if negb (initialDirect d) then mkTracker obs (byWrappingKey r)
  else mkTracker obs (appendTo (WrappingPubkey d) (mkSigRotation np (zlen (PrevNodeKeys d))) (byWrappingKey r)).

Definition obsoleteGroup (obs : gset Z) (v : list sigRotationDetails) : gset Z :=
  let v := sortBy (λ rd, (- srNumPrev rd)%Z) (filter (λ rd, srNP rd ∉ obs) v) in
  match v with
  | [] => obs
  | a :: rest =>
      match rest with
      | b :: _ => if decide (srNumPrev a = srNumPrev b) then obs ∪ list_to_set (srNP <$> v) else obs ∪ list_to_set (srNP <$> rest)
      | [] => obs
      end
  end.
Definition obsoleteKeys (r : rotationTracker) : gset Z := foldl obsoleteGroup (obsolete r) (byWrappingKey r).*2.

(** What the authority says of a peer: the error, or the details of its signature. *)
Definition lockVerdict (p : Node) : option (option RotationDetails) :=
  if nfUnsignedPeerAPIOnly (ndFixed p) then Some None
  else if decide (default [] (ndKeySignature p) = []) then None
  else authority (ndKey p) (default [] (ndKeySignature p)).
Definition trackPeer (r : rotationTracker) (p : Node) : rotationTracker :=
  match lockVerdict p with Some (Some d) => addRotationDetails (ndKey p) d r | _ => r end.

Definition rotatedOut (ps : list Node) : gset Z := obsoleteKeys (foldl trackPeer (mkTracker ∅ []) ps).
(** The peers that [tkaFilterNetmapLocked] keeps. *)
Definition tkaKeeps (ps : list Node) (p : Node) : bool :=
  bool_decide (is_Some (lockVerdict p)) && bool_decide (ndKey p ∉ rotatedOut ps).
Definition withNMPeers (ps : list Node) (nm : NetworkMap) : NetworkMap :=
  mkNetMap (nmSelfNode nm) (nmAllCaps nm) ps (nmDNS nm) (nmPacketFilter nm) (nmPacketFilterRules nm) (nmSSHPolicy nm)
    (nmCollectServices nm) (nmDERPMap nm) (nmDomain nm) (nmDomainAuditLogID nm) (nmUserProfiles nm).

Definition tkaFilterMut (m : NodeMutation) : NodeMutation :=
  match m with
  | NodeMutationUpsert n => if lockVerdict n is Some _ then m else NodeMutationRemove (ndID n)
  | _ => m
  end.
(** [tka.filtered]: the peers that were dropped. *)
Definition filteredStep (f : gmap Z Node) (m : NodeMutation) : gmap Z Node :=
  match m with
  | NodeMutationUpsert n => if lockVerdict n is Some _ then f else <[ndID n := n]> f
  | NodeMutationRemove id => delete id f
  | _ => f
  end.
End tailnet_lock.

(** ** The backend *)
Section local_backend.
Context `{TailTypes}.

Inductive LBAction : Type :=
  | MagicUpsert (n : Node)
  | MagicRemove (id : Z)
  | MagicDelta (muts : list NodeMutation)
  | MagicSetNetworkMap (nm : option NetworkMap)
  | EngineSetSelfNode (self : option Node)
  | AuthReconfig
  | UpdateFilter
  | BumpDriveGen
  | RefreshExitNode
  | SuggestExitNode
  | CacheWrite (updates : list Node) (removes : list string)
  | SendPeers (changed : list Node) (removed : list Z) (patches : list PeerChange)
  | SendProfiles (profiles : gmap Z UserProfile)
  | EnginePatchDisco (key disco : Z).

(** [lbTKA] is the authority and the peers it made us drop; [lbAutoExit], [lbExitNodeID]
    are of the current preferences. *)
Record LocalBackend := mkLB {
  lbNode : nodeBackend;
  lbTKA : option (Authority * gmap Z Node);
  lbSuggested : string;
  lbAutoExit : bool;
  lbExitNodeID : string;
  lbActions : list LBAction
}.
Definition withNode (nb : nodeBackend) (b : LocalBackend) : LocalBackend :=
  mkLB nb (lbTKA b) (lbSuggested b) (lbAutoExit b) (lbExitNodeID b) (lbActions b).
Definition withTKA (t : option (Authority * gmap Z Node)) (b : LocalBackend) : LocalBackend :=
  mkLB (lbNode b) t (lbSuggested b) (lbAutoExit b) (lbExitNodeID b) (lbActions b).
Definition doing (l : list LBAction) (b : LocalBackend) : LocalBackend :=
  mkLB (lbNode b) (lbTKA b) (lbSuggested b) (lbAutoExit b) (lbExitNodeID b) (lbActions b ++ l).

Definition tkaFilterDeltaMutsLocked (muts : list NodeMutation) (b : LocalBackend) : list NodeMutation * LocalBackend :=
  match lbTKA b with
  | None => (muts, b)
  | Some (au, f) => (tkaFilterMut au <$> muts, withTKA (Some (au, foldl (filteredStep au) f muts)) b)
  end.
Definition tkaFilterNetmapLocked (nm : NetworkMap) (b : LocalBackend) : NetworkMap * LocalBackend :=
  match lbTKA b with
  | None => (nm, b)
  | Some (au, _) =>
      let ps := nmPeers nm in
      let dropped := filter (λ p, negb (tkaKeeps au ps p)) ps in
      (withNMPeers (filter (tkaKeeps au ps) ps) nm,
       withTKA (Some (au, foldl (λ m p, <[ndID p := p]> m) ∅ dropped)) b)
  end.

(** A network map from the control client is installed. *)
Definition installNetMap (nm : NetworkMap) (b : LocalBackend) : LocalBackend :=
  let '(nm, b) := tkaFilterNetmapLocked nm b in
  doing [MagicSetNetworkMap (Some nm); UpdateFilter] (withNode (SetNetMap (Some nm) (lbNode b)) b).

Definition peerRouteConfigChanged (o n : Node) : bool :=
  let f := ndFixed o in let g := ndFixed n in
  bool_decide (ndKey o ≠ ndKey n) || bool_decide (ndDiscoKey o ≠ ndDiscoKey n) ||
  negb (sliceEqual (nfAllowedIPs f) (nfAllowedIPs g)) || bool_decide (nfExpired f ≠ nfExpired g) ||
  bool_decide (nfIsJailed f ≠ nfIsJailed g) || bool_decide (nfIsWireGuardOnly f ≠ nfIsWireGuardOnly g) ||
  bool_decide (nfV4MasqAddr f ≠ nfV4MasqAddr g) || bool_decide (nfV6MasqAddr f ≠ nfV6MasqAddr g).
Definition netmapDeltaNeedsAuthReconfig (cn : nodeBackend) (muts : list NodeMutation) : bool :=
  existsb (λ m, match m with
    | NodeMutationUpsert n => if NodeByID (ndID n) cn is Some old then peerRouteConfigChanged old n else false
    | _ => false
    end) muts.

Definition isExitNode (n : Node) : bool := bool_decide (AllIPv4 ∈ allowedOf n) || bool_decide (AllIPv6 ∈ allowedOf n).
Definition mutationsAreWorthyOfRecalculatingSuggestedExitNode (muts : list NodeMutation) (cn : nodeBackend) (sid : string) : bool :=
  existsb (λ m, match NodeByID (NodeIDBeingMutated m) cn with
    | None => false
    | Some n =>
        if decide (sid ≠ "" ∧ nfStableID (ndFixed n) = sid) then true
        else isExitNode n && (if m is NodeMutationOnline _ _ then true else false)
    end) muts.
Definition mutationsAreWorthyOfTellingIPNBus (muts : list NodeMutation) : bool :=
  existsb (λ m, match m with NodeMutationLastSeen _ _ | NodeMutationOnline _ _ => true | _ => false end) muts.

Definition noChange (id : Z) : PeerChange := mkPeerChange id 0 0 None None None None None None None None.
(** The change of a node in the list, or a new one at its end, with a field set. *)
Fixpoint changeOf (id : Z) (f : PeerChange → PeerChange) (l : list PeerChange) : list PeerChange :=
  match l with
  | [] => [f (noChange id)]
  | p :: l => if decide (pcNodeID p = id) then f p :: l else p :: changeOf id f l
  end.
Definition setField (m : NodeMutation) (p : PeerChange) : PeerChange :=
  mkPeerChange (pcNodeID p)
    (if m is NodeMutationDERPHome _ r then r else pcDERPRegion p) (pcCap p) (pcCapMap p)
    (if m is NodeMutationEndpoints _ e then e else pcEndpoints p) (pcKey p) (pcKeySignature p) (pcDiscoKey p)
    (if m is NodeMutationOnline _ o then Some o else pcOnline p)
    (if m is NodeMutationLastSeen _ t then Some t else pcLastSeen p) (pcKeyExpiry p).
Definition isField (m : NodeMutation) : bool :=
  match m with NodeMutationUpsert _ | NodeMutationRemove _ => false | _ => true end.
Definition ipnBusPeerChangedPatchFromNodeMutations (muts : list NodeMutation) : list PeerChange :=
  foldl (λ l m, if isField m then changeOf (NodeIDBeingMutated m) (setField m) l else l) [] muts.

(** The steps of [LocalBackend.UpdateNetmapDelta] after the filter. *)
Definition magicAction (m : NodeMutation) : list LBAction :=
  match m with NodeMutationUpsert n => [MagicUpsert n] | NodeMutationRemove id => [MagicRemove id] | _ => [] end.
Definition peersUpsertedOrRemoved (muts : list NodeMutation) : bool := existsb (λ m, negb (isField m)) muts.
Definition removeIDs (muts : list NodeMutation) : gset Z :=
  list_to_set (muts ≫= λ m, if m is NodeMutationRemove id then [id] else []).
Definition updateIDs (muts : list NodeMutation) : gset Z :=
  list_to_set (muts ≫= λ m, if m is NodeMutationRemove _ then [] else [NodeIDBeingMutated m]).
Definition exitNodeWentOffline (cn : nodeBackend) (exitNodeID : string) (muts : list NodeMutation) : bool :=
  existsb (λ m, match m with
    | NodeMutationOnline id false =>
        if NodeByID id cn is Some n then bool_decide (nfStableID (ndFixed n) = exitNodeID) else false
    | _ => false
    end) muts.
Definition NodeAttrCacheNetworkMaps : string := "cache-network-maps".
Definition selfHasCap (cap : string) (cn : nodeBackend) : bool :=
  if nbNetMap cn is Some nm then bool_decide (cap ∈ nmAllCaps nm) else false.

Definition lbUpdateNetmapDelta (muts : list NodeMutation) (b : LocalBackend) : bool * LocalBackend :=
  let '(muts, b) := tkaFilterDeltaMutsLocked muts b in
  let needs := netmapDeltaNeedsAuthReconfig (lbNode b) muts in
  let cn := (nbUpdateNetmapDelta muts (lbNode b)).2 in
  let b := doing ([BumpDriveGen] ++ (muts ≫= magicAction) ++ [MagicDelta muts]) (withNode cn b) in
  let ur := peersUpsertedOrRemoved muts in
  let b := if needs || ur
           then doing ((if ur then (if netMapWithPeers cn is Some nm then [EngineSetSelfNode (nmSelfNode nm)] else []) else []) ++
                       [AuthReconfig]) b
           else b in
  let b := if lbAutoExit b && exitNodeWentOffline cn (lbExitNodeID b) muts then doing [RefreshExitNode] b else b in
  let b := if bool_decide (is_Some (nbNetMap cn)) && mutationsAreWorthyOfRecalculatingSuggestedExitNode muts cn (lbSuggested b)
           then doing [SuggestExitNode] b else b in
  if negb (bool_decide (is_Some (nbNetMap cn))) then (true, b)
  else
    let b := if selfHasCap NodeAttrCacheNetworkMaps cn
             then doing [CacheWrite (omap (λ id, NodeByID id cn) (elements (updateIDs muts)))
                           (omap (λ id, (λ n, nfStableID (ndFixed n)) <$> NodeByID id cn) (elements (removeIDs muts)))] b
             else b in
    let b := if ur || mutationsAreWorthyOfTellingIPNBus muts
             then doing [SendPeers (muts ≫= λ m, if m is NodeMutationUpsert n then [n] else [])
                           (muts ≫= λ m, if m is NodeMutationRemove id then [id] else [])
                           (ipnBusPeerChangedPatchFromNodeMutations muts)] b
             else b in
    (true, b).

Definition lbUpdatePacketFilter (rules : list FilterRule) (parsed : list Match) (b : LocalBackend) : bool * LocalBackend :=
  match nbNetMap (lbNode b) with
  | None => (false, b)
  | Some _ => (true, doing [UpdateFilter; BumpDriveGen] (withNode (setPacketFilter rules parsed (lbNode b)) b))
  end.
Definition lbUpdateUserProfiles (profiles : gmap Z UserProfile) (b : LocalBackend) : bool * LocalBackend :=
  if decide (profiles = ∅) then (true, b)
  else match nbNetMap (lbNode b) with
  | None => (false, b)
  | Some _ => (true, doing [SendProfiles profiles] (withNode (mergeUserProfiles profiles (lbNode b)) b))
  end.

(** ** The control client in between *)

(** [mapRoutineState] of [control/controlclient/auto.go], whose observer is the backend. *)
Record Auto := mkAuto { auLoggedIn : bool; auInMapPoll : bool; auBackend : LocalBackend }.
Definition withBackend (b : LocalBackend) (c : Auto) : Auto := mkAuto (auLoggedIn c) (auInMapPoll c) b.
Definition forward (f : LocalBackend → bool * LocalBackend) (c : Auto) : bool * Auto :=
  if auLoggedIn c && auInMapPoll c then let '(ok, b) := f (auBackend c) in (ok, withBackend b c) else (false, c).
Definition mrsUpdateFullNetmap (nm : NetworkMap) (c : Auto) : Auto :=
  let c := mkAuto (auLoggedIn c) true (auBackend c) in
  if auLoggedIn c then withBackend (installNetMap nm (auBackend c)) c else c.
Definition mapRoutineState : Updater Auto :=
  mkUpdater Auto mrsUpdateFullNetmap (Some (λ muts, forward (lbUpdateNetmapDelta muts)))
    (Some (λ rules parsed, forward (lbUpdatePacketFilter rules parsed)))
    (Some (λ profiles, forward (lbUpdateUserProfiles profiles)))
    (Some (λ key disco c, (forward (λ b, (true, doing [EnginePatchDisco key disco] b)) c).2)).
End local_backend.
