(* ===== verification/MapThms.v ===== *)
(** * The network map, kept up to date by mutations

    A reference semantics of lists of mutations, in which each takes effect at once;
    the batched loop of the current node implements it, the sort of the mutations does
    not change it, and the mutations of a response lead it to the peers of the session. *)

From stdpp Require Import base gmap sets list strings.
From S2P Require Import Prelude GoStd Bytes NetIP TSAddr Filter FilterRules TunWrap TailCfg MapSession NetMap.

(** ** Mutations that take effect at once *)
Section run.
Context `{TailTypes}.
Implicit Types (ps mut : gmap Z Node) (muts l : list NodeMutation) (m : NodeMutation).

(** The effect on the one node that the mutation names; [None] is a field of a node
    that is not there. *)
Definition stepVal m (x : option Node) : option (option Node) :=
  match m with
  | NodeMutationUpsert n => Some (Some n)
  | NodeMutationRemove _ => Some None
  | _ => Some <$> (Apply m <$> x)
  end.
Definition stepMut m ps : option (gmap Z Node) :=
  let id := NodeIDBeingMutated m in
  y ← stepVal m (ps !! id); Some (partial_alter (λ _, y) id ps).
Fixpoint runMuts muts ps : option (gmap Z Node) :=
  match muts with [] => Some ps | m :: muts => stepMut m ps ≫= runMuts muts end.

Lemma runMuts_app a b ps : runMuts (a ++ b) ps = runMuts a ps ≫= runMuts b.
Proof. revert ps. induction a as [|m a IH]; intros ps; [done|]. cbn. destruct (stepMut m ps); [apply IH|done]. Qed.

Lemma stepMut_field m ps : isField m = true →
  stepMut m ps = n ← ps !! NodeIDBeingMutated m; Some (<[NodeIDBeingMutated m := Apply m n]> ps).
Proof. unfold stepMut. destruct m; try done; intros _; cbn; by destruct (ps !! id). Qed.

Lemma stepMut_commute m m' ps : NodeIDBeingMutated m ≠ NodeIDBeingMutated m' →
  stepMut m ps ≫= stepMut m' = stepMut m' ps ≫= stepMut m.
Proof.
  intros Hne. unfold stepMut. set (i := NodeIDBeingMutated m) in *. set (j := NodeIDBeingMutated m') in *.
  destruct (stepVal m (ps !! i)) as [y|] eqn:E1; destruct (stepVal m' (ps !! j)) as [z|] eqn:E2; cbn;
    rewrite ?lookup_partial_alter_ne, ?E1, ?E2 by done; try done.
  cbn. f_equal. apply map_eq. intros k.
  destruct (decide (k = i)) as [->|]; [|destruct (decide (k = j)) as [->|]];
    repeat (rewrite lookup_partial_alter_eq || rewrite lookup_partial_alter_ne by done); done.
Qed.

Lemma runMuts_insertBy m l ps : runMuts (insertBy NodeIDBeingMutated m l) ps = runMuts (m :: l) ps.
Proof.
  revert ps. induction l as [|y l IH]; intros ps; [done|]. cbn [insertBy]. case_decide as Hle; [done|].
  cbn [runMuts]. transitivity (stepMut y ps ≫= λ ps, stepMut m ps ≫= runMuts l).
  { destruct (stepMut y ps); cbn; [apply IH|done]. }
  assert (stepMut y ps ≫= stepMut m = stepMut m ps ≫= stepMut y) as E by (apply stepMut_commute; lia).
  destruct (stepMut y ps), (stepMut m ps); cbn in *; try done.
  - by rewrite E.
  - by rewrite E.
  - by rewrite <-E.
Qed.

(** The sort does not matter. *)
Lemma runMuts_sortBy l ps : runMuts (sortBy NodeIDBeingMutated l) ps = runMuts l ps.
Proof.
  revert ps. induction l as [|m l IH]; intros ps; [done|]. unfold sortBy in *. cbn [foldr].
  rewrite runMuts_insertBy. cbn. destruct (stepMut m ps); [apply IH|done].
Qed.

Lemma filter_insertBy {A} (key : A → Z) (i : Z) x (l : list A) :
  filter (λ y, key y = i) (insertBy key x l) = filter (λ y, key y = i) (x :: l).
Proof.
  induction l as [|y l IH]; [done|]. cbn [insertBy]. case_decide as Hle; [done|].
  rewrite (filter_cons _ y (insertBy _ _ _)), IH, !filter_cons. repeat case_decide; try done. lia.
Qed.
(** The sort is stable. *)
Lemma filter_sortBy {A} (key : A → Z) (i : Z) (l : list A) : filter (λ y, key y = i) (sortBy key l) = filter (λ y, key y = i) l.
Proof. induction l as [|x l IH]; [done|]. cbn [sortBy foldr]. rewrite filter_insertBy, !filter_cons. by rewrite <-IH. Qed.

(** ** The batched loop *)

(** Upserts and removals come first. *)
Fixpoint fieldsLast l : bool :=
  match l with [] => true | m :: l => if isField m then forallb isField l else fieldsLast l end.
Definition mutsOf (id : Z) l : list NodeMutation := filter (λ m, NodeIDBeingMutated m = id) l.
Definition batchable mut l : Prop := ∀ id,
  match mut !! id with Some _ => forallb isField (mutsOf id l) = true | None => fieldsLast (mutsOf id l) = true end.

Lemma mutsOf_cons id m l : mutsOf id (m :: l) = if decide (NodeIDBeingMutated m = id) then m :: mutsOf id l else mutsOf id l.
Proof. unfold mutsOf. by rewrite filter_cons. Qed.

Lemma forallb_fieldsLast l : forallb isField l = true → fieldsLast l = true.
Proof. destruct l as [|m l]; [done|]. cbn. rewrite andb_true_iff. by intros [-> ?]. Qed.

Lemma batchable_cons m l mut : batchable mut (m :: l) →
  (isField m = true → ∀ n, batchable (<[NodeIDBeingMutated m := n]> mut) l) ∧
  (isField m = false → mut !! NodeIDBeingMutated m = None ∧ batchable mut l).
Proof.
  intros Hb. split.
  - intros Hf n id. specialize (Hb id). rewrite mutsOf_cons in Hb.
    destruct (decide (NodeIDBeingMutated m = id)) as [<-|Hne].
    + rewrite lookup_insert_eq. destruct (mut !! _); cbn in Hb; rewrite Hf in Hb; done.
    + by rewrite lookup_insert_ne.
  - intros Hf. split.
    + specialize (Hb (NodeIDBeingMutated m)). rewrite mutsOf_cons, decide_True in Hb by done.
      destruct (mut !! _); [|done]. cbn in Hb. by rewrite Hf in Hb.
    + intros id. specialize (Hb id). rewrite mutsOf_cons in Hb. case_decide; [|done].
      destruct (mut !! id); cbn in Hb; rewrite Hf in Hb; done.
Qed.

Lemma nbRemove_peers id nb : nbPeers (nbRemove id nb) = delete id (nbPeers nb).
Proof. unfold nbRemove. destruct (nbPeers nb !! id) eqn:E; [done|]. by rewrite delete_id. Qed.

(** The loop that batches the fields implements the steps. *)
Lemma deltaLoop_run l mut nb : batchable mut l →
  let '(ok, mut', nb') := deltaLoop l mut nb in
  runMuts l (mut ∪ nbPeers nb) = if ok : bool then Some (mut' ∪ nbPeers nb') else None.
Proof.
  revert mut nb. induction l as [|m l IH]; intros mut nb Hb; [done|].
  destruct (batchable_cons _ _ _ Hb) as [HF HN]. destruct (isField m) eqn:Hf.
  - specialize (HF eq_refl). cbn [runMuts]. rewrite stepMut_field by done.
    assert (deltaLoop (m :: l) mut nb = match (mut ∪ nbPeers nb) !! NodeIDBeingMutated m with
      | Some n => deltaLoop l (<[NodeIDBeingMutated m := Apply m n]> mut) nb
      | None => (false, mut, nb) end) as ->.
    { rewrite lookup_union. destruct m; try done; cbn; destruct (mut !! id), (nbPeers nb !! id); done. }
    destruct ((mut ∪ nbPeers nb) !! NodeIDBeingMutated m) as [n|]; [|done]. cbn.
    rewrite insert_union_l. apply IH, HF.
  - destruct (HN eq_refl) as [Hmut Hb']. destruct m; try done; cbn [deltaLoop NodeIDBeingMutated] in *.
    + specialize (IH mut (nbUpsert n nb) Hb'). destruct (deltaLoop _ _ _) as [[ok mut'] nb']. rewrite <-IH. cbn [runMuts stepMut stepVal NodeIDBeingMutated mbind option_bind].
      change (partial_alter (λ _, Some n) (ndID n) (mut ∪ nbPeers nb)) with (<[ndID n := n]> (mut ∪ nbPeers nb)).
      by rewrite insert_union_r.
    + specialize (IH mut (nbRemove id nb) Hb'). destruct (deltaLoop _ _ _) as [[ok mut'] nb']. rewrite <-IH.
      rewrite nbRemove_peers. cbn. f_equal. change (partial_alter (λ _, None) id (mut ∪ nbPeers nb)) with (delete id (mut ∪ nbPeers nb)).
      rewrite delete_union. by rewrite (delete_id mut).
Qed.

(** ** The mutations of a response *)
Lemma run_removes ids ps : runMuts (NodeMutationRemove <$> ids) ps = Some (removePeers ids ps).
Proof. revert ps. induction ids as [|id ids IH]; intros ps; [done|]. apply IH. Qed.
Lemma run_upserts ns ps : runMuts (NodeMutationUpsert <$> ns) ps = Some (upsertPeers ns ps).
Proof. revert ps. induction ns as [|n ns IH]; intros ps; [done|]. apply IH. Qed.

(** The fields of one node, one after the other. *)
Lemma run_fields l id n ps : Forall (λ m, isField m = true ∧ NodeIDBeingMutated m = id) l → ps !! id = Some n →
  runMuts l ps = Some (<[id := foldl (λ n m, Apply m n) n l]> ps).
Proof.
  intros HF. revert n ps. induction HF as [|m l [Hf Hid] _ IH]; intros n ps Hn; [by cbn; rewrite insert_id|].
  cbn [runMuts]. rewrite stepMut_field by done. rewrite Hid, Hn. cbn.
  rewrite (IH (Apply m n)) by apply lookup_insert_eq. by rewrite insert_insert_eq.
Qed.

(** The mutations of a change have its effect. *)
Lemma patch_fields p l : NodeMutationsFromPatch p = Some l →
  Forall (λ m, isField m = true ∧ NodeIDBeingMutated m = pcNodeID p) l ∧
  ∀ n, foldl (λ n m, Apply m n) n l = applyChange p n.
Proof.
  unfold NodeMutationsFromPatch. case_decide; [done|]. destruct p as [id region cap capmap eps key sig dk onl seen exp]. cbn in *.
  destruct (decide (cap ≠ 0)) as [|Hcap]; [by rewrite bool_decide_true|].
  assert (cap = 0) as -> by (by destruct (decide (cap = 0))). rewrite bool_decide_false by done.
  destruct capmap, key, sig, dk, exp; try (intros; discriminate). cbn. intros [= <-]. split.
  - destruct (decide (region = 0)), eps, onl, seen; repeat constructor.
  - intros []. unfold applyChange; cbn. destruct (decide (region = 0)) as [->|], eps, onl, seen; cbn; rewrite ?decide_False by done; done.
Qed.

Lemma patchMutations_fields pcs l : patchMutations pcs = Some l → forallb isField l = true.
Proof.
  revert l. induction pcs as [|p pcs IH]; intros l; cbn; [by intros [= <-]|].
  destruct (NodeMutationsFromPatch p) as [d|] eqn:E; [|done]. destruct (patchMutations pcs) as [ds|]; [|done]. intros [= <-].
  rewrite forallb_app, (IH ds eq_refl), andb_true_r. destruct (patch_fields _ _ E) as [HF _].
  apply forallb_forall. intros m Hm%list_elem_of_In. rewrite Forall_forall in HF. by destruct (HF m Hm).
Qed.

Lemma alter_known {A} (f : A → A) (i : Z) (m : gmap Z A) x : m !! i = Some x → alter f i m = <[i := f x]> m.
Proof.
  intros E. apply map_eq. intros j. destruct (decide (i = j)) as [->|];
    [by rewrite lookup_alter_eq, lookup_insert_eq, E|by rewrite lookup_alter_ne, lookup_insert_ne].
Qed.

Lemma run_patches pcs l ps : patchMutations pcs = Some l → Forall (λ pc, is_Some (ps !! pcNodeID pc)) pcs →
  runMuts l ps = Some (applyPatches pcs ps).
Proof.
  revert l ps. induction pcs as [|p pcs IH]; intros l ps; cbn; [by intros [= <-]|].
  destruct (NodeMutationsFromPatch p) as [d|] eqn:E; [|done]. destruct (patchMutations pcs) as [ds|]; [|done]. intros [= <-].
  rewrite Forall_cons. intros [[n Hn] Hk]. rewrite runMuts_app. destruct (patch_fields _ _ E) as [HF HA].
  rewrite (run_fields _ _ n) by done. cbn. rewrite HA, <-(alter_known (applyChange p) _ ps n Hn). apply IH; [done|].
  eapply Forall_impl; [done|]. intros pc [x Hx]. cbn.
  destruct (decide (pcNodeID p = pcNodeID pc)) as [<-|]; [rewrite lookup_alter_eq, Hn; by eexists|rewrite lookup_alter_ne by done; by eexists].
Qed.

(** A field for each entry of a Go map. *)
Definition applyAll {A} (f : A → Node → Node) (m : gmap Z A) ps : gmap Z Node :=
  map_imap (λ id n, Some (match (m !! id : option A) with Some a => f a n | None => n end)) ps.
Lemma applyAll_lookup {A} (f : A → Node → Node) (m : gmap Z A) ps id :
  applyAll f m ps !! id = (λ n, match m !! id with Some a => f a n | None => n end) <$> ps !! id.
Proof. unfold applyAll. rewrite map_lookup_imap. by destruct (ps !! id). Qed.

Lemma run_entries {A} (mk : Z → A → NodeMutation) (f : A → Node → Node) (kvs : list (Z * A)) ps :
  (∀ id a, isField (mk id a) = true ∧ NodeIDBeingMutated (mk id a) = id ∧ ∀ n, Apply (mk id a) n = f a n) →
  NoDup kvs.*1 → Forall (λ kv, is_Some (ps !! kv.1)) kvs →
  runMuts ((λ '(id, a), mk id a) <$> kvs) ps = Some (applyAll f (list_to_map kvs) ps).
Proof.
  intros Hmk. revert ps. induction kvs as [|[id a] kvs IH]; intros ps; cbn [fmap list_fmap fst].
  - intros _ _. cbn. f_equal. apply map_eq. intros i. rewrite applyAll_lookup, lookup_empty. by destruct (ps !! i).
  - rewrite NoDup_cons, Forall_cons. intros [Hni Hnd] [[n Hn] Hk]. cbn in Hn. destruct (Hmk id a) as (Hf & Hid & HA).
    cbn [runMuts]. rewrite stepMut_field, Hid, Hn by done. cbn. rewrite HA, IH; [|done|].
    + f_equal. apply map_eq. intros i. rewrite !applyAll_lookup. destruct (decide (id = i)) as [<-|].
      * rewrite !lookup_insert_eq, Hn. cbn. by rewrite (not_elem_of_list_to_map_1 _ id Hni).
      * by rewrite !lookup_insert_ne.
    + eapply Forall_impl; [done|]. intros [j b] [x Hx]. cbn in *. destruct (decide (id = j)) as [<-|];
        [rewrite lookup_insert_eq; by eexists|rewrite lookup_insert_ne by done; by eexists].
Qed.

Lemma run_online (m : gmap Z bool) ps : (∀ id o, m !! id = Some o → is_Some (ps !! id)) →
  runMuts (onlineMutations m) ps = Some (applyOnline m ps).
Proof.
  intros Hk. unfold onlineMutations. rewrite (run_entries _ (λ o, withOnline (Some o))); [|done|apply NoDup_fst_map_to_list|].
  - by rewrite list_to_map_to_list.
  - apply Forall_forall. intros [id o] Hin%elem_of_map_to_list. by eapply Hk.
Qed.

Lemma run_seen now (m : gmap Z bool) ps : (∀ id s, m !! id = Some s → s = true ∧ is_Some (ps !! id)) →
  runMuts (seenMutations now m) ps = Some (applySeen now m ps).
Proof.
  intros Hk. assert (seenMutations now m = (λ '(id, _), NodeMutationLastSeen id now) <$> map_to_list m) as ->.
  { unfold seenMutations. assert (Forall (λ kv : Z * bool, kv.2 = true) (map_to_list m)) as HF.
    { apply Forall_forall. intros [id s] Hin%elem_of_map_to_list. by eapply Hk. }
    induction HF as [|[id s] l Hs _ IH]; [done|]. cbn in Hs. subst s. cbn. by f_equal. }
  rewrite (run_entries _ (λ _ : bool, withLastSeen (Some now))); [|done|apply NoDup_fst_map_to_list|].
  - rewrite list_to_map_to_list. f_equal. apply map_eq. intros id. unfold applySeen. rewrite applyAll_lookup, map_lookup_imap.
    destruct (ps !! id) as [n|]; [|done]. cbn. destruct (m !! id) as [s|] eqn:E; [|done]. by destruct (Hk _ _ E) as [-> _].
  - apply Forall_forall. intros [id s] Hin%elem_of_map_to_list. by eapply Hk.
Qed.
End run.

(** ** The session and the current node agree *)
Section agree.
Context `{TailTypes} `{IPRanges} (bartContains : list Prefix → Addr → bool).
Implicit Types (ps : gmap Z Node) (ms : mapSession) (nb : nodeBackend) (r resp : MapResponse).

(** The response names, by field, only peers that are there, and says only once whether
    a peer is online. *)
Definition deltaKnown ps r : Prop :=
  let ps1 := upsertPeers (rPeersChanged r) (removePeers (rPeersRemoved r) ps) in
  (∀ pc, pc ∈ rPeersChangedPatch r →
    is_Some (ps1 !! pcNodeID pc) ∧ (is_Some (pcOnline pc) → rOnlineChange r !! pcNodeID pc = None)) ∧
  (∀ id o, rOnlineChange r !! id = Some o → is_Some (ps1 !! id)) ∧
  (∀ id, rPeerSeenChange r !! id = Some true → is_Some (ps1 !! id)).
(** It gives the time at which a peer was last seen only once, and says of no peer that it
    is unseen. *)
Definition seenOnce r : Prop :=
  (∀ pc, pc ∈ rPeersChangedPatch r → is_Some (pcLastSeen pc) → rPeerSeenChange r !! pcNodeID pc = None) ∧
  (∀ id s, rPeerSeenChange r !! id = Some s → s = true).

Lemma applyPatches_known pcs ps id : is_Some (applyPatches pcs ps !! id) ↔ is_Some (ps !! id).
Proof.
  unfold applyPatches. revert ps. induction pcs as [|p pcs IH]; intros ps; [done|]. cbn [foldl]. rewrite IH.
  apply lookup_alter_is_Some.
Qed.

Lemma applyAll_known {A} (f : A → Node → Node) (m : gmap Z A) ps id : is_Some (applyAll f m ps !! id) ↔ is_Some (ps !! id).
Proof. rewrite applyAll_lookup. apply fmap_is_Some. Qed.

(** Patches commute with the changes of a field that they do not carry. *)
Lemma applyPatches_commute {A} (f : A → Node → Node) (m : gmap Z A) pcs ps :
  (∀ pc a n, pc ∈ pcs → m !! pcNodeID pc = Some a → applyChange pc (f a n) = f a (applyChange pc n)) →
  applyPatches pcs (applyAll f m ps) = applyAll f m (applyPatches pcs ps).
Proof.
  unfold applyPatches. revert ps. induction pcs as [|p pcs IH]; intros ps HC; [done|]. cbn [foldl].
  rewrite <-IH by (intros pc a n Hin; apply HC; by right). f_equal. apply map_eq. intros id. rewrite applyAll_lookup.
  destruct (decide (pcNodeID p = id)) as [<-|].
  - rewrite !lookup_alter_eq, applyAll_lookup. destruct (ps !! _) as [n|]; [|done]. cbn. f_equal.
    destruct (m !! pcNodeID p) as [a|] eqn:E; [|done]. apply HC; [by left|done].
  - by rewrite !lookup_alter_ne, applyAll_lookup.
Qed.

Lemma applyOnline_all m ps : applyOnline m ps = applyAll (λ o, withOnline (Some o)) m ps.
Proof. done. Qed.
Lemma applySeen_all now m ps : applySeen now m ps = applyAll (λ s : bool, withLastSeen (if s then Some now else None)) m ps.
Proof. done. Qed.
Lemma online_seen_commute now o s ps : applyOnline o (applySeen now s ps) = applySeen now s (applyOnline o ps).
Proof.
  apply map_eq. intros id. rewrite applyOnline_all, applySeen_all, !applyAll_lookup, applyOnline_all, applySeen_all, !applyAll_lookup.
  destruct (ps !! id); [|done]. cbn. by destruct (s !! id), (o !! id).
Qed.

Lemma patch_online_commute pc v n : ¬ is_Some (pcOnline pc) → applyChange pc (withOnline v n) = withOnline v (applyChange pc n).
Proof. intros Hn. unfold applyChange, withOnline. cbn. by destruct (pcOnline pc); [destruct Hn; eexists|]. Qed.
Lemma patch_seen_commute pc v n : ¬ is_Some (pcLastSeen pc) → applyChange pc (withLastSeen v n) = withLastSeen v (applyChange pc n).
Proof. intros Hn. unfold applyChange, withLastSeen. cbn. by destruct (pcLastSeen pc); [destruct Hn; eexists|]. Qed.

(** The two orders of the changes of fields come to the same. *)
Lemma field_order now r ps : deltaKnown ps r → seenOnce r →
  let ps1 := upsertPeers (rPeersChanged r) (removePeers (rPeersRemoved r) ps) in
  applyPatches (rPeersChangedPatch r) (applyOnline (rOnlineChange r) (applySeen now (rPeerSeenChange r) ps1)) =
  applySeen now (rPeerSeenChange r) (applyOnline (rOnlineChange r) (applyPatches (rPeersChangedPatch r) ps1)).
Proof.
  intros (HP & _) [HS _] ps1. rewrite applyOnline_all, applyPatches_commute; [|].
  - rewrite <-!applyOnline_all, applySeen_all, applyPatches_commute; [by rewrite <-!applySeen_all, online_seen_commute|].
    intros pc s n Hin Hs. apply patch_seen_commute. intros Hy. by rewrite (HS pc Hin Hy) in Hs.
  - intros pc o n Hin Ho. apply patch_online_commute. intros Hy. destruct (HP pc Hin) as [_ HO]. by rewrite (HO Hy) in Ho.
Qed.

Lemma nonPatch_none r : mapResponseContainsNonPatchFields r = false →
  rNode r = None ∧ rDERPMap r = None ∧ rDNSConfig r = None ∧ rDomain r = "" ∧ rCollectServices r = "" ∧
  rSSHPolicy r = None ∧ rDomainDataPlaneAuditLogID r = "" ∧ rPeers r = None.
Proof.
  unfold mapResponseContainsNonPatchFields. rewrite !orb_false_iff, !bool_decide_eq_false, <-!eq_None_not_Some. intros HH.
  repeat match goal with h : _ ∧ _ |- _ => destruct h end.
  repeat match goal with h : ¬ (_ ≠ _) |- _ => apply dec_stable in h end. by repeat split.
Qed.

(** The mutations of a response lead to the peers of the session. *)
Lemma response_run now r ps muts : MutationsFromMapResponse r now = Some muts → deltaKnown ps r → seenOnce r →
  runMuts muts ps = Some (updatePeersStateFromResponse now r ps).
Proof.
  unfold MutationsFromMapResponse. destruct (mapResponseContainsNonPatchFields r) eqn:E; [done|].
  destruct (nonPatch_none r E) as (_ & _ & _ & _ & _ & _ & _ & Hpeers).
  destruct (patchMutations _) as [pl|] eqn:EP; [|done]. intros [= <-] Hs Hse. pose proof Hs as (HP & HO & HS).
  rewrite runMuts_sortBy, !runMuts_app, run_removes. cbn. rewrite runMuts_app, run_upserts. cbn. rewrite runMuts_app.
  rewrite (run_patches _ _ _ EP) by (apply Forall_forall; intros pc Hin; by destruct (HP pc Hin)). cbn. rewrite runMuts_app.
  rewrite run_online by (intros id o Ho; apply applyPatches_known; by eapply HO). cbn.
  rewrite run_seen.
  - unfold updatePeersStateFromResponse. rewrite Hpeers. cbn [default]. by rewrite field_order.
  - intros id s Hs'. pose proof (proj2 Hse id s Hs') as ->. split; [done|].
    rewrite applyOnline_all. apply applyAll_known, applyPatches_known. by apply HS.
Qed.

Lemma fieldsLast_app a b : forallb (λ m, negb (isField m)) a = true → forallb isField b = true → fieldsLast (a ++ b) = true.
Proof.
  intros Ha Hb. induction a as [|m a IH]; [by apply forallb_fieldsLast|]. cbn in *. apply andb_true_iff in Ha as [Hm Ha].
  destruct (isField m); [done|by apply IH].
Qed.
Lemma forallb_filter {A} (f : A → bool) (P : A → Prop) `{∀ x, Decision (P x)} l : forallb f l = true → forallb f (filter P l) = true.
Proof.
  rewrite !forallb_forall. intros Hl x Hx%list_elem_of_In. apply list_elem_of_filter in Hx as [_ Hx].
  by apply Hl, list_elem_of_In.
Qed.
Lemma forallb_fmap {A B} (f : B → bool) (g : A → B) l : (∀ x, f (g x) = true) → forallb f (g <$> l) = true.
Proof. intros Hg. induction l as [|x l IH]; [done|]. cbn. by rewrite Hg, IH. Qed.

Lemma response_batchable now r muts : MutationsFromMapResponse r now = Some muts → batchable ∅ muts.
Proof.
  unfold MutationsFromMapResponse. destruct (mapResponseContainsNonPatchFields r); [done|].
  destruct (patchMutations _) as [pl|] eqn:EP; [|done]. intros [= <-] id. rewrite lookup_empty.
  unfold mutsOf. rewrite filter_sortBy, app_assoc, filter_app. apply fieldsLast_app; apply forallb_filter; rewrite ?forallb_app.
  - by rewrite !forallb_fmap.
  - rewrite (patchMutations_fields _ _ EP). unfold onlineMutations, seenMutations. rewrite forallb_fmap by by intros [].
    cbn. induction (map_to_list (rPeerSeenChange r)) as [|[i v] l IH]; [done|]. cbn. rewrite forallb_app. by destruct v.
Qed.

(** What a delta leaves alone. *)
Definition frozen nb : option NetworkMap * gmap Z UserProfile * list FilterRule * list Match :=
  (nbNetMap nb, nbUserProfiles nb, nbPacketFilterRules nb, nbPacketFilter nb).
Lemma deltaLoop_frozen l mut nb : frozen (deltaLoop l mut nb).2 = frozen nb.
Proof.
  revert mut nb. induction l as [|m l IH]; intros mut nb; [done|].
  assert (∀ id, frozen (nbRemove id nb) = frozen nb) as HR by (intros id; unfold nbRemove; by destruct (nbPeers nb !! id)).
  destruct m; cbn [deltaLoop NodeIDBeingMutated]; rewrite ?IH, ?HR; try done;
    destruct (mut !! id); try (by rewrite IH); destruct (nbPeers nb !! id); by rewrite ?IH.
Qed.

(** *** Up to the time at which a peer was last seen *)
Definition unseen (n : Node) : Node := withLastSeen None n.
Definition sameButSeen (ps ps' : gmap Z Node) : Prop := ∀ id, unseen <$> ps !! id = unseen <$> ps' !! id.
#[export] Instance sameButSeen_equiv : Equivalence sameButSeen.
Proof. split; [done|by intros ps ps' E id|by intros ps1 ps2 ps3 E1 E2 id; rewrite E1]. Qed.
#[export] Instance sameButSeen_eq : subrelation eq sameButSeen.
Proof. by intros ps ps' <-. Qed.

Lemma sameButSeen_known ps ps' id : sameButSeen ps ps' → is_Some (ps !! id) ↔ is_Some (ps' !! id).
Proof. intros E. by rewrite <-(fmap_is_Some unseen (ps !! id)), <-(fmap_is_Some unseen (ps' !! id)), E. Qed.
Lemma sameButSeen_alter (f : Node → Node) i ps ps' : (∀ n n', unseen n = unseen n' → unseen (f n) = unseen (f n')) →
  sameButSeen ps ps' → sameButSeen (alter f i ps) (alter f i ps').
Proof.
  intros Hf E id. specialize (E id). destruct (decide (i = id)) as [->|]; [|by rewrite !lookup_alter_ne].
  rewrite !lookup_alter_eq. destruct (ps !! id), (ps' !! id); try done. cbn in *. f_equal. apply Hf, (inj Some), E.
Qed.
#[export] Instance upsertPeers_proper ns : Proper (sameButSeen ==> sameButSeen) (upsertPeers ns).
Proof.
  unfold upsertPeers. induction ns as [|n ns IH]; intros ps ps' E; [done|]. cbn [foldl]. apply IH. intros id.
  destruct (decide (ndID n = id)) as [->|]; [by rewrite !lookup_insert_eq|by rewrite !lookup_insert_ne].
Qed.
#[export] Instance removePeers_proper ids : Proper (sameButSeen ==> sameButSeen) (removePeers ids).
Proof.
  unfold removePeers. induction ids as [|i ids IH]; intros ps ps' E; [done|]. cbn [foldl]. apply IH. intros id.
  destruct (decide (i = id)) as [->|]; [by rewrite !lookup_delete_eq|by rewrite !lookup_delete_ne].
Qed.
Lemma applyChange_unseen pc n n' : unseen n = unseen n' → unseen (applyChange pc n) = unseen (applyChange pc n').
Proof. destruct n, n'. unfold unseen, withLastSeen, applyChange. cbn. by intros [= -> -> -> -> -> -> -> -> -> -> ->]. Qed.
#[export] Instance applyPatches_proper pcs : Proper (sameButSeen ==> sameButSeen) (applyPatches pcs).
Proof.
  unfold applyPatches. induction pcs as [|pc pcs IH]; intros ps ps' E; [done|]. cbn [foldl].
  apply IH, sameButSeen_alter; [apply applyChange_unseen|done].
Qed.
#[export] Instance applyOnline_proper m : Proper (sameButSeen ==> sameButSeen) (applyOnline m).
Proof.
  intros ps ps' E id. rewrite !applyOnline_all, !applyAll_lookup. specialize (E id).
  destruct (ps !! id) as [n|], (ps' !! id) as [n'|]; try done. cbn in *. destruct (m !! id); [|done].
  destruct n, n'. unfold unseen, withLastSeen, withOnline in *. cbn in *. by injection E as -> -> -> -> -> -> -> -> -> -> ->.
Qed.
Lemma applySeen_unseen now m ps : sameButSeen (applySeen now m ps) ps.
Proof. intros id. rewrite applySeen_all, applyAll_lookup. destruct (ps !! id), (m !! id); done. Qed.

Lemma updatePeers_unseen now now' r ps ps' : sameButSeen ps ps' →
  sameButSeen (updatePeersStateFromResponse now r ps) (updatePeersStateFromResponse now' r ps').
Proof.
  intros E. unfold updatePeersStateFromResponse. destruct (default [] (rPeers r)) as [|n ns].
  - apply applyPatches_proper, applyOnline_proper. rewrite !applySeen_unseen. by apply upsertPeers_proper, removePeers_proper.
  - intros id. pose proof (upsertPeers_proper (n :: ns) _ _ E id) as EU. rewrite !map_lookup_filter.
    destruct (upsertPeers _ ps !! id), (upsertPeers _ ps' !! id); try done. cbn. by destruct (guard _).
Qed.
Lemma deltaKnown_same ps ps' r : sameButSeen ps ps' → deltaKnown ps r → deltaKnown ps' r.
Proof.
  intros E (HP & HO & HS). assert (∀ id, is_Some (upsertPeers (rPeersChanged r) (removePeers (rPeersRemoved r) ps) !! id) →
    is_Some (upsertPeers (rPeersChanged r) (removePeers (rPeersRemoved r) ps') !! id)) as HK.
  { intros id. apply sameButSeen_known, upsertPeers_proper, removePeers_proper. done. }
  split_and!; [intros pc [? ?]%HP; auto|eauto..].
Qed.

Lemma run_seen_unseen now (m : gmap Z bool) ps : (∀ id, m !! id = Some true → is_Some (ps !! id)) →
  ∃ ps', runMuts (seenMutations now m) ps = Some ps' ∧ sameButSeen ps' ps.
Proof.
  intros Hk. unfold seenMutations. assert (∀ id, (id, true) ∈ map_to_list m → is_Some (ps !! id)) as HF
    by (intros id ?%elem_of_map_to_list; auto). clear Hk.
  revert ps HF. induction (map_to_list m) as [|[i v] l IH]; intros ps HF; [by exists ps|].
  rewrite bind_cons, runMuts_app. assert (∃ ps1, runMuts (if v then [NodeMutationLastSeen i now] else []) ps = Some ps1 ∧ sameButSeen ps1 ps)
    as (ps1 & -> & E1).
  { destruct v; [|by exists ps]. destruct (HF i) as [n Hn]; [left|]. cbn [runMuts]. rewrite stepMut_field by done. cbn [NodeIDBeingMutated Apply].
    rewrite Hn. eexists. split; [done|]. intros id. destruct (decide (i = id)) as [->|];
      [by rewrite lookup_insert_eq, Hn|by rewrite lookup_insert_ne]. }
  cbn [mbind option_bind]. destruct (IH ps1) as (ps' & E & E').
  - intros id Hid. eapply sameButSeen_known; [exact E1|]. apply HF. by right.
  - exists ps'. split; [exact E|]. by rewrite E'.
Qed.

(** The mutations of a response lead to the peers of the session, but for the times at
    which they were last seen. *)
Lemma response_run_unseen now now' r ps muts : MutationsFromMapResponse r now' = Some muts → deltaKnown ps r →
  ∃ ps', runMuts muts ps = Some ps' ∧ sameButSeen ps' (updatePeersStateFromResponse now r ps).
Proof.
  unfold MutationsFromMapResponse. destruct (mapResponseContainsNonPatchFields r) eqn:E; [done|].
  destruct (nonPatch_none r E) as (_ & _ & _ & _ & _ & _ & _ & Hpeers).
  destruct (patchMutations _) as [pl|] eqn:EP; [|done]. intros [= <-] Hs. pose proof Hs as (HP & HO & HS).
  rewrite runMuts_sortBy, !runMuts_app, run_removes. cbn. rewrite runMuts_app, run_upserts. cbn. rewrite runMuts_app.
  rewrite (run_patches _ _ _ EP) by (apply Forall_forall; intros pc Hin; by destruct (HP pc Hin)). cbn. rewrite runMuts_app.
  rewrite run_online by (intros id o Ho; apply applyPatches_known; by eapply HO). cbn.
  set (ps1 := upsertPeers _ _) in *. destruct (run_seen_unseen now' (rPeerSeenChange r)
    (applyOnline (rOnlineChange r) (applyPatches (rPeersChangedPatch r) ps1))) as (ps' & -> & E').
  { intros id Hid. rewrite applyOnline_all. apply applyAll_known, applyPatches_known. by apply HS. }
  exists ps'. split; [done|]. rewrite E'. unfold updatePeersStateFromResponse. rewrite Hpeers. cbn [default]. fold ps1.
  transitivity (applyPatches (rPeersChangedPatch r) (applyOnline (rOnlineChange r) ps1)).
  - rewrite !applyOnline_all, applyPatches_commute; [done|]. intros pc o n Hin Ho. apply patch_online_commute. intros Hy.
    destruct (HP pc Hin) as [_ HO']. by rewrite (HO' Hy) in Ho.
  - apply applyPatches_proper, applyOnline_proper. by rewrite applySeen_unseen.
Qed.

(** The current node after the mutations of a response. *)
Lemma delta_node now now' r nb muts : MutationsFromMapResponse r now' = Some muts → deltaKnown (nbPeers nb) r →
  is_Some (nbNetMap nb) →
  let '(ok, nb') := nbUpdateNetmapDelta muts nb in
  ok = true ∧ sameButSeen (nbPeers nb') (updatePeersStateFromResponse now r (nbPeers nb)) ∧
  (seenOnce r → nbPeers nb' = updatePeersStateFromResponse now' r (nbPeers nb)) ∧ frozen nb' = frozen nb.
Proof.
  intros HM Hs [nm Hnm]. unfold nbUpdateNetmapDelta. rewrite Hnm.
  pose proof (deltaLoop_run muts ∅ nb (response_batchable _ _ _ HM)) as HR.
  pose proof (deltaLoop_frozen muts ∅ nb) as HF. destruct (deltaLoop muts ∅ nb) as [[ok mut] nb'].
  rewrite map_empty_union in HR. destruct (response_run_unseen now now' r _ muts HM Hs) as (ps' & E & HU). rewrite E in HR.
  destruct ok; [|done]. injection HR as ->. split_and!; [done|done| |done].
  intros Hse. rewrite (response_run now' r _ muts HM Hs Hse) in E. by injection E.
Qed.

(** *** Agreement *)
Definition withProfiles (up : gmap Z UserProfile) (nm : NetworkMap) : NetworkMap :=
  mkNetMap (nmSelfNode nm) (nmAllCaps nm) (nmPeers nm) (nmDNS nm) (nmPacketFilter nm) (nmPacketFilterRules nm) (nmSSHPolicy nm)
    (nmCollectServices nm) (nmDERPMap nm) (nmDomain nm) (nmDomainAuditLogID nm) up.
(** The part of a map that no delta changes. *)
Definition nmFrame (nm : NetworkMap) :=
  (nmSelfNode nm, nmAllCaps nm, nmDNS nm, nmSSHPolicy nm, nmCollectServices nm, nmDERPMap nm, nmDomain nm, nmDomainAuditLogID nm).

(** The current node has the peers of the session - if [exact], also with the times at
    which they were last seen - and the rest of what is in its network map. *)
Definition agrees (exact : bool) nb ms : Prop :=
  sameButSeen (nbPeers nb) (msPeers ms) ∧ (exact = true → nbPeers nb = msPeers ms) ∧ nbPacketFilter nb = lastParsedPacketFilter ms ∧
  nbPacketFilterRules nb = lastPacketFilterRules ms ∧ nmFrame <$> nbNetMap nb = Some (nmFrame (netmap ms)).

(** The network map of the current node is then that of the session, with its own list of
    peers and but for the profiles of users that no peer mentions. *)
Lemma agrees_netmap exact nb ms : agrees exact nb ms →
  ∃ up, netMapWithPeers nb = Some (withProfiles up (withNMPeers (sortedPeers (nbPeers nb)) (netmap ms))).
Proof.
  intros (_ & _ & HF & HR & HN). unfold netMapWithPeers, withProfiles, withNMPeers, nmFrame in *. rewrite HF, HR.
  destruct (nbNetMap nb) as [nm|]; [|done]. cbn in HN |- *. injection HN as -> -> -> -> -> -> -> ->. by eexists.
Qed.

(** Node identifiers are the keys, and the nodes are in their modern form. *)
Definition nodeOk (id : Z) (n : Node) : Prop := ndID n = id ∧ nfLegacyDERPString (ndFixed n) = "".
Definition sessionOk ms : Prop := map_Forall nodeOk (msPeers ms).

Lemma map_Forall_foldl {A} (P : Z → Node → Prop) (f : gmap Z Node → A → gmap Z Node) (l : list A) ps :
  (∀ ps a, a ∈ l → map_Forall P ps → map_Forall P (f ps a)) → map_Forall P ps → map_Forall P (foldl f ps l).
Proof.
  revert ps. induction l as [|a l IH]; intros ps Hf Hp; [done|]. cbn. apply IH; [|by apply Hf; [left|]].
  intros ps' a' Hin. apply Hf. by right.
Qed.
Lemma applyAll_ok {A} (f : A → Node → Node) (m : gmap Z A) ps :
  (∀ a id n, nodeOk id n → nodeOk id (f a n)) → map_Forall nodeOk ps → map_Forall nodeOk (applyAll f m ps).
Proof.
  intros Hf Hp id n. rewrite applyAll_lookup. intros (x & Hx & ->)%fmap_Some. specialize (Hp _ _ Hx).
  destruct (m !! id); [by apply Hf|done].
Qed.
Lemma upsertPeers_ok ns ps : Forall (λ n, nfLegacyDERPString (ndFixed n) = "") ns → map_Forall nodeOk ps → map_Forall nodeOk (upsertPeers ns ps).
Proof.
  intros Hn. apply map_Forall_foldl. intros ps' a Hin Hp. rewrite Forall_forall in Hn. apply map_Forall_insert_2; [|done].
  by split; [|apply Hn].
Qed.

Lemma updatePeers_ok now r ps :
  Forall (λ n, nfLegacyDERPString (ndFixed n) = "") (default [] (rPeers r) ++ rPeersChanged r) →
  map_Forall nodeOk ps → map_Forall nodeOk (updatePeersStateFromResponse now r ps).
Proof.
  rewrite Forall_app. intros [Hf Hc] Hp. unfold updatePeersStateFromResponse. destruct (default [] (rPeers r)) as [|n ns].
  - apply map_Forall_foldl.
    + intros ps' pc _ Hp' id n. destruct (decide (pcNodeID pc = id)) as [<-|].
      * rewrite lookup_alter_eq. intros (x & Hx & ->)%fmap_Some. apply (Hp' _ _ Hx).
      * rewrite lookup_alter_ne by done. apply Hp'.
    + rewrite applyOnline_all, applySeen_all. do 2 (apply applyAll_ok; [done|]). apply upsertPeers_ok; [done|].
      apply map_Forall_foldl; [|done]. intros ps' id _. apply map_Forall_delete.
  - intros id m [Hm _]%map_lookup_filter_Some. by apply (upsertPeers_ok (n :: ns) ps).
Qed.
End agree.
