(* ===== verification/MapSessionThms.v ===== *)
(** * The session keeps the backend up to date

    Every response is handled without a panic, and whichever way the backend hears of
    it, a list of mutations or a whole map, it ends with the network map of the session.
    What patches can and cannot say of a peer. *)

From stdpp Require Import base gmap sets list strings.
From S2P Require Import Prelude GoStd Bytes NetIP TSAddr Filter FilterRules TunWrap TailCfg MapSession NetMap MapThms.

Section handle.
Context `{TailTypes} `{IPRanges} (bartContains : list Prefix → Addr → bool).
Implicit Types (ps : gmap Z Node) (ms : mapSession) (nb : nodeBackend) (r resp : MapResponse) (c : Auto) (b : LocalBackend).

(** ** Preparation of the response *)
Definition modern (n : Node) : Prop := nfLegacyDERPString (ndFixed n) = "".

Lemma upgradeNode_modern n : modern (upgradeNode n).
Proof. done. Qed.

Lemma patchifyPeer_total ms n : sessionOk ms → modern n → ∃ d, patchifyPeer ms n = Ok d.
Proof.
  intros Hms Hn. unfold patchifyPeer. destruct (msPeers ms !! ndID n) as [w|] eqn:E; [|by eexists].
  unfold peerChangeDiff. destruct (Hms _ _ E) as [_ Hw]. unfold modern in Hn.
  destruct (negb (sameBefore w n)); [by eexists|]. rewrite Hw, Hn. cbn. destruct (negb (sameAfter w n)); by eexists.
Qed.

Lemma patchifyLoop_total ms ns fl pl : sessionOk ms → Forall modern ns → Forall modern fl →
  ∃ fl' pl', patchifyLoop ms ns fl pl = Ok (fl', pl') ∧ Forall modern fl'.
Proof.
  intros Hms Hns. revert fl pl. induction Hns as [|n ns Hn _ IH]; intros fl pl Hfl; cbn [patchifyLoop]; [by eexists _, _|].
  destruct (patchifyPeer_total ms n Hms Hn) as [d ->]. cbn. destruct d as [[p|]|]; apply IH; [done..|].
  by apply Forall_app; split; [|constructor].
Qed.

Lemma prepared_total ms viaTSMP resp : sessionOk ms →
  ∃ r, preparedResponse ms viaTSMP resp = Ok r ∧
    Forall modern (default [] (rPeers r) ++ rPeersChanged r).
Proof.
  intros Hms. unfold preparedResponse, patchifyPeersChanged.
  destruct (patchifyLoop_total ms (rPeersChanged (upgradeResponse resp)) [] (rPeersChangedPatch (upgradeResponse resp)) Hms)
    as (fl & pl & -> & Hfl); [|done|].
  { cbn. apply Forall_fmap, Forall_true. intros n. apply upgradeNode_modern. }
  cbn. eexists. split; [done|]. cbn. apply Forall_app. split; [|done].
  destruct (rPeers resp) as [l|]; [|constructor]. cbn. apply Forall_forall. intros n (x & <- & _)%list_elem_of_In%in_map_iff. done.
Qed.

Lemma keepLearned_modern ms n : modern n → modern (keepLearned ms n).
Proof. unfold keepLearned. repeat (case_match; try done). Qed.

Lemma fullPrepared_modern ms r : Forall modern (default [] (rPeers r) ++ rPeersChanged r) →
  let r' := removeUnwantedDiscoUpdatesFromFullNetmapUpdate ms r in
  Forall modern (default [] (rPeers r') ++ rPeersChanged r').
Proof.
  cbn. rewrite !Forall_app. intros [Hf Hc]. split; [|done]. destruct (rPeers r) as [l|]; [|constructor]. cbn in *.
  rewrite Forall_forall in *. intros n (x & <- & Hx)%list_elem_of_In%in_map_iff. apply keepLearned_modern, Hf, list_elem_of_In, Hx.
Qed.

(** ** The backend *)
Lemma withNode_node nb b : lbNode (withNode nb b) = nb.
Proof. done. Qed.

(** Without a tailnet lock the mutations reach the current node as they are. *)
Lemma lbUpdateNetmapDelta_node muts b : lbTKA b = None →
  (lbUpdateNetmapDelta muts b).1 = true ∧
  lbNode (lbUpdateNetmapDelta muts b).2 = (nbUpdateNetmapDelta muts (lbNode b)).2 ∧
  lbTKA (lbUpdateNetmapDelta muts b).2 = None.
Proof.
  intros HT. unfold lbUpdateNetmapDelta, tkaFilterDeltaMutsLocked. rewrite HT.
  destruct (_ || _); destruct (_ && _); destruct (_ && _); destruct (negb _); try done;
    destruct (selfHasCap _ _); by destruct (_ || _).
Qed.

Lemma insertBy_perm {A} (key : A → Z) x l : insertBy key x l ≡ₚ x :: l.
Proof. induction l as [|y l IH]; [done|]. cbn. case_decide; [done|]. rewrite IH. apply perm_swap. Qed.
Lemma sortBy_perm {A} (key : A → Z) l : sortBy key l ≡ₚ l.
Proof. induction l as [|x l IH]; [done|]. cbn. rewrite insertBy_perm. by f_equiv. Qed.

Lemma upsertPeers_not l ps id : id ∉ ndID <$> l → upsertPeers l ps !! id = ps !! id.
Proof.
  unfold upsertPeers. revert ps. induction l as [|n l IH]; intros ps Hn; [done|]. cbn in *.
  apply not_elem_of_cons in Hn as [Hne Hn]. rewrite IH by done. by rewrite lookup_insert_ne.
Qed.
Lemma upsertPeers_in l ps n : NoDup (ndID <$> l) → n ∈ l → upsertPeers l ps !! ndID n = Some n.
Proof.
  revert ps. induction l as [|x l IH]; intros ps Hnd Hin; [by apply elem_of_nil in Hin|].
  cbn in Hnd. apply NoDup_cons in Hnd as [Hx Hnd]. apply elem_of_cons in Hin as [->|Hin]; cbn [upsertPeers foldl].
  - change (foldl _ ?p l) with (upsertPeers l p). rewrite upsertPeers_not by done. by rewrite lookup_insert_eq.
  - by apply IH.
Qed.

Lemma peers_rebuilt ms : sessionOk ms → upsertPeers (sortedPeers (msPeers ms)) ∅ = msPeers ms.
Proof.
  intros Hms. set (ps := msPeers ms) in *.
  assert (ndID <$> (map_to_list ps).*2 = (map_to_list ps).*1) as Hids.
  { rewrite <-list_fmap_compose. apply list_fmap_ext. intros i [id n] Hi. cbn.
    apply list_elem_of_lookup_2, elem_of_map_to_list in Hi. by destruct (Hms _ _ Hi). }
  assert (NoDup (ndID <$> sortedPeers ps)) as Hnd.
  { unfold sortedPeers. rewrite sortBy_perm, Hids. apply NoDup_fst_map_to_list. }
  assert (∀ n, n ∈ sortedPeers ps ↔ ps !! ndID n = Some n) as Hin.
  { intros n. unfold sortedPeers. rewrite sortBy_perm, list_elem_of_fmap. split.
    - intros ([id n'] & -> & Hm%elem_of_map_to_list). cbn. by destruct (Hms _ _ Hm) as [-> _].
    - intros Hn. exists (ndID n, n). by rewrite elem_of_map_to_list. }
  apply map_eq. intros id. destruct (ps !! id) as [n|] eqn:E.
  - destruct (Hms _ _ E) as [<- _]. apply upsertPeers_in; [done|by apply Hin].
  - apply upsertPeers_not. intros (n & -> & Hn)%list_elem_of_fmap. apply Hin in Hn. congruence.
Qed.

Lemma SetNetMap_netmap exact ms nb : sessionOk ms → agrees exact (SetNetMap (Some (netmap ms)) nb) ms.
Proof. intros Hms. pose proof (peers_rebuilt ms Hms) as E. split_and!; try done. intros id. cbn. by rewrite <-E at 2. Qed.

(** ** One response *)

(** The client is logged in, there is no tailnet lock, and once a map was installed the
    backend has the network map of the session. *)
Definition synced (exact : bool) c ms : Prop :=
  auLoggedIn c = true ∧ lbTKA (auBackend c) = None ∧ sessionOk ms ∧
  (auInMapPoll c = true → agrees exact (lbNode (auBackend c)) ms).

Lemma netmap_frame now r ms : mapResponseContainsNonPatchFields r = false →
  nmFrame (netmap (updateStateFromResponse bartContains now r ms)) = nmFrame (netmap ms).
Proof.
  intros (HN & HD & HC & HDo & HCs & HS & HA & _)%nonPatch_none. unfold nmFrame, netmap, updateStateFromResponse. cbn.
  by rewrite HN, HD, HC, HDo, HCs, HS, HA.
Qed.

(** The packet filter and the profiles are pushed before the mutations. *)
Lemma pushFilter_node exact now r ms c : auLoggedIn c = true → auInMapPoll c = true → agrees exact (lbNode (auBackend c)) ms →
  let ms' := updateStateFromResponse bartContains now r ms in
  ∃ c', pushFilter mapRoutineState ms' r c = (true, c') ∧ auLoggedIn c' = true ∧ auInMapPoll c' = true ∧
    lbTKA (auBackend c') = lbTKA (auBackend c) ∧ nbNetMap (lbNode (auBackend c')) = nbNetMap (lbNode (auBackend c)) ∧
    nbPeers (lbNode (auBackend c')) = nbPeers (lbNode (auBackend c)) ∧
    nbPacketFilter (lbNode (auBackend c')) = lastParsedPacketFilter ms' ∧
    nbPacketFilterRules (lbNode (auBackend c')) = lastPacketFilterRules ms'.
Proof.
  intros HL HP (_ & _ & Hpf & Hpr & Hnm) ms'. unfold pushFilter. cbn.
  destruct (packetFilterChanged r) eqn:E.
  - unfold forward, lbUpdatePacketFilter. rewrite HL, HP. cbn. destruct (nbNetMap _) eqn:EN; [|done].
    eexists. split; [done|]. cbn. rewrite ?E. by split_and!.
  - exists c. cbn. rewrite ?E. by split_and!.
Qed.
Lemma pushProfiles_node r ms c : auLoggedIn c = true → auInMapPoll c = true → is_Some (nbNetMap (lbNode (auBackend c))) →
  ∃ c', pushProfiles mapRoutineState ms r c = (true, c') ∧ auLoggedIn c' = true ∧ auInMapPoll c' = true ∧
    lbTKA (auBackend c') = lbTKA (auBackend c) ∧ nbNetMap (lbNode (auBackend c')) = nbNetMap (lbNode (auBackend c)) ∧
    nbPeers (lbNode (auBackend c')) = nbPeers (lbNode (auBackend c)) ∧
    nbPacketFilter (lbNode (auBackend c')) = nbPacketFilter (lbNode (auBackend c)) ∧
    nbPacketFilterRules (lbNode (auBackend c')) = nbPacketFilterRules (lbNode (auBackend c)).
Proof.
  intros HL HP [nm Hnm]. unfold pushProfiles. cbn. destruct (rUserProfiles r); [exists c; by split_and!|].
  unfold forward, lbUpdateUserProfiles. rewrite HL, HP. cbn. case_decide; [eexists; by split_and!|]. rewrite Hnm. cbn.
  eexists; by split_and!.
Qed.

(** Before the first map nothing is forwarded. *)
Lemma forward_idle f c : auInMapPoll c = false → forward f c = (false, c).
Proof. intros HP. unfold forward. by rewrite HP, andb_false_r. Qed.
Lemma try_idle now r ms c : auInMapPoll c = false → (tryHandleIncrementally mapRoutineState ms now r c).2 = c.
Proof.
  intros HP. unfold tryHandleIncrementally, pushFilter, pushProfiles. cbn [UpdateNetmapDelta UpdatePacketFilter UpdateUserProfiles mapRoutineState].
  destruct (disableDelta ms); [done|]. destruct (packetFilterChanged r); [by rewrite forward_idle|].
  destruct (rUserProfiles r); cbn [negb]; [|by rewrite forward_idle].
  destruct (MutationsFromMapResponse r now) as [[|]|]; [done| |done]. by rewrite forward_idle.
Qed.

(** The conditions on a response, and those under which also the times agree. *)
Definition goodDelta (exact : bool) (now now' : Z) ps r : Prop :=
  mapResponseContainsNonPatchFields r = false → deltaKnown ps r ∧ (exact = true → now' = now ∧ seenOnce r).

Lemma try_synced exact now now' r ms c : synced exact c ms → goodDelta exact now now' (msPeers ms) r →
  let ms' := updateStateFromResponse bartContains now r ms in
  let '(handled, c') := tryHandleIncrementally mapRoutineState ms' now' r c in
  auLoggedIn c' = true ∧ lbTKA (auBackend c') = None ∧
  (handled = true → auInMapPoll c' = true → agrees exact (lbNode (auBackend c')) ms').
Proof.
  intros (HL & HT & Hms & Hag) Hgood ms'. destruct (auInMapPoll c) eqn:HP; last first.
  { pose proof (try_idle now' r ms' c HP) as E. destruct (tryHandleIncrementally _ _ _ _ _) as [h c']. cbn in E. subst c'.
    split_and!; [done..|]. congruence. }
  specialize (Hag eq_refl). unfold tryHandleIncrementally. destruct (disableDelta ms'); [by split_and!|]. cbn [UpdateNetmapDelta mapRoutineState].
  destruct (pushFilter_node exact now r ms c HL HP Hag) as (c1 & E1 & HL1 & HP1 & HT1 & Hn1 & Hp1 & Hf1 & Hr1). fold ms' in E1, Hf1, Hr1.
  rewrite E1. cbn [negb]. destruct Hag as (Hpe & Hex & _ & _ & Hnm).
  destruct (pushProfiles_node r ms' c1 HL1 HP1) as (c2 & E2 & HL2 & HP2 & HT2 & Hn2 & Hp2 & Hf2 & Hr2).
  { rewrite Hn1. destruct (nbNetMap _); [by eexists|done]. }
  rewrite E2. cbn [negb]. destruct (MutationsFromMapResponse r now') as [muts|] eqn:EM; [|split_and!; congruence].
  assert (mapResponseContainsNonPatchFields r = false) as ENP
    by (unfold MutationsFromMapResponse in EM; by destruct (mapResponseContainsNonPatchFields r)).
  destruct (Hgood ENP) as [Hk Hgx]. set (nb2 := lbNode (auBackend c2)) in *.
  assert (nbPeers nb2 = nbPeers (lbNode (auBackend c))) as Hpn by congruence.
  assert (deltaKnown (nbPeers nb2) r) as Hs by (rewrite Hpn; eapply deltaKnown_same; [symmetry; exact Hpe|done]).
  assert (nmFrame <$> nbNetMap nb2 = Some (nmFrame (netmap ms'))) as HF2
    by (rewrite Hn2, Hn1, Hnm; f_equal; symmetry; by apply netmap_frame).
  assert (sameButSeen (updatePeersStateFromResponse now r (nbPeers nb2)) (msPeers ms')) as HU
    by (rewrite Hpn; by apply updatePeers_unseen).
  destruct muts as [|m muts].
  - split_and!; [done|congruence|]. intros _ _. fold nb2. split_and!; [| |congruence|congruence|done].
    + destruct (response_run_unseen now now' r _ _ EM Hs) as (ps' & [= <-] & HR). by rewrite HR.
    + intros Hx. destruct (Hgx Hx) as [-> Hse]. pose proof (response_run now r _ _ EM Hs Hse) as HR. cbn in HR. injection HR as HR.
      by rewrite HR, Hpn, (Hex Hx).
  - unfold forward. rewrite HL2, HP2. cbn [andb].
    destruct (lbUpdateNetmapDelta_node (m :: muts) (auBackend c2)) as (H1 & H2 & H3); [congruence|].
    destruct (lbUpdateNetmapDelta _ _) as [ok b']. cbn in H1, H2, H3 |- *. split_and!; [done..|]. intros _ _.
    pose proof (delta_node now now' r nb2 _ EM Hs) as HD. fold nb2 in H2.
    destruct (nbUpdateNetmapDelta _ _) as [ok' nb']. cbn in H2. subst nb'.
    destruct HD as (_ & HPe & HPx & HFr); [apply (fmap_is_Some nmFrame); rewrite HF2; by eexists|]. unfold frozen in HFr. injection HFr as F1 F2 F3 F4.
    split_and!; [by rewrite HPe| |congruence|congruence|by rewrite F1].
    intros Hx. destruct (Hgx Hx) as [-> Hse]. by rewrite (HPx Hse), Hpn, (Hex Hx).
Qed.

Lemma tryMark_node res c : let c' := tryMarkDiscoAsLearnedFromTSMP mapRoutineState res c in
  auLoggedIn c' = auLoggedIn c ∧ auInMapPoll c' = auInMapPoll c ∧ lbTKA (auBackend c') = lbTKA (auBackend c) ∧
  lbNode (auBackend c') = lbNode (auBackend c).
Proof.
  unfold tryMarkDiscoAsLearnedFromTSMP. cbn. revert c. induction (rPeersChangedPatch res) as [|p l IH]; intros c; [done|]. cbn.
  destruct (pcDiscoKey p), (pcKey p); try apply IH. destruct (IH (forward (λ b, (true, doing [EnginePatchDisco z0 z] b)) c).2) as (-> & -> & -> & ->).
  unfold forward. by destruct (_ && _).
Qed.

Lemma full_synced exact ms c : auLoggedIn c = true → lbTKA (auBackend c) = None → sessionOk ms →
  synced exact (mrsUpdateFullNetmap (netmap ms) c) ms.
Proof.
  intros HL HT Hms. unfold synced, mrsUpdateFullNetmap, installNetMap, tkaFilterNetmapLocked. cbn -[netmap SetNetMap].
  rewrite HL, HT. cbn -[netmap SetNetMap]. split_and!; [done..|]. intros _. by apply SetNetMap_netmap.
Qed.

Lemma updateKnobs_peers r ms : msPeers (updateKnobs r ms) = msPeers ms ∧ ∀ exact nb, agrees exact nb (updateKnobs r ms) ↔ agrees exact nb ms.
Proof. unfold updateKnobs. by destruct (rNode r). Qed.

Lemma handle_synced exact now now' viaTSMP resp ms c : synced exact c ms →
  (∀ r, preparedResponse (updateKnobs (upgradeResponse resp) ms) viaTSMP resp = Ok r → goodDelta exact now now' (msPeers ms) r) →
  ∃ ms' c', handleNonKeepAliveMapResponse bartContains mapRoutineState now now' viaTSMP resp ms c = Ok (ms', c') ∧ synced exact c' ms'.
Proof.
  intros (HL & HT & Hms & Hag) Hsafe. unfold handleNonKeepAliveMapResponse.
  destruct (updateKnobs_peers (upgradeResponse resp) ms) as [Kp Ka]. set (ms1 := updateKnobs (upgradeResponse resp) ms) in *.
  assert (sessionOk ms1) as Hms1 by (unfold sessionOk; by rewrite Kp).
  destruct (prepared_total ms1 viaTSMP resp Hms1) as (r & Er & Hmod). rewrite Er, bind_ret. cbv zeta.
  assert (synced exact c ms1) as Hs1 by (split_and!; try done; intros HP; by apply Ka, Hag).
  destruct (viaTSMP && bool_decide (rPeersChangedPatch r = [])); [by eexists _, _|].
  set (r' := removeUnwantedDiscoUpdatesFromFullNetmapUpdate ms1 r).
  set (c1 := if viaTSMP then _ else c).
  assert (synced exact c1 ms1) as Hs2.
  { subst c1. destruct viaTSMP; [|done]. destruct (tryMark_node r' c) as (E1 & E2 & E3 & E4). unfold synced.
    rewrite E1, E2, E3, E4. done. }
  pose proof (try_synced exact now now' r' ms1 c1 Hs2) as HTry. fold r'.
  assert (sessionOk (updateStateFromResponse bartContains now r' ms1)) as Hms2
    by (apply updatePeers_ok; [by apply fullPrepared_modern|done]).
  assert (goodDelta exact now now' (msPeers ms1) r') as Hsafe'.
  { intros HN. rewrite Kp. apply (Hsafe r Er). destruct (nonPatch_none _ HN) as (_&_&_&_&_&_&_&HP). cbn in HP.
    unfold mapResponseContainsNonPatchFields in *. cbn in HN. destruct (rPeers r); [done|]. exact HN. }
  specialize (HTry Hsafe'). cbv zeta in HTry. destruct (tryHandleIncrementally _ _ _ _ _) as [h c2]. destruct HTry as (HL2 & HT2 & HA2).
  destruct h; (eexists _, _; split; [done|]); [split_and!; auto|].
  by apply full_synced.
Qed.

(** ** A poll *)
Definition safeFor (exact : bool) (now now' : Z) ms (viaTSMP : bool) resp : Prop :=
  ∀ r, preparedResponse (updateKnobs (upgradeResponse resp) ms) viaTSMP resp = Ok r → goodDelta exact now now' (msPeers ms) r.

(** A new session, with a backend that has no tailnet lock, and the responses that
    follow, each with two readings of the clock. *)
Inductive Polled (exact : bool) : mapSession → Auto → Prop :=
  | polled_start b : lbTKA b = None → Polled exact newMapSession (mkAuto true false b)
  | polled_step ms c now now' viaTSMP resp ms' c' :
      Polled exact ms c → safeFor exact now now' ms viaTSMP resp →
      handleNonKeepAliveMapResponse bartContains mapRoutineState now now' viaTSMP resp ms c = Ok (ms', c') →
      Polled exact ms' c'.

Lemma polled_synced exact ms c : Polled exact ms c → synced exact c ms.
Proof.
  induction 1 as [b Hb|ms c now now' v resp ms' c' _ IH Hs HE]; [split_and!; try done; apply map_Forall_empty|].
  destruct (handle_synced exact now now' v resp ms c IH Hs) as (ms2 & c2 & HE' & Hs2). rewrite HE in HE'. by injection HE' as -> ->.
Qed.

Lemma handle_total now now' viaTSMP resp ms c : sessionOk ms →
  ∃ ms' c', handleNonKeepAliveMapResponse bartContains mapRoutineState now now' viaTSMP resp ms c = Ok (ms', c').
Proof.
  intros Hms. unfold handleNonKeepAliveMapResponse.
  destruct (prepared_total (updateKnobs (upgradeResponse resp) ms) viaTSMP resp) as (r & -> & _).
  { unfold sessionOk. by destruct (updateKnobs_peers (upgradeResponse resp) ms) as [-> _]. }
  rewrite bind_ret. cbv zeta. destruct (viaTSMP && _); [by eexists _, _|].
  destruct (tryHandleIncrementally _ _ _ _ _) as [[] c']; by eexists _, _.
Qed.

(** C3: throughout a poll without a tailnet lock, once a map was installed, the backend has
    exactly the peers of the session, up to the times at which they were last seen, and,
    but for profiles of users, the network map that a full rebuild would give, whether the
    responses reached it as mutations, as narrow updates of the filter or as whole maps.
    The times agree as well if the two readings of the clock do, and no response gives a
    time twice or reports a peer as unseen.  The responses meant here name by field only
    peers that exist and do not say twice whether a peer is online.  No response, of these
    or not, makes the session panic. *)
Theorem backend_follows_session exact ms c : Polled exact ms c →
  (auInMapPoll c = true →
    sameButSeen (nbPeers (lbNode (auBackend c))) (msPeers ms) ∧
    (exact = true → nbPeers (lbNode (auBackend c)) = msPeers ms) ∧
    ∃ up, netMapWithPeers (lbNode (auBackend c)) =
      Some (withProfiles up (withNMPeers (sortedPeers (nbPeers (lbNode (auBackend c)))) (netmap ms)))) ∧
  ∀ now now' viaTSMP resp, ∃ ms' c',
    handleNonKeepAliveMapResponse bartContains mapRoutineState now now' viaTSMP resp ms c = Ok (ms', c').
Proof.
  intros (_ & _ & Hms & Hag)%polled_synced. split; [|intros; by apply handle_total].
  intros HP. pose proof (Hag HP) as HA. destruct HA as (H1 & H2 & _). split_and!; [done|done|]. by eapply agrees_netmap, Hag.
Qed.
End handle.

(** ** What a patch can say *)
Section patches.
Context `{TailTypes}.
Implicit Types (w n : Node).

Lemma sliceEqual_spec {A} `{EqDecision A} (a b : option (list A)) : sliceEqual a b = true ↔ default [] a = default [] b.
Proof. apply bool_decide_eq_true. Qed.

Lemma capMapDiffers_false (w n : option (gmap string (list string))) : capMapDiffers w n = false → default ∅ w = default ∅ n.
Proof.
  unfold capMapDiffers. rewrite orb_false_iff, negb_false_iff, Nat.eqb_eq. intros [Hs He].
  apply map_subseteq_size_eq; [|lia]. apply map_subseteq_spec. intros k v Hk. destruct (decide (default ∅ n !! k = Some v)) as [|Hne]; [done|].
  assert (existsb (λ '(k, v), bool_decide (default ∅ n !! k ≠ Some v)) (map_to_list (default ∅ w)) = true); [|congruence].
  apply existsb_exists. exists (k, v). split; [by apply list_elem_of_In, elem_of_map_to_list|by apply bool_decide_eq_true].
Qed.

(** The optional fields that both nodes must have. *)
Definition ifBoth {A} (a b : option A) : option A := match a, b with Some _, Some y => Some y | _, _ => a end.
Lemma bothDiffer_spec {A} `{EqDecision A} (a b : option A) : (if bothDiffer a b is Some y then Some y else a) = ifBoth a b.
Proof. destruct a, b; cbn; try done. by case_decide; subst. Qed.

(** A patch that says nothing changes nothing. *)
Lemma unpatched w n : patched w n = false → applyChange (diffPatch w n) w = w.
Proof.
  unfold patched. rewrite !orb_false_iff, !bool_decide_eq_false, !negb_false_iff, <-!eq_None_not_Some.
  intros HH. repeat match goal with h : _ ∧ _ |- _ => destruct h end.
  repeat match goal with h : ¬ (_ ≠ _) |- _ => apply dec_stable in h end.
  unfold applyChange, diffPatch. cbn [pcKey pcKeyExpiry pcKeySignature pcDiscoKey pcEndpoints pcDERPRegion pcCap pcCapMap pcOnline pcLastSeen].
  repeat match goal with h : ?x = ?y |- context [decide (?x = ?y)] => rewrite (decide_True _ _ h) end.
  repeat match goal with h : sliceEqual ?x ?y = true |- context [sliceEqual ?x ?y] => rewrite h end.
  repeat match goal with h : capMapDiffers ?x ?y = false |- context [capMapDiffers ?x ?y] => rewrite h end.
  repeat match goal with h : bothDiffer ?x ?y = None |- context [bothDiffer ?x ?y] => rewrite h end.
  destruct w; cbn. done.
Qed.

(** Applied to the old node, the patch made of a changed peer gives the new one, but
    for these losses: a home region or capability version that becomes 0 and endpoints or
    a key signature that become nil keep their old values, and so does an online state or
    a time last seen that only one of the nodes has.  A peer that is dropped from the
    response as unchanged differs at most in those. *)
Theorem patch_exact w n d : peerChangeDiff w n = Ok (Some d) →
  let r := match d with Some pc => applyChange pc w | None => w end in
  sameBefore r n = true ∧ sameAfter r n = true ∧
  ndKey r = ndKey n ∧ ndKeyExpiry r = ndKeyExpiry n ∧ ndDiscoKey r = ndDiscoKey n ∧
  default ∅ (ndCapMap r) = default ∅ (ndCapMap n) ∧
  ndHomeDERP r = (if decide (ndHomeDERP n = 0) then ndHomeDERP w else ndHomeDERP n) ∧
  ndCap r = (if decide (ndCap n = 0) then ndCap w else ndCap n) ∧
  default [] (ndEndpoints r) = default (default [] (ndEndpoints w)) (ndEndpoints n) ∧
  default [] (ndKeySignature r) = default (default [] (ndKeySignature w)) (ndKeySignature n) ∧
  ndOnline r = ifBoth (ndOnline w) (ndOnline n) ∧ ndLastSeen r = ifBoth (ndLastSeen w) (ndLastSeen n).
Proof.
  unfold peerChangeDiff. destruct (sameBefore w n) eqn:EB; [|done]. cbn [negb]. destruct (_ || _); [done|].
  destruct (sameAfter w n) eqn:EA; [|done]. cbn [negb]. intros [= <-].
  assert (match (if patched w n then Some (diffPatch w n) else None) with Some pc => applyChange pc w | None => w end =
          applyChange (diffPatch w n) w) as ->.
  { destruct (patched w n) eqn:EP; [done|]. symmetry. by apply unpatched. }
  cbv zeta. split_and!; try done; cbn.
  - by case_decide.
  - by case_decide.
  - by case_decide.
  - destruct (capMapDiffers _ _) eqn:E; [done|]. by apply capMapDiffers_false.
  - destruct (decide (ndHomeDERP w = ndHomeDERP n)) as [->|]; by repeat case_decide.
  - destruct (decide (ndCap w = ndCap n)) as [->|]; by repeat case_decide.
  - destruct (sliceEqual _ _) eqn:E; [apply sliceEqual_spec in E; rewrite E|]; by destruct (ndEndpoints n).
  - destruct (sliceEqual _ _) eqn:E; [apply sliceEqual_spec in E; rewrite E|]; by destruct (ndKeySignature n).
  - apply bothDiffer_spec.
  - apply bothDiffer_spec.
Qed.
End patches.

(** ** Named packet filters *)
Section chunks.
Context `{TailTypes} `{IPRanges} (bartContains : list Prefix → Addr → bool).
Implicit Types (ms : mapSession) (r : MapResponse) (k : string).

Lemma mergeNamed_lookup {V} (m : gmap string (option V)) (old : gmap string V) k : k ≠ "*" →
  mergeNamed m old !! k = match m !! k with
    | Some v => v
    | None => if m !! "*" is Some None then None else old !! k
    end.
Proof.
  intros Hk. unfold mergeNamed. set (base := if m !! "*" is Some None then ∅ else old).
  assert ((if m !! "*" is Some None then None else old !! k) = base !! k) as ->.
  { unfold base. by destruct (m !! "*") as [[]|]. }
  clearbody base. revert k Hk. apply (map_fold_weak_ind (λ acc m, ∀ k, k ≠ "*" → acc !! k = match m !! k with Some v => v | None => base !! k end)).
  - intros k _. by rewrite lookup_empty.
  - intros i x m' acc Hi IH k Hk. destruct (decide (i = k)) as [->|Hne].
    + rewrite decide_False, lookup_insert_eq by done. destruct x; [by rewrite lookup_insert_eq|by rewrite lookup_delete_eq].
    + rewrite (lookup_insert_ne m') by done. case_decide; [by apply IH|].
      destruct x; [rewrite lookup_insert_ne by done|rewrite lookup_delete_ne by done]; by apply IH.
Qed.

Lemma insertName_perm x l : insertName x l ≡ₚ x :: l.
Proof. induction l as [|y l IH]; [done|]. cbn. destruct (String.leb x y); [done|]. rewrite IH. apply perm_swap. Qed.
Lemma sortedNames_elem {V} (m : gmap string V) k : k ∈ sortedNames m ↔ is_Some (m !! k).
Proof.
  assert (∀ l, foldr insertName [] l ≡ₚ l) as HP.
  { induction l as [|x l IH]; [done|]. cbn. rewrite insertName_perm. by f_equiv. }
  unfold sortedNames. rewrite HP, list_elem_of_fmap. split.
  - intros ([k' v] & -> & Hv%elem_of_map_to_list). by eexists.
  - intros [v Hv]. exists (k, v). by rewrite elem_of_map_to_list.
Qed.
Lemma concatFilters_elem (m : gmap string (list FilterRule)) f : f ∈ concatFilters m ↔ ∃ k rules, m !! k = Some rules ∧ f ∈ rules.
Proof.
  unfold concatFilters. rewrite list_elem_of_join. split.
  - intros (rules & Hf & (k & -> & Hk)%list_elem_of_fmap). apply sortedNames_elem in Hk as [rules Hk]. rewrite Hk in Hf. by exists k, rules.
  - intros (k & rules & Hk & Hf). exists rules. split; [done|]. apply list_elem_of_fmap. exists k. rewrite Hk. split; [done|].
    apply sortedNames_elem. by eexists.
Qed.

(** The rules of the session are those of its chunks, and its matches theirs. *)
Definition filtersOk ms : Prop :=
  (∀ f, f ∈ lastPacketFilterRules ms ↔ ∃ k rules, namedPacketFilters ms !! k = Some rules ∧ f ∈ rules) ∧
  lastParsedPacketFilter ms = (MatchesFromFilterRules bartContains (lastPacketFilterRules ms)).1.

(** The packet filter of the session always has the rules of all its named chunks and
    no others.  A response sets the chunks it names, deletes those it names with nil and
    keeps the others, or drops them if it names [*] with nil; the old single filter is
    the chunk [base], which the named chunks of the same response override. *)
Theorem filter_chunks now r ms : filtersOk ms →
  let ms' := updateStateFromResponse bartContains now r ms in
  filtersOk ms' ∧
  ∀ k, k ≠ "*" → namedPacketFilters ms' !! k =
    let before := if decide (k = "base") then (if rPacketFilter r is Some pf then Some pf else namedPacketFilters ms !! k)
                  else namedPacketFilters ms !! k in
    match rPacketFilters r with
    | Some m => match m !! k with Some v => v | None => if m !! "*" is Some None then None else before end
    | None => before
    end.
Proof.
  intros [HR HM]. cbv zeta. split.
  - unfold filtersOk. cbn [updateStateFromResponse lastPacketFilterRules namedPacketFilters lastParsedPacketFilter].
    destruct (packetFilterChanged r) eqn:E; [split; [intros f; apply concatFilters_elem|done]|].
    unfold packetFilterChanged in E. apply orb_false_iff in E as [E1 E2]. apply bool_decide_eq_false, eq_None_not_Some in E1, E2.
    unfold nextNamedFilters. by rewrite E1, E2.
  - intros k Hk. cbn [updateStateFromResponse namedPacketFilters]. unfold nextNamedFilters.
    assert ((if rPacketFilter r is Some pf then <["base" := pf]> (namedPacketFilters ms) else namedPacketFilters ms) !! k =
      if decide (k = "base") then (if rPacketFilter r is Some pf then Some pf else namedPacketFilters ms !! k)
      else namedPacketFilters ms !! k) as HB.
    { destruct (rPacketFilter r); [|by case_decide]. case_decide as Hb; [subst; by rewrite lookup_insert_eq|by rewrite lookup_insert_ne]. }
    destruct (rPacketFilters r); [|done]. rewrite mergeNamed_lookup by done. by rewrite HB.
Qed.

(** ** Disco keys *)

Lemma upsertPeers_some (l : list Node) ps id n : upsertPeers l ps !! id = Some n → (n ∈ l ∧ ndID n = id) ∨ (id ∉ ndID <$> l).
Proof.
  unfold upsertPeers. revert ps. induction l as [|x l IH]; intros ps Hn; [right; apply not_elem_of_nil|]. cbn [foldl] in Hn.
  destruct (IH _ Hn) as [[H1 H2]|H1]; [left; split; [by right|done]|].
  change (upsertPeers l (<[ndID x := x]> ps) !! id = Some n) in Hn. rewrite upsertPeers_not in Hn by done.
  destruct (decide (ndID x = id)) as [<-|Hne]; [rewrite lookup_insert_eq in Hn; injection Hn as <-; left; split; [by left|done]|].
  right. cbn. by intros [?|?]%elem_of_cons.
Qed.

(** A full map leaves its own peers. *)
Lemma full_map_peers now r l ps id n : rPeers r = Some l → l ≠ [] →
  updatePeersStateFromResponse now r ps !! id = Some n → n ∈ l ∧ ndID n = id.
Proof.
  intros Hr Hl. unfold updatePeersStateFromResponse. rewrite Hr. cbn [default]. destruct l as [|p l]; [done|].
  intros [Hn Hk]%map_lookup_filter_Some. apply elem_of_list_to_set in Hk.
  by destruct (upsertPeers_some _ _ _ _ Hn).
Qed.

Lemma keepLearned_fresh ms p ex t : msPeers ms !! ndID p = Some ex → ndLastSeen ex = Some t →
  let n := keepLearned ms p in
  ndDiscoKey n = ndDiscoKey ex ∨ ndDiscoKey n = 0 ∨ ndOnline n = Some true ∨ ∃ s, ndLastSeen n = Some s ∧ t < s.
Proof.
  intros Hex Ht. unfold keepLearned. case_decide; [auto|]. rewrite Hex, Ht. case_decide; [by left|].
  destruct (ndOnline p) as [[]|] eqn:EO; cbn [default]; [auto|..];
    (destruct (ndLastSeen p) as [s|] eqn:ES; cbn; [destruct (Z.ltb_spec t s); [right; right; right; by exists s|]|]; by left).
Qed.

(** A full map replaces the disco key of a peer that the session has already seen only
    by none, or if the map says that the peer is online or was seen later than the
    session knows: a key that was learned from the peer itself is not undone by a map
    that is older. *)
Theorem stale_disco_refused now r ms l id ex t n :
  msPeers ms !! id = Some ex → ndLastSeen ex = Some t → rPeers r = Some l → l ≠ [] →
  updatePeersStateFromResponse now (removeUnwantedDiscoUpdatesFromFullNetmapUpdate ms r) (msPeers ms) !! id = Some n →
  ndDiscoKey n = ndDiscoKey ex ∨ ndDiscoKey n = 0 ∨ ndOnline n = Some true ∨ ∃ s, ndLastSeen n = Some s ∧ t < s.
Proof.
  intros Hex Ht Hr Hl Hn. apply (full_map_peers _ _ (map (keepLearned ms) l)) in Hn as [Hin Hid]; [|cbn; by rewrite Hr|by destruct l].
  apply list_elem_of_In, in_map_iff in Hin as (p & <- & _). apply keepLearned_fresh; [|done].
  rewrite <-Hex. f_equal. rewrite <-Hid. unfold keepLearned. by repeat case_match.
Qed.
End chunks.

(** ** Examples *)
Definition exTypes : TailTypes :=
  Build_TailTypes unit _ unit _ unit unit tt unit unit unit unit.
#[local] Existing Instance exTypes.
Definition noRanges : IPRanges := {| rangeValid _ _ := false; rangePrefixes _ _ := [] |}.
#[local] Existing Instance noRanges.

Definition exFixed (stable : string) (addrs : list Prefix) : NodeFixed :=
  mkFixed stable stable 1 0 0 addrs None "" None 0 [] [] true [] false "" false None None false false [].
Definition exNd (id key disco : Z) (stable : string) (addrs : list Prefix) : Node :=
  mkNd id (exFixed stable addrs) key 0 None disco None 1 1 None (Some false) (Some 100).
Definition exSelf : Node := exNd 9 109 209 "self" [PrefixFrom (IPv4 100 64 0 9) 32].
Definition exPeer1 : Node := exNd 1 101 201 "one" [PrefixFrom (IPv4 100 64 0 1) 32].
Definition exPeer2 : Node := exNd 2 102 202 "two" [PrefixFrom (IPv4 100 64 0 2) 32].
Definition exFull : MapResponse := withNodes (Some exSelf) (Some [exPeer1; exPeer2]) [] zeroResp.
(** The second peer comes online, by a changed node that becomes a patch. *)
Definition exDelta : MapResponse := withNodes None None [withOnline (Some true) exPeer2] zeroResp.

Definition exBackend : LocalBackend := mkLB newNodeBackend None "" false "" [].
Definition exAuto : Auto := mkAuto true false exBackend.
Definition exHandle (x : mapSession * Auto) (resp : MapResponse) : mapSession * Auto :=
  match handleNonKeepAliveMapResponse (λ _ _, false) mapRoutineState 500 500 false resp x.1 x.2 with Ok y => y | _ => x end.
Definition exPolled1 : mapSession * Auto := exHandle (newMapSession, exAuto) exFull.
Definition exPolled2 : mapSession * Auto := exHandle exPolled1 exDelta.

Lemma exHandle_ok x resp : sessionOk x.1 →
  handleNonKeepAliveMapResponse (λ _ _, false) mapRoutineState 500 500 false resp x.1 x.2 = Ok ((exHandle x resp).1, (exHandle x resp).2).
Proof. intros Hs. unfold exHandle. destruct (handle_total (λ _ _, false) 500 500 false resp x.1 x.2 Hs) as (ms & c & ->). done. Qed.

Lemma exPolled1_polled : Polled (λ _ _, false) true exPolled1.1 exPolled1.2.
Proof.
  apply (polled_step _ _ newMapSession exAuto 500 500 false exFull); [by apply polled_start| |].
  - intros r Hr. vm_compute in Hr. injection Hr as <-. by vm_compute.
  - apply (exHandle_ok (newMapSession, exAuto)). apply map_Forall_empty.
Qed.
Lemma exPolled2_polled : Polled (λ _ _, false) true exPolled2.1 exPolled2.2.
Proof.
  assert (∀ id o, (∅ : gmap Z bool) !! id = Some o → False) as HE by (intros id o Ho; by rewrite lookup_empty in Ho).
  apply (polled_step _ _ exPolled1.1 exPolled1.2 500 500 false exDelta); [apply exPolled1_polled| |].
  - intros r Hr _. vm_compute in Hr. injection Hr as <-. split; [split_and!|intros _; split; [done|split]].
    + intros pc ->%list_elem_of_singleton. split; [vm_compute; by eexists|]. intros _; reflexivity.
    + intros id o Ho. by destruct (HE id o).
    + intros id Ho. by destruct (HE id true).
    + intros pc ->%list_elem_of_singleton _. reflexivity.
    + intros id o Ho. by destruct (HE id o).
  - apply (exHandle_ok exPolled1). apply (polled_synced (λ _ _, false) true _ exPolled1.2), exPolled1_polled.
Qed.

Lemma backend_follows_session_witness :
  auInMapPoll exPolled2.2 = true ∧
  nbPeers (lbNode (auBackend exPolled2.2)) !! 2 = Some (withOnline (Some true) (upgradeNode exPeer2)).
Proof.
  assert (auInMapPoll exPolled2.2 = true) as HP by (vm_compute; reflexivity). split; [exact HP|].
  destruct (backend_follows_session (λ _ _, false) true exPolled2.1 exPolled2.2 exPolled2_polled) as [HA _].
  destruct (HA HP) as (_ & HX & _). rewrite (HX eq_refl). vm_compute. reflexivity.
Defined.

Lemma patch_exact_witness : ∃ d, peerChangeDiff exPeer2 (withHomeDERP 0 exPeer2) = Ok (Some (Some d)) ∧
  ndHomeDERP (applyChange d exPeer2) = 1.
Proof.
  assert (∃ d, peerChangeDiff exPeer2 (withHomeDERP 0 exPeer2) = Ok (Some (Some d))) as [d Hd] by (vm_compute; by eexists).
  exists d. split; [exact Hd|]. destruct (patch_exact exPeer2 (withHomeDERP 0 exPeer2) (Some d) Hd) as (_ & _ & _ & _ & _ & _ & HH & _).
  rewrite HH. reflexivity.
Defined.

Definition exChunks : MapResponse :=
  mkResp None None None [] [] [] ∅ ∅ None "" "" None (Some {["a" := Some FilterAllowAll; "*" := None]}) [] None None None None "" false false false "".
Lemma filter_chunks_witness :
  namedPacketFilters (updateStateFromResponse (λ _ _, false) 0 exChunks newMapSession) !! "a" = Some FilterAllowAll.
Proof.
  destruct (filter_chunks (λ _ _, false) 0 exChunks newMapSession) as [_ HK].
  - split; [|reflexivity]. intros f. split; [by intros Hf%elem_of_nil|]. intros (k & rules & Hk & _). change ((∅ : gmap string (list FilterRule)) !! k = Some rules) in Hk. by rewrite lookup_empty in Hk.
  - rewrite HK by done. vm_compute. reflexivity.
Defined.

Definition exLearned : mapSession := withMSPeers {[1 := exPeer1]} newMapSession.
Lemma stale_disco_refused_witness : ∃ n,
  updatePeersStateFromResponse 0 (removeUnwantedDiscoUpdatesFromFullNetmapUpdate exLearned
    (withNodes None (Some [withDiscoKey 999 exPeer1]) [] zeroResp)) (msPeers exLearned) !! 1 = Some n ∧ ndDiscoKey n = 201.
Proof.
  exists exPeer1. split; [vm_compute; reflexivity|].
  pose proof (stale_disco_refused 0 (withNodes None (Some [withDiscoKey 999 exPeer1]) [] zeroResp) exLearned
    [withDiscoKey 999 exPeer1] 1 exPeer1 100 exPeer1 eq_refl eq_refl eq_refl ltac:(discriminate) ltac:(vm_compute; reflexivity)) as HD.
  destruct HD as [HD|[HD|[HD|(s & HD & Hs)]]]; [exact HD|discriminate HD|discriminate HD|].
  injection HD as <-. lia.
Defined.
