(* ===== verification/NetMapThms.v ===== *)
(** * What the backend makes of a network map

    The tailnet lock holds in the peers of the current node, whatever responses come;
    the WireGuard configuration routes each address to the peer that may have it; the
    configuration is renewed when a mutation could change it. *)

From stdpp Require Import base gmap sets list strings.
From S2P Require Import Prelude GoStd Bytes NetIP TSAddr Filter FilterRules TunWrap Engine NatThms EngineThms TailCfg MapSession NetMap MapThms MapSessionThms.

(** ** The tailnet lock *)
Section lock.
Context `{TailTypes} (au : Authority).
Implicit Types (n p q : Node) (b : LocalBackend) (nb : nodeBackend) (m : NodeMutation).

Definition lockOk n : Prop := is_Some (lockVerdict au n).

Lemma Apply_verdict m n : lockVerdict au (Apply m n) = lockVerdict au n.
Proof. by destruct m. Qed.

Lemma nbUpsert_lock n nb : lockOk n → map_Forall (λ _, lockOk) (nbPeers nb) → map_Forall (λ _, lockOk) (nbPeers (nbUpsert n nb)).
Proof. intros Hn Hp. by apply map_Forall_insert_2. Qed.
Lemma nbRemove_lock id nb : map_Forall (λ _, lockOk) (nbPeers nb) → map_Forall (λ _, lockOk) (nbPeers (nbRemove id nb)).
Proof. rewrite nbRemove_peers. apply map_Forall_delete. Qed.

(** A mutation that puts no unsigned node there. *)
Definition lockedMut m : Prop := match m with NodeMutationUpsert n => lockOk n | _ => True end.
Lemma tkaFilterMut_locked m : lockedMut (tkaFilterMut au m).
Proof. destruct m; try done. cbn. destruct (lockVerdict au n) eqn:E; [|done]. cbn. unfold lockOk. rewrite E. by eexists. Qed.

Lemma deltaLoop_lock l mut nb : Forall lockedMut l → map_Forall (λ _, lockOk) mut → map_Forall (λ _, lockOk) (nbPeers nb) →
  let '(_, mut', nb') := deltaLoop l mut nb in map_Forall (λ _, lockOk) mut' ∧ map_Forall (λ _, lockOk) (nbPeers nb').
Proof.
  intros HF. revert mut nb. induction HF as [|m l Hm _ IH]; intros mut nb Hmut Hnb; [done|].
  assert (∀ n, lockOk n → map_Forall (λ _, lockOk) (<[NodeIDBeingMutated m := Apply m n]> mut)) as Hset.
  { intros n Hn. apply map_Forall_insert_2; [|done]. by unfold lockOk; rewrite Apply_verdict. }
  destruct m; cbn [deltaLoop NodeIDBeingMutated] in *;
    try (destruct (mut !! id) as [n|] eqn:E; [by apply IH; [apply Hset, (Hmut _ _ E)|]|];
         destruct (nbPeers nb !! id) as [n|] eqn:E'; [by apply IH; [apply Hset, (Hnb _ _ E')|]|done]).
  - apply IH; [done|]. by apply nbUpsert_lock.
  - apply IH; [done|]. by apply nbRemove_lock.
Qed.

Lemma nbUpdateNetmapDelta_lock l nb : Forall lockedMut l → map_Forall (λ _, lockOk) (nbPeers nb) →
  map_Forall (λ _, lockOk) (nbPeers (nbUpdateNetmapDelta l nb).2).
Proof.
  intros HF Hp. unfold nbUpdateNetmapDelta. destruct (nbNetMap nb) as [nm|]; [|done].
  pose proof (deltaLoop_lock l ∅ nb HF (map_Forall_empty _) Hp) as HL. destruct (deltaLoop l ∅ nb) as [[[] mut] nb']; [|by destruct HL].
  destruct HL as [H1 H2]. intros id n. cbn. rewrite lookup_union_Some_raw. intros [Hn|[_ Hn]]; [by eapply H1|by eapply H2].
Qed.

(** What the control client and the session ask of the backend. *)
Inductive LBOp : Type :=
  | OpNetMap (nm : NetworkMap)
  | OpDelta (muts : list NodeMutation)
  | OpFilter (rules : list FilterRule) (parsed : list Match)
  | OpProfiles (profiles : gmap Z UserProfile).
Definition runOp (b : LocalBackend) (op : LBOp) : LocalBackend :=
  match op with
  | OpNetMap nm => installNetMap nm b
  | OpDelta muts => (lbUpdateNetmapDelta muts b).2
  | OpFilter rules parsed => (lbUpdatePacketFilter rules parsed b).2
  | OpProfiles profiles => (lbUpdateUserProfiles profiles b).2
  end.

Definition lockHolds b : Prop := (∃ f, lbTKA b = Some (au, f)) ∧ map_Forall (λ _, lockOk) (nbPeers (lbNode b)).

(** Whatever the actions, the node and the lock of the backend after a delta. *)
Lemma lbUpdateNetmapDelta_state muts b :
  let '(muts', b1) := tkaFilterDeltaMutsLocked muts b in
  let b' := (lbUpdateNetmapDelta muts b).2 in
  lbNode b' = (nbUpdateNetmapDelta muts' (lbNode b)).2 ∧ lbTKA b' = lbTKA b1.
Proof.
  unfold lbUpdateNetmapDelta. destruct (tkaFilterDeltaMutsLocked muts b) as [muts' b1] eqn:E.
  assert (lbNode b1 = lbNode b) as ->.
  { unfold tkaFilterDeltaMutsLocked in E. destruct (lbTKA b) as [[]|]; by injection E as <- <-. }
  destruct (_ || _); destruct (_ && _); destruct (_ && _); destruct (negb _); try done;
    destruct (selfHasCap _ _); by destruct (_ || _).
Qed.

Lemma foldl_insert_lock (l : list Node) (ps : gmap Z Node) : Forall lockOk l → map_Forall (λ _, lockOk) ps →
  map_Forall (λ _, lockOk) (foldl (λ ps p, <[ndID p := p]> ps) ps l).
Proof.
  intros Hl. apply map_Forall_foldl. intros ps' a Hin Hp. rewrite Forall_forall in Hl. apply map_Forall_insert_2; [by apply Hl|done].
Qed.

Lemma runOp_lock op b : lockHolds b → lockHolds (runOp b op).
Proof.
  intros [[f HT] Hp]. destruct op as [nm|muts|rules parsed|profiles]; cbn [runOp].
  - unfold installNetMap, tkaFilterNetmapLocked. rewrite HT. split; [by eexists|]. cbn. apply foldl_insert_lock; [|apply map_Forall_empty].
    apply Forall_forall. intros p [Hk _]%list_elem_of_filter. unfold tkaKeeps in Hk. apply Is_true_true, andb_true_iff in Hk as [Hk _].
    by apply bool_decide_eq_true in Hk.
  - pose proof (lbUpdateNetmapDelta_state muts b) as HS. unfold tkaFilterDeltaMutsLocked in HS. rewrite HT in HS. destruct HS as [HN HT'].
    split; [rewrite HT'; by eexists|]. rewrite HN. apply nbUpdateNetmapDelta_lock; [|done].
    apply Forall_fmap, Forall_true. intros m. apply tkaFilterMut_locked.
  - unfold lbUpdatePacketFilter. destruct (nbNetMap (lbNode b)); (split; [by eexists|done]).
  - unfold lbUpdateUserProfiles. case_decide; [by split; [eexists|]|]. destruct (nbNetMap (lbNode b)); (split; [by eexists|done]).
Qed.

Lemma lock_ops ops b f : lbTKA b = Some (au, f) → nbPeers (lbNode b) = ∅ → lockHolds (foldl runOp b ops).
Proof.
  intros HT Hp. assert (lockHolds b) as Hb by (split; [by eexists|rewrite Hp; apply map_Forall_empty]). clear HT Hp.
  revert b Hb. induction ops as [|op ops IH]; intros b Hb; [done|]. by apply IH, runOp_lock.
Qed.

(** With a tailnet lock, no sequence of network maps, mutations and narrow updates
    ever puts a peer into the current node whose key the authority has not authorized,
    unless the peer is marked as usable without a signature. *)
Theorem lock_enforced (ops : list LBOp) b f :
  lbTKA b = Some (au, f) → nbPeers (lbNode b) = ∅ →
  ∀ id n, nbPeers (lbNode (foldl runOp b ops)) !! id = Some n →
    nfUnsignedPeerAPIOnly (ndFixed n) = true ∨
    (default [] (ndKeySignature n) ≠ [] ∧ is_Some (au (ndKey n) (default [] (ndKeySignature n)))).
Proof.
  intros HT Hp id n Hn. destruct (lock_ops ops b f HT Hp) as [_ HL].
  specialize (HL _ _ Hn). unfold lockOk, lockVerdict in HL. destruct (nfUnsignedPeerAPIOnly _); [by left|right].
  case_decide; [by destruct HL|done].
Qed.
End lock.

(** ** Rotated keys *)
Section rotation.
Context `{TailTypes} (au : Authority).
Implicit Types (ps : list Node) (p q : Node) (d : RotationDetails) (obs : gset Z).

Lemma obsoleteGroup_grows obs v : obs ⊆ obsoleteGroup obs v.
Proof. unfold obsoleteGroup. repeat case_match; set_solver. Qed.
Lemma foldl_group_grows obs vs : obs ⊆ foldl obsoleteGroup obs vs.
Proof. revert obs. induction vs as [|v vs IH]; intros obs; [done|]. cbn. etransitivity; [apply (obsoleteGroup_grows obs v)|apply IH]. Qed.

(** Of the keys of one chain at most one is left. *)
Lemma obsoleteGroup_one obs v x y : x ∈ v → y ∈ v → srNP x ∉ obsoleteGroup obs v → srNP y ∉ obsoleteGroup obs v → srNP x = srNP y.
Proof.
  intros Hx Hy Nx Ny. pose proof (obsoleteGroup_grows obs v) as Hg. unfold obsoleteGroup in Nx, Ny.
  set (w := sortBy _ (filter _ v)) in *.
  assert (∀ z, z ∈ v → srNP z ∉ obs → z ∈ w) as Hw.
  { intros z Hz Hn. subst w. rewrite sortBy_perm. by apply list_elem_of_filter. }
  assert (x ∈ w) as Wx by (apply Hw; [done|set_solver]). assert (y ∈ w) as Wy by (apply Hw; [done|set_solver]).
  assert (∀ z l, z ∈ l → srNP z ∈ (list_to_set (srNP <$> l) : gset Z)) as Hset
    by (intros z l Hz; apply elem_of_list_to_set, list_elem_of_fmap; by eexists).
  clearbody w. destruct w as [|a [|b rest]]; [by apply elem_of_nil in Wx| |].
  - apply list_elem_of_singleton in Wx as ->, Wy as ->. done.
  - case_decide.
    + exfalso. apply Nx, elem_of_union_r. by apply (Hset x (a :: b :: rest)).
    + apply elem_of_cons in Wx as [->|Wx]; [|exfalso; by apply Nx, elem_of_union_r, Hset].
      apply elem_of_cons in Wy as [->|Wy]; [done|exfalso; by apply Ny, elem_of_union_r, Hset].
Qed.

Lemma foldl_group_one obs vs v x y : v ∈ vs → x ∈ v → y ∈ v →
  srNP x ∉ foldl obsoleteGroup obs vs → srNP y ∉ foldl obsoleteGroup obs vs → srNP x = srNP y.
Proof.
  revert obs. induction vs as [|u vs IH]; intros obs Hv Hx Hy; [by apply elem_of_nil in Hv|]. cbn [foldl].
  pose proof (foldl_group_grows (obsoleteGroup obs u) vs) as Hg.
  apply elem_of_cons in Hv as [->|Hv]; [|by apply IH]. intros Nx Ny. apply (obsoleteGroup_one obs u); set_solver.
Qed.

(** The tracker lists every direct chain under its first key. *)
Lemma appendTo_spec wp rd l : (∃ v, (wp, v) ∈ appendTo wp rd l ∧ rd ∈ v) ∧
  (∀ w v x, (w, v) ∈ l → x ∈ v → ∃ v', (w, v') ∈ appendTo wp rd l ∧ x ∈ v').
Proof.
  induction l as [|[w v] l [(v1 & H1 & H2) IH]]; cbn [appendTo].
  - split; [exists [rd]; split; by left|]. intros ??? Hn. by apply elem_of_nil in Hn.
  - case_decide as E; subst; split.
    + exists (v ++ [rd]). split; [by left|]. apply elem_of_app. right. by left.
    + intros w' v' x Hin Hx. apply elem_of_cons in Hin as [[= -> ->]|Hin]; [|exists v'; split; [by right|done]].
      exists (v ++ [rd]). split; [by left|]. apply elem_of_app. by left.
    + exists v1. split; [by right|done].
    + intros w' v' x Hin Hx. apply elem_of_cons in Hin as [[= -> ->]|Hin]; [exists v; split; [by left|done]|].
      destruct (IH w' v' x Hin Hx) as (v2 & H3 & H4). exists v2. split; [by right|done].
Qed.

(** Chains only start once: equal first keys are in one group. *)
Lemma appendTo_keys wp rd l : (appendTo wp rd l).*1 = if decide (wp ∈ l.*1) then l.*1 else l.*1 ++ [wp].
Proof.
  induction l as [|[w v] l IH]; [done|]. cbn [appendTo fmap list_fmap fst].
  destruct (decide (w = wp)) as [->|Hne].
  - by rewrite decide_True by (apply elem_of_cons; by left).
  - cbn [fmap list_fmap fst]. rewrite IH. destruct (decide (wp ∈ l.*1)) as [Hi|Hi].
    + by rewrite decide_True by (apply elem_of_cons; by right).
    + rewrite decide_False; [done|]. intros [->|?]%elem_of_cons; done.
Qed.

Definition tracked ps (r : rotationTracker) : Prop :=
  NoDup (byWrappingKey r).*1 ∧
  ∀ p d, p ∈ ps → lockVerdict au p = Some (Some d) →
    (∀ k, k ∈ PrevNodeKeys d → k ∈ obsolete r) ∧
    (initialDirect d = true → ∃ v x, (WrappingPubkey d, v) ∈ byWrappingKey r ∧ x ∈ v ∧ srNP x = ndKey p).

Lemma trackPeer_tracked ps p r : tracked ps r → tracked (ps ++ [p]) (trackPeer au r p).
Proof.
  intros [Hnd HT]. unfold trackPeer. destruct (lockVerdict au p) as [[d|]|] eqn:E.
  - unfold addRotationDetails. set (rd := mkSigRotation _ _). destruct (appendTo_spec (WrappingPubkey d) rd (byWrappingKey r)) as [(v & Hv1 & Hv2) HA].
    destruct (initialDirect d) eqn:ED; cbn [negb]; split; cbn [byWrappingKey obsolete].
    + rewrite appendTo_keys. case_decide; [done|]. apply NoDup_app. split_and!; [done| |apply NoDup_singleton].
      intros w Hw. by intros ->%list_elem_of_singleton.
    + intros q d' Hq Hd'. apply elem_of_app in Hq as [Hq| ->%list_elem_of_singleton].
      * destruct (HT q d' Hq Hd') as [H1 H2]. split; [set_solver|]. intros HD. destruct (H2 HD) as (v' & x & H3 & H4 & H5).
        destruct (HA _ _ _ H3 H4) as (v2 & H6 & H7). by exists v2, x.
      * rewrite E in Hd'. injection Hd' as <-. split; [set_solver|]. intros _. by exists v, rd.
    + done.
    + intros q d' Hq Hd'. apply elem_of_app in Hq as [Hq| ->%list_elem_of_singleton].
      * destruct (HT q d' Hq Hd') as [H1 H2]. split; [set_solver|done].
      * rewrite E in Hd'. injection Hd' as <-. split; [set_solver|]. congruence.
  - split; [done|]. intros q d' [Hq| ->%list_elem_of_singleton]%elem_of_app; [by apply HT|congruence].
  - split; [done|]. intros q d' [Hq| ->%list_elem_of_singleton]%elem_of_app; [by apply HT|congruence].
Qed.

Lemma track_all ps : tracked ps (foldl (trackPeer au) (mkTracker ∅ []) ps).
Proof.
  induction ps as [|p ps IH] using rev_ind; [split; [constructor|]; intros p d Hp; by apply elem_of_nil in Hp|].
  rewrite foldl_app. by apply trackPeer_tracked.
Qed.

Lemma group_unique {A B} (l : list (A * B)) k v w : NoDup l.*1 → (k, v) ∈ l → (k, w) ∈ l → v = w.
Proof.
  intros Hnd Hv Hw. apply list_elem_of_lookup in Hv as [i Hi], Hw as [j Hj].
  assert (i = j) as -> by (eapply (NoDup_lookup l.*1 i j k); [done|by rewrite list_lookup_fmap, Hi|by rewrite list_lookup_fmap, Hj]).
  congruence.
Qed.

(** Of the peers that the tailnet lock keeps of a network map, none has a key that the
    signature of another has rotated out, and of those whose rotations go back to one
    direct signature (a node cloned with its keys) at most one key is left. *)
Theorem rotation_enforced (nm : NetworkMap) b f p q d :
  lbTKA b = Some (au, f) →
  p ∈ nmPeers (tkaFilterNetmapLocked nm b).1 → q ∈ nmPeers (tkaFilterNetmapLocked nm b).1 →
  lockVerdict au p = Some (Some d) →
  (ndKey q ∉ PrevNodeKeys d) ∧
  ∀ d', lockVerdict au q = Some (Some d') → initialDirect d = true → initialDirect d' = true →
    WrappingPubkey d = WrappingPubkey d' → ndKey p = ndKey q.
Proof.
  intros HT. unfold tkaFilterNetmapLocked. rewrite HT. cbn [fst withNMPeers nmPeers]. set (ps := nmPeers nm).
  intros [Kp Hp]%list_elem_of_filter [Kq Hq]%list_elem_of_filter Vp.
  assert (∀ x, Is_true (tkaKeeps au ps x) → ndKey x ∉ rotatedOut au ps) as HK.
  { intros x Hx%Is_true_true. unfold tkaKeeps in Hx. apply andb_true_iff in Hx as [_ Hx]. by apply bool_decide_eq_true in Hx. }
  apply HK in Kp, Kq. unfold rotatedOut, obsoleteKeys in Kp, Kq. destruct (track_all ps) as [Hnd HTr].
  set (r := foldl (trackPeer au) _ ps) in *. pose proof (foldl_group_grows (obsolete r) (byWrappingKey r).*2) as Hg.
  destruct (HTr p d Hp Vp) as [Hprev Hdir]. split.
  - intros Hk%Hprev. set_solver.
  - intros d' Vq Dp Dq HW. destruct (HTr q d' Hq Vq) as [_ Hdir'].
    destruct (Hdir Dp) as (v & x & V1 & V2 & Ex). destruct (Hdir' Dq) as (v' & y & V3 & V4 & Ey).
    rewrite <-Ex, <-Ey in *. rewrite <-HW in V3. rewrite (group_unique _ _ _ _ Hnd V3 V1) in V4.
    apply (foldl_group_one (obsolete r) (byWrappingKey r).*2 v); try done. apply list_elem_of_fmap. by exists (WrappingPubkey d, v).
Qed.
End rotation.

(** ** Routes *)
Lemma lpm_best {V} (l : list (Prefix * V)) ip :
  match foldl (lpmStep ip) None l with
  | Some (n, v) => (∃ p, (p, v) ∈ l ∧ Contains p ip = true ∧ Bits p = n) ∧ ∀ e, e ∈ l → Contains e.1 ip = true → Bits e.1 ≤ n
  | None => ∀ e, e ∈ l → Contains e.1 ip = false
  end.
Proof.
  induction l as [|[p v] l IH] using rev_ind; [intros e He; by apply elem_of_nil in He|].
  rewrite foldl_app. cbn [foldl]. unfold lpmStep at 1. cbn [fst snd].
  assert (∀ e, e ∈ l ++ [(p, v)] ↔ e ∈ l ∨ e = (p, v)) as Hin by (intros e; by rewrite elem_of_app, list_elem_of_singleton).
  destruct (foldl (lpmStep ip) None l) as [[n w]|].
  - destruct IH as [(p' & H1 & H2 & H3) H4]. destruct (Contains p ip) eqn:EC; cbn [andb].
    + destruct (Z.leb_spec n (Bits p)).
      * split; [exists p; split; [apply Hin; by right|done]|]. intros e [He| ->]%Hin Hc; [specialize (H4 e He Hc); lia|done].
      * split; [exists p'; split; [apply Hin; by left|done]|]. intros e [He| ->]%Hin Hc; [by apply H4|cbn; lia].
    + split; [exists p'; split; [apply Hin; by left|done]|]. intros e [He| ->]%Hin Hc; [by apply H4|cbn in Hc; congruence].
  - destruct (Contains p ip) eqn:EC; cbn [andb].
    + split; [exists p; split; [apply Hin; by right|done]|]. intros e [He| ->]%Hin Hc; [by rewrite (IH e He) in Hc|done].
    + intros e [He| ->]%Hin; [by apply IH|done].
Qed.

Section routes.
Context `{TailTypes}.
Implicit Types (p : Node) (nm : NetworkMap).

(** A peer that is part of the configuration. *)
Definition usable p : Prop :=
  (ndDiscoKey p ≠ 0 ∨ ndHomeDERP p ≠ 0 ∨ nfIsWireGuardOnly (ndFixed p) = true) ∧ nfExpired (ndFixed p) = false.

Lemma wgPeers_elem flags exitNode ps w :
  w ∈ wgPeers flags exitNode ps ↔ ∃ p, p ∈ ps ∧ usable p ∧
    w = mkWGPeer (ndKey p) (ndDiscoKey p) (filter (givenTo flags exitNode p) (allowedOf p))
          (nfV4MasqAddr (ndFixed p)) (nfV6MasqAddr (ndFixed p)) (nfIsJailed (ndFixed p)) 0.
Proof.
  induction ps as [|p ps IH]; cbn [wgPeers]; [by setoid_rewrite elem_of_nil; split; [|intros (? & ? & _)]|].
  assert (∀ P : Node → Prop, (∃ x, x ∈ p :: ps ∧ P x) ↔ P p ∨ ∃ x, x ∈ ps ∧ P x) as Hex.
  { intros P. setoid_rewrite elem_of_cons. split; [intros (x & [->|] & ?); eauto|intros [|(x & ? & ?)]; eauto]. }
  rewrite Hex. unfold usable at 1. destruct (_ && _) eqn:E1.
  - rewrite !andb_true_iff, !Z.eqb_eq, negb_true_iff in E1. destruct E1 as [[-> ->] ->]. rewrite IH. intuition congruence.
  - assert (ndDiscoKey p ≠ 0 ∨ ndHomeDERP p ≠ 0 ∨ nfIsWireGuardOnly (ndFixed p) = true) as HU.
    { rewrite !andb_false_iff, !Z.eqb_neq, negb_false_iff in E1. tauto. }
    destruct (nfExpired (ndFixed p)) eqn:E2; [rewrite IH; intuition congruence|]. rewrite elem_of_cons, IH. tauto.
Qed.

Lemma givenTo_true flags exitNode p pfx : givenTo flags exitNode p pfx = true →
  (Bits pfx = 0 → nfStableID (ndFixed p) = exitNode) ∧ (cidrIsSubnet p pfx = true → Z.land flags AllowSubnetRoutes ≠ 0).
Proof.
  unfold givenTo. case_decide as E; [done|]. intros HG. split.
  - intros H0. destruct (decide (nfStableID (ndFixed p) = exitNode)); [done|]. by destruct E.
  - intros HS. rewrite HS in HG. apply negb_true_iff, Z.eqb_neq in HG. done.
Qed.

(** The routes of the configuration, with the peers they lead to. *)
Lemma wg_routes flags exitNode ps pfx k :
  (pfx, k) ∈ (wgPeers flags exitNode ps ≫= λ w, (λ pfx, (pfx, wpKey w)) <$> wpAllowedIPs w) ↔
  ∃ p, p ∈ ps ∧ usable p ∧ ndKey p = k ∧ pfx ∈ allowedOf p ∧ givenTo flags exitNode p pfx = true.
Proof.
  rewrite list_elem_of_bind. split.
  - intros (w & Hpk & Hw). apply list_elem_of_fmap in Hpk as (x & [= -> ->] & Hx). apply wgPeers_elem in Hw as (p & Hp & HU & ->).
    cbn in *. apply list_elem_of_filter in Hx as [HG%Is_true_true Hx]. by exists p.
  - intros (p & Hp & HU & <- & Ha & HG). eexists. rewrite wgPeers_elem. split; [|by exists p]. apply list_elem_of_fmap.
    exists pfx. split; [done|]. cbn. apply list_elem_of_filter. by rewrite HG.
Qed.

(** The routes of the configuration: the longest prefix with the destination. *)
Definition routedBy nm flags (exitNode : string) (dst : Addr) (r : option Z) : Prop :=
  match r with
  | Some k => ∃ p pfx, p ∈ nmPeers nm ∧ usable p ∧ ndKey p = k ∧ pfx ∈ allowedOf p ∧ Contains pfx dst = true ∧
      (Bits pfx = 0 → nfStableID (ndFixed p) = exitNode) ∧
      (cidrIsSubnet p pfx = true → Z.land flags AllowSubnetRoutes ≠ 0) ∧
      ∀ p' pfx', p' ∈ nmPeers nm → usable p' → pfx' ∈ allowedOf p' → givenTo flags exitNode p' pfx' = true →
        Contains pfx' dst = true → Bits pfx' ≤ Bits pfx
  | None => ∀ p pfx, p ∈ nmPeers nm → usable p → pfx ∈ allowedOf p → givenTo flags exitNode p pfx = true →
      Contains pfx dst = false
  end.
Lemma routes_longest {HB : BartTable} {HL : BartTableLaw HB} nm flags exitNode dst :
  routedBy nm flags exitNode dst (btLookup (routeTable (wgPeers flags exitNode (nmPeers nm))) dst).
Proof.
  rewrite routeTable_lookup. unfold lpm, routedBy.
  set (l := _ ≫= _). pose proof (lpm_best l dst) as HB'. destruct (foldl (lpmStep dst) None l) as [[n k]|]; cbn [fmap option_fmap option_map snd].
  - destruct HB' as [(pfx & Hin & Hc & <-) Hmax]. apply wg_routes in Hin as (p & Hp & HU & Hk & Ha & HG).
    destruct (givenTo_true _ _ _ _ HG) as [G1 G2]. exists p, pfx. split_and!; try done. intros p' pfx' Hp' HU' Ha' HG'.
    apply (Hmax (pfx', ndKey p')), wg_routes. by exists p'.
  - intros p pfx Hp HU Ha HG. apply (HB' (pfx, ndKey p)), wg_routes. by exists p.
Qed.

(** The index of addresses: the node of an address, if some node has it. *)
Lemma addNodeAddr_lookup (m : gmap Addr Z) n a : addNodeAddr m n !! a = if decide (a ∈ addrsOf n) then Some (ndID n) else m !! a.
Proof.
  unfold addNodeAddr. induction (addrsOf n) as [|x l IH] using rev_ind; [by rewrite decide_False by apply not_elem_of_nil|].
  rewrite foldl_app. cbn [foldl]. destruct (decide (x = a)) as [->|Hne].
  - rewrite lookup_insert_eq, decide_True; [done|]. rewrite elem_of_app, list_elem_of_singleton. by right.
  - rewrite lookup_insert_ne, IH by done. apply decide_ext. rewrite elem_of_app, list_elem_of_singleton. naive_solver.
Qed.
Lemma addrIndex ns a :
  match foldl addNodeAddr ∅ ns !! a with
  | Some id => ∃ n, n ∈ ns ∧ ndID n = id ∧ a ∈ addrsOf n
  | None => ∀ n, n ∈ ns → a ∉ addrsOf n
  end.
Proof.
  induction ns as [|n ns IH] using rev_ind; [cbn [foldl]; rewrite lookup_empty; intros n Hn; by apply elem_of_nil in Hn|].
  rewrite foldl_app. cbn [foldl]. rewrite addNodeAddr_lookup. case_decide as Hd.
  - exists n. rewrite elem_of_app, list_elem_of_singleton. auto.
  - destruct (_ !! a); [destruct IH as (n' & ? & ? & ?); exists n'; rewrite elem_of_app; auto|].
    intros n' [?| ->%list_elem_of_singleton]%elem_of_app; auto.
Qed.
Lemma peerIndex (ns : list Node) id :
  match foldl (λ ps p, <[ndID p := p]> ps) (∅ : gmap Z Node) ns !! id with
  | Some n => n ∈ ns ∧ ndID n = id
  | None => ∀ n, n ∈ ns → ndID n ≠ id
  end.
Proof.
  induction ns as [|n ns IH] using rev_ind; [cbn [foldl]; rewrite lookup_empty; intros n Hn; by apply elem_of_nil in Hn|].
  rewrite foldl_app. cbn [foldl]. rewrite lookup_insert. case_decide as Hd.
  - rewrite elem_of_app, list_elem_of_singleton. auto.
  - destruct (_ !! id); [rewrite elem_of_app; naive_solver|]. intros n' [?| ->%list_elem_of_singleton]%elem_of_app; auto.
Qed.

(** What [lookupPeerByIP] answers: the key of the node that has the address. *)
Lemma lookupPeerByIP_spec nm nb ip :
  match lookupPeerByIP (SetNetMap (Some nm) nb) ip with
  | Some k => ∃ n n', n ∈ allNodes nm ∧ ip ∈ addrsOf n ∧ n' ∈ allNodes nm ∧ ndID n' = ndID n ∧ ndKey n' = k
  | None => ∀ n, n ∈ allNodes nm → ip ∉ addrsOf n
  end.
Proof.
  unfold lookupPeerByIP, NodeByAddr, NodeByID, SetNetMap. cbn [nodeByAddr nbNetMap nbPeers mbind option_bind].
  pose proof (addrIndex (allNodes nm) ip) as HA. destruct (_ !! ip) as [id|]; [|done]. cbn [mbind option_bind].
  destruct HA as (n & Hn & <- & Ha). pose proof (peerIndex (nmPeers nm) (ndID n)) as HP.
  destruct (nmSelfNode nm) as [self|] eqn:Es; [case_decide as Hd|].
  - exists n, self. split_and!; try done. unfold allNodes. rewrite Es. by left.
  - destruct (_ !! ndID n) as [n'|]; cbn [mbind option_bind].
    + destruct HP as [Hp Hi]. exists n, n'. split_and!; try done. unfold allNodes. apply elem_of_app. by right.
    + exfalso. unfold allNodes in Hn. rewrite Es in Hn. cbn [option_list app] in Hn.
      apply elem_of_cons in Hn as [->|Hn]; [done|by eapply HP].
  - destruct (_ !! ndID n) as [n'|]; cbn [mbind option_bind].
    + destruct HP as [Hp Hi]. exists n, n'. split_and!; try done. unfold allNodes. apply elem_of_app. by right.
    + exfalso. unfold allNodes in Hn. rewrite Es in Hn. by eapply HP.
Qed.

(** C17: when a whole network map has been installed, a packet to an address of a node of
    the map goes to that node, by the backend's fast path, which the engine asks first; it
    does so whether or not the peer is in use.  Any other
    packet goes to a peer of the map that is in use and announces a prefix with the
    destination: by a default route only if that peer is the chosen exit node, by a route
    to a subnet only if such routes are accepted, and by the longest of the prefixes given
    to any peer.  A packet goes nowhere only if no node has its destination and no such
    prefix holds it. *)
Theorem packets_routed {HB : BartTable} {HL : BartTableLaw HB} pk nm nb flags exitNode dst e :
  let cfg := WGCfg pk nm flags exitNode in
  let r := peerByIPPacket (Some (lookupPeerByIP (SetNetMap (Some nm) nb))) dst (withRoutes (routeTable (wcPeers cfg)) e) in
  (∃ n n', n ∈ allNodes nm ∧ dst ∈ addrsOf n ∧ n' ∈ allNodes nm ∧ ndID n' = ndID n ∧ r = Some (ndKey n')) ∨
  (∀ n, n ∈ allNodes nm → dst ∉ addrsOf n) ∧ routedBy nm flags exitNode dst r.
Proof.
  cbv zeta. cbn [peerByIPPacket peerByIPRoute withRoutes WGCfg wcPeers mbind option_bind].
  pose proof (lookupPeerByIP_spec nm nb dst) as HF. destruct (lookupPeerByIP _ dst) as [k|].
  - left. destruct HF as (n & n' & H1 & H2 & H3 & H4 & <-). by exists n, n'.
  - right. split; [done|apply routes_longest].
Qed.
End routes.

(** ** When the configuration is renewed *)
Section reconfig.
Context `{TailTypes}.
Implicit Types (n : Node) (ps mut : gmap Z Node) (nb : nodeBackend) (b : LocalBackend) (m : NodeMutation).

(** What the configuration takes from a peer. *)
Definition wgView (flags : Z) (exitNode : string) n : Z * list WGPeer := (ndID n, wgPeers flags exitNode [n]).
Lemma wgPeers_bind flags exitNode (l : list Node) : wgPeers flags exitNode l = (wgView flags exitNode <$> l) ≫= snd.
Proof. induction l as [|p l IH]; [done|]. cbn. rewrite IH. by repeat case_match. Qed.

Lemma insertBy_fmap {A B} (key : A → Z) (key' : B → Z) (g : A → B) x l : (∀ x, key' (g x) = key x) →
  g <$> insertBy key x l = insertBy key' (g x) (g <$> l).
Proof. intros Hg. induction l as [|y l IH]; [done|]. cbn. rewrite !Hg. case_decide; [done|]. cbn. by rewrite IH. Qed.
Lemma sortBy_fmap {A B} (key : A → Z) (key' : B → Z) (g : A → B) l : (∀ x, key' (g x) = key x) →
  g <$> sortBy key l = sortBy key' (g <$> l).
Proof.
  intros Hg. induction l as [|x l IH]; [done|]. unfold sortBy in *. cbn [foldr fmap list_fmap]. rewrite (insertBy_fmap key key') by done.
  by rewrite IH.
Qed.

(** The configuration depends on the views of the peers only. *)
Lemma wgPeers_views flags exitNode ps ps' : wgView flags exitNode <$> ps = wgView flags exitNode <$> ps' →
  wgPeers flags exitNode (sortedPeers ps) = wgPeers flags exitNode (sortedPeers ps').
Proof.
  intros HV. rewrite !wgPeers_bind. f_equal. unfold sortedPeers. rewrite !(sortBy_fmap ndID fst) by done. f_equal.
  assert (∀ q : gmap Z Node, wgView flags exitNode <$> (map_to_list q).*2 = (map_to_list (wgView flags exitNode <$> q)).*2) as HQ.
  { intros q. rewrite map_to_list_fmap, <-!list_fmap_compose. apply list_fmap_ext. by intros ? [] _. }
  by rewrite !HQ, HV.
Qed.

(** Peers for which the DERP region does not decide whether they are in use. *)
Definition hasDisco n : Prop := ndDiscoKey n ≠ 0 ∨ nfIsWireGuardOnly (ndFixed n) = true.
Lemma Apply_view flags exitNode m n : hasDisco n → wgView flags exitNode (Apply m n) = wgView flags exitNode n ∧ hasDisco (Apply m n).
Proof.
  intros Hd. split; [|by destruct m]. unfold wgView, wgPeers. cbn.
  assert ((ndDiscoKey n =? 0)%Z && negb (nfIsWireGuardOnly (ndFixed n)) = false) as E.
  { destruct Hd as [Hd%Z.eqb_neq| ->]; [by rewrite Hd|]. by rewrite andb_false_r. }
  assert (∀ v, (ndDiscoKey n =? 0)%Z && v && negb (nfIsWireGuardOnly (ndFixed n)) = false) as E'.
  { intros v. apply andb_false_iff in E as [-> | ->]; [done|]. by rewrite andb_false_r. }
  destruct m; cbn; by rewrite ?E'.
Qed.

Lemma deltaLoop_fields flags exitNode l mut nb : forallb isField l = true → map_Forall (λ _, hasDisco) (nbPeers nb) →
  map_Forall (λ id n, hasDisco n ∧ ∃ n0, nbPeers nb !! id = Some n0 ∧ wgView flags exitNode n = wgView flags exitNode n0) mut →
  let '(_, mut', nb') := deltaLoop l mut nb in nb' = nb ∧
  map_Forall (λ id n, ∃ n0, nbPeers nb !! id = Some n0 ∧ wgView flags exitNode n = wgView flags exitNode n0) mut'.
Proof.
  intros Hl Hd. revert mut. induction l as [|m l IH]; intros mut Hmut.
  { split; [done|]. intros id n Hn. by destruct (Hmut id n Hn). }
  cbn in Hl. apply andb_true_iff in Hl as [Hm Hl].
  assert (deltaLoop (m :: l) mut nb = match (mut ∪ nbPeers nb) !! NodeIDBeingMutated m with
    | Some n => deltaLoop l (<[NodeIDBeingMutated m := Apply m n]> mut) nb
    | None => (false, mut, nb) end) as ->.
  { rewrite lookup_union. destruct m; try done; cbn; destruct (mut !! id), (nbPeers nb !! id); done. }
  destruct (_ !! NodeIDBeingMutated m) as [n|] eqn:En; last first.
  { split; [done|]. intros id n Hn. by destruct (Hmut id n Hn). }
  apply IH; [done|]. apply map_Forall_insert_2; [|done].
  assert (hasDisco n ∧ ∃ n0, nbPeers nb !! NodeIDBeingMutated m = Some n0 ∧ wgView flags exitNode n = wgView flags exitNode n0) as (Hn & n0 & H1 & H2).
  { apply lookup_union_Some_raw in En as [En|[_ En]]; [by apply Hmut|]. split; [by eapply Hd|by exists n]. }
  destruct (Apply_view flags exitNode m n Hn) as [Hv Hn']. split; [done|]. exists n0. by rewrite Hv.
Qed.

Lemma fields_keep_views flags exitNode l nb : forallb isField l = true → map_Forall (λ _, hasDisco) (nbPeers nb) →
  let nb' := (nbUpdateNetmapDelta l nb).2 in
  wgView flags exitNode <$> nbPeers nb' = wgView flags exitNode <$> nbPeers nb ∧ nbNetMap nb' = nbNetMap nb.
Proof.
  intros Hl Hd. unfold nbUpdateNetmapDelta. destruct (nbNetMap nb) as [nm|] eqn:EN; [|done].
  pose proof (deltaLoop_fields flags exitNode l ∅ nb Hl Hd (map_Forall_empty _)) as HL.
  destruct (deltaLoop l ∅ nb) as [[[] mut] nb']; destruct HL as [-> HL]; [|done]. split; [|done]. cbn.
  apply map_eq. intros id. rewrite !lookup_fmap, lookup_union. destruct (mut !! id) as [n|] eqn:E.
  - destruct (HL id n E) as (n0 & -> & HV). cbn. by rewrite HV.
  - by destruct (nbPeers nb !! id).
Qed.

Lemma upserts_reconfigure muts b : let '(muts', _) := tkaFilterDeltaMutsLocked muts b in
  peersUpsertedOrRemoved muts' = true →
  AuthReconfig ∈ drop (length (lbActions b)) (lbActions (lbUpdateNetmapDelta muts b).2).
Proof.
  unfold lbUpdateNetmapDelta. destruct (tkaFilterDeltaMutsLocked muts b) as [muts' b1] eqn:E. intros HU. rewrite HU, orb_true_r.
  assert (lbActions b = lbActions b1) as ->.
  { unfold tkaFilterDeltaMutsLocked in E. destruct (lbTKA b) as [[]|]; by injection E as <- <-. }
  destruct (_ && _); destruct (_ && _); destruct (negb _); try destruct (selfHasCap _ _); cbn [orb snd doing lbActions withNode];
    rewrite <-!app_assoc, drop_app_length, !elem_of_app, !list_elem_of_singleton; tauto.
Qed.

Lemma no_upserts_fields l : peersUpsertedOrRemoved l = false → forallb isField l = true.
Proof. induction l as [|m l IH]; [done|]. cbn. rewrite orb_false_iff, negb_false_iff. intros [-> ?]. by apply IH. Qed.

(** A batch of mutations after which the backend does not reconfigure the engine has
    not changed the WireGuard configuration, as long as the peers have disco keys or are
    plain WireGuard peers: every added, removed or replaced peer makes it reconfigure,
    and no change of a field needs to. *)
Theorem reconfig_when_needed muts b nm nm' pk flags exitNode :
  map_Forall (λ _, hasDisco) (nbPeers (lbNode b)) →
  AuthReconfig ∉ drop (length (lbActions b)) (lbActions (lbUpdateNetmapDelta muts b).2) →
  netMapWithPeers (lbNode b) = Some nm → netMapWithPeers (lbNode (lbUpdateNetmapDelta muts b).2) = Some nm' →
  WGCfg pk nm flags exitNode = WGCfg pk nm' flags exitNode.
Proof.
  intros Hd HA. pose proof (upserts_reconfigure muts b) as HU. pose proof (lbUpdateNetmapDelta_state muts b) as HS.
  destruct (tkaFilterDeltaMutsLocked muts b) as [muts' b1]. cbv zeta in HS. destruct HS as [HN _].
  destruct (peersUpsertedOrRemoved muts') eqn:EU; [by destruct HA; apply HU|]. rewrite HN.
  destruct (fields_keep_views flags exitNode muts' (lbNode b) (no_upserts_fields _ EU) Hd) as [HV HM].
  unfold netMapWithPeers. rewrite HM. destruct (nbNetMap (lbNode b)); [|done]. cbn. intros [= <-] [= <-]. unfold WGCfg. cbn. f_equal.
  by rewrite (wgPeers_views _ _ _ _ HV).
Qed.

(** ** Fields of unknown peers *)
Lemma deltaLoop_unknown l mut nb id : Forall (λ m, isField m = true ∨ NodeIDBeingMutated m ≠ id) l →
  nbPeers (deltaLoop l mut nb).2 !! id = nbPeers nb !! id.
Proof.
  intros HF. revert mut nb. induction HF as [|m l Hm _ IH]; intros mut nb; [done|].
  destruct m; cbn [deltaLoop NodeIDBeingMutated isField] in *.
  5: { destruct Hm as [|Hm]; [done|]. rewrite IH. cbn. by rewrite lookup_insert_ne. }
  5: { destruct Hm as [|Hm]; [done|]. rewrite IH, nbRemove_peers. by rewrite lookup_delete_ne. }
  all: destruct (mut !! id0); [by rewrite IH|]; destruct (nbPeers nb !! id0); [by rewrite IH|done].
Qed.

(** The loop stops at the field of a peer that is not there. *)
Lemma deltaLoop_stops l m l' mut nb : isField m = true →
  mut !! NodeIDBeingMutated m = None → nbPeers nb !! NodeIDBeingMutated m = None →
  Forall (λ x, NodeIDBeingMutated x ≠ NodeIDBeingMutated m) l →
  let '(ok, _, nb') := deltaLoop (l ++ m :: l') mut nb in ok = false ∧ nb' = (deltaLoop l mut nb).2.
Proof.
  intros Hf Hmut Hnb HF. revert mut nb Hmut Hnb. induction HF as [|x l Hx _ IH]; intros mut nb Hmut Hnb.
  { cbn [app]. destruct m; try done; cbn [deltaLoop NodeIDBeingMutated] in *; by rewrite Hmut, Hnb. }
  destruct x; cbn [app deltaLoop NodeIDBeingMutated] in *.
  5: { apply IH; [done|]. cbn. by rewrite lookup_insert_ne. }
  5: { apply IH; [done|]. rewrite nbRemove_peers. by rewrite lookup_delete_ne. }
  all: destruct (mut !! id) as [y|]; [apply IH; [by rewrite lookup_insert_ne|done]|];
    destruct (nbPeers nb !! id); [apply IH; [by rewrite lookup_insert_ne|done]|done].
Qed.

(** When one field of a batch names a peer that is not there, the current node drops
    the fields of all the others, before and after it, and the upserts and removals that
    come after it; the session is told that the batch was handled. *)
Theorem unknown_peer_drops_batch muts m muts' b nm :
  lbTKA b = None → nbNetMap (lbNode b) = Some nm →
  isField m = true → nbPeers (lbNode b) !! NodeIDBeingMutated m = None →
  Forall (λ x, NodeIDBeingMutated x ≠ NodeIDBeingMutated m) muts →
  let '(handled, b') := lbUpdateNetmapDelta (muts ++ m :: muts') b in
  handled = true ∧
  ∀ id, Forall (λ x, isField x = true ∨ NodeIDBeingMutated x ≠ id) muts →
    nbPeers (lbNode b') !! id = nbPeers (lbNode b) !! id.
Proof.
  intros HT HN Hf Hm HF. destruct (lbUpdateNetmapDelta_node (muts ++ m :: muts') b HT) as (H1 & H2 & _).
  destruct (lbUpdateNetmapDelta _ b) as [h b']. cbn in H1, H2. split; [done|]. intros id Hid. rewrite H2.
  unfold nbUpdateNetmapDelta. rewrite HN.
  pose proof (deltaLoop_stops muts m muts' ∅ (lbNode b) Hf (lookup_empty _) Hm HF) as HS.
  destruct (deltaLoop _ _ _) as [[ok mut] nb']. destruct HS as [-> ->]. cbn. by apply deltaLoop_unknown.
Qed.
End reconfig.

(** ** Examples *)
#[local] Existing Instance exTypes.

Definition withSig (s : bytes) (n : Node) : Node :=
  mkNd (ndID n) (ndFixed n) (ndKey n) (ndKeyExpiry n) (Some s) (ndDiscoKey n) (ndEndpoints n) (ndHomeDERP n) (ndCap n) (ndCapMap n)
    (ndOnline n) (ndLastSeen n).
(** The signature [[1]] is a direct one; [[2]] rotates the key 101 out. *)
Definition exAuthority : Authority := λ _ s,
  if decide (s = [1]) then Some None
  else if decide (s = [2]) then Some (Some (mkRotation [101] true [7])) else None.
Definition exLocked : LocalBackend := mkLB newNodeBackend (Some (exAuthority, ∅)) "" false "" [].
Definition exMap (ps : list Node) : NetworkMap := mkNetMap (Some exSelf) ∅ ps tt [] [] None false None "" "" ∅.

Lemma lock_enforced_witness :
  let b := foldl runOp exLocked [OpNetMap (exMap [withSig [1] exPeer1]); OpDelta [NodeMutationUpsert exPeer2]] in
  is_Some (nbPeers (lbNode b) !! 1) ∧ nbPeers (lbNode b) !! 2 = None ∧ is_Some (exAuthority 101 [1]).
Proof.
  cbv zeta. split; [vm_compute; by eexists|]. split; [vm_compute; reflexivity|].
  destruct (lock_enforced exAuthority [OpNetMap (exMap [withSig [1] exPeer1]); OpDelta [NodeMutationUpsert exPeer2]] exLocked ∅
    eq_refl eq_refl 1 (withSig [1] exPeer1)) as [HU|[_ HS]]; [vm_compute; reflexivity|discriminate HU|exact HS].
Defined.

Lemma rotation_enforced_witness :
  nmPeers (tkaFilterNetmapLocked (exMap [withSig [1] exPeer1; withSig [2] exPeer2]) exLocked).1 = [withSig [2] exPeer2] ∧
  (102 ∉ [101]).
Proof.
  assert (nmPeers (tkaFilterNetmapLocked (exMap [withSig [1] exPeer1; withSig [2] exPeer2]) exLocked).1 = [withSig [2] exPeer2]) as HE
    by (vm_compute; reflexivity).
  split; [exact HE|]. assert (withSig [2] exPeer2 ∈ nmPeers (tkaFilterNetmapLocked (exMap [withSig [1] exPeer1; withSig [2] exPeer2]) exLocked).1)
    as HI by (rewrite HE; by left).
  destruct (rotation_enforced exAuthority (exMap [withSig [1] exPeer1; withSig [2] exPeer2]) exLocked ∅ (withSig [2] exPeer2) (withSig [2] exPeer2)
    (mkRotation [101] true [7]) eq_refl HI HI eq_refl) as [HN _]. exact HN.
Defined.

(** The filter of mutations lacks the rule about rotated keys: a key that a full map
    drops, because the signature of another peer has rotated it out, stays when its node
    comes as a mutation. *)
Theorem rotated_key_by_delta :
  let old := withSig [1] exPeer1 in
  let new := withSig [2] exPeer2 in
  nbPeers (lbNode (foldl runOp exLocked [OpNetMap (exMap [old; new])])) !! 1 = None ∧
  nbPeers (lbNode (foldl runOp exLocked [OpNetMap (exMap [new]); OpDelta [NodeMutationUpsert old]])) !! 1 = Some old.
Proof. split; vm_compute; reflexivity. Qed.

Definition exTwo : LocalBackend := installNetMap (exMap [exPeer1; exPeer2]) exBackend.
Lemma reconfig_when_needed_witness : ∃ nm nm',
  netMapWithPeers (lbNode exTwo) = Some nm ∧
  netMapWithPeers (lbNode (lbUpdateNetmapDelta [NodeMutationOnline 1 true] exTwo).2) = Some nm' ∧
  WGCfg 5 nm 0 "" = WGCfg 5 nm' 0 "".
Proof.
  destruct (netMapWithPeers (lbNode exTwo)) as [nm|] eqn:E1; [|vm_compute in E1; discriminate E1].
  destruct (netMapWithPeers (lbNode (lbUpdateNetmapDelta [NodeMutationOnline 1 true] exTwo).2)) as [nm'|] eqn:E2;
    [|vm_compute in E2; discriminate E2].
  exists nm, nm'. split; [reflexivity|]. split; [reflexivity|].
  apply (reconfig_when_needed [NodeMutationOnline 1 true] exTwo nm nm' 5 0 ""); [|vm_compute; set_solver|exact E1|exact E2].
  intros id n Hn. left. revert Hn. change (nbPeers (lbNode exTwo)) with (<[2 := exPeer2]> (<[1 := exPeer1]> (∅ : gmap Z Node))).
  rewrite lookup_insert_Some. intros [[_ <-]|[_ Hn]]; [discriminate|]. apply lookup_insert_Some in Hn as [[_ <-]|[_ Hn]]; [discriminate|].
  by rewrite lookup_empty in Hn.
Defined.

Lemma unknown_peer_drops_batch_witness :
  nbPeers (lbNode (lbUpdateNetmapDelta ([NodeMutationOnline 1 true] ++ NodeMutationOnline 7 true :: [NodeMutationUpsert exSelf]) exTwo).2) !! 1 =
    Some exPeer1.
Proof.
  pose proof (unknown_peer_drops_batch [NodeMutationOnline 1 true] (NodeMutationOnline 7 true) [NodeMutationUpsert exSelf] exTwo
    (exMap [exPeer1; exPeer2]) eq_refl eq_refl eq_refl eq_refl) as HT.
  destruct (lbUpdateNetmapDelta _ exTwo) as [h b']. cbn [snd]. destruct HT as [_ HI]; [repeat constructor; discriminate|].
  rewrite HI by (repeat constructor). vm_compute. reflexivity.
Defined.

Definition exExit : Node := withFixed (upgradedFixed (exFixed "exit" [AllIPv4])) exPeer2.
Lemma packets_routed_witness : ∃ p pfx, p ∈ nmPeers (exMap [upgradeNode exPeer1; exExit]) ∧ ndKey p = 102 ∧
  Contains pfx (IPv4 8 8 8 8) = true ∧ (Bits pfx = 0 → nfStableID (ndFixed p) = "exit").
Proof.
  destruct (packets_routed (HB := scanTable) (HL := scanTable_law) 5 (exMap [upgradeNode exPeer1; exExit]) newNodeBackend 0 "exit"
    (IPv4 8 8 8 8) exEngine) as [(n & n' & Hn & Ha & _)|[_ HR]].
  { assert (Forall (λ n, IPv4 8 8 8 8 ∉ addrsOf n) (allNodes (exMap [upgradeNode exPeer1; exExit]))) as HF
      by (apply (bool_decide_unpack _); vm_compute; exact I).
    rewrite Forall_forall in HF. by destruct (HF n Hn). }
  destruct (peerByIPPacket _ _ _) as [k|] eqn:E; [|vm_compute in E; discriminate E].
  vm_compute in E. injection E as <-. destruct HR as (p & pfx & Hp & _ & Hk & _ & Hc & He & _).
  exists p, pfx. split; [exact Hp|]. split; [exact Hk|]. split; [exact Hc|exact He].
Defined.
