(* ===== verification/Paths.v ===== *)
(** * Paths to a peer

    [wgengine/magicsock/endpoint.go]: how an endpoint finds, compares, keeps and gives
    up the addresses of its peer.  Times are numbers of nanoseconds, 0 is the zero
    time; a transaction ID is a number, and [txid] gives the random ones in the order
    in which they are drawn.  What an endpoint starts elsewhere is a list of actions.

    The probing of the lifetime of UDP paths is off, as it is by default, and the
    platform is not js. *)

From stdpp Require Import base gmap sets list strings.
From S2P Require Import Prelude Bytes NetIP TSAddr FlowTrack Packet Filter PeerMap Disco DiscoRx.

(** ** Addresses and their quality *)
Definition IsLoopback (a : Addr) : bool :=
  match Unmap a with
  | Addr4 v => Z.shiftr v 24 =? 127
  | Addr6 v _ => v =? 1
  | AddrZ => false
  end.
Definition IsPrivate (a : Addr) : bool :=
  match Unmap a with
  | Addr4 v => (Z.shiftr v 24 =? 10) || ((Z.shiftr v 24 =? 172) && (Z.land (Z.shiftr v 16) 0xf0 =? 16)) || (Z.shiftr v 16 =? 192 * 256 + 168)
  | Addr6 v _ => Z.land (Z.shiftr v 120) 0xfe =? 0xfc
  | AddrZ => false
  end.

Definition zeroEpAddr : epAddr := mkEpAddr AddrPortZ 0.
Definition directTo (ap : AddrPort) : epAddr := mkEpAddr ap 0.
Definition apIsValid (ap : AddrPort) : bool := IsValid (ap_addr ap).
Definition eaValid (a : epAddr) : bool := apIsValid (eaAP a).
Definition isDirect (a : epAddr) : bool := eaValid a && negb (isDERP a) && negb (isRelay a).

Record addrQuality := mkQuality { aqAddr : epAddr; relayServerDisco : Z; latency : Z; wireMTU : Z }.
Definition zeroQuality : addrQuality := mkQuality zeroEpAddr 0 0 0.

(** The points for the kind of an address. *)
Definition kindPoints (a : Addr) : Z :=
  (if IsLoopback a then 50 else if IsLinkLocalUnicast a then 30 else if IsPrivate a then 20 else 0) +
  (if Is6 a then 10 else 0).
(** The points of the faster of two addresses. *)
Definition latencyPoints (a b : Z) : Z * Z :=
  if (b <? a) && (0 <? a) then (0, 100 - Z.quot (b * 100) a)
  else if 0 <? b then (100 - Z.quot (a * 100) b, 0) else (0, 0).

Definition betterAddr (a b : addrQuality) : bool :=
  if decide (aqAddr a = aqAddr b) then wireMTU b <? wireMTU a
  else if negb (eaValid (aqAddr b)) then true
  else if negb (eaValid (aqAddr a)) then false
  else if negb (isRelay (aqAddr a)) && isRelay (aqAddr b) then true
  else if isRelay (aqAddr a) && negb (isRelay (aqAddr b)) then false
  else
    let '(la, lb) := latencyPoints (latency a) (latency b) in
    let aPoints := la + kindPoints (ap_addr (eaAP (aqAddr a))) in
    let bPoints := lb + kindPoints (ap_addr (eaAP (aqAddr b))) in
    if (aPoints <=? 1) && (bPoints =? 0) then false else bPoints <? aPoints.

(** Sizes of pings and of the packets that carry them. *)
Definition SafeWireMTU : Z := 1280 + 80.
Definition WireMTUsToProbe : list Z := [1280; 1360; 1400; 1500; 8000; 9000].
Definition pingSizeToPktLen (size : Z) (udpAddr : epAddr) : Z :=
  if size =? 0 then SafeWireMTU
  else size + (if Is6 (ap_addr (eaAP udpAddr)) then 40 else 20) + 8 + (if isRelay udpAddr then 8 else 0).
Definition pktLenToPingSize (mtu : Z) (is6 : bool) : Z :=
  if mtu =? 0 then 0
  else let headerLen := (if is6 then 40 else 20) + 8 in if mtu <? headerLen then 0 else mtu - headerLen.

(** ** The state of a candidate *)
Record pongReply := mkPong { poLatency : Z; pongAt : Z; poFrom : AddrPort; poSrc : AddrPort }.
Record endpointState := mkEpState {
  lastPing : Z;
  lastGotPing : Z;
  lastGotPingTxID : Z;
  callMeMaybeTime : Z;
  recentPongs : list pongReply;
  recentPong : Z;
  esIndex : Z
}.
Definition zeroState : endpointState := mkEpState 0 0 0 0 [] 0 0.
Definition withLastPing (t : Z) (st : endpointState) : endpointState :=
  mkEpState t (lastGotPing st) (lastGotPingTxID st) (callMeMaybeTime st) (recentPongs st) (recentPong st) (esIndex st).
Definition withGotPing (t tx : Z) (st : endpointState) : endpointState :=
  mkEpState (lastPing st) t tx (callMeMaybeTime st) (recentPongs st) (recentPong st) (esIndex st).
Definition withCallMeMaybe (t : Z) (st : endpointState) : endpointState :=
  mkEpState (lastPing st) (lastGotPing st) (lastGotPingTxID st) t (recentPongs st) (recentPong st) (esIndex st).
Definition withIndexAt (i : Z) (st : endpointState) : endpointState :=
  mkEpState (lastPing st) (lastGotPing st) (lastGotPingTxID st) (callMeMaybeTime st) (recentPongs st) (recentPong st) i.
Definition clearState (st : endpointState) : endpointState := mkEpState 0 (lastGotPing st) 0 0 [] 0 (esIndex st).

Definition Second : Z := 1000000000.
Definition sessionActiveTimeout : Z := 45 * Second.
Definition upgradeUDPDirectInterval : Z := 60 * Second.
Definition upgradeUDPRelayInterval : Z := 60 * Second.
Definition discoverUDPRelayPathsInterval : Z := 30 * Second.
Definition trustUDPAddrDuration : Z := 6500000000.
Definition goodEnoughLatency : Z := 5000000.
Definition discoPingInterval : Z := 5 * Second.
Definition wireguardPingInterval : Z := 5 * Second.
Definition indexSentinelDeleted : Z := -1.
Definition pongHistoryCount : Z := 64.

(** [wall] is the time of [time.Now]. *)
Definition shouldDelete (wall : Z) (st : endpointState) : bool :=
  if negb (callMeMaybeTime st =? 0) then false
  else if lastGotPing st =? 0 then esIndex st =? indexSentinelDeleted
  else sessionActiveTimeout <? wall - lastGotPing st.

(** The index panics when it is out of range. *)
Definition latencyLocked (st : endpointState) : res () (option Z) :=
  match recentPongs st with
  | [] => Ok None
  | l => match (if 0 <=? recentPong st then l !! Z.to_nat (recentPong st) else None) with
         | Some p => Ok (Some (poLatency p))
         | None => Panic
         end
  end.
Definition addPongReply (r : pongReply) (st : endpointState) : endpointState :=
  let n := zlen (recentPongs st) in
  if n <? pongHistoryCount
  then mkEpState (lastPing st) (lastGotPing st) (lastGotPingTxID st) (callMeMaybeTime st) (recentPongs st ++ [r]) n (esIndex st)
  else
    let i := if recentPong st + 1 =? pongHistoryCount then 0 else recentPong st + 1 in
    mkEpState (lastPing st) (lastGotPing st) (lastGotPingTxID st) (callMeMaybeTime st) (<[Z.to_nat i := r]> (recentPongs st)) i (esIndex st).

(** ** The endpoint *)
Inductive discoPingPurpose : Type := pingDiscovery | pingHeartbeat | pingCLI.
(** [spCB] is the shared [pingResultAndCallback], by number. *)
Record sentPing := mkSentPing { spTo : epAddr; spAt : Z; spPurpose : discoPingPurpose; spSize : Z; spCB : option nat }.

Record Times := mkTimes { lastSendExt : Z; lastSendAny : Z; lastFullPing : Z; lastUDPRelayPathDiscovery : Z; lastRecvWG : Z }.
Record Best := mkBest { bestAddr : addrQuality; bestAddrAt : Z; trustBestAddrUntil : Z }.
Record EpConfig := mkEpConfig {
  ecDisco : option Z; ecDERP : AddrPort; heartbeatDisabled : bool; ecExpired : bool; ecWGOnly : bool; relayCapable : bool
}.
(** The pings in flight, the number of IDs drawn, and the callbacks that were called. *)
Record Pings := mkPings { sent : gmap Z sentPing; drawn : nat; taken : gset nat }.

Inductive EpAction : Type :=
  | SendPing (to : epAddr) (tx size : Z)
  | SendICMP (to : AddrPort)
  | SendCallMeMaybe (derp : AddrPort)
  | SendUDP (to : epAddr)
  | SendDERP (to : AddrPort)
  | DiscoverRelays
  | StopRelays
  | BindAddr (src : epAddr)                (* setNodeKeyForEpAddr *)
  | RelayDERPHome (region : Z)
  | CallBack (cb : nat) (lat : Z) (to : epAddr)
  | CallBackErr (cb : nat).

Record Ep := mkEp {
  eTimes : Times;
  eBest : Best;
  eConfig : EpConfig;
  ePings : Pings;
  eStates : gmap AddrPort endpointState;
  isCallMeMaybeEP : gmap AddrPort bool;
  heartBeatTimer : bool;                   (* the timer is running *)
  eActs : list EpAction
}.
Definition setTimes (t : Times) (e : Ep) : Ep := mkEp t (eBest e) (eConfig e) (ePings e) (eStates e) (isCallMeMaybeEP e) (heartBeatTimer e) (eActs e).
Definition setBest (b : Best) (e : Ep) : Ep := mkEp (eTimes e) b (eConfig e) (ePings e) (eStates e) (isCallMeMaybeEP e) (heartBeatTimer e) (eActs e).
Definition setConfig (c : EpConfig) (e : Ep) : Ep := mkEp (eTimes e) (eBest e) c (ePings e) (eStates e) (isCallMeMaybeEP e) (heartBeatTimer e) (eActs e).
Definition setPings (p : Pings) (e : Ep) : Ep := mkEp (eTimes e) (eBest e) (eConfig e) p (eStates e) (isCallMeMaybeEP e) (heartBeatTimer e) (eActs e).
Definition setStates (m : gmap AddrPort endpointState) (e : Ep) : Ep :=
  mkEp (eTimes e) (eBest e) (eConfig e) (ePings e) m (isCallMeMaybeEP e) (heartBeatTimer e) (eActs e).
Definition setCMM (m : gmap AddrPort bool) (e : Ep) : Ep :=
  mkEp (eTimes e) (eBest e) (eConfig e) (ePings e) (eStates e) m (heartBeatTimer e) (eActs e).
Definition setTimer (b : bool) (e : Ep) : Ep :=
  mkEp (eTimes e) (eBest e) (eConfig e) (ePings e) (eStates e) (isCallMeMaybeEP e) b (eActs e).
Definition acting (l : list EpAction) (e : Ep) : Ep :=
  mkEp (eTimes e) (eBest e) (eConfig e) (ePings e) (eStates e) (isCallMeMaybeEP e) (heartBeatTimer e) (eActs e ++ l).

Definition bestEp (e : Ep) : epAddr := aqAddr (bestAddr (eBest e)).
Definition trustUntil (e : Ep) : Z := trustBestAddrUntil (eBest e).

(** [setBestAddrLocked]. *)
Definition setBestAddr (v : addrQuality) (e : Ep) : Ep := setBest (mkBest v (bestAddrAt (eBest e)) (trustUntil e)) e.
Definition clearBestAddr (e : Ep) : Ep := setBest (mkBest zeroQuality 0 0) e.

Definition deleteCandidate (ep : AddrPort) (e : Ep) : Ep :=
  let e := setStates (delete ep (eStates e)) e in
  if decide (bestEp e = directTo ep) then setBestAddr zeroQuality e else e.

(** ** Which address to use *)
Definition noteRecvActivity (src : epAddr) (now : Z) (e : Ep) : bool * Ep :=
  let e :=
    if ecWGOnly (eConfig e)
    then let q := bestAddr (eBest e) in
         setBest (mkBest (mkQuality (mkEpAddr (eaAP src) (eaVNI (aqAddr q))) (relayServerDisco q) (latency q) (wireMTU q)) now (now + 5 * Second)) e
    else if heartbeatDisabled (eConfig e) && bool_decide (bestEp e = src)
    then setBest (mkBest (bestAddr (eBest e)) (bestAddrAt (eBest e)) (now + trustUDPAddrDuration)) e
    else e in
  let t := eTimes e in
  if 10 * Second <? now - lastRecvWG t
  then (true, setTimes (mkTimes (lastSendExt t) (lastSendAny t) (lastFullPing t) (lastUDPRelayPathDiscovery t) now) e)
  else (false, e).

(** The loop of [addrForWireGuardSendLocked] over the candidates in the order [ord]. *)
Fixpoint wgLoop (ord : list (AddrPort * endpointState)) (lowest oldest : Z) (best : AddrPort) : res () (Z * AddrPort) :=
  match ord with
  | [] => Ok (oldest, best)
  | (ipp, st) :: ord =>
      let oldest := if oldest =? 0 then lastPing st else if lastPing st <? oldest then lastPing st else oldest in
      l ← latencyLocked st;
      match l with
      | Some lat => if (lat <? lowest) || ((lat =? lowest) && Is6 (ap_addr ipp)) then wgLoop ord lat oldest ipp else wgLoop ord lowest oldest best
      | None => wgLoop ord lowest oldest best
      end
  end.
(** [ord] is the order of the iteration and [rnd] the random choice. *)
Definition addrForWireGuardSend (ord : list (AddrPort * endpointState)) (rnd : nat) (now : Z) (e : Ep) : res () (epAddr * bool * Ep) :=
  match ord with
  | [] => Ok (zeroEpAddr, false, e)
  | _ =>
      '(oldest, best) ← wgLoop ord (3600 * Second) 0 AddrPortZ;
      let needPing := (1 <? zlen ord) && (wireguardPingInterval <? now - oldest) in
      let ap := if apIsValid best then best else default AddrPortZ (ord.*1 !! (rnd mod length ord)%nat) in
      let q := bestAddr (eBest e) in
      Ok (directTo ap, needPing,
          setBest (mkBest (mkQuality (directTo ap) (relayServerDisco q) (latency q) (wireMTU q)) (bestAddrAt (eBest e)) (now + Second)) e)
  end.

Definition addrForSend (ord : list (AddrPort * endpointState)) (rnd : nat) (now : Z) (e : Ep) : res () (epAddr * AddrPort * bool * Ep) :=
  let udpAddr := bestEp e in
  if eaValid udpAddr && (now <=? trustUntil e) then Ok (udpAddr, AddrPortZ, false, e)
  else if ecWGOnly (eConfig e) then
    '(udpAddr, shouldPing, e) ← addrForWireGuardSend ord rnd now e;
    Ok (udpAddr, AddrPortZ, shouldPing, e)
  else Ok (udpAddr, ecDERP (eConfig e), false, e).

Definition addrForPingSize (ord : list (AddrPort * endpointState)) (rnd : nat) (now size : Z) (e : Ep) : res () (epAddr * AddrPort * Ep) :=
  if size =? 0 then '(u, d, _, e) ← addrForSend ord rnd now e; Ok (u, d, e)
  else
    let udpAddr := bestEp e in
    if eaValid udpAddr && (pingSizeToPktLen size udpAddr <=? wireMTU (bestAddr (eBest e)))
    then if now <=? trustUntil e then Ok (udpAddr, AddrPortZ, e) else Ok (udpAddr, ecDERP (eConfig e), e)
    else Ok (zeroEpAddr, ecDERP (eConfig e), e).

(** ** Pings *)
Section pings.
(** The IDs in the order of their drawing; whether MTU probing is on and whether there
    are peer relay servers; [MaxDiscoPingSize] depends on the WireGuard library. *)
Context (txid : nat → Z) (peerMTU hasRelayServers : bool) (MaxDiscoPingSize : Z).

Definition noteTxActivityExtTrigger (now : Z) (e : Ep) : Ep :=
  let t := eTimes e in
  let e := setTimes (mkTimes now (lastSendAny t) (lastFullPing t) (lastUDPRelayPathDiscovery t) (lastRecvWG t)) e in
  if negb (heartBeatTimer e) && negb (heartbeatDisabled (eConfig e)) then setTimer true e else e.
Definition noteSendAny (now : Z) (e : Ep) : Ep :=
  let t := eTimes e in setTimes (mkTimes (lastSendExt t) now (lastFullPing t) (lastUDPRelayPathDiscovery t) (lastRecvWG t)) e.

(** One ping of [startDiscoPingLocked]. *)
Definition onePing (ep : epAddr) (now : Z) (purpose : discoPingPurpose) (cb : option nat) (e : Ep) (size : Z) : Ep :=
  let p := ePings e in
  let tx := txid (drawn p) in
  acting [SendPing ep tx size]
    (setPings (mkPings (<[tx := mkSentPing ep now purpose size cb]> (sent p)) (S (drawn p)) (taken p)) e).

Definition pingSizes (ep : epAddr) (purpose : discoPingPurpose) (size : Z) : list Z :=
  if peerMTU && negb (isDERP ep) &&
     match purpose with pingDiscovery => true | pingCLI => size =? 0 | pingHeartbeat => false end
  then (λ mtu, pktLenToPingSize mtu (Is6 (ap_addr (eaAP ep)))) <$> WireMTUsToProbe
  else [size].

Definition isCLI (p : discoPingPurpose) : bool := match p with pingCLI => true | _ => false end.
Definition startDiscoPing (ep : epAddr) (now : Z) (purpose : discoPingPurpose) (size : Z) (cb : option nat) (e : Ep) : Ep :=
  match ecDisco (eConfig e) with
  | None => e
  | Some _ =>
      let known := isCLI purpose || isRelay ep || bool_decide (is_Some (eStates e !! eaAP ep)) in
      if negb known then e
      else
        let e := if isCLI purpose || isRelay ep then e else setStates (alter (withLastPing now) (eaAP ep) (eStates e)) e in
        let e := if isCLI purpose then noteTxActivityExtTrigger now e else e in
        foldl (onePing ep now purpose cb) (noteSendAny now e) (pingSizes ep purpose size)
  end.

(** The loop of [sendDiscoPingsLocked], with [sentAny]. *)
Definition pingCandidate (wall now : Z) (x : bool * Ep) (c : AddrPort * endpointState) : bool * Ep :=
  let '(sentAny, e) := x in
  let '(ep, st) := c in
  if shouldDelete wall st then (sentAny, deleteCandidate ep e)
  else if negb (lastPing st =? 0) && (now - lastPing st <? discoPingInterval) then (sentAny, e)
  else (true, startDiscoPing (directTo ep) now pingDiscovery 0 None e).
Definition sendDiscoPings (wall now : Z) (sendCallMeMaybe : bool) (e : Ep) : Ep :=
  let t := eTimes e in
  let e := setTimes (mkTimes (lastSendExt t) (lastSendAny t) now (lastUDPRelayPathDiscovery t) (lastRecvWG t)) e in
  let '(sentAny, e) := foldl (pingCandidate wall now) (false, e) (map_to_list (eStates e)) in
  if sentAny && sendCallMeMaybe && apIsValid (ecDERP (eConfig e)) then acting [SendCallMeMaybe (ecDERP (eConfig e))] e else e.

Definition wantUDPRelayPathDiscovery (now : Z) (e : Ep) : bool :=
  let last := lastUDPRelayPathDiscovery (eTimes e) in
  if negb hasRelayServers then false
  else if negb (relayCapable (eConfig e)) then false
  else if isDirect (bestEp e) && (now <? trustUntil e) then false
  else if negb (last =? 0) && (now - last <? discoverUDPRelayPathsInterval) then false
  else if trustUntil e <? now then true
  else negb (last =? 0) && (upgradeUDPRelayInterval <=? now - last).
Definition discoverUDPRelayPaths (now : Z) (e : Ep) : Ep :=
  let t := eTimes e in
  acting [DiscoverRelays] (setTimes (mkTimes (lastSendExt t) (lastSendAny t) (lastFullPing t) now (lastRecvWG t)) e).
Definition maybeDiscoverRelays (now : Z) (e : Ep) : Ep :=
  if wantUDPRelayPathDiscovery now e then discoverUDPRelayPaths now e else e.

Definition wantFullPing (now : Z) (e : Ep) : bool :=
  if negb (isDirect (bestEp e)) || (lastFullPing (eTimes e) =? 0) then true
  else if trustUntil e <? now then true
  else if latency (bestAddr (eBest e)) <=? goodEnoughLatency then false
  else upgradeUDPDirectInterval <=? now - lastFullPing (eTimes e).

Definition heartbeat (ord : list (AddrPort * endpointState)) (rnd : nat) (wall now : Z) (e : Ep) : res () Ep :=
  let e := setTimer false e in
  if heartbeatDisabled (eConfig e) then Ok e
  else if lastSendExt (eTimes e) =? 0 then Ok e
  else if sessionActiveTimeout <? now - lastSendExt (eTimes e) then Ok e
  else
    '(udpAddr, _, _, e) ← addrForSend ord rnd now e;
    let e := if eaValid udpAddr then startDiscoPing udpAddr now pingHeartbeat 0 None e else e in
    let e := if wantFullPing now e then sendDiscoPings wall now true e else e in
    Ok (setTimer true (maybeDiscoverRelays now e)).

(** [discoPing]: a ping for the user, whose callback is [cb]. *)
Definition discoPing (ord : list (AddrPort * endpointState)) (rnd : nat) (now size : Z) (cb : nat) (e : Ep) : res () Ep :=
  if ecExpired (eConfig e) || (MaxDiscoPingSize <? size) then Ok (acting [CallBackErr cb] e)
  else
    '(udpAddr, derpAddr, e) ← addrForPingSize ord rnd now size e;
    let e := if apIsValid derpAddr then startDiscoPing (directTo derpAddr) now pingCLI size (Some cb) e else e in
    let trusted := eaValid udpAddr && (now <? trustUntil e) in
    let e := if trusted then startDiscoPing udpAddr now pingCLI size (Some cb) e else e in
    if trusted && negb (isRelay udpAddr) then Ok e
    else
      let e := foldl (λ e c, startDiscoPing (directTo c.1) now pingCLI size (Some cb) e) e (map_to_list (eStates e)) in
      Ok (maybeDiscoverRelays now e).

(** ** Sending *)
Inductive SendErr : Type := errExpired | errNoUDPOrDERP | errUDP.
(** What became of the datagram: whether the error means that the address is bad. *)
Inductive UDPResult : Type := udpSent | udpFailed (bad : bool).

Definition noteBadEndpoint (udpAddr : epAddr) (e : Ep) : Ep :=
  let e := clearBestAddr e in
  if isRelay udpAddr then e else setStates (alter clearState (eaAP udpAddr) (eStates e)) e.

Definition sendWireGuardOnlyPings (noV4 noV6 : bool) (now : Z) (e : Ep) : Ep :=
  let t := eTimes e in
  if now <=? lastFullPing t + 10 * Second then e
  else
    let e := setTimes (mkTimes (lastSendExt t) (lastSendAny t) now (lastUDPRelayPathDiscovery t) (lastRecvWG t)) e in
    acting (SendICMP <$> filter (λ ipp, negb (Is4 (ap_addr ipp) && noV4) && negb (Is6 (ap_addr ipp) && noV6))
              (map_to_list (eStates e)).*1) e.

(** [fallback] is the DERP region that the peer last used, 0 for none; [udpRes] and
    [derpOk] are what becomes of the packets. *)
Definition send (ord : list (AddrPort * endpointState)) (rnd : nat) (noV4 noV6 : bool) (wall now fallback : Z)
    (udpRes : UDPResult) (derpOk : bool) (e : Ep) : res () (option SendErr * Ep) :=
  if ecExpired (eConfig e) then Ok (Some errExpired, e)
  else
    '(udpAddr, derpAddr, startWGPing, e) ← addrForSend ord rnd now e;
    let e :=
      if ecWGOnly (eConfig e) then (if startWGPing : bool then sendWireGuardOnlyPings noV4 noV6 now e else e)
      else if negb (isDirect udpAddr) || (trustUntil e <? now) then maybeDiscoverRelays now (sendDiscoPings wall now true e)
      else e in
    let e := noteSendAny now (noteTxActivityExtTrigger now e) in
    let derpAddr :=
      if negb (eaValid udpAddr) && negb (apIsValid derpAddr) && negb (fallback =? 0)
      then mkAddrPort DerpMagicIPAddr (fallback `mod` 65536) else derpAddr in
    if negb (eaValid udpAddr) && negb (apIsValid derpAddr) then Ok (Some errNoUDPOrDERP, e)
    else
      let '(err, e) :=
        if eaValid udpAddr then
          let e := acting [SendUDP udpAddr] e in
          match udpRes with
          | udpSent => (None, e)
          | udpFailed bad => (Some errUDP, if bad : bool then noteBadEndpoint udpAddr e else e)
          end
        else (None, e) in
      if apIsValid derpAddr
      then let e := acting [SendDERP derpAddr] e in Ok (if derpOk : bool then None else err, e)
      else Ok (err, e).

(** ** Results of pings *)
Definition removeSentDiscoPing (tx : Z) (e : Ep) : Ep :=
  let p := ePings e in setPings (mkPings (delete tx (sent p)) (drawn p) (taken p)) e.
Definition forgetDiscoPing (tx : Z) (e : Ep) : Ep := removeSentDiscoPing tx e.

Definition discoPingTimeout (now tx : Z) (e : Ep) : Ep :=
  match sent (ePings e) !! tx with
  | None => e
  | Some sp =>
      let e := if bool_decide (spTo sp = bestEp e) && (trustUntil e <? now) then clearBestAddr e else e in
      removeSentDiscoPing tx e
  end.

(** The callback is called by the first pong. *)
Definition pongCallback (lat : Z) (sp : sentPing) (e : Ep) : Ep :=
  match spCB sp with
  | None => e
  | Some cb =>
      let p := ePings e in
      if decide (cb ∈ taken p) then e
      else acting [CallBack cb lat (spTo sp)] (setPings (mkPings (sent p) (drawn p) ({[cb]} ∪ taken p)) e)
  end.

(** The promotion of an answered address. *)
Definition promote (now : Z) (thisPong : addrQuality) (e : Ep) : Ep :=
  let e := if betterAddr thisPong (bestAddr (eBest e)) || (trustUntil e <? now) then setBestAddr thisPong e else e in
  if decide (bestEp e = aqAddr thisPong)
  then let q := bestAddr (eBest e) in
       setBest (mkBest (mkQuality (aqAddr q) (relayServerDisco q) (latency thisPong) (wireMTU q)) now (now + trustUDPAddrDuration)) e
  else e.

Definition handlePong (now tx : Z) (pongSrc : AddrPort) (src : epAddr) (e : Ep) : bool * Ep :=
  match sent (ePings e) !! tx with
  | None => (false, e)
  | Some sp =>
      let e := removeSentDiscoPing tx e in
      let lat := now - spAt sp in
      let direct := negb (isDERP src) && negb (isRelay src) in
      if direct && negb (bool_decide (is_Some (eStates e !! eaAP (spTo sp)))) then (true, e)
      else
        let e := if direct
                 then acting [BindAddr src]
                        (setStates (alter (addPongReply (mkPong lat now (eaAP src) pongSrc)) (eaAP (spTo sp)) (eStates e)) e)
                 else e in
        let e := pongCallback lat sp e in
        (true, if isDERP src then e else promote now (mkQuality (spTo sp) 0 lat (pingSizeToPktLen (spSize sp) (spTo sp))) e)
  end.

Definition udpRelayEndpointReady (now : Z) (maybeBest : addrQuality) (e : Ep) : Ep :=
  let cur := bestAddr (eBest e) in
  let trusted := now <? trustUntil e in
  let sameServer := isRelay (aqAddr cur) && (relayServerDisco maybeBest =? relayServerDisco cur) in
  if negb trusted || sameServer || betterAddr maybeBest cur
  then setBest (mkBest maybeBest (bestAddrAt (eBest e)) (now + trustUDPAddrDuration)) e
  else e.

(** ** Candidates *)
Fixpoint setIndexes (eps : list AddrPort) (i : Z) (m : gmap AddrPort endpointState) : gmap AddrPort endpointState :=
  match eps with
  | [] => m
  | ipp :: eps =>
      if 32767 <? i then m
      else if negb (apIsValid ipp) then setIndexes eps (i + 1) m
      else setIndexes eps (i + 1) (<[ipp := withIndexAt i (default zeroState (m !! ipp))]> m)
  end.
Definition pruneCandidates (wall : Z) (e : Ep) : Ep :=
  foldl (λ e c, if shouldDelete wall c.2 then deleteCandidate c.1 e else e) e (map_to_list (eStates e)).
Definition setEndpoints (wall : Z) (eps : list AddrPort) (e : Ep) : Ep :=
  pruneCandidates wall (setStates (setIndexes eps 0 (withIndexAt indexSentinelDeleted <$> eStates e)) e).

(** [updateFromNode]: the fields of the node that it reads. *)
Definition updateFromNode (wall disco homeDERP cap : Z) (eps : list AddrPort) (expired hbDisabled : bool) (e : Ep) : Ep :=
  let derp := if homeDERP =? 0 then AddrPortZ else mkAddrPort DerpMagicIPAddr (homeDERP `mod` 65536) in
  let c := eConfig e in
  setEndpoints wall eps
    (setConfig (mkEpConfig (if disco =? 0 then None else Some disco) derp hbDisabled expired (ecWGOnly c) (121 <=? cap)) e).

Definition addCandidateEndpoint (wall : Z) (ep : AddrPort) (tx : Z) (e : Ep) : bool * Ep :=
  match eStates e !! ep with
  | Some st =>
      let dup := tx =? lastGotPingTxID st in
      let got := if lastGotPing st =? 0 then 0 else wall in
      (dup, setStates (<[ep := withGotPing got tx st]> (eStates e)) e)
  | None =>
      let e := setStates (<[ep := withGotPing wall tx zeroState]> (eStates e)) e in
      (false, if (100 <? Z.of_nat (size (eStates e))) then pruneCandidates wall e else e)
  end.

(** One address of a call-me-maybe. *)
Definition callMeAddr (wall : Z) (e : Ep) (ep : AddrPort) : Ep :=
  if Is6 (ap_addr ep) && IsLinkLocalUnicast (ap_addr ep) then e
  else setStates (<[ep := withCallMeMaybe wall (default zeroState (eStates e !! ep))]> (eStates e))
         (setCMM (<[ep := true]> (isCallMeMaybeEP e)) e).
Definition handleCallMeMaybe (wall now : Z) (numbers : list AddrPort) (e : Ep) : Ep :=
  let e := setCMM ((λ _, false) <$> isCallMeMaybeEP e) e in
  let e := foldl (callMeAddr wall) e numbers in
  let e := foldl (λ e c, if c.2 : bool then e else deleteCandidate c.1 (setCMM (delete c.1 (isCallMeMaybeEP e)) e)) e
             (map_to_list (isCallMeMaybeEP e)) in
  let e := setStates (withLastPing 0 <$> eStates e) e in
  maybeDiscoverRelays now (sendDiscoPings wall now false e).

Definition noteConnectivityChange (e : Ep) : Ep := setStates (clearState <$> eStates e) (clearBestAddr e).
Definition setDERPHome (region : Z) (e : Ep) : Ep :=
  let c := eConfig e in
  let r := region `mod` 65536 in
  let e := setConfig (mkEpConfig (ecDisco c) (mkAddrPort DerpMagicIPAddr r) (heartbeatDisabled c) (ecExpired c) (ecWGOnly c) (relayCapable c)) e in
  if hasRelayServers then acting [RelayDERPHome r] e else e.

(** [stopAndReset], with [resetLocked]. *)
Definition stopAndReset (e : Ep) : Ep :=
  let t := eTimes e in
  let e := clearBestAddr (setTimes (mkTimes 0 (lastSendAny t) 0 (lastUDPRelayPathDiscovery t) (lastRecvWG t)) e) in
  let e := setStates (withLastPing 0 <$> eStates e) e in
  let p := ePings e in
  let e := if ecWGOnly (eConfig e) then e else setPings (mkPings ∅ (drawn p) (taken p)) e in
  setTimer false (acting [StopRelays] e).

(** [sendWireGuardOnlyPing], when its ICMP ping was answered. *)
Definition icmpAnswered (now lat : Z) (ipp : AddrPort) (e : Ep) : Ep :=
  setStates (alter (addPongReply (mkPong lat now ipp AddrPortZ)) ipp (eStates e)) e.
Definition setLastPing (now : Z) (ipp : AddrPort) (e : Ep) : Ep := setStates (alter (withLastPing now) ipp (eStates e)) e.
End pings.
