(* ===== verification/PathsThms.v ===== *)
(** * Paths are earned and packets go out

    The comparison of addresses; the history of pongs stays in bounds; the address that
    is used alone was heard of within the time of trust, and every packet for a peer
    with a DERP home goes out somewhere. *)

From stdpp Require Import base gmap sets list strings.
From S2P Require Import Prelude Bytes NetIP TSAddr FlowTrack Packet Filter PeerMap Disco DiscoRx Paths.

(** ** The comparison *)
Lemma latencyPoints_swap a b : 0 ≤ a → 0 ≤ b → latencyPoints b a = ((latencyPoints a b).2, (latencyPoints a b).1).
Proof.
  intros Ha Hb. unfold latencyPoints. destruct (Z.ltb_spec a b), (Z.ltb_spec b a); try lia; cbn [andb].
  - rewrite (proj2 (Z.ltb_lt 0 b)) by lia. done.
  - rewrite (proj2 (Z.ltb_lt 0 a)) by lia. done.
  - assert (a = b) as -> by lia. destruct (Z.ltb_spec 0 b); [|done]. cbn. rewrite Z.mul_comm, Z.quot_mul by lia. done.
Qed.

(** Of two different usable addresses at most one is better than the other, a direct
    one is better than one through a relay, and any is better than none.  But the
    preference is not transitive: there are three addresses of which each is better than
    the next, so that an endpoint with all three changes its path with every pong. *)
Theorem better_addr_order :
  (∀ a b, 0 ≤ latency a → 0 ≤ latency b → eaValid (aqAddr a) = true ∨ eaValid (aqAddr b) = true →
    betterAddr a b = true → betterAddr b a = false) ∧
  (∀ a b, isDirect (aqAddr a) = true → isRelay (aqAddr b) = true ∨ eaValid (aqAddr b) = false → betterAddr a b = true) ∧
  ∃ a b c, betterAddr a b = true ∧ betterAddr b c = true ∧ betterAddr c a = true ∧
    isDirect (aqAddr a) = true ∧ isDirect (aqAddr b) = true ∧ isDirect (aqAddr c) = true ∧
    0 < latency a ∧ 0 < latency b ∧ 0 < latency c.
Proof.
  split_and!.
  - intros a b Ha Hb Hv. unfold betterAddr. destruct (decide (aqAddr a = aqAddr b)) as [E|E].
    { rewrite decide_True by done. rewrite Z.ltb_lt, Z.ltb_ge. lia. }
    rewrite (decide_False (P := aqAddr b = aqAddr a)) by congruence.
    destruct (eaValid (aqAddr a)), (eaValid (aqAddr b)); cbn [negb]; try done; [|naive_solver].
    destruct (isRelay (aqAddr a)), (isRelay (aqAddr b)); cbn [negb andb]; try done; rewrite (latencyPoints_swap (latency a) (latency b)) by done;
      destruct (latencyPoints (latency a) (latency b)) as [la lb]; cbn [fst snd]; destruct (_ && _); try done;
      rewrite Z.ltb_lt; intros Hlt; destruct (_ && _); try done; rewrite Z.ltb_ge; lia.
  - intros a b Hd Hb. unfold isDirect in Hd. apply andb_true_iff in Hd as [[Hv _]%andb_true_iff Hr%negb_true_iff].
    unfold betterAddr. rewrite decide_False.
    + rewrite Hv, Hr. destruct (eaValid (aqAddr b)); [|done]. by destruct Hb as [-> |?].
    + intros E. rewrite E in *. destruct Hb; congruence.
  - exists (mkQuality (directTo (mkAddrPort (IPv4 8 8 8 8) 1)) 0 638 0), (mkQuality (directTo (mkAddrPort (IPv4 10 0 0 1) 1)) 0 799 0),
      (mkQuality (directTo (mkAddrPort (Addr6 (0xfe80 * 2 ^ 112 + 1) "") 1)) 0 1000 0).
    vm_compute. done.
Qed.

(** ** The history of pongs *)
Definition pongsOk (st : endpointState) : Prop :=
  zlen (recentPongs st) ≤ pongHistoryCount ∧ 0 ≤ recentPong st ∧ (recentPongs st ≠ [] → recentPong st < zlen (recentPongs st)).

Lemma addPongReply_ok r st : pongsOk st → pongsOk (addPongReply r st).
Proof.
  unfold pongsOk, addPongReply, pongHistoryCount. intros (H1 & H2 & H3). pose proof (zlen_nonneg (recentPongs st)).
  destruct (Z.ltb_spec (zlen (recentPongs st)) 64); cbn [recentPongs recentPong].
  - rewrite zlen_app. change (zlen [r]) with 1. lia.
  - assert (zlen (<[Z.to_nat (if recentPong st + 1 =? 64 then 0 else recentPong st + 1) := r]> (recentPongs st)) = zlen (recentPongs st)) as ->
      by (unfold zlen; by rewrite length_insert).
    assert (recentPongs st ≠ []) as Hne by (intros E; assert (zlen (recentPongs st) = 0) by (by rewrite E); lia).
    specialize (H3 Hne). destruct (Z.eqb_spec (recentPong st + 1) 64); lia.
Qed.
Lemma latency_safe st : pongsOk st → ∃ l, latencyLocked st = Ok l.
Proof.
  intros (H1 & H2 & H3). unfold latencyLocked. destruct (recentPongs st) as [|p l] eqn:E; [by eexists|].
  rewrite (proj2 (Z.leb_le 0 (recentPong st))) by done. specialize (H3 ltac:(done)). unfold zlen in H3.
  destruct ((p :: l) !! Z.to_nat (recentPong st)) eqn:EL; [by eexists|]. apply lookup_ge_None in EL. lia.
Qed.

(** ** What every operation keeps *)
Definition statesOk (e : Ep) : Prop := map_Forall (λ _, pongsOk) (eStates e).
(** A ping in flight was sent to its address. *)
Definition sentOk (e : Ep) : Prop :=
  ∀ tx sp, sent (ePings e) !! tx = Some sp → ∃ size, SendPing (spTo sp) tx size ∈ eActs e.

Record steady (e e' : Ep) : Prop := {
  st_wg : ecWGOnly (eConfig e') = ecWGOnly (eConfig e);
  st_acts : ∃ l, eActs e' = eActs e ++ l;
  st_sent : sentOk e → sentOk e';
  st_states : statesOk e → statesOk e'
}.
(** Moreover the best address and its trust are kept, or there is none left. *)
Definition tame (e e' : Ep) : Prop := steady e e' ∧ (eBest e' = eBest e ∨ bestEp e' = zeroEpAddr).

#[export] Instance steady_preorder : PreOrder steady.
Proof.
  split.
  - intros e. split; try done. exists []. by rewrite app_nil_r.
  - intros e1 e2 e3 [A1 [l1 B1] C1 D1] [A2 [l2 B2] C2 D2]. split; [congruence| |tauto|tauto].
    exists (l1 ++ l2). by rewrite B2, B1, app_assoc.
Qed.
#[export] Instance tame_preorder : PreOrder tame.
Proof.
  split.
  - intros e. split; [reflexivity|by left].
  - intros e1 e2 e3 [S1 B1] [S2 B2]. split; [by etransitivity|]. unfold bestEp in *.
    destruct B2 as [-> |B2]; [|by right]. destruct B1 as [-> |B1]; [by left|by right].
Qed.

(** Changes that touch neither the best address, nor pings, nor actions. *)
Lemma tame_frame e e' : eBest e' = eBest e → ecWGOnly (eConfig e') = ecWGOnly (eConfig e) → eActs e' = eActs e →
  (∀ tx sp, sent (ePings e') !! tx = Some sp → sent (ePings e) !! tx = Some sp) → (statesOk e → statesOk e') → tame e e'.
Proof.
  intros HB HC HA HS HO. split; [|by left]. split; [done|exists []; by rewrite app_nil_r| |done].
  intros Hok tx sp Hsp. rewrite HA. by apply Hok, HS.
Qed.
Lemma tame_acting l e : tame e (acting l e).
Proof.
  split; [|by left]. split; [done|by exists l| |done]. intros Hok tx sp Hsp. destruct (Hok tx sp Hsp) as [s Hs].
  exists s. cbn. apply elem_of_app. by left.
Qed.
Lemma tame_states m e : (statesOk e → map_Forall (λ _, pongsOk) m) → tame e (setStates m e).
Proof. intros Hm. by apply tame_frame. Qed.
Lemma tame_times t e : tame e (setTimes t e).
Proof. by apply tame_frame. Qed.
Lemma tame_timer b e : tame e (setTimer b e).
Proof. by apply tame_frame. Qed.
Lemma tame_cmm m e : tame e (setCMM m e).
Proof. by apply tame_frame. Qed.
Lemma tame_clear e : tame e (clearBestAddr e).
Proof. split; [|by right]. split; try done. exists []. by rewrite app_nil_r. Qed.


Lemma alter_ok (f : endpointState → endpointState) k (m : gmap AddrPort endpointState) :
  (∀ st, pongsOk st → pongsOk (f st)) → map_Forall (λ _, pongsOk) m → map_Forall (λ _, pongsOk) (alter f k m).
Proof.
  intros Hf Hm k' st. destruct (decide (k = k')) as [<-|]; [|rewrite lookup_alter_ne by done; apply Hm].
  rewrite lookup_alter_eq. intros (x & Hx & ->)%fmap_Some. by apply Hf, (Hm _ _ Hx).
Qed.
Lemma fmap_ok (f : endpointState → endpointState) (m : gmap AddrPort endpointState) :
  (∀ st, pongsOk st → pongsOk (f st)) → map_Forall (λ _, pongsOk) m → map_Forall (λ _, pongsOk) (f <$> m).
Proof. intros Hf Hm k st. rewrite lookup_fmap. intros (x & Hx & ->)%fmap_Some. by apply Hf, (Hm _ _ Hx). Qed.
Lemma zeroState_ok : pongsOk zeroState.
Proof. unfold pongsOk. by split_and!. Qed.
Lemma clearState_ok st : pongsOk st → pongsOk (clearState st).
Proof. intros _. unfold pongsOk. by split_and!. Qed.

Lemma tame_foldl {A} (f : Ep → A → Ep) l e : (∀ e a, tame e (f e a)) → tame e (foldl f e l).
Proof. intros Hf. revert e. induction l as [|a l IH]; intros e; [reflexivity|]. cbn. etransitivity; [apply (Hf e a)|apply IH]. Qed.

Lemma tame_delete ep e : tame e (deleteCandidate ep e).
Proof.
  unfold deleteCandidate. etransitivity; [apply (tame_states (delete ep (eStates e))); intros Hm; by apply map_Forall_delete|].
  case_decide; [|reflexivity]. split; [|by right]. split; try done. exists []. by rewrite app_nil_r.
Qed.
Lemma tame_prune wall e : tame e (pruneCandidates wall e).
Proof. apply tame_foldl. intros e' c. destruct (shouldDelete wall c.2); [apply tame_delete|reflexivity]. Qed.

Section ops.
Context (txid : nat → Z) (peerMTU hasRelayServers : bool) (MaxDiscoPingSize : Z).

Lemma tame_txActivity now e : tame e (noteTxActivityExtTrigger now e).
Proof. unfold noteTxActivityExtTrigger. destruct (_ && _); by apply tame_frame. Qed.
Lemma tame_onePing ep now purpose cb e size : tame e (onePing txid ep now purpose cb e size).
Proof.
  unfold onePing. split; [|by left]. split; [done|by eexists| |done]. intros Hok tx sp. cbn.
  destruct (decide (txid (drawn (ePings e)) = tx)) as [<-|Hne].
  - rewrite lookup_insert_eq. intros [= <-]. exists size. apply elem_of_app. right. by left.
  - rewrite lookup_insert_ne by done. intros Hsp. destruct (Hok tx sp Hsp) as [s Hs]. exists s. apply elem_of_app. by left.
Qed.
Lemma tame_startPing ep now purpose size cb e : tame e (startDiscoPing txid peerMTU ep now purpose size cb e).
Proof.
  unfold startDiscoPing. destruct (ecDisco (eConfig e)); [|reflexivity]. destruct (negb _); [reflexivity|].
  etransitivity; [|apply tame_foldl; intros; apply tame_onePing].
  set (e1 := if _ || _ then e else _). transitivity e1.
  - unfold e1. destruct (_ || _); [reflexivity|]. apply tame_states. intros Hm. by apply alter_ok.
  - etransitivity; [|apply tame_times]. destruct (isCLI purpose); [apply tame_txActivity|reflexivity].
Qed.
Lemma tame_pingCandidate wall now sa e c : tame e (pingCandidate txid peerMTU wall now (sa, e) c).2.
Proof.
  destruct c as [ep st]. cbn. destruct (shouldDelete wall st); [apply tame_delete|]. destruct (_ && _); [reflexivity|]. apply tame_startPing.
Qed.
Lemma tame_sendPings wall now cmm e : tame e (sendDiscoPings txid peerMTU wall now cmm e).
Proof.
  unfold sendDiscoPings. set (e1 := setTimes _ e). transitivity e1; [apply tame_times|].
  assert (∀ l x, tame x.2 (foldl (pingCandidate txid peerMTU wall now) x l).2) as HF.
  { induction l as [|c l IH]; intros [sa x]; [reflexivity|]. cbn [foldl]. etransitivity; [|apply IH]. apply tame_pingCandidate. }
  specialize (HF (map_to_list (eStates e1)) (false, e1)). destruct (foldl _ _ _) as [sa e2]. cbn in HF.
  transitivity e2; [done|]. destruct (_ && _); [apply tame_acting|reflexivity].
Qed.
Lemma tame_relays now e : tame e (maybeDiscoverRelays hasRelayServers now e).
Proof.
  unfold maybeDiscoverRelays, discoverUDPRelayPaths. destruct (wantUDPRelayPathDiscovery _ _ _); [|reflexivity].
  etransitivity; [apply tame_times|apply tame_acting].
Qed.
Lemma tame_noteBad u e : tame e (noteBadEndpoint u e).
Proof.
  unfold noteBadEndpoint. etransitivity; [apply tame_clear|]. destruct (isRelay u); [reflexivity|].
  apply tame_states. intros Hm. apply alter_ok; [apply clearState_ok|done].
Qed.
Lemma tame_removeSent tx e : tame e (removeSentDiscoPing tx e).
Proof. apply tame_frame; try done. intros tx' sp. cbn. by intros [_ ?]%lookup_delete_Some. Qed.
Lemma tame_timeout now tx e : tame e (discoPingTimeout now tx e).
Proof.
  unfold discoPingTimeout. destruct (sent (ePings e) !! tx); [|reflexivity]. etransitivity; [|apply tame_removeSent].
  destruct (_ && _); [apply tame_clear|reflexivity].
Qed.
Lemma tame_callback lat sp e : tame e (pongCallback lat sp e).
Proof.
  unfold pongCallback. destruct (spCB sp); [|reflexivity]. case_decide; [reflexivity|]. etransitivity; [|apply tame_acting].
  by apply tame_frame.
Qed.
Lemma setIndexes_ok l i m : map_Forall (λ _, pongsOk) m → map_Forall (λ _, pongsOk) (setIndexes l i m).
Proof.
  revert i m. induction l as [|ipp l IH]; intros i m Hm; [done|]. cbn. destruct (32767 <? i); [done|].
  destruct (negb _); apply IH; [done|]. apply map_Forall_insert_2; [|done].
  destruct (m !! ipp) eqn:E; [exact (Hm _ _ E)|exact zeroState_ok].
Qed.
Lemma tame_setEndpoints wall l e : tame e (setEndpoints wall l e).
Proof.
  unfold setEndpoints. etransitivity; [|apply tame_prune]. apply tame_states. intros Hm. apply setIndexes_ok, fmap_ok; done.
Qed.
Lemma tame_node wall disco derp cap l x hb e : tame e (updateFromNode wall disco derp cap l x hb e).
Proof. unfold updateFromNode. etransitivity; [|apply tame_setEndpoints]. by apply tame_frame. Qed.
Lemma tame_candidate wall ep tx e : tame e (addCandidateEndpoint wall ep tx e).2.
Proof.
  unfold addCandidateEndpoint. destruct (eStates e !! ep) as [st|] eqn:E.
  - apply tame_states. intros Hm. apply map_Forall_insert_2; [exact (Hm _ _ E)|done].
  - cbn [snd]. etransitivity; [apply (tame_states (<[ep := withGotPing wall tx zeroState]> (eStates e)))|].
    + intros Hm. apply map_Forall_insert_2; [exact zeroState_ok|done].
    + destruct (100 <? _); [apply tame_prune|reflexivity].
Qed.
Lemma tame_callMe wall now l e : tame e (handleCallMeMaybe txid peerMTU hasRelayServers wall now l e).
Proof.
  unfold handleCallMeMaybe. etransitivity; [apply (tame_cmm ((λ _, false) <$> isCallMeMaybeEP e))|].
  etransitivity; [apply (tame_foldl (callMeAddr wall) l)|].
  { intros e' ep. unfold callMeAddr. destruct (_ && _); [reflexivity|]. etransitivity; [apply tame_cmm|]. apply tame_states.
    intros Hm. apply map_Forall_insert_2; [|done]. destruct (eStates e' !! ep) eqn:E; [exact (Hm _ _ E)|exact zeroState_ok]. }
  etransitivity; [|etransitivity; [|apply tame_relays]; apply tame_sendPings].
  etransitivity; [|apply tame_states; intros Hm; apply fmap_ok; done].
  apply tame_foldl. intros e' [k b]. destruct b; [reflexivity|]. etransitivity; [apply tame_cmm|apply tame_delete].
Qed.
Lemma tame_connectivity e : tame e (noteConnectivityChange e).
Proof. unfold noteConnectivityChange. etransitivity; [apply tame_clear|]. apply tame_states. intros Hm. apply fmap_ok; [apply clearState_ok|done]. Qed.
Lemma tame_derpHome r e : tame e (setDERPHome hasRelayServers r e).
Proof. unfold setDERPHome. destruct hasRelayServers; [etransitivity; [|apply tame_acting]|]; by apply tame_frame. Qed.
Lemma tame_reset e : tame e (stopAndReset e).
Proof.
  unfold stopAndReset. etransitivity; [|apply tame_timer]. etransitivity; [|apply tame_acting].
  etransitivity; [apply tame_times|]. etransitivity; [apply tame_clear|].
  etransitivity; [apply tame_states; intros Hm; apply (fmap_ok (withLastPing 0)); done|].
  cbn. destruct (ecWGOnly (eConfig e)); [reflexivity|]. by apply tame_frame.
Qed.
Lemma tame_icmp now lat ipp e : tame e (icmpAnswered now lat ipp e).
Proof. apply tame_states. intros Hm. apply alter_ok; [intros; by apply addPongReply_ok|done]. Qed.
Lemma tame_setLastPing now ipp e : tame e (setLastPing now ipp e).
Proof. apply tame_states. intros Hm. by apply alter_ok. Qed.
Lemma tame_wgPings v4 v6 now e : tame e (sendWireGuardOnlyPings v4 v6 now e).
Proof. unfold sendWireGuardOnlyPings. destruct (_ <=? _); [reflexivity|]. etransitivity; [apply tame_times|apply tame_acting]. Qed.
End ops.

(** ** The events of an endpoint *)
Inductive EpEvent : Type :=
  | EvSend (ord : list (AddrPort * endpointState)) (rnd : nat) (noV4 noV6 : bool) (fallback : Z) (udpRes : UDPResult) (derpOk : bool)
  | EvHeartbeat (ord : list (AddrPort * endpointState)) (rnd : nat)
  | EvCLIPing (ord : list (AddrPort * endpointState)) (rnd : nat) (size : Z) (cb : nat)
  | EvPong (tx : Z) (pongSrc : AddrPort) (src : epAddr)
  | EvTimeout (tx : Z)
  | EvPingFailed (tx : Z)
  | EvRecv (src : epAddr)
  | EvGotPing (ep : AddrPort) (tx : Z)
  | EvCallMeMaybe (numbers : list AddrPort)
  | EvNode (disco homeDERP cap : Z) (eps : list AddrPort) (expired hbDisabled : bool)
  | EvDERPHome (region : Z)
  | EvRelayReady (q : addrQuality)
  | EvConnectivity
  | EvReset
  | EvICMP (lat : Z) (ipp : AddrPort)
  | EvICMPSent (ipp : AddrPort).

(** An iteration over the candidates sees each once, in any order. *)
Definition orderOk (ev : EpEvent) (e : Ep) : Prop :=
  match ev with
  | EvSend ord _ _ _ _ _ _ | EvHeartbeat ord _ | EvCLIPing ord _ _ _ => ord ≡ₚ map_to_list (eStates e)
  | _ => True
  end.

Section runs.
Context (txid : nat → Z) (peerMTU hasRelayServers : bool) (MaxDiscoPingSize : Z).

Definition stepEp (wall now : Z) (ev : EpEvent) (e : Ep) : res () Ep :=
  match ev with
  | EvSend ord rnd v4 v6 fb u d => '(_, e) ← send txid peerMTU hasRelayServers ord rnd v4 v6 wall now fb u d e; Ok e
  | EvHeartbeat ord rnd => heartbeat txid peerMTU hasRelayServers ord rnd wall now e
  | EvCLIPing ord rnd size cb => discoPing txid peerMTU hasRelayServers MaxDiscoPingSize ord rnd now size cb e
  | EvPong tx ps src => Ok (handlePong now tx ps src e).2
  | EvTimeout tx => Ok (discoPingTimeout now tx e)
  | EvPingFailed tx => Ok (forgetDiscoPing tx e)
  | EvRecv src => Ok (noteRecvActivity src now e).2
  | EvGotPing ep tx => Ok (addCandidateEndpoint wall ep tx e).2
  | EvCallMeMaybe l => Ok (handleCallMeMaybe txid peerMTU hasRelayServers wall now l e)
  | EvNode d h c l x hb => Ok (updateFromNode wall d h c l x hb e)
  | EvDERPHome r => Ok (setDERPHome hasRelayServers r e)
  | EvRelayReady q => Ok (udpRelayEndpointReady now q e)
  | EvConnectivity => Ok (noteConnectivityChange e)
  | EvReset => Ok (stopAndReset e)
  | EvICMP lat ipp => Ok (icmpAnswered now lat ipp e)
  | EvICMPSent ipp => Ok (setLastPing now ipp e)
  end.

Definition newEp (e : Ep) : Prop := eBest e = mkBest zeroQuality 0 0 ∧ sent (ePings e) = ∅ ∧ eStates e = ∅ ∧ eActs e = [].

(** The runs of an endpoint, with the events so far, their times and the state in which
    each came. *)
Inductive EpRuns : Ep → list (Z * EpEvent * Ep) → Prop :=
  | runs_new e : newEp e → EpRuns e []
  | runs_step e log wall now ev e' :
      EpRuns e log → orderOk ev e → stepEp wall now ev e = Ok e' → EpRuns e' (log ++ [(now, ev, e)]).

(** ** Changes of the best address *)
Lemma steady_best b e : steady e (setBest b e).
Proof. split; try done. exists []. by rewrite app_nil_r. Qed.
Lemma promote_steady now q e : steady e (promote now q e).
Proof.
  unfold promote. set (e1 := if betterAddr _ _ || _ then _ else e). transitivity e1.
  - unfold e1. destruct (_ || _); [apply steady_best|reflexivity].
  - destruct (decide _); [apply steady_best|reflexivity].
Qed.
Lemma promote_cases now q e :
  eBest (promote now q e) = eBest e ∨
  (bestEp (promote now q e) = aqAddr q ∧ trustUntil (promote now q e) = now + trustUDPAddrDuration).
Proof.
  unfold promote. destruct (betterAddr _ _ || _).
  - destruct (decide _) as [E|E]; [by right|by destruct E].
  - destruct (decide _) as [E|E]; [right|by left]. done.
Qed.
Lemma relay_cases now q e :
  steady e (udpRelayEndpointReady now q e) ∧
  (eBest (udpRelayEndpointReady now q e) = eBest e ∨
   (bestEp (udpRelayEndpointReady now q e) = aqAddr q ∧ trustUntil (udpRelayEndpointReady now q e) = now + trustUDPAddrDuration)).
Proof. unfold udpRelayEndpointReady. destruct (_ || _); (split; [|auto]); [apply steady_best|reflexivity]. Qed.
Lemma recv_cases src now e :
  steady e (noteRecvActivity src now e).2 ∧
  (ecWGOnly (eConfig e) = false →
   eBest (noteRecvActivity src now e).2 = eBest e ∨
   (bestEp e = src ∧ bestEp (noteRecvActivity src now e).2 = src ∧ trustUntil (noteRecvActivity src now e).2 = now + trustUDPAddrDuration)).
Proof.
  unfold noteRecvActivity. set (e1 := if ecWGOnly _ then _ else _).
  assert (steady e e1 ∧ (ecWGOnly (eConfig e) = false →
    eBest e1 = eBest e ∨ (bestEp e = src ∧ bestEp e1 = src ∧ trustUntil e1 = now + trustUDPAddrDuration))) as [HS HB].
  { unfold e1. destruct (ecWGOnly (eConfig e)); [split; [apply steady_best|done]|].
    destruct (heartbeatDisabled (eConfig e) && bool_decide (bestEp e = src)) eqn:E; [|split; [reflexivity|by left]].
    apply andb_true_iff in E as [_ E%bool_decide_eq_true]. split; [apply steady_best|]. intros _. right. unfold bestEp in *. done. }
  destruct (_ <? _); [|done]. split; [|done]. etransitivity; [done|apply tame_times].
Qed.

(** The part of [handlePong] before the promotion. *)
Lemma pong_cases now tx ps src e : ∃ e1, tame e e1 ∧ eBest e1 = eBest e ∧
  ((handlePong now tx ps src e).2 = e1 ∨
   ∃ sp q, sent (ePings e) !! tx = Some sp ∧ isDERP src = false ∧ aqAddr q = spTo sp ∧ (handlePong now tx ps src e).2 = promote now q e1).
Proof.
  unfold handlePong. destruct (sent (ePings e) !! tx) as [sp|] eqn:E; [|by exists e; split_and!; [reflexivity| |left]].
  destruct (_ && negb (bool_decide _)).
  { exists (removeSentDiscoPing tx e). split_and!; [apply tame_removeSent|done|by left]. }
  set (e2 := if _ && _ then _ else _). set (e3 := pongCallback _ _ e2).
  assert (tame e e2 ∧ eBest e2 = eBest e) as [HT HB].
  { unfold e2. destruct (_ && _); [|split; [apply tame_removeSent|done]]. split; [|done].
    etransitivity; [apply tame_removeSent|]. etransitivity; [|apply tame_acting]. apply tame_states. intros Hm.
    apply alter_ok; [intros; by apply addPongReply_ok|done]. }
  exists e3. split_and!; [etransitivity; [exact HT|apply tame_callback]| |].
  { rewrite <- HB. unfold e3, pongCallback. destruct (spCB sp); [|done]. by destruct (decide _). }
  cbn [snd]. destruct (isDERP src); [by left|]. right. eexists sp, _. split_and!; [done|done| |reflexivity]. done.
Qed.

(** ** Sending *)
Lemma wgLoop_total ord lowest oldest best : (∀ c, c ∈ ord → pongsOk c.2) → ∃ r, wgLoop ord lowest oldest best = Ok r.
Proof.
  revert lowest oldest best. induction ord as [|[ipp st] ord IH]; intros lowest oldest best H; [by eexists|].
  cbn. destruct (latency_safe st) as [l ->]; [apply (H (ipp, st)); by left|]. cbn.
  assert (∀ c, c ∈ ord → pongsOk c.2) by (intros c Hc; apply H; by right).
  destruct l as [lat|]; [destruct (_ || _)|]; by apply IH.
Qed.
Lemma ord_ok ord e : statesOk e → ord ≡ₚ map_to_list (eStates e) → ∀ c, c ∈ ord → pongsOk c.2.
Proof. intros Hs Ho [k st] Hc. rewrite Ho in Hc. apply elem_of_map_to_list in Hc. exact (Hs _ _ Hc). Qed.

Lemma addrForSend_total ord rnd now e : statesOk e → ord ≡ₚ map_to_list (eStates e) →
  ∃ u d p e', addrForSend ord rnd now e = Ok (u, d, p, e') ∧ steady e e' ∧ (ecWGOnly (eConfig e) = false → e' = e).
Proof.
  intros Hs Ho. unfold addrForSend. destruct (_ && _); [eexists _, _, _, _; split_and!; [done|reflexivity|done]|].
  destruct (ecWGOnly _); [|by eexists _, _, _, _; split_and!; [|reflexivity|]].
  unfold addrForWireGuardSend. destruct ord as [|c ord]; [eexists _, _, _, _; split_and!; [done|reflexivity|done]|].
  destruct (wgLoop_total (c :: ord) (3600 * Second) 0 AddrPortZ) as [[o b] ->]; [by eapply ord_ok|]. cbn.
  eexists _, _, _, _. split_and!; [done|apply steady_best|done].
Qed.

(** What [send] adds after the choice of addresses. *)
Lemma addrForSend_good ord rnd now e : ecWGOnly (eConfig e) = false →
  addrForSend ord rnd now e =
  Ok (bestEp e, if eaValid (bestEp e) && (now <=? trustUntil e) then AddrPortZ else ecDERP (eConfig e), false, e).
Proof. intros Hw. unfold addrForSend. rewrite Hw. by destruct (_ && _). Qed.

(** The packets of [send], and their results. *)
Definition sendPackets (udpAddr : epAddr) (derpAddr : AddrPort) (udpRes : UDPResult) (derpOk : bool) (e : Ep) : option SendErr * Ep :=
  let '(err, e) :=
    if eaValid udpAddr then
      let e := acting [SendUDP udpAddr] e in
      match udpRes with
      | udpSent => (None, e)
      | udpFailed bad => (Some errUDP, if bad : bool then noteBadEndpoint udpAddr e else e)
      end
    else (None, e) in
  if apIsValid derpAddr then (if derpOk then None else err, acting [SendDERP derpAddr] e) else (err, e).
Lemma sendPackets_tame u d r ok e : tame e (sendPackets u d r ok e).2.
Proof.
  unfold sendPackets. set (x := if eaValid u then _ else _). assert (tame e x.2) as H.
  { unfold x. destruct (eaValid u); [|reflexivity]. destruct r as [|[]]; try apply tame_acting.
    etransitivity; [apply tame_acting|apply tame_noteBad]. }
  destruct x as [err e1]. cbn in H. destruct (apIsValid d); [|done]. etransitivity; [exact H|apply tame_acting].
Qed.
(** The work of [send] between the choice and the packets. *)
Definition sendPrepare (wall now : Z) (v4 v6 startWGPing : bool) (udpAddr : epAddr) (e : Ep) : Ep :=
  noteSendAny now (noteTxActivityExtTrigger now
    (if ecWGOnly (eConfig e) then (if startWGPing then sendWireGuardOnlyPings v4 v6 now e else e)
     else if negb (isDirect udpAddr) || (trustUntil e <? now)
     then maybeDiscoverRelays hasRelayServers now (sendDiscoPings txid peerMTU wall now true e) else e)).
Lemma sendPrepare_tame wall now v4 v6 w u e : tame e (sendPrepare wall now v4 v6 w u e).
Proof.
  unfold sendPrepare. etransitivity; [|apply tame_times]. etransitivity; [|apply tame_txActivity].
  destruct (ecWGOnly _); [destruct w; [apply tame_wgPings|reflexivity]|]. destruct (_ || _); [|reflexivity].
  etransitivity; [apply tame_sendPings|apply tame_relays].
Qed.
Lemma send_unfold ord rnd v4 v6 wall now fb u d e :
  send txid peerMTU hasRelayServers ord rnd v4 v6 wall now fb u d e =
  if ecExpired (eConfig e) then Ok (Some errExpired, e)
  else '(udpAddr, derpAddr, w, e) ← addrForSend ord rnd now e;
       let derpAddr := if negb (eaValid udpAddr) && negb (apIsValid derpAddr) && negb (fb =? 0)
                       then mkAddrPort DerpMagicIPAddr (fb `mod` 65536) else derpAddr in
       if negb (eaValid udpAddr) && negb (apIsValid derpAddr) then Ok (Some errNoUDPOrDERP, sendPrepare wall now v4 v6 w udpAddr e)
       else Ok (sendPackets udpAddr derpAddr u d (sendPrepare wall now v4 v6 w udpAddr e)).
Proof.
  unfold send. destruct (ecExpired _); [done|]. destruct (addrForSend ord rnd now e) as [[[[ua da] w] e1]| |]; [|done|done]. cbn [mbind res_bind].
  unfold sendPrepare, sendPackets. set (da' := if _ && negb (fb =? 0) then _ else da).
  destruct (negb (eaValid ua) && negb (apIsValid da')); [done|]. destruct (eaValid ua); [destruct u as [|[]]|]; by destruct (apIsValid da').
Qed.
Lemma send_total ord rnd v4 v6 wall now fb u d e : statesOk e → ord ≡ₚ map_to_list (eStates e) →
  ∃ err e', send txid peerMTU hasRelayServers ord rnd v4 v6 wall now fb u d e = Ok (err, e') ∧ steady e e' ∧
    (ecWGOnly (eConfig e) = false → tame e e').
Proof.
  intros Hs Ho. rewrite send_unfold. destruct (ecExpired _); [eexists _, _; split_and!; [done|reflexivity|intros; reflexivity]|].
  destruct (addrForSend_total ord rnd now e Hs Ho) as (ua & da & w & e1 & -> & HS & He). cbn [mbind res_bind].
  set (da' := if _ && negb (fb =? 0) then _ else da). set (e2 := sendPrepare _ _ _ _ _ _ _).
  assert (tame e1 e2) as H2 by apply sendPrepare_tame.
  destruct (negb (eaValid ua) && negb (apIsValid da')).
  { eexists _, _. split_and!; [done|etransitivity; [exact HS|apply H2]|]. intros Hw. by rewrite <- (He Hw). }
  pose proof (sendPackets_tame ua da' u d e2) as H3. destruct (sendPackets ua da' u d e2) as [err e3]. cbn in H3.
  eexists _, _. split_and!; [done|etransitivity; [exact HS|etransitivity; [apply H2|apply H3]]|].
  intros Hw. rewrite <- (He Hw). by etransitivity.
Qed.
Lemma heartbeat_total ord rnd wall now e : statesOk e → ord ≡ₚ map_to_list (eStates e) →
  ∃ e', heartbeat txid peerMTU hasRelayServers ord rnd wall now e = Ok e' ∧ steady e e' ∧ (ecWGOnly (eConfig e) = false → tame e e').
Proof.
  intros Hs Ho. unfold heartbeat. set (e0 := setTimer false e). assert (tame e e0) as H0 by apply tame_timer.
  destruct (heartbeatDisabled _); [eexists; split_and!; [done|apply H0|done]|].
  destruct (lastSendExt _ =? 0); [eexists; split_and!; [done|apply H0|done]|].
  destruct (sessionActiveTimeout <? _); [eexists; split_and!; [done|apply H0|done]|].
  destruct (addrForSend_total ord rnd now e0) as (ua & da & w & e1 & -> & HS & He); [by apply H0|done|]. cbn [mbind res_bind].
  set (e2 := if eaValid ua then _ else e1). set (e3 := if wantFullPing _ _ then _ else e2).
  assert (tame e1 (setTimer true (maybeDiscoverRelays hasRelayServers now e3))) as HT.
  { etransitivity; [|apply tame_timer]. etransitivity; [|apply tame_relays]. transitivity e2.
    - unfold e2. destruct (eaValid ua); [apply tame_startPing|reflexivity].
    - unfold e3. destruct (wantFullPing _ _); [apply tame_sendPings|reflexivity]. }
  eexists. split_and!; [done|etransitivity; [apply H0|etransitivity; [exact HS|apply HT]]|].
  intros Hw. etransitivity; [exact H0|]. by rewrite <- (He Hw) at 1.
Qed.
Lemma discoPing_total ord rnd now size cb e : statesOk e → ord ≡ₚ map_to_list (eStates e) →
  ∃ e', discoPing txid peerMTU hasRelayServers MaxDiscoPingSize ord rnd now size cb e = Ok e' ∧ steady e e' ∧
    (ecWGOnly (eConfig e) = false → tame e e').
Proof.
  intros Hs Ho. unfold discoPing. destruct (_ || _); [eexists; split_and!; [done|apply tame_acting|intros; apply tame_acting]|].
  assert (∃ ua da e1, addrForPingSize ord rnd now size e = Ok (ua, da, e1) ∧ steady e e1 ∧ (ecWGOnly (eConfig e) = false → e1 = e))
    as (ua & da & e1 & -> & HS & He).
  { unfold addrForPingSize. destruct (size =? 0).
    - destruct (addrForSend_total ord rnd now e Hs Ho) as (ua & da & w & e1 & -> & HS & He). by eexists _, _, _.
    - destruct (_ && _); [destruct (_ <=? _)|]; eexists _, _, _; (split_and!; [done|reflexivity|done]). }
  cbn [mbind res_bind]. set (e2 := if apIsValid da then _ else e1). set (tr := eaValid ua && _). set (e3 := if tr then _ else e2).
  assert (tame e1 e3) as H3.
  { transitivity e2.
    - unfold e2. destruct (apIsValid da); [apply tame_startPing|reflexivity].
    - unfold e3. destruct tr; [apply tame_startPing|reflexivity]. }
  assert (∃ e4, (if tr && negb (isRelay ua) then Ok e3 else
      Ok (maybeDiscoverRelays hasRelayServers now (foldl (λ e c, startDiscoPing txid peerMTU (directTo c.1) now pingCLI size (Some cb) e) e3
            (map_to_list (eStates e3))))) = Ok (E := ()) e4 ∧ tame e1 e4) as (e4 & -> & H4).
  { destruct (tr && negb (isRelay ua)); [eexists; split; [done|exact H3]|]. eexists. split; [done|]. etransitivity; [exact H3|]. etransitivity; [|apply tame_relays].
    apply tame_foldl. intros. apply tame_startPing. }
  eexists. split_and!; [done|etransitivity; [exact HS|apply H4]|]. intros Hw. by rewrite <- (He Hw).
Qed.

(** ** One step *)
(** [a] is answered: a pong came for a ping sent to it, or a relay reported it. *)
Definition earns (e : Ep) (ev : EpEvent) (a : epAddr) : Prop :=
  match ev with
  | EvPong tx _ src => isDERP src = false ∧ ∃ sp, sent (ePings e) !! tx = Some sp ∧ spTo sp = a
  | EvRelayReady q => aqAddr q = a
  | _ => False
  end.
Definition bestKept (now : Z) (ev : EpEvent) (e e' : Ep) : Prop :=
  eBest e' = eBest e ∨ bestEp e' = zeroEpAddr ∨
  (trustUntil e' = now + trustUDPAddrDuration ∧ (bestEp e' = bestEp e ∧ ev = EvRecv (bestEp e) ∨ earns e ev (bestEp e'))).
Lemma tame_kept now ev e e' : tame e e' → bestKept now ev e e'.
Proof. intros [_ [?|?]]; [by left|right; by left]. Qed.

Lemma step_total wall now ev e : statesOk e → orderOk ev e →
  ∃ e', stepEp wall now ev e = Ok e' ∧ steady e e' ∧ (ecWGOnly (eConfig e) = false → bestKept now ev e e').
Proof.
  intros Hs Ho.
  assert (∀ e', tame e e' → ∃ e'', Ok (E := ()) e' = Ok e'' ∧ steady e e'' ∧ (ecWGOnly (eConfig e) = false → bestKept now ev e e'')) as HT.
  { intros e' He'. eexists. split_and!; [done|apply He'|intros; by apply tame_kept]. }
  destruct ev; cbn [stepEp orderOk] in *.
  - destruct (send_total ord rnd noV4 noV6 wall now fallback udpRes derpOk e Hs Ho) as (err & e' & -> & HS & HB).
    eexists. split_and!; [done|done|]. intros Hw. by apply tame_kept, HB.
  - destruct (heartbeat_total ord rnd wall now e Hs Ho) as (e' & -> & HS & HB). eexists. split_and!; [done|done|]. intros Hw. by apply tame_kept, HB.
  - destruct (discoPing_total ord rnd now size cb e Hs Ho) as (e' & -> & HS & HB). eexists. split_and!; [done|done|]. intros Hw. by apply tame_kept, HB.
  - destruct (pong_cases now tx pongSrc src e) as (e1 & HT1 & HB1 & [-> |(sp & q & Hsp & Hd & Hq & ->)]); [by apply HT|].
    eexists. split_and!; [done|etransitivity; [apply HT1|apply promote_steady]|]. intros _.
    destruct (promote_cases now q e1) as [HB|[HB HU]]; [left; by rewrite HB|]. right. right. split; [done|]. right. split; [done|].
    exists sp. split; [done|]. by rewrite HB.
  - apply HT, tame_timeout.
  - apply HT, tame_removeSent.
  - destruct (recv_cases src now e) as [HS HB]. eexists. split_and!; [done|done|]. intros Hw.
    destruct (HB Hw) as [?|(H1 & H2 & H3)]; [by left|]. right. right. split; [done|]. left. split; congruence.
  - apply HT, tame_candidate.
  - apply HT, tame_callMe.
  - apply HT, tame_node.
  - apply HT, tame_derpHome.
  - destruct (relay_cases now q e) as [HS HB]. eexists. split_and!; [done|done|]. intros _. destruct HB as [?|[HB HU]]; [by left|].
    right. right. split; [done|]. right. cbn. by rewrite HB.
  - apply HT, tame_connectivity.
  - apply HT, tame_reset.
  - apply HT, tame_icmp.
  - apply HT, tame_setLastPing.
Qed.

(** ** Runs *)
(** [ev] tells that [a] works: it is a pong, not over DERP, for a ping that was sent to
    [a], or the relay manager's report of [a]. *)
Definition answers (e : Ep) (ev : EpEvent) (a : epAddr) : Prop :=
  match ev with
  | EvPong tx _ src => isDERP src = false ∧ ∃ size, SendPing a tx size ∈ eActs e
  | EvRelayReady q => aqAddr q = a
  | _ => False
  end.
Definition heard (log : list (Z * EpEvent * Ep)) (a : epAddr) (until : Z) : Prop :=
  (∃ t ev e0, (t, ev, e0) ∈ log ∧ answers e0 ev a) ∧
  ∃ t ev e0, (t, ev, e0) ∈ log ∧ (ev = EvRecv a ∨ answers e0 ev a) ∧ until ≤ t + trustUDPAddrDuration.

Lemma earns_answers e ev a : sentOk e → earns e ev a → answers e ev a.
Proof. intros Hs. destruct ev; cbn; try done. intros (? & sp & Hsp & <-). split; [done|]. by apply (Hs tx). Qed.
Lemma heard_app log x a u : heard log a u → heard (log ++ [x]) a u.
Proof.
  intros [(t1 & v1 & s1 & H1 & A1) (t2 & v2 & s2 & H2 & A2)]. split; [exists t1, v1, s1|exists t2, v2, s2];
    (split; [apply elem_of_app; by left|done]).
Qed.

Lemma runs_inv e log : EpRuns e log →
  sentOk e ∧ statesOk e ∧ (ecWGOnly (eConfig e) = false → eaValid (bestEp e) = true → heard log (bestEp e) (trustUntil e)).
Proof.
  induction 1 as [e (HB & HP & HS & HA)|e log wall now ev e' Hrun (Hsent & Hst & Hh) Ho Hstep].
  - split_and!.
    + intros tx sp. by rewrite HP, lookup_empty.
    + unfold statesOk. rewrite HS. apply map_Forall_empty.
    + intros _. unfold bestEp. by rewrite HB.
  - destruct (step_total wall now ev e Hst Ho) as (e1 & E1 & HS & HB). rewrite Hstep in E1. injection E1 as <-.
    split_and!; [by apply HS|by apply HS|]. intros Hw Hv. rewrite (st_wg _ _ HS) in Hw.
    destruct (HB Hw) as [Eq|[Ez|(Hu & Hc)]].
    + unfold bestEp, trustUntil in *. rewrite Eq in *. apply heard_app. auto.
    + rewrite Ez in Hv. by vm_compute in Hv.
    + assert ((now, ev, e) ∈ log ++ [(now, ev, e)]) as Hin by (apply elem_of_app; right; by left).
      destruct Hc as [[Hb Hr]|Hearn].
      * rewrite Hb in *. destruct (heard_app _ (now, ev, e) _ _ (Hh Hw Hv)) as [H1 _]. split; [done|].
        exists now, ev, e. split_and!; [done|by left|lia].
      * apply earns_answers in Hearn; [|done]. split; [by exists now, ev, e|]. exists now, ev, e. split_and!; [done|by right|lia].
Qed.

(** C35: no event makes an endpoint panic.  Whatever the events so far and whatever the
    order in which the candidates are visited, each next event is handled; in particular
    the ring of the last 64 pongs of a candidate is never read or written out of range. *)
Theorem endpoint_never_panics e log wall now ev :
  EpRuns e log → orderOk ev e →
  (∃ e', stepEp wall now ev e = Ok e') ∧
  ∀ ep st, eStates e !! ep = Some st → zlen (recentPongs st) ≤ pongHistoryCount ∧ ∃ l, latencyLocked st = Ok l.
Proof.
  intros Hrun Ho. destruct (runs_inv _ _ Hrun) as (_ & Hst & _). split.
  - destruct (step_total wall now ev e Hst Ho) as (e' & ? & _). eauto.
  - intros ep st Hep. specialize (Hst ep st Hep). split; [apply Hst|by apply latency_safe].
Qed.

(** The packets that leave. *)
Lemma sendPackets_acts u d r ok e : ∃ l, eActs (sendPackets u d r ok e).2 = eActs e ++ l ∧
  (eaValid u = true → SendUDP u ∈ l) ∧ (apIsValid d = true → SendDERP d ∈ l).
Proof.
  unfold sendPackets. exists ((if eaValid u then [SendUDP u] else []) ++ (if apIsValid d then [SendDERP d] else [])).
  split_and!; [|intros ->; by left|intros ->; apply elem_of_app; right; by left].
  destruct (eaValid u); [destruct r as [|[]]|]; cbn [snd]; destruct (apIsValid d); cbn [snd app];
    unfold noteBadEndpoint; try destruct (isRelay u); cbn; by rewrite <- ?(assoc_L (++)), ?app_nil_r.
Qed.
Lemma sendPackets_bad u d ok e : eaValid u = true → bestEp (sendPackets u d (udpFailed true) ok e).2 = zeroEpAddr.
Proof. intros Hu. unfold sendPackets. rewrite Hu. unfold noteBadEndpoint. destruct (isRelay u); by destruct (apIsValid d). Qed.
Lemma sendPackets_err u d r ok e : (sendPackets u d r ok e).1 ≠ Some errNoUDPOrDERP ∧ (sendPackets u d r ok e).1 ≠ Some errExpired.
Proof. unfold sendPackets. destruct (eaValid u); [destruct r|]; destruct (apIsValid d); try destruct ok; done. Qed.

(** C18: packets go out.  Take any run of an endpoint of a peer that speaks disco, whose
    key has not expired and which has a DERP home.  Then [send] hands the packet to DERP,
    or to a UDP address alone - but the latter only when that address has answered a ping
    sent to it or was reported by the relay manager, and was last heard of at most 6.5
    seconds ago.  And when the socket reports the address as bad, the endpoint forgets it,
    so that the next packet goes over DERP. *)
Theorem packets_go_out e log ord rnd v4 v6 wall now fb u d :
  EpRuns e log → ecWGOnly (eConfig e) = false → ecExpired (eConfig e) = false → apIsValid (ecDERP (eConfig e)) = true →
  ∃ err e' l,
    send txid peerMTU hasRelayServers ord rnd v4 v6 wall now fb u d e = Ok (err, e') ∧ err ≠ Some errNoUDPOrDERP ∧
    eActs e' = eActs e ++ l ∧
    (SendDERP (ecDERP (eConfig e)) ∈ l ∨ SendUDP (bestEp e) ∈ l ∧ heard log (bestEp e) now) ∧
    (eaValid (bestEp e) = true → u = udpFailed true → bestEp e' = zeroEpAddr).
Proof.
  intros Hrun Hw Hx Hd. rewrite send_unfold, Hx, addrForSend_good by done. cbn [mbind res_bind].
  destruct (runs_inv _ _ Hrun) as (_ & _ & Hh). set (da := if eaValid (bestEp e) && _ then _ else _).
  assert (negb (eaValid (bestEp e)) && negb (apIsValid da) = false) as E.
  { unfold da. destruct (eaValid (bestEp e)); [done|]. cbn. by rewrite Hd. }
  rewrite E. cbn [andb]. rewrite E. set (e1 := sendPrepare _ _ _ _ _ _ _).
  destruct (sendPrepare_tame wall now v4 v6 false (bestEp e) e) as [[_ [l1 Hl1] _ _] _]. fold e1 in Hl1.
  destruct (sendPackets_acts (bestEp e) da u d e1) as (l2 & Hl2 & HU & HD).
  pose proof (sendPackets_err (bestEp e) da u d e1) as [He _]. pose proof (sendPackets_bad (bestEp e) da d e1) as Hb.
  destruct (sendPackets (bestEp e) da u d e1) as [err e2] eqn:EP. cbn [fst snd] in *.
  exists err, e2, (l1 ++ l2). split_and!; [done|done|by rewrite Hl2, Hl1, app_assoc| |].
  - unfold da in HD. destruct (eaValid (bestEp e) && (now <=? trustUntil e)) eqn:Et.
    + right. apply andb_true_iff in Et as [Hv Ht%Z.leb_le]. split; [apply elem_of_app; right; auto|].
      destruct (Hh Hw Hv) as [H1 (t & ev & e0 & Hin & Ha & Hu)]. split; [done|]. exists t, ev, e0. split_and!; [done|done|lia].
    + left. apply elem_of_app. right. auto.
  - intros Hv ->. specialize (Hb Hv). by rewrite EP in Hb.
Qed.
End runs.

(** ** Call me maybe *)
Section callme.
Context (txid : nat → Z) (peerMTU hasRelayServers : bool).

Lemma pings_frame ep now p cb sizes e :
  let e' := foldl (onePing txid ep now p cb) e sizes in eConfig e' = eConfig e ∧ eStates e' = eStates e.
Proof. revert e. induction sizes as [|s sizes IH]; intros e; [done|]. cbn [foldl]. destruct (IH (onePing txid ep now p cb e s)) as [-> ->]. done. Qed.
Lemma startPing_frame ep now p size cb e k :
  let e' := startDiscoPing txid peerMTU ep now p size cb e in
  eConfig e' = eConfig e ∧ (is_Some (eStates e' !! k) ↔ is_Some (eStates e !! k)).
Proof.
  cbn. unfold startDiscoPing. destruct (ecDisco (eConfig e)); [|done]. destruct (negb _); [done|]. set (e1 := if isCLI p || _ then e else _).
  destruct (pings_frame ep now p cb (pingSizes peerMTU ep p size) (noteSendAny now (if isCLI p then noteTxActivityExtTrigger now e1 else e1))) as [-> ->].
  assert (eConfig e1 = eConfig e ∧ (is_Some (eStates e1 !! k) ↔ is_Some (eStates e !! k))) as [H1 H2].
  { unfold e1. destruct (_ || _); [done|]. split; [done|]. cbn. by rewrite lookup_alter_is_Some. }
  destruct (isCLI p); [|done]. unfold noteTxActivityExtTrigger. destruct (_ && _); done.
Qed.
(** A known candidate of a peer that speaks disco is pinged. *)
Lemma startPing_sends ap now e : is_Some (ecDisco (eConfig e)) → is_Some (eStates e !! ap) →
  ∃ l tx size, eActs (startDiscoPing txid peerMTU (directTo ap) now pingDiscovery 0 None e) = eActs e ++ l ∧ SendPing (directTo ap) tx size ∈ l.
Proof.
  intros [k Hk] Hap. unfold startDiscoPing. rewrite Hk. cbn [isCLI orb]. change (isRelay (directTo ap)) with false. cbn [orb].
  change (eaAP (directTo ap)) with ap. rewrite bool_decide_true by done. cbn [negb].
  assert (∃ s ss, pingSizes peerMTU (directTo ap) pingDiscovery 0 = s :: ss) as (s & ss & ->).
  { unfold pingSizes. destruct (_ && _); cbn; eauto. }
  cbn [foldl]. set (e1 := onePing _ _ _ _ _ _ s).
  destruct (tame_foldl (onePing txid (directTo ap) now pingDiscovery None) ss e1) as [[_ [l Hl] _ _] _]; [intros; apply tame_onePing|].
  rewrite Hl. eexists (_ :: l), _, s. split; [unfold e1; cbn; by rewrite <- app_assoc|by left].
Qed.

Lemma pingCandidate_frame wall now x c k :
  eConfig (pingCandidate txid peerMTU wall now x c).2 = eConfig x.2 ∧
  (eStates x.2 !! k = None → eStates (pingCandidate txid peerMTU wall now x c).2 !! k = None) ∧
  (c.1 ≠ k → is_Some (eStates x.2 !! k) → is_Some (eStates (pingCandidate txid peerMTU wall now x c).2 !! k)).
Proof.
  destruct x as [sa e], c as [ep st]. cbn. destruct (shouldDelete wall st); cbn [snd].
  - unfold deleteCandidate. destruct (decide _); cbn [eConfig eStates setBestAddr setBest setStates]; rewrite lookup_delete_None;
      split_and!; try tauto; intros; by rewrite lookup_delete_ne.
  - destruct (_ && _); cbn [snd]; [done|]. destruct (startPing_frame (directTo ep) now pingDiscovery 0 None e k) as [-> Hk].
    split_and!; [done| |intros _; by apply Hk]. rewrite !eq_None_not_Some. tauto.
Qed.
Lemma pingLoop_frame wall now l x k :
  eConfig (foldl (pingCandidate txid peerMTU wall now) x l).2 = eConfig x.2 ∧
  (eStates x.2 !! k = None → eStates (foldl (pingCandidate txid peerMTU wall now) x l).2 !! k = None) ∧
  (k ∉ l.*1 → is_Some (eStates x.2 !! k) → is_Some (eStates (foldl (pingCandidate txid peerMTU wall now) x l).2 !! k)).
Proof.
  revert x. induction l as [|c l IH]; intros x; [done|]. cbn [foldl fmap list_fmap].
  destruct (pingCandidate_frame wall now x c k) as (HC & HN & HS). destruct (IH (pingCandidate txid peerMTU wall now x c)) as (HC' & HN' & HS').
  split_and!; [congruence|auto|]. rewrite not_elem_of_cons. intros [? ?] ?. apply HS'; [done|]. apply HS; [congruence|done].
Qed.
Lemma pingLoop_acts wall now l x : ∃ l', eActs (foldl (pingCandidate txid peerMTU wall now) x l).2 = eActs x.2 ++ l'.
Proof.
  assert (tame x.2 (foldl (pingCandidate txid peerMTU wall now) x l).2) as [[_ H _ _] _]; [|done].
  revert x. induction l as [|c l IH]; intros [sa x]; [reflexivity|]. cbn [foldl]. etransitivity; [|apply IH]. apply tame_pingCandidate.
Qed.

(** A candidate that is kept and was not pinged lately is pinged. *)
Lemma sendPings_sends wall now cmm ap st e : is_Some (ecDisco (eConfig e)) → eStates e !! ap = Some st →
  shouldDelete wall st = false → lastPing st = 0 →
  ∃ l tx size, eActs (sendDiscoPings txid peerMTU wall now cmm e) = eActs e ++ l ∧ SendPing (directTo ap) tx size ∈ l.
Proof.
  intros Hd Hst Hdel Hlp. unfold sendDiscoPings. set (e1 := setTimes _ e).
  assert ((ap, st) ∈ map_to_list (eStates e1)) as Hin by by apply elem_of_map_to_list.
  pose proof (NoDup_fst_map_to_list (eStates e1)) as Hnd. apply list_elem_of_split in Hin as (l1 & l2 & El). rewrite El in *.
  rewrite foldl_app. cbn [foldl]. set (x := foldl _ (false, e1) l1).
  destruct (pingLoop_frame wall now l1 (false, e1) ap) as (HC & _ & HS). fold x in HC, HS.
  destruct (pingLoop_acts wall now l1 (false, e1)) as [a1 Ha1]. fold x in Ha1.
  rewrite fmap_app in Hnd. apply NoDup_app in Hnd as (_ & Hni & _).
  assert (is_Some (eStates x.2 !! ap)) as Hx by (apply HS; [intros ?; eapply Hni; [done|by left]|by eexists]).
  destruct x as [sa e2]. cbn [snd] in *. cbn [pingCandidate]. rewrite Hdel, Hlp. cbn [Z.eqb negb andb].
  destruct (startPing_sends ap now e2) as (a2 & tx & size & Ha2 & Hs); [by rewrite HC|done|].
  set (e3 := startDiscoPing _ _ _ _ _ _ _ e2) in *. destruct (pingLoop_acts wall now l2 (true, e3)) as [a3 Ha3].
  destruct (foldl _ (true, e3) l2) as [sb e4]. cbn [snd] in Ha3.
  exists ((a1 ++ a2 ++ a3) ++ (if sb && cmm && apIsValid (ecDERP (eConfig e4)) then [SendCallMeMaybe (ecDERP (eConfig e4))] else [])), tx, size.
  split; [|rewrite !elem_of_app; auto]. 
  destruct (_ && _); cbn [acting eActs]; rewrite Ha3, Ha2, Ha1; cbn [snd]; change (eActs e1) with (eActs e); by rewrite <- ?(assoc_L (++)), ?app_nil_r.
Qed.
Lemma sendPings_absent wall now cmm k e : eStates e !! k = None → eStates (sendDiscoPings txid peerMTU wall now cmm e) !! k = None.
Proof.
  intros Hk. unfold sendDiscoPings. set (e1 := setTimes _ e).
  destruct (pingLoop_frame wall now (map_to_list (eStates e1)) (false, e1) k) as (_ & HN & _). specialize (HN Hk).
  destruct (foldl _ _ _) as [sa e2]. by destruct (_ && _).
Qed.
Lemma relays_frame now e : let e' := maybeDiscoverRelays hasRelayServers now e in
  eStates e' = eStates e ∧ ∃ l, eActs e' = eActs e ++ l.
Proof.
  cbn. split; [unfold maybeDiscoverRelays; by destruct (wantUDPRelayPathDiscovery _ _ _)|]. apply (tame_relays hasRelayServers now e).
Qed.

(** The two loops over addresses. *)
Definition toldWall (wall : Z) (e : Ep) (k : AddrPort) : Prop := ∃ st, eStates e !! k = Some st ∧ callMeMaybeTime st = wall.
Lemma callMe_loop wall l e :
  let e' := foldl (callMeAddr wall) e l in
  eActs e' = eActs e ∧ eConfig e' = eConfig e ∧
  (∀ k, k ∉ l → isCallMeMaybeEP e' !! k = isCallMeMaybeEP e !! k) ∧
  (∀ k, Is6 (ap_addr k) && IsLinkLocalUnicast (ap_addr k) = false →
    k ∈ l ∨ toldWall wall e k ∧ isCallMeMaybeEP e !! k = Some true → toldWall wall e' k ∧ isCallMeMaybeEP e' !! k = Some true).
Proof.
  cbn. revert e. induction l as [|a l IH]; intros e; [split_and!; try done; intros k _ [H|H]; [by apply elem_of_nil in H|done]|].
  cbn [foldl]. destruct (IH (callMeAddr wall e a)) as (H1 & H2 & H3 & H4). split_and!.
  - rewrite H1. unfold callMeAddr. by destruct (_ && _).
  - rewrite H2. unfold callMeAddr. by destruct (_ && _).
  - intros k [Hne Hk]%not_elem_of_cons. rewrite H3 by done. unfold callMeAddr. destruct (_ && _); [done|]. cbn. by rewrite lookup_insert_ne.
  - intros k Hll Hk. apply H4; [done|]. destruct (decide (k ∈ l)) as [|Hni]; [by left|]. right.
    unfold callMeAddr, toldWall. destruct (decide (k = a)) as [<-|Hne].
    + rewrite Hll. cbn. rewrite !lookup_insert_eq. eauto.
    + destruct Hk as [[?|?]%elem_of_cons|[(st & Hst & Ht) Hc]]; [done|done|].
      destruct (Is6 (ap_addr a) && _); [eauto|]. cbn.
      rewrite !lookup_insert_ne by done. eauto.
Qed.
Definition dropUntold (e : Ep) (c : AddrPort * bool) : Ep :=
  if c.2 then e else deleteCandidate c.1 (setCMM (delete c.1 (isCallMeMaybeEP e)) e).
Lemma drop_loop l e :
  let e' := foldl dropUntold e l in
  eActs e' = eActs e ∧ eConfig e' = eConfig e ∧
  (∀ k, (k, false) ∉ l → eStates e' !! k = eStates e !! k) ∧
  (∀ k, (k, false) ∈ l ∨ eStates e !! k = None → eStates e' !! k = None).
Proof.
  cbn. revert e. induction l as [|[a b] l IH]; intros e; [split_and!; try done; intros k [H|H]; [by apply elem_of_nil in H|done]|].
  cbn [foldl]. destruct (IH (dropUntold e (a, b))) as (H1 & H2 & H3 & H4).
  assert (eActs (dropUntold e (a, b)) = eActs e ∧ eConfig (dropUntold e (a, b)) = eConfig e ∧
    eStates (dropUntold e (a, b)) = if b then eStates e else delete a (eStates e)) as (D1 & D2 & D3).
  { unfold dropUntold, deleteCandidate. cbn. destruct b; [done|]. by destruct (decide _). }
  split_and!; [congruence|congruence| |].
  - intros k [Hne Hk]%not_elem_of_cons. rewrite H3, D3 by done. destruct b; [done|]. rewrite lookup_delete_ne; [done|congruence].
  - intros k Hk. apply H4. rewrite D3. destruct Hk as [[[= -> <-]|?]%elem_of_cons|Hk]; [right; by rewrite lookup_delete_eq|by left|].
    right. destruct b; [done|]. rewrite lookup_delete_None. auto.
Qed.

(** A call-me-maybe replaces what the peer told before.  When it is handled for a
    peer that speaks disco, every address of the list except the link-local ones of IPv6
    is pinged at once, even when it was pinged a moment ago; and an address from an
    earlier message that is not repeated is no candidate any more. *)
Theorem call_me_maybe_pings wall now numbers e :
  is_Some (ecDisco (eConfig e)) → wall ≠ 0 →
  (∀ ap, ap ∈ numbers → Is6 (ap_addr ap) && IsLinkLocalUnicast (ap_addr ap) = false →
    ∃ l tx size, eActs (handleCallMeMaybe txid peerMTU hasRelayServers wall now numbers e) = eActs e ++ l ∧ SendPing (directTo ap) tx size ∈ l) ∧
  (∀ ap b, isCallMeMaybeEP e !! ap = Some b → ap ∉ numbers →
    eStates (handleCallMeMaybe txid peerMTU hasRelayServers wall now numbers e) !! ap = None).
Proof.
  intros Hd Hwall. unfold handleCallMeMaybe. set (e1 := setCMM _ e). set (e2 := foldl (callMeAddr wall) e1 numbers).
  change (λ (e0 : Ep) (c : AddrPort * bool), if c.2 then e0 else _) with dropUntold.
  set (e3 := foldl dropUntold e2 (map_to_list (isCallMeMaybeEP e2))). set (e4 := setStates (withLastPing 0 <$> eStates e3) e3).
  destruct (callMe_loop wall numbers e1) as (A2 & C2 & K2 & T2). fold e2 in A2, C2, K2, T2.
  destruct (drop_loop (map_to_list (isCallMeMaybeEP e2)) e2) as (A3 & C3 & K3 & D3). fold e3 in A3, C3, K3, D3.
  split.
  - intros ap Hin Hll. destruct (T2 ap Hll (or_introl Hin)) as [(st & Hst & Htime) Htrue].
    rewrite <- K3 in Hst by (rewrite elem_of_map_to_list; congruence).
    destruct (sendPings_sends wall now false ap (withLastPing 0 st) e4) as (l & tx & size & Hl & Hs); [| | |done|].
    + unfold e4. cbn. by rewrite C3, C2.
    + unfold e4. cbn. by rewrite lookup_fmap, Hst.
    + unfold shouldDelete. cbn. rewrite Htime. by destruct (Z.eqb_spec wall 0).
    + destruct (relays_frame now (sendDiscoPings txid peerMTU wall now false e4)) as [_ [l' ->]].
      exists (l ++ l'), tx, size. split; [|apply elem_of_app; by left]. rewrite Hl, <- app_assoc. f_equal.
      unfold e4. cbn. by rewrite A3, A2.
  - intros ap b Hb Hni. destruct (relays_frame now (sendDiscoPings txid peerMTU wall now false e4)) as [-> _].
    apply sendPings_absent. unfold e4. cbn. rewrite lookup_fmap, D3; [done|]. left. apply elem_of_map_to_list.
    rewrite K2 by done. unfold e1. cbn. by rewrite lookup_fmap, Hb.
Qed.
End callme.

(** ** A run *)
Definition exAP : AddrPort := mkAddrPort (IPv4 203 0 113 5) 41641.
Definition exNew : Ep :=
  mkEp (mkTimes 0 0 0 0 0) (mkBest zeroQuality 0 0) (mkEpConfig None AddrPortZ false false false false) (mkPings ∅ 0 ∅) ∅ ∅ false [].
Definition exTx (n : nat) : Z := 1000 + Z.of_nat n.
Definition exNode : Ep := updateFromNode 1 7 1 130 [exAP] false false exNew.
Definition exSent : Ep :=
  match send exTx false false (map_to_list (eStates exNode)) 0 false false 2 2 0 udpSent true exNode with Ok (_, e) => e | _ => exNew end.
Definition exBest : Ep := (handlePong (Second + 2) 1000 exAP (directTo exAP) exSent).2.
Definition exLog : list (Z * EpEvent * Ep) :=
  [(1, EvNode 7 1 130 [exAP] false false, exNew);
   (2, EvSend (map_to_list (eStates exNode)) 0 false false 0 udpSent true, exNode);
   (Second + 2, EvPong 1000 exAP (directTo exAP), exSent)].

Lemma exRuns : EpRuns exTx false false 1400 exBest exLog.
Proof.
  apply (runs_step _ _ _ _ exSent [_; _] (Second + 2) (Second + 2)); [|done|reflexivity].
  apply (runs_step _ _ _ _ exNode [_] 2 2); [|cbn [orderOk]; reflexivity|reflexivity].
  apply (runs_step _ _ _ _ exNew [] 1 1); [|done|reflexivity]. by apply runs_new.
Qed.

Lemma packets_go_out_witness : bestEp exBest = directTo exAP ∧
  ∃ err e' l,
    send exTx false false [] 0 false false (2 * Second) (2 * Second) 0 udpSent true exBest = Ok (err, e') ∧ err ≠ Some errNoUDPOrDERP ∧
    eActs e' = eActs exBest ++ l ∧
    (SendDERP (ecDERP (eConfig exBest)) ∈ l ∨ SendUDP (bestEp exBest) ∈ l ∧ heard exLog (bestEp exBest) (2 * Second)) ∧
    (eaValid (bestEp exBest) = true → udpSent = udpFailed true → bestEp e' = zeroEpAddr).
Proof.
  split; [reflexivity|].
  exact (packets_go_out exTx false false 1400 exBest exLog [] 0 false false (2 * Second) (2 * Second) 0 udpSent true exRuns eq_refl eq_refl eq_refl).
Defined.
Lemma endpoint_never_panics_witness :
  (∃ e', stepEp exTx false false 1400 (9 * Second) (9 * Second) (EvHeartbeat (map_to_list (eStates exBest)) 0) exBest = Ok e') ∧
  ∀ ep st, eStates exBest !! ep = Some st → zlen (recentPongs st) ≤ pongHistoryCount ∧ ∃ l, latencyLocked st = Ok l.
Proof. apply (endpoint_never_panics exTx false false 1400 exBest exLog); [apply exRuns|cbn [orderOk]; reflexivity]. Defined.
Lemma call_me_maybe_pings_witness :
  ∃ l tx size, eActs (handleCallMeMaybe exTx false false (2 * Second) (2 * Second) [exAP] exBest) = eActs exBest ++ l ∧ SendPing (directTo exAP) tx size ∈ l.
Proof.
  apply (proj1 (call_me_maybe_pings exTx false false (2 * Second) (2 * Second) [exAP] exBest ltac:(by eexists) ltac:(done)));
    [by left|reflexivity].
Defined.
