(* ===== verification/Relay.v ===== *)
(** * The relay manager

    [wgengine/magicsock/relaymanager.go]: how a node finds a path to a peer through UDP
    relay servers.  For an endpoint it asks every known server for an allocation, does
    the three-way handshake with what it gets, probes the path with pings and reports it
    to the endpoint when a pong has come back.

    The manager is one goroutine, [runLoop], that owns the indexes of work, and one
    goroutine for each piece of work.  A handler of the loop is a function on the system
    of all of them.  Where the loop waits for a piece of work that it has cancelled, the
    steps of that goroutine up to its answer are part of the handler: others touch neither
    it nor the indexes in the meantime.  A wait that nothing can end is [Err blocked].

    Work is told apart by a number, which stands for the pointer; a record of work is not
    changed once it is made.  Keys are the integers of their 32 bytes, the zero key is 0. *)

From stdpp Require Import base gmap sets list.
From S2P Require Import Prelude Bytes NetIP PeerMap Disco DiscoRx Paths.

(** ** Data *)
Record candidatePeerRelay := mkCand { cNodeKey : Z; cDiscoKey : Z; derpHomeRegionID : Z }.
#[export] Instance cand_eq_dec : EqDecision candidatePeerRelay.
Proof. solve_decision. Defined.
#[export] Instance cand_countable : Countable candidatePeerRelay.
Proof. refine (inj_countable' (λ c, (cNodeKey c, cDiscoKey c, derpHomeRegionID c)) (λ '(a, b, d), mkCand a b d) _). by intros []. Defined.
Definition zeroCand : candidatePeerRelay := mkCand 0 0 0.
Definition candIsValid (c : candidatePeerRelay) : bool := negb (cNodeKey c =? 0) && negb (cDiscoKey c =? 0).

(** [udprelay.ServerEndpoint]. *)
Record ServerEndpoint := mkServerEp {
  ServerDisco : Z; ClientDisco : Z * Z; LamportID : Z; VNI : Z; BindLifetime : Z; SteadyStateLifetime : Z; AddrPorts : list AddrPort
}.
Definition zeroServerEp : ServerEndpoint := mkServerEp 0 (0, 0) 0 0 0 0 [].
Definition discoBytes (k : Z) : bytes := be_bytes 32 k.
Definition ofRelayEp (e : UDPRelayEndpoint) : ServerEndpoint :=
  mkServerEp (keyZ (reServerDisco e)) (keyZ (reClientDisco e).1, keyZ (reClientDisco e).2) (reLamportID e) (reVNI e)
    (reBindLifetime e) (reSteadyStateLifetime e) (reAddrPorts e).
Definition toRelayEp (se : ServerEndpoint) : UDPRelayEndpoint :=
  mkRelayEp (discoBytes (ServerDisco se)) (discoBytes (ClientDisco se).1, discoBytes (ClientDisco se).2) (LamportID se) (VNI se)
    (BindLifetime se) (SteadyStateLifetime se) (AddrPorts se).

(** [key.SortedPairOfDiscoPublic]. *)
Definition NewSortedPairOfDiscoPublic (a b : Z) : Z * Z := if a <? b then (a, b) else (b, a).

Record endpointWithLastBest := mkWlb { wEp : positive; lastBest : addrQuality; lastBestIsTrusted : bool }.
Record relayHandshakeWork := mkHsWork {
  hwID : positive; hwWlb : endpointWithLastBest; hwSe : ServerEndpoint; hwServer : candidatePeerRelay; handshakeGen : Z
}.
Record relayEndpointAllocWork := mkAllocWork {
  awID : positive; awWlb : endpointWithLastBest; awKeys : Z * Z; awCand : candidatePeerRelay; allocGen : Z
}.
#[export] Instance addrQuality_eq_dec : EqDecision addrQuality.
Proof. solve_decision. Defined.
#[export] Instance wlb_eq_dec : EqDecision endpointWithLastBest.
Proof. solve_decision. Defined.
#[export] Instance serverEp_eq_dec : EqDecision ServerEndpoint.
Proof. solve_decision. Defined.
#[export] Instance hsWork_eq_dec : EqDecision relayHandshakeWork.
Proof. solve_decision. Defined.
#[export] Instance allocWork_eq_dec : EqDecision relayEndpointAllocWork.
Proof. solve_decision. Defined.
Definition hwEp (w : relayHandshakeWork) : positive := wEp (hwWlb w).
Definition hwDisco (w : relayHandshakeWork) : Z := ServerDisco (hwSe w).
Definition hwVNI (w : relayHandshakeWork) : Z := VNI (hwSe w).
Definition awEp (w : relayEndpointAllocWork) : positive := wEp (awWlb w).

Record newRelayServerEndpointEvent := mkNewServerEp { neWlb : endpointWithLastBest; neSe : ServerEndpoint; neServer : candidatePeerRelay }.
Record relayEndpointAllocWorkDoneEvent := mkAllocDone { adWork : relayEndpointAllocWork; allocated : ServerEndpoint }.
Record relayEndpointHandshakeWorkDoneEvent := mkHsDone { hdWork : relayHandshakeWork; pongReceivedFrom : AddrPort; hdLatency : Z }.
Record relayDiscoMsgEvent := mkDiscoMsg { dmMsg : Message; relayServerNodeKey : Z; dmDisco : Z; dmFrom : AddrPort; dmVNI : Z }.
Definition addrPortVNI (e : relayDiscoMsgEvent) : AddrPort * Z := (dmFrom e, dmVNI e).

(** ** The manager *)

(** Maps of maps, whose inner maps are made when they are needed and go when they are
    empty. *)
Section nested.
Context `{Countable K} `{Countable L} {V : Type}.
Definition get2 (m : gmap K (gmap L V)) (k : K) (l : L) : option V := m !! k ≫= lookup l.
Definition put2 (k : K) (l : L) (v : V) (m : gmap K (gmap L V)) : gmap K (gmap L V) := <[k := <[l := v]> (default ∅ (m !! k))]> m.
Definition del2 (k : K) (l : L) (m : gmap K (gmap L V)) : gmap K (gmap L V) :=
  let inner := delete l (default ∅ (m !! k)) in
  if decide (inner = ∅) then delete k m else <[k := inner]> m.
End nested.

Record relayManager := mkRelayManager {
  serversByNodeKey : gmap Z candidatePeerRelay;
  allocWorkByCandidatePeerRelayByEndpoint : gmap positive (gmap candidatePeerRelay relayEndpointAllocWork);
  allocWorkByDiscoKeysByServerNodeKey : gmap Z (gmap (Z * Z) relayEndpointAllocWork);
  handshakeWorkByServerDiscoByEndpoint : gmap positive (gmap Z relayHandshakeWork);
  handshakeWorkByServerDiscoVNI : gmap (Z * Z) relayHandshakeWork;
  handshakeWorkAwaitingPong : gmap positive (AddrPort * Z);     (* by the number of the work *)
  addrPortVNIToHandshakeWork : gmap (AddrPort * Z) relayHandshakeWork;
  handshakeGeneration : Z;
  allocGeneration : Z;
  hasPeerRelayServers : bool
}.
Definition newRelayManager : relayManager := mkRelayManager ∅ ∅ ∅ ∅ ∅ ∅ ∅ 0 0 false.

(** ** The goroutines of work *)

(** A goroutine that runs [handshakeServerEndpoint]: not yet run, in its loop with the
    key of the peer, whether it has answered a challenge and the pings it has sent, about
    to run its deferred function, offering the event to the loop, gone. *)
Inductive HsPhase : Type :=
  | HsStart
  | HsLoop (remote : Z) (answerSent : bool) (sentPingAt : gmap bytes Z) (deadline : Z)
  | HsFin (d : relayEndpointHandshakeWorkDoneEvent)
  | HsOffer (d : relayEndpointHandshakeWorkDoneEvent)
  | HsExit.
Record HsThread := mkHsThread { htWork : relayHandshakeWork; htCancelled : bool; htPhase : HsPhase; htDoneCh : option relayEndpointHandshakeWorkDoneEvent }.
Inductive AllocPhase : Type :=
  | AlLoop (returnAfter retryAfter : Z) (retried : bool)
  | AlFin (d : relayEndpointAllocWorkDoneEvent)
  | AlOffer (d : relayEndpointAllocWorkDoneEvent)
  | AlExit.
Record AllocThread := mkAllocThread { atWork : relayEndpointAllocWork; atCancelled : bool; atPhase : AllocPhase; atDoneCh : option relayEndpointAllocWorkDoneEvent }.

Definition hsTo (p : HsPhase) (th : HsThread) : HsThread := mkHsThread (htWork th) (htCancelled th) p (htDoneCh th).
Definition alTo (p : AllocPhase) (th : AllocThread) : AllocThread := mkAllocThread (atWork th) (atCancelled th) p (atDoneCh th).

(** What the manager and the goroutines start elsewhere, and the messages that a
    handshake was given. *)
Inductive RelayAction : Type :=
  | Transmit (dst : epAddr) (dstKey dstDisco : Z) (m : Message)            (* sendDiscoMessage *)
  | GoCallMeMaybeVia (ep : positive) (se : ServerEndpoint)
  | Ready (w : relayHandshakeWork) (q : addrQuality)                       (* udpRelayEndpointReady *)
  | Servers (l : list candidatePeerRelay)
  | Given (w : relayHandshakeWork) (ev : relayDiscoMsgEvent).

Record Relays := mkRelays {
  mgr : relayManager;
  hsThreads : gmap positive HsThread;
  alThreads : gmap positive AllocThread;
  discoInfoByServerDisco : gmap Z (gset positive);
  loopRuns : bool;                    (* or else runLoopStoppedCh holds its token *)
  nextWork : positive;
  epDiscos : gmap positive Z;         (* ep.disco.Load() of the endpoints *)
  selfDisco : Z;
  selfKey : Z;
  clock : Z;
  rdraws : nat;
  rlog : list RelayAction
}.
Definition newRelays : Relays := mkRelays newRelayManager ∅ ∅ ∅ false 1 ∅ 0 0 0 0 [].

Definition setMgr (r : relayManager) (s : Relays) : Relays :=
  mkRelays r (hsThreads s) (alThreads s) (discoInfoByServerDisco s) (loopRuns s) (nextWork s) (epDiscos s) (selfDisco s) (selfKey s) (clock s) (rdraws s) (rlog s).
Definition setHs (m : gmap positive HsThread) (s : Relays) : Relays :=
  mkRelays (mgr s) m (alThreads s) (discoInfoByServerDisco s) (loopRuns s) (nextWork s) (epDiscos s) (selfDisco s) (selfKey s) (clock s) (rdraws s) (rlog s).
Definition setAl (m : gmap positive AllocThread) (s : Relays) : Relays :=
  mkRelays (mgr s) (hsThreads s) m (discoInfoByServerDisco s) (loopRuns s) (nextWork s) (epDiscos s) (selfDisco s) (selfKey s) (clock s) (rdraws s) (rlog s).
Definition setInfos (m : gmap Z (gset positive)) (s : Relays) : Relays :=
  mkRelays (mgr s) (hsThreads s) (alThreads s) m (loopRuns s) (nextWork s) (epDiscos s) (selfDisco s) (selfKey s) (clock s) (rdraws s) (rlog s).
Definition setRuns (b : bool) (s : Relays) : Relays :=
  mkRelays (mgr s) (hsThreads s) (alThreads s) (discoInfoByServerDisco s) b (nextWork s) (epDiscos s) (selfDisco s) (selfKey s) (clock s) (rdraws s) (rlog s).
Definition setNext (n : positive) (s : Relays) : Relays :=
  mkRelays (mgr s) (hsThreads s) (alThreads s) (discoInfoByServerDisco s) (loopRuns s) n (epDiscos s) (selfDisco s) (selfKey s) (clock s) (rdraws s) (rlog s).
Definition setDraws (n : nat) (s : Relays) : Relays :=
  mkRelays (mgr s) (hsThreads s) (alThreads s) (discoInfoByServerDisco s) (loopRuns s) (nextWork s) (epDiscos s) (selfDisco s) (selfKey s) (clock s) n (rlog s).
Definition setOutside (discos : gmap positive Z) (disco key now : Z) (s : Relays) : Relays :=
  mkRelays (mgr s) (hsThreads s) (alThreads s) (discoInfoByServerDisco s) (loopRuns s) (nextWork s) discos disco key now (rdraws s) (rlog s).
Definition logged (l : list RelayAction) (s : Relays) : Relays :=
  mkRelays (mgr s) (hsThreads s) (alThreads s) (discoInfoByServerDisco s) (loopRuns s) (nextWork s) (epDiscos s) (selfDisco s) (selfKey s) (clock s) (rdraws s) (rlog s ++ l).

(** The random transaction IDs, in the order in which they are drawn, and the order in
    which a map is ranged over. *)
Class RelayRandom := {
  relayTxID : nat → bytes;
  rangeOrder : ∀ {A : Type}, nat → list A → list A;
  rangeOrder_perm {A} n (l : list A) : rangeOrder n l ≡ₚ l
}.
Inductive Blocked : Type := blocked.
Fixpoint forAll {A} (f : A → Relays → res Blocked Relays) (l : list A) (s : Relays) : res Blocked Relays :=
  match l with
  | [] => Ok s
  | x :: l => s ← f x s; forAll f l s
  end.

Section relay.
Context `{RelayRandom}.

(** ** Cached keys of servers *)
Definition ensureDiscoInfoFor (w : relayHandshakeWork) (s : Relays) : Relays :=
  let m := discoInfoByServerDisco s in
  setInfos (<[hwDisco w := default ∅ (m !! hwDisco w) ∪ {[hwID w]}]> m) s.
Definition derefDiscoInfoFor (w : relayHandshakeWork) (s : Relays) : Relays :=
  let m := discoInfoByServerDisco s in
  match m !! hwDisco w with
  | None => s
  | Some work =>
      let work := work ∖ {[hwID w]} in
      setInfos (if decide (work = ∅) then delete (hwDisco w) m else <[hwDisco w := work]> m) s
  end.
Definition relayDiscoInfo (serverDisco : Z) (s : Relays) : bool := bool_decide (is_Some (discoInfoByServerDisco s !! serverDisco)).

(** ** [handshakeServerEndpoint] *)
Definition maxHandshakeLifetime : Z := Second * 30.
Definition limitPings : nat := 10.

Definition setHsThread (th : HsThread) (s : Relays) : Relays := setHs (<[hwID (htWork th) := th]> (hsThreads s)) s.
Definition noPong (w : relayHandshakeWork) : relayEndpointHandshakeWorkDoneEvent := mkHsDone w AddrPortZ 0.
Definition bindCommon (w : relayHandshakeWork) (remote : Z) (challenge : bytes) : BindUDPRelayEndpointCommon :=
  mkCommon (hwVNI w) (handshakeGen w) (discoBytes remote) challenge.
Definition relayAddr (w : relayHandshakeWork) (ap : AddrPort) : epAddr := mkEpAddr ap (vniSet (hwVNI w)).

(** Up to its loop. *)
Definition hsStart (id : positive) (s : Relays) : Relays :=
  match hsThreads s !! id with
  | Some th =>
      let w := htWork th in
      match htPhase th with
      | HsStart =>
          let s := ensureDiscoInfoFor w s in
          match epDiscos s !! hwEp w with
          | None => setHsThread (hsTo (HsFin (noPong w)) th) s
          | Some remote =>
              match filter (λ ap, apIsValid ap = true) (AddrPorts (hwSe w)) with
              | [] => setHsThread (hsTo (HsFin (noPong w)) th) s
              | aps =>
                  let s := logged ((λ ap, Transmit (relayAddr w ap) 0 (hwDisco w) (BindUDPRelayEndpoint (bindCommon w remote zero32))) <$> aps) s in
                  setHsThread (hsTo (HsLoop remote false ∅ (clock s + Z.min (BindLifetime (hwSe w)) maxHandshakeLifetime)) th) s
              end
          end
      | _ => s
      end
  | None => s
  end.
(** [txPing]: the pings in flight and the messages. *)
Definition txPing (w : relayHandshakeWork) (remote : Z) (to : AddrPort) (withAnswer : option bytes) (sent : gmap bytes Z) (s : Relays)
    : gmap bytes Z * Relays :=
  if decide (size sent = limitPings) then (sent, s)
  else
    let txid := relayTxID (rdraws s) in
    let answer := match withAnswer with
                  | Some ch => [Transmit (relayAddr w to) 0 (hwDisco w) (BindUDPRelayEndpointAnswer (bindCommon w remote ch))]
                  | None => []
                  end in
    (<[txid := clock s]> sent, setDraws (S (rdraws s)) (logged (answer ++ [Transmit (relayAddr w to) 0 remote (Ping txid (discoBytes (selfKey s)) 0)]) s)).
Definition validateVNIAndRemoteKey (w : relayHandshakeWork) (remote : Z) (c : BindUDPRelayEndpointCommon) : bool :=
  (bcVNI c =? hwVNI w) && (keyZ (bcRemoteKey c) =? remote).
(** The loop is given a message. *)
Definition hsReceive (th : HsThread) (remote : Z) (answerSent : bool) (sent : gmap bytes Z) (deadline : Z) (ev : relayDiscoMsgEvent) (s : Relays) : Relays :=
  let w := htWork th in
  match dmMsg ev with
  | BindUDPRelayEndpointChallenge c =>
      if negb (validateVNIAndRemoteKey w remote c) then s
      else if answerSent then s
      else
        let '(sent, s) := txPing w remote (dmFrom ev) (Some (bcChallenge c)) sent s in
        setHsThread (hsTo (HsLoop remote true sent deadline) th) s
  | Ping _ _ _ =>
      if negb answerSent then s
      else
        let '(sent, s) := txPing w remote (dmFrom ev) None sent s in
        setHsThread (hsTo (HsLoop remote answerSent sent deadline) th) s
  | Pong tx _ =>
      match sent !! tx with
      | None => s
      | Some at_ => setHsThread (hsTo (HsFin (mkHsDone w (dmFrom ev) (clock s - at_))) th) s
      end
  | _ => s
  end.
(** The loop ends: by its context or by its timer. *)
Definition hsEnd (may : HsThread → Z → bool) (id : positive) (s : Relays) : Relays :=
  match hsThreads s !! id with
  | Some th =>
      match htPhase th with
      | HsLoop _ _ _ deadline => if may th deadline then setHsThread (hsTo (HsFin (noPong (htWork th))) th) s else s
      | _ => s
      end
  | None => s
  end.
Definition hsCancelled : positive → Relays → Relays := hsEnd (λ th _, htCancelled th).
Definition hsTimedOut (id : positive) (s : Relays) : Relays := hsEnd (λ _ deadline, deadline <=? clock s) id s.
(** The deferred function, up to its offer to the loop. *)
Definition hsFinish (id : positive) (s : Relays) : Relays :=
  match hsThreads s !! id with
  | Some th =>
      match htPhase th with
      | HsFin d => setHsThread (mkHsThread (htWork th) (htCancelled th) (HsOffer d) (Some d)) (derefDiscoInfoFor (htWork th) s)
      | _ => s
      end
  | None => s
  end.

(** [work.cancel()] and the receive from [work.doneCh]. *)
Definition cancelHs (id : positive) (s : Relays) : Relays :=
  setHs (alter (λ th, mkHsThread (htWork th) true (htPhase th) (htDoneCh th)) id (hsThreads s)) s.
Definition takeHsDone (id : positive) (s : Relays) : res Blocked (relayEndpointHandshakeWorkDoneEvent * Relays) :=
  match hsThreads s !! id with
  | Some th =>
      match htDoneCh th with
      | Some d => Ok (d, setHsThread (mkHsThread (htWork th) (htCancelled th) (htPhase th) None) s)
      | None => Err blocked
      end
  | None => Err blocked
  end.

(** ** [allocateServerEndpoint] *)
Definition allocateUDPRelayEndpointRequestTimeout : Z := Second * 10.
Definition ServerRetryAfter : Z := Second * 3.
Definition setAlThread (th : AllocThread) (s : Relays) : Relays := setAl (<[awID (atWork th) := th]> (alThreads s)) s.
Definition sendAllocReq (w : relayEndpointAllocWork) : RelayAction :=
  Transmit (mkEpAddr (mkAddrPort DerpMagicIPAddr (derpHomeRegionID (awCand w))) 0) (cNodeKey (awCand w)) (cDiscoKey (awCand w))
    (AllocateUDPRelayEndpointRequest (discoBytes (awKeys w).1, discoBytes (awKeys w).2) (allocGen w)).
Definition notAllocated (w : relayEndpointAllocWork) : relayEndpointAllocWorkDoneEvent := mkAllocDone w zeroServerEp.
Definition alReceive (th : AllocThread) (gen : Z) (e : UDPRelayEndpoint) (s : Relays) : Relays :=
  let w := atWork th in
  let se := ofRelayEp e in
  if negb (gen =? allocGen w) || negb (bool_decide (awKeys w = NewSortedPairOfDiscoPublic (ClientDisco se).1 (ClientDisco se).2)) then s
  else setAlThread (alTo (AlFin (mkAllocDone w se)) th) s.
Definition alEnd (may : AllocThread → Z → bool) (id : positive) (s : Relays) : Relays :=
  match alThreads s !! id with
  | Some th =>
      match atPhase th with
      | AlLoop returnAfter _ _ => if may th returnAfter then setAlThread (alTo (AlFin (notAllocated (atWork th))) th) s else s
      | _ => s
      end
  | None => s
  end.
Definition alCancelled : positive → Relays → Relays := alEnd (λ th _, atCancelled th).
Definition alTimedOut (id : positive) (s : Relays) : Relays := alEnd (λ _ returnAfter, returnAfter <=? clock s) id s.
Definition alRetry (id : positive) (s : Relays) : Relays :=
  match alThreads s !! id with
  | Some th =>
      match atPhase th with
      | AlLoop returnAfter retryAfter false =>
          if retryAfter <=? clock s then setAlThread (alTo (AlLoop returnAfter retryAfter true) th) (logged [sendAllocReq (atWork th)] s) else s
      | _ => s
      end
  | None => s
  end.
Definition alFinish (id : positive) (s : Relays) : Relays :=
  match alThreads s !! id with
  | Some th =>
      match atPhase th with
      | AlFin d => setAlThread (mkAllocThread (atWork th) (atCancelled th) (AlOffer d) (Some d)) s
      | _ => s
      end
  | None => s
  end.
Definition cancelAl (id : positive) (s : Relays) : Relays :=
  setAl (alter (λ th, mkAllocThread (atWork th) true (atPhase th) (atDoneCh th)) id (alThreads s)) s.
Definition takeAlDone (id : positive) (s : Relays) : res Blocked (relayEndpointAllocWorkDoneEvent * Relays) :=
  match alThreads s !! id with
  | Some th =>
      match atDoneCh th with
      | Some d => Ok (d, setAlThread (mkAllocThread (atWork th) (atCancelled th) (atPhase th) None) s)
      | None => Err blocked
      end
  | None => Err blocked
  end.

(** ** The handlers of the loop *)
Definition hasActiveWorkRunLoop (s : Relays) : bool :=
  negb (bool_decide (allocWorkByCandidatePeerRelayByEndpoint (mgr s) = ∅)) || negb (bool_decide (handshakeWorkByServerDiscoByEndpoint (mgr s) = ∅)).
Definition hasActiveWorkForEndpointRunLoop (ep : positive) (s : Relays) : bool :=
  bool_decide (is_Some (handshakeWorkByServerDiscoByEndpoint (mgr s) !! ep)) || bool_decide (is_Some (allocWorkByCandidatePeerRelayByEndpoint (mgr s) !! ep)).

(** Servers. *)
Definition setServers (m : gmap Z candidatePeerRelay) (has : bool) (s : Relays) : Relays :=
  let r := mgr s in
  setMgr (mkRelayManager m (allocWorkByCandidatePeerRelayByEndpoint r) (allocWorkByDiscoKeysByServerNodeKey r) (handshakeWorkByServerDiscoByEndpoint r)
    (handshakeWorkByServerDiscoVNI r) (handshakeWorkAwaitingPong r) (addrPortVNIToHandshakeWork r) (handshakeGeneration r) (allocGeneration r) has) s.
Definition publishHasServersRunLoop (s : Relays) : Relays :=
  setServers (serversByNodeKey (mgr s)) (negb (bool_decide (serversByNodeKey (mgr s) = ∅))) s.
Definition handleDERPHomeChangeRunLoop (nodeKey regionID : Z) (s : Relays) : Relays :=
  match serversByNodeKey (mgr s) !! nodeKey with
  | Some c => setServers (<[nodeKey := mkCand (cNodeKey c) (cDiscoKey c) regionID]> (serversByNodeKey (mgr s))) (hasPeerRelayServers (mgr s)) s
  | None => s
  end.
Definition handleGetServersRunLoop (s : Relays) : Relays :=
  logged [Servers ((map_to_list (serversByNodeKey (mgr s))).*2)] s.
Definition handleServersUpdateRunLoop (update : gset candidatePeerRelay) (s : Relays) : Relays :=
  let m := serversByNodeKey (mgr s) in
  let m := foldl (λ m v, if decide (v ∈ update) then m else delete (cNodeKey v) m) m (rangeOrder (rdraws s) (map_to_list m).*2) in
  let m := foldl (λ m v, <[cNodeKey v := v]> m) m (rangeOrder (S (rdraws s)) (elements update)) in
  publishHasServersRunLoop (setServers m (hasPeerRelayServers (mgr s)) (setDraws (S (S (rdraws s))) s)).
Definition handleServerUpsertRunLoop (c : candidatePeerRelay) (s : Relays) : Relays :=
  publishHasServersRunLoop (setServers (<[cNodeKey c := c]> (serversByNodeKey (mgr s))) (hasPeerRelayServers (mgr s)) s).
Definition handleServerRemoveRunLoop (nk : Z) (s : Relays) : Relays :=
  if decide (is_Some (serversByNodeKey (mgr s) !! nk))
  then publishHasServersRunLoop (setServers (delete nk (serversByNodeKey (mgr s))) (hasPeerRelayServers (mgr s)) s)
  else s.

(** Handshakes. *)
Definition setHsIndex (byEp : gmap positive (gmap Z relayHandshakeWork)) (byVNI : gmap (Z * Z) relayHandshakeWork)
    (awaiting : gmap positive (AddrPort * Z)) (byAddr : gmap (AddrPort * Z) relayHandshakeWork) (gen : Z) (s : Relays) : Relays :=
  let r := mgr s in
  setMgr (mkRelayManager (serversByNodeKey r) (allocWorkByCandidatePeerRelayByEndpoint r) (allocWorkByDiscoKeysByServerNodeKey r) byEp byVNI awaiting byAddr
    gen (allocGeneration r) (hasPeerRelayServers r)) s.
Definition handleHandshakeWorkDoneRunLoop (d : relayEndpointHandshakeWorkDoneEvent) (s : Relays) : Relays :=
  let w := hdWork d in
  let r := mgr s in
  if decide (get2 (handshakeWorkByServerDiscoByEndpoint r) (hwEp w) (hwDisco w) = Some w) then
    let byEp := del2 (hwEp w) (hwDisco w) (handshakeWorkByServerDiscoByEndpoint r) in
    let byVNI := delete (hwDisco w, hwVNI w) (handshakeWorkByServerDiscoVNI r) in
    let s := match handshakeWorkAwaitingPong r !! hwID w with
             | Some apv => setHsIndex byEp byVNI (delete (hwID w) (handshakeWorkAwaitingPong r)) (delete apv (addrPortVNIToHandshakeWork r)) (handshakeGeneration r) s
             | None => setHsIndex byEp byVNI (handshakeWorkAwaitingPong r) (addrPortVNIToHandshakeWork r) (handshakeGeneration r) s
             end in
    if negb (apIsValid (pongReceivedFrom d)) then s
    else
      let addr := relayAddr w (pongReceivedFrom d) in
      logged [Ready w (mkQuality addr (hwDisco w) (hdLatency d) (pingSizeToPktLen 0 addr))] s
  else s.

(** A piece of work is cancelled, and its end awaited and handled. *)
Definition stopHs (w : relayHandshakeWork) (s : Relays) : res Blocked Relays :=
  let id := hwID w in
  '(d, s) ← takeHsDone id (hsFinish id (hsCancelled id (hsStart id (cancelHs id s))));
  Ok (handleHandshakeWorkDoneRunLoop d s).

(** Work that is in the way of an endpoint with a Lamport ID: it stays when it is not
    older. *)
Definition dropOlder (existing : option relayHandshakeWork) (lamport : Z) (s : Relays) : res Blocked (bool * Relays) :=
  match existing with
  | None => Ok (true, s)
  | Some w => if lamport <=? LamportID (hwSe w) then Ok (false, s) else s ← stopHs w s; Ok (true, s)
  end.
Definition nextGeneration (g : Z) : Z := let g := uN 32 (g + 1) in if g =? 0 then 1 else g.
Definition startHandshake (e : newRelayServerEndpointEvent) (s : Relays) : Relays :=
  let r := mgr s in
  let gen := nextGeneration (handshakeGeneration r) in
  let w := mkHsWork (nextWork s) (neWlb e) (neSe e) (neServer e) gen in
  let s := setHsIndex (put2 (hwEp w) (hwDisco w) w (handshakeWorkByServerDiscoByEndpoint r)) (<[(hwDisco w, hwVNI w) := w]> (handshakeWorkByServerDiscoVNI r))
             (handshakeWorkAwaitingPong r) (addrPortVNIToHandshakeWork r) gen s in
  setHsThread (mkHsThread w false HsStart None) (setNext (Pos.succ (nextWork s)) s).
Definition handleNewServerEndpointRunLoop (e : newRelayServerEndpointEvent) (s : Relays) : res Blocked Relays :=
  let se := neSe e in
  let wlb := neWlb e in
  '(go, s) ← dropOlder (handshakeWorkByServerDiscoVNI (mgr s) !! (ServerDisco se, VNI se)) (LamportID se) s;
  if negb go then Ok s
  else
    '(go, s) ← dropOlder (get2 (handshakeWorkByServerDiscoByEndpoint (mgr s)) (wEp wlb) (ServerDisco se)) (LamportID se) s;
    if negb go then Ok s
    else
      let s := if candIsValid (neServer e) then logged [GoCallMeMaybeVia (wEp wlb) se] s else s in
      let best := lastBest wlb in
      let lastBestMatchingServerVNI :=
        isRelay (aqAddr best) && (ServerDisco se =? relayServerDisco best) && (VNI se =? vniGet (eaVNI (aqAddr best))) in
      if lastBestMatchingServerVNI && lastBestIsTrusted wlb then Ok s else Ok (startHandshake e s).

(** Allocations. *)
Definition setAlIndex (byEp : gmap positive (gmap candidatePeerRelay relayEndpointAllocWork)) (byKeys : gmap Z (gmap (Z * Z) relayEndpointAllocWork))
    (gen : Z) (s : Relays) : Relays :=
  let r := mgr s in
  setMgr (mkRelayManager (serversByNodeKey r) byEp byKeys (handshakeWorkByServerDiscoByEndpoint r) (handshakeWorkByServerDiscoVNI r)
    (handshakeWorkAwaitingPong r) (addrPortVNIToHandshakeWork r) (handshakeGeneration r) gen (hasPeerRelayServers r)) s.
Definition handleAllocWorkDoneRunLoop (d : relayEndpointAllocWorkDoneEvent) (s : Relays) : res Blocked Relays :=
  let w := adWork d in
  let r := mgr s in
  if decide (get2 (allocWorkByCandidatePeerRelayByEndpoint r) (awEp w) (awCand w) = Some w) then
    let byEp := del2 (awEp w) (awCand w) (allocWorkByCandidatePeerRelayByEndpoint r) in
    match allocWorkByDiscoKeysByServerNodeKey r !! cNodeKey (awCand w) with
    | None => Ok (setAlIndex byEp (allocWorkByDiscoKeysByServerNodeKey r) (allocGeneration r) s)
    | Some _ =>
        let s := setAlIndex byEp (del2 (cNodeKey (awCand w)) (awKeys w) (allocWorkByDiscoKeysByServerNodeKey r)) (allocGeneration r) s in
        if ServerDisco (allocated d) =? 0 then Ok s
        else handleNewServerEndpointRunLoop (mkNewServerEp (awWlb w) (allocated d) (awCand w)) s
    end
  else Ok s.
Definition stopAl (w : relayEndpointAllocWork) (s : Relays) : res Blocked Relays :=
  let id := awID w in
  '(d, s) ← takeAlDone id (alFinish id (alCancelled id (cancelAl id s)));
  handleAllocWorkDoneRunLoop d s.
Definition stopWorkRunLoop (ep : positive) (s : Relays) : res Blocked Relays :=
  s ← match allocWorkByCandidatePeerRelayByEndpoint (mgr s) !! ep with
      | Some m => forAll stopAl (rangeOrder (rdraws s) (map_to_list m).*2) (setDraws (S (rdraws s)) s)
      | None => Ok s
      end;
  match handshakeWorkByServerDiscoByEndpoint (mgr s) !! ep with
  | Some m => forAll stopHs (rangeOrder (rdraws s) (map_to_list m).*2) (setDraws (S (rdraws s)) s)
  | None => Ok s
  end.

Definition startAlloc (wlb : endpointWithLastBest) (discoKeys : Z * Z) (s : Relays) (v : candidatePeerRelay) : Relays :=
  let r := mgr s in
  match get2 (allocWorkByDiscoKeysByServerNodeKey r) (cNodeKey v) discoKeys with
  | Some _ => s      (* a suspected collision of disco keys *)
  | None =>
      let gen := uN 32 (allocGeneration r + 1) in
      let w := mkAllocWork (nextWork s) wlb discoKeys v gen in
      let s := setAlIndex (put2 (wEp wlb) v w (allocWorkByCandidatePeerRelayByEndpoint r))
                 (put2 (cNodeKey v) discoKeys w (allocWorkByDiscoKeysByServerNodeKey r)) gen s in
      let s := logged [sendAllocReq w] (setNext (Pos.succ (nextWork s)) s) in
      setAlThread (mkAllocThread w false (AlLoop (clock s + allocateUDPRelayEndpointRequestTimeout) (clock s + ServerRetryAfter) false) None) s
  end.
Definition allocateAllServersRunLoop (wlb : endpointWithLastBest) (s : Relays) : Relays :=
  if decide (serversByNodeKey (mgr s) = ∅) then s
  else
    match epDiscos s !! wEp wlb with
    | None => s
    | Some remoteDisco =>
        let discoKeys := NewSortedPairOfDiscoPublic (selfDisco s) remoteDisco in
        foldl (startAlloc wlb discoKeys) (setDraws (S (rdraws s)) s) (rangeOrder (rdraws s) (map_to_list (serversByNodeKey (mgr s))).*2)
    end.

(** Messages.  The select takes the event that the work has ended with, or gives it the
    message. *)
Definition selectAl (w : relayEndpointAllocWork) (gen : Z) (e : UDPRelayEndpoint) (s : Relays) : res Blocked Relays :=
  let s := alFinish (awID w) s in
  match alThreads s !! awID w with
  | Some th =>
      match atPhase th with
      | AlLoop _ _ _ => Ok (alReceive th gen e s)
      | _ => '(d, s) ← takeAlDone (awID w) s; handleAllocWorkDoneRunLoop d s
      end
  | None => Err blocked
  end.
Definition selectHs (w : relayHandshakeWork) (ev : relayDiscoMsgEvent) (s : Relays) : res Blocked Relays :=
  let s := hsFinish (hwID w) (hsStart (hwID w) s) in
  match hsThreads s !! hwID w with
  | Some th =>
      match htPhase th with
      | HsLoop remote answerSent sent deadline => Ok (hsReceive th remote answerSent sent deadline ev (logged [Given w ev] s))
      | _ => '(d, s) ← takeHsDone (hwID w) s; Ok (handleHandshakeWorkDoneRunLoop d s)
      end
  | None => Err blocked
  end.
Definition handleRxDiscoMsgRunLoop (ev : relayDiscoMsgEvent) (s : Relays) : res Blocked Relays :=
  let r := mgr s in
  let apv := addrPortVNI ev in
  match dmMsg ev with
  | AllocateUDPRelayEndpointResponse gen e =>
      let se := ofRelayEp e in
      match get2 (allocWorkByDiscoKeysByServerNodeKey r) (relayServerNodeKey ev) (NewSortedPairOfDiscoPublic (ClientDisco se).1 (ClientDisco se).2) with
      | None => Ok s
      | Some w => selectAl w gen e s
      end
  | BindUDPRelayEndpointChallenge _ =>
      match handshakeWorkByServerDiscoVNI r !! (dmDisco ev, dmVNI ev) with
      | None => Ok s
      | Some w =>
          if decide (is_Some (handshakeWorkAwaitingPong r !! hwID w)) then Ok s
          else if decide (is_Some (addrPortVNIToHandshakeWork r !! apv)) then Ok s
          else
            selectHs w ev (setHsIndex (handshakeWorkByServerDiscoByEndpoint r) (handshakeWorkByServerDiscoVNI r)
              (<[hwID w := apv]> (handshakeWorkAwaitingPong r)) (<[apv := w]> (addrPortVNIToHandshakeWork r)) (handshakeGeneration r) s)
      end
  | Ping tx _ _ =>
      let s := logged [Transmit (mkEpAddr (dmFrom ev) (vniSet (dmVNI ev))) 0 (dmDisco ev) (Pong tx (dmFrom ev))] s in
      match addrPortVNIToHandshakeWork r !! apv with
      | None => Ok s
      | Some w => selectHs w ev s
      end
  | Pong _ _ =>
      match addrPortVNIToHandshakeWork r !! apv with
      | None => Ok s
      | Some w => selectHs w ev s
      end
  | _ => Ok s
  end.

(** ** The system *)
Inductive RelayInput : Type :=
  | StartDiscovery (wlb : endpointWithLastBest)
  | AllocateWorkDone (d : relayEndpointAllocWorkDoneEvent)
  | CancelWork (ep : positive)
  | NewServerEndpoint (e : newRelayServerEndpointEvent)
  | HandshakeWorkDone (d : relayEndpointHandshakeWorkDoneEvent)
  | RxDiscoMsg (ev : relayDiscoMsgEvent)
  | ServersUpdate (update : gset candidatePeerRelay)
  | ServerUpsert (c : candidatePeerRelay)
  | ServerRemove (nk : Z)
  | GetServers
  | DerpHomeChange (nk regionID : Z).
(** One turn of [runLoop]. *)
Definition handleInput (i : RelayInput) (s : Relays) : res Blocked Relays :=
  match i with
  | StartDiscovery wlb => Ok (if hasActiveWorkForEndpointRunLoop (wEp wlb) s then s else allocateAllServersRunLoop wlb s)
  | AllocateWorkDone d => handleAllocWorkDoneRunLoop d s
  | CancelWork ep => stopWorkRunLoop ep s
  | NewServerEndpoint e => handleNewServerEndpointRunLoop e s
  | HandshakeWorkDone d => Ok (handleHandshakeWorkDoneRunLoop d s)
  | RxDiscoMsg ev => handleRxDiscoMsgRunLoop ev s
  | ServersUpdate update => Ok (handleServersUpdateRunLoop update s)
  | ServerUpsert c => Ok (handleServerUpsertRunLoop c s)
  | ServerRemove nk => Ok (handleServerRemoveRunLoop nk s)
  | GetServers => Ok (handleGetServersRunLoop s)
  | DerpHomeChange nk regionID => Ok (handleDERPHomeChangeRunLoop nk regionID s)
  end.
(** [relayManagerInputEvent]: the loop is started when it has stopped, and stops again
    when there is no work. *)
Definition relayManagerInputEvent (i : RelayInput) (s : Relays) : res Blocked Relays :=
  s ← handleInput i (setRuns true s);
  Ok (setRuns (hasActiveWorkRunLoop s) s).

(** What calls from outside become. *)
Definition handleCallMeMaybeVia (ep : positive) (best : addrQuality) (trusted : bool) (dm : UDPRelayEndpoint) : RelayInput :=
  NewServerEndpoint (mkNewServerEp (mkWlb ep best trusted) (ofRelayEp dm) zeroCand).
Definition handleRxDiscoMsg (dm : Message) (serverNodeKey discoKey : Z) (src : epAddr) : RelayInput :=
  RxDiscoMsg (mkDiscoMsg dm serverNodeKey discoKey (eaAP src) (vniGet (eaVNI src))).
(** What [UpsertPeer] and [RemovePeer] tell the manager of a peer, with whether it
    qualifies as a server ([relayCandidateLocked]) and its key. *)
Definition upsertRelay (relayClientEnabled : bool) (cand : option candidatePeerRelay) (nk : Z) : list RelayInput :=
  if relayClientEnabled then [match cand with Some c => ServerUpsert c | None => ServerRemove nk end] else [].
Definition removeRelay (relayClientEnabled : bool) (prevKey : Z) : list RelayInput := if relayClientEnabled then [ServerRemove prevKey] else [].
(** [sendCallMeMaybeVia], when it gets to run. *)
Definition sendCallMeMaybeVia (derpAddr : AddrPort) (publicKey : Z) (disco : option Z) (se : ServerEndpoint) : list RelayAction :=
  match disco with
  | Some k => if apIsValid derpAddr then [Transmit (mkEpAddr derpAddr 0) publicKey k (CallMeMaybeVia (toRelayEp se))] else []
  | None => []
  end.

(** The last act of a goroutine: the loop takes its event, or it sees that it was
    cancelled. *)
Definition hsReport (id : positive) (s : Relays) : res Blocked Relays :=
  match hsThreads s !! id with
  | Some th =>
      match htPhase th with
      | HsOffer d => relayManagerInputEvent (HandshakeWorkDone d) (setHsThread (hsTo HsExit th) s)
      | _ => Ok s
      end
  | None => Ok s
  end.
Definition hsQuit (id : positive) (s : Relays) : Relays :=
  match hsThreads s !! id with
  | Some th =>
      match htPhase th with
      | HsOffer _ => if htCancelled th then setHsThread (hsTo HsExit th) s else s
      | _ => s
      end
  | None => s
  end.
Definition alReport (id : positive) (s : Relays) : res Blocked Relays :=
  match alThreads s !! id with
  | Some th =>
      match atPhase th with
      | AlOffer d => relayManagerInputEvent (AllocateWorkDone d) (setAlThread (alTo AlExit th) s)
      | _ => Ok s
      end
  | None => Ok s
  end.
Definition alQuit (id : positive) (s : Relays) : Relays :=
  match alThreads s !! id with
  | Some th =>
      match atPhase th with
      | AlOffer _ => if atCancelled th then setAlThread (alTo AlExit th) s else s
      | _ => s
      end
  | None => s
  end.

(** The steps of the system: a call from outside, a step of a goroutine, the world.  A
    step of a goroutine that is elsewhere does nothing. *)
Inductive RelayEvent : Type :=
  | Call (i : RelayInput)
  | HsStarts (id : positive) | HsCancels (id : positive) | HsTimes (id : positive) | HsFinishes (id : positive) | HsReports (id : positive) | HsQuits (id : positive)
  | AlCancels (id : positive) | AlTimes (id : positive) | AlRetries (id : positive) | AlFinishes (id : positive) | AlReports (id : positive) | AlQuits (id : positive)
  | Outside (discos : gmap positive Z) (disco key : Z) (elapsed : nat).
(** Only the goroutines of work send on the channels of ended work. *)
Definition external (i : RelayInput) : bool := match i with AllocateWorkDone _ | HandshakeWorkDone _ => false | _ => true end.
Definition relayStep (e : RelayEvent) (s : Relays) : res Blocked Relays :=
  match e with
  | Call i => if external i then relayManagerInputEvent i s else Ok s
  | HsStarts id => Ok (hsStart id s)
  | HsCancels id => Ok (hsCancelled id s)
  | HsTimes id => Ok (hsTimedOut id s)
  | HsFinishes id => Ok (hsFinish id s)
  | HsReports id => hsReport id s
  | HsQuits id => Ok (hsQuit id s)
  | AlCancels id => Ok (alCancelled id s)
  | AlTimes id => Ok (alTimedOut id s)
  | AlRetries id => Ok (alRetry id s)
  | AlFinishes id => Ok (alFinish id s)
  | AlReports id => alReport id s
  | AlQuits id => Ok (alQuit id s)
  | Outside discos disco key elapsed => Ok (setOutside discos disco key (clock s + Z.of_nat elapsed) s)
  end.
Definition relayRun : list RelayEvent → Relays → res Blocked Relays := forAll relayStep.
End relay.
