(* ===== verification/RelayThms.v ===== *)
(** * Theorems on the relay manager

    The goroutines of the relay manager under every interleaving of calls, messages,
    timers and their own steps: the loop never waits for ever, the indexes of work and
    the goroutines agree, and a path is reported only when the server has challenged us
    on it and a pong to one of our pings has come back over it. *)

From stdpp Require Import base gmap sets list.
From S2P Require Import Prelude Bytes NetIP PeerMap Disco DiscoRx Paths Relay.

(** ** Maps of maps *)
Section nested.
Context `{Countable K} `{Countable L} {V : Type}.
Implicit Types (m : gmap K (gmap L V)) (k : K) (l : L).
Definition full m : Prop := ∀ k, m !! k ≠ Some ∅.

Lemma get2_put2 m k l v k' l' : get2 (put2 k l v m) k' l' = if decide (k = k' ∧ l = l') then Some v else get2 m k' l'.
Proof.
  unfold get2, put2. destruct (decide (k = k')) as [->|Hk].
  - rewrite lookup_insert_eq. cbn. destruct (decide (l = l')) as [->|Hl].
    + by rewrite lookup_insert_eq, decide_True.
    + rewrite lookup_insert_ne, decide_False by naive_solver. by destruct (m !! k').
  - by rewrite lookup_insert_ne, decide_False by naive_solver.
Qed.
Lemma get2_del2 m k l k' l' : get2 (del2 k l m) k' l' = if decide (k = k' ∧ l = l') then None else get2 m k' l'.
Proof.
  unfold get2, del2. set (inner := delete l (default ∅ (m !! k))).
  assert (inner !! l' = if decide (l = l') then None else m !! k ≫= lookup l') as Hi.
  { subst inner. destruct (decide (l = l')) as [->|Hl]; [by rewrite lookup_delete_eq|]. rewrite lookup_delete_ne by done. by destruct (m !! k). }
  destruct (decide (k = k')) as [->|Hk].
  - destruct (decide (inner = ∅)) as [E|E].
    + rewrite lookup_delete_eq. cbn. rewrite E, lookup_empty in Hi. destruct (decide (l = l')) as [->|Hl]; [by rewrite decide_True|]. by rewrite decide_False by naive_solver.
    + rewrite lookup_insert_eq. cbn. rewrite Hi. destruct (decide (l = l')) as [->|Hl]; [by rewrite decide_True|]. by rewrite decide_False by naive_solver.
  - rewrite (decide_False (P := k = k' ∧ l = l')) by naive_solver. destruct (decide (inner = ∅)); [by rewrite lookup_delete_ne|by rewrite lookup_insert_ne].
Qed.
Lemma full_put2 m k l v : full m → full (put2 k l v m).
Proof.
  intros Hm k' Hk. unfold put2 in Hk. destruct (decide (k = k')) as [->|]; [|rewrite lookup_insert_ne in Hk by done; by eapply Hm].
  rewrite lookup_insert_eq in Hk. injection Hk as Hk. by apply insert_non_empty in Hk.
Qed.
Lemma full_del2 m k l : full m → full (del2 k l m).
Proof.
  intros Hm k' Hk. unfold del2 in Hk. case_decide as E.
  - destruct (decide (k = k')) as [->|]; [by rewrite lookup_delete_eq in Hk|]. rewrite lookup_delete_ne in Hk by done. by eapply Hm.
  - destruct (decide (k = k')) as [->|]; [rewrite lookup_insert_eq in Hk; congruence|]. rewrite lookup_insert_ne in Hk by done. by eapply Hm.
Qed.
Lemma full_none m k : full m → (∀ l, get2 m k l = None) → m !! k = None.
Proof.
  intros Hm Hl. destruct (m !! k) as [inner|] eqn:E; [|done]. destruct (Hm k). rewrite E. f_equal. apply map_empty. intros l. specialize (Hl l). unfold get2 in Hl. by rewrite E in Hl.
Qed.
Lemma full_empty m : full m → (∀ k l, get2 m k l = None) → m = ∅.
Proof. intros Hm Hl. apply map_empty. intros k. by apply full_none. Qed.
Lemma get2_inner m k x v : m !! k = Some x → v ∈ (map_to_list x).*2 → ∃ l, get2 m k l = Some v.
Proof. intros Hk Hv. apply list_elem_of_fmap in Hv as ([l v'] & -> & Hv). apply elem_of_map_to_list in Hv. exists l. unfold get2. by rewrite Hk. Qed.
Lemma inner_get2 m k x l v : m !! k = Some x → get2 m k l = Some v → v ∈ (map_to_list x).*2.
Proof. intros Hk Hv. unfold get2 in Hv. rewrite Hk in Hv. apply list_elem_of_fmap. exists (l, v). split; [done|]. by apply elem_of_map_to_list. Qed.
End nested.

(** ** The invariant *)
Abbreviation hsByEp r := (handshakeWorkByServerDiscoByEndpoint r).
Abbreviation hsByVNI r := (handshakeWorkByServerDiscoVNI r).
Abbreviation awaiting r := (handshakeWorkAwaitingPong r).
Abbreviation hsByAddr r := (addrPortVNIToHandshakeWork r).
Abbreviation alByEp r := (allocWorkByCandidatePeerRelayByEndpoint r).
Abbreviation alByKeys r := (allocWorkByDiscoKeysByServerNodeKey r).

(** Work that the manager has in its indexes. *)
Definition activeH (r : relayManager) (w : relayHandshakeWork) : Prop := get2 (hsByEp r) (hwEp w) (hwDisco w) = Some w.
Definition activeA (r : relayManager) (w : relayEndpointAllocWork) : Prop := get2 (alByEp r) (awEp w) (awCand w) = Some w.

(** The indexes agree: each piece of work is in all of them, under its own keys. *)
Record Indexed (r : relayManager) : Prop := {
  ix_full_h : full (hsByEp r);
  ix_full_a : full (alByEp r);
  ix_full_k : full (alByKeys r);
  ix_ep ep d w : get2 (hsByEp r) ep d = Some w → ep = hwEp w ∧ d = hwDisco w;
  ix_vni k w : hsByVNI r !! k = Some w ↔ activeH r w ∧ k = (hwDisco w, hwVNI w);
  ix_addr apv w : hsByAddr r !! apv = Some w → awaiting r !! hwID w = Some apv ∧ activeH r w ∧ apv.2 = hwVNI w;
  ix_wait id apv : awaiting r !! id = Some apv → ∃ w, hsByAddr r !! apv = Some w ∧ hwID w = id;
  ix_cand ep c w : get2 (alByEp r) ep c = Some w → ep = awEp w ∧ c = awCand w;
  ix_keys nk ks w : get2 (alByKeys r) nk ks = Some w ↔ activeA r w ∧ nk = cNodeKey (awCand w) ∧ ks = awKeys w;
  ix_server k c : serversByNodeKey r !! k = Some c → cNodeKey c = k;
  ix_has : hasPeerRelayServers r = negb (bool_decide (serversByNodeKey r = ∅))
}.

(** A goroutine that has not written to its done channel. *)
Definition hsRuns (p : HsPhase) : bool := match p with HsStart | HsLoop _ _ _ _ | HsFin _ => true | _ => false end.
Definition hsInside (p : HsPhase) : bool := match p with HsLoop _ _ _ _ | HsFin _ => true | _ => false end.
Definition alRuns (p : AllocPhase) : bool := match p with AlLoop _ _ _ | AlFin _ => true | _ => false end.

(** What the manager has of a goroutine. *)
Record HsOk (r : relayManager) (th : HsThread) : Prop := {
  ho_fin d : htPhase th = HsFin d ∨ htPhase th = HsOffer d ∨ htDoneCh th = Some d → hdWork d = htWork th;
  ho_runs : hsRuns (htPhase th) = true → activeH r (htWork th) ∧ htDoneCh th = None;
  ho_active : activeH r (htWork th) → hsRuns (htPhase th) = true ∨ ∃ d, htPhase th = HsOffer d ∧ htDoneCh th = Some d
}.
Record AlOk (r : relayManager) (th : AllocThread) : Prop := {
  ao_fin d : atPhase th = AlFin d ∨ atPhase th = AlOffer d ∨ atDoneCh th = Some d → adWork d = atWork th;
  ao_runs : alRuns (atPhase th) = true → activeA r (atWork th) ∧ atDoneCh th = None;
  ao_active : activeA r (atWork th) → alRuns (atPhase th) = true ∨ ∃ d, atPhase th = AlOffer d ∧ atDoneCh th = Some d
}.
Record Threads (s : Relays) : Prop := {
  th_hs id th : hsThreads s !! id = Some th → hwID (htWork th) = id ∧ (id < nextWork s)%positive ∧ HsOk (mgr s) th;
  th_al id th : alThreads s !! id = Some th → awID (atWork th) = id ∧ (id < nextWork s)%positive ∧ AlOk (mgr s) th;
  th_active_h w : activeH (mgr s) w → ∃ th, hsThreads s !! hwID w = Some th ∧ htWork th = w;
  th_active_a w : activeA (mgr s) w → ∃ th, alThreads s !! awID w = Some th ∧ atWork th = w
}.
(** Only work that has left the indexes is cancelled. *)
Definition Calm (s : Relays) : Prop :=
  (∀ id th, hsThreads s !! id = Some th → activeH (mgr s) (htWork th) → htCancelled th = false) ∧
  (∀ id th, alThreads s !! id = Some th → activeA (mgr s) (atWork th) → atCancelled th = false).
(** The keys of servers are cached for the handshakes that are going on. *)
Definition Cached (s : Relays) : Prop :=
  (∀ d, discoInfoByServerDisco s !! d ≠ Some ∅) ∧
  ∀ d id, id ∈ default ∅ (discoInfoByServerDisco s !! d) ↔ ∃ th, hsThreads s !! id = Some th ∧ hwDisco (htWork th) = d ∧ hsInside (htPhase th) = true.

(** ** What the log shows *)

(** On the path over [a] the server has challenged work [w], and we have answered. *)
Definition Answered (log : list RelayAction) (w : relayHandshakeWork) (a : AddrPort) (remote : Z) : Prop :=
  ∃ ev c, Given w ev ∈ log ∧ dmMsg ev = BindUDPRelayEndpointChallenge c ∧ dmDisco ev = hwDisco w ∧ addrPortVNI ev = (a, hwVNI w) ∧
    keyZ (bcRemoteKey c) = remote ∧ Transmit (relayAddr w a) 0 (hwDisco w) (BindUDPRelayEndpointAnswer (bindCommon w remote (bcChallenge c))) ∈ log.
Definition Pinged (log : list RelayAction) (w : relayHandshakeWork) (a : AddrPort) (remote : Z) (tx : bytes) : Prop :=
  ∃ nk, Transmit (relayAddr w a) 0 remote (Ping tx nk 0) ∈ log.
Definition Ponged (log : list RelayAction) (w : relayHandshakeWork) (a : AddrPort) (tx : bytes) : Prop :=
  ∃ ev src, Given w ev ∈ log ∧ dmMsg ev = Pong tx src ∧ addrPortVNI ev = (a, hwVNI w).
Definition Proved (log : list RelayAction) (w : relayHandshakeWork) (a : AddrPort) : Prop :=
  ∃ remote tx, Answered log w a remote ∧ Pinged log w a remote tx ∧ Ponged log w a tx.
(** A report of a path. *)
Definition Justified (log : list RelayAction) (w : relayHandshakeWork) (q : addrQuality) : Prop :=
  ∃ a, apIsValid a = true ∧ Proved log w a ∧ 0 ≤ latency q ∧ q = mkQuality (relayAddr w a) (hwDisco w) (latency q) SafeWireMTU.

Definition doneGood (log : list RelayAction) (d : relayEndpointHandshakeWorkDoneEvent) : Prop :=
  apIsValid (pongReceivedFrom d) = true → Proved log (hdWork d) (pongReceivedFrom d) ∧ 0 ≤ hdLatency d.
Record HsGood (log : list RelayAction) (now : Z) (aw : gmap positive (AddrPort * Z)) (th : HsThread) : Prop := {
  hg_loop remote answered sent deadline : htPhase th = HsLoop remote answered sent deadline →
    (answered = false → sent = ∅) ∧
    (answered = true → ∃ apv, aw !! hwID (htWork th) = Some apv ∧ Answered log (htWork th) apv.1 remote) ∧
    ∀ tx t apv, sent !! tx = Some t → aw !! hwID (htWork th) = Some apv → t ≤ now ∧ Pinged log (htWork th) apv.1 remote tx;
  hg_done d : htPhase th = HsFin d ∨ htPhase th = HsOffer d ∨ htDoneCh th = Some d → doneGood log d
}.
Definition reportOf (a : RelayAction) : option positive := match a with Ready w _ => Some (hwID w) | _ => None end.
Record Logged (s : Relays) : Prop := {
  lg_hs id th : hsThreads s !! id = Some th → HsGood (rlog s) (clock s) (awaiting (mgr s)) th;
  lg_ready l1 w q l2 : rlog s = l1 ++ Ready w q :: l2 → Justified l1 w q;
  lg_reported w q : Ready w q ∈ rlog s → ¬ activeH (mgr s) w ∧ ∃ th, hsThreads s !! hwID w = Some th ∧ htWork th = w;
  lg_once : NoDup (omap reportOf (rlog s))
}.
Record Core (s : Relays) : Prop := { co_ix : Indexed (mgr s); co_th : Threads s; co_log : Logged s }.

Lemma answered_more log l w a remote : Answered log w a remote → Answered (log ++ l) w a remote.
Proof. intros (ev & c & H1 & ? & ? & ? & ? & H2). exists ev, c. split_and!; try done; apply elem_of_app; by left. Qed.
Lemma pinged_more log l w a remote tx : Pinged log w a remote tx → Pinged (log ++ l) w a remote tx.
Proof. intros (nk & Hn). exists nk. apply elem_of_app. by left. Qed.
Lemma proved_more log l w a : Proved log w a → Proved (log ++ l) w a.
Proof.
  intros (remote & tx & H1 & H2 & ev & src & H3 & ?). exists remote, tx. split_and!; [by apply answered_more|by apply pinged_more|].
  exists ev, src. split; [apply elem_of_app; by left|done].
Qed.
Lemma good_more log l now now' aw th : HsGood log now aw th → now ≤ now' → HsGood (log ++ l) now' aw th.
Proof.
  intros [H1 H2] Hn. split.
  - intros remote ans sent dl E. destruct (H1 _ _ _ _ E) as (A & B & C). split_and!; [done| |].
    + intros Ha. destruct (B Ha) as (apv & ? & ?). exists apv. split; [done|by apply answered_more].
    + intros tx t apv Ht Hapv. destruct (C _ _ _ Ht Hapv). split; [lia|by apply pinged_more].
  - intros d Hd Hv. destruct (H2 d Hd Hv). split; [by apply proved_more|done].
Qed.

(** Changes that the invariant does not see. *)
Lemma core_ext s s' : Core s → mgr s' = mgr s → hsThreads s' = hsThreads s → alThreads s' = alThreads s → nextWork s' = nextWork s →
  clock s ≤ clock s' → rlog s' = rlog s → Core s'.
Proof.
  intros [HI [T1 T2 T3 T4] [L1 L2 L3 L4]] Em Eh Ea En Ec El. split; [by rewrite Em| |].
  - split; rewrite ?Em, ?Eh, ?Ea, ?En; done.
  - split; rewrite ?Em, ?Eh, ?El; try done. intros id th Ht. specialize (L1 id th Ht). apply (good_more _ [] _ (clock s')) in L1; [|done]. by rewrite app_nil_r in L1.
Qed.
Lemma core_logged l s : Core s → Forall (λ a, reportOf a = None) l → Core (logged l s).
Proof.
  intros [HI HT [L1 L2 L3 L4]] Hl. assert (omap reportOf l = []) as Ho by (induction Hl as [|x l Hx Hl IH]; [done|cbn; by rewrite Hx]).
  assert (∀ w q, Ready w q ∉ l) as Hno by (intros w q Hin; rewrite Forall_forall in Hl; by specialize (Hl _ Hin)).
  split; [done|by destruct HT|]. split; cbn.
  - intros id th Ht. eapply good_more; [by eapply L1|done].
  - intros l1 w q l2 E. destruct (app_eq_inv _ _ _ _ E) as [(k & E1 & E2)|(k & E1 & E2)].
    + destruct k as [|x k]; [cbn in E2; destruct (Hno w q); rewrite <- E2; by left|]. injection E2 as <- ->. by eapply L2.
    + destruct (Hno w q). rewrite E2. apply elem_of_app. right. by left.
  - intros w q [Hin|Hin]%elem_of_app; [by eapply L3|by destruct (Hno w q)].
  - by rewrite omap_app, Ho, app_nil_r.
Qed.

(** ** Goroutines *)

(** A goroutine moves on. *)
Lemma core_hs s id th th' : Core s → hsThreads s !! id = Some th → htWork th' = htWork th → HsOk (mgr s) th' →
  HsGood (rlog s) (clock s) (awaiting (mgr s)) th' → Core (setHsThread th' s).
Proof.
  intros [HI [T1 T2 T3 T4] [L1 L2 L3 L4]] Ht Ew Hok Hg. destruct (T1 id th Ht) as (Eid & Hlt & _).
  assert (∀ w, (∃ th0, hsThreads s !! hwID w = Some th0 ∧ htWork th0 = w) → ∃ th0, hsThreads (setHsThread th' s) !! hwID w = Some th0 ∧ htWork th0 = w) as Hsome.
  { intros w (th0 & Hw & Hw'). cbn. rewrite Ew, Eid. destruct (decide (hwID w = id)) as [E|E]; [|rewrite lookup_insert_ne by done; eauto].
    rewrite E, lookup_insert_eq. exists th'. rewrite E, Ht in Hw. injection Hw as ->. split; [done|congruence]. }
  split; [done| |].
  - split; cbn; [|done| |done].
    + rewrite Ew, Eid. intros id' th0 [[<- <-]|[Hne H0]]%lookup_insert_Some; [by rewrite Ew|by apply T1].
    + intros w Hw. by apply Hsome, T3.
  - split; cbn; [|done| |done].
    + rewrite Ew, Eid. intros id' th0 [[<- <-]|[Hne H0]]%lookup_insert_Some; [done|by eapply L1].
    + intros w q Hw. destruct (L3 w q Hw) as [? ?]. split; [done|by apply Hsome].
Qed.
Lemma core_al s id th th' : Core s → alThreads s !! id = Some th → atWork th' = atWork th → AlOk (mgr s) th' → Core (setAlThread th' s).
Proof.
  intros [HI [T1 T2 T3 T4] HL] Ht Ew Hok. destruct (T2 id th Ht) as (Eid & Hlt & _). split; [done| |by destruct HL].
  split; cbn; [done| |done|].
  - rewrite Ew, Eid. intros id' th0 [[<- <-]|[Hne H0]]%lookup_insert_Some; [by rewrite Ew|by apply T2].
  - intros w Hw. destruct (T4 w Hw) as (th0 & H0 & E0). rewrite Ew, Eid. destruct (decide (awID w = id)) as [E|E]; [|rewrite lookup_insert_ne by done; eauto].
    rewrite E, lookup_insert_eq. exists th'. rewrite E, Ht in H0. injection H0 as ->. split; [done|congruence].
Qed.

(** The cache, when a goroutine comes and goes. *)
Lemma cached_same s id th th' : Cached s → hsThreads s !! id = Some th → hwID (htWork th) = id → htWork th' = htWork th →
  hsInside (htPhase th') = hsInside (htPhase th) → Cached (setHsThread th' s).
Proof.
  intros [C1 C2] Ht Eid Ew Ep. split; cbn; [done|]. intros d id'. rewrite C2, Ew, Eid. split; intros (th0 & H0 & E1 & E2).
  - destruct (decide (id' = id)) as [->|Hne]; [|exists th0; by rewrite lookup_insert_ne]. rewrite Ht in H0. injection H0 as <-. exists th'. rewrite lookup_insert_eq. split_and!; congruence.
  - apply lookup_insert_Some in H0 as [[<- <-]|[Hne H0]]; [|eauto]. exists th. split_and!; congruence.
Qed.
Lemma cached_ext s s' : Cached s → discoInfoByServerDisco s' = discoInfoByServerDisco s → hsThreads s' = hsThreads s → Cached s'.
Proof. intros [C1 C2] Ei Eh. split; by rewrite Ei, ?Eh. Qed.
Lemma cached_enter s id th th' : Cached s → hsThreads s !! id = Some th → hwID (htWork th) = id → htWork th' = htWork th →
  hsInside (htPhase th) = false → hsInside (htPhase th') = true → Cached (setHsThread th' (ensureDiscoInfoFor (htWork th) s)).
Proof.
  intros [C1 C2] Ht Eid Ew Ep Ep'. set (w := htWork th) in *. split; cbn.
  - intros d [[<- E]|[_ E]]%lookup_insert_Some; [set_solver|by eapply C1].
  - intros d id'. rewrite Ew, Eid. destruct (decide (id' = id)) as [->|Hne].
    + rewrite lookup_insert_eq. split.
      * intros Hin. exists th'. split_and!; [done| |done]. destruct (decide (d = hwDisco w)) as [->|Hd]; [by rewrite Ew|]. rewrite lookup_insert_ne in Hin by done.
        apply C2 in Hin as (th0 & H0 & _ & E0). congruence.
      * intros (th0 & [= <-] & Hd & _). rewrite Ew in Hd. rewrite Hd, lookup_insert_eq. set_solver.
    + rewrite (lookup_insert_ne (hsThreads s)) by done. rewrite <- C2. destruct (decide (d = hwDisco w)) as [->|Hd]; [rewrite lookup_insert_eq; set_solver|by rewrite lookup_insert_ne].
Qed.
Lemma cached_leave s id th th' : Cached s → hsThreads s !! id = Some th → hwID (htWork th) = id → htWork th' = htWork th →
  hsInside (htPhase th) = true → hsInside (htPhase th') = false → Cached (setHsThread th' (derefDiscoInfoFor (htWork th) s)).
Proof.
  intros [C1 C2] Ht Eid Ew Ep Ep'. set (w := htWork th) in *. assert (id ∈ default ∅ (discoInfoByServerDisco s !! hwDisco w)) as Hin by (apply C2; by exists th).
  unfold derefDiscoInfoFor. destruct (discoInfoByServerDisco s !! hwDisco w) as [S|] eqn:ES; [|by apply elem_of_empty in Hin]. cbn in Hin. cbv zeta.
  assert (∀ d, default ∅ ((if decide (S ∖ {[hwID w]} = ∅) then delete (hwDisco w) (discoInfoByServerDisco s) else <[hwDisco w := S ∖ {[hwID w]}]> (discoInfoByServerDisco s)) !! d) =
    default ∅ (discoInfoByServerDisco s !! d) ∖ (if decide (d = hwDisco w) then {[id]} else ∅)) as HD.
  { intros d. rewrite Eid. destruct (decide (d = hwDisco w)) as [->|Hd].
    - rewrite ES. case_decide as E; [by rewrite lookup_delete_eq|by rewrite lookup_insert_eq].
    - case_decide; [rewrite lookup_delete_ne by done|rewrite lookup_insert_ne by done]; by rewrite difference_empty_L. }
  split; cbn.
  - intros d E. case_decide as ED; [apply lookup_delete_Some in E as [_ E]|apply lookup_insert_Some in E as [[_ E]|[_ E]]]; [by eapply C1|done|by eapply C1].
  - intros d id'. rewrite HD, elem_of_difference, C2, Ew, Eid. destruct (decide (id' = id)) as [->|Hne].
    + rewrite lookup_insert_eq. split; [|intros (th0 & [= <-] & _ & E0); congruence]. intros [(th0 & H0 & E1 & _) Hno]. rewrite Ht in H0. injection H0 as <-.
      rewrite decide_True in Hno by done. set_solver.
    + rewrite lookup_insert_ne by done. split; [by intros [? _]|]. intros HE. split; [done|]. destruct (decide (d = hwDisco w)); [by rewrite elem_of_singleton|by apply not_elem_of_empty].
Qed.

Definition Inv (s : Relays) : Prop := Core s ∧ Cached s.
(** Steps of goroutines leave the manager, the work and its cancellation alone. *)
Definition tag (th : HsThread) : relayHandshakeWork * bool := (htWork th, htCancelled th).
Record Beside (s s' : Relays) : Prop := {
  be_mgr : mgr s' = mgr s; be_al : alThreads s' = alThreads s; be_next : nextWork s' = nextWork s; be_clock : clock s' = clock s;
  be_hs id : tag <$> hsThreads s' !! id = tag <$> hsThreads s !! id
}.
Lemma beside_refl s : Beside s s.
Proof. by split. Qed.
Lemma beside_trans s1 s2 s3 : Beside s1 s2 → Beside s2 s3 → Beside s1 s3.
Proof. intros [] []. split; congruence. Qed.
Lemma beside_set s s0 id th th' : hsThreads s !! id = Some th → hwID (htWork th) = id → tag th' = tag th →
  mgr s0 = mgr s → alThreads s0 = alThreads s → nextWork s0 = nextWork s → clock s0 = clock s → hsThreads s0 = hsThreads s → Beside s (setHsThread th' s0).
Proof.
  intros Ht Eid Etag Em Ea En Ec Eh. split; cbn; try done. intros id'. rewrite Eh. assert (htWork th' = htWork th) as -> by by injection Etag. rewrite Eid.
  destruct (decide (id' = id)) as [->|Hne]; [|by rewrite lookup_insert_ne]. rewrite lookup_insert_eq, Ht. cbn. by rewrite Etag.
Qed.

Lemma hsOk_to r th p : HsOk r th → hsRuns (htPhase th) = true → hsRuns p = true → (∀ d, p = HsFin d → hdWork d = htWork th) → HsOk r (hsTo p th).
Proof.
  intros [F R A] Hr Hp Hd. split; cbn; [|by intros _; apply R|by left]. intros d [E|[E|E]]; [by apply Hd|by subst|]. destruct (R Hr). congruence.
Qed.
Lemma noPong_good log w : doneGood log (noPong w).
Proof. done. Qed.
Lemma good_fin log now aw th d : doneGood log d → htDoneCh th = None → HsGood log now aw (hsTo (HsFin d) th).
Proof. intros Hd Hn. split; cbn; [done|]. intros d' [[= <-]|[E|E]]; [done|done|congruence]. Qed.

(** It enters its loop, or fails before it. *)
Lemma hs_enter id th p l s : Inv s → hsThreads s !! id = Some th → htPhase th = HsStart → hsInside p = true →
  (∀ d, p = HsFin d → d = noPong (htWork th)) → (∀ remote ans sent dl, p = HsLoop remote ans sent dl → ans = false ∧ sent = ∅) → Forall (λ a, reportOf a = None) l →
  let s' := setHsThread (hsTo p th) (logged l (ensureDiscoInfoFor (htWork th) s)) in
  Inv s' ∧ Beside s s' ∧ ∃ th', hsThreads s' !! id = Some th' ∧ hsInside (htPhase th') = true.
Proof.
  intros [HC HK] Ht Ep Hp Hf Hl Hlog s'. destruct (th_hs _ (co_th _ HC) _ _ Ht) as (Eid & _ & Hok).
  assert (htDoneCh th = None) as Hn by (apply (ho_runs _ _ Hok); by rewrite Ep). split_and!.
  - split.
    + assert (Core (logged l (ensureDiscoInfoFor (htWork th) s))) as HC1 by (apply core_logged; [by apply (core_ext s)|done]).
      apply (core_hs _ id th); [done|done|done| |].
      * apply hsOk_to; [done|by rewrite Ep|by destruct p|]. intros d E. by rewrite (Hf _ E).
      * split; cbn.
        -- intros remote ans sent dl E. destruct (Hl _ _ _ _ E) as [-> ->]. split_and!; [done|done|]. intros tx t apv Hx. by rewrite lookup_empty in Hx.
        -- intros d [E|[E|E]]; [rewrite (Hf _ E); apply noPong_good|by subst|congruence].
    + apply (cached_ext (setHsThread (hsTo p th) (ensureDiscoInfoFor (htWork th) s))); [|done|done]. by apply (cached_enter s id th); rewrite ?Ep.
  - by apply (beside_set s _ id th).
  - exists (hsTo p th). subst s'. cbn. by rewrite Eid, lookup_insert_eq.
Qed.
Lemma logged_nil s : logged [] s = s.
Proof. unfold logged. rewrite app_nil_r. by destruct s. Qed.
Lemma hsStart_inv id s : Inv s → Inv (hsStart id s) ∧ Beside s (hsStart id s) ∧
  (∀ th, hsThreads s !! id = Some th → hsRuns (htPhase th) = true → ∃ th', hsThreads (hsStart id s) !! id = Some th' ∧ hsInside (htPhase th') = true) ∧
  (∀ th, hsThreads s !! id = Some th → hsRuns (htPhase th) = false → hsStart id s = s).
Proof.
  intros HI. unfold hsStart. destruct (hsThreads s !! id) as [th|] eqn:Ht; [|split_and!; [done|apply beside_refl|done|done]].
  destruct (htPhase th) as [|remote ans sent dl|d|d|] eqn:Ep; try by (split_and!; [done|apply beside_refl| |done]; intros ? [= <-] Hr; exists th; rewrite Ep in *; done).
  cbv zeta. assert (∀ x : Relays, (∀ th0, Some th = Some th0 → hsRuns (htPhase th0) = false → x = s)) as HF by (intros x ? [= <-]; by rewrite Ep).
  assert (∀ s', (Inv s' ∧ Beside s s' ∧ ∃ th', hsThreads s' !! id = Some th' ∧ hsInside (htPhase th') = true) →
    Inv s' ∧ Beside s s' ∧ (∀ th0, Some th = Some th0 → hsRuns (htPhase th0) = true → ∃ th', hsThreads s' !! id = Some th' ∧ hsInside (htPhase th') = true) ∧
    (∀ th0, Some th = Some th0 → hsRuns (htPhase th0) = false → s' = s)) as HX by (intros s' (? & ? & ?); split_and!; [done|done|done|apply HF]).
  destruct (epDiscos _ !! _) as [remote|]; [destruct (filter _ _) as [|x l]|]; apply HX.
  - rewrite <- (logged_nil (ensureDiscoInfoFor _ _)). apply hs_enter; try done. by intros d [= <-].
  - apply hs_enter; try done; [by intros ? ? ? ? [= <- <- <- <-]|]. apply Forall_forall. intros a (y & -> & _)%list_elem_of_fmap. done.
  - rewrite <- (logged_nil (ensureDiscoInfoFor _ _)). apply hs_enter; try done. by intros d [= <-].
Qed.
Lemma hsEnd_inv may id s : Inv s → Inv (hsEnd may id s) ∧ Beside s (hsEnd may id s) ∧
  (∀ th, hsThreads s !! id = Some th → hsInside (htPhase th) = true → (∀ dl, may th dl = true) → ∃ th' d, hsThreads (hsEnd may id s) !! id = Some th' ∧ htPhase th' = HsFin d) ∧
  (∀ th, hsThreads s !! id = Some th → hsRuns (htPhase th) = false → hsEnd may id s = s).
Proof.
  intros [HC HK]. unfold hsEnd. destruct (hsThreads s !! id) as [th|] eqn:Ht; [|split_and!; [done|apply beside_refl|done|done]].
  destruct (th_hs _ (co_th _ HC) _ _ Ht) as (Eid & _ & Hok).
  destruct (htPhase th) as [|remote ans sent dl|d|d|] eqn:Ep; try by (split_and!; [done|apply beside_refl| |done]; intros ? [= <-] Hr _; rewrite Ep in *; eauto).
  destruct (may th dl) eqn:Em; [|split_and!; [done|apply beside_refl| |done]; intros ? [= <-] _ HM; rewrite HM in Em; done].
  assert (htDoneCh th = None) as Hn by (apply (ho_runs _ _ Hok); by rewrite Ep). split_and!.
  - split; [|apply (cached_same s id th); rewrite ?Ep; done]. apply (core_hs _ id th); [done|done|done| |apply good_fin; [apply noPong_good|done]].
    apply hsOk_to; [done|by rewrite Ep|done|by intros ? [= <-]].
  - by apply (beside_set s _ id th).
  - intros _ _ _ _. eexists _, _. cbn. by rewrite Eid, lookup_insert_eq.
  - intros ? [= <-]. by rewrite Ep.
Qed.
Lemma hsFinish_inv id s : Inv s → Inv (hsFinish id s) ∧ Beside s (hsFinish id s) ∧
  (∀ th d, hsThreads s !! id = Some th → htPhase th = HsFin d → ∃ th', hsThreads (hsFinish id s) !! id = Some th' ∧ htPhase th' = HsOffer d ∧ htDoneCh th' = Some d) ∧
  (∀ th, hsThreads s !! id = Some th → (∀ d, htPhase th ≠ HsFin d) → hsFinish id s = s).
Proof.
  intros [HC HK]. unfold hsFinish. destruct (hsThreads s !! id) as [th|] eqn:Ht; [|split_and!; [done|apply beside_refl|done|done]].
  destruct (th_hs _ (co_th _ HC) _ _ Ht) as (Eid & _ & Hok). pose proof (lg_hs _ (co_log _ HC) _ _ Ht) as Hg.
  destruct (htPhase th) as [|remote ans sent dl|d|d|] eqn:Ep; try by (split_and!; [done|apply beside_refl| |done]; intros ? ? [= <-]; rewrite Ep).
  assert (derefDiscoInfoFor (htWork th) s = setInfos (discoInfoByServerDisco (derefDiscoInfoFor (htWork th) s)) s) as ED by (unfold derefDiscoInfoFor; case_match; [done|by destruct s]).
  split_and!.
  - split; [|apply (cached_leave s id th); rewrite ?Ep; done]. rewrite ED. apply (core_hs _ id th); [by apply (core_ext s)|done|done| |].
    + split; cbn; [|done|right; by exists d]. intros d' [E|[[= <-]|[= <-]]]; [done|apply (ho_fin _ _ Hok); by left..].
    + split; cbn; [done|]. intros d' [E|[[= <-]|[= <-]]]; [done|apply (hg_done _ _ _ _ Hg); by left..].
  - rewrite ED. by apply (beside_set s _ id th).
  - intros ? ? [= <-]. rewrite Ep. intros [= <-]. eexists. cbn. by rewrite ED, Eid, lookup_insert_eq.
  - intros ? [= <-] HN. by destruct (HN d).
Qed.

(** A message for a handshake. *)
Section receive.
Context `{RelayRandom}.
Lemma txPing_spec w remote to ans sent s : let x := txPing w remote to ans sent s in
  ∃ l n, x.2 = setDraws n (logged l s) ∧ Forall (λ a, reportOf a = None) l ∧
  (∀ tx t, x.1 !! tx = Some t → sent !! tx = Some t ∨ t = clock s ∧ Pinged (rlog s ++ l) w to remote tx) ∧
  (∀ ch, ans = Some ch → sent = ∅ → Transmit (relayAddr w to) 0 (hwDisco w) (BindUDPRelayEndpointAnswer (bindCommon w remote ch)) ∈ l).
Proof.
  unfold txPing. case_decide as Ez.
  { exists [], (rdraws s). split_and!; [destruct s; cbn; unfold setDraws, logged; cbn; by rewrite app_nil_r|done|by left|]. intros ch _ ->. by rewrite map_size_empty in Ez. }
  cbn. eexists _, _. split_and!; [done| | |].
  - destruct ans; cbn; repeat constructor.
  - intros tx t [[<- <-]|[_ Hs]]%lookup_insert_Some; [right|by left]. split; [done|]. eexists. rewrite !elem_of_app. right. right. by left.
  - intros ch -> _. by left.
Qed.
Lemma hsReceive_inv id th remote ans sent dl ev s : Inv s → hsThreads s !! id = Some th → htPhase th = HsLoop remote ans sent dl →
  awaiting (mgr s) !! id = Some (addrPortVNI ev) → dmVNI ev = hwVNI (htWork th) → Given (htWork th) ev ∈ rlog s →
  (∀ c, dmMsg ev = BindUDPRelayEndpointChallenge c → dmDisco ev = hwDisco (htWork th)) →
  Inv (hsReceive th remote ans sent dl ev s) ∧ Beside s (hsReceive th remote ans sent dl ev s).
Proof.
  intros [HC HK] Ht Ep Haw Hv Hgiven Hch. destruct (th_hs _ (co_th _ HC) _ _ Ht) as (Eid & _ & Hok). pose proof (lg_hs _ (co_log _ HC) _ _ Ht) as Hg.
  destruct (hg_loop _ _ _ _ Hg _ _ _ _ Ep) as (G1 & G2 & G3). rewrite Eid in G2, G3. assert (htDoneCh th = None) as Hn by (apply (ho_runs _ _ Hok); by rewrite Ep).
  assert (Inv s ∧ Beside s s) as Hsame by (split; [done|apply beside_refl]).
  assert (∀ s1 l n sent', s1 = setDraws n (logged l s) → Forall (λ a, reportOf a = None) l → 
    (∀ tx t, sent' !! tx = Some t → sent !! tx = Some t ∨ t = clock s ∧ Pinged (rlog s ++ l) (htWork th) (dmFrom ev) remote tx) →
    Answered (rlog s ++ l) (htWork th) (dmFrom ev) remote →
    Inv (setHsThread (hsTo (HsLoop remote true sent' dl) th) s1) ∧ Beside s (setHsThread (hsTo (HsLoop remote true sent' dl) th) s1)) as HL.
  { intros s1 l n sent' -> Hl Hs Ha. split; [|by apply (beside_set s _ id th)]. split; [|apply (cached_same _ id th); rewrite ?Ep; [by apply (cached_ext s)|done..]].
    apply (core_hs _ id th); [eapply core_ext; [apply (core_logged l s HC Hl)|done..]|done|done|apply hsOk_to; by rewrite ?Ep|].
    split; cbn; [|intros d [E|[E|E]]; [done|done|congruence]]. rewrite Eid, Haw. intros remote' ans' sent'' dl' [= <- <- <- <-]. split_and!; [done|by exists (addrPortVNI ev)|].
    intros tx t apv Hx [= <-]. destruct (Hs _ _ Hx) as [Hx'|[-> ?]]; [|done]. destruct (G3 _ _ _ Hx' Haw). split; [done|by apply pinged_more]. }
  unfold hsReceive. destruct (dmMsg ev) as [txp nkp padp|tx src| | |c| | | |] eqn:Em; try exact Hsame.
  - destruct ans; [|exact Hsame]. cbn [negb]. pose proof (txPing_spec (htWork th) remote (dmFrom ev) None sent s) as (l & n & E2 & Hl & Hs & _).
    destruct (txPing _ _ _ _ _ _) as [sent' s1]. cbn [fst snd] in *. eapply HL; [done|done|done|]. destruct (G2 eq_refl) as (apv & Hapv & HA). rewrite Haw in Hapv. injection Hapv as <-. by apply answered_more.
  - destruct (sent !! tx) as [t|] eqn:Etx; [|exact Hsame]. destruct (G3 _ _ _ Etx Haw) as [Hle HP]. split; [|by apply (beside_set s _ id th)]. split; [|apply (cached_same _ id th); rewrite ?Ep; done].
    apply (core_hs _ id th); [done|done|done|apply hsOk_to; [done|by rewrite Ep|done|by intros ? [= <-]]|]. apply good_fin; [|done]. intros _. cbn. split; [|lia].
    destruct ans; [|by rewrite G1 in Etx]. destruct (G2 eq_refl) as (apv & Hapv & HA). rewrite Haw in Hapv. injection Hapv as <-. exists remote, tx. split_and!; [done|done|].
    exists ev, src. split_and!; [done|done|]. unfold addrPortVNI. by rewrite Hv.
  - destruct (validateVNIAndRemoteKey _ _ _) eqn:EV; [|exact Hsame]. cbn [negb]. destruct ans; [exact Hsame|]. rewrite (G1 eq_refl) in *.
    pose proof (txPing_spec (htWork th) remote (dmFrom ev) (Some (bcChallenge c)) ∅ s) as (l & n & E2 & Hl & Hs & Ha).
    destruct (txPing _ _ _ _ _ _) as [sent' s1]. cbn [fst snd] in *. eapply HL; [done|done|done|]. unfold validateVNIAndRemoteKey in EV. apply andb_true_iff in EV as [_ EV%Z.eqb_eq].
    exists ev, c. split_and!; [apply elem_of_app; by left|done|by eapply Hch|unfold addrPortVNI; by rewrite Hv|done|]. apply elem_of_app. right. by eapply Ha.
Qed.
End receive.

(** ** A handshake leaves the indexes *)
Definition dropHs (w : relayHandshakeWork) (r : relayManager) : relayManager :=
  mkRelayManager (serversByNodeKey r) (alByEp r) (alByKeys r) (del2 (hwEp w) (hwDisco w) (hsByEp r)) (delete (hwDisco w, hwVNI w) (hsByVNI r))
    (match awaiting r !! hwID w with Some _ => delete (hwID w) (awaiting r) | None => awaiting r end)
    (match awaiting r !! hwID w with Some apv => delete apv (hsByAddr r) | None => hsByAddr r end)
    (handshakeGeneration r) (allocGeneration r) (hasPeerRelayServers r).
Lemma drop_active w r x : activeH r w → activeH (dropHs w r) x ↔ activeH r x ∧ x ≠ w.
Proof.
  unfold activeH. cbn. intros Hw. rewrite get2_del2. case_decide as E; [|naive_solver]. destruct E as [E1 E2]. rewrite <- E1, <- E2, Hw. naive_solver.
Qed.
Lemma drop_awaiting w r id : awaiting (dropHs w r) !! id = if decide (id = hwID w) then None else awaiting r !! id.
Proof.
  cbn. destruct (awaiting r !! hwID w) eqn:E; case_decide as Ei; subst; by rewrite ?lookup_delete_eq, ?lookup_delete_ne.
Qed.
Lemma drop_indexed w r : Indexed r → activeH r w → Indexed (dropHs w r).
Proof.
  intros [F1 F2 F3 I1 I2 I3 I4 I5 I6 I7 I8] Hw. split; cbn; try done.
  - by apply full_del2.
  - intros ep d x. rewrite get2_del2. destruct (decide (_ ∧ _)); [intros [=]|apply I1].
  - intros k x. rewrite (drop_active w r x Hw), lookup_delete_Some, I2. split.
    + intros (Hne & Hx & ->). split_and!; [done| |done]. by intros ->.
    + intros [[Hx Hne] ->]. split_and!; [|done|done]. intros E. assert (hsByVNI r !! (hwDisco x, hwVNI x) = Some x) as H1 by by apply I2. rewrite <- E in H1. apply Hne.
      assert (hsByVNI r !! (hwDisco w, hwVNI w) = Some w) as H2 by by apply I2. congruence.
  - intros apv x Hx. pose proof (drop_awaiting w r (hwID x)) as HA. cbn in HA. rewrite HA, (drop_active w r x Hw).
    assert (hsByAddr r !! apv = Some x ∧ hwID x ≠ hwID w) as [Hx' Hne].
    { destruct (awaiting r !! hwID w) as [apv0|] eqn:E.
      - apply lookup_delete_Some in Hx as [Hne Hx]. split; [done|]. destruct (I3 _ _ Hx) as [Ha _]. congruence.
      - split; [done|]. destruct (I3 _ _ Hx) as [Ha _]. congruence. }
    rewrite decide_False by done. destruct (I3 _ _ Hx') as (? & ? & ?). split_and!; try done. by intros ->.
  - intros id apv. pose proof (drop_awaiting w r id) as HA. cbn in HA. rewrite HA. destruct (decide (id = hwID w)) as [|Ei]; [intros [=]|]. intros Hid. destruct (I4 _ _ Hid) as (x & Hx & Ex). exists x. split; [|done].
    destruct (awaiting r !! hwID w) as [apv0|] eqn:E; [|done]. apply lookup_delete_Some. split; [|done]. intros ->. destruct (I4 _ _ E) as (y & Hy & Ey). congruence.
Qed.
Lemma handleDone_active d s : activeH (mgr s) (hdWork d) → ∃ l, handleHandshakeWorkDoneRunLoop d s = logged l (setMgr (dropHs (hdWork d) (mgr s)) s) ∧
  l = if apIsValid (pongReceivedFrom d)
      then [Ready (hdWork d) (mkQuality (relayAddr (hdWork d) (pongReceivedFrom d)) (hwDisco (hdWork d)) (hdLatency d) SafeWireMTU)] else [].
Proof.
  intros Ha. unfold handleHandshakeWorkDoneRunLoop. rewrite decide_True by done. eexists. split; [|done]. unfold dropHs, setHsIndex. destruct (apIsValid _); cbn [negb].
  - by destruct (awaiting (mgr s) !! hwID (hdWork d)).
  - rewrite logged_nil. by destruct (awaiting (mgr s) !! hwID (hdWork d)).
Qed.
Lemma handleDone_gone d s : ¬ activeH (mgr s) (hdWork d) → handleHandshakeWorkDoneRunLoop d s = s.
Proof. intros Ha. unfold handleHandshakeWorkDoneRunLoop. by rewrite decide_False. Qed.

(** What has changed when work [w] is over. *)
Record Ended (w : relayHandshakeWork) (s s' : Relays) : Prop := {
  en_h x : activeH (mgr s') x ↔ activeH (mgr s) x ∧ x ≠ w;
  en_ep : alByEp (mgr s') = alByEp (mgr s); en_keys : alByKeys (mgr s') = alByKeys (mgr s);
  en_al : alThreads s' = alThreads s;
  en_hs id : id ≠ hwID w → tag <$> hsThreads s' !! id = tag <$> hsThreads s !! id
}.

Lemma hsOk_drop w r th : activeH r w → HsOk r th → htWork th ≠ w → HsOk (dropHs w r) th.
Proof. intros Hw [F R A] Hne. split; [done| |]; rewrite drop_active by done; naive_solver. Qed.
Lemma good_drop log now w r th : HsGood log now (awaiting r) th → hwID (htWork th) ≠ hwID w ∨ hsRuns (htPhase th) = false → HsGood log now (awaiting (dropHs w r)) th.
Proof.
  intros [G1 G2] Hne. split; [|done]. intros remote ans sent dl E. destruct Hne as [Hne|Hr]; [|by rewrite E in Hr]. rewrite drop_awaiting, decide_False by done. by eapply G1.
Qed.
Lemma alOk_ext r r' th : alByEp r' = alByEp r → AlOk r th → AlOk r' th.
Proof. intros E [F R A]. split; [done| |]; unfold activeA in *; by rewrite E. Qed.
(** The event of a goroutine is taken, from its channel or by the loop. *)
Lemma hsDone_core s id th th' d : Core s → hsThreads s !! id = Some th → htPhase th = HsOffer d → activeH (mgr s) (htWork th) →
  htWork th' = htWork th → (htPhase th' = HsOffer d ∨ htPhase th' = HsExit) → (htDoneCh th' = None ∨ htDoneCh th' = Some d) →
  Core (setMgr (dropHs (htWork th) (mgr s)) (setHsThread th' s)).
Proof.
  intros [HI [T1 T2 T3 T4] [L1 L2 L3 L4]] Ht Ep Ha Ew Ep' Ed. destruct (T1 _ _ Ht) as (Eid & Hlt & Hok). pose proof (L1 _ _ Ht) as Hg.
  assert (∀ d', htPhase th' = HsFin d' ∨ htPhase th' = HsOffer d' ∨ htDoneCh th' = Some d' → d' = d) as Hd.
  { intros d' [E|[E|E]]; [destruct Ep'; congruence..|destruct Ed; congruence]. }
  assert (hsRuns (htPhase th') = false) as Hr by (destruct Ep' as [-> | ->]; done).
  assert (∀ x, (∃ th0, hsThreads s !! hwID x = Some th0 ∧ htWork th0 = x) → ∃ th0, hsThreads (setHsThread th' s) !! hwID x = Some th0 ∧ htWork th0 = x) as Hsome.
  { intros x (th0 & Hx & Hx'). cbn. rewrite Ew, Eid. destruct (decide (hwID x = id)) as [E|E]; [|rewrite lookup_insert_ne by done; eauto].
    rewrite E, lookup_insert_eq. exists th'. rewrite E, Ht in Hx. injection Hx as ->. split; [done|congruence]. }
  split; [by apply drop_indexed| |].
  - split; cbn [mgr setMgr hsThreads setHsThread setHs nextWork alThreads]; [| | |done].
    + rewrite Ew, Eid. intros id' th0 [[<- <-]|[Hne H0]]%lookup_insert_Some.
      * split_and!; [congruence|done|]. split; [|by rewrite Hr|rewrite Ew, drop_active by done; naive_solver]. intros d' E%Hd. subst. rewrite Ew. apply (ho_fin _ _ Hok). auto.
      * destruct (T1 _ _ H0) as (E0 & ? & ?). split_and!; [done|done|]. apply hsOk_drop; [done|done|]. intros E. rewrite E in E0. congruence.
    + intros id' th0 H0. destruct (T2 _ _ H0) as (? & ? & ?). split_and!; [done|done|by apply (alOk_ext (mgr s))].
    + intros x [Hx _]%drop_active; [|done]. by apply Hsome, T3.
  - split; cbn [mgr setMgr hsThreads setHsThread setHs rlog clock]; [|done| |done].
    + rewrite Ew, Eid. intros id' th0 [[<- <-]|[Hne H0]]%lookup_insert_Some.
      * apply good_drop; [|by right]. split; [intros ? ? ? ? E; by rewrite E in Hr|]. intros d' E%Hd. subst. apply (hg_done _ _ _ _ Hg). auto.
      * apply good_drop; [by eapply L1|left]. destruct (T1 _ _ H0) as (E0 & _). congruence.
    + intros x q Hx. destruct (L3 _ _ Hx) as [Hn ?]. split; [rewrite drop_active by done; naive_solver|by apply Hsome].
Qed.
(** A justified report of work that has left the indexes. *)
Lemma core_ready s w q : Core s → Justified (rlog s) w q → ¬ activeH (mgr s) w → (∃ th, hsThreads s !! hwID w = Some th ∧ htWork th = w) →
  (∀ q', Ready w q' ∉ rlog s) → Core (logged [Ready w q] s).
Proof.
  intros [HI HT [L1 L2 L3 L4]] HJ Hna Hth Hno. split; [done|by destruct HT|]. split; cbn.
  - intros id th Ht. eapply good_more; [by eapply L1|done].
  - intros l1 x qx l2 E. destruct (app_eq_inv _ _ _ _ E) as [(k & E1 & E2)|(k & E1 & E2)].
    + destruct k as [|y k]; [|injection E2 as <- ->; by eapply L2]. cbn in E2. injection E2 as -> -> _. rewrite app_nil_r in E1. by subst.
    + destruct k as [|y k]; [|by destruct k]. cbn in E2. injection E2 as -> ->. rewrite app_nil_r in E1. by subst.
  - intros x qx [Hin|Hin]%elem_of_app; [by eapply L3|]. apply list_elem_of_singleton in Hin. by injection Hin as -> ->.
  - rewrite omap_app. cbn. apply NoDup_app. split_and!; [done| |apply NoDup_singleton]. intros i Hi ->%list_elem_of_singleton. apply list_elem_of_omap in Hi as (a & Hin & Ea).
    destruct a as [| |x qx| |]; try done. injection Ea as Ea. destruct (L3 _ _ Hin) as [_ (th & Ht & Ex)], Hth as (th2 & Ht2 & Ex2). rewrite Ea, Ht2 in Ht. injection Ht as <-.
    apply (Hno qx). congruence.
Qed.
Lemma hsDone_inv s id th th' d : Inv s → hsThreads s !! id = Some th → htPhase th = HsOffer d → activeH (mgr s) (htWork th) →
  htWork th' = htWork th → (htPhase th' = HsOffer d ∨ htPhase th' = HsExit) → (htDoneCh th' = None ∨ htDoneCh th' = Some d) →
  let s' := handleHandshakeWorkDoneRunLoop d (setHsThread th' s) in Inv s' ∧ Ended (htWork th) s s'.
Proof.
  intros [HC HK] Ht Ep Ha Ew Ep' Ed s'. destruct (th_hs _ (co_th _ HC) _ _ Ht) as (Eid & _ & Hok). assert (hdWork d = htWork th) as Edw by (apply (ho_fin _ _ Hok); auto).
  pose proof (hsDone_core _ _ _ _ _ HC Ht Ep Ha Ew Ep' Ed) as HC'. destruct (handleDone_active d (setHsThread th' s)) as (l & El & ->); [by rewrite Edw|].
  rewrite Edw in El. subst s'. rewrite El. split.
  - split; [|apply (cached_ext (setHsThread th' s)); [|done|done]; apply (cached_same s id th); [done..|]; rewrite Ep; destruct Ep' as [-> | ->]; done].
    destruct (apIsValid (pongReceivedFrom d)) eqn:Ev; [|by rewrite logged_nil]. destruct (hg_done _ _ _ _ (lg_hs _ (co_log _ HC) _ _ Ht) d ltac:(auto) Ev) as [HP Hlat].
    rewrite Edw in HP. apply core_ready; [exact HC'| | | |].
    + exists (pongReceivedFrom d). split_and!; [done|done|done|done].
    + cbn. rewrite drop_active by done. naive_solver.
    + cbn. exists th'. by rewrite Ew, lookup_insert_eq.
    + intros q Hq. by destruct (lg_reported _ (co_log _ HC) _ _ Hq).
  - split; cbn; [intros x; by apply drop_active|done|done|done|]. intros id' Hne. by rewrite Ew, lookup_insert_ne.
Qed.
