(* ===== verification/RelayRunThms.v ===== *)
(** * Theorems on the runs of the relay manager

    The handlers of [runLoop] keep the invariant of [RelayThms] and never wait for ever;
    with it, what holds after every sequence of calls, messages, timers and steps of
    goroutines. *)

From stdpp Require Import base gmap sets list.
From S2P Require Import Prelude Bytes NetIP PeerMap Disco DiscoRx Paths Relay RelayThms.

#[export] Instance activeH_dec r w : Decision (activeH r w).
Proof. unfold activeH. apply _. Defined.
#[export] Instance activeA_dec r w : Decision (activeA r w).
Proof. unfold activeA. apply _. Defined.

(** ** A handshake is stopped *)
Lemma cancelHs_eq s id th : hsThreads s !! id = Some th → hwID (htWork th) = id →
  cancelHs id s = setHsThread (mkHsThread (htWork th) true (htPhase th) (htDoneCh th)) s.
Proof.
  intros Ht Eid. unfold cancelHs, setHsThread. f_equal. cbn. rewrite Eid. apply map_eq. intros i. destruct (decide (i = id)) as [->|Hne].
  - by rewrite lookup_alter_eq, lookup_insert_eq, Ht.
  - by rewrite lookup_alter_ne, lookup_insert_ne.
Qed.
Lemma cancelHs_inv s id th : Inv s → hsThreads s !! id = Some th → Inv (cancelHs id s).
Proof.
  intros [HC HK] Ht. destruct (th_hs _ (co_th _ HC) _ _ Ht) as (Eid & _ & [O1 O2 O3]). destruct (lg_hs _ (co_log _ HC) _ _ Ht) as [G1 G2].
  rewrite (cancelHs_eq _ _ _ Ht Eid). split; [|by apply (cached_same s id th)]. by apply (core_hs s id th).
Qed.
Section hs.
Context `{RelayRandom}.
(** A cancelled goroutine comes to write to its done channel. *)
Lemma drain_inv s w th : Inv s → activeH (mgr s) w → hsThreads s !! hwID w = Some th → htWork th = w →
  let s' := hsFinish (hwID w) (hsCancelled (hwID w) (hsStart (hwID w) (cancelHs (hwID w) s))) in
  Inv s' ∧ mgr s' = mgr s ∧ alThreads s' = alThreads s ∧ (∀ id, id ≠ hwID w → tag <$> hsThreads s' !! id = tag <$> hsThreads s !! id) ∧
  ∃ th' d, hsThreads s' !! hwID w = Some th' ∧ htWork th' = w ∧ htPhase th' = HsOffer d ∧ htDoneCh th' = Some d.
Proof.
  intros HI Ha Ht Ew. set (id := hwID w) in *. assert (Inv (cancelHs id s)) as H1 by by eapply cancelHs_inv. assert (hwID (htWork th) = id) as Eid by by rewrite Ew.
  pose proof (cancelHs_eq s id th Ht Eid) as E1. set (s1 := cancelHs id s) in *. set (th1 := mkHsThread (htWork th) true (htPhase th) (htDoneCh th)) in *.
  assert (hsThreads s1 !! id = Some th1) as Ht1 by (rewrite E1; cbn; by rewrite Eid, lookup_insert_eq).
  destruct (hsStart_inv id s1 H1) as (H2 & B2 & P2 & Q2). set (s2 := hsStart id s1) in *.
  destruct (hsEnd_inv (λ th _, htCancelled th) id s2 H2) as (H3 & B3 & P3 & Q3). change (hsEnd (λ th _, htCancelled th) id s2) with (hsCancelled id s2) in *. set (s3 := hsCancelled id s2) in *.
  destruct (hsFinish_inv id s3 H3) as (H4 & B4 & P4 & Q4). set (s4 := hsFinish id s3) in *. cbv zeta.
  pose proof (beside_trans _ _ _ (beside_trans _ _ _ B2 B3) B4) as B. assert (mgr s1 = mgr s ∧ alThreads s1 = alThreads s) as [Em Eal] by (by rewrite E1).
  split_and!; [done|by rewrite (be_mgr _ _ B)|by rewrite (be_al _ _ B)| |].
  { intros i Hi. rewrite (be_hs _ _ B), E1. cbn. by rewrite Eid, lookup_insert_ne. }
  assert (∃ th4 d, hsThreads s4 !! id = Some th4 ∧ htPhase th4 = HsOffer d ∧ htDoneCh th4 = Some d) as (th4 & d & Ht4 & Ep4 & Ed4).
  { destruct (hsRuns (htPhase th1)) eqn:Er.
    - destruct (P2 _ Ht1 Er) as (th2 & Ht2 & Ei2). pose proof (be_hs _ _ B2 id) as Et. rewrite Ht1, Ht2 in Et. injection Et as Ew2 Ec2.
      destruct (P3 _ Ht2 Ei2 (λ _, Ec2)) as (th3 & d & Ht3 & Ep3). destruct (P4 _ _ Ht3 Ep3) as (th4 & Ht4 & Ep4 & Ed4). eauto.
    - assert (s4 = s1) as ->. { rewrite (Q4 th1); [|rewrite (Q3 th1), (Q2 th1); [done..|by rewrite (Q2 th1)|done]|intros d E; by rewrite E in Er]. by rewrite (Q3 th1), (Q2 th1); [..|by rewrite (Q2 th1)|]. }
      destruct HI as [HC _]. destruct (th_hs _ (co_th _ HC) _ _ Ht) as (_ & _ & Hok). destruct (ho_active _ _ Hok) as [Hr|(d & Ep & Ed)]; [by rewrite Ew|cbn in Er; congruence|].
      exists th1, d. done. }
  exists th4, d. split_and!; try done. pose proof (be_hs _ _ B id) as Et. rewrite Ht1, Ht4 in Et. injection Et as -> _. done.
Qed.
Lemma stopHs_inv s w : Inv s → activeH (mgr s) w → ∃ s', stopHs w s = Ok s' ∧ Inv s' ∧ Ended w s s'.
Proof.
  intros HI Ha. destruct (th_active_h _ (co_th _ (proj1 HI)) _ Ha) as (th & Ht & Ew). destruct (drain_inv s w th HI Ha Ht Ew) as (H1 & Em & Eal & Ehs & th1 & d & Ht1 & Ew1 & Ep1 & Ed1).
  unfold stopHs. set (s1 := hsFinish _ _) in *. unfold takeHsDone. rewrite Ht1, Ed1. cbn [mbind res_bind]. eexists. split; [done|].
  destruct (hsDone_inv s1 (hwID w) th1 (mkHsThread (htWork th1) (htCancelled th1) (htPhase th1) None) d) as [HI' [N1 N2 N3 N4 N5]]; try done; [by rewrite Ew1, Em|by left|by left|].
  split; [done|]. rewrite Ew1 in *. split; [intros x; by rewrite N1, Em|congruence..|]. intros i Hi. by rewrite N5, Ehs.
Qed.
End hs.

(** ** Calm *)
Definition CalmH (s : Relays) : Prop := ∀ id th, hsThreads s !! id = Some th → activeH (mgr s) (htWork th) → htCancelled th = false.
Definition CalmA (s : Relays) : Prop := ∀ id th, alThreads s !! id = Some th → activeA (mgr s) (atWork th) → atCancelled th = false.
Lemma ended_calm w s s' : Threads s → Threads s' → activeH (mgr s) w → Ended w s s' → CalmH s → CalmH s'.
Proof.
  intros T T' Hw [N1 _ _ _ N5] HC id th' Ht' Ha'. apply N1 in Ha' as [Ha Hne]. destruct (th_hs _ T' _ _ Ht') as (Eid & _). destruct (th_active_h _ T _ Ha) as (th & Ht & Ew).
  rewrite Eid in Ht. assert (id ≠ hwID w) as Hid. { intros ->. destruct (th_active_h _ T _ Hw) as (th2 & Ht2 & Ew2). congruence. }
  specialize (N5 id Hid). rewrite Ht, Ht' in N5. injection N5 as E1 E2. rewrite E2. eapply HC; [done|]. by rewrite Ew.
Qed.
(** Handshakes may go, the rest stays. *)
Record Fewer (s s' : Relays) : Prop := {
  fe_h x : activeH (mgr s') x → activeH (mgr s) x;
  fe_ep : alByEp (mgr s') = alByEp (mgr s); fe_keys : alByKeys (mgr s') = alByKeys (mgr s); fe_al : alThreads s' = alThreads s;
  fe_calm : CalmH s → CalmH s'
}.
Lemma fewer_refl s : Fewer s s.
Proof. by split. Qed.
Lemma fewer_trans s1 s2 s3 : Fewer s1 s2 → Fewer s2 s3 → Fewer s1 s3.
Proof. intros [] []. split; [auto|congruence..|auto]. Qed.
Section loop.
Context `{RelayRandom}.
Lemma dropOlder_inv s ex lamport : Inv s → (∀ w, ex = Some w → activeH (mgr s) w) → ∃ b s', dropOlder ex lamport s = Ok (b, s') ∧ Inv s' ∧ Fewer s s' ∧
  (b = true → ∀ w, ex = Some w → ¬ activeH (mgr s') w).
Proof.
  intros HI Hex. unfold dropOlder. destruct ex as [w|]; [|exists true, s; split_and!; [done|done|apply fewer_refl|done]].
  destruct (lamport <=? _); [exists false, s; split_and!; [done|done|apply fewer_refl|done]|]. destruct (stopHs_inv s w HI (Hex w eq_refl)) as (s' & -> & HI' & HE). exists true, s'.
  split_and!; [done|done| |].
  - split; [intros x Hx; by apply (en_h _ _ _ HE)|apply HE..|]. eapply ended_calm; [apply HI|apply HI'|by apply Hex|done].
  - intros _ w' [= <-] Ha. by apply (en_h _ _ _ HE) in Ha as [_ ?].
Qed.

(** ** A handshake is started *)
Definition addHs (w : relayHandshakeWork) (r : relayManager) : relayManager :=
  mkRelayManager (serversByNodeKey r) (alByEp r) (alByKeys r) (put2 (hwEp w) (hwDisco w) w (hsByEp r)) (<[(hwDisco w, hwVNI w) := w]> (hsByVNI r))
    (awaiting r) (hsByAddr r) (handshakeGen w) (allocGeneration r) (hasPeerRelayServers r).
Definition idle (r : relayManager) (ep : positive) (se : ServerEndpoint) : Prop :=
  get2 (hsByEp r) ep (ServerDisco se) = None ∧ hsByVNI r !! (ServerDisco se, VNI se) = None.
Lemma add_active w r x : idle r (hwEp w) (hwSe w) → activeH (addHs w r) x ↔ activeH r x ∨ x = w.
Proof.
  intros [H1 _]. unfold activeH. cbn. rewrite get2_put2. case_decide as E.
  - destruct E as [E1 E2]. rewrite <- E1, <- E2. unfold hwDisco in *. rewrite H1. split; [intros [= ->]; by right|by intros [?| ->]].
  - split; [by left|]. intros [?| ->]; [done|]. by destruct E.
Qed.
Lemma add_indexed w r : Indexed r → idle r (hwEp w) (hwSe w) → Indexed (addHs w r).
Proof.
  intros [F1 F2 F3 I1 I2 I3 I4 I5 I6 I7 I8] Hw. split; cbn; try done.
  - by apply full_put2.
  - intros ep d x. rewrite get2_put2. destruct (decide (_ ∧ _)) as [[<- <-]|]; [by intros [= ->]|apply I1].
  - intros k x. rewrite (add_active w r x Hw), lookup_insert_Some, I2. split.
    + intros [[<- <-]|(Hne & Hx & ->)]; split; auto.
    + intros [[Hx| ->] ->]; [|by left]. right. split_and!; [|done|done]. intros E. destruct Hw as [_ Hw]. assert (hsByVNI r !! (hwDisco x, hwVNI x) = Some x) as Hx' by by apply I2.
      rewrite <- E in Hx'. unfold hwDisco, hwVNI in Hx'. congruence.
  - intros apv x Hx. destruct (I3 _ _ Hx) as (? & ? & ?). split_and!; [done| |done]. apply add_active; auto.
Qed.
Lemma startHandshake_inv e s : Inv s → idle (mgr s) (wEp (neWlb e)) (neSe e) → let s' := startHandshake e s in
  Inv s' ∧ alByEp (mgr s') = alByEp (mgr s) ∧ alByKeys (mgr s') = alByKeys (mgr s) ∧ alThreads s' = alThreads s ∧ (CalmH s → CalmH s').
Proof.
  intros [[HI [T1 T2 T3 T4] [L1 L2 L3 L4]] [K1 K2]] Hid s'. set (w := mkHsWork (nextWork s) (neWlb e) (neSe e) (neServer e) (nextGeneration (handshakeGeneration (mgr s)))). set (th := mkHsThread w false HsStart None).
  assert (mgr s' = addHs w (mgr s)) as Em by done. assert (hsThreads s' = <[nextWork s := th]> (hsThreads s)) as Eh by done. assert (nextWork s' = Pos.succ (nextWork s)) as En by done.
  assert (alThreads s' = alThreads s) as Ea by done. assert (rlog s' = rlog s ∧ clock s' = clock s ∧ discoInfoByServerDisco s' = discoInfoByServerDisco s) as (El & Ec & Ed) by done. clearbody s'.
  change (idle (mgr s) (hwEp w) (hwSe w)) in Hid. assert (hsThreads s !! nextWork s = None) as Hfresh.
  { destruct (hsThreads s !! nextWork s) as [th0|] eqn:E; [|done]. destruct (T1 _ _ E) as (_ & ? & _). lia. }
  assert (∀ id th0, hsThreads s !! id = Some th0 → activeH (addHs w (mgr s)) (htWork th0) ↔ activeH (mgr s) (htWork th0)) as HA.
  { intros id th0 H0. rewrite add_active by done. split; [|by left]. intros [?|E]; [done|]. destruct (T1 _ _ H0) as (Eid & _). rewrite E in Eid. cbn in Eid. congruence. }
  assert (∀ id th0, <[nextWork s := th]> (hsThreads s) !! id = Some th0 → (id = nextWork s ∧ th0 = th) ∨ hsThreads s !! id = Some th0) as HL.
  { intros id th0 [[<- <-]|[_ ?]]%lookup_insert_Some; auto. }
  assert (∀ id th0, hsThreads s !! id = Some th0 → <[nextWork s := th]> (hsThreads s) !! id = Some th0) as HR.
  { intros id th0 H0. rewrite lookup_insert_ne; [done|]. intros <-. congruence. }
  split_and!; rewrite ?Em; try done; [split; [split; [by rewrite Em; apply add_indexed| |]|]|].
  - split; rewrite ?Em, ?Eh, ?Ea, ?En.
    + intros id th0 [[-> ->]|H0]%HL.
      * split_and!; [done|lia|]. split; cbn; [intros d [?|[?|?]]; done|intros _; split; [apply add_active; auto|done]|by left].
      * destruct (T1 _ _ H0) as (? & ? & [O1 O2 O3]). split_and!; [done|lia|]. split; [done|by rewrite (HA id)|by rewrite (HA id)].
    + intros id th0 H0. destruct (T2 _ _ H0) as (? & ? & ?). split_and!; [done|lia|by apply (alOk_ext (mgr s))].
    + intros x [Hx| ->]%add_active; [|exists th; cbn; by rewrite lookup_insert_eq|done]. destruct (T3 _ Hx) as (th0 & ? & ?). eauto.
    + apply T4.
  - split; rewrite ?Em, ?Eh, ?El, ?Ec; [|done| |done].
    + intros id th0 [[-> ->]|H0]%HL; [|by eapply L1]. split; cbn; [done|]. intros d [?|[?|?]]; done.
    + intros x q Hx. destruct (L3 _ _ Hx) as (Hn & th0 & H0 & E0). split; [|by eauto]. rewrite <- E0. rewrite (HA _ _ H0). by rewrite E0.
  - split; rewrite ?Ed, ?Eh; [done|]. intros d id. rewrite K2. split; intros (th0 & H0 & ?); [eauto|].
    apply HL in H0 as [[-> ->]|H0]; [naive_solver|eauto].
  - intros HC id th0. rewrite Em, Eh. intros [[-> ->]|H0]%HL; [done|]. rewrite (HA _ _ H0). by apply (HC id).
Qed.
Lemma handleNew_inv e s : Inv s → Calm s → ∃ s', handleNewServerEndpointRunLoop e s = Ok s' ∧ Inv s' ∧ Calm s' ∧
  alByEp (mgr s') = alByEp (mgr s) ∧ alByKeys (mgr s') = alByKeys (mgr s) ∧ alThreads s' = alThreads s.
Proof.
  intros HI [C1 C2]. assert (∀ s', Inv s' → Fewer s s' → Inv s' ∧ Calm s' ∧ alByEp (mgr s') = alByEp (mgr s) ∧ alByKeys (mgr s') = alByKeys (mgr s) ∧ alThreads s' = alThreads s) as HF.
  { intros s' HI' [F1 F2 F3 F4 F5]. split_and!; [done| |done|done|done]. split; [by apply F5|]. unfold CalmA, activeA. rewrite F2, F4. apply C2. }
  unfold handleNewServerEndpointRunLoop. set (se := neSe e). set (wlb := neWlb e).
  destruct (dropOlder_inv s (hsByVNI (mgr s) !! (ServerDisco se, VNI se)) (LamportID se) HI) as (b1 & s1 & -> & H1 & W1 & N1).
  { intros w Hw. by apply (ix_vni _ (co_ix _ (proj1 HI))) in Hw as [? _]. }
  cbn [mbind res_bind]. destruct b1; cbn [negb]; [|exists s1; split; [done|by apply HF]].
  destruct (dropOlder_inv s1 (get2 (hsByEp (mgr s1)) (wEp wlb) (ServerDisco se)) (LamportID se) H1) as (b2 & s2 & -> & H2 & W2 & N2).
  { intros w Hw. destruct (ix_ep _ (co_ix _ (proj1 H1)) _ _ _ Hw) as [E1 E2]. unfold activeH. by rewrite <- E1, <- E2. }
  cbn [mbind res_bind]. pose proof (fewer_trans _ _ _ W1 W2) as W. destruct b2; cbn [negb]; [|exists s2; split; [done|by apply HF]].
  assert (idle (mgr s2) (wEp wlb) se) as Hidle.
  { split.
    - destruct (get2 (hsByEp (mgr s2)) (wEp wlb) (ServerDisco se)) as [x|] eqn:E; [|done]. pose proof (ix_ep _ (co_ix _ (proj1 H2)) _ _ _ E) as [E1 E2].
      rewrite E1, E2 in E. pose proof (fe_h _ _ W2 _ E) as Hx. unfold activeH in Hx. rewrite <- E1, <- E2 in Hx. by destruct (N2 eq_refl _ Hx).
    - destruct (hsByVNI (mgr s2) !! (ServerDisco se, VNI se)) as [x|] eqn:E; [|done]. apply (ix_vni _ (co_ix _ (proj1 H2))) in E as [Hx Ek].
      apply (fe_h _ _ W2) in Hx as Hx1. apply (fe_h _ _ W1) in Hx1 as Hx0. destruct (N1 eq_refl x); [|done]. apply (ix_vni _ (co_ix _ (proj1 HI))). done. }
  set (s3 := if candIsValid (neServer e) then _ else _). assert (Inv s3 ∧ Fewer s s3 ∧ mgr s3 = mgr s2) as (H3 & W3 & E3).
  { subst s3. destruct (candIsValid _); [|done]. split_and!; [|by destruct W; split|done]. destruct H2 as [HC HK]. split; [apply core_logged; [done|by repeat constructor]|by apply (cached_ext s2)]. }
  destruct (_ && lastBestIsTrusted _); [exists s3; split; [done|by apply HF]|]. eexists. split; [done|]. rewrite <- E3 in Hidle.
  destruct (startHandshake_inv e s3 H3 Hidle) as (HI' & A1 & A2 & A3 & A4). destruct W3 as [F1 F2 F3 F4 F5]. split_and!; [done| |congruence..].
  split; [by apply A4, F5|]. unfold activeA. rewrite A1, A3, F2, F4. apply C2.
Qed.

(** ** Goroutines of allocations *)
Definition tagA (th : AllocThread) : relayEndpointAllocWork * bool := (atWork th, atCancelled th).
Record BesideA (id : positive) (s s' : Relays) : Prop := {
  ba_mgr : mgr s' = mgr s; ba_hs : hsThreads s' = hsThreads s;
  ba_other i : i ≠ id → alThreads s' !! i = alThreads s !! i;
  ba_tag : tagA <$> alThreads s' !! id = tagA <$> alThreads s !! id
}.
Lemma besideA_refl id s : BesideA id s s.
Proof. by split. Qed.
Lemma besideA_trans id s1 s2 s3 : BesideA id s1 s2 → BesideA id s2 s3 → BesideA id s1 s3.
Proof. intros [A1 A2 A3 A4] [B1 B2 B3 B4]. split; [congruence..| |congruence]. intros i Hi. by rewrite B3, A3. Qed.
Lemma alSet_inv s s0 id th th' : Inv s0 → mgr s0 = mgr s → hsThreads s0 = hsThreads s → alThreads s0 = alThreads s →
  alThreads s !! id = Some th → awID (atWork th) = id → atWork th' = atWork th → AlOk (mgr s) th' →
  Inv (setAlThread th' s0) ∧ (tagA th' = tagA th → BesideA id s (setAlThread th' s0)).
Proof.
  intros [HC HK] Em Eh Ea Ht Eid Ew Hok. split.
  - split; [|by apply (cached_ext s0)]. apply (core_al s0 id th); [done|by rewrite Ea|done|by rewrite Em].
  - intros Et. split; cbn; [done|done| |].
    + intros i Hi. by rewrite Ew, Eid, lookup_insert_ne, Ea.
    + rewrite Ew, Eid, lookup_insert_eq, Ht. cbn. by rewrite Et.
Qed.
Lemma alOk_to r th p : AlOk r th → alRuns (atPhase th) = true → alRuns p = true → (∀ d, p = AlFin d → adWork d = atWork th) → AlOk r (alTo p th).
Proof.
  intros [F R A] Hr Hp Hd. split; cbn; [|by intros _; apply R|by left]. intros d [E|[E|E]]; [by apply Hd|by subst|]. destruct (R Hr). congruence.
Qed.
Lemma alEnd_inv may id s : Inv s → Inv (alEnd may id s) ∧ BesideA id s (alEnd may id s) ∧
  (∀ th, alThreads s !! id = Some th → alRuns (atPhase th) = true → (∀ t, may th t = true) → ∃ th' d, alThreads (alEnd may id s) !! id = Some th' ∧ atPhase th' = AlFin d) ∧
  (∀ th, alThreads s !! id = Some th → alRuns (atPhase th) = false → alEnd may id s = s).
Proof.
  intros HI. unfold alEnd. destruct (alThreads s !! id) as [th|] eqn:Ht; [|split_and!; [done|apply besideA_refl|done|done]].
  destruct (th_al _ (co_th _ (proj1 HI)) _ _ Ht) as (Eid & _ & Hok).
  destruct (atPhase th) as [ra ry rd|d|d|] eqn:Ep; try by (split_and!; [done|apply besideA_refl| |done]; intros ? [= <-] Hr _; rewrite Ep in *; eauto).
  destruct (may th ra) eqn:Em; [|split_and!; [done|apply besideA_refl| |done]; intros ? [= <-] _ HM; rewrite HM in Em; done].
  destruct (alSet_inv s s id th (alTo (AlFin (notAllocated (atWork th))) th)) as [H1 H2]; try done; [apply alOk_to; [done|by rewrite Ep|done|by intros ? [= <-]]|].
  split_and!; [done|by apply H2| |intros ? [= <-]; by rewrite Ep]. intros _ _ _ _. eexists _, _. cbn. by rewrite Eid, lookup_insert_eq.
Qed.
Lemma alFinish_inv id s : Inv s → Inv (alFinish id s) ∧ BesideA id s (alFinish id s) ∧
  (∀ th d, alThreads s !! id = Some th → atPhase th = AlFin d → ∃ th', alThreads (alFinish id s) !! id = Some th' ∧ atPhase th' = AlOffer d ∧ atDoneCh th' = Some d) ∧
  (∀ th, alThreads s !! id = Some th → (∀ d, atPhase th ≠ AlFin d) → alFinish id s = s).
Proof.
  intros HI. unfold alFinish. destruct (alThreads s !! id) as [th|] eqn:Ht; [|split_and!; [done|apply besideA_refl|done|done]].
  destruct (th_al _ (co_th _ (proj1 HI)) _ _ Ht) as (Eid & _ & Hok).
  destruct (atPhase th) as [ra ry rd|d|d|] eqn:Ep; try by (split_and!; [done|apply besideA_refl| |done]; intros ? ? [= <-]; rewrite Ep).
  destruct (alSet_inv s s id th (mkAllocThread (atWork th) (atCancelled th) (AlOffer d) (Some d))) as [H1 H2]; try done.
  { split; cbn; [|done|right; by exists d]. intros d' [E|[[= <-]|[= <-]]]; [done|apply (ao_fin _ _ Hok); by left..]. }
  split_and!; [done|by apply H2| |].
  - intros ? ? [= <-]. rewrite Ep. intros [= <-]. eexists. cbn. by rewrite Eid, lookup_insert_eq.
  - intros ? [= <-] HN. by destruct (HN d).
Qed.
Lemma alRetry_inv id s : Inv s → Inv (alRetry id s) ∧ BesideA id s (alRetry id s).
Proof.
  intros HI. assert (Inv s ∧ BesideA id s s) as Hs by (split; [done|apply besideA_refl]). unfold alRetry. destruct (alThreads s !! id) as [th|] eqn:Ht; [|done].
  destruct (th_al _ (co_th _ (proj1 HI)) _ _ Ht) as (Eid & _ & Hok). destruct (atPhase th) as [ra ry [|]|d|d|] eqn:Ep; try done. destruct (ry <=? clock s); [|done].
  destruct (alSet_inv s (logged [sendAllocReq (atWork th)] s) id th (alTo (AlLoop ra ry true) th)) as [H1 H2]; try done; [|apply alOk_to; by rewrite ?Ep|split; [done|by apply H2]].
  destruct HI as [HC HK]. split; [apply core_logged; [done|by repeat constructor]|by apply (cached_ext s)].
Qed.
Lemma alReceive_inv id th ra ry rd gen e s : Inv s → alThreads s !! id = Some th → atPhase th = AlLoop ra ry rd → Inv (alReceive th gen e s) ∧ BesideA id s (alReceive th gen e s).
Proof.
  intros HI Ht Ep. destruct (th_al _ (co_th _ (proj1 HI)) _ _ Ht) as (Eid & _ & Hok). unfold alReceive. destruct (_ || _); [split; [done|apply besideA_refl]|].
  destruct (alSet_inv s s id th (alTo (AlFin (mkAllocDone (atWork th) (ofRelayEp e))) th)) as [H1 H2]; try done; [apply alOk_to; [done|by rewrite Ep|done|by intros ? [= <-]]|].
  split; [done|by apply H2].
Qed.
Lemma besideA_calm id s s' : BesideA id s s' → Calm s → Calm s'.
Proof.
  intros [A1 A2 A3 A4] [C1 C2]. split; [by rewrite A1, A2|]. rewrite A1. intros i th' Ht'. destruct (decide (i = id)) as [->|Hi]; [|rewrite A3 in Ht' by done; by eapply C2].
  rewrite Ht' in A4. destruct (alThreads s !! id) as [th|] eqn:Ht; [|done]. injection A4 as E1 E2. rewrite E1, E2. by eapply C2.
Qed.
Lemma beside_calm s s' : Beside s s' → Calm s → Calm s'.
Proof.
  intros [A1 A2 A3 A4 A5] [C1 C2]. split; [|by rewrite A1, A2]. rewrite A1. intros i th' Ht'. specialize (A5 i). rewrite Ht' in A5.
  destruct (hsThreads s !! i) as [th|] eqn:Ht; [|done]. injection A5 as E1 E2. rewrite E1, E2. by eapply C1.
Qed.

(** ** An allocation leaves the indexes *)
Definition dropAl (w : relayEndpointAllocWork) (r : relayManager) : relayManager :=
  mkRelayManager (serversByNodeKey r) (del2 (awEp w) (awCand w) (alByEp r)) (del2 (cNodeKey (awCand w)) (awKeys w) (alByKeys r)) (hsByEp r) (hsByVNI r)
    (awaiting r) (hsByAddr r) (handshakeGeneration r) (allocGeneration r) (hasPeerRelayServers r).
Lemma dropAl_active w r x : activeA r w → activeA (dropAl w r) x ↔ activeA r x ∧ x ≠ w.
Proof.
  unfold activeA. cbn. intros Hw. rewrite get2_del2. case_decide as E; [|naive_solver]. destruct E as [E1 E2]. rewrite <- E1, <- E2, Hw. naive_solver.
Qed.
Lemma dropAl_indexed w r : Indexed r → activeA r w → Indexed (dropAl w r).
Proof.
  intros [F1 F2 F3 I1 I2 I3 I4 I5 I6 I7 I8] Hw. split; cbn; try done; [by apply full_del2..| |].
  - intros ep c x. rewrite get2_del2. destruct (decide (_ ∧ _)); [intros [=]|apply I5].
  - intros nk ks x. rewrite (dropAl_active w r x Hw), get2_del2. assert (get2 (alByKeys r) (cNodeKey (awCand w)) (awKeys w) = Some w) as Hkw by by apply I6.
    destruct (decide (_ ∧ _)) as [[<- <-]|Hne].
    + split; [done|]. intros ([Hx Hxw] & E1 & E2). assert (get2 (alByKeys r) (cNodeKey (awCand x)) (awKeys x) = Some x) as Hkx by by apply I6. rewrite <- E1, <- E2 in Hkx. congruence.
    + rewrite I6. split; [intros (? & -> & ->); split_and!; [done| |done|done]; intros ->; by apply Hne|naive_solver].
Qed.
Lemma handleAlDone_active d s : Indexed (mgr s) → activeA (mgr s) (adWork d) → let s1 := setMgr (dropAl (adWork d) (mgr s)) s in
  handleAllocWorkDoneRunLoop d s = if ServerDisco (allocated d) =? 0 then Ok s1 else handleNewServerEndpointRunLoop (mkNewServerEp (awWlb (adWork d)) (allocated d) (awCand (adWork d))) s1.
Proof.
  intros HI Ha s1. unfold handleAllocWorkDoneRunLoop. rewrite decide_True by done. assert (get2 (alByKeys (mgr s)) (cNodeKey (awCand (adWork d))) (awKeys (adWork d)) = Some (adWork d)) as Hk by by apply (ix_keys _ HI).
  unfold get2 in Hk. destruct (alByKeys (mgr s) !! _) eqn:E; [|done]. done.
Qed.
Lemma handleAlDone_gone d s : ¬ activeA (mgr s) (adWork d) → handleAllocWorkDoneRunLoop d s = Ok s.
Proof. intros Ha. unfold handleAllocWorkDoneRunLoop. by rewrite decide_False. Qed.
Lemma hsOk_ext r r' th : hsByEp r' = hsByEp r → HsOk r th → HsOk r' th.
Proof. intros E [F R A]. split; [done| |]; unfold activeH in *; by rewrite E. Qed.
Lemma alDone_core s id th th' d : Core s → alThreads s !! id = Some th → atPhase th = AlOffer d → activeA (mgr s) (atWork th) →
  atWork th' = atWork th → (atPhase th' = AlOffer d ∨ atPhase th' = AlExit) → (atDoneCh th' = None ∨ atDoneCh th' = Some d) →
  Core (setMgr (dropAl (atWork th) (mgr s)) (setAlThread th' s)).
Proof.
  intros [HI [T1 T2 T3 T4] [L1 L2 L3 L4]] Ht Ep Ha Ew Ep' Ed. destruct (T2 _ _ Ht) as (Eid & Hlt & Hok).
  assert (alRuns (atPhase th') = false) as Hr by (destruct Ep' as [-> | ->]; done).
  split; [by apply dropAl_indexed| |split; done]. split; cbn [mgr setMgr hsThreads setAlThread setAl nextWork alThreads].
  - intros i th0 H0. destruct (T1 _ _ H0) as (? & ? & ?). split_and!; [done|done|by apply (hsOk_ext (mgr s))].
  - rewrite Ew, Eid. intros i th0 [[<- <-]|[Hne H0]]%lookup_insert_Some.
    + split_and!; [congruence|done|]. split; [|by rewrite Hr|rewrite Ew, dropAl_active by done; by intros [_ ?]].
      intros d' E. assert (d' = d) as ->; [destruct E as [E|[E|E]]; [destruct Ep'; congruence..|destruct Ed; congruence]|]. rewrite Ew. apply (ao_fin _ _ Hok). auto.
    + destruct (T2 _ _ H0) as (E0 & ? & [F R A]). split_and!; [done|done|]. assert (atWork th0 ≠ atWork th) as Hx by congruence. split; [done|rewrite dropAl_active by done..].
      * intros E. destruct (R E). done.
      * intros [E _]. by apply A.
  - apply T3.
  - rewrite Ew, Eid. intros x [Hx Hne]%dropAl_active; [|done]. destruct (T4 _ Hx) as (th0 & H0 & E0). exists th0. split; [|done]. rewrite lookup_insert_ne; [done|]. intros E.
    rewrite <- E, Ht in H0. congruence.
Qed.
(** The event of an allocation is taken. *)
Lemma alDone_inv s id th th' d : Inv s → CalmH s → (∀ i th0, i ≠ id → alThreads s !! i = Some th0 → activeA (mgr s) (atWork th0) → atCancelled th0 = false) →
  alThreads s !! id = Some th → atPhase th = AlOffer d → activeA (mgr s) (atWork th) →
  atWork th' = atWork th → (atPhase th' = AlOffer d ∨ atPhase th' = AlExit) → (atDoneCh th' = None ∨ atDoneCh th' = Some d) →
  ∃ s', handleAllocWorkDoneRunLoop d (setAlThread th' s) = Ok s' ∧ Inv s' ∧ Calm s' ∧ (∀ x, activeA (mgr s') x ↔ activeA (mgr s) x ∧ x ≠ atWork th) ∧
    alThreads s' = <[id := th']> (alThreads s).
Proof.
  intros [HC HK] C1 C2 Ht Ep Ha Ew Ep' Ed. destruct (th_al _ (co_th _ HC) _ _ Ht) as (Eid & _ & Hok). assert (adWork d = atWork th) as Edw by (apply (ao_fin _ _ Hok); auto).
  pose proof (alDone_core _ _ _ _ _ HC Ht Ep Ha Ew Ep' Ed) as HC'. set (s1 := setMgr _ _) in HC'.
  assert (Inv s1) as H1 by (split; [done|by apply (cached_ext s)]). assert (∀ x, activeA (mgr s1) x ↔ activeA (mgr s) x ∧ x ≠ atWork th) as HA by (intros x; by apply dropAl_active).
  assert (alThreads s1 = <[id := th']> (alThreads s)) as Eal by (subst s1; cbn; by rewrite Ew, Eid).
  assert (Calm s1) as HC1.
  { split; [apply C1|]. intros i th0. rewrite Eal, HA. intros [[<- <-]|[Hne H0]]%lookup_insert_Some [Hx Hxw]; [by rewrite Ew in Hxw|by eapply C2]. }
  rewrite handleAlDone_active; [|apply HC|by rewrite Edw]. cbv zeta. rewrite Edw. change (setMgr (dropAl (atWork th) (mgr (setAlThread th' s))) (setAlThread th' s)) with s1.
  destruct (_ =? _); [by exists s1|]. destruct (handleNew_inv (mkNewServerEp (awWlb (atWork th)) (allocated d) (awCand (atWork th))) s1 H1 HC1) as (s' & -> & HI' & HC2 & E1 & E2 & E3).
  exists s'. split_and!; [done|done|done| |by rewrite E3]. intros x. unfold activeA in *. by rewrite E1, HA.
Qed.
Lemma cancelAl_eq s id th : alThreads s !! id = Some th → awID (atWork th) = id →
  cancelAl id s = setAlThread (mkAllocThread (atWork th) true (atPhase th) (atDoneCh th)) s.
Proof.
  intros Ht Eid. unfold cancelAl, setAlThread. f_equal. cbn. rewrite Eid. apply map_eq. intros i. destruct (decide (i = id)) as [->|Hne].
  - by rewrite lookup_alter_eq, lookup_insert_eq, Ht.
  - by rewrite lookup_alter_ne, lookup_insert_ne.
Qed.
Lemma drainAl_inv s w th : Inv s → activeA (mgr s) w → alThreads s !! awID w = Some th → atWork th = w →
  let s' := alFinish (awID w) (alCancelled (awID w) (cancelAl (awID w) s)) in
  Inv s' ∧ mgr s' = mgr s ∧ hsThreads s' = hsThreads s ∧ (∀ id, id ≠ awID w → alThreads s' !! id = alThreads s !! id) ∧
  ∃ th' d, alThreads s' !! awID w = Some th' ∧ atWork th' = w ∧ atPhase th' = AlOffer d ∧ atDoneCh th' = Some d.
Proof.
  intros HI Ha Ht Ew. set (id := awID w) in *. assert (awID (atWork th) = id) as Eid by by rewrite Ew. set (th1 := mkAllocThread (atWork th) true (atPhase th) (atDoneCh th)).
  destruct (th_al _ (co_th _ (proj1 HI)) _ _ Ht) as (_ & _ & Hok). destruct (alSet_inv s s id th th1) as [H1 _]; try done; [by destruct Hok|].
  pose proof (cancelAl_eq s id th Ht Eid) as E1. fold th1 in E1. rewrite <- E1 in H1. set (s1 := cancelAl id s) in *. assert (alThreads s1 !! id = Some th1) as Ht1 by (rewrite E1; cbn; by rewrite Eid, lookup_insert_eq).
  destruct (alEnd_inv (λ th _, atCancelled th) id s1 H1) as (H2 & B2 & P2 & Q2). change (alEnd (λ th _, atCancelled th) id s1) with (alCancelled id s1) in *. set (s2 := alCancelled id s1) in *.
  destruct (alFinish_inv id s2 H2) as (H3 & B3 & P3 & Q3). set (s3 := alFinish id s2) in *. pose proof (besideA_trans _ _ _ _ B2 B3) as B.
  assert (mgr s1 = mgr s ∧ hsThreads s1 = hsThreads s) as [Em Eh] by (by rewrite E1). cbv zeta. split_and!; [done|by rewrite (ba_mgr _ _ _ B)|by rewrite (ba_hs _ _ _ B)| |].
  { intros i Hi. rewrite (ba_other _ _ _ B) by done. rewrite E1. cbn. by rewrite Eid, lookup_insert_ne. }
  assert (∃ th3 d, alThreads s3 !! id = Some th3 ∧ atPhase th3 = AlOffer d ∧ atDoneCh th3 = Some d) as (th3 & d & Ht3 & Ep3 & Ed3).
  { destruct (alRuns (atPhase th1)) eqn:Er.
    - destruct (P2 _ Ht1 Er (λ _, eq_refl)) as (th2 & d & Ht2 & Ep2). destruct (P3 _ _ Ht2 Ep2) as (th3 & Ht3 & Ep3 & Ed3). eauto.
    - assert (s3 = s1) as ->. { rewrite (Q3 th1); [by rewrite (Q2 th1)|by rewrite (Q2 th1)|intros d E; by rewrite E in Er]. }
      destruct (ao_active _ _ Hok) as [Hr|(d & Ep & Ed)]; [by rewrite Ew|cbn in Er; congruence|]. by exists th1, d. }
  exists th3, d. split_and!; try done. pose proof (ba_tag _ _ _ B) as Et. rewrite Ht1, Ht3 in Et. injection Et as -> _. done.
Qed.
Lemma stopAl_inv s w : Inv s → Calm s → activeA (mgr s) w → ∃ s', stopAl w s = Ok s' ∧ Inv s' ∧ Calm s' ∧ (∀ x, activeA (mgr s') x ↔ activeA (mgr s) x ∧ x ≠ w).
Proof.
  intros HI [C1 C2] Ha. destruct (th_active_a _ (co_th _ (proj1 HI)) _ Ha) as (th & Ht & Ew). destruct (drainAl_inv s w th HI Ha Ht Ew) as (H1 & Em & Eh & Eal & th1 & d & Ht1 & Ew1 & Ep1 & Ed1).
  unfold stopAl. set (s1 := alFinish _ _) in *. unfold takeAlDone. rewrite Ht1, Ed1. cbn [mbind res_bind].
  destruct (alDone_inv s1 (awID w) th1 (mkAllocThread (atWork th1) (atCancelled th1) (atPhase th1) None) d) as (s' & -> & HI' & HC' & HA & _); try done.
  - unfold CalmH. by rewrite Em, Eh.
  - intros i th0 Hi. rewrite Eal, Em by done. apply C2.
  - by rewrite Em, Ew1.
  - by left.
  - by left.
  - exists s'. split_and!; try done. intros x. by rewrite HA, Em, Ew1.
Qed.

(** ** All work of an endpoint is stopped *)
Lemma stopAls_inv l s : Inv s → Calm s → NoDup l → (∀ w, w ∈ l → activeA (mgr s) w) → ∃ s', forAll stopAl l s = Ok s' ∧ Inv s' ∧ Calm s' ∧
  (∀ x, activeA (mgr s') x ↔ activeA (mgr s) x ∧ x ∉ l).
Proof.
  revert s. induction l as [|w l IH]; intros s HI HC Hnd Hl; [exists s; split_and!; [done..|]; intros x; set_solver|]. apply NoDup_cons in Hnd as [Hw Hnd].
  destruct (stopAl_inv s w HI HC) as (s1 & E1 & H1 & C1 & A1); [apply Hl; by left|]. cbn. rewrite E1. cbn [mbind res_bind].
  destruct (IH s1 H1 C1 Hnd) as (s2 & E2 & H2 & C2 & A2); [intros x Hx; apply A1; split; [apply Hl; by right|by intros ->]|]. exists s2. split_and!; [done..|].
  intros x. rewrite A2, A1, not_elem_of_cons. naive_solver.
Qed.
Lemma stopHss_inv l s : Inv s → Calm s → NoDup l → (∀ w, w ∈ l → activeH (mgr s) w) → ∃ s', forAll stopHs l s = Ok s' ∧ Inv s' ∧ Calm s' ∧
  (∀ x, activeH (mgr s') x ↔ activeH (mgr s) x ∧ x ∉ l) ∧ alByEp (mgr s') = alByEp (mgr s).
Proof.
  revert s. induction l as [|w l IH]; intros s HI HC Hnd Hl; [exists s; split_and!; [done..| |done]; intros x; set_solver|]. apply NoDup_cons in Hnd as [Hw Hnd].
  destruct (stopHs_inv s w HI) as (s1 & E1 & H1 & HE); [apply Hl; by left|]. cbn. rewrite E1. cbn [mbind res_bind]. assert (Calm s1) as C1.
  { split; [eapply ended_calm; [apply HI|apply H1| |done|exact (proj1 HC)]; apply Hl; by left|]. unfold activeA. rewrite (en_ep _ _ _ HE), (en_al _ _ _ HE). apply HC. }
  destruct (IH s1 H1 C1 Hnd) as (s2 & E2 & H2 & C2 & A2 & E3); [intros x Hx; apply (en_h _ _ _ HE); split; [apply Hl; by right|by intros ->]|]. exists s2. split_and!; [done..| |].
  - intros x. rewrite A2, (en_h _ _ _ HE), not_elem_of_cons. naive_solver.
  - by rewrite E3, (en_ep _ _ _ HE).
Qed.

Lemma nodup_values {K} `{Countable K} {V} (m : gmap K V) (f : V → K) : (∀ k v, m !! k = Some v → f v = k) → NoDup (map_to_list m).*2.
Proof.
  intros Hf. assert (NoDup (f <$> (map_to_list m).*2)) as Hn; [|by apply NoDup_fmap_1 in Hn]. rewrite <- list_fmap_compose.
  rewrite (list_fmap_ext _ fst (map_to_list m)); [apply NoDup_fst_map_to_list|]. intros i [k v] Hi. cbn. apply Hf. apply elem_of_map_to_list. by eapply list_elem_of_lookup_2.
Qed.
Definition Quiet (ep : positive) (s : Relays) : Prop := (∀ x, activeA (mgr s) x → awEp x ≠ ep) ∧ ∀ x, activeH (mgr s) x → hwEp x ≠ ep.
Lemma core_draws n s : Inv s → Calm s → Inv (setDraws n s) ∧ Calm (setDraws n s).
Proof. intros [HC HK] Hc. split; [|done]. split; [by apply (core_ext s)|by apply (cached_ext s)]. Qed.
Lemma stopWork_inv ep s : Inv s → Calm s → ∃ s', stopWorkRunLoop ep s = Ok s' ∧ Inv s' ∧ Calm s' ∧ Quiet ep s'.
Proof.
  intros HI HC. unfold stopWorkRunLoop.
  assert (∃ s1, match alByEp (mgr s) !! ep with Some m => forAll stopAl (rangeOrder (rdraws s) (map_to_list m).*2) (setDraws (S (rdraws s)) s) | None => Ok s end = Ok s1 ∧
    Inv s1 ∧ Calm s1 ∧ ∀ x, activeA (mgr s1) x → awEp x ≠ ep) as (s1 & -> & H1 & C1 & A1).
  { destruct (alByEp (mgr s) !! ep) as [m|] eqn:Em.
    - destruct (core_draws (S (rdraws s)) s HI HC) as [Hd Cd]. pose proof (rangeOrder_perm (rdraws s) (map_to_list m).*2) as Hp.
      destruct (stopAls_inv (rangeOrder (rdraws s) (map_to_list m).*2) _ Hd Cd) as (s1 & -> & H1 & C1 & A1).
      + rewrite Hp. apply (nodup_values _ awCand). intros c w Hw. destruct (ix_cand _ (co_ix _ (proj1 HI)) ep c w) as [_ ->]; [|done]. unfold get2. by rewrite Em.
      + intros w Hw. rewrite Hp in Hw. destruct (get2_inner _ _ _ _ Em Hw) as (c & Hc). destruct (ix_cand _ (co_ix _ (proj1 HI)) _ _ _ Hc) as [-> ->]. done.
      + exists s1. split_and!; [done..|]. intros x Hx <-. apply A1 in Hx as [Hx Hn]. apply Hn. rewrite Hp. by eapply inner_get2.
    - exists s. split_and!; [done..|]. intros x Hx <-. unfold activeA, get2 in Hx. by rewrite Em in Hx. }
  cbn [mbind res_bind]. destruct (hsByEp (mgr s1) !! ep) as [m|] eqn:Em.
  - destruct (core_draws (S (rdraws s1)) s1 H1 C1) as [Hd Cd]. pose proof (rangeOrder_perm (rdraws s1) (map_to_list m).*2) as Hp.
    destruct (stopHss_inv (rangeOrder (rdraws s1) (map_to_list m).*2) _ Hd Cd) as (s2 & -> & H2 & C2 & A2 & E2).
    + rewrite Hp. apply (nodup_values _ hwDisco). intros c w Hw. destruct (ix_ep _ (co_ix _ (proj1 H1)) ep c w) as [_ ->]; [|done]. unfold get2. by rewrite Em.
    + intros w Hw. rewrite Hp in Hw. destruct (get2_inner _ _ _ _ Em Hw) as (c & Hc). destruct (ix_ep _ (co_ix _ (proj1 H1)) _ _ _ Hc) as [-> ->]. done.
    + exists s2. split_and!; [done..|]. split; [unfold activeA; rewrite E2; apply A1|]. intros x Hx <-. apply A2 in Hx as [Hx Hn]. apply Hn. rewrite Hp. by eapply inner_get2.
  - exists s1. split_and!; [done..|]. split; [done|]. intros x Hx <-. unfold activeH, get2 in Hx. by rewrite Em in Hx.
Qed.

(** ** Allocations are started *)
Definition addAl (w : relayEndpointAllocWork) (r : relayManager) : relayManager :=
  mkRelayManager (serversByNodeKey r) (put2 (awEp w) (awCand w) w (alByEp r)) (put2 (cNodeKey (awCand w)) (awKeys w) w (alByKeys r)) (hsByEp r) (hsByVNI r)
    (awaiting r) (hsByAddr r) (handshakeGeneration r) (allocGen w) (hasPeerRelayServers r).
Lemma addAl_active w r x : get2 (alByEp r) (awEp w) (awCand w) = None → activeA (addAl w r) x ↔ activeA r x ∨ x = w.
Proof.
  intros H1. unfold activeA. cbn. rewrite get2_put2. case_decide as E.
  - destruct E as [E1 E2]. rewrite <- E1, <- E2, H1. split; [intros [= ->]; by right|by intros [?| ->]].
  - split; [by left|]. intros [?| ->]; [done|]. by destruct E.
Qed.
Lemma addAl_indexed w r : Indexed r → get2 (alByEp r) (awEp w) (awCand w) = None → get2 (alByKeys r) (cNodeKey (awCand w)) (awKeys w) = None → Indexed (addAl w r).
Proof.
  intros [F1 F2 F3 I1 I2 I3 I4 I5 I6 I7 I8] Hw Hk. split; cbn; try done; [by apply full_put2..| |].
  - intros ep c x. rewrite get2_put2. destruct (decide (_ ∧ _)) as [[<- <-]|]; [by intros [= ->]|apply I5].
  - intros nk ks x. rewrite (addAl_active w r x Hw), get2_put2. destruct (decide (_ ∧ _)) as [[<- <-]|Hne].
    + split; [intros [= ->]; auto|]. intros ([Hx| ->] & E1 & E2); [|done]. assert (get2 (alByKeys r) (cNodeKey (awCand x)) (awKeys x) = Some x) as Hkx by by apply I6. rewrite <- E1, <- E2 in Hkx. congruence.
    + rewrite I6. split; [intros (? & -> & ->); auto|]. intros ([Hx| ->] & -> & ->); [done|by destruct Hne].
Qed.
Lemma startAlloc_inv wlb ks s v : Inv s → Calm s → get2 (alByEp (mgr s)) (wEp wlb) v = None → let s' := startAlloc wlb ks s v in Inv s' ∧ Calm s' ∧
  (∀ x, activeA (mgr s') x → activeA (mgr s) x ∨ awEp x = wEp wlb ∧ awCand x = v).
Proof.
  intros HI HC Hno. unfold startAlloc. destruct (get2 (alByKeys (mgr s)) (cNodeKey v) ks) eqn:Ek; [split_and!; auto|].
  set (w := mkAllocWork (nextWork s) wlb ks v (uN 32 (allocGeneration (mgr s) + 1))). cbv zeta. set (th := mkAllocThread w _ _ _). set (s' := setAlThread th _).
  assert (mgr s' = addAl w (mgr s)) as Em by done. assert (hsThreads s' = hsThreads s) as Eh by done. assert (nextWork s' = Pos.succ (nextWork s)) as En by done.
  assert (alThreads s' = <[nextWork s := th]> (alThreads s)) as Ea by done. assert (rlog s' = rlog s ++ [sendAllocReq w]) as El by done.
  assert (clock s' = clock s ∧ discoInfoByServerDisco s' = discoInfoByServerDisco s) as (Ec & Ed) by done. clearbody s'.
  change (get2 (alByEp (mgr s)) (awEp w) (awCand w) = None) in Hno. pose proof (λ x, addAl_active w (mgr s) x Hno) as HA.
  destruct HI as [HCo [K1 K2]]. pose proof (core_logged [sendAllocReq w] s HCo ltac:(by repeat constructor)) as [_ _ [L1 L2 L3 L4]]. destruct HCo as [HI [T1 T2 T3 T4] _]. cbn in L1, L2, L3, L4.
  assert (alThreads s !! nextWork s = None) as Hfresh.
  { destruct (alThreads s !! nextWork s) as [th0|] eqn:E; [|done]. destruct (T2 _ _ E) as (_ & ? & _). lia. }
  assert (∀ id th0, alThreads s !! id = Some th0 → activeA (addAl w (mgr s)) (atWork th0) ↔ activeA (mgr s) (atWork th0)) as HB.
  { intros id th0 H0. rewrite HA. split; [|by left]. intros [?|E]; [done|]. destruct (T2 _ _ H0) as (Eid & _). rewrite E in Eid. cbn in Eid. congruence. }
  assert (∀ id th0, <[nextWork s := th]> (alThreads s) !! id = Some th0 → (id = nextWork s ∧ th0 = th) ∨ alThreads s !! id = Some th0) as HL.
  { intros id th0 [[<- <-]|[_ ?]]%lookup_insert_Some; auto. }
  split_and!; [split; [split; [by rewrite Em; apply addAl_indexed| |]|]|split|].
  - split; rewrite ?Em, ?Eh, ?Ea, ?En.
    + intros id th0 H0. destruct (T1 _ _ H0) as (? & ? & ?). split_and!; [done|lia|by apply (hsOk_ext (mgr s))].
    + intros id th0 [[-> ->]|H0]%HL.
      * split_and!; [done|lia|]. split; cbn; [intros d [?|[?|?]]; done|intros _; split; [apply HA; auto|done]|by left].
      * destruct (T2 _ _ H0) as (? & ? & [O1 O2 O3]). split_and!; [done|lia|]. split; [done|by rewrite (HB id)|by rewrite (HB id)].
    + apply T3.
    + intros x [Hx| ->]%HA; [|exists th; by rewrite lookup_insert_eq]. destruct (T4 _ Hx) as (th0 & H0 & ?). exists th0. split; [|done]. rewrite lookup_insert_ne; [done|]. intros E. rewrite <- E in H0. congruence.
  - split; rewrite ?Em, ?Eh, ?El, ?Ec; done.
  - split; by rewrite ?Ed, ?Eh.
  - rewrite Em, Eh. apply HC.
  - rewrite Em, Ea. intros id th0 [[-> ->]|H0]%HL; [done|]. rewrite (HB _ _ H0). by apply (proj2 HC id).
  - intros x. rewrite Em, HA. intros [?| ->]; auto.
Qed.
Lemma startAllocs_inv wlb ks l s : Inv s → Calm s → NoDup l → (∀ v, v ∈ l → get2 (alByEp (mgr s)) (wEp wlb) v = None) →
  Inv (foldl (startAlloc wlb ks) s l) ∧ Calm (foldl (startAlloc wlb ks) s l).
Proof.
  revert s. induction l as [|v l IH]; intros s HI HC Hnd Hl; [done|]. apply NoDup_cons in Hnd as [Hv Hnd]. destruct (startAlloc_inv wlb ks s v HI HC) as (H1 & C1 & A1); [apply Hl; by left|].
  cbn. apply IH; [done|done|done|]. intros v' Hv'. destruct (get2 (alByEp (mgr (startAlloc wlb ks s v))) (wEp wlb) v') as [x|] eqn:E; [|done].
  destruct (ix_cand _ (co_ix _ (proj1 H1)) _ _ _ E) as [E1 E2]. rewrite E1, E2 in E. destruct (A1 x E) as [Hx|[_ Hx]].
  - unfold activeA in Hx. rewrite <- E1, <- E2, Hl in Hx; [done|by right].
  - congruence.
Qed.
Lemma allocateAll_inv wlb s : Inv s → Calm s → hasActiveWorkForEndpointRunLoop (wEp wlb) s = false → Inv (allocateAllServersRunLoop wlb s) ∧ Calm (allocateAllServersRunLoop wlb s).
Proof.
  intros HI HC Hidle. unfold allocateAllServersRunLoop. case_decide; [done|]. destruct (epDiscos s !! wEp wlb) as [remote|]; [|done].
  destruct (core_draws (S (rdraws s)) s HI HC) as [Hd Cd]. apply startAllocs_inv; [done|done| |].
  - rewrite rangeOrder_perm. apply (nodup_values _ cNodeKey). apply (ix_server _ (co_ix _ (proj1 HI))).
  - intros v _. cbn. apply orb_false_iff in Hidle as [_ Hidle]. apply bool_decide_eq_false in Hidle. unfold get2. by destruct (alByEp (mgr s) !! wEp wlb); [destruct Hidle|].
Qed.

(** ** Messages *)
Lemma selectAl_inv w gen e s : Inv s → Calm s → activeA (mgr s) w → ∃ s', selectAl w gen e s = Ok s' ∧ Inv s' ∧ Calm s'.
Proof.
  intros HI HC Ha. unfold selectAl. destruct (alFinish_inv (awID w) s HI) as (H1 & B1 & P1 & Q1). set (s1 := alFinish (awID w) s) in *. pose proof (besideA_calm _ _ _ B1 HC) as C1.
  rewrite <- (ba_mgr _ _ _ B1) in Ha. destruct (th_active_a _ (co_th _ (proj1 H1)) _ Ha) as (th & Ht & Ew). rewrite Ht. destruct (th_al _ (co_th _ (proj1 H1)) _ _ Ht) as (Eid & _ & Hok).
  assert (∀ d, atPhase th = AlOffer d → atDoneCh th = Some d → ∃ s', ('(d, s) ← takeAlDone (awID w) s1; handleAllocWorkDoneRunLoop d s) = Ok s' ∧ Inv s' ∧ Calm s') as HO.
  { intros d Ep Ed. unfold takeAlDone. rewrite Ht, Ed. cbn [mbind res_bind].
    destruct (alDone_inv s1 (awID w) th (mkAllocThread (atWork th) (atCancelled th) (atPhase th) None) d) as (s' & -> & HI' & HC' & _); try done; [exact (proj1 C1)|intros i th0 _; apply (proj2 C1)|by rewrite Ew|by left|by left|].
    by exists s'. }
  destruct (atPhase th) as [ra ry rd|d|d|] eqn:Ep.
  - destruct (alReceive_inv _ th ra ry rd gen e s1 H1 Ht Ep) as [HI' B']. eexists. split_and!; [done|done|by eapply besideA_calm].
  - exfalso. destruct (alThreads s !! awID w) as [th0|] eqn:Ht0.
    + destruct (atPhase th0) as [| d0| |] eqn:Ep0; [rewrite (Q1 th0) in Ht by (rewrite ?Ep0; done); congruence| |rewrite (Q1 th0) in Ht by (rewrite ?Ep0; done); congruence..].
      destruct (P1 _ _ eq_refl Ep0) as (th1 & Ht1 & Ep1 & _). congruence.
    + pose proof (ba_tag _ _ _ B1) as Et. by rewrite Ht, Ht0 in Et.
  - destruct (ao_active _ _ Hok) as [Hr|(d' & Ed & Ech)]; [by rewrite Ew|by rewrite Ep in Hr|]. rewrite Ep in Ed. injection Ed as ->. by apply (HO d').
  - destruct (ao_active _ _ Hok) as [Hr|(d' & Ed & Ech)]; [by rewrite Ew|by rewrite Ep in Hr|by rewrite Ep in Ed].
Qed.
Lemma hsFinish_notFin id s th : Inv s → hsThreads (hsFinish id s) !! id = Some th → ∀ d, htPhase th ≠ HsFin d.
Proof.
  intros HI Ht d Ep. destruct (hsFinish_inv id s HI) as (_ & B & P & Q). destruct (hsThreads s !! id) as [th0|] eqn:Ht0.
  - destruct (htPhase th0) as [| |d0| |] eqn:Ep0; [| |destruct (P _ _ eq_refl Ep0) as (th1 & Ht1 & Ep1 & _); congruence|..]; rewrite (Q th0) in Ht by (rewrite ?Ep0; done); congruence.
  - pose proof (be_hs _ _ B id) as Et. by rewrite Ht, Ht0 in Et.
Qed.
Lemma selectHs_inv w ev s : Inv s → Calm s → activeH (mgr s) w → awaiting (mgr s) !! hwID w = Some (addrPortVNI ev) → dmVNI ev = hwVNI w →
  (∀ c, dmMsg ev = BindUDPRelayEndpointChallenge c → dmDisco ev = hwDisco w) → ∃ s', selectHs w ev s = Ok s' ∧ Inv s' ∧ Calm s'.
Proof.
  intros HI HC Ha Haw Hv Hch. unfold selectHs. destruct (hsStart_inv (hwID w) s HI) as (H0 & B0 & P0 & Q0). set (s0 := hsStart (hwID w) s) in *.
  destruct (hsFinish_inv (hwID w) s0 H0) as (H1 & B1 & P1 & Q1). pose proof (hsFinish_notFin (hwID w) s0) as HN. set (s1 := hsFinish (hwID w) s0) in *. pose proof (beside_trans _ _ _ B0 B1) as B.
  pose proof (beside_calm _ _ B HC) as C1. rewrite <- (be_mgr _ _ B) in Ha, Haw. destruct (th_active_h _ (co_th _ (proj1 H1)) _ Ha) as (th & Ht & Ew). rewrite Ht.
  destruct (th_hs _ (co_th _ (proj1 H1)) _ _ Ht) as (Eid & _ & Hok).
  destruct (htPhase th) as [|remote ans sent dl|d|d|] eqn:Ep.
  - exfalso. assert (∃ th0, hsThreads s !! hwID w = Some th0 ∧ htWork th0 = w) as (th0 & Ht0 & Ew0) by (apply (th_active_h _ (co_th _ (proj1 HI))); by rewrite <- (be_mgr _ _ B)).
    destruct (hsRuns (htPhase th0)) eqn:Er0.
    + destruct (P0 _ Ht0 Er0) as (th2 & Ht2 & Ei2). destruct (htPhase th2) as [|remote ans sent dl|d|d|] eqn:Ep2; try done; [rewrite (Q1 th2) in Ht by (rewrite ?Ep2; done); congruence|].
      destruct (P1 _ _ Ht2 Ep2) as (th3 & Ht3 & Ep3 & _). congruence.
    + subst s0. rewrite (Q0 _ Ht0 Er0) in *. assert (∀ d, htPhase th0 ≠ HsFin d) as Hnf by (intros d E; by rewrite E in Er0). rewrite (Q1 th0 Ht0 Hnf) in Ht. rewrite Ht in Ht0. injection Ht0 as <-. by rewrite Ep in Er0.
  - assert (Inv (logged [Given w ev] s1)) as H2. { destruct H1 as [HCo HK]. split; [apply core_logged; [done|by repeat constructor]|by apply (cached_ext s1)]. }
    destruct (hsReceive_inv (hwID w) th remote ans sent dl ev (logged [Given w ev] s1)) as [H3 B3]; try done; [by rewrite Ew|rewrite Ew; cbn; apply elem_of_app; right; by left|by rewrite Ew|].
    eexists. split_and!; [done|done|]. by apply (beside_calm (logged [Given w ev] s1)).
  - by destruct (HN th H0 Ht d).
  - destruct (ho_active _ _ Hok) as [Hr|(d' & Ed & Ech)]; [by rewrite Ew|by rewrite Ep in Hr|]. unfold takeHsDone. rewrite Ht, Ech. cbn [mbind res_bind]. eexists. split; [done|].
    destruct (hsDone_inv s1 (hwID w) th (mkHsThread (htWork th) (htCancelled th) (htPhase th) None) d') as [HI' HE]; try done; [by rewrite Ew|by left|by left|]. split; [done|].
    split; [eapply ended_calm; [apply H1|apply HI'| |done|exact (proj1 C1)]; by rewrite Ew|]. unfold activeA. rewrite (en_ep _ _ _ HE), (en_al _ _ _ HE). apply (proj2 C1).
  - destruct (ho_active _ _ Hok) as [Hr|(d' & Ed & Ech)]; [by rewrite Ew|by rewrite Ep in Hr|by rewrite Ep in Ed].
Qed.
(** A challenge binds its work to the path it came on. *)
Lemma bind_inv w apv s : Inv s → activeH (mgr s) w → awaiting (mgr s) !! hwID w = None → hsByAddr (mgr s) !! apv = None → apv.2 = hwVNI w →
  let r := mgr s in Inv (setHsIndex (hsByEp r) (hsByVNI r) (<[hwID w := apv]> (awaiting r)) (<[apv := w]> (hsByAddr r)) (handshakeGeneration r) s).
Proof.
  intros [[HI [T1 T2 T3 T4] [L1 L2 L3 L4]] HK] Ha Hn Hfree Hv r. subst r. set (s' := setHsIndex _ _ _ _ _ s). split; [split|by apply (cached_ext s)].
  - destruct HI as [F1 F2 F3 I1 I2 I3 I4 I5 I6 I7 I8]. split; try done; cbn.
    + intros apv' x [[<- <-]|[Hne Hx]]%lookup_insert_Some; [by rewrite lookup_insert_eq|]. destruct (I3 _ _ Hx) as (E1 & E2 & E3). split_and!; [|done|done].
      rewrite lookup_insert_ne; [done|]. intros E.  rewrite <- E in E1. congruence.
    + intros id apv' [[<- <-]|[Hne Hid]]%lookup_insert_Some; [exists w; by rewrite lookup_insert_eq|]. destruct (I4 _ _ Hid) as (x & Hx & Ex). exists x. split; [|done].
      rewrite lookup_insert_ne; [done|]. intros <-.  congruence.
  - split; try done.
    + intros id th Ht. destruct (T1 _ _ Ht) as (? & ? & ?). split_and!; [done|done|by apply (hsOk_ext (mgr s))].
    + intros id th Ht. destruct (T2 _ _ Ht) as (? & ? & ?). split_and!; [done|done|by apply (alOk_ext (mgr s))].
  - split; try done. intros id th Ht. destruct (L1 _ _ Ht) as [G1 G2]. split; [|done]. intros remote ans sent dl Ep. destruct (G1 _ _ _ _ Ep) as (A & B & C). cbn.
    destruct (decide (hwID (htWork th) = hwID w)) as [E|E].
    + rewrite E in *.  split_and!; [done| |].
      * intros Hans. destruct (B Hans) as (apv' & Hapv & _).  congruence.
      * intros tx t apv' Htx. destruct ans; [|by rewrite A in Htx]. destruct (B eq_refl) as (apv0 & Hapv & _).  congruence.
    + rewrite !(lookup_insert_ne (awaiting (mgr s))) by done. done.
Qed.
Lemma handleRx_inv ev s : Inv s → Calm s → ∃ s', handleRxDiscoMsgRunLoop ev s = Ok s' ∧ Inv s' ∧ Calm s'.
Proof.
  intros HI HC. assert (∃ s', Ok (E := Blocked) s = Ok s' ∧ Inv s' ∧ Calm s') as Hs by by exists s. pose proof (co_ix _ (proj1 HI)) as HX. unfold handleRxDiscoMsgRunLoop.
  assert (∀ l s0, s0 = logged l s → Forall (λ a, reportOf a = None) l → (∀ c, dmMsg ev ≠ BindUDPRelayEndpointChallenge c) →
    ∃ s', match hsByAddr (mgr s) !! addrPortVNI ev with None => Ok s0 | Some w => selectHs w ev s0 end = Ok s' ∧ Inv s' ∧ Calm s') as HP.
  { intros l s0 -> Hl Hnc. assert (Inv (logged l s)) as H0 by (destruct HI as [HCo HK]; split; [by apply core_logged|by apply (cached_ext s)]).
    destruct (hsByAddr (mgr s) !! addrPortVNI ev) as [w|] eqn:Ew; [|by exists (logged l s)]. destruct (ix_addr _ HX _ _ Ew) as (E1 & E2 & E3). apply selectHs_inv; try done. intros c E. by destruct (Hnc c). }
  destruct (dmMsg ev) as [tx nk pad|tx src| | |c| | | |gen e] eqn:Em; try exact Hs.
  - eapply HP; [done|by repeat constructor|done].
  - eapply (HP []); [by rewrite logged_nil|done|done].
  - destruct (hsByVNI (mgr s) !! (dmDisco ev, dmVNI ev)) as [w|] eqn:Ew; [|exact Hs]. apply (ix_vni _ HX) in Ew as [Ha Ek]. injection Ek as E1 E2.
    destruct (decide (is_Some (awaiting (mgr s) !! hwID w))) as [|Hn]; [exact Hs|]. destruct (decide (is_Some (hsByAddr (mgr s) !! addrPortVNI ev))) as [|Hf]; [exact Hs|].
    apply eq_None_not_Some in Hn, Hf. pose proof (bind_inv w (addrPortVNI ev) s HI Ha Hn Hf E2) as HB. cbv zeta in HB. apply selectHs_inv; try done. cbn. by rewrite lookup_insert_eq.
  - destruct (get2 _ _ _) as [w|] eqn:Ew; [|exact Hs]. apply (ix_keys _ HX) in Ew as (Ha & _). by apply selectAl_inv.
Qed.

(** ** Servers *)
Lemma setServers_inv m has s : Inv s → Calm s → (∀ k c, m !! k = Some c → cNodeKey c = k) → has = negb (bool_decide (m = ∅)) → Inv (setServers m has s) ∧ Calm (setServers m has s).
Proof.
  intros [[HI [T1 T2 T3 T4] [L1 L2 L3 L4]] HK] HC Hm Hh. split; [|done]. split; [split|by apply (cached_ext s)].
  - by destruct HI.
  - split; try done.
    + intros id th Ht. destruct (T1 _ _ Ht) as (? & ? & ?). split_and!; [done|done|by apply (hsOk_ext (mgr s))].
    + intros id th Ht. destruct (T2 _ _ Ht) as (? & ? & ?). split_and!; [done|done|by apply (alOk_ext (mgr s))].
  - by split.
Qed.
Definition keyed (m : gmap Z candidatePeerRelay) : Prop := ∀ k c, m !! k = Some c → cNodeKey c = k.
Lemma keyed_insert m c : keyed m → keyed (<[cNodeKey c := c]> m).
Proof. intros Hm k c' [[<- <-]|[_ ?]]%lookup_insert_Some; [done|by apply Hm]. Qed.
Lemma keyed_delete m k : keyed m → keyed (delete k m).
Proof. intros Hm k' c' [_ ?]%lookup_delete_Some. by apply Hm. Qed.
Lemma keyed_drops (u : gset candidatePeerRelay) l m : keyed m → keyed (foldl (λ m v, if decide (v ∈ u) then m else delete (cNodeKey v) m) m l).
Proof. revert m. induction l as [|v l IH]; intros m Hm; [done|]. cbn. apply IH. case_decide; [done|by apply keyed_delete]. Qed.
Lemma keyed_adds l m : keyed m → keyed (foldl (λ m v, <[cNodeKey v := v]> m) m l).
Proof. revert m. induction l as [|v l IH]; intros m Hm; [done|]. cbn. apply IH. by apply keyed_insert. Qed.
Lemma servers_inv i s : Inv s → Calm s → match i with ServersUpdate _ | ServerUpsert _ | ServerRemove _ | GetServers | DerpHomeChange _ _ => True | _ => False end →
  ∃ s', handleInput i s = Ok s' ∧ Inv s' ∧ Calm s'.
Proof.
  intros HI HC Hi. pose proof (ix_server _ (co_ix _ (proj1 HI))) as Hk. pose proof (ix_has _ (co_ix _ (proj1 HI))) as Hh. destruct i as [| | | | | |u|c|nk| |nk region]; try done; cbn [handleInput]; eexists; (split; [done|]).
  - destruct (core_draws (S (S (rdraws s))) s HI HC) as [Hd Cd]. unfold handleServersUpdateRunLoop, publishHasServersRunLoop. apply (setServers_inv _ _ (setDraws _ s)); [done|done|by apply keyed_adds, keyed_drops|done].
  - unfold handleServerUpsertRunLoop, publishHasServersRunLoop. apply (setServers_inv _ _ s); [done|done|by apply keyed_insert|done].
  - unfold handleServerRemoveRunLoop. destruct (decide (is_Some _)); [|done]. apply (setServers_inv _ _ s); [done|done|by apply keyed_delete|done].
  - unfold handleGetServersRunLoop. split; [|done]. destruct HI as [HCo HK]. split; [apply core_logged; [done|by repeat constructor]|by apply (cached_ext s)].
  - unfold handleDERPHomeChangeRunLoop. destruct (serversByNodeKey (mgr s) !! nk) as [c|] eqn:Ec; [|done]. apply setServers_inv; [done|done| |].
    + intros k c' [[<- <-]|[_ ?]]%lookup_insert_Some; [cbn|]; by apply Hk.
    + rewrite Hh. f_equal. apply bool_decide_ext. split; intros E; [rewrite E in Ec; by rewrite lookup_empty in Ec|by apply insert_non_empty in E].
Qed.

(** ** The system *)
Lemma calm_split s : CalmH s → CalmA s → Calm s.
Proof. by split. Qed.
Lemma hsReport_inv id th d s : Inv s → Calm s → hsThreads s !! id = Some th → htPhase th = HsOffer d →
  let s' := handleHandshakeWorkDoneRunLoop d (setHsThread (hsTo HsExit th) s) in Inv s' ∧ Calm s' ∧ alThreads s' = alThreads s ∧ alByEp (mgr s') = alByEp (mgr s) ∧
    hsThreads s' = <[id := hsTo HsExit th]> (hsThreads s) ∧ (∀ x, activeH (mgr s') x ↔ activeH (mgr s) x ∧ x ≠ htWork th).
Proof.
  intros HI HC Ht Ep s'. subst s'. destruct (th_hs _ (co_th _ (proj1 HI)) _ _ Ht) as (Eid & _ & Hok). assert (hdWork d = htWork th) as Ed by (apply (ho_fin _ _ Hok); auto).
  destruct (decide (activeH (mgr s) (htWork th))) as [Ha|Ha].
  - destruct (ho_active _ _ Hok Ha) as [Hr|(d' & Ed' & Ech)]; [by rewrite Ep in Hr|]. rewrite Ep in Ed'. injection Ed' as <-.
    destruct (hsDone_inv s id th (hsTo HsExit th) d) as [H1 HE]; try done; [by right|by right|]. split_and!; [done| |apply HE|apply HE| |apply HE].
    + apply calm_split; [eapply ended_calm; [apply HI|apply H1| |done|exact (proj1 HC)]; done|]. unfold CalmA, activeA. rewrite (en_ep _ _ _ HE), (en_al _ _ _ HE). apply (proj2 HC).
    + destruct (handleDone_active d (setHsThread (hsTo HsExit th) s)) as (l & -> & _); [by rewrite Ed|]. cbn. by rewrite Eid.
  - rewrite handleDone_gone by (by rewrite Ed). destruct HI as [HCo HK]. destruct Hok as [O1 O2 O3]. pose proof (lg_hs _ (co_log _ HCo) _ _ Ht) as [G1 G2].
    assert (Core (setHsThread (hsTo HsExit th) s)) as H1.
    { apply (core_hs s id th); try done; [split; cbn; [|done|done]; intros d' [?|[?|?]]; [done|done|apply O1; auto]|split; cbn; [done|]; intros d' [?|[?|?]]; [done|done|apply G2; auto]]. }
    split_and!; [split; [done|apply (cached_same s id th); try done; by rewrite Ep]| |done|done|cbn; by rewrite Eid|intros x; cbn; split; [intros Hx; split; [done|by intros ->]|by intros [? _]]].
    apply calm_split; [|exact (proj2 HC)]. intros i th0 H0. cbn in H0. apply lookup_insert_Some in H0 as [[<- <-]|[_ H0]]; [done|by apply (proj1 HC i)].
Qed.
Lemma alReport_inv id th d s : Inv s → Calm s → alThreads s !! id = Some th → atPhase th = AlOffer d →
  ∃ s', handleAllocWorkDoneRunLoop d (setAlThread (alTo AlExit th) s) = Ok s' ∧ Inv s' ∧ Calm s' ∧ alThreads s' = <[id := alTo AlExit th]> (alThreads s) ∧
    (∀ x, activeA (mgr s') x ↔ activeA (mgr s) x ∧ x ≠ atWork th).
Proof.
  intros HI HC Ht Ep. destruct (th_al _ (co_th _ (proj1 HI)) _ _ Ht) as (Eid & _ & Hok). assert (adWork d = atWork th) as Ed by (apply (ao_fin _ _ Hok); auto).
  destruct (decide (activeA (mgr s) (atWork th))) as [Ha|Ha].
  - destruct (ao_active _ _ Hok Ha) as [Hr|(d' & Ed' & Ech)]; [by rewrite Ep in Hr|]. rewrite Ep in Ed'. injection Ed' as <-.
    destruct (alDone_inv s id th (alTo AlExit th) d) as (s' & E' & H1 & C1 & A1 & T1); try done; [exact (proj1 HC)|intros i th0 _; apply (proj2 HC)|by right|by right|]. exists s'. split_and!; done.
  - rewrite handleAlDone_gone by (by rewrite Ed). eexists. split; [done|]. destruct Hok as [O1 O2 O3].
    destruct (alSet_inv s s id th (alTo AlExit th)) as [H1 H2]; try done; [split; cbn; [|done|done]; intros d' [?|[?|?]]; [done|done|apply O1; auto]|].
    split_and!; [done|by eapply besideA_calm, HC; apply H2|cbn; by rewrite Eid|intros x; cbn; split; [intros Hx; split; [done|by intros ->]|by intros [? _]]].
Qed.
Lemma setRuns_inv b s : Inv s → Calm s → Inv (setRuns b s) ∧ Calm (setRuns b s).
Proof. intros [HC HK] Hc. split; [|done]. split; [by apply (core_ext s)|by apply (cached_ext s)]. Qed.
Lemma handleInput_inv i s : Inv s → Calm s → external i = true → ∃ s', handleInput i s = Ok s' ∧ Inv s' ∧ Calm s'.
Proof.
  intros HI HC Hi. destruct i; try (by apply servers_inv); try done; cbn [handleInput].
  - eexists. split; [done|]. destruct (hasActiveWorkForEndpointRunLoop _ _) eqn:E; [done|by apply allocateAll_inv].
  - destruct (stopWork_inv ep s HI HC) as (s' & -> & ? & ? & _). by exists s'.
  - destruct (handleNew_inv e s HI HC) as (s' & -> & ? & ? & _). by exists s'.
  - by apply handleRx_inv.
Qed.
(** What holds of every state that the system reaches. *)
Definition Sound (s : Relays) : Prop := Inv s ∧ Calm s ∧ loopRuns s = hasActiveWorkRunLoop s.
Lemma input_sound i s : Inv s → Calm s → (∃ s', handleInput i (setRuns true s) = Ok s' ∧ Inv s' ∧ Calm s') → ∃ s', relayManagerInputEvent i s = Ok s' ∧ Sound s'.
Proof.
  intros HI HC (s' & E & H1 & C1). unfold relayManagerInputEvent. rewrite E. cbn [mbind res_bind]. eexists. split; [done|]. destruct (setRuns_inv (hasActiveWorkRunLoop s') s' H1 C1). by split_and!.
Qed.
Lemma beside_sound s s' : Beside s s' → Inv s' → loopRuns s' = loopRuns s → Sound s → Sound s'.
Proof. intros B HI Hr (_ & HC & HL). split_and!; [done|by eapply beside_calm|]. unfold hasActiveWorkRunLoop. by rewrite Hr, (be_mgr _ _ B). Qed.
Lemma besideA_sound id s s' : BesideA id s s' → Inv s' → loopRuns s' = loopRuns s → Sound s → Sound s'.
Proof. intros B HI Hr (_ & HC & HL). split_and!; [done|by eapply besideA_calm|]. unfold hasActiveWorkRunLoop. by rewrite Hr, (ba_mgr _ _ _ B). Qed.
End loop.

Section run.
Context `{RelayRandom}.

(** ** Every step keeps the invariant *)
Lemma hsQuit_sound id s : Sound s → Sound (hsQuit id s).
Proof.
  intros HS. pose proof HS as (HI & HC & HL). unfold hsQuit. destruct (hsThreads s !! id) as [th|] eqn:Ht; [|done]. destruct (htPhase th) as [| | |d|] eqn:Ep; try done.
  destruct (htCancelled th) eqn:Ec; [|done]. destruct (hsReport_inv id th d s HI HC Ht Ep) as (H1 & C1 & _). destruct (th_hs _ (co_th _ (proj1 HI)) _ _ Ht) as (_ & _ & Hok).
  assert (¬ activeH (mgr s) (hdWork d)) as Hn. { rewrite (ho_fin _ _ Hok d) by auto. intros Ha. rewrite (proj1 HC _ _ Ht Ha) in Ec. done. }
  rewrite handleDone_gone in H1, C1 by done. by split_and!.
Qed.
Lemma alQuit_sound id s : Sound s → Sound (alQuit id s).
Proof.
  intros HS. pose proof HS as (HI & HC & HL). unfold alQuit. destruct (alThreads s !! id) as [th|] eqn:Ht; [|done]. destruct (atPhase th) as [| |d|] eqn:Ep; try done.
  destruct (atCancelled th) eqn:Ec; [|done]. destruct (alReport_inv id th d s HI HC Ht Ep) as (s' & E' & H1 & C1 & _). destruct (th_al _ (co_th _ (proj1 HI)) _ _ Ht) as (_ & _ & Hok).
  assert (¬ activeA (mgr s) (adWork d)) as Hn. { rewrite (ao_fin _ _ Hok d) by auto. intros Ha. rewrite (proj2 HC _ _ Ht Ha) in Ec. done. }
  rewrite handleAlDone_gone in E' by done. injection E' as <-. by split_and!.
Qed.
Lemma hsReport_sound id s : Sound s → ∃ s', hsReport id s = Ok s' ∧ Sound s'.
Proof.
  intros HS. pose proof HS as (HI & HC & HL). unfold hsReport. destruct (hsThreads s !! id) as [th|] eqn:Ht; [|by exists s]. destruct (htPhase th) as [| | |d|] eqn:Ep; try by exists s.
  destruct (setRuns_inv true s HI HC) as [HI' HC']. destruct (hsReport_inv id th d (setRuns true s) HI' HC' Ht Ep) as (H1 & C1 & _). unfold relayManagerInputEvent. cbn [handleInput mbind res_bind].
  eexists. split; [done|]. set (s' := handleHandshakeWorkDoneRunLoop _ _) in *. change (setRuns true (setHsThread (hsTo HsExit th) s)) with (setHsThread (hsTo HsExit th) (setRuns true s)). fold s'.
  destruct (setRuns_inv (hasActiveWorkRunLoop s') s' H1 C1). by split_and!.
Qed.
Lemma alReport_sound id s : Sound s → ∃ s', alReport id s = Ok s' ∧ Sound s'.
Proof.
  intros HS. pose proof HS as (HI & HC & HL). unfold alReport. destruct (alThreads s !! id) as [th|] eqn:Ht; [|by exists s]. destruct (atPhase th) as [| |d|] eqn:Ep; try by exists s.
  destruct (setRuns_inv true s HI HC) as [HI' HC']. destruct (alReport_inv id th d (setRuns true s) HI' HC' Ht Ep) as (s1 & E1 & H1 & C1 & _).
  unfold relayManagerInputEvent. cbn [handleInput]. change (setRuns true (setAlThread (alTo AlExit th) s)) with (setAlThread (alTo AlExit th) (setRuns true s)). rewrite E1. cbn [mbind res_bind].
  eexists. split; [done|]. destruct (setRuns_inv (hasActiveWorkRunLoop s1) s1 H1 C1). by split_and!.
Qed.
Ltac same_runs := repeat case_match; done.
Lemma step_sound e s : Sound s → ∃ s', relayStep e s = Ok s' ∧ Sound s'.
Proof.
  intros HS. pose proof HS as (HI & HC & HL). destruct e as [i|id|id|id|id|id|id|id|id|id|id|id|id|discos disco key n]; cbn [relayStep].
  - destruct (external i) eqn:Ei; [|by exists s]. apply input_sound; [done|done|]. destruct (setRuns_inv true s HI HC). by apply handleInput_inv.
  - eexists. split; [done|]. destruct (hsStart_inv id s HI) as (? & ? & _). eapply beside_sound; [done|done| |done]. unfold hsStart, ensureDiscoInfoFor. same_runs.
  - eexists. split; [done|]. destruct (hsEnd_inv (λ th _, htCancelled th) id s HI) as (? & ? & _). eapply beside_sound; [done|done| |done]. unfold hsCancelled, hsEnd. same_runs.
  - eexists. split; [done|]. destruct (hsEnd_inv (λ _ deadline, deadline <=? clock s) id s HI) as (? & ? & _). eapply beside_sound; [done|done| |done]. unfold hsTimedOut, hsEnd. same_runs.
  - eexists. split; [done|]. destruct (hsFinish_inv id s HI) as (? & ? & _). eapply beside_sound; [done|done| |done]. unfold hsFinish, derefDiscoInfoFor. same_runs.
  - by apply hsReport_sound.
  - eexists. split; [done|]. by apply hsQuit_sound.
  - eexists. split; [done|]. destruct (alEnd_inv (λ th _, atCancelled th) id s HI) as (? & ? & _). eapply besideA_sound; [done|done| |done]. unfold alCancelled, alEnd. same_runs.
  - eexists. split; [done|]. destruct (alEnd_inv (λ _ t, t <=? clock s) id s HI) as (? & ? & _). eapply besideA_sound; [done|done| |done]. unfold alTimedOut, alEnd. same_runs.
  - eexists. split; [done|]. destruct (alRetry_inv id s HI) as (? & ?). eapply besideA_sound; [done|done| |done]. unfold alRetry. same_runs.
  - eexists. split; [done|]. destruct (alFinish_inv id s HI) as (? & ? & _). eapply besideA_sound; [done|done| |done]. unfold alFinish. same_runs.
  - by apply alReport_sound.
  - eexists. split; [done|]. by apply alQuit_sound.
  - eexists. split; [done|]. split_and!; [|done|done]. destruct HI as [HCo HK]. split; [apply (core_ext s); try done; cbn; lia|by apply (cached_ext s)].
Qed.
Lemma run_sound evs s : Sound s → ∃ s', relayRun evs s = Ok s' ∧ Sound s'.
Proof.
  revert s. induction evs as [|e evs IH]; intros s HS; [by exists s|]. destruct (step_sound e s HS) as (s1 & E1 & S1). unfold relayRun in *. cbn. rewrite E1. cbn [mbind res_bind]. by apply IH.
Qed.
Lemma new_sound : Sound newRelays.
Proof.
  split_and!; [split; [split|]|split; intros id th Ht; cbn in Ht; by rewrite lookup_empty in Ht|done].
  - split; cbn; try done; try (intros k Hk; by rewrite lookup_empty in Hk); intros; unfold activeH, activeA, get2 in *; cbn in *; rewrite ?lookup_empty in *; cbn in *; naive_solver.
  - split; cbn; try (intros id th Ht; by rewrite lookup_empty in Ht); intros w Hw; unfold activeH, activeA, get2 in Hw; cbn in Hw; by rewrite lookup_empty in Hw.
  - split; cbn; [intros id th Ht; by rewrite lookup_empty in Ht|intros [] w q l2 E; done|intros w q Hw; by apply elem_of_nil in Hw|constructor].
  - split; cbn; [intros d Hd; by rewrite lookup_empty in Hd|]. intros d id. rewrite lookup_empty. cbn. split; [intros Hi; by apply elem_of_empty in Hi|]. intros (th & Ht & _). by rewrite lookup_empty in Ht.
Qed.
Lemma reach_sound evs s : relayRun evs newRelays = Ok s → Sound s.
Proof. intros HR. destruct (run_sound evs newRelays new_sound) as (s' & E & HS). congruence. Qed.


(** ** The theorems *)


(** C20: a path through a relay is reported only when it works, and once.  Before work [w]
    reports a path to its endpoint, a challenge under the key of the server has come over
    that path, for the key of the peer, and been answered; a ping has been sent to the peer
    over the path; and the pong to it has come back over the same path. *)
Theorem relay_path_proved evs s l1 w q l2 : relayRun evs newRelays = Ok s → rlog s = l1 ++ Ready w q :: l2 →
  Justified l1 w q ∧ ∀ x q', Ready x q' ∈ l1 ++ l2 → hwID x ≠ hwID w.
Proof.
  intros HR El. destruct (reach_sound _ _ HR) as ([[_ _ [L1 L2 L3 L4]] _] & _). split; [by eapply L2|]. intros x q' Hx E. rewrite El, omap_app in L4. cbn in L4.
  rewrite NoDup_app in L4. destruct L4 as (_ & N2 & [N3 _]%NoDup_cons). apply elem_of_app in Hx as [Hx|Hx].
  - apply (N2 (hwID w)); [|by left]. apply list_elem_of_omap. exists (Ready x q'). cbn. by rewrite E.
  - apply N3. apply list_elem_of_omap. exists (Ready x q'). cbn. by rewrite E.
Qed.


End run.

(** ** A discovery *)
#[local] Instance exRandom : RelayRandom := {| relayTxID n := [Z.of_nat n]; rangeOrder _ _ l := l; rangeOrder_perm _ _ _ := Permutation_refl _ |}.
Definition exServer : candidatePeerRelay := mkCand 11 12 3.
Definition exAddr : AddrPort := mkAddrPort (IPv4 192 0 2 1) 7.
Definition exRelayEp : UDPRelayEndpoint := toRelayEp (mkServerEp 12 (5, 7) 1 42 (30 * Second) (60 * Second) [exAddr]).
Definition exChallenge : relayDiscoMsgEvent := mkDiscoMsg (BindUDPRelayEndpointChallenge (mkCommon 42 1 (discoBytes 7) (replicate 32 9))) 0 12 exAddr 42.
Definition exAsked : list RelayEvent :=
  [Call (ServerUpsert exServer); Outside {[1%positive := 7]} 5 6 0; Call (StartDiscovery (mkWlb 1 zeroQuality false));
   Call (RxDiscoMsg (mkDiscoMsg (AllocateUDPRelayEndpointResponse 1 exRelayEp) 11 12 AddrPortZ 0)); AlFinishes 1; AlReports 1; HsStarts 2].
Definition exAnswered : list RelayEvent :=
  exAsked ++ [Call (RxDiscoMsg exChallenge); Outside {[1%positive := 7]} 5 6 250; Call (RxDiscoMsg (mkDiscoMsg (Pong [1] exAddr) 0 7 exAddr 42)); HsFinishes 2; HsReports 2].
Definition exRun (evs : list RelayEvent) : Relays := match relayRun evs newRelays with Ok s => s | _ => newRelays end.
Definition exWork : relayHandshakeWork := mkHsWork 2 (mkWlb 1 zeroQuality false) (ofRelayEp exRelayEp) exServer 1.
Definition exQuality : addrQuality := mkQuality (relayAddr exWork exAddr) 12 250 SafeWireMTU.
Lemma relay_path_proved_witness : ∃ l1 l2, rlog (exRun exAnswered) = l1 ++ Ready exWork exQuality :: l2 ∧ Justified l1 exWork exQuality.
Proof.
  exists (take 7 (rlog (exRun exAnswered))), (drop 8 (rlog (exRun exAnswered))). assert (rlog (exRun exAnswered) = take 7 (rlog (exRun exAnswered)) ++ Ready exWork exQuality :: drop 8 (rlog (exRun exAnswered))) as E by (vm_compute; reflexivity).
  split; [exact E|]. refine (proj1 (relay_path_proved exAnswered (exRun exAnswered) _ exWork exQuality _ _ E)). vm_compute. reflexivity.
Defined.

(** A peer that is a relay server gets a new node key: the manager is told of the new one
    and keeps the old one. *)
Lemma rotated_server_stays : let s := exRun (Call <$> (upsertRelay true (Some exServer) 11 ++ upsertRelay true (Some (mkCand 13 12 3)) 13 ++ removeRelay true 13)) in
  serversByNodeKey (mgr s) !! 11 = Some exServer ∧ hasPeerRelayServers (mgr s) = true.
Proof. vm_compute. done. Qed.
