(* ===== verification/Tka.v ===== *)
(** * The key authority of the tailnet lock: keys, states, messages, signatures

    [tka/key.go], [tka/state.go], [tka/aum.go], [tka/verify.go] and [tka/sig.go].

    The texts of errors are without their arguments.  Hashing, CBOR and Ed25519 are
    [TkaCrypto].  A slice whose absence the code tells from its emptiness is an option.
    [Clone] of a value is the value. *)

From stdpp Require Import base gmap sets list strings.
From S2P Require Import Prelude GoStd Bytes.

Inductive TkaErr : Type := ErrNotExist | ErrNoSuchKey | ErrNoIntersection | tkaErrorf (msg : string).
Abbreviation tres := (res TkaErr).
#[export] Instance TkaErr_eq_dec : EqDecision TkaErr.
Proof. solve_decision. Defined.

(** A loop that stops with the first error. *)
Fixpoint checkEach {A} (f : nat → A → tres ()) (i : nat) (l : list A) : tres () :=
  match l with
  | [] => Ok ()
  | x :: l => _ ← f i x; checkEach f (S i) l
  end.

(** ** Keys *)
Inductive KeyKind : Type := KeyInvalid | Key25519 | KeyUnknown (n : Z).
#[export] Instance KeyKind_eq_dec : EqDecision KeyKind.
Proof. solve_decision. Defined.

Record Key := mkKey { kKind : KeyKind; kVotes : Z; kPublic : bytes; kMeta : option (gmap string string) }.
#[export] Instance Key_eq_dec : EqDecision Key.
Proof. solve_decision. Defined.

Definition maxDisablementValues : Z := 32.
Definition maxKeys : Z := 512.
Definition maxMetaBytes : Z := 512.

Definition keyID (k : Key) : tres bytes :=
  match kKind k with Key25519 => Ok (kPublic k) | _ => Err (tkaErrorf "unknown key kind") end.
Definition metaBytes (m : gmap string string) : Z :=
  map_fold (λ k v n, n + Z.of_nat (String.length k) + Z.of_nat (String.length v)) 0 m.
Definition keyStaticValidate (k : Key) : tres () :=
  if 4096 <? kVotes k then Err (tkaErrorf "excessive key weight")
  else if kVotes k =? 0 then Err (tkaErrorf "key votes must be non-zero")
  else if maxMetaBytes <? from_option metaBytes 0 (kMeta k) then Err (tkaErrorf "key metadata too big")
  else match kKind k with Key25519 => Ok () | _ => Err (tkaErrorf "unrecognized key kind") end.

(** ** States *)
Record State := mkState {
  LastAUMHash : option bytes;
  DisablementValues : list bytes;
  Keys : list Key;
  StateID1 : Z;
  StateID2 : Z
}.
Definition zeroTkaState : State := mkState None [] [] 0 0.

Fixpoint getKey (l : list Key) (id : bytes) : tres Key :=
  match l with
  | [] => Err ErrNoSuchKey
  | k :: l => kid ← keyID k; if decide (kid = id) then Ok k else getKey l id
  end.
Definition GetKey (s : State) (id : bytes) : tres Key := getKey (Keys s) id.

(** ** Update messages *)
Inductive AUMKind : Type := AUMInvalid | AUMAddKey | AUMRemoveKey | AUMNoOp | AUMUpdateKey | AUMCheckpoint | AUMUnknown (n : Z).
#[export] Instance AUMKind_eq_dec : EqDecision AUMKind.
Proof. solve_decision. Defined.
Record Signature := mkSignature { sKeyID : bytes; sSignature : bytes }.
Record AUM := mkAUM {
  MessageKind : AUMKind;
  PrevAUMHash : option bytes;
  aKey : option Key;
  aKeyID : option bytes;
  aState : option State;
  aVotes : option Z;
  aMeta : option (gmap string string);
  Signatures : list Signature
}.
Definition withSignatures (l : list Signature) (a : AUM) : AUM :=
  mkAUM (MessageKind a) (PrevAUMHash a) (aKey a) (aKeyID a) (aState a) (aVotes a) (aMeta a) l.
#[export] Instance State_eq_dec : EqDecision State.
Proof. solve_decision. Defined.
#[export] Instance Signature_eq_dec : EqDecision Signature.
Proof. solve_decision. Defined.
#[export] Instance AUM_eq_dec : EqDecision AUM.
Proof. solve_decision. Defined.

(** ** Node key signatures *)
Inductive SigKind : Type := SigInvalid | SigDirect | SigRotation | SigCredential | SigUnknown (n : Z).
#[export] Instance SigKind_eq_dec : EqDecision SigKind.
Proof. solve_decision. Defined.
Inductive NodeKeySignature : Type := mkNKS {
  nksKind : SigKind;
  nksPubkey : bytes;
  nksKeyID : bytes;
  nksSignature : bytes;
  nksNested : option NodeKeySignature;
  nksWrapping : bytes
}.
Definition withSig (b : bytes) (s : NodeKeySignature) : NodeKeySignature :=
  mkNKS (nksKind s) (nksPubkey s) (nksKeyID s) b (nksNested s) (nksWrapping s).

(** Libraries: BLAKE2s, CBOR with the options of the package, Ed25519 by Go's library
    and by [ed25519consensus], and Argon2 with the package's parameters. *)
Class TkaCrypto := {
  blake2s : bytes → bytes;
  cborNKS : NodeKeySignature → bytes;
  uncborNKS : bytes → option NodeKeySignature;
  cborAUM : AUM → bytes;
  ed25519Verify : bytes → bytes → bytes → bool;
  ed25519Consensus : bytes → bytes → bytes → bool;
  ed25519Sign : bytes → bytes → bytes;
  ed25519Public : bytes → bytes;
  argon2Key : bytes → bytes
}.

Section tka.
Context `{TkaCrypto}.

Definition Hash (a : AUM) : bytes := blake2s (cborAUM a).
Definition aumSigHash (a : AUM) : bytes := blake2s (cborAUM (withSignatures [] a)).
(** The copy into an array of 32 bytes. *)
Definition hashArray (b : bytes) : bytes := take 32 (b ++ replicate 32 0).
Definition Parent (a : AUM) : option bytes :=
  let p := default [] (PrevAUMHash a) in if 0 <? zlen p then Some (hashArray p) else None.

(** [Weight], over the signatures and the keys seen. *)
Fixpoint weightLoop (s : State) (sigs : list Signature) (seen : gset bytes) (weight : Z) : tres Z :=
  match sigs with
  | [] => Ok weight
  | sg :: sigs =>
      if negb (zlen (sKeyID sg) =? 32) then Panic
      else match GetKey s (sKeyID sg) with
      | Err ErrNoSuchKey => weightLoop s sigs seen weight
      | Err _ | Panic => Panic
      | Ok k =>
          if decide (sKeyID sg ∈ seen) then weightLoop s sigs seen weight
          else weightLoop s sigs ({[sKeyID sg]} ∪ seen) (u64 (weight + kVotes k))
      end
  end.
Definition Weight (a : AUM) (s : State) : tres Z := weightLoop s (Signatures a) ∅ 0.

(** ** Validation *)
Definition staticValidateCheckpoint (s : State) : tres () :=
  let ds := DisablementValues s in
  if decide (is_Some (LastAUMHash s)) then Err (tkaErrorf "cannot specify a parent AUM")
  else if zlen ds =? 0 then Err (tkaErrorf "at least one disablement secret required")
  else if maxDisablementValues <? zlen ds then Err (tkaErrorf "too many disablement values")
  else
    _ ← checkEach (λ i d,
          if negb (zlen d =? 32) then Err (tkaErrorf "disablement: invalid length")
          else checkEach (λ j d2, if negb (i =? j)%nat && bool_decide (d = d2) then Err (tkaErrorf "disablement: duplicates") else Ok ()) 0 ds)
        0 ds;
    if zlen (Keys s) =? 0 then Err (tkaErrorf "at least one key is required")
    else if maxKeys <? zlen (Keys s) then Err (tkaErrorf "too many keys")
    else
      _ ← checkEach (λ _ k, keyStaticValidate k) 0 (Keys s);
      checkEach (λ i k, checkEach (λ j k2,
        if (i =? j)%nat then Ok ()
        else id1 ← keyID k; id2 ← keyID k2; if decide (id1 = id2) then Err (tkaErrorf "key: duplicates") else Ok ()) 0 (Keys s)) 0 (Keys s).

Definition StaticValidate (a : AUM) : tres () :=
  _ ← from_option keyStaticValidate (Ok ()) (aKey a);
  if decide (PrevAUMHash a = Some []) then Err (tkaErrorf "absent parent must be represented by a nil slice")
  else
    _ ← checkEach (λ _ sg, if negb (zlen (sKeyID sg) =? 32) || negb (zlen (sSignature sg) =? 64)
                           then Err (tkaErrorf "signature has missing keyID or malformed signature") else Ok ()) 0 (Signatures a);
    _ ← from_option staticValidateCheckpoint (Ok ()) (aState a);
    let noKeyID := bool_decide (aKeyID a = None) in
    let noKey := bool_decide (aKey a = None) in
    let noState := bool_decide (aState a = None) in
    let noVotes := bool_decide (aVotes a = None) in
    let noMeta := bool_decide (aMeta a = None) in
    match MessageKind a with
    | AUMAddKey =>
        if noKey then Err (tkaErrorf "AddKey AUMs must contain a key")
        else if negb noKeyID || negb noState || negb noVotes || negb noMeta then Err (tkaErrorf "AddKey AUMs may only specify a Key")
        else Ok ()
    | AUMRemoveKey =>
        if zlen (default [] (aKeyID a)) =? 0 then Err (tkaErrorf "RemoveKey AUMs must specify a key ID")
        else if negb noKey || negb noState || negb noVotes || negb noMeta then Err (tkaErrorf "RemoveKey AUMs may only specify a KeyID")
        else Ok ()
    | AUMUpdateKey =>
        if zlen (default [] (aKeyID a)) =? 0 then Err (tkaErrorf "UpdateKey AUMs must specify a key ID")
        else if noMeta && noVotes then Err (tkaErrorf "UpdateKey AUMs must contain an update to votes or key metadata")
        else if negb noKey || negb noState then Err (tkaErrorf "UpdateKey AUMs may only specify KeyID, Votes, and Meta")
        else Ok ()
    | AUMCheckpoint =>
        if noState then Err (tkaErrorf "Checkpoint AUMs must specify the state")
        else if negb noKeyID || negb noKey || negb noVotes || negb noMeta then Err (tkaErrorf "Checkpoint AUMs may only specify State")
        else Ok ()
    | AUMNoOp | AUMInvalid | AUMUnknown _ => Ok ()
    end.

(** ** The state machine *)
Definition cloneForUpdate (s : State) (update : AUM) : State :=
  mkState (Some (Hash update)) (DisablementValues s) (Keys s) (StateID1 s) (StateID2 s).
Definition withKeys (l : list Key) (s : State) : State :=
  mkState (LastAUMHash s) (DisablementValues s) l (StateID1 s) (StateID2 s).

Definition checkDisablement (s : State) (secret : bytes) : bool := bool_decide (argon2Key secret ∈ DisablementValues s).

Definition parentMatches (s : State) (update : AUM) : bool :=
  match LastAUMHash s with
  | None => true
  | Some h => bool_decide (h = default [] (PrevAUMHash update))
  end.

(** The loops over the keys of [AUMUpdateKey] and [AUMRemoveKey]. *)
Fixpoint replaceKey (l : list Key) (id : bytes) (k' : Key) : tres (list Key) :=
  match l with
  | [] => Ok []
  | k :: l => kid ← keyID k; l' ← replaceKey l id k'; Ok ((if decide (kid = id) then k' else k) :: l')
  end.
Fixpoint removeKey (l : list Key) (id : bytes) : tres (list Key) :=
  match l with
  | [] => Err ErrNoSuchKey
  | k :: l => kid ← keyID k; if decide (id = kid) then Ok l else l' ← removeKey l id; Ok (k :: l')
  end.

Definition applyVerifiedAUM (s : State) (update : AUM) : tres State :=
  if negb (parentMatches s update) then Err (tkaErrorf "parent AUMHash mismatch")
  else match MessageKind update with
  | AUMCheckpoint =>
      match aState update with
      | None => Err (tkaErrorf "missing checkpoint state")
      | Some st =>
          if negb (StateID1 st =? StateID1 s) || negb (StateID2 st =? StateID2 s)
          then Err (tkaErrorf "checkpointed state has an incorrect stateID")
          else Ok (cloneForUpdate st update)
      end
  | AUMAddKey =>
      match aKey update with
      | None => Err (tkaErrorf "no key to add provided")
      | Some k =>
          kid ← keyID k;
          match GetKey s kid with
          | Ok _ => Err (tkaErrorf "key already exists")
          | Panic => Panic
          | Err _ => let out := cloneForUpdate s update in Ok (withKeys (Keys out ++ [k]) out)
          end
      end
  | AUMUpdateKey =>
      let id := default [] (aKeyID update) in
      k ← GetKey s id;
      let k := mkKey (kKind k) (default (kVotes k) (aVotes update)) (kPublic k)
                 (match aMeta update with Some m => Some m | None => kMeta k end) in
      match keyStaticValidate k with
      | Ok _ =>
          let out := cloneForUpdate s update in
          l ← replaceKey (Keys out) id k;
          Ok (withKeys l out)
      | Err _ => Err (tkaErrorf "updated key fails validation")
      | Panic => Panic
      end
  | AUMRemoveKey =>
      l ← removeKey (Keys s) (default [] (aKeyID update));
      Ok (withKeys l (cloneForUpdate s update))
  | AUMNoOp | AUMInvalid | AUMUnknown _ => Ok (cloneForUpdate s update)
  end.

(** ** Verification of messages *)
Definition signatureVerify (sg : Signature) (digest : bytes) (k : Key) : tres () :=
  match kKind k with
  | Key25519 =>
      if negb (zlen (kPublic k) =? 32) then Err (tkaErrorf "ed25519 key has wrong length")
      else if ed25519Consensus (kPublic k) digest (sSignature sg) then Ok () else Err (tkaErrorf "invalid signature")
  | _ => Err (tkaErrorf "unhandled key type")
  end.

Definition checkParent (a : AUM) (s : State) : tres () :=
  match Parent a, LastAUMHash s with
  | None, _ => Err (tkaErrorf "aum has no parent")
  | _, None => Err (tkaErrorf "cannot check update parent hash against a state with no previous AUM")
  | Some p, Some h => if decide (h = p) then Ok () else Err (tkaErrorf "aum with parent cannot be applied to a state with parent")
  end.

Definition wrapErr {A} (msg : string) (r : tres A) : tres A :=
  match r with Err _ => Err (tkaErrorf msg) | r => r end.

Definition aumVerify (a : AUM) (s : State) (isGenesisAUM : bool) : tres () :=
  _ ← wrapErr "invalid" (StaticValidate a);
  _ ← (if isGenesisAUM then Ok () else checkParent a s);
  if zlen (Signatures a) =? 0 then Err (tkaErrorf "unsigned AUM")
  else
    let sigHash := aumSigHash a in
    _ ← checkEach (λ _ sg,
          k ← wrapErr "bad keyID on signature" (GetKey s (sKeyID sg));
          wrapErr "signature" (signatureVerify sg sigHash k)) 0 (Signatures a);
    match MessageKind a, Keys s with
    | AUMRemoveKey, [k] =>
        match keyID k with
        | Ok kid => if decide (default [] (aKeyID a) = kid) then Err (tkaErrorf "cannot remove the last key in the state") else Ok ()
        | _ => Ok ()
        end
    | _, _ => Ok ()
    end.

(** ** Verification of node key signatures *)
Definition NKSHash (s : NodeKeySignature) : bytes := blake2s (cborNKS (withSig [] s)).

(** [key.NodePublic]: a number of 32 bytes, behind the prefix np in binary form. *)
Definition npPrefix : bytes := [110; 112].
Definition marshalNode (k : Z) : bytes := npPrefix ++ be_bytes 32 k.
Definition unmarshalNode (b : bytes) : tres Z :=
  if negb (bool_decide (take 2 b = npPrefix)) then Err (tkaErrorf "missing/incorrect type prefix")
  else if negb (zlen b =? 34) then Err (tkaErrorf "incorrect len for NodePublic")
  else Ok (be_val 0 (drop 2 b)).

Fixpoint wrappingPublic (s : NodeKeySignature) : option bytes :=
  if 0 <? zlen (nksWrapping s) then Some (nksWrapping s)
  else match nksKind s, nksNested s with
  | SigRotation, Some n => wrappingPublic n
  | _, _ => None
  end.
Fixpoint authorizingKeyID (s : NodeKeySignature) : tres bytes :=
  match nksKind s with
  | SigDirect | SigCredential => if zlen (nksKeyID s) =? 0 then Err (tkaErrorf "invalid signature: no keyID present") else Ok (nksKeyID s)
  | SigRotation =>
      match nksNested s with
      | None => Err (tkaErrorf "invalid signature: rotation signature missing nested signature")
      | Some n => authorizingKeyID n
      end
  | _ => Err (tkaErrorf "unhandled signature type")
  end.

Fixpoint verifySignature (s : NodeKeySignature) (nodeKey : Z) (k : Key) : tres () :=
  if negb (bool_decide (nksKind s = SigCredential)) && negb (bool_decide (marshalNode nodeKey = nksPubkey s))
  then Err (tkaErrorf "signature does not authorize nodeKey")
  else
    let sigHash := NKSHash s in
    match nksKind s with
    | SigRotation =>
        match nksNested s with
        | None => Err (tkaErrorf "nested signatures must nest a signature")
        | Some n =>
            match wrappingPublic n with
            | None => Err (tkaErrorf "missing rotation key")
            | Some verifyPub =>
                if negb (zlen verifyPub =? 32) then Err (tkaErrorf "bad rotation key length")
                else if negb (ed25519Verify verifyPub sigHash (nksSignature s)) then Err (tkaErrorf "invalid signature")
                else
                  nestedPub ← (if decide (nksKind n = SigCredential) then Ok 0 else wrapErr "nested pubkey" (unmarshalNode (nksPubkey n)));
                  wrapErr "nested" (verifySignature n nestedPub k)
            end
        end
    | SigDirect | SigCredential =>
        match nksNested s with
        | Some _ => Err (tkaErrorf "invalid signature: cannot nest another signature")
        | None =>
            match kKind k with
            | Key25519 =>
                if negb (zlen (kPublic k) =? 32) then Err (tkaErrorf "ed25519 key has wrong length")
                else if ed25519Consensus (kPublic k) sigHash (nksSignature s) then Ok () else Err (tkaErrorf "invalid signature")
            | _ => Err (tkaErrorf "unhandled key type")
            end
        end
    | _ => Err (tkaErrorf "unhandled signature type")
    end.

(** ** Rotation *)
Record RotationDetails := mkDetails { PrevNodeKeys : list Z; InitialSig : option NodeKeySignature }.
(** The loop of [rotationDetails]; [acc] are the keys so far. *)
Fixpoint rotationLoop (s : NodeKeySignature) (acc : list Z) : tres (list Z * option NodeKeySignature) :=
  acc ← (if 0 <? zlen (nksPubkey s) then p ← wrapErr "nested pubkey" (unmarshalNode (nksPubkey s)); Ok (acc ++ [p]) else Ok acc);
  if negb (bool_decide (nksKind s = SigRotation)) then Ok (acc, Some s)
  else match nksNested s with None => Ok (acc, None) | Some n => rotationLoop n acc end.
Definition rotationDetails (s : NodeKeySignature) : tres (option RotationDetails) :=
  if negb (bool_decide (nksKind s = SigRotation)) then Ok None
  else match nksNested s with
  | None => Ok (Some (mkDetails [] None))
  | Some n => '(ks, i) ← rotationLoop n []; Ok (Some (mkDetails ks i))
  end.

(** The private key [priv] signs. *)
Definition SignNKS (priv sigHash : bytes) : bytes := ed25519Sign priv sigHash.
Definition rotate (priv pubkey : bytes) (nested : option NodeKeySignature) : NodeKeySignature :=
  let s := mkNKS SigRotation pubkey [] [] nested [] in withSig (SignNKS priv (NKSHash s)) s.

(** The public keys of a chain, from the newest to the oldest, and its last signature. *)
Fixpoint chainKeys (s : NodeKeySignature) : list bytes * option NodeKeySignature :=
  let mine := if 0 <? zlen (nksPubkey s) then [nksPubkey s] else [] in
  if negb (bool_decide (nksKind s = SigRotation)) then (mine, Some s)
  else match nksNested s with
  | None => (mine, None)
  | Some n => let '(ks, i) := chainKeys n in (mine ++ ks, i)
  end.
Definition maxPrevKeys : nat := 15.
Definition maybeTrimRotationSignatureChain (sig : NodeKeySignature) (priv : bytes) : NodeKeySignature :=
  if negb (bool_decide (nksKind sig = SigRotation)) then sig
  else
    let '(ks, nested) := match nksNested sig with None => ([], None) | Some n => chainKeys n end in
    let prevPubkeys := nksPubkey sig :: ks in
    if (length prevPubkeys <=? maxPrevKeys)%nat then sig
    else default sig (foldr (λ p result, Some (rotate priv p result)) nested (take (maxPrevKeys - 1) prevPubkeys)).

Definition ResignNKS (priv : bytes) (nodeKey : Z) (oldNKS : bytes) : tres bytes :=
  match uncborNKS oldNKS with
  | None => Err (tkaErrorf "decoding NKS")
  | Some oldSig =>
      if decide (marshalNode nodeKey = nksPubkey oldSig) then Ok oldNKS
      else Ok (cborNKS (rotate priv (marshalNode nodeKey) (Some (maybeTrimRotationSignatureChain oldSig priv))))
  end.

Definition SignByCredential (priv : bytes) (wrapped : NodeKeySignature) (nodeKey : Z) : tres bytes :=
  if negb (bool_decide (nksKind wrapped = SigCredential)) then Err (tkaErrorf "wrapped signature must be a credential")
  else Ok (cborNKS (rotate priv (marshalNode nodeKey) (Some wrapped))).
End tka.

Arguments marshalNode : simpl never.
Arguments unmarshalNode : simpl never.
Arguments hashArray : simpl never.
