(* ===== verification/TkaChain.v ===== *)
(** * The key authority of the tailnet lock: storage, chains and updates

    [tka/tka.go], the in-memory storage of [tka/tailchonk.go], [tka/builder.go] and
    [tka/sync.go].  The storage is passed along; what the code does after a failed write
    to a disk is left out with the disk. *)

From stdpp Require Import base gmap sets list strings.
From S2P Require Import Prelude GoStd Bytes Tka.

(** ** Sorting *)
Fixpoint bytesCompare (a b : bytes) : comparison :=
  match a, b with
  | [], [] => Eq
  | [], _ => Lt
  | _, [] => Gt
  | x :: a, y :: b => match x ?= y with Eq => bytesCompare a b | c => c end
  end.
Fixpoint insertLess {A} (less : A → A → bool) (x : A) (l : list A) : list A :=
  match l with
  | [] => [x]
  | y :: l => if less y x then y :: insertLess less x l else x :: y :: l
  end.
(** [sort.Slice], for a strict total order. *)
Definition sortLess {A} (less : A → A → bool) (l : list A) : list A := foldr (insertLess less) [] l.

Section chain.
Context `{TkaCrypto}.

(** ** Storage in memory *)
Record Mem := mkMem {
  aums : gmap bytes AUM;
  commitTimes : gmap bytes Z;
  parentIndex : gmap bytes (list bytes);
  lastActiveAncestor : option bytes
}.
Definition ChonkMem : Mem := mkMem ∅ ∅ ∅ None.
Definition zeroAUM : AUM := mkAUM AUMInvalid None None None None None None [].

Definition childHashes (c : Mem) (p : bytes) : list bytes := default [] (parentIndex c !! p).
Definition memAUM (c : Mem) (h : bytes) : tres AUM := of_option ErrNotExist (aums c !! h).
Definition ChildAUMs (c : Mem) (p : bytes) : list AUM := (λ h, default zeroAUM (aums c !! h)) <$> childHashes c p.
(** The order of a Go map; every caller sorts or counts. *)
Definition Heads (c : Mem) : list AUM := filter (λ a, childHashes c (Hash a) = []) (map_to_list (aums c)).*2.
Definition SetLastActiveAncestor (h : bytes) (c : Mem) : Mem := mkMem (aums c) (commitTimes c) (parentIndex c) (Some h).

Definition commitOne (now : Z) (c : Mem) (a : AUM) : Mem :=
  let h := Hash a in
  let index :=
    match Parent a with
    | None => parentIndex c
    | Some p => if decide (h ∈ childHashes c p) then parentIndex c else <[p := childHashes c p ++ [h]]> (parentIndex c)
    end in
  mkMem (<[h := a]> (aums c)) (<[h := now]> (commitTimes c)) index (lastActiveAncestor c).
Definition CommitVerifiedAUMs (now : Z) (updates : list AUM) (c : Mem) : Mem := foldl (commitOne now) c updates.

Definition purgeOne (c : Mem) (h : bytes) : Mem :=
  let index :=
    match aums c !! h ≫= Parent with
    | None => parentIndex c
    | Some p =>
        let l := filter (λ o, h ≠ o) (childHashes c p) in
        if decide (l = []) then delete p (parentIndex c) else <[p := l]> (parentIndex c)
    end in
  mkMem (delete h (aums c)) (delete h (commitTimes c)) index (lastActiveAncestor c).
Definition PurgeAUMs (hashes : list bytes) (c : Mem) : Mem := foldl purgeOne c hashes.
Definition RemoveAll (c : Mem) : Mem := mkMem ∅ ∅ ∅ None.

(** ** Chains *)
Record chain := mkChain { chOldest : AUM; chHead : AUM; chState : State; chainsThroughActive : bool }.

(** One candidate in one round of [computeChainCandidates]: whether it moved. *)
Definition stepCandidate (c : Mem) (lastKnownOldest : option bytes) (ch : chain) : tres (chain * bool) :=
  match Parent (chOldest ch) with
  | None => Ok (ch, false)
  | Some p =>
      match memAUM c p with
      | Err ErrNotExist => Ok (ch, false)
      | Err _ => Err (tkaErrorf "reading parent")
      | Panic => Panic
      | Ok parent =>
          Ok (mkChain parent (chHead ch) (chState ch) (chainsThroughActive ch || bool_decide (lastKnownOldest = Some (Hash parent))), true)
      end
  end.
Fixpoint stepCandidates (c : Mem) (last : option bytes) (l : list chain) : tres (list chain * bool) :=
  match l with
  | [] => Ok ([], false)
  | ch :: l =>
      '(ch, moved) ← stepCandidate c last ch;
      '(l, again) ← stepCandidates c last l;
      Ok (ch :: l, (moved : bool) || again)
  end.
Fixpoint backLoop (fuel : nat) (c : Mem) (last : option bytes) (l : list chain) : tres (list chain) :=
  match fuel with
  | O => Err (tkaErrorf "iteration limit exceeded")
  | S fuel => '(l, again) ← stepCandidates c last l; if again : bool then backLoop fuel c last l else Ok l
  end.
Definition computeChainCandidates (c : Mem) (lastKnownOldest : option bytes) (maxIter : nat) : tres (list chain) :=
  backLoop maxIter c lastKnownOldest
    (sortLess (λ x y, match bytesCompare (Hash (chOldest x)) (Hash (chOldest y)) with Lt => true | _ => false end)
       ((λ a, mkChain a a zeroTkaState false) <$> Heads c)).

(** The rules for forks: weight, removals first, lowest hash. *)
Definition preferred (x y : Z * AUM) : bool :=
  let '(wx, a) := x in
  let '(wy, b) := y in
  if negb (wx =? wy) then wy <? wx
  else if negb (bool_decide (MessageKind a = MessageKind b)) && (bool_decide (MessageKind a = AUMRemoveKey) || bool_decide (MessageKind b = AUMRemoveKey))
  then bool_decide (MessageKind a = AUMRemoveKey)
  else match bytesCompare (Hash b) (Hash a) with Gt => true | _ => false end.
Fixpoint weighAll (s : State) (l : list AUM) : tres (list (Z * AUM)) :=
  match l with
  | [] => Ok []
  | a :: l => w ← Weight a s; ws ← weighAll s l; Ok ((w, a) :: ws)
  end.
Definition pickNextAUM (s : State) (candidates : list AUM) : tres AUM :=
  match candidates with
  | [] => Panic
  | [a] => Ok a
  | _ =>
      ws ← weighAll s candidates;
      match sortLess preferred ws with [] => Panic | (_, a) :: _ => Ok a end
  end.

Definition advanceByPrimary (s : State) (candidates : list AUM) : tres (option (AUM * State)) :=
  match candidates with
  | [] => Ok None
  | _ =>
      a ← pickNextAUM s candidates;
      s' ← wrapErr "advancing state" (applyVerifiedAUM s a);
      Ok (Some (a, s'))
  end.

(** [visited] are the messages that [done] was asked about. *)
Fixpoint ffLoop (fuel : nat) (c : Mem) (advancer : State → list AUM → tres (option (AUM * State))) (done : AUM → State → bool)
    (curs : AUM) (state : State) (visited : list AUM) : tres (AUM * State * list AUM) :=
  match fuel with
  | O => Err (tkaErrorf "iteration limit exceeded")
  | S fuel =>
      let visited := visited ++ [curs] in
      if done curs state then Ok (curs, state, visited)
      else
        next ← wrapErr "advance" (advancer state (ChildAUMs c (Hash curs)));
        match next with
        | None => Ok (curs, state, visited)
        | Some (a, s') => ffLoop fuel c advancer done a s' visited
        end
  end.
Definition fastForwardWithAdvancer (c : Mem) (maxIter : nat) (startState : State)
    (advancer : State → list AUM → tres (option (AUM * State))) (done : AUM → State → bool) : tres (AUM * State * list AUM) :=
  match LastAUMHash startState with
  | None => Err (tkaErrorf "invalid initial state")
  | Some h => a ← wrapErr "reading next" (memAUM c h); ffLoop maxIter c advancer done a startState []
  end.
Definition fastForward (c : Mem) (maxIter : nat) (startState : State) (done : AUM → State → bool) : tres (AUM * State * list AUM) :=
  fastForwardWithAdvancer c maxIter startState advanceByPrimary done.
Definition noDone (_ : AUM) (_ : State) : bool := false.

(** The way back to a checkpoint or to the genesis, with its state and the path. *)
Fixpoint findStart (fuel : nat) (c : Mem) (curs : AUM) (path : gset bytes) : tres (State * gset bytes) :=
  match fuel with
  | O => Err (tkaErrorf "iteration limit exceeded")
  | S fuel =>
      let path := {[Hash curs]} ∪ path in
      if decide (MessageKind curs = AUMCheckpoint) then
        match aState curs with None => Panic | Some st => Ok (cloneForUpdate st curs, path) end
      else match Parent curs with
      | None =>
          match MessageKind curs with
          | AUMNoOp | AUMAddKey => s ← wrapErr "applying genesis" (applyVerifiedAUM zeroTkaState curs); Ok (s, path)
          | _ => Err (tkaErrorf "invalid genesis update")
          end
      | Some p => a ← wrapErr "reading parent" (memAUM c p); findStart fuel c a path
      end
  end.
Fixpoint advanceOnPath (path : gset bytes) (s : State) (candidates : list AUM) : tres (option (AUM * State)) :=
  match candidates with
  | [] => Err (tkaErrorf "no candidate matching path")
  | a :: l =>
      if decide (Hash a ∈ path) then s' ← wrapErr "advancing state" (applyVerifiedAUM s a); Ok (Some (a, s'))
      else advanceOnPath path s l
  end.
Definition computeStateAt (c : Mem) (maxIter : nat) (wantHash : bytes) : tres State :=
  topAUM ← memAUM c wantHash;
  '(start, path) ← findStart (S maxIter) c topAUM ∅;
  '(_, state, _) ← fastForwardWithAdvancer c maxIter start (advanceOnPath path) (λ curs _, bool_decide (Hash curs = wantHash));
  match LastAUMHash state with
  | None => Panic
  | Some h => if decide (h = wantHash) then Ok state else Err (tkaErrorf "unexpected fastForward outcome")
  end.

Definition computeActiveAncestor (chains : list chain) : tres bytes :=
  let ancestors := foldl (λ m c, <[Hash (chOldest c) := chainsThroughActive c]> m) (∅ : gmap bytes bool) chains in
  match map_to_list ancestors with
  | [(h, _)] => Ok h
  | l => match filter (λ p, p.2 = true) l with
         | (h, _) :: _ => Ok h
         | [] => Err (tkaErrorf "multiple distinct chains")
         end
  end.

Definition computeActiveChain (c : Mem) (lastKnownOldest : option bytes) (maxIter : nat) : tres chain :=
  chains ← wrapErr "computing candidates" (computeChainCandidates c lastKnownOldest maxIter);
  match chains with
  | [] => Err (tkaErrorf "no chain candidates in AUM storage")
  | _ =>
      oldestHash ← wrapErr "computing ancestor" (computeActiveAncestor chains);
      ancestor ← memAUM c oldestHash;
      state ← wrapErr "bootstrapping state" (computeStateAt c maxIter oldestHash);
      '(head, state, _) ← wrapErr "fast forward" (fastForward c maxIter state noDone);
      Ok (mkChain ancestor head state false)
  end.

(** ** The authority *)
Record Authority := mkAuthority { auHead : AUM; oldestAncestor : AUM; auState : State }.
Definition maxScanIterations : nat := 2000.

Definition Head (a : Authority) : tres bytes := match LastAUMHash (auState a) with Some h => Ok h | None => Panic end.
Definition ofChain (ch : chain) : Authority := mkAuthority (chHead ch) (chOldest ch) (chState ch).
Definition Open (c : Mem) : tres Authority :=
  ch ← wrapErr "active chain" (computeActiveChain c (lastActiveAncestor c) maxScanIterations); Ok (ofChain ch).

Definition Bootstrap (now : Z) (c : Mem) (bootstrap : AUM) : Mem * tres Authority :=
  if negb (zlen (Heads c) =? 0) then (c, Err (tkaErrorf "tailchonk is not empty"))
  else if negb (bool_decide (MessageKind bootstrap = AUMCheckpoint)) then (c, Err (tkaErrorf "bootstrap AUMs must be checkpoint messages"))
  else match aState bootstrap with
  | None => (c, Err (tkaErrorf "bootstrap AUM is missing state"))
  | Some st =>
      match aumVerify bootstrap st true with
      | Ok _ => let c := SetLastActiveAncestor (Hash bootstrap) (CommitVerifiedAUMs now [bootstrap] c) in (c, Open c)
      | Err _ => (c, Err (tkaErrorf "invalid bootstrap"))
      | Panic => (c, Panic)
      end
  end.
(** [signer] signs the hash of an update. *)
Definition Create (now : Z) (c : Mem) (state : State) (signer : bytes → tres (list Signature)) : Mem * tres (Authority * AUM) :=
  let genesis := mkAUM AUMCheckpoint None None None (Some state) None None [] in
  match StaticValidate genesis with
  | Err _ => (c, Err (tkaErrorf "invalid state"))
  | Panic => (c, Panic)
  | Ok _ =>
      match signer (aumSigHash genesis) with
      | Err _ => (c, Err (tkaErrorf "signing failed"))
      | Panic => (c, Panic)
      | Ok sigs =>
          let genesis := withSignatures sigs genesis in
          let '(c, r) := Bootstrap now c genesis in
          (c, a ← r; Ok (a, genesis))
      end
  end.
Definition ValidDisablement (a : Authority) (secret : bytes) : bool := checkDisablement (auState a) secret.

(** The loop of [InformIdempotent]. *)
Record InformSt := mkInform { stateAt : gmap bytes State; toCommit : list AUM; prevHash : bytes; isHeadChain : bool }.
Definition informOne (c : Mem) (x : InformSt) (update : AUM) : tres InformSt :=
  let hash := Hash update in
  match memAUM c hash with
  | Ok _ => Ok (mkInform (stateAt x) (toCommit x) (prevHash x) false)
  | _ =>
      match Parent update with
      | None => Err (tkaErrorf "update: missing parent")
      | Some parent =>
          state ← match stateAt x !! parent with
                  | Some s => Ok s
                  | None => wrapErr "update computing state" (computeStateAt c maxScanIterations parent)
                  end;
          _ ← wrapErr "update invalid" (aumVerify update state false);
          state' ← wrapErr "update cannot be applied" (applyVerifiedAUM state update);
          Ok (mkInform (<[hash := state']> (<[parent := state]> (stateAt x))) (toCommit x ++ [update]) hash
                (isHeadChain x && bool_decide (parent = prevHash x)))
      end
  end.
Fixpoint informLoop (c : Mem) (x : InformSt) (updates : list AUM) : tres InformSt :=
  match updates with
  | [] => Ok x
  | u :: l => x ← informOne c x u; informLoop c x l
  end.
Definition InformIdempotent (now : Z) (c : Mem) (a : Authority) (updates : list AUM) : Mem * tres Authority :=
  match last updates, Head a with
  | None, _ => (c, Err (tkaErrorf "inform called with empty slice"))
  | _, Err e => (c, Err e)
  | _, Panic => (c, Panic)
  | Some lastUpdate, Ok head =>
      match informLoop c (mkInform {[head := auState a]} [] head true) updates with
      | Err e => (c, Err e)
      | Panic => (c, Panic)
      | Ok x =>
          let c := CommitVerifiedAUMs now (toCommit x) c in
          if isHeadChain x then (c, Ok (mkAuthority lastUpdate (oldestAncestor a) (default zeroTkaState (stateAt x !! prevHash x))))
          else (c, ch ← wrapErr "recomputing active chain" (computeActiveChain c (Some (Hash (oldestAncestor a))) maxScanIterations);
                   Ok (ofChain ch))
      end
  end.
Definition Inform (now : Z) (c : Mem) (a : Authority) (updates : list AUM) : Mem * Authority * tres () :=
  let '(c, r) := InformIdempotent now c a updates in
  match r with Ok a => (c, a, Ok ()) | Err e => (c, a, Err e) | Panic => (c, a, Panic) end.

(** ** Node keys *)
Definition NodeKeyAuthorizedWithDetails (a : Authority) (nodeKey : Z) (nodeKeySignature : bytes) : tres (option RotationDetails) :=
  match uncborNKS nodeKeySignature with
  | None => Err (tkaErrorf "unserialize")
  | Some decoded =>
      if decide (nksKind decoded = SigCredential) then Err (tkaErrorf "credential signatures cannot authorize nodes on their own")
      else
        kID ← authorizingKeyID decoded;
        k ← wrapErr "key" (GetKey (auState a) kID);
        _ ← verifySignature decoded nodeKey k;
        rotationDetails decoded
  end.
Definition NodeKeyAuthorized (a : Authority) (nodeKey : Z) (nodeKeySignature : bytes) : tres () :=
  _ ← NodeKeyAuthorizedWithDetails a nodeKey nodeKeySignature; Ok ().
Definition KeyTrusted (a : Authority) (id : bytes) : bool := is_ok (GetKey (auState a) id).

(** ** Making updates *)
Record UpdateBuilder := mkBuilder { ubAuthority : Authority; ubState : State; ubParent : bytes; ubOut : list AUM }.
Definition NewUpdater (a : Authority) : tres UpdateBuilder := h ← Head a; Ok (mkBuilder a (auState a) h []).

Section builder.
Context (signer : option (bytes → tres (list Signature))).

Definition mkUpdate (update : AUM) (b : UpdateBuilder) : tres UpdateBuilder :=
  let update := mkAUM (MessageKind update) (Some (ubParent b)) (aKey update) (aKeyID update) (aState update) (aVotes update) (aMeta update) (Signatures update) in
  update ← match signer with
           | None => Ok update
           | Some sign => sigs ← wrapErr "signing failed" (sign (aumSigHash update)); Ok (withSignatures (Signatures update ++ sigs) update)
           end;
  _ ← wrapErr "generated update was invalid" (StaticValidate update);
  state ← wrapErr "update cannot be applied" (applyVerifiedAUM (ubState b) update);
  Ok (mkBuilder (ubAuthority b) state (Hash update) (ubOut b ++ [update])).
Definition AddKey (k : Key) (b : UpdateBuilder) : tres UpdateBuilder :=
  kid ← keyID k;
  if is_ok (GetKey (ubState b) kid) then Err (tkaErrorf "cannot add key: already exists")
  else if maxKeys <=? zlen (Keys (ubState b)) then Err (tkaErrorf "cannot add key: maximum number of keys reached")
  else mkUpdate (mkAUM AUMAddKey None (Some k) None None None None []) b.
Definition RemoveKey (id : bytes) (b : UpdateBuilder) : tres UpdateBuilder :=
  _ ← wrapErr "failed reading key" (GetKey (ubState b) id);
  mkUpdate (mkAUM AUMRemoveKey None None (Some id) None None None []) b.
Definition SetKeyVote (id : bytes) (votes : Z) (b : UpdateBuilder) : tres UpdateBuilder :=
  _ ← wrapErr "failed reading key" (GetKey (ubState b) id);
  mkUpdate (mkAUM AUMUpdateKey None None (Some id) None (Some votes) None []) b.
Definition SetKeyMeta (id : bytes) (meta : option (gmap string string)) (b : UpdateBuilder) : tres UpdateBuilder :=
  _ ← wrapErr "failed reading key" (GetKey (ubState b) id);
  mkUpdate (mkAUM AUMUpdateKey None None (Some id) None None meta []) b.

Fixpoint applyAll (s : State) (l : list AUM) : tres State :=
  match l with
  | [] => Ok s
  | u :: l => s ← wrapErr "applying update" (applyVerifiedAUM s u); applyAll s l
  end.
Definition generateCheckpoint (b : UpdateBuilder) : tres UpdateBuilder :=
  s ← applyAll (auState (ubAuthority b)) (ubOut b);
  mkUpdate (mkAUM AUMCheckpoint None None None (Some (mkState None (DisablementValues s) (Keys s) (StateID1 s) (StateID2 s))) None None []) b.

Definition checkpointEvery : nat := 50.
(** Whether the chain since the last checkpoint is long. *)
Fixpoint needCheckpoint (fuel : nat) (c : Mem) (cursor : bytes) : tres bool :=
  match fuel with
  | O => Ok true
  | S fuel =>
      match memAUM c cursor with
      | Err ErrNotExist => Ok false
      | Err _ => Err (tkaErrorf "reading AUM")
      | Panic => Panic
      | Ok a =>
          if decide (MessageKind a = AUMCheckpoint) then Ok false
          else match Parent a with None => Ok false | Some p => needCheckpoint fuel c p end
      end
  end.
Definition Finalize (c : Mem) (b : UpdateBuilder) : tres (list AUM) :=
  head ← Head (ubAuthority b);
  need ← needCheckpoint (checkpointEvery - length (ubOut b)) c head;
  b ← (if need : bool then wrapErr "generating checkpoint" (generateCheckpoint b) else Ok b);
  match ubOut b with
  | [] => Ok []
  | u :: _ => if decide (default (replicate 32 0) (Parent u) = head) then Ok (ubOut b) else Err (tkaErrorf "updates no longer apply to head")
  end.
End builder.

(** ** Synchronization *)
Record SyncOffer := mkOffer { soHead : bytes; soAncestors : list bytes }.
Definition maxSyncIter : nat := 2000.
Definition maxSyncHeadIntersectionIter : nat := 400.

(** The loop of [Authority.SyncOffer]: [i] rounds were made. *)
Fixpoint offerLoop (fuel : nat) (i skip : Z) (c : Mem) (oldest curs : bytes) (acc : list bytes) : tres (list bytes) :=
  match fuel with
  | O => Ok acc
  | S fuel =>
      let hit := (0 <? i) && (i mod skip =? 0) in
      let acc := if hit then acc ++ [curs] else acc in
      let skip := if hit then u64 (Z.shiftl skip 2) else skip in
      match memAUM c curs with
      | Err ErrNotExist => Ok acc
      | Err e => Err e
      | Panic => Panic
      | Ok a => if decide (Hash a = oldest) then Ok acc
                else offerLoop fuel (i + 1) skip c oldest
                       (let p := default [] (PrevAUMHash a) in take 32 p ++ drop (length (take 32 p)) curs) acc
      end
  end.
Definition syncOffer (a : Authority) (c : Mem) : tres SyncOffer :=
  head ← Head a;
  let oldest := Hash (oldestAncestor a) in
  l ← offerLoop maxSyncHeadIntersectionIter 0 4 c oldest head [];
  Ok (mkOffer head (l ++ [oldest])).

Inductive intersection : Type := upToDate | headIntersection (h : bytes) | tailIntersection (h : bytes).
Fixpoint headLoop (fuel : nat) (c : Mem) (remoteHead curs : bytes) : tres bool :=
  match fuel with
  | O => Ok false
  | S fuel =>
      match memAUM c curs with
      | Err ErrNotExist => Ok false
      | Err e => Err e
      | Panic => Panic
      | Ok a => if decide (Hash a = remoteHead) then Ok true
                else headLoop fuel c remoteHead (let p := default [] (PrevAUMHash a) in take 32 p ++ drop (length (take 32 p)) curs)
      end
  end.
Fixpoint tailLoop (c : Mem) (localHead : bytes) (l : list bytes) : tres intersection :=
  match l with
  | [] => Err ErrNoIntersection
  | a :: l =>
      match computeStateAt c maxSyncIter a with
      | Err ErrNotExist => tailLoop c localHead l
      | Err _ => Err (tkaErrorf "computeStateAt")
      | Panic => Panic
      | Ok s =>
          '(e, _, _) ← fastForward c maxSyncIter s (λ curs _, bool_decide (Hash curs = localHead));
          if decide (Hash e = localHead) then Ok (tailIntersection a) else tailLoop c localHead l
      end
  end.
Definition computeSyncIntersection (c : Mem) (localOffer remoteOffer : SyncOffer) : tres intersection :=
  if decide (soHead remoteOffer = soHead localOffer) then Ok upToDate
  else
    found ← match memAUM c (soHead remoteOffer) with
            | Err ErrNotExist => Ok false
            | Err e => Err e
            | Panic => Panic
            | Ok _ => headLoop maxSyncHeadIntersectionIter c (soHead remoteOffer) (soHead localOffer)
            end;
    if found : bool then Ok (headIntersection (soHead remoteOffer))
    else tailLoop c (soHead localOffer) (soAncestors remoteOffer).
Definition MissingAUMs (a : Authority) (c : Mem) (remoteOffer : SyncOffer) : tres (list AUM) :=
  localOffer ← wrapErr "local syncOffer" (syncOffer a c);
  i ← wrapErr "intersection" (computeSyncIntersection c localOffer remoteOffer);
  match i with
  | upToDate => Ok []
  | headIntersection h | tailIntersection h =>
      s ← computeStateAt c maxSyncIter h;
      '(_, _, visited) ← fastForward c maxSyncIter s noDone;
      Ok (filter (λ a, Hash a ≠ h) visited)
  end.
End chain.
