(* ===== verification/TkaText.v ===== *)
(** * The text forms of update hashes

    [AUMHash.MarshalText] and [UnmarshalText] of [tka/aum.go], over [encoding/base32]
    with the standard alphabet and no padding, and the text forms of offers in
    [tka/sync.go].  Texts come out of JSON: no byte of them is 255. *)

From stdpp Require Import base gmap sets list strings.
From S2P Require Import Prelude GoStd Bytes Tka TkaChain.

(** ** Base 32 *)
Definition symbol (d : Z) : Z := if d <? 26 then 65 + d else 24 + d.
Definition unsymbol (x : Z) : option Z :=
  if (65 <=? x) && (x <=? 90) then Some (x - 65) else if (50 <=? x) && (x <=? 55) then Some (x - 24) else None.

Fixpoint digits32 (n : nat) (v : Z) : list Z := match n with O => [] | S n => digits32 n (v / 32) ++ [v mod 32] end.
Definition val32 (l : list Z) : Z := foldl (λ a d, a * 32 + d) 0 l.
(** How many symbols a quantum of up to 5 bytes has, and how many bytes one of up to 8
    symbols; a rest of 1, 3 or 6 symbols gives nothing. *)
Definition symbolsOf (bytes : nat) : nat := (match bytes with 0 => 0 | 1 => 2 | 2 => 4 | 3 => 5 | 4 => 7 | _ => 8 end)%nat.
Definition bytesOf (symbols : nat) : nat := (match symbols with 8 => 5 | 7 => 4 | 5 => 3 | 4 => 2 | 2 => 1 | _ => 0 end)%nat.
Definition encodeQuantum (b : bytes) : list Z := take (symbolsOf (length b)) (digits32 8 (be_val 0 (b ++ replicate (5 - length b) 0))).
Definition decodeQuantum (l : list Z) : bytes := take (bytesOf (length l)) (be_bytes 5 (val32 (l ++ replicate (8 - length l) 0))).
Fixpoint encode32 (b : bytes) : list Z :=
  match b with
  | b0 :: b1 :: b2 :: b3 :: b4 :: rest => encodeQuantum [b0; b1; b2; b3; b4] ++ encode32 rest
  | _ => encodeQuantum b
  end.
Fixpoint decode32 (l : list Z) : bytes :=
  match l with
  | d0 :: d1 :: d2 :: d3 :: d4 :: d5 :: d6 :: d7 :: rest => decodeQuantum [d0; d1; d2; d3; d4; d5; d6; d7] ++ decode32 rest
  | _ => decodeQuantum l
  end.
Definition isNewline (x : Z) : bool := (x =? 10) || (x =? 13).
Definition DecodedLen (n : Z) : Z := n * 5 / 8.

(** ** Hashes *)
Definition MarshalText (h : bytes) : bytes := symbol <$> encode32 h.
(** The text is checked for its length with the line ends that the decoder skips. *)
Definition UnmarshalText (text : bytes) : tres bytes :=
  if negb (DecodedLen (zlen text) =? 32) then Err (tkaErrorf "tka.AUMHash.UnmarshalText: text wrong length")
  else match mapM unsymbol (filter (λ x, isNewline x = false) text) with
  | None => Err (tkaErrorf "tka.AUMHash.UnmarshalText")
  | Some l => Ok (hashArray (decode32 l))
  end.

(** ** Offers *)
Fixpoint unmarshalAll (l : list bytes) : tres (list bytes) :=
  match l with
  | [] => Ok []
  | a :: l => h ← wrapErr "ancestor.UnmarshalText" (UnmarshalText a); r ← unmarshalAll l; Ok (h :: r)
  end.
Definition ToSyncOffer (head : bytes) (ancestors : list bytes) : tres SyncOffer :=
  h ← wrapErr "head.UnmarshalText" (UnmarshalText head);
  l ← unmarshalAll ancestors;
  Ok (mkOffer h l).
Definition FromSyncOffer (offer : SyncOffer) : bytes * list bytes := (MarshalText (soHead offer), MarshalText <$> soAncestors offer).

(** ** Round trips *)
Lemma digits32_length n v : length (digits32 n v) = n.
Proof. revert v. induction n as [|n IH]; intros v; cbn; [done|]. rewrite length_app, IH. cbn. lia. Qed.
Lemma digits32_ok n v : Forall (λ d, 0 ≤ d < 32) (digits32 n v).
Proof. revert v. induction n as [|n IH]; intros v; cbn; [constructor|]. apply Forall_app. split; [apply IH|]. repeat constructor; apply Z.mod_pos_bound; lia. Qed.
Lemma digits32_take k m v : take k (digits32 (k + m) v) = digits32 k (v / 32 ^ Z.of_nat m).
Proof.
  revert v. induction m as [|m IH]; intros v.
  - rewrite Nat.add_0_r, Z.div_1_r, take_ge; [done|]. by rewrite digits32_length.
  - rewrite Nat.add_succ_r. cbn [digits32]. rewrite take_app_le by (rewrite digits32_length; lia). rewrite IH, Nat2Z.inj_succ, Z.pow_succ_r, Zdiv_Zdiv by lia. done.
Qed.
Lemma val32_app l d : val32 (l ++ [d]) = val32 l * 32 + d.
Proof. unfold val32. by rewrite foldl_app. Qed.
Lemma val32_zeros l m : val32 (l ++ replicate m 0) = val32 l * 32 ^ Z.of_nat m.
Proof.
  induction m as [|m IH]; [rewrite app_nil_r; lia|]. rewrite replicate_S_end, app_assoc, val32_app, IH, Nat2Z.inj_succ, Z.pow_succ_r by lia. lia.
Qed.
Lemma val32_digits n v : 0 ≤ v < 32 ^ Z.of_nat n → val32 (digits32 n v) = v.
Proof.
  revert v. induction n as [|n IH]; intros v Hv; cbn [digits32]; [cbn in *; lia|]. rewrite val32_app, IH.
  - pose proof (Z.div_mod v 32). lia.
  - rewrite Nat2Z.inj_succ, Z.pow_succ_r in Hv by lia. split; [apply Z.div_pos; lia|]. apply Z.div_lt_upper_bound; lia.
Qed.
(** The symbols of a quantum hold all its bits. *)
Lemma quantum_bits n : (n ≤ 5)%nat → bytesOf (symbolsOf n) = n ∧ (symbolsOf n ≤ 8)%nat ∧ ∃ j, (256 ^ Z.of_nat (5 - n) = j * 32 ^ Z.of_nat (8 - symbolsOf n))%Z.
Proof.
  intros Hn. destruct n as [|[|[|[|[|[|n]]]]]]; [..|lia]; (split_and!; [done|cbn; lia|]); [exists 1|exists 4|exists 16|exists 2|exists 8|exists 1]; done.
Qed.
Lemma quantum_roundtrip b : bytes_ok b → (length b ≤ 5)%nat → decodeQuantum (encodeQuantum b) = b.
Proof.
  intros Hb Hn. destruct (quantum_bits (length b) Hn) as (HB & HS & j & Hj). unfold decodeQuantum, encodeQuantum. set (pad := b ++ replicate (5 - length b) 0). set (v := be_val 0 pad).
  assert (length pad = 5)%nat as Hlen by (unfold pad; rewrite length_app, length_replicate; lia).
  assert (bytes_ok pad) as Hpad by (apply Forall_app; split; [done|]; apply Forall_replicate; unfold byte_ok; lia).
  assert (v = be_val 0 b * 256 ^ Z.of_nat (5 - length b)) as Hv.
  { unfold v, pad. rewrite be_val_app, be_val_acc. unfold zlen. rewrite length_replicate. assert (be_val 0 (replicate (5 - length b) 0) = 0) as ->; [|lia].
    generalize (5 - length b)%nat as m. induction m as [|m IH]; cbn; [done|exact IH]. }
  pose proof (be_val_bound pad Hpad) as Hbd. unfold zlen in Hbd. rewrite Hlen in Hbd. fold v in Hbd. change (256 ^ Z.of_nat 5) with (32 ^ Z.of_nat 8) in Hbd.
  remember (symbolsOf (length b)) as k eqn:Ek. replace 8%nat with (k + (8 - k))%nat at 2 4 by lia. rewrite digits32_take, digits32_length. replace (k + (8 - k) - k)%nat with (8 - k)%nat by lia.
  rewrite val32_zeros, val32_digits.
  - rewrite (Z.mul_comm _ (32 ^ _)), <- Z_div_exact_full_2; [|apply Z.pow_nonzero; lia|].
    + rewrite length_take, digits32_length, Nat.min_l, HB by done. replace 5%nat with (length pad) by done. unfold v. rewrite be_bytes_val by done. unfold pad. by rewrite take_app_length.
    + rewrite Hv, Hj, Z.mul_assoc. apply Z_mod_mult.
  - split; [apply Z.div_pos; [lia|]; apply Z.pow_pos_nonneg; lia|]. apply Z.div_lt_upper_bound; [apply Z.pow_pos_nonneg; lia|]. rewrite <- Z.pow_add_r by lia.
    replace (Z.of_nat (8 - k) + Z.of_nat k) with (Z.of_nat 8) by lia. lia.
Qed.
Lemma quantum_length b : (length b ≤ 5)%nat → length (encodeQuantum b) = symbolsOf (length b).
Proof. intros Hb. unfold encodeQuantum. rewrite length_take, digits32_length. destruct (quantum_bits _ Hb) as (_ & ? & _). lia. Qed.
Lemma encode_step b : (5 ≤ length b)%nat → encode32 b = encodeQuantum (take 5 b) ++ encode32 (drop 5 b).
Proof. intros Hb. do 5 (destruct b as [|? b]; [cbn in Hb; lia|]). done. Qed.
Lemma encode_short b : (length b < 5)%nat → encode32 b = encodeQuantum b.
Proof. intros Hb. do 5 (destruct b as [|? b]; [done|]). cbn in Hb. lia. Qed.
Lemma decode_step l r : length l = 8%nat → decode32 (l ++ r) = decodeQuantum l ++ decode32 r.
Proof. intros Hl. do 8 (destruct l as [|? l]; [done|]). by destruct l. Qed.
Lemma decode_short l : (length l < 8)%nat → decode32 l = decodeQuantum l.
Proof. intros Hl. do 8 (destruct l as [|? l]; [done|]). cbn in Hl. lia. Qed.

Lemma encode_roundtrip b : bytes_ok b → decode32 (encode32 b) = b ∧ (length (encode32 b) = 8 * (length b / 5) + symbolsOf (length b mod 5))%nat.
Proof.
  remember (length b) as n eqn:En. revert b En. induction (lt_wf n) as [n _ IH]. intros b -> Hb. destruct (decide (length b < 5)%nat) as [Hs|Hl].
  - rewrite encode_short by done. rewrite Nat.div_small, Nat.mod_small by done. rewrite quantum_length by lia. split; [|lia].
    rewrite decode_short; [apply quantum_roundtrip; [done|lia]|]. rewrite quantum_length by lia. destruct (length b) as [|[|[|[|[|?]]]]]; cbn; lia.
  - rewrite encode_step by lia. assert (length (take 5 b) = 5%nat) as H5 by (rewrite length_take; lia).
    destruct (IH (length (drop 5 b))) with (b := drop 5 b) as [HR HL]; [rewrite length_drop; lia|done|by apply Forall_drop|].
    rewrite decode_step by (by rewrite quantum_length, H5 by lia). rewrite quantum_roundtrip, HR, take_drop by (try (apply Forall_take; done); lia). split; [done|].
    rewrite length_app, HL, quantum_length, H5 by lia. rewrite length_drop. replace (length b) with (length b - 5 + 1 * 5)%nat at 3 4 by lia.
    rewrite Nat.div_add, Nat.Div0.mod_add by lia. cbn [symbolsOf]. lia.
Qed.
Lemma symbol_back d : 0 ≤ d < 32 → unsymbol (symbol d) = Some d ∧ isNewline (symbol d) = false.
Proof.
  intros Hd. unfold unsymbol, symbol, isNewline. destruct (Z.ltb_spec d 26).
  - rewrite (proj2 (Z.leb_le 65 _)), (proj2 (Z.leb_le _ 90)) by lia. cbn. split; [f_equal; lia|]. rewrite !(proj2 (Z.eqb_neq _ _)) by lia. done.
  - rewrite (proj2 (Z.leb_gt 65 _)), (proj2 (Z.leb_le 50 _)), (proj2 (Z.leb_le _ 55)) by lia. cbn. split; [f_equal; lia|]. rewrite !(proj2 (Z.eqb_neq _ _)) by lia. done.
Qed.
Lemma encode_ok b : Forall (λ d, 0 ≤ d < 32) (encode32 b).
Proof.
  remember (length b) as n eqn:En. revert b En. induction (lt_wf n) as [n _ IH]. intros b ->. destruct (decide (length b < 5)%nat) as [Hs|Hl].
  - rewrite encode_short by done. apply Forall_take, digits32_ok.
  - rewrite encode_step by lia. apply Forall_app. split; [apply Forall_take, digits32_ok|]. eapply IH; [|done]. rewrite length_drop. lia.
Qed.
Lemma hash_text_roundtrip h : length h = 32%nat → bytes_ok h → UnmarshalText (MarshalText h) = Ok h.
Proof.
  intros Hl Hb. destruct (encode_roundtrip h Hb) as [HR HL]. rewrite Hl in HL. unfold UnmarshalText, MarshalText. unfold zlen. rewrite length_fmap, HL. cbn [Z.eqb negb].
  pose proof (encode_ok h) as HO. generalize dependent (encode32 h). intros l HR _ HO.
  assert (filter (λ x, isNewline x = false) (symbol <$> l) = symbol <$> l) as ->.
  { clear HR. induction HO as [|d l Hd _ IH]; [done|]. cbn [fmap list_fmap]. rewrite filter_cons, decide_True by by apply symbol_back. f_equal. exact IH. }
  assert (mapM unsymbol (symbol <$> l) = Some l) as ->.
  { apply mapM_Some, Forall2_fmap_l, Forall_Forall2_diag. eapply Forall_impl; [exact HO|]. intros d Hd. by apply symbol_back. }
  change (DecodedLen (Z.of_nat _)) with 32. cbn. rewrite HR. unfold hashArray. by rewrite take_app_le, take_ge by lia.
Qed.
Definition hash_ok (h : bytes) : Prop := length h = 32%nat ∧ bytes_ok h.
Lemma offer_roundtrip o : hash_ok (soHead o) → Forall hash_ok (soAncestors o) → let t := FromSyncOffer o in ToSyncOffer t.1 t.2 = Ok o.
Proof.
  intros [H1 H2] HA. unfold ToSyncOffer. cbn [FromSyncOffer fst snd]. rewrite hash_text_roundtrip by done. cbn [wrapErr mbind res_bind].
  assert (unmarshalAll (MarshalText <$> soAncestors o) = Ok (soAncestors o)) as ->; [|by destruct o].
  induction HA as [|h l [? ?] _ IH]; [done|]. cbn [fmap list_fmap unmarshalAll]. rewrite hash_text_roundtrip by done. cbn [wrapErr mbind res_bind]. cbn in IH. by rewrite IH.
Qed.
