(* ===== verification/TkaThms.v ===== *)
(** * Node keys are certified

    What the verification of a node key signature accepts: a chain of signatures that
    begins with a key of the state.  Signatures that a node renews itself stay valid, and
    the peers of a locked node are certified. *)

From stdpp Require Import base gmap sets list strings.
From S2P Require Import Prelude GoStd Bytes TailCfg MapSession NetMap NetMapThms MapThms MapSessionThms Tka TkaChain.

Lemma nks_ind (P : NodeKeySignature → Prop) : (∀ s, (∀ n, nksNested s = Some n → P n) → P s) → ∀ s, P s.
Proof. intros HP. fix IH 1. intros [k p i g [n|] w]; apply HP; cbn; [intros ? [= <-]; apply IH|intros ? [=]]. Qed.

Lemma unmarshal_marshal k : unmarshalNode (marshalNode k) = Ok (be_val 0 (be_bytes 32 k)).
Proof.
  unfold unmarshalNode, marshalNode. rewrite take_app_length' by done. rewrite bool_decide_true by done. cbn [negb].
  rewrite zlen_app. unfold zlen at 2. rewrite be_bytes_length. by rewrite drop_app_length' by done.
Qed.
Lemma marshal_val k : marshalNode (be_val 0 (be_bytes 32 k)) = marshalNode k.
Proof. unfold marshalNode. f_equal. rewrite <- (be_bytes_length 32 k) at 1. apply be_bytes_val, be_bytes_ok. Qed.

Section certified.
Context `{TkaCrypto}.

(** The signature [s] is made with the key [k] of the authority, or with the wrapping key
    of the signature inside it, which is certified itself. *)
Inductive Certified (k : Key) : NodeKeySignature → Prop :=
  | certified_root s :
      (nksKind s = SigDirect ∨ nksKind s = SigCredential) → nksNested s = None →
      kKind k = Key25519 → zlen (kPublic k) = 32 → ed25519Consensus (kPublic k) (NKSHash s) (nksSignature s) = true →
      Certified k s
  | certified_rotation s n pub :
      nksKind s = SigRotation → nksNested s = Some n →
      wrappingPublic n = Some pub → zlen pub = 32 → ed25519Verify pub (NKSHash s) (nksSignature s) = true →
      (nksKind n ≠ SigCredential → ∃ nk, nksPubkey n = marshalNode nk) →
      Certified k n → Certified k s.

Lemma wrapErr_ok {A} msg (r : tres A) a : wrapErr msg r = Ok a ↔ r = Ok a.
Proof. destruct r; cbn; naive_solver. Qed.

Lemma verify_certified k s nk :
  verifySignature s nk k = Ok () ↔ (nksKind s ≠ SigCredential → nksPubkey s = marshalNode nk) ∧ Certified k s.
Proof.
  revert nk. induction s as [s IH] using nks_ind. intros nk. split.
  - intros HV. destruct s as [kind pub id sg nested w]. cbn in HV.
    destruct (negb (bool_decide (kind = SigCredential)) && negb (bool_decide (marshalNode nk = pub))) eqn:Ekey; [done|].
    assert (kind ≠ SigCredential → pub = marshalNode nk) as Hk.
    { intros Hne. rewrite (bool_decide_false _ Hne) in Ekey. cbn in Ekey. by apply negb_false_iff, bool_decide_eq_true in Ekey. }
    split; [done|]. clear Ekey. destruct kind; try done.
    + destruct nested; [done|]. destruct (kKind k) eqn:EK; try done. destruct (Z.eqb_spec (zlen (kPublic k)) 32); [|done]. cbn in HV.
      destruct (ed25519Consensus _ _ _) eqn:ES; [|done]. apply certified_root; auto.
    + destruct nested as [n|]; [|done]. destruct (wrappingPublic n) as [vp|] eqn:EW; [|done].
      destruct (Z.eqb_spec (zlen vp) 32); [|done]. cbn in HV. destruct (ed25519Verify _ _ _) eqn:ES; [|done]. cbn in HV.
      apply bind_ok in HV as (np & Hnp & HV). apply wrapErr_ok, (IH n eq_refl) in HV as [Hpub HC].
      eapply certified_rotation; eauto.
    + destruct nested; [done|]. destruct (kKind k) eqn:EK; try done. destruct (Z.eqb_spec (zlen (kPublic k)) 32); [|done]. cbn in HV.
      destruct (ed25519Consensus _ _ _) eqn:ES; [|done]. apply certified_root; auto.
  - intros [Hk HC]. destruct s as [kind pub id sg nested w]. cbn in Hk.
    assert (negb (bool_decide (kind = SigCredential)) && negb (bool_decide (marshalNode nk = pub)) = false) as E.
    { destruct (decide (kind = SigCredential)) as [->|Hne]; [done|]. rewrite (bool_decide_true (marshalNode nk = pub)); [apply andb_false_r|].
      symmetry. auto. }
    inversion HC as [? Hkind Hn HK HL HS|? n vp Hkind Hn HW HL HS Hp HCn]; subst; cbn in *.
    + rewrite E. subst nested. rewrite HK, HL, HS. by destruct Hkind as [-> | ->].
    + rewrite E. subst kind nested. rewrite HW, HL, HS. cbn. destruct (decide (nksKind n = SigCredential)) as [Hc|Hc].
      * cbn. apply wrapErr_ok, (IH n eq_refl). done.
      * destruct (Hp Hc) as [nk' Hnk']. rewrite Hnk', unmarshal_marshal. cbn [wrapErr mbind res_bind]. apply wrapErr_ok, (IH n eq_refl).
        rewrite marshal_val. done.
Qed.

(** The innermost signature. *)
Fixpoint chainRoot (s : NodeKeySignature) : NodeKeySignature := match nksNested s with Some n => chainRoot n | None => s end.
Lemma chainRoot_nested s n : nksNested s = Some n → chainRoot s = chainRoot n.
Proof. destruct s. cbn. by intros ->. Qed.
Lemma chainRoot_none s : nksNested s = None → chainRoot s = s.
Proof. destruct s. cbn. by intros ->. Qed.

Lemma certified_keyID k s : Certified k s →
  authorizingKeyID s = if zlen (nksKeyID (chainRoot s)) =? 0 then Err (tkaErrorf "invalid signature: no keyID present") else Ok (nksKeyID (chainRoot s)).
Proof.
  induction 1 as [s Hk Hn HK HL HS|s n pub Hk Hn HW HL HS Hp HC IH].
  - rewrite chainRoot_none by done. destruct s; cbn in *. by destruct Hk as [-> | ->].
  - rewrite (chainRoot_nested s n), <- IH by done. destruct s; cbn in *. subst. done.
Qed.
Lemma getKey_id l id k : getKey l id = Ok k → k ∈ l ∧ kPublic k = id.
Proof.
  induction l as [|k0 l IH]; [done|]. cbn. unfold keyID. destruct (kKind k0); try done. cbn. case_decide as E.
  - intros [= ->]. split; [by left|done].
  - intros [? ?]%IH. split; [by right|done].
Qed.

(** The last signature of a chain has no node key, or a proper one. *)
Definition rootKeyOk (s : NodeKeySignature) : Prop := nksPubkey s = [] ∨ is_ok (unmarshalNode (nksPubkey s)) = true.
Lemma rotationLoop_ok k s acc : Certified k s → (nksKind s ≠ SigCredential → ∃ nk, nksPubkey s = marshalNode nk) →
  is_ok (rotationLoop s acc) = true ↔ rootKeyOk (chainRoot s).
Proof.
  intros HC. revert acc. induction HC as [s Hk Hn HK HL HS|s n pub Hk Hn HW HL HS Hp HC IH]; intros acc Hm.
  - rewrite chainRoot_none by done. destruct s as [kind pub id sg nested w]. cbn in *. subst nested. unfold rootKeyOk. cbn.
    assert (negb (bool_decide (kind = SigRotation)) = true) as -> by (destruct Hk as [-> | ->]; done).
    destruct pub as [|b pub]; [cbn; naive_solver|]. rewrite zlen_cons. pose proof (zlen_nonneg pub).
    rewrite (proj2 (Z.ltb_lt 0 (1 + zlen pub))) by lia. destruct (unmarshalNode (b :: pub)); cbn; naive_solver.
  - rewrite (chainRoot_nested s n) by done. destruct (Hm ltac:(congruence)) as [nk Hnk].
    destruct s as [kind spub id sg nested w]. cbn in *. subst. rewrite unmarshal_marshal. cbn. apply IH. done.
Qed.

Lemma certified_len k s : Certified k s → zlen (kPublic k) = 32.
Proof. by induction 1. Qed.
Lemma details_iff k s nk : Certified k s → nksKind s ≠ SigCredential → nksPubkey s = marshalNode nk →
  is_ok (rotationDetails s) = true ↔ rootKeyOk (chainRoot s).
Proof.
  intros HC Hc Hp. unfold rotationDetails. inversion HC as [? Hk Hn HK HL HS|? n pub Hk Hn HW HL HS Hpn HCn]; subst.
  - rewrite bool_decide_false by (destruct Hk; congruence). cbn. rewrite chainRoot_none by done. unfold rootKeyOk.
    rewrite Hp, unmarshal_marshal. cbn. naive_solver.
  - rewrite bool_decide_true, Hn by done. cbn. rewrite (chainRoot_nested s n), <- (rotationLoop_ok k n []) by done.
    by destruct (rotationLoop n []) as [[]| |].
Qed.

Lemma node_key_authorized_spec a nodeKey sig :
  NodeKeyAuthorized a nodeKey sig = Ok () ↔
  ∃ s k, uncborNKS sig = Some s ∧ nksKind s ≠ SigCredential ∧ nksPubkey s = marshalNode nodeKey ∧
    GetKey (auState a) (nksKeyID (chainRoot s)) = Ok k ∧ Certified k s ∧ rootKeyOk (chainRoot s).
Proof.
  unfold NodeKeyAuthorized, NodeKeyAuthorizedWithDetails. rewrite bind_ok. split.
  - intros (d & HD & _). destruct (uncborNKS sig) as [s|]; [|done]. case_decide as Hc; [done|].
    apply bind_ok in HD as (id & Hid & HD). apply bind_ok in HD as (k & Hk%wrapErr_ok & HD). apply bind_ok in HD as ([] & HV & HD).
    apply verify_certified in HV as [Hp HC]. specialize (Hp Hc).
    rewrite (certified_keyID _ _ HC) in Hid. destruct (_ =? 0); [done|]. injection Hid as <-.
    exists s, k. split_and!; try done. apply (details_iff k s nodeKey); try done. by rewrite HD.
  - intros (s & k & -> & Hc & Hp & Hk & HC & Hr). apply (details_iff k s nodeKey) in Hr; [|done..].
    destruct (rotationDetails s) as [d| |] eqn:Ed; try done. exists d. split; [|done].
    rewrite decide_False by done. rewrite (certified_keyID _ _ HC).
    destruct (Z.eqb_spec (zlen (nksKeyID (chainRoot s))) 0) as [E0|_].
    { apply getKey_id in Hk as [_ Hk]. rewrite <- Hk, (certified_len _ _ HC) in E0. done. }
    cbn. rewrite Hk. cbn. by rewrite (proj2 (verify_certified k s nodeKey)).
Qed.

(** C21: which signatures authorize a node key.  A node key is accepted exactly when its
    signature decodes to one over this key that is no credential, the innermost signature
    is made with the key of the authority's state that it names, and every signature
    around it with the rotation key that the one inside it certifies. *)
Theorem node_key_authorized_iff a nodeKey sig :
  NodeKeyAuthorized a nodeKey sig = Ok () ↔
  ∃ s k, uncborNKS sig = Some s ∧ nksKind s ≠ SigCredential ∧ nksPubkey s = marshalNode nodeKey ∧
    GetKey (auState a) (nksKeyID (chainRoot s)) = Ok k ∧ Certified k s ∧ rootKeyOk (chainRoot s).
Proof. apply node_key_authorized_spec. Qed.
End certified.

(** ** Renewed signatures *)
Fixpoint nksDepth (s : NodeKeySignature) : nat := S (match nksNested s with Some n => nksDepth n | None => O end).

(** What is documented of the libraries: CBOR decodes what it encoded up to the nesting
    of 16 levels that the package allows, and Ed25519 verifies what it signed. *)
Class TkaLaws `{TkaCrypto} := {
  nks_roundtrip s : (nksDepth s ≤ 16)%nat → uncborNKS (cborNKS s) = Some s;
  verify_sign priv m : ed25519Verify (ed25519Public priv) m (ed25519Sign priv m) = true;
  public_len priv : zlen (ed25519Public priv) = 32
}.

Section resign.
Context `{TkaLaws}.

(** A direct signature that certifies the rotation key [pub], within rotations. *)
Fixpoint plain (pub : bytes) (s : NodeKeySignature) : Prop :=
  match nksNested s with
  | None => nksKind s = SigDirect ∧ nksWrapping s = pub
  | Some n => nksKind s = SigRotation ∧ nksWrapping s = [] ∧ plain pub n
  end.
Definition keyed (s : NodeKeySignature) : Prop := ∃ nk, nksPubkey s = marshalNode nk.

Lemma plain_none pub s : nksNested s = None → plain pub s ↔ nksKind s = SigDirect ∧ nksWrapping s = pub.
Proof. destruct s. cbn. by intros ->. Qed.
Lemma plain_some pub s n : nksNested s = Some n → plain pub s ↔ nksKind s = SigRotation ∧ nksWrapping s = [] ∧ plain pub n.
Proof. destruct s. cbn. by intros ->. Qed.
Lemma plain_kind pub s : plain pub s → nksKind s ≠ SigCredential.
Proof. destruct s as [? ? ? ? [n|] ?]; cbn; intros [-> _]; done. Qed.
Lemma depth_some s n : nksNested s = Some n → nksDepth s = S (nksDepth n).
Proof. destruct s. cbn. by intros ->. Qed.
Lemma depth_none s : nksNested s = None → nksDepth s = 1%nat.
Proof. destruct s. cbn. by intros ->. Qed.

Lemma plain_wrapping pub s : plain pub s → 0 < zlen pub → wrappingPublic s = Some pub.
Proof.
  intros Hp Hl. induction s as [s IH] using nks_ind. destruct s as [kind p id sg [n|] w]; cbn in *.
  - destruct Hp as (-> & -> & Hp). cbn. by apply IH.
  - destruct Hp as [-> ->]. by rewrite (proj2 (Z.ltb_lt 0 (zlen pub))) by done.
Qed.

Lemma rotate_hash priv p nested : NKSHash (rotate priv p nested) = NKSHash (mkNKS SigRotation p [] [] nested []).
Proof. done. Qed.
Lemma rotate_certified priv k p n : Certified k n → plain (ed25519Public priv) n → keyed n →
  Certified k (rotate priv p (Some n)) ∧ plain (ed25519Public priv) (rotate priv p (Some n)).
Proof.
  intros HC Hp Hk. split; [|done]. pose proof (public_len priv) as HL. eapply (certified_rotation k _ n (ed25519Public priv)); try done.
  - apply plain_wrapping; [done|lia].
  - rewrite rotate_hash. apply verify_sign.
Qed.

(** A chain as [ResignNKS] needs and makes it. *)
Record goodChain (priv : bytes) (k : Key) (s : NodeKeySignature) : Prop := {
  gc_certified : Certified k s;
  gc_plain : plain (ed25519Public priv) s;
  gc_keyed : keyed s
}.
Lemma good_nested priv k s n : goodChain priv k s → nksNested s = Some n → goodChain priv k n.
Proof.
  intros [HC HP HK] Hn. apply (plain_some _ _ _ Hn) in HP as (Hk & _ & HP).
  inversion HC as [? ? Hn'|? n' ? ? Hn' ? ? ? Hkey HCn]; subst; [congruence|]. assert (n' = n) as -> by congruence.
  split; [done|done|]. apply Hkey. by eapply plain_kind.
Qed.
Lemma good_root priv k s : goodChain priv k s → goodChain priv k (chainRoot s) ∧ nksDepth (chainRoot s) = 1%nat.
Proof.
  induction s as [s IH] using nks_ind. intros Hg. destruct (nksNested s) as [n|] eqn:En.
  - rewrite (chainRoot_nested s n) by done. apply IH; [done|]. by eapply good_nested.
  - rewrite chainRoot_none by done. split; [done|by apply depth_none].
Qed.
Lemma good_keys priv k s : goodChain priv k s →
  ∃ ks, chainKeys s = (ks, Some (chainRoot s)) ∧ length ks = nksDepth s ∧ Forall (λ p, ∃ nk, p = marshalNode nk) ks.
Proof.
  induction s as [s IH] using nks_ind. intros Hg. pose proof (gc_plain _ _ _ Hg) as HP. destruct (gc_keyed _ _ _ Hg) as [nk Hnk].
  assert ((0 <? zlen (nksPubkey s)) = true) as Hpos by (by rewrite Hnk).
  destruct (nksNested s) as [n|] eqn:En.
  - destruct (IH n eq_refl (good_nested _ _ _ _ Hg En)) as (ks & Hks & Hlen & HF).
    apply (plain_some _ _ _ En) in HP as (Hk & _ & _). exists (nksPubkey s :: ks). rewrite (chainRoot_nested s n), (depth_some s n) by done.
    split_and!; [|cbn; congruence|constructor; eauto]. destruct s; cbn in *. subst. rewrite Hpos. cbn. by rewrite Hks.
  - apply (plain_none _ _ En) in HP as [Hk _]. exists [nksPubkey s]. rewrite chainRoot_none, depth_none by done.
    split_and!; [|done|constructor; eauto]. destruct s; cbn in *. subst. by rewrite Hpos.
Qed.

Lemma rotations_good priv k root ps : goodChain priv k root → Forall (λ p, ∃ nk, p = marshalNode nk) ps →
  ∃ r, foldr (λ p result, Some (rotate priv p result)) (Some root) ps = Some r ∧ goodChain priv k r ∧
    nksDepth r = (length ps + nksDepth root)%nat ∧ chainRoot r = chainRoot root.
Proof.
  intros Hg. induction 1 as [|p ps Hp HF IH]; [by exists root|]. destruct IH as (r & Hr & [HC HP HK] & Hd & Hroot).
  exists (rotate priv p (Some r)). destruct (rotate_certified priv k p r HC HP HK) as [HC' HP'].
  split_and!; [by cbn; rewrite Hr|by split| |done]. rewrite (depth_some _ r) by done. cbn. congruence.
Qed.

Lemma trim_good priv k s : goodChain priv k s → (nksDepth s ≤ 16)%nat →
  let r := maybeTrimRotationSignatureChain s priv in
  goodChain priv k r ∧ (nksDepth r ≤ 15)%nat ∧ chainRoot r = chainRoot s.
Proof.
  intros Hg Hd. cbn. unfold maybeTrimRotationSignatureChain. destruct (nksNested s) as [n|] eqn:En.
  - pose proof (good_nested _ _ _ _ Hg En) as Hgn. destruct (good_keys _ _ _ Hgn) as (ks & Hks & Hlen & HF).
    pose proof (gc_plain _ _ _ Hg) as HP. apply (plain_some _ _ _ En) in HP as (Hk & _ & _).
    rewrite bool_decide_true, Hks by done. cbn [negb]. cbv beta iota zeta. destruct (Nat.leb_spec (length (nksPubkey s :: ks)) maxPrevKeys) as [Hle|Hgt].
    { split_and!; [done| |done]. rewrite (depth_some s n) by done. cbn in Hle. unfold maxPrevKeys in Hle. lia. }
    destruct (good_root _ _ _ Hgn) as [Hgr Hdr].
    destruct (rotations_good priv k (chainRoot n) (take (maxPrevKeys - 1) (nksPubkey s :: ks)) Hgr) as (r & Hr & Hgood & Hdep & Hroot).
    { apply Forall_take. constructor; [apply Hg|done]. }
    rewrite Hr. change (default s (Some r)) with r. split_and!; [done| |].
    + rewrite Hdep, Hdr, length_take. unfold maxPrevKeys. lia.
    + rewrite Hroot, (chainRoot_nested s n) by done. clear. induction n as [n IH] using nks_ind.
      destruct (nksNested n) as [n'|] eqn:E; [rewrite (chainRoot_nested n n') by done; by apply IH|]. by rewrite !(chainRoot_none n).
  - pose proof (gc_plain _ _ _ Hg) as HP. apply (plain_none _ _ En) in HP as [Hk _]. rewrite Hk, bool_decide_false by done. cbn [negb].
    split_and!; [done| |done]. rewrite depth_none by done. lia.
Qed.

(** What a node keeps of its signature. *)
Definition keeps (a : Authority) (priv : bytes) (nk : Z) (b : bytes) : Prop :=
  ∃ s k, uncborNKS b = Some s ∧ goodChain priv k s ∧ (nksDepth s ≤ 16)%nat ∧ nksPubkey s = marshalNode nk ∧
    GetKey (auState a) (nksKeyID (chainRoot s)) = Ok k.

Lemma resign_keeps a priv nk b nk' : keeps a priv nk b → ∃ b', ResignNKS priv nk' b = Ok b' ∧ keeps a priv nk' b'.
Proof.
  intros (s & k & Hb & Hg & Hd & Hp & HG). unfold ResignNKS. rewrite Hb. case_decide as E.
  { exists b. split; [done|]. exists s, k. split_and!; try done. }
  destruct (trim_good priv k s Hg Hd) as ([HC HP HK] & Hdt & Hroot). set (r := maybeTrimRotationSignatureChain s priv) in *.
  destruct (rotate_certified priv k (marshalNode nk') r HC HP HK) as [HC' HP']. eexists. split; [done|].
  exists (rotate priv (marshalNode nk') (Some r)), k.
  assert (nksDepth (rotate priv (marshalNode nk') (Some r)) ≤ 16)%nat as Hd' by (rewrite (depth_some _ r) by done; lia).
  split_and!; [by apply nks_roundtrip| |done|done|].
  - split; [done|done|by exists nk'].
  - rewrite (chainRoot_nested _ r) by done. by rewrite Hroot.
Qed.

Lemma keeps_authorized a priv nk b : keeps a priv nk b → NodeKeyAuthorized a nk b = Ok ().
Proof.
  intros (s & k & Hb & Hg & Hd & Hp & HG). apply node_key_authorized_spec. exists s, k.
  destruct (good_root _ _ _ Hg) as [[_ _ [nk' Hr]] _]. split_and!; try done; [by eapply plain_kind, Hg|apply Hg|].
  right. by rewrite Hr, unmarshal_marshal.
Qed.

(** The signatures that a node makes while it rotates its key through [ks]. *)
Fixpoint resignAll (priv : bytes) (ks : list Z) (b : bytes) : tres bytes :=
  match ks with
  | [] => Ok b
  | k :: ks => b ← ResignNKS priv k b; resignAll priv ks b
  end.

Lemma keeps_rotates a priv nk0 b0 ks : keeps a priv nk0 b0 → ∃ b, resignAll priv ks b0 = Ok b ∧ NodeKeyAuthorized a (default nk0 (last ks)) b = Ok ().
Proof.
  revert nk0 b0. induction ks as [|nk ks IH]; intros nk0 b0 HK; [eexists; split; [done|by eapply keeps_authorized]|].
  destruct (resign_keeps a priv nk0 b0 nk HK) as (b1 & E1 & HK1). destruct (IH nk b1 HK1) as (b & Eb & HA).
  exists b. cbn [resignAll]. rewrite E1. split; [done|]. rewrite last_cons. by destruct (last ks).
Qed.

(** C27: a node can rotate its key for ever.  When the authority accepts a direct
    signature over the first key, which certifies the node's own rotation key, then
    however often the node rotates its key and signs the new one itself, the authority
    accepts the latest signature for the latest key; the chain is trimmed in time.  A chain
    that begins with a credential is not, as [credential_chain_depth] shows. *)
Theorem rotation_sustained a priv nk0 b0 s0 ks :
  uncborNKS b0 = Some s0 → nksKind s0 = SigDirect → nksWrapping s0 = ed25519Public priv →
  NodeKeyAuthorized a nk0 b0 = Ok () →
  ∃ b, resignAll priv ks b0 = Ok b ∧ NodeKeyAuthorized a (default nk0 (last ks)) b = Ok ().
Proof.
  intros Hb Hk Hw HA. apply node_key_authorized_spec in HA as (s & k & Hs & _ & Hp & HG & HC & _).
  rewrite Hb in Hs. injection Hs as <-. assert (nksNested s0 = None) as Hn by (inversion HC; congruence).
  apply keeps_rotates. exists s0, k. split_and!; try done; [|rewrite depth_none by done; lia]. split; [done| |by exists nk0]. by apply plain_none.
Qed.
End resign.

(** A chain of 15 rotations that begins with a credential is not trimmed, since a
    credential has no node key: the next signature has 17 levels. *)
Lemma credential_chain_depth `{TkaCrypto} priv id sg w p :
  let s := foldr (λ p n, rotate priv p (Some n)) (mkNKS SigCredential [] id sg None w) (replicate 15 (marshalNode p)) in
  nksDepth s = 16%nat ∧ nksDepth (rotate priv (marshalNode p) (Some (maybeTrimRotationSignatureChain s priv))) = 17%nat.
Proof. done. Qed.

(** ** The lock of the backend *)
Section lock.
Context `{TkaCrypto} `{TailTypes}.

(** What the backend reads of the details of a rotation. *)
Definition lockDetails (d : RotationDetails) : NetMap.RotationDetails :=
  mkRotation (PrevNodeKeys d) (from_option (λ s, bool_decide (nksKind s = SigDirect)) false (InitialSig d)) (from_option nksWrapping [] (InitialSig d)).
Definition lockAuthority (a : Authority) : NetMap.Authority := λ nodeKey sig,
  match NodeKeyAuthorizedWithDetails a nodeKey sig with Ok d => Some (lockDetails <$> d) | _ => None end.

(** C4: with a tailnet lock every peer is certified.  Whatever network maps, mutations
    and narrow updates reach the backend, a peer of the current node is marked as usable
    without a signature, or has a signature over its key that goes back, through rotation
    keys that are certified in turn, to a key that the authority trusts. *)
Theorem locked_peers_certified a ops b f :
  lbTKA b = Some (lockAuthority a, f) → nbPeers (lbNode b) = ∅ →
  ∀ id n, nbPeers (lbNode (foldl runOp b ops)) !! id = Some n →
    nfUnsignedPeerAPIOnly (ndFixed n) = true ∨
    ∃ s k, uncborNKS (default [] (ndKeySignature n)) = Some s ∧ nksPubkey s = marshalNode (ndKey n) ∧
      k ∈ Keys (auState a) ∧ kPublic k = nksKeyID (chainRoot s) ∧ Certified k s.
Proof.
  intros HT Hp id n Hn. destruct (lock_ops _ ops b f HT Hp) as [_ HL]. specialize (HL _ _ Hn). unfold lockOk, lockVerdict in HL.
  destruct (nfUnsignedPeerAPIOnly _); [by left|right]. case_decide; [by destruct HL|]. unfold lockAuthority in HL.
  destruct (NodeKeyAuthorizedWithDetails _ _ _) as [d| |] eqn:E; [|by destruct HL..].
  assert (NodeKeyAuthorized a (ndKey n) (default [] (ndKeySignature n)) = Ok ()) as HA by (unfold NodeKeyAuthorized; by rewrite E).
  apply node_key_authorized_spec in HA as (s & k & Hs & Hc & Hk & HG & HC & _). apply getKey_id in HG as [Hin Hid]. by exists s, k.
Qed.
End lock.

(** ** Concrete libraries *)
Definition sigKindZ (k : SigKind) : Z * Z :=
  match k with SigInvalid => (0, 0) | SigDirect => (1, 0) | SigRotation => (2, 0) | SigCredential => (3, 0) | SigUnknown n => (4, n) end.
Definition zSigKind (x : Z * Z) : SigKind :=
  match x with (0, _) => SigInvalid | (1, _) => SigDirect | (2, _) => SigRotation | (3, _) => SigCredential | (_, n) => SigUnknown n end.
Fixpoint flatNKS (s : NodeKeySignature) : list (Z * Z * bytes * bytes * bytes * bytes) :=
  (sigKindZ (nksKind s), nksPubkey s, nksKeyID s, nksSignature s, nksWrapping s) :: match nksNested s with Some n => flatNKS n | None => [] end.
Fixpoint nestNKS (l : list (Z * Z * bytes * bytes * bytes * bytes)) : option NodeKeySignature :=
  match l with
  | [] => None
  | (k, p, i, g, w) :: l => Some (mkNKS (zSigKind k) p i g (nestNKS l) w)
  end.
Lemma nest_flat s : nestNKS (flatNKS s) = Some s.
Proof.
  induction s as [s IH] using nks_ind. destruct s as [k p i g [n|] w]; cbn.
  - rewrite IH by done. by destruct k.
  - by destruct k.
Qed.
Definition exHash (b : bytes) : bytes := be_bytes 32 (be_val 0 b).
Definition exCrypto (aumCode : AUM → bytes) : TkaCrypto := {|
  blake2s := exHash;
  cborNKS s := [Zpos (encode (flatNKS s))];
  uncborNKS b := match b with [Zpos p] => decode p ≫= nestNKS | _ => None end;
  cborAUM := aumCode;
  ed25519Verify pub m sig := bool_decide (sig = pub ++ m);
  ed25519Consensus pub m sig := bool_decide (sig = pub ++ m);
  ed25519Sign priv m := hashArray priv ++ m;
  ed25519Public := hashArray;
  argon2Key := exHash
|}.
Lemma exLaws code : @TkaLaws (exCrypto code).
Proof.
  split; cbn.
  - intros s _. rewrite decode_encode. apply nest_flat.
  - intros. by apply bool_decide_true.
  - intros. unfold zlen, hashArray. rewrite length_take, length_app, length_replicate. lia.
Qed.

#[local] Instance exCr : TkaCrypto := exCrypto (λ _, []).
#[local] Existing Instance exTypes.
Definition exTrusted : Key := mkKey Key25519 1 (hashArray [9]) None.
Definition exDirect (nk : Z) : NodeKeySignature :=
  let s := mkNKS SigDirect (marshalNode nk) (hashArray [9]) [] None (hashArray [7]) in Tka.withSig (ed25519Sign [9] (NKSHash s)) s.
Definition exAuth : Authority := mkAuthority zeroAUM zeroAUM (mkState None [] [exTrusted] 1 2).

Lemma rotation_sustained_witness : ∃ b, resignAll [7] [102; 103] (cborNKS (exDirect 101)) = Ok b ∧ NodeKeyAuthorized exAuth 103 b = Ok ().
Proof.
  apply (rotation_sustained (H0 := exLaws _) exAuth [7] 101 (cborNKS (exDirect 101)) (exDirect 101) [102; 103]); [|reflexivity|reflexivity|].
  - unfold exCr, exCrypto. cbn [uncborNKS cborNKS]. rewrite decode_encode. apply nest_flat.
  - vm_compute. reflexivity.
Defined.

Definition exSigned : Node := NetMapThms.withSig (cborNKS (exDirect 101)) exPeer1.
Definition exCertLock : LocalBackend := mkLB newNodeBackend (Some (lockAuthority exAuth, ∅)) "" false "" [].
Lemma locked_peers_certified_witness :
  let b := foldl runOp exCertLock [OpNetMap (exMap [exSigned]); OpDelta [NodeMutationUpsert exPeer2]] in
  nbPeers (lbNode b) !! 2 = None ∧
  (nfUnsignedPeerAPIOnly (ndFixed exSigned) = true ∨
   ∃ s k, uncborNKS (default [] (ndKeySignature exSigned)) = Some s ∧ nksPubkey s = marshalNode (ndKey exSigned) ∧
     k ∈ Keys (auState exAuth) ∧ kPublic k = nksKeyID (chainRoot s) ∧ Certified k s).
Proof.
  cbv zeta. split; [vm_compute; reflexivity|].
  apply (locked_peers_certified exAuth [OpNetMap (exMap [exSigned]); OpDelta [NodeMutationUpsert exPeer2]] exCertLock ∅ eq_refl eq_refl 1 exSigned).
  vm_compute. reflexivity.
Defined.
