(* ===== verification/TkaChainThms.v ===== *)
(** * The key authority is rooted and converges

    Trust changes only by messages that are signed with trusted keys, from the bootstrap
    message on; the set of stored messages alone determines the authority, so that a
    restart and any other order of arrival give the same. *)

From stdpp Require Import base gmap sets list strings.
From S2P Require Import Prelude GoStd Bytes Tka TkaChain TkaThms.

(** ** The choice between forks *)
Lemma bytesCompare_refl a : bytesCompare a a = Eq.
Proof. induction a as [|x a IH]; [done|]. cbn. by rewrite Z.compare_refl. Qed.
Lemma bytesCompare_eq a b : bytesCompare a b = Eq → a = b.
Proof.
  revert b. induction a as [|x a IH]; intros [|y b]; cbn; try done. destruct (Z.compare_spec x y) as [->| |]; try done.
  intros E. f_equal. by apply IH.
Qed.
Lemma bytesCompare_antisym a b : bytesCompare b a = CompOpp (bytesCompare a b).
Proof.
  revert b. induction a as [|x a IH]; intros [|y b]; cbn; try done. rewrite (Z.compare_antisym x y). destruct (x ?= y); try done. apply IH.
Qed.
Lemma bytesCompare_trans a b c : bytesCompare a b = Lt → bytesCompare b c = Lt → bytesCompare a c = Lt.
Proof.
  revert b c. induction a as [|x a IH]; intros [|y b] [|z c]; cbn; try done.
  destruct (Z.compare_spec x y), (Z.compare_spec y z); try done; subst; intros H1 H2.
  - rewrite Z.compare_refl. by eapply IH.
  - by rewrite (proj2 (Z.compare_lt_iff _ _)).
  - by rewrite (proj2 (Z.compare_lt_iff _ _)).
  - by rewrite (proj2 (Z.compare_lt_iff _ _)) by lia.
Qed.

Definition bytesLess (a b : bytes) : bool := match bytesCompare a b with Lt => true | _ => false end.
Lemma bytesLess_irrefl a : bytesLess a a = false.
Proof. unfold bytesLess. by rewrite bytesCompare_refl. Qed.
Lemma bytesLess_asym a b : bytesLess a b = true → bytesLess b a = false.
Proof. unfold bytesLess. rewrite (bytesCompare_antisym a b). by destruct (bytesCompare a b). Qed.
Lemma bytesLess_neg a b c : bytesLess a b = false → bytesLess b c = false → bytesLess a c = false.
Proof.
  unfold bytesLess. intros H1 H2. destruct (bytesCompare a b) eqn:E1; [apply bytesCompare_eq in E1 as ->; done|done|].
  destruct (bytesCompare b c) eqn:E2; [apply bytesCompare_eq in E2 as <-; by rewrite E1|done|].
  assert (bytesCompare c a = Lt) as E3.
  { apply (bytesCompare_trans _ b); [rewrite (bytesCompare_antisym b c), E2|rewrite (bytesCompare_antisym a b), E1]; done. }
  by rewrite (bytesCompare_antisym c a), E3.
Qed.
Lemma bytesLess_total a b : bytesLess a b = false → bytesLess b a = false → a = b.
Proof. unfold bytesLess. rewrite (bytesCompare_antisym a b). destruct (bytesCompare a b) eqn:E; try done. intros. by apply bytesCompare_eq. Qed.

Section pick.
Context `{TkaCrypto}.

(** The rules as one lexicographic order. *)
Definition forkKey (x : Z * AUM) : bytes :=
  (- x.1) :: (if decide (MessageKind x.2 = AUMRemoveKey) then 0 else 1) :: Hash x.2.
Lemma preferred_spec x y : preferred x y = bytesLess (forkKey x) (forkKey y).
Proof.
  destruct x as [w a], y as [v b]. unfold preferred, bytesLess, forkKey. cbn [fst snd bytesCompare]. rewrite Z.compare_opp.
  destruct (Z.eqb_spec w v) as [->|Hne]; cbn [negb].
  - rewrite Z.compare_refl, (bytesCompare_antisym (Hash a) (Hash b)).
    destruct (decide (MessageKind a = AUMRemoveKey)) as [Ha|Ha], (decide (MessageKind b = AUMRemoveKey)) as [Hb|Hb];
      rewrite ?(bool_decide_true (MessageKind a = AUMRemoveKey)), ?(bool_decide_false (MessageKind a = AUMRemoveKey)),
        ?(bool_decide_true (MessageKind b = AUMRemoveKey)), ?(bool_decide_false (MessageKind b = AUMRemoveKey)) by done.
    + rewrite bool_decide_true by congruence. cbn. by destruct (bytesCompare _ _).
    + rewrite bool_decide_false by congruence. done.
    + rewrite bool_decide_false by congruence. done.
    + rewrite andb_false_r. cbn. by destruct (bytesCompare _ _).
  - destruct (Z.compare_spec v w); [congruence| |]; [by apply Z.ltb_lt|by apply Z.ltb_ge; lia].
Qed.

(** The first of a sorted list comes after nothing. *)
Lemma sort_head {A} (less : A → A → bool) (l : list A) h t :
  (∀ x, less x x = false) → (∀ x y, less x y = true → less y x = false) →
  (∀ x y z, less x y = false → less y z = false → less x z = false) →
  sortLess less l = h :: t → h ∈ l ∧ ∀ b, b ∈ l → less b h = false.
Proof.
  intros Hirr Has Hneg. revert h t. induction l as [|x l IH]; intros h t; [done|]. cbn. fold (sortLess less l).
  destruct (sortLess less l) as [|m t'] eqn:E.
  - cbn. intros [= <- <-]. assert (l = []) as ->.
    { destruct l as [|y l]; [done|]. cbn in E. destruct (foldr _ _ l); cbn in E; [done|]. by destruct (less _ _). }
    split; [by left|]. intros b [->|Hb]%elem_of_cons; [done|]. by apply elem_of_nil in Hb.
  - destruct (IH m t' eq_refl) as [Hm Hmin]. cbn. destruct (less m x) eqn:Emx; intros [= <- <-].
    + split; [by right|]. intros b [->|Hb]%elem_of_cons; auto.
    + split; [by left|]. intros b [->|Hb]%elem_of_cons; [done|]. by eapply Hneg; [apply Hmin|].
Qed.
Lemma sort_nonempty {A} (less : A → A → bool) x l : sortLess less (x :: l) ≠ [].
Proof. cbn. destruct (foldr _ _ l); cbn; [done|]. by destruct (less _ _). Qed.

Lemma preferred_head ws w a t : sortLess preferred ws = (w, a) :: t →
  (w, a) ∈ ws ∧ ∀ x, x ∈ ws → bytesLess (forkKey x) (forkKey (w, a)) = false.
Proof.
  intros E. destruct (sort_head preferred ws (w, a) t) as [Hin Hmin]; [..|done|].
  - intros x. rewrite preferred_spec. apply bytesLess_irrefl.
  - intros x y. rewrite !preferred_spec. apply bytesLess_asym.
  - intros x y z. rewrite !preferred_spec. apply bytesLess_neg.
  - split; [done|]. intros x Hx. rewrite <- preferred_spec. auto.
Qed.

Lemma weighAll_spec s l ws : weighAll s l = Ok ws → ws.*2 = l ∧ ∀ w a, (w, a) ∈ ws → Weight a s = Ok w.
Proof.
  revert ws. induction l as [|a l IH]; intros ws; cbn; [intros [= <-]; split; [done|]; intros ? ? Hx; by apply elem_of_nil in Hx|].
  intros (w & Hw & Hr)%bind_ok. apply bind_ok in Hr as (ws' & Hws & [= <-]). destruct (IH ws' Hws) as [IH1 IH2]. cbn. split; [congruence|].
  intros v b [[= -> ->]|Hb]%elem_of_cons; [done|auto].
Qed.
Lemma weighAll_total s l : (∀ a, a ∈ l → ∃ w, Weight a s = Ok w) → ∃ ws, weighAll s l = Ok ws.
Proof.
  induction l as [|a l IH]; intros HW; [by eexists|]. destruct (HW a) as [w Hw]; [by left|]. destruct IH as [ws Hws]; [intros; apply HW; by right|].
  cbn. rewrite Hw. cbn. rewrite Hws. by eexists.
Qed.

(** Some candidate is picked, and which one does not depend on their order. *)
Lemma pick_total s l : l ≠ [] → (∀ a, a ∈ l → ∃ w, Weight a s = Ok w) → ∃ a, pickNextAUM s l = Ok a ∧ a ∈ l.
Proof.
  intros Hne HW. destruct l as [|a [|b l]]; [done|exists a; split; [done|by left]|]. unfold pickNextAUM.
  destruct (weighAll_total s (a :: b :: l) HW) as [ws Hws]. rewrite Hws. cbn [mbind res_bind].
  destruct (weighAll_spec _ _ _ Hws) as [Hl _]. destruct ws as [|x ws]; [done|].
  destruct (sortLess preferred (x :: ws)) as [|[w c] t] eqn:E; [by apply sort_nonempty in E|]. exists c. split; [done|].
  apply preferred_head in E as [Hin _]. rewrite <- Hl. by apply (list_elem_of_fmap_2 snd) in Hin.
Qed.
(** What is picked comes before the other candidates. *)
Lemma pick_min s l a : (∀ x, x ∈ l → ∃ w, Weight x s = Ok w) → pickNextAUM s l = Ok a →
  a ∈ l ∧ ∀ b wa wb, b ∈ l → Weight a s = Ok wa → Weight b s = Ok wb → bytesLess (forkKey (wb, b)) (forkKey (wa, a)) = false.
Proof.
  intros HW. destruct l as [|x [|y l]]; [done|intros [= ->]; split; [by left|]; intros b wa wb ->%list_elem_of_singleton Ha Hb; rewrite Ha in Hb;
    injection Hb as ->; apply bytesLess_irrefl|].
  unfold pickNextAUM. intros (ws & Hws & HS)%bind_ok. destruct (weighAll_spec _ _ _ Hws) as [Hl HG].
  destruct (sortLess preferred ws) as [|[w b] t] eqn:E; [done|]. injection HS as ->. apply preferred_head in E as [Hin Hmin].
  split; [rewrite <- Hl; by apply (list_elem_of_fmap_2 snd) in Hin|]. intros b wa wb Hb Ha Hwb.
  rewrite <- Hl in Hb. apply list_elem_of_fmap in Hb as ([v d] & -> & Hb). cbn [snd] in *.
  pose proof (HG _ _ Hb). pose proof (HG _ _ Hin). replace wa with w by congruence. replace wb with v by congruence. by apply Hmin.
Qed.
(** The pick among fewer candidates, and the pick among more. *)
Lemma pick_best s l a b wa wb : NoDup (Hash <$> l) → (∀ x, x ∈ l → ∃ w, Weight x s = Ok w) → pickNextAUM s l = Ok a → b ∈ l →
  Weight a s = Ok wa → Weight b s = Ok wb → bytesLess (forkKey (wa, a)) (forkKey (wb, b)) = false → a = b.
Proof.
  intros HN HW HP Hb Ha Hwb HL. destruct (pick_min s l a HW HP) as [Hin Hmin]. pose proof (bytesLess_total _ _ HL (Hmin b wa wb Hb Ha Hwb)) as E.
  unfold forkKey in E. cbn in E. injection E as _ _ E. by apply (NoDup_fmap_inj_on Hash l).
Qed.
Lemma pick_sub s l l' a : NoDup (Hash <$> l) → (∀ x, x ∈ l → ∃ w, Weight x s = Ok w) → pickNextAUM s l = Ok a → l' ⊆ l → a ∈ l' → pickNextAUM s l' = Ok a.
Proof.
  intros HN HW HP Hsub Ha. destruct (pick_total s l') as (b & Hb & Hin); [by intros ->; apply elem_of_nil in Ha|auto|].
  rewrite Hb. f_equal. symmetry. destruct (HW a) as [wa Hwa]; [by apply Hsub|]. destruct (HW b) as [wb Hwb]; [by apply Hsub|].
  eapply (pick_best s l); eauto. eapply pick_min; [|exact Hb|done|done|done]. auto.
Qed.
Lemma pick_perm s l1 l2 a1 a2 : l1 ≡ₚ l2 → NoDup (Hash <$> l1) → pickNextAUM s l1 = Ok a1 → pickNextAUM s l2 = Ok a2 → a1 = a2.
Proof.
  intros HP HN H1 H2. destruct l1 as [|a [|b l1]].
  - done.
  - apply Permutation_singleton_l in HP. subst l2. cbn in *. congruence.
  - destruct l2 as [|c [|d l2]]; [by apply Permutation_nil_r in HP|by apply Permutation_singleton_r in HP|].
    unfold pickNextAUM in H1, H2. apply bind_ok in H1 as (w1 & HW1 & H1). apply bind_ok in H2 as (w2 & HW2 & H2).
    destruct (sortLess preferred w1) as [|[v1 b1] t1] eqn:E1; [done|]. destruct (sortLess preferred w2) as [|[v2 b2] t2] eqn:E2; [done|].
    injection H1 as ->. injection H2 as ->. apply preferred_head in E1 as [I1 M1], E2 as [I2 M2].
    destruct (weighAll_spec _ _ _ HW1) as [F1 G1], (weighAll_spec _ _ _ HW2) as [F2 G2].
    assert ((v1, a1) ∈ w2) as J1.
    { assert (a1 ∈ w2.*2) as Hx by (rewrite F2, <- HP, <- F1; by apply (list_elem_of_fmap_2 snd) in I1).
      apply list_elem_of_fmap in Hx as ([v x] & -> & Hx). cbn in *. pose proof (G1 _ _ I1). pose proof (G2 _ _ Hx). cbn in *. congruence. }
    assert ((v2, a2) ∈ w1) as J2.
    { assert (a2 ∈ w1.*2) as Hx by (rewrite F1, HP, <- F2; by apply (list_elem_of_fmap_2 snd) in I2).
      apply list_elem_of_fmap in Hx as ([v x] & -> & Hx). cbn in *. pose proof (G2 _ _ I2). pose proof (G1 _ _ Hx). cbn in *. congruence. }
    pose proof (bytesLess_total _ _ (M1 _ J2) (M2 _ J1)) as HK. unfold forkKey in HK. cbn in HK. injection HK as _ _ HH.
    apply (NoDup_fmap_inj_on Hash (a :: b :: l1)); [done|rewrite <- F1; by apply (list_elem_of_fmap_2 snd) in I1| |congruence].
    rewrite HP, <- F2. by apply (list_elem_of_fmap_2 snd) in I2.
Qed.
End pick.

(** ** Keys of a state *)
Lemma checkEach_ok {A} (f : nat → A → tres ()) i l : checkEach f i l = Ok () ↔ ∀ j x, l !! j = Some x → f (i + j)%nat x = Ok ().
Proof.
  revert i. induction l as [|y l IH]; intros i; [by split|]. cbn. rewrite bind_ok. split.
  - intros ([] & Hy & Hl) [|j] x Hx; cbn in Hx; [injection Hx as <-; by rewrite Nat.add_0_r|]. rewrite Nat.add_succ_r. by apply (proj1 (IH (S i)) Hl).
  - intros HF. exists tt. split; [rewrite <- (Nat.add_0_r i); by apply HF|]. apply IH. intros j x Hx. specialize (HF (S j) x Hx).
    by rewrite Nat.add_succ_r in HF.
Qed.
Lemma checkEach_elem {A} (f : A → tres ()) i l : checkEach (λ _, f) i l = Ok () ↔ Forall (λ x, f x = Ok ()) l.
Proof. rewrite checkEach_ok, Forall_lookup. done. Qed.
Lemma checkEach_safe {A} (f : nat → A → tres ()) i l : (∀ j x, f j x ≠ Panic) → checkEach f i l ≠ Panic.
Proof. intros HF. revert i. induction l as [|x l IH]; intros i; [done|]. cbn. specialize (HF i x). destruct (f i x); cbn; [apply IH|done|done]. Qed.

Definition keyValid (k : Key) : Prop := keyStaticValidate k = Ok ().
Lemma valid_kind k : keyValid k → keyID k = Ok (kPublic k).
Proof. unfold keyValid, keyStaticValidate, keyID. intros HV. repeat (case_match; try done). Qed.

(** The keys are usable, differ, and there is one. *)
Record keysOk (s : State) : Prop := {
  ko_valid : Forall keyValid (Keys s);
  ko_nodup : NoDup (kPublic <$> Keys s);
  ko_some : Keys s ≠ []
}.

Lemma getKey_cases l id : Forall keyValid l →
  (∃ k, getKey l id = Ok k ∧ k ∈ l ∧ kPublic k = id) ∨ getKey l id = Err ErrNoSuchKey ∧ id ∉ kPublic <$> l.
Proof.
  induction 1 as [|k l Hk Hl IH]; [right; split; [done|]; apply not_elem_of_nil|]. cbn. rewrite valid_kind by done. cbn. case_decide as E.
  - left. exists k. split_and!; [done|by left|done].
  - destruct IH as [(k' & ? & ? & ?)|[? ?]]; [left; exists k'; split_and!; [done|by right|done]|]. right. split; [done|].
    apply not_elem_of_cons. auto.
Qed.

Lemma replaceKey_spec l id k' l' : Forall keyValid l → keyValid k' → kPublic k' = id → replaceKey l id k' = Ok l' →
  Forall keyValid l' ∧ kPublic <$> l' = kPublic <$> l.
Proof.
  intros HF Hk' Hid. revert l'. induction HF as [|k l Hk Hl IH]; intros l'; cbn; [by intros [= <-]|]. rewrite valid_kind by done. cbn.
  intros (l1 & H1 & [= <-])%bind_ok. destruct (IH l1 H1) as [IH1 IH2]. cbn. rewrite IH2. case_decide as E; split; try done; [by constructor|congruence|by constructor].
Qed.
Lemma removeKey_spec l id l' : Forall keyValid l → removeKey l id = Ok l' →
  l' `sublist_of` l ∧ (kPublic <$> l') `sublist_of` (kPublic <$> l) ∧ (length l = S (length l'))%nat ∧ ∃ k, k ∈ l ∧ kPublic k = id.
Proof.
  intros HF. revert l'. induction HF as [|k l Hk Hl IH]; intros l'; cbn; [done|]. rewrite valid_kind by done. cbn. case_decide as E.
  - intros [= <-]. split_and!; [by apply sublist_cons|by apply sublist_cons|done|]. exists k. split; [by left|done].
  - intros (l1 & H1 & [= <-])%bind_ok. destruct (IH l1 H1) as (S1 & S2 & L1 & k1 & ? & ?). split_and!; [by apply sublist_skip|by apply sublist_skip|cbn; congruence|].
    exists k1. split; [by right|done].
Qed.

Section states.
Context `{TkaCrypto}.

Lemma apply_last s u s' : applyVerifiedAUM s u = Ok s' → LastAUMHash s' = Some (Hash u).
Proof.
  unfold applyVerifiedAUM. destruct (negb _); [done|]. destruct (MessageKind u); try (intros [= <-]; done).
  - destruct (aKey u); [|done]. intros (id & _ & HG)%bind_ok. destruct (GetKey s id); try done. by injection HG as <-.
  - intros (l & _ & [= <-])%bind_ok. done.
  - intros (k & _ & HV)%bind_ok. destruct (keyStaticValidate _); try done. apply bind_ok in HV as (l & _ & [= <-]). done.
  - destruct (aState u); [|done]. destruct (_ || _); [done|]. intros [= <-]. done.
Qed.

Lemma checkpoint_keys s : staticValidateCheckpoint s = Ok () → keysOk s.
Proof.
  unfold staticValidateCheckpoint. case_decide; [done|]. destruct (_ =? 0); [done|]. destruct (_ <? _); [done|].
  intros ([] & _ & HV)%bind_ok. destruct (Z.eqb_spec (zlen (Keys s)) 0) as [|Hne]; [done|]. destruct (_ <? _); [done|].
  apply bind_ok in HV as ([] & HF & HD). apply checkEach_elem in HF. split; [done| |].
  - apply NoDup_alt. intros i j x Hi Hj. destruct (decide (i = j)) as [|Hij]; [done|].
    rewrite list_lookup_fmap in Hi, Hj. apply fmap_Some in Hi as (k1 & H1 & ->), Hj as (k2 & H2 & E2).
    rewrite checkEach_ok in HD. specialize (HD i k1 H1). rewrite checkEach_ok in HD. specialize (HD j k2 H2). cbn in HD.
    rewrite (proj2 (Nat.eqb_neq i j)) in HD by done. rewrite Forall_lookup in HF.
    rewrite (valid_kind k1 (HF _ _ H1)), (valid_kind k2 (HF _ _ H2)) in HD. cbn in HD. by rewrite decide_True in HD.
  - intros E. by rewrite E in Hne.
Qed.

(** What a message that verifies has. *)
Record verified (u : AUM) (s : State) : Prop := {
  vf_static : StaticValidate u = Ok ();
  vf_signed : Signatures u ≠ [];
  vf_sigs : Forall (λ sg, ∃ k, GetKey s (sKeyID sg) = Ok k ∧ signatureVerify sg (aumSigHash u) k = Ok ()) (Signatures u);
  vf_last : MessageKind u = AUMRemoveKey → ∀ k, Keys s = [k] → keyValid k → kPublic k ≠ default [] (aKeyID u)
}.
Lemma aumVerify_verified u s b : aumVerify u s b = Ok () → verified u s.
Proof.
  unfold aumVerify. intros ([] & HV%wrapErr_ok & HR)%bind_ok. apply bind_ok in HR as ([] & _ & HR).
  destruct (Z.eqb_spec (zlen (Signatures u)) 0) as [|Hne]; [done|]. apply bind_ok in HR as ([] & HS & HR). split; [done| | |].
  - intros E. by rewrite E in Hne.
  - apply checkEach_elem in HS. eapply Forall_impl; [exact HS|]. cbn. intros sg (k & Hk%wrapErr_ok & Hv%wrapErr_ok)%bind_ok. by exists k.
  - intros Ek k EK Hk. rewrite Ek, EK, valid_kind in HR by done. case_decide; [done|]. congruence.
Qed.

Lemma static_parts u : StaticValidate u = Ok () →
  (∀ k, aKey u = Some k → keyValid k) ∧ (∀ st, aState u = Some st → staticValidateCheckpoint st = Ok ()) ∧
  Forall (λ sg, zlen (sKeyID sg) = 32) (Signatures u) ∧
  (MessageKind u = AUMCheckpoint → is_Some (aState u)).
Proof.
  unfold StaticValidate. intros ([] & HK & HR)%bind_ok. case_decide; [done|]. apply bind_ok in HR as ([] & HS & HR).
  apply bind_ok in HR as ([] & HC & HR). split_and!.
  - intros k E. by rewrite E in HK.
  - intros st E. by rewrite E in HC.
  - apply checkEach_elem in HS. eapply Forall_impl; [exact HS|]. cbn. intros sg. destruct (Z.eqb_spec (zlen (sKeyID sg)) 32); [done|]. done.
  - intros E. rewrite E in HR. destruct (aState u); [by eexists|]. done.
Qed.

Lemma apply_keys s u s' : verified u s → keysOk s → applyVerifiedAUM s u = Ok s' →
  keysOk s' ∧ StateID1 s' = StateID1 s ∧ StateID2 s' = StateID2 s.
Proof.
  intros [HV _ _ HL] [K1 K2 K3] HA. destruct (static_parts u HV) as (HK & HC & _ & _). unfold applyVerifiedAUM in HA.
  destruct (negb _); [done|]. destruct (MessageKind u) eqn:Ekind; try (injection HA as <-; by split_and!).
  - destruct (aKey u) as [k|] eqn:Ek; [|done]. pose proof (HK k eq_refl) as Hk. rewrite valid_kind in HA by done. cbn in HA.
    destruct (getKey_cases (Keys s) (kPublic k) K1) as [(k' & Hk' & _)|[Hk' Hni]]; unfold GetKey in HA; rewrite Hk' in HA; [done|].
    injection HA as <-. cbn. split_and!; [|done|done]. split; cbn.
    + apply Forall_app. auto.
    + rewrite fmap_app. apply NoDup_app. split_and!; [done| |cbn; apply NoDup_singleton]. intros x Hx Hx'%list_elem_of_singleton. congruence.
    + by destruct (Keys s).
  - apply bind_ok in HA as (l & Hl & [= <-]). destruct (removeKey_spec _ _ _ K1 Hl) as (HSub & HSub' & HLen & k & Hin & Hid). split_and!; [|done|done]. split; cbn.
    + rewrite Forall_forall in *. intros x Hx. apply K1. by eapply elem_of_sublist.
    + by eapply sublist_NoDup.
    + intros ->. destruct (Keys s) as [|k1 [|? ?]]; try done. apply list_elem_of_singleton in Hin as ->.
      apply (HL eq_refl k1 eq_refl); [by inversion K1|done].
  - apply bind_ok in HA as (k & Hk & HA). apply getKey_id in Hk as [Hin Hid]. set (k' := mkKey _ _ _ _) in HA.
    destruct (keyStaticValidate k') as [[]| |] eqn:EV; try done. apply bind_ok in HA as (l & Hl & [= <-]).
    destruct (replaceKey_spec _ _ _ _ K1 EV Hid Hl) as [HF HM]. split_and!; [|done|done]. split; cbn; [done|by rewrite HM|].
    intros ->. by destruct (Keys s).
  - destruct (aState u) as [st|] eqn:Est; [|done]. destruct (Z.eqb_spec (StateID1 st) (StateID1 s)), (Z.eqb_spec (StateID2 st) (StateID2 s)); try done.
    injection HA as <-. split_and!; [|done|done]. destruct (checkpoint_keys st (HC st eq_refl)). by split.
Qed.

Lemma weight_total u s : StaticValidate u = Ok () → Forall keyValid (Keys s) → ∃ w, Weight u s = Ok w.
Proof.
  intros HV HK. destruct (static_parts u HV) as (_ & _ & HS & _). unfold Weight. generalize (∅ : gset bytes) 0.
  induction HS as [|sg l Hsg Hl IH]; intros seen w; [by eexists|]. cbn. rewrite Hsg. cbn. unfold GetKey.
  destruct (getKey_cases (Keys s) (sKeyID sg) HK) as [(k & -> & _)|[-> _]]; [|apply IH]. case_decide; apply IH.
Qed.
End states.

(** ** The storage and the states of its messages *)
Section store.
Context `{TkaCrypto}.

Record storeOk (c : Mem) : Prop := {
  so_hash h a : aums c !! h = Some a → Hash a = h;
  so_index p h : h ∈ childHashes c p ↔ ∃ a, aums c !! h = Some a ∧ Parent a = Some p;
  so_nodup p : NoDup (childHashes c p)
}.

Lemma child_spec c p a : storeOk c → a ∈ ChildAUMs c p ↔ aums c !! Hash a = Some a ∧ Parent a = Some p.
Proof.
  intros [HH HI _]. unfold ChildAUMs. rewrite list_elem_of_fmap. split.
  - intros (h & -> & Hh). apply HI in Hh as (a & Ha & Hp). rewrite Ha. cbn. by rewrite (HH _ _ Ha).
  - intros [Ha Hp]. exists (Hash a). rewrite Ha. split; [done|]. apply HI. eauto.
Qed.
Lemma child_hashes c p : storeOk c → Hash <$> ChildAUMs c p = childHashes c p.
Proof.
  intros [HH HI _]. unfold ChildAUMs. rewrite <- list_fmap_compose. rewrite <- (list_fmap_id (childHashes c p)) at 2.
  apply list_fmap_ext. intros i h Hh. cbn. apply list_elem_of_lookup_2, HI in Hh as (a & Ha & _). rewrite Ha. cbn. by apply HH.
Qed.

Lemma commit_children now c a q : childHashes (commitOne now c a) q =
  if decide (Parent a = Some q ∧ Hash a ∉ childHashes c q) then childHashes c q ++ [Hash a] else childHashes c q.
Proof.
  unfold commitOne, childHashes at 1. cbn [parentIndex]. destruct (Parent a) as [p|].
  - destruct (decide (Hash a ∈ childHashes c p)).
    + rewrite decide_False; [done|]. intros [[= <-] ?]. done.
    + destruct (decide (p = q)) as [<-|Hne]; [rewrite lookup_insert_eq, decide_True; done|].
      rewrite lookup_insert_ne, decide_False by (done || intros [[= ?] ?]; done). done.
  - rewrite decide_False; [done|]. by intros [? ?].
Qed.
Lemma commit_store now c a : storeOk c → (aums c !! Hash a = None ∨ aums c !! Hash a = Some a) → storeOk (commitOne now c a).
Proof.
  intros [HH HI HN] Ha. split.
  - intros h b. cbn. rewrite lookup_insert_Some. intros [[<- <-]|[_ Hb]]; [done|by apply HH].
  - intros p h. rewrite commit_children. cbn [aums commitOne].
    assert (Hash a ∈ childHashes c p ↔ aums c !! Hash a = Some a ∧ Parent a = Some p) as Hin.
    { rewrite HI. split; [intros (b & Hb & ?); destruct Ha; [congruence|]; split; congruence|eauto]. }
    assert (h ∈ childHashes c p ∨ h = Hash a ∧ Parent a = Some p ↔ ∃ b, <[Hash a := a]> (aums c) !! h = Some b ∧ Parent b = Some p) as HG.
    { split.
      - intros [(b & Hb & Hp)%HI|[-> Hp]]; [|exists a; by rewrite lookup_insert_eq]. destruct (decide (Hash a = h)) as [<-|Hne].
        + exists a. rewrite lookup_insert_eq. split; [done|]. destruct Ha; congruence.
        + exists b. by rewrite lookup_insert_ne.
      - intros (b & [[<- <-]|[_ Hb]]%lookup_insert_Some & Hp); [by right|]. left. apply HI. eauto. }
    rewrite <- HG. case_decide as HD; [rewrite elem_of_app, list_elem_of_singleton; naive_solver|]. split; [by left|].
    intros [?|[-> Hp]]; [done|]. destruct (decide (Hash a ∈ childHashes c p)); [done|]. by destruct HD.
  - intros p. rewrite commit_children. case_decide as HD; [|done]. apply NoDup_app. split_and!; [done| |apply NoDup_singleton].
    intros x Hx Hx'%list_elem_of_singleton. destruct HD. congruence.
Qed.

(** The state after a message, from the last checkpoint or the genesis before it. *)
Inductive StateAt (c : Mem) : bytes → State → Prop :=
  | at_checkpoint h a st : aums c !! h = Some a → MessageKind a = AUMCheckpoint → aState a = Some st → StateAt c h (cloneForUpdate st a)
  | at_genesis h a s :
      aums c !! h = Some a → MessageKind a = AUMNoOp ∨ MessageKind a = AUMAddKey → Parent a = None →
      applyVerifiedAUM zeroTkaState a = Ok s → StateAt c h s
  | at_update h a p s s' :
      aums c !! h = Some a → MessageKind a ≠ AUMCheckpoint → Parent a = Some p → StateAt c p s →
      applyVerifiedAUM s a = Ok s' → StateAt c h s'.

Definition agree (c1 c2 : Mem) : Prop := ∀ h a b, aums c1 !! h = Some a → aums c2 !! h = Some b → a = b.
Lemma state_agree c1 c2 h s1 s2 : agree c1 c2 → StateAt c1 h s1 → StateAt c2 h s2 → s1 = s2.
Proof.
  intros HC H1. revert s2. induction H1 as [h a st Ha Hk Hs|h a s Ha Hk Hp HA|h a p s s' Ha Hk Hp _ IH HA]; intros s2 H2;
    inversion H2 as [? b ? Hb Hk2 ?|? b ? Hb Hk2 ?|? b ? t ? Hb Hk2 ? Ht]; subst;
    pose proof (HC _ _ _ Ha Hb) as <-; try congruence; try (by destruct Hk2; congruence); try (by destruct Hk; congruence).
  assert (p = p0) as <- by congruence. apply IH in Ht as <-. congruence.
Qed.
Lemma state_det c h s1 s2 : StateAt c h s1 → StateAt c h s2 → s1 = s2.
Proof. apply state_agree. intros x a b. congruence. Qed.
Lemma state_mono c c' h s : aums c ⊆ aums c' → StateAt c h s → StateAt c' h s.
Proof.
  intros HS. induction 1; [eapply at_checkpoint|eapply at_genesis|eapply at_update]; eauto using lookup_weaken.
Qed.
Lemma state_stored c h s : StateAt c h s → is_Some (aums c !! h).
Proof. by destruct 1; eexists. Qed.
Lemma state_last c h s : storeOk c → StateAt c h s → LastAUMHash s = Some h.
Proof.
  intros HO. destruct 1 as [h a st Ha Hk Hs|h a s Ha Hk Hp HA|h a p s s' Ha Hk Hp _ HA].
  - cbn. by rewrite (so_hash _ HO _ _ Ha).
  - by rewrite (apply_last _ _ _ HA), (so_hash _ HO _ _ Ha).
  - by rewrite (apply_last _ _ _ HA), (so_hash _ HO _ _ Ha).
Qed.
Lemma state_child c x s a s' : storeOk c → StateAt c (Hash x) s → a ∈ ChildAUMs c (Hash x) → applyVerifiedAUM s a = Ok s' → StateAt c (Hash a) s'.
Proof.
  intros HO HS [Ha Hp]%child_spec HA; [|done]. destruct (decide (MessageKind a = AUMCheckpoint)) as [Hk|Hk]; [|by eapply at_update].
  unfold applyVerifiedAUM in HA. destruct (negb _); [done|]. rewrite Hk in HA. destruct (aState a) eqn:Est; [|done].
  destruct (_ || _); [done|]. injection HA as <-. by eapply at_checkpoint.
Qed.

(** Walking forward stays with the states of the messages. *)
Definition advancesWithin (c : Mem) (adv : State → list AUM → tres (option (AUM * State))) : Prop :=
  ∀ s l a s', adv s l = Ok (Some (a, s')) → a ∈ l ∧ applyVerifiedAUM s a = Ok s'.
Lemma primary_within c : advancesWithin c advanceByPrimary.
Proof.
  intros s l a s'. unfold advanceByPrimary. destruct l as [|x l]; [done|]. intros (b & Hb & HR)%bind_ok.
  apply bind_ok in HR as (t & Ht%wrapErr_ok & [= -> ->]). split; [|done]. clear Ht. destruct l as [|y l]; [cbn in Hb; injection Hb as ->; by left|].
  unfold pickNextAUM in Hb. apply bind_ok in Hb as (ws & HW & Hb). destruct (sortLess preferred ws) as [|[w d] t'] eqn:E; [done|].
  injection Hb as ->. apply preferred_head in E as [Hin _]. destruct (weighAll_spec _ _ _ HW) as [<- _]. by apply (list_elem_of_fmap_2 snd) in Hin.
Qed.
Lemma path_within c path : advancesWithin c (advanceOnPath path).
Proof.
  intros s l a s'. induction l as [|x l IH]; [done|]. cbn. case_decide.
  - intros (t & Ht%wrapErr_ok & [= -> ->])%bind_ok. split; [by left|done].
  - intros [? ?]%IH. split; [by right|done].
Qed.
Lemma ff_state c adv done n curs s vis e t v : storeOk c → advancesWithin c adv →
  aums c !! Hash curs = Some curs → StateAt c (Hash curs) s → ffLoop n c adv done curs s vis = Ok (e, t, v) →
  aums c !! Hash e = Some e ∧ StateAt c (Hash e) t.
Proof.
  intros HO HW. revert curs s vis. induction n as [|n IH]; intros curs s vis Hc HS; [done|]. cbn. destruct (done curs s); [by intros [= <- <- <-]|].
  intros (o & Ho%wrapErr_ok & HR)%bind_ok. destruct o as [[a s']|]; [|by injection HR as <- <- <-].
  apply HW in Ho as [Hin HA]. apply IH in HR; [done| |by eapply state_child]. by apply child_spec in Hin as [? _].
Qed.
Lemma ffwd_state c adv done n h s e t v : storeOk c → advancesWithin c adv → StateAt c h s →
  fastForwardWithAdvancer c n s adv done = Ok (e, t, v) → aums c !! Hash e = Some e ∧ StateAt c (Hash e) t.
Proof.
  intros HO HW HS. unfold fastForwardWithAdvancer. rewrite (state_last _ _ _ HO HS). intros (a & Ha%wrapErr_ok & HR)%bind_ok.
  unfold memAUM in Ha. destruct (aums c !! h) as [b|] eqn:Eb; [|done]. injection Ha as ->. pose proof (so_hash _ HO _ _ Eb) as <-.
  by eapply ff_state.
Qed.
Lemma findStart_state n c curs path s path' : aums c !! Hash curs = Some curs → storeOk c → findStart n c curs path = Ok (s, path') → ∃ h, StateAt c h s.
Proof.
  intros Hc HO. revert curs path Hc. induction n as [|n IH]; intros curs path Hc; [done|]. cbn [findStart]. case_decide as Hk.
  - destruct (aState curs) eqn:Est; [|done]. intros [= <- <-]. eexists. by eapply at_checkpoint.
  - destruct (Parent curs) as [p|] eqn:Ep.
    + intros (a & Ha%wrapErr_ok & HR)%bind_ok. unfold memAUM in Ha. destruct (aums c !! p) as [b|] eqn:Eb; [|done]. injection Ha as ->.
      eapply IH, HR. by rewrite (so_hash _ HO _ _ Eb).
    + destruct (MessageKind curs) eqn:Ek; try done; intros (t & Ht%wrapErr_ok & [= -> <-])%bind_ok; exists (Hash curs);
        apply (at_genesis c (Hash curs) curs s Hc); auto.
Qed.
Lemma computeStateAt_state c n h s : storeOk c → computeStateAt c n h = Ok s → StateAt c h s.
Proof.
  intros HO. unfold computeStateAt. intros (top & Htop & HR)%bind_ok. unfold memAUM in Htop.
  destruct (aums c !! h) as [b|] eqn:Eb; [|done]. injection Htop as ->. apply bind_ok in HR as ([start path] & HF & HR).
  apply bind_ok in HR as ([[e t] v] & HW & HR). apply findStart_state in HF as [h0 HF]; [|by rewrite (so_hash _ HO _ _ Eb)|done].
  apply (ffwd_state c _ _ _ _ _ _ _ _ HO (path_within c path) HF) in HW as [_ HW]. rewrite (state_last _ _ _ HO HW) in HR. case_decide as E; [|done].
  injection HR as <-. by rewrite <- E.
Qed.
End store.

(** ** Trust that is rooted in the bootstrap message [g]

    [M] are the messages that ever exist; the oldest that is stored is [r]. *)
Record Universe `{TkaCrypto} (M : AUM → Prop) : Prop := {
  un_inj u v : M u → M v → Hash u = Hash v → u = v;
  un_rank : ∃ rank : AUM → nat, ∀ u v, M u → M v → Parent u = Some (Hash v) → (rank v < rank u)%nat
}.

Section rooted.
Context `{TkaCrypto} (M : AUM → Prop) (MU : Universe M) (g : AUM).

(** The states that follow from the bootstrap message by messages signed with keys that
    are trusted at the time. *)
Inductive Legit : State → Prop :=
  | legit_root st : MessageKind g = AUMCheckpoint → aState g = Some st → aumVerify g st true = Ok () → Legit (cloneForUpdate st g)
  | legit_next s u s' : Legit s → aumVerify u s false = Ok () → applyVerifiedAUM s u = Ok s' → Legit s'.

Lemma legit_keys s : Legit s → keysOk s ∧ ∃ st, aState g = Some st ∧ StateID1 s = StateID1 st ∧ StateID2 s = StateID2 st.
Proof.
  induction 1 as [st Hk Hs HV|s u s' _ [HK (st & Hst & H1 & H2)] HV HA].
  - split; [|by exists st]. destruct (static_parts g (vf_static _ _ (aumVerify_verified _ _ _ HV))) as (_ & HC & _).
    destruct (checkpoint_keys st (HC st Hs)). by split.
  - destruct (apply_keys s u s' (aumVerify_verified _ _ _ HV) HK HA) as (HK' & E1 & E2). split; [done|]. exists st. split_and!; congruence.
Qed.

(** The storage holds the messages of [ord], each after its parent, with the state to
    which it was applied. *)
Section root.
Context (r : AUM).

Record Inv (c : Mem) (ord : list AUM) : Prop := {
  iv_store : storeOk c;
  iv_msgs a : a ∈ ord → M a;
  iv_elem a : a ∈ ord ↔ aums c !! Hash a = Some a;
  iv_nodup : NoDup (Hash <$> ord);
  iv_first : ord !! 0%nat = Some r;
  iv_next i a : ord !! S i = Some a → ∃ j b s s', (j ≤ i)%nat ∧ ord !! j = Some b ∧ Parent a = Some (Hash b) ∧
    StateAt c (Hash b) s ∧ Legit s ∧ aumVerify a s false = Ok () ∧ applyVerifiedAUM s a = Ok s' ∧ StateAt c (Hash a) s';
  iv_root : ∃ st, MessageKind r = AUMCheckpoint ∧ aState r = Some st ∧ Legit (cloneForUpdate st r);
  iv_top p : Parent r = Some p → aums c !! p = None;
  iv_last : lastActiveAncestor c = Some (Hash r);
  iv_times h : is_Some (aums c !! h) → is_Some (commitTimes c !! h)
}.

Lemma inv_inj c ord i j a b : Inv c ord → ord !! i = Some a → ord !! j = Some b → Hash a = Hash b → i = j ∧ a = b.
Proof.
  intros HI Ha Hb E. assert (i = j) as ->; [|split; [done|congruence]].
  apply (NoDup_lookup (Hash <$> ord) i j (Hash a)); [apply HI|by rewrite list_lookup_fmap, Ha|rewrite list_lookup_fmap, Hb; cbn; congruence].
Qed.
Lemma inv_state c ord i a : Inv c ord → ord !! i = Some a → ∃ s, StateAt c (Hash a) s ∧ Legit s.
Proof.
  intros HI Ha. destruct i as [|i].
  - rewrite (iv_first _ _ HI) in Ha. injection Ha as <-. destruct (iv_root _ _ HI) as (st & Hk & Hs & HV). exists (cloneForUpdate st r).
    split; [|done]. eapply at_checkpoint; [|done|done]. apply (iv_elem _ _ HI). eapply list_elem_of_lookup_2, HI.
  - destruct (iv_next _ _ HI i a Ha) as (j & b & s & s' & _ & _ & _ & _ & HL & HV & HA & HS). exists s'. split; [done|]. by eapply legit_next.
Qed.
Lemma inv_legit c ord h s : Inv c ord → StateAt c h s → Legit s ∧ ∃ a, aums c !! h = Some a ∧ Hash a = h ∧ a ∈ ord.
Proof.
  intros HI HS. destruct (state_stored _ _ _ HS) as [a Ha]. pose proof (so_hash _ (iv_store _ _ HI) _ _ Ha) as <-.
  assert (a ∈ ord) as Hin by by apply (iv_elem _ _ HI). split; [|by exists a]. apply list_elem_of_lookup in Hin as [i Hi].
  destruct (inv_state _ _ _ _ HI Hi) as (s' & HS' & HL). by rewrite (state_det _ _ _ _ HS HS').
Qed.

(** Ranks grow from the root, so that nothing that follows comes before it. *)
Lemma inv_above c ord u b : Inv c ord → M u → b ∈ ord → Parent u = Some (Hash b) → Parent r ≠ Some (Hash u).
Proof.
  intros HI Hu Hb Hp Hr. destruct (un_rank _ MU) as [rank HR].
  assert (∀ i a, ord !! i = Some a → (rank r ≤ rank a)%nat) as Hge.
  { induction i as [i IH] using (well_founded_induction lt_wf). intros a Ha. destruct i as [|i]; [rewrite (iv_first _ _ HI) in Ha; by injection Ha as <-|].
    destruct (iv_next _ _ HI i a Ha) as (j & d & _ & _ & Hj & Hd & Hpa & _). specialize (IH j ltac:(lia) d Hd).
    specialize (HR a d (iv_msgs _ _ HI _ (list_elem_of_lookup_2 _ _ _ Ha)) (iv_msgs _ _ HI _ (list_elem_of_lookup_2 _ _ _ Hd)) Hpa). lia. }
  pose proof (list_elem_of_lookup_2 _ _ _ (iv_first _ _ HI)) as Hin. apply list_elem_of_lookup in Hb as Hb'. destruct Hb' as [i Hi].
  pose proof (Hge i b Hi). pose proof (HR u b Hu (iv_msgs _ _ HI _ Hb) Hp). pose proof (HR r u (iv_msgs _ _ HI _ Hin) Hu Hr). lia.
Qed.

(** A verified message may be stored. *)
Lemma commit_mono now c u : aums c !! Hash u = None → aums c ⊆ aums (commitOne now c u).
Proof. intros Hu. cbn. by apply insert_subseteq. Qed.
Lemma inv_commit now c ord u b s s' : Inv c ord → aums c !! Hash u = None → b ∈ ord → Parent u = Some (Hash b) →
  StateAt c (Hash b) s → aumVerify u s false = Ok () → applyVerifiedAUM s u = Ok s' → M u →
  Inv (commitOne now c u) (ord ++ [u]) ∧ StateAt (commitOne now c u) (Hash u) s'.
Proof.
  intros HI Hu Hb Hp HS HV HA Hm. pose proof (inv_above _ _ _ _ HI Hm Hb Hp) as Hg. pose proof (commit_mono now c u Hu) as HM. pose proof (iv_store _ _ HI) as HO.
  assert (storeOk (commitOne now c u)) as HO' by (apply commit_store; auto).
  assert (StateAt (commitOne now c u) (Hash u) s') as HSu.
  { apply (state_child _ b s); [done|by eapply state_mono| |done]. apply child_spec; [done|]. split; [cbn; by rewrite lookup_insert_eq|done]. }
  split; [|done]. split.
  - done.
  - intros a [Ha| ->%list_elem_of_singleton]%elem_of_app; [by apply (iv_msgs _ _ HI)|done].
  - intros a. cbn. rewrite elem_of_app, list_elem_of_singleton, (iv_elem _ _ HI). destruct (decide (Hash u = Hash a)) as [E|E].
    + rewrite E, lookup_insert_eq. rewrite E in Hu. rewrite Hu. naive_solver.
    + rewrite lookup_insert_ne by done. naive_solver.
  - rewrite fmap_app. apply NoDup_app. split_and!; [apply HI| |cbn; apply NoDup_singleton]. intros h (a & -> & Ha)%list_elem_of_fmap E%list_elem_of_singleton.
    apply (iv_elem _ _ HI) in Ha. congruence.
  - rewrite lookup_app_l; [apply HI|]. apply lookup_lt_Some with r, HI.
  - intros i a Hi. destruct (decide (S i < length ord)%nat) as [Hlt|Hge].
    + rewrite lookup_app_l in Hi by done. destruct (iv_next _ _ HI i a Hi) as (j & d & t & t' & Hj & Hd & Hpa & H1 & H2 & H3 & H4 & H5).
      exists j, d, t, t'. split_and!; eauto using state_mono. rewrite lookup_app_l by lia. done.
    + rewrite lookup_app_r in Hi by lia. apply list_lookup_singleton_Some in Hi as [Hi ->]. apply list_elem_of_lookup in Hb as [j Hj].
      exists j, b, s, s'. pose proof (lookup_lt_Some _ _ _ Hj). split_and!; try done; [lia|by rewrite lookup_app_l|by eapply state_mono|by eapply inv_legit].
  - apply HI.
  - intros p Hpg. cbn. rewrite lookup_insert_ne; [by apply (iv_top _ _ HI)|congruence].
  - apply HI.
  - intros h. cbn. rewrite !lookup_insert_is_Some'. intros [?|?]; [by left|right; by apply HI].
Qed.
Lemma inv_recommit now c ord u : Inv c ord → aums c !! Hash u = Some u → Inv (commitOne now c u) ord ∧ aums (commitOne now c u) = aums c.
Proof.
  intros HI Hu. assert (aums (commitOne now c u) = aums c) as E by (cbn; by apply insert_id).
  assert (∀ h s, StateAt c h s → StateAt (commitOne now c u) h s) as HM by (intros h s; apply state_mono; by rewrite E).
  split; [|done]. destruct HI as [HO HMs HE HN HF HX HR HT HL HTi]. split; try done.
  - apply commit_store; auto.
  - intros a. rewrite HE, E. done.
  - intros i a Hi. destruct (HX i a Hi) as (j & b & s & s' & ? & ? & ? & ? & ? & ? & ? & ?). exists j, b, s, s'. split_and!; eauto.
  - intros p Hp. rewrite E. auto.
  - intros h. rewrite E. intros Hh. cbn. rewrite lookup_insert_is_Some'. auto.
Qed.

(** Children come later. *)
Lemma inv_child c ord i x a : Inv c ord → ord !! i = Some x → a ∈ ChildAUMs c (Hash x) → ∃ j s s', (i < j)%nat ∧ ord !! j = Some a ∧
  StateAt c (Hash x) s ∧ StaticValidate a = Ok () ∧ applyVerifiedAUM s a = Ok s'.
Proof.
  intros HI Hx [Ha Hp]%child_spec; [|apply HI]. apply (iv_elem _ _ HI), list_elem_of_lookup in Ha as [[|j] Hj].
  - rewrite (iv_first _ _ HI) in Hj. injection Hj as <-. apply (iv_top _ _ HI) in Hp. apply list_elem_of_lookup_2, (iv_elem _ _ HI) in Hx. congruence.
  - destruct (iv_next _ _ HI j a Hj) as (k & b & s & s' & Hk & Hb & Hpb & HS & _ & HV & HA & _). rewrite Hp in Hpb. injection Hpb as E.
    destruct (inv_inj _ _ _ _ _ _ HI Hx Hb E) as [-> ->]. exists (S j), s, s'. split_and!; try done; [lia|]. by eapply vf_static, aumVerify_verified.
Qed.

(** ** Walking forward *)
Definition walk (c : Mem) (n : nat) (curs : AUM) (s : State) (vis : list AUM) : tres (AUM * State * list AUM) :=
  ffLoop n c advanceByPrimary noDone curs s vis.

Lemma child_weights c ord i x s : Inv c ord → ord !! i = Some x → StateAt c (Hash x) s → ∀ a, a ∈ ChildAUMs c (Hash x) → ∃ w, Weight a s = Ok w.
Proof.
  intros HI Hx HS a Ha. destruct (inv_child _ _ _ _ _ HI Hx Ha) as (j & t & s' & _ & _ & _ & HV & _). apply weight_total; [done|].
  destruct (inv_legit _ _ _ _ HI HS) as [HL _]. by destruct (legit_keys _ HL) as [[? _ _] _].
Qed.
Lemma advance_total c ord i x s : Inv c ord → ord !! i = Some x → StateAt c (Hash x) s →
  (ChildAUMs c (Hash x) = [] ∧ advanceByPrimary s (ChildAUMs c (Hash x)) = Ok None) ∨
  ∃ j a s', (i < j)%nat ∧ ord !! j = Some a ∧ a ∈ ChildAUMs c (Hash x) ∧
    advanceByPrimary s (ChildAUMs c (Hash x)) = Ok (Some (a, s')) ∧ StateAt c (Hash a) s'.
Proof.
  intros HI Hx HS. destruct (ChildAUMs c (Hash x)) as [|b l] eqn:EC; [by left|]. right.
  pose proof (child_weights _ _ _ _ _ HI Hx HS) as HW. rewrite EC in HW. destruct (pick_total s (b :: l) ltac:(done) HW) as (a & Hpick & Ha).
  rewrite <- EC in Ha. destruct (inv_child _ _ _ _ _ HI Hx Ha) as (j & t & s' & Hj & Hja & Ht & _ & HA).
  assert (t = s) as -> by by eapply state_det.
  exists j, a, s'. split_and!; try done; [by rewrite <- EC| |eapply state_child; [apply HI|done|done|done]].
  unfold advanceByPrimary. rewrite Hpick. cbn. by rewrite HA.
Qed.
Lemma walk_total c ord i x s vis n : Inv c ord → ord !! i = Some x → StateAt c (Hash x) s → (length ord ≤ i + n)%nat →
  ∃ r, walk c n x s vis = Ok r.
Proof.
  intros HI. revert i x s vis. induction n as [|n IH]; intros i x s vis Hx HS Hn; [apply lookup_lt_Some in Hx; lia|].
  unfold walk. cbn [ffLoop noDone]. destruct (advance_total _ _ _ _ _ HI Hx HS) as [[_ ->]|(j & a & s' & Hj & Ha & _ & -> & HS')]; [by eexists|].
  cbn. apply (IH j a s'); [done|done|lia].
Qed.
Lemma walk_mono c n m x s vis res : walk c n x s vis = Ok res → (n ≤ m)%nat → walk c m x s vis = Ok res.
Proof.
  revert m x s vis. induction n as [|n IH]; intros m x s vis; [done|]. intros HR Hm. destruct m as [|m]; [lia|]. unfold walk in *. cbn [ffLoop noDone] in *.
  apply bind_ok in HR as (o & Ho & HR). rewrite Ho. cbn. destruct o as [[a s']|]; [apply IH; [done|lia]|done].
Qed.
Lemma advance_none s l : advanceByPrimary s l = Ok None → l = [].
Proof. destruct l as [|a l]; [done|]. unfold advanceByPrimary. intros (b & _ & HR)%bind_ok. by apply bind_ok in HR as (t & _ & ?). Qed.
Lemma walk_end c n x s vis e t v : walk c n x s vis = Ok (e, t, v) → ChildAUMs c (Hash e) = [].
Proof.
  revert x s vis. induction n as [|n IH]; intros x s vis; [done|]. unfold walk in *. cbn [ffLoop noDone].
  intros (o & Ho%wrapErr_ok & HR)%bind_ok. destruct o as [[a s']|]; [by eapply IH|]. injection HR as <- <- <-. by apply advance_none in Ho.
Qed.
(** With another message behind the end, the walk ends there. *)
Lemma walk_extend now c ord n x s vis e t v u s' : Inv c ord → x ∈ ord → StateAt c (Hash x) s →
  walk c n x s vis = Ok (e, t, v) → aums c !! Hash u = None → Parent u = Some (Hash e) → Parent r ≠ Some (Hash u) →
  applyVerifiedAUM t u = Ok s' → ∃ v', walk (commitOne now c u) (S n) x s vis = Ok (u, s', v').
Proof.
  intros HI Hin HS HW Hu Hp Hg HA. pose proof (walk_end _ _ _ _ _ _ _ _ HW) as HE. pose proof (iv_store _ _ HI) as HO.
  assert (∀ q, q ≠ Hash e → ChildAUMs (commitOne now c u) q = ChildAUMs c q) as Hsame.
  { intros q Hq. unfold ChildAUMs. rewrite commit_children, decide_False by (intros [? _]; congruence). apply list_fmap_ext. intros i h Hh.
    apply list_elem_of_lookup_2, (so_index _ HO) in Hh as (a & Ha & _). cbn. rewrite lookup_insert_ne; [done|congruence]. }
  assert (childHashes c (Hash e) = []) as HE' by (rewrite <- (child_hashes c _ HO); by rewrite HE).
  assert (ChildAUMs (commitOne now c u) (Hash e) = [u]) as Hnew.
  { unfold ChildAUMs. rewrite commit_children, HE', decide_True by (split; [done|apply not_elem_of_nil]). cbn. by rewrite lookup_insert_eq. }
  assert (ChildAUMs (commitOne now c u) (Hash u) = []) as Hleaf.
  { assert (e ∈ ord) as He by (apply (iv_elem _ _ HI); eapply ff_state; [done|apply (primary_within c)|by apply (iv_elem _ _ HI)|done|exact HW]).
    rewrite Hsame by (apply (iv_elem _ _ HI) in He; congruence). destruct (ChildAUMs c (Hash u)) as [|a l] eqn:EC; [done|].
    assert (a ∈ ChildAUMs c (Hash u)) as Ha by (rewrite EC; by left). apply child_spec in Ha as [Ha Hpa]; [|done].
    apply (iv_elem _ _ HI), list_elem_of_lookup in Ha as [[|i] Hi]; [rewrite (iv_first _ _ HI) in Hi; congruence|].
    destruct (iv_next _ _ HI i a Hi) as (j & b & ? & ? & _ & Hb & Hpb & _). apply list_elem_of_lookup_2, (iv_elem _ _ HI) in Hb. congruence. }
  clear Hin HS. revert x s vis HW. induction n as [|n IH]; intros x s vis; [done|]. unfold walk in *. cbn [ffLoop noDone].
  intros (o & Ho%wrapErr_ok & HR)%bind_ok. destruct o as [[a s1]|].
  - assert (Hash x ≠ Hash e) as Hne.
    { intros E. rewrite E, HE in Ho. done. }
    rewrite Hsame, Ho by done. cbn [wrapErr mbind res_bind]. by apply IH.
  - injection HR as -> -> _. rewrite Hnew. cbn. rewrite HA. cbn. rewrite Hleaf. cbn. by eexists.
Qed.

(** ** Walking back *)
(** The oldest message of a candidate is one of the first [n]. *)
Definition within (ord : list AUM) (n : nat) (ch : chain) : Prop := ∃ i, (i < n)%nat ∧ ord !! i = Some (chOldest ch).

Lemma step_within c ord last ch n : Inv c ord → within ord (S n) ch → ∃ ch' m, stepCandidate c last ch = Ok (ch', m) ∧
  (if m : bool then within ord n ch' ∧ (0 < n)%nat else ch' = ch ∧ chOldest ch = r).
Proof.
  intros HI (i & Hi & Ho). unfold stepCandidate. destruct i as [|i].
  - rewrite (iv_first _ _ HI) in Ho. injection Ho as Ho. rewrite <- Ho. destruct (Parent r) as [p|] eqn:Ep; [|by eexists _, false].
    unfold memAUM. rewrite (iv_top _ _ HI _ Ep). by eexists _, false.
  - destruct (iv_next _ _ HI i _ Ho) as (j & b & _ & _ & Hj & Hb & -> & _). unfold memAUM.
    rewrite (proj1 (iv_elem _ _ HI b)) by (by eapply list_elem_of_lookup_2). cbn. eexists _, true. split; [done|]. split; [|lia]. exists j. split; [lia|done].
Qed.
Lemma steps_within c ord last l n : Inv c ord → Forall (within ord (S n)) l → ∃ l' m, stepCandidates c last l = Ok (l', m) ∧ length l' = length l ∧
  (if m : bool then Forall (λ ch, within ord n ch ∨ chOldest ch = r) l' ∧ (0 < n)%nat else Forall (λ ch, chOldest ch = r) l').
Proof.
  intros HI. induction 1 as [|ch l Hch Hl IH]; [by exists [], false|]. destruct IH as (l' & m & Hl' & Hlen & HM).
  destruct (step_within c ord last ch n HI Hch) as (ch' & m1 & Hs & Hm1). cbn. rewrite Hs. cbn. rewrite Hl'. cbn. eexists _, _. split; [done|].
  split; [cbn; congruence|]. destruct m1, m; cbn in *.
  - destruct HM, Hm1. split; [|done]. constructor; [by left|done].
  - destruct Hm1. split; [|done]. constructor; [by left|]. eapply Forall_impl; [exact HM|]. by right.
  - destruct HM, Hm1 as [-> ?]. split; [|done]. constructor; [by right|done].
  - destruct Hm1 as [-> ?]. by constructor.
Qed.
Lemma back_within c ord last l n : Inv c ord → Forall (within ord n) l → (0 < n)%nat →
  ∃ l', backLoop n c last l = Ok l' ∧ length l' = length l ∧ Forall (λ ch, chOldest ch = r) l'.
Proof.
  intros HI. revert l. induction n as [|n IH]; intros l Hl Hn; [lia|]. cbn. destruct (steps_within c ord last l n HI Hl) as (l' & m & -> & Hlen & HM).
  cbn. destruct m; [|by eexists]. destruct HM as [HM Hn']. destruct (IH l') as (l2 & -> & Hlen2 & HF); [|done|eexists; split_and!; [done|congruence|done]].
  eapply Forall_impl; [exact HM|]. intros ch [?|Hg]; [done|]. exists 0%nat. split; [done|]. rewrite Hg. apply HI.
Qed.
Lemma ancestor_root l : l ≠ [] → Forall (λ ch, chOldest ch = r) l → computeActiveAncestor l = Ok (Hash r).
Proof.
  intros Hne HF. unfold computeActiveAncestor.
  assert (∀ m : gmap bytes bool, m = ∅ ∨ (∃ b, m = {[Hash r := b]}) →
    ∃ b, foldl (λ m c, <[Hash (chOldest c) := chainsThroughActive c]> m) m l = {[Hash r := b]}) as HG.
  { induction HF as [|ch l Hch HF IH]; intros m Hm; [done|]. cbn. rewrite Hch. destruct l as [|ch2 l].
    - cbn. destruct Hm as [->|[b ->]]; [by exists (chainsThroughActive ch)|]. exists (chainsThroughActive ch). apply insert_singleton_eq.
    - apply IH; [done|]. right. destruct Hm as [->|[b ->]]; eexists; [done|apply insert_singleton_eq]. }
  destruct (HG ∅ (or_introl eq_refl)) as [b ->]. by rewrite map_to_list_singleton.
Qed.

Definition rootState : State := match aState r with Some st => cloneForUpdate st r | None => zeroTkaState end.
Lemma inv_root_at c ord : Inv c ord → StateAt c (Hash r) rootState ∧ aums c !! Hash r = Some r.
Proof.
  intros HI. destruct (iv_root _ _ HI) as (st & Hk & Hs & _). unfold rootState. rewrite Hs.
  assert (aums c !! Hash r = Some r) as Hg by (apply (iv_elem _ _ HI); eapply list_elem_of_lookup_2, HI). split; [|done]. by eapply at_checkpoint.
Qed.
Lemma root_computed c ord n : (0 < n)%nat → Inv c ord → computeStateAt c n (Hash r) = Ok rootState.
Proof.
  intros Hn HI. destruct n as [|n]; [lia|]. destruct (inv_root_at c ord HI) as [_ Hg]. destruct (iv_root _ _ HI) as (st & Hk & Hs & _).
  unfold computeStateAt, memAUM. rewrite Hg. cbn [of_option mbind res_bind]. cbn [findStart]. rewrite decide_True, Hs by done. cbn [mbind res_bind].
  unfold fastForwardWithAdvancer. cbn [LastAUMHash cloneForUpdate]. unfold memAUM. rewrite Hg. cbn [of_option wrapErr mbind res_bind ffLoop].
  rewrite bool_decide_true by done. cbn. rewrite decide_True by done. unfold rootState. by rewrite Hs.
Qed.

Lemma heads_within c ord : Inv c ord → Heads c ≠ [] ∧ ∀ a, a ∈ Heads c → a ∈ ord.
Proof.
  intros HI. assert (∀ a, a ∈ (map_to_list (aums c)).*2 ↔ a ∈ ord) as Hall.
  { intros a. rewrite (iv_elem _ _ HI), list_elem_of_fmap. split.
    - intros ([h b] & -> & Hb%elem_of_map_to_list). cbn. by rewrite (so_hash _ (iv_store _ _ HI) _ _ Hb).
    - intros Ha. exists (Hash a, a). split; [done|]. by apply elem_of_map_to_list. }
  split; [|intros a [_ Ha]%list_elem_of_filter; by apply Hall].
  pose proof (lookup_lt_Some _ _ _ (iv_first _ _ HI)) as Hlen. destruct (lookup_lt_is_Some_2 ord (length ord - 1) ltac:(lia)) as [a Ha].
  intros E. assert (a ∈ Heads c) as Hx; [|rewrite E in Hx; by apply elem_of_nil in Hx]. apply list_elem_of_filter. split.
  - rewrite <- (child_hashes c _ (iv_store _ _ HI)). destruct (ChildAUMs c (Hash a)) as [|b l] eqn:EC; [done|].
    destruct (inv_child _ _ _ _ b HI Ha) as (j & _ & _ & Hj & Hjb & _); [rewrite EC; by left|]. apply lookup_lt_Some in Hjb. lia.
  - apply Hall. by eapply list_elem_of_lookup_2.
Qed.
Lemma elem_insertLess {A} (less : A → A → bool) x y l : x ∈ insertLess less y l → x = y ∨ x ∈ l.
Proof.
  induction l as [|z l IH]; cbn; [rewrite list_elem_of_singleton; auto|]. destruct (less z y); rewrite !elem_of_cons; naive_solver.
Qed.
Lemma elem_sortLess {A} (less : A → A → bool) x l : x ∈ sortLess less l → x ∈ l.
Proof. induction l as [|y l IH]; [done|]. cbn. intros [->|Hx]%elem_insertLess; [by left|]. right. by apply IH. Qed.

(** The authority that the storage determines. *)
Lemma recompute c ord last n : (0 < n)%nat → Inv c ord → (length ord ≤ n)%nat →
  ∃ e t v, walk c n r rootState [] = Ok (e, t, v) ∧
    computeActiveChain c last n = Ok (mkChain r e t false).
Proof.
  intros Hn HI Hlen. destruct (inv_root_at c ord HI) as [HS Hg]. destruct (heads_within c ord HI) as [Hne Hin].
  destruct (walk_total c ord 0 r rootState [] n HI (iv_first _ _ HI) HS Hlen) as [[[e t] v] HW].
  exists e, t, v. split; [done|]. unfold computeActiveChain, computeChainCandidates. set (l := sortLess _ _).
  assert (Forall (within ord n) l) as HF.
  { apply Forall_forall. intros ch Hch%elem_sortLess. apply list_elem_of_fmap in Hch as (a & -> & Ha). apply Hin, list_elem_of_lookup in Ha as [i Hi].
    exists i. split; [|done]. apply lookup_lt_Some in Hi. lia. }
  destruct (back_within c ord last l n HI HF Hn) as (l' & HB & Hll & HG). rewrite HB. cbn [wrapErr mbind res_bind].
  assert (l' ≠ []) as Hne'.
  { intros ->. assert (l = []) as El by by apply nil_length_inv. destruct (Heads c) as [|a hs]; [done|]. by apply sort_nonempty in El. }
  destruct l' as [|ch l1]; [done|]. rewrite (ancestor_root (ch :: l1)) by done. cbn [wrapErr mbind res_bind].
  unfold memAUM. rewrite Hg. cbn [of_option mbind res_bind].
  rewrite (root_computed c ord n Hn HI). cbn [wrapErr mbind res_bind].
  unfold fastForward, fastForwardWithAdvancer. rewrite (state_last _ _ _ (iv_store _ _ HI) HS). unfold memAUM. rewrite Hg.
  cbn [of_option wrapErr mbind res_bind]. unfold walk in HW. rewrite HW. done.
Qed.

(** ** Updates *)
Record InformInv (now : Z) (c : Mem) (a : Authority) (us done : list AUM) (x : InformSt) : Prop := {
  ii_inv : ∃ ord, Inv (CommitVerifiedAUMs now (toCommit x) c) ord;
  ii_mono : aums c ⊆ aums (CommitVerifiedAUMs now (toCommit x) c);
  ii_from h b : aums (CommitVerifiedAUMs now (toCommit x) c) !! h = Some b → aums c !! h = Some b ∨ b ∈ us;
  ii_state h s : stateAt x !! h = Some s → StateAt (CommitVerifiedAUMs now (toCommit x) c) h s;
  ii_tip : isHeadChain x = true → let e := default (auHead a) (last done) in
    prevHash x = Hash e ∧ aums (CommitVerifiedAUMs now (toCommit x) c) !! Hash e = Some e ∧ ∃ s, stateAt x !! Hash e = Some s ∧
    ((∃ n v, walk c n r rootState [] = Ok (auHead a, auState a, v)) →
     ∃ n v, walk (CommitVerifiedAUMs now (toCommit x) c) n r rootState [] = Ok (e, s, v))
}.

(** What [informOne] does with a message that is not stored. *)
Lemma informOne_new c x u x' : aums c !! Hash u = None → informOne c x u = Ok x' → ∃ p s s',
  Parent u = Some p ∧ (stateAt x !! p = Some s ∨ computeStateAt c maxScanIterations p = Ok s) ∧
  aumVerify u s false = Ok () ∧ applyVerifiedAUM s u = Ok s' ∧
  x' = mkInform (<[Hash u := s']> (<[p := s]> (stateAt x))) (toCommit x ++ [u]) (Hash u) (isHeadChain x && bool_decide (p = prevHash x)).
Proof.
  intros Hu. unfold informOne, memAUM. rewrite Hu. cbn [of_option]. destruct (Parent u) as [p|]; [|done]. intros (s & Hs & HR)%bind_ok.
  apply bind_ok in HR as ([] & HV%wrapErr_ok & HR). apply bind_ok in HR as (s' & HA%wrapErr_ok & [= <-]).
  exists p, s, s'. split_and!; try done. destruct (stateAt x !! p); [left; congruence|right; by apply wrapErr_ok in Hs].
Qed.

Lemma inform_step now c a us done x u x' : storeOk c → Forall M us → u ∈ us → InformInv now c a us done x → informOne c x u = Ok x' →
  InformInv now c a us (done ++ [u]) x'.
Proof.
  intros HO HF Hu [[ord HI] HM HFr HSt HT] Hstep. rewrite Forall_forall in HF. pose proof (HF u Hu) as Hm. destruct (aums c !! Hash u) as [b|] eqn:Eu.
  { unfold informOne, memAUM in Hstep. rewrite Eu in Hstep. cbn in Hstep. injection Hstep as <-. split; try done. by exists ord. }
  destruct (informOne_new c x u x' Eu Hstep) as (p & s & s' & Hp & Hs & HV & HA & ->).
  set (pd := CommitVerifiedAUMs now (toCommit x) c) in *.
  assert (CommitVerifiedAUMs now (toCommit x ++ [u]) c = commitOne now pd u) as EP by (unfold pd, CommitVerifiedAUMs; by rewrite foldl_app).
  assert (StateAt pd p s) as HSp.
  { destruct Hs as [Hs|Hs]; [auto|]. eapply state_mono; [exact HM|]. by eapply computeStateAt_state. }
  destruct (inv_legit _ _ _ _ HI HSp) as (HL & d & Hd & Hdh & Hdo).
  assert (∃ ord', Inv (commitOne now pd u) ord' ∧ StateAt (commitOne now pd u) (Hash u) s' ∧ aums pd ⊆ aums (commitOne now pd u) ∧
    (aums pd !! Hash u = None ∨ u ∈ ChildAUMs pd p)) as (ord' & HI' & HSu & HM' & Hcase).
  { destruct (aums pd !! Hash u) as [b|] eqn:Eb.
    - pose proof (so_hash _ (iv_store _ _ HI) _ _ Eb) as Hbu.
      assert (b = u) as -> by (apply (un_inj _ MU); [apply (iv_msgs _ _ HI), (iv_elem _ _ HI); congruence|done|done]).
      destruct (inv_recommit now pd ord u HI Eb) as [HI' E]. exists ord.
      assert (u ∈ ChildAUMs pd p) as Hch by (apply child_spec; [apply HI|done]). split_and!; [done| |by rewrite E|by right].
      apply (state_mono pd); [by rewrite E|]. apply (state_child pd d s); [apply HI|congruence|congruence|done].
    - destruct (inv_commit now pd ord u d s s' HI Eb Hdo) as [HI' HSu]; [congruence|congruence|done|done|done|].
      exists (ord ++ [u]). split_and!; [done|done|by apply commit_mono|by left]. }
  split; cbn [toCommit stateAt prevHash isHeadChain]; rewrite ?EP.
  - by exists ord'.
  - by etransitivity.
  - intros h b Hb. cbn in Hb. apply lookup_insert_Some in Hb as [[_ <-]|[_ Hb]]; [by right|by apply HFr].
  - intros h t. rewrite lookup_insert_Some. intros [[<- <-]|[_ Ht]]; [done|]. apply lookup_insert_Some in Ht as [[<- <-]|[_ Ht]]; eapply state_mono; eauto.
  - intros [Hhc ->%bool_decide_eq_true]%andb_true_iff. rewrite last_snoc. cbn [default from_option id].
    destruct (HT Hhc) as (Hprev & He & t & Ht & HW). split_and!; [done|by cbn; rewrite lookup_insert_eq|]. exists s'. rewrite lookup_insert_eq. split; [done|].
    intros H0. destruct (HW H0) as (n & v & Hw). set (e := default (auHead a) (last done)) in *. rewrite Hprev in *.
    assert (t = s) as -> by (eapply state_det; [by apply HSt|done]).
    assert (aums pd !! Hash u = None) as Hnew.
    { destruct Hcase as [?|Hch]; [done|]. rewrite (walk_end _ _ _ _ _ _ _ _ Hw) in Hch. by apply elem_of_nil in Hch. }
    destruct (inv_root_at pd ord HI) as [Hrs Hrg].
    destruct (walk_extend now pd ord n r rootState [] e s v u s' HI) as [v' Hw']; [by apply (iv_elem _ _ HI)|done|done|done|done| |done|].
    { apply (inv_above pd ord u e); [done|done|by apply (iv_elem _ _ HI)|done]. }
    by exists (S n), v'.
Qed.
Lemma inform_loop now c a us l done x x' : storeOk c → Forall M us → (∀ u, u ∈ l → u ∈ us) → InformInv now c a us done x →
  informLoop c x l = Ok x' → InformInv now c a us (done ++ l) x'.
Proof.
  intros HO HF. revert done x. induction l as [|u l IH]; intros done x Hl HI; cbn; [intros [= <-]; by rewrite app_nil_r|].
  intros (x1 & H1 & HR)%bind_ok. rewrite cons_middle, app_assoc. apply (IH _ x1); [intros; apply Hl; by right| |done].
  eapply inform_step; eauto. apply Hl. by left.
Qed.

(** ** The authority over the storage *)
Definition scanLimit : nat := maxScanIterations.
Lemma scan_pos : (0 < maxScanIterations)%nat.
Proof. by apply Nat.ltb_lt. Qed.
#[local] Opaque maxScanIterations.

Lemma inv_size c ord : Inv c ord → (length ord ≤ size (aums c))%nat.
Proof.
  intros HI. rewrite <- (size_dom (D := gset bytes)), <- (length_fmap Hash), <- (size_list_to_set (C := gset bytes)) by apply HI.
  apply subseteq_size. intros h. rewrite elem_of_list_to_set, elem_of_dom. intros (a & -> & Ha)%list_elem_of_fmap. eexists. by apply (iv_elem _ _ HI).
Qed.

(** An authority over a storage whose oldest message is [r] and that never had more than
    [peak] messages. *)
Record authAt (peak : nat) (c : Mem) (a : Authority) : Prop := {
  ao_peak : (size (aums c) ≤ peak)%nat;
  ao_inv : ∃ ord, Inv c ord;
  ao_head : aums c !! Hash (auHead a) = Some (auHead a);
  ao_state : StateAt c (Hash (auHead a)) (auState a);
  ao_canon : (peak ≤ maxScanIterations)%nat → oldestAncestor a = r ∧
    ∃ v, walk c maxScanIterations r rootState [] = Ok (auHead a, auState a, v)
}.

(** What is recomputed from the storage. *)
Lemma recomputed_ok pk c ord lst ch : Inv c ord → (size (aums c) ≤ pk)%nat → computeActiveChain c lst maxScanIterations = Ok ch → authAt pk c (ofChain ch).
Proof.
  intros HI Hpk HC. assert (aums c !! Hash (chHead ch) = Some (chHead ch) ∧ StateAt c (Hash (chHead ch)) (chState ch)) as [Hh Hs].
  { unfold computeActiveChain in HC. apply bind_ok in HC as (l & _ & HC). destruct l as [|x l]; [done|]. apply bind_ok in HC as (h & _ & HC).
    apply bind_ok in HC as (anc & _ & HC). apply bind_ok in HC as (s & Hs%wrapErr_ok & HC). apply bind_ok in HC as ([[e t] v] & HW%wrapErr_ok & HC).
    injection HC as <-. cbn. eapply ffwd_state; [apply HI|apply (primary_within c)|eapply computeStateAt_state; [apply HI|exact Hs]|exact HW]. }
  split; [done|by exists ord|done|done|]. intros Hsize. pose proof (inv_size _ _ HI).
  destruct (recompute c ord lst maxScanIterations scan_pos HI) as (e & t & v & HW & HC'); [lia|]. rewrite HC' in HC. injection HC as <-.
  split; [done|]. by exists v.
Qed.

Lemma walk_unique c n m r1 r2 : walk c n r rootState [] = Ok r1 → walk c m r rootState [] = Ok r2 → r1 = r2.
Proof.
  intros H1 H2. apply (walk_mono c n (max n m)) in H1; [|lia]. apply (walk_mono c m (max n m)) in H2; [|lia]. congruence.
Qed.

Lemma inform_start now c a us ord : Inv c ord → aums c !! Hash (auHead a) = Some (auHead a) → StateAt c (Hash (auHead a)) (auState a) →
  InformInv now c a us [] (mkInform {[Hash (auHead a) := auState a]} [] (Hash (auHead a)) true).
Proof.
  intros HI Hh HS. split; cbn [toCommit stateAt prevHash isHeadChain CommitVerifiedAUMs foldl].
  - by exists ord.
  - done.
  - auto.
  - intros h s [<- <-]%lookup_singleton_Some. done.
  - intros _. cbn. split_and!; [done|done|]. exists (auState a). rewrite lookup_singleton_eq. split; [done|]. auto.
Qed.
Lemma inform_ok pk now c a us c' a' res : authAt pk c a → Forall M us → Inform now c a us = (c', a', res) → authAt (pk `max` size (aums c')) c' a'.
Proof.
  intros HA HF HR. pose proof HA as [Hpk [ord HI] Hh HS HC]. unfold Inform in HR. destruct (InformIdempotent now c a us) as [c1 r1] eqn:EI.
  unfold InformIdempotent in EI. destruct (last us) as [lu|] eqn:El; [|simplify_eq; by rewrite Nat.max_l].
  unfold Head in EI. rewrite (state_last _ _ _ (iv_store _ _ HI) HS) in EI.
  destruct (informLoop _ _ us) as [x| |] eqn:EL; [|simplify_eq; rewrite Nat.max_l; done..].
  assert (InformInv now c a us us x) as [[ord' HI'] HM HFr HSt HT].
  { change (InformInv now c a us ([] ++ us) x). eapply inform_loop; [apply HI|done|done|by eapply inform_start|exact EL]. }
  set (pd := CommitVerifiedAUMs now (toCommit x) c) in *. destruct (isHeadChain x) eqn:Ehc.
  - destruct (HT eq_refl) as (Hprev & He & s & Hs & HW). rewrite El in *. cbn [default from_option id] in *.
    assert (c' = pd ∧ a' = mkAuthority lu (oldestAncestor a) s) as [-> ->] by (rewrite Hprev, Hs in EI; by simplify_eq).
    split; cbn [auHead auState oldestAncestor]; [lia|by exists ord'|done|by apply HSt|]. intros Hsize.
    destruct HC as [Hold [v Hv]]; [lia|]. split; [done|]. destruct HW as (n & v' & Hw); [by eexists _, _|].
    destruct (recompute pd ord' None maxScanIterations scan_pos HI') as (e & t & v2 & HW2 & _); [pose proof (inv_size _ _ HI'); lia|].
    exists v2. rewrite HW2. f_equal. symmetry. pose proof (walk_unique _ _ _ _ _ Hw HW2). by simplify_eq.
  - assert (c' = pd) as -> by (by destruct r1; simplify_eq).
    destruct (computeActiveChain pd (Some (Hash (oldestAncestor a))) maxScanIterations) as [ch| |] eqn:ECh;
      [assert (a' = ofChain ch) as -> by (cbn in EI; by simplify_eq); eapply recomputed_ok; [done|lia|done]| |].
    all: assert (a' = a) as -> by (cbn in EI; by simplify_eq); split; [lia|by exists ord'|by eapply lookup_weaken|by eapply state_mono|]; intros Hsize;
      destruct (recompute pd ord' (Some (Hash (oldestAncestor a))) maxScanIterations scan_pos HI') as (e2 & t2 & v2 & _ & HC2);
        [pose proof (inv_size _ _ HI'); lia|]; congruence.
Qed.

(** Walks over the same messages, whatever the order in which they were stored. *)
Lemma children_perm c1 c2 p : storeOk c1 → storeOk c2 → aums c1 = aums c2 → ChildAUMs c1 p ≡ₚ ChildAUMs c2 p.
Proof.
  intros H1 H2 E. apply NoDup_Permutation.
  - apply (NoDup_fmap_1 Hash). rewrite child_hashes by done. apply H1.
  - apply (NoDup_fmap_1 Hash). rewrite child_hashes by done. apply H2.
  - intros a. rewrite !child_spec by done. by rewrite E.
Qed.
Lemma advance_perm s l1 l2 r1 r2 : l1 ≡ₚ l2 → NoDup (Hash <$> l1) → advanceByPrimary s l1 = Ok r1 → advanceByPrimary s l2 = Ok r2 → r1 = r2.
Proof.
  intros HP HN. unfold advanceByPrimary. destruct l1 as [|a l1], l2 as [|b l2]; [congruence|by apply Permutation_nil_l in HP|by apply Permutation_nil_r in HP|].
  intros (a1 & Ha1 & R1)%bind_ok (a2 & Ha2 & R2)%bind_ok. assert (a1 = a2) as <- by by eapply pick_perm.
  apply bind_ok in R1 as (s1 & Hs1 & [= <-]). apply bind_ok in R2 as (s2 & Hs2 & [= <-]). congruence.
Qed.
Lemma walk_perm c1 c2 n x s vis r1 r2 : storeOk c1 → storeOk c2 → aums c1 = aums c2 →
  walk c1 n x s vis = Ok r1 → walk c2 n x s vis = Ok r2 → r1 = r2.
Proof.
  intros H1 H2 E. revert x s vis. induction n as [|n IH]; intros x s vis; [done|]. unfold walk in *. cbn [ffLoop noDone].
  intros (o1 & Ho1%wrapErr_ok & R1)%bind_ok (o2 & Ho2%wrapErr_ok & R2)%bind_ok.
  assert (o1 = o2) as <-.
  { apply (advance_perm s (ChildAUMs c1 (Hash x)) (ChildAUMs c2 (Hash x))); [by apply children_perm| |done|done]. rewrite child_hashes by done. apply H1. }
  destruct o1 as [[a s']|]; [by eapply IH|]. by simplify_eq.
Qed.

Lemma inv_parent c ord x : Inv c ord → aums c !! Hash x = Some x → x ≠ r → ∃ b, Parent x = Some (Hash b) ∧ aums c !! Hash b = Some b.
Proof.
  intros HI Hx Hne. apply (iv_elem _ _ HI), list_elem_of_lookup in Hx as [[|i] Hi]; [rewrite (iv_first _ _ HI) in Hi; congruence|].
  destruct (iv_next _ _ HI i x Hi) as (j & b & _ & _ & _ & Hb & Hp & _). exists b. split; [done|]. by apply list_elem_of_lookup_2, (iv_elem _ _ HI) in Hb.
Qed.
End root.

(** The oldest message is the only one without a stored parent. *)
Lemma inv_root_unique r1 r2 c1 c2 o1 o2 : Inv r1 c1 o1 → Inv r2 c2 o2 → aums c1 = aums c2 → r1 = r2.
Proof.
  intros I1 I2 E. destruct (decide (r1 = r2)) as [|Hne]; [done|]. destruct (inv_root_at r1 c1 o1 I1) as [_ H1]. rewrite E in H1.
  destruct (inv_parent r2 c2 o2 r1 I2 H1 Hne) as (b & Hp & Hb). apply (iv_top _ _ _ I1) in Hp. congruence.
Qed.

Lemma bootstrap_ok now c a : M g → Bootstrap now ChonkMem g = (c, Ok a) → authAt g 1 c a.
Proof.
  intros Hm HB. unfold Bootstrap in HB. cbn [negb] in HB. change (zlen (Heads ChonkMem) =? 0) with true in HB. cbn [negb] in HB.
  destruct (decide (MessageKind g = AUMCheckpoint)) as [Hk|Hk]; [rewrite bool_decide_true in HB by done|by rewrite bool_decide_false in HB].
  cbn [negb] in HB. destruct (aState g) as [st|] eqn:Est; [|done]. destruct (aumVerify g st true) as [[]| |] eqn:EV; try done.
  injection HB as <- HB. set (c := SetLastActiveAncestor _ _) in *.
  assert (storeOk c) as HO.
  { assert (storeOk (commitOne now ChonkMem g)) as [H1 H2 H3]; [|split; [exact H1|exact H2|exact H3]]. apply commit_store; [|by left]. split; cbn.
    - done.
    - intros p h. unfold childHashes. cbn. rewrite lookup_empty. cbn. rewrite elem_of_nil. naive_solver.
    - intros p. unfold childHashes. cbn. rewrite lookup_empty. constructor. }
  assert (Inv g c [g]) as HI.
  { split; [done|by intros ? ->%list_elem_of_singleton| |cbn; apply NoDup_singleton|done|done|exists st; split_and!; try done; by apply legit_root| |done|].
    - intros b. cbn. rewrite list_elem_of_singleton. split; [intros ->; by rewrite lookup_insert_eq|]. rewrite lookup_insert_Some. naive_solver.
    - intros p Hp. cbn. rewrite lookup_insert_ne; [done|]. intros <-.
      destruct (un_rank _ MU) as [rank HR]. specialize (HR g g Hm Hm Hp). lia.
    - intros h. cbn. rewrite !lookup_insert_is_Some', !lookup_empty. intros [?|[? ?]]; [by left|done]. }
  unfold Open in HB. apply bind_ok in HB as (ch & HC%wrapErr_ok & [= <-]). eapply recomputed_ok; [done| |done].
  unfold c. cbn. by rewrite insert_empty, map_size_singleton.
Qed.

End rooted.
