(* ===== verification/TkaPickThms.v ===== *)
(** * The active chain as a sequence of picks

    From the oldest message on, each message of the active chain is picked among the
    children of the one before. *)

From stdpp Require Import base gmap sets list strings relations.
From S2P Require Import Prelude GoStd Bytes Tka TkaChain TkaThms TkaChainThms.

Section pick.
Context `{TkaCrypto}.

Definition pick (c : Mem) (x y : AUM * State) : Prop := advanceByPrimary x.2 (ChildAUMs c (Hash x.1)) = Ok (Some y).
Definition picks (c : Mem) : AUM * State → AUM * State → Prop := rtc (pick c).

Lemma advance_some s l a s' : advanceByPrimary s l = Ok (Some (a, s')) ↔ pickNextAUM s l = Ok a ∧ applyVerifiedAUM s a = Ok s'.
Proof.
  unfold advanceByPrimary. destruct l as [|x l]; [split; [done|by intros [? _]]|]. rewrite bind_ok. split.
  - intros (b & Hb & (t & Ht%wrapErr_ok & [= -> ->])%bind_ok). done.
  - intros [Hp Ha]. exists a. split; [done|]. by rewrite Ha.
Qed.
Lemma pick_det c x y z : pick c x y → pick c x z → y = z.
Proof. unfold pick. congruence. Qed.
Lemma picks_linear c x y z : picks c x y → picks c x z → picks c y z ∨ picks c z y.
Proof.
  intros H1. revert z. induction H1 as [x|x a y Ha Hay IH]; intros z H2; [by left|]. inversion H2 as [|? b ? Hb Hr]; subst.
  - right. by eapply rtc_l.
  - apply (pick_det _ _ _ _ Ha) in Hb as <-. by apply IH.
Qed.
Lemma picks_end c x y z : picks c x y → picks c x z → ChildAUMs c (Hash y.1) = [] → picks c z y.
Proof.
  intros H1 H2 HE. destruct (picks_linear c x y z H1 H2) as [HL|HL]; [|done]. inversion HL as [|? b ? Hb]; subst; [done|].
  unfold pick in Hb. rewrite HE in Hb. done.
Qed.
Lemma picks_unique c x y z : picks c x y → picks c x z → ChildAUMs c (Hash y.1) = [] → ChildAUMs c (Hash z.1) = [] → y = z.
Proof.
  intros H1 H2 E1 E2. pose proof (picks_end _ _ _ _ H1 H2 E1) as HL. inversion HL as [|? b ? Hb]; subst; [done|]. unfold pick in Hb. by rewrite E2 in Hb.
Qed.

(** A walk makes the picks, up to a message without children; it visits what it picks. *)
Lemma walk_picks c n x s vis e t v : walk c n x s vis = Ok (e, t, v) → picks c (x, s) (e, t) ∧ ∃ l, v = vis ++ l ∧
  ∀ y, y ∈ l ↔ ∃ u, picks c (x, s) (y, u) ∧ picks c (y, u) (e, t).
Proof.
  revert x s vis. induction n as [|n IH]; intros x s vis HW; [done|]. pose proof (walk_end _ _ _ _ _ _ _ _ HW) as HE. unfold walk in HW. cbn [ffLoop noDone] in HW.
  apply bind_ok in HW as (o & Ho%wrapErr_ok & HR). destruct o as [[a s']|].
  - destruct (IH a s' _ HR) as (HP & l & -> & Hl). assert (pick c (x, s) (a, s')) as Hp by done. split; [by eapply rtc_l|].
    exists (x :: l). split; [by rewrite <- app_assoc|]. intros y. rewrite elem_of_cons, Hl. split.
    + intros [->|(u & H1 & H2)]; [exists s; split; [apply rtc_refl|by eapply rtc_l]|]. exists u. split; [by eapply rtc_l|done].
    + intros (u & H1 & H2). inversion H1 as [|? b ? Hb Hr]; subst; [by left|]. apply (pick_det _ _ _ _ Hp) in Hb as <-. right. by exists u.
  - injection HR as <- <- <-. split; [apply rtc_refl|]. exists [x]. split; [done|]. intros y. rewrite list_elem_of_singleton. split.
    + intros ->. exists s. split; apply rtc_refl.
    + intros (u & H1 & _). inversion H1 as [|? b ? Hb]; subst; [done|]. unfold pick in Hb. cbn in *. by rewrite HE in Hb.
Qed.
Lemma picks_walk c n x s vis e t r : picks c (x, s) (e, t) → ChildAUMs c (Hash e) = [] → walk c n x s vis = Ok r → ∃ v, r = (e, t, v).
Proof.
  intros HP HE HW. destruct r as [[e' t'] v]. destruct (walk_picks _ _ _ _ _ _ _ _ HW) as [HP' _]. pose proof (walk_end _ _ _ _ _ _ _ _ HW) as HE'.
  pose proof (picks_unique _ _ _ _ HP HP' HE HE') as [= -> ->]. by eexists.
Qed.

(** Each message of a list follows the one before. *)
Fixpoint chained (x : AUM) (l : list AUM) : Prop :=
  match l with
  | [] => True
  | u :: l => Parent u = Some (Hash x) ∧ chained u l
  end.
Lemma walk_chained c n x s vis e t v : storeOk c → walk c n x s vis = Ok (e, t, v) → ∃ l, v = vis ++ x :: l ∧ chained x l ∧ default x (last l) = e.
Proof.
  intros HO. revert x s vis. induction n as [|n IH]; intros x s vis HW; [done|]. unfold walk in HW. cbn [ffLoop noDone] in HW.
  apply bind_ok in HW as (o & Ho%wrapErr_ok & HR). destruct o as [[a s']|]; [|injection HR as <- <- <-; by exists []].
  destruct (IH a s' _ HR) as (l & -> & Hl & He). exists (a :: l). rewrite <- app_assoc. split_and!; [done|split; [|done]|].
  - apply (primary_within c) in Ho as [Ha _]. by apply child_spec in Ha as [_ ?].
  - rewrite last_cons. by destruct (last l).
Qed.
(** The picks of a storage with an oldest message. *)
Context (M : AUM → Prop) (g r : AUM).
Lemma pick_child c ord x s y t : Inv M g r c ord → x ∈ ord → StateAt c (Hash x) s → pick c (x, s) (y, t) →
  y ∈ ord ∧ Parent y = Some (Hash x) ∧ StateAt c (Hash y) t.
Proof.
  intros HI Hx HS Hp. unfold pick in Hp. cbn in Hp. apply (primary_within c) in Hp as [Hin HA].
  pose proof (state_child _ _ _ _ _ (iv_store _ _ _ _ _ HI) HS Hin HA). apply child_spec in Hin as [Hy Hpar]; [|apply HI]. split_and!; [by apply HI|done|done].
Qed.
Lemma picks_state c ord x s y t : Inv M g r c ord → x ∈ ord → StateAt c (Hash x) s → picks c (x, s) (y, t) → y ∈ ord ∧ StateAt c (Hash y) t.
Proof.
  intros HI Hx HS HP. remember (x, s) as p eqn:Ep. remember (y, t) as q eqn:Eq. revert x s Ep Hx HS. induction HP as [z|z [a u] w Hz _ IH]; intros x s -> Hx HS.
  - by injection Eq as -> ->.
  - destruct (pick_child c ord x s a u HI Hx HS Hz) as (Ha & _ & HSa). by eapply IH.
Qed.
End pick.
