(* ===== verification/TkaCompact.v ===== *)
(** * Compaction of the storage of the key authority

    [Compact] of [tka/tailchonk.go] and [tka/tka.go].  A verdict is a byte of flags for
    each hash.  The loops without a limit have the number of stored messages as fuel;
    running out of it would be [Panic]. *)

From stdpp Require Import base gmap sets list strings.
From S2P Require Import Prelude GoStd Bytes Tka TkaChain.

Record CompactionOptions := mkCompaction { MinChain : Z; MinAge : Z }.
(** Two weeks in nanoseconds. *)
Definition CompactionDefaults : CompactionOptions := mkCompaction 24 (14 * 24 * 3600 * 1000000000).

Definition retainStateActive : Z := 1.
Definition retainStateYoung : Z := 2.
Definition retainStateLeaf : Z := 4.
Definition retainStateAncestor : Z := 8.
Definition retainStateCandidate : Z := 16.
Definition retainAUMMask : Z := Z.lor (Z.lor retainStateActive retainStateYoung) (Z.lor retainStateLeaf retainStateAncestor).

Abbreviation Verdict := (gmap bytes Z).
Definition mark (b : Z) (h : bytes) (v : Verdict) : Verdict := <[h := Z.lor (default 0 (v !! h)) b]> v.
Definition marked (b : Z) (v : Verdict) (h : bytes) : bool := negb (Z.land (default 0 (v !! h)) b =? 0).

(** The order in which Go ranges over a map. *)
Class MapOrder := {
  ranges : Verdict → list bytes;
  ranges_perm v : ranges v ≡ₚ (map_to_list v).*1
}.

Section compact.
Context `{TkaCrypto} `{MapOrder}.

Definition AllAUMs (c : Mem) : list bytes := (map_to_list (aums c)).*1.
Definition CommitTime (c : Mem) (h : bytes) : tres Z := of_option ErrNotExist (commitTimes c !! h).

(** ** Marking *)
Fixpoint youngLoop (c : Mem) (minTime : Z) (l : list bytes) (v : Verdict) : tres Verdict :=
  match l with
  | [] => Ok v
  | h :: l => t ← CommitTime c h; youngLoop c minTime l (if minTime <? t then mark retainStateYoung h v else v)
  end.
Definition markYoungAUMs (now : Z) (c : Mem) (v : Verdict) (minAge : Z) : tres Verdict := youngLoop c (now - minAge) (ranges v) v.

(** The first loop of [markActiveChain]; [inl] is its early return. *)
Fixpoint activeLoop (n : nat) (c : Mem) (next : AUM) (v : Verdict) : tres (Verdict * bytes + Verdict * AUM) :=
  match n with
  | O => Ok (inr (v, next))
  | S n =>
      let h := Hash next in
      let v := mark retainStateActive h v in
      match Parent next with
      | None => Ok (inl (v, h))
      | Some parent =>
          match memAUM c parent with
          | Ok next => activeLoop n c next v
          | Err ErrNotExist => Ok (inl (v, h))
          | Err _ => Err (tkaErrorf "reading active chain (retainStateActive)")
          | Panic => Panic
          end
      end
  end.
(** The second: back to a checkpoint that is old enough, or to the genesis. *)
Fixpoint targetLoop (fuel : nat) (c : Mem) (next : AUM) (v : Verdict) : tres (Verdict * AUM) :=
  match fuel with
  | O => Panic
  | S fuel =>
      let h := Hash next in
      let v := mark retainStateActive h v in
      let isYoung := marked retainStateYoung v h in
      if bool_decide (MessageKind next = AUMCheckpoint) && (negb isYoung || bool_decide (Parent next = None)) then Ok (v, next)
      else next ← wrapErr "searching for compaction target" (memAUM c (default (replicate 32 0) (Parent next))); targetLoop fuel c next v
  end.
(** The third marks the rest of the chain. *)
Fixpoint candidateLoop (fuel : nat) (c : Mem) (next : AUM) (v : Verdict) : tres Verdict :=
  match fuel with
  | O => Panic
  | S fuel =>
      match Parent next with
      | None => Ok v
      | Some parent =>
          let v := mark retainStateCandidate parent v in
          match memAUM c parent with
          | Ok next => candidateLoop fuel c next v
          | Err ErrNotExist => Ok v
          | Err _ => Err (tkaErrorf "reading active chain (retainStateCandidate)")
          | Panic => Panic
          end
      end
  end.
Definition scanFuel (c : Mem) : nat := S (size (aums c)).
Definition markActiveChain (c : Mem) (v : Verdict) (minChain : Z) (head : bytes) : tres (Verdict * bytes) :=
  next ← memAUM c head;
  r ← activeLoop (Z.to_nat minChain) c next v;
  match r with
  | inl r => Ok r
  | inr (v, next) =>
      '(v, target) ← targetLoop (scanFuel c) c next v;
      v ← candidateLoop (scanFuel c) c target v;
      Ok (v, Hash target)
  end.

(** One round over [toScan]: the verdict and the children to scan next. *)
Fixpoint descendRound (c : Mem) (toScan : list bytes) (v : Verdict) (next : list bytes) : Verdict * list bytes :=
  match toScan with
  | [] => (v, next)
  | h :: l =>
      if marked retainStateLeaf v h then descendRound c l v next
      else descendRound c l (mark retainStateLeaf h v) (next ++ (Hash <$> ChildAUMs c h))
  end.
Fixpoint descendLoop (fuel : nat) (c : Mem) (toScan : list bytes) (v : Verdict) : tres Verdict :=
  match toScan with
  | [] => Ok v
  | _ =>
      match fuel with
      | O => Panic
      | S fuel => let '(v, next) := descendRound c toScan v [] in descendLoop fuel c next v
      end
  end.
Definition markDescendantAUMs (c : Mem) (v : Verdict) : tres Verdict :=
  descendLoop (scanFuel c) c (filter (λ h, marked retainAUMMask v h = true) (ranges v)) v.

(** The labelled loop: down the active chain from [next]. *)
Fixpoint childLoop (fuel : nat) (c : Mem) (next : bytes) (v : Verdict) : tres Verdict :=
  match fuel with
  | O => Panic
  | S fuel =>
      match list_find (λ a, marked retainStateCandidate v (Hash a) = true ∧ marked retainStateActive v (Hash a) = false) (ChildAUMs c next) with
      | None => Ok v
      | Some (_, a) => childLoop fuel c (Hash a) (mark retainStateAncestor (Hash a) v)
      end
  end.
Record Scan := mkScan { scVerdict : Verdict; scAncestor : bytes; scAdjusted : bool; scNext : list bytes }.
(** The body of the loop over [toScan]. *)
Definition intersectOne (c : Mem) (s : Scan) (h : bytes) : tres Scan :=
  if marked retainStateAncestor (scVerdict s) h then Ok s
  else
    let v := mark retainStateAncestor h (scVerdict s) in
    a ← wrapErr "reading" (memAUM c h);
    match Parent a with
    | None => Err (tkaErrorf "reached genesis AUM without intersecting with candidate ancestor")
    | Some parent =>
        if marked retainAUMMask v parent then Ok (mkScan v (scAncestor s) (scAdjusted s) (scNext s))
        else if marked retainStateCandidate v parent then
          v ← childLoop (scanFuel c) c parent (mark retainStateAncestor parent v);
          Ok (mkScan v parent true (scNext s ++ [parent]))
        else Ok (mkScan v (scAncestor s) (scAdjusted s) (scNext s ++ [parent]))
    end.
Fixpoint intersectRound (c : Mem) (toScan : list bytes) (s : Scan) : tres Scan :=
  match toScan with
  | [] => Ok s
  | h :: l => s ← intersectOne c s h; intersectRound c l s
  end.
Fixpoint intersectLoop (fuel : nat) (c : Mem) (toScan : list bytes) (s : Scan) : tres Scan :=
  match toScan with
  | [] => Ok s
  | _ =>
      match fuel with
      | O => Panic
      | S fuel =>
          s ← intersectRound c toScan (mkScan (scVerdict s) (scAncestor s) (scAdjusted s) []);
          intersectLoop fuel c (scNext s) s
      end
  end.
(** Back to a checkpoint. *)
Fixpoint adjustLoop (fuel : nat) (c : Mem) (next : AUM) (v : Verdict) : tres (Verdict * bytes) :=
  match fuel with
  | O => Panic
  | S fuel =>
      let h := Hash next in
      let v := mark retainStateActive h v in
      if decide (MessageKind next = AUMCheckpoint) then Ok (v, h)
      else match Parent next with
      | None => Err (tkaErrorf "reached genesis AUM without finding an appropriate candidateAncestor")
      | Some parent => next ← wrapErr "searching for compaction target" (memAUM c parent); adjustLoop fuel c next v
      end
  end.
Definition markAncestorIntersectionAUMs (c : Mem) (v : Verdict) (candidateAncestor : bytes) : tres (Verdict * bytes) :=
  let toScan := filter (λ h, marked retainAUMMask v h = true ∧ h ≠ candidateAncestor) (ranges v) in
  s ← intersectLoop (scanFuel c) c toScan (mkScan v candidateAncestor false []);
  if scAdjusted s then
    next ← wrapErr "searching for compaction target" (memAUM c (scAncestor s));
    adjustLoop (scanFuel c) c next (scVerdict s)
  else Ok (scVerdict s, scAncestor s).

(** ** Compaction *)
Definition chonkCompact (now : Z) (c : Mem) (head : bytes) (opts : CompactionOptions) : Mem * tres bytes :=
  if MinChain opts =? 0 then (c, Err (tkaErrorf "opts.MinChain must be set"))
  else if MinAge opts =? 0 then (c, Err (tkaErrorf "opts.MinAge must be set"))
  else
    let verdict : Verdict := list_to_map ((λ h, (h, 0)) <$> AllAUMs c) in
    match
      v ← wrapErr "marking young AUMs" (markYoungAUMs now c verdict (MinAge opts));
      '(v, anc) ← wrapErr "marking active chain" (markActiveChain c v (MinChain opts) head);
      v ← wrapErr "marking descendant AUMs" (markDescendantAUMs c v);
      wrapErr "marking ancestor intersection" (markAncestorIntersectionAUMs c v anc)
    with
    | Ok (v, anc) =>
        let toDelete := filter (λ h, marked retainAUMMask v h = false) (ranges v) in
        (PurgeAUMs toDelete (SetLastActiveAncestor anc c), Ok anc)
    | Err e => (c, Err e)
    | Panic => (c, Panic)
    end.
Definition authorityCompact (now : Z) (c : Mem) (a : Authority) (o : CompactionOptions) : Mem * Authority * tres () :=
  let '(c, r) := chonkCompact now c (Hash (auHead a)) o in
  match (newAncestor ← r; memAUM c newAncestor) with
  | Ok ancestor => (c, mkAuthority (auHead a) ancestor (auState a), Ok ())
  | Err e => (c, a, Err e)
  | Panic => (c, a, Panic)
  end.
End compact.
