(* ===== verification/TkaRecovery.v ===== *)
(** * Retroactive revocation of keys

    [findParentForRewrite] and [MakeRetroactiveRevocation] of [tka/tka.go]: an update that
    forks off before the revoked keys were trusted. *)

From stdpp Require Import base gmap sets list strings.
From S2P Require Import Prelude GoStd Bytes Tka TkaChain.

Section recovery.
Context `{TkaCrypto}.

Definition zeroHash : bytes := replicate 32 0.

(** Back from the head to the oldest message at most: as many rounds as there are messages. *)
Fixpoint rewriteLoop (fuel : nat) (c : Mem) (oldest : bytes) (removeKeys : list bytes) (ourKey cursor : bytes) : tres bytes :=
  match fuel with
  | O => Panic
  | S fuel =>
      if decide (cursor = oldest) then Ok cursor
      else
        aum ← wrapErr "reading AUM" (memAUM c cursor);
        state ← wrapErr "computing state" (computeStateAt c maxScanIterations cursor);
        let keyTrusted := existsb (λ k, is_ok (GetKey state k)) removeKeys in
        if negb keyTrusted && is_ok (GetKey state ourKey) then Ok cursor
        else match Parent aum with
        | None => Ok cursor
        | Some parent => rewriteLoop fuel c oldest removeKeys ourKey parent
        end
  end.
Definition findParentForRewrite (a : Authority) (c : Mem) (removeKeys : list bytes) (ourKey : bytes) : tres bytes :=
  head ← Head a;
  rewriteLoop (S (size (aums c))) c (Hash (oldestAncestor a)) removeKeys ourKey head.

(** The inner loop over the keys of the state: the first key with the identifier goes. *)
Fixpoint dropKey (id : bytes) (l : list Key) : tres (list Key) :=
  match l with
  | [] => Ok []
  | k :: l => kid ← wrapErr "computing keyID" (keyID k); if decide (kid = id) then Ok l else r ← dropKey id l; Ok (k :: r)
  end.
Fixpoint dropKeys (ids : list bytes) (l : list Key) : tres (list Key) :=
  match ids with
  | [] => Ok l
  | id :: ids => l ← dropKey id l; dropKeys ids l
  end.
Definition MakeRetroactiveRevocation (a : Authority) (c : Mem) (removeKeys : list bytes) (ourKey forkFrom : bytes) : tres AUM :=
  parent ← (if decide (forkFrom = zeroHash) then
              if negb (existsb (λ k, is_ok (GetKey (auState a) k)) removeKeys) then Err (tkaErrorf "no provided key is currently trusted")
              else wrapErr "finding parent" (findParentForRewrite a c removeKeys ourKey)
            else Ok forkFrom);
  let s := auState a in
  keys ← dropKeys removeKeys (Keys s);
  match keys with
  | [] => Err (tkaErrorf "cannot revoke all trusted keys")
  | _ =>
      let forkingAUM := mkAUM AUMCheckpoint (Some parent) None None (Some (mkState None (DisablementValues s) keys (StateID1 s) (StateID2 s))) None None [] in
      _ ← StaticValidate forkingAUM; Ok forkingAUM
  end.
End recovery.
