(* ===== verification/TkaBackend.v ===== *)
(** * The tailnet lock in the local backend

    [ipn/ipnlocal/tailnet-lock.go]: how the lock is enabled, disabled, synchronized with
    the control plane and used.  The backend has no state directory: nothing in the
    repository sets one, so messages are stored in memory.

    [b.mu] is held but for the calls of the control plane.  What happens to the backend
    and to the rest of the world, [W], while it is not held, the replies, and the time that
    passes are [ControlPlane]; JSON and HTTP are below it.  The dereference of [b.tka] when
    it is nil is a panic. *)

From stdpp Require Import base gmap sets list strings pretty.
From S2P Require Import Prelude GoStd Bytes Tka TkaChain TkaText TkaCompact TkaRecovery.

(** ** State *)

(** [PrivateNodeKey] by its public key; an absent key is the zero value. *)
Record Persist := mkPersist { pNodeKey : option Z; pNetworkLockKey : option bytes; DisallowedTKAStateIDs : list string }.
Record tkaState := mkTka { tkProfile : string; tkAuthority : Authority; tkStorage : Mem }.
Section world.
Context {W : Type}.
(** [bPersist] is [b.pm.CurrentPrefs().Persist()], [bProfile] is [CurrentProfile().ID()];
    [bWorld] is what is not the backend, such as the control plane. *)
Record Backend := mkBackend { bTka : option tkaState; capTailnetLock : bool; bProfile : string; bPersist : option Persist; bNow : Z; bWorld : W }.
Definition setTka (t : option tkaState) (b : Backend) : Backend := mkBackend t (capTailnetLock b) (bProfile b) (bPersist b) (bNow b) (bWorld b).
Definition setPersist (p : option Persist) (b : Backend) : Backend := mkBackend (bTka b) (capTailnetLock b) (bProfile b) p (bNow b) (bWorld b).

Definition LB (A : Type) : Type := Backend → Backend * tres A.
#[global] Instance LB_ret : MRet LB := λ A x b, (b, Ok x).
#[global] Instance LB_bind : MBind LB := λ A B k m b,
  let '(b, r) := m b in match r with Ok x => k x b | Err e => (b, Err e) | Panic => (b, Panic) end.
Definition lift {A} (r : tres A) : LB A := λ b, (b, r).
Definition wrap {A} (msg : string) (m : LB A) : LB A := λ b, let '(b, r) := m b in (b, wrapErr msg r).
(** An error that is only logged. *)
Definition attempt {A} (m : LB A) : LB (option A) := λ b,
  let '(b, r) := m b in (b, match r with Ok x => Ok (Some x) | Err _ => Ok None | Panic => Panic end).
Definition getB : LB Backend := λ b, (b, Ok b).
(** [b.tka], which the code dereferences. *)
Definition theTka : LB tkaState := λ b, (b, match bTka b with Some t => Ok t | None => Panic end).
End world.
Arguments Backend : clear implicits.
Arguments LB : clear implicits.
Definition headOf (t : tkaState) : tres bytes := Head (tkAuthority t).

(** ** The protocol *)
Record TKABootstrapRequest := mkBootstrapReq { brNodeKey : Z; brHead : bytes }.
Record TKABootstrapResponse := mkBootstrapResp { GenesisAUM : bytes; DisablementSecret : bytes }.
Record TKASyncOfferRequest := mkOfferReq { orNodeKey : Z; orHead : bytes; orAncestors : list bytes }.
Record TKASyncOfferResponse := mkOfferResp { opHead : bytes; opAncestors : list bytes; opMissing : list bytes }.
Record TKASyncSendRequest := mkSendReq { srNodeKey : Z; srHead : bytes; srMissing : list bytes; srInteractive : bool }.
Record TKASignInfo := mkSignInfo { siNodeID : Z; siNodePublic : Z; siRotationPubkey : bytes }.

(** The decoding of messages: CBOR. *)
Class AUMCodec := { unserializeAUM : bytes → option AUM }.
Class ControlPlane (W : Type) := {
  rpcBootstrap : TKABootstrapRequest → LB W TKABootstrapResponse;
  rpcSyncOffer : TKASyncOfferRequest → LB W TKASyncOfferResponse;
  rpcSyncSend : TKASyncSendRequest → LB W bytes;
  rpcInitBegin : Z → bytes → LB W (list TKASignInfo);
  rpcInitFinish : Z → gmap Z bytes → bytes → LB W ();
  rpcSubmitSignature : Z → bytes → LB W ();
  rpcDisable : Z → bytes → bytes → LB W ();
  rpcAffectedSigs : Z → bytes → LB W (list bytes)
}.

Section backend.
Context `{TkaCrypto} `{MapOrder} `{AUMCodec} {W : Type} `{ControlPlane W}.

Definition tkaFetchBootstrap (ourNodeKey : Z) (head : bytes) : LB W TKABootstrapResponse :=
  rpcBootstrap (mkBootstrapReq ourNodeKey (if decide (head = zeroHash) then [] else MarshalText head)).
Definition tkaDoSyncOffer (ourNodeKey : Z) (offer : SyncOffer) : LB W TKASyncOfferResponse :=
  let '(head, ancestors) := FromSyncOffer offer in rpcSyncOffer (mkOfferReq ourNodeKey head ancestors).
Definition tkaDoSyncSend (ourNodeKey : Z) (head : bytes) (aums : list AUM) (interactive : bool) : LB W bytes :=
  rpcSyncSend (mkSendReq ourNodeKey (MarshalText head) (cborAUM <$> aums) interactive).

(** ** Operations on the authority, which keeps its own state *)
Definition informLocked (us : list AUM) : LB W () := λ b,
  match bTka b with
  | None => (b, Panic)
  | Some t => let '(c, a, r) := Inform (bNow b) (tkStorage t) (tkAuthority t) us in (setTka (Some (mkTka (tkProfile t) a c)) b, r)
  end.
Definition compactTka (opts : CompactionOptions) : LB W () := λ b,
  match bTka b with
  | None => (b, Panic)
  | Some t => let '(c, a, r) := authorityCompact (bNow b) (tkStorage t) (tkAuthority t) opts in (setTka (Some (mkTka (tkProfile t) a c)) b, r)
  end.

(** ** Lifecycle *)
Definition initTKALocked : LB W () := λ b,
  if decide (bProfile b = "") then (setTka None b, Ok ())
  else match bTka b with
  | Some t => if decide (tkProfile t = bProfile b) then (b, Ok ()) else (setTka None b, Ok ())
  | None => (setTka None b, Ok ())
  end.

Definition tkaApplyDisablementLocked (secret : bytes) : LB W () := λ b,
  match bTka b with
  | None => (b, Panic)
  | Some t => if ValidDisablement (tkAuthority t) secret then (setTka None b, Ok ()) else (b, Err (tkaErrorf "incorrect disablement secret"))
  end.

Definition stateIDText (id1 id2 : Z) : string := (pretty id1 +:+ ":" +:+ pretty id2)%string.
Definition checkDisallowed (genesis : AUM) (persist : option Persist) : tres () :=
  match persist with
  | None => Ok ()
  | Some p =>
      if zlen (DisallowedTKAStateIDs p) =? 0 then Ok ()
      else match aState genesis with
      | None => Err (tkaErrorf "invalid genesis: missing State")
      | Some st => if decide (stateIDText (StateID1 st) (StateID2 st) ∈ DisallowedTKAStateIDs p) then Err (tkaErrorf "TKA is disallowed on this node") else Ok ()
      end
  end.
Definition installGenesis (genesis : AUM) : LB W () := λ b,
  let '(c, r) := Bootstrap (bNow b) ChonkMem genesis in
  match r with
  | Ok a => (setTka (Some (mkTka (bProfile b) a c)) b, Ok ())
  | Err _ => (b, Err (tkaErrorf "tka bootstrap"))
  | Panic => (b, Panic)
  end.
Definition tkaBootstrapFromGenesisLocked (g : bytes) (persist : option Persist) : LB W () :=
  genesis ← lift (of_option (tkaErrorf "reading genesis") (unserializeAUM g));
  _ ← lift (checkDisallowed genesis persist);
  installGenesis genesis.

(** ** Synchronization *)
Fixpoint unserializeAll (l : list bytes) : tres (list AUM) :=
  match l with
  | [] => Ok []
  | a :: l => u ← of_option (tkaErrorf "MissingAUMs") (unserializeAUM a); r ← unserializeAll l; Ok (u :: r)
  end.
(** The part of [tkaSyncLocked] for heads that differ. *)
Definition tkaSyncMissing (ourNodeKey : Z) (offerResp : TKASyncOfferResponse) (controlOffer : SyncOffer) : LB W () :=
  t ← theTka;
  toSendAUMs ← lift (wrapErr "computing missing AUMs" (MissingAUMs (tkAuthority t) (tkStorage t) controlOffer));
  _ ← match opMissing offerResp with
      | [] => mret ()
      | l => us ← lift (unserializeAll l); wrap "inform failed" (informLocked us)
      end;
  t ← theTka;
  head ← lift (headOf t);
  sendResp ← wrap "send RPC" (tkaDoSyncSend ourNodeKey head toSendAUMs false);
  _ ← lift (wrapErr "head unmarshal" (UnmarshalText sendResp));
  t ← theTka;
  _ ← lift (headOf t);
  mret ().
Definition tkaSyncLocked (ourNodeKey : Z) : LB W () :=
  t ← theTka;
  offer ← lift (wrapErr "offer" (syncOffer (tkAuthority t) (tkStorage t)));
  offerResp ← wrap "offer RPC" (tkaDoSyncOffer ourNodeKey offer);
  controlOffer ← lift (wrapErr "control offer" (ToSyncOffer (opHead offerResp) (opAncestors offerResp)));
  if decide (soHead controlOffer = soHead offer) then mret ()
  else tkaSyncMissing ourNodeKey offerResp controlOffer.

(** What a network map says of the lock. *)
Record lockInfo := mkLockInfo { TKAEnabled : bool; TKAHead : bytes }.
(** Enabling or disabling: whether the lock is enabled now, and whether it just was. *)
Definition tkaSwitch (isEnabled : bool) (nm : lockInfo) (persist : option Persist) (ourNodeKey : Z) : LB W (bool * bool) :=
  ourHead ← (if isEnabled then t ← theTka; lift (headOf t) else mret zeroHash);
  bs ← wrap "fetching bootstrap" (tkaFetchBootstrap ourNodeKey ourHead);
  if TKAEnabled nm && negb isEnabled then _ ← wrap "bootstrap" (tkaBootstrapFromGenesisLocked (GenesisAUM bs) persist); mret (true, true)
  else r ← attempt (tkaApplyDisablementLocked (DisablementSecret bs)); mret (match r with Some _ => false | None => isEnabled end, false).
Definition tkaSyncIfNeeded (nm : lockInfo) (persist : option Persist) : LB W () :=
  b ← getB;
  if bool_decide (bTka b = None) && negb (capTailnetLock b) then mret ()
  else
    let isEnabled := negb (bool_decide (bTka b = None)) in
    _ ← (if isEnabled then t ← theTka; lift (headOf t) else mret []);
    ourNodeKey ← lift (match persist with
                       | None => Panic
                       | Some p => of_option (tkaErrorf "tkaSyncIfNeeded: no node key in prefs") (pNodeKey p)
                       end);
    '(isEnabled, didJustEnable) ← (if eqb isEnabled (TKAEnabled nm) then mret (isEnabled, false)
                                   else tkaSwitch isEnabled nm persist ourNodeKey);
    if isEnabled : bool then
      t ← theTka;
      head ← lift (headOf t);
      if negb (bool_decide (head = TKAHead nm)) || didJustEnable then
        _ ← wrap "tka sync" (tkaSyncLocked ourNodeKey);
        wrap "tka compact" (compactTka CompactionDefaults)
      else mret ()
    else mret ().

(** ** Operations of the user *)
Definition errTailnetLockNotActive : TkaErr := tkaErrorf "tailnet-lock is not active".
Definition errMissingNetmap : TkaErr := tkaErrorf "missing netmap: verify that you are logged in".
Definition errNoNodeKey : TkaErr := tkaErrorf "no node-key: is tailscale logged in?".
Definition KeyID (priv : bytes) : bytes := ed25519Public priv.
Definition SignAUM (priv sigHash : bytes) : tres (list Signature) := Ok [mkSignature (KeyID priv) (ed25519Sign priv sigHash)].
Definition nodeKeyOf (b : Backend W) : option Z := bPersist b ≫= pNodeKey.
Definition lockKeyOf (b : Backend W) : option bytes := bPersist b ≫= pNetworkLockKey.

Definition signDirect (nodeKey : Z) (rotation signer : bytes) : NodeKeySignature :=
  let sig := mkNKS SigDirect (marshalNode nodeKey) (KeyID signer) [] None rotation in
  withSig (SignNKS signer (NKSHash sig)) sig.
Definition signNodeKey (nodeInfo : TKASignInfo) (signer : bytes) : NodeKeySignature := signDirect (siNodePublic nodeInfo) (siRotationPubkey nodeInfo) signer.
Definition signAll (signer : bytes) (l : list TKASignInfo) : gmap Z bytes :=
  foldl (λ m i, <[siNodeID i := cborNKS (signNodeKey i signer)]> m) ∅ l.
(** [id1] and [id2] are random. *)
Definition TailnetLockInit (keys : list Key) (disablementValues : list bytes) (supportDisablement : bytes) (id1 id2 : Z) : LB W () :=
  b ← getB;
  ourNodeKey ← lift (of_option errNoNodeKey (nodeKeyOf b));
  nlPriv ← lift (of_option errNoNodeKey (lockKeyOf b));
  x ← lift (wrapErr "tka.Create" (Create (bNow b) ChonkMem (mkState None disablementValues keys id1 id2) (SignAUM nlPriv)).2);
  need ← wrap "tka init-begin RPC" (rpcInitBegin ourNodeKey (cborAUM x.2));
  rpcInitFinish ourNodeKey (signAll nlPriv need) supportDisablement.

(** [write] is what the store says to the new preferences, which are in place anyway. *)
Definition SetPrefs (write : tres ()) (p : Persist) : LB W () := λ b, (setPersist (Some p) b, write).
(** The storage is in memory: removing all of it cannot fail. *)
Definition clearTka : LB W () := λ b, (setTka None b, Ok ()).
Definition TailnetLockForceLocalDisable (write : tres ()) : LB W () :=
  b ← getB;
  match bTka b with
  | None => lift (Err errTailnetLockNotActive)
  | Some t =>
      let s := auState (tkAuthority t) in
      p ← lift (match bPersist b with Some p => Ok p | None => Panic end);
      _ ← wrap "saving prefs" (SetPrefs write
            (mkPersist (pNodeKey p) (pNetworkLockKey p) (DisallowedTKAStateIDs p ++ [stateIDText (StateID1 s) (StateID2 s)])));
      clearTka
  end.

Definition TailnetLockSign (nodeKey : Z) (rotationPublic : bytes) : LB W () :=
  b ← getB;
  nlPriv ← lift (of_option errMissingNetmap (lockKeyOf b));
  t ← lift (of_option errTailnetLockNotActive (bTka b));
  _ ← lift (guard_err (KeyTrusted (tkAuthority t) (KeyID nlPriv)) (tkaErrorf "this node is not trusted by tailnet lock"));
  ourNodeKey ← lift (match nodeKeyOf b with Some k => Ok k | None => Panic end);
  rpcSubmitSignature ourNodeKey (cborNKS (signDirect nodeKey rotationPublic nlPriv)).

Fixpoint addAll (sign : option (bytes → tres (list Signature))) (l : list Key) (u : UpdateBuilder) : tres UpdateBuilder :=
  match l with [] => Ok u | k :: l => u ← AddKey sign k u; addAll sign l u end.
Fixpoint removeAll (sign : option (bytes → tres (list Signature))) (l : list Key) (u : UpdateBuilder) : tres UpdateBuilder :=
  match l with [] => Ok u | k :: l => id ← keyID k; u ← RemoveKey sign id u; removeAll sign l u end.
Definition TailnetLockModify (addKeys removeKeys : list Key) : LB W () :=
  wrap "modify tailnet-lock keys" (
  b ← getB;
  ourNodeKey ← lift (of_option errNoNodeKey (nodeKeyOf b));
  nlPriv ← lift (of_option errMissingNetmap (lockKeyOf b));
  t ← lift (of_option errTailnetLockNotActive (bTka b));
  _ ← lift (guard_err (KeyTrusted (tkAuthority t) (KeyID nlPriv)) (tkaErrorf "this node does not have a trusted tailnet lock key"));
  updater ← lift (NewUpdater (tkAuthority t));
  updater ← lift (addAll (Some (SignAUM nlPriv)) addKeys updater);
  updater ← lift (removeAll (Some (SignAUM nlPriv)) removeKeys updater);
  us ← lift (Finalize (Some (SignAUM nlPriv)) (tkStorage t) updater);
  match last us with
  | None => mret ()
  | Some u =>
      head ← lift (headOf t);
      resp ← tkaDoSyncSend ourNodeKey head us true;
      controlHead ← lift (UnmarshalText resp);
      lift (guard_err (bool_decide (controlHead = Hash u)) (tkaErrorf "central tka head differs from submitted AUM, try again"))
  end).

Definition TailnetLockDisable (secret : bytes) : LB W () :=
  b ← getB;
  t ← lift (of_option errTailnetLockNotActive (bTka b));
  head ← lift (headOf t);
  _ ← lift (guard_err (ValidDisablement (tkAuthority t) secret) (tkaErrorf "incorrect disablement secret"));
  ourNodeKey ← lift (of_option errNoNodeKey (nodeKeyOf b));
  rpcDisable ourNodeKey (MarshalText head) secret.

Record TailnetLockUpdate := mkLockUpdate { luHash : bytes; luChange : AUMKind; luRaw : bytes }.
Fixpoint logLoop (n : nat) (c : Mem) (cursor : bytes) : tres (list TailnetLockUpdate) :=
  match n with
  | O => Ok []
  | S n =>
      match memAUM c cursor with
      | Err ErrNotExist => Ok []
      | Err _ => Err (tkaErrorf "reading AUM")
      | Panic => Panic
      | Ok aum =>
          let update := mkLockUpdate cursor (MessageKind aum) (cborAUM aum) in
          match Parent aum with
          | None => Ok [update]
          | Some parent => l ← logLoop n c parent; Ok (update :: l)
          end
      end
  end.
Definition TailnetLockLog (maxEntries : Z) : LB W (list TailnetLockUpdate) :=
  b ← getB;
  t ← lift (of_option errTailnetLockNotActive (bTka b));
  cursor ← lift (headOf t);
  lift (logLoop (Z.to_nat maxEntries) (tkStorage t) cursor).

Definition checkAffected (a : Authority) (id sigBytes : bytes) : tres () :=
  sig ← of_option (tkaErrorf "failed decoding signature") (uncborNKS sigBytes);
  sigKeyID ← wrapErr "extracting SigID from signature" (authorizingKeyID sig);
  _ ← guard_err (bool_decide (id = sigKeyID)) (tkaErrorf "got signature with another keyID");
  nodeKey ← wrapErr "failed decoding pubkey for signature" (unmarshalNode (nksPubkey sig));
  wrapErr "signature is not valid" (NodeKeyAuthorized a nodeKey sigBytes).
Definition TailnetLockAffectedSigs (id : bytes) : LB W (list bytes) :=
  b ← getB;
  _ ← lift (of_option errTailnetLockNotActive (bTka b));
  sigs ← rpcAffectedSigs (default 0 (nodeKeyOf b)) id;
  b ← getB;
  t ← lift (of_option errTailnetLockNotActive (bTka b));
  _ ← lift (checkEach (λ _, checkAffected (tkAuthority t) id) 0 sigs);
  mret sigs.

(** ** Recovery from compromised keys *)
Definition TailnetLockGenerateRecoveryAUM (removeKeys : list bytes) (forkFrom : bytes) : LB W AUM :=
  b ← getB;
  t ← lift (of_option errTailnetLockNotActive (bTka b));
  nlPriv ← lift (of_option errMissingNetmap (lockKeyOf b));
  aum ← lift (MakeRetroactiveRevocation (tkAuthority t) (tkStorage t) removeKeys (KeyID nlPriv) forkFrom);
  sigs ← lift (wrapErr "signing failed" (SignAUM nlPriv (aumSigHash aum)));
  mret (withSignatures sigs aum).
Definition TailnetLockCosignRecoveryAUM (aum : AUM) : LB W AUM :=
  b ← getB;
  _ ← lift (of_option errTailnetLockNotActive (bTka b));
  nlPriv ← lift (of_option errMissingNetmap (lockKeyOf b));
  _ ← lift (guard_err (bool_decide (KeyID nlPriv ∉ sKeyID <$> Signatures aum)) (tkaErrorf "this node has already signed this recovery AUM"));
  sigs ← lift (wrapErr "signing failed" (SignAUM nlPriv (aumSigHash aum)));
  mret (withSignatures (Signatures aum ++ sigs) aum).
Definition TailnetLockSubmitRecoveryAUM (aum : AUM) : LB W () :=
  b ← getB;
  _ ← lift (of_option errTailnetLockNotActive (bTka b));
  ourNodeKey ← lift (of_option errNoNodeKey (nodeKeyOf b));
  _ ← tkaDoSyncSend ourNodeKey (Hash aum) [aum] false;
  mret ().
End backend.
