(* ===== verification/TkaCompactThms.v ===== *)
(** * Compaction keeps the authority

    What [Compact] deletes changes neither the head nor the state, and what it keeps is
    again a storage with an oldest message, a checkpoint. *)

From stdpp Require Import base gmap sets list strings relations.
From S2P Require Import Prelude GoStd Bytes Tka TkaChain TkaThms TkaChainThms TkaCompact.

(** ** Results that are [Ok] with [Q], or an error that [E] explains *)
Definition outcome {A} (m : tres A) (Q : A → Prop) (E : Prop) : Prop :=
  match m with Ok x => Q x | Err _ => E | Panic => False end.
Lemma outcome_bind {A B} (m : tres A) (k : A → tres B) Q E : outcome m (λ x, outcome (k x) Q E) E → outcome (m ≫= k) Q E.
Proof. by destruct m. Qed.
Lemma outcome_wrap {A} msg (m : tres A) Q E : outcome m Q E → outcome (wrapErr msg m) Q E.
Proof. by destruct m. Qed.
Lemma outcome_mono {A} (m : tres A) (Q Q' : A → Prop) (E E' : Prop) : outcome m Q E → (∀ x, Q x → Q' x) → (E → E') → outcome m Q' E'.
Proof. destruct m; cbn; auto. Qed.

(** ** Flags *)
Definition overlap (b b' : Z) : bool := negb (Z.land b b' =? 0).
(** [v'] is [v] with the flag [b] added for the hashes in [S]. *)
Definition adds (b : Z) (S : bytes → Prop) (v v' : Verdict) : Prop :=
  (∀ b' h, marked b' v' h = true ↔ marked b' v h = true ∨ overlap b b' = true ∧ S h) ∧ dom v ⊆ dom v'.

Lemma marked_lor b1 b2 v h : marked (Z.lor b1 b2) v h = marked b1 v h || marked b2 v h.
Proof.
  unfold marked. rewrite Z.land_lor_distr_r. destruct (Z.eqb_spec (Z.lor (Z.land (default 0 (v !! h)) b1) (Z.land (default 0 (v !! h)) b2)) 0) as [E|E].
  - apply Z.lor_eq_0_iff in E as [-> ->]. done.
  - destruct (Z.eqb_spec (Z.land (default 0 (v !! h)) b1) 0) as [E1|E1]; [|done]. destruct (Z.eqb_spec (Z.land (default 0 (v !! h)) b2) 0) as [E2|E2]; [|done].
    destruct E. by rewrite E1, E2.
Qed.
Lemma adds_mark b h v : adds b (λ x, x = h) v (mark b h v).
Proof.
  split; [|unfold mark; set_solver]. intros b' x. unfold marked, mark, overlap. destruct (decide (x = h)) as [->|Hne].
  - rewrite lookup_insert_eq. cbn [default from_option id]. rewrite Z.land_lor_distr_l.
    destruct (Z.eqb_spec (Z.land (default 0 (v !! h)) b') 0) as [E1|E1], (Z.eqb_spec (Z.land b b') 0) as [E2|E2]; rewrite ?E1, ?E2, ?Z.lor_0_l, ?Z.lor_0_r; cbn [negb].
    + naive_solver.
    + rewrite (proj2 (Z.eqb_neq _ _)) by done. naive_solver.
    + rewrite (proj2 (Z.eqb_neq _ _)) by done. naive_solver.
    + destruct (Z.eqb_spec (Z.lor (Z.land (default 0 (v !! h)) b') (Z.land b b')) 0) as [E|E]; [apply Z.lor_eq_0_iff in E as [? ?]; done|]. naive_solver.
  - rewrite lookup_insert_ne by done. naive_solver.
Qed.
Lemma adds_refl b v : adds b (λ _, False) v v.
Proof. split; [naive_solver|done]. Qed.
Lemma adds_trans b S1 S2 v1 v2 v3 : adds b S1 v1 v2 → adds b S2 v2 v3 → adds b (λ h, S1 h ∨ S2 h) v1 v3.
Proof. intros [H1 D1] [H2 D2]. split; [|set_solver]. intros b' h. rewrite (H2 b' h), (H1 b' h). naive_solver. Qed.
Lemma adds_iff b S S' v v' : adds b S v v' → (∀ h, S h ↔ S' h) → adds b S' v v'.
Proof. intros [HA HD] HS. split; [|done]. intros b' h. rewrite (HA b' h), HS. done. Qed.
(** A flag that another one does not touch. *)
Lemma adds_other b S v v' b' h : adds b S v v' → overlap b b' = false → marked b' v' h = marked b' v h.
Proof. intros [HA _] HO. apply eq_true_iff_eq. rewrite (HA b' h), HO. naive_solver. Qed.
Lemma adds_same b S v v' b' h : adds b S v v' → overlap b b' = true → marked b' v' h = true ↔ marked b' v h = true ∨ S h.
Proof. intros [HA _] HO. rewrite (HA b' h), HO. naive_solver. Qed.
Lemma marked_stored b v h : marked b v h = true → is_Some (v !! h).
Proof. unfold marked. destruct (v !! h); [by eexists|done]. Qed.
Lemma elem_ranges `{MapOrder} v h : h ∈ ranges v ↔ is_Some (v !! h).
Proof.
  rewrite ranges_perm, list_elem_of_fmap. split; [intros ([? z] & -> & Hz%elem_of_map_to_list); by exists z|].
  intros [z Hz]. exists (h, z). split; [done|]. by apply elem_of_map_to_list.
Qed.

(** How many of the stored hashes have no flag [b] yet: the measure of the marking loops. *)
Definition unmarked (c : Mem) (b : Z) (v : Verdict) : nat := size (filter (λ h, marked b v h = false) (dom (aums c))).
Lemma unmarked_le c b v v' : (∀ h, marked b v h = true → marked b v' h = true) → (unmarked c b v' ≤ unmarked c b v)%nat.
Proof.
  intros HM. apply subseteq_size. intros h [Hf Hh]%elem_of_filter. apply elem_of_filter. split; [|done]. destruct (marked b v h) eqn:E; [|done].
  apply HM in E. congruence.
Qed.
Lemma unmarked_lt c b v v' h : (∀ h, marked b v h = true → marked b v' h = true) → is_Some (aums c !! h) → marked b v h = false → marked b v' h = true →
  (unmarked c b v' < unmarked c b v)%nat.
Proof.
  intros HM Hst Hv Hv'. apply subset_size. split.
  - intros x [Hf Hx]%elem_of_filter. apply elem_of_filter. split; [|done]. destruct (marked b v x) eqn:E; [|done]. apply HM in E. congruence.
  - intros HS. assert (h ∈ filter (λ h, marked b v' h = false) (dom (aums c))) as [? _]%elem_of_filter; [|congruence].
    apply HS, elem_of_filter. split; [done|]. by apply elem_of_dom.
Qed.
Lemma unmarked_fuel c b v : (unmarked c b v < scanFuel c)%nat.
Proof.
  unfold scanFuel, unmarked. rewrite <- (size_dom (D := gset bytes)). apply Nat.lt_succ_r, subseteq_size. intros h [_ ?]%elem_of_filter. done.
Qed.

(** ** Ancestors *)
Section anc.
Context `{TkaCrypto} (M : AUM → Prop) (g r : AUM) (c : Mem) (ord : list AUM) (HI : Inv M g r c ord).

(** [Anc x y]: [x] is [y] or one of its stored ancestors. *)
Inductive Anc : AUM → AUM → Prop :=
  | anc_refl x : Anc x x
  | anc_child x b y : Anc x b → b ∈ ord → Parent y = Some (Hash b) → Anc x y.

Lemma read x : x ∈ ord → memAUM c (Hash x) = Ok x.
Proof. intros Hx%(iv_elem _ _ _ _ _ HI). unfold memAUM. by rewrite Hx. Qed.
Lemma root_in : r ∈ ord.
Proof. eapply list_elem_of_lookup_2, HI. Qed.
Lemma hash_inj x y : x ∈ ord → y ∈ ord → Hash x = Hash y → x = y.
Proof. intros Hx%(iv_elem _ _ _ _ _ HI) Hy%(iv_elem _ _ _ _ _ HI) E. rewrite E in Hx. congruence. Qed.
Lemma stored_in h : is_Some (aums c !! h) ↔ ∃ x, x ∈ ord ∧ Hash x = h.
Proof.
  split.
  - intros [x Hx]. pose proof (so_hash _ (iv_store _ _ _ _ _ HI) _ _ Hx) as <-. exists x. split; [|done]. by apply HI.
  - intros (x & Hx & <-). eexists. by apply (iv_elem _ _ _ _ _ HI).
Qed.
(** The parent of a message comes before it; only that of the oldest is missing. *)
Lemma parent_before i y : ord !! i = Some y → y ≠ r → ∃ j b, (j < i)%nat ∧ ord !! j = Some b ∧ Parent y = Some (Hash b) ∧ b ∈ ord.
Proof.
  intros Hy Hne. destruct i as [|i]; [rewrite (iv_first _ _ _ _ _ HI) in Hy; congruence|].
  destruct (iv_next _ _ _ _ _ HI i y Hy) as (j & b & _ & _ & Hj & Hb & Hp & _). exists j, b. split_and!; try done; [lia|]. by eapply list_elem_of_lookup_2.
Qed.
Lemma parent_in y : y ∈ ord → y ≠ r → ∃ b, Parent y = Some (Hash b) ∧ b ∈ ord.
Proof. intros [i Hi]%list_elem_of_lookup Hne. destruct (parent_before i y Hi Hne) as (_ & b & _ & _ & ? & ?). eauto. Qed.
Lemma parent_root y p : Parent y = Some p → y ∈ ord → aums c !! p = None → y = r.
Proof.
  intros Hp Hy Hn. destruct (decide (y = r)) as [|Hne]; [done|]. destruct (parent_in y Hy Hne) as (b & Hb & Hin). apply (iv_elem _ _ _ _ _ HI) in Hin. congruence.
Qed.
Lemma root_top p : Parent r = Some p → ∀ b, b ∈ ord → Hash b ≠ p.
Proof. intros Hp b Hb <-. apply (iv_elem _ _ _ _ _ HI) in Hb. apply (iv_top _ _ _ _ _ HI) in Hp. congruence. Qed.

Lemma anc_in x y : Anc x y → y ∈ ord → x ∈ ord.
Proof. induction 1; auto. Qed.
Lemma anc_trans x y z : Anc x y → Anc y z → Anc x z.
Proof. intros H1 H2. induction H2 as [y|y b z _ IH Hb Hp]; [done|]. eapply anc_child; [by apply IH|done|done]. Qed.
Lemma anc_one x y : x ∈ ord → Parent y = Some (Hash x) → Anc x y.
Proof. intros. eapply anc_child; [apply anc_refl|done|done]. Qed.
Lemma anc_step x y : Anc x y → y ∈ ord → x = y ∨ ∃ b, b ∈ ord ∧ Parent b = Some (Hash x) ∧ Anc b y.
Proof.
  intros HA Hy. induction HA as [x|x b y HA IH Hb Hp]; [by left|]. right. destruct (IH Hb) as [->|(d & Hd & Hpd & HAd)].
  - exists y. split_and!; [done|done|apply anc_refl].
  - exists d. split_and!; [done|done|]. by eapply anc_child.
Qed.
Lemma anc_inv x y : Anc x y → x ≠ y → ∃ b, b ∈ ord ∧ Parent y = Some (Hash b) ∧ Anc x b.
Proof. destruct 1; [done|]. eauto. Qed.
Lemma anc_idx x y i j : Anc x y → ord !! i = Some x → ord !! j = Some y → (i ≤ j)%nat.
Proof.
  intros HA Hi. revert j. induction HA as [x|x b y HA IH Hb Hp]; intros j Hj; [by destruct (inv_inj _ _ _ _ _ _ _ _ _ HI Hi Hj eq_refl) as [-> _]|].
  destruct (decide (y = r)) as [->|Hne]; [by destruct (root_top _ Hp b Hb)|].
  destruct (parent_before j y Hj Hne) as (k & b' & Hk & Hkb & Hp' & Hb'). assert (b = b') as <- by (apply hash_inj; congruence).
  specialize (IH Hi k Hkb). lia.
Qed.
Lemma anc_antisym x y : Anc x y → Anc y x → y ∈ ord → x = y.
Proof.
  intros H1 H2 Hy. pose proof (anc_in _ _ H1 Hy) as Hx. apply list_elem_of_lookup in Hx as [i Hi], Hy as [j Hj].
  pose proof (anc_idx _ _ _ _ H1 Hi Hj). pose proof (anc_idx _ _ _ _ H2 Hj Hi). assert (i = j) as -> by lia. congruence.
Qed.
Lemma anc_root y : y ∈ ord → Anc r y.
Proof.
  intros [i Hi]%list_elem_of_lookup. revert y Hi. induction i as [i IH] using (well_founded_induction lt_wf). intros y Hi.
  destruct (decide (y = r)) as [->|Hne]; [apply anc_refl|]. destruct (parent_before i y Hi Hne) as (j & b & Hj & Hb & Hp & Hin).
  eapply anc_child; [by eapply IH|done|done].
Qed.
Lemma anc_of_root x : Anc x r → x = r.
Proof. intros HA. destruct (decide (x = r)) as [|Hne]; [done|]. destruct (anc_inv _ _ HA Hne) as (b & Hb & Hp & _). by destruct (root_top _ Hp b Hb). Qed.
Lemma anc_linear x y z : Anc x z → Anc y z → z ∈ ord → Anc x y ∨ Anc y x.
Proof.
  intros HA. revert y. induction HA as [x|x b z HA IH Hb Hp]; intros y HB Hz; [by right|]. destruct (decide (y = z)) as [->|Hne]; [left; by eapply anc_child|].
  destruct (anc_inv _ _ HB Hne) as (b' & Hb' & Hp' & HB'). assert (b = b') as <- by (apply hash_inj; congruence). auto.
Qed.
(** The one child on the way to [z]. *)
Lemma anc_next x y1 y2 z : Parent y1 = Some (Hash x) → Parent y2 = Some (Hash x) → x ∈ ord → y1 ∈ ord → y2 ∈ ord → Anc y1 z → Anc y2 z → z ∈ ord → y1 = y2.
Proof.
  assert (∀ u v, u ≠ v → Parent u = Some (Hash x) → Parent v = Some (Hash x) → x ∈ ord → u ∈ ord → v ∈ ord → Anc u v → False) as HF.
  { intros u v Hne Hu Hv Hx Hui Hvi HA. destruct (anc_inv _ _ HA Hne) as (b & Hb & Hp & HAb). assert (b = x) as -> by (apply hash_inj; congruence).
    apply list_elem_of_lookup in Hx as Hx'. destruct Hx' as [i Hi]. apply list_elem_of_lookup in Hui as [j Hj]. pose proof (anc_idx _ _ _ _ HAb Hj Hi).
    pose proof (anc_idx _ _ _ _ (anc_one x u Hx Hu) Hi Hj). assert (i = j) as -> by lia. assert (u = x) as -> by congruence.
    destruct (decide (x = r)) as [->|Hxr]; [by destruct (root_top _ Hu r)|]. destruct (parent_before j x Hj Hxr) as (k & b & Hk & Hkb & Hpb & Hbi).
    assert (b = x) as -> by (apply hash_inj; congruence). pose proof (inv_inj _ _ _ _ _ _ _ _ _ HI Hkb Hj eq_refl) as [-> _]. lia. }
  intros H1 H2 Hx Hy1 Hy2 A1 A2 Hz. destruct (decide (y1 = y2)) as [|Hne]; [done|].
  destruct (anc_linear _ _ _ A1 A2 Hz) as [HA|HA]; [destruct (HF y1 y2); auto|destruct (HF y2 y1); auto].
Qed.
Lemma child_in x p : x ∈ ChildAUMs c p ↔ x ∈ ord ∧ Parent x = Some p.
Proof. rewrite (child_spec _ _ _ (iv_store _ _ _ _ _ HI)), (iv_elem _ _ _ _ _ HI). done. Qed.
End anc.
Arguments Anc {_} _ _ _.

(** ** The active chain *)
Fixpoint ancestorAt `{TkaCrypto} (c : Mem) (n : nat) (x : AUM) : option AUM :=
  match n with
  | O => Some x
  | S n => Parent x ≫= λ p, aums c !! p ≫= ancestorAt c n
  end.

Section active.
Context `{TkaCrypto} (M : AUM → Prop) (g r : AUM) (c : Mem) (ord : list AUM) (HI : Inv M g r c ord).
Local Abbreviation anc := (Anc ord).

Lemma read_cases p : (∃ x, x ∈ ord ∧ Hash x = p ∧ memAUM c p = Ok x) ∨ memAUM c p = Err ErrNotExist ∧ aums c !! p = None.
Proof.
  destruct (aums c !! p) as [x|] eqn:E; [left|right; by unfold memAUM; rewrite E]. destruct (proj1 (stored_in _ _ _ _ _ HI p)) as (y & Hy & <-); [by eexists|].
  exists y. split_and!; [done|done|]. by eapply read.
Qed.
Lemma no_parent_root x : x ∈ ord → Parent x = None → x = r.
Proof. intros Hx Hp. destruct (decide (x = r)) as [|Hne]; [done|]. destruct (parent_in _ _ _ _ _ HI x Hx Hne) as (b & Hb & _). congruence. Qed.
Lemma anc_cases x b y : y ∈ ord → b ∈ ord → Parent y = Some (Hash b) → anc x y ↔ x = y ∨ anc x b.
Proof.
  intros Hy Hb Hp. split.
  - intros HA. destruct (decide (x = y)) as [->|Hne]; [by left|]. destruct (anc_inv _ _ _ HA Hne) as (b' & Hb' & Hp' & HA'). right.
    assert (b = b') as <- by (eapply hash_inj; eauto; congruence). done.
  - intros [->|HA]; [apply anc_refl|]. by eapply anc_child.
Qed.

Definition hashes (P : AUM → Prop) (h : bytes) : Prop := ∃ y, Hash y = h ∧ P y.

Lemma activeLoop_spec n next v : next ∈ ord →
  outcome (activeLoop n c next v) (λ res,
    match res with
    | inl (v', h) => h = Hash r ∧ adds retainStateActive (hashes (λ y, anc y next)) v v'
    | inr (v', z) => z ∈ ord ∧ anc z next ∧ ancestorAt c n next = Some z ∧ adds retainStateActive (hashes (λ y, anc z y ∧ y ≠ z ∧ anc y next)) v v'
    end) False.
Proof.
  revert next v. induction n as [|n IH]; intros next v Hin.
  { cbn. split_and!; [done|apply anc_refl|done|]. eapply adds_iff; [apply adds_refl|]. intros h. split; [done|]. intros (y & _ & H1 & Hne & H2). destruct Hne.
    by apply (anc_antisym _ _ _ _ _ HI). }
  assert (next = r → adds retainStateActive (hashes (λ y, anc y next)) v (mark retainStateActive (Hash next) v)) as Htop.
  { intros ->. eapply adds_iff; [apply adds_mark|]. intros h. split; [intros ->; exists r; split; [done|apply anc_refl]|]. intros (y & <- & HA).
    by rewrite (anc_of_root _ _ _ _ _ HI y HA). }
  cbn [activeLoop ancestorAt]. destruct (Parent next) as [p|] eqn:Ep; [|cbn; pose proof (no_parent_root _ Hin Ep) as ->; auto].
  destruct (read_cases p) as [(b & Hb & <- & Er)|[Er En]]; rewrite Er; [|cbn; pose proof (parent_root _ _ _ _ _ HI _ _ Ep Hin En) as ->; auto].
  eapply outcome_mono; [apply IH, Hb| |done]. intros [[v' h]|[v' z]].
  - intros [-> HA]. split; [done|]. eapply adds_iff; [eapply adds_trans; [apply adds_mark|exact HA]|]. intros h. unfold hashes.
    split.
    + intros [->|(y & <- & Hy)]; [exists next; split; [done|apply anc_refl]|]. exists y. split; [done|]. by eapply anc_child.
    + intros (y & <- & Hy%(anc_cases y b)); [|done..]. destruct Hy as [->|Hy]; [by left|right; eauto].
  - intros (Hz & Hzb & HAt & HA). split_and!; [done|by eapply anc_child| |].
    { cbn. by rewrite (proj1 (iv_elem _ _ _ _ _ HI b) Hb). }
    eapply adds_iff; [eapply adds_trans; [apply adds_mark|exact HA]|]. intros h. unfold hashes.
    assert (next ≠ z) as Hnz.
    { intros ->. pose proof (anc_antisym _ _ _ _ _ HI b z) as E. destruct (decide (z = r)) as [->|Hr]; [by destruct (root_top _ _ _ _ _ HI _ Ep b Hb)|].
      apply list_elem_of_lookup in Hin as [i Hi]. destruct (parent_before _ _ _ _ _ HI i z Hi Hr) as (j & d & Hj & Hd & Hpd & Hdi).
      assert (b = d) as <- by (eapply hash_inj; eauto; congruence). pose proof (anc_idx _ _ _ _ _ HI _ _ _ _ Hzb Hi Hd). lia. }
    split.
    + intros [->|(y & <- & H1 & H2 & H3)]; [exists next; split_and!; [done|by eapply anc_child|done|apply anc_refl]|]. exists y. split_and!; try done. by eapply anc_child.
    + intros (y & <- & H1 & H2 & H3%(anc_cases y b)); [|done..]. destruct H3 as [->|H3]; [by left|right; eauto 10].
Qed.

(** The next loop ends at a checkpoint that is old or the beginning of time; it fails only
    when the oldest message is young and had a parent. *)
Lemma targetLoop_spec fuel next v i : ord !! i = Some next → (i < fuel)%nat →
  outcome (targetLoop fuel c next v) (λ '(v', z), z ∈ ord ∧ anc z next ∧ MessageKind z = AUMCheckpoint ∧
      (marked retainStateYoung v (Hash z) = false ∨ Parent z = None) ∧ adds retainStateActive (hashes (λ y, anc z y ∧ anc y next)) v v')
    (marked retainStateYoung v (Hash r) = true ∧ Parent r ≠ None).
Proof.
  revert next v i. induction fuel as [|fuel IH]; intros next v i Hi Hf; [lia|]. cbn [targetLoop].
  pose proof (list_elem_of_lookup_2 _ _ _ Hi) as Hin.
  rewrite (adds_other _ _ _ _ _ (Hash next) (adds_mark retainStateActive (Hash next) v)) by done.
  destruct (bool_decide (MessageKind next = AUMCheckpoint) && (negb (marked retainStateYoung v (Hash next)) || bool_decide (Parent next = None))) eqn:E.
  - apply andb_true_iff in E as [Ek%bool_decide_eq_true E]. cbn. split_and!; [done|apply anc_refl|done| |].
    + apply orb_true_iff in E as [E%negb_true_iff|E%bool_decide_eq_true]; auto.
    + eapply adds_iff; [apply adds_mark|]. intros h. split; [intros ->; exists next; split_and!; [done|apply anc_refl..]|].
      intros (y & <- & H1 & H2). by rewrite (anc_antisym _ _ _ _ _ HI y next).
  - destruct (decide (next = r)) as [->|Hne].
    + destruct (iv_root _ _ _ _ _ HI) as (st & Hk & _). rewrite bool_decide_true in E by done. cbn in E. apply orb_false_iff in E as [E1%negb_false_iff E2%bool_decide_eq_false].
      destruct (Parent r) as [p|] eqn:Ep; [|done]. cbn. unfold memAUM. rewrite (iv_top _ _ _ _ _ HI _ Ep). cbn. done.
    + destruct (parent_before _ _ _ _ _ HI i next Hi Hne) as (j & b & Hj & Hb & Hp & Hbi). rewrite Hp. cbn [default from_option id]. rewrite (read _ _ _ _ _ HI b Hbi).
      cbn [wrapErr mbind res_bind]. eapply outcome_mono; [apply (IH b _ j Hb); lia| |].
      * intros [v' z] (Hz & Hzb & Hk & HY & HA). rewrite (adds_other _ _ _ _ _ (Hash z) (adds_mark retainStateActive (Hash next) v)) in HY by done.
        split_and!; try done; [by eapply anc_child|]. eapply adds_iff; [eapply adds_trans; [apply adds_mark|exact HA]|]. intros h. split.
        -- intros [->|(y & <- & H1 & H2)]; [exists next; split_and!; [done|by eapply anc_child|apply anc_refl]|]. exists y. split_and!; try done. by eapply anc_child.
        -- intros (y & <- & H1 & H2%(anc_cases y b)); [|done..]. destruct H2 as [->|H2]; [by left|right; exists y; auto].
      * rewrite (adds_other _ _ _ _ _ (Hash r) (adds_mark retainStateActive (Hash next) v)) by done. done.
Qed.

(** The candidates are the ancestors of the target, and the hash before the oldest. *)
Lemma candidateLoop_spec fuel next v i : ord !! i = Some next → (i < fuel)%nat →
  outcome (candidateLoop fuel c next v)
    (adds retainStateCandidate (λ h, hashes (λ y, anc y next ∧ y ≠ next) h ∨ Parent r = Some h) v) False.
Proof.
  revert next v i. induction fuel as [|fuel IH]; intros next v i Hi Hf; [lia|]. cbn [candidateLoop]. pose proof (list_elem_of_lookup_2 _ _ _ Hi) as Hin.
  destruct (decide (next = r)) as [->|Hne].
  - assert (∀ h, ¬ hashes (λ y, anc y r ∧ y ≠ r) h) as Hno by (intros h (y & _ & HA & Hn); by apply (anc_of_root _ _ _ _ _ HI) in HA).
    destruct (Parent r) as [p|] eqn:Ep; cbn; [unfold memAUM; rewrite (iv_top _ _ _ _ _ HI _ Ep); cbn; eapply adds_iff; [apply adds_mark|]
      |eapply adds_iff; [apply adds_refl|]]; intros h; specialize (Hno h); naive_solver.
  - destruct (parent_before _ _ _ _ _ HI i next Hi Hne) as (j & b & Hj & Hb & Hp & Hbi). rewrite Hp, (read _ _ _ _ _ HI b Hbi).
    eapply outcome_mono; [apply (IH b _ j Hb); lia| |done]. intros v' HA. eapply adds_iff; [eapply adds_trans; [apply adds_mark|exact HA]|]. intros h.
    assert (b ≠ next) as Hbn by (intros ->; pose proof (inv_inj _ _ _ _ _ _ _ _ _ HI Hi Hb eq_refl) as [-> _]; lia).
    split.
    + intros [->|[(y & <- & HA1 & Hn)|Hr]]; [left; exists b; split_and!; [done|by eapply anc_one|done]|left; exists y|by right].
      split_and!; [done|by eapply anc_child|]. intros ->. assert (next = b) as <-; [|done]. apply (anc_antisym _ _ _ _ _ HI); [done|by eapply anc_one|done].
    + intros [(y & <- & HA1%(anc_cases y b) & Hn)|Hr]; [|done..|by right; right]. destruct HA1 as [->|HA1]; [done|].
      destruct (decide (y = b)) as [->|Hyb]; [by left|]. right. left. by exists y.
Qed.
End active.

(** ** The young and the descendants *)
Section descend.
Context `{TkaCrypto} `{MapOrder} (M : AUM → Prop) (g r : AUM) (c : Mem) (ord : list AUM) (HI : Inv M g r c ord).

Definition young (minTime : Z) (h : bytes) : Prop := is_Some (aums c !! h) ∧ ∃ t, commitTimes c !! h = Some t ∧ minTime < t.
#[global] Instance young_dec minTime h : Decision (young minTime h).
Proof.
  unfold young. apply and_dec; [apply _|]. destruct (commitTimes c !! h) as [t|]; [|right; by intros (? & ? & _)].
  destruct (decide (minTime < t)); [left; by exists t|right; by intros (? & [= <-] & ?)].
Defined.
Lemma youngLoop_spec minTime l v : (∀ h, h ∈ l → is_Some (aums c !! h)) →
  outcome (youngLoop c minTime l v) (adds retainStateYoung (λ h, h ∈ l ∧ young minTime h) v) False.
Proof.
  revert v. induction l as [|h l IH]; intros v Hl; cbn [youngLoop].
  { cbn. eapply adds_iff; [apply adds_refl|]. intros h. rewrite elem_of_nil. naive_solver. }
  assert (is_Some (aums c !! h)) as Hh by (apply Hl; by left). destruct (iv_times _ _ _ _ _ HI h Hh) as [t Ht]. unfold CommitTime. rewrite Ht. cbn [of_option mbind res_bind].
  eapply outcome_mono; [apply IH; intros; apply Hl; by right| |done]. intros v' HA. unfold young in *. destruct (Z.ltb_spec minTime t) as [Hlt|Hge].
  - eapply adds_iff; [eapply adds_trans; [apply adds_mark|exact HA]|]. intros x. rewrite elem_of_cons. naive_solver.
  - eapply adds_iff; [exact HA|]. intros x. rewrite elem_of_cons. split; [naive_solver|]. intros [[->|?] HY]; [|done]. destruct HY as (_ & t' & ? & ?). simplify_eq. lia.
Qed.

(** A set of stored hashes that has the children of its members. *)
Context (D : bytes → Prop).
Hypothesis D_stored : ∀ h, D h → is_Some (aums c !! h).
Hypothesis D_child : ∀ h y, D h → y ∈ ord → Parent y = Some h → D (Hash y).

Lemma descendRound_spec l v next : Forall D l → Forall D next → ∃ L, adds retainStateLeaf L v (descendRound c l v next).1 ∧ (∀ h, L h → D h) ∧
  Forall D (descendRound c l v next).2 ∧
  ((descendRound c l v next).2 ≠ next → (unmarked c retainStateLeaf (descendRound c l v next).1 < unmarked c retainStateLeaf v)%nat).
Proof.
  revert v next. induction l as [|h l IH]; intros v next Hl Hn; cbn [descendRound].
  { exists (λ _, False). split_and!; [apply adds_refl|done|done|done]. }
  inversion Hl as [|? ? Hh Hl']; subst. destruct (marked retainStateLeaf v h) eqn:E; [by apply IH|].
  destruct (IH (mark retainStateLeaf h v) (next ++ (Hash <$> ChildAUMs c h))) as (L & HA & HL & HF & HD); [done| |].
  { apply Forall_app. split; [done|]. apply Forall_fmap, Forall_forall. intros y [Hy Hp]%(child_in _ _ _ _ _ HI). by eapply D_child. }
  assert (unmarked c retainStateLeaf (mark retainStateLeaf h v) < unmarked c retainStateLeaf v)%nat as Hlt.
  { eapply (unmarked_lt _ _ _ _ h); [|by apply D_stored|done|]; [intros x Hx|]; rewrite (adds_same _ _ _ _ _ _ (adds_mark _ _ _)) by done; auto. }
  exists (λ x, x = h ∨ L x). split_and!; [by eapply adds_trans; [apply adds_mark|]|by intros x [->|?]; auto|done|]. intros _.
  eapply Nat.le_lt_trans; [|exact Hlt]. apply unmarked_le. intros x Hx. apply HA. by left.
Qed.
Lemma descendLoop_spec fuel l v : Forall D l → (unmarked c retainStateLeaf v < fuel)%nat →
  outcome (descendLoop fuel c l v) (λ v', ∃ L, adds retainStateLeaf L v v' ∧ ∀ h, L h → D h) False.
Proof.
  revert l v. induction fuel as [|fuel IH]; intros l v Hl Hf; [lia|].
  destruct l as [|h l]; [cbn; exists (λ _, False); split; [apply adds_refl|done]|]. cbn [descendLoop].
  destruct (descendRound_spec (h :: l) v [] Hl (Forall_nil_2 _)) as (L & HA & HL & HF & HD).
  destruct (descendRound c (h :: l) v []) as [v1 next] eqn:E. cbn [fst snd] in *.
  destruct next as [|x next].
  - destruct fuel; cbn; by exists L.
  - eapply outcome_mono; [apply IH; [done|]; specialize (HD ltac:(done)); lia| |done].
    intros v2 (L2 & HA2 & HL2). exists (λ x, L x ∨ L2 x). split; [by eapply adds_trans|naive_solver].
Qed.
End descend.

(** ** The intersection with the active chain *)
Section intersect.
Context `{TkaCrypto} (M : AUM → Prop) (g r : AUM) (c : Mem) (ord : list AUM) (HI : Inv M g r c ord).
Local Abbreviation anc := (Anc ord).
(** [C0] is the target and [v3] the verdict with which the search starts. *)
Context (C0 : AUM) (v3 : Verdict).
Hypothesis C0_in : C0 ∈ ord.
Hypothesis C0_kept : marked retainStateActive v3 (Hash C0) = true.
Hypothesis active_after : ∀ y, anc y C0 → y ≠ C0 → marked retainStateActive v3 (Hash y) = false.
Hypothesis candidates : ∀ h, marked retainStateCandidate v3 h = true → hashes (λ y, anc y C0 ∧ y ≠ C0) h ∨ Parent r = Some h.
Hypothesis candidates_all : ∀ y, anc y C0 → y ≠ C0 → marked retainStateCandidate v3 (Hash y) = true.
Hypothesis candidates_top : ∀ p, C0 ≠ r → Parent r = Some p → marked retainStateCandidate v3 p = true.
Hypothesis no_ancestors : ∀ h, marked retainStateAncestor v3 h = false.
Local Abbreviation kept0 h := (marked retainAUMMask v3 h = true).

Lemma path_child v N x a : adds retainStateAncestor N v3 v → Parent a = Some (Hash x) → x ∈ ord → a ∈ ord →
  (marked retainStateCandidate v (Hash a) = true ∧ marked retainStateActive v (Hash a) = false) ↔ anc a C0 ∧ a ≠ C0.
Proof.
  intros HA Hp Hx Ha. rewrite !(adds_other _ _ _ _ _ _ HA) by done. split.
  - intros [HK _]. apply candidates in HK as [(y & E & Hy & Hne)|Hr]; [|by destruct (root_top _ _ _ _ _ HI _ Hr a Ha)].
    pose proof (anc_in _ _ _ Hy C0_in) as Hyi. assert (y = a) as -> by (eapply hash_inj; eauto). done.
  - intros [? ?]. auto.
Qed.
Lemma childLoop_spec fuel x v N i : ord !! i = Some x → (length ord ≤ i + fuel)%nat → anc x C0 → x ≠ C0 → adds retainStateAncestor N v3 v →
  outcome (childLoop fuel c (Hash x) v) (adds retainStateAncestor (hashes (λ y, anc x y ∧ y ≠ x ∧ anc y C0 ∧ y ≠ C0)) v) False.
Proof.
  revert x v N i. induction fuel as [|fuel IH]; intros x v N i Hi Hf HA Hne Hv; [apply lookup_lt_Some in Hi; lia|]. cbn [childLoop].
  pose proof (list_elem_of_lookup_2 _ _ _ Hi) as Hx. destruct (list_find _ _) as [[k a]|] eqn:E.
  - apply list_find_Some in E as (Ha & HP & _). apply list_elem_of_lookup_2, (child_in _ _ _ _ _ HI) in Ha as [Ha Hp].
    apply (path_child v N x a) in HP as [HAa Hna]; [|done..]. apply list_elem_of_lookup in Ha as Hj. destruct Hj as [j Hj].
    assert (x ≠ a) as Hxa.
    { intros ->. destruct (decide (a = r)) as [->|Hr]; [by destruct (root_top _ _ _ _ _ HI _ Hp r)|].
      destruct (parent_before _ _ _ _ _ HI j a Hj Hr) as (k' & b & Hk & Hb & Hpb & Hbi). assert (b = a) as -> by (eapply hash_inj; eauto; congruence).
      pose proof (inv_inj _ _ _ _ _ _ _ _ _ HI Hj Hb eq_refl) as [-> _]. lia. }
    pose proof (anc_idx _ _ _ _ _ HI _ _ _ _ (anc_one _ _ _ Hx Hp) Hi Hj) as Hle.
    assert (i ≠ j) by (intros ->; congruence).
    eapply outcome_mono; [eapply (IH a _ _ j Hj); [lia|done|done|eapply adds_trans; [exact Hv|apply adds_mark]]| |done].
    intros v' HA'. eapply adds_iff; [eapply adds_trans; [apply adds_mark|exact HA']|]. intros h. split.
    + intros [->|(y & <- & H1 & H2 & H3 & H4)]; [exists a; split_and!; [done|by eapply anc_one|done|done|done]|]. exists y. split_and!; try done.
      * eapply anc_trans; [by eapply anc_one|done].
      * intros ->. apply Hxa. apply (anc_antisym _ _ _ _ _ HI); [by eapply anc_one|done|done].
    + intros (y & <- & H1 & H2 & H3 & H4). destruct (anc_step _ _ _ H1) as [->|(b & Hb & Hpb & Hby)]; [by eapply anc_in|done|].
      assert (a = b) as <- by (eapply (anc_next _ _ _ _ _ HI x a b C0); eauto; by eapply anc_trans).
      destruct (decide (y = a)) as [->|Hya]; [by left|]. right. exists y. done.
  - cbn. eapply adds_iff; [apply adds_refl|]. intros h. split; [done|]. intros (y & <- & H1 & H2 & H3 & H4).
    apply list_find_None in E. rewrite Forall_forall in E. pose proof (anc_in _ _ _ H3 C0_in) as Hy.
    destruct (anc_step _ _ _ H1 Hy) as [->|(b & Hb & Hpb & Hby)]; [done|]. destruct (decide (b = C0)) as [->|HbC].
    + by apply H4, (anc_antisym _ _ _ _ _ HI).
    + apply (E b); [by apply (child_in _ _ _ _ _ HI)|]. apply (path_child v N x b); try done. split; [by eapply anc_trans|done].
Qed.
Lemma childLoop_top fuel v N p : (length ord < fuel)%nat → Parent r = Some p → C0 ≠ r → adds retainStateAncestor N v3 v →
  outcome (childLoop fuel c p v) (adds retainStateAncestor (hashes (λ y, anc y C0 ∧ y ≠ C0)) v) False.
Proof.
  intros Hf Hp Hne Hv. destruct fuel as [|fuel]; [lia|]. cbn [childLoop]. pose proof (anc_root _ _ _ _ _ HI C0 C0_in) as HA.
  destruct (list_find _ _) as [[k a]|] eqn:E.
  - apply list_find_Some in E as (Ha & HP & _). apply list_elem_of_lookup_2, (child_in _ _ _ _ _ HI) in Ha as [Ha Hpa].
    assert (a = r) as -> by (eapply parent_root; eauto; by apply HI).
    eapply outcome_mono; [eapply (childLoop_spec fuel r _ _ 0); [apply HI|lia|done|done|eapply adds_trans; [exact Hv|apply adds_mark]]| |done].
    intros v' HA'. eapply adds_iff; [eapply adds_trans; [apply adds_mark|exact HA']|]. intros h. split.
    + intros [->|(y & <- & H1 & H2 & H3 & H4)]; [exists r; done|exists y; done].
    + intros (y & <- & H1 & H2). destruct (decide (y = r)) as [->|Hyr]; [by left|]. right. exists y. split_and!; try done.
      eapply anc_root; eauto. by eapply anc_in.
  - exfalso. apply list_find_None in E. rewrite Forall_forall in E. apply (E r).
    + apply (child_in _ _ _ _ _ HI). split; [by eapply root_in|done].
    + rewrite !(adds_other _ _ _ _ _ _ Hv) by done. auto.
Qed.

(** What the search has so far: [N] got the flag and [pend] are to be looked at. *)
Definition onPath (cand h : bytes) : Prop := ∃ y, Hash y = h ∧ anc y C0 ∧ ((∃ x, Hash x = cand ∧ x ∈ ord ∧ anc x y) ∨ Parent r = Some cand).
(** The oldest message is to be kept on its own account: then the compaction fails. *)
Definition rootYoung : Prop := kept0 (Hash r) ∧ C0 ≠ r.
Record scanInv (pend N : bytes → Prop) (s : Scan) : Prop := {
  si_v : adds retainStateAncestor N v3 (scVerdict s);
  si_cand : scAdjusted s = false ∧ scAncestor s = Hash C0 ∨
    scAdjusted s = true ∧ N (scAncestor s) ∧ (hashes (λ x, anc x C0 ∧ x ≠ C0) (scAncestor s) ∨ Parent r = Some (scAncestor s));
  si_path h : onPath (scAncestor s) h → h ≠ Hash C0 → N h;
  si_just h : kept0 h ∨ N h → (pend h ∧ ¬ N h) ∨ (∃ a p, a ∈ ord ∧ Hash a = h ∧ Parent a = Some p ∧ (kept0 p ∨ N p ∨ pend p)) ∨
    onPath (scAncestor s) h ∨ h = scAncestor s;
  si_stored h : pend h → N h ∨ ∃ x, x ∈ ord ∧ Hash x = h;
  si_root : pend (Hash r) → N (Hash r) ∨ rootYoung;
  si_bad : Parent r = Some (scAncestor s) → rootYoung;
  si_marked h : N h → (∃ x, x ∈ ord ∧ Hash x = h) ∨ Parent r = Some (scAncestor s)
}.
Local Abbreviation todo l s := (λ x, x ∈ l ∨ x ∈ scNext s).

Lemma flag_N pend N s h : scanInv pend N s → marked retainStateAncestor (scVerdict s) h = true ↔ N h.
Proof. intros HS. rewrite (adds_same _ _ _ _ _ _ (si_v _ _ _ HS)), no_ancestors by done. naive_solver. Qed.
Lemma flag_kept N v h : adds retainStateAncestor N v3 v → marked retainAUMMask v h = true ↔ kept0 h ∨ N h.
Proof. intros HA. by rewrite (adds_same _ _ _ _ _ _ HA). Qed.
Lemma not_adjusted pend N s : scanInv pend N s → ∀ x, Hash x = scAncestor s → x ∈ ord → anc x C0.
Proof.
  intros HS x Hx Hin. destruct (si_cand _ _ _ HS) as [[_ E]|(_ & _ & [(y & E & Hy & _)|Hr])].
  - assert (x = C0) as -> by (eapply hash_inj; eauto; congruence). apply anc_refl.
  - assert (x = y) as -> by (eapply hash_inj; eauto; [by eapply anc_in|congruence]). done.
  - by destruct (root_top _ _ _ _ _ HI _ Hr x Hin).
Qed.

(** A hash that was looked at already. *)
Lemma scan_skip h l N s : scanInv (todo (h :: l) s) N s → N h → scanInv (todo l s) N s.
Proof.
  intros [HV HC HP HJ HS HR HB HM] Hh. split; try done.
  - intros x Hx. destruct (HJ x Hx) as [[Hp Hn]|[(a & p & Ha & Hax & Hpa & Hk)|Ho]]; [left|right; left; exists a, p|by right; right].
    + split; [|done]. destruct Hp as [[->|?]%elem_of_cons|?]; [done|by left|by right].
    + split_and!; try done. destruct Hk as [?|[?|[[->|?]%elem_of_cons|?]]]; auto.
  - intros x Hx. apply HS. destruct Hx; [left; by right|by right].
  - intros Hx. apply HR. destruct Hx; [left; by right|by right].
Qed.
(** One that is marked; its parent is kept already or comes next. *)
Lemma scan_mark h l N s a p next : scanInv (todo (h :: l) s) N s → ¬ N h → a ∈ ord → Hash a = h → Parent a = Some p →
  next = scNext s ∧ (kept0 p ∨ N p ∨ p = h) ∨ next = scNext s ++ [p] ∧ (∃ x, x ∈ ord ∧ Hash x = p) ∧ p ≠ Hash r →
  let s' := mkScan (mark retainStateAncestor h (scVerdict s)) (scAncestor s) (scAdjusted s) next in
  scanInv (todo l s') (λ x, N x ∨ x = h) s'.
Proof.
  intros [HV HC HP HJ HS HR HB HM] Hn Ha Hh Hp Hnext s'.
  assert (∀ x, x ∈ scNext s → x ∈ next) as Hsub by (intros x Hx; destruct Hnext as [[-> _]|[-> _]]; [done|]; rewrite elem_of_app; auto).
  assert (∀ x, x ∈ next → x ∈ scNext s ∨ x = p ∧ (∃ y, y ∈ ord ∧ Hash y = p) ∧ p ≠ Hash r) as Hsup.
  { intros x Hx. destruct Hnext as [[-> _]|(-> & ? & ?)]; [by left|]. apply elem_of_app in Hx as [?| ->%list_elem_of_singleton]; auto. }
  split; cbn [scVerdict scAncestor scAdjusted scNext s'].
  - eapply adds_trans; [exact HV|apply adds_mark].
  - destruct HC as [?|(? & ? & ?)]; auto.
  - intros x Hx Hne. left. by apply HP.
  - intros x Hx. destruct (decide (x = h)) as [->|Hxh].
    + right. left. exists a, p. split_and!; try done. destruct Hnext as [[_ [?|[?|?]]]|[-> _]]; auto. right. right. right. apply elem_of_app. right. by left.
    + destruct (HJ x) as [[Hpx Hnx]|[(b & q & Hb & Hbx & Hqb & Hk)|Ho]]; [naive_solver|left|right; left; exists b, q|by right; right].
      * split; [|naive_solver]. destruct Hpx as [[->|?]%elem_of_cons|?]; [done|by left|right; by apply Hsub].
      * split_and!; try done. destruct Hk as [?|[?|[[->|?]%elem_of_cons|?]]]; auto.
  - intros x [Hx|[Hx|(-> & ? & ?)]%Hsup]; [| |by right]; (destruct (HS x) as [?|?]; [|by left; left|by right]); [left; by right|by right].
  - intros [Hx|[Hx|(-> & ? & ?)]%Hsup]; [| |done]; (destruct HR as [?|?]; [|by left; left|by right]); [left; by right|by right].
  - done.
  - intros x [Hx| ->]; [auto|left; by exists a].
Qed.
Lemma candidate_new pend N s p : scanInv pend N s → ¬ N p → hashes (λ x, anc x C0 ∧ x ≠ C0) p ∨ Parent r = Some p → Parent r ≠ Some (scAncestor s).
Proof.
  intros HS Hn Hp Hb. destruct (si_cand _ _ _ HS) as [[_ E]|(_ & HN & _)]; [rewrite E in Hb; by destruct (root_top _ _ _ _ _ HI _ Hb C0)|].
  destruct Hp as [(y & <- & Hy & Hne)|Hp]; [|by replace p with (scAncestor s) in Hn by congruence]. apply Hn, (si_path _ _ _ HS).
  - exists y. auto.
  - intros E. apply Hne. eapply hash_inj; eauto. by eapply anc_in.
Qed.
(** A candidate that is met moves the oldest kept message back. *)
Lemma path_grows pend N s p x : scanInv pend N s → ¬ N p → hashes (λ x, anc x C0 ∧ x ≠ C0) p ∨ Parent r = Some p →
  onPath (scAncestor s) x ∨ x = scAncestor s → onPath p x.
Proof.
  intros HS Hn Hp Hx.
  pose proof (candidate_new _ _ _ p HS Hn Hp) as Hgood.
  assert (∃ x0, Hash x0 = scAncestor s ∧ x0 ∈ ord ∧ anc x0 C0) as (x0 & E0 & Hi0 & HA0).
  { destruct (si_cand _ _ _ HS) as [[_ E]|(_ & _ & [(y & E & Hy & _)|Hr])]; [exists C0; split_and!; [done|done|apply anc_refl]|exists y; split_and!; [done|by eapply anc_in|done]|done]. }
  assert (∃ y, Hash y = x ∧ anc y C0 ∧ anc x0 y) as (y & <- & Hy & Hxy).
  { destruct Hx as [(y & <- & Hy & [(x1 & E1 & Hi1 & HA1)|?])| ->]; [|done|exists x0; split_and!; [done|done|apply anc_refl]].
    assert (x1 = x0) as -> by (eapply hash_inj; eauto; congruence). by exists y. }
  exists y. split_and!; [done|done|]. destruct Hp as [(z & <- & Hz & Hne)|Hp]; [left|by right].
  pose proof (anc_in _ _ _ Hz C0_in) as Hzi. exists z. split_and!; [done|done|].
  destruct (anc_linear _ _ _ _ _ HI z x0 C0 Hz HA0 C0_in) as [HL|HL]; [by eapply anc_trans|]. destruct Hn. apply (si_path _ _ _ HS).
  - exists z. split_and!; [done|done|]. left. by exists x0.
  - intros E. apply Hne. by eapply hash_inj.
Qed.
Lemma scan_adjust h l N s a p v' P : scanInv (todo (h :: l) s) N s → ¬ N h → a ∈ ord → Hash a = h → Parent a = Some p → ¬ N p →
  hashes (λ x, anc x C0 ∧ x ≠ C0) p ∨ Parent r = Some p →
  adds retainStateAncestor P (mark retainStateAncestor p (mark retainStateAncestor h (scVerdict s))) v' →
  (∀ x, P x → onPath p x) → (∀ x, onPath p x → x ≠ Hash C0 → P x ∨ x = p) →
  let s' := mkScan v' p true (scNext s ++ [p]) in scanInv (todo l s') (λ x, ((N x ∨ x = h) ∨ x = p) ∨ P x) s'.
Proof.
  intros HS Hn Ha Hh Hpa Hnp Hp HA HP1 HP2 s'. pose proof (λ x, path_grows _ _ _ p x HS Hnp Hp) as Hgrow. pose proof (candidate_new _ _ _ p HS Hnp Hp) as Hgood.
  pose proof HS as [HV HC HP HJ HSt HR HB HM].
  assert (adds retainStateAncestor (λ x, ((N x ∨ x = h) ∨ x = p) ∨ P x) v3 v') as HV'.
  { eapply adds_trans; [eapply adds_trans; [eapply adds_trans; [exact HV|apply adds_mark]|apply adds_mark]|exact HA]. }
  split; cbn [scVerdict scAncestor scAdjusted scNext s'].
  - done.
  - right. auto.
  - intros x Hx Hne. destruct (HP2 x Hx Hne); auto.
  - intros x Hx. destruct (decide (x = h)) as [->|Hxh]; [right; left; exists a, p; auto 10|]. destruct (decide (x = p)) as [->|Hxp]; [auto|].
    destruct (marked retainStateAncestor v' x) eqn:E.
    + rewrite (adds_same _ _ _ _ _ _ HV'), no_ancestors in E by done. destruct E as [?|[[[HN|?]|?]|HPx]]; [done| |done|done|by auto].
      destruct (HJ x) as [[_ ?]|[(b & q & Hb & Hbx & Hqb & Hk)|Ho]]; [by right|done|right; left; exists b, q|right; right; left; by apply Hgrow].
      split_and!; try done. destruct Hk as [?|[?|[[->|?]%elem_of_cons|?]]]; [auto 10..|]. rewrite elem_of_app. auto 10.
    + assert (¬ (((N x ∨ x = h) ∨ x = p) ∨ P x)) as Hno.
      { intros Hyes. assert (marked retainStateAncestor v' x = true) by (apply (adds_same _ _ _ _ _ _ HV'); auto). congruence. }
      destruct (HJ x) as [[Hpx _]|[(b & q & Hb & Hbx & Hqb & Hk)|Ho]]; [naive_solver|left|right; left; exists b, q|right; right; left; by apply Hgrow].
      * split; [|done]. rewrite elem_of_app. destruct Hpx as [[->|?]%elem_of_cons|?]; auto. done.
      * split_and!; try done. destruct Hk as [?|[?|[[->|?]%elem_of_cons|?]]]; [auto 10..|]. rewrite elem_of_app. auto 10.
  - intros x. rewrite elem_of_app, list_elem_of_singleton. intros [Hx|[Hx| ->]]; [| |auto]; (destruct (HSt x) as [?|?]; [|auto 10..]); [left; by right|by right].
  - rewrite elem_of_app, list_elem_of_singleton. intros [Hx|[Hx|Hx]]; [| |auto]; (destruct HR as [?|?]; [|auto 10..]); [left; by right|by right].
  - intros Hr. assert (a = r) as -> by (eapply parent_root; eauto; by apply HI). subst h. destruct HR as [?|?]; [left; by left|done|done].
  - intros x [[[HN| ->]| ->]|HPx].
    + destruct (HM x HN); [by left|done].
    + left. by exists a.
    + destruct Hp as [(z & Hz & Hzc & _)|?]; [left; exists z; split; [by eapply anc_in|done]|by right].
    + destruct (HP1 x HPx) as (y & Hy & Hyc & _). left. exists y. split; [by eapply anc_in|done].
Qed.

Lemma intersectOne_spec h l N s : scanInv (todo (h :: l) s) N s →
  outcome (intersectOne c s h) (λ s', ∃ N', scanInv (todo l s') N' s' ∧ (∀ x, N x → N' x) ∧
    (scNext s' ≠ scNext s → ¬ N h ∧ N' h ∧ is_Some (aums c !! h))) rootYoung.
Proof.
  intros HS. unfold intersectOne. destruct (marked retainStateAncestor (scVerdict s) h) eqn:Em.
  { apply (flag_N _ _ _ _ HS) in Em. cbn. exists N. split_and!; [by eapply scan_skip|done|done]. }
  assert (¬ N h) as Hn by (intros Hx%(flag_N _ _ _ _ HS); congruence).
  destruct (si_stored _ _ _ HS h) as [?|(a & Ha & <-)]; [left; by left|done|]. rewrite (read _ _ _ _ _ HI a Ha). cbn [wrapErr mbind res_bind].
  assert (is_Some (aums c !! Hash a)) as Hst by (eexists; by apply HI).
  destruct (Parent a) as [p|] eqn:Ep.
  2:{ cbn. assert (a = r) as -> by by eapply no_parent_root. destruct (si_root _ _ _ HS) as [?|?]; [left; by left|done|done]. }
  pose proof (adds_trans _ _ _ _ _ _ (si_v _ _ _ HS) (adds_mark retainStateAncestor (Hash a) (scVerdict s))) as HV.
  destruct (marked retainAUMMask (mark retainStateAncestor (Hash a) (scVerdict s)) p) eqn:Ek.
  { apply (flag_kept _ _ _ HV) in Ek. cbn. eexists. split_and!; [by eapply scan_mark; eauto|by intros ? ?; left|done]. }
  assert (¬ (kept0 p ∨ N p ∨ p = Hash a)) as Hnk by (intros Hx%(flag_kept _ _ _ HV); congruence).
  rewrite (adds_other _ _ _ _ _ _ HV) by done. destruct (marked retainStateCandidate v3 p) eqn:Ec.
  - apply outcome_bind. pose proof (candidates p Ec) as Hp.
    pose proof (adds_trans _ _ _ _ _ _ HV (adds_mark retainStateAncestor p _)) as HV2.
    assert (outcome (childLoop (scanFuel c) c p (mark retainStateAncestor p (mark retainStateAncestor (Hash a) (scVerdict s))))
      (λ v', ∃ P, adds retainStateAncestor P (mark retainStateAncestor p (mark retainStateAncestor (Hash a) (scVerdict s))) v' ∧
        (∀ x, P x → onPath p x) ∧ (∀ x, onPath p x → x ≠ Hash C0 → P x ∨ x = p)) rootYoung) as HC.
    { pose proof (inv_size _ _ _ _ _ HI) as Hsz. destruct Hp as [(z & <- & Hz & Hne)|Hp].
      - pose proof (anc_in _ _ _ Hz C0_in) as Hzi. apply list_elem_of_lookup in Hzi as Hj. destruct Hj as [j Hj].
        eapply outcome_mono; [eapply (childLoop_spec _ z _ _ j Hj); [unfold scanFuel; lia|done|done|exact HV2]| |done]. intros v' HA. eexists. split_and!; [exact HA| |].
        + intros x (y & <- & H1 & H2 & H3 & H4). exists y. split_and!; [done|done|]. left. by exists z.
        + intros x (y & <- & H1 & [(z' & E & Hi & HA')|Hr]) Hx; [|by destruct (root_top _ _ _ _ _ HI _ Hr z)].
          assert (z' = z) as -> by by eapply hash_inj. destruct (decide (y = z)) as [->|Hyz]; [by right|]. left. exists y. split_and!; try done. by intros ->.
      - assert (C0 ≠ r) as HCr.
        { intros E. assert (a = r) as -> by (eapply parent_root; eauto; by apply HI). destruct (si_root _ _ _ HS) as [?|[_ ?]]; [left; by left|done|done]. }
        eapply outcome_mono; [eapply (childLoop_top (scanFuel c) _ _ p); [unfold scanFuel; lia|done|done|exact HV2]| |done]. intros v' HA. eexists. split_and!; [exact HA| |].
        + intros x (y & <- & H1 & H2). exists y. auto.
        + intros x (y & <- & H1 & _) Hx. left. exists y. split_and!; try done. by intros ->. }
    eapply outcome_mono; [exact HC| |done]. intros v' (P & HA & HP1 & HP2). cbn. eexists. split_and!; [eapply (scan_adjust (Hash a)); eauto|by intros ? ?; left; left; left|intros _; split_and!; [done|by left; left; right|done]].
  - cbn. eexists. split_and!; [eapply scan_mark; eauto; right; split_and!; [done| |]|by intros ? ?; left|intros _; split_and!; [done|by right|done]].
    + destruct (decide (a = r)) as [->|Har]; [|destruct (parent_in _ _ _ _ _ HI a Ha Har) as (b & Hb & Hbi); exists b; split; [done|congruence]].
      destruct (si_root _ _ _ HS) as [?|[_ HCr]]; [left; by left|done|]. rewrite (candidates_top p HCr Ep) in Ec. done.
    + intros ->. pose proof (anc_root _ _ _ _ _ HI C0 C0_in) as HAr. destruct (decide (r = C0)) as [E|E].
      * apply Hnk. left. unfold retainAUMMask. rewrite !marked_lor. rewrite E, C0_kept. done.
      * rewrite (candidates_all r HAr E) in Ec. done.
Qed.

Lemma scan_pend pend pend' N s next : scanInv pend N s → (∀ x, pend x ↔ pend' x) → scanInv pend' N (mkScan (scVerdict s) (scAncestor s) (scAdjusted s) next).
Proof.
  intros [HV HC HP HJ HS HR HB HM] E. split; try done.
  - intros x Hx. destruct (HJ x Hx) as [[Hp Hn]|[(a & p & Ha & Hax & Hpa & Hk)|Ho]]; [left; by rewrite <- E|right; left; exists a, p; by rewrite <- E|auto].
  - intros x. rewrite <- E. auto.
  - rewrite <- E. auto.
Qed.
Lemma intersectRound_spec l N s : scanInv (todo l s) N s →
  outcome (intersectRound c l s) (λ s', ∃ N', scanInv (λ x, x ∈ scNext s') N' s' ∧ (∀ x, N x → N' x) ∧
    (scNext s' ≠ scNext s → ∃ h, ¬ N h ∧ N' h ∧ is_Some (aums c !! h))) rootYoung.
Proof.
  revert N s. induction l as [|h l IH]; intros N s HS; cbn [intersectRound].
  { cbn. exists N. split_and!; [|done|done]. destruct s. eapply (scan_pend _ _ _ _ _ HS). intros x. rewrite elem_of_nil. naive_solver. }
  apply outcome_bind. eapply outcome_mono; [by apply intersectOne_spec| |done]. intros s1 (N1 & HS1 & HN1 & Hp1).
  eapply outcome_mono; [by apply IH| |done]. intros s2 (N2 & HS2 & HN2 & Hp2). exists N2. split_and!; [done|auto|]. intros Hne.
  destruct (decide (scNext s1 = scNext s)) as [E|E]; [|destruct (Hp1 E) as (? & ? & ?); exists h; auto].
  destruct Hp2 as (x & Hx & ? & ?); [congruence|]. exists x. auto.
Qed.
Lemma intersectLoop_spec fuel l N s : scanInv (λ x, x ∈ l) N s → (unmarked c retainStateAncestor (scVerdict s) < fuel)%nat →
  outcome (intersectLoop fuel c l s) (λ s', ∃ N', scanInv (λ _, False) N' s') rootYoung.
Proof.
  revert l N s. induction fuel as [|fuel IH]; intros l N s HS Hf; [lia|]. destruct l as [|h l].
  { cbn. exists N. destruct s. eapply (scan_pend _ _ _ _ _ HS). intros x. by rewrite elem_of_nil. }
  cbn [intersectLoop]. apply outcome_bind. set (s0 := mkScan _ _ _ _).
  assert (scanInv (todo (h :: l) s0) N s0) as HS0 by (eapply (scan_pend _ _ _ _ _ HS); intros x; cbn; rewrite elem_of_nil; naive_solver).
  eapply outcome_mono; [by apply intersectRound_spec| |done]. intros s1 (N1 & HS1 & HN1 & Hp1).
  destruct (scNext s1) as [|x next] eqn:E.
  - assert (scanInv (λ _, False) N1 s1) as HE by (destruct s1; eapply (scan_pend _ _ _ _ _ HS1); intros y; by rewrite elem_of_nil). destruct fuel; cbn; by exists N1.
  - destruct Hp1 as (y & Hy & Hy1 & Hst); [done|]. eapply IH; [exact HS1|]. eapply Nat.lt_le_trans; [|apply Nat.lt_succ_r, Hf].
    apply (unmarked_lt _ _ _ _ y); [|done| |].
    + intros z Hz%(flag_N _ _ _ _ HS0). apply (flag_N _ _ _ _ HS1). auto.
    + apply not_true_iff_false. intros Hz%(flag_N _ _ _ _ HS0). done.
    + by apply (flag_N _ _ _ _ HS1).
Qed.

Lemma adjustLoop_spec fuel next v i : ord !! i = Some next → (i < fuel)%nat →
  outcome (adjustLoop fuel c next v) (λ '(v', h), ∃ z, h = Hash z ∧ z ∈ ord ∧ MessageKind z = AUMCheckpoint ∧ anc z next ∧
    adds retainStateActive (hashes (λ y, anc z y ∧ anc y next)) v v') False.
Proof.
  revert next v i. induction fuel as [|fuel IH]; intros next v i Hi Hf; [lia|]. cbn [adjustLoop]. pose proof (list_elem_of_lookup_2 _ _ _ Hi) as Hin. case_decide as Hk.
  - cbn. exists next. split_and!; [done|done|done|apply anc_refl|]. eapply adds_iff; [apply adds_mark|]. intros h. split; [intros ->; exists next; split_and!; [done|apply anc_refl..]|].
    intros (y & <- & H1 & H2). by rewrite (anc_antisym _ _ _ _ _ HI y next).
  - assert (next ≠ r) as Hne by (intros ->; destruct (iv_root _ _ _ _ _ HI) as (st & ? & _); done).
    destruct (parent_before _ _ _ _ _ HI i next Hi Hne) as (j & b & Hj & Hb & Hp & Hbi). rewrite Hp, (read _ _ _ _ _ HI b Hbi). cbn [wrapErr mbind res_bind].
    eapply outcome_mono; [apply (IH b _ j Hb); lia| |done]. intros [v' h] (z & -> & Hz & Hkz & HA & HV). exists z. split_and!; try done; [by eapply anc_child|].
    eapply adds_iff; [eapply adds_trans; [apply adds_mark|exact HV]|]. intros h. split.
    + intros [->|(y & <- & H1 & H2)]; [exists next; split_and!; [done|by eapply anc_child|apply anc_refl]|]. exists y. split_and!; try done. by eapply anc_child.
    + intros (y & <- & H1 & H2%(anc_cases _ _ _ _ _ HI y b)); [|done..]. destruct H2 as [->|H2]; [by left|right; exists y; auto].
Qed.

(** What is kept in the end: from the checkpoint [z] on, everything with its parent. *)
Record keeps (v' : Verdict) (z : AUM) : Prop := {
  kp_in : z ∈ ord;
  kp_checkpoint : MessageKind z = AUMCheckpoint;
  kp_before : anc z C0;
  kp_self : marked retainAUMMask v' (Hash z) = true;
  kp_more h : kept0 h → marked retainAUMMask v' h = true;
  kp_closed x : x ∈ ord → marked retainAUMMask v' (Hash x) = true → x ≠ z → ∃ b, b ∈ ord ∧ Parent x = Some (Hash b) ∧ marked retainAUMMask v' (Hash b) = true;
  kp_chain y : anc z y → anc y C0 → marked retainAUMMask v' (Hash y) = true;
  kp_dom : dom v3 ⊆ dom v'
}.
Hypothesis kept_stored : ∀ h, kept0 h → ∃ x, x ∈ ord ∧ Hash x = h.
Hypothesis C0_checkpoint : MessageKind C0 = AUMCheckpoint.
Lemma C0_kept0 : kept0 (Hash C0).
Proof. unfold retainAUMMask. by rewrite !marked_lor, C0_kept. Qed.

Lemma scan_start (l : list bytes) : (∀ h, h ∈ l ↔ kept0 h ∧ h ≠ Hash C0) → scanInv (λ x, x ∈ l) (λ _, False) (mkScan v3 (Hash C0) false []).
Proof.
  intros Hl. assert (Parent r ≠ Some (Hash C0)) as Hr by (intros Hr; by destruct (root_top _ _ _ _ _ HI _ Hr C0)).
  split; cbn [scVerdict scAncestor scAdjusted].
  - apply adds_refl.
  - by left.
  - intros h (y & <- & Hy & [(x & E & Hx & HA)|?]) Hne; [|done]. assert (x = C0) as -> by by eapply hash_inj. apply Hne. f_equal. by apply (anc_antisym _ _ _ _ _ HI).
  - intros h [Hk|[]]. destruct (decide (h = Hash C0)) as [->|Hne]; [auto|]. left. split; [by apply Hl|by intros ?].
  - intros h [Hk _]%Hl. right. by apply kept_stored.
  - intros [Hk Hne]%Hl. right. split; [done|]. by intros ->.
  - done.
  - done.
Qed.
Lemma scan_end N s v' x z : scanInv (λ _, False) N s → Hash x = scAncestor s → x ∈ ord → anc z x → MessageKind z = AUMCheckpoint →
  (scAdjusted s = true ∧ adds retainStateActive (hashes (λ y, anc z y ∧ anc y x)) (scVerdict s) v' ∨ x = C0 ∧ z = C0 ∧ v' = scVerdict s) → keeps v' z.
Proof.
  intros HS Ex Hx Hzx Hk HV. pose proof (not_adjusted _ _ _ HS x Ex Hx) as HxC. pose proof (anc_in _ _ _ Hzx Hx) as Hz.
  assert (∃ Z, (∀ h, marked retainAUMMask v' h = true ↔ (kept0 h ∨ N h) ∨ Z h) ∧ (∀ h, Z h → hashes (λ y, anc z y ∧ anc y x) h) ∧
    ∀ y, anc z y → anc y x → (kept0 (Hash y) ∨ N (Hash y)) ∨ Z (Hash y)) as (Z & HZ & HZ1 & HZ2).
  { destruct HV as [[_ HV]|(-> & -> & ->)].
    - exists (hashes (λ y, anc z y ∧ anc y x)). split_and!; [|done|].
      + intros h. by rewrite (adds_same _ _ _ _ _ _ HV), (flag_kept _ _ _ (si_v _ _ _ HS)).
      + intros y H1 H2. right. by exists y.
    - exists (λ _, False). split_and!; [|done|].
      + intros h. rewrite (flag_kept _ _ _ (si_v _ _ _ HS)). naive_solver.
      + intros y H1 H2. assert (y = C0) as -> by by apply (anc_antisym _ _ _ _ _ HI). left. left. apply C0_kept0. }
  assert (∀ y, anc z y → anc y C0 → marked retainAUMMask v' (Hash y) = true) as Hchain.
  { intros y H1 H2. apply HZ. destruct (anc_linear _ _ _ _ _ HI y x C0 H2 HxC C0_in) as [HL|HL]; [by apply HZ2|].
    destruct (decide (y = C0)) as [->|Hne]; [left; left; apply C0_kept0|]. left. right. apply (si_path _ _ _ HS); [exists y; split_and!; [done|done|left; by exists x]|].
    intros E. apply Hne. eapply hash_inj; eauto. by eapply anc_in. }
  split; try done.
  - by eapply anc_trans.
  - apply Hchain; [apply anc_refl|by eapply anc_trans].
  - intros h Hh. apply HZ. auto.
  - intros y Hy Hky Hne. assert (anc z y → anc y C0 → ∃ b, b ∈ ord ∧ Parent y = Some (Hash b) ∧ marked retainAUMMask v' (Hash b) = true) as Hon.
    { intros H1 H2. destruct (anc_inv _ _ _ H1) as (b & Hb & Hp & HA); [done|]. exists b. split_and!; [done|done|]. apply Hchain; [done|].
      eapply anc_trans; [by eapply anc_one|done]. }
    apply HZ in Hky as [Hky|(y' & E & H1 & H2)%HZ1].
    2:{ assert (y' = y) as -> by (eapply hash_inj; eauto; by eapply anc_in). apply Hon; [done|by eapply anc_trans]. }
    destruct (si_just _ _ _ HS (Hash y) Hky) as [[[] _]|[(a & p & Ha & Hay & Hp & Hkp)|Ho]].
    + assert (a = y) as -> by by eapply hash_inj. assert (∃ b, b ∈ ord ∧ Hash b = p) as (b & Hb & <-).
      { destruct Hkp as [?|[HN|[]]]; [by apply kept_stored|]. destruct (si_marked _ _ _ HS _ HN) as [?|Hr]; [done|].
        rewrite <- Ex in Hr. by destruct (root_top _ _ _ _ _ HI _ Hr x). }
      exists b. split_and!; [done|done|]. apply HZ. left. destruct Hkp as [?|[?|[]]]; auto.
    + assert (∃ y', Hash y' = Hash y ∧ anc y' C0 ∧ anc x y') as (y' & E & H1 & H2).
      { destruct Ho as [(y' & E & H1 & [(x' & E' & Hx' & HA)|Hr])|E]; [| |exists x; split_and!; [congruence|done|apply anc_refl]].
        - assert (x' = x) as -> by (eapply hash_inj; eauto; congruence). by exists y'.
        - rewrite <- Ex in Hr. by destruct (root_top _ _ _ _ _ HI _ Hr x). }
      assert (y' = y) as -> by (eapply hash_inj; eauto; by eapply anc_in). apply Hon; [by eapply anc_trans|done].
  - destruct (si_v _ _ _ HS) as [_ HD]. destruct HV as [[_ [_ HD2]]|(_ & _ & ->)]; set_solver.
Qed.

Lemma markAncestor_spec `{MapOrder} : outcome (markAncestorIntersectionAUMs c v3 (Hash C0)) (λ '(v', h), ∃ z, h = Hash z ∧ keeps v' z) rootYoung.
Proof.
  unfold markAncestorIntersectionAUMs. apply outcome_bind.
  eapply outcome_mono; [eapply intersectLoop_spec; [apply scan_start; intros h; rewrite list_elem_of_filter, elem_ranges|apply unmarked_fuel]| |done].
  { split; [naive_solver|]. intros [Hk Hne]. split; [done|]. by eapply marked_stored. }
  intros s (N & HS). pose proof (si_cand _ _ _ HS) as HC. destruct (scAdjusted s) eqn:Ea.
  - destruct HC as [[? _]|(_ & _ & [(x & Ex & HxC & _)|Hr])]; [done| |].
    + pose proof (anc_in _ _ _ HxC C0_in) as Hx. rewrite <- Ex, (read _ _ _ _ _ HI x Hx). cbn [wrapErr mbind res_bind].
      apply list_elem_of_lookup in Hx as Hi. destruct Hi as [i Hi]. pose proof (inv_size _ _ _ _ _ HI) as Hsz. pose proof (lookup_lt_Some _ _ _ Hi).
      eapply outcome_mono; [eapply (adjustLoop_spec (scanFuel c) x (scVerdict s) i Hi); unfold scanFuel; lia| |done].
      intros [v' h] (z & -> & Hz & Hk & HA & HV). exists z. split; [done|]. eapply (scan_end N s v' x z); auto.
    + unfold memAUM. rewrite (iv_top _ _ _ _ _ HI _ Hr). cbn. by apply (si_bad _ _ _ HS).
  - destruct HC as [[_ E]|[? _]]; [|done]. cbn. exists C0. split; [done|]. eapply (scan_end N s _ C0 C0); eauto using anc_refl.
Qed.
End intersect.
