(* ===== verification/TkaPurgeThms.v ===== *)
(** * Compaction keeps the authority: what is deleted

    The verdict of [Compact], the storage after it, and the authority over that. *)

From stdpp Require Import base gmap sets list strings relations.
From S2P Require Import Prelude GoStd Bytes Tka TkaChain TkaThms TkaChainThms TkaPickThms TkaCompact TkaCompactThms.

Section verdict.
Context `{TkaCrypto} `{MapOrder} (M : AUM → Prop) (g r : AUM) (c : Mem) (ord : list AUM) (HI : Inv M g r c ord).
Context (e : AUM) (e_in : e ∈ ord).
Local Abbreviation anc := (Anc ord).

Definition noVerdict : Verdict := list_to_map ((λ h, (h, 0)) <$> AllAUMs c).
Lemma noVerdict_lookup h : noVerdict !! h = (λ _, 0) <$> aums c !! h.
Proof.
  unfold noVerdict, AllAUMs. destruct (aums c !! h) as [a|] eqn:E; cbn.
  - apply elem_of_list_to_map_1.
    + rewrite <- list_fmap_compose. change (NoDup ((λ x, x) <$> (map_to_list (aums c)).*1)). rewrite list_fmap_id. apply NoDup_fst_map_to_list.
    + apply list_elem_of_fmap. exists h. split; [done|]. apply list_elem_of_fmap. exists (h, a). split; [done|]. by apply elem_of_map_to_list.
  - apply not_elem_of_list_to_map_1. rewrite <- list_fmap_compose. change (h ∉ (λ x, x) <$> (map_to_list (aums c)).*1). rewrite list_fmap_id.
    intros ([? a] & -> & Ha%elem_of_map_to_list)%list_elem_of_fmap. cbn in E. congruence.
Qed.
Lemma noVerdict_marked b h : marked b noVerdict h = false.
Proof. unfold marked. rewrite noVerdict_lookup. by destruct (aums c !! h). Qed.

(** The search for the target, as a whole. *)
Record target (minChain : Z) (v1 : Verdict) (C0 : AUM) (v2 : Verdict) : Prop := {
  tg_in : C0 ∈ ord;
  tg_before : anc C0 e;
  tg_checkpoint : MessageKind C0 = AUMCheckpoint;
  tg_old : marked retainStateYoung v1 (Hash C0) = false ∨ Parent C0 = None ∨ C0 = r;
  tg_flags : ∃ K v', adds retainStateActive (hashes (λ y, anc C0 y ∧ anc y e)) v1 v' ∧ adds retainStateCandidate K v' v2 ∧
    (∀ h, K h → hashes (λ y, anc y C0 ∧ y ≠ C0) h ∨ Parent r = Some h) ∧ (∀ y, anc y C0 → y ≠ C0 → K (Hash y)) ∧ (∀ p, C0 ≠ r → Parent r = Some p → K p);
  tg_recent k y : Z.of_nat k < minChain → ancestorAt c k e = Some y → anc C0 y
}.
Lemma ancestorAt_anc k x y : x ∈ ord → ancestorAt c k x = Some y → anc y x.
Proof.
  revert x. induction k as [|k IH]; intros x Hx; cbn; [intros [= <-]; apply anc_refl|]. destruct (Parent x) as [p|] eqn:Ep; [|done]. cbn.
  destruct (aums c !! p) as [b|] eqn:Eb; [|done]. cbn. intros Hy. pose proof (so_hash _ (iv_store _ _ _ _ _ HI) _ _ Eb) as <-.
  assert (b ∈ ord) as Hb by by apply HI. eapply anc_trans; [by apply IH|]. by eapply anc_one.
Qed.
Lemma ancestorAt_between n k x y z : x ∈ ord → (k ≤ n)%nat → ancestorAt c n x = Some z → ancestorAt c k x = Some y → anc z y.
Proof.
  revert n x. induction k as [|k IH]; intros n x Hx Hle Hz; cbn; [intros [= <-]; by eapply ancestorAt_anc|]. destruct n as [|n]; [lia|]. cbn in Hz.
  destruct (Parent x) as [p|] eqn:Ep; [|done]. cbn in *. destruct (aums c !! p) as [b|] eqn:Eb; [|done]. cbn in *.
  pose proof (so_hash _ (iv_store _ _ _ _ _ HI) _ _ Eb) as <-. apply (IH n b); [by apply HI|lia|done].
Qed.

Lemma markActive_spec minChain v1 : outcome (markActiveChain c v1 minChain (Hash e)) (λ '(v2, h), ∃ C0, h = Hash C0 ∧ target minChain v1 C0 v2)
  (marked retainStateYoung v1 (Hash r) = true ∧ Parent r ≠ None).
Proof.
  unfold markActiveChain. rewrite (read _ _ _ _ _ HI e e_in). cbn [mbind res_bind]. apply outcome_bind.
  pose proof (root_in _ _ _ _ _ HI) as Hr. pose proof (anc_root _ _ _ _ _ HI e e_in) as HAr. destruct (iv_root _ _ _ _ _ HI) as (st & Hkr & _).
  eapply outcome_mono; [apply (activeLoop_spec _ _ _ _ _ HI _ e v1 e_in)| |done]. intros [[v' h]|[v' z]].
  - intros [-> HA]. cbn. exists r. split; [done|]. split; try done; [auto| |].
    + exists (λ _, False), v'. split_and!; [|apply adds_refl|done| |done].
      * eapply adds_iff; [exact HA|]. intros h. split; intros (y & <- & Hy); exists y; [|by destruct Hy]. split_and!; try done.
        eapply anc_root; [done|]. by eapply anc_in.
      * intros y Hy Hne. by apply (anc_of_root _ _ _ _ _ HI) in Hy.
    + intros k y _ Hy. eapply anc_root; [done|]. eapply anc_in; [by apply (ancestorAt_anc k e)|done].
  - intros (Hz & Hze & Hat & HA). cbn. apply outcome_bind. apply list_elem_of_lookup in Hz as Hi. destruct Hi as [i Hi].
    pose proof (inv_size _ _ _ _ _ HI) as Hsz. pose proof (lookup_lt_Some _ _ _ Hi) as Hlti.
    eapply outcome_mono; [eapply (targetLoop_spec _ _ _ _ _ HI (scanFuel c) z v' i Hi); unfold scanFuel; lia| |].
    2:{ by rewrite (adds_other _ _ _ _ _ _ HA). }
    intros [v2 C0] (HC & HCz & Hk & HY & HA2). rewrite (adds_other _ _ _ _ _ _ HA) in HY by done. apply outcome_bind.
    apply list_elem_of_lookup in HC as Hj. destruct Hj as [j Hj]. pose proof (lookup_lt_Some _ _ _ Hj) as Hltj.
    eapply outcome_mono; [eapply (candidateLoop_spec _ _ _ _ _ HI (scanFuel c) C0 v2 j Hj); unfold scanFuel; lia| |done].
    intros v3 HA3. cbn. exists C0. split; [done|]. split; try done; [by eapply anc_trans|naive_solver| |].
    + eexists _, v2. split_and!; [|exact HA3|done|intros y Hy Hne; left; by exists y|intros p _ Hp; by right].
      eapply adds_iff; [eapply adds_trans; [exact HA|exact HA2]|]. intros h. split.
      * intros [(y & <- & H1 & H2 & H3)|(y & <- & H1 & H2)]; exists y; split_and!; try done; by eapply anc_trans.
      * intros (y & <- & H1 & H2). destruct (anc_linear _ _ _ _ _ HI y z e H2 Hze e_in) as [HL|HL]; [right; by exists y|].
        destruct (decide (y = z)) as [->|Hne]; [right; exists z; split_and!; [done|done|apply anc_refl]|]. left. by exists y.
    + intros k y Hk' Hy. eapply anc_trans; [exact HCz|]. apply (ancestorAt_between (Z.to_nat minChain) k e y z); [done|lia|done|done].
Qed.

(** ** The verdict *)
Record kept (minTime minChain : Z) (v : Verdict) (z : AUM) : Prop := {
  kt_in : z ∈ ord;
  kt_before : anc z e;
  kt_checkpoint : MessageKind z = AUMCheckpoint;
  kt_self : marked retainAUMMask v (Hash z) = true;
  kt_closed x : x ∈ ord → marked retainAUMMask v (Hash x) = true → x ≠ z → ∃ b, b ∈ ord ∧ Parent x = Some (Hash b) ∧ marked retainAUMMask v (Hash b) = true;
  kt_chain y : anc z y → anc y e → marked retainAUMMask v (Hash y) = true;
  kt_young h : young c minTime h → marked retainAUMMask v h = true;
  kt_recent k y : Z.of_nat k < minChain → ancestorAt c k e = Some y → anc z y;
  kt_dom h : is_Some (aums c !! h) → is_Some (v !! h)
}.
(** When the oldest message is young, it is the genesis and all others are young too. *)
Definition tidy (minTime : Z) : Prop := young c minTime (Hash r) → Parent r = None ∧ ∀ x, x ∈ ord → young c minTime (Hash x).

Definition verdictOf (now : Z) (opts : CompactionOptions) : tres (Verdict * bytes) :=
  v ← wrapErr "marking young AUMs" (markYoungAUMs now c noVerdict (MinAge opts));
  '(v, anc) ← wrapErr "marking active chain" (markActiveChain c v (MinChain opts) (Hash e));
  v ← wrapErr "marking descendant AUMs" (markDescendantAUMs c v);
  wrapErr "marking ancestor intersection" (markAncestorIntersectionAUMs c v anc).

Lemma mask_split v h : marked retainAUMMask v h = true ↔ marked retainStateActive v h = true ∨ marked retainStateYoung v h = true ∨
  marked retainStateLeaf v h = true ∨ marked retainStateAncestor v h = true.
Proof. unfold retainAUMMask. rewrite !marked_lor, !orb_true_iff. tauto. Qed.

Lemma verdict_spec now opts : outcome (verdictOf now opts) (λ '(v, h), ∃ z, h = Hash z ∧ kept (now - MinAge opts) (MinChain opts) v z) (¬ tidy (now - MinAge opts)).
Proof.
  set (minTime := now - MinAge opts). unfold verdictOf. apply outcome_bind, outcome_wrap. unfold markYoungAUMs. fold minTime.
  eapply outcome_mono; [apply (youngLoop_spec _ _ _ _ _ HI minTime)| |done].
  { intros h. rewrite elem_ranges, noVerdict_lookup. destruct (aums c !! h); [by eexists|by intros [? ?]]. }
  intros v1 HY. assert (∀ h, marked retainStateYoung v1 h = true ↔ young c minTime h) as HYoung.
  { intros h. rewrite (adds_same _ _ _ _ _ _ HY), noVerdict_marked, elem_ranges, noVerdict_lookup by done. split; [naive_solver|]. intros Hh. right. split; [|done].
    destruct Hh as [[a ->] _]. by eexists. }
  assert (∀ b h, overlap retainStateYoung b = false → marked b v1 h = false) as HNone by (intros b h Hb; rewrite (adds_other _ _ _ _ _ _ HY Hb); apply noVerdict_marked).
  apply outcome_bind, outcome_wrap. eapply outcome_mono; [apply markActive_spec| |].
  2:{ intros [HYr Hpr] HT. apply HYoung in HYr. by destruct (HT HYr). }
  intros [v2 h2] (C0 & -> & [HC HCe Hk Hold (K & v' & HA & HK & HK1 & HK2 & HK3) Hrec]).
  assert (∀ h, marked retainStateActive v2 h = true ↔ hashes (λ y, anc C0 y ∧ anc y e) h) as HAct.
  { intros h. rewrite (adds_other _ _ _ _ _ _ HK), (adds_same _ _ _ _ _ _ HA), HNone by done. naive_solver. }
  assert (∀ h, marked retainAUMMask v2 h = true ↔ hashes (λ y, anc C0 y ∧ anc y e) h ∨ young c minTime h) as HKept2.
  { intros h. rewrite mask_split, HAct, !(adds_other _ _ _ _ _ _ HK), !(adds_other _ _ _ _ _ _ HA), HYoung, !HNone by done. naive_solver. }
  assert (∀ h, marked retainAUMMask v2 h = true → ∃ x, x ∈ ord ∧ Hash x = h) as HSt2.
  { intros h [(y & <- & _ & Hy)|[Hst _]]%HKept2; [exists y; split; [by eapply anc_in|done]|]. by eapply stored_in. }
  apply outcome_bind, outcome_wrap. unfold markDescendantAUMs.
  set (D := hashes (λ x, x ∈ ord ∧ ∃ a, a ∈ ord ∧ marked retainAUMMask v2 (Hash a) = true ∧ anc a x)).
  eapply outcome_mono; [apply (descendLoop_spec _ _ _ _ _ HI D)| |done].
  { intros h (x & <- & Hx & _). eapply stored_in; eauto. }
  { intros h y (x & <- & Hx & a & Ha & Hka & HAx) Hy Hp. exists y. split_and!; [done|done|]. exists a. split_and!; [done|done|]. by eapply anc_child. }
  { apply Forall_forall. intros h [Hh _]%list_elem_of_filter. destruct (HSt2 h Hh) as (x & Hx & <-). exists x. split_and!; [done|done|]. exists x. split_and!; [done|done|apply anc_refl]. }
  { apply unmarked_fuel. }
  intros v3 (L & HL & HLD). apply outcome_wrap.
  assert (∀ h, marked retainAUMMask v3 h = true ↔ marked retainAUMMask v2 h = true ∨ L h) as HKept3 by (intros h; by rewrite (adds_same _ _ _ _ _ _ HL)).
  eapply outcome_mono; [apply (markAncestor_spec _ _ _ _ _ HI C0 v3)| |].
  - done.
  - rewrite (adds_other _ _ _ _ _ _ HL), HAct by done. exists C0. split_and!; [done|apply anc_refl|done].
  - intros y Hy Hne. rewrite (adds_other _ _ _ _ _ _ HL) by done. apply not_true_iff_false. intros (y' & E & H1 & H2)%HAct. apply Hne.
    assert (y' = y) as -> by (eapply hash_inj; eauto; by eapply anc_in). by apply (anc_antisym _ _ _ _ _ HI).
  - intros h. rewrite (adds_other _ _ _ _ _ _ HL), (adds_same _ _ _ _ _ _ HK), (adds_other _ _ _ _ _ _ HA), HNone by done. naive_solver.
  - intros y Hy Hne. rewrite (adds_other _ _ _ _ _ _ HL), (adds_same _ _ _ _ _ _ HK) by done. auto.
  - intros p Hne Hp. rewrite (adds_other _ _ _ _ _ _ HL), (adds_same _ _ _ _ _ _ HK) by done. auto.
  - intros h. rewrite (adds_other _ _ _ _ _ _ HL), (adds_other _ _ _ _ _ _ HK), (adds_other _ _ _ _ _ _ HA), HNone by done. done.
  - intros h [Hh|(x & <- & Hx & _)%HLD]%HKept3; [auto|by exists x].
  - done.
  - intros [v h] (z & -> & [Hz Hkz HzC Hself Hmore Hcl Hch Hdom]). exists z. split; [done|]. split; try done.
    + by eapply anc_trans.
    + intros y H1 H2. destruct (anc_linear _ _ _ _ _ HI y C0 e H2 HCe e_in) as [HL'|HL']; [by apply Hch|].
      apply Hmore, HKept3. left. apply HKept2. left. by exists y.
    + intros h Hh. apply Hmore, HKept3. left. apply HKept2. by right.
    + intros k y Hlt Hy. eapply anc_trans; [exact HzC|]. by eapply Hrec.
    + intros h Hh. apply elem_of_dom. assert (h ∈ dom noVerdict) as Hd by (apply elem_of_dom; rewrite noVerdict_lookup; destruct Hh as [a ->]; by eexists).
      destruct HY as [_ D1], HA as [_ D2], HK as [_ D3], HL as [_ D4]. by apply Hdom, D4, D3, D2, D1.
  - intros [Hr Hne] HT. apply HKept3 in Hr. assert (∃ a, a ∈ ord ∧ marked retainAUMMask v2 (Hash a) = true ∧ anc a r) as (a & Ha & Hka & HAr).
    { destruct Hr as [Hr|(x & E & Hx & a & Ha & Hka & HAx)%HLD]; [exists r; split_and!; [by eapply root_in|done|apply anc_refl]|].
      exists a. assert (x = r) as -> by (eapply hash_inj; eauto; by eapply root_in). done. }
    apply (anc_of_root _ _ _ _ _ HI) in HAr as ->. apply HKept2 in Hka as [(y & E & H1 & H2)|HYr].
    + assert (y = r) as -> by (eapply hash_inj; eauto; by eapply anc_in). by apply (anc_of_root _ _ _ _ _ HI) in H1.
    + destruct (HT HYr) as [_ Hall]. destruct Hold as [Hold|[Hold|?]]; [| |done]; [specialize (Hall C0 HC); apply HYoung in Hall; congruence|].
      by apply Hne, (no_parent_root _ _ _ _ _ HI).
Qed.
End verdict.

(** ** The storage after deletions *)
Section purge.
Context `{TkaCrypto}.

Lemma purge_children c h q : childHashes (purgeOne c h) q =
  if decide (aums c !! h ≫= Parent = Some q) then filter (λ o, h ≠ o) (childHashes c q) else childHashes c q.
Proof.
  unfold purgeOne, childHashes at 1. cbn [parentIndex]. destruct (aums c !! h ≫= Parent) as [p|]; [|by rewrite decide_False by done].
  destruct (decide (Some p = Some q)) as [[= ->]|Hne].
  - case_decide as E; [by rewrite lookup_delete_eq, E|by rewrite lookup_insert_eq].
  - assert (p ≠ q) by congruence. case_decide; [by rewrite lookup_delete_ne|by rewrite lookup_insert_ne].
Qed.
Lemma purge_one_store c h : storeOk c → storeOk (purgeOne c h).
Proof.
  intros [HH HX HN]. split.
  - intros x a. cbn. rewrite lookup_delete_Some. intros [_ ?]. by apply HH.
  - intros p x. rewrite purge_children. cbn [aums purgeOne].
    assert (x ∈ childHashes c p ∧ h ≠ x ↔ ∃ a, delete h (aums c) !! x = Some a ∧ Parent a = Some p) as HE.
    { rewrite HX. split; [intros [(a & Ha & Hp) Hne]; exists a; by rewrite lookup_delete_ne|]. intros (a & [Hne Ha]%lookup_delete_Some & Hp). split; [by exists a|done]. }
    rewrite <- HE. case_decide as Hd; [rewrite list_elem_of_filter; tauto|]. split; [|by intros [? _]]. intros Hx. split; [done|]. intros ->.
    apply HX in Hx as (a & Ha & Hp). destruct Hd. by rewrite Ha.
  - intros p. rewrite purge_children. case_decide; [by apply NoDup_filter|done].
Qed.
Lemma purge_store l c : storeOk c → storeOk (PurgeAUMs l c).
Proof. revert c. induction l as [|h l IH]; intros c HO; cbn; [done|]. by apply IH, purge_one_store. Qed.
Lemma purge_lookup l c h : aums (PurgeAUMs l c) !! h = (if decide (h ∈ l) then None else aums c !! h) ∧
  commitTimes (PurgeAUMs l c) !! h = (if decide (h ∈ l) then None else commitTimes c !! h) ∧ lastActiveAncestor (PurgeAUMs l c) = lastActiveAncestor c.
Proof.
  revert c. induction l as [|x l IH]; intros c; [cbn; by rewrite !decide_False by apply not_elem_of_nil|].
  change (PurgeAUMs (x :: l) c) with (PurgeAUMs l (purgeOne c x)). destruct (IH (purgeOne c x)) as (-> & -> & ->). cbn.
  destruct (decide (h = x)) as [->|Hne].
  - rewrite !lookup_delete_eq, !(decide_True (P := x ∈ x :: l)) by by left. by destruct (decide (x ∈ l)).
  - rewrite !lookup_delete_ne by done. destruct (decide (h ∈ l)) as [Hl|Hl].
    + by rewrite !(decide_True (P := h ∈ x :: l)) by by right.
    + by rewrite !(decide_False (P := h ∈ x :: l)) by by apply not_elem_of_cons.
Qed.
End purge.

(** ** Filtered lists keep their order *)
Section filter.
Context {A : Type} (P : A → Prop) `{∀ x, Decision (P x)}.

Lemma filter_order (l : list A) i j x y : l !! i = Some x → l !! j = Some y → (i < j)%nat → P x → P y →
  ∃ i' j', filter P l !! i' = Some x ∧ filter P l !! j' = Some y ∧ (i' < j')%nat.
Proof.
  revert i j. induction l as [|z l IH]; intros i j Hi Hj Hlt Hx Hy; [done|]. rewrite filter_cons. destruct i as [|i], j as [|j]; try lia; cbn in Hi, Hj.
  - injection Hi as ->. rewrite decide_True by done. assert (y ∈ filter P l) as [k Hk]%list_elem_of_lookup by (apply list_elem_of_filter; split; [done|by eapply list_elem_of_lookup_2]).
    exists 0%nat, (S k). split_and!; [done|done|lia].
  - destruct (IH i j Hi Hj ltac:(lia) Hx Hy) as (i' & j' & H1 & H2 & H3). case_decide; [exists (S i'), (S j'); split_and!; [done|done|lia]|by exists i', j'].
Qed.
Lemma filter_head (l : list A) y l' : filter P l = y :: l' → ∃ i, l !! i = Some y ∧ P y ∧ ∀ j z, (j < i)%nat → l !! j = Some z → ¬ P z.
Proof.
  induction l as [|z l IH]; [done|]. rewrite filter_cons. case_decide as Hz; [intros [= -> _]; exists 0%nat; split_and!; [done|done|lia]|].
  intros (i & Hi & HPy & Hmin)%IH. exists (S i). split_and!; [done|done|]. intros [|j] u Hj; cbn; [by intros [= <-]|]. apply Hmin. lia.
Qed.
Lemma filter_first (l : list A) x : (∀ i y, l !! i = Some y → P y → y = x ∨ ∃ j z, (j < i)%nat ∧ l !! j = Some z ∧ P z) → x ∈ l → P x → filter P l !! 0%nat = Some x.
Proof.
  intros Hl Hx HPx. destruct (filter P l) as [|y l'] eqn:E; [assert (x ∈ filter P l) as Hin by (by apply list_elem_of_filter); rewrite E in Hin; by apply elem_of_nil in Hin|].
  destruct (filter_head _ _ _ E) as (i & Hi & HPy & Hmin). cbn. f_equal. destruct (Hl i y Hi HPy) as [|(j & z & Hj & Hz & HPz)]; [done|]. by destruct (Hmin j z Hj Hz).
Qed.
End filter.

(** ** The authority after compaction *)
Section compacted.
Context `{TkaCrypto} `{MapOrder} (M : AUM → Prop) (MU : Universe M) (g r : AUM) (c : Mem) (ord : list AUM) (HI : Inv M g r c ord).
Context (e : AUM) (e_in : e ∈ ord) (minTime minChain : Z) (v : Verdict) (z : AUM) (HK : kept c ord e minTime minChain v z).
Local Abbreviation anc := (Anc ord).
Local Abbreviation keep x := (marked retainAUMMask v (Hash x) = true).

Definition purged : Mem := PurgeAUMs (filter (λ h, marked retainAUMMask v h = false) (ranges v)) (SetLastActiveAncestor (Hash z) c).
Definition ord' : list AUM := filter (λ x, keep x) ord.

Lemma purged_lookup h : aums purged !! h = if marked retainAUMMask v h then aums c !! h else None.
Proof.
  unfold purged. destruct (purge_lookup (filter (λ h, marked retainAUMMask v h = false) (ranges v)) (SetLastActiveAncestor (Hash z) c) h) as (-> & _ & _). cbn.
  destruct (marked retainAUMMask v h) eqn:E.
  - rewrite decide_False; [done|]. intros [? _]%list_elem_of_filter. congruence.
  - case_decide as Hd; [done|]. destruct (aums c !! h) eqn:Eh; [|done]. destruct Hd. apply list_elem_of_filter. split; [done|]. apply elem_ranges, (kt_dom _ _ _ _ _ _ _ HK).
    by rewrite Eh.
Qed.
Lemma purged_in x : x ∈ ord' ↔ aums purged !! Hash x = Some x.
Proof. unfold ord'. rewrite list_elem_of_filter, purged_lookup, (iv_elem _ _ _ _ _ HI). destruct (marked _ _ _); naive_solver. Qed.
Lemma purged_sub : aums purged ⊆ aums c.
Proof. apply map_subseteq_spec. intros h a. rewrite purged_lookup. by destruct (marked _ _ _). Qed.
Lemma keep_anc x : x ∈ ord → keep x → anc z x.
Proof.
  intros [i Hi]%list_elem_of_lookup. revert x Hi. induction i as [i IH] using (well_founded_induction lt_wf). intros x Hi Hk.
  destruct (decide (x = z)) as [->|Hne]; [apply anc_refl|]. pose proof (list_elem_of_lookup_2 _ _ _ Hi) as Hx.
  destruct (kt_closed _ _ _ _ _ _ _ HK x Hx Hk Hne) as (b & Hb & Hp & Hkb).
  destruct (decide (x = r)) as [->|Hxr]; [by destruct (root_top _ _ _ _ _ HI _ Hp b Hb)|].
  destruct (parent_before _ _ _ _ _ HI i x Hi Hxr) as (j & b' & Hj & Hb' & Hp' & Hbi'). assert (b' = b) as -> by (eapply hash_inj; eauto; congruence).
  eapply anc_child; [by apply (IH j)|done|done].
Qed.
(** The states of what is kept are the same. *)
Lemma purged_state x s : x ∈ ord' → StateAt c (Hash x) s → StateAt purged (Hash x) s.
Proof.
  intros [Hk Hx]%list_elem_of_filter. apply list_elem_of_lookup in Hx as [i Hi]. revert x s Hi Hk. induction i as [i IH] using (well_founded_induction lt_wf). intros x s Hi Hk HS.
  pose proof (list_elem_of_lookup_2 _ _ _ Hi) as Hx. assert (aums purged !! Hash x = Some x) as Hpx by (apply purged_in, list_elem_of_filter; done).
  pose proof (proj1 (iv_elem _ _ _ _ _ HI x) Hx) as Hcx. pose proof (kt_checkpoint _ _ _ _ _ _ _ HK) as Hkz.
  inversion HS as [? a st Ha Hck Hst|? a ? Ha Hkind Hp HA|? a p t ? Ha Hck Hp Ht HA]; subst; rewrite Hcx in Ha; injection Ha as <-.
  - by eapply at_checkpoint.
  - by eapply at_genesis.
  - destruct (decide (x = z)) as [->|Hne]; [done|]. destruct (kt_closed _ _ _ _ _ _ _ HK x Hx Hk Hne) as (b & Hb & Hpb & Hkb). rewrite Hp in Hpb. injection Hpb as ->.
    destruct (decide (x = r)) as [->|Hxr]; [by destruct (root_top _ _ _ _ _ HI _ Hp b Hb)|].
    destruct (parent_before _ _ _ _ _ HI i x Hi Hxr) as (j & b' & Hj & Hb' & Hp' & Hbi'). assert (b' = b) as -> by (eapply hash_inj; eauto; congruence).
    eapply at_update; [done|done|exact Hp|by apply (IH j)|done].
Qed.
Lemma purged_parent i y : ord !! i = Some y → keep y → y ≠ z → ∃ j b, (j < i)%nat ∧ ord !! j = Some b ∧ b ∈ ord ∧ keep b ∧ Parent y = Some (Hash b).
Proof.
  intros Hi Hk Hne. pose proof (list_elem_of_lookup_2 _ _ _ Hi) as Hy. destruct (kt_closed _ _ _ _ _ _ _ HK y Hy Hk Hne) as (b & Hb & Hp & Hkb).
  destruct (decide (y = r)) as [->|Hxr]; [by destruct (root_top _ _ _ _ _ HI _ Hp b Hb)|].
  destruct (parent_before _ _ _ _ _ HI i y Hi Hxr) as (j & b' & Hj & Hb' & Hp' & Hbi'). assert (b' = b) as -> by (eapply hash_inj; eauto; congruence). by exists j, b.
Qed.
Lemma purged_next k a : NoDup (Hash <$> ord') → ord' !! 0%nat = Some z → ord' !! S k = Some a → ∃ j b s s', (j ≤ k)%nat ∧ ord' !! j = Some b ∧ Parent a = Some (Hash b) ∧
  StateAt purged (Hash b) s ∧ Legit g s ∧ aumVerify a s false = Ok () ∧ applyVerifiedAUM s a = Ok s' ∧ StateAt purged (Hash a) s'.
Proof.
  intros HN H0z Hk. pose proof (list_elem_of_lookup_2 _ _ _ Hk) as Ha'. apply list_elem_of_filter in Ha' as Ha. destruct Ha as [Hka Ha].
  apply list_elem_of_lookup in Ha as [i Hi]. assert (∀ i1 i2 x, ord' !! i1 = Some x → ord' !! i2 = Some x → i1 = i2) as Hinj.
  { intros i1 i2 x Hi1 Hi2. by apply (NoDup_lookup (Hash <$> ord') i1 i2 (Hash x)); [|rewrite list_lookup_fmap, ?Hi1, ?Hi2..]. }
  assert (a ≠ z) as Hne by (intros ->; by specialize (Hinj _ _ _ H0z Hk)).
  destruct (purged_parent i a Hi Hka Hne) as (j & b & Hj & Hb & Hbi & Hkb & Hp).
  destruct (filter_order (λ x, keep x) ord j i b a Hb Hi Hj Hkb Hka) as (j' & i' & Hj' & Hi' & Hlt). assert (i' = S k) as -> by by eapply Hinj.
  destruct i as [|i]; [lia|]. destruct (iv_next _ _ _ _ _ HI i a Hi) as (j2 & b2 & s & s' & _ & Hb2 & Hp2 & HSb & HL & HV & HAp & HSa).
  assert (b2 = b) as -> by (eapply hash_inj; eauto; [by eapply list_elem_of_lookup_2|congruence]).
  exists j', b, s, s'. split_and!; try done; [lia| |by apply purged_state]. apply purged_state; [by apply list_elem_of_filter|done].
Qed.
Lemma purged_inv : Inv M g z purged ord'.
Proof.
  pose proof (kt_in _ _ _ _ _ _ _ HK) as Hz. pose proof (kt_self _ _ _ _ _ _ _ HK) as Hkz. assert (z ∈ ord') as Hz' by (apply list_elem_of_filter; done).
  assert (NoDup (Hash <$> ord')) as HN by (eapply sublist_NoDup; [exact (iv_nodup _ _ _ _ _ HI)|]; apply fmap_sublist, sublist_filter).
  assert (ord' !! 0%nat = Some z) as Hfirst.
  { apply filter_first; [|done|done]. intros i y Hi Hk. destruct (decide (y = z)) as [->|Hne]; [by left|right].
    destruct (purged_parent i y Hi Hk Hne) as (j & b & ? & ? & ? & ? & ?). eauto. }
  split; try done.
  - apply purge_store. destruct (iv_store _ _ _ _ _ HI) as [H1' H2' H3']. split; [exact H1'|exact H2'|exact H3'].
  - intros a [_ Ha]%list_elem_of_filter. by apply HI.
  - apply purged_in.
  - intros k a. by apply purged_next.
  - apply list_elem_of_lookup in Hz as [i Hi]. destruct (inv_state _ _ _ _ _ _ _ HI Hi) as (s & HS & HL). pose proof (kt_checkpoint _ _ _ _ _ _ _ HK) as Hck.
    assert (aums c !! Hash z = Some z) as Hcz by (apply HI; by eapply list_elem_of_lookup_2).
    inversion HS as [? a st Ha Hck' Hst|? a ? Ha Hkind Hp HA|? a p t ? Ha Hck' Hp Ht HA]; subst; rewrite Hcz in Ha; injection Ha as <-; [by exists st| |done].
    destruct Hkind; congruence.
  - intros p Hp. destruct (aums purged !! p) as [b|] eqn:Eb; [|done]. exfalso. pose proof (lookup_weaken _ _ _ _ Eb purged_sub) as Ec.
    pose proof (so_hash _ (iv_store _ _ _ _ _ HI) _ _ Ec) as <-. rewrite purged_lookup in Eb. destruct (marked retainAUMMask v (Hash b)) eqn:Ek; [|done].
    assert (b ∈ ord) as Hb by by apply HI. pose proof (keep_anc b Hb Ek) as HA. apply list_elem_of_lookup in Hz as [i Hi].
    destruct (decide (z = r)) as [->|Hzr]; [by destruct (root_top _ _ _ _ _ HI _ Hp b Hb)|].
    destruct (parent_before _ _ _ _ _ HI i z Hi Hzr) as (j & b' & Hj & Hb' & Hp' & Hbi'). assert (b' = b) as -> by (eapply hash_inj; eauto; congruence).
    pose proof (anc_idx _ _ _ _ _ HI _ _ _ _ HA Hi Hb'). lia.
  - unfold purged. by destruct (purge_lookup (filter (λ h, marked retainAUMMask v h = false) (ranges v)) (SetLastActiveAncestor (Hash z) c) (Hash z)) as (_ & _ & ->).
  - intros h. rewrite purged_lookup. destruct (marked retainAUMMask v h) eqn:E; [|by intros [? ?]]. intros Hh%(iv_times _ _ _ _ _ HI). unfold purged.
    destruct (purge_lookup (filter (λ h, marked retainAUMMask v h = false) (ranges v)) (SetLastActiveAncestor (Hash z) c) h) as (_ & -> & _).
    rewrite decide_False; [done|]. intros [? _]%list_elem_of_filter. congruence.
Qed.

Lemma picks_anc x s y t : x ∈ ord → StateAt c (Hash x) s → picks c (x, s) (y, t) → anc x y.
Proof.
  intros Hx HS HP. remember (x, s) as p eqn:Ep. remember (y, t) as q eqn:Eq. revert x s Ep Hx HS. induction HP as [w|w [a u] w' Hw _ IH]; intros x s -> Hx HS.
  - injection Eq as -> ->. apply anc_refl.
  - destruct (pick_child M g r c ord x s a u HI Hx HS Hw) as (Ha & Hp & HSa). eapply anc_trans; [by eapply anc_one|]. by eapply IH.
Qed.
(** On the kept part of the active chain the picks are the same. *)
Lemma purged_pick x s a s' : x ∈ ord' → a ∈ ord' → StateAt c (Hash x) s → pick c (x, s) (a, s') → pick purged (x, s) (a, s').
Proof.
  intros Hx' Ha' HS Hp. apply list_elem_of_filter in Hx' as [_ Hx]. pose proof (pick_child M g r c ord x s a s' HI Hx HS Hp) as (Ha & Hpar & _).
  apply list_elem_of_lookup in Hx as [i Hi]. unfold pick in *. cbn in *. apply advance_some in Hp as [Hp HA]. apply advance_some. split; [|done].
  eapply pick_sub; [|by eapply (child_weights M g r c ord)|exact Hp| |].
  - rewrite child_hashes by apply HI. apply (so_nodup _ (iv_store _ _ _ _ _ HI)).
  - intros b [Hb Hpb]%(child_in _ _ _ _ _ purged_inv). apply list_elem_of_filter in Hb as [_ Hb]. by apply (child_in _ _ _ _ _ HI).
  - by apply (child_in _ _ _ _ _ purged_inv).
Qed.
Lemma purged_picks t : picks c (r, rootState r) (e, t) → picks purged (z, rootState z) (e, t).
Proof.
  intros HP. destruct (inv_root_at _ _ _ _ _ HI) as [HSr Hr]. pose proof (root_in _ _ _ _ _ HI) as Hri.
  destruct (inv_root_at _ _ _ _ _ purged_inv) as [HSz _]. apply (state_mono _ _ _ _ purged_sub) in HSz.
  assert (∀ p, picks c (r, rootState r) p → picks c p (e, t) → anc z p.1 → picks purged (z, rootState z) p) as HG.
  { refine (rtc_ind_r _ _ _ _); [|intros [x s] [a s'] HP1 Hp IH]; cbn.
    - intros _ HA. apply (anc_of_root _ _ _ _ _ HI) in HA as Hz. rewrite <- Hz. apply rtc_refl.
    - intros HP2 HA. destruct (picks_state M g r c ord r _ x s HI Hri HSr HP1) as [Hx HSx].
      destruct (pick_child M g r c ord x s a s' HI Hx HSx Hp) as (Ha & Hpar & HSa). destruct (decide (z = a)) as [->|Hne].
      + rewrite (state_det _ _ _ _ HSz HSa). apply rtc_refl.
      + destruct (anc_inv _ _ _ HA Hne) as (b & Hb & Hpb & HAb). assert (b = x) as -> by (eapply hash_inj; eauto; congruence).
        pose proof (picks_anc a s' e t Ha HSa HP2) as HAe. pose proof (anc_trans _ _ _ _ (anc_one _ _ _ Hx Hpar) HAe) as HAx.
        eapply rtc_r; [apply IH; [by eapply rtc_l|done]|]. apply purged_pick; [..|done|done]; apply list_elem_of_filter; (split; [|done]); by apply HK. }
  apply HG; [done|apply rtc_refl|]. apply HK.
Qed.
Lemma purged_leaf : ChildAUMs c (Hash e) = [] → ChildAUMs purged (Hash e) = [].
Proof.
  intros HE. destruct (ChildAUMs purged (Hash e)) as [|b l] eqn:E; [done|]. assert (b ∈ ChildAUMs purged (Hash e)) as Hb by (rewrite E; by left).
  apply (child_in _ _ _ _ _ purged_inv) in Hb as [Hb Hp]. apply list_elem_of_filter in Hb as [_ Hb]. assert (b ∈ ChildAUMs c (Hash e)) as Hc by by apply (child_in _ _ _ _ _ HI).
  rewrite HE in Hc. by apply elem_of_nil in Hc.
Qed.
End compacted.

Section compaction.
Context `{TkaCrypto} `{MapOrder} (M : AUM → Prop) (MU : Universe M) (g r : AUM).

Lemma chonkCompact_unfold now c e opts : chonkCompact now c (Hash e) opts =
  if MinChain opts =? 0 then (c, Err (tkaErrorf "opts.MinChain must be set"))
  else if MinAge opts =? 0 then (c, Err (tkaErrorf "opts.MinAge must be set"))
  else match verdictOf c e now opts with
  | Ok (v, anc) => (PurgeAUMs (filter (λ h, marked retainAUMMask v h = false) (ranges v)) (SetLastActiveAncestor anc c), Ok anc)
  | Err er => (c, Err er)
  | Panic => (c, Panic)
  end.
Proof. reflexivity. Qed.

(** What a compaction does to an authority. *)
Record compaction (now : Z) (opts : CompactionOptions) (c : Mem) (a : Authority) (c' : Mem) (a' : Authority) (z : AUM) : Prop := {
  cp_authority : a' = mkAuthority (auHead a) z (auState a);
  cp_sub : aums c' ⊆ aums c;
  cp_checkpoint : MessageKind z = AUMCheckpoint;
  cp_young h : young c (now - MinAge opts) h → is_Some (aums c' !! h);
  cp_recent k y : Z.of_nat k < MinChain opts → ancestorAt c k (auHead a) = Some y → aums c' !! Hash y = Some y;
  cp_oldest x p : aums c' !! Hash x = Some x → x ≠ z → Parent x = Some p → is_Some (aums c' !! p)
}.
Lemma compact_step pk now c a ord opts c' a' res : authAt M g r pk c a → Inv M g r c ord → authorityCompact now c a opts = (c', a', res) →
  MinChain opts ≠ 0 → MinAge opts ≠ 0 →
  outcome res (λ _, ∃ z, compaction now opts c a c' a' z ∧ authAt M g z pk c' a') (c' = c ∧ a' = a ∧ ¬ tidy r c ord (now - MinAge opts)).
Proof.
  intros [Hpk _ Hh HS HC] HI HR Hn1 Hn2. unfold authorityCompact in HR. rewrite chonkCompact_unfold, (proj2 (Z.eqb_neq _ _) Hn1), (proj2 (Z.eqb_neq _ _) Hn2) in HR.
  assert (auHead a ∈ ord) as He by by apply HI. pose proof (verdict_spec M g r c ord HI (auHead a) He now opts) as HV.
  destruct (verdictOf c (auHead a) now opts) as [[v h]| |]; [|cbn in HR, HV; by injection HR as <- <- <-|done]. destruct HV as (z & -> & HK).
  pose proof (purged_inv M g r c ord HI _ _ _ v z HK) as HI'. change (PurgeAUMs _ _) with (purged c v z) in HR. destruct (inv_root_at _ _ _ _ _ HI') as [HSz Hz].
  cbn [mbind res_bind] in HR. unfold memAUM in HR. rewrite Hz in HR. injection HR as <- <- <-. cbn. exists z.
  assert (∀ x, x ∈ ord' ord v ↔ aums (purged c v z) !! Hash x = Some x) as Hin by apply HI'.
  assert (auHead a ∈ ord' ord v) as He'.
  { apply list_elem_of_filter. split; [|done]. apply (kt_chain _ _ _ _ _ _ _ HK); [apply HK|apply anc_refl]. }
  split; split; cbn [auHead auState oldestAncestor]; try done.
  - by eapply purged_sub.
  - apply HK.
  - intros h Hy. pose proof (kt_young _ _ _ _ _ _ _ HK h Hy) as Hk. destruct Hy as [Hst _]. by rewrite (purged_lookup c ord _ _ _ v z HK), Hk.
  - intros k y Hlt Hy. apply Hin, list_elem_of_filter. pose proof (ancestorAt_anc M g r c ord HI k _ y He Hy) as HA. split; [|by eapply anc_in].
    apply (kt_chain _ _ _ _ _ _ _ HK); [by eapply (kt_recent _ _ _ _ _ _ _ HK)|done].
  - intros x p Hx Hne Hp. destruct (inv_parent M g z _ _ x HI' Hx Hne) as (b & Hpb & Hb). rewrite Hp in Hpb. injection Hpb as ->. by eexists.
  - etransitivity; [apply map_subseteq_size; by eapply purged_sub|done].
  - by eexists.
  - by apply Hin.
  - by apply (purged_state M g r c ord HI _ _ _ v z HK).
  - intros Hlim. split; [done|]. destruct (HC Hlim) as [_ [w Hw]]. destruct (walk_picks _ _ _ _ _ _ _ _ Hw) as [HP _]. pose proof (walk_end _ _ _ _ _ _ _ _ Hw) as HE.
    destruct (walk_total M g z _ _ 0 z (rootState z) [] maxScanIterations HI' (iv_first _ _ _ _ _ HI') HSz) as [rw Hrw].
    { pose proof (inv_size _ _ _ _ _ HI'). pose proof (map_subseteq_size _ _ (purged_sub c ord _ _ _ v z HK)). lia. }
    destruct (picks_walk _ _ _ _ _ (auHead a) (auState a) _ (purged_picks M g r c ord HI _ _ _ v z HK _ HP) (purged_leaf M g r c ord HI _ _ _ v z HK HE) Hrw) as [v' ->]. by exists v'.
Qed.
End compaction.
