(* ===== verification/TkaOfferThms.v ===== *)
(** * What two authorities tell each other

    The state at any stored message can be computed; an offer names stored messages; and
    what is sent for an offer is the active chain from a common message on. *)

From stdpp Require Import base gmap sets list strings relations.
From S2P Require Import Prelude GoStd Bytes Tka TkaChain TkaThms TkaChainThms TkaPickThms TkaCompact TkaCompactThms TkaPurgeThms.

Section offer.
Context `{TkaCrypto} (M : AUM → Prop) (g r : AUM) (c : Mem) (ord : list AUM) (HI : Inv M g r c ord).
Local Abbreviation anc := (Anc ord).

(** ** The state at a message *)
Lemma checkpoint_state x : x ∈ ord → MessageKind x = AUMCheckpoint → is_Some (aState x).
Proof.
  intros [[|i] Hi]%list_elem_of_lookup Hk.
  - rewrite (iv_first _ _ _ _ _ HI) in Hi. injection Hi as <-. destruct (iv_root _ _ _ _ _ HI) as (st & _ & -> & _). by eexists.
  - destruct (iv_next _ _ _ _ _ HI i x Hi) as (_ & _ & s & _ & _ & _ & _ & _ & _ & HV & _ & _).
    by apply (static_parts x (vf_static _ _ (aumVerify_verified _ _ _ HV))).
Qed.
Lemma findStart_spec fuel x path i : ord !! i = Some x → (i < fuel)%nat → ∃ y s path', findStart fuel c x path = Ok (s, path') ∧
  y ∈ ord ∧ anc y x ∧ StateAt c (Hash y) s ∧ ∀ h, h ∈ path' ↔ h ∈ path ∨ hashes (λ w, anc y w ∧ anc w x) h.
Proof.
  revert x path i. induction fuel as [|fuel IH]; intros x path i Hi Hf; [lia|]. cbn [findStart]. pose proof (list_elem_of_lookup_2 _ _ _ Hi) as Hx. case_decide as Hk.
  - destruct (checkpoint_state x Hx Hk) as [st Est]. rewrite Est. exists x. eexists _, _. split; [done|]. split_and!; [done|apply anc_refl|eapply at_checkpoint; [by apply HI|done|done]|].
    intros h. rewrite elem_of_union, elem_of_singleton. split; [intros [->|?]; [right; exists x; split_and!; [done|apply anc_refl..]|by left]|].
    intros [?|(w & <- & H1 & H2)]; [by right|left]. by rewrite (anc_antisym _ _ _ _ _ HI w x).
  - assert (x ≠ r) as Hne by (intros ->; destruct (iv_root _ _ _ _ _ HI) as (st & ? & _); done).
    destruct (parent_before _ _ _ _ _ HI i x Hi Hne) as (j & b & Hj & Hb & Hp & Hbi). rewrite Hp, (read _ _ _ _ _ HI b Hbi). cbn [wrapErr mbind res_bind].
    destruct (IH b ({[Hash x]} ∪ path) j Hb ltac:(lia)) as (y & s & path' & -> & Hy & HA & HS & HP). exists y, s, path'. split_and!; [done|done|by eapply anc_child|done|].
    intros h. rewrite HP, elem_of_union, elem_of_singleton. split.
    + intros [[->|?]|(w & <- & H1 & H2)]; [right; exists x; split_and!; [done|by eapply anc_child|apply anc_refl]|by left|].
      right. exists w. split_and!; [done|done|by eapply anc_child].
    + intros [?|(w & <- & H1 & H2%(anc_cases _ _ _ _ _ HI w b))]; [by left; right| |done..]. destruct H2 as [->|H2]; [by left; left|right; by exists w].
Qed.
Lemma advanceOnPath_spec path s l b s' : b ∈ l → Hash b ∈ path → (∀ a, a ∈ l → Hash a ∈ path → a = b) → applyVerifiedAUM s b = Ok s' →
  advanceOnPath path s l = Ok (Some (b, s')).
Proof.
  intros Hb Hin Hu HA. induction l as [|a l IH]; [by apply elem_of_nil in Hb|]. cbn. case_decide as Hd.
  - rewrite (Hu a) by (done || by left). rewrite HA. done.
  - apply elem_of_cons in Hb as [->|Hb]; [done|]. apply IH; [done|]. intros d Hd' Hdp. apply Hu; [by right|done].
Qed.
Lemma follow_path n y x w s vis path i : y ∈ ord → x ∈ ord → (∀ h, h ∈ path ↔ hashes (λ w, anc y w ∧ anc w x) h) → ord !! i = Some w → (length ord ≤ i + n)%nat →
  anc y w → anc w x → StateAt c (Hash w) s →
  ∃ t v, ffLoop n c (advanceOnPath path) (λ curs _, bool_decide (Hash curs = Hash x)) w s vis = Ok (x, t, v) ∧ StateAt c (Hash x) t.
Proof.
  intros Hy Hx HP. revert w s vis i. induction n as [|n IH]; intros w s vis i Hi Hn H1 H2 HS; [apply lookup_lt_Some in Hi; lia|]. cbn [ffLoop].
  pose proof (list_elem_of_lookup_2 _ _ _ Hi) as Hw. destruct (decide (Hash w = Hash x)) as [E|E].
  { rewrite bool_decide_true by done. assert (w = x) as -> by by eapply hash_inj. by eexists _, _. }
  rewrite bool_decide_false by done. destruct (anc_step _ _ _ H2 Hx) as [->|(b & Hb & Hpb & Hbx)]; [done|].
  assert (b ∈ ChildAUMs c (Hash w)) as Hch by (by apply (child_in _ _ _ _ _ HI)).
  destruct (inv_child _ _ _ _ _ _ _ _ HI Hi Hch) as (j & t & s' & Hij & Hj & HSw & _ & HA). rewrite (state_det _ _ _ _ HSw HS) in HA.
  rewrite (advanceOnPath_spec path s _ b s' Hch).
  - cbn. apply (IH b s' _ j Hj); [lia|eapply anc_trans; [exact H1|by eapply anc_one]|done|]. eapply state_child; [apply HI|exact HS|done|done].
  - apply HP. exists b. split_and!; [done|eapply anc_trans; [exact H1|by eapply anc_one]|done].
  - intros a [Ha Hpa]%(child_in _ _ _ _ _ HI) (a' & E' & H3 & H4)%HP. assert (a' = a) as -> by (eapply hash_inj; eauto; by eapply anc_in).
    by eapply (anc_next _ _ _ _ _ HI w a b x).
  - done.
Qed.
Lemma computeStateAt_total n x : x ∈ ord → (length ord ≤ n)%nat → ∃ s, computeStateAt c n (Hash x) = Ok s ∧ StateAt c (Hash x) s.
Proof.
  intros Hx Hn. apply list_elem_of_lookup in Hx as Hi. destruct Hi as [i Hi]. pose proof (lookup_lt_Some _ _ _ Hi).
  destruct (findStart_spec (S n) x ∅ i Hi ltac:(lia)) as (y & s & path & HF & Hy & HA & HS & HP).
  unfold computeStateAt. rewrite (read _ _ _ _ _ HI x Hx). cbn [mbind res_bind]. rewrite HF. cbn [mbind res_bind]. unfold fastForwardWithAdvancer.
  rewrite (state_last _ _ _ (iv_store _ _ _ _ _ HI) HS), (read _ _ _ _ _ HI y Hy). cbn [wrapErr mbind res_bind].
  apply list_elem_of_lookup in Hy as Hj. destruct Hj as [j Hj]. destruct (follow_path n y x y s [] path j) as (t & v & -> & HSt); try done; [|lia|apply anc_refl|].
  { intros h. rewrite HP. set_solver. }
  cbn [mbind res_bind]. rewrite (state_last _ _ _ (iv_store _ _ _ _ _ HI) HSt), decide_True by done. eauto.
Qed.
Lemma computeStateAt_missing n h : aums c !! h = None → computeStateAt c n h = Err ErrNotExist.
Proof. intros E. unfold computeStateAt, memAUM. by rewrite E. Qed.

Lemma chained_anc x l u : x ∈ ord → (∀ w, w ∈ l → w ∈ ord) → chained x l → u ∈ l → anc x u ∧ u ≠ x.
Proof.
  revert x. induction l as [|w l IH]; intros x Hx Hl; [by intros _ ?%elem_of_nil|]. cbn. intros [Hp Hc] Hu. assert (w ∈ ord) as Hw by (apply Hl; by left).
  assert (anc w u) as HA by (apply elem_of_cons in Hu as [->|Hu]; [apply anc_refl|]; apply (IH w); [done|by intros; apply Hl; right|done|done]).
  split; [eapply anc_trans; [by eapply anc_one|done]|]. intros ->. apply list_elem_of_lookup in Hw as Hj. destruct Hj as [j Hj].
  destruct (decide (w = r)) as [->|Hr]; [by destruct (root_top _ _ _ _ _ HI _ Hp x Hx)|]. destruct (parent_before _ _ _ _ _ HI j w Hj Hr) as (k & b & Hk & Hb & Hpb & Hbi).
  assert (b = x) as -> by (eapply hash_inj; eauto; congruence). pose proof (anc_idx _ _ _ _ _ HI _ _ _ _ HA Hj Hb). lia.
Qed.

(** ** Offers *)
Hypothesis hash_len : ∀ u, length (Hash u) = 32%nat.
(** The hash before the oldest message is whole. *)
Hypothesis root_len : ∀ p, PrevAUMHash r = Some p → length p = 32%nat.

Lemma array_whole p : length p = 32%nat → hashArray p = p.
Proof. intros Hp. unfold hashArray. by rewrite take_app_le, take_ge by lia. Qed.
(** The copy of the parent's hash over the cursor. *)
Lemma copy_parent x b : x ∈ ord → b ∈ ord → Parent x = Some (Hash b) → x ≠ r →
  let p := default [] (PrevAUMHash x) in take 32 p ++ drop (length (take 32 p)) (Hash x) = Hash b.
Proof.
  intros [i Hi]%list_elem_of_lookup Hb Hp Hne. destruct i as [|i]; [rewrite (iv_first _ _ _ _ _ HI) in Hi; congruence|].
  destruct (iv_next _ _ _ _ _ HI i x Hi) as (j & b' & s & s' & _ & Hb' & Hp' & HS & _ & _ & HA & _).
  assert (b' = b) as -> by (eapply hash_inj; eauto; [by eapply list_elem_of_lookup_2|congruence]).
  assert (default [] (PrevAUMHash x) = Hash b) as ->.
  { unfold applyVerifiedAUM in HA. destruct (parentMatches s x) eqn:E; [|done]. unfold parentMatches in E. rewrite (state_last _ _ _ (iv_store _ _ _ _ _ HI) HS) in E.
    by apply bool_decide_eq_true in E. }
  cbn. rewrite take_ge, drop_ge, app_nil_r by (rewrite ?hash_len; lia). done.
Qed.
Lemma offerLoop_spec fuel i skip x acc : x ∈ ord → ∃ l, offerLoop fuel i skip c (Hash r) (Hash x) acc = Ok l ∧ ∀ h, h ∈ l → h ∈ acc ∨ hashes (λ y, y ∈ ord) h.
Proof.
  revert i skip x acc. induction fuel as [|fuel IH]; intros i skip x acc Hx; cbn [offerLoop]; [exists acc; auto|].
  set (hit := (0 <? i) && (i mod skip =? 0)). set (acc' := if hit then acc ++ [Hash x] else acc).
  assert (∀ h, h ∈ acc' → h ∈ acc ∨ hashes (λ y, y ∈ ord) h) as Hacc.
  { intros h. unfold acc'. destruct hit; [|by left]. rewrite elem_of_app, list_elem_of_singleton. intros [?| ->]; [by left|right; by exists x]. }
  rewrite (read _ _ _ _ _ HI x Hx). case_decide as E; [by exists acc'|].
  assert (x ≠ r) as Hne by (intros ->; done). destruct (parent_in _ _ _ _ _ HI x Hx Hne) as (b & Hp & Hb). cbn zeta. rewrite (copy_parent x b Hx Hb Hp Hne).
  destruct (IH (i + 1) (if hit then u64 (Z.shiftl skip 2) else skip) b acc' Hb) as (l & -> & Hl). exists l. split; [done|]. intros h Hh. destruct (Hl h Hh); auto.
Qed.
Lemma headLoop_spec fuel rh x : x ∈ ord → ∃ b, headLoop fuel c rh (Hash x) = Ok b ∧ (b = true → hashes (λ y, y ∈ ord ∧ anc y x) rh).
Proof.
  revert x. induction fuel as [|fuel IH]; intros x Hx; cbn [headLoop]; [by exists false|]. rewrite (read _ _ _ _ _ HI x Hx).
  case_decide as E; [exists true; split; [done|]; intros _; exists x; split_and!; [done|done|apply anc_refl]|]. cbn zeta.
  destruct (decide (x = r)) as [->|Hne].
  - destruct (PrevAUMHash r) as [p|] eqn:Ep; cbn [default from_option id].
    + pose proof (root_len p eq_refl) as Hlen. rewrite take_ge, drop_ge, app_nil_r by (rewrite ?hash_len; lia).
      assert (Parent r = Some p) as Hp.
      { unfold Parent. rewrite Ep. cbn. unfold zlen. rewrite Hlen. cbn. by rewrite array_whole. }
      destruct fuel as [|fuel]; cbn [headLoop]; [by exists false|]. unfold memAUM. rewrite (iv_top _ _ _ _ _ HI _ Hp). cbn. by exists false.
    + cbn. by apply IH.
  - destruct (parent_in _ _ _ _ _ HI x Hx Hne) as (b & Hp & Hb). rewrite (copy_parent x b Hx Hb Hp Hne). destruct (IH b Hb) as (f & -> & Hf). exists f. split; [done|].
    intros (y & <- & Hy & HA)%Hf. exists y. split_and!; [done|done|]. by eapply anc_child.
Qed.

(** ** Messages that are missing *)
Context (e : AUM) (t : State).
Hypothesis e_in : e ∈ ord.
Hypothesis to_head : picks c (r, rootState r) (e, t).
Hypothesis at_head : ChildAUMs c (Hash e) = [].

Lemma walkUntil_spec n dn x s vis i : ord !! i = Some x → (length ord ≤ i + n)%nat → StateAt c (Hash x) s →
  ∃ y u v, ffLoop n c advanceByPrimary dn x s vis = Ok (y, u, v) ∧ picks c (x, s) (y, u) ∧ (dn y u = true ∨ ChildAUMs c (Hash y) = []).
Proof.
  revert x s vis i. induction n as [|n IH]; intros x s vis i Hi Hn HS; [apply lookup_lt_Some in Hi; lia|]. cbn [ffLoop].
  destruct (dn x s) eqn:Ed; [eexists _, _, _; split_and!; [done|apply rtc_refl|by left]|].
  destruct (advance_total _ _ _ _ _ _ _ _ HI Hi HS) as [[HE ->]|(j & a & s' & Hj & Ha & _ & Hadv & HS')]; [eexists _, _, _; split_and!; [done|apply rtc_refl|by right]|].
  rewrite Hadv. cbn. destruct (IH a s' (vis ++ [x]) j Ha ltac:(lia) HS') as (y & u & v & -> & HP & Hd). exists y, u, v. split_and!; [done| |done].
  eapply rtc_l; [|exact HP]. done.
Qed.
(** A message of the active chain, with its state. *)
Lemma picks_to_head x s : x ∈ ord → StateAt c (Hash x) s → anc x e → picks c (r, rootState r) (x, s) ∧ picks c (x, s) (e, t).
Proof.
  intros Hx HS HA. destruct (inv_root_at _ _ _ _ _ HI) as [HSr _]. pose proof (root_in _ _ _ _ _ HI) as Hr.
  assert (∀ p, picks c (r, rootState r) p → picks c p (e, t) → anc x p.1 → picks c (r, rootState r) (x, s) ∧ picks c (x, s) (e, t)) as HG.
  { refine (rtc_ind_r _ _ _ _); [|intros [y u] [a u'] HP1 Hp IH]; cbn.
    - intros HP2 HAr. apply (anc_of_root _ _ _ _ _ HI) in HAr as ->. rewrite (state_det _ _ _ _ HS HSr). split; [apply rtc_refl|done].
    - intros HP2 HAa. destruct (picks_state M g r c ord r _ y u HI Hr HSr HP1) as [Hy HSy]. destruct (pick_child M g r c ord y u a u' HI Hy HSy Hp) as (Ha & Hpar & HSa).
      destruct (decide (x = a)) as [->|Hne].
      + rewrite (state_det _ _ _ _ HS HSa). split; [by eapply rtc_r|done].
      + destruct (anc_inv _ _ _ HAa Hne) as (b & Hb & Hpb & HAb). assert (b = y) as -> by (eapply hash_inj; eauto; congruence).
        apply IH; [by eapply rtc_l|done]. }
  by apply (HG (e, t) to_head); [apply rtc_refl|].
Qed.

Hypothesis small : (length ord ≤ maxScanIterations)%nat.
Lemma sync_limit : maxSyncIter = maxScanIterations.
Proof. done. Qed.
#[local] Opaque maxSyncIter maxScanIterations maxSyncHeadIntersectionIter.

Lemma tailLoop_spec l : Hash r ∈ l → ∃ y, tailLoop c (Hash e) l = Ok (tailIntersection (Hash y)) ∧ Hash y ∈ l ∧ y ∈ ord ∧ anc y e.
Proof.
  induction l as [|h l IH]; intros Hr; [by apply elem_of_nil in Hr|]. cbn [tailLoop]. destruct (aums c !! h) as [x|] eqn:Ex.
  - pose proof (so_hash _ (iv_store _ _ _ _ _ HI) _ _ Ex) as <-. assert (x ∈ ord) as Hx by by apply HI.
    destruct (computeStateAt_total maxSyncIter x Hx) as (s & -> & HS); [by rewrite sync_limit|]. unfold fastForward, fastForwardWithAdvancer.
    rewrite (state_last _ _ _ (iv_store _ _ _ _ _ HI) HS), (read _ _ _ _ _ HI x Hx). cbn [wrapErr mbind res_bind]. apply list_elem_of_lookup in Hx as Hi. destruct Hi as [i Hi].
    destruct (walkUntil_spec maxSyncIter (λ curs _, bool_decide (Hash curs = Hash e)) x s [] i Hi) as (y & u & v & -> & HP & Hd); [rewrite sync_limit; lia|done|].
    cbn [mbind res_bind]. case_decide as E.
    + exists x. split_and!; [done|by left|done|]. destruct (picks_state M g r c ord x s y u HI Hx HS HP) as [Hy _].
      assert (y = e) as -> by by eapply hash_inj. eapply (picks_anc M g r c ord HI); eauto.
    + apply elem_of_cons in Hr as [Hr|Hr]; [|destruct (IH Hr) as (z & -> & ? & ? & ?); exists z; split_and!; [done|by right|done|done]].
      exfalso. assert (x = r) as -> by (symmetry; eapply hash_inj; eauto; by eapply root_in). destruct (inv_root_at _ _ _ _ _ HI) as [HSr _].
      rewrite (state_det _ _ _ _ HS HSr) in HP. destruct Hd as [Hd%bool_decide_eq_true|Hd]; [done|].
      pose proof (picks_unique _ _ _ _ HP to_head Hd at_head) as [= -> ->]. done.
  - rewrite computeStateAt_missing by done. apply elem_of_cons in Hr as [Hr|Hr].
    + pose proof (root_in _ _ _ _ _ HI) as Hri. apply (iv_elem _ _ _ _ _ HI) in Hri. congruence.
    + destruct (IH Hr) as (z & -> & ? & ? & ?). exists z. split_and!; [done|by right|done|done].
Qed.

(** What is sent: the active chain behind a message that the other side named. *)
Record sends (ro : SyncOffer) (l : list AUM) (y : AUM) : Prop := {
  sn_named : Hash y = soHead ro ∨ Hash y ∈ soAncestors ro;
  sn_in : y ∈ ord;
  sn_active : anc y e;
  sn_chained : chained y l;
  sn_elem u : u ∈ l ↔ anc y u ∧ u ≠ y ∧ anc u e
}.
Lemma sends_walk ro y : Hash y = soHead ro ∨ Hash y ∈ soAncestors ro → y ∈ ord → anc y e →
  ∃ l, (s ← computeStateAt c maxSyncIter (Hash y); '(_, _, visited) ← fastForward c maxSyncIter s noDone; Ok (filter (λ a, Hash a ≠ Hash y) visited)) = Ok l ∧ sends ro l y.
Proof.
  intros Hn Hy HA. destruct (computeStateAt_total maxSyncIter y Hy) as (s & -> & HS); [by rewrite sync_limit|]. cbn [mbind res_bind]. unfold fastForward, fastForwardWithAdvancer.
  rewrite (state_last _ _ _ (iv_store _ _ _ _ _ HI) HS), (read _ _ _ _ _ HI y Hy). cbn [wrapErr mbind res_bind]. apply list_elem_of_lookup in Hy as Hi. destruct Hi as [i Hi].
  destruct (walk_total M g r c ord i y s [] maxSyncIter HI Hi HS) as [[[e' t'] v] HW]; [rewrite sync_limit; lia|]. unfold walk in HW. rewrite HW. cbn [mbind res_bind].
  destruct (walk_chained _ _ _ _ _ _ _ _ (iv_store _ _ _ _ _ HI) HW) as (l & Ev & Hc & _). destruct (walk_picks _ _ _ _ _ _ _ _ HW) as (HP & l' & El' & Hl').
  pose proof (walk_end _ _ _ _ _ _ _ _ HW) as HE. destruct (picks_to_head y s Hy HS HA) as [HRy Hye]. pose proof (picks_unique _ _ _ _ HP Hye HE at_head) as [= -> ->].
  rewrite Ev in El'. cbn in El', Ev. subst v l'.
  assert (∀ w, w ∈ y :: l → w ∈ ord ∧ anc w e) as Hin.
  { intros w (u & H1 & H2)%Hl'. destruct (picks_state M g r c ord y s w u HI Hy HS H1) as [Hw HSw]. split; [done|]. by eapply (picks_anc M g r c ord HI). }
  assert (∀ w, w ∈ l → anc y w ∧ w ≠ y) as Hbehind by (intros w Hw; apply (chained_anc y l w Hy); [intros; apply Hin; by right|done|done]).
  rewrite filter_cons, decide_False by (intros Hd; by apply Hd). exists l. split.
  - f_equal. clear -Hbehind Hin Hy HI. assert (∀ w, w ∈ l → Hash w ≠ Hash y) as Hne.
    { intros w Hw E. destruct (Hbehind w Hw) as [_ Hwy]. apply Hwy. eapply hash_inj; eauto. apply Hin. by right. }
    clear -Hne. induction l as [|w l IH]; [done|]. rewrite filter_cons, decide_True by (apply Hne; by left). f_equal. apply IH. intros; apply Hne. by right.
  - split; try done. intros u. split; [intros Hu; destruct (Hbehind u Hu); split_and!; try done; apply Hin; by right|]. intros (H1 & H2 & H3).
    pose proof (anc_in _ _ _ H3 e_in) as Hu. apply list_elem_of_lookup in Hu as Hj. destruct Hj as [j Hj]. destruct (inv_state _ _ _ _ _ _ _ HI Hj) as (su & HSu & _).
    destruct (picks_to_head u su Hu HSu H3) as [HRu Hue]. assert (u ∈ y :: l) as [->|?]%elem_of_cons; [|done|done]. apply Hl'. exists su. split; [|done].
    destruct (picks_linear _ _ _ _ HRy HRu) as [HL|HL]; [done|]. destruct H2. apply (anc_antisym _ _ _ _ _ HI); [by eapply (picks_anc M g r c ord HI)|done|done].
Qed.

Lemma syncOffer_spec a : Head a = Ok (Hash e) → oldestAncestor a = r → ∃ o, syncOffer a c = Ok o ∧ soHead o = Hash e ∧ Hash r ∈ soAncestors o ∧
  ∀ h, h ∈ soAncestors o → hashes (λ y, y ∈ ord) h.
Proof.
  intros Hh Ho. unfold syncOffer. generalize maxSyncHeadIntersectionIter as n. intros n. rewrite Hh, Ho. cbn [mbind res_bind].
  destruct (offerLoop_spec n 0 4 e [] e_in) as (lo & -> & Hlo). cbn [mbind res_bind]. eexists. split_and!; [done|done|cbn; apply elem_of_app; right; by left|]. cbn. intros h. rewrite elem_of_app, list_elem_of_singleton.
  intros [Hh'%Hlo| ->]; [destruct Hh' as [?%elem_of_nil|?]; done|]. exists r. split; [done|by eapply root_in].
Qed.
(** Where the two chains meet. *)
Lemma intersection_spec lo ro : soHead lo = Hash e → Hash r ∈ soAncestors ro →
  ∃ x, computeSyncIntersection c lo ro = Ok x ∧
    match x with
    | upToDate => soHead ro = Hash e
    | headIntersection h | tailIntersection h => (h = soHead ro ∨ h ∈ soAncestors ro) ∧ hashes (λ y, y ∈ ord ∧ anc y e) h
    end.
Proof.
  intros Hlo Hr. unfold computeSyncIntersection. rewrite Hlo. case_decide as E; [by exists upToDate|].
  destruct (tailLoop_spec (soAncestors ro) Hr) as (yt & Et & Hin & Hy & HA).
  assert (∃ x, tailLoop c (Hash e) (soAncestors ro) = Ok x ∧ match x with upToDate => soHead ro = Hash e
    | headIntersection h | tailIntersection h => (h = soHead ro ∨ h ∈ soAncestors ro) ∧ hashes (λ y, y ∈ ord ∧ anc y e) h end) as Htail.
  { exists (tailIntersection (Hash yt)). split; [done|]. split; [by right|]. by exists yt. }
  clear Et Hin Hy HA. unfold memAUM. destruct (aums c !! soHead ro); cbn [of_option mbind res_bind]; [|exact Htail].
  destruct (headLoop_spec maxSyncHeadIntersectionIter (soHead ro) e e_in) as (b & -> & Hb). cbn [mbind res_bind]. destruct b; [|exact Htail].
  exists (headIntersection (soHead ro)). auto.
Qed.
Lemma missing_spec a ro : Head a = Ok (Hash e) → oldestAncestor a = r → Hash r ∈ soAncestors ro →
  ∃ l, MissingAUMs a c ro = Ok l ∧ (soHead ro = Hash e ∧ l = [] ∨ ∃ y, sends ro l y).
Proof.
  intros Hh Ho Hr. destruct (syncOffer_spec a Hh Ho) as (lo & Hlo & Hlh & _ & _). destruct (intersection_spec lo ro Hlh Hr) as (x & Hx & Hm).
  unfold MissingAUMs. rewrite Hlo. cbn [wrapErr mbind res_bind]. rewrite Hx. cbn [wrapErr mbind res_bind].
  destruct x as [|h|h]; [by exists []; auto|..].
  all: destruct Hm as (Hn & y & <- & Hy & HA); destruct (sends_walk ro y) as (l & Hl & Hs); [done|done|done|]; exists l; split; [exact Hl|right; by exists y].
Qed.
End offer.
