(* ===== verification/TkaSyncThms.v ===== *)
(** * Two authorities that exchange what they miss agree

    The receiver accepts what the sender's active chain has, and after an exchange in
    both directions both pick the same chain.  Nothing that is received makes the key
    authority panic: verification never does, and over a storage that the authority built
    itself neither do updates, offers nor the answers to offers, whatever the other side
    sends. *)

From stdpp Require Import base gmap sets list strings relations.
From S2P Require Import Prelude GoStd Bytes Tka TkaChain TkaThms TkaChainThms TkaPickThms TkaCompact TkaCompactThms TkaPurgeThms TkaOfferThms.

#[local] Opaque maxSyncIter maxScanIterations maxSyncHeadIntersectionIter.

(** ** Accepting *)
Section accept.
Context `{TkaCrypto} (M : AUM → Prop) (MU : Universe M) (g r : AUM).

Lemma inv_agree r1 r2 c1 c2 o1 o2 : Inv M g r1 c1 o1 → Inv M g r2 c2 o2 → agree c1 c2.
Proof.
  intros I1 I2 h a b Ha Hb. pose proof (so_hash _ (iv_store _ _ _ _ _ I1) _ _ Ha) as Ea. pose proof (so_hash _ (iv_store _ _ _ _ _ I2) _ _ Hb) as Eb.
  apply (un_inj _ MU); [apply (iv_msgs _ _ _ _ _ I1), I1; congruence|apply (iv_msgs _ _ _ _ _ I2), I2; congruence|congruence].
Qed.

Lemma informLoop_commits c x l x' : informLoop c x l = Ok x' → toCommit x' = toCommit x ++ filter (λ u, aums c !! Hash u = None) l.
Proof.
  revert x. induction l as [|u l IH]; intros x; cbn [informLoop]; [intros [= <-]; by rewrite app_nil_r|]. intros (x1 & H1 & HR)%bind_ok. rewrite (IH _ HR), filter_cons. destruct (aums c !! Hash u) as [b|] eqn:E.
  - rewrite decide_False by done. unfold informOne, memAUM in H1. rewrite E in H1. cbn in H1. by injection H1 as <-.
  - rewrite decide_True by done. destruct (informOne_new c x u x1 E H1) as (p & s & s' & _ & _ & _ & _ & ->). cbn. by rewrite <- app_assoc.
Qed.
Lemma commit_lookup now l c h b : (∀ u, u ∈ l → M u) → (∀ h a, aums c !! h = Some a → M a ∧ Hash a = h) →
  aums (CommitVerifiedAUMs now l c) !! h = Some b ↔ aums c !! h = Some b ∨ b ∈ l ∧ Hash b = h.
Proof.
  revert c. induction l as [|u l IH]; intros c Hl Hc; [cbn; rewrite elem_of_nil; tauto|].
  change (CommitVerifiedAUMs now (u :: l) c) with (CommitVerifiedAUMs now l (commitOne now c u)). rewrite IH; cbn [aums commitOne].
  - rewrite lookup_insert_Some, elem_of_cons. split.
    + intros [[[<- <-]|[_ ?]]|[? ?]]; auto.
    + intros [Hb|[[->|?] ?]]; [|auto..]. destruct (decide (Hash u = h)) as [E|E]; [|auto]. destruct (Hc _ _ Hb) as [Hm Eb]. left. left. split; [done|].
      apply (un_inj _ MU); [apply Hl; by left|done|congruence].
  - intros; apply Hl. by right.
  - intros h' a. rewrite lookup_insert_Some. intros [[<- <-]|[_ Ha]]; [split; [apply Hl; by left|done]|auto].
Qed.
Lemma commit_size now l c : (size (aums (CommitVerifiedAUMs now l c)) ≤ size (aums c) + length l)%nat.
Proof.
  revert c. induction l as [|u l IH]; intros c; [cbn; lia|]. change (CommitVerifiedAUMs now (u :: l) c) with (CommitVerifiedAUMs now l (commitOne now c u)).
  specialize (IH (commitOne now c u)). cbn [aums commitOne] in IH. pose proof (map_size_insert (Hash u) u (aums c)) as HS. cbn [length].
  destruct (aums c !! Hash u); unfold id in HS; lia.
Qed.

(** Messages whose sender had verified them are verified again. *)
Definition vouched (cA : Mem) (u : AUM) : Prop := ∃ w s s', Parent u = Some (Hash w) ∧ StateAt cA (Hash w) s ∧ aumVerify u s false = Ok () ∧ applyVerifiedAUM s u = Ok s'.
Lemma informLoop_accepts now c ord a us dn x prev l cA : Inv M g r c ord → (length ord ≤ maxScanIterations)%nat → Forall M us → (∀ u, u ∈ l → u ∈ us) →
  (∀ c' o', Inv M g r c' o' → agree c' cA) → InformInv M g r now c a us dn x → chained prev l → aums c !! Hash prev = Some prev ∨ is_Some (stateAt x !! Hash prev) →
  Forall (vouched cA) l → ∃ x', informLoop c x l = Ok x'.
Proof.
  intros HI Hlim HM Hus Hag. revert Hus dn x prev. induction l as [|u l IH]; intros Hus dn x prev HII Hch Hprev Hv; [by eexists|]. cbn in Hch. destruct Hch as [Hp Hch].
  inversion Hv as [|? ? (w & s & s' & Hpw & HSw & HV & HA) Hv']; subst. assert (Hash w = Hash prev) as Ew by congruence. rewrite Ew in HSw.
  assert (∃ x1, informOne c x u = Ok x1 ∧ (aums c !! Hash u = Some u ∨ is_Some (stateAt x1 !! Hash u))) as (x1 & H1 & Hu).
  { destruct (aums c !! Hash u) as [b|] eqn:Eu.
    - exists (mkInform (stateAt x) (toCommit x) (prevHash x) false). unfold informOne, memAUM. rewrite Eu. split; [done|]. left. f_equal.
      pose proof (so_hash _ (iv_store _ _ _ _ _ HI) _ _ Eu) as Eb. apply (un_inj _ MU); [|by rewrite Forall_forall in HM; apply HM, Hus; left|done].
      apply (iv_msgs _ _ _ _ _ HI), HI. congruence.
    - destruct HII as [[o' HI'] Hmono _ HSt _].
      assert (∃ t, (match stateAt x !! Hash prev with Some s => Ok s | None => wrapErr "update computing state" (computeStateAt c maxScanIterations (Hash prev)) end) = Ok t ∧
        StateAt (CommitVerifiedAUMs now (toCommit x) c) (Hash prev) t) as (t & Et & HSt').
      { destruct (stateAt x !! Hash prev) as [t|] eqn:Es; [exists t; auto|]. destruct Hprev as [Hprev|[? ?]]; [|done].
        destruct (computeStateAt_total M g r c ord HI maxScanIterations prev) as (t & -> & HSt'); [by apply HI|done|]. exists t. split; [done|]. by eapply state_mono. }
      rewrite (state_agree _ _ _ _ _ (Hag _ _ HI') HSt' HSw) in Et. unfold informOne, memAUM. rewrite Eu. cbn [of_option]. rewrite Hp, Et. cbn [mbind res_bind]. rewrite HV.
      cbn [wrapErr mbind res_bind]. rewrite HA. cbn [wrapErr mbind res_bind]. eexists. split; [done|]. right. cbn. rewrite lookup_insert_eq. by eexists. }
  cbn. rewrite H1. cbn [mbind res_bind]. apply (IH (λ v Hv, Hus v (list_elem_of_further _ _ _ Hv)) (dn ++ [u]) x1 u); try done.
  eapply inform_step; eauto; [apply HI|]. apply Hus. by left.
Qed.

(** The receiver stores and adopts what the sender vouches for. *)
Lemma inform_accepts now pk c a ord us prev cA : authAt M g r pk c a → Inv M g r c ord → (pk ≤ maxScanIterations)%nat →
  (size (aums c) + length us ≤ maxScanIterations)%nat → Forall M us → us ≠ [] → (∀ c' o', Inv M g r c' o' → agree c' cA) →
  chained prev us → aums c !! Hash prev = Some prev → Forall (vouched cA) us →
  ∃ c' a', Inform now c a us = (c', a', Ok ()) ∧ authAt M g r (pk `max` size (aums c')) c' a' ∧ (size (aums c') ≤ maxScanIterations)%nat ∧
    ∀ h b, aums c' !! h = Some b ↔ aums c !! h = Some b ∨ b ∈ us ∧ Hash b = h.
Proof.
  intros HA HI Hpk Hsz HM Hne Hag Hch Hprev Hv. pose proof HA as [Hp _ Hh HS _]. pose proof (inv_size _ _ _ _ _ HI) as Hlen.
  pose proof (inform_start M g r now c a us ord HI Hh HS) as HII.
  destruct (informLoop_accepts now c ord a us [] _ prev us cA HI ltac:(lia) HM ltac:(done) Hag HII Hch (or_introl Hprev) Hv) as [x Hx].
  assert (InformInv M g r now c a us us x) as [[ord' HI'] _ _ _ _] by (eapply (inform_loop M MU g r now c a us us []); [apply HI|done|done|exact HII|exact Hx]).
  pose proof (informLoop_commits _ _ _ _ Hx) as Hcm. cbn [toCommit app] in Hcm. set (c' := CommitVerifiedAUMs now (toCommit x) c) in *.
  assert (size (aums c') ≤ maxScanIterations)%nat as Hsz'.
  { unfold c'. etransitivity; [apply commit_size|]. rewrite Hcm. pose proof (length_filter (λ u, aums c !! Hash u = None) us). lia. }
  destruct (Inform now c a us) as [[c1 a1] res] eqn:EI. pose proof (inform_ok M MU g r pk now c a us c1 a1 res HA HM EI) as HA'.
  assert (c1 = c' ∧ res = Ok ()) as [-> ->].
  { unfold Inform, InformIdempotent in EI. destruct (last us) as [lu|] eqn:El; [|by apply last_None in El]. unfold Head in EI.
    rewrite (state_last _ _ _ (iv_store _ _ _ _ _ HI) HS), Hx in EI. fold c' in EI. destruct (isHeadChain x); [by simplify_eq|].
    destruct (recompute M g r c' ord' (Some (Hash (oldestAncestor a))) maxScanIterations scan_pos HI') as (e & t & v & _ & HC); [pose proof (inv_size _ _ _ _ _ HI'); lia|].
    rewrite HC in EI. cbn in EI. by simplify_eq. }
  exists c', a1. split_and!; [done|done|done|]. intros h b. unfold c'. rewrite Forall_forall in HM. rewrite commit_lookup, Hcm.
  - rewrite list_elem_of_filter. split; [naive_solver|]. intros [?|[Hb Eb]]; [by left|]. destruct (aums c !! h) as [d|] eqn:Ed; [|right; split_and!; [congruence|done|done]].
    left. f_equal. pose proof (so_hash _ (iv_store _ _ _ _ _ HI) _ _ Ed). apply (un_inj _ MU); [apply (iv_msgs _ _ _ _ _ HI), HI; congruence|auto|congruence].
  - rewrite Hcm. intros u [_ Hu]%list_elem_of_filter. auto.
  - intros h' d Hd. pose proof (so_hash _ (iv_store _ _ _ _ _ HI) _ _ Hd) as E. split; [|done]. apply (iv_msgs _ _ _ _ _ HI), HI. congruence.
Qed.
End accept.

(** ** Merging *)
Section merge.
Context `{TkaCrypto} (M : AUM → Prop) (MU : Universe M) (g r : AUM).
Local Abbreviation start := (r, rootState r).
Definition stored (c : Mem) (x : AUM) : Prop := aums c !! Hash x = Some x.
#[global] Instance stored_dec c x : Decision (stored c x).
Proof. unfold stored. apply _. Defined.
(** [c1'] is [c1] with the active chain of [c2]. *)
Definition merged (c1 c2 c1' : Mem) : Prop := ∀ x, stored c1' x ↔ stored c1 x ∨ ∃ s, picks c2 start (x, s).

Lemma picks_stored c o x s : Inv M g r c o → picks c start (x, s) → x ∈ o ∧ stored c x ∧ StateAt c (Hash x) s.
Proof.
  intros HI HP. destruct (inv_root_at _ _ _ _ _ HI) as [HSr _]. destruct (picks_state M g r c o r _ x s HI (root_in _ _ _ _ _ HI) HSr HP) as [Hx HS].
  split_and!; [done|by apply HI|done].
Qed.
Lemma active_child c o x s u s' : Inv M g r c o → picks c start (x, s) → picks c start (u, s') → Parent u = Some (Hash x) → pick c (x, s) (u, s').
Proof.
  intros HI Hx Hu Hp. destruct (picks_stored c o x s HI Hx) as (Hxi & _ & HSx). destruct (rtc_inv_r _ _ Hu) as [E|([w t] & Hw & Hwu)].
  - injection E as <- _. by destruct (root_top _ _ _ _ _ HI _ Hp x Hxi).
  - destruct (picks_stored c o w t HI Hw) as (Hwi & _ & HSw). destruct (pick_child M g r c o w t u s' HI Hwi HSw Hwu) as (_ & Hpw & _).
    assert (w = x) as -> by (eapply hash_inj; eauto; congruence). by rewrite (state_det _ _ _ _ HSx HSw).
Qed.
Lemma stored_parent c o x b u : Inv M g r c o → Inv M g r b u → ∀ y, stored c y → Parent y = Some (Hash x) → stored b x → stored c x.
Proof.
  intros HI HB y Hy Hp Hx. assert (x ∈ u) as Hxu by by apply HB. destruct (decide (y = r)) as [->|Hne]; [by destruct (root_top _ _ _ _ _ HB _ Hp x Hxu)|].
  destruct (inv_parent M g r c o y HI Hy Hne) as (d & Hpd & Hd). assert (d = x) as ->; [|done].
  apply (un_inj _ MU); [apply (iv_msgs _ _ _ _ _ HI), HI, Hd|by apply (iv_msgs _ _ _ _ _ HB)|congruence].
Qed.
Lemma in_children c o x y : Inv M g r c o → y ∈ ChildAUMs c (Hash x) ↔ stored c y ∧ Parent y = Some (Hash x).
Proof. intros HI. by rewrite (child_spec _ _ _ (iv_store _ _ _ _ _ HI)). Qed.
(** A pick among some candidates, when it is a pick among more. *)
Lemma pick_among c o b u x s y t : Inv M g r c o → Inv M g r b u → picks c start (x, s) → pick c (x, s) (y, t) →
  (∀ w, stored b w → Parent w = Some (Hash x) → stored c w) → stored b y → pick b (x, s) (y, t).
Proof.
  intros HI HB Hx Hp Hsub Hy. destruct (picks_stored c o x s HI Hx) as (Hxi & _ & HSx). destruct (pick_child M g r c o x s y t HI Hxi HSx Hp) as (_ & Hpar & _).
  apply list_elem_of_lookup in Hxi as [i Hi]. unfold pick in *. cbn in *. apply advance_some in Hp as [Hp HA]. apply advance_some. split; [|done].
  eapply pick_sub; [|by eapply (child_weights M g r c o)|exact Hp| |by apply (in_children b u)].
  - rewrite child_hashes by apply HI. apply (so_nodup _ (iv_store _ _ _ _ _ HI)).
  - intros w [Hw Hpw]%(in_children b u); [|done]. apply (in_children c o); [done|]. auto.
Qed.

(** A pick of the merged storage at a message that is active on both sides. *)
Lemma pick_origin c1 c2 c1' o1 o2 o1' x s y t : Inv M g r c1 o1 → Inv M g r c2 o2 → Inv M g r c1' o1' → merged c1 c2 c1' →
  picks c1' start (x, s) → picks c2 start (x, s) → pick c1' (x, s) (y, t) → pick c1 (x, s) (y, t) ∨ ¬ stored c1 y ∧ pick c2 (x, s) (y, t).
Proof.
  intros I1 I2 I1' HM Hx' Hx2 Hp. destruct (picks_stored c1' o1' y t I1') as (_ & Hy & _); [by eapply rtc_r|]. destruct (decide (stored c1 y)) as [H1|H1].
  - left. eapply (pick_among c1' o1' c1 o1); eauto. intros w Hw _. apply HM. by left.
  - right. split; [done|]. destruct (picks_stored c1' o1' x s I1' Hx') as (Hxi & _ & HSx). destruct (pick_child M g r c1' o1' x s y t I1' Hxi HSx Hp) as (_ & Hpar & _).
    apply HM in Hy as [?|[t' Ht']]; [done|]. pose proof (active_child c2 o2 x s y t' I2 Hx2 Ht' Hpar) as Hp2. unfold pick in *. cbn in *.
    apply advance_some in Hp as [_ HA]. apply advance_some in Hp2 as Hp2'. destruct Hp2' as [_ HA2]. by replace t with t' by congruence.
Qed.
Lemma pick_exists c o x s y : Inv M g r c o → picks c start (x, s) → stored c y → Parent y = Some (Hash x) → ∃ z t, pick c (x, s) (z, t).
Proof.
  intros HI Hx Hy Hp. destruct (picks_stored c o x s HI Hx) as (Hxi & _ & HSx). apply list_elem_of_lookup in Hxi as [i Hi].
  assert (y ∈ ChildAUMs c (Hash x)) as Hin by by apply (in_children c o).
  destruct (advance_total M g r c o i x s HI Hi HSx) as [[E _]|(j & a & s' & _ & _ & _ & Ha & _)]; [rewrite E in Hin; by apply elem_of_nil in Hin|]. by exists a, s'.
Qed.
(** Two picks are the same when each was a candidate of the other. *)
Lemma pick_same c b o u x s y1 t1 y2 t2 : Inv M g r c o → Inv M g r b u → picks c start (x, s) → picks b start (x, s) →
  pick c (x, s) (y1, t1) → pick b (x, s) (y2, t2) → stored b y1 → stored c y2 → (y1, t1) = (y2, t2).
Proof.
  intros HI HB Hx Hx' Hp1 Hp2 H1 H2. destruct (picks_stored c o x s HI Hx) as (Hxi & _ & HSx). destruct (picks_stored b u x s HB Hx') as (Hxu & _ & HSu).
  destruct (pick_child M g r c o x s y1 t1 HI Hxi HSx Hp1) as (_ & Hpar1 & _). destruct (pick_child M g r b u x s y2 t2 HB Hxu HSu Hp2) as (_ & Hpar2 & _).
  apply list_elem_of_lookup in Hxi as [i Hi], Hxu as [j Hj]. pose proof (child_weights M g r c o i x s HI Hi HSx) as W1. pose proof (child_weights M g r b u j x s HB Hj HSu) as W2.
  unfold pick in *. cbn in *. apply advance_some in Hp1 as [Hp1 HA1], Hp2 as [Hp2 HA2].
  assert (y2 ∈ ChildAUMs c (Hash x)) as Hin2 by (by apply (in_children c o)). assert (y1 ∈ ChildAUMs b (Hash x)) as Hin1 by (by apply (in_children b u)).
  destruct (W2 y1 Hin1) as [w1 Hw1], (W1 y2 Hin2) as [w2 Hw2].
  assert (y1 = y2) as ->; [|congruence]. eapply (pick_best s (ChildAUMs c (Hash x)) y1 y2 w1 w2); eauto.
  - rewrite child_hashes by apply HI. apply (so_nodup _ (iv_store _ _ _ _ _ HI)).
  - destruct (pick_min s _ y2 W2 Hp2) as [_ Hmin]. by apply Hmin.
Qed.

Section sides.
Context (c1 c2 c1' c2' : Mem) (o1 o2 o1' o2' : list AUM).
Context (I1 : Inv M g r c1 o1) (I2 : Inv M g r c2 o2) (I1' : Inv M g r c1' o1') (I2' : Inv M g r c2' o2').
Context (M1 : merged c1 c2 c1') (M2 : merged c2 c1 c2').

(** Where a pick of the merged storage comes from. *)
Definition origin (p : AUM * State) : Prop :=
  picks c1 start p ∧ picks c2 start p ∨ picks c1 start p ∧ ¬ stored c2 p.1 ∨ picks c2 start p ∧ ¬ stored c1 p.1.

Lemma merge_both x s y t : picks c1' start (x, s) → picks c2' start (x, s) → picks c1 start (x, s) → picks c2 start (x, s) → pick c1' (x, s) (y, t) →
  pick c2' (x, s) (y, t) ∧ origin (y, t).
Proof.
  intros X1' X2' X1 X2 Hp. pose proof (pick_origin c1 c2 c1' o1 o2 o1' x s y t I1 I2 I1' M1 X1' X2 Hp) as HO.
  destruct (picks_stored c1' o1' x s I1' X1') as (Hxi & _ & HSx). destruct (pick_child M g r c1' o1' x s y t I1' Hxi HSx Hp) as (_ & Hpar & _).
  assert (stored c2' y) as Hy2.
  { apply M2. destruct HO as [Hp1|[_ Hp2]]; [right; exists t; by eapply rtc_r|left]. destruct (picks_stored c2 o2 y t I2) as (_ & ? & _); [by eapply rtc_r|done]. }
  destruct (pick_exists c2' o2' x s y I2' X2' Hy2 Hpar) as (y2 & t2 & Hp').
  pose proof (pick_origin c2 c1 c2' o2 o1 o2' x s y2 t2 I2 I1 I2' M2 X2' X1 Hp') as HO'.
  assert (stored c1' y2) as Hy1.
  { apply M1. destruct HO' as [Hp2|[_ Hp1]]; [right; exists t2; by eapply rtc_r|left]. destruct (picks_stored c1 o1 y2 t2 I1) as (_ & ? & _); [by eapply rtc_r|done]. }
  pose proof (pick_same c1' c2' o1' o2' x s y t y2 t2 I1' I2' X1' X2' Hp Hp' Hy2 Hy1) as [= <- <-]. split; [done|]. unfold origin. cbn.
  destruct HO as [Hp1|[Hn1 Hp2]]; [|right; right; split; [by eapply rtc_r|done]]. destruct HO' as [Hp2|[Hn2 _]]; [left; split; by eapply rtc_r|].
  right. left. split; [by eapply rtc_r|done].
Qed.
(** Behind a message that the second side does not have. *)
Lemma merge_first x s y t : picks c1' start (x, s) → picks c2' start (x, s) → picks c1 start (x, s) → ¬ stored c2 x → pick c1' (x, s) (y, t) →
  pick c2' (x, s) (y, t) ∧ picks c1 start (y, t) ∧ ¬ stored c2 y.
Proof.
  intros X1' X2' X1 Hn Hp. destruct (picks_stored c1' o1' x s I1' X1') as (Hxi & _ & HSx). destruct (pick_child M g r c1' o1' x s y t I1' Hxi HSx Hp) as (_ & Hpar & _).
  destruct (picks_stored c1 o1 x s I1 X1) as (_ & Hx1 & _).
  assert (∀ w, stored c2 w → Parent w = Some (Hash x) → False) as Hno by (intros w Hw Hpw; apply Hn; by eapply (stored_parent c2 o2 x c1 o1)).
  assert (∀ w, stored c1' w → Parent w = Some (Hash x) → stored c1 w) as Hsub.
  { intros w [Hw|[u Hu]]%M1 Hpw; [done|]. destruct (picks_stored c2 o2 w u I2 Hu) as (_ & Hw & _). by destruct (Hno w). }
  destruct (picks_stored c1' o1' y t I1') as (_ & Hy & _); [by eapply rtc_r|].
  assert (pick c1 (x, s) (y, t)) as Hp1.
  { eapply (pick_among c1' o1' c1 o1); eauto. intros w Hw _. apply M1. by left. }
  assert (picks c1 start (y, t)) as Py by by eapply rtc_r. split_and!; [|done|by intros ?; eapply Hno].
  eapply (pick_among c1 o1 c2' o2'); eauto; [|apply M2; right; by exists t]. intros w [Hw|[u Hu]]%M2 Hpw; [by destruct (Hno w)|].
  by destruct (picks_stored c1 o1 w u I1 Hu) as (_ & ? & _).
Qed.
(** Behind a message that the first side does not have. *)
Lemma merge_second x s y t : picks c1' start (x, s) → picks c2' start (x, s) → picks c2 start (x, s) → ¬ stored c1 x → pick c1' (x, s) (y, t) →
  pick c2' (x, s) (y, t) ∧ picks c2 start (y, t) ∧ ¬ stored c1 y.
Proof.
  intros X1' X2' X2 Hn Hp. destruct (picks_stored c1' o1' x s I1' X1') as (Hxi & _ & HSx). destruct (pick_child M g r c1' o1' x s y t I1' Hxi HSx Hp) as (_ & Hpar & _).
  destruct (picks_stored c2 o2 x s I2 X2) as (_ & Hx2 & _).
  assert (∀ w, stored c1 w → Parent w = Some (Hash x) → False) as Hno by (intros w Hw Hpw; apply Hn; by eapply (stored_parent c1 o1 x c2 o2)).
  destruct (pick_origin c1 c2 c1' o1 o2 o1' x s y t I1 I2 I1' M1 X1' X2 Hp) as [Hp1|[Hny Hp2]].
  { destruct (picks_stored c1' o1' y t I1') as (_ & Hy & _); [by eapply rtc_r|]. unfold pick in Hp1. cbn in Hp1. apply (primary_within c1) in Hp1 as [Hin _].
    apply (in_children c1 o1) in Hin as [Hy1 _]; [|done]. by destruct (Hno y). }
  assert (picks c2 start (y, t)) as Py by by eapply rtc_r. split_and!; [|done|done].
  eapply (pick_among c2 o2 c2' o2'); eauto; [|apply M2; left; by destruct (picks_stored c2 o2 y t I2 Py) as (_ & ? & _)]. intros w [Hw|[u Hu]]%M2 Hpw; [done|].
  destruct (picks_stored c1 o1 w u I1 Hu) as (_ & Hw & _). by destruct (Hno w).
Qed.
Lemma merge_picks p : picks c1' start p → picks c2' start p ∧ origin p.
Proof.
  revert p. refine (rtc_ind_r _ _ _ _); [split; [apply rtc_refl|]; left; split; apply rtc_refl|]. intros [x s] [y t] X1' Hp [X2' HO]. unfold origin in HO. cbn in HO.
  assert (pick c2' (x, s) (y, t) ∧ origin (y, t)) as [Hp' HO']; [|split; [by eapply rtc_r|done]].
  destruct HO as [[X1 X2]|[[X1 Hn]|[X2 Hn]]].
  - by apply merge_both.
  - destruct (merge_first x s y t) as (? & ? & ?); try done. split; [done|]. right. left. done.
  - destruct (merge_second x s y t) as (? & ? & ?); try done. split; [done|]. right. right. done.
Qed.
End sides.

(** Both sides end at the same message with the same state. *)
Lemma merge_heads c1 c2 c1' c2' o1 o2 o1' o2' e1 t1 e2 t2 : Inv M g r c1 o1 → Inv M g r c2 o2 → Inv M g r c1' o1' → Inv M g r c2' o2' →
  merged c1 c2 c1' → merged c2 c1 c2' → picks c1' start (e1, t1) → ChildAUMs c1' (Hash e1) = [] → picks c2' start (e2, t2) → ChildAUMs c2' (Hash e2) = [] →
  e1 = e2 ∧ t1 = t2.
Proof.
  intros I1 I2 I1' I2' M1 M2 P1 L1 P2 L2. destruct (merge_picks c1 c2 c1' c2' o1 o2 o1' o2' I1 I2 I1' I2' M1 M2 _ P1) as [P1' _].
  pose proof (picks_end _ _ _ _ P2 P1' L2) as HL. inversion HL as [|? [y t] ? Hy]; subst; [done|]. exfalso.
  assert (picks c2' start (y, t)) as Py by by eapply rtc_r. destruct (merge_picks c2 c1 c2' c1' o2 o1 o2' o1' I2 I1 I2' I1' M2 M1 _ Py) as [Py' _].
  destruct (picks_stored c1' o1' y t I1' Py') as (_ & Hst & _). destruct (picks_stored c2' o2' e1 t1 I2' P1') as (Hi & _ & HS).
  destruct (pick_child M g r c2' o2' e1 t1 y t I2' Hi HS Hy) as (_ & Hp & _). assert (y ∈ ChildAUMs c1' (Hash e1)) as Hin by by apply (in_children c1' o1').
  rewrite L1 in Hin. by apply elem_of_nil in Hin.
Qed.
End merge.

(** ** An exchange *)
Section exchange.
Context `{TkaCrypto} (M : AUM → Prop) (MU : Universe M) (g r : AUM).
Local Abbreviation start := (r, rootState r).

(** The updates of the other side are applied when there are some. *)
Definition receive (now : Z) (c : Mem) (a : Authority) (us : list AUM) : Mem * Authority * tres () :=
  match us with [] => (c, a, Ok ()) | _ => Inform now c a us end.

Lemma auth_picks pk c a ord : authAt M g r pk c a → Inv M g r c ord → (pk ≤ maxScanIterations)%nat →
  oldestAncestor a = r ∧ Head a = Ok (Hash (auHead a)) ∧ auHead a ∈ ord ∧ picks c start (auHead a, auState a) ∧ ChildAUMs c (Hash (auHead a)) = [].
Proof.
  intros [_ _ Hh HS HC] HI Hpk. destruct (HC Hpk) as [Ho [v HW]]. destruct (walk_picks _ _ _ _ _ _ _ _ HW) as [HP _]. split_and!; [done| |by apply HI|done|by eapply walk_end].
  unfold Head. by rewrite (state_last _ _ _ (iv_store _ _ _ _ _ HI) HS).
Qed.
Lemma auth_same pk1 pk2 c1 c2 a1 a2 : authAt M g r pk1 c1 a1 → authAt M g r pk2 c2 a2 → (pk1 ≤ maxScanIterations)%nat → (pk2 ≤ maxScanIterations)%nat →
  auHead a1 = auHead a2 → auState a1 = auState a2 → a1 = a2.
Proof. intros [_ _ _ _ C1] [_ _ _ _ C2] L1 L2. destruct (C1 L1) as [O1 _], (C2 L2) as [O2 _]. destruct a1, a2. cbn in *. congruence. Qed.

(** What the other side sends is vouched for by its own storage. *)
Lemma inv_vouched c o u : Inv M g r c o → u ∈ o → u ≠ r → vouched c u.
Proof.
  intros HI [i Hi]%list_elem_of_lookup Hne. destruct i as [|i]; [rewrite (iv_first _ _ _ _ _ HI) in Hi; congruence|].
  destruct (iv_next _ _ _ _ _ HI i u Hi) as (_ & b & s & s' & _ & _ & Hp & HS & _ & HV & HA & _). by exists b, s, s'.
Qed.
(** An ancestor of a stored message is stored. *)
Lemma anc_stored c1 o1 c2 o2 x y : Inv M g r c1 o1 → Inv M g r c2 o2 → Anc o2 x y → stored c1 y → stored c1 x.
Proof.
  intros I1 I2. induction 1 as [x|x b y _ IH Hb Hp]; [done|]. intros Hy. apply IH. eapply (stored_parent M MU g r c1 o1 b c2 o2); eauto. by apply I2.
Qed.
Lemma chained_nodup c o x l : Inv M g r c o → x ∈ o → (∀ w, w ∈ l → w ∈ o) → chained x l → NoDup l.
Proof.
  intros HI. revert x. induction l as [|w l IH]; intros x Hx Hl Hc; [constructor|]. destruct Hc as [_ Hc]. assert (w ∈ o) as Hw by (apply Hl; by left).
  constructor; [|apply (IH w); [done|by intros; apply Hl; right|done]]. intros Hwl. by destruct (chained_anc M g r c o HI w l w) as [_ ?]; [|by intros; apply Hl; right|..].
Qed.
Lemma active_anc c o e t x : Inv M g r c o → picks c start (e, t) → ChildAUMs c (Hash e) = [] → e ∈ o →
  (∃ s, picks c start (x, s)) ↔ x ∈ o ∧ Anc o x e.
Proof.
  intros HI HP HE He. split.
  - intros [s Hs]. destruct (picks_stored M g r c o x s HI Hs) as (Hx & _ & HS). split; [done|]. eapply (picks_anc M g r c o HI); eauto. by eapply picks_end.
  - intros [Hx HA]. destruct (computeStateAt_total M g r c o HI (length o) x Hx) as (s & _ & HS); [done|]. exists s.
    by destruct (picks_to_head M g r c o HI e t HP x s Hx HS HA).
Qed.

Hypothesis hash_len : ∀ u, length (Hash u) = 32%nat.
Hypothesis root_len : ∀ p, PrevAUMHash r = Some p → length p = 32%nat.

(** One direction: the second side answers the offer of the first. *)
Lemma delivered now pk1 c1 a1 o1 pk2 c2 a2 o2 ro : authAt M g r pk1 c1 a1 → Inv M g r c1 o1 → authAt M g r pk2 c2 a2 → Inv M g r c2 o2 →
  (pk1 ≤ maxScanIterations)%nat → (pk2 ≤ maxScanIterations)%nat → (size (aums c1) + size (aums c2) ≤ maxScanIterations)%nat → syncOffer a1 c1 = Ok ro →
  ∃ l c1' a1', MissingAUMs a2 c2 ro = Ok l ∧ receive now c1 a1 l = (c1', a1', Ok ()) ∧ merged r c1 c2 c1' ∧ (pk1 `max` size (aums c1') ≤ maxScanIterations)%nat ∧
    authAt M g r (pk1 `max` size (aums c1')) c1' a1' ∧ Forall M l.
Proof.
  intros A1 I1 A2 I2 L1 L2 HS Hro. destruct (auth_picks _ _ _ _ A1 I1 L1) as (R1 & H1 & E1 & P1 & Z1). destruct (auth_picks _ _ _ _ A2 I2 L2) as (R2 & H2 & E2 & P2 & Z2).
  pose proof (inv_size _ _ _ _ _ I1) as S1. pose proof (inv_size _ _ _ _ _ I2) as S2. pose proof (ao_peak _ _ _ _ _ _ A1) as K1.
  destruct (syncOffer_spec M g r c1 o1 I1 hash_len (auHead a1) E1 a1 H1 R1) as (ro' & Hro' & Hh & Hr & Hin). rewrite Hro in Hro'. injection Hro' as <-.
  destruct (missing_spec M g r c2 o2 I2 hash_len root_len _ _ E2 P2 Z2 ltac:(lia) a2 ro H2 R2 Hr) as (l & Hl & Hcase).
  assert (∀ y, Hash y = soHead ro ∨ Hash y ∈ soAncestors ro → y ∈ o2 → stored c1 y) as Hnamed.
  { intros y Hy Hyo. assert (∃ y', Hash y' = Hash y ∧ y' ∈ o1) as (y' & E & Hy') by (destruct Hy as [Hy|(y' & ? & ?)%Hin]; [exists (auHead a1); split; [congruence|done]|by exists y']).
    assert (y' = y) as -> by (apply (un_inj _ MU); [by apply (iv_msgs _ _ _ _ _ I1)|by apply (iv_msgs _ _ _ _ _ I2)|done]). by apply I1. }
  assert (∃ y, stored c1 y ∧ y ∈ o2 ∧ Anc o2 y (auHead a2) ∧ chained y l ∧ ∀ u, u ∈ l ↔ Anc o2 y u ∧ u ≠ y ∧ Anc o2 u (auHead a2)) as (y & Hy & Hyo & HyA & Hch & Hel).
  { destruct Hcase as [[Hhd ->]|(y & [Hn Hi HA Hc Hel])]; [|exists y; split_and!; auto]. exists (auHead a2). split_and!; [by apply Hnamed; [left|]|done|apply anc_refl|done|].
    intros u. split; [by intros ?%elem_of_nil|]. intros (HA & Hne & HB). destruct Hne. by eapply (anc_antisym M g r c2 o2 I2). }
  assert (∀ u, u ∈ l → u ∈ o2) as Hlo by (intros u (_ & _ & HA)%Hel; by eapply anc_in).
  assert (Forall M l) as HMl by (apply Forall_forall; intros; by apply (iv_msgs _ _ _ _ _ I2), Hlo).
  assert (∀ x, stored c1 x ∨ x ∈ l ↔ stored c1 x ∨ ∃ s, picks c2 start (x, s)) as Hmerge.
  { intros x. rewrite (active_anc c2 o2 _ _ x I2 P2 Z2 E2). split; [intros [?|Hx]; [by left|right; split; [auto|by apply Hel]]|].
    intros [?|[Hx HA]]; [by left|]. destruct (anc_linear M g r c2 o2 I2 x y _ HA HyA E2) as [Hxy|Hyx]; [left; by eapply anc_stored|].
    destruct (decide (x = y)) as [->|Hne]; [by left|right; by apply Hel]. }
  exists l. destruct l as [|u l'] eqn:El.
  - exists c1, a1. split_and!; try done; [|lia|by replace (pk1 `max` size (aums c1))%nat with pk1 by lia]. intros x. rewrite <- Hmerge, elem_of_nil. tauto.
  - rewrite <- El in *. assert (length l ≤ length o2)%nat as Hlen.
    { apply submseteq_length, NoDup_submseteq; [by eapply (chained_nodup c2 o2 y)|done]. }
    destruct (inform_accepts M MU g r now pk1 c1 a1 o1 l y c2 A1 I1 L1 ltac:(lia) HMl ltac:(by rewrite El)) as (c1' & a1' & HI & HA & Hsz & Hst); try done.
    { intros c' o' I'. by eapply (inv_agree M MU g r r). }
    { apply Forall_forall. intros w Hw. eapply inv_vouched; [done|auto|]. intros ->. apply Hel in Hw as (HA & Hne & _). by apply (anc_of_root _ _ _ _ _ I2) in HA. }
    exists c1', a1'. split_and!; [done|by rewrite El in *|intros x|lia|done|done]. rewrite <- Hmerge. unfold stored. rewrite Hst. tauto.
Qed.
(** An offer names messages by their hashes. *)
Definition named (o : SyncOffer) : Prop := ∀ h, h = soHead o ∨ h ∈ soAncestors o → ∃ y, h = Hash y.
Lemma offer_named pk c a ord : authAt M g r pk c a → Inv M g r c ord → (pk ≤ maxScanIterations)%nat → ∃ ro, syncOffer a c = Ok ro ∧ named ro.
Proof.
  intros HA HI Hpk. destruct (auth_picks _ _ _ _ HA HI Hpk) as (HR & HH & HE & _ & _). destruct (syncOffer_spec M g r c ord HI hash_len _ HE a HH HR) as (ro & HO & Hh & _ & Hin).
  exists ro. split; [done|]. intros h [->|(y & <- & _)%Hin]; eauto.
Qed.
(** Both directions, from the states before. *)
Lemma exchanged now1 now2 pk1 c1 a1 pk2 c2 a2 : authAt M g r pk1 c1 a1 → authAt M g r pk2 c2 a2 →
  (pk1 ≤ maxScanIterations)%nat → (pk2 ≤ maxScanIterations)%nat → (size (aums c1) + size (aums c2) ≤ maxScanIterations)%nat →
  ∃ ro1 ro2 l1 l2 c1' c2' a', syncOffer a1 c1 = Ok ro1 ∧ syncOffer a2 c2 = Ok ro2 ∧ MissingAUMs a1 c1 ro2 = Ok l1 ∧ MissingAUMs a2 c2 ro1 = Ok l2 ∧
    receive now1 c1 a1 l2 = (c1', a', Ok ()) ∧ receive now2 c2 a2 l1 = (c2', a', Ok ()) ∧
    Forall M l1 ∧ Forall M l2 ∧ named ro1 ∧ named ro2 ∧ Head a' = Ok (Hash (auHead a')).
Proof.
  intros A1 A2 L1 L2 HS. pose proof A1 as [_ [o1 I1] _ _ _]. pose proof A2 as [_ [o2 I2] _ _ _].
  destruct (offer_named pk1 c1 a1 o1 A1 I1 L1) as (ro1 & O1 & N1). destruct (offer_named pk2 c2 a2 o2 A2 I2 L2) as (ro2 & O2 & N2).
  destruct (delivered now1 pk1 c1 a1 o1 pk2 c2 a2 o2 ro1 A1 I1 A2 I2 L1 L2 HS O1) as (l2 & c1' & a1' & X2 & V1 & M1 & K1 & B1 & F2).
  destruct (delivered now2 pk2 c2 a2 o2 pk1 c1 a1 o1 ro2 A2 I2 A1 I1 L2 L1 ltac:(lia) O2) as (l1 & c2' & a2' & X1 & V2 & M2 & K2 & B2 & F1).
  pose proof B1 as [_ [o1' I1'] _ _ _]. pose proof B2 as [_ [o2' I2'] _ _ _].
  destruct (auth_picks _ _ _ _ B1 I1' K1) as (_ & H1 & _ & P1 & Z1). destruct (auth_picks _ _ _ _ B2 I2' K2) as (_ & _ & _ & P2 & Z2).
  exists ro1, ro2, l1, l2, c1', c2', a1'. split_and!; try done. rewrite V2. do 2 f_equal.
  destruct (merge_heads M MU g r c1 c2 c1' c2' o1 o2 o1' o2' _ _ _ _ I1 I2 I1' I2' M1 M2 P1 Z1 P2 Z2) as [EH ES].
  symmetry. by eapply auth_same.
Qed.
End exchange.

(** ** No panic *)
Definition calm {A} (m : tres A) : Prop := m ≠ Panic.
Lemma calm_bind {A B} (m : tres A) (k : A → tres B) : calm m → (∀ x, m = Ok x → calm (k x)) → calm (m ≫= k).
Proof. destruct m; cbn; [auto|done|done]. Qed.
Lemma calm_wrap {A} msg (m : tres A) : calm m → calm (wrapErr msg m).
Proof. by destruct m. Qed.
Lemma calm_each {A} (f : nat → A → tres ()) i l : (∀ i x, calm (f i x)) → calm (checkEach f i l).
Proof. intros Hf. revert i. induction l as [|x l IH]; intros i; cbn; [done|]. apply calm_bind; auto. Qed.
Lemma calm_option {A} e (o : option A) : calm (of_option e o).
Proof. by destruct o. Qed.
Create HintDb calm.
#[export] Hint Resolve calm_wrap calm_each calm_option : calm.
(** Opens binds, tests and matches. *)
Ltac calm := repeat first
  [ progress auto with calm
  | match goal with
    | |- calm (Ok _) => discriminate
    | |- calm (Err _) => discriminate
    | |- calm (_ ≫= _) => apply calm_bind; [|intros ? _]
    | |- calm (wrapErr _ _) => apply calm_wrap
    | |- calm (checkEach _ _ _) => apply calm_each; intros ? ?
    | |- calm (from_option _ _ ?o) => destruct o; cbn [from_option]
    | |- calm (match ?x with _ => _ end) => destruct x eqn:?
    | |- calm (if ?x then _ else _) => destruct x eqn:?
    | |- calm (let _ := _ in _) => cbv zeta
    | H : ?m = Panic |- calm Panic => exfalso; revert H; change (calm m)
    end ].

Section calm.
Context `{TkaCrypto}.

Lemma keyID_calm k : calm (keyID k).
Proof. unfold keyID. calm. Qed.
#[local] Hint Resolve keyID_calm : calm.
Lemma getKey_calm l id : calm (getKey l id).
Proof. induction l as [|k l IH]; cbn; calm. Qed.
Lemma GetKey_calm s id : calm (GetKey s id).
Proof. apply getKey_calm. Qed.
#[local] Hint Resolve GetKey_calm : calm.
Lemma keyStatic_calm k : calm (keyStaticValidate k).
Proof. unfold keyStaticValidate. calm. Qed.
#[local] Hint Resolve keyStatic_calm : calm.
Lemma checkpoint_calm s : calm (staticValidateCheckpoint s).
Proof. unfold staticValidateCheckpoint. calm. Qed.
#[local] Hint Resolve checkpoint_calm : calm.
Lemma static_calm a : calm (StaticValidate a).
Proof. unfold StaticValidate. calm. Qed.
#[local] Hint Resolve static_calm : calm.
Lemma verify_calm a s g : calm (aumVerify a s g).
Proof. unfold aumVerify, checkParent, signatureVerify. calm. Qed.
Lemma replace_calm l id k : calm (replaceKey l id k).
Proof. induction l as [|x l IH]; cbn; calm. Qed.
Lemma remove_calm l id : calm (removeKey l id).
Proof. induction l as [|x l IH]; cbn; calm. Qed.
#[local] Hint Resolve replace_calm remove_calm : calm.
Lemma apply_calm s u : calm (applyVerifiedAUM s u).
Proof. unfold applyVerifiedAUM. calm. Qed.
#[local] Hint Resolve verify_calm apply_calm : calm.

(** ** Over a storage with an oldest message *)
Context (M : AUM → Prop) (MU : Universe M) (g r : AUM).
Section stored.
Context (c : Mem) (ord : list AUM) (HI : Inv M g r c ord) (small : (length ord ≤ maxScanIterations)%nat).

Lemma stateAt_calm h : calm (computeStateAt c maxScanIterations h).
Proof.
  destruct (aums c !! h) as [x|] eqn:E; [|by rewrite computeStateAt_missing by done]. pose proof (so_hash _ (iv_store _ _ _ _ _ HI) _ _ E) as <-.
  destruct (computeStateAt_total M g r c ord HI maxScanIterations x) as (s & -> & _); [by apply HI|done|done].
Qed.
#[local] Hint Resolve stateAt_calm : calm.
Lemma informOne_calm x u : calm (informOne c x u).
Proof. unfold informOne. calm. Qed.
#[local] Hint Resolve informOne_calm : calm.
Lemma informLoop_calm x us : calm (informLoop c x us).
Proof. revert x. induction us as [|u us IH]; intros x; cbn [informLoop]; calm. Qed.
Lemma headLoop_calm fuel rh x : calm (headLoop fuel c rh x).
Proof. revert x. induction fuel as [|fuel IH]; intros x; cbn [headLoop]; [done|]. unfold memAUM. destruct (aums c !! x); cbn; calm. Qed.
Lemma offerLoop_calm fuel i k old x acc : calm (offerLoop fuel i k c old x acc).
Proof. revert i k x acc. induction fuel as [|fuel IH]; intros i k x acc; cbn [offerLoop]; [done|]. unfold memAUM. destruct (aums c !! x); cbn; calm. Qed.
(** The walk from a stored message with its state. *)
Lemma forward_calm h s dn : computeStateAt c maxScanIterations h = Ok s → calm (fastForward c maxScanIterations s dn).
Proof.
  intros HS. destruct (aums c !! h) as [x|] eqn:E; [|by rewrite computeStateAt_missing in HS by done]. pose proof (so_hash _ (iv_store _ _ _ _ _ HI) _ _ E) as <-.
  assert (x ∈ ord) as Hx by by apply HI. destruct (computeStateAt_total M g r c ord HI maxScanIterations x) as (s' & HS' & HSt); [done|done|]. rewrite HS in HS'. injection HS' as <-.
  unfold fastForward, fastForwardWithAdvancer. rewrite (state_last _ _ _ (iv_store _ _ _ _ _ HI) HSt), (read _ _ _ _ _ HI x Hx). cbn [wrapErr mbind res_bind].
  apply list_elem_of_lookup in Hx as [i Hi]. destruct (walkUntil_spec M g r c ord HI maxScanIterations dn x s [] i Hi ltac:(lia) HSt) as (y & u & v & -> & _). done.
Qed.
Lemma tailLoop_calm h l : calm (tailLoop c h l).
Proof.
  induction l as [|a l IH]; cbn [tailLoop]; [done|]. rewrite sync_limit. destruct (computeStateAt c maxScanIterations a) as [s|e|] eqn:E; [|by destruct e|by destruct (stateAt_calm a)].
  apply calm_bind; [by eapply forward_calm|]. intros [[e t] v] _. by case_decide.
Qed.
Lemma offer_calm a h : Head a = Ok h → calm (syncOffer a c).
Proof. intros Hh. unfold syncOffer. generalize maxSyncHeadIntersectionIter as n. intros n. rewrite Hh. apply calm_bind; [done|]. intros x _. apply calm_bind; [apply offerLoop_calm|done]. Qed.
Lemma intersection_calm lo ro : calm (computeSyncIntersection c lo ro).
Proof.
  unfold computeSyncIntersection. generalize maxSyncHeadIntersectionIter as n. intros n. case_decide; [done|].
  apply calm_bind; [unfold memAUM; destruct (aums c !! soHead ro); [apply headLoop_calm|done]|]. intros [] _; [done|apply tailLoop_calm].
Qed.
Lemma missing_calm a ro h : Head a = Ok h → calm (MissingAUMs a c ro).
Proof.
  intros Hh. unfold MissingAUMs. apply calm_bind; [by eapply calm_wrap, offer_calm|]. intros lo _. apply calm_bind; [apply calm_wrap, intersection_calm|]. intros [|x|x] _; [done|..].
  all: rewrite sync_limit; apply calm_bind; [apply stateAt_calm|]; intros s Hs; apply calm_bind; [by eapply forward_calm|]; by intros [[e t] v] _.
Qed.
End stored.

Lemma inform_calm now pk c a ord us c' a' res : authAt M g r pk c a → Inv M g r c ord → (size (aums c) + length us ≤ maxScanIterations)%nat → Forall M us →
  Inform now c a us = (c', a', res) → calm res ∧ (size (aums c') ≤ size (aums c) + length us)%nat.
Proof.
  intros HA HI Hsz HM HR. pose proof HA as [_ _ Hh HS _]. pose proof (inv_size _ _ _ _ _ HI) as Hlen. unfold Inform, InformIdempotent, Head in HR.
  rewrite (state_last _ _ _ (iv_store _ _ _ _ _ HI) HS) in HR. destruct (last us) as [lu|]; [|by simplify_eq; split; [done|lia]].
  pose proof (informLoop_calm c ord HI ltac:(lia) (mkInform {[Hash (auHead a) := auState a]} [] (Hash (auHead a)) true) us) as HL.
  pose proof (inform_start M g r now c a us ord HI Hh HS) as HII.
  destruct (informLoop c _ us) as [x|e|] eqn:Hx; [|by simplify_eq; split; [done|lia]|done].
  assert (InformInv M g r now c a us us x) as [[ord' HI'] _ _ _ _] by (eapply (inform_loop M MU g r now c a us us []); [apply HI|done|done|exact HII|exact Hx]).
  pose proof (informLoop_commits _ _ _ _ Hx) as Hcm. cbn [toCommit app] in Hcm. set (d := CommitVerifiedAUMs now (toCommit x) c) in *.
  assert (size (aums d) ≤ size (aums c) + length us)%nat as Hd.
  { unfold d. etransitivity; [apply commit_size|]. rewrite Hcm. pose proof (length_filter (λ u, aums c !! Hash u = None) us). lia. }
  destruct (isHeadChain x); [by simplify_eq|].
  destruct (recompute M g r d ord' (Some (Hash (oldestAncestor a))) maxScanIterations scan_pos HI') as (e & t & v & _ & HC); [pose proof (inv_size _ _ _ _ _ HI'); lia|].
  rewrite HC in HR. cbn in HR. by simplify_eq.
Qed.
End calm.
