(* ===== verification/TkaRunsThms.v ===== *)
(** * The key authority is rooted and converges

    Trust changes only by messages that are signed with trusted keys, from the bootstrap
    message on; the set of stored messages alone determines the authority, so that a
    restart and any other order of arrival give the same; compaction takes nothing away
    that counts; and two nodes that exchange what they miss agree. *)

From stdpp Require Import base gmap sets list strings relations.
From S2P Require Import Prelude GoStd Bytes Tka TkaChain TkaThms TkaChainThms TkaPickThms TkaCompact TkaCompactThms TkaPurgeThms TkaOfferThms TkaSyncThms.

#[local] Opaque maxSyncIter maxScanIterations maxSyncHeadIntersectionIter.

Section runs.
Context `{TkaCrypto} (M : AUM → Prop) (MU : Universe M) (g : AUM).

(** ** Runs of a node: the bootstrap, updates with whatever result, restarts and compactions

    No more than [peak] messages were ever stored. *)
Inductive TkaRuns : nat → Mem → Authority → Prop :=
  | runs_bootstrap now c a : M g → Bootstrap now ChonkMem g = (c, Ok a) → TkaRuns 1 c a
  | runs_inform now pk c a us c' a' r :
      TkaRuns pk c a → Forall M us → Inform now c a us = (c', a', r) → TkaRuns (pk `max` size (aums c')) c' a'
  | runs_open pk c a a' : TkaRuns pk c a → Open c = Ok a' → TkaRuns pk c a'
  | runs_compact (order : MapOrder) now pk c a opts c' a' r : TkaRuns pk c a → authorityCompact now c a opts = (c', a', r) → TkaRuns pk c' a'.

(** Options that are not set change nothing. *)
Lemma compact_unset {order : MapOrder} now c a opts c' a' r : authorityCompact now c a opts = (c', a', r) → MinChain opts = 0 ∨ MinAge opts = 0 →
  c' = c ∧ a' = a ∧ ∃ e, r = Err e.
Proof.
  unfold authorityCompact, chonkCompact. intros HR Hz. destruct (MinChain opts =? 0) eqn:E1; [injection HR as <- <- <-; eauto|].
  destruct (MinAge opts =? 0) eqn:E2; [injection HR as <- <- <-; eauto|]. apply Z.eqb_neq in E1, E2. by destruct Hz.
Qed.

Lemma runs_ok pk c a : TkaRuns pk c a → ∃ r, authAt M g r pk c a.
Proof.
  induction 1 as [now c a Hm HB|now pk c a us c' a' r _ [x IH] HF HR|pk c a a' _ [x IH] HO|order now pk c a opts c' a' r _ [x IH] HR].
  - exists g. by eapply bootstrap_ok.
  - exists x. by eapply inform_ok.
  - exists x. destruct IH as [Hpk [ord HI] _ _ _]. unfold Open in HO. apply bind_ok in HO as (ch & HC%wrapErr_ok & [= <-]). by eapply recomputed_ok.
  - destruct (decide (MinChain opts = 0)) as [Hz|H1]; [destruct (compact_unset _ _ _ _ _ _ _ HR (or_introl Hz)) as (-> & -> & _); by exists x|].
    destruct (decide (MinAge opts = 0)) as [Hz|H2]; [destruct (compact_unset _ _ _ _ _ _ _ HR (or_intror Hz)) as (-> & -> & _); by exists x|].
    pose proof IH as [_ [ord HI] _ _ _]. pose proof (compact_step M g x pk now c a ord opts c' a' r IH HI HR H1 H2) as HO. destruct r; cbn in HO; [|by destruct HO as (-> & -> & _); exists x|done].
    destruct HO as (z & _ & HZ). by exists z.
Qed.
Lemma open_at pk c a r : authAt M g r pk c a → (pk ≤ scanLimit)%nat → Open c = Ok a.
Proof.
  intros [Hpk [ord HI] _ _ HC] Hsize. destruct (HC Hsize) as [Ho [v Hv]].
  destruct (recompute M g r c ord (lastActiveAncestor c) maxScanIterations scan_pos HI) as (e & t & v2 & HW & HCh);
    [pose proof (inv_size _ _ _ _ _ HI); unfold scanLimit in Hsize; lia|].
  unfold Open. rewrite HCh. cbn. rewrite Hv in HW. injection HW as <- <- _. rewrite <- Ho. by destruct a.
Qed.

(** C6: trust is rooted.  However a node came to its authority - by the bootstrap
    message, by any updates from anyone, accepted or refused, by restarts and by
    compactions - the state
    follows from the bootstrap message by messages each of which was signed with keys
    that were trusted at the time; it has at least one key, its keys are valid and
    differ, and the two identifiers of the tailnet are still those of the bootstrap. *)
Theorem authority_rooted pk c a : TkaRuns pk c a →
  Legit g (auState a) ∧ Head a = Ok (Hash (auHead a)) ∧
  Keys (auState a) ≠ [] ∧ NoDup (kPublic <$> Keys (auState a)) ∧ Forall keyValid (Keys (auState a)) ∧
  ∃ st, aState g = Some st ∧ StateID1 (auState a) = StateID1 st ∧ StateID2 (auState a) = StateID2 st.
Proof.
  intros HR. destruct (runs_ok _ _ _ HR) as [r [_ [ord HI] Hh HS _]]. destruct (inv_legit _ _ _ _ _ _ _ HI HS) as [HL _].
  destruct (legit_keys _ _ HL) as [[K1 K2 K3] HID]. split_and!; try done. unfold Head. by rewrite (state_last _ _ _ (iv_store _ _ _ _ _ HI) HS).
Qed.

(** C26: a restart changes nothing.  If no more than 2000 messages were ever stored,
    opening the storage gives back the authority that the running node has, be it
    computed by the shortcut for updates that extend the head or from the start. *)
Theorem restart_restores pk c a : TkaRuns pk c a → (pk ≤ scanLimit)%nat → Open c = Ok a.
Proof. intros HR Hsize. destruct (runs_ok _ _ _ HR) as [r HA]. by eapply open_at. Qed.

(** C7: nodes converge.  Two nodes with the same bootstrap message that have stored the
    same messages - in whatever order and batches they came, through whatever forks and
    restarts - have the same head and trust the same keys, if neither ever stored more
    than 2000 messages. *)
Theorem authorities_converge pk1 c1 a1 pk2 c2 a2 : TkaRuns pk1 c1 a1 → TkaRuns pk2 c2 a2 → aums c1 = aums c2 →
  (pk1 ≤ scanLimit)%nat → (pk2 ≤ scanLimit)%nat → a1 = a2.
Proof.
  intros R1 R2 E L1 L2. destruct (runs_ok _ _ _ R1) as [r1 [_ [o1 I1] _ _ C1]], (runs_ok _ _ _ R2) as [r2 [_ [o2 I2] _ _ C2]].
  assert (r1 = r2) as <- by by eapply inv_root_unique.
  destruct (C1 L1) as [O1 [v1 W1]], (C2 L2) as [O2 [v2 W2]].
  pose proof (walk_perm c1 c2 _ _ _ _ _ _ (iv_store _ _ _ _ _ I1) (iv_store _ _ _ _ _ I2) E W1 W2) as EW. injection EW as Eh Es _.
  destruct a1 as [h1 x1 s1], a2 as [h2 x2 s2]. cbn [auHead auState oldestAncestor] in *. congruence.
Qed.

(** C9: compaction keeps what counts, with both its options set and on a node that never
    stored more than 2000 messages.  It leaves the head and the trusted keys as they are
    and adds no message; a checkpoint is the oldest message and the parent of every other
    stored message is stored; the young messages and the last [MinChain] ones of the
    active chain are kept; and a restart from what is left gives the same authority.  A
    compaction that is refused changes nothing at all, and it is refused only while the
    oldest message is young, and not a genesis or with others around that are not young. *)
Theorem compaction_preserves {order : MapOrder} pk now c a opts c' a' r : TkaRuns pk c a → (pk ≤ scanLimit)%nat →
  MinChain opts ≠ 0 → MinAge opts ≠ 0 → authorityCompact now c a opts = (c', a', r) →
  match r with
  | Ok _ => ∃ z, compaction now opts c a c' a' z ∧ Open c' = Ok a'
  | Err _ => c' = c ∧ a' = a ∧ young c (now - MinAge opts) (Hash (oldestAncestor a)) ∧
      (Parent (oldestAncestor a) ≠ None ∨ ∃ x, aums c !! Hash x = Some x ∧ ¬ young c (now - MinAge opts) (Hash x))
  | Panic => False
  end.
Proof.
  intros HR Hsize H1 H2 HC. destruct (runs_ok _ _ _ HR) as [x HA]. pose proof HA as [_ [ord HI] _ _ HO]. destruct (HO Hsize) as [-> _].
  pose proof (compact_step M g x pk now c a ord opts c' a' r HA HI HC H1 H2) as HS. destruct r; cbn in HS; [|destruct HS as (-> & -> & HT)|done].
  - destruct HS as (z & HZ & HB). exists z. split; [done|]. by eapply open_at.
  - unfold tidy in HT. destruct (decide (young c (now - MinAge opts) (Hash x))) as [HY|HY]; [|by destruct HT]. split_and!; [done|done|done|].
    destruct (decide (Parent x = None)) as [HP|HP]; [right|by left]. destruct (decide (Forall (λ u, young c (now - MinAge opts) (Hash u)) ord)) as [HF|HF].
    + destruct HT. intros _. split; [done|]. by apply Forall_forall.
    + apply not_Forall_Exists, Exists_exists in HF as (u & Hu & Hn); [|apply _]. exists u. split; [by apply HI|done].
Qed.

(** C8: two nodes that exchange what they miss agree.  Each makes an offer, each answers
    the offer of the other with what the other misses, and each applies what it gets; all
    six steps succeed and both end with the same head and the same trusted keys, however
    far their chains had gone apart.  Both have the same oldest message, hashes are of 32
    bytes, and together they have no more than 2000 messages. *)
Theorem sync_converges pk1 c1 a1 pk2 c2 a2 now1 now2 : TkaRuns pk1 c1 a1 → TkaRuns pk2 c2 a2 → oldestAncestor a1 = oldestAncestor a2 →
  (pk1 ≤ scanLimit)%nat → (pk2 ≤ scanLimit)%nat → (size (aums c1) + size (aums c2) ≤ scanLimit)%nat →
  (∀ u, length (Hash u) = 32%nat) → (∀ p, PrevAUMHash (oldestAncestor a1) = Some p → length p = 32%nat) →
  ∃ o1 o2 l1 l2 c1' c2' a', syncOffer a1 c1 = Ok o1 ∧ syncOffer a2 c2 = Ok o2 ∧ MissingAUMs a1 c1 o2 = Ok l1 ∧ MissingAUMs a2 c2 o1 = Ok l2 ∧
    receive now1 c1 a1 l2 = (c1', a', Ok ()) ∧ receive now2 c2 a2 l1 = (c2', a', Ok ()).
Proof.
  intros R1 R2 E L1 L2 HS HH HP. destruct (runs_ok _ _ _ R1) as [r A1], (runs_ok _ _ _ R2) as [r2 A2].
  destruct (ao_canon _ _ _ _ _ _ A1 L1) as [O1 _], (ao_canon _ _ _ _ _ _ A2 L2) as [O2 _]. assert (r2 = r) as -> by congruence.
  rewrite O1 in HP. destruct (exchanged M MU g r HH HP now1 now2 pk1 c1 a1 pk2 c2 a2) as (o1 & o2 & l1 & l2 & c1' & c2' & a' & ? & ? & ? & ? & ? & ? & _); [done..|].
  by exists o1, o2, l1, l2, c1', c2', a'.
Qed.
End runs.

(** ** Two nodes and a fork *)
Definition exCode (a : AUM) : bytes :=
  [match MessageKind a with AUMCheckpoint => 5 | AUMAddKey => 1 | AUMNoOp => 3 | _ => 0 end;
   from_option (λ k, hd 0 (kPublic k)) 0 (aKey a); foldr Z.add 0 (default [] (PrevAUMHash a)) mod 256].
#[local] Instance exChainCrypto : TkaCrypto := exCrypto exCode.
Definition exSign (priv : bytes) (a : AUM) : AUM := withSignatures [mkSignature (hashArray priv) (ed25519Sign priv (aumSigHash a))] a.
Definition exG : AUM := exSign [9] (mkAUM AUMCheckpoint None None None (Some (mkState None [replicate 32 7] [exTrusted] 1 2)) None None []).
Definition exU1 : AUM := exSign [9] (mkAUM AUMAddKey (Some (Hash exG)) (Some (mkKey Key25519 2 (hashArray [8]) None)) None None None None []).
Definition exU2 : AUM := exSign [9] (mkAUM AUMNoOp (Some (Hash exG)) None None None None None []).
Definition exCk : AUM :=
  exSign [9] (mkAUM AUMCheckpoint (Some (Hash exU1)) None None (Some (mkState None [replicate 32 7] [exTrusted; mkKey Key25519 2 (hashArray [8]) None] 1 2)) None None []).
Definition exU3 : AUM := exSign [9] (mkAUM AUMNoOp (Some (Hash exCk)) None None None None None []).
Definition exBoot : Mem * tres Authority := Bootstrap 0 ChonkMem exG.
Definition exA0 : Authority := match exBoot.2 with Ok a => a | _ => mkAuthority exG exG zeroTkaState end.
(** One node gets the branches one after the other, the other in one batch. *)
Definition exFirst : Mem * Authority * tres () := Inform 1 exBoot.1 exA0 [exU1].
Definition exBoth : Mem * Authority * tres () := Inform 2 exFirst.1.1 exFirst.1.2 [exU2].
Definition exBatch : Mem * Authority * tres () := Inform 1 exBoot.1 exA0 [exU2; exU1].

Lemma triple_eta {A B C} (x : A * B * C) : x = (x.1.1, x.1.2, x.2).
Proof. by destruct x as [[? ?] ?]. Qed.
(** The messages of the example. *)
Definition exAll : list AUM := [exG; exU1; exU2; exCk; exU3].
Definition exM (u : AUM) : Prop := u ∈ exAll.
Definition exRank (u : AUM) : nat :=
  match PrevAUMHash u with None => 0 | Some h => if decide (h = Hash exG) then 1 else if decide (h = Hash exCk) then 3 else 2 end.
Lemma exUniverse : Universe exM.
Proof.
  split.
  - intros u v Hu Hv. unfold exM, exAll in *. rewrite !elem_of_cons, elem_of_nil in Hu, Hv.
    destruct Hu as [->|[->|[->|[->|[->|[]]]]]], Hv as [->|[->|[->|[->|[->|[]]]]]]; try (intros _; reflexivity); intros E; vm_compute in E; discriminate E.
  - exists exRank. intros u v Hu Hv. unfold exM, exAll in *. rewrite !elem_of_cons, elem_of_nil in Hu, Hv.
    destruct Hu as [->|[->|[->|[->|[->|[]]]]]], Hv as [->|[->|[->|[->|[->|[]]]]]]; intros E; try (vm_compute in E; discriminate E); vm_compute; lia.
Qed.
Lemma exIn (us : list AUM) : us ⊆ exAll → Forall exM us.
Proof. intros Hus. apply Forall_forall. intros u Hu. by apply Hus. Qed.
Lemma exRunBoot : TkaRuns exM exG 1 exBoot.1 exA0.
Proof. eapply (runs_bootstrap _ exG 0); [by left|vm_compute; reflexivity]. Qed.
Lemma exRunFirst : TkaRuns exM exG 2 exFirst.1.1 exFirst.1.2.
Proof.
  replace 2%nat with (1 `max` size (aums exFirst.1.1))%nat by (vm_compute; reflexivity).
  apply (runs_inform exM exG 1 1 exBoot.1 exA0 [exU1] _ _ exFirst.2); [apply exRunBoot|apply exIn; unfold exAll; set_solver|exact (triple_eta exFirst)].
Qed.
Lemma exRunBoth : TkaRuns exM exG 3 exBoth.1.1 exBoth.1.2.
Proof.
  replace 3%nat with (2 `max` size (aums exBoth.1.1))%nat by (vm_compute; reflexivity).
  apply (runs_inform exM exG 2 2 exFirst.1.1 exFirst.1.2 [exU2] _ _ exBoth.2); [apply exRunFirst|apply exIn; unfold exAll; set_solver|exact (triple_eta exBoth)].
Qed.
Lemma exRunBatch : TkaRuns exM exG 3 exBatch.1.1 exBatch.1.2.
Proof.
  replace 3%nat with (1 `max` size (aums exBatch.1.1))%nat by (vm_compute; reflexivity).
  apply (runs_inform exM exG 1 1 exBoot.1 exA0 [exU2; exU1] _ _ exBatch.2); [apply exRunBoot|apply exIn; unfold exAll; set_solver|exact (triple_eta exBatch)].
Qed.

Lemma authority_rooted_witness : exBoth.2 = Ok () ∧ Legit exG (auState exBoth.1.2) ∧ Keys (auState exBoth.1.2) ≠ [].
Proof.
  split; [vm_compute; reflexivity|]. destruct (authority_rooted exM exUniverse exG _ _ _ exRunBoth) as (HL & _ & HK & _). by split.
Defined.
Lemma restart_restores_witness : Open exBoth.1.1 = Ok exBoth.1.2.
Proof. apply (restart_restores exM exUniverse exG _ _ _ exRunBoth). apply Nat.leb_le. vm_compute. reflexivity. Defined.
Lemma authorities_converge_witness : size (aums exBatch.1.1) = 3%nat ∧ exBoth.1.2 = exBatch.1.2.
Proof.
  split; [vm_compute; reflexivity|].
  apply (authorities_converge exM exUniverse exG _ _ _ _ _ _ exRunBoth exRunBatch); [vm_compute; reflexivity|apply Nat.leb_le; vm_compute; reflexivity..].
Defined.

#[local] Instance exOrder : MapOrder := {| ranges v := (map_to_list v).*1; ranges_perm v := reflexivity _ |}.
Definition exLong : Mem * Authority * tres () := Inform 1 exBoot.1 exA0 [exU1; exCk; exU3].
Definition exOpts : CompactionOptions := mkCompaction 1 10.
Definition exShort : Mem * Authority * tres () := authorityCompact 1000 exLong.1.1 exLong.1.2 exOpts.
Lemma exRunLong : TkaRuns exM exG 4 exLong.1.1 exLong.1.2.
Proof.
  replace 4%nat with (1 `max` size (aums exLong.1.1))%nat by (vm_compute; reflexivity).
  apply (runs_inform exM exG 1 1 exBoot.1 exA0 [exU1; exCk; exU3] _ _ exLong.2); [apply exRunBoot|apply exIn; unfold exAll; set_solver|exact (triple_eta exLong)].
Qed.
Definition exSecond : Mem * Authority * tres () := Inform 1 exBoot.1 exA0 [exU2].
Lemma exRunSecond : TkaRuns exM exG 2 exSecond.1.1 exSecond.1.2.
Proof.
  replace 2%nat with (1 `max` size (aums exSecond.1.1))%nat by (vm_compute; reflexivity).
  apply (runs_inform exM exG 1 1 exBoot.1 exA0 [exU2] _ _ exSecond.2); [apply exRunBoot|apply exIn; unfold exAll; set_solver|exact (triple_eta exSecond)].
Qed.
Lemma exHashLen u : length (Hash u) = 32%nat.
Proof. exact (be_bytes_length 32 _). Qed.

Lemma compaction_preserves_witness : exShort.2 = Ok () ∧ size (aums exLong.1.1) = 4%nat ∧ size (aums exShort.1.1) = 2%nat ∧ Open exShort.1.1 = Ok exShort.1.2.
Proof.
  do 3 (split; [vm_compute; reflexivity|]).
  assert (exShort.2 = Ok ()) as E by (vm_compute; reflexivity).
  pose proof (compaction_preserves exM exUniverse exG 4 1000 exLong.1.1 exLong.1.2 exOpts exShort.1.1 exShort.1.2 exShort.2 exRunLong
    ltac:(apply Nat.leb_le; vm_compute; reflexivity) ltac:(done) ltac:(done) (triple_eta exShort)) as HC.
  rewrite E in HC. destruct HC as (z & _ & HO). exact HO.
Defined.
Lemma sync_converges_witness : auHead exLong.1.2 ≠ auHead exSecond.1.2 ∧
  ∃ o1 o2 l1 l2 c1' c2' a', syncOffer exLong.1.2 exLong.1.1 = Ok o1 ∧ syncOffer exSecond.1.2 exSecond.1.1 = Ok o2 ∧
    MissingAUMs exLong.1.2 exLong.1.1 o2 = Ok l1 ∧ MissingAUMs exSecond.1.2 exSecond.1.1 o1 = Ok l2 ∧
    receive 5 exLong.1.1 exLong.1.2 l2 = (c1', a', Ok ()) ∧ receive 6 exSecond.1.1 exSecond.1.2 l1 = (c2', a', Ok ()).
Proof.
  split; [by vm_compute|].
  apply (sync_converges exM exUniverse exG 4 _ _ 2 _ _ 5 6 exRunLong exRunSecond); [vm_compute; reflexivity|apply Nat.leb_le; vm_compute; reflexivity..|apply exHashLen|by vm_compute].
Defined.
