(* ===== verification/TkaBackendThms.v ===== *)
(** * The tailnet lock in the backend: theorems

    Whatever the control plane answers, it cannot make a node panic, give up its lock
    without a disablement secret or trust keys that do not go back to the bootstrap; with
    a control plane that follows the protocol a synchronization ends in agreement; and
    signatures that a node makes are accepted. *)

From stdpp Require Import base gmap sets list strings relations pretty.
From S2P Require Import Prelude GoStd Bytes Tka TkaChain TkaText TkaThms TkaChainThms TkaPickThms TkaCompact TkaCompactThms TkaPurgeThms TkaOfferThms TkaSyncThms TkaRunsThms TkaRecovery TkaBackend.

#[local] Opaque maxSyncIter maxScanIterations maxSyncHeadIntersectionIter.

(** ** Specifications: [Q] holds with a result, [E] with an error, and no panic happens *)
Section spec.
Context {W : Type}.
Definition spec {A} (P : Backend W → Prop) (m : LB W A) (Q : A → Backend W → Prop) (E : Backend W → Prop) : Prop :=
  ∀ b, P b → match m b with (b', Ok x) => Q x b' | (b', Err _) => E b' | (_, Panic) => False end.
Lemma spec_bind {A B} P (m : LB W A) (k : A → LB W B) Q R E : spec P m Q E → (∀ x, spec (Q x) (k x) R E) → spec P (m ≫= k) R E.
Proof.
  intros Hm Hk b HP. specialize (Hm b HP). unfold mbind, LB_bind. destruct (m b) as [b' [x|e|]]; [|done|done]. by apply Hk.
Qed.
Lemma spec_ret {A} (P : Backend W → Prop) (x : A) Q E : (∀ b, P b → Q x b) → spec P (mret x) Q E.
Proof. intros HQ b HP. by apply HQ. Qed.
Lemma spec_lift {A} (P : Backend W → Prop) (r : tres A) (Q : A → Backend W → Prop) (E : Backend W → Prop) :
  (∀ b, P b → calm r) → (∀ b x, P b → r = Ok x → Q x b) → (∀ b, P b → E b) → spec P (lift r) Q E.
Proof. intros HC HQ HE b HP. specialize (HC b HP). cbn. destruct r; [by apply HQ|by apply HE|done]. Qed.
Lemma spec_wrap {A} P msg (m : LB W A) Q E : spec P m Q E → spec P (wrap msg m) Q E.
Proof. intros Hm b HP. specialize (Hm b HP). unfold wrap. by destruct (m b) as [b' []]. Qed.
Lemma spec_attempt {A} P (m : LB W A) Q E : spec P m (λ x, Q (Some x)) (Q None) → spec P (attempt m) Q E.
Proof. intros Hm b HP. specialize (Hm b HP). unfold attempt. by destruct (m b) as [b' []]. Qed.
Lemma spec_mono {A} (P P' : Backend W → Prop) (m : LB W A) (Q Q' : A → Backend W → Prop) (E E' : Backend W → Prop) :
  spec P' m Q' E' → (∀ b, P b → P' b) → (∀ x b, Q' x b → Q x b) → (∀ b, E' b → E b) → spec P m Q E.
Proof. intros Hm HP HQ HE b Hb. specialize (Hm b (HP b Hb)). destruct (m b) as [b' []]; auto. Qed.
Lemma spec_sub {A} (P P' : Backend W → Prop) (m : LB W A) Q E : spec P' m Q E → (∀ b, P b → P' b) → spec P m Q E.
Proof. intros Hm HP b Hb. by apply Hm, HP. Qed.
Lemma spec_pre {A} (P : Backend W → Prop) (m : LB W A) Q E : (∀ b, P b → spec (eq b) m Q E) → spec P m Q E.
Proof. intros Hm b HP. by apply (Hm b HP). Qed.
(** What others do while a call is under way: the lock is left alone. *)
Definition quiet {A} (m : LB W A) : Prop := ∀ b, bTka (m b).1 = bTka b ∧ (m b).2 ≠ Panic.
Lemma spec_quiet {A} (P : Backend W → Prop) (m : LB W A) (Q : A → Backend W → Prop) (E : Backend W → Prop) : quiet m → (∀ b b' x, P b → bTka b' = bTka b → (m b).2 = Ok x → Q x b') →
  (∀ b b', P b → bTka b' = bTka b → E b') → spec P m Q E.
Proof.
  intros Hm HQ HE b HP. specialize (Hm b) as [HT HN]. pose proof (λ b' x, HQ b b' x HP) as HQ'. destruct (m b) as [b' [x|e|]]; cbn in *; [by apply HQ'|by eapply HE|done].
Qed.
Lemma spec_theTka (P : tkaState → Prop) (E : Backend W → Prop) : spec (λ b, ∃ t, bTka b = Some t ∧ P t) theTka (λ t b, bTka b = Some t ∧ P t) E.
Proof. intros b (t & Ht & HP). unfold theTka. by rewrite Ht. Qed.
End spec.

(** ** Synchronization with any control plane *)
Section control.
Context `{TkaCrypto} `{MapOrder} `{AUMCodec} {W : Type} `{ControlPlane W} (M : AUM → Prop) (MU : Universe M) (g : AUM) (N : nat) (b0 : Backend W).
Hypothesis boot_quiet : ∀ q, quiet (rpcBootstrap q).
Hypothesis offer_quiet : ∀ q, quiet (rpcSyncOffer q).
Hypothesis send_quiet : ∀ q, quiet (rpcSyncSend q).

(** The states in which the control plane is asked for what is missing: the first one, and
    what requests for a bootstrap leave of it. *)
Inductive asked : Backend W → Prop :=
  | asked_first : asked b0
  | asked_boot q b : asked b → asked (rpcBootstrap q b).1.

(** The answer has at most [N] messages, and those it encodes are of [M]. *)
Definition fits (resp : TKASyncOfferResponse) : Prop :=
  (length (opMissing resp) ≤ N)%nat ∧ ∀ x u, x ∈ opMissing resp → unserializeAUM x = Some u → M u.
Hypothesis answers : ∀ q b resp, asked b → (rpcSyncOffer q b).2 = Ok resp → fits resp.

(** The lock is on, rooted in [g], and there is room for [n] messages. *)
Definition rooted (n : nat) (t : tkaState) : Prop :=
  ∃ pk, TkaRuns M g pk (tkStorage t) (tkAuthority t) ∧ (pk ≤ scanLimit)%nat ∧ (size (aums (tkStorage t)) + n ≤ scanLimit)%nat.
Definition lockedAs (n : nat) (b : Backend W) : Prop := ∃ t, bTka b = Some t ∧ rooted n t.

Lemma rooted_at n t : rooted n t → ∃ r pk ord, authAt M g r pk (tkStorage t) (tkAuthority t) ∧ Inv M g r (tkStorage t) ord ∧
  (length ord ≤ maxScanIterations)%nat ∧ ∃ h, Head (tkAuthority t) = Ok h.
Proof.
  intros (pk & HR & Hpk & Hsz). destruct (runs_ok M MU g _ _ _ HR) as [r HA]. pose proof HA as [_ [ord HI] _ HS _]. exists r, pk, ord.
  pose proof (inv_size _ _ _ _ _ HI). unfold scanLimit in *. split_and!; [done|done|lia|]. unfold Head. rewrite (state_last _ _ _ (iv_store _ _ _ _ _ HI) HS). by eexists.
Qed.
Lemma rooted_head n t : rooted n t → calm (headOf t).
Proof. intros (_ & _ & _ & _ & _ & _ & h & Hh)%rooted_at. unfold headOf. by rewrite Hh. Qed.
Lemma rooted_weaken n m t : rooted n t → (m ≤ n)%nat → rooted m t.
Proof. intros (pk & HR & Hpk & Hsz) Hm. exists pk. split_and!; [done|done|lia]. Qed.

Lemma unserializeAll_calm l : calm (unserializeAll l).
Proof. induction l as [|a l IH]; cbn [unserializeAll]; calm. Qed.
Lemma unserializeAll_known l us : (∀ x u, x ∈ l → unserializeAUM x = Some u → M u) → unserializeAll l = Ok us → Forall M us ∧ length us = length l.
Proof.
  intros Hk. revert us. induction l as [|a l IH]; intros us; cbn [unserializeAll]; [intros [= <-]; by split|].
  intros (u & Hu & (r & Hr & [= <-])%bind_ok)%bind_ok. destruct (IH (λ x u Hx, Hk x u (list_elem_of_further _ _ _ Hx)) r Hr) as [HF HL].
  split; [|cbn; lia]. constructor; [|done]. destruct (unserializeAUM a) eqn:E; [|done]. injection Hu as <-. eapply Hk; [left|done].
Qed.
Lemma informLocked_spec us : Forall M us → (length us ≤ N)%nat → spec (lockedAs N) (informLocked us) (λ _, lockedAs 0) (lockedAs 0).
Proof.
  intros HM HN b (t & Ht & HR). unfold informLocked. rewrite Ht. destruct (Inform _ _ _ us) as [[c' a'] res] eqn:EI.
  destruct (rooted_at _ _ HR) as (r & pk' & ord & HA & HI & _ & _). destruct HR as (pk & HR & Hpk & Hsz). unfold scanLimit in *.
  destruct (inform_calm M MU g r (bNow b) pk' _ _ ord us c' a' res HA HI ltac:(lia) HM EI) as [Hc Hsz'].
  assert (lockedAs 0 (setTka (Some (mkTka (tkProfile t) a' c')) b)) as HL; [|by destruct res].
  eexists. split; [done|]. exists (pk `max` size (aums c'))%nat. unfold scanLimit. split_and!; [by eapply runs_inform|cbn in *; lia|cbn in *; lia].
Qed.
Lemma compactTka_spec opts : spec (lockedAs 0) (compactTka opts) (λ _, lockedAs 0) (lockedAs 0).
Proof.
  intros b (t & Ht & HR). unfold compactTka. rewrite Ht. destruct (authorityCompact _ _ _ opts) as [[c' a'] res] eqn:EC. destruct (rooted_at _ _ HR) as (r & pk' & ord & HA & HI & _ & _).
  destruct HR as (pk & HR & Hpk & Hsz). assert (TkaRuns M g pk c' a') as HR' by by eapply runs_compact.
  assert (lockedAs 0 (setTka (Some (mkTka (tkProfile t) a' c')) b)) as HL.
  { eexists. split; [done|]. exists pk. destruct (runs_ok M MU g _ _ _ HR') as [r' [Hp _ _ _ _]]. split_and!; [done|done|cbn; lia]. }
  destruct (decide (MinChain opts = 0 ∨ MinAge opts = 0)) as [Hz|Hz]; [destruct (compact_unset _ _ _ _ _ _ _ EC Hz) as (_ & _ & e & ->); done|].
  pose proof (compact_step M g r pk' (bNow b) _ _ ord opts c' a' res HA HI EC ltac:(tauto) ltac:(tauto)) as HO. by destruct res.
Qed.

Local Abbreviation at_ n t := (λ b : Backend W, bTka b = Some t ∧ rooted n t).
Lemma at_locked n m t b : bTka b = Some t ∧ rooted n t → (m ≤ n)%nat → lockedAs m b.
Proof. intros [Ht HR] Hm. exists t. split; [done|]. by eapply rooted_weaken. Qed.
Lemma spec_head n t : spec (at_ n t) (lift (headOf t)) (λ _, at_ n t) (lockedAs 0).
Proof. apply spec_lift; [intros b [_ HR]; by eapply rooted_head|done|]. intros b Hb. eapply at_locked; [exact Hb|lia]. Qed.

(** After the offer: what is missing goes both ways. *)
Lemma sync_rest nk offer resp : fits resp → spec (lockedAs N) (tkaSyncMissing nk resp offer) (λ _, lockedAs 0) (lockedAs 0).
Proof.
  intros [HN Hk]. unfold tkaSyncMissing. apply (spec_bind _ _ _ (λ t, at_ N t)); [apply spec_theTka|]. intros t.
  assert (∀ b, (at_ N t) b → lockedAs 0 b) as HE by (intros b Hb; eapply at_locked; [exact Hb|lia]).
  apply (spec_bind _ _ _ (λ _, at_ N t)).
  { apply spec_lift; [|done|done]. intros b [_ HR]. destruct (rooted_at _ _ HR) as (r & pk & ord & HA & HI & Hs & h & Hh). apply calm_wrap. by eapply missing_calm. }
  intros toSend. apply (spec_bind _ _ _ (λ _, lockedAs 0)).
  { destruct (opMissing resp) as [|x l] eqn:El; [apply spec_ret; intros; auto|]. apply (spec_bind _ _ _ (λ us b, (at_ N t) b ∧ Forall M us ∧ (length us ≤ N)%nat)).
    - apply spec_lift; [intros; apply unserializeAll_calm| |done]. intros b us Hb Hus. destruct (unserializeAll_known _ _ Hk Hus) as [HF HL]. split_and!; try apply Hb; [done|]. by rewrite HL.
    - intros us. apply spec_wrap, spec_pre. intros b (Hb & HF & HL). eapply spec_mono; [by apply informLocked_spec| |done|done]. intros ? <-. by eapply at_locked. }
  intros _. apply (spec_bind _ _ _ (λ t b, bTka b = Some t ∧ rooted 0 t)); [apply spec_theTka|]. clear t HE. intros t. apply (spec_bind _ _ _ (λ _, at_ 0 t)); [apply spec_head|].
  intros head. apply (spec_bind _ _ _ (λ _, at_ 0 t)).
  { apply spec_wrap, spec_quiet; [apply send_quiet|intros b b' x [Hb HR] E _; split; [by rewrite E|done]|intros b b' [Hb HR] E; exists t; split; [by rewrite E|done]]. }
  intros sendResp. apply (spec_bind _ _ _ (λ _, at_ 0 t)).
  { apply spec_lift; [|done|intros b Hb; by eapply at_locked]. intros _ _. apply calm_wrap. unfold UnmarshalText. calm. }
  intros _. apply (spec_bind _ _ _ (λ t b, bTka b = Some t ∧ rooted 0 t)); [eapply spec_mono; [apply (spec_theTka (rooted 0) (lockedAs 0))|intros b [? ?]; by exists t|done|done]|].
  intros t'. apply (spec_bind _ _ _ (λ _, at_ 0 t')); [apply spec_head|]. intros _. apply spec_ret. intros b Hb. by eapply at_locked.
Qed.
Lemma toSyncOffer_calm h l : calm (ToSyncOffer h l).
Proof.
  unfold ToSyncOffer. apply calm_bind; [apply calm_wrap; unfold UnmarshalText; calm|]. intros x _. apply calm_bind; [|done].
  induction l as [|a l IH]; cbn [unmarshalAll]; [done|]. apply calm_bind; [apply calm_wrap; unfold UnmarshalText; calm|]. intros y _. by apply calm_bind.
Qed.
Lemma spec_at n t F E : spec (λ b, (at_ n t) b ∧ F b) theTka (λ t' b, t' = t ∧ (at_ n t) b ∧ F b) E.
Proof. intros b [[Hb HR] HF]. unfold theTka. rewrite Hb. done. Qed.
Lemma spec_our_head n t F (E : Backend W → Prop) : (∀ b, (at_ n t) b → E b) →
  spec (λ b, (at_ n t) b ∧ F b) (t ← theTka; lift (headOf t)) (λ h b, (at_ n t) b ∧ F b) E.
Proof.
  intros HE. apply (spec_bind _ _ _ _ _ _ (spec_at n t F E)). intros t'.
  apply spec_lift; [intros b (-> & [_ HR] & _); by eapply rooted_head|by intros b x [_ ?]|intros b (_ & ? & _); auto].
Qed.

(** The lock is [t], with room, and the control plane is asked. *)
Local Abbreviation ask_ t := (λ b : Backend W, (bTka b = Some t ∧ rooted N t) ∧ asked b).

Lemma tkaSyncLocked_spec nk t : spec (ask_ t) (tkaSyncLocked nk) (λ _, lockedAs 0) (lockedAs 0).
Proof.
  assert (∀ b, (at_ N t) b → lockedAs 0 b) as HE by (intros b Hb; eapply at_locked; [exact Hb|lia]).
  unfold tkaSyncLocked. apply (spec_bind _ _ _ _ _ _ (spec_at N t asked _)). intros t'.
  apply (spec_bind _ _ _ (λ _, ask_ t)).
  { apply spec_lift; [|by intros b x (_ & ? & ?)|intros b (_ & ? & _); auto]. intros b (-> & [_ HR] & _).
    destruct (rooted_at _ _ HR) as (r & pk & ord & HA & HI & Hs & h & Hh). apply calm_wrap. by eapply offer_calm. }
  intros offer. apply (spec_bind _ _ _ (λ resp b, (at_ N t) b ∧ fits resp)).
  { apply spec_wrap. unfold tkaDoSyncOffer. destruct (FromSyncOffer offer) as [h l]. apply spec_quiet; [apply offer_quiet| |].
    - intros b b' x [[Hb HR] HA] E Hx. split; [split; [by rewrite E|done]|by eapply answers].
    - intros b b' [[Hb HR] _] E. apply HE. split; [by rewrite E|done]. }
  intros resp. apply (spec_bind _ _ _ (λ _ b, (at_ N t) b ∧ fits resp)).
  { apply spec_lift; [intros _ _; apply calm_wrap, toSyncOffer_calm|done|intros b [Hb _]; auto]. }
  intros co. case_decide; [apply spec_ret; intros b [Hb _]; auto|]. apply spec_pre. intros b [Hb HL].
  apply (spec_sub _ (lockedAs N)); [by apply sync_rest|]. intros ? <-. by eapply at_locked.
Qed.

(** The control plane has sent the secret that disables the lock of [t]. *)
Definition secretSent (t : tkaState) : Prop :=
  ∃ q b resp, asked b ∧ (rpcBootstrap q b).2 = Ok resp ∧ ValidDisablement (tkAuthority t) (DisablementSecret resp) = true.
Definition keptOrDisabled (nm : lockInfo) (t : tkaState) (b : Backend W) : Prop :=
  lockedAs 0 b ∨ bTka b = None ∧ TKAEnabled nm = false ∧ secretSent t.

Lemma tkaSwitch_spec nm p nk t : TKAEnabled nm = false → spec (ask_ t) (tkaSwitch true nm p nk)
  (λ x b, x = (true, false) ∧ (ask_ t) b ∨ x = (false, false) ∧ bTka b = None ∧ secretSent t) (keptOrDisabled nm t).
Proof.
  intros Hoff. assert (∀ b, (at_ N t) b → keptOrDisabled nm t b) as HE by (intros b Hb; left; eapply at_locked; [exact Hb|lia]).
  unfold tkaSwitch. apply (spec_bind _ _ _ _ _ _ (spec_our_head N t asked _ HE)). intros h.
  apply (spec_bind _ _ _ (λ bs b, (ask_ t) b ∧ ∃ q b0, asked b0 ∧ (rpcBootstrap q b0).2 = Ok bs)).
  { apply spec_wrap. unfold tkaFetchBootstrap. intros b [[Hb HR] HA].
    match goal with |- context [rpcBootstrap ?q b] => pose proof (boot_quiet q b) as Hq; pose proof (asked_boot q b HA) as HA' end.
    destruct (rpcBootstrap _ b) as [b' [x|e|]] eqn:Ex; destruct Hq as [Eq Hq]; cbn [fst snd] in *.
    - split; [split; [split; [by rewrite Eq|done]|done]|]. eexists _, b. by rewrite Ex.
    - apply HE. split; [by rewrite Eq|done].
    - done. }
  intros bs. rewrite Hoff. cbn [andb]. apply (spec_bind _ _ _ (λ r b, match r with Some _ => bTka b = None ∧ secretSent t | None => (ask_ t) b end)).
  { apply spec_attempt. intros b [[[Hb HR] HA] (q & b1 & HA1 & Hq)]. unfold tkaApplyDisablementLocked. rewrite Hb. destruct (ValidDisablement _ _) eqn:EV; [|done].
    split; [done|]. by exists q, b1, bs. }
  intros [[]|]; apply spec_ret; intros b Hb; [right|left]; done.
Qed.
Lemma tkaSyncIfNeeded_spec nm p t : spec (ask_ t) (tkaSyncIfNeeded nm (Some p)) (λ _, keptOrDisabled nm t) (keptOrDisabled nm t).
Proof.
  assert (∀ b, (at_ N t) b → keptOrDisabled nm t b) as HE by (intros b Hb; left; eapply at_locked; [exact Hb|lia]).
  unfold tkaSyncIfNeeded. apply (spec_bind _ _ _ (λ b b', b' = b ∧ (ask_ t) b)); [by intros b Hb|]. intros b. apply spec_pre. intros b1 (-> & (Hb & HR) & HA). rewrite Hb, bool_decide_false by done. cbn [andb negb].
  apply (spec_sub _ (ask_ t)); [|intros ? <-; done]. clear b Hb HR HA.
  apply (spec_bind _ _ _ _ _ _ (spec_our_head N t asked _ HE)). intros _. apply (spec_bind _ _ _ (λ _, ask_ t)); [apply spec_lift; [intros _ _; apply calm_option|done|intros b [? _]; auto]|].
  intros nk. apply (spec_bind _ _ _ (λ x b, x = (true, false) ∧ (ask_ t) b ∨ x = (false, false) ∧ TKAEnabled nm = false ∧ bTka b = None ∧ secretSent t)).
  { destruct (TKAEnabled nm) eqn:EN; cbn [eqb]; [apply spec_ret; auto|]. eapply spec_mono; [by apply (tkaSwitch_spec nm (Some p) nk t)|intros b Hb; exact Hb|naive_solver|intros b Hb; exact Hb]. }
  intros [[] just].
  - apply (spec_bind _ _ _ (λ t' b, t' = t ∧ (ask_ t) b)).
    { eapply spec_mono; [apply (spec_at N t asked (keptOrDisabled nm t))|naive_solver|done|done]. }
    intros t'. apply (spec_bind _ _ _ (λ _, ask_ t)).
    { apply spec_lift; [intros b (-> & [_ HR] & _); by eapply rooted_head|by intros b x [_ ?]|intros b (_ & ? & _); auto]. }
    intros h. destruct (negb _ || just); [|apply spec_ret; intros b [? _]; auto]. apply (spec_bind _ _ _ (λ _, lockedAs 0)).
    + apply spec_wrap. eapply spec_mono; [apply (tkaSyncLocked_spec nk t)|intros b Hb; exact Hb|done|by left].
    + intros _. apply spec_wrap. eapply spec_mono; [apply compactTka_spec|done|by left|by left].
  - apply spec_ret. intros b [[? _]|(_ & ? & ? & ?)]; [done|]. right. done.
Qed.

(** C5: the control plane cannot unlock a node.  Whatever it says and answers - to the
    request for a bootstrap, to offers and to what is sent to it - a node with a lock does
    not panic and still has its lock, with trust that goes back to the same bootstrap
    message; but for the disablement, which needs a secret of the authority.  This holds
    while nothing else changes the lock during the calls, if the answer to the offer has at
    most [N] messages and the node has room for so many below its limit of 2000, and if
    the hashes of the node's messages and of those in that answer do not collide. *)
Theorem control_cannot_unlock nm p b' res t : tkaSyncIfNeeded nm (Some p) b0 = (b', res) → bTka b0 = Some t → rooted N t →
  res ≠ Panic ∧
  match bTka b' with
  | Some t' => ∃ pk, TkaRuns M g pk (tkStorage t') (tkAuthority t') ∧ (pk ≤ scanLimit)%nat
  | None => TKAEnabled nm = false ∧ secretSent t
  end.
Proof.
  intros HR Hb Hroot. pose proof (tkaSyncIfNeeded_spec nm p t b0 (conj (conj Hb Hroot) asked_first)) as HS. rewrite HR in HS.
  assert (keptOrDisabled nm t b' ∧ res ≠ Panic) as [HK Hres] by by destruct res. split; [done|].
  destruct HK as [(t' & -> & pk & HT & HL & _)|(-> & ? & ?)]; [by exists pk|done].
Qed.
End control.

(** ** Synchronization with a control plane that follows the protocol *)
Section protocol.
(** The world is the storage and the authority of the control plane. *)
Local Abbreviation plane := (Mem * Authority)%type.
Context `{TkaCrypto} `{MapOrder} `{AUMCodec} `{ControlPlane plane} (M : AUM → Prop) (MU : Universe M) (g : AUM) (later : Z).
Hypothesis hash_whole : ∀ u, hash_ok (Hash u).
Hypothesis codec : ∀ u, M u → unserializeAUM (cborAUM u) = Some u.

(** The control plane runs the same library over its own storage. *)
Definition serveOffer (q : TKASyncOfferRequest) (w : plane) : tres TKASyncOfferResponse :=
  o ← ToSyncOffer (orHead q) (orAncestors q);
  missing ← MissingAUMs w.2 w.1 o;
  own ← syncOffer w.2 w.1;
  Ok (mkOfferResp (FromSyncOffer own).1 (FromSyncOffer own).2 (cborAUM <$> missing)).
Definition serveSend (q : TKASyncSendRequest) (w : plane) : plane * tres bytes :=
  match unserializeAll (srMissing q) with
  | Ok us =>
      let '(c, a, r) := receive later w.1 w.2 us in
      (c, a, _ ← r; h ← Head a; Ok (MarshalText h))
  | Err e => (w, Err e)
  | Panic => (w, Panic)
  end.
Hypothesis offers_served : ∀ q b, ∃ b', rpcSyncOffer q b = (b', serveOffer q (bWorld b)) ∧ bTka b' = bTka b ∧ bWorld b' = bWorld b.
Hypothesis sends_served : ∀ q b, ∃ b', rpcSyncSend q b = (b', (serveSend q (bWorld b)).2) ∧ bTka b' = bTka b ∧ bWorld b' = (serveSend q (bWorld b)).1.

Lemma unserialize_back l : Forall M l → unserializeAll (cborAUM <$> l) = Ok l.
Proof. induction 1 as [|u l Hu _ IH]; [done|]. cbn [fmap list_fmap unserializeAll]. rewrite codec by done. cbn [of_option mbind res_bind]. cbn in IH. by rewrite IH. Qed.
Lemma offer_back o : named o → ToSyncOffer (FromSyncOffer o).1 (FromSyncOffer o).2 = Ok o.
Proof.
  intros HN. apply offer_roundtrip; [|apply Forall_forall; intros h Hh]; [destruct (HN (soHead o)) as [y ->]; [by left|]|destruct (HN h) as [y ->]; [by right|]]; apply hash_whole.
Qed.
Lemma lb_ok {A B} (m : LB plane A) (k : A → LB plane B) b b' x : m b = (b', Ok x) → (m ≫= k) b = k x b'.
Proof. intros E. unfold mbind, LB_bind. by rewrite E. Qed.
Lemma lb_tka {B} (k : tkaState → LB plane B) b t : bTka b = Some t → (theTka ≫= k) b = k t b.
Proof. intros E. apply lb_ok. unfold theTka. by rewrite E. Qed.
Lemma lb_lift {A B} (r : tres A) (k : A → LB plane B) b x : r = Ok x → (lift r ≫= k) b = k x b.
Proof. intros ->. done. Qed.
Lemma lb_wrap {A} msg (m : LB plane A) b b' x : m b = (b', Ok x) → wrap msg m b = (b', Ok x).
Proof. intros E. unfold wrap. by rewrite E. Qed.
(** What was missing is applied. *)
Lemma receive_locked us (b : Backend plane) t c a : bTka b = Some t → Forall M us → receive (bNow b) (tkStorage t) (tkAuthority t) us = (c, a, Ok ()) →
  ∃ b', (match cborAUM <$> us with [] => mret () | l => us ← lift (unserializeAll l); wrap "inform failed" (informLocked us) end) b = (b', Ok ()) ∧
    bTka b' = Some (mkTka (tkProfile t) a c) ∧ bWorld b' = bWorld b.
Proof.
  intros Ht HM HR. destruct us as [|u us].
  - cbn in *. exists b. split_and!; [done| |done]. rewrite Ht. f_equal. destruct t. by simplify_eq/=.
  - pose proof (unserialize_back (u :: us) HM) as HU. cbn [fmap list_fmap] in *. exists (setTka (Some (mkTka (tkProfile t) a c)) b). split_and!; [|done|done]. rewrite (lb_lift _ _ _ _ HU). apply lb_wrap.
    unfold informLocked. rewrite Ht. unfold receive in HR. rewrite HR. reflexivity.
Qed.

Lemma missing_none a c lo ro : syncOffer a c = Ok lo → soHead ro = soHead lo → MissingAUMs a c ro = Ok [].
Proof.
  intros HO HE. unfold MissingAUMs. rewrite HO. cbn [wrapErr mbind res_bind]. unfold computeSyncIntersection. by rewrite decide_True.
Qed.
(** C10: a synchronization ends in agreement.  With a control plane that follows the
    protocol over a storage of its own, [tkaSyncLocked] of a node succeeds, and when it is
    over the node and the control plane have the same head and trust the same keys -
    however the two had gone apart, through the text forms of hashes and the encoded
    messages.  Both have the same oldest message, and together no more than 2000; a node
    that has compacted further than the control plane may not get there. *)
Theorem backend_converges nk b t pk pkm : bTka b = Some t → TkaRuns M g pk (tkStorage t) (tkAuthority t) → TkaRuns M g pkm (bWorld b).1 (bWorld b).2 →
  oldestAncestor (tkAuthority t) = oldestAncestor (bWorld b).2 → (∀ p, PrevAUMHash (oldestAncestor (bWorld b).2) = Some p → length p = 32%nat) →
  (pk ≤ scanLimit)%nat → (pkm ≤ scanLimit)%nat → (size (aums (tkStorage t)) + size (aums (bWorld b).1) ≤ scanLimit)%nat →
  ∃ b' t', tkaSyncLocked nk b = (b', Ok ()) ∧ bTka b' = Some t' ∧ tkAuthority t' = (bWorld b').2.
Proof.
  intros Ht R1 R2 HO HP L1 L2 HS. destruct (runs_ok M MU g _ _ _ R1) as [r A1], (runs_ok M MU g _ _ _ R2) as [r2 A2].
  destruct (ao_canon _ _ _ _ _ _ A1 L1) as [O1 _], (ao_canon _ _ _ _ _ _ A2 L2) as [O2 _]. assert (r2 = r) as -> by congruence. rewrite O2 in HP.
  pose proof (λ now1, exchanged M MU g r (λ u, proj1 (hash_whole u)) HP now1 later pk _ _ pkm _ _ A1 A2 L1 L2 HS) as HX.
  destruct (HX 0) as (ro1 & _ & _ & _ & _ & _ & _ & E1 & _ & _ & _ & _ & _ & _ & _ & N1 & _). pose proof (offer_back _ N1) as T1.
  destruct (offers_served (mkOfferReq nk (FromSyncOffer ro1).1 (FromSyncOffer ro1).2) b) as (b1 & Hq & Hb1 & Hw1).
  destruct (HX (bNow b1)) as (ro1' & ro2 & l1 & l2 & c1' & c2' & a' & E1' & E2 & X1 & X2 & V1 & V2 & F1 & F2 & _ & N2 & HH). rewrite E1 in E1'. injection E1' as <-.
  unfold serveOffer in Hq. cbn [orHead orAncestors] in Hq. rewrite T1 in Hq. cbn [mbind res_bind] in Hq. rewrite X2, E2 in Hq. cbn [mbind res_bind] in Hq. rewrite Ht in Hb1.
  unfold tkaSyncLocked. rewrite (lb_tka _ _ _ Ht), (lb_lift _ _ _ ro1) by (by rewrite E1). erewrite lb_ok by (apply lb_wrap; exact Hq). cbn [opHead opAncestors opMissing].
  rewrite (lb_lift _ _ _ ro2) by (by rewrite (offer_back _ N2)).
  case_decide as Hd.
  { rewrite (missing_none _ _ _ _ E1 Hd) in X1. injection X1 as <-. rewrite (missing_none _ _ _ _ E2 (eq_sym Hd)) in X2. injection X2 as <-. cbn in V1, V2. injection V1 as _ <-.
    injection V2 as _ V2. exists b1, t. split_and!; [done|done|]. by rewrite Hw1. }
  destruct (receive_locked l2 b1 t c1' a' Hb1 F2 V1) as (b2 & Hi & Hb2 & Hw2).
  destruct (sends_served (mkSendReq nk (MarshalText (Hash (auHead a'))) (cborAUM <$> l1) false) b2) as (b3 & Hs & Hb3 & Hw3). rewrite Hb2 in Hb3. rewrite Hw2, Hw1 in Hs, Hw3.
  unfold serveSend in Hs, Hw3. cbn [srMissing] in Hs, Hw3. rewrite (unserialize_back _ F1), V2 in Hs, Hw3. cbn [mbind res_bind fst snd] in Hs, Hw3. rewrite HH in Hs. cbn [mbind res_bind] in Hs.
  exists b3, (mkTka (tkProfile t) a' c1'). split_and!; [|done|by rewrite Hw3].
  unfold tkaSyncMissing. rewrite (lb_tka _ _ _ Hb1), (lb_lift _ _ _ l1) by (by rewrite X1). rewrite (lb_ok _ _ _ _ _ Hi), (lb_tka _ _ _ Hb2), (lb_lift _ _ _ (Hash (auHead a'))) by done.
  erewrite lb_ok by (apply lb_wrap; exact Hs). destruct (hash_whole (auHead a')) as [W1 W2]. rewrite (lb_lift _ _ _ (Hash (auHead a'))) by (by rewrite hash_text_roundtrip).
  rewrite (lb_tka _ _ _ Hb3), (lb_lift _ _ _ (Hash (auHead a'))) by done. done.
Qed.
End protocol.

(** ** Disabling the lock for good *)
Section disable.
Context `{TkaCrypto} `{MapOrder} `{AUMCodec} {W : Type} `{ControlPlane W}.
Hypothesis boot_quiet : ∀ q, quiet (rpcBootstrap q).

Definition sameIDs (s t : State) : Prop := StateID1 s = StateID1 t ∧ StateID2 s = StateID2 t.
Lemma bootstrap_refused gen p s : stateIDText (StateID1 s) (StateID2 s) ∈ DisallowedTKAStateIDs p →
  (∀ u st, unserializeAUM gen = Some u → aState u = Some st → sameIDs st s) →
  spec (λ b : Backend W, bTka b = None) (tkaBootstrapFromGenesisLocked gen (Some p)) (λ _ _, False) (λ b : Backend W, bTka b = None).
Proof.
  intros Hp Hu b Hb. unfold tkaBootstrapFromGenesisLocked, mbind, LB_bind, lift. destruct (unserializeAUM gen) as [u|] eqn:E; [|done]. cbn [of_option].
  unfold checkDisallowed. destruct (DisallowedTKAStateIDs p) as [|x l] eqn:El; [by apply elem_of_nil in Hp|]. rewrite (proj2 (Z.eqb_neq _ _)) by (rewrite zlen_cons; pose proof (zlen_nonneg l); lia).
  destruct (aState u) as [st|] eqn:Es; [|done]. destruct (Hu u st eq_refl Es) as [-> ->]. by rewrite decide_True.
Qed.
Lemma stays_off nm p' s : stateIDText (StateID1 s) (StateID2 s) ∈ DisallowedTKAStateIDs p' →
  (∀ q b resp u st, (rpcBootstrap q b).2 = Ok resp → unserializeAUM (GenesisAUM resp) = Some u → aState u = Some st → sameIDs st s) →
  spec (λ b : Backend W, bTka b = None) (tkaSyncIfNeeded nm (Some p')) (λ _ (b : Backend W), bTka b = None) (λ b : Backend W, bTka b = None).
Proof.
  intros Hin Hids.
  unfold tkaSyncIfNeeded. apply (spec_bind _ _ _ (λ b b', b' = b ∧ bTka b = None)); [by intros x Hx|]. intros x. apply spec_pre. intros ? [-> Hx]. rewrite Hx, bool_decide_true by done. cbn [andb negb].
  apply (spec_sub _ (λ b : Backend W, bTka b = None)); [|by intros ? <-]. destruct (negb (capTailnetLock x)); [by apply spec_ret|]. clear x Hx.
  apply (spec_bind _ _ _ (λ _ (b : Backend W), bTka b = None)); [by apply spec_ret|]. intros _. apply (spec_bind _ _ _ (λ _ (b : Backend W), bTka b = None)); [apply spec_lift; [intros _ _; apply calm_option|done|done]|].
  intros nk. apply (spec_bind _ _ _ (λ x b, x.1 = false ∧ bTka b = None)); [|intros [[] just]; [by intros ? [? _]|apply spec_ret; by intros ? [_ ?]]].
  destruct (TKAEnabled nm) eqn:En; cbn [eqb]; [|by apply spec_ret]. unfold tkaSwitch. rewrite En. cbn [andb negb].
  apply (spec_bind _ _ _ (λ _ (b : Backend W), bTka b = None)); [by apply spec_ret|]. intros h. apply (spec_bind _ _ _ (λ bs b, bTka b = None ∧ ∃ q b0, (rpcBootstrap q b0).2 = Ok bs)).
  { apply spec_wrap, spec_quiet; [apply boot_quiet|intros x x' bs Hx E Hbs; split; [by rewrite E|by eexists _, _]|intros x x' Hx E; by rewrite E]. }
  intros bs. apply spec_pre. intros x [Hx (q & b0 & Hq)]. apply (spec_bind _ _ _ (λ _ _, False)); [|by intros ? ? []]. apply spec_wrap. apply (spec_sub _ (λ b : Backend W, bTka b = None)); [|by intros ? <-].
  eapply bootstrap_refused; [exact Hin|intros; by eapply Hids].
Qed.
(** C29: a forced local disablement sticks.  It turns the lock off, and from then on, as
    long as the preferences keep what it wrote, no network map makes the node take up a
    lock with the identifiers of that authority again: with a control plane that offers
    only such a lock the node stays without one. *)
Theorem force_disable_sticks write (b b1 : Backend W) t : TailnetLockForceLocalDisable write b = (b1, Ok ()) → bTka b = Some t →
  bTka b1 = None ∧ ∃ p, bPersist b1 = Some p ∧
  ∀ nm p' (b2 b3 : Backend W) res, DisallowedTKAStateIDs p ⊆ DisallowedTKAStateIDs p' → bTka b2 = None →
    (∀ q b resp u st, (rpcBootstrap q b).2 = Ok resp → unserializeAUM (GenesisAUM resp) = Some u → aState u = Some st → sameIDs st (auState (tkAuthority t))) →
    tkaSyncIfNeeded nm (Some p') b2 = (b3, res) → res ≠ Panic ∧ bTka b3 = None.
Proof.
  intros HD Ht. unfold TailnetLockForceLocalDisable, getB, mbind, LB_bind, lift, wrap, SetPrefs, clearTka in HD. rewrite Ht in HD. destruct (bPersist b) as [p|] eqn:Ep; [|done].
  destruct write as [[]| |]; [|done|done]. cbn in HD. injection HD as <-. split; [done|]. eexists. split; [done|]. intros nm p' b2 b3 res Hsub Hb2 Hids HR. cbn [DisallowedTKAStateIDs] in Hsub.
  assert (stateIDText (StateID1 (auState (tkAuthority t))) (StateID2 (auState (tkAuthority t))) ∈ DisallowedTKAStateIDs p') as Hin by (apply Hsub, elem_of_app; right; by left).
  pose proof (stays_off nm p' _ Hin Hids b2 Hb2) as HS. rewrite HR in HS. by destruct res.
Qed.
End disable.

(** ** Signatures of the node *)
Section sign.
Context `{TkaLaws} `{MapOrder} `{AUMCodec} {W : Type} `{ControlPlane W}.
(** Consensus rules accept what Ed25519 signs. *)
Hypothesis consensus_sign : ∀ priv m, ed25519Consensus (ed25519Public priv) m (ed25519Sign priv m) = true.

Lemma getKey_kind l id k : getKey l id = Ok k → kKind k = Key25519 ∧ kPublic k = id.
Proof.
  induction l as [|x l IH]; cbn; [done|]. intros (kid & Hk & HR)%bind_ok. case_decide as E; [|auto]. injection HR as <-. unfold keyID in Hk.
  destruct (kKind x); try done. injection Hk as ->. done.
Qed.
Lemma direct_certified k nk rot priv : kKind k = Key25519 → kPublic k = KeyID priv → Certified k (signDirect nk rot priv).
Proof. intros Hk Hp. apply certified_root; [by left|done|done|rewrite Hp; apply public_len|]. rewrite Hp. apply consensus_sign. Qed.
Lemma direct_keeps a nk priv rp k : GetKey (auState a) (KeyID priv) = Ok k → TkaThms.keeps a rp nk (cborNKS (signDirect nk (ed25519Public rp) priv)).
Proof.
  intros HG. destruct (getKey_kind _ _ _ HG) as [Hk Hp]. exists (signDirect nk (ed25519Public rp) priv), k. split_and!; [apply nks_roundtrip; cbn; lia| |cbn; lia|done|done].
  split; [by apply direct_certified|done|by exists nk].
Qed.
Lemma direct_accepted a nk rot priv k : GetKey (auState a) (KeyID priv) = Ok k → NodeKeyAuthorized a nk (cborNKS (signDirect nk rot priv)) = Ok ().
Proof.
  intros HG. destruct (getKey_kind _ _ _ HG) as [Hk Hp]. apply node_key_authorized_spec. exists (signDirect nk rot priv), k.
  split_and!; [apply nks_roundtrip; cbn; lia|done|done|done|by apply direct_certified|]. right. cbn. by rewrite unmarshal_marshal.
Qed.
Lemma signAll_lookup priv l i : NoDup (siNodeID <$> l) → i ∈ l → signAll priv l !! siNodeID i = Some (cborNKS (signNodeKey i priv)).
Proof.
  unfold signAll. intros HN Hi. assert (∀ m : gmap Z bytes, foldl (λ m i, <[siNodeID i := cborNKS (signNodeKey i priv)]> m) m l !! siNodeID i = Some (cborNKS (signNodeKey i priv))) as HG; [|apply HG].
  induction l as [|x l IH]; [by apply elem_of_nil in Hi|]. cbn in HN. apply NoDup_cons in HN as [Hx HN]. apply elem_of_cons in Hi as [->|Hi]; [|intros m; by apply IH].
  cbn. clear IH HN. assert (∀ m : gmap Z bytes, m !! siNodeID x = Some (cborNKS (signNodeKey x priv)) → foldl (λ m i, <[siNodeID i := cborNKS (signNodeKey i priv)]> m) m l !! siNodeID x =
    Some (cborNKS (signNodeKey x priv))) as HG; [|intros m; apply HG; by rewrite lookup_insert_eq].
  induction l as [|y l IH]; intros m Hm; [done|]. cbn in *. apply not_elem_of_cons in Hx as [Hne Hx]. apply IH; [done|]. by rewrite lookup_insert_ne.
Qed.

(** The authority that a genesis gives. *)
Lemma bootstrap_keys now gen c a : Parent gen = None → Bootstrap now ChonkMem gen = (c, Ok a) →
  ∃ st, aState gen = Some st ∧ aumVerify gen st true = Ok () ∧ auState a = cloneForUpdate st gen.
Proof.
  intros Hp HB. assert (Universe (eq gen)) as MU by (split; [congruence|]; exists (λ _, O); intros u v <- <- E; congruence).
  pose proof (bootstrap_ok (eq gen) MU gen now c a eq_refl HB) as [_ [ord HI] _ _ HC]. destruct (HC scan_pos) as [_ [v HW]].
  unfold Bootstrap in HB. destruct (negb (zlen (Heads ChonkMem) =? 0)); [done|]. destruct (negb _); [done|]. destruct (aState gen) as [st|] eqn:Es; [|done].
  destruct (aumVerify gen st true) as [[]| |] eqn:EV; [|done|done]. exists st. split_and!; [done|done|]. injection HB as <- _. set (d := SetLastActiveAncestor _ _) in *.
  assert (ChildAUMs d (Hash gen) = []) as HE.
  { destruct (ChildAUMs d (Hash gen)) as [|y l] eqn:E; [done|]. assert (y ∈ ChildAUMs d (Hash gen)) as Hy by (rewrite E; by left).
    apply (child_spec _ _ _ (iv_store _ _ _ _ _ HI)) in Hy as [Hy Hpy]. apply (iv_elem _ _ _ _ _ HI), (iv_msgs _ _ _ _ _ HI) in Hy as <-. congruence. }
  destruct (walk_picks _ _ _ _ _ _ _ _ HW) as [HP _]. apply rtc_inv in HP as [[= _ <-]|(y & Hpk & _)]; [|unfold pick in Hpk; cbn in Hpk; by rewrite HE in Hpk]. unfold rootState. by rewrite Es.
Qed.
Lemma created_genesis now st priv c a gen : Create now ChonkMem st (SignAUM priv) = (c, Ok (a, gen)) →
  Parent gen = None ∧ aState gen = Some st ∧ Signatures gen = [mkSignature (KeyID priv) (ed25519Sign priv (aumSigHash gen))].
Proof.
  unfold Create. destruct (StaticValidate _); [|done|done]. cbn [SignAUM]. destruct (Bootstrap _ _ _) as [d r] eqn:EB. intros HB. injection HB as _ HB. apply bind_ok in HB as (a' & _ & [= <- <-]).
  done.
Qed.
Lemma genesis_trusts gen st k sg l : aumVerify gen st true = Ok () → Signatures gen = mkSignature k sg :: l → ∃ x, GetKey st k = Ok x.
Proof.
  intros HV HS. unfold aumVerify in HV. apply bind_ok in HV as (_ & _ & HV). cbn [mbind res_bind] in HV. rewrite HS in HV. destruct (zlen _ =? 0); [done|].
  apply bind_ok in HV as (? & HE & _). cbn [checkEach] in HE. apply bind_ok in HE as (? & HK & _). apply bind_ok in HK as (y & Hy%wrapErr_ok & _). by exists y.
Qed.

(** C28: turning the lock on locks nobody out.  When a node initializes the lock, the
    signatures it submits are accepted, for every node that the control plane listed, by
    every node that takes up the lock from the genesis message - and go on to be when
    the signed node rotates its key however often. *)
Theorem init_keeps_nodes keys dvs sup id1 id2 b nk priv c a gen b1 need : nodeKeyOf b = Some nk → lockKeyOf b = Some priv →
  Create (bNow b) ChonkMem (mkState None dvs keys id1 id2) (SignAUM priv) = (c, Ok (a, gen)) →
  rpcInitBegin nk (cborAUM gen) b = (b1, Ok need) → NoDup (siNodeID <$> need) →
  TailnetLockInit keys dvs sup id1 id2 b = rpcInitFinish nk (signAll priv need) sup b1 ∧
  ∀ now c' a' i, Bootstrap now ChonkMem gen = (c', Ok a') → i ∈ need → ∃ sig, signAll priv need !! siNodeID i = Some sig ∧
    NodeKeyAuthorized a' (siNodePublic i) sig = Ok () ∧
    ∀ rp ks, siRotationPubkey i = ed25519Public rp → ∃ sig', resignAll rp ks sig = Ok sig' ∧ NodeKeyAuthorized a' (default (siNodePublic i) (last ks)) sig' = Ok ().
Proof.
  intros Hnk Hpriv HC Hrpc HN. split.
  - unfold TailnetLockInit, getB, mbind, LB_bind, lift, wrap. rewrite Hnk, Hpriv. cbn [of_option]. rewrite HC. cbn [snd wrapErr]. by rewrite Hrpc.
  - intros now c' a' i HB Hi. destruct (created_genesis _ _ _ _ _ _ HC) as (Hp & Hst & HS). destruct (bootstrap_keys _ _ _ _ Hp HB) as (st & Hst' & HV & HA).
    destruct (genesis_trusts _ _ _ _ _ HV HS) as [k Hk]. assert (GetKey (auState a') (KeyID priv) = Ok k) as HG by by rewrite HA.
    exists (cborNKS (signNodeKey i priv)). split_and!; [by apply signAll_lookup|by eapply direct_accepted|]. intros rp ks Hr. unfold signNodeKey. rewrite Hr. by eapply keeps_rotates, direct_keeps.
Qed.
End sign.

(** ** A node between control planes *)
#[local] Existing Instance exChainCrypto.
#[local] Existing Instance exOrder.
#[local] Instance exCodec : AUMCodec := {| unserializeAUM x := head (filter (λ u, exCode u = x) exAll) |}.
Local Abbreviation plane := (Mem * Authority)%type.
Definition exRefuse {A} : LB plane A := λ b, (b, Err (tkaErrorf "refused")).
Definition exPlane (boot : LB plane TKABootstrapResponse) (offer : TKASyncOfferRequest → LB plane TKASyncOfferResponse) (send : TKASyncSendRequest → LB plane bytes)
    (need : list TKASignInfo) : ControlPlane plane :=
  {| rpcBootstrap _ := boot; rpcSyncOffer := offer; rpcSyncSend := send; rpcInitBegin _ _ := mret need; rpcInitFinish _ _ _ := mret ();
     rpcSubmitSignature _ _ := mret (); rpcDisable _ _ _ := mret (); rpcAffectedSigs _ _ := exRefuse |}.
Definition setWorld (w : plane) (b : Backend plane) : Backend plane := mkBackend (bTka b) (capTailnetLock b) (bProfile b) (bPersist b) (bNow b) w.
Definition exFair : ControlPlane plane :=
  exPlane exRefuse (λ q b, (b, serveOffer q (bWorld b))) (λ q b, let '(w, r) := serveSend 6 q (bWorld b) in (setWorld w b, r)) [].
(** One that says that the lock is off, has no secret, and sends a fork. *)
Definition exHostile : ControlPlane plane :=
  exPlane (mret (mkBootstrapResp [] [1])) (λ _, mret (mkOfferResp (MarshalText (Hash exU2)) [MarshalText (Hash exG)] [exCode exU2])) (λ _, exRefuse) [].
(** The control plane has the longer chain. *)
Definition exNode (x : Mem * Authority * tres ()) : Backend plane := mkBackend (Some (mkTka "p" x.1.2 x.1.1)) true "p" (Some (mkPersist (Some 1) (Some [9]) [])) 5 exLong.1.

Lemma exHashOk u : hash_ok (Hash u).
Proof. split; [apply exHashLen|apply be_bytes_ok]. Qed.
Lemma exKnown x u : unserializeAUM x = Some u → exM u.
Proof. intros Hu. change (head (filter (λ u, exCode u = x) exAll) = Some u) in Hu. apply head_Some_elem_of in Hu. by apply list_elem_of_filter in Hu as [_ ?]. Qed.
Lemma exDecodes u : exM u → unserializeAUM (cborAUM u) = Some u.
Proof. unfold exM, exAll. rewrite !elem_of_cons, elem_of_nil. intros [->|[->|[->|[->|[->|[]]]]]]; vm_compute; reflexivity. Qed.

Lemma control_cannot_unlock_witness : let x := tkaSyncIfNeeded (H2 := exHostile) (mkLockInfo false (Hash exU2)) (Some (mkPersist (Some 1) None [])) (exNode exFirst) in
  x.2 ≠ Panic ∧ bTka x.1 ≠ None.
Proof.
  intros x. destruct (control_cannot_unlock (H2 := exHostile) exM exUniverse exG 1 (exNode exFirst)) with (nm := mkLockInfo false (Hash exU2)) (p := mkPersist (Some 1) None [])
    (b' := x.1) (res := x.2) (t := mkTka "p" exFirst.1.2 exFirst.1.1) as [HP HL].
  - intros q b. by split.
  - intros q b. by split.
  - intros q b. by split.
  - intros q b resp _ [= <-]. split; [cbn; lia|]. intros y u _. apply exKnown.
  - apply surjective_pairing.
  - reflexivity.
  - exists 2%nat. split_and!; [apply exRunFirst|apply Nat.leb_le; vm_compute; reflexivity..].
  - split; [exact HP|]. vm_compute. discriminate.
Defined.
Lemma backend_converges_witness : auHead exSecond.1.2 ≠ auHead exLong.1.2 ∧
  ∃ b' t', tkaSyncLocked (H2 := exFair) 1 (exNode exSecond) = (b', Ok ()) ∧ bTka b' = Some t' ∧ tkAuthority t' = (bWorld b').2.
Proof.
  split; [by vm_compute|].
  apply (backend_converges (H2 := exFair) exM exUniverse exG 6 exHashOk exDecodes) with (t := mkTka "p" exSecond.1.2 exSecond.1.1) (pk := 2%nat) (pkm := 4%nat).
  - intros q b. by exists b.
  - intros q b. exists (setWorld (serveSend 6 q (bWorld b)).1 b). cbn. by destruct (serveSend 6 q (bWorld b)).
  - reflexivity.
  - apply exRunSecond.
  - apply exRunLong.
  - vm_compute. reflexivity.
  - by vm_compute.
  - apply Nat.leb_le. vm_compute. reflexivity.
  - apply Nat.leb_le. vm_compute. reflexivity.
  - apply Nat.leb_le. vm_compute. reflexivity.
Defined.
(** One that offers the authority again that was disabled. *)
Definition exAgain : ControlPlane plane := exPlane (mret (mkBootstrapResp (exCode exG) [])) (λ _, exRefuse) (λ _, exRefuse) [].
Definition exOff : Backend plane * tres () := TailnetLockForceLocalDisable (Ok ()) (exNode exFirst).
Lemma force_disable_sticks_witness : exOff.2 = Ok () ∧ ∃ p, bPersist exOff.1 = Some p ∧
  bTka (tkaSyncIfNeeded (H2 := exAgain) (mkLockInfo true (Hash exG)) (Some p) exOff.1).1 = None.
Proof.
  split; [vm_compute; reflexivity|].
  destruct (force_disable_sticks (H2 := exAgain)) with (write := Ok () : tres ()) (b := exNode exFirst) (b1 := exOff.1) (t := mkTka "p" exFirst.1.2 exFirst.1.1) as [HN (p & Hp & HS)].
  - intros q b. by split.
  - vm_compute. reflexivity.
  - reflexivity.
  - exists p. split; [exact Hp|]. set (y := tkaSyncIfNeeded _ _ _). destruct (HS (mkLockInfo true (Hash exG)) p exOff.1 y.1 y.2) as [_ HR]; [done|exact HN| |apply surjective_pairing|exact HR].
    intros q b resp u st [= <-] Hu Hst. assert (u = exG) as -> by (vm_compute in Hu; by injection Hu as <-). vm_compute in Hst. injection Hst as <-. by split; vm_compute.
Defined.
Definition exNeed : list TKASignInfo := [mkSignInfo 1 101 (hashArray [7]); mkSignInfo 2 102 []].
Definition exInit : ControlPlane plane := exPlane exRefuse (λ _, exRefuse) (λ _, exRefuse) exNeed.
Definition exCreated : Mem * tres (Authority * AUM) := Create 5 ChonkMem (mkState None [replicate 32 7] [exTrusted] 3 4) (SignAUM [9]).
Definition exGenesis : AUM := match exCreated.2 with Ok x => x.2 | _ => exG end.
Definition exUnlocked : Backend plane := mkBackend None true "p" (Some (mkPersist (Some 1) (Some [9]) [])) 5 exLong.1.
Lemma init_keeps_nodes_witness : ∃ a' sig sig', (Bootstrap 7 ChonkMem exGenesis).2 = Ok a' ∧ signAll [9] exNeed !! 1 = Some sig ∧ NodeKeyAuthorized a' 101 sig = Ok () ∧
  resignAll [7] [201; 202] sig = Ok sig' ∧ NodeKeyAuthorized a' 202 sig' = Ok ().
Proof.
  destruct (init_keeps_nodes (H0 := exLaws exCode) (H3 := exInit)) with (keys := [exTrusted]) (dvs := [replicate 32 7]) (sup := @nil Z) (id1 := 3) (id2 := 4)
    (b := exUnlocked) (nk := 1) (priv := [9]) (c := exCreated.1) (a := match exCreated.2 with Ok x => x.1 | _ => exA0 end) (gen := exGenesis) (b1 := exUnlocked) (need := exNeed) as [_ HI].
  - intros priv m. by apply bool_decide_true.
  - reflexivity.
  - reflexivity.
  - vm_compute. reflexivity.
  - reflexivity.
  - apply (bool_decide_unpack _). vm_compute. reflexivity.
  - set (bs := Bootstrap 7 ChonkMem exGenesis). assert (∃ a', bs = (bs.1, Ok a')) as [a' Ea] by (eexists; vm_compute; reflexivity).
    destruct (HI 7 bs.1 a' (mkSignInfo 1 101 (hashArray [7])) Ea ltac:(by left)) as (sig & Hs & HA & HK). destruct (HK [7] [201; 202] eq_refl) as (sig' & Hs' & HA').
    exists a', sig, sig'. split_and!; [by rewrite Ea|exact Hs|exact HA|exact Hs'|exact HA'].
Defined.

(** ** What goes wrong *)

(** The lock is disabled by force while the offer is under way: [b.tka] is nil. *)
Definition exRace : ControlPlane plane :=
  exPlane exRefuse (λ _ b, ((TailnetLockForceLocalDisable (Ok ()) b).1, Ok (mkOfferResp (MarshalText (Hash exU2)) [MarshalText (Hash exG)] []))) (λ _, exRefuse) [].
Lemma sync_race_panics : (tkaSyncLocked (H2 := exRace) 1 (exNode exFirst)).2 = Panic.
Proof. vm_compute. reflexivity. Qed.

(** A node that was bootstrapped from a later checkpoint, at the head of its time: the
    control plane, one message ahead, names no message that the node has, and the update
    that it sent along is not applied. *)
Definition exLate : Mem * tres Authority := Bootstrap 1 ChonkMem exCk.
Definition exLateA : Authority := match exLate.2 with Ok a => a | _ => exA0 end.
Lemma late_bootstrap_stuck : exLate.2 = Ok exLateA ∧
  let x := tkaSyncLocked (H2 := exFair) 1 (exNode (exLate.1, exLateA, Ok ())) in
  x.2 = Err (tkaErrorf "computing missing AUMs") ∧ bTka x.1 = bTka (exNode (exLate.1, exLateA, Ok ())).
Proof. vm_compute. done. Qed.
(** With the update it cannot be compacted while its messages are young. *)
Definition exLateOn : Mem * Authority * tres () := Inform 1 exLate.1 exLateA [exU3].
Lemma late_compaction_fails : exLateOn.2 = Ok () ∧ ∃ e, (authorityCompact 2 exLateOn.1.1 exLateOn.1.2 (mkCompaction 1 10)).2 = Err e.
Proof. split; [vm_compute; reflexivity|]. eexists. vm_compute. reflexivity. Qed.
