(* ===== verification/TkaRecoveryThms.v ===== *)
(** * Recovery from compromised keys

    A revocation that outweighs what was made of the compromised keys replaces it. *)

From stdpp Require Import base gmap sets list strings relations.
From S2P Require Import Prelude GoStd Bytes Tka TkaChain TkaThms TkaChainThms TkaPickThms TkaCompact TkaCompactThms TkaPurgeThms TkaOfferThms TkaSyncThms TkaRunsThms TkaRecovery.

#[local] Opaque maxSyncIter maxScanIterations maxSyncHeadIntersectionIter.

Section keys.
Context `{TkaCrypto}.
Lemma valid_filter (Q : Key → Prop) `{∀ k, Decision (Q k)} l : Forall keyValid l → Forall keyValid (filter Q l).
Proof. rewrite !Forall_forall. intros HV k [_ Hk]%list_elem_of_filter. auto. Qed.
Lemma dropKey_spec id l : Forall keyValid l → NoDup (kPublic <$> l) → dropKey id l = Ok (filter (λ k, kPublic k ≠ id) l).
Proof.
  induction 1 as [|k l Hk Hl IH]; [done|]. intros HN. cbn in HN. apply NoDup_cons in HN as [Hx HN]. cbn [dropKey]. rewrite valid_kind by done. cbn [wrapErr mbind res_bind]. rewrite filter_cons.
  case_decide as E; [rewrite decide_False by (intros Hd; done)|rewrite decide_True, IH by done; done]. f_equal. symmetry. apply filter_all. intros y Hy <-. apply Hx. rewrite E. by apply list_elem_of_fmap_2.
Qed.
Lemma dropKeys_spec ids l : Forall keyValid l → NoDup (kPublic <$> l) → dropKeys ids l = Ok (filter (λ k, kPublic k ∉ ids) l).
Proof.
  revert l. induction ids as [|id ids IH]; intros l HV HN; cbn [dropKeys].
  - f_equal. symmetry. apply filter_all. intros y _. apply not_elem_of_nil.
  - rewrite dropKey_spec by done. cbn [mbind res_bind]. rewrite IH; [|by apply valid_filter|].
    + f_equal. rewrite list_filter_filter. apply list_filter_iff. intros y. rewrite not_elem_of_cons. tauto.
    + eapply sublist_NoDup; [exact HN|]. apply fmap_sublist, sublist_filter.
Qed.
Lemma trusted_filter (ids : list bytes) (s s' : State) : Forall keyValid (Keys s) → Keys s' = filter (λ k, kPublic k ∉ ids) (Keys s) → ∀ id,
  is_ok (GetKey s' id) = negb (bool_decide (id ∈ ids)) && is_ok (GetKey s id).
Proof.
  intros HV HK id. unfold GetKey. rewrite HK. destruct (getKey_cases (filter (λ k, kPublic k ∉ ids) (Keys s)) id) as [(k & -> & [Hni Hk]%list_elem_of_filter & <-)|[-> Hn]].
  - by apply valid_filter.
  - rewrite bool_decide_false by done. destruct (getKey_cases (Keys s) (kPublic k) HV) as [(k' & -> & _)|[_ Hn]]; [done|]. destruct Hn. by apply list_elem_of_fmap_2.
  - cbn. destruct (decide (id ∈ ids)) as [Hi|Hi]; [by rewrite bool_decide_true|]. rewrite bool_decide_false by done. cbn. destruct (getKey_cases (Keys s) id HV) as [(k & -> & Hk & <-)|[-> _]]; [|done].
    destruct Hn. apply list_elem_of_fmap_2, list_elem_of_filter. done.
Qed.
End keys.

Section recover.
Context `{TkaCrypto} (M : AUM → Prop) (MU : Universe M) (g : AUM).
Hypothesis hash_len : ∀ u, length (Hash u) = 32%nat.

Section root.
Context (r : AUM) (c : Mem) (ord : list AUM) (HI : Inv M g r c ord).
Local Abbreviation anc := (Anc ord).

(** The search ends at a message of the active chain: the oldest, or one before the
    revoked keys were trusted. *)
Definition forkPoint (ids : list bytes) (ours : bytes) (y : AUM) : Prop :=
  y = r ∨ ∃ s, StateAt c (Hash y) s ∧ (∀ id, id ∈ ids → is_ok (GetKey s id) = false) ∧ is_ok (GetKey s ours) = true.
Lemma rewriteLoop_spec fuel ids ours x i : (length ord ≤ maxScanIterations)%nat → ord !! i = Some x → (i < fuel)%nat →
  ∃ y, rewriteLoop fuel c (Hash r) ids ours (Hash x) = Ok (Hash y) ∧ y ∈ ord ∧ anc y x ∧ forkPoint ids ours y.
Proof.
  intros small. revert x i. induction fuel as [|fuel IH]; intros x i Hi Hf; [lia|]. cbn [rewriteLoop]. pose proof (list_elem_of_lookup_2 _ _ _ Hi) as Hx.
  case_decide as Hd; [exists x; split_and!; [done|done|apply anc_refl|left; apply (hash_inj M g r c ord HI); [done|by eapply root_in|done]]|].
  rewrite (read _ _ _ _ _ HI x Hx). cbn [wrapErr mbind res_bind]. destruct (computeStateAt_total M g r c ord HI maxScanIterations x Hx small) as (s & -> & HS). cbn [wrapErr mbind res_bind].
  destruct (negb _ && _) eqn:E.
  { exists x. split_and!; [done|done|apply anc_refl|]. right. exists s. apply andb_true_iff in E as [E1%negb_true_iff E2]. split_and!; [done| |done].
    intros id Hid. destruct (is_ok (GetKey s id)) eqn:Ek; [|done]. assert (existsb (λ k, is_ok (GetKey s k)) ids = true) as HT; [|congruence]. apply existsb_exists.
    exists id. split; [by apply list_elem_of_In|done]. }
  assert (x ≠ r) as Hne by (intros ->; done). destruct (parent_before _ _ _ _ _ HI i x Hi Hne) as (j & b & Hj & Hb & Hp & Hbi). rewrite Hp.
  destruct (IH b j Hb ltac:(lia)) as (y & -> & Hy & HA & HF). exists y. split_and!; [done|done| |done]. by eapply anc_child.
Qed.
Lemma child_not_anc x y : x ∈ ord → y ∈ ord → Parent y = Some (Hash x) → anc y x → False.
Proof.
  intros Hx [j Hj]%list_elem_of_lookup Hp HA. destruct (decide (y = r)) as [->|Hne]; [by destruct (root_top _ _ _ _ _ HI _ Hp x Hx)|].
  destruct (parent_before _ _ _ _ _ HI j y Hj Hne) as (k & b & Hk & Hb & Hpb & Hbo). assert (b = x) as -> by (apply (hash_inj M g r c ord HI); [done|done|congruence]).
  pose proof (anc_idx M g r c ord HI y x j k HA Hj Hb). lia.
Qed.

(** ** A fork that wins *)
Context (P u : AUM) (s s' : State).
Hypothesis u_parent : Parent u = Some (Hash P).
Hypothesis u_new : aums c !! Hash u = None.
Context (c' : Mem) (ord' : list AUM) (HI' : Inv M g r c' ord') (HC : ∀ h b, aums c' !! h = Some b ↔ aums c !! h = Some b ∨ b ∈ [u] ∧ Hash b = h).
Hypothesis P_active : picks c (r, rootState r) (P, s).
Hypothesis u_applies : applyVerifiedAUM s u = Ok s'.

Lemma stored_fork x : stored c' x ↔ stored c x ∨ x = u.
Proof. unfold stored. rewrite HC, list_elem_of_singleton. naive_solver. Qed.
(** Up to the fork the active chain is as before. *)
Lemma picks_before_fork : picks c' (r, rootState r) (P, s).
Proof.
  assert (∀ p, picks c (r, rootState r) p → Anc ord p.1 P → p.1 ∈ ord → picks c' (r, rootState r) p) as HG.
  { refine (rtc_ind_r _ _ _ _); [intros _ _; apply rtc_refl|]. intros [x sx] [y sy] Hx Hp IH HA Hy. cbn in *.
    destruct (picks_stored M g r c ord x sx HI Hx) as (Hxo & _ & HSx). destruct (pick_child M g r c ord x sx y sy HI Hxo HSx Hp) as (_ & Hpy & _).
    assert (x ≠ P) as Hne.
    { intros ->. by eapply (child_not_anc P y). }
    eapply rtc_r; [apply IH; [|done]; eapply anc_trans; [by eapply anc_one|done]|].
    eapply (pick_among M g r c ord c' ord'); eauto; [|apply stored_fork; left; by apply HI].
    intros w [Hw| ->]%stored_fork Hpw; [done|]. destruct Hne. destruct (picks_stored M g r c ord P s HI P_active) as (HPo & _ & _). apply (hash_inj M g r c ord HI); [done|done|congruence]. }
  destruct (picks_stored M g r c ord P s HI P_active) as (HPo & _ & _). apply (HG (P, s)); [done|apply anc_refl|done].
Qed.
Lemma fork_leaf : ChildAUMs c' (Hash u) = [].
Proof.
  destruct (ChildAUMs c' (Hash u)) as [|y l] eqn:E; [done|]. exfalso. assert (y ∈ ChildAUMs c' (Hash u)) as Hy by (rewrite E; by left).
  apply (in_children M g r c' ord' u y HI') in Hy as [Hst Hpy]. assert (stored c' u) as Hu by (apply stored_fork; by right). destruct (un_rank _ MU) as [rank HR].
  apply stored_fork in Hst as [Hst| ->].
  - destruct (decide (y = r)) as [->|Hne]; [pose proof (iv_top _ _ _ _ _ HI' _ Hpy) as HN; unfold stored in Hu; congruence|].
    destruct (inv_parent M g r c ord y HI Hst Hne) as (b & Hpb & Hb). assert (Hash b = Hash u) as Eb by congruence. congruence.
  - assert (M u) as Hm by (apply (iv_msgs _ _ _ _ _ HI'), HI', Hu). specialize (HR u u Hm Hm Hpy). lia.
Qed.
Lemma fork_picked w : Weight u s = Ok w → (∀ y, y ∈ ChildAUMs c (Hash P) → ∃ v, Weight y s = Ok v ∧ v < w) → pick c' (P, s) (u, s').
Proof.
  intros Hw Hless. pose proof picks_before_fork as HP. assert (stored c' u) as Hu by (apply stored_fork; by right).
  destruct (pick_exists M g r c' ord' P s u HI' HP Hu u_parent) as (z & t & Hz). destruct (picks_stored M g r c' ord' P s HI' HP) as (HPo & _ & HSP).
  apply list_elem_of_lookup in HPo as Hi. destruct Hi as [i Hi]. pose proof (child_weights M g r c' ord' i P s HI' Hi HSP) as HW. unfold pick in *. cbn in *.
  apply advance_some in Hz as [Hz Ht]. destruct (pick_min s _ z HW Hz) as [Hzin Hmin].
  assert (z = u) as ->; [|apply advance_some; by split]. apply (in_children M g r c' ord' P z HI') in Hzin as [[Hst| ->]%stored_fork Hpz]; [|done]. exfalso.
  destruct (Hless z) as (v & Hv & Hlt); [by apply (in_children M g r c ord P z HI)|]. specialize (Hmin u v w). rewrite (in_children M g r c' ord' P u HI') in Hmin.
  assert (bytesLess (forkKey (w, u)) (forkKey (v, z)) = false) as HL by by apply Hmin. unfold bytesLess, forkKey in HL. cbn [fst snd bytesCompare] in HL.
  rewrite Z.compare_opp, (proj2 (Z.compare_lt_iff _ _)) in HL by done. done.
Qed.
Lemma fork_wins pk a w : authAt M g r pk c' a → (pk ≤ maxScanIterations)%nat → Weight u s = Ok w → (∀ y, y ∈ ChildAUMs c (Hash P) → ∃ v, Weight y s = Ok v ∧ v < w) →
  auHead a = u ∧ auState a = s'.
Proof.
  intros HA Hpk Hw Hless. destruct (auth_picks M g r pk c' a ord' HA HI' Hpk) as (_ & _ & _ & HP & HZ).
  assert (picks c' (r, rootState r) (u, s')) as HU by (eapply rtc_r; [apply picks_before_fork|by eapply fork_picked]).
  by pose proof (picks_unique _ _ _ _ HP HU HZ fork_leaf) as [= -> ->].
Qed.
End root.

(** C11: recovery from compromised keys.  A node makes an update that revokes keys; it
    forks off the active chain, at the point that the code looks for, which is the oldest
    message or one where none of the keys was trusted but the key of the node was; the
    node never stored more than 2000 messages, and has room for this one.  Once it has signatures that outweigh every
    other message behind that point, a node that gets it adopts it whatever was made
    with the keys since: none of them is trusted any more, and all others that were
    trusted still are. *)
Theorem revocation_recovers pk c a ids ours f sigs : TkaRuns M g pk c a → (pk ≤ scanLimit)%nat → (size (aums c) < scanLimit)%nat →
  MakeRetroactiveRevocation a c ids ours zeroHash = Ok f → let u := withSignatures sigs f in M u → aums c !! Hash u = None →
  ∃ P s, PrevAUMHash f = Some (Hash P) ∧ computeStateAt c maxScanIterations (Hash P) = Ok s ∧ forkPoint (oldestAncestor a) c ids ours P ∧
  ∀ now w, aumVerify u s false = Ok () → Weight u s = Ok w → (∀ y, y ∈ ChildAUMs c (Hash P) → ∃ v, Weight y s = Ok v ∧ v < w) →
    ∃ c' a', Inform now c a [u] = (c', a', Ok ()) ∧ auHead a' = u ∧ ∀ id, KeyTrusted a' id = negb (bool_decide (id ∈ ids)) && KeyTrusted a id.
Proof.
  intros HR Hpk Hsz HM u Hu Hnew. destruct (runs_ok M MU g _ _ _ HR) as [r HA]. pose proof HA as [_ [ord HI] _ HS _]. unfold scanLimit in *.
  destruct (auth_picks M g r pk c a ord HA HI Hpk) as (HO & HH & He & HP & HZ). pose proof (inv_size _ _ _ _ _ HI) as Hlen. rewrite HO.
  destruct (inv_legit _ _ _ _ _ _ _ HI HS) as [HL _]. destruct (legit_keys _ _ HL) as [[K1 K2 K3] (st & Hst & HID1 & HID2)].
  unfold MakeRetroactiveRevocation in HM. apply bind_ok in HM as (parent & Hpar & HM). rewrite decide_True in Hpar by done. destruct (negb _) in Hpar; [done|]. apply wrapErr_ok in Hpar.
  unfold findParentForRewrite in Hpar. rewrite HH, HO in Hpar. cbn [mbind res_bind] in Hpar. apply list_elem_of_lookup in He as Hi. destruct Hi as [i Hi].
  destruct (rewriteLoop_spec r c ord HI (S (size (aums c))) ids ours (auHead a) i ltac:(lia) Hi) as (P & HPr & HPo & HPa & HF); [apply lookup_lt_Some in Hi; lia|].
  rewrite HPr in Hpar. injection Hpar as <-. rewrite dropKeys_spec in HM by done. cbn [mbind res_bind] in HM.
  destruct (filter (λ k, kPublic k ∉ ids) (Keys (auState a))) as [|k0 l0] eqn:El; [done|]. rewrite <- El in HM. apply bind_ok in HM as ([] & _ & [= <-]).
  destruct (computeStateAt_total M g r c ord HI maxScanIterations P HPo ltac:(lia)) as (s & HCs & HSP). exists P, s. split_and!; [done|done|done|].
  intros now w HV Hw Hless. destruct (picks_to_head M g r c ord HI (auHead a) (auState a) HP P s HPo HSP HPa) as [HPp _].
  assert (Parent u = Some (Hash P)) as Hup.
  { unfold Parent, u. cbn. unfold zlen. rewrite hash_len. cbn. by rewrite array_whole. }
  set (s' := cloneForUpdate (mkState None (DisablementValues (auState a)) (filter (λ k, kPublic k ∉ ids) (Keys (auState a))) (StateID1 (auState a)) (StateID2 (auState a))) u).
  assert (applyVerifiedAUM s u = Ok s') as Hap.
  { destruct (inv_legit _ _ _ _ _ _ _ HI HSP) as [HLs _]. destruct (legit_keys _ _ HLs) as [_ (st' & Hst' & E1 & E2)]. rewrite Hst in Hst'. injection Hst' as <-.
    unfold applyVerifiedAUM, parentMatches. rewrite (state_last _ _ _ (iv_store _ _ _ _ _ HI) HSP). cbn [u withSignatures PrevAUMHash MessageKind aState default from_option id].
    rewrite bool_decide_true by done. cbn [negb StateID1 StateID2]. rewrite !(proj2 (Z.eqb_eq _ _)) by congruence. done. }
  destruct (inform_accepts M MU g r now pk c a ord [u] P c HA HI Hpk ltac:(cbn; lia) ltac:(by constructor) ltac:(done)) as (c' & a' & HInf & HA' & Hsz' & HC).
  { intros c2 o2 HI2. by eapply (inv_agree M MU g r r). }
  { by split. }
  { by apply HI. }
  { constructor; [|constructor]. by exists P, s, s'. }
  exists c', a'. pose proof HA' as [_ [ord' HI'] _ _ _]. destruct (fork_wins r c ord HI P u s s' Hup Hnew c' ord' HI' HC HPp Hap _ a' w HA' ltac:(lia) Hw Hless) as [EH ES].
  split_and!; [done|done|]. intros id. unfold KeyTrusted. rewrite ES. by apply trusted_filter.
Qed.
End recover.

(** ** A key that was added with a compromised key *)
#[local] Existing Instance exChainCrypto.
Definition exStrong : Key := mkKey Key25519 2 (hashArray [7]) None.
Definition exH : AUM := exSign [9] (mkAUM AUMCheckpoint None None None (Some (mkState None [replicate 32 7] [exTrusted; exStrong] 1 2)) None None []).
Definition exV : AUM := exSign [9] (mkAUM AUMAddKey (Some (Hash exH)) (Some (mkKey Key25519 2 (hashArray [8]) None)) None None None None []).
Definition exStart : Mem * tres Authority := Bootstrap 0 ChonkMem exH.
Definition exStartA : Authority := match exStart.2 with Ok a => a | _ => mkAuthority exH exH zeroTkaState end.
Definition exTaken : Mem * Authority * tres () := Inform 1 exStart.1 exStartA [exV].
(** The compromised key goes, with the key that was added with it. *)
Definition exRevoked : list bytes := [hashArray [9]; hashArray [8]].
Definition exFork : AUM := match MakeRetroactiveRevocation exTaken.1.2 exTaken.1.1 exRevoked (hashArray [7]) zeroHash with Ok f => f | _ => exH end.
Definition exRec : AUM := exSign [7] exFork.
Definition exMR (u : AUM) : Prop := u ∈ [exH; exV; exRec].
Lemma exUniverseR : Universe exMR.
Proof.
  split.
  - intros u v Hu Hv. unfold exMR in *. rewrite !elem_of_cons, elem_of_nil in Hu, Hv.
    destruct Hu as [->|[->|[->|[]]]], Hv as [->|[->|[->|[]]]]; try (intros _; reflexivity); intros E; vm_compute in E; discriminate E.
  - exists (λ u, match PrevAUMHash u with None => O | _ => 1%nat end). intros u v Hu Hv. unfold exMR in *. rewrite !elem_of_cons, elem_of_nil in Hu, Hv.
    destruct Hu as [->|[->|[->|[]]]], Hv as [->|[->|[->|[]]]]; intros E; try (vm_compute in E; discriminate E); vm_compute; lia.
Qed.
Definition exHState : State := match computeStateAt exTaken.1.1 maxScanIterations (Hash exH) with Ok t => t | _ => zeroTkaState end.
Lemma exRunTaken : TkaRuns exMR exH 2 exTaken.1.1 exTaken.1.2.
Proof.
  replace 2%nat with (1 `max` size (aums exTaken.1.1))%nat by (vm_compute; reflexivity).
  apply (runs_inform exMR exH 1 1 exStart.1 exStartA [exV] _ _ exTaken.2); [|repeat constructor; unfold exMR; set_solver|exact (triple_eta exTaken)].
  eapply (runs_bootstrap _ exH 0); [by left|vm_compute; reflexivity].
Qed.
Lemma revocation_recovers_witness : KeyTrusted exTaken.1.2 (hashArray [8]) = true ∧
  ∃ c' a', Inform 5 exTaken.1.1 exTaken.1.2 [exRec] = (c', a', Ok ()) ∧ auHead a' = exRec ∧ KeyTrusted a' (hashArray [8]) = false ∧ KeyTrusted a' (hashArray [7]) = true.
Proof.
  split; [vm_compute; reflexivity|].
  destruct (revocation_recovers exMR exUniverseR exH exHashLen 2 exTaken.1.1 exTaken.1.2 exRevoked (hashArray [7]) exFork (Signatures exRec) exRunTaken)
    as (P & s & HP & HS & _ & HR); [apply Nat.leb_le; vm_compute; reflexivity..|vm_compute; reflexivity| |vm_compute; reflexivity|].
  { right. right. by left. }
  change (withSignatures (Signatures exRec) exFork) with exRec in HR.
  assert (Hash P = Hash exH) as EP by (assert (PrevAUMHash exFork = Some (Hash exH)) as E by (vm_compute; reflexivity); congruence). rewrite EP in HS, HR.
  assert (computeStateAt exTaken.1.1 maxScanIterations (Hash exH) = Ok exHState) as Et by (vm_compute; reflexivity). rewrite Et in HS.
  apply (f_equal (λ r, match r with Ok x => x | _ => exHState end)) in HS. cbv beta iota in HS. subst s.
  destruct (HR 5 2) as (c' & a' & H1 & H2 & H3); [vm_compute; reflexivity..| |].
  - intros y Hy. exists 1. assert (ChildAUMs exTaken.1.1 (Hash exH) = [exV]) as Ec by (vm_compute; reflexivity). rewrite Ec in Hy. apply list_elem_of_singleton in Hy as ->. split; [vm_compute; reflexivity|lia].
  - exists c', a'. split_and!; [done|done|rewrite H3; vm_compute; reflexivity..].
Defined.
