(* ===== verification/TkaBuildThms.v ===== *)
(** * Updates that a node makes are accepted

    The builder of updates and the authority that they are for agree. *)

From stdpp Require Import base gmap sets list strings.
From S2P Require Import Prelude GoStd Bytes Tka TkaChain TkaThms TkaChainThms TkaRunsThms.

Section build.
Context `{TkaCrypto}.
Context (signer : bytes → tres (list Signature)) (k : Key).

(** The signer has the private key of [k]. *)
Definition signsFor : Prop := ∀ u, ∃ sg, signer (aumSigHash u) = Ok [mkSignature (kPublic k) sg] ∧ ed25519Consensus (kPublic k) (aumSigHash u) sg = true.
Hypothesis hash_len : ∀ u, zlen (Hash u) = 32.
Hypothesis signs : signsFor.
Hypothesis key_len : zlen (kPublic k) = 32.

Lemma hashArray_hash u : hashArray (Hash u) = Hash u.
Proof. unfold hashArray. pose proof (hash_len u) as HL. unfold zlen in HL. by rewrite take_app_le, take_ge by lia. Qed.

(** What was built so far, while the signer's key is trusted and the last key is kept. *)
Inductive Builds (a : Authority) : UpdateBuilder → Prop :=
  | builds_new b : NewUpdater a = Ok b → Builds a b
  | builds_step b u b' :
      Builds a b → Signatures u = [] → mkUpdate (Some signer) u b = Ok b' →
      keysOk (ubState b) → k ∈ Keys (ubState b) → (MessageKind u = AUMRemoveKey → 1 < zlen (Keys (ubState b))) →
      Builds a b'.

Lemma getKey_elem l x : Forall keyValid l → NoDup (kPublic <$> l) → x ∈ l → getKey l (kPublic x) = Ok x.
Proof.
  intros HV HN Hx. destruct (getKey_cases l (kPublic x) HV) as [(y & Hy & Hin & E)|[_ Hni]].
  - rewrite Hy. f_equal. by apply (NoDup_fmap_inj_on kPublic l).
  - destruct Hni. by apply list_elem_of_fmap_2.
Qed.

(** The message of one step verifies and applies. *)
Lemma step_verifies b u b' h : LastAUMHash (ubState b) = Some (Hash h) → ubParent b = Hash h → Signatures u = [] →
  mkUpdate (Some signer) u b = Ok b' →
  keysOk (ubState b) → k ∈ Keys (ubState b) → (MessageKind u = AUMRemoveKey → 1 < zlen (Keys (ubState b))) →
  ∃ v, ubOut b' = ubOut b ++ [v] ∧ Parent v = Some (Hash h) ∧ aumVerify v (ubState b) false = Ok () ∧
    applyVerifiedAUM (ubState b) v = Ok (ubState b') ∧ ubParent b' = Hash v ∧ ubAuthority b' = ubAuthority b ∧
    aState v = aState u ∧ MessageKind v = MessageKind u.
Proof.
  intros HL HP HSig HM HK Hin HR. unfold mkUpdate in HM. rewrite HSig in HM. set (w := mkAUM _ _ _ _ _ _ _ _) in HM.
  destruct (signs w) as (sg & Hsg & HC). cbn [mbind] in HM. rewrite Hsg in HM. cbn [wrapErr mbind res_bind] in HM.
  set (v := withSignatures _ w) in HM. apply bind_ok in HM as ([] & HV%wrapErr_ok & HM). apply bind_ok in HM as (s' & HA%wrapErr_ok & [= <-]).
  exists v. assert (Parent v = Some (Hash h)) as Hpar.
  { unfold Parent, v, w. cbn. rewrite HP, hash_len. cbn. by rewrite hashArray_hash. }
  destruct HK as [K1 K2 K3]. split_and!; try done. unfold aumVerify. rewrite HV. cbn [wrapErr mbind res_bind]. unfold checkParent. rewrite Hpar, HL, decide_True by done.
  cbn [mbind res_bind]. change (zlen (Signatures v) =? 0) with false. cbn [Signatures v withSignatures w checkEach app mbind res_bind]. unfold GetKey. cbn [sKeyID].
  rewrite getKey_elem by done. cbn [wrapErr mbind res_bind]. unfold signatureVerify.
  assert (kKind k = Key25519) as HKind.
  { rewrite Forall_forall in K1. pose proof (valid_kind k (K1 k Hin)) as Hid. unfold keyID in Hid. by destruct (kKind k). }
  rewrite HKind, key_len. cbn [Z.eqb negb]. change (aumSigHash v) with (aumSigHash w). cbn [sSignature]. rewrite HC. cbn.
  destruct (MessageKind u); try done. specialize (HR eq_refl). destruct (Keys (ubState b)) as [|k1 [|k2 l]]; done.
Qed.

Lemma informLoop_snoc c x l u : informLoop c x (l ++ [u]) = informLoop c x l ≫= λ x, informOne c x u.
Proof.
  revert x. induction l as [|v l IH]; intros x; cbn; [by destruct (informOne c x u)|]. destruct (informOne c x v); cbn; [apply IH|done|done].
Qed.
Lemma applyAll_snoc s l u : applyAll s (l ++ [u]) = applyAll s l ≫= λ s, wrapErr "applying update" (applyVerifiedAUM s u).
Proof.
  revert s. induction l as [|v l IH]; intros s; cbn; [by destruct (applyVerifiedAUM s u)|]. destruct (applyVerifiedAUM s v); cbn; [apply IH|done|done].
Qed.

(** The loop of [InformIdempotent] behind the messages of the builder. *)
Record builtOk (c : Mem) (a : Authority) (h : AUM) (b : UpdateBuilder) : Prop := {
  bo_auth : ubAuthority b = a;
  bo_parent : ubParent b = Hash (default h (last (ubOut b)));
  bo_last : LastAUMHash (ubState b) = Some (ubParent b);
  bo_apply : applyAll (auState a) (ubOut b) = Ok (ubState b);
  bo_inform : ∃ x, informLoop c (mkInform {[Hash h := auState a]} [] (Hash h) true) (ubOut b) = Ok x ∧
    toCommit x = ubOut b ∧ prevHash x = ubParent b ∧ isHeadChain x = true ∧ stateAt x !! ubParent b = Some (ubState b)
}.
Lemma builtOk_step c a h b u b' : builtOk c a h b → Signatures u = [] → mkUpdate (Some signer) u b = Ok b' →
  keysOk (ubState b) → k ∈ Keys (ubState b) → (MessageKind u = AUMRemoveKey → 1 < zlen (Keys (ubState b))) →
  (∀ v, v ∈ ubOut b' → aums c !! Hash v = None) → builtOk c a h b'.
Proof.
  intros [HA HP HL HAp (x & HX & HC & HPr & HH & HSt)] HSig HM HK Hin HR Hnew. rewrite HP in HL, HSt.
  destruct (step_verifies b u b' _ HL HP HSig HM HK Hin HR) as (v & HO & Hpar & HV & Hap & HP' & HAu & _ & _).
  assert (aums c !! Hash v = None) as Hv by (apply Hnew; rewrite HO; apply elem_of_app; right; by left).
  split.
  - congruence.
  - rewrite HO, last_snoc. done.
  - by rewrite (apply_last _ _ _ Hap), HP'.
  - rewrite HO, applyAll_snoc, HAp. cbn. by rewrite Hap.
  - rewrite HO, informLoop_snoc, HX. cbn [mbind res_bind]. unfold informOne, memAUM. rewrite Hv. cbn [of_option]. rewrite Hpar, HSt.
    cbn [mbind res_bind]. rewrite HV. cbn [wrapErr mbind res_bind]. rewrite Hap. cbn [wrapErr mbind res_bind]. eexists. split; [done|]. cbn.
    rewrite HC, HH, HPr, HP, bool_decide_true, HP', lookup_insert_eq by done. done.
Qed.
Lemma builds_ok c a h b : Builds a b → LastAUMHash (auState a) = Some (Hash h) → (∀ v, v ∈ ubOut b → aums c !! Hash v = None) → builtOk c a h b.
Proof.
  intros HB HL. induction HB as [b HN|b u b' HB IH HSig HM HK Hin HR]; intros Hnew.
  - unfold NewUpdater, Head in HN. rewrite HL in HN. injection HN as <-. split; try done. eexists. split; [done|]. cbn. by rewrite lookup_singleton_eq.
  - eapply builtOk_step; eauto. apply IH. intros v Hv. apply Hnew. unfold mkUpdate in HM.
    apply bind_ok in HM as (w & _ & HM). apply bind_ok in HM as (? & _ & HM). apply bind_ok in HM as (? & _ & [= <-]). cbn. apply elem_of_app. by left.
Qed.

(** C30: what the builder promises, the authority does.  When a node whose key is trusted
    makes updates that leave its key trusted, and never remove the last key of
    all, and finishes them - perhaps with a checkpoint of its own accord -, then the
    authority accepts them all, and has the keys and identifiers that the builder had. *)
Theorem built_updates_accepted now c a b us :
  Builds a b → LastAUMHash (auState a) = Some (Hash (auHead a)) →
  keysOk (ubState b) → k ∈ Keys (ubState b) →
  Finalize (Some signer) c b = Ok us → us ≠ [] → (∀ u, u ∈ us → aums c !! Hash u = None) →
  ∃ c' a', Inform now c a us = (c', a', Ok ()) ∧ last us = Some (auHead a') ∧
    Keys (auState a') = Keys (ubState b) ∧ DisablementValues (auState a') = DisablementValues (ubState b) ∧
    StateID1 (auState a') = StateID1 (ubState b) ∧ StateID2 (auState a') = StateID2 (ubState b).
Proof.
  intros HB HL HK Hin HF Hne Hnew. unfold Finalize in HF. apply bind_ok in HF as (hd & Hhd & HF). apply bind_ok in HF as (need & _ & HF).
  apply bind_ok in HF as (b1 & Hb1 & HF).
  assert (us = ubOut b1) as -> by (destruct (ubOut b1); [by injection HF as <-|]; case_decide; by simplify_eq).
  assert (builtOk c a (auHead a) b1 ∧ Keys (ubState b1) = Keys (ubState b) ∧ DisablementValues (ubState b1) = DisablementValues (ubState b) ∧
    StateID1 (ubState b1) = StateID1 (ubState b) ∧ StateID2 (ubState b1) = StateID2 (ubState b)) as (HO & HKeys).
  { destruct need; [|injection Hb1 as <-; split_and!; try done; by apply builds_ok]. apply wrapErr_ok in Hb1. unfold generateCheckpoint in Hb1.
    apply bind_ok in Hb1 as (s & Hs & HM).
    assert (∀ v, v ∈ ubOut b → aums c !! Hash v = None) as Hold.
    { intros v Hv. apply Hnew. unfold mkUpdate in HM. apply bind_ok in HM as (w & _ & HM). apply bind_ok in HM as (? & _ & HM).
      apply bind_ok in HM as (? & _ & [= <-]). cbn. apply elem_of_app. by left. }
    pose proof (builds_ok c a (auHead a) b HB HL Hold) as HO. split; [eapply builtOk_step; [exact HO| |exact HM|exact HK|exact Hin|intros [=]|exact Hnew]; reflexivity|].
    destruct HO as [HA HP HLb HAp _]. rewrite HA, HAp in Hs. injection Hs as <-.
    edestruct (step_verifies b) as (v & _ & _ & _ & Hap & _ & _ & Hst & Hk); [by rewrite HLb, HP|exact HP| |exact HM|exact HK|exact Hin|intros [=]|];
      [reflexivity|].
    unfold applyVerifiedAUM in Hap. destruct (negb _); [done|]. rewrite Hk, Hst in Hap. cbn in Hap. destruct (_ || _); [done|]. by injection Hap as <-. }
  destruct HO as [HA HP HLb HAp (x & HX & HC & HPr & HH & HSt)]. unfold Inform, InformIdempotent.
  destruct (last (ubOut b1)) as [lu|] eqn:El; [|by apply last_None in El]. unfold Head. rewrite HL, HX, HH, HPr, HSt.
  eexists _, _. split; [done|]. split; [done|]. done.
Qed.
End build.

#[local] Instance exBuildCrypto : TkaCrypto := exCrypto exCode.
Definition exSigner (h : bytes) : tres (list Signature) := Ok [mkSignature (hashArray [9]) (ed25519Sign [9] h)].
Definition exAdd : AUM := mkAUM AUMAddKey None (Some (mkKey Key25519 2 (hashArray [8]) None)) None None None None [].
Definition exNewB : UpdateBuilder := match NewUpdater exA0 with Ok b => b | _ => mkBuilder exA0 zeroTkaState [] [] end.
Definition exB : UpdateBuilder := match mkUpdate (Some exSigner) exAdd exNewB with Ok b => b | _ => exNewB end.
Definition exUs : list AUM := match Finalize (Some exSigner) exBoot.1 exB with Ok us => us | _ => [] end.

Lemma exHash_len u : zlen (Hash u) = 32.
Proof. unfold Hash, zlen. cbn [blake2s exBuildCrypto exCrypto]. unfold exHash. by rewrite be_bytes_length. Qed.
Lemma exSigns : signsFor exSigner exTrusted.
Proof. intros u. eexists. split; [done|]. by apply bool_decide_true. Qed.
Lemma exKeysOk s : Keys s = [exTrusted] ∨ Keys s = [exTrusted; mkKey Key25519 2 (hashArray [8]) None] → keysOk s ∧ exTrusted ∈ Keys s.
Proof.
  intros [E|E]; (split; [split; rewrite E|rewrite E; by left]); try done.
  - repeat constructor.
  - cbn. apply NoDup_singleton.
  - repeat constructor.
  - cbn. apply NoDup_cons. split; [|apply NoDup_singleton]. rewrite list_elem_of_singleton. intros Eq. by vm_compute in Eq.
Qed.
Lemma built_updates_accepted_witness :
  zlen exUs = 1 ∧ ∃ c' a', Inform 1 exBoot.1 exA0 exUs = (c', a', Ok ()) ∧ last exUs = Some (auHead a') ∧
    Keys (auState a') = Keys (ubState exB) ∧ DisablementValues (auState a') = DisablementValues (ubState exB) ∧
    StateID1 (auState a') = StateID1 (ubState exB) ∧ StateID2 (auState a') = StateID2 (ubState exB).
Proof.
  split; [vm_compute; reflexivity|].
  assert (Keys (ubState exNewB) = [exTrusted]) as HN by (vm_compute; reflexivity).
  assert (Keys (ubState exB) = [exTrusted; mkKey Key25519 2 (hashArray [8]) None]) as HB by (vm_compute; reflexivity).
  apply (built_updates_accepted exSigner exTrusted exHash_len exSigns eq_refl 1 exBoot.1 exA0 exB exUs).
  - apply (builds_step exSigner exTrusted exA0 exNewB exAdd exB); [apply builds_new; vm_compute; reflexivity|reflexivity|vm_compute; reflexivity
      |apply exKeysOk; auto|apply exKeysOk; auto|intros [=]].
  - vm_compute. reflexivity.
  - apply exKeysOk. auto.
  - apply exKeysOk. auto.
  - vm_compute. reflexivity.
  - intros E. apply (f_equal length) in E. vm_compute in E. discriminate E.
  - intros u Hu. assert (exUs = [exU1]) as E by (vm_compute; reflexivity). rewrite E in Hu. apply list_elem_of_singleton in Hu as ->. vm_compute. reflexivity.
Defined.
